(* ===== verification/_CoqProject ===== *)
-Q . S2P
Prelude.v
Arch.v
Md5.v
Machine.v
Elf.v
Reloc.v
Libc.v
XhMaps.v
XhUtil.v
XhElf.v
XhHook.v
SemiDlfcn.v
XhCore.v
XhookExt.v
XhAsync.v
FakeDlfcn.v
SplayMap.v
SplayTree.v
SplayFacts.v
SplayOps.v
MemoryMetas.v
MemoryFacts.v
MemoryAccounts.v
MemoryContainer.v
MemoryReport.v
MemoryQueue.v
MemoryQueueFacts.v
MemoryQueueRun.v
MemoryHooks.v
HprofReader.v
HprofHeap.v
HprofEngine.v
HprofAnalyzer.v
HprofSearch.v
HprofDump.v
HprofRoundTrip.v
HprofGraph.v
MemGuard.v
MemGuardFacts.v
MemGuardAlloc.v
MemGuardHandlers.v
MemGuardHeap.v
MemGuardHeapFacts.v
MemGuardRun.v
IoCanary.v
IoCanaryFiles.v
IoCanaryIssues.v
IoCanaryRun.v
SqlUtil.v
SqlToken.v
SqlParse.v
SqlTree.v
SqlTreeFacts.v
SqlYyTables.v
SqlYy.v
SqlYyTypes.v
SqlYyAutomaton.v
SqlYyFacts.v
SqlLint.v
LintCore.v
LintCheckers.v
LintProcess.v
LintRun.v
