(* ===== verification/Prelude.v ===== *)
(** * Verification of the native core of TraceHarbor

    TraceHarbor watches Android apps from inside.  Its native libraries carry the logic that
    everything else relies on; this development models:

    - the hook engine of traceharbor-android-commons (src/main/cpp): [libxhook] rewrites the
      GOT slots of loaded libraries so that calls of, say, [malloc] or [pthread_create] reach
      TraceHarbor first; [libsemi_dlfcn] finds libraries and symbols past the restrictions of
      the linker; [md5] names call stacks;
    - the SQL front end of traceharbor-sqlite-lint (src/lemon): a reduced SQLite whose
      tokenizer, keyword table, parser and tree builders turn each statement an app runs into
      tokens and a syntax tree, and what is built on it (src/core, src/checker): the processor that
      makes a key of a statement, the checkers, and the queue and schedule that lead to them;
    - the memory hook of traceharbor-hooks (src/main/cpp/memory, common/struct): it records every
      allocation of an app with its call stack and reports what is still live;
    - the analyser of heap dumps of traceharbor-hprof-analyzer (lib): it parses a dump of the Java
      heap and finds the shortest chains of references that keep suspects alive;
    - the guarded allocator of traceharbor-memguard (src/main/cpp/memguard): it places a sample of
      the allocations between inaccessible pages and reports accesses outside of live blocks;
    - the watcher of file operations of traceharbor-io-canary (src/main/cpp): it sums up what the main
      thread does with each file and reports slow, small and repeated operations.

    Another one, fake_dlfcn.c of traceharbor-backtrace, is a smaller relative of [libsemi_dlfcn].

    ** How the parts interact

    A client registers requests (path pattern, symbol, new function) with xh_core.c.  A refresh
    ([xh_core_refresh], directly or on its thread) asks semi_dlfcn.c to walk over the loaded
    objects; for each wanted one that is new or moved, xh_elf.c parses the image in memory
    ([xh_elf_init]), finds the symbol through .gnu.hash or .hash, visits the relocations (plain
    or packed), and replaces each matching slot; xh_util.c looks the protection of the slot's
    page up in the cached /proc/self/maps of xh_maps.c, makes the page writable and restores
    it.  All of it runs under a SIGSEGV handler, because images may be broken.  xhook_ext.c
    rewrites the export table of a library instead.

    In the SQL front end [sqlite3RunParser] calls [getToken] until the string ends, feeds each
    token to the generated parser and, as an addition of this fork, records the tokens in an
    array even behind an error.  The parser (parse.c, generated by lemon) shifts tokens and
    reduces rules on a stack of a hundred entries; the action of a rule calls the tree builders
    of expr.c, select.c, insert.c, update.c, delete.c and build.c, and a complete statement is
    appended to the results, which the caller disposes of with [sqlite3ParseReset].  Names go
    through [sqlite3NameFromToken] and [sqlite3Dequote].

    A statement that an app runs is queued for the [Lint] of its database (core/lint.cc).  The thread
    there parses it, has the processor (core/sql_Info_processor.cc) write it down with its literals replaced,
    runs the checkers of samples, and those of single statements unless an LRU cache (comm/lru_cache.h) knows the
    key; the checkers ask [LintEnv] (core/lint_env.cc) for tables, indexes and the history, and their issues
    go to a callback.

    The memory hook is a client of the hook engine.  A hooked function (MemoryHookFunctions.cpp)
    calls the original and an entry point of MemoryHook.cpp, which puts a message into one of 256
    queues (MemoryBufferQueue.h) chosen by the pointer.  A background thread
    (MemoryBufferQueue.cpp) exchanges a filled queue for an empty one and feeds its messages to a
    container (MemoryHookMetas.h) of two splay maps (splay_map.h): live pointers, and call stacks
    by hash, with a chain of blocks behind a hash that several stacks share.  [collect_metas] sums
    the live pointers up by caller and by stack.

    The analyser maps a dump into memory.  The parser (parser/engine.cpp) reads its records with a
    cursor over the bytes (reader/) and tells the heap (heap/) about strings, classes, roots,
    objects and references; the fields of instances are read last, when all classes are known.
    The client chooses suspects, analyzer/analyzer.cpp searches the graph of references breadth
    first from the roots, and main/analyzer.cpp puts names to the chains.

    MemGuard is another client of the hook engine.  [Install] (MemGuard.cpp) maps an area of slots
    with a guard page between any two (PagePool.cpp), installs a handler for SIGSEGV and hooks the
    allocation functions.  A handler of Interception.cpp asks Allocation.cpp for a block; if this
    call is sampled and a slot is free, the block is put at the left or the right end of the slot,
    whose pages are opened; otherwise the C library answers.  Freeing closes the pages again.  On
    a fault in the area, SignalHandler.cpp has Issue.cpp find the nearest slot, classify the access
    and report it with the stacks that the slot has recorded.

    The watcher of file operations hooks open, read, write and close.  Its hooks (io_canary_jni.cc) keep
    a record per descriptor (core/io_info_collector.cc); closing a descriptor puts the record into a
    queue, from which the thread of core/io_canary.cc takes it, shows it to the detectors and
    publishes their issues.  The key of an issue is an MD5 digest of the path and four lines of the stack.

    ** Files

    - [Prelude] (this file): machine integers, little-endian bytes, generic lemmas on lists and
      bits, tactics.
    - [Arch]: the four ABIs, class [Arch].
    - [Machine]: the results of C code ([Ok], a fault, an abort, undefined behaviour, too
      little fuel), the state monad with its rules, memory with page protections, and the
      system calls (class [Kernel]).
    - [Elf], [Libc]: the parts of elf.h, link.h and the C library that the sources use.
    - [Md5]: md5/md5.c in module [Md5]; RFC 1321 in [Md5Spec].
    - [Reloc]: the relocation iterators of xh_elf.c; section encodings in [Packed].
    - [XhMaps], [XhUtil], [XhElf], [XhCore]: the C files of those names; [XhHook]: theorems on
      hooking as a whole; [XhAsync]: the refresh thread of xh_core.c as a transition system.
    - [XhookExt]: xhook.c, xhook_ext.c, xh_version.c.
    - [SemiDlfcn]: semi_dlfcn.c.
    - [FakeDlfcn]: fake_dlfcn.c.
    - [SplayMap]: common/struct/splay_map.h and buffer_source.h; [SplayTree]: top-down splaying on
      trees; [SplayFacts]: the arrays as trees and finite maps; [SplayOps]: theorems on sequences
      of operations.
    - [MemoryMetas]: the container of MemoryHookMetas.h, the handling of a message and
      [collect_metas]; [MemoryFacts]: the records of stacks and their chains; [MemoryAccounts]:
      which pointers a record counts; [MemoryContainer]: the operations on the container;
      [MemoryReport]: what is reported after any messages.
    - [MemoryQueue]: the queues, the entry points and the thread; [MemoryQueueFacts]: the
      operations of a queue; [MemoryQueueRun]: every schedule of callers and thread;
      [MemoryHooks]: the hooked functions and the hook as a whole.
    - [HprofReader], [HprofHeap], [HprofEngine], [HprofAnalyzer]: lib/reader with lib/err,
      lib/heap, lib/parser, and lib/analyzer with lib/main; [HprofSearch]: the search;
      [HprofDump]: the format of dumps as data, its bytes and its meaning; [HprofRoundTrip]: the
      parser against the format; [HprofGraph]: from the bytes of a dump to chains of its objects.
    - [MemGuard]: memguard/ without the handlers; [MemGuardHandlers]: util/Interception.cpp;
      [MemGuardFacts], [MemGuardAlloc]: the layout of the area, the invariant of the pool and its
      operations; [MemGuardHeap]: the heap that a program sees, the contract of the C library and
      what each call does; [MemGuardHeapFacts]: the handlers against it; [MemGuardRun]: threads,
      sequences of calls, faults, and the theorems.
    - [IoCanary]: core/, detector/, comm/ and the hooks of io-canary; [IoCanaryFiles]: records against the
      histories of files; [IoCanaryIssues]: the detectors; [IoCanaryRun]: every schedule.
    - [SqlUtil], [SqlToken], [SqlParse]: lemon/util.c (in part), lemon/keywordhash.h and
      lemon/tokenize.c.
    - [SqlTree]: the syntax trees of sqliteInt.h and the functions that build and delete them;
      [SqlTreeFacts]: what each of them needs and yields.
    - [SqlYyTables], [SqlYy]: lemon/parse.c, its tables, and its engine with the actions of all
      rules; [SqlYyAutomaton] validates the tables by computation, [SqlYyTypes] gives every
      symbol of the grammar a type and proves that the actions respect it, [SqlYyFacts] puts
      both together to an invariant of the stack.
    - [SqlLint]: the parser as an instance of the interface of [SqlParse], and the theorems on
      linting as a whole.
    - [LintCore]: comm/ and core/lint_env.cc, lint_info.cc, lint_logic.cc, white_list_mgr.cc; [LintCheckers]: checker/;
      [LintProcess]: core/sql_Info_processor.cc; [LintRun]: core/lint.cc and lint_manager.cc.

    Each C file is a module of the same name; a function of the source is a definition of the
    same name, a loop a [Fixpoint] next to it; theorems are in modules whose names end in
    [Facts] (and in [Sleb], [Packed] and [MapsText], which hold the encoders that the iterators
    and the parser of map lines undo), worked examples in the modules with [Demo] in the name.

    ** How C is translated

    An unsigned integer of [w] bits is a [Z] in [0 .. 2^w), with [wrap w] wherever C computes
    modulo [2^w]; signed overflow is [Undef].  Pointers are addresses of the [machine]; a load
    or store checks mapping and protection and may end in [Segv].  Code that changes state is a
    computation in [M S A = S -> result A * S], where [S] is the record of what the component
    can reach ([machine], [process], [world], [run]); code that only reads is a function to
    [result].  What is not in the repository is a class: [Kernel] (the page size, answers of [mprotect]
    and [process_vm_writev], and the text of /proc/self/maps), [Mapper] (where [mmap] puts an
    area), [OriginalFunctions] (the C library behind MemGuard), [Linker] (API level, loaded objects,
    auxiliary vector, files), [Posix] (regular expressions, TLS keys, [sigaction]).  The driver of
    the SQL parser is written against a class, too ([LemonParser], with its promises in
    [LemonSafe]), which the generated parser instantiates in [SqlLint].  Theorems hold for every instance, except for the
    documented behaviour that a hypothesis names; each such theorem has a witness with a
    concrete instance.  Allocation failures are a list of outcomes, consumed in order; an empty
    list means that memory lasts.

    ** Loops and fuel

    A loop whose bound is visible is structural.  Others take fuel, and the theorems about them
    prove that enough of it gives the result, not that a result, if any, is right:
    - [sleb128_fuel] is 11: the ten shift amounts below 64 allow ten iterations, and the
      eleventh, if the number has not ended, shifts by too much and is undefined;
    - [chain_fuel] is 112: the chains of the keyword table hold each of 111 keywords once;
    - [buf_size] is 10, the size of the buffer in [sqlite3PutVarint];
    - hash chains and relocation loops take a parameter; the theorems on lookup and hooking
      hold for every fuel above the number of symbols and relocations;
    - [run_parser] takes a parameter that has to exceed the length of the statement;
    - [parser_fuel] is 1000: a token causes at most eight reductions per entry of the stack
      ([explore] checks this on the tables), and the stack has at most a hundred entries;
    - splaying and the walk over a tree take the size of the array, [search_chain] and [find_prev]
      the number of blocks: a chain has no block twice;
    - the memory hook is shown for up to [2^24] messages: up to there no size of a buffer overflows
      on a target with 32-bit words;
    - the search for a chain takes the number of roots and references (every object enters the
      queue once, a root once for each time it is marked), the way back the number of objects,
      the walk over superior classes the number of class records, and the loops of the parser the
      bytes of the dump or of the segment;
    - dividing the indexes of a table into groups takes their number (a group has at least one), and the scan for a
      section the number of executions;
    - [strdup] under MemGuard looks for the terminator with a parameter above the length of the text;
    - [max_tables] is 16384: up to there the 16-bit size of a list of tables does not overflow,
      and a statement with fewer tokens has fewer tables.

    ** What the theorems show

    - Hooking ([XhHook], [XhElf], [Reloc], [XhUtil], [XhMaps]): on a well-formed image a hook
      changes exactly the slots of the symbol, keeps protections, and never chains a function
      to itself; the packed relocation iterator decodes what the encoder wrote; initialisation
      finds the tables; a failed replacement leaves the slot alone; which addresses have a
      protection.
    - Requests and refresh ([XhCore], [XhAsync]): the meaning of hook and ignore requests; the
      registry is in step with the loaded libraries after a refresh; faults are contained; the
      blocker nests; no asynchronous request is lost and stopping terminates.
    - Libraries and symbols ([SemiDlfcn], [XhookExt]): what is visited, that a handle stands
      for the library asked for, that a lookup finds the right address, bounds of section
      reads.
    - MD5: the digest is that of RFC 1321 for every split of the message and both widths of
      [unsigned long]; hexadecimal signatures round-trip.
    - SQL ([SqlUtil], [SqlToken], [SqlParse]): the keyword hash equals a search in the list of
      keywords; the tokenizer stays in bounds and advances; quoting and variable-length
      integers round-trip; the driver records every token.
    - SQL parser ([SqlYyFacts], [SqlLint]): the tables are consistent; fed any tokens but
      registers and CAST the parser terminates, never takes a value for one of another type,
      dereferences no null pointer and frees only what can be freed; what passes without a
      message is a sentence of the grammar; linting a statement from its text to the disposal of
      the results is defined.
    - Checking statements ([LintCheckers], [LintProcess], [LintRun]): the indexes that are advised to be kept cover all
      indexes of a table and none of them another; which repeated statements are reported; the key of a statement does
      not depend on its literals; and from the queue to the callback, which statements are reported for
      selecting all columns, given what the cache remembers, next to any other checkers.
    - Symbols through the file on disk ([FakeDlfcn]): which address a lookup returns, and that a
      handle owns the copies of its tables.
    - Memory hook ([SplayOps], [MemoryReport], [MemoryHooks]): a splay map refines a finite map, and
      refused memory leaves it as it was; after any messages a collection shows exactly the live
      allocations by caller and stack, even where hashes collide; and whatever a program does with
      the hooked functions and however the thread is scheduled, it will show exactly the heap,
      unless a message was refused for lack of memory.
    - Heap dumps ([HprofSearch], [HprofRoundTrip], [HprofGraph]): the parser does to the heap what
      the records of any well-formed dump say; the search ends and finds a shortest chain exactly
      for the suspects that are reachable and no roots; both together, from the bytes of a dump to
      the chains through the fields, static fields and array elements of its objects.
    - Guarded allocations ([MemGuardRun]): from an installation on, any legal calls of any threads
      see a heap of blocks that are apart, aligned and keep their bytes; a store outside of the
      pages of live blocks faults and is reported with the block next to it; uses of freed blocks
      and second frees fault and are reported with both stacks; which allocations are sampled.
    - File operations ([IoCanaryRun]): under every schedule each closed file is summed up, shown to the
      detectors in order and never left in the queue; a detector publishes the first issue of every
      key, and reports of repeated reads are backed by as many reads.
    - A few theorems pin down behaviour that the code does not mean to have: a binary search
      that does not end, a callback that measures a pointer, a dangling name, the statement
      that ends in an exclamation mark, and so on.

    ** What is not modelled

    Logging, JNI glue, [free] (memory that was allocated is not tracked), the containers of
    queue.h and tree.h (their clients use lists and finite maps), the dump functions that are
    compiled out, big-endian hosts, floating point, the formatted output of lemon/printf.c beyond
    the one directive that error messages use, and the functions of lemon/ that nothing calls
    while linting (copying of trees, the code generator, the operating system layer).  Fields of
    the trees that only the code generator of SQLite uses are left out.  In the memory hook a call
    of a hooked function is one step, so that two threads do not meet inside a hook, and the
    formatting of the report is left out.  Of the analyser of dumps, mapping the file into memory
    and the forwards of the public interface are left out; the chains are followed from the bytes
    on without exclusion rules (with rules, the parser and the search are covered one by one).
    In MemGuard a call of a handler is one step as well; the records of the slots are an array and
    not bytes of the process; the text of reports, the thread that writes them, thread names and
    stack traces (arguments), and the parts of the installation outside of the allocator (outcomes
    that [Install] is given) are left out.  What a store to a page of a live block beside the block
    does is not detected by the code and not claimed.  In io-canary a hooked call is one step and so is
    a round of the thread; JNI, the installation of its hooks and the destructor's race with the thread
    are left out.  In sqlite-lint the check of a statement is one step of the thread; the checker on query plans
    is an argument of the schedule: it interprets texts of the SQLite of the platform.
    The rest of TraceHarbor is C++ on top of these parts (other hooks, JNI), Kotlin or
    vendored code. *)
From Stdlib Require Export ZArith Lia.
From stdpp Require Export base list list_numbers numbers gmap strings.

#[global] Open Scope Z_scope.

(** * Machine integers

    An unsigned C integer of [w] bits is a [Z] in [0 .. 2^w); arithmetic that the
    C standard defines modulo [2^w] is written with [wrap w] around the exact
    result, a conversion to a narrower type is the same function.  [swrap] is the
    two's complement reading of the low [w] bits (conversion to a signed type). *)

Definition wrap (w z : Z) : Z := z mod 2 ^ w.

Definition swrap (w z : Z) : Z := (z + 2 ^ (w - 1)) mod 2 ^ w - 2 ^ (w - 1).

Abbreviation u8 := (wrap 8).
Abbreviation u16 := (wrap 16).
Abbreviation u32 := (wrap 32).
Abbreviation u64 := (wrap 64).
Abbreviation s32 := (swrap 32).

(** [b] is the value of an [unsigned char]. *)
Definition is_byte (b : Z) : Prop := 0 <= b < 256.

#[global] Instance is_byte_dec b : Decision (is_byte b).
Proof. unfold is_byte. apply _. Defined.

(** [z] is the value of a [w]-bit unsigned integer. *)
Definition in_word (w z : Z) : Prop := 0 <= z < 2 ^ w.

#[global] Instance in_word_dec w z : Decision (in_word w z).
Proof. unfold in_word. apply _. Defined.

(** [decide_now]: prove a decidable proposition about concrete data by evaluation. *)
Ltac decide_now := apply (bool_decide_unpack _); vm_compute; exact I.

Create HintDb words.

Lemma wrap_range w z : 0 <= w -> 0 <= wrap w z < 2 ^ w.
Proof. intros. apply Z.mod_pos_bound, Z.pow_pos_nonneg; lia. Qed.

Lemma wrap_small w z : 0 <= z < 2 ^ w -> wrap w z = z.
Proof. apply Z.mod_small. Qed.

Lemma wrap_wrap w z : 0 <= w -> wrap w (wrap w z) = wrap w z.
Proof. intros. by apply wrap_small, wrap_range. Qed.

Lemma wrap_add w a b : 0 <= w -> wrap w (wrap w a + wrap w b) = wrap w (a + b).
Proof. intros. unfold wrap. by rewrite <- Z.add_mod by (apply Z.pow_nonzero; lia). Qed.

Lemma wrap_add_l w a b : 0 <= w -> wrap w (wrap w a + b) = wrap w (a + b).
Proof. intros. unfold wrap. by rewrite Zplus_mod_idemp_l. Qed.

Lemma wrap_add_r w a b : 0 <= w -> wrap w (a + wrap w b) = wrap w (a + b).
Proof. intros. unfold wrap. by rewrite Zplus_mod_idemp_r. Qed.

Lemma wrap_testbit w z i : 0 <= w ->
  Z.testbit (wrap w z) i = (i <? w) && Z.testbit z i.
Proof.
  intros Hw. unfold wrap. destruct (Z.ltb_spec i w) as [Hlt|Hge]; simpl.
  - destruct (Z.ltb_spec i 0).
    + by rewrite !Z.testbit_neg_r by lia.
    + by rewrite Z.mod_pow2_bits_low by lia.
  - by rewrite Z.mod_pow2_bits_high by lia.
Qed.

(** Truncating twice: the narrower width wins. *)
Lemma wrap_wrap_le w v z : 0 <= w <= v -> wrap w (wrap v z) = wrap w z.
Proof.
  intros H. apply Z.bits_inj'. intros i Hi.
  rewrite !wrap_testbit by lia.
  destruct (Z.ltb_spec i w), (Z.ltb_spec i v); simpl; auto; lia.
Qed.

Lemma wrap_land w a b : 0 <= w -> wrap w (Z.land a b) = Z.land (wrap w a) (wrap w b).
Proof.
  intros. apply Z.bits_inj'. intros i Hi.
  rewrite Z.land_spec, !wrap_testbit, Z.land_spec by lia.
  by destruct (i <? w).
Qed.

Lemma wrap_lor w a b : 0 <= w -> wrap w (Z.lor a b) = Z.lor (wrap w a) (wrap w b).
Proof.
  intros. apply Z.bits_inj'. intros i Hi.
  rewrite Z.lor_spec, !wrap_testbit, Z.lor_spec by lia.
  by destruct (i <? w).
Qed.

Lemma wrap_lxor w a b : 0 <= w -> wrap w (Z.lxor a b) = Z.lxor (wrap w a) (wrap w b).
Proof.
  intros. apply Z.bits_inj'. intros i Hi.
  rewrite Z.lxor_spec, !wrap_testbit, Z.lxor_spec by lia.
  by destruct (i <? w).
Qed.

(** Seven-bit groups and disjoint bit ranges, for the two LEB128-like encodings. *)
Lemma land_127 z : Z.land z 127 = z mod 128.
Proof. change 127 with (Z.ones 7). by rewrite Z.land_ones by lia. Qed.

Lemma land_127_range z : 0 <= Z.land z 127 < 128.
Proof. rewrite land_127. apply Z.mod_pos_bound. lia. Qed.

Lemma lor_shiftl a b n : 0 <= n -> 0 <= a < 2 ^ n -> Z.lor a (Z.shiftl b n) = a + b * 2 ^ n.
Proof.
  intros Hn Ha. rewrite <- Z.shiftl_mul_pow2 by done.
  assert (Z.land a (Z.shiftl b n) = 0) as E.
  { apply Z.bits_inj'. intros i Hi. rewrite Z.land_spec, Z.bits_0.
    destruct (Z.ltb_spec i n).
    - rewrite Z.shiftl_spec_low by lia. apply andb_false_r.
    - rewrite <- (Z.mod_small a (2 ^ n)), Z.mod_pow2_bits_high by lia. done. }
  rewrite Z.add_nocarry_lxor by done. symmetry. by apply Z.lxor_lor.
Qed.

#[export] Hint Resolve wrap_range : words.

(** * Little-endian words *)

(** The word whose little-endian bytes are [bs]: [*(uintN_t * )p] on the targets of
    the library, which are all little endian. *)
Fixpoint le_word (bs : list Z) : Z :=
  match bs with
  | [] => 0
  | b :: bs => b + 256 * le_word bs
  end.

(** The [n] little-endian bytes of [z]. *)
Fixpoint le_bytes (n : nat) (z : Z) : list Z :=
  match n with
  | O => []
  | S n => z mod 256 :: le_bytes n (z / 256)
  end.

Lemma length_le_bytes n z : length (le_bytes n z) = n.
Proof. revert z. induction n; simpl; auto. Qed.

Lemma le_bytes_is_byte n z : Forall is_byte (le_bytes n z).
Proof.
  revert z. induction n; simpl; constructor; auto.
  apply Z.mod_pos_bound. lia.
Qed.

Lemma pow256_S n : 256 ^ Z.of_nat (S n) = 256 * 256 ^ Z.of_nat n.
Proof. rewrite Nat2Z.inj_succ, Z.pow_succ_r by lia. lia. Qed.

Lemma le_word_bytes n z : le_word (le_bytes n z) = z mod 256 ^ Z.of_nat n.
Proof.
  revert z. induction n as [|n IH]; intros z.
  - simpl. by rewrite Z.mod_1_r.
  - cbn [le_bytes le_word]. rewrite IH, pow256_S.
    rewrite Z.rem_mul_r by (try apply Z.pow_nonzero; lia). lia.
Qed.

Lemma le_word_range bs : Forall is_byte bs -> 0 <= le_word bs < 256 ^ Z.of_nat (length bs).
Proof.
  induction 1 as [|b bs Hb _ IH]; [done|].
  cbn [le_word length]. rewrite pow256_S. unfold is_byte in Hb. lia.
Qed.

Lemma le_bytes_word bs : Forall is_byte bs -> le_bytes (length bs) (le_word bs) = bs.
Proof.
  induction 1 as [|b bs Hb _ IH]; [done|]. unfold is_byte in Hb.
  cbn [le_word le_bytes length]. f_equal.
  - rewrite (Z.mul_comm 256), Z.mod_add by lia. by rewrite Z.mod_small.
  - by rewrite (Z.mul_comm 256), Z.div_add, Z.div_small by lia.
Qed.

Lemma le_bytes_mod n z : le_bytes n (z mod 256 ^ Z.of_nat n) = le_bytes n z.
Proof.
  rewrite <- le_word_bytes.
  rewrite <- (length_le_bytes n z) at 1. apply le_bytes_word, le_bytes_is_byte.
Qed.
