(* ===== verification/Arch.v ===== *)
(** The targets of the native library.

    The C sources select word size, ELF machine and relocation types with
    [#if defined(__arm__)] and its three siblings; [Arch] is that selection, and the
    four instances are the four branches.  Everything below that depends on
    [sizeof(void * )], [unsigned long], [ElfW(...)] or [XH_ELF_R_GENERIC_*] takes an
    [Arch], so a theorem about it holds on all four ABIs. *)
From S2P Require Import Prelude.

Class Arch := {
  (** Bits of [uintptr_t], [size_t] and [unsigned long]: 64 exactly when [__LP64__]. *)
  word_bits : Z;
  (** [e_machine] of the target, [EM_*] of elf.h. *)
  elf_machine : Z;
  (** Relocation types, [XH_ELF_R_GENERIC_*] of xh_elf.c. *)
  R_GENERIC_JUMP_SLOT : Z;
  R_GENERIC_GLOB_DAT : Z;
  R_GENERIC_ABS : Z;
  word_bits_cases : word_bits = 32 \/ word_bits = 64;
}.

#[export] Instance arch_arm : Arch :=
  {| word_bits := 32; elf_machine := 40;
     R_GENERIC_JUMP_SLOT := 22; R_GENERIC_GLOB_DAT := 21; R_GENERIC_ABS := 2;
     word_bits_cases := or_introl eq_refl |}.

#[export] Instance arch_aarch64 : Arch :=
  {| word_bits := 64; elf_machine := 183;
     R_GENERIC_JUMP_SLOT := 1026; R_GENERIC_GLOB_DAT := 1025; R_GENERIC_ABS := 257;
     word_bits_cases := or_intror eq_refl |}.

#[export] Instance arch_i386 : Arch :=
  {| word_bits := 32; elf_machine := 3;
     R_GENERIC_JUMP_SLOT := 7; R_GENERIC_GLOB_DAT := 6; R_GENERIC_ABS := 1;
     word_bits_cases := or_introl eq_refl |}.

#[export] Instance arch_x86_64 : Arch :=
  {| word_bits := 64; elf_machine := 62;
     R_GENERIC_JUMP_SLOT := 7; R_GENERIC_GLOB_DAT := 6; R_GENERIC_ABS := 1;
     word_bits_cases := or_intror eq_refl |}.

Section Arch.
Context `{A : Arch}.

(** [sizeof(void * )]. *)
Definition word_bytes : Z := word_bits / 8.

(** Arithmetic on [uintptr_t], [size_t] and [unsigned long]. *)
Definition uword (z : Z) : Z := wrap word_bits z.

(** [ssize_t] and [long]. *)
Definition sword (z : Z) : Z := swrap word_bits z.

Definition is_lp64 : bool := word_bits =? 64.

Lemma word_bits_ge : 32 <= word_bits.
Proof. destruct word_bits_cases; lia. Qed.

Lemma word_bits_nonneg : 0 <= word_bits.
Proof. destruct word_bits_cases; lia. Qed.

Lemma word_bytes_cases : (word_bits = 32 /\ word_bytes = 4) \/ (word_bits = 64 /\ word_bytes = 8).
Proof. unfold word_bytes. destruct word_bits_cases as [-> | ->]; auto. Qed.

Lemma uword_range z : 0 <= uword z < 2 ^ word_bits.
Proof. apply wrap_range, word_bits_nonneg. Qed.

Lemma uword_small z : 0 <= z < 2 ^ word_bits -> uword z = z.
Proof. apply wrap_small. Qed.

Lemma uword_idemp z : uword (uword z) = uword z.
Proof. apply wrap_wrap, word_bits_nonneg. Qed.

(** The low 32 bits survive a truncation to the machine word. *)
Lemma u32_uword z : u32 (uword z) = u32 z.
Proof. apply wrap_wrap_le. pose proof word_bits_ge. lia. Qed.
End Arch.

#[export] Hint Resolve uword_range word_bits_nonneg word_bits_ge : words.
