(* ===== verification/Md5.v ===== *)
(** The MD5 digest of android-commons (src/main/cpp/md5/md5.c).

    Module [Md5] translates md5.c; module [Md5Spec] states the digest of RFC 1321 on
    whole messages.  The library accumulates a block at a time into an [md5_t], and
    keeps its registers in [unsigned long], which has 64 bits on LP64 targets: the
    carries that leak above bit 31 must not reach the digest.  The theorems of module
    [Md5Facts] relate the two. *)
From S2P Require Import Prelude Arch.

(** * The digest of RFC 1321 *)
Module Md5Spec.

Definition not32 (x : Z) : Z := u32 (Z.lnot x).
Definition F (x y z : Z) : Z := Z.lor (Z.land x y) (Z.land (not32 x) z).
Definition G (x y z : Z) : Z := Z.lor (Z.land x z) (Z.land y (not32 z)).
Definition H (x y z : Z) : Z := Z.lxor (Z.lxor x y) z.
Definition I (x y z : Z) : Z := Z.lxor y (Z.lor x (not32 z)).

Definition rotl (x n : Z) : Z := u32 (Z.lor (Z.shiftl x n) (Z.shiftr x (32 - n))).

(** The sine table: entry [i] is the integer part of [2^32 * abs (sin (i + 1))]. *)
Definition T : list Z :=
  [0xd76aa478; 0xe8c7b756; 0x242070db; 0xc1bdceee;
   0xf57c0faf; 0x4787c62a; 0xa8304613; 0xfd469501;
   0x698098d8; 0x8b44f7af; 0xffff5bb1; 0x895cd7be;
   0x6b901122; 0xfd987193; 0xa679438e; 0x49b40821;
   0xf61e2562; 0xc040b340; 0x265e5a51; 0xe9b6c7aa;
   0xd62f105d; 0x02441453; 0xd8a1e681; 0xe7d3fbc8;
   0x21e1cde6; 0xc33707d6; 0xf4d50d87; 0x455a14ed;
   0xa9e3e905; 0xfcefa3f8; 0x676f02d9; 0x8d2a4c8a;
   0xfffa3942; 0x8771f681; 0x6d9d6122; 0xfde5380c;
   0xa4beea44; 0x4bdecfa9; 0xf6bb4b60; 0xbebfbc70;
   0x289b7ec6; 0xeaa127fa; 0xd4ef3085; 0x04881d05;
   0xd9d4d039; 0xe6db99e5; 0x1fa27cf8; 0xc4ac5665;
   0xf4292244; 0x432aff97; 0xab9423a7; 0xfc93a039;
   0x655b59c3; 0x8f0ccc92; 0xffeff47d; 0x85845dd1;
   0x6fa87e4f; 0xfe2ce6e0; 0xa3014314; 0x4e0811a1;
   0xf7537e82; 0xbd3af235; 0x2ad7d2bb; 0xeb86d391].

(** Shift amounts of the four rounds. *)
Definition S_ : list (list Z) :=
  [[7; 12; 17; 22]; [5; 9; 14; 20]; [4; 11; 16; 23]; [6; 10; 15; 21]].

Definition round_fun (i : nat) : Z -> Z -> Z -> Z :=
  match (i / 16)%nat with 0%nat => F | 1%nat => G | 2%nat => H | _ => I end.

(** Which of the sixteen words operation [i] adds. *)
Definition word_index (i : nat) : nat :=
  match (i / 16)%nat with
  | 0%nat => i mod 16
  | 1%nat => (5 * i + 1) mod 16
  | 2%nat => (3 * i + 5) mod 16
  | _ => (7 * i) mod 16
  end%nat.

Definition shift (i : nat) : Z := nth (i mod 4) (nth (i / 16) S_ []) 0.

Definition regs : Type := Z * Z * Z * Z.

(** One of the 64 operations on the four working registers. *)
Definition step (X : list Z) (r : regs) (i : nat) : regs :=
  let '(a, b, c, d) := r in
  let f := round_fun i b c d in
  (d, u32 (b + rotl (u32 (a + f + nth (word_index i) X 0 + nth i T 0)) (shift i)), b, c).

(** The [i]-th little-endian word of a block. *)
Definition block_word (block : list Z) (i : nat) : Z := le_word (take 4 (drop (4 * i) block)).

Definition compress (r : regs) (block : list Z) : regs :=
  let X := block_word block <$> seq 0 16 in
  let '(a, b, c, d) := r in
  let '(a', b', c', d') := foldl (step X) r (seq 0 64) in
  (u32 (a + a'), u32 (b + b'), u32 (c + c'), u32 (d + d')).

(** [n] blocks of [bytes] absorbed into [r]. *)
Fixpoint absorb (n : nat) (r : regs) (bytes : list Z) : regs :=
  match n with
  | O => r
  | S n => absorb n (compress r (take 64 bytes)) (drop 64 bytes)
  end.

Definition init : regs := (0x67452301, 0xefcdab89, 0x98badcfe, 0x10325476).

(** A one bit, zeros up to 56 modulo 64, and the length in bits as 64-bit word. *)
Definition padding (len : nat) : list Z :=
  0x80 :: replicate (Z.to_nat ((55 - Z.of_nat len) mod 64)) 0
    ++ le_bytes 8 (8 * Z.of_nat len).

Definition output (r : regs) : list Z :=
  let '(a, b, c, d) := r in
  le_bytes 4 a ++ le_bytes 4 b ++ le_bytes 4 c ++ le_bytes 4 d.

Definition digest (msg : list Z) : list Z :=
  let padded := msg ++ padding (length msg) in
  output (absorb (length padded / 64) init padded).
End Md5Spec.

(** * md5.c *)
Module Md5.

(** [md5_t] of md5.h; [data], sixteen [unsigned int]s used as a byte buffer, is its 64
    bytes. *)
Record md5_t := MkMd5 {
  A : Z; B : Z; C : Z; D : Z;
  Nl : Z; Nh : Z;
  data : list Z;
  num : Z
}.

Definition MD5_CBLOCK : Z := 64.
Definition MD5_SIZE : Z := 16.

Section Abi.
Context `{Ar : Arch}.

(** The macros F, G, H, I and ROTATE at type [unsigned long]. *)
Definition F (b c d : Z) : Z := Z.lxor (Z.land (Z.lxor c d) b) d.
Definition G (b c d : Z) : Z := Z.lxor (Z.land (Z.lxor b c) d) c.
Definition H (b c d : Z) : Z := Z.lxor (Z.lxor b c) d.
Definition I (b c d : Z) : Z := Z.lxor (Z.lor (uword (Z.lnot d)) b) c.

Definition ROTATE (a n : Z) : Z :=
  Z.lor (uword (Z.shiftl a n)) (Z.shiftr (Z.land a 0xffffffff) (32 - n)).

(** The four round macros [R0] .. [R3], which differ in the function they use. *)
Inductive macro := R0 | R1 | R2 | R3.

Definition macro_fun (m : macro) : Z -> Z -> Z -> Z :=
  match m with R0 => F | R1 => G | R2 => H | R3 => I end.

(** [R(a, b, c, d, k, s, t)]: the new value of [a]. *)
Definition R (m : macro) (a b c d k s t : Z) : Z :=
  let a := uword (a + (k + t + macro_fun m b c d)) in
  let a := ROTATE a s in
  uword (a + b).

(** The local variables [A], [B], [C], [D] of [md5_block_data_order]. *)
Inductive reg := rA | rB | rC | rD.

Record regs := Regs { vA : Z; vB : Z; vC : Z; vD : Z }.

Definition get (r : reg) (g : regs) : Z :=
  match r with rA => vA g | rB => vB g | rC => vC g | rD => vD g end.

Definition set (r : reg) (v : Z) (g : regs) : regs :=
  match r with
  | rA => Regs v (vB g) (vC g) (vD g)
  | rB => Regs (vA g) v (vC g) (vD g)
  | rC => Regs (vA g) (vB g) v (vD g)
  | rD => Regs (vA g) (vB g) (vC g) v
  end.

(** One macro call of the straight-line body: [Rm(a, b, c, d, X(k), s, t)]. *)
Inductive op := Op (m : macro) (a b c d : reg) (k : nat) (s t : Z).

(** The 64 calls of the body, in the order of the source. *)
Definition body : list op :=
[
 Op R0 rA rB rC rD 0 7 0xd76aa478;
 Op R0 rD rA rB rC 1 12 0xe8c7b756;
 Op R0 rC rD rA rB 2 17 0x242070db;
 Op R0 rB rC rD rA 3 22 0xc1bdceee;
 Op R0 rA rB rC rD 4 7 0xf57c0faf;
 Op R0 rD rA rB rC 5 12 0x4787c62a;
 Op R0 rC rD rA rB 6 17 0xa8304613;
 Op R0 rB rC rD rA 7 22 0xfd469501;
 Op R0 rA rB rC rD 8 7 0x698098d8;
 Op R0 rD rA rB rC 9 12 0x8b44f7af;
 Op R0 rC rD rA rB 10 17 0xffff5bb1;
 Op R0 rB rC rD rA 11 22 0x895cd7be;
 Op R0 rA rB rC rD 12 7 0x6b901122;
 Op R0 rD rA rB rC 13 12 0xfd987193;
 Op R0 rC rD rA rB 14 17 0xa679438e;
 Op R0 rB rC rD rA 15 22 0x49b40821;
 Op R1 rA rB rC rD 1 5 0xf61e2562;
 Op R1 rD rA rB rC 6 9 0xc040b340;
 Op R1 rC rD rA rB 11 14 0x265e5a51;
 Op R1 rB rC rD rA 0 20 0xe9b6c7aa;
 Op R1 rA rB rC rD 5 5 0xd62f105d;
 Op R1 rD rA rB rC 10 9 0x02441453;
 Op R1 rC rD rA rB 15 14 0xd8a1e681;
 Op R1 rB rC rD rA 4 20 0xe7d3fbc8;
 Op R1 rA rB rC rD 9 5 0x21e1cde6;
 Op R1 rD rA rB rC 14 9 0xc33707d6;
 Op R1 rC rD rA rB 3 14 0xf4d50d87;
 Op R1 rB rC rD rA 8 20 0x455a14ed;
 Op R1 rA rB rC rD 13 5 0xa9e3e905;
 Op R1 rD rA rB rC 2 9 0xfcefa3f8;
 Op R1 rC rD rA rB 7 14 0x676f02d9;
 Op R1 rB rC rD rA 12 20 0x8d2a4c8a;
 Op R2 rA rB rC rD 5 4 0xfffa3942;
 Op R2 rD rA rB rC 8 11 0x8771f681;
 Op R2 rC rD rA rB 11 16 0x6d9d6122;
 Op R2 rB rC rD rA 14 23 0xfde5380c;
 Op R2 rA rB rC rD 1 4 0xa4beea44;
 Op R2 rD rA rB rC 4 11 0x4bdecfa9;
 Op R2 rC rD rA rB 7 16 0xf6bb4b60;
 Op R2 rB rC rD rA 10 23 0xbebfbc70;
 Op R2 rA rB rC rD 13 4 0x289b7ec6;
 Op R2 rD rA rB rC 0 11 0xeaa127fa;
 Op R2 rC rD rA rB 3 16 0xd4ef3085;
 Op R2 rB rC rD rA 6 23 0x04881d05;
 Op R2 rA rB rC rD 9 4 0xd9d4d039;
 Op R2 rD rA rB rC 12 11 0xe6db99e5;
 Op R2 rC rD rA rB 15 16 0x1fa27cf8;
 Op R2 rB rC rD rA 2 23 0xc4ac5665;
 Op R3 rA rB rC rD 0 6 0xf4292244;
 Op R3 rD rA rB rC 7 10 0x432aff97;
 Op R3 rC rD rA rB 14 15 0xab9423a7;
 Op R3 rB rC rD rA 5 21 0xfc93a039;
 Op R3 rA rB rC rD 12 6 0x655b59c3;
 Op R3 rD rA rB rC 3 10 0x8f0ccc92;
 Op R3 rC rD rA rB 10 15 0xffeff47d;
 Op R3 rB rC rD rA 1 21 0x85845dd1;
 Op R3 rA rB rC rD 8 6 0x6fa87e4f;
 Op R3 rD rA rB rC 15 10 0xfe2ce6e0;
 Op R3 rC rD rA rB 6 15 0xa3014314;
 Op R3 rB rC rD rA 13 21 0x4e0811a1;
 Op R3 rA rB rC rD 4 6 0xf7537e82;
 Op R3 rD rA rB rC 11 10 0xbd3af235;
 Op R3 rC rD rA rB 2 15 0x2ad7d2bb;
 Op R3 rB rC rD rA 9 21 0xeb86d391
].

Definition exec (X : list Z) (g : regs) (o : op) : regs :=
  match o with
  | Op m a b c d k s t =>
      set a (R m (get a g) (get b g) (get c g) (get d g) (nth k X 0) s t) g
  end.

(** [HOST_c2l] of the [i]-th word: a load of an [unsigned int]. *)
Definition HOST_c2l (p : list Z) (i : nat) : Z := le_word (take 4 (drop (4 * i) p)).

(** [HOST_l2c]: a store of an [unsigned int]. *)
Definition HOST_l2c (l : Z) : list Z := le_bytes 4 l.

Definition with_regs (c : md5_t) (a b c' d : Z) : md5_t :=
  MkMd5 a b c' d (Nl c) (Nh c) (data c) (num c).

Fixpoint md5_block_data_order (c : md5_t) (p : list Z) (n : nat) : md5_t :=
  match n with
  | O => c
  | S n =>
      let X := HOST_c2l p <$> seq 0 16 in
      let g := foldl (exec X) (Regs (A c) (B c) (C c) (D c)) body in
      let c := with_regs c (u32 (A c + vA g)) (u32 (B c + vB g))
                           (u32 (C c + vC g)) (u32 (D c + vD g)) in
      md5_block_data_order c (drop 64 p) n
  end.

Definition MD5_init : md5_t :=
  MkMd5 0x67452301 0xefcdab89 0x98badcfe 0x10325476 0 0 (replicate 64 0) 0.

(** [memcpy(p + n, src, |src|)] into the block buffer. *)
Definition memcpy_at (p : list Z) (n : nat) (src : list Z) : list Z :=
  take n p ++ src ++ drop (n + length src) p.

Definition set_data (c : md5_t) (p : list Z) (n : Z) : md5_t :=
  MkMd5 (A c) (B c) (C c) (D c) (Nl c) (Nh c) p n.

(** The bit counter update at the head of [MD5_process]. *)
Definition count (c : md5_t) (len : Z) : md5_t :=
  let l := u32 (Nl c + u32 (Z.shiftl len 3)) in
  let nh := if l <? Nl c then u32 (Nh c + 1) else Nh c in
  let nh := u32 (nh + Z.shiftr len 29) in
  MkMd5 (A c) (B c) (C c) (D c) l nh (data c) (num c).

(** The tail of [MD5_process]: whole blocks straight from the input, the rest into
    the buffer. *)
Definition process_blocks (c : md5_t) (p : list Z) : md5_t :=
  let len := Z.of_nat (length p) in
  let n := len / MD5_CBLOCK in
  let '(c, p) :=
    if 0 <? n
    then (md5_block_data_order c p (Z.to_nat n), drop (Z.to_nat (n * MD5_CBLOCK)) p)
    else (c, p) in
  let len := Z.of_nat (length p) in
  if len =? 0 then c
  else set_data c (memcpy_at (data c) 0 p) len.

(** [MD5_process(c, data, len)]; [p] is the [len] bytes at [data]. *)
Definition MD5_process (c : md5_t) (p : list Z) : md5_t :=
  let len := Z.of_nat (length p) in
  if len =? 0 then c else
  let c := count c len in
  let n := num c in
  if n =? 0 then process_blocks c p
  else if (MD5_CBLOCK <=? len) || (MD5_CBLOCK <=? uword (len + n)) then
    let k := Z.to_nat (MD5_CBLOCK - n) in
    let buf := memcpy_at (data c) (Z.to_nat n) (take k p) in
    let c := md5_block_data_order c buf 1 in
    process_blocks (set_data c (replicate 64 0) 0) (drop k p)
  else
    set_data c (memcpy_at (data c) (Z.to_nat n) p) (u32 (n + len)).

(** [MD5_finish]: the digest, and the context it leaves behind. *)
Definition MD5_finish (c : md5_t) : list Z * md5_t :=
  let n := Z.to_nat (num c) in
  let p := memcpy_at (data c) n [0x80] in
  let n := S n in
  let '(c, p, n) :=
    if bool_decide (Z.of_nat n > MD5_CBLOCK - 8) then
      let p := memcpy_at p n (replicate (64 - n) 0) in
      (md5_block_data_order c p 1, p, 0%nat)
    else (c, p, n) in
  let p := memcpy_at p n (replicate (56 - n) 0) in
  let p := memcpy_at p 56 (HOST_l2c (Nl c) ++ HOST_l2c (Nh c)) in
  let c := md5_block_data_order c p 1 in
  let c := set_data c (replicate 64 0) 0 in
  (HOST_l2c (A c) ++ HOST_l2c (B c) ++ HOST_l2c (C c) ++ HOST_l2c (D c), c).

Definition MD5_buffer (buffer : list Z) : list Z :=
  fst (MD5_finish (MD5_process MD5_init buffer)).
End Abi.

(** ** Hexadecimal signatures *)

(** [HEX_STRING]. *)
Definition HEX_STRING : list Z :=
  [48; 49; 50; 51; 52; 53; 54; 55; 56; 57; 97; 98; 99; 100; 101; 102].

(** [MD5_sig_to_string(signature, str)]: the bytes it stores at [str], of which
    [2 * MD5_SIZE] are available; a NUL is stored only if a byte is left for it. *)
Fixpoint sig_to_string_loop (sig : list Z) (room : Z) : list Z :=
  match sig with
  | [] => if 0 <? room then [0] else []
  | b :: sig =>
      if room <=? 1 then (if 0 <? room then [0] else [])
      else nth (Z.to_nat (b / 16)) HEX_STRING 0 :: nth (Z.to_nat (b mod 16)) HEX_STRING 0
           :: sig_to_string_loop sig (room - 2)
  end.

Definition MD5_sig_to_string (sig : list Z) : list Z :=
  sig_to_string_loop (take (Z.to_nat MD5_SIZE) sig) (2 * MD5_SIZE).

(** [strchr(hex, ch) - hex]; [None] is the null pointer that [strchr] returns for a
    character outside the table, on which the source computes anyway.  [strchr] also
    finds the terminating NUL, at offset 16. *)
Definition hex_digit (ch : Z) : option Z :=
  if ch =? 0 then Some 16
  else Z.of_nat <$> (fst <$> list_find (fun h => h = ch) HEX_STRING).

(** [MD5_sig_from_string(signature, str)]: the sixteen bytes stored. *)
Fixpoint sig_from_string_loop (n : nat) (str : list Z) : option (list Z) :=
  match n with
  | O => Some []
  | S n =>
      match str with
      | c1 :: c2 :: str =>
          high ← hex_digit c1;
          low ← hex_digit c2;
          rest ← sig_from_string_loop n str;
          Some (u8 (high * 16 + low) :: rest)
      | _ => None
      end
  end.

Definition MD5_sig_from_string (str : list Z) : option (list Z) :=
  sig_from_string_loop (Z.to_nat MD5_SIZE) str.
End Md5.

(** * Correctness *)
Module Md5Facts.
Import Md5.

(** ** The working registers modulo [2^32] *)

Lemma u32_0xffffffff a : Z.land a 0xffffffff = u32 a.
Proof. change 0xffffffff with (Z.ones 32). by rewrite Z.land_ones by lia. Qed.

Lemma not32_wrap d : Md5Spec.not32 (u32 d) = u32 (Z.lnot d).
Proof.
  unfold Md5Spec.not32. apply Z.bits_inj'. intros i Hi.
  rewrite !wrap_testbit, !Z.lnot_spec, wrap_testbit by lia. by destruct (i <? 32).
Qed.

(** [F] and [G] of the source save an operation over the text-book form. *)
Ltac bitwise :=
  apply Z.bits_inj'; intros i Hi;
  rewrite ?wrap_testbit, ?Z.lor_spec, ?Z.lxor_spec, ?Z.land_spec, ?wrap_testbit,
    ?Z.lor_spec, ?Z.lxor_spec, ?Z.land_spec, ?wrap_testbit, ?Z.lnot_spec by lia;
  repeat match goal with |- context [Z.testbit ?x ?i] => destruct (Z.testbit x i) end;
  by destruct (i <? 32).

Section Abi.
Context `{Ar : Arch}.

Lemma F_low b c d : u32 (F b c d) = Md5Spec.F (u32 b) (u32 c) (u32 d).
Proof. unfold F, Md5Spec.F. rewrite not32_wrap. bitwise. Qed.

Lemma G_low b c d : u32 (G b c d) = Md5Spec.G (u32 b) (u32 c) (u32 d).
Proof. unfold G, Md5Spec.G. rewrite not32_wrap. bitwise. Qed.

Lemma H_low b c d : u32 (H b c d) = Md5Spec.H (u32 b) (u32 c) (u32 d).
Proof. unfold H, Md5Spec.H. bitwise. Qed.

Lemma I_low b c d : u32 (I b c d) = Md5Spec.I (u32 b) (u32 c) (u32 d).
Proof.
  unfold I, Md5Spec.I. rewrite not32_wrap, wrap_lxor, wrap_lor, u32_uword by lia.
  bitwise.
Qed.

Definition spec_fun (m : macro) : Z -> Z -> Z -> Z :=
  match m with
  | R0 => Md5Spec.F | R1 => Md5Spec.G | R2 => Md5Spec.H | R3 => Md5Spec.I
  end.

Lemma macro_fun_low m b c d :
  u32 (macro_fun m b c d) = spec_fun m (u32 b) (u32 c) (u32 d).
Proof. destruct m; [apply F_low | apply G_low | apply H_low | apply I_low]. Qed.

(** [ROTATE] leaks bits above 31 but rotates the low half correctly. *)
Lemma ROTATE_low a n : 0 <= n <= 32 -> u32 (ROTATE a n) = Md5Spec.rotl (u32 a) n.
Proof.
  intros Hn. unfold ROTATE, Md5Spec.rotl.
  rewrite u32_0xffffffff, !wrap_lor, u32_uword by lia.
  apply Z.bits_inj'. intros i Hi.
  rewrite !Z.lor_spec, !wrap_testbit, !Z.shiftl_spec, !Z.shiftr_spec, !wrap_testbit by lia.
  destruct (Z.ltb_spec i 32), (Z.ltb_spec (i - n) 32); simpl; auto; lia.
Qed.

Lemma R_low m a b c d k s t : 0 <= s <= 32 ->
  u32 (R m a b c d k s t) =
  u32 (u32 b + Md5Spec.rotl
         (u32 (u32 a + spec_fun m (u32 b) (u32 c) (u32 d) + k + t)) s).
Proof.
  intros Hs. unfold R.
  assert (u32 (a + (k + t + macro_fun m b c d))
          = u32 (u32 a + spec_fun m (u32 b) (u32 c) (u32 d) + k + t)) as E.
  { rewrite <- macro_fun_low, <- (Z.add_assoc _ k t).
    rewrite <- (wrap_add_l 32 (_ + _)), wrap_add, wrap_add_l by lia. f_equal. lia. }
  rewrite u32_uword, <- wrap_add, ROTATE_low, u32_uword, E, Z.add_comm by lia.
  done.
Qed.

(** ** The straight-line body is the 64 operations of the specification *)

(** The registers playing [a], [b], [c], [d] at operation [i]. *)
Definition roles (i : nat) : reg * reg * reg * reg :=
  match (i mod 4)%nat with
  | 0%nat => (rA, rB, rC, rD)
  | 1%nat => (rD, rA, rB, rC)
  | 2%nat => (rC, rD, rA, rB)
  | _ => (rB, rC, rD, rA)
  end.

Definition round_macro (i : nat) : macro :=
  match (i / 16)%nat with 0%nat => R0 | 1%nat => R1 | 2%nat => R2 | _ => R3 end.

Definition nth_op (i : nat) : op :=
  let '(a, b, c, d) := roles i in
  Op (round_macro i) a b c d (Md5Spec.word_index i) (Md5Spec.shift i) (nth i Md5Spec.T 0).

Lemma body_ops : body = nth_op <$> seq 0 64.
Proof. reflexivity. Qed.

(** The registers as the specification sees them before operation [i]. *)
Definition view (i : nat) (g : regs) : Md5Spec.regs :=
  let '(a, b, c, d) := roles i in
  (u32 (get a g), u32 (get b g), u32 (get c g), u32 (get d g)).

Lemma shift_range i : 0 <= Md5Spec.shift i <= 32.
Proof.
  unfold Md5Spec.shift, Md5Spec.S_.
  pose proof (Nat.mod_upper_bound i 4).
  destruct (i / 16)%nat as [|[|[|[|[|q]]]]], (i mod 4)%nat as [|[|[|[|r]]]];
    simpl; lia.
Qed.

Lemma roles_S i :
  let '(a, b, c, d) := roles i in roles (S i) = (d, a, b, c).
Proof.
  unfold roles. pose proof (Nat.mod_upper_bound i 4).
  replace (S i mod 4)%nat with ((i mod 4 + 1) mod 4)%nat
    by (rewrite Nat.Div0.add_mod_idemp_l; f_equal; lia).
  destruct (i mod 4)%nat as [|[|[|[|r]]]]; try reflexivity. lia.
Qed.

Lemma round_fun_macro i : Md5Spec.round_fun i = spec_fun (round_macro i).
Proof. unfold Md5Spec.round_fun, round_macro. by destruct (i / 16)%nat as [|[|[|?]]]. Qed.

Lemma roles_cases i : roles i = (rA, rB, rC, rD) \/ roles i = (rD, rA, rB, rC)
  \/ roles i = (rC, rD, rA, rB) \/ roles i = (rB, rC, rD, rA).
Proof. unfold roles. destruct (i mod 4)%nat as [|[|[|?]]]; auto. Qed.

Lemma exec_step X g i :
  view (S i) (exec X g (nth_op i)) = Md5Spec.step X (view i g) i.
Proof.
  unfold view, nth_op, Md5Spec.step. pose proof (roles_S i) as HS.
  rewrite round_fun_macro.
  destruct (roles_cases i) as [E|[E|[E|E]]]; rewrite E in *; rewrite HS; simpl;
    rewrite R_low by apply shift_range; done.
Qed.

Lemma exec_steps X n i g :
  view (i + n) (foldl (exec X) g (nth_op <$> seq i n))
  = foldl (Md5Spec.step X) (view i g) (seq i n).
Proof.
  revert i g. induction n as [|n IH]; intros i g; simpl.
  - by rewrite Nat.add_0_r.
  - rewrite <- exec_step, <- IH. f_equal. lia.
Qed.

(** The registers of a context. *)
Definition hash (c : md5_t) : Md5Spec.regs := (A c, B c, C c, D c).

Definition hash_ok (c : md5_t) : Prop :=
  in_word 32 (A c) /\ in_word 32 (B c) /\ in_word 32 (C c) /\ in_word 32 (D c).

Lemma HOST_c2l_block p i : (i < 16)%nat ->
  HOST_c2l p i = Md5Spec.block_word (take 64 p) i.
Proof.
  intros Hi. unfold HOST_c2l, Md5Spec.block_word. f_equal.
  rewrite skipn_firstn_comm, take_take. f_equal. lia.
Qed.

Lemma block_S c p n : hash_ok c ->
  exists c', md5_block_data_order c p (S n) = md5_block_data_order c' (drop 64 p) n
    /\ hash c' = Md5Spec.compress (hash c) (take 64 p) /\ hash_ok c'
    /\ Nl c' = Nl c /\ Nh c' = Nh c /\ data c' = data c /\ num c' = num c.
Proof.
  intros (HA & HB & HC & HD). cbn [md5_block_data_order].
  rewrite body_ops.
  pose proof (exec_steps (HOST_c2l p <$> seq 0 16) 64 0 (Regs (A c) (B c) (C c) (D c)))
    as E.
  revert E. generalize (foldl (exec (HOST_c2l p <$> seq 0 16)) (Regs (A c) (B c) (C c) (D c))
    (nth_op <$> seq 0 64)). intros g E.
  eexists. split; [reflexivity|].
  unfold hash_ok, in_word. cbn [A B C D Nl Nh data num with_regs].
  repeat split; try (apply wrap_range; lia).
  unfold hash, Md5Spec.compress. cbn [A B C D with_regs].
  assert (Md5Spec.block_word (take 64 p) <$> seq 0 16 = HOST_c2l p <$> seq 0 16) as ->.
  { apply list_fmap_ext. intros i x Hx. apply lookup_seq in Hx. symmetry.
    apply HOST_c2l_block. lia. }
  unfold view in E. change (roles (0 + 64)) with (rA, rB, rC, rD) in E.
  change (roles 0) with (rA, rB, rC, rD) in E. cbn [get vA vB vC vD] in E.
  rewrite (wrap_small 32 (A c)), (wrap_small 32 (B c)), (wrap_small 32 (C c)),
    (wrap_small 32 (D c)) in E by assumption.
  rewrite <- E. by rewrite !wrap_add_r by lia.
Qed.

Lemma block_absorb n : forall c p, hash_ok c ->
  let c' := md5_block_data_order c p n in
  hash c' = Md5Spec.absorb n (hash c) p /\ hash_ok c'
  /\ Nl c' = Nl c /\ Nh c' = Nh c /\ data c' = data c /\ num c' = num c.
Proof.
  induction n as [|n IH]; intros c p Hc; [done|].
  destruct (block_S c p n Hc) as (c1 & E & Hh & Hok & H1 & H2 & H3 & H4).
  cbv zeta. rewrite E. destruct (IH c1 (drop 64 p) Hok) as (I1 & I2 & I3 & I4 & I5 & I6).
  rewrite I1, I3, I4, I5, I6, Hh. by split_and!.
Qed.

Lemma absorb_app n k r x y : length x = (64 * n)%nat ->
  Md5Spec.absorb (n + k) r (x ++ y) = Md5Spec.absorb k (Md5Spec.absorb n r x) y.
Proof.
  revert r x. induction n as [|n IH]; intros r x Hx.
  - by destruct x.
  - cbn [Nat.add Md5Spec.absorb]. rewrite take_app_le, drop_app_le by lia.
    apply IH. rewrite length_drop. lia.
Qed.

Lemma absorb_prefix n r x y : length x = (64 * n)%nat ->
  Md5Spec.absorb n r (x ++ y) = Md5Spec.absorb n r x.
Proof. intros. rewrite <- (Nat.add_0_r n) at 1. by rewrite absorb_app. Qed.

(** ** What a context stands for *)

(** The context [c] has absorbed the message [m], apart from the bit counter. *)
Record absorbed (c : md5_t) (m : list Z) : Prop := {
  ab_ok : hash_ok c;
  ab_hash : hash c = Md5Spec.absorb (length m / 64) Md5Spec.init m;
  ab_num : num c = Z.of_nat (length m mod 64);
  ab_data : length (data c) = 64%nat;
  ab_buf : take (length m mod 64) (data c) = drop (64 * (length m / 64)) m
}.

(** The 64-bit bit counter, kept in two words. *)
Record counted (c : md5_t) (n : Z) : Prop := {
  ct_nl : in_word 32 (Nl c);
  ct_nh : in_word 32 (Nh c);
  ct_sum : Nl c + 2 ^ 32 * Nh c = (8 * n) mod 2 ^ 64
}.

Lemma count_counted c n len : counted c n -> 0 <= len < 2 ^ 32 ->
  counted (count c len) (n + len).
Proof.
  intros [Hl Hh Hs] Hlen. unfold count, in_word in *.
  set (x := u32 (Z.shiftl len 3)).
  assert (8 * len = x + 2 ^ 32 * Z.shiftr len 29 /\ 0 <= x < 2 ^ 32
          /\ 0 <= Z.shiftr len 29 < 8) as (Ex & Hx & Hk).
  { unfold x, wrap. rewrite Z.shiftl_mul_pow2, Z.shiftr_div_pow2 by lia.
    change (2 ^ 3) with 8. change (2 ^ 32) with (8 * 2 ^ 29).
    rewrite (Z.mul_comm len), Z.mul_mod_distr_l by lia.
    pose proof (Z.div_mod len (2 ^ 29)). pose proof (Z.mod_pos_bound len (2 ^ 29)).
    change (2 ^ 32) with (8 * 2 ^ 29) in Hlen. lia. }
  revert Ex Hx Hk. generalize x (Z.shiftr len 29). clear x. intros x k Ex Hx Hk.
  assert ((8 * (n + len)) mod 2 ^ 64 = (Nl c + 2 ^ 32 * Nh c + x + 2 ^ 32 * k) mod 2 ^ 64)
    as E.
  { rewrite Hs. replace (_ + x + _) with ((8 * n) mod 2 ^ 64 + 8 * len) by lia.
    rewrite Zplus_mod_idemp_l. f_equal. lia. }
  split; cbn [Nl Nh]; unfold in_word; try (apply wrap_range; lia). rewrite E. clear E Hs Hlen.
  unfold wrap. revert Hl Hh Hx Hk. generalize (Nl c) (Nh c). clear. intros l h Hl Hh Hx Hk.
  destruct (Z.ltb_spec ((l + x) mod 2 ^ 32) l);
    Z.to_euclidean_division_equations; nia.
Qed.

(** Nothing but the counter changes in [count], nothing but the rest elsewhere. *)
Lemma absorbed_count c m len : absorbed c m -> absorbed (count c len) m.
Proof. by intros []; split. Qed.

Definition same_counter (c c' : md5_t) : Prop := Nl c' = Nl c /\ Nh c' = Nh c.

Lemma counted_same c c' n : same_counter c c' -> counted c n -> counted c' n.
Proof. intros [E1 E2] []. split; by rewrite ?E1, ?E2. Qed.

Lemma div_mod_64 (n : nat) : n = (64 * (n / 64) + n mod 64)%nat /\ (n mod 64 < 64)%nat.
Proof. split; [apply Nat.div_mod_eq | apply Nat.mod_upper_bound; lia]. Qed.

Lemma process_blocks_absorbed c m p :
  absorbed c m -> length m = (64 * (length m / 64))%nat ->
  absorbed (process_blocks c p) (m ++ p) /\ same_counter c (process_blocks c p).
Proof.
  intros [Hok Hh Hn Hd Hb] Hm. unfold process_blocks, MD5_CBLOCK.
  set (k := (length p / 64)%nat).
  destruct (div_mod_64 (length p)) as [Ep Hr]. fold k in Ep.
  assert (Z.of_nat (length p) / 64 = Z.of_nat k) as ->
    by (unfold k; by rewrite Nat2Z.inj_div).
  assert (length m mod 64 = 0)%nat as E0 by (rewrite Hm, Nat.mul_comm; apply Nat.Div0.mod_mul).
  assert (length (m ++ p) / 64 = length m / 64 + k)%nat as Eq.
  { rewrite length_app, Hm at 1. rewrite (Nat.mul_comm 64), Nat.div_add_l by lia. done. }
  assert (length (m ++ p) mod 64 = length p mod 64)%nat as Er.
  { rewrite length_app. rewrite Hm, (Nat.mul_comm 64), Nat.add_comm.
    apply Nat.Div0.mod_add. }
  set (c1 := if 0 <? Z.of_nat k then md5_block_data_order c p (Z.to_nat (Z.of_nat k)) else c).
  assert (hash c1 = Md5Spec.absorb (length m / 64 + k) Md5Spec.init (m ++ p) /\ hash_ok c1
    /\ same_counter c c1 /\ data c1 = data c /\ num c1 = num c) as (G1 & G2 & G3 & G4 & G5).
  { rewrite absorb_app, <- Hh by done. unfold c1, same_counter.
    destruct (Z.ltb_spec 0 (Z.of_nat k)).
    - rewrite Nat2Z.id. destruct (block_absorb k c p Hok) as (I1 & I2 & I3 & I4 & I5 & I6).
      by split_and!.
    - assert (k = 0%nat) as -> by lia. by split_and!. }
  set (p1 := drop (64 * k) p).
  assert (length p1 = length p mod 64)%nat as Hp1 by (unfold p1; rewrite length_drop; lia).
  assert ((if 0 <? Z.of_nat k
           then (md5_block_data_order c p (Z.to_nat (Z.of_nat k)),
                 drop (Z.to_nat (Z.of_nat k * 64)) p)
           else (c, p)) = (c1, p1)) as ->.
  { unfold c1, p1. destruct (Z.ltb_spec 0 (Z.of_nat k)).
    - do 2 f_equal. lia.
    - by assert (k = 0%nat) as -> by lia. }
  assert (drop (64 * (length (m ++ p) / 64)) (m ++ p) = p1) as Edrop.
  { rewrite Eq, drop_app_ge by lia. unfold p1. f_equal. lia. }
  destruct (Z.eqb_spec (Z.of_nat (length p1)) 0) as [E|E].
  - split; [|done]. split; rewrite ?Er, ?Eq, ?G4, ?Hd; auto.
    + rewrite G5, Hn. lia.
    + rewrite <- Eq, Edrop. destruct p1; simpl in *; [|lia]. by rewrite <- Hp1.
  - split; [|done]. split; cbn [num data set_data]; rewrite ?Er, ?Edrop; auto.
    + unfold hash in G1. by rewrite Eq, <- G1.
    + unfold memcpy_at. rewrite length_app, length_app, length_drop, G4, Hd. simpl. lia.
    + unfold memcpy_at. rewrite take_0, app_nil_l, <- Hp1. apply take_app_length.
Qed.

(** Filling up the buffer gives the block it belongs to. *)
Lemma memcpy_at_split buf n src : length buf = 64%nat -> (n + length src <= 64)%nat ->
  length (memcpy_at buf n src) = 64%nat
  /\ take (n + length src) (memcpy_at buf n src) = take n buf ++ src.
Proof.
  intros Hb Hn. unfold memcpy_at. split.
  - rewrite !length_app, length_take, length_drop. lia.
  - rewrite app_assoc, take_app_le by (rewrite length_app, length_take; lia).
    apply take_ge. rewrite length_app, length_take. lia.
Qed.

Lemma MD5_process_absorbed c m p :
  absorbed c m -> Z.of_nat (length p) < 2 ^ 32 ->
  absorbed (MD5_process c p) (m ++ p).
Proof.
  intros Hab Hlen. unfold MD5_process.
  destruct (Z.eqb_spec (Z.of_nat (length p)) 0) as [E0|E0].
  { destruct p; [by rewrite app_nil_r | simpl in E0; lia]. }
  apply (absorbed_count _ _ (Z.of_nat (length p))) in Hab. revert Hab.
  generalize (count c (Z.of_nat (length p))). clear c. intros c Hab.
  destruct (Hab) as [Hok Hh Hn Hd Hb].
  destruct (div_mod_64 (length m)) as [Em Hr].
  set (n := (length m mod 64)%nat) in *.
  rewrite Hn, Nat2Z.id. unfold MD5_CBLOCK.
  destruct (Z.eqb_spec (Z.of_nat n) 0) as [En|En].
  { apply process_blocks_absorbed; [done|]. lia. }
  assert (64 <= Z.of_nat (length p) \/ uword (Z.of_nat (length p) + Z.of_nat n)
          = Z.of_nat (length p) + Z.of_nat n) as Hu.
  { destruct (Z.le_gt_cases 64 (Z.of_nat (length p))); [by left|right].
    apply uword_small. destruct word_bits_cases as [-> | ->]; lia. }
  destruct (_ || _) eqn:Hc.
  - replace (Z.to_nat (64 - Z.of_nat n)) with (64 - n)%nat by lia.
    assert (64 <= length p + n)%nat as Hge by lia.
    set (src := take (64 - n) p).
    assert (length src = 64 - n)%nat as Hsrc by (unfold src; rewrite length_take; lia).
    destruct (memcpy_at_split (data c) n src) as [L1 L2]; [done|lia|].
    rewrite Hsrc, take_ge, Hb in L2 by lia.
    set (buf := memcpy_at (data c) n src) in *.
    destruct (block_absorb 1 c buf Hok) as (I1 & I2 & _).
    set (c1 := md5_block_data_order c buf 1) in *.
    set (q := (length m / 64)%nat) in *.
    assert (length (m ++ src) = 64 * (q + 1))%nat as Els by (rewrite length_app; lia).
    replace (m ++ p) with ((m ++ src) ++ drop (64 - n) p)
      by (rewrite <- app_assoc; unfold src; by rewrite take_drop).
    assert (length (m ++ src) / 64 = q + 1)%nat as Eq
      by (rewrite Els, Nat.mul_comm; apply Nat.div_mul; lia).
    apply process_blocks_absorbed; [|by rewrite Eq].
    split; cbn [num data set_data]; [done| |rewrite Els, Nat.mul_comm; by rewrite Nat.Div0.mod_mul
      |by rewrite length_replicate|rewrite Els, Nat.mul_comm, Nat.Div0.mod_mul, Nat.div_mul by lia].
    + unfold hash in *. cbn [A B C D set_data]. rewrite I1, Eq.
      rewrite <- (take_drop (64 * q) m), <- app_assoc, absorb_app by (rewrite length_take; lia).
      rewrite L2, Hh. f_equal.
      rewrite <- (take_drop (64 * q) m) at 1. apply absorb_prefix. rewrite length_take. lia.
    + symmetry. apply drop_ge. lia.
  - assert (length p + n < 64)%nat as Hlt by lia.
    destruct (memcpy_at_split (data c) n p) as [L1 L2]; [done|lia|].
    set (q := (length m / 64)%nat) in *.
    assert (length (m ++ p) / 64 = q)%nat as Eq.
    { rewrite length_app. symmetry. apply (Nat.div_unique _ _ _ (n + length p)); lia. }
    assert (length (m ++ p) mod 64 = n + length p)%nat as Er.
    { rewrite length_app. symmetry. apply (Nat.mod_unique _ _ q); lia. }
    split; cbn [num data set_data]; rewrite ?Eq, ?Er; try done.
    + unfold hash in *. cbn [A B C D set_data]. rewrite Hh.
      rewrite <- (take_drop (64 * q) m), <- app_assoc.
      rewrite !absorb_prefix by (rewrite length_take; lia). done.
    + rewrite wrap_small; lia.
    + rewrite L2, Hb, drop_app_le by lia. done.
Qed.

Lemma MD5_process_counted c m p :
  absorbed c m -> counted c (Z.of_nat (length m)) -> Z.of_nat (length p) < 2 ^ 32 ->
  counted (MD5_process c p) (Z.of_nat (length (m ++ p))).
Proof.
  intros Hab Hct Hlen. rewrite length_app, Nat2Z.inj_add. unfold MD5_process.
  destruct (Z.eqb_spec (Z.of_nat (length p)) 0) as [E0|E0].
  { by rewrite E0, Z.add_0_r. }
  apply (count_counted _ _ (Z.of_nat (length p))) in Hct; [|lia]. revert Hct.
  apply (absorbed_count _ _ (Z.of_nat (length p))) in Hab. revert Hab.
  generalize (count c (Z.of_nat (length p))). clear c. intros c Hab Hct.
  revert Hct. apply counted_same.
  assert (forall c p, hash_ok c -> same_counter c (process_blocks c p)) as Hpb.
  { clear. intros c p Hok. unfold process_blocks, same_counter.
    destruct (0 <? _).
    - destruct (block_absorb (Z.to_nat (Z.of_nat (length p) / MD5_CBLOCK)) c p Hok)
        as (_ & _ & I3 & I4 & _).
      by destruct (_ =? 0).
    - by destruct (_ =? 0). }
  destruct Hab as [Hok _ _ _ _].
  destruct (num c =? 0); [by apply Hpb|].
  destruct (_ || _); [|done].
  set (buf := memcpy_at _ _ _).
  destruct (block_absorb 1 c buf Hok) as (_ & I2 & I3 & I4 & _).
  destruct (Hpb (set_data (md5_block_data_order c buf 1) (replicate 64 0) 0)
              (drop (Z.to_nat (MD5_CBLOCK - num c)) p)) as [J1 J2]; [done|].
  split; [rewrite J1 | rewrite J2]; done.
Qed.

Lemma MD5_init_absorbed : absorbed MD5_init [].
Proof. by split. Qed.

Lemma MD5_init_counted : counted MD5_init 0.
Proof. by split. Qed.

(** ** Padding *)

Lemma length_padding n :
  (length (Md5Spec.padding n) = if (n mod 64 <? 56)%nat then 64 - n mod 64
                                else 128 - n mod 64)%nat.
Proof.
  unfold Md5Spec.padding. cbn [length]. rewrite length_app, length_replicate, length_le_bytes.
  destruct (div_mod_64 n) as [E Hr]. revert Hr E. generalize (n mod 64)%nat (n / 64)%nat.
  intros r q Hr ->.
  assert ((55 - Z.of_nat (64 * q + r)) mod 64 = (55 - Z.of_nat r) mod 64) as ->.
  { replace (55 - Z.of_nat (64 * q + r)) with (55 - Z.of_nat r + (- Z.of_nat q) * 64) by lia.
    apply Z.mod_add. lia. }
  destruct (Nat.ltb_spec r 56).
  - rewrite Z.mod_small by lia. lia.
  - rewrite <- (Z.mod_add _ 1), Z.mod_small by lia. lia.
Qed.

Lemma le_bytes_8 n : le_bytes 8 n = le_bytes 4 n ++ le_bytes 4 (n / 2 ^ 32).
Proof.
  cbn [le_bytes app]. rewrite !Z.div_div by lia. done.
Qed.

Lemma counter_bytes c n : counted c n ->
  HOST_l2c (Nl c) ++ HOST_l2c (Nh c) = le_bytes 8 (8 * n).
Proof.
  intros [Hl Hh Hs]. unfold HOST_l2c, in_word in *.
  rewrite <- (le_bytes_mod 8). change (256 ^ Z.of_nat 8) with (2 ^ 64).
  rewrite <- Hs, le_bytes_8. f_equal.
  - rewrite <- (le_bytes_mod 4 (_ + _)). change (256 ^ Z.of_nat 4) with (2 ^ 32).
    rewrite (Z.mul_comm (2 ^ 32)), Z.mod_add, Z.mod_small by lia. done.
  - f_equal. rewrite (Z.mul_comm (2 ^ 32)), Z.div_add, Z.div_small by lia. done.
Qed.

Lemma memcpy_at_full buf n src : length buf = 64%nat -> (n + length src = 64)%nat ->
  memcpy_at buf n src = take n buf ++ src.
Proof.
  intros Hb Hn. destruct (memcpy_at_split buf n src) as [L1 L2]; [done|lia|].
  rewrite Hn, take_ge in L2 by lia. done.
Qed.

Lemma length_counter a b : length (HOST_l2c a ++ HOST_l2c b) = 8%nat.
Proof. unfold HOST_l2c. by rewrite length_app, !length_le_bytes. Qed.

(** The last one or two blocks are what is left of the message, and the padding. *)
Lemma finish_absorb c m rest c' :
  absorbed c m ->
  (64 * (length rest / 64))%nat = length rest ->
  rest = drop (64 * (length m / 64)) m ++ Md5Spec.padding (length m) ->
  hash c' = Md5Spec.absorb (length rest / 64) (hash c) rest ->
  Md5Spec.output (hash c') = Md5Spec.digest m.
Proof.
  intros [_ Hh _ _ _] Hlen -> Hc'. unfold Md5Spec.digest. f_equal.
  rewrite Hc', Hh. set (q := (length m / 64)%nat) in *.
  set (rest := drop (64 * q) m ++ Md5Spec.padding (length m)) in *.
  destruct (div_mod_64 (length m)) as [Em _]. fold q in Em.
  replace (m ++ Md5Spec.padding (length m)) with (take (64 * q) m ++ rest)
    by (unfold rest; by rewrite app_assoc, take_drop).
  assert (length (take (64 * q) m) = 64 * q)%nat as Ht by (rewrite length_take; lia).
  replace (length (take (64 * q) m ++ rest) / 64)%nat with (q + length rest / 64)%nat.
  - rewrite absorb_app by done. f_equal.
    rewrite <- (take_drop (64 * q) m) at 1. by rewrite absorb_prefix.
  - rewrite length_app, Ht, (Nat.mul_comm 64), Nat.div_add_l by lia. done.
Qed.

Lemma MD5_finish_digest c m :
  absorbed c m -> counted c (Z.of_nat (length m)) -> fst (MD5_finish c) = Md5Spec.digest m.
Proof.
  intros Hab Hct. pose proof (counter_bytes c _ Hct) as Hcnt.
  destruct (Hab) as [Hok Hh Hn Hd Hb].
  destruct (div_mod_64 (length m)) as [Em Hr].
  pose proof (length_padding (length m)) as Hpad.
  unfold MD5_finish. rewrite Hn, Nat2Z.id.
  set (n := (length m mod 64)%nat) in *.
  destruct (memcpy_at_split (data c) n [0x80]) as [L1 L2]; [done|simpl; lia|].
  set (p := memcpy_at (data c) n [0x80]) in *. cbn [length] in L2.
  rewrite Hb in L2. set (tl := drop (64 * (length m / 64)) m) in *.
  assert (length tl = n) as Htl by (unfold tl; rewrite length_drop; lia).
  replace (n + 1)%nat with (S n) in L2 by lia.
  assert (forall c', hash c' = (A c', B c', C c', D c')) as Hhash by done.
  assert (Md5Spec.padding (length m) =
          0x80 :: replicate (length (Md5Spec.padding (length m)) - 9) 0
            ++ le_bytes 8 (8 * Z.of_nat (length m))) as Epad.
  { unfold Md5Spec.padding. cbn [length]. rewrite length_app, length_replicate, length_le_bytes.
    do 3 f_equal. lia. }
  rewrite <- Hcnt in Epad. unfold MD5_CBLOCK.
  case_bool_decide as Hbig.
  - assert (56 <= n)%nat as Hn56 by lia.
    destruct (Nat.ltb_spec n 56); [lia|].
    rewrite memcpy_at_full, L2 by (rewrite ?length_replicate; lia).
    set (p1 := (tl ++ [128]) ++ replicate (64 - S n) 0).
    assert (length p1 = 64)%nat as Hp1
      by (unfold p1; rewrite !length_app, length_replicate; simpl; lia).
    destruct (block_absorb 1 c p1 Hok) as (I1 & I2 & I3 & I4 & _).
    set (c1 := md5_block_data_order c p1 1) in *. rewrite I3, I4.
    destruct (memcpy_at_split p1 0 (replicate 56 0)) as [M1 M2];
      [exact Hp1 | rewrite length_replicate; lia |].
    cbn [Nat.add length] in M2. rewrite length_replicate, take_0, app_nil_l in M2.
    replace (56 - 0)%nat with 56%nat by lia.
    rewrite (memcpy_at_full _ 56); [|exact M1|by rewrite length_counter].
    rewrite M2, Hcnt.
    set (p2 := replicate 56 0 ++ _).
    destruct (block_absorb 1 c1 p2 I2) as (J1 & _).
    set (c2 := md5_block_data_order c1 p2 1) in *.
    change (fst _) with (Md5Spec.output (hash c2)).
    apply (finish_absorb c m (p1 ++ p2)); [done| | |].
    + rewrite length_app, Hp1. done.
    + unfold p1, p2. rewrite Epad, Hpad, Hcnt. rewrite <- !app_assoc. f_equal.
      cbn [app]. f_equal. rewrite app_assoc, <- replicate_add. do 2 f_equal. lia.
    + replace (length (p1 ++ p2) / 64)%nat with (1 + 1)%nat
        by (rewrite length_app, Hp1; done).
      rewrite absorb_app by done. by rewrite J1, I1.
  - assert (n < 56)%nat as Hn56 by lia.
    destruct (Nat.ltb_spec n 56); [|lia].
    destruct (memcpy_at_split p (S n) (replicate (56 - S n) 0)) as [M1 M2];
      [done|rewrite length_replicate; lia|].
    rewrite length_replicate, L2 in M2.
    replace (S n + (56 - S n))%nat with 56%nat in M2 by lia.
    rewrite (memcpy_at_full _ 56); [|exact M1|by rewrite length_counter].
    rewrite M2, Hcnt.
    set (p2 := _ ++ le_bytes _ _).
    destruct (block_absorb 1 c p2 Hok) as (J1 & _).
    set (c2 := md5_block_data_order c p2 1) in *.
    change (fst _) with (Md5Spec.output (hash c2)).
    assert (length p2 = 64)%nat as Hp2.
    { unfold p2. rewrite !length_app, length_replicate, length_le_bytes. cbn [length]. lia. }
    apply (finish_absorb c m p2); [done|by rewrite Hp2| |by rewrite Hp2].
    unfold p2. rewrite Epad, Hpad, Hcnt. rewrite <- !app_assoc. f_equal.
    cbn [app]. do 3 f_equal. lia.
Qed.

(** Feeding a message in pieces. *)
Lemma MD5_update_all_inv chunks m c :
  absorbed c m -> counted c (Z.of_nat (length m)) ->
  Forall (fun p => Z.of_nat (length p) < 2 ^ 32) chunks ->
  absorbed (foldl MD5_process c chunks) (m ++ concat chunks)
  /\ counted (foldl MD5_process c chunks) (Z.of_nat (length (m ++ concat chunks))).
Proof.
  intros Ha Hc Hf. revert m c Ha Hc.
  induction Hf as [|p chunks Hp _ IH]; intros m c Ha Hc; simpl.
  - by rewrite app_nil_r.
  - rewrite app_assoc. apply IH; auto using MD5_process_absorbed, MD5_process_counted.
Qed.

(** C11. Whatever the pieces a message is fed in, each shorter than 4 GiB, and on every
    ABI, [MD5_init], one [MD5_process] per piece and [MD5_finish] produce the RFC 1321
    digest of the whole message, whose length is taken modulo [2^64] bits; so does
    [MD5_buffer] of a single piece.  In particular the 64-bit [unsigned long] registers
    of LP64 targets never disturb the result. *)
Theorem md5_correct (chunks : list (list Z)) (buffer : list Z) :
  Forall (fun p => Z.of_nat (length p) < 2 ^ 32) chunks ->
  Z.of_nat (length buffer) < 2 ^ 32 ->
  fst (MD5_finish (foldl MD5_process MD5_init chunks)) = Md5Spec.digest (concat chunks)
  /\ MD5_buffer buffer = Md5Spec.digest buffer.
Proof.
  intros Hf Hb. split.
  - destruct (MD5_update_all_inv chunks [] MD5_init MD5_init_absorbed MD5_init_counted Hf).
    by apply MD5_finish_digest.
  - destruct (MD5_update_all_inv [buffer] [] MD5_init MD5_init_absorbed MD5_init_counted)
      as [Ha Hc]; [by repeat constructor|].
    simpl in Ha, Hc. rewrite app_nil_r in Ha, Hc. by apply MD5_finish_digest.
Qed.
End Abi.

(** "abc" in two pieces on a 64-bit target: 900150983cd24fb0d6963f7d28e17f72. *)
Lemma md5_correct_witness :
  fst (MD5_finish (Ar := arch_aarch64)
         (foldl (MD5_process (Ar := arch_aarch64)) MD5_init [[97]; [98; 99]]))
    = Md5Spec.digest [97; 98; 99]
  /\ Md5Spec.digest [97; 98; 99]
    = [144; 1; 80; 152; 60; 210; 79; 176; 214; 150; 63; 125; 40; 225; 127; 114].
Proof.
  split; [|vm_compute; reflexivity].
  apply (md5_correct (Ar := arch_aarch64) [[97]; [98; 99]] []); [|simpl; lia].
  repeat constructor; simpl; lia.
Defined.

(** ** Hexadecimal signatures *)

Lemma hex_digit_table h : 0 <= h < 16 ->
  hex_digit (nth (Z.to_nat h) HEX_STRING 0) = Some h /\ nth (Z.to_nat h) HEX_STRING 0 <> 0.
Proof.
  intros Hh. assert (Z.to_nat h < 16)%nat as Hn by lia.
  rewrite <- (Z2Nat.id h) at 2 by lia. revert Hn. generalize (Z.to_nat h). clear.
  intros n Hn. do 16 (destruct n as [|n]; [split; [reflexivity | discriminate]|]). lia.
Qed.

Lemma sig_loop_roundtrip sig room : Forall is_byte sig -> 2 * Z.of_nat (length sig) = room ->
  length (sig_to_string_loop sig room) = Z.to_nat room
  /\ Forall (fun ch => ch <> 0) (sig_to_string_loop sig room)
  /\ forall tail, sig_from_string_loop (length sig) (sig_to_string_loop sig room ++ tail) = Some sig.
Proof.
  intros Hs. revert room. induction Hs as [|b sig Hb _ IH]; intros room Hr.
  - simpl in Hr. subst room. simpl. auto.
  - cbn [length] in Hr. destruct (IH (room - 2)) as (I1 & I2 & I3); [lia|].
    cbn [sig_to_string_loop]. destruct (Z.leb_spec room 1); [lia|].
    unfold is_byte in Hb.
    destruct (hex_digit_table (b / 16)) as [D1 N1]; [split; [apply Z.div_pos | apply Z.div_lt_upper_bound]; lia|].
    destruct (hex_digit_table (b mod 16)) as [D2 N2]; [apply Z.mod_pos_bound; lia|].
    split; [|split].
    + cbn [length]. rewrite I1. lia.
    + by repeat constructor.
    + intros tail. cbn [app sig_from_string_loop length]. rewrite D1, D2. simpl.
      rewrite I3. simpl. do 2 f_equal.
      rewrite wrap_small by (pose proof (Z.div_mod b 16); lia).
      rewrite (Z.div_mod b 16) at 3 by lia. lia.
Qed.

(** Printing a 16-byte signature stores exactly the 32 hexadecimal digits the buffer
    holds, none of them NUL (the terminator the last statement of the function would add
    never fits), and reading those 32 characters back, whatever follows them, gives the
    signature. *)
Lemma md5_sig_roundtrip (sig tail : list Z) :
  length sig = 16%nat -> Forall is_byte sig ->
  length (MD5_sig_to_string sig) = 32%nat
  /\ Forall (fun ch => ch <> 0) (MD5_sig_to_string sig)
  /\ MD5_sig_from_string (MD5_sig_to_string sig ++ tail) = Some sig.
Proof.
  intros Hl Hb. unfold MD5_sig_to_string, MD5_sig_from_string, MD5_SIZE.
  change (Z.to_nat 16) with 16%nat. rewrite take_ge by lia.
  destruct (sig_loop_roundtrip sig (2 * 16) Hb) as (I1 & I2 & I3); [rewrite Hl; done|].
  rewrite Hl in I3. by rewrite I1, I3.
Qed.

Lemma md5_sig_roundtrip_witness :
  MD5_sig_from_string
    (MD5_sig_to_string [144; 1; 80; 152; 60; 210; 79; 176; 214; 150; 63; 125; 40; 225; 127; 114]
       ++ [10])
  = Some [144; 1; 80; 152; 60; 210; 79; 176; 214; 150; 63; 125; 40; 225; 127; 114].
Proof.
  apply (md5_sig_roundtrip
           [144; 1; 80; 152; 60; 210; 79; 176; 214; 150; 63; 125; 40; 225; 127; 114] [10]).
  - reflexivity.
  - repeat constructor; discriminate.
Defined.
End Md5Facts.
