(* ===== verification/Machine.v ===== *)
(** The process a hook engine works on: results of C code that may fault, the state
    monad the translations are written in, memory with page protections, and the
    system calls that the sources make on it. *)
From S2P Require Import Prelude Arch.

(** * Results

    [Segv] is a SIGSEGV raised by an access, [Aborted] a call of [abort()], [Undef] an
    operation the C standard leaves undefined (an oversized shift, a division by zero, an
    access outside an array), [NoFuel] a loop that used up the iterations it was given: it
    is never the result of code, and the theorems show when it cannot occur. *)
Inductive result (A : Type) : Type :=
| Ok (a : A)
| Segv
| Aborted
| Undef
| NoFuel.
Arguments Ok {A} a.
Arguments Segv {A}.
Arguments Aborted {A}.
Arguments Undef {A}.
Arguments NoFuel {A}.

#[export] Instance result_ret : MRet result := @Ok.
#[export] Instance result_bind : MBind result := fun A B f r =>
  match r with
  | Ok a => f a
  | Segv => Segv
  | Aborted => Aborted
  | Undef => Undef
  | NoFuel => NoFuel
  end.

Lemma Ok_inj {A} (a b : A) : Ok a = Ok b -> a = b.
Proof. by intros [= ->]. Qed.

Lemma result_bind_Ok {A B} (r : result A) (f : A -> result B) b :
  (r ≫= f) = Ok b -> exists a, r = Ok a /\ f a = Ok b.
Proof. destruct r; simpl; try discriminate. eauto. Qed.

(** * State *)

Create HintDb keeps.

(** A step of C code over a state: it may change the state before it faults. *)
Definition M (S A : Type) : Type := S -> result A * S.

#[export] Instance M_ret {S} : MRet (M S) := fun A a s => (Ok a, s).
#[export] Instance M_bind {S} : MBind (M S) := fun A B f m s =>
  match m s with
  | (Ok a, s) => f a s
  | (Segv, s) => (Segv, s)
  | (Aborted, s) => (Aborted, s)
  | (Undef, s) => (Undef, s)
  | (NoFuel, s) => (NoFuel, s)
  end.

Definition raise {S A} (r : result A) : M S A := fun s => (r, s).
Definition gets {S A} (f : S -> A) : M S A := fun s => (Ok (f s), s).
Definition modify {S} (f : S -> S) : M S unit := fun s => (Ok tt, f s).

(** Reading through a pointer of the state, without changing it. *)
Definition reads {S A} (f : S -> result A) : M S A := fun s => (f s, s).

(** Code over a part of the state. *)
Definition lift {S T A} (get : S -> T) (put : T -> S -> S) (m : M T A) : M S A :=
  fun s => let '(r, t) := m (get s) in (r, put t s).

Lemma M_bind_Ok {S A B} (m : M S A) (f : A -> M S B) s b s' :
  (m ≫= f) s = (Ok b, s') -> exists a s1, m s = (Ok a, s1) /\ f a s1 = (Ok b, s').
Proof.
  unfold mbind, M_bind. destruct (m s) as [[a| | | |] s1]; try discriminate. eauto.
Qed.

(** Sequencing: the continuation runs on what the first part left. *)
Lemma M_bind_run {S A B} (m : M S A) (f : A -> M S B) s a s1 :
  m s = (Ok a, s1) -> (m ≫= f) s = f a s1.
Proof. unfold mbind, M_bind. by intros ->. Qed.

(** [case_run H]: split [H : (m ≫= f) s = (Ok b, s')] into its two runs. *)
Ltac case_run H :=
  let a := fresh "a" in let s := fresh "s" in
  let H1 := fresh "Hrun" in
  apply M_bind_Ok in H as (a & s & H1 & H).

(** [keeps f c]: whatever [c] does and however it ends, [f] of the state stays the same. *)
Definition keeps {S A B} (f : S -> B) (c : M S A) : Prop := forall s, f (snd (c s)) = f s.

Lemma keeps_ret {S A B} (f : S -> B) (a : A) : keeps f (mret a).
Proof. by intros s. Qed.

Lemma keeps_raise {S A B} (f : S -> B) (r : result A) : keeps f (raise r).
Proof. by intros s. Qed.

Lemma keeps_gets {S A B} (f : S -> B) (g : S -> A) : keeps f (gets g).
Proof. by intros s. Qed.

Lemma keeps_reads {S A B} (f : S -> B) (g : S -> result A) : keeps f (reads g).
Proof. by intros s. Qed.

Lemma keeps_bind {S A B C} (f : S -> C) (c : M S A) (k : A -> M S B) :
  keeps f c -> (forall a, keeps f (k a)) -> keeps f (c ≫= k).
Proof.
  intros Hc Hk s. specialize (Hc s). unfold mbind, M_bind.
  destruct (c s) as [[a| | | |] s1]; simpl in *; try done. by rewrite Hk.
Qed.

#[export] Hint Resolve keeps_ret keeps_raise keeps_gets keeps_reads keeps_bind : keeps.

(** [preserves P c]: [P] of the state is an invariant of [c], however it ends. *)
Definition preserves {S A} (P : S -> Prop) (c : M S A) : Prop := forall s, P s -> P (snd (c s)).

Lemma preserves_ret {S A} (P : S -> Prop) (a : A) : preserves P (mret a).
Proof. by intros s. Qed.

Lemma preserves_raise {S A} (P : S -> Prop) (r : result A) : preserves P (raise r).
Proof. by intros s. Qed.

Lemma preserves_gets {S A} (P : S -> Prop) (g : S -> A) : preserves P (gets g).
Proof. by intros s. Qed.

Lemma preserves_reads {S A} (P : S -> Prop) (g : S -> result A) : preserves P (reads g).
Proof. by intros s. Qed.

Lemma preserves_bind {S A B} (P : S -> Prop) (c : M S A) (k : A -> M S B) :
  preserves P c -> (forall a, preserves P (k a)) -> preserves P (c ≫= k).
Proof.
  intros Hc Hk s Hs. specialize (Hc s Hs). unfold mbind, M_bind.
  destruct (c s) as [[a| | | |] s1]; simpl in *; try done. by apply Hk.
Qed.

#[export] Hint Resolve preserves_ret preserves_raise preserves_gets preserves_reads preserves_bind : keeps.

(** [wp c P s]: [c] returns normally from [s], with a value and a state that satisfy [P]. *)
Definition wp {S A} (c : M S A) (P : A -> S -> Prop) (s : S) : Prop :=
  match c s with (Ok a, s') => P a s' | _ => False end.

Lemma wp_run {S A} (c : M S A) (P : A -> S -> Prop) s : wp c P s -> exists a s', c s = (Ok a, s') /\ P a s'.
Proof. unfold wp. destruct (c s) as [[] s']; try done. eauto. Qed.

Lemma wp_ret {S A} (a : A) (P : A -> S -> Prop) s : P a s -> wp (mret a) P s.
Proof. done. Qed.

Lemma wp_gets {S A} (f : S -> A) (P : A -> S -> Prop) s : P (f s) s -> wp (gets f) P s.
Proof. done. Qed.

Lemma wp_modify {S} (f : S -> S) (P : unit -> S -> Prop) s : P tt (f s) -> wp (modify f) P s.
Proof. done. Qed.

Lemma wp_reads {S A} (f : S -> result A) a (P : A -> S -> Prop) s : f s = Ok a -> P a s -> wp (reads f) P s.
Proof. unfold wp, reads. by intros ->. Qed.

Lemma wp_bind {S A B} (c : M S A) (k : A -> M S B) (P : B -> S -> Prop) s :
  wp c (fun a => wp (k a) P) s -> wp (c ≫= k) P s.
Proof. unfold wp, mbind, M_bind. by destruct (c s) as [[] s']. Qed.

Lemma wp_mono {S A} (c : M S A) (P Q : A -> S -> Prop) s : (forall a s', P a s' -> Q a s') -> wp c P s -> wp c Q s.
Proof. unfold wp. intros H. destruct (c s) as [[] s']; auto. Qed.

(** [wp_step]: the next statement of a straight-line part. *)
Ltac wp_step :=
  match goal with
  | |- wp (mbind _ _) _ _ => apply wp_bind
  | |- wp (mret _) _ _ => apply wp_ret
  | |- wp (gets _) _ _ => apply wp_gets
  | |- wp (modify _) _ _ => apply wp_modify
  | |- wp (if ?b then _ else _) _ _ => let E := fresh "E" in destruct b eqn:E
  end.

(** [unfold_M]: expose the state transformer of a computation. *)
Ltac unfold_M :=
  unfold mbind, M_bind, mret, M_ret, gets, modify, reads, raise, lift.

(** * Memory *)

Definition PROT_NONE : Z := 0.
Definition PROT_READ : Z := 1.
Definition PROT_WRITE : Z := 2.
Definition PROT_EXEC : Z := 4.

(** The address space: contents, and the protection of every mapped page. *)
Record machine := MkMachine {
  mem : gmap Z Z;
  prot : gmap Z Z
}.

(** What the kernel contributes.  [page_bits] is the page size of the device (4 KiB or
    16 KiB), [proc_self_maps] the text of /proc/self/maps for an address space ([None] where it
    cannot be opened), which depends on what is mapped and not on the contents of memory,
    [mprotect_errno] whether a call of [mprotect(start, len, prot)] is refused and with
    which [errno], [vm_writev_allowed] whether [process_vm_writev] on the own process is
    permitted. *)
Class Kernel := {
  page_bits : Z;
  page_bits_range : 0 <= page_bits <= 16;
  proc_self_maps : machine -> option (list Z);
  proc_self_maps_prot : forall m m', prot m' = prot m -> proc_self_maps m' = proc_self_maps m;
  mprotect_errno : machine -> Z -> Z -> Z -> option Z;
  vm_writev_allowed : machine -> bool
}.

Section Memory.
Context `{Ar : Arch} `{K : Kernel}.

Definition PAGE_SIZE : Z := 2 ^ page_bits.

Definition page_of (a : Z) : Z := a / PAGE_SIZE.

Definition can (bit : Z) (m : machine) (a : Z) : bool :=
  match prot m !! page_of a with
  | Some p => negb (Z.land p bit =? 0)
  | None => false
  end.

(** [*(uint8_t * )a].  A mapped byte that was never written is zero. *)
Definition load8 (m : machine) (a : Z) : result Z :=
  if can PROT_READ m a then Ok (default 0 (mem m !! a)) else Segv.

(** The [n] bytes at [a]; an address wraps around at the word size. *)
Fixpoint load_bytes (m : machine) (a : Z) (n : nat) : result (list Z) :=
  match n with
  | O => Ok []
  | S n => b ← load8 m a; bs ← load_bytes m (uword (a + 1)) n; Ok (b :: bs)
  end.

(** Loads of a little-endian integer of [n] bytes. *)
Definition load (m : machine) (a : Z) (n : nat) : result Z :=
  bs ← load_bytes m a n; Ok (le_word bs).

Definition load16 (m : machine) (a : Z) : result Z := load m a 2.
Definition load32 (m : machine) (a : Z) : result Z := load m a 4.
Definition loadW (m : machine) (a : Z) : result Z := load m a (Z.to_nat word_bytes).

Fixpoint put_bytes (m : gmap Z Z) (a : Z) (bs : list Z) : gmap Z Z :=
  match bs with
  | [] => m
  | b :: bs => put_bytes (<[a := b]> m) (uword (a + 1)) bs
  end.

Definition set_mem (m : machine) (f : gmap Z Z) : machine := MkMachine f (prot m).

(** Are the [n] bytes at [a] accessible in the way [bit] says? *)
Fixpoint can_range (bit : Z) (m : machine) (a : Z) (n : nat) : bool :=
  match n with
  | O => true
  | S n => can bit m a && can_range bit m (uword (a + 1)) n
  end.

(** [*(uintptr_t * )a = v]. *)
Definition storeW (a v : Z) : M machine unit := fun m =>
  let n := Z.to_nat word_bytes in
  if can_range PROT_WRITE m a n
  then (Ok tt, set_mem m (put_bytes (mem m) a (le_bytes n v)))
  else (Segv, m).

(** [strcmp(s, (char * )a) == 0]: the comparison stops at the first difference. *)
Fixpoint streq (m : machine) (s : list Z) (a : Z) : result bool :=
  match s with
  | [] => b ← load8 m a; Ok (b =? 0)
  | c :: s => b ← load8 m a; if b =? c then streq m s (uword (a + 1)) else Ok false
  end.

(** ** System calls *)

(** The protection of the pages from [start] on, [n] of them, becomes [p]. *)
Fixpoint set_prot (t : gmap Z Z) (page : Z) (n : nat) (p : Z) : gmap Z Z :=
  match n with
  | O => t
  | S n => set_prot (alter (fun _ => p) page t) (page + 1) n p
  end.

(** [mprotect(start, len, p)]: [0], or the [errno] of a refused call. *)
Definition mprotect (start len p : Z) : M machine (option Z) := fun m =>
  match mprotect_errno m start len p with
  | Some e => (Ok (Some e), m)
  | None =>
      (Ok None,
       MkMachine (mem m)
         (set_prot (prot m) (page_of start) (Z.to_nat ((len + PAGE_SIZE - 1) / PAGE_SIZE)) p))
  end.

(** [process_vm_writev] to the own process with one segment: all of it or, where a page
    is not writable or the call is not permitted, [-1]. *)
Definition process_vm_writev (a : Z) (bs : list Z) : M machine Z := fun m =>
  if vm_writev_allowed m && can_range PROT_WRITE m a (length bs)
  then (Ok (Z.of_nat (length bs)), set_mem m (put_bytes (mem m) a bs))
  else (Ok (-1), m).
End Memory.

(** * Facts about memory *)
Section MemoryFacts.
Context `{Ar : Arch} `{K : Kernel}.

(** An object of [n] bytes at [a] that does not run over the end of the address space. *)
Definition fits (a n : Z) : Prop := 0 <= a /\ a + n < 2 ^ word_bits.

(** [b] is one of the [n] bytes at [a]. *)
Definition inside (a n b : Z) : Prop := a <= b < a + n.

#[global] Instance inside_dec a n b : Decision (inside a n b).
Proof. unfold inside. apply _. Defined.

Lemma uword_succ a n : fits a n -> 1 <= n -> uword (a + 1) = a + 1.
Proof. intros [? ?] ?. apply uword_small. lia. Qed.

Lemma put_bytes_lookup bs : forall g a b, fits a (Z.of_nat (length bs)) ->
  put_bytes g a bs !! b
  = if decide (inside a (Z.of_nat (length bs)) b) then bs !! Z.to_nat (b - a) else g !! b.
Proof.
  induction bs as [|x bs IH]; intros g a b Hf; cbn [put_bytes].
  { unfold inside. simpl. by rewrite decide_False by lia. }
  rewrite (uword_succ a _ Hf) by (simpl; lia). cbn [length] in *. unfold fits, inside in *.
  rewrite IH by lia. destruct (decide (a + 1 <= b < _)) as [H|H].
  - rewrite decide_True by lia. replace (Z.to_nat (b - a)) with (S (Z.to_nat (b - (a + 1)))) by lia. done.
  - destruct (decide (b = a)) as [-> | Hne].
    + rewrite lookup_insert_eq, decide_True by lia. by rewrite Z.sub_diag.
    + rewrite lookup_insert_ne by done. rewrite decide_False by lia. done.
Qed.

(** The [n] bytes at [a] and the word there, as memory holds them. *)
Definition bytes_in (g : gmap Z Z) (a : Z) (n : nat) : list Z :=
  (fun i => default 0 (g !! (a + Z.of_nat i))) <$> seq 0 n.

Definition word_at (g : gmap Z Z) (a : Z) : Z := le_word (bytes_in g a (Z.to_nat word_bytes)).

Definition put_word (g : gmap Z Z) (a v : Z) : gmap Z Z :=
  put_bytes g a (le_bytes (Z.to_nat word_bytes) v).

Lemma bytes_in_S g a n : bytes_in g a (S n) = default 0 (g !! a) :: bytes_in g (a + 1) n.
Proof.
  unfold bytes_in. cbn [seq fmap list_fmap]. rewrite Z.add_0_r. f_equal.
  rewrite <- fmap_S_seq, <- list_fmap_compose. apply list_fmap_ext. intros i j _. simpl.
  do 2 f_equal. lia.
Qed.

Lemma can_range_inside bit m n : forall a, fits a (Z.of_nat n) ->
  can_range bit m a n = true <-> forall b, inside a (Z.of_nat n) b -> can bit m b = true.
Proof.
  unfold inside. induction n as [|n IH]; intros a Hf; cbn [can_range].
  { split; [intros _ b Hb; lia|done]. }
  rewrite (uword_succ a _ Hf) by lia. unfold fits in *. rewrite andb_true_iff, IH by lia. split.
  - intros [Ha Hn] b Hb. destruct (decide (b = a)) as [-> |]; [done|]. apply Hn. lia.
  - intros H. split; [apply H; lia|]. intros b Hb. apply H. lia.
Qed.

Lemma load_bytes_in m n : forall a, fits a (Z.of_nat n) ->
  (forall b, inside a (Z.of_nat n) b -> can PROT_READ m b = true) ->
  load_bytes m a n = Ok (bytes_in (mem m) a n).
Proof.
  unfold inside. induction n as [|n IH]; intros a Hf Hr; [done|]. cbn [load_bytes]. unfold load8.
  rewrite (Hr a) by lia. cbn [mbind result_bind]. rewrite (uword_succ a _ Hf) by lia.
  unfold fits in *. rewrite IH; [|lia|intros b Hb; apply Hr; lia].
  cbn [mbind result_bind]. by rewrite bytes_in_S.
Qed.

(** Loads that only see bytes on which two address spaces agree. *)
Definition agree (P : Z -> Prop) (m m' : machine) : Prop :=
  forall b, P b -> load8 m' b = load8 m b.

Lemma load_bytes_agree P m m' n : forall a, fits a (Z.of_nat n) -> agree P m m' ->
  (forall b, inside a (Z.of_nat n) b -> P b) -> load_bytes m' a n = load_bytes m a n.
Proof.
  unfold inside. induction n as [|n IH]; intros a Hf Ha HP; [done|]. cbn [load_bytes].
  rewrite (Ha a) by (apply HP; lia). rewrite (uword_succ a _ Hf) by lia. unfold fits in *.
  rewrite IH; [done|lia|done|]. intros b Hb. apply HP. lia.
Qed.

Lemma word_bytes_pos : 0 < word_bytes.
Proof. destruct word_bytes_cases as [[_ ->]|[_ ->]]; lia. Qed.

Lemma word_bytes_pow : 256 ^ word_bytes = 2 ^ word_bits.
Proof. destruct word_bytes_cases as [[-> ->]|[-> ->]]; reflexivity. Qed.

Lemma loadW_word m a : fits a word_bytes ->
  (forall b, inside a word_bytes b -> can PROT_READ m b = true) ->
  loadW m a = Ok (word_at (mem m) a).
Proof.
  intros Hf Hr. pose proof word_bytes_pos. unfold loadW, load.
  rewrite load_bytes_in; [done|rewrite Z2Nat.id by lia; done|].
  intros b Hb. apply Hr. rewrite Z2Nat.id in Hb by lia. done.
Qed.

Lemma bytes_in_ext g g' a n :
  (forall b, inside a (Z.of_nat n) b -> g' !! b = g !! b) -> bytes_in g' a n = bytes_in g a n.
Proof.
  intros H. unfold bytes_in. apply list_fmap_ext. intros i j Hj.
  apply lookup_seq in Hj as [-> Hi]. rewrite H; [done|]. unfold inside. lia.
Qed.

Lemma length_bytes_in g a n : length (bytes_in g a n) = n.
Proof. unfold bytes_in. by rewrite length_fmap, length_seq. Qed.

Lemma put_word_lookup g a v b : fits a word_bytes ->
  put_word g a v !! b
  = if decide (inside a word_bytes b) then le_bytes (Z.to_nat word_bytes) v !! Z.to_nat (b - a)
    else g !! b.
Proof.
  intros Hf. unfold put_word. pose proof word_bytes_pos.
  rewrite put_bytes_lookup; rewrite length_le_bytes, Z2Nat.id by lia; done.
Qed.

Lemma put_word_other g a v b : fits a word_bytes -> ~ inside a word_bytes b ->
  put_word g a v !! b = g !! b.
Proof. intros Hf Hb. by rewrite put_word_lookup, decide_False by done. Qed.

Lemma word_at_put_same g a v : fits a word_bytes -> in_word word_bits v ->
  word_at (put_word g a v) a = v.
Proof.
  intros Hf Hv. unfold word_at. pose proof word_bytes_pos as Hp.
  replace (bytes_in _ _ _) with (le_bytes (Z.to_nat word_bytes) v).
  { rewrite le_word_bytes, Z2Nat.id, word_bytes_pow by lia. by apply Z.mod_small. }
  apply list_eq_same_length with (Z.to_nat word_bytes);
    [by rewrite length_bytes_in|by rewrite length_le_bytes|].
  intros i x y Hi Hx Hy. unfold bytes_in in Hy. rewrite list_lookup_fmap, lookup_seq_lt in Hy by done.
  simpl in Hy. injection Hy as <-. rewrite put_word_lookup by done.
  rewrite decide_True by (unfold inside; lia).
  replace (Z.to_nat (a + Z.of_nat i - a)) with i by lia. by rewrite Hx.
Qed.

(** Two words in disjoint places. *)
Definition apart (a b : Z) : Prop := a + word_bytes <= b \/ b + word_bytes <= a.

Lemma word_at_put_other g a b v : fits b word_bytes -> apart a b ->
  word_at (put_word g b v) a = word_at g a.
Proof.
  intros Hf Hab. unfold word_at. f_equal. apply bytes_in_ext. intros c Hc.
  pose proof word_bytes_pos. rewrite Z2Nat.id in Hc by lia.
  apply put_word_other; [done|]. unfold apart, inside in *. lia.
Qed.

Lemma word_at_range g a : map_Forall (fun _ b => is_byte b) g -> in_word word_bits (word_at g a).
Proof.
  intros Hg. unfold in_word, word_at. pose proof word_bytes_pos.
  pose proof (le_word_range (bytes_in g a (Z.to_nat word_bytes))) as Hr.
  rewrite length_bytes_in, Z2Nat.id, word_bytes_pow in Hr by lia. apply Hr.
  unfold bytes_in. apply Forall_fmap, Forall_forall. intros i _. simpl.
  destruct (g !! _) as [b|] eqn:E; simpl; [by eapply Hg|]. unfold is_byte. lia.
Qed.

Lemma storeW_run m a v : fits a word_bytes ->
  (forall b, inside a word_bytes b -> can PROT_WRITE m b = true) ->
  storeW a v m = (Ok tt, set_mem m (put_word (mem m) a v)).
Proof.
  intros Hf Hw. unfold storeW. pose proof word_bytes_pos.
  assert (can_range PROT_WRITE m a (Z.to_nat word_bytes) = true) as ->; [|done].
  apply can_range_inside; rewrite Z2Nat.id by lia; done.
Qed.
End MemoryFacts.

(** * C strings in memory *)
Section Strings.
Context `{Ar : Arch} `{K : Kernel}.

(** The characters of a C string are bytes other than the terminator. *)
Definition is_cstring (s : list Z) : Prop := Forall (fun c => 0 < c < 256) s.

#[global] Instance is_cstring_dec s : Decision (is_cstring s).
Proof. unfold is_cstring. apply _. Defined.

(** The string [s] with its terminator lies at [a]. *)
Fixpoint str_at (m : machine) (a : Z) (s : list Z) : Prop :=
  match s with
  | [] => load8 m a = Ok 0
  | c :: s => c <> 0 /\ load8 m a = Ok c /\ str_at m (uword (a + 1)) s
  end.

Lemma streq_correct m t : forall a s, is_cstring t -> str_at m a s ->
  streq m t a = Ok (bool_decide (t = s)).
Proof.
  induction t as [|c t IH]; intros a [|d s] Ht Hs; cbn [streq str_at] in *.
  - by rewrite Hs.
  - destruct Hs as (Hd & -> & _). rewrite bool_decide_false by done. simpl.
    by destruct (Z.eqb_spec d 0).
  - apply Forall_cons in Ht as [Hc _]. rewrite Hs, bool_decide_false by done.
    cbn [mbind result_bind]. destruct (Z.eqb_spec 0 c); [lia|done].
  - apply Forall_cons in Ht as [Hc Ht]. destruct Hs as (Hd & -> & Hs).
    cbn [mbind result_bind].
    destruct (Z.eqb_spec d c) as [-> | Hne].
    + rewrite (IH _ s) by done. f_equal. apply bool_decide_ext. split; congruence.
    + rewrite bool_decide_false; [done|]. congruence.
Qed.
End Strings.

Section PageSize.
Context `{Ar : Arch} `{K : Kernel}.

Lemma PAGE_SIZE_pos : 0 < PAGE_SIZE.
Proof. unfold PAGE_SIZE. pose proof page_bits_range. apply Z.pow_pos_nonneg; lia. Qed.

Lemma PAGE_SIZE_bound : PAGE_SIZE < 2 ^ word_bits.
Proof. unfold PAGE_SIZE. pose proof page_bits_range. pose proof word_bits_ge. apply Z.pow_lt_mono_r; lia. Qed.
End PageSize.

(** * A concrete process, for examples *)

(** A kernel with 4 KiB pages that refuses no call. *)
Definition permissive_kernel (maps : option (list Z)) : Kernel :=
  {| page_bits := 12; page_bits_range := ltac:(lia);
     proc_self_maps := fun _ => maps;
     proc_self_maps_prot := fun _ _ _ => eq_refl;
     mprotect_errno := fun _ _ _ _ => None;
     vm_writev_allowed := fun _ => true |}.

(** Pages of protection [p] from page number [first] on. *)
Definition pages (first : Z) (n : nat) (p : Z) : gmap Z Z :=
  list_to_map ((fun i => (first + Z.of_nat i, p)) <$> seq 0 n).
