(* ===== verification/Elf.v ===== *)
(** The part of elf.h and link.h that the sources use: constants, and the fields of the
    [ElfW(...)] structures as loads at the offsets of the 32- and 64-bit layouts. *)
From S2P Require Import Prelude Arch Machine.

(** * Constants *)

Definition ELFMAG : list Z := [127; 69; 76; 70].
Definition SELFMAG : nat := 4.
Definition EI_CLASS : Z := 4.
Definition EI_DATA : Z := 5.
Definition EI_VERSION : Z := 6.
Definition ELFCLASS32 : Z := 1.
Definition ELFCLASS64 : Z := 2.
Definition ELFDATA2LSB : Z := 1.
Definition EV_CURRENT : Z := 1.
Definition ET_EXEC : Z := 2.
Definition ET_DYN : Z := 3.
Definition PT_LOAD : Z := 1.
Definition PT_DYNAMIC : Z := 2.

Definition DT_NULL : Z := 0.
Definition DT_PLTRELSZ : Z := 2.
Definition DT_HASH : Z := 4.
Definition DT_STRTAB : Z := 5.
Definition DT_SYMTAB : Z := 6.
Definition DT_RELA : Z := 7.
Definition DT_RELASZ : Z := 8.
Definition DT_REL : Z := 17.
Definition DT_RELSZ : Z := 18.
Definition DT_PLTREL : Z := 20.
Definition DT_JMPREL : Z := 23.
Definition DT_ANDROID_REL : Z := 0x6000000f.
Definition DT_ANDROID_RELSZ : Z := 0x60000010.
Definition DT_ANDROID_RELA : Z := 0x60000011.
Definition DT_ANDROID_RELASZ : Z := 0x60000012.
Definition DT_GNU_HASH : Z := 0x6ffffef5.

Definition SHT_PROGBITS : Z := 1.
Definition SHT_SYMTAB : Z := 2.
Definition SHT_STRTAB : Z := 3.
Definition SHT_DYNSYM : Z := 11.
Definition STT_OBJECT : Z := 1.
Definition STT_FUNC : Z := 2.

(** * Structures *)
Section Layout.
Context `{Ar : Arch} `{K : Kernel}.

(** Offset of a field in the 32- and in the 64-bit structure. *)
Definition at_ (o32 o64 : Z) : Z := if is_lp64 then o64 else o32.

Definition fieldW (m : machine) (p o32 o64 : Z) : result Z := loadW m (uword (p + at_ o32 o64)).
Definition field32 (m : machine) (p o32 o64 : Z) : result Z := load32 m (uword (p + at_ o32 o64)).
Definition field16 (m : machine) (p o32 o64 : Z) : result Z := load16 m (uword (p + at_ o32 o64)).
Definition field8 (m : machine) (p o32 o64 : Z) : result Z := load8 m (uword (p + at_ o32 o64)).

(** ElfW(Ehdr) *)
Definition e_ident (m : machine) (p i : Z) : result Z := load8 m (uword (p + i)).
Definition e_type (m : machine) (p : Z) : result Z := field16 m p 16 16.
Definition e_machine (m : machine) (p : Z) : result Z := field16 m p 18 18.
Definition e_version (m : machine) (p : Z) : result Z := field32 m p 20 20.
Definition e_phoff (m : machine) (p : Z) : result Z := fieldW m p 28 32.
Definition e_shoff (m : machine) (p : Z) : result Z := fieldW m p 32 40.
Definition e_phnum (m : machine) (p : Z) : result Z := field16 m p 44 56.
Definition e_shentsize (m : machine) (p : Z) : result Z := field16 m p 46 58.
Definition e_shnum (m : machine) (p : Z) : result Z := field16 m p 48 60.
Definition e_shstrndx (m : machine) (p : Z) : result Z := field16 m p 50 62.

(** ElfW(Phdr) *)
Definition sizeof_Phdr : Z := at_ 32 56.
Definition p_type (m : machine) (p : Z) : result Z := field32 m p 0 0.
Definition p_offset (m : machine) (p : Z) : result Z := fieldW m p 4 8.
Definition p_vaddr (m : machine) (p : Z) : result Z := fieldW m p 8 16.
Definition p_memsz (m : machine) (p : Z) : result Z := fieldW m p 20 40.

(** ElfW(Dyn) *)
Definition sizeof_Dyn : Z := at_ 8 16.
Definition d_tag (m : machine) (p : Z) : result Z := fieldW m p 0 0.
Definition d_un (m : machine) (p : Z) : result Z := fieldW m p 4 8.

(** ElfW(Sym) *)
Definition sizeof_Sym : Z := at_ 16 24.
Definition st_name (m : machine) (p : Z) : result Z := field32 m p 0 0.
Definition st_info (m : machine) (p : Z) : result Z := field8 m p 12 4.
Definition st_value_at (p : Z) : Z := uword (p + at_ 4 8).
Definition st_value (m : machine) (p : Z) : result Z := loadW m (st_value_at p).

(** ElfW(Rel), ElfW(Rela) *)
Definition sizeof_Rel : Z := at_ 8 16.
Definition sizeof_Rela : Z := at_ 12 24.
Definition r_offset_field (m : machine) (p : Z) : result Z := fieldW m p 0 0.
Definition r_info_field (m : machine) (p : Z) : result Z := fieldW m p 4 8.

(** [ELF{32,64}_R_SYM] and [ELF{32,64}_R_TYPE]. *)
Definition R_SYM (info : Z) : Z := if is_lp64 then Z.shiftr info 32 else Z.shiftr info 8.
Definition R_TYPE (info : Z) : Z :=
  if is_lp64 then Z.land info 0xffffffff else Z.land info 0xff.

(** [ELF_ST_TYPE]. *)
Definition ST_TYPE (info : Z) : Z := Z.land info 15.
End Layout.
