(* ===== verification/Reloc.v ===== *)
(** Relocation tables: the iterators of xh_elf.c (libxhook) over plain .rel(a) sections
    and over the packed sections of Android, which are a stream of signed LEB128
    integers. *)
From S2P Require Import Prelude Arch Machine Elf.

Module Reloc.
Section Iterators.
Context `{Ar : Arch} `{K : Kernel}.

(** ** Plain sections *)

Record plain_reloc_iterator := MkPlain {
  pl_cur : Z;
  pl_end : Z;
  pl_rela : bool
}.

Definition plain_reloc_iterator_init (rel rel_sz : Z) (is_use_rela : bool)
  : plain_reloc_iterator :=
  MkPlain rel (uword (rel + rel_sz)) is_use_rela.

(** [NULL], or the address of the next entry. *)
Definition plain_reloc_iterator_next (self : plain_reloc_iterator)
  : option Z * plain_reloc_iterator :=
  if pl_end self <=? pl_cur self then (None, self)
  else (Some (pl_cur self),
        MkPlain (uword (pl_cur self + if pl_rela self then sizeof_Rela else sizeof_Rel))
          (pl_end self) (pl_rela self)).

(** ** Signed LEB128 *)

Record sleb128_decoder := MkSleb { sl_cur : Z; sl_end : Z }.

Definition sleb128_decoder_init (rel rel_sz : Z) : sleb128_decoder :=
  MkSleb rel (uword (rel + rel_sz)).

(** The [do .. while(byte & 128)] loop from [value] and [shift] on; the result is the
    last byte, the value and the shift.  [None] is [XH_ERRNO_FORMAT].  A shift by the
    width of [size_t] or more is undefined. *)
Fixpoint sleb128_loop (fuel : nat) (m : machine) (self : sleb128_decoder) (value shift : Z)
  : result (option (Z * Z * Z) * sleb128_decoder) :=
  match fuel with
  | O => NoFuel
  | S fuel =>
      if sl_end self <=? sl_cur self then Ok (None, self) else
      byte ← load8 m (sl_cur self);
      let self := MkSleb (uword (sl_cur self + 1)) (sl_end self) in
      if word_bits <=? shift then Undef else
      let value := Z.lor value (uword (Z.shiftl (Z.land byte 127) shift)) in
      let shift := shift + 7 in
      if Z.testbit byte 7 then sleb128_loop fuel m self value shift
      else Ok (Some (byte, value, shift), self)
  end.

(** Ten iterations use up the shift amounts below 64, hence the bound. *)
Definition sleb128_fuel : nat := 11.

Definition sleb128_decoder_next (m : machine) (self : sleb128_decoder)
  : result (option Z * sleb128_decoder) :=
  r ← sleb128_loop sleb128_fuel m self 0 0;
  match r with
  | (None, self) => Ok (None, self)
  | (Some (byte, value, shift), self) =>
      let value :=
        if (shift <? word_bits) && Z.testbit byte 6
        then Z.lor value (uword (- uword (Z.shiftl 1 shift))) else value in
      Ok (Some value, self)
  end.

(** ** Packed sections *)

Record packed_reloc_iterator := MkPacked {
  decoder : sleb128_decoder;
  relocation_count : Z;
  group_size : Z;
  group_flags : Z;
  group_r_offset_delta : Z;
  relocation_index : Z;
  relocation_group_index : Z;
  r_offset : Z;
  r_info : Z;
  r_addend : Z;
  is_use_rela : bool
}.

Definition RELOCATION_GROUPED_BY_INFO_FLAG : Z := 1.
Definition RELOCATION_GROUPED_BY_OFFSET_DELTA_FLAG : Z := 2.
Definition RELOCATION_GROUPED_BY_ADDEND_FLAG : Z := 4.
Definition RELOCATION_GROUP_HAS_ADDEND_FLAG : Z := 8.

Definition flag (fl bit : Z) : bool := negb (Z.land fl bit =? 0).

Definition set_decoder (i : packed_reloc_iterator) (d : sleb128_decoder) :=
  MkPacked d (relocation_count i) (group_size i) (group_flags i) (group_r_offset_delta i)
    (relocation_index i) (relocation_group_index i) (r_offset i) (r_info i) (r_addend i)
    (is_use_rela i).
Definition set_count (i : packed_reloc_iterator) (v : Z) :=
  MkPacked (decoder i) v (group_size i) (group_flags i) (group_r_offset_delta i)
    (relocation_index i) (relocation_group_index i) (r_offset i) (r_info i) (r_addend i)
    (is_use_rela i).
Definition set_group_size (i : packed_reloc_iterator) (v : Z) :=
  MkPacked (decoder i) (relocation_count i) v (group_flags i) (group_r_offset_delta i)
    (relocation_index i) (relocation_group_index i) (r_offset i) (r_info i) (r_addend i)
    (is_use_rela i).
Definition set_group_flags (i : packed_reloc_iterator) (v : Z) :=
  MkPacked (decoder i) (relocation_count i) (group_size i) v (group_r_offset_delta i)
    (relocation_index i) (relocation_group_index i) (r_offset i) (r_info i) (r_addend i)
    (is_use_rela i).
Definition set_delta (i : packed_reloc_iterator) (v : Z) :=
  MkPacked (decoder i) (relocation_count i) (group_size i) (group_flags i) v
    (relocation_index i) (relocation_group_index i) (r_offset i) (r_info i) (r_addend i)
    (is_use_rela i).
Definition set_indices (i : packed_reloc_iterator) (ri gi : Z) :=
  MkPacked (decoder i) (relocation_count i) (group_size i) (group_flags i)
    (group_r_offset_delta i) ri gi (r_offset i) (r_info i) (r_addend i) (is_use_rela i).
Definition set_offset (i : packed_reloc_iterator) (v : Z) :=
  MkPacked (decoder i) (relocation_count i) (group_size i) (group_flags i)
    (group_r_offset_delta i) (relocation_index i) (relocation_group_index i) v (r_info i)
    (r_addend i) (is_use_rela i).
Definition set_info (i : packed_reloc_iterator) (v : Z) :=
  MkPacked (decoder i) (relocation_count i) (group_size i) (group_flags i)
    (group_r_offset_delta i) (relocation_index i) (relocation_group_index i) (r_offset i) v
    (r_addend i) (is_use_rela i).
Definition set_addend (i : packed_reloc_iterator) (v : Z) :=
  MkPacked (decoder i) (relocation_count i) (group_size i) (group_flags i)
    (group_r_offset_delta i) (relocation_index i) (relocation_group_index i) (r_offset i)
    (r_info i) v (is_use_rela i).

(** One [xh_elf_sleb128_decoder_next] on the iterator's decoder whose value goes to the
    continuation; [None] is the error [XH_ERRNO_FORMAT], with the iterator as it was
    when the decoder failed. *)
Definition next_value (m : machine) (self : packed_reloc_iterator)
    (k : Z -> packed_reloc_iterator -> result (option unit * packed_reloc_iterator))
  : result (option unit * packed_reloc_iterator) :=
  r ← sleb128_decoder_next m (decoder self);
  match r with
  | (None, d) => Ok (None, set_decoder self d)
  | (Some v, d) => k v (set_decoder self d)
  end.

Definition packed_reloc_iterator_init (m : machine) (rel rel_sz : Z) (use_rela : bool)
  : result (option unit * packed_reloc_iterator) :=
  let self := MkPacked (sleb128_decoder_init rel rel_sz) 0 0 0 0 0 0 0 0 0 use_rela in
  next_value m self (fun v self =>
  next_value m (set_count self v) (fun v self =>
  Ok (Some tt, set_offset self v))).

Definition packed_reloc_iterator_read_group_fields (m : machine) (self : packed_reloc_iterator)
  : result (option unit * packed_reloc_iterator) :=
  next_value m self (fun v self =>
  next_value m (set_group_size self v) (fun v self =>
  let self := set_group_flags self v in
  let fl := v in
  let by_addend self :=
    if flag fl RELOCATION_GROUP_HAS_ADDEND_FLAG && flag fl RELOCATION_GROUPED_BY_ADDEND_FLAG
    then
      if negb (is_use_rela self) then Ok (None, self)
      else next_value m self (fun v self =>
             Ok (Some tt, set_indices (set_addend self (sword (r_addend self + sword v)))
                            (relocation_index self) 0))
    else
      let self :=
        if negb (flag fl RELOCATION_GROUP_HAS_ADDEND_FLAG) then set_addend self 0 else self in
      Ok (Some tt, set_indices self (relocation_index self) 0) in
  let by_info self :=
    if flag fl RELOCATION_GROUPED_BY_INFO_FLAG
    then next_value m self (fun v self => by_addend (set_info self v))
    else by_addend self in
  if flag fl RELOCATION_GROUPED_BY_OFFSET_DELTA_FLAG
  then next_value m self (fun v self => by_info (set_delta self v))
  else by_info self)).

(** A relocation entry: [r_offset] and [r_info] of an ElfW(Rel) or ElfW(Rela). *)
Record reloc := MkReloc { ro_offset : Z; ro_info : Z; ro_addend : Z }.

(** The part of [xh_elf_packed_reloc_iterator_next] after the group fields are there:
    offset, info and addend of the entry; [None] is a decoding error, on which the
    source returns [NULL]. *)
Definition packed_entry (m : machine) (self : packed_reloc_iterator)
  : result (option unit * packed_reloc_iterator) :=
  let fl := group_flags self in
  let addend self :=
    if is_use_rela self && flag fl RELOCATION_GROUP_HAS_ADDEND_FLAG
       && negb (flag fl RELOCATION_GROUPED_BY_ADDEND_FLAG)
    then next_value m self (fun v self =>
           Ok (Some tt, set_addend self (sword (r_addend self + sword v))))
    else Ok (Some tt, self) in
  let info self :=
    if negb (flag fl RELOCATION_GROUPED_BY_INFO_FLAG)
    then next_value m self (fun v self => addend (set_info self v))
    else addend self in
  if flag fl RELOCATION_GROUPED_BY_OFFSET_DELTA_FLAG
  then info (set_offset self (uword (r_offset self + group_r_offset_delta self)))
  else next_value m self (fun v self => info (set_offset self (uword (r_offset self + v)))).

(** [NULL], or the entry left in [self->rela] or [self->rel]. *)
Definition packed_reloc_iterator_next (m : machine) (self : packed_reloc_iterator)
  : result (option reloc * packed_reloc_iterator) :=
  if relocation_count self <=? relocation_index self then Ok (None, self) else
  r ← (if relocation_group_index self =? group_size self
       then packed_reloc_iterator_read_group_fields m self
       else Ok (Some tt, self));
  match r with
  | (None, self) => Ok (None, self)
  | (Some _, self) =>
      r ← packed_entry m self;
      match r with
      | (None, self) => Ok (None, self)
      | (Some _, self) =>
          let self := set_indices self (uword (relocation_index self + 1))
                        (uword (relocation_group_index self + 1)) in
          Ok (Some (MkReloc (r_offset self) (r_info self)
                      (if is_use_rela self then r_addend self else 0)), self)
      end
  end.

(** The entries a [while(NULL != (rel = next(..)))] loop visits. *)
Fixpoint packed_relocs (fuel : nat) (m : machine) (self : packed_reloc_iterator)
  : result (list reloc) :=
  match fuel with
  | O => NoFuel
  | S fuel =>
      r ← packed_reloc_iterator_next m self;
      match r with
      | (None, _) => Ok []
      | (Some x, self) => xs ← packed_relocs fuel m self; Ok (x :: xs)
      end
  end.
End Iterators.
End Reloc.

(** * Signed LEB128 decoding *)
Module Sleb.
Import Reloc.

(** The bytes of one encoded integer: bit 7 set on all but the last. *)
Fixpoint well_formed (bs : list Z) : Prop :=
  match bs with
  | [] => False
  | [b] => 0 <= b < 128
  | b :: bs => 128 <= b < 256 /\ well_formed bs
  end.

(** The payload, seven bits a byte, least significant first. *)
Fixpoint uvalue (bs : list Z) : Z :=
  match bs with
  | [] => 0
  | b :: bs => Z.land b 127 + 128 * uvalue bs
  end.

(** The integer: bit 6 of the last byte is the sign. *)
Definition value (bs : list Z) : Z :=
  uvalue bs - if Z.testbit (List.last bs 0) 6 then 2 ^ (7 * Z.of_nat (length bs)) else 0.

(** The canonical encoding of [v], in at most [S n] bytes. *)
Fixpoint encode (n : nat) (v : Z) : list Z :=
  match n with
  | O => [Z.land v 127]
  | S n =>
      if (-64 <=? v) && (v <? 64) then [Z.land v 127]
      else (Z.land v 127 + 128) :: encode n (Z.shiftr v 7)
  end.

Lemma uvalue_range bs : 0 <= uvalue bs < 2 ^ (7 * Z.of_nat (length bs)).
Proof.
  induction bs as [|b bs IH]; [done|]. cbn [uvalue length].
  pose proof (land_127_range b).
  replace (7 * Z.of_nat (S (length bs))) with (7 + 7 * Z.of_nat (length bs)) by lia.
  rewrite Z.pow_add_r by lia. change (2 ^ 7) with 128. lia.
Qed.

Lemma testbit_high b i : 0 <= b < 2 ^ (i + 1) -> 0 <= i -> Z.testbit b i = (2 ^ i <=? b).
Proof.
  intros Hb Hi. rewrite Z.pow_add_r in Hb by lia.
  rewrite Z.testbit_eqb by lia.
  destruct (Z.leb_spec (2 ^ i) b).
  - replace (b / 2 ^ i) with 1 by (apply (Z.div_unique _ _ _ (b - 2 ^ i)); lia). done.
  - rewrite Z.div_small by lia. done.
Qed.

Lemma well_formed_cons b bs : well_formed (b :: bs) ->
  (bs = [] /\ 0 <= b < 128) \/ (bs <> [] /\ 128 <= b < 256 /\ well_formed bs).
Proof. destruct bs; simpl; intros H; [by left | right]. by destruct H. Qed.

Section Decode.
Context `{Ar : Arch} `{K : Kernel}.

(** The bytes [bs] lie at [a]. *)
Fixpoint stored (m : machine) (a : Z) (bs : list Z) : Prop :=
  match bs with
  | [] => True
  | b :: bs => load8 m a = Ok b /\ stored m (uword (a + 1)) bs
  end.

Lemma lor_uword a b : in_word word_bits a -> Z.lor a (uword b) = uword (Z.lor a b).
Proof.
  intros Ha. unfold uword. rewrite wrap_lor by apply word_bits_nonneg.
  by rewrite (wrap_small word_bits a).
Qed.

Lemma loop_result (b v v' s s' c c' e : Z) : v = v' -> s = s' -> c = c' ->
  Ok (Some (b, v, s), MkSleb c e) = Ok (Some (b, v', s'), MkSleb c' e).
Proof. by intros -> -> ->. Qed.

Lemma loop_correct m bs : forall fuel cur e v k,
  well_formed bs -> stored m cur bs ->
  0 <= cur -> cur + Z.of_nat (length bs) <= e -> e < 2 ^ word_bits ->
  7 * (k + Z.of_nat (length bs) - 1) < word_bits -> 0 <= k ->
  0 <= v < 2 ^ (7 * k) -> (length bs <= fuel)%nat ->
  sleb128_loop fuel m (MkSleb cur e) v (7 * k)
  = Ok (Some (List.last bs 0, uword (v + 2 ^ (7 * k) * uvalue bs),
              7 * (k + Z.of_nat (length bs))),
        MkSleb (cur + Z.of_nat (length bs)) e).
Proof.
  induction bs as [|b bs IH]; intros fuel cur e v k Hwf Hst Hcur Hend He Hk Hk0 Hv Hf.
  { done. }
  destruct fuel as [|fuel]; [simpl in Hf; lia|]. cbn [length] in *.
  destruct Hst as [Hb Hst]. cbn [sleb128_loop sl_cur sl_end].
  destruct (Z.leb_spec e cur); [lia|]. rewrite Hb. cbn [mbind result_bind].
  destruct (Z.leb_spec word_bits (7 * k)); [lia|].
  assert (0 <= v < 2 ^ word_bits) as Hvw.
  { pose proof (Z.pow_le_mono_r 2 (7 * k) word_bits). lia. }
  rewrite lor_uword, lor_shiftl by (unfold in_word; lia).
  rewrite (uword_small (cur + 1)) by lia. rewrite (uword_small (cur + 1)) in Hst by lia.
  pose proof (land_127_range b) as Hlo.
  apply well_formed_cons in Hwf as [(-> & Hb7) | (Hne & Hb7 & Hwf)].
  - assert (Z.testbit b 7 = false) as ->.
    { rewrite testbit_high by (change (2 ^ (7 + 1)) with 256; lia). change (2 ^ 7) with 128. lia. }
    cbn [uvalue List.last length]. apply loop_result; [f_equal| |]; lia.
  - assert (Z.testbit b 7 = true) as ->.
    { rewrite testbit_high by (change (2 ^ (7 + 1)) with 256; lia). change (2 ^ 7) with 128. lia. }
    assert (0 < Z.of_nat (length bs)) as Hlen by (destruct bs; simpl; [done|lia]).
    assert (2 ^ (7 * (k + 1)) = 2 ^ (7 * k) * 128) as Epow.
    { replace (7 * (k + 1)) with (7 * k + 7) by lia. rewrite Z.pow_add_r by lia. lia. }
    assert (2 ^ (7 * (k + 1)) <= 2 ^ word_bits) as Hle by (apply Z.pow_le_mono_r; lia).
    assert (0 < 2 ^ (7 * k)) by (apply Z.pow_pos_nonneg; lia).
    rewrite uword_small by nia.
    replace (7 * k + 7) with (7 * (k + 1)) by lia.
    rewrite (IH fuel (cur + 1) e _ (k + 1)); try lia; try done; [|nia].
    cbn [uvalue]. rewrite Epow. destruct bs as [|b' bs]; [done|].
    change (List.last (b :: b' :: bs) 0) with (List.last (b' :: bs) 0).
    apply loop_result; [f_equal| |]; lia.
Qed.

(** A well-formed encoding that fits the word is decoded to its value, and the decoder
    stops right behind it. *)
Lemma next_correct m bs cur e :
  well_formed bs -> stored m cur bs ->
  0 <= cur -> cur + Z.of_nat (length bs) <= e -> e < 2 ^ word_bits ->
  7 * (Z.of_nat (length bs) - 1) < word_bits ->
  sleb128_decoder_next m (MkSleb cur e)
  = Ok (Some (uword (value bs)), MkSleb (cur + Z.of_nat (length bs)) e).
Proof.
  intros Hwf Hst Hcur Hend He Hk. unfold sleb128_decoder_next.
  assert (length bs <= sleb128_fuel)%nat as Hf.
  { unfold sleb128_fuel. destruct word_bits_cases; lia. }
  pose proof (loop_correct m bs sleb128_fuel cur e 0 0) as E. change (7 * 0) with 0 in E.
  rewrite E by (try done; lia). clear E.
  cbn [mbind result_bind]. rewrite Z.pow_0_r, Z.mul_1_l, !Z.add_0_l.
  unfold value. pose proof (uvalue_range bs) as Hu.
  set (s := 7 * Z.of_nat (length bs)) in *.
  do 3 f_equal. destruct (Z.ltb_spec s word_bits) as [Hs|Hs]; cbn [andb].
  - destruct (Z.testbit (List.last bs 0) 6); [|by rewrite Z.sub_0_r].
    assert (2 ^ s < 2 ^ word_bits) by (apply Z.pow_lt_mono_r; lia).
    assert (0 < 2 ^ s) by (apply Z.pow_pos_nonneg; lia).
    rewrite Z.shiftl_mul_pow2, Z.mul_1_l by lia.
    rewrite (uword_small (2 ^ s)), (uword_small (uvalue bs)) by lia.
    rewrite lor_uword by (unfold in_word; lia).
    replace (- 2 ^ s) with (Z.shiftl (-1) s) by (rewrite Z.shiftl_mul_pow2; lia).
    rewrite lor_shiftl by lia. f_equal; lia.
  - destruct (Z.testbit (List.last bs 0) 6); [|by rewrite Z.sub_0_r].
    pose proof word_bits_ge. unfold uword, wrap.
    replace s with (word_bits + (s - word_bits)) by lia.
    rewrite Z.pow_add_r by lia.
    replace (uvalue bs - _) with (uvalue bs + (- 2 ^ (s - word_bits)) * 2 ^ word_bits) by lia.
    by rewrite Z.mod_add by (apply Z.pow_nonzero; lia).
Qed.

(** ** The canonical encoder *)

Lemma encode_length n v : (1 <= length (encode n v) <= S n)%nat.
Proof.
  revert v. induction n as [|n IH]; intros v; simpl; [lia|].
  destruct (_ && _); simpl; [lia|]. specialize (IH (Z.shiftr v 7)). lia.
Qed.

Lemma encode_well_formed n v : well_formed (encode n v).
Proof.
  revert v. induction n as [|n IH]; intros v; cbn [encode]; [apply land_127_range|].
  pose proof (land_127_range v). destruct (_ && _); [done|].
  pose proof (encode_length n (Z.shiftr v 7)). specialize (IH (Z.shiftr v 7)).
  destruct (encode n (Z.shiftr v 7)); [simpl in *; lia|]. split; [lia|done].
Qed.

Lemma value_cons b bs : bs <> [] -> value (b :: bs) = Z.land b 127 + 128 * value bs.
Proof.
  intros Hne. unfold value. cbn [uvalue length].
  assert (List.last (b :: bs) 0 = List.last bs 0) as -> by (by destruct bs).
  destruct (Z.testbit _ 6); [|lia].
  replace (7 * Z.of_nat (S (length bs))) with (7 + 7 * Z.of_nat (length bs)) by lia.
  rewrite Z.pow_add_r by lia. change (2 ^ 7) with 128. lia.
Qed.

Lemma value_single v : -64 <= v < 64 -> value [Z.land v 127] = v.
Proof.
  intros Hv. unfold value. cbn [uvalue List.last length].
  rewrite <- Z.land_assoc. change (Z.land 127 127) with 127. rewrite land_127.
  rewrite testbit_high by (change (2 ^ (6 + 1)) with 128; pose proof (Z.mod_pos_bound v 128); lia).
  change (2 ^ 6) with 64. change (2 ^ (7 * Z.of_nat 1)) with 128.
  destruct (Z.leb_spec 64 (v mod 128)); Z.to_euclidean_division_equations; lia.
Qed.

Lemma encode_value n v : - 2 ^ (7 * Z.of_nat n + 6) <= v < 2 ^ (7 * Z.of_nat n + 6) ->
  value (encode n v) = v.
Proof.
  revert v. induction n as [|n IH]; intros v Hv; cbn [encode].
  { by apply value_single. }
  destruct (Z.leb_spec (-64) v), (Z.ltb_spec v 64); cbn [andb];
    try (apply value_single; lia).
  all: rewrite value_cons by (pose proof (encode_length n (Z.shiftr v 7));
         intros E; rewrite E in *; simpl in *; lia).
  all: rewrite IH; rewrite ?Z.shiftr_div_pow2 by lia; change (2 ^ 7) with 128;
    [rewrite !land_127; change 128 with (1 * 128) at 2; rewrite Z.mod_add, Z.mod_mod by lia;
       pose proof (Z.div_mod v 128); lia
    |replace (7 * Z.of_nat (S n) + 6) with (7 + (7 * Z.of_nat n + 6)) in Hv by lia;
       rewrite Z.pow_add_r in Hv by lia; change (2 ^ 7) with 128 in Hv;
       Z.to_euclidean_division_equations; lia].
Qed.

(** Bytes of the longest encoding of a machine word, less one. *)
Definition encode_fuel : nat := if is_lp64 then 9 else 4.

(** The encoding of a [size_t]. *)
Definition encode_word (u : Z) : list Z := encode encode_fuel (sword u).

Lemma sword_range u : - 2 ^ (word_bits - 1) <= sword u < 2 ^ (word_bits - 1).
Proof.
  unfold sword, swrap.
  pose proof (Z.mod_pos_bound (u + 2 ^ (word_bits - 1)) (2 ^ word_bits)).
  destruct word_bits_cases as [E|E]; rewrite E in *; lia.
Qed.

Lemma uword_sword u : in_word word_bits u -> uword (sword u) = u.
Proof.
  intros Hu. unfold uword, sword, swrap, wrap, in_word in *.
  destruct word_bits_cases as [E|E]; rewrite E in *;
    Z.to_euclidean_division_equations; lia.
Qed.

Lemma encode_fuel_cases : (word_bits = 32 /\ encode_fuel = 4%nat)
  \/ (word_bits = 64 /\ encode_fuel = 9%nat).
Proof.
  unfold encode_fuel, is_lp64.
  destruct word_bits_cases as [E|E]; rewrite E; [by left | by right].
Qed.

Lemma encode_word_value u : in_word word_bits u -> uword (value (encode_word u)) = u.
Proof.
  intros Hu. unfold encode_word. rewrite encode_value; [by apply uword_sword|].
  pose proof (sword_range u).
  destruct encode_fuel_cases as [[E F]|[E F]]; rewrite E in *; rewrite F; simpl; lia.
Qed.
End Decode.

Section Roundtrip.
Context `{Ar : Arch} `{K : Kernel}.

Lemma next_encode_word m u cur e :
  in_word word_bits u -> stored m cur (encode_word u) ->
  0 <= cur -> cur + Z.of_nat (length (encode_word u)) <= e -> e < 2 ^ word_bits ->
  sleb128_decoder_next m (MkSleb cur e)
  = Ok (Some u, MkSleb (cur + Z.of_nat (length (encode_word u))) e).
Proof.
  intros Hu Hst Hcur Hend He.
  pose proof (encode_word_value u Hu) as E. rewrite <- E at 1.
  apply next_correct; try done; [apply encode_well_formed|].
  pose proof (encode_length encode_fuel (sword u)). unfold encode_word.
  destruct encode_fuel_cases as [[-> F]|[-> F]]; rewrite F in *; lia.
Qed.

Lemma stored_app m a bs cs :
  stored m a (bs ++ cs) -> 0 <= a -> a + Z.of_nat (length (bs ++ cs)) < 2 ^ word_bits ->
  stored m a bs /\ stored m (a + Z.of_nat (length bs)) cs.
Proof.
  revert a. induction bs as [|b bs IH]; intros a Hst Ha Hlt.
  - simpl. by rewrite Z.add_0_r.
  - cbn [app length stored] in *. destruct Hst as [Hb Hst].
    rewrite uword_small in Hst by lia.
    destruct (IH (a + 1)) as [I1 I2]; [done|lia|lia|].
    rewrite uword_small by lia.
    replace (a + Z.of_nat (S (length bs))) with (a + 1 + Z.of_nat (length bs)) by lia. auto.
Qed.
End Roundtrip.
End Sleb.

(** * Packed relocation sections *)
Module Packed.
Import Reloc.

(** ** The format, as a specification: groups of entries over a stream of words *)

(** Where the addends of a group come from. *)
Inductive addends := NoAddend | GroupAddend (a : Z) | EntryAddend.

(** One entry: its distance from the previous offset, its info and its addend step, the
    ones that are common to the group being ignored. *)
Record entry := MkEntry { en_delta : Z; en_info : Z; en_addend : Z }.

Record group := MkGroup {
  gr_delta : option Z;
  gr_info : option Z;
  gr_addends : addends;
  gr_entries : list entry
}.

#[local] Arguments next_value : simpl never.
#[local] Arguments flag : simpl never.

Definition flags (g : group) : Z :=
  (match gr_info g with Some _ => 1 | None => 0 end)
  + (match gr_delta g with Some _ => 2 | None => 0 end)
  + (match gr_addends g with NoAddend => 0 | GroupAddend _ => 12 | EntryAddend => 8 end).

Definition opt_word (o : option Z) : list Z := match o with Some v => [v] | None => [] end.

Definition entry_words (g : group) (e : entry) : list Z :=
  match gr_delta g with None => [en_delta e] | Some _ => [] end
  ++ match gr_info g with None => [en_info e] | Some _ => [] end
  ++ match gr_addends g with EntryAddend => [en_addend e] | _ => [] end.

Definition header_words (g : group) : list Z :=
  [Z.of_nat (length (gr_entries g)); flags g] ++ opt_word (gr_delta g) ++ opt_word (gr_info g)
  ++ match gr_addends g with GroupAddend a => [a] | _ => [] end.

Definition group_words (g : group) : list Z :=
  header_words g ++ concat (entry_words g <$> gr_entries g).

Section Format.
Context `{Ar : Arch} `{K : Kernel}.

(** Running offset, info and addend. *)
Definition rstate : Type := Z * Z * Z.

Definition enter (g : group) (st : rstate) : rstate :=
  let '(off, info, add) := st in
  (off, match gr_info g with Some i => i | None => info end,
   match gr_addends g with
   | NoAddend => 0
   | GroupAddend a => sword (add + sword a)
   | EntryAddend => add
   end).

Definition advance (g : group) (st : rstate) (e : entry) : rstate :=
  let '(off, info, add) := st in
  (uword (off + match gr_delta g with Some d => d | None => en_delta e end),
   match gr_info g with Some _ => info | None => en_info e end,
   match gr_addends g with EntryAddend => sword (add + sword (en_addend e)) | _ => add end).

Definition emit (rela : bool) (st : rstate) : reloc :=
  let '(off, info, add) := st in MkReloc off info (if rela then add else 0).

Fixpoint expand_entries (rela : bool) (g : group) (st : rstate) (es : list entry)
  : list reloc * rstate :=
  match es with
  | [] => ([], st)
  | e :: es =>
      let st := advance g st e in
      let '(rs, st') := expand_entries rela g st es in (emit rela st :: rs, st')
  end.

Fixpoint expand (rela : bool) (st : rstate) (gs : list group) : list reloc :=
  match gs with
  | [] => []
  | g :: gs =>
      let '(rs, st) := expand_entries rela g (enter g st) (gr_entries g) in
      rs ++ expand rela st gs
  end.

Definition total (gs : list group) : Z :=
  foldr (fun g n => Z.of_nat (length (gr_entries g)) + n) 0 gs.

(** What the linker produces: no empty group, addends only in .rela sections. *)
Definition group_ok (rela : bool) (g : group) : Prop :=
  gr_entries g <> [] /\ (rela = false -> gr_addends g = NoAddend).

(** ** The decoder as a stream of words *)

Inductive yields (m : machine) : sleb128_decoder -> list Z -> sleb128_decoder -> Prop :=
| yields_nil d : yields m d [] d
| yields_cons d d1 d2 v vs :
    sleb128_decoder_next m d = Ok (Some v, d1) ->
    yields m d1 vs d2 -> yields m d (v :: vs) d2.

Lemma yields_app m d vs ws d2 : yields m d (vs ++ ws) d2 ->
  exists d1, yields m d vs d1 /\ yields m d1 ws d2.
Proof.
  revert d. induction vs as [|v vs IH]; intros d H; [exists d; split; [constructor|done]|].
  inversion H; subst. destruct (IH _ H5) as (d' & ? & ?). eauto using yields.
Qed.

Lemma next_value_yields m self v vs d2 k :
  yields m (decoder self) (v :: vs) d2 ->
  exists d1, next_value m self k = k v (set_decoder self d1) /\ yields m d1 vs d2.
Proof.
  inversion 1; subst. exists d1. split; [|done]. unfold next_value. by rewrite H3.
Qed.

(** Consume one word of the stream. *)
Ltac take_word :=
  match goal with
  | H : yields ?m ?d (_ :: _) _ |- context [next_value ?m ?s ?k] =>
      let d1 := fresh "d" in let H1 := fresh "Hy" in
      destruct (next_value_yields m s _ _ _ k H) as (d1 & -> & H1); clear H
  end.

Lemma flag_info g : flag (flags g) 1 = match gr_info g with Some _ => true | None => false end.
Proof. unfold flags. by destruct (gr_info g), (gr_delta g), (gr_addends g). Qed.
Lemma flag_delta g : flag (flags g) 2 = match gr_delta g with Some _ => true | None => false end.
Proof. unfold flags. by destruct (gr_info g), (gr_delta g), (gr_addends g). Qed.
Lemma flag_by_addend g :
  flag (flags g) 4 = match gr_addends g with GroupAddend _ => true | _ => false end.
Proof. unfold flags. by destruct (gr_info g), (gr_delta g), (gr_addends g). Qed.
Lemma flag_has_addend g :
  flag (flags g) 8 = match gr_addends g with NoAddend => false | _ => true end.
Proof. unfold flags. by destruct (gr_info g), (gr_delta g), (gr_addends g). Qed.

(** The iterator inside group [g], having emitted [ri] entries, [gi] of them in [g]. *)
Record inside (rela : bool) (cnt : Z) (g : group) (ri gi : Z) (st : rstate)
    (self : packed_reloc_iterator) : Prop := {
  in_count : relocation_count self = cnt;
  in_size : group_size self = Z.of_nat (length (gr_entries g));
  in_flags : group_flags self = flags g;
  in_delta : forall d, gr_delta g = Some d -> group_r_offset_delta self = d;
  in_ri : relocation_index self = ri;
  in_gi : relocation_group_index self = gi;
  in_state : (r_offset self, r_info self, r_addend self) = st;
  in_rela : is_use_rela self = rela
}.

Lemma packed_entry_inside rela cnt g ri gi st self m e vs d2 :
  group_ok rela g -> inside rela cnt g ri gi st self ->
  yields m (decoder self) (entry_words g e ++ vs) d2 ->
  exists self', packed_entry m self = Ok (Some tt, self')
    /\ inside rela cnt g ri gi (advance g st e) self' /\ yields m (decoder self') vs d2.
Proof.
  intros [_ Hrel] [Hc Hs Hf Hd Hri Hgi Hst Hr] Hy.
  unfold packed_entry, entry_words, advance in *. rewrite Hf.
  destruct self. simpl in *. subst. rewrite flag_delta, flag_info, flag_has_addend, flag_by_addend.
  destruct (gr_delta g) as [dl|] eqn:Ed, (gr_info g) eqn:Ei, (gr_addends g) eqn:Ea, rela;
    try (specialize (Hrel eq_refl); discriminate); simpl in *;
    repeat (take_word; simpl in * );
    (eexists; split; [reflexivity|]; split; [split; simpl; auto | done]);
    first [by intros d' Hd'; apply Hd; congruence | by rewrite (Hd _ eq_refl)].
Qed.

(** The iterator between two groups. *)
Record between (rela : bool) (cnt ri : Z) (st : rstate) (self : packed_reloc_iterator) : Prop := {
  bt_count : relocation_count self = cnt;
  bt_full : relocation_group_index self = group_size self;
  bt_ri : relocation_index self = ri;
  bt_state : (r_offset self, r_info self, r_addend self) = st;
  bt_rela : is_use_rela self = rela
}.

Lemma read_group_between rela cnt ri st self m g vs d2 :
  group_ok rela g -> between rela cnt ri st self ->
  yields m (decoder self) (header_words g ++ vs) d2 ->
  exists self', packed_reloc_iterator_read_group_fields m self = Ok (Some tt, self')
    /\ inside rela cnt g ri 0 (enter g st) self' /\ yields m (decoder self') vs d2.
Proof.
  intros [_ Hrel] [Hc Hfull Hri Hst Hr] Hy.
  unfold packed_reloc_iterator_read_group_fields, header_words, enter in *.
  destruct self. simpl in *. subst. do 2 (take_word; simpl in * ).
  rewrite flag_delta, flag_info, flag_has_addend, flag_by_addend.
  destruct (gr_delta g) as [dl|] eqn:Ed, (gr_info g) eqn:Ei, (gr_addends g) eqn:Ea, rela;
    try (specialize (Hrel eq_refl); discriminate); simpl in *;
    repeat (take_word; simpl in * );
    (eexists; split; [reflexivity|]; split; [split; simpl; auto | done]);
    by intros d' Hd'; congruence.
Qed.

(** One call of [next]: the entry of the specification, inside a group or at the start of
    the next one. *)
Lemma next_inside rela cnt g ri gi st self m e vs d2 :
  group_ok rela g -> inside rela cnt g ri gi st self ->
  0 <= ri < cnt -> cnt < 2 ^ word_bits ->
  0 <= gi < Z.of_nat (length (gr_entries g)) -> Z.of_nat (length (gr_entries g)) <= cnt ->
  yields m (decoder self) (entry_words g e ++ vs) d2 ->
  exists self', packed_reloc_iterator_next m self = Ok (Some (emit rela (advance g st e)), self')
    /\ inside rela cnt g (ri + 1) (gi + 1) (advance g st e) self' /\ yields m (decoder self') vs d2.
Proof.
  intros Hg Hin Hri Hcnt Hgi Hlen Hy. unfold packed_reloc_iterator_next.
  pose proof Hin as [Hc Hs _ _ Eri Egi _ _]. rewrite Hc, Eri, Egi, Hs.
  destruct (Z.leb_spec cnt ri); [lia|]. destruct (Z.eqb_spec gi (Z.of_nat (length (gr_entries g)))); [lia|].
  destruct (packed_entry_inside rela cnt g ri gi st self m e vs d2 Hg Hin Hy)
    as (self' & E & [Hc' Hs' Hf' Hd' Hri' Hgi' Hst' Hr'] & Hy').
  simpl. rewrite E. simpl. rewrite <- Hst', Hr'. eexists. split; [reflexivity|]. split; [|done].
  split; simpl; auto; rewrite ?Hri', ?Hgi'; apply uword_small; lia.
Qed.

Lemma next_between rela cnt g ri st self m e es vs d2 :
  group_ok rela g -> gr_entries g = e :: es -> between rela cnt ri st self ->
  0 <= ri < cnt -> cnt < 2 ^ word_bits -> Z.of_nat (length (gr_entries g)) <= cnt ->
  yields m (decoder self) (header_words g ++ entry_words g e ++ vs) d2 ->
  exists self', packed_reloc_iterator_next m self
      = Ok (Some (emit rela (advance g (enter g st) e)), self')
    /\ inside rela cnt g (ri + 1) 1 (advance g (enter g st) e) self'
    /\ yields m (decoder self') vs d2.
Proof.
  intros Hg He Hbt Hri Hcnt Hlen Hy. unfold packed_reloc_iterator_next.
  pose proof Hbt as [Hc Hfull Eri _ _]. rewrite Hc, Eri, Hfull, Z.eqb_refl.
  destruct (Z.leb_spec cnt ri); [lia|].
  destruct (read_group_between rela cnt ri st self m g _ d2 Hg Hbt Hy) as (s1 & -> & Hin & Hy1).
  simpl. destruct (packed_entry_inside rela cnt g ri 0 (enter g st) s1 m e vs d2 Hg Hin Hy1)
    as (self' & -> & [Hc' Hs' Hf' Hd' Hri' Hgi' Hst' Hr'] & Hy').
  simpl. rewrite <- Hst', Hr'. eexists. split; [reflexivity|]. split; [|done].
  rewrite He in Hlen. cbn [length] in Hlen.
  split; simpl; auto; rewrite ?Hri', ?Hgi'; apply uword_small; lia.
Qed.

Lemma rest_of_group rela cnt g m d2 vs es : forall ri gi st self fuel,
  group_ok rela g -> inside rela cnt g ri gi st self ->
  0 <= ri -> ri + Z.of_nat (length es) <= cnt -> cnt < 2 ^ word_bits ->
  0 <= gi -> gi + Z.of_nat (length es) = Z.of_nat (length (gr_entries g)) ->
  Z.of_nat (length (gr_entries g)) <= cnt ->
  yields m (decoder self) (concat (entry_words g <$> es) ++ vs) d2 ->
  exists self', between rela cnt (ri + Z.of_nat (length es)) (snd (expand_entries rela g st es)) self'
    /\ yields m (decoder self') vs d2
    /\ packed_relocs (length es + fuel) m self
       = (rs ← packed_relocs fuel m self'; Ok (fst (expand_entries rela g st es) ++ rs)).
Proof.
  induction es as [|e es IH]; intros ri gi st self fuel Hg Hin Hri Hle Hcnt Hgi Hsum Hlen Hy.
  - exists self. simpl in *. split_and!; [|done|].
    + destruct Hin. split; try done; lia.
    + by destruct (packed_relocs fuel m self).
  - cbn [length concat fmap list_fmap] in *. rewrite <- app_assoc in Hy.
    edestruct (next_inside rela cnt g ri gi st self m e) as (s1 & E & Hin1 & Hy1);
      try exact Hy; try done; try lia.
    destruct (IH (ri + 1) (gi + 1) (advance g st e) s1 fuel) as (s2 & Hb & Hy2 & E2);
      try lia; try done.
    exists s2. cbn [expand_entries].
    destruct (expand_entries rela g (advance g st e) es) as [rs st'].
    replace (ri + Z.of_nat (S (length es))) with (ri + 1 + Z.of_nat (length es)) by lia.
    split_and!; [done|done|]. cbn [Nat.add packed_relocs]. rewrite E. simpl. rewrite E2.
    by destruct (packed_relocs fuel m s2).
Qed.

Lemma relocs_between rela cnt m d2 gs : forall ri st self fuel,
  Forall (group_ok rela) gs -> between rela cnt ri st self ->
  0 <= ri -> ri + total gs = cnt -> cnt < 2 ^ word_bits ->
  yields m (decoder self) (concat (group_words <$> gs)) d2 ->
  (Z.to_nat (total gs) < fuel)%nat ->
  packed_relocs fuel m self = Ok (expand rela st gs).
Proof.
  induction gs as [|g gs IH]; intros ri st self fuel Hgs Hbt Hri Hsum Hcnt Hy Hfuel.
  - destruct fuel as [|fuel]; [simpl in Hfuel; lia|]. simpl in *.
    unfold packed_reloc_iterator_next. destruct Hbt as [-> _ -> _ _].
    destruct (Z.leb_spec cnt ri); [done|lia].
  - apply Forall_cons in Hgs as [Hg Hgs]. cbn [total foldr] in *. fold (total gs) in *.
    assert (0 <= total gs) as Htot by (clear; induction gs; simpl; lia).
    destruct (gr_entries g) as [|e es] eqn:Ees; [by destruct Hg|].
    cbn [fmap list_fmap concat] in Hy. unfold group_words in Hy at 1.
    rewrite Ees in Hy. cbn [fmap list_fmap concat] in Hy. rewrite <- !app_assoc in Hy.
    edestruct (next_between rela cnt g ri st self m e es) as (s1 & E & Hin & Hy1);
      try exact Hy; try done; try rewrite Ees; cbn [length] in *; try lia.
    assert (exists f, fuel = S (length es + f) /\ (Z.to_nat (total gs) < f)%nat) as (f & -> & Hf).
    { exists (fuel - S (length es))%nat. cbn [length] in Hfuel. lia. }
    destruct (rest_of_group rela cnt g m d2 (concat (group_words <$> gs)) es (ri + 1) 1
                (advance g (enter g st) e) s1 f) as (s2 & Hb & Hy2 & E2);
      try done; try (rewrite Ees); cbn [length] in *; try lia.
    cbn [packed_relocs]. rewrite E. simpl. rewrite E2.
    rewrite (IH (ri + 1 + Z.of_nat (length es)) (snd (expand_entries rela g (advance g (enter g st) e) es)) s2 f);
      try done; try lia.
    simpl. rewrite Ees. cbn [expand_entries].
    by destruct (expand_entries rela g (advance g (enter g st) e) es).
Qed.

(** ** From bytes in memory to relocations *)

Definition words_bytes (ws : list Z) : list Z := concat (Sleb.encode_word <$> ws).

Lemma yields_stored m ws : forall cur e,
  Forall (in_word word_bits) ws -> Sleb.stored m cur (words_bytes ws) ->
  0 <= cur -> cur + Z.of_nat (length (words_bytes ws)) <= e -> e < 2 ^ word_bits ->
  yields m (MkSleb cur e) ws (MkSleb (cur + Z.of_nat (length (words_bytes ws))) e).
Proof.
  unfold words_bytes.
  induction ws as [|w ws IH]; intros cur e Hws Hst Hcur Hend He; simpl in *.
  - rewrite Z.add_0_r. constructor.
  - apply Forall_cons in Hws as [Hw Hws].
    rewrite length_app in *. rewrite Nat2Z.inj_add, Z.add_assoc in *.
    apply Sleb.stored_app in Hst as [Hst1 Hst2]; [|done|rewrite length_app; lia].
    econstructor; [apply Sleb.next_encode_word; try done; lia|].
    apply IH; try done; lia.
Qed.

(** The words of a whole section: number of relocations, first offset, groups. *)
Definition section_words (off0 : Z) (gs : list group) : list Z :=
  total gs :: off0 :: concat (group_words <$> gs).

Lemma init_between m rel sz rela off0 gs :
  Forall (in_word word_bits) (section_words off0 gs) ->
  Sleb.stored m rel (words_bytes (section_words off0 gs)) ->
  0 <= rel -> Z.of_nat (length (words_bytes (section_words off0 gs))) <= sz ->
  rel + sz < 2 ^ word_bits ->
  exists self d2, packed_reloc_iterator_init m rel sz rela = Ok (Some tt, self)
    /\ between rela (total gs) 0 (off0, 0, 0) self
    /\ yields m (decoder self) (concat (group_words <$> gs)) d2.
Proof.
  intros Hw Hst Hrel Hsz He. unfold packed_reloc_iterator_init, sleb128_decoder_init.
  rewrite uword_small by lia.
  pose proof (yields_stored m _ rel (rel + sz) Hw Hst Hrel ltac:(lia) He) as Hy.
  unfold section_words in Hy.
  set (self := MkPacked _ _ _ _ _ _ _ _ _ _ _).
  change (MkSleb rel (rel + sz)) with (decoder self) in Hy.
  take_word. take_word.
  eexists _, _. split; [reflexivity|]. split; [by split|done].
Qed.

(** C14. The packed sections of Android: where the LEB128 encoding of a section (number of
    relocations, first offset, non-empty groups with any of their fields factored out)
    lies in memory, initialising the iterator and running it to [NULL] visits exactly the
    relocations the groups stand for, in order, with offsets summed up modulo the word
    size; it terminates after as many steps as there are relocations, and it never
    faults. *)
Theorem packed_section_correct (m : machine) (rel sz : Z) (rela : bool) (off0 : Z)
    (gs : list group) (fuel : nat) :
  Forall (group_ok rela) gs ->
  Forall (in_word word_bits) (section_words off0 gs) ->
  Sleb.stored m rel (words_bytes (section_words off0 gs)) ->
  0 <= rel -> Z.of_nat (length (words_bytes (section_words off0 gs))) <= sz ->
  rel + sz < 2 ^ word_bits ->
  (Z.to_nat (total gs) < fuel)%nat ->
  exists self, packed_reloc_iterator_init m rel sz rela = Ok (Some tt, self)
    /\ packed_relocs fuel m self = Ok (expand rela (off0, 0, 0) gs).
Proof.
  intros Hgs Hw Hst Hrel Hsz He Hf.
  destruct (init_between m rel sz rela off0 gs) as (self & d2 & E & Hb & Hy); try done.
  exists self. split; [done|].
  eapply relocs_between; try done.
  unfold section_words in Hw. apply Forall_cons in Hw as [Ht _]. apply Ht.
Qed.
End Format.

(** Three relocations in two groups, offsets 0x1010, 0x1018 and 0x1100, on arm64. *)
Definition demo_groups : list group :=
  [ MkGroup (Some 8) (Some 0x500000401) NoAddend [MkEntry 0 0 0; MkEntry 0 0 0];
    MkGroup None None EntryAddend [MkEntry 0xe8 0x600000402 16] ].

Definition demo_machine : machine :=
  MkMachine (put_bytes (Ar := arch_aarch64) ∅ 0x2000
               (words_bytes (Ar := arch_aarch64) (section_words 0x1008 demo_groups)))
    (pages 2 1 PROT_READ).

Lemma packed_section_correct_witness :
  exists self,
    packed_reloc_iterator_init (Ar := arch_aarch64) (K := permissive_kernel None)
      demo_machine 0x2000 64 true = Ok (Some tt, self)
    /\ packed_relocs (Ar := arch_aarch64) (K := permissive_kernel None) 4 demo_machine self
       = Ok [MkReloc 0x1010 0x500000401 0; MkReloc 0x1018 0x500000401 0;
             MkReloc 0x1100 0x600000402 16].
Proof.
  apply (packed_section_correct (Ar := arch_aarch64) (K := permissive_kernel None)
           demo_machine 0x2000 64 true 0x1008 demo_groups 4).
  - repeat constructor; discriminate.
  - by repeat (constructor; [by vm_compute|]).
  - vm_compute. repeat split.
  - lia.
  - vm_compute. discriminate.
  - vm_compute. reflexivity.
  - vm_compute. lia.
Defined.
End Packed.
