(* ===== verification/Libc.v ===== *)
(** What the sources use of the C library on text: character classes, [fgets] and the
    conversions of [sscanf] that parse /proc/self/maps. *)
From S2P Require Import Prelude Arch.

(** * Characters *)

Definition isspace (c : Z) : bool := (c =? 32) || ((9 <=? c) && (c <=? 13)).
Definition isdigit (c : Z) : bool := (48 <=? c) && (c <=? 57).

(** The value of a hexadecimal digit. *)
Definition hex_val (c : Z) : option Z :=
  if isdigit c then Some (c - 48)
  else if (97 <=? c) && (c <=? 102) then Some (c - 87)
  else if (65 <=? c) && (c <=? 70) then Some (c - 55)
  else None.

Definition dec_val (c : Z) : option Z := if isdigit c then Some (c - 48) else None.

(** String literals as bytes. *)
Fixpoint bytes_of (s : string) : list Z :=
  match s with
  | String.EmptyString => []
  | String.String a s => Z.of_N (Ascii.N_of_ascii a) :: bytes_of s
  end.

(** * fgets *)

(** [fgets] into a buffer with room for [n] characters: up to and including a newline. *)
Fixpoint fgets (n : nat) (s : list Z) : list Z * list Z :=
  match n, s with
  | S n, c :: s =>
      if c =? 10 then ([c], s) else let '(l, r) := fgets n s in (c :: l, r)
  | _, _ => ([], s)
  end.

(** The lines a [while(fgets(line, size, f))] loop sees; every call consumes a character,
    so the length of the text bounds their number. *)
Fixpoint read_lines (fuel size : nat) (text : list Z) : list (list Z) :=
  match fuel, text with
  | S fuel, _ :: _ => let '(l, r) := fgets (size - 1) text in l :: read_lines fuel size r
  | _, _ => []
  end.

(** * sscanf *)

(** Skip white space; the number of characters skipped is kept by position. *)
Fixpoint skip_ws (s : list Z) : list Z :=
  match s with
  | c :: s' => if isspace c then skip_ws s' else s
  | [] => []
  end.

(** Digits in base [b], accumulated. *)
Fixpoint scan_digits (val : Z -> option Z) (b acc : Z) (s : list Z) : Z * list Z :=
  match s with
  | c :: s' => match val c with
               | Some d => scan_digits val b (acc * b + d) s'
               | None => (acc, s)
               end
  | [] => (acc, [])
  end.

(** An optional sign. *)
Definition scan_sign (s : list Z) : bool * list Z :=
  match s with
  | c :: s' => if c =? 45 then (true, s') else if c =? 43 then (false, s') else (false, s)
  | [] => (false, s)
  end.

(** Drop a [0x] that is followed by a digit. *)
Definition drop_0x (s : list Z) : list Z :=
  match s with
  | z :: x :: d :: s' =>
      if (z =? 48) && ((x =? 120) || (x =? 88)) && bool_decide (is_Some (hex_val d))
      then d :: s' else s
  | _ => s
  end.

Section Scan.
Context `{Ar : Arch}.

(** The value [strtoul] gives a digit string: saturated, and negated after a minus. *)
Definition strtoul_value (neg : bool) (v : Z) : Z :=
  let v := Z.min v (2 ^ word_bits - 1) in if neg then uword (- v) else v.

(** [%lx]: [None] is a matching failure. *)
Definition scan_lx (s : list Z) : option (Z * list Z) :=
  let '(neg, s) := scan_sign (skip_ws s) in
  match drop_0x s with
  | (c :: _) as s =>
      match hex_val c with
      | Some _ => let '(v, s) := scan_digits hex_val 16 0 s in Some (strtoul_value neg v, s)
      | None => None
      end
  | [] => None
  end.

(** [%*d]. *)
Definition skip_d (s : list Z) : option (list Z) :=
  let '(_, s) := scan_sign (skip_ws s) in
  match s with
  | c :: _ => if isdigit c then Some (snd (scan_digits dec_val 10 0 s)) else None
  | [] => None
  end.

(** [%*x]. *)
Definition skip_x (s : list Z) : option (list Z) := snd <$> scan_lx s.
End Scan.

(** A literal character of the format. *)
Definition scan_char (c : Z) (s : list Z) : option (list Z) :=
  match s with
  | d :: s => if d =? c then Some s else None
  | [] => None
  end.

(** [%ns]: up to [n] characters that are not white space, at least one. *)
Fixpoint scan_word (n : nat) (s : list Z) : list Z * list Z :=
  match n, s with
  | S n, c :: s' => if isspace c then ([], s) else let '(w, r) := scan_word n s' in (c :: w, r)
  | _, _ => ([], s)
  end.

Definition scan_s (n : nat) (s : list Z) : option (list Z * list Z) :=
  match scan_word n (skip_ws s) with
  | ([], _) => None
  | wr => Some wr
  end.
