(* ===== verification/XhMaps.v ===== *)
(** The cache of /proc/self/maps (libxhook, xh_maps.c).

    Module [XhMaps] translates xh_maps.c: the array of parsed entries, the flag that says
    it is up to date, and the reader-writer lock with the per-thread flag that makes it
    re-entrant.  The theorems are in module [XhMapsFacts]. *)
From S2P Require Import Prelude Arch Machine Libc.

Module XhMaps.

(** [maps_item_t]; a slot that was never filled has a null [pathname]. *)
Record maps_item := MkItem {
  start : Z;
  end_ : Z;
  perms : list Z;
  offset : Z;
  pathname : option (list Z)
}.

Definition zero_item : maps_item := MkItem 0 0 [0; 0; 0; 0] 0 None.

(** [s_xh_maps_access_lock], as far as the running thread is concerned. *)
Inductive rwlock := Unlocked | ReadLocked | WriteLocked.

(** The static variables of xh_maps.c.  [items] is the allocated array, of which the first
    [count] entries are in use; [up_to_date] is [s_xh_maps_invalidated], which the source
    sets to [true] when the cache is filled; [access_locked] is the thread-local flag. *)
Record maps_state := MkMaps {
  items : list maps_item;
  count : Z;
  up_to_date : bool;
  access_lock : rwlock;
  access_locked : bool
}.

Definition initial : maps_state := MkMaps [] 0 false Unlocked false.

(** The process as the hook engine sees it: the address space, the cache, and the outcome
    of the allocations to come ([true], success, where the list ends). *)
Record process := MkProcess {
  mach : machine;
  maps : maps_state;
  allocs : list bool
}.

Definition set_mach (m : machine) (p : process) : process := MkProcess m (maps p) (allocs p).
Definition set_maps (s : maps_state) (p : process) : process := MkProcess (mach p) s (allocs p).
Definition set_allocs (l : list bool) (p : process) : process := MkProcess (mach p) (maps p) l.

Definition on_mach {A} (c : M machine A) : M process A := lift mach set_mach c.
Definition on_maps (f : maps_state -> maps_state) : M process unit :=
  modify (fun p => set_maps (f (maps p)) p).

(** [malloc], [realloc], [strdup]: does the next allocation succeed? *)
Definition alloc : M process bool := fun p =>
  match allocs p with
  | [] => (Ok true, p)
  | b :: l => (Ok b, set_allocs l p)
  end.

(** ** Locking *)

Definition lock_with (l : rwlock) (s : maps_state) : maps_state :=
  if access_locked s then s
  else MkMaps (items s) (count s) (up_to_date s) l true.

Definition _xh_lock_read_accesslock : M process unit := on_maps (lock_with ReadLocked).
Definition _xh_lock_write_accesslock : M process unit := on_maps (lock_with WriteLocked).

Definition _xh_unlock_accesslock : M process unit := on_maps (fun s =>
  if access_locked s then MkMaps (items s) (count s) (up_to_date s) Unlocked false else s).

(** Despite its name the flag is [true] while the cache is valid. *)
Definition xh_maps_invalidate : M process unit := on_maps (fun s =>
  MkMaps (items s) (count s) false (access_lock s) (access_locked s)).

Section Update.
Context `{Ar : Arch} `{K : Kernel}.

(** [char line[PATH_MAX]]. *)
Definition PATH_MAX : Z := 4096.

(** The [sscanf] call: start, end, perms and offset with the position [%n] stored, 0 where
    it was not reached.  [None]: fewer than four conversions. *)
Definition scan_line (line : list Z) : option (Z * Z * list Z * Z * Z) :=
  '(st, s) ← scan_lx line;
  s ← scan_char 45 s;
  '(en, s) ← scan_lx s;
  '(pm, s) ← scan_s 4 s;
  '(off, s) ← scan_lx s;
  let pos :=
    match (s ← skip_x s; s ← scan_char 58 s; s ← skip_x s; skip_d s) with
    | Some s => Z.of_nat (length line) - Z.of_nat (length s)
    | None => 0
    end in
  Some (st, en, pm, off, pos).

(** The characters before a NUL. *)
Fixpoint c_string (s : list Z) : list Z :=
  match s with
  | c :: s => if c =? 0 then [] else c :: c_string s
  | [] => []
  end.

(** [strncpy(item->perms, perms, 4)]. *)
Definition strncpy4 (pm : list Z) : list Z := take 4 (pm ++ [0; 0; 0; 0]).

(** Drop the newline [fgets] left at the end. *)
Definition chomp (s : list Z) : list Z :=
  match last s with
  | Some c => if c =? 10 then removelast s else s
  | None => s
  end.

(** The body of the loop up to [strdup]: [None] is [continue]. *)
Definition parse_line (line : list Z) : option maps_item :=
  '(st, en, pm, off, pos) ← scan_line line;
  let rest := drop (Z.to_nat pos) line in
  let path := skip_ws rest in
  let pos := pos + (Z.of_nat (length rest) - Z.of_nat (length path)) in
  if PATH_MAX - 1 <=? pos then None else
  let path := c_string path in
  if bool_decide (path = []) then None else
  let path := chomp path in
  if bool_decide (path = []) then None else
  Some (MkItem st en (strncpy4 pm) (s32 off) (Some path)).

(** The loop of [xh_maps_update] from index [idx] on, with [cap] the number of slots it
    believes to own; both allocations abort the process when they fail. *)
Fixpoint fill (lines : list (list Z)) (its : list maps_item) (idx cap : Z)
  : M process (list maps_item * Z) :=
  match lines with
  | [] => mret (its, idx)
  | line :: lines =>
      match parse_line line with
      | None => fill lines its idx cap
      | Some it =>
          ok ← alloc;
          if negb ok then raise Aborted else
          '(its, cap) ← (if bool_decide (its = []) || (cap <=? idx)
            then ok ← alloc;
                 if negb ok then raise Aborted
                 else mret (take (Z.to_nat cap) its ++ replicate 32 zero_item, cap + 32)
            else mret (its, cap) : M process (list maps_item * Z));
          fill lines (<[Z.to_nat idx := it]> its) (idx + 1) cap
      end
  end.

Definition xh_maps_update : M process unit :=
  _xh_lock_write_accesslock;;
  valid ← gets (fun p => up_to_date (maps p));
  on_maps (fun s => MkMaps (items s) (count s) true (access_lock s) (access_locked s));;
  (if (valid : bool) then mret tt
   else
     text ← gets (fun p => proc_self_maps (mach p));
     match text with
     | None => raise Aborted
     | Some text =>
         s ← gets maps;
         '(its, idx) ← fill (read_lines (length text) (Z.to_nat PATH_MAX) text)
                         (items s) 0 (count s);
         on_maps (fun s => MkMaps its idx (up_to_date s) (access_lock s) (access_locked s))
     end);;
  _xh_unlock_accesslock.

(** The binary search of [xh_maps_query] between [left] and [right].  [items + mid] may
    lie outside of the array. *)
Fixpoint query_loop (fuel : nat) (its : list maps_item) (addr left right : Z)
  : result (option maps_item) :=
  match fuel with
  | O => NoFuel
  | S fuel =>
      if right <? left then Ok None else
      let mid := Z.shiftr (right - left) 1 + left in
      match its !! Z.to_nat mid with
      | None => Undef
      | Some it =>
          if addr <? start it then query_loop fuel its addr left (mid - 1)
          else if end_ it <=? addr then query_loop fuel its addr mid right
          else Ok (Some it)
      end
  end.

(** [xh_maps_query(addr, ...)]: the entry whose fields are stored through the output
    pointers, [None] for a return value of 0. *)
Definition xh_maps_query (fuel : nat) (addr : Z) : M process (option maps_item) :=
  xh_maps_update;;
  _xh_lock_read_accesslock;;
  s ← gets maps;
  r ← raise (query_loop fuel (items s) addr 0 (count s));
  _xh_unlock_accesslock;;
  mret r.

(** [xh_maps_iterate(cb, data)]: the callback is called on every entry until it returns
    a non-zero value.  [data] is threaded through. *)
Fixpoint iterate_loop {D} (cb : D -> maps_item -> Z * D) (its : list maps_item) (data : D)
  : Z * D :=
  match its with
  | [] => (0, data)
  | it :: its =>
      let '(ret, data) := cb data it in
      if negb (ret =? 0) then (ret, data) else iterate_loop cb its data
  end.

Definition xh_maps_iterate {D} (cb : D -> maps_item -> Z * D) (data : D)
  : M process (Z * D) :=
  xh_maps_update;;
  _xh_lock_read_accesslock;;
  s ← gets maps;
  let r := iterate_loop cb (take (Z.to_nat (count s)) (items s)) data in
  _xh_unlock_accesslock;;
  mret r.
End Update.
End XhMaps.

Module XhMapsFacts.
Import XhMaps.

(** The array holds what [count] says, and nobody holds the lock. *)
Record maps_ok (s : maps_state) : Prop := {
  mo_count : 0 <= count s <= Z.of_nat (length (items s));
  mo_lock : access_lock s = Unlocked;
  mo_flag : access_locked s = false
}.

(** The entries in use. *)
Definition entries (s : maps_state) : list maps_item := take (Z.to_nat (count s)) (items s).

(** No allocation fails from here on. *)
Definition mem_ok (p : process) : Prop := Forall (fun b => b = true) (allocs p).

Lemma alloc_ok p : mem_ok p -> exists l,
  alloc p = (Ok true, set_allocs l p) /\ Forall (fun b => b = true) l.
Proof.
  unfold mem_ok, alloc. destruct p as [m s [|b l]]; simpl; intros H; [by exists []|].
  apply Forall_cons in H as [-> H]. by exists l.
Qed.

Section Facts.
Context `{Ar : Arch} `{K : Kernel}.

Lemma fill_spec lines : forall its idx cap p,
  mem_ok p -> 0 <= idx <= cap -> cap <= Z.of_nat (length its) ->
  exists its' l,
    fill lines its idx cap p
      = (Ok (its', idx + Z.of_nat (length (omap parse_line lines))), set_allocs l p)
    /\ Forall (fun b => b = true) l
    /\ idx + Z.of_nat (length (omap parse_line lines)) <= Z.of_nat (length its')
    /\ take (Z.to_nat (idx + Z.of_nat (length (omap parse_line lines)))) its'
       = take (Z.to_nat idx) its ++ omap parse_line lines.
Proof.
  induction lines as [|line lines IH]; intros its idx cap p Hp Hidx Hcap.
  - exists its, (allocs p). simpl. rewrite Z.add_0_r, app_nil_r.
    split_and!; [by destruct p | done | lia | done].
  - cbn [fill]. change (omap parse_line (line :: lines)) with
      (match parse_line line with
       | Some it => it :: omap parse_line lines
       | None => omap parse_line lines
       end).
    destruct (parse_line line) as [it|]; [|by apply (IH its idx cap p)].
    cbn [length].
    destruct (alloc_ok p Hp) as (l1 & E1 & Hl1).
    rewrite (M_bind_run _ _ _ _ _ E1). cbn [negb].
    set (p1 := set_allocs l1 p).
    assert (exists its1 cap1 l2,
      ((if bool_decide (its = []) || (cap <=? idx)
        then ok ← alloc;
             if negb ok then raise Aborted
             else mret (take (Z.to_nat cap) its ++ replicate 32 zero_item, cap + 32)
        else mret (its, cap)) : M process (list maps_item * Z)) p1
        = (Ok (its1, cap1), set_allocs l2 p)
      /\ Forall (fun b => b = true) l2
      /\ idx + 1 <= cap1 <= Z.of_nat (length its1)
      /\ take (Z.to_nat idx) its1 = take (Z.to_nat idx) its)
      as (its1 & cap1 & l2 & E2 & Hl2 & Hc1 & Ht1).
    { destruct (bool_decide (its = []) || (cap <=? idx)) eqn:Eb.
      - destruct (alloc_ok p1) as (l2 & E2 & Hl2); [done|].
        rewrite (M_bind_run _ _ _ _ _ E2). cbn [negb].
        eexists _, _, l2. split; [reflexivity|]. split_and!; [done|lia|
          rewrite length_app, length_take, length_replicate; lia|].
        rewrite take_app_le by (rewrite length_take; lia). rewrite take_take. f_equal. lia.
      - exists its, cap, l1. apply orb_false_elim in Eb as [_ Eb].
        split_and!; try done; lia. }
    rewrite (M_bind_run _ _ _ _ _ E2).
    destruct (IH (<[Z.to_nat idx := it]> its1) (idx + 1) cap1 (set_allocs l2 p))
      as (its' & l & E & Hl & Hlen & Htk); [done|lia|rewrite length_insert; lia|].
    replace (idx + Z.of_nat (S (length (omap parse_line lines))))
      with (idx + 1 + Z.of_nat (length (omap parse_line lines))) by lia.
    exists its', l. split_and!; [exact E | done | done |].
    rewrite Htk. replace (Z.to_nat (idx + 1)) with (S (Z.to_nat idx)) by lia.
    rewrite (take_S_r _ _ it) by (apply list_lookup_insert_eq; lia).
    rewrite take_insert_ge, Ht1, <- app_assoc by lia. done.
Qed.

(** What the kernel currently says, parsed. *)
Definition parsed (text : list Z) : list maps_item :=
  omap parse_line (read_lines (length text) (Z.to_nat PATH_MAX) text).

(** The entries an iteration that starts now works on: the cached ones if the cache is up
    to date, else what the kernel says. *)
Definition sees (p : process) (its : list maps_item) : Prop :=
  if up_to_date (maps p) then its = entries (maps p)
  else exists text, proc_self_maps (mach p) = Some text /\ its = parsed text.

Lemma update_run p its :
  maps_ok (maps p) -> mem_ok p -> sees p its ->
  exists s l, xh_maps_update p = (Ok tt, MkProcess (mach p) s l)
    /\ maps_ok s /\ Forall (fun b => b = true) l
    /\ up_to_date s = true /\ entries s = its.
Proof.
  intros [Hc Hl Hf] Hmem Hsees. destruct p as [m [its0 cnt valid lk fl] al].
  unfold sees in Hsees. simpl in *. subst lk fl. unfold xh_maps_update.
  unfold_M. unfold _xh_lock_write_accesslock, _xh_unlock_accesslock, on_maps, modify, lock_with.
  destruct valid; cbn -[fill proc_self_maps].
  - subst its. eexists _, _. split; [reflexivity|]. by split_and!.
  - destruct Hsees as (text & Htext & ->). rewrite Htext. cbn -[fill proc_self_maps].
    set (p1 := set_maps _ _).
    destruct (fill_spec (read_lines (length text) (Z.to_nat PATH_MAX) text) its0 0 cnt p1)
      as (its' & l & E & Hall & Hlen & Htk); [done|lia|lia|].
    rewrite E. cbn -[Z.add].
    eexists _, _. split; [reflexivity|]. unfold parsed.
    split_and!; [split; simpl; [split; [lia|exact Hlen]|done|done] |done|done|].
    exact Htk.
Qed.

(** C32. [xh_maps_update] on a stale cache replaces its entries by exactly the lines of
    /proc/self/maps that parse, in order, whatever the previous number of entries and the
    growth of the array in steps of 32; on a cache that is up to date it changes nothing.
    Either way the array keeps covering its count and the lock is released. *)
Theorem xh_maps_update_correct (p : process) (text : list Z) :
  maps_ok (maps p) -> mem_ok p -> proc_self_maps (mach p) = Some text ->
  exists p', xh_maps_update p = (Ok tt, p')
    /\ maps_ok (maps p') /\ mach p' = mach p /\ up_to_date (maps p') = true
    /\ entries (maps p')
       = if up_to_date (maps p) then entries (maps p)
         else omap parse_line (read_lines (length text) (Z.to_nat PATH_MAX) text).
Proof.
  intros Hok Hmem Htext.
  set (its := if up_to_date (maps p) then entries (maps p) else parsed text).
  destruct (update_run p its Hok Hmem) as (s & l & E & Hs & _ & Hu & He).
  { unfold sees, its. destruct (up_to_date (maps p)); eauto. }
  exists (MkProcess (mach p) s l). by rewrite E.
Qed.

(** Iterating visits the entries seen, and leaves them cached. *)
Lemma iterate_run {D} (cb : D -> maps_item -> Z * D) (data : D) p its :
  maps_ok (maps p) -> mem_ok p -> sees p its ->
  exists s l, xh_maps_iterate cb data p
      = (Ok (iterate_loop cb its data), MkProcess (mach p) s l)
    /\ maps_ok s /\ Forall (fun b => b = true) l
    /\ up_to_date s = true /\ entries s = its.
Proof.
  intros Hok Hmem Hsees.
  destruct (update_run p its Hok Hmem Hsees) as (s & l & E & [Hc Hl Hf] & Hall & Hu & He).
  unfold xh_maps_iterate. rewrite (M_bind_run _ _ _ _ _ E). clear E.
  destruct s as [its0 cnt valid lk fl]. simpl in *. subst lk fl.
  unfold_M. unfold _xh_lock_read_accesslock, _xh_unlock_accesslock, on_maps, modify, lock_with.
  cbn -[iterate_loop]. unfold entries in He. simpl in He. rewrite He.
  eexists _, _. split; [reflexivity|]. unfold entries. by split_and!.
Qed.

(** ** The cache does not touch the address space *)

Lemma on_maps_keeps f : keeps mach (on_maps f).
Proof. by intros p. Qed.

Lemma alloc_keeps : keeps mach alloc.
Proof. intros [m s [|b l]]; done. Qed.

#[local] Hint Resolve on_maps_keeps alloc_keeps : keeps.

Lemma fill_keeps lines : forall its idx cap, keeps mach (fill lines its idx cap).
Proof.
  induction lines as [|line lines IH]; intros its idx cap; cbn [fill]; [auto with keeps|].
  destruct (parse_line line); [|done]. apply keeps_bind; [auto with keeps|]. intros [|]; cbn [negb]; [|auto with keeps].
  apply keeps_bind; [|by intros []]. destruct (_ || _); [|auto with keeps].
  apply keeps_bind; [auto with keeps|]. intros [|]; cbn [negb]; auto with keeps.
Qed.

Lemma update_keeps : keeps mach xh_maps_update.
Proof.
  unfold xh_maps_update, _xh_lock_write_accesslock, _xh_unlock_accesslock.
  do 3 (apply keeps_bind; [auto with keeps|intros ?]). apply keeps_bind; [|auto with keeps].
  destruct a0; [auto with keeps|]. apply keeps_bind; [auto with keeps|]. intros [text|]; [|auto with keeps].
  apply keeps_bind; [auto with keeps|]. intros s. apply keeps_bind; [apply fill_keeps|].
  intros []. auto with keeps.
Qed.

Lemma iterate_keeps {D} (cb : D -> maps_item -> Z * D) (data : D) :
  keeps mach (xh_maps_iterate cb data).
Proof.
  unfold xh_maps_iterate, _xh_lock_read_accesslock, _xh_unlock_accesslock.
  apply keeps_bind; [apply update_keeps|]. auto 10 with keeps.
Qed.

(** ** The binary search *)

Lemma query_loop_sound fuel its addr left right it :
  query_loop fuel its addr left right = Ok (Some it) ->
  it ∈ its /\ start it <= addr < end_ it.
Proof.
  revert left right. induction fuel as [|fuel IH]; intros left right; [done|].
  cbn [query_loop]. destruct (Z.ltb_spec right left); [done|].
  destruct (its !! _) as [it'|] eqn:E; [|done].
  destruct (Z.ltb_spec addr (start it')); [by apply IH|].
  destruct (Z.leb_spec (end_ it') addr); [by apply IH|].
  intros [= <-]. split; [by eapply list_elem_of_lookup_2|lia].
Qed.

Lemma query_loop_stuck fuel its addr it :
  its !! 0%nat = Some it -> end_ it <= addr -> start it <= addr ->
  query_loop fuel its addr 0 1 = NoFuel.
Proof.
  intros Hit He Hs. induction fuel as [|fuel IH]; [done|].
  cbn [query_loop]. change (Z.shiftr (1 - 0) 1 + 0) with 0.
  change (Z.to_nat 0) with 0%nat. change (1 <? 0) with false. cbv iota. rewrite Hit.
  destruct (Z.ltb_spec addr (start it)); [lia|]. destruct (Z.leb_spec (end_ it) addr); [done|lia].
Qed.

(** [xh_maps_query] can loop for ever on a mapped address.  With four entries in
    ascending order, the search for any address between the first and the third entry,
    such as one inside the second, never returns: however many iterations are allowed, the
    bounds stay at 0 and 1, because the upper half is searched with [left = mid] instead
    of [mid + 1]. *)
Lemma xh_maps_query_diverges (fuel : nat) (i0 i1 i2 i3 : maps_item) (rest : list maps_item)
    (addr : Z) :
  start i0 <= end_ i0 -> end_ i0 <= start i1 -> start i1 <= addr < end_ i1 ->
  end_ i1 <= start i2 ->
  query_loop fuel (i0 :: i1 :: i2 :: i3 :: rest) addr 0 4 = NoFuel.
Proof.
  intros H0 H01 Ha H12. destruct fuel as [|fuel]; [done|]. cbn [query_loop].
  change (Z.to_nat (Z.shiftr (4 - 0) 1 + 0)) with 2%nat. cbn [lookup list_lookup].
  change (4 <? 0) with false. cbv iota. destruct (Z.ltb_spec addr (start i2)); [|lia].
  change (Z.shiftr (4 - 0) 1 + 0 - 1) with 1. apply (query_loop_stuck _ _ _ i0); [done|lia|lia].
Qed.
End Facts.

(** Four mappings of a page each, and an address in the second. *)
Lemma xh_maps_query_diverges_witness :
  query_loop 1000
    [ MkItem 0x1000 0x2000 [] 0 None; MkItem 0x3000 0x4000 [] 0 None;
      MkItem 0x5000 0x6000 [] 0 None; MkItem 0x7000 0x8000 [] 0 None ] 0x3010 0 4 = NoFuel.
Proof. apply xh_maps_query_diverges; simpl; lia. Defined.

(** The first update of a process that maps one library. *)
Definition demo_text : list Z :=
  (bytes_of "7f00a000-7f00b000 r-xp 00001000 fd:02 1234    /lib/libc.so" ++ [10]
   ++ bytes_of "7f00b000-7f00c000 rw-p 00000000 00:00 0 " ++ [10])%list.

Lemma xh_maps_update_correct_witness :
  exists p', xh_maps_update (Ar := arch_aarch64) (K := permissive_kernel (Some demo_text))
               (MkProcess (MkMachine ∅ ∅) initial []) = (Ok tt, p')
    /\ entries (maps p')
       = [MkItem 0x7f00a000 0x7f00b000 (bytes_of "r-xp") 0x1000 (Some (bytes_of "/lib/libc.so"))].
Proof.
  destruct (xh_maps_update_correct (Ar := arch_aarch64)
              (K := permissive_kernel (Some demo_text))
              (MkProcess (MkMachine ∅ ∅) initial []) demo_text) as (p' & E & _ & _ & _ & He).
  - by split.
  - constructor.
  - reflexivity.
  - exists p'. split; [exact E|]. rewrite He. vm_compute. reflexivity.
Defined.
End XhMapsFacts.

(** * Parsing what the kernel prints *)
Module MapsText.
Import XhMaps.

Definition hex_char (d : Z) : Z := if d <? 10 then d + 48 else d + 87.

(** [n] hexadecimal digits. *)
Fixpoint show_hex (n : nat) (z : Z) : list Z :=
  match n with
  | O => []
  | S n => show_hex n (z / 16) ++ [hex_char (z mod 16)]
  end.

(** A line of /proc/self/maps: addresses of [w] digits, device, inode and padding are free. *)
Definition show_line (w : nat) (st en : Z) (pm : list Z) (off major minor : Z) (inode : list Z)
    (pad : nat) (path : list Z) : list Z :=
  show_hex w st ++ 45 :: show_hex w en ++ 32 :: pm ++ 32 :: show_hex 8 off ++ 32
    :: show_hex 2 major ++ 58 :: show_hex 2 minor ++ 32 :: inode ++ replicate (S pad) 32
    ++ path ++ [10].

Lemma hex_val_char d : 0 <= d < 16 -> hex_val (hex_char d) = Some d
  /\ isspace (hex_char d) = false /\ hex_char d <> 45 /\ hex_char d <> 43
  /\ hex_char d <> 120 /\ hex_char d <> 88.
Proof.
  intros Hd. unfold hex_char, hex_val, isdigit, isspace.
  destruct (Z.ltb_spec d 10).
  - destruct (Z.leb_spec 48 (d + 48)), (Z.leb_spec (d + 48) 57); simpl; try lia.
    split_and!; try lia; f_equal; lia.
  - destruct (Z.leb_spec 48 (d + 87)), (Z.leb_spec (d + 87) 57); simpl; try lia.
    destruct (Z.leb_spec 97 (d + 87)), (Z.leb_spec (d + 87) 102); simpl; try lia.
    split_and!; try lia; f_equal; lia.
Qed.

Lemma scan_show n : forall z acc s,
  scan_digits hex_val 16 acc (show_hex n z ++ s)
  = scan_digits hex_val 16 (acc * 16 ^ Z.of_nat n + z mod 16 ^ Z.of_nat n) s.
Proof.
  induction n as [|n IH]; intros z acc s.
  - simpl. rewrite Z.mod_1_r. f_equal. lia.
  - cbn [show_hex]. rewrite <- app_assoc, IH. cbn [app scan_digits].
    destruct (hex_val_char (z mod 16)) as [-> _]; [apply Z.mod_pos_bound; lia|].
    f_equal. rewrite Nat2Z.inj_succ, Z.pow_succ_r by lia.
    rewrite (Z.rem_mul_r z 16) by (try apply Z.pow_nonzero; lia). lia.
Qed.

Lemma show_hex_head n z s : exists d t, show_hex (S n) z ++ s = hex_char d :: t
  /\ 0 <= d < 16 /\ (t = s \/ exists d' t', t = hex_char d' :: t' /\ 0 <= d' < 16).
Proof.
  revert z s. induction n as [|n IH]; intros z s.
  - exists (z mod 16), s. split_and!; [done|apply Z.mod_pos_bound; lia..|by left].
  - change (show_hex (S (S n)) z) with (show_hex (S n) (z / 16) ++ [hex_char (z mod 16)]).
    rewrite <- app_assoc. pose proof (Z.mod_pos_bound z 16 ltac:(lia)).
    destruct (IH (z / 16) ([hex_char (z mod 16)] ++ s)) as (d & t & -> & Hd & Ht).
    exists d, t. split_and!; try done; try lia. right.
    destruct Ht as [-> | (d' & t' & -> & Hd')]; eauto.
Qed.

Section Roundtrip.
Context `{Ar : Arch}.

Lemma scan_lx_show n z c s :
  0 <= z < 16 ^ Z.of_nat (S n) -> z < 2 ^ word_bits ->
  hex_val c = None -> c <> 120 -> c <> 88 ->
  scan_lx (show_hex (S n) z ++ c :: s) = Some (z, c :: s).
Proof.
  intros Hz Hw Hc Hx HX. unfold scan_lx.
  destruct (show_hex_head n z (c :: s)) as (d & t & E & Hd & Ht).
  destruct (hex_val_char d Hd) as (V & Sp & N1 & N2 & _).
  assert (scan_sign (skip_ws (show_hex (S n) z ++ c :: s)) = (false, show_hex (S n) z ++ c :: s)) as ->.
  { rewrite E. cbn [skip_ws]. rewrite Sp. cbn [scan_sign].
    destruct (Z.eqb_spec (hex_char d) 45), (Z.eqb_spec (hex_char d) 43); done. }
  assert (drop_0x (show_hex (S n) z ++ c :: s) = show_hex (S n) z ++ c :: s) as ->.
  { rewrite E. unfold drop_0x. destruct t as [|x [|d2 t]]; try done.
    assert (x <> 120 /\ x <> 88) as [X1 X2].
    { destruct Ht as [[= -> <-] | (d' & t' & [= -> <-] & Hd')]; [done|].
      by destruct (hex_val_char d' Hd') as (_ & _ & _ & _ & ? & ?). }
    destruct (Z.eqb_spec x 120), (Z.eqb_spec x 88); try done.
    by rewrite andb_false_r. }
  rewrite E at 1. rewrite V, <- E, scan_show. cbn [scan_digits]. rewrite Hc.
  rewrite (Z.mod_small z) by lia. unfold strtoul_value. do 2 f_equal. lia.
Qed.

Lemma scan_lx_space s : scan_lx (32 :: s) = scan_lx s.
Proof. done. Qed.

Lemma scan_s_word pm s : length pm = 4%nat -> Forall (fun c => isspace c = false) pm ->
  scan_s 4 (32 :: pm ++ 32 :: s) = Some (pm, 32 :: s).
Proof.
  intros Hl Hp. do 4 (destruct pm as [|? pm]; [discriminate Hl|]). destruct pm; [|discriminate Hl].
  repeat (apply Forall_cons in Hp as [? Hp]). unfold scan_s. cbn [app].
  cbn [skip_ws]. change (isspace 32) with true. cbv iota. rewrite H. cbn [scan_word].
  by rewrite H, H0, H1, H2.
Qed.

Lemma scan_dec_all ds acc c s : Forall (fun c => isdigit c = true) ds -> isdigit c = false ->
  snd (scan_digits dec_val 10 acc (ds ++ c :: s)) = c :: s.
Proof.
  intros Hd Hc. revert acc. induction Hd as [|d ds Hd _ IH]; intros acc; cbn [app scan_digits];
    unfold dec_val; [by rewrite Hc|]. rewrite Hd. apply IH.
Qed.

Lemma skip_d_digits ds s : ds <> [] -> Forall (fun c => isdigit c = true) ds ->
  skip_d (32 :: ds ++ 32 :: s) = Some (32 :: s).
Proof.
  intros Hne Hd. destruct ds as [|d ds]; [done|]. unfold skip_d.
  pose proof (Forall_inv Hd) as Hd1. cbv beta in Hd1. cbn [app skip_ws].
  change (isspace 32) with true. cbv iota.
  assert (isspace d = false /\ d <> 45 /\ d <> 43) as (-> & N1 & N2).
  { unfold isspace, isdigit in *. lia. }
  cbn [scan_sign]. destruct (Z.eqb_spec d 45), (Z.eqb_spec d 43); try done.
  rewrite Hd1. f_equal. by apply (scan_dec_all (d :: ds)).
Qed.

Lemma skip_ws_pad n s c : isspace c = false ->
  skip_ws (replicate n 32 ++ c :: s) = c :: s.
Proof. intros Hc. induction n as [|n IH]; simpl; [by rewrite Hc | done]. Qed.

Lemma c_string_line path : Forall (fun c => c <> 0) path -> c_string (path ++ [10]) = path ++ [10].
Proof.
  induction 1 as [|c path Hc _ IH]; [done|]. cbn [app c_string].
  destruct (Z.eqb_spec c 0); [done|]. by rewrite IH.
Qed.

Lemma chomp_line path : chomp (path ++ [10]) = path.
Proof. unfold chomp. by rewrite last_snoc, removelast_last. Qed.

(** What the kernel guarantees about the fields it prints. *)
Record line_ok (w : nat) (st en : Z) (pm : list Z) (off major minor : Z) (inode path : list Z)
  : Prop := {
  lo_width : (0 < w)%nat;
  lo_st : 0 <= st < 16 ^ Z.of_nat w /\ st < 2 ^ word_bits;
  lo_en : 0 <= en < 16 ^ Z.of_nat w /\ en < 2 ^ word_bits;
  lo_off : 0 <= off < 2 ^ 31;
  lo_dev : 0 <= major < 256 /\ 0 <= minor < 256;
  lo_pm : length pm = 4%nat /\ Forall (fun c => isspace c = false) pm;
  lo_inode : inode <> [] /\ Forall (fun c => isdigit c = true) inode;
  lo_path : exists c rest, path = c :: rest /\ isspace c = false;
  lo_path_chars : Forall (fun c => c <> 0) path
}.

Lemma scan_show_line w st en pm off major minor inode pad path :
  line_ok w st en pm off major minor inode path ->
  let line := show_line w st en pm off major minor inode pad path in
  scan_line line
  = Some (st, en, pm, off,
          Z.of_nat (length line) - Z.of_nat (length (replicate (S pad) 32 ++ path ++ [10]))).
Proof.
  intros [Hw [Hst Hst'] [Hen Hen'] Hoff [Hma Hmi] [Hpl Hp] [Hin Hind] _ _] line.
  destruct w as [|w]; [lia|].
  assert (forall z, 0 <= z < 2 ^ 31 -> z < 2 ^ word_bits) as Hsmall.
  { intros z Hz. destruct word_bits_cases as [-> | ->]; lia. }
  unfold scan_line. set (n := Z.of_nat (length line)). clearbody n. unfold line, show_line.
  rewrite scan_lx_show by (done || lia).
  cbn [mbind option_bind scan_char]. rewrite Z.eqb_refl. cbn [mbind option_bind].
  rewrite scan_lx_show by (done || lia). cbn [mbind option_bind].
  rewrite scan_s_word by done. cbn [mbind option_bind].
  rewrite scan_lx_space, scan_lx_show
    by (done || (change (16 ^ Z.of_nat 8) with (2 ^ 32); lia) || by apply Hsmall).
  cbn [mbind option_bind]. unfold skip_x.
  rewrite scan_lx_space, scan_lx_show
    by (done || (change (16 ^ Z.of_nat 2) with 256; lia) || (apply Hsmall; lia)).
  cbn [fmap option_fmap option_map snd mbind option_bind scan_char]. rewrite Z.eqb_refl.
  cbn [mbind option_bind].
  rewrite scan_lx_show
    by (done || (change (16 ^ Z.of_nat 2) with 256; lia) || (apply Hsmall; lia)).
  cbn [fmap option_fmap option_map snd mbind option_bind replicate app].
  rewrite skip_d_digits by done. done.
Qed.

(** Reading /proc/self/maps: a line in the format the kernel prints, with an address
    range, permissions, a file offset below 2 GiB, any device, inode and padding and a
    path without NUL that does not start with a blank, short enough for the line buffer,
    is parsed back to exactly that range, those permissions, that offset and that
    path. *)
Theorem parse_line_show (w : nat) (st en : Z) (pm : list Z) (off major minor : Z)
    (inode : list Z) (pad : nat) (path : list Z) :
  line_ok w st en pm off major minor inode path ->
  Z.of_nat (length (show_line w st en pm off major minor inode pad path)) < PATH_MAX ->
  parse_line (show_line w st en pm off major minor inode pad path)
  = Some (MkItem st en pm off (Some path)).
Proof.
  intros Hok Hlen. unfold parse_line. rewrite scan_show_line by done.
  cbn [mbind option_bind].
  set (line := show_line w st en pm off major minor inode pad path) in *.
  destruct Hok as [_ _ _ Hoff _ [Hpl _] _ (c & rest & Hpath & Hsp) Hch].
  set (tl := replicate (S pad) 32 ++ path ++ [10]).
  assert (exists hd, line = hd ++ tl) as [hd Hhd].
  { unfold line, show_line, tl. eexists.
    rewrite !app_comm_cons, !app_assoc. reflexivity. }
  assert (Z.to_nat (Z.of_nat (length line) - Z.of_nat (length tl)) = length hd) as ->
    by (rewrite Hhd, length_app; lia).
  rewrite Hhd, drop_app_length. rewrite Hhd, length_app in Hlen.
  assert (skip_ws tl = path ++ [10]) as ->.
  { unfold tl. rewrite Hpath. cbn [app]. by apply skip_ws_pad. }
  assert (length tl = (S pad + length (path ++ [10%Z]))%nat) as Htl
    by (unfold tl; by rewrite length_app, length_replicate).
  destruct (Z.leb_spec (PATH_MAX - 1) (Z.of_nat (length (hd ++ tl)) - Z.of_nat (length tl)
    + (Z.of_nat (length tl) - Z.of_nat (length (path ++ [10]))))).
  { rewrite length_app in *. rewrite Hpath in *. simpl in *. lia. }
  rewrite c_string_line, chomp_line by done.
  rewrite bool_decide_false by (by destruct path).
  rewrite bool_decide_false by (by rewrite Hpath).
  do 2 f_equal.
  - unfold strncpy4. rewrite <- Hpl at 1. by rewrite take_app_length.
  - unfold swrap. rewrite Z.mod_small; lia.
Qed.
End Roundtrip.

Lemma parse_line_show_witness :
  parse_line (Ar := arch_arm) (bytes_of "7f00a000-7f00b000 r-xp 00001000 fd:02 1234    /lib/libc.so" ++ [10])
  = Some (MkItem 0x7f00a000 0x7f00b000 (bytes_of "r-xp") 0x1000 (Some (bytes_of "/lib/libc.so"))).
Proof.
  apply (parse_line_show (Ar := arch_arm) 8 0x7f00a000 0x7f00b000 (bytes_of "r-xp") 0x1000 0xfd 2
           (bytes_of "1234") 3 (bytes_of "/lib/libc.so")).
  - split; try (split; [|repeat constructor]); try (vm_compute; intuition congruence); try lia.
    + exists 47, (bytes_of "lib/libc.so"). by vm_compute.
    + repeat constructor; discriminate.
  - vm_compute. reflexivity.
Defined.
End MapsText.
