(* ===== verification/XhUtil.v ===== *)
(** Page protections and safe writes (libxhook, xh_util.c), and the error codes of
    xh_errno.h.

    Module [XhUtil] translates xh_util.c; [XhUtilFacts] shows which ranges
    [xh_util_get_mem_protect] accepts and which pages [xh_util_set_addr_protect] changes. *)
From S2P Require Import Prelude Arch Machine Libc XhMaps.

Definition XH_ERRNO_UNKNOWN : Z := 1001.
Definition XH_ERRNO_INVAL : Z := 1002.
Definition XH_ERRNO_NOMEM : Z := 1003.
Definition XH_ERRNO_REPEAT : Z := 1004.
Definition XH_ERRNO_NOTFND : Z := 1005.
Definition XH_ERRNO_BADMAPS : Z := 1006.
Definition XH_ERRNO_FORMAT : Z := 1007.
Definition XH_ERRNO_ELFINIT : Z := 1008.
Definition XH_ERRNO_SEGVERR : Z := 1009.

Module XhUtil.
Import XhMaps.

Section Util.
Context `{Ar : Arch} `{K : Kernel}.

Definition PAGE_MASK : Z := Z.lnot (PAGE_SIZE - 1).
Definition PAGE_START (addr : Z) : Z := Z.land addr PAGE_MASK.
Definition PAGE_END (addr : Z) : Z :=
  uword (PAGE_START (uword (addr + word_bytes - 1)) + PAGE_SIZE).
Definition PAGE_COVER (addr : Z) : Z := uword (PAGE_END addr - PAGE_START addr).

(** What the callback of [xh_util_get_mem_protect] updates through its [data]. *)
Record protect_data := MkProtect {
  pd_prot : Z;
  load0 : bool;
  found_all : bool
}.

(** [perms[i] == c]. *)
Definition perm_is (it : maps_item) (i : nat) (c : Z) : bool := nth i (perms it) 0 =? c.

(** [xh_util_get_mem_protect_maps_iter_cb].  The assignment [start_addr = end] at its end
    is to a local variable and has no effect. *)
Definition get_mem_protect_maps_iter_cb (start_addr end_addr : Z) (d : protect_data)
    (it : maps_item) : Z * protect_data :=
  if negb (perm_is it 3 112) then (0, d) else
  let d := MkProtect 0 (load0 d) (found_all d) in
  if (start it <=? start_addr) && (start_addr <? end_ it) then
    let d :=
      if load0 d then
        let p := if perm_is it 0 114 then Z.lor (pd_prot d) PROT_READ else pd_prot d in
        let p := if perm_is it 1 119 then Z.lor p PROT_WRITE else p in
        let p := if perm_is it 2 120 then Z.lor p PROT_EXEC else p in
        MkProtect p false (found_all d)
      else
        let p := if negb (perm_is it 0 114) then Z.land (pd_prot d) (Z.lnot PROT_READ)
                 else pd_prot d in
        let p := if negb (perm_is it 1 119) then Z.land p (Z.lnot PROT_WRITE) else p in
        let p := if negb (perm_is it 2 120) then Z.land p (Z.lnot PROT_EXEC) else p in
        MkProtect p false (found_all d) in
    if end_addr <=? end_ it
    then (1, MkProtect (pd_prot d) (load0 d) true)
    else (0, d)
  else (0, d).

(** [xh_util_get_mem_protect(addr, len, pathname, &prot)]: return value and [prot]; the
    path is not used. *)
Definition xh_util_get_mem_protect (addr len : Z) : M process (Z * Z) :=
  let end_addr := uword (addr + len) in
  '(_, d) ← xh_maps_iterate (get_mem_protect_maps_iter_cb addr end_addr)
              (MkProtect 0 true false);
  mret (if found_all d then 0 else XH_ERRNO_SEGVERR, pd_prot d).

Definition xh_util_get_addr_protect (addr : Z) : M process (Z * Z) :=
  xh_util_get_mem_protect addr word_bytes.

Definition xh_util_set_addr_protect (addr p : Z) : M process Z :=
  r ← on_mach (mprotect (PAGE_START addr) (PAGE_COVER addr) p);
  mret (match r with
        | None => 0
        | Some errno => if errno =? 0 then XH_ERRNO_UNKNOWN else errno
        end).

(** Clearing the instruction cache changes no memory. *)
Definition xh_util_flush_instruction_cache (addr : Z) : M process unit := mret tt.

(** The number of bytes written, or [-1]. *)
Definition xh_util_write_memory_safely (dest : Z) (buf : list Z) : M process Z :=
  on_mach (process_vm_writev dest buf).
End Util.
End XhUtil.

Module XhUtilFacts.
Import XhMaps XhMapsFacts XhUtil.

(** Entries in ascending order without overlap, as the kernel lists them. *)
Fixpoint ascending (its : list maps_item) : Prop :=
  match its with
  | [] => True
  | it :: its => start it < end_ it /\ Forall (fun it' => end_ it <= start it') its /\ ascending its
  end.

Section Facts.
Context `{Ar : Arch} `{K : Kernel}.

(** A private mapping that holds all of [a .. e). *)
Definition covers (a e : Z) (it : maps_item) : Prop :=
  perm_is it 3 112 = true /\ start it <= a < end_ it /\ e <= end_ it.

#[global] Instance covers_dec a e it : Decision (covers a e it).
Proof. unfold covers. apply _. Defined.

(** The protection the permission letters stand for. *)
Definition prot_of (it : maps_item) : Z :=
  Z.lor (Z.lor (if perm_is it 0 114 then PROT_READ else 0)
           (if perm_is it 1 119 then PROT_WRITE else 0))
    (if perm_is it 2 120 then PROT_EXEC else 0).

Lemma cb_covers a e p f it : covers a e it ->
  get_mem_protect_maps_iter_cb a e (MkProtect p true f) it
  = (1, MkProtect (prot_of it) false true).
Proof.
  intros (H3 & Ha & He). unfold get_mem_protect_maps_iter_cb, prot_of. rewrite H3. simpl.
  destruct (Z.leb_spec (start it) a), (Z.ltb_spec a (end_ it)), (Z.leb_spec e (end_ it)); try lia.
  simpl. by destruct (perm_is it 0 114), (perm_is it 1 119), (perm_is it 2 120).
Qed.

Lemma cb_not_covers a e d it : ~ covers a e it -> found_all d = false ->
  exists d', get_mem_protect_maps_iter_cb a e d it = (0, d') /\ found_all d' = false
    /\ (~ (start it <= a < end_ it) -> load0 d' = load0 d).
Proof.
  intros Hn Hf. unfold get_mem_protect_maps_iter_cb, covers in *.
  destruct (perm_is it 3 112) eqn:H3; simpl; [|by exists d].
  destruct (Z.leb_spec (start it) a), (Z.ltb_spec a (end_ it)); simpl;
    try (eexists; split_and!; [reflexivity|done|done]).
  destruct (Z.leb_spec e (end_ it)); [by destruct Hn|].
  destruct (load0 d); eexists; (split_and!; [reflexivity|done|lia]).
Qed.

(** After an entry that contains [a], no later one does. *)
Lemma ascending_not_later a it its : ascending (it :: its) -> a < end_ it ->
  Forall (fun it' => a < start it') its.
Proof. intros (_ & H & _) Ha. eapply Forall_impl; [exact H|]. simpl. lia. Qed.

Lemma loop_none a e its : forall d, found_all d = false ->
  Forall (fun it => ~ covers a e it) its ->
  exists d', iterate_loop (get_mem_protect_maps_iter_cb a e) its d = (0, d')
    /\ found_all d' = false.
Proof.
  intros d Hd Hf. revert d Hd. induction Hf as [|it its Hit _ IH]; intros d Hd; [by exists d|].
  destruct (cb_not_covers a e d it Hit Hd) as (d' & E & Hd' & _).
  cbn [iterate_loop]. rewrite E. simpl. by apply IH.
Qed.

Lemma loop_found a e its : forall p it, ascending its -> it ∈ its -> covers a e it ->
  iterate_loop (get_mem_protect_maps_iter_cb a e) its (MkProtect p true false)
  = (1, MkProtect (prot_of it) false true).
Proof.
  induction its as [|it' its IH]; intros p it Hasc Hin Hcov; [by apply not_elem_of_nil in Hin|].
  cbn [iterate_loop]. apply elem_of_cons in Hin as [<- | Hin].
  - by rewrite cb_covers.
  - assert (~ (start it' <= a < end_ it')) as Hn.
    { intros Ha. pose proof (ascending_not_later a it' its Hasc ltac:(lia)) as Hf.
      rewrite Forall_forall in Hf. specialize (Hf it Hin). destruct Hcov as (_ & ? & _). lia. }
    destruct (cb_not_covers a e (MkProtect p true false) it') as (d' & E & Hf & Hl); [|done|].
    { intros (_ & ? & _). lia. }
    rewrite E. simpl. specialize (Hl Hn). destruct d' as [p' l' f']. simpl in *. subst.
    destruct Hasc as (_ & _ & Hasc). by apply IH.
Qed.

Lemma get_mem_protect_run addr len p its :
  maps_ok (maps p) -> mem_ok p -> sees p its ->
  exists s l, xh_util_get_mem_protect addr len p
      = (let d := snd (iterate_loop (get_mem_protect_maps_iter_cb addr (uword (addr + len)))
                         its (MkProtect 0 true false)) in
         (Ok (if found_all d then 0 else XH_ERRNO_SEGVERR, pd_prot d), MkProcess (mach p) s l))
    /\ maps_ok s /\ Forall (fun b => b = true) l
    /\ up_to_date s = true /\ entries s = its.
Proof.
  intros Hok Hmem Hsees. unfold xh_util_get_mem_protect.
  destruct (iterate_run (get_mem_protect_maps_iter_cb addr (uword (addr + len)))
              (MkProtect 0 true false) p its Hok Hmem Hsees) as (s & l & E & Hs).
  exists s, l. split; [|done]. rewrite (M_bind_run _ _ _ _ _ E).
  by destruct (iterate_loop _ _ _).
Qed.

Lemma get_addr_protect_run addr p its it :
  maps_ok (maps p) -> mem_ok p -> sees p its -> ascending its -> it ∈ its ->
  covers addr (uword (addr + word_bytes)) it ->
  exists s l, xh_util_get_addr_protect addr p
      = (Ok (0, prot_of it), MkProcess (mach p) s l)
    /\ maps_ok s /\ Forall (fun b => b = true) l
    /\ up_to_date s = true /\ entries s = its.
Proof.
  intros Hok Hmem Hsees Hasc Hin Hcov. unfold xh_util_get_addr_protect.
  destruct (get_mem_protect_run addr word_bytes p its Hok Hmem Hsees) as (s & l & E & Hs).
  exists s, l. split; [|done]. rewrite E. by rewrite (loop_found _ _ _ 0 it Hasc Hin Hcov).
Qed.

Lemma get_addr_protect_keeps addr : keeps mach (xh_util_get_addr_protect addr).
Proof. apply keeps_bind; [apply iterate_keeps|]. intros []. auto with keeps. Qed.

(** Whatever the kernel answers, [mprotect] leaves the contents of memory alone. *)
Lemma set_addr_protect_keeps addr pr :
  keeps (fun p => mem (mach p)) (xh_util_set_addr_protect addr pr).
Proof.
  apply keeps_bind; [|auto with keeps]. intros p. unfold on_mach, lift, mprotect.
  by destruct (mprotect_errno _ _ _ _).
Qed.


(** ** Changing the protection of the page of a slot *)

Lemma PAGE_START_page addr : PAGE_START addr = page_of addr * PAGE_SIZE.
Proof.
  unfold PAGE_START, PAGE_MASK, page_of, PAGE_SIZE. pose proof page_bits_range.
  replace (2 ^ page_bits - 1) with (Z.ones page_bits) by (rewrite Z.ones_equiv; lia).
  rewrite <- Z.ldiff_land, Z.ldiff_ones_r, Z.shiftl_mul_pow2, Z.shiftr_div_pow2 by lia. done.
Qed.

(** A slot that lies in one page. *)
Definition in_page (addr : Z) : Prop :=
  fits addr word_bytes /\ page_of (addr + word_bytes - 1) = page_of addr.

Lemma in_page_inside addr b : in_page addr -> inside addr word_bytes b -> page_of b = page_of addr.
Proof.
  intros [_ Hp] [Ha Hb]. unfold page_of in *. pose proof PAGE_SIZE_pos.
  assert (addr / PAGE_SIZE <= b / PAGE_SIZE) by (apply Z.div_le_mono; lia).
  assert (b / PAGE_SIZE <= (addr + word_bytes - 1) / PAGE_SIZE) by (apply Z.div_le_mono; lia).
  lia.
Qed.

Lemma PAGE_COVER_page addr : in_page addr -> PAGE_COVER addr = PAGE_SIZE.
Proof.
  intros [[H0 Hf] Hp]. unfold PAGE_COVER, PAGE_END. pose proof word_bytes_pos.
  rewrite (uword_small (addr + word_bytes - 1)) by lia. rewrite !PAGE_START_page, Hp.
  unfold uword. pose proof word_bits_nonneg. unfold Z.sub. rewrite wrap_add_l by done.
  rewrite wrap_small; [lia|]. pose proof PAGE_SIZE_pos. pose proof PAGE_SIZE_bound. lia.
Qed.

(** The page of [addr] with protection [p]. *)
Definition protect (m : machine) (addr p : Z) : machine :=
  MkMachine (mem m) (alter (fun _ => p) (page_of addr) (prot m)).

(** The kernel lets the process change the protection of the page of [addr]. *)
Definition may_protect (addr : Z) : Prop :=
  forall m p, mprotect_errno m (PAGE_START addr) PAGE_SIZE p = None.

Lemma set_addr_protect_run addr pr p : in_page addr -> may_protect addr ->
  xh_util_set_addr_protect addr pr p = (Ok 0, set_mach (protect (mach p) addr pr) p).
Proof.
  intros Hp Hk. unfold xh_util_set_addr_protect. unfold_M. unfold on_mach, lift, mprotect.
  rewrite PAGE_COVER_page, Hk by done. pose proof PAGE_SIZE_pos.
  replace ((PAGE_SIZE + PAGE_SIZE - 1) / PAGE_SIZE) with 1
    by (apply (Z.div_unique _ _ _ (PAGE_SIZE - 1)); lia).
  rewrite PAGE_START_page. unfold page_of at 1. rewrite Z.div_mul by lia. done.
Qed.

Lemma can_protect bit m addr pr a :
  can bit (protect m addr pr) a
  = if decide (page_of a = page_of addr)
    then match prot m !! page_of a with Some _ => negb (Z.land pr bit =? 0) | None => false end
    else can bit m a.
Proof.
  unfold can, protect. simpl. destruct (decide (page_of a = page_of addr)) as [E|E].
  - rewrite E, lookup_alter_eq. by destruct (prot m !! _).
  - by rewrite lookup_alter_ne.
Qed.

Lemma protect_back m addr pr pr0 : prot m !! page_of addr = Some pr ->
  forall g, protect (set_mem (protect m addr pr0) g) addr pr = set_mem m g.
Proof.
  intros H g. unfold protect, set_mem. simpl. f_equal.
  apply map_eq. intros k. destruct (decide (k = page_of addr)) as [-> | Hk].
  - by rewrite !lookup_alter_eq, H.
  - by rewrite !lookup_alter_ne.
Qed.
End Facts.

(** A library of two adjacent pages: a range inside the first has its protection, one that
    runs into the second is refused. *)
Definition two_pages : list Z :=
  (bytes_of "7f00a000-7f00b000 r-xp 00000000 fd:02 1234    /lib/libc.so" ++ [10]
   ++ bytes_of "7f00b000-7f00c000 rw-p 00001000 fd:02 1234    /lib/libc.so" ++ [10])%list.

End XhUtilFacts.
