(* ===== verification/XhElf.v ===== *)
(** ELF images in memory and GOT hooking (libxhook, xh_elf.c and xh_elf.h).

    Module [XhElf] translates xh_elf.c from line 259 on, without the dump functions that
    [XH_ELF_DEBUG] switches off: header check, hash functions, symbol lookup through the
    .hash and .gnu.hash tables, [xh_elf_init], the replacement of one slot and [xh_elf_hook].
    A pointer is an address of the machine, [NULL] is 0, a C string that the caller passes is
    the list of its characters without the terminator. *)
From S2P Require Import Prelude Arch Machine Elf Libc XhMaps XhUtil Reloc.

Module XhElf.
Import XhMaps XhUtil Reloc.

(** [xh_elf_t]. *)
Record xh_elf := MkElf {
  pathname : option (list Z);
  base_addr : Z;
  bias_addr : Z;
  ehdr : Z;
  phdr : Z;
  dyn : Z;
  dyn_sz : Z;
  strtab : Z;
  symtab : Z;
  relplt : Z;
  relplt_sz : Z;
  reldyn : Z;
  reldyn_sz : Z;
  relandroid : Z;
  relandroid_sz : Z;
  bucket : Z;
  bucket_cnt : Z;
  chain : Z;
  chain_cnt : Z;
  symoffset : Z;
  bloom : Z;
  bloom_sz : Z;
  bloom_shift : Z;
  is_use_rela : bool;
  is_use_gnu_hash : bool
}.

Definition set_pathname (v : option (list Z)) (s : xh_elf) : xh_elf :=
  MkElf v (base_addr s) (bias_addr s) (ehdr s) (phdr s) (dyn s) (dyn_sz s) (strtab s)
    (symtab s) (relplt s) (relplt_sz s) (reldyn s) (reldyn_sz s) (relandroid s)
    (relandroid_sz s) (bucket s) (bucket_cnt s) (chain s) (chain_cnt s) (symoffset s)
    (bloom s) (bloom_sz s) (bloom_shift s) (is_use_rela s) (is_use_gnu_hash s).
Definition set_base_addr (v : Z) (s : xh_elf) : xh_elf :=
  MkElf (pathname s) v (bias_addr s) (ehdr s) (phdr s) (dyn s) (dyn_sz s) (strtab s)
    (symtab s) (relplt s) (relplt_sz s) (reldyn s) (reldyn_sz s) (relandroid s)
    (relandroid_sz s) (bucket s) (bucket_cnt s) (chain s) (chain_cnt s) (symoffset s)
    (bloom s) (bloom_sz s) (bloom_shift s) (is_use_rela s) (is_use_gnu_hash s).
Definition set_bias_addr (v : Z) (s : xh_elf) : xh_elf :=
  MkElf (pathname s) (base_addr s) v (ehdr s) (phdr s) (dyn s) (dyn_sz s) (strtab s)
    (symtab s) (relplt s) (relplt_sz s) (reldyn s) (reldyn_sz s) (relandroid s)
    (relandroid_sz s) (bucket s) (bucket_cnt s) (chain s) (chain_cnt s) (symoffset s)
    (bloom s) (bloom_sz s) (bloom_shift s) (is_use_rela s) (is_use_gnu_hash s).
Definition set_ehdr (v : Z) (s : xh_elf) : xh_elf :=
  MkElf (pathname s) (base_addr s) (bias_addr s) v (phdr s) (dyn s) (dyn_sz s) (strtab s)
    (symtab s) (relplt s) (relplt_sz s) (reldyn s) (reldyn_sz s) (relandroid s)
    (relandroid_sz s) (bucket s) (bucket_cnt s) (chain s) (chain_cnt s) (symoffset s)
    (bloom s) (bloom_sz s) (bloom_shift s) (is_use_rela s) (is_use_gnu_hash s).
Definition set_phdr (v : Z) (s : xh_elf) : xh_elf :=
  MkElf (pathname s) (base_addr s) (bias_addr s) (ehdr s) v (dyn s) (dyn_sz s) (strtab s)
    (symtab s) (relplt s) (relplt_sz s) (reldyn s) (reldyn_sz s) (relandroid s)
    (relandroid_sz s) (bucket s) (bucket_cnt s) (chain s) (chain_cnt s) (symoffset s)
    (bloom s) (bloom_sz s) (bloom_shift s) (is_use_rela s) (is_use_gnu_hash s).
Definition set_dyn (v : Z) (s : xh_elf) : xh_elf :=
  MkElf (pathname s) (base_addr s) (bias_addr s) (ehdr s) (phdr s) v (dyn_sz s) (strtab s)
    (symtab s) (relplt s) (relplt_sz s) (reldyn s) (reldyn_sz s) (relandroid s)
    (relandroid_sz s) (bucket s) (bucket_cnt s) (chain s) (chain_cnt s) (symoffset s)
    (bloom s) (bloom_sz s) (bloom_shift s) (is_use_rela s) (is_use_gnu_hash s).
Definition set_dyn_sz (v : Z) (s : xh_elf) : xh_elf :=
  MkElf (pathname s) (base_addr s) (bias_addr s) (ehdr s) (phdr s) (dyn s) v (strtab s)
    (symtab s) (relplt s) (relplt_sz s) (reldyn s) (reldyn_sz s) (relandroid s)
    (relandroid_sz s) (bucket s) (bucket_cnt s) (chain s) (chain_cnt s) (symoffset s)
    (bloom s) (bloom_sz s) (bloom_shift s) (is_use_rela s) (is_use_gnu_hash s).
Definition set_strtab (v : Z) (s : xh_elf) : xh_elf :=
  MkElf (pathname s) (base_addr s) (bias_addr s) (ehdr s) (phdr s) (dyn s) (dyn_sz s) v
    (symtab s) (relplt s) (relplt_sz s) (reldyn s) (reldyn_sz s) (relandroid s)
    (relandroid_sz s) (bucket s) (bucket_cnt s) (chain s) (chain_cnt s) (symoffset s)
    (bloom s) (bloom_sz s) (bloom_shift s) (is_use_rela s) (is_use_gnu_hash s).
Definition set_symtab (v : Z) (s : xh_elf) : xh_elf :=
  MkElf (pathname s) (base_addr s) (bias_addr s) (ehdr s) (phdr s) (dyn s) (dyn_sz s)
    (strtab s) v (relplt s) (relplt_sz s) (reldyn s) (reldyn_sz s) (relandroid s)
    (relandroid_sz s) (bucket s) (bucket_cnt s) (chain s) (chain_cnt s) (symoffset s)
    (bloom s) (bloom_sz s) (bloom_shift s) (is_use_rela s) (is_use_gnu_hash s).
Definition set_relplt (v : Z) (s : xh_elf) : xh_elf :=
  MkElf (pathname s) (base_addr s) (bias_addr s) (ehdr s) (phdr s) (dyn s) (dyn_sz s)
    (strtab s) (symtab s) v (relplt_sz s) (reldyn s) (reldyn_sz s) (relandroid s)
    (relandroid_sz s) (bucket s) (bucket_cnt s) (chain s) (chain_cnt s) (symoffset s)
    (bloom s) (bloom_sz s) (bloom_shift s) (is_use_rela s) (is_use_gnu_hash s).
Definition set_relplt_sz (v : Z) (s : xh_elf) : xh_elf :=
  MkElf (pathname s) (base_addr s) (bias_addr s) (ehdr s) (phdr s) (dyn s) (dyn_sz s)
    (strtab s) (symtab s) (relplt s) v (reldyn s) (reldyn_sz s) (relandroid s)
    (relandroid_sz s) (bucket s) (bucket_cnt s) (chain s) (chain_cnt s) (symoffset s)
    (bloom s) (bloom_sz s) (bloom_shift s) (is_use_rela s) (is_use_gnu_hash s).
Definition set_reldyn (v : Z) (s : xh_elf) : xh_elf :=
  MkElf (pathname s) (base_addr s) (bias_addr s) (ehdr s) (phdr s) (dyn s) (dyn_sz s)
    (strtab s) (symtab s) (relplt s) (relplt_sz s) v (reldyn_sz s) (relandroid s)
    (relandroid_sz s) (bucket s) (bucket_cnt s) (chain s) (chain_cnt s) (symoffset s)
    (bloom s) (bloom_sz s) (bloom_shift s) (is_use_rela s) (is_use_gnu_hash s).
Definition set_reldyn_sz (v : Z) (s : xh_elf) : xh_elf :=
  MkElf (pathname s) (base_addr s) (bias_addr s) (ehdr s) (phdr s) (dyn s) (dyn_sz s)
    (strtab s) (symtab s) (relplt s) (relplt_sz s) (reldyn s) v (relandroid s)
    (relandroid_sz s) (bucket s) (bucket_cnt s) (chain s) (chain_cnt s) (symoffset s)
    (bloom s) (bloom_sz s) (bloom_shift s) (is_use_rela s) (is_use_gnu_hash s).
Definition set_relandroid (v : Z) (s : xh_elf) : xh_elf :=
  MkElf (pathname s) (base_addr s) (bias_addr s) (ehdr s) (phdr s) (dyn s) (dyn_sz s)
    (strtab s) (symtab s) (relplt s) (relplt_sz s) (reldyn s) (reldyn_sz s) v
    (relandroid_sz s) (bucket s) (bucket_cnt s) (chain s) (chain_cnt s) (symoffset s)
    (bloom s) (bloom_sz s) (bloom_shift s) (is_use_rela s) (is_use_gnu_hash s).
Definition set_relandroid_sz (v : Z) (s : xh_elf) : xh_elf :=
  MkElf (pathname s) (base_addr s) (bias_addr s) (ehdr s) (phdr s) (dyn s) (dyn_sz s)
    (strtab s) (symtab s) (relplt s) (relplt_sz s) (reldyn s) (reldyn_sz s) (relandroid s) v
    (bucket s) (bucket_cnt s) (chain s) (chain_cnt s) (symoffset s) (bloom s) (bloom_sz s)
    (bloom_shift s) (is_use_rela s) (is_use_gnu_hash s).
Definition set_bucket (v : Z) (s : xh_elf) : xh_elf :=
  MkElf (pathname s) (base_addr s) (bias_addr s) (ehdr s) (phdr s) (dyn s) (dyn_sz s)
    (strtab s) (symtab s) (relplt s) (relplt_sz s) (reldyn s) (reldyn_sz s) (relandroid s)
    (relandroid_sz s) v (bucket_cnt s) (chain s) (chain_cnt s) (symoffset s) (bloom s)
    (bloom_sz s) (bloom_shift s) (is_use_rela s) (is_use_gnu_hash s).
Definition set_bucket_cnt (v : Z) (s : xh_elf) : xh_elf :=
  MkElf (pathname s) (base_addr s) (bias_addr s) (ehdr s) (phdr s) (dyn s) (dyn_sz s)
    (strtab s) (symtab s) (relplt s) (relplt_sz s) (reldyn s) (reldyn_sz s) (relandroid s)
    (relandroid_sz s) (bucket s) v (chain s) (chain_cnt s) (symoffset s) (bloom s)
    (bloom_sz s) (bloom_shift s) (is_use_rela s) (is_use_gnu_hash s).
Definition set_chain (v : Z) (s : xh_elf) : xh_elf :=
  MkElf (pathname s) (base_addr s) (bias_addr s) (ehdr s) (phdr s) (dyn s) (dyn_sz s)
    (strtab s) (symtab s) (relplt s) (relplt_sz s) (reldyn s) (reldyn_sz s) (relandroid s)
    (relandroid_sz s) (bucket s) (bucket_cnt s) v (chain_cnt s) (symoffset s) (bloom s)
    (bloom_sz s) (bloom_shift s) (is_use_rela s) (is_use_gnu_hash s).
Definition set_chain_cnt (v : Z) (s : xh_elf) : xh_elf :=
  MkElf (pathname s) (base_addr s) (bias_addr s) (ehdr s) (phdr s) (dyn s) (dyn_sz s)
    (strtab s) (symtab s) (relplt s) (relplt_sz s) (reldyn s) (reldyn_sz s) (relandroid s)
    (relandroid_sz s) (bucket s) (bucket_cnt s) (chain s) v (symoffset s) (bloom s)
    (bloom_sz s) (bloom_shift s) (is_use_rela s) (is_use_gnu_hash s).
Definition set_symoffset (v : Z) (s : xh_elf) : xh_elf :=
  MkElf (pathname s) (base_addr s) (bias_addr s) (ehdr s) (phdr s) (dyn s) (dyn_sz s)
    (strtab s) (symtab s) (relplt s) (relplt_sz s) (reldyn s) (reldyn_sz s) (relandroid s)
    (relandroid_sz s) (bucket s) (bucket_cnt s) (chain s) (chain_cnt s) v (bloom s)
    (bloom_sz s) (bloom_shift s) (is_use_rela s) (is_use_gnu_hash s).
Definition set_bloom (v : Z) (s : xh_elf) : xh_elf :=
  MkElf (pathname s) (base_addr s) (bias_addr s) (ehdr s) (phdr s) (dyn s) (dyn_sz s)
    (strtab s) (symtab s) (relplt s) (relplt_sz s) (reldyn s) (reldyn_sz s) (relandroid s)
    (relandroid_sz s) (bucket s) (bucket_cnt s) (chain s) (chain_cnt s) (symoffset s) v
    (bloom_sz s) (bloom_shift s) (is_use_rela s) (is_use_gnu_hash s).
Definition set_bloom_sz (v : Z) (s : xh_elf) : xh_elf :=
  MkElf (pathname s) (base_addr s) (bias_addr s) (ehdr s) (phdr s) (dyn s) (dyn_sz s)
    (strtab s) (symtab s) (relplt s) (relplt_sz s) (reldyn s) (reldyn_sz s) (relandroid s)
    (relandroid_sz s) (bucket s) (bucket_cnt s) (chain s) (chain_cnt s) (symoffset s)
    (bloom s) v (bloom_shift s) (is_use_rela s) (is_use_gnu_hash s).
Definition set_bloom_shift (v : Z) (s : xh_elf) : xh_elf :=
  MkElf (pathname s) (base_addr s) (bias_addr s) (ehdr s) (phdr s) (dyn s) (dyn_sz s)
    (strtab s) (symtab s) (relplt s) (relplt_sz s) (reldyn s) (reldyn_sz s) (relandroid s)
    (relandroid_sz s) (bucket s) (bucket_cnt s) (chain s) (chain_cnt s) (symoffset s)
    (bloom s) (bloom_sz s) v (is_use_rela s) (is_use_gnu_hash s).
Definition set_is_use_rela (v : bool) (s : xh_elf) : xh_elf :=
  MkElf (pathname s) (base_addr s) (bias_addr s) (ehdr s) (phdr s) (dyn s) (dyn_sz s)
    (strtab s) (symtab s) (relplt s) (relplt_sz s) (reldyn s) (reldyn_sz s) (relandroid s)
    (relandroid_sz s) (bucket s) (bucket_cnt s) (chain s) (chain_cnt s) (symoffset s)
    (bloom s) (bloom_sz s) (bloom_shift s) v (is_use_gnu_hash s).
Definition set_is_use_gnu_hash (v : bool) (s : xh_elf) : xh_elf :=
  MkElf (pathname s) (base_addr s) (bias_addr s) (ehdr s) (phdr s) (dyn s) (dyn_sz s)
    (strtab s) (symtab s) (relplt s) (relplt_sz s) (reldyn s) (reldyn_sz s) (relandroid s)
    (relandroid_sz s) (bucket s) (bucket_cnt s) (chain s) (chain_cnt s) (symoffset s)
    (bloom s) (bloom_sz s) (bloom_shift s) (is_use_rela s) v.

(** [memset(self, 0, sizeof(xh_elf_t))]. *)
Definition zero_elf : xh_elf :=
  MkElf None 0 0 0 0 0 0 0 0 0 0 0 0 0 0 0 0 0 0 0 0 0 0 false false.

(** ** Hash functions *)

Fixpoint hash_loop (name : list Z) (h : Z) : Z :=
  match name with
  | [] => h
  | c :: name =>
      let h := u32 (u32 (Z.shiftl h 4) + c) in
      let g := Z.land h 0xf0000000 in
      let h := Z.lxor h g in
      let h := Z.lxor h (Z.shiftr g 24) in
      hash_loop name h
  end.

Definition xh_elf_hash (name : list Z) : Z := hash_loop name 0.

Fixpoint gnu_hash_loop (name : list Z) (h : Z) : Z :=
  match name with
  | [] => h
  | c :: name => gnu_hash_loop name (u32 (h + u32 (u32 (Z.shiftl h 5) + c)))
  end.

Definition xh_elf_gnu_hash (name : list Z) : Z := gnu_hash_loop name 5381.

Section Code.
Context `{Ar : Arch} `{K : Kernel}.

(** [return XH_ERRNO_FORMAT] unless [b]. *)
Definition require (b : bool) (k : result Z) : result Z :=
  if b then k else Ok XH_ERRNO_FORMAT.

Definition xh_elf_check_elfheader (m : machine) (base_addr : Z) : result Z :=
  magic ← load_bytes m base_addr SELFMAG;
  require (bool_decide (magic = ELFMAG)) (
  cls ← e_ident m base_addr EI_CLASS;
  require (cls =? if is_lp64 then ELFCLASS64 else ELFCLASS32) (
  data ← e_ident m base_addr EI_DATA;
  require (data =? ELFDATA2LSB) (
  vers ← e_ident m base_addr EI_VERSION;
  require (vers =? EV_CURRENT) (
  ty ← e_type m base_addr;
  require ((ty =? ET_EXEC) || (ty =? ET_DYN)) (
  mach ← e_machine m base_addr;
  require (mach =? elf_machine) (
  version ← e_version m base_addr;
  require (version =? EV_CURRENT) (Ok 0))))))).

(** ** Program headers *)

(** The loop over [n] headers from [phdr] on: the first that [sel] accepts. *)
Fixpoint first_phdr (sel : Z -> result bool) (phdr : Z) (n : nat) : result (option Z) :=
  match n with
  | O => Ok None
  | S n =>
      hit ← sel phdr;
      if (hit : bool) then Ok (Some phdr)
      else first_phdr sel (uword (phdr + sizeof_Phdr)) n
  end.

Definition xh_elf_get_first_segment_by_type (m : machine) (self : xh_elf) (type : Z)
  : result (option Z) :=
  n ← e_phnum m (ehdr self);
  first_phdr (fun p => t ← p_type m p; Ok (t =? type)) (phdr self) (Z.to_nat n).

Definition xh_elf_get_first_segment_by_type_offset (m : machine) (self : xh_elf)
    (type offset : Z) : result (option Z) :=
  n ← e_phnum m (ehdr self);
  first_phdr (fun p =>
    t ← p_type m p;
    if t =? type then o ← p_offset m p; Ok (o =? offset) else Ok false)
    (phdr self) (Z.to_nat n).

(** ** Symbol lookup

    The result is the symbol index; [None] is [XH_ERRNO_NOTFND]. *)

(** [self->symtab[i].st_name + self->strtab]. *)
Definition symbol_name (m : machine) (self : xh_elf) (i : Z) : result Z :=
  nm ← st_name m (uword (symtab self + sizeof_Sym * i));
  Ok (uword (strtab self + nm)).

(** [p[i]] for [uint32_t *p]. *)
Definition index32 (m : machine) (p i : Z) : result Z := load32 m (uword (p + 4 * i)).

(** [a % b] on unsigned integers. *)
Definition umod (a b : Z) : result Z := if b =? 0 then Undef else Ok (a mod b).

Fixpoint hash_chain (fuel : nat) (m : machine) (self : xh_elf) (symbol : list Z) (i : Z)
  : result (option Z) :=
  match fuel with
  | O => NoFuel
  | S fuel =>
      if i =? 0 then Ok None else
      cur ← symbol_name m self i;
      eq ← streq m symbol cur;
      if (eq : bool) then Ok (Some i) else
      i ← index32 m (chain self) i;
      hash_chain fuel m self symbol i
  end.

Definition xh_elf_hash_lookup (fuel : nat) (m : machine) (self : xh_elf) (symbol : list Z)
  : result (option Z) :=
  let hash := xh_elf_hash symbol in
  b ← umod hash (bucket_cnt self);
  i ← index32 m (bucket self) b;
  hash_chain fuel m self symbol i.

Fixpoint gnu_chain (fuel : nat) (m : machine) (self : xh_elf) (symbol : list Z) (hash i : Z)
  : result (option Z) :=
  match fuel with
  | O => NoFuel
  | S fuel =>
      symname ← symbol_name m self i;
      symhash ← index32 m (chain self) (u32 (i - symoffset self));
      eq ← (if Z.lor hash 1 =? Z.lor symhash 1 then streq m symbol symname else Ok false);
      if (eq : bool) then Ok (Some i) else
      if Z.testbit symhash 0 then Ok None else
      gnu_chain fuel m self symbol hash (u32 (i + 1))
  end.

Definition xh_elf_gnu_hash_lookup_def (fuel : nat) (m : machine) (self : xh_elf)
    (symbol : list Z) : result (option Z) :=
  let hash := xh_elf_gnu_hash symbol in
  w ← umod (hash / word_bits) (bloom_sz self);
  word ← loadW m (uword (bloom self + word_bytes * w));
  if 32 <=? bloom_shift self then Undef else
  let mask := Z.lor (Z.shiftl 1 (hash mod word_bits))
                (Z.shiftl 1 (Z.shiftr hash (bloom_shift self) mod word_bits)) in
  if negb (Z.land word mask =? mask) then Ok None else
  b ← umod hash (bucket_cnt self);
  i ← index32 m (bucket self) b;
  if i <? symoffset self then Ok None else
  gnu_chain fuel m self symbol hash i.

(** The loop of [xh_elf_gnu_hash_lookup_undef], [n] symbols from [i] on. *)
Fixpoint undef_loop (n : nat) (m : machine) (self : xh_elf) (symbol : list Z) (i : Z)
  : result (option Z) :=
  match n with
  | O => Ok None
  | S n =>
      symname ← symbol_name m self i;
      eq ← streq m symbol symname;
      if (eq : bool) then Ok (Some i) else undef_loop n m self symbol (i + 1)
  end.

Definition xh_elf_gnu_hash_lookup_undef (m : machine) (self : xh_elf) (symbol : list Z)
  : result (option Z) :=
  undef_loop (Z.to_nat (symoffset self)) m self symbol 0.

Definition xh_elf_gnu_hash_lookup (fuel : nat) (m : machine) (self : xh_elf)
    (symbol : list Z) : result (option Z) :=
  r ← xh_elf_gnu_hash_lookup_def fuel m self symbol;
  match r with
  | Some i => Ok (Some i)
  | None => xh_elf_gnu_hash_lookup_undef m self symbol
  end.

Definition xh_elf_find_symidx_by_name (fuel : nat) (m : machine) (self : xh_elf)
    (symbol : list Z) : result (option Z) :=
  if is_use_gnu_hash self then xh_elf_gnu_hash_lookup fuel m self symbol
  else xh_elf_hash_lookup fuel m self symbol.

(** ** Replacing one slot *)

Definition xh_elf_replace_function (addr new_func old_func : Z) : M process Z :=
  cur ← reads (fun p => loadW (mach p) addr);
  if cur =? new_func then mret 0 else
  '(r, old_prot) ← xh_util_get_addr_protect addr;
  if negb (r =? 0) then mret r else
  r ← xh_util_set_addr_protect addr (Z.lor PROT_READ PROT_WRITE);
  if negb (r =? 0) then mret r else
  old_addr ← reads (fun p => loadW (mach p) addr);
  (if old_func =? 0 then mret tt else on_mach (storeW old_func old_addr));;
  n ← xh_util_write_memory_safely addr (le_bytes (Z.to_nat word_bytes) new_func);
  if negb (n =? word_bytes) then mret XH_ERRNO_SEGVERR else
  let old_prot :=
    if Z.land old_prot PROT_READ =? 0 then Z.lor old_prot PROT_READ else old_prot in
  xh_util_set_addr_protect addr old_prot;;
  xh_util_flush_instruction_cache addr;;
  mret 0.

(** ** Initialisation *)

Definition xh_elf_check (self : xh_elf) : Z :=
  if base_addr self =? 0 then 1
  else if bias_addr self =? 0 then 1
  else if ehdr self =? 0 then 1
  else if phdr self =? 0 then 1
  else if strtab self =? 0 then 1
  else if symtab self =? 0 then 1
  else if bucket self =? 0 then 1
  else if chain self =? 0 then 1
  else if is_use_gnu_hash self && (bloom self =? 0) then 1
  else 0.

(** [set(bias_addr + d_ptr)], and [XH_ERRNO_FORMAT] where that lies below the image. *)
Definition set_table (set : Z -> xh_elf -> xh_elf) (self : xh_elf) (d_ptr : Z) : Z * xh_elf :=
  let a := uword (bias_addr self + d_ptr) in
  let self := set a self in
  (if a <? base_addr self then XH_ERRNO_FORMAT else 0, self).

(** One entry of the dynamic section, except [DT_NULL]: return value (0 to go on) and
    the structure. *)
Definition parse_dyn (m : machine) (self : xh_elf) (tag val : Z) : result (Z * xh_elf) :=
  if tag =? DT_STRTAB then Ok (set_table set_strtab self val)
  else if tag =? DT_SYMTAB then Ok (set_table set_symtab self val)
  else if tag =? DT_PLTREL then Ok (0, set_is_use_rela (val =? DT_RELA) self)
  else if tag =? DT_JMPREL then Ok (set_table set_relplt self val)
  else if tag =? DT_PLTRELSZ then Ok (0, set_relplt_sz (u32 val) self)
  else if (tag =? DT_REL) || (tag =? DT_RELA) then Ok (set_table set_reldyn self val)
  else if (tag =? DT_RELSZ) || (tag =? DT_RELASZ) then Ok (0, set_reldyn_sz (u32 val) self)
  else if (tag =? DT_ANDROID_REL) || (tag =? DT_ANDROID_RELA)
    then Ok (set_table set_relandroid self val)
  else if (tag =? DT_ANDROID_RELSZ) || (tag =? DT_ANDROID_RELASZ)
    then Ok (0, set_relandroid_sz (u32 val) self)
  else if tag =? DT_HASH then
    if is_use_gnu_hash self then Ok (0, self) else
    let raw := uword (bias_addr self + val) in
    if raw <? base_addr self then Ok (XH_ERRNO_FORMAT, self) else
    nb ← index32 m raw 0;
    nc ← index32 m raw 1;
    let b := uword (raw + 8) in
    Ok (0, set_chain (uword (b + 4 * nb))
             (set_bucket b (set_chain_cnt nc (set_bucket_cnt nb self))))
  else if tag =? DT_GNU_HASH then
    let raw := uword (bias_addr self + val) in
    if raw <? base_addr self then Ok (XH_ERRNO_FORMAT, self) else
    nb ← index32 m raw 0;
    so ← index32 m raw 1;
    bs ← index32 m raw 2;
    sh ← index32 m raw 3;
    let bl := uword (raw + 16) in
    let b := uword (bl + word_bytes * bs) in
    Ok (0, set_is_use_gnu_hash true
             (set_chain (uword (b + 4 * nb)) (set_bucket b (set_bloom bl
             (set_bloom_shift sh (set_bloom_sz bs (set_symoffset so
             (set_bucket_cnt nb self))))))))
  else Ok (0, self).

(** The loop over the dynamic section: at most [n] entries from [dyn] on. *)
Fixpoint dyn_loop (n : nat) (m : machine) (self : xh_elf) (dyn : Z) : result (Z * xh_elf) :=
  match n with
  | O => Ok (0, self)
  | S n =>
      tag ← d_tag m dyn;
      if tag =? DT_NULL then Ok (0, self) else
      val ← d_un m dyn;
      '(r, self) ← parse_dyn m self tag val;
      if negb (r =? 0) then Ok (r, self) else
      dyn_loop n m self (uword (dyn + sizeof_Dyn))
  end.

(** The test for the magic "APS2"; [None] is a format error. *)
Definition check_android (m : machine) (self : xh_elf) : result (option xh_elf) :=
  if relandroid self =? 0 then Ok (Some self) else
  if relandroid_sz self <? 4 then Ok None else
  eq ← (fix go (s : list Z) (a : Z) : result bool :=
          match s with
          | [] => Ok true
          | c :: s => b ← load8 m a; if b =? c then go s (uword (a + 1)) else Ok false
          end) (bytes_of "APS2") (relandroid self);
  if (eq : bool)
  then Ok (Some (set_relandroid_sz (relandroid_sz self - 4)
                   (set_relandroid (uword (relandroid self + 4)) self)))
  else Ok None.

Definition xh_elf_init (m : machine) (self : xh_elf) (bias phdrs phdr_count : Z)
    (path : option (list Z)) : result (Z * xh_elf) :=
  if (bias =? 0) || bool_decide (path = None) then Ok (XH_ERRNO_INVAL, self) else
  let self := set_phdr phdrs (set_bias_addr bias (set_pathname path zero_elf)) in
  phdr0 ← first_phdr (fun p => t ← p_type m p; Ok (t =? PT_LOAD)) phdrs (Z.to_nat phdr_count);
  match phdr0 with
  | None => Ok (XH_ERRNO_FORMAT, self)
  | Some phdr0 =>
      vaddr ← p_vaddr m phdr0;
      let self := set_base_addr (uword (bias_addr self + vaddr)) self in
      if base_addr self <? vaddr then Ok (XH_ERRNO_FORMAT, self) else
      let self := set_ehdr (base_addr self) self in
      dhdr ← xh_elf_get_first_segment_by_type m self PT_DYNAMIC;
      match dhdr with
      | None => Ok (XH_ERRNO_FORMAT, self)
      | Some dhdr =>
          dvaddr ← p_vaddr m dhdr;
          let self := set_dyn (uword (bias_addr self + dvaddr)) self in
          memsz ← p_memsz m dhdr;
          let self := set_dyn_sz (u32 memsz) self in
          '(r, self) ← dyn_loop (Z.to_nat (dyn_sz self / sizeof_Dyn)) m self (dyn self);
          if negb (r =? 0) then Ok (r, self) else
          a ← check_android m self;
          match a with
          | None => Ok (XH_ERRNO_FORMAT, self)
          | Some self =>
              Ok (if negb (xh_elf_check self =? 0) then XH_ERRNO_FORMAT else 0, self)
          end
      end
  end.

(** ** Hooking *)

(** [r_info] and [r_offset] of the entry of a plain section at [rel]. *)
Definition plain_entry (m : machine) (rel : Z) : result reloc :=
  info ← r_info_field m rel;
  off ← r_offset_field m rel;
  Ok (MkReloc off info 0).

(** Does the relocation ask for the address of symbol [symidx]? *)
Definition reloc_matches (is_plt : bool) (symidx : Z) (rel : reloc) : bool :=
  (R_SYM (ro_info rel) =? symidx)
  && (if is_plt then R_TYPE (ro_info rel) =? R_GENERIC_JUMP_SLOT
      else (R_TYPE (ro_info rel) =? R_GENERIC_GLOB_DAT)
           || (R_TYPE (ro_info rel) =? R_GENERIC_ABS)).

(** Return value and [found]. *)
Definition xh_elf_find_and_replace_func (self : xh_elf) (is_plt : bool)
    (new_func old_func symidx : Z) (rel : reloc) : M process (Z * bool) :=
  if negb (reloc_matches is_plt symidx rel) then mret (0, false) else
  let addr := uword (bias_addr self + ro_offset rel) in
  if addr <? base_addr self then mret (XH_ERRNO_FORMAT, true) else
  r ← xh_elf_replace_function addr new_func old_func;
  mret (r, true).

(** The loops over .rel(a).plt, which stops at the first entry found, and .rel(a).dyn. *)
Fixpoint plain_loop (fuel : nat) (self : xh_elf) (is_plt : bool)
    (new_func old_func symidx : Z) (iter : plain_reloc_iterator) : M process Z :=
  match fuel with
  | O => raise NoFuel
  | S fuel =>
      match plain_reloc_iterator_next iter with
      | (None, _) => mret 0
      | (Some a, iter) =>
          rel ← reads (fun p => plain_entry (mach p) a);
          '(r, found) ← xh_elf_find_and_replace_func self is_plt new_func old_func symidx rel;
          if negb (r =? 0) then mret r else
          if is_plt && found then mret 0 else
          plain_loop fuel self is_plt new_func old_func symidx iter
      end
  end.

(** The loop over .rel(a).android. *)
Fixpoint packed_loop (fuel : nat) (self : xh_elf) (new_func old_func symidx : Z)
    (iter : packed_reloc_iterator) : M process Z :=
  match fuel with
  | O => raise NoFuel
  | S fuel =>
      '(rel, iter) ← reads (fun p => packed_reloc_iterator_next (mach p) iter);
      match rel with
      | None => mret 0
      | Some rel =>
          '(r, _) ← xh_elf_find_and_replace_func self false new_func old_func symidx rel;
          if negb (r =? 0) then mret r else
          packed_loop fuel self new_func old_func symidx iter
      end
  end.

Definition hook_plain (fuel : nat) (self : xh_elf) (is_plt : bool)
    (new_func old_func symidx rel rel_sz : Z) : M process Z :=
  if rel =? 0 then mret 0
  else plain_loop fuel self is_plt new_func old_func symidx
         (plain_reloc_iterator_init rel rel_sz (is_use_rela self)).

Definition hook_packed (fuel : nat) (self : xh_elf) (new_func old_func symidx : Z)
  : M process Z :=
  if relandroid self =? 0 then mret 0 else
  '(_, iter) ← reads (fun p => packed_reloc_iterator_init (mach p) (relandroid self)
                                 (relandroid_sz self) (is_use_rela self));
  packed_loop fuel self new_func old_func symidx iter.

Definition xh_elf_hook (fuel : nat) (self : xh_elf) (symbol : option (list Z))
    (new_func old_func : Z) : M process Z :=
  if bool_decide (pathname self = None) then mret XH_ERRNO_ELFINIT else
  match symbol with
  | None => mret XH_ERRNO_INVAL
  | Some symbol =>
      if new_func =? 0 then mret XH_ERRNO_INVAL else
      idx ← reads (fun p => xh_elf_find_symidx_by_name fuel (mach p) self symbol);
      match idx with
      | None => mret XH_ERRNO_NOTFND
      | Some symidx =>
          r ← hook_plain fuel self true new_func old_func symidx (relplt self) (relplt_sz self);
          if negb (r =? 0) then mret r else
          r ← hook_plain fuel self false new_func old_func symidx (reldyn self) (reldyn_sz self);
          if negb (r =? 0) then mret r else
          hook_packed fuel self new_func old_func symidx
      end
  end.
End Code.
End XhElf.

(** * Hash functions *)
Module HashFacts.
Import XhElf.

(** The hash of the System V ABI, with [unsigned long] of 32 bits: the high nibble is
    folded in where it is set, and always cleared. *)
Fixpoint sysv_loop (name : list Z) (h : Z) : Z :=
  match name with
  | [] => h
  | c :: name =>
      let h := u32 (16 * h + c) in
      let g := Z.land h 0xf0000000 in
      let h := if g =? 0 then h else Z.lxor h (Z.shiftr g 24) in
      sysv_loop name (Z.land h (Z.lnot g))
  end.

Definition sysv_hash (name : list Z) : Z := sysv_loop name 0.

(** The value [h * 33 + c] over all characters, without truncation. *)
Fixpoint djb (name : list Z) (h : Z) : Z :=
  match name with
  | [] => h
  | c :: name => djb name (33 * h + c)
  end.

Lemma testbit_f0 i : Z.testbit 0xf0000000 i = (28 <=? i) && (i <? 32).
Proof.
  change 0xf0000000 with (Z.shiftl (Z.ones 4) 28).
  destruct (Z.ltb_spec i 0); [rewrite Z.testbit_neg_r by lia; by destruct (Z.leb_spec 28 i); [lia|]|].
  rewrite Z.shiftl_spec, Z.testbit_ones by lia.
  destruct (Z.leb_spec 0 (i - 28)), (Z.ltb_spec (i - 28) 4), (Z.leb_spec 28 i), (Z.ltb_spec i 32);
    simpl; try lia; done.
Qed.

(** Folding the high nibble: both ways agree, and they leave 28 bits. *)
Lemma fold_nibble h :
  let g := Z.land h 0xf0000000 in
  Z.lxor (Z.lxor h g) (Z.shiftr g 24)
  = Z.land (if g =? 0 then h else Z.lxor h (Z.shiftr g 24)) (Z.lnot g).
Proof.
  intros g. replace (if g =? 0 then h else _) with (Z.lxor h (Z.shiftr g 24)).
  2:{ destruct (Z.eqb_spec g 0) as [-> | _]; [by rewrite Z.shiftr_0_l, Z.lxor_0_r|done]. }
  apply Z.bits_inj'. intros i Hi. unfold g.
  rewrite Z.land_spec, Z.lnot_spec, !Z.lxor_spec, Z.shiftr_spec, !Z.land_spec, !testbit_f0 by lia.
  destruct (Z.leb_spec 28 i), (Z.ltb_spec i 32), (Z.leb_spec 28 (i + 24)), (Z.ltb_spec (i + 24) 32);
    simpl; try lia; destruct (Z.testbit h i); simpl; try done; by destruct (Z.testbit h _).
Qed.

Lemma fold_nibble_range h : in_word 32 h ->
  let g := Z.land h 0xf0000000 in
  0 <= Z.lxor (Z.lxor h g) (Z.shiftr g 24) < 2 ^ 28.
Proof.
  intros Hh g. set (v := Z.lxor _ _). cut (v = v mod 2 ^ 28).
  { intros ->. apply Z.mod_pos_bound. lia. }
  unfold in_word in Hh. assert (h = wrap 32 h) as Eh by (symmetry; by apply wrap_small).
  apply Z.bits_inj'. intros i Hi.
  destruct (Z.ltb_spec i 28); [by rewrite Z.mod_pow2_bits_low by lia|].
  rewrite Z.mod_pow2_bits_high by lia. unfold v, g. rewrite Eh.
  rewrite !Z.lxor_spec, Z.shiftr_spec, !Z.land_spec, !wrap_testbit, !testbit_f0 by lia.
  destruct (Z.leb_spec 28 i), (Z.ltb_spec i 32), (Z.ltb_spec (i + 24) 32); simpl; try lia;
    rewrite ?andb_false_r, ?andb_true_r; simpl; by destruct (Z.testbit h i).
Qed.

Lemma shiftl4 h : Z.shiftl h 4 = 16 * h.
Proof. rewrite Z.shiftl_mul_pow2 by lia. lia. Qed.

Lemma hash_loop_sysv name : forall h, 0 <= h < 2 ^ 28 ->
  hash_loop name h = sysv_loop name h /\ 0 <= hash_loop name h < 2 ^ 28.
Proof.
  induction name as [|c name IH]; intros h Hh; [done|]. cbn [hash_loop sysv_loop].
  rewrite wrap_add_l, shiftl4 by lia. set (h1 := u32 (16 * h + c)).
  pose proof (fold_nibble_range h1) as Hr. pose proof (fold_nibble h1) as Hf. cbv zeta in Hr, Hf.
  rewrite <- Hf. apply IH, Hr, wrap_range. lia.
Qed.

(** [xh_elf_hash] is the hash function of the System V ABI for .hash tables, on every
    string, and its value always fits in 28 bits. *)
Lemma xh_elf_hash_sysv (name : list Z) :
  xh_elf_hash name = sysv_hash name /\ 0 <= xh_elf_hash name < 2 ^ 28.
Proof. apply hash_loop_sysv. lia. Qed.

Lemma gnu_hash_loop_djb name : forall h,
  gnu_hash_loop name (u32 h) = u32 (djb name h).
Proof.
  induction name as [|c name IH]; intros h; [done|]. cbn [gnu_hash_loop djb].
  rewrite <- IH. f_equal. unfold wrap. rewrite Z.shiftl_mul_pow2 by lia.
  rewrite Zplus_mod_idemp_r, Zplus_mod_idemp_l, Z.add_assoc, (Z.add_comm h), <- Z.add_assoc.
  rewrite Zplus_mod_idemp_l, <- (Zplus_mod_idemp_l (h mod _ * _)), Zmult_mod_idemp_l.
  rewrite Zplus_mod_idemp_l. f_equal. lia.
Qed.

(** [xh_elf_gnu_hash] is the hash of .gnu.hash tables: [h * 33 + c] over all characters
    from 5381 on, of which the low 32 bits remain although every step overflows. *)
Lemma xh_elf_gnu_hash_djb (name : list Z) :
  xh_elf_gnu_hash name = u32 (djb name 5381).
Proof. apply (gnu_hash_loop_djb name 5381). Qed.

Lemma gnu_hash_range name : 0 <= xh_elf_gnu_hash name < 2 ^ 32.
Proof. unfold xh_elf_gnu_hash. change 5381 with (u32 5381). rewrite gnu_hash_loop_djb. apply wrap_range. lia. Qed.
End HashFacts.

(** * Symbol lookup *)
Module LookupFacts.
Import XhElf HashFacts.

Section Facts.
Context `{Ar : Arch} `{K : Kernel}.
Variables (m : machine) (self : xh_elf).

(** Symbol [i] of the image has the name [s]. *)
Definition named (i : Z) (s : list Z) : Prop :=
  exists a, symbol_name m self i = Ok a /\ str_at m a s.

Lemma named_eq i s t : is_cstring t -> named i s ->
  exists a, symbol_name m self i = Ok a /\ streq m t a = Ok (bool_decide (t = s)).
Proof. intros Ht (a & Ha & Hs). exists a. split; [done|]. by apply streq_correct. Qed.

(** ** .hash *)

(** [is] are the symbols on the chain that starts with [i]. *)
Inductive chain_of : Z -> list Z -> Prop :=
| chain_nil : chain_of 0 []
| chain_cons i j l : i <> 0 -> index32 m (chain self) i = Ok j -> chain_of j l ->
    chain_of i (i :: l).

Lemma hash_chain_find (names : Z -> list Z) symbol i l fuel :
  is_cstring symbol -> chain_of i l -> (forall j, j ∈ l -> named j (names j)) ->
  (length l < fuel)%nat ->
  hash_chain fuel m self symbol i
  = Ok (snd <$> list_find (fun j => symbol = names j) l).
Proof.
  intros Hs Hc. revert fuel. induction Hc as [|i j l Hi Hj _ IH]; intros fuel Hn Hf.
  - destruct fuel; [simpl in Hf; lia|]. done.
  - destruct fuel as [|fuel]; [simpl in Hf; lia|]. cbn [hash_chain].
    destruct (Z.eqb_spec i 0); [done|].
    destruct (named_eq i (names i) symbol Hs) as (a & Ha & He); [apply Hn; by left|].
    rewrite Ha. cbn [mbind result_bind]. rewrite He. cbn [mbind result_bind list_find].
    destruct (decide (symbol = names i)) as [E|E].
    + by rewrite bool_decide_true.
    + rewrite bool_decide_false by done. rewrite Hj. cbn [mbind result_bind].
      rewrite IH; [|intros ??; apply Hn; by right|simpl in Hf; lia].
      f_equal. by destruct (list_find _ l) as [[? ?]|].
Qed.

(** A .hash section over symbols [1 .. n): every symbol is on the chain of its hash, and
    chains end. *)
Record hash_table (names : Z -> list Z) (n : Z) : Prop := {
  ht_buckets : 0 < bucket_cnt self;
  ht_names : forall i, 0 < i < n -> named i (names i);
  ht_chains : forall h, 0 <= h < bucket_cnt self -> exists i l,
    index32 m (bucket self) h = Ok i /\ chain_of i l
    /\ Forall (fun j => 0 < j < n) l /\ (Z.of_nat (length l) < n)
    /\ forall j, 0 < j < n -> xh_elf_hash (names j) mod bucket_cnt self = h -> j ∈ l
}.

(** What a lookup returns: a symbol of that name, if there is one. *)
Definition lookup_spec (names : Z -> list Z) (lo n : Z) (symbol : list Z) (r : option Z) : Prop :=
  match r with
  | Some i => lo <= i < n /\ names i = symbol
  | None => forall i, lo <= i < n -> names i <> symbol
  end.

Lemma hash_lookup_run names n symbol fuel :
  hash_table names n -> is_cstring symbol -> (Z.to_nat n <= fuel)%nat ->
  exists r, xh_elf_hash_lookup fuel m self symbol = Ok r /\ lookup_spec names 1 n symbol r.
Proof.
  intros [Hb Hn Hch] Hs Hf. unfold xh_elf_hash_lookup, umod.
  destruct (Z.eqb_spec (bucket_cnt self) 0); [lia|]. cbn [mbind result_bind].
  destruct (Hch (xh_elf_hash symbol mod bucket_cnt self)) as (i & l & Hi & Hc & Hl & Hlen & Hall).
  { apply Z.mod_pos_bound. lia. }
  rewrite Hi. cbn [mbind result_bind].
  rewrite (hash_chain_find names _ _ l); [|done|done| |lia].
  2:{ intros j Hj. apply Hn. by apply (proj1 (Forall_forall _ l) Hl). }
  eexists. split; [reflexivity|]. destruct (list_find _ l) as [[k j]|] eqn:E; simpl.
  - apply list_find_Some in E as (E & Hj & _). split; [|done].
    apply (proj1 (Forall_forall _ l)) with (x := j) in Hl; [lia|]. by eapply list_elem_of_lookup_2.
  - apply list_find_None in E. intros j Hj Ej. rewrite Forall_forall in E. apply (E j); [|done].
    apply Hall; [lia|]. by rewrite Ej.
Qed.

(** ** .gnu.hash *)

(** The two bits of a hash in the Bloom filter. *)
Definition bloom_mask (h : Z) : Z :=
  Z.lor (Z.shiftl 1 (h mod word_bits)) (Z.shiftl 1 (Z.shiftr h (bloom_shift self) mod word_bits)).

(** A .gnu.hash section over symbols [symoffset .. n), the hash values [c i] with their
    end-of-chain bits: every symbol's bits are in the filter, and walking up from the
    bucket of its hash reaches it before a chain ends. *)
Record gnu_table (names : Z -> list Z) (n : Z) (c : Z -> Z) : Prop := {
  gt_size : 0 <= symoffset self <= n /\ n < 2 ^ 32;
  gt_cnt : 0 < bucket_cnt self /\ 0 < bloom_sz self /\ bloom_shift self < 32;
  gt_names : forall i, 0 <= i < n -> named i (names i);
  gt_chain : forall i, symoffset self <= i < n ->
    index32 m (chain self) (i - symoffset self) = Ok (c i)
    /\ Z.lor (c i) 1 = Z.lor (xh_elf_gnu_hash (names i)) 1;
  gt_bloom : forall k, 0 <= k < bloom_sz self -> exists w,
    loadW m (uword (bloom self + word_bytes * k)) = Ok w
    /\ forall i, symoffset self <= i < n ->
         let h := xh_elf_gnu_hash (names i) in
         (h / word_bits) mod bloom_sz self = k -> Z.land w (bloom_mask h) = bloom_mask h;
  gt_bucket : forall b, 0 <= b < bucket_cnt self -> exists f e,
    index32 m (bucket self) b = Ok f
    /\ (symoffset self <= f -> f <= e < n /\ Z.testbit (c e) 0 = true)
    /\ forall i, symoffset self <= i < n ->
         xh_elf_gnu_hash (names i) mod bucket_cnt self = b ->
         symoffset self <= f <= i /\ forall j, f <= j < i -> Z.testbit (c j) 0 = false
}.

Lemma gnu_chain_run names n c symbol : gnu_table names n c -> is_cstring symbol ->
  forall fuel i e, symoffset self <= i <= e -> e < n -> Z.testbit (c e) 0 = true ->
  (Z.to_nat (e - i) < fuel)%nat ->
  exists r, gnu_chain fuel m self symbol (xh_elf_gnu_hash symbol) i = Ok r /\
    match r with
    | Some j => i <= j < n /\ names j = symbol
    | None => exists e', i <= e' /\ Z.testbit (c e') 0 = true /\
                forall j, i <= j <= e' -> names j <> symbol
    end.
Proof.
  intros [Hsz Hcnt Hn Hc _ _] Hs. induction fuel as [|fuel IH]; intros i e Hi He Hend Hf; [lia|].
  cbn [gnu_chain].
  destruct (named_eq i (names i) symbol Hs) as (a & Ha & Heq); [apply Hn; lia|].
  rewrite Ha. cbn [mbind result_bind]. rewrite (wrap_small 32 (i - symoffset self)) by lia.
  destruct (Hc i) as [Hci Hh]; [lia|]. rewrite Hci. cbn [mbind result_bind].
  assert ((if Z.lor (xh_elf_gnu_hash symbol) 1 =? Z.lor (c i) 1 then streq m symbol a else Ok false)
          = Ok (bool_decide (symbol = names i))) as ->.
  { rewrite Heq, Hh. destruct (Z.eqb_spec (Z.lor (xh_elf_gnu_hash symbol) 1)
      (Z.lor (xh_elf_gnu_hash (names i)) 1)) as [|Hne]; [done|].
    rewrite bool_decide_false; [done|]. intros ->. done. }
  cbn [mbind result_bind]. case_bool_decide as E.
  { eexists. split; [reflexivity|]. simpl. split; [lia|done]. }
  destruct (Z.testbit (c i) 0) eqn:Eb.
  { eexists. split; [reflexivity|]. exists i. split_and!; [lia|done|].
    intros j Hj. replace j with i by lia. congruence. }
  assert (i <> e) by congruence. rewrite (wrap_small 32 (i + 1)) by lia.
  destruct (IH (i + 1) e) as (r & -> & Hr); [lia|lia|done|lia|].
  eexists. split; [reflexivity|]. destruct r as [j|]; [split; [lia|apply Hr]|].
  destruct Hr as (e' & He' & Hb & Hno). exists e'. split_and!; [lia|done|].
  intros j Hj. destruct (decide (j = i)) as [-> |]; [congruence|]. apply Hno. lia.
Qed.

Lemma gnu_lookup_def_run names n c symbol fuel :
  gnu_table names n c -> is_cstring symbol -> (Z.to_nat n <= fuel)%nat ->
  exists r, xh_elf_gnu_hash_lookup_def fuel m self symbol = Ok r
    /\ lookup_spec names (symoffset self) n symbol r.
Proof.
  intros Ht Hs Hf. pose proof Ht as [Hsz (Hbc & Hbs & Hsh) _ _ Hbl Hbk].
  unfold xh_elf_gnu_hash_lookup_def, umod. set (h := xh_elf_gnu_hash symbol) in *.
  destruct (Z.eqb_spec (bloom_sz self) 0); [lia|]. cbn [mbind result_bind].
  destruct (Hbl ((h / word_bits) mod bloom_sz self)) as (w & Hw & Hbits).
  { apply Z.mod_pos_bound. lia. }
  rewrite Hw. cbn [mbind result_bind]. destruct (Z.leb_spec 32 (bloom_shift self)); [lia|].
  fold (bloom_mask h). destruct (Z.eqb_spec (Z.land w (bloom_mask h)) (bloom_mask h)) as [Em|Em].
  2:{ eexists. split; [reflexivity|]. intros i Hi Ei. apply Em.
      specialize (Hbits i Hi). rewrite Ei in Hbits. by apply Hbits. }
  cbn [negb]. destruct (Z.eqb_spec (bucket_cnt self) 0); [lia|]. cbn [mbind result_bind].
  destruct (Hbk (h mod bucket_cnt self)) as (f & e & Hfi & Hfe & Hall).
  { apply Z.mod_pos_bound. lia. }
  rewrite Hfi. cbn [mbind result_bind]. destruct (Z.ltb_spec f (symoffset self)) as [Hlt|Hge].
  { eexists. split; [reflexivity|]. intros i Hi Ei. destruct (Hall i Hi); [by rewrite Ei|lia]. }
  destruct (Hfe Hge) as [He Hend]. unfold h.
  destruct (gnu_chain_run names n c symbol Ht Hs fuel f e) as (r & -> & Hr);
    [lia|lia|done|lia|].
  eexists. split; [reflexivity|]. destruct r as [j|]; [simpl; split; [lia|apply Hr]|].
  destruct Hr as (e' & He' & Hb' & Hno). intros i Hi Ei.
  destruct (Hall i Hi) as [Hfi' Hclear]; [by rewrite Ei|].
  destruct (Z.leb_spec i e'); [by apply (Hno i); [lia|]|].
  rewrite Hclear in Hb' by lia. done.
Qed.

Lemma undef_loop_run names symbol : is_cstring symbol ->
  forall k i, (forall j, i <= j < i + Z.of_nat k -> named j (names j)) ->
  exists r, undef_loop k m self symbol i = Ok r
    /\ lookup_spec names i (i + Z.of_nat k) symbol r.
Proof.
  intros Hs. induction k as [|k IH]; intros i Hn; cbn [undef_loop].
  { eexists. split; [reflexivity|]. intros j Hj. lia. }
  destruct (named_eq i (names i) symbol Hs) as (a & Ha & Heq); [apply Hn; lia|].
  rewrite Ha. cbn [mbind result_bind]. rewrite Heq. cbn [mbind result_bind].
  case_bool_decide as E.
  { eexists. split; [reflexivity|]. simpl. split; [lia|done]. }
  destruct (IH (i + 1)) as (r & -> & Hr); [intros j Hj; apply Hn; lia|].
  eexists. split; [reflexivity|]. destruct r as [j|]; simpl in *; [split; [lia|apply Hr]|].
  intros j Hj. destruct (decide (j = i)) as [-> |]; [congruence|]. apply Hr. lia.
Qed.

(** The names of the symbols an image exports or imports, and the table that finds them. *)
Definition symbols (names : Z -> list Z) (lo n : Z) : Prop :=
  if is_use_gnu_hash self then lo = 0 /\ exists c, gnu_table names n c
  else lo = 1 /\ hash_table names n.

Lemma find_symidx_run names lo n symbol fuel :
  symbols names lo n -> is_cstring symbol -> (Z.to_nat n <= fuel)%nat ->
  exists r, xh_elf_find_symidx_by_name fuel m self symbol = Ok r
    /\ lookup_spec names lo n symbol r.
Proof.
  intros Hsym Hs Hf. unfold symbols in Hsym. unfold xh_elf_find_symidx_by_name.
  destruct (is_use_gnu_hash self); [|destruct Hsym as [-> Hsym]; by apply hash_lookup_run].
  destruct Hsym as [-> [c Ht]]. unfold xh_elf_gnu_hash_lookup.
  destruct (gnu_lookup_def_run names n c symbol fuel Ht Hs Hf) as (r & -> & Hr).
  cbn [mbind result_bind]. pose proof Ht as [Hsz _ Hn _ _ _]. destruct r as [i|]; simpl in Hr.
  { eexists. split; [reflexivity|]. simpl. split; [lia|apply Hr]. }
  destruct (undef_loop_run names symbol Hs (Z.to_nat (symoffset self)) 0) as (r & Hru & Hr').
  { intros j Hj. apply Hn. lia. }
  exists r. split; [exact Hru|]. destruct r as [i|]; simpl in *; [split; [lia|apply Hr']|].
  intros i Hi. destruct (Z.ltb_spec i (symoffset self)); [apply Hr'|apply Hr]; lia.
Qed.

(** C2. Symbol lookup.  On an image whose .gnu.hash or .hash section is well formed (buckets,
    chains, end-of-chain bits and Bloom filter agree with the symbol table),
    [xh_elf_find_symidx_by_name] terminates without a fault; it returns an index exactly
    when some symbol has that name, and then the index of such a symbol.  With .gnu.hash
    that includes the undefined symbols below [symoffset], which the table does not hash
    and which are the ones a hook is after. *)
Theorem find_symidx_correct (names : Z -> list Z) (lo n : Z) (symbol : list Z) (fuel : nat) :
  symbols names lo n -> is_cstring symbol -> (Z.to_nat n <= fuel)%nat ->
  exists r, xh_elf_find_symidx_by_name fuel m self symbol = Ok r
    /\ match r with
       | Some i => lo <= i < n /\ names i = symbol
       | None => forall i, lo <= i < n -> names i <> symbol
       end.
Proof. apply find_symidx_run. Qed.
End Facts.
End LookupFacts.

(** * Initialisation *)
Module InitFacts.
Import XhElf.

Section Facts.
Context `{Ar : Arch} `{K : Kernel}.
Variable m : machine.

(** The entries of a dynamic section of at most [n] entries, up to [DT_NULL]. *)
Fixpoint dyn_entries (n : nat) (a : Z) : result (list (Z * Z)) :=
  match n with
  | O => Ok []
  | S n =>
      t ← d_tag m a;
      if t =? DT_NULL then Ok [] else
      v ← d_un m a;
      l ← dyn_entries n (uword (a + sizeof_Dyn));
      Ok ((t, v) :: l)
  end.

Definition has_tag (tags : list Z) (t : Z) : bool := existsb (Z.eqb t) tags.
Arguments has_tag : simpl never.

(** The value of the last entry with one of the tags. *)
Fixpoint dyn_val (tags : list Z) (l : list (Z * Z)) : option Z :=
  match l with
  | [] => None
  | (t, v) :: l =>
      match dyn_val tags l with
      | Some w => Some w
      | None => if has_tag tags t then Some v else None
      end
  end.

(** The address a pointer in the dynamic section stands for. *)
Definition rebase (s : xh_elf) (v : Z) : Z := uword (bias_addr s + v).

(** What the hash fields say, for a .gnu.hash or .hash section at [raw]. *)
Definition gnu_at (s : xh_elf) (raw : Z) : Prop :=
  base_addr s <= raw
  /\ index32 m raw 0 = Ok (bucket_cnt s) /\ index32 m raw 1 = Ok (symoffset s)
  /\ index32 m raw 2 = Ok (bloom_sz s) /\ index32 m raw 3 = Ok (bloom_shift s)
  /\ bloom s = uword (raw + 16) /\ bucket s = uword (bloom s + word_bytes * bloom_sz s)
  /\ chain s = uword (bucket s + 4 * bucket_cnt s).

Definition hash_at (s : xh_elf) (raw : Z) : Prop :=
  base_addr s <= raw
  /\ index32 m raw 0 = Ok (bucket_cnt s) /\ index32 m raw 1 = Ok (chain_cnt s)
  /\ bucket s = uword (raw + 8) /\ chain s = uword (bucket s + 4 * bucket_cnt s).

(** [s'] is [s] with a pointer field set from the last entry with one of the tags. *)
Definition table (f : xh_elf -> Z) (tags : list Z) (l : list (Z * Z)) (s s' : xh_elf) : Prop :=
  match dyn_val tags l with
  | Some v => f s' = rebase s v /\ base_addr s <= f s'
  | None => f s' = f s
  end.

Definition hash_same (s s' : xh_elf) : Prop :=
  bucket_cnt s' = bucket_cnt s /\ chain_cnt s' = chain_cnt s /\ symoffset s' = symoffset s
  /\ bloom_sz s' = bloom_sz s /\ bloom_shift s' = bloom_shift s /\ bloom s' = bloom s
  /\ bucket s' = bucket s /\ chain s' = chain s.

(** The last .gnu.hash entry counts; without one, the last .hash entry. *)
Definition hash_as (l : list (Z * Z)) (s s' : xh_elf) : Prop :=
  match dyn_val [DT_GNU_HASH] l with
  | Some v => gnu_at s' (rebase s v)
  | None =>
      match dyn_val [DT_HASH] l with
      | Some v => if is_use_gnu_hash s then hash_same s s' else hash_at s' (rebase s v)
      | None => hash_same s s'
      end
  end.

(** How a dynamic section with entries [l] turns [s] into [s']. *)
Record parsed_as (l : list (Z * Z)) (s s' : xh_elf) : Prop := {
  pa_same : pathname s' = pathname s /\ base_addr s' = base_addr s
    /\ bias_addr s' = bias_addr s /\ ehdr s' = ehdr s /\ phdr s' = phdr s
    /\ dyn s' = dyn s /\ dyn_sz s' = dyn_sz s;
  pa_strtab : table strtab [DT_STRTAB] l s s';
  pa_symtab : table symtab [DT_SYMTAB] l s s';
  pa_relplt : table relplt [DT_JMPREL] l s s';
  pa_reldyn : table reldyn [DT_REL; DT_RELA] l s s';
  pa_relandroid : table relandroid [DT_ANDROID_REL; DT_ANDROID_RELA] l s s';
  pa_relplt_sz : relplt_sz s' = default (relplt_sz s) (u32 <$> dyn_val [DT_PLTRELSZ] l);
  pa_reldyn_sz : reldyn_sz s' = default (reldyn_sz s) (u32 <$> dyn_val [DT_RELSZ; DT_RELASZ] l);
  pa_relandroid_sz : relandroid_sz s'
    = default (relandroid_sz s) (u32 <$> dyn_val [DT_ANDROID_RELSZ; DT_ANDROID_RELASZ] l);
  pa_rela : is_use_rela s'
    = default (is_use_rela s) ((fun v => v =? DT_RELA) <$> dyn_val [DT_PLTREL] l);
  pa_gnu : is_use_gnu_hash s'
    = is_use_gnu_hash s || bool_decide (is_Some (dyn_val [DT_GNU_HASH] l));
  pa_hash : hash_as l s s'
}.

Lemma parsed_as_nil s : parsed_as [] s s.
Proof.
  split; unfold table, hash_same; simpl; try done; by rewrite orb_false_r.
Qed.

Lemma dyn_val_cons tags t v l :
  dyn_val tags ((t, v) :: l)
  = match dyn_val tags l with
    | Some w => Some w
    | None => if has_tag tags t then Some v else None
    end.
Proof. done. Qed.

Lemma hash_same_trans s s1 s2 : hash_same s s1 -> hash_same s1 s2 -> hash_same s s2.
Proof. unfold hash_same. intuition congruence. Qed.

Lemma gnu_at_same s1 s2 raw : base_addr s2 = base_addr s1 -> hash_same s1 s2 ->
  gnu_at s1 raw -> gnu_at s2 raw.
Proof.
  unfold gnu_at, hash_same. intros -> (Hp & E2 & E3 & E4 & E5 & E6 & E7 & E8).
  rewrite ?Hp, ?E2, ?E3, ?E4, ?E5, ?E6, ?E7, ?E8. done.
Qed.

Lemma hash_at_same s1 s2 raw : base_addr s2 = base_addr s1 -> hash_same s1 s2 ->
  hash_at s1 raw -> hash_at s2 raw.
Proof.
  unfold hash_at, hash_same. intros -> (Hp & E2 & E3 & E4 & E5 & E6 & E7 & E8).
  rewrite ?Hp, ?E2, ?E3, ?E4, ?E5, ?E6, ?E7, ?E8. done.
Qed.

Lemma hash_as_cons t v l s s1 s2 :
  bias_addr s1 = bias_addr s -> base_addr s2 = base_addr s1 ->
  is_use_gnu_hash s1
    = is_use_gnu_hash s || bool_decide (is_Some (dyn_val [DT_GNU_HASH] [(t, v)])) ->
  hash_as [(t, v)] s s1 -> hash_as l s1 s2 -> hash_as ((t, v) :: l) s s2.
Proof.
  intros Hbias Hbase Hg. unfold hash_as, rebase. rewrite Hbias, !dyn_val_cons.
  cbn [dyn_val] in *. destruct (dyn_val [DT_GNU_HASH] l); [done|].
  destruct (has_tag [DT_GNU_HASH] t).
  { rewrite orb_true_r in Hg. rewrite Hg. intros H1 H2. apply (gnu_at_same s1); [done| |done].
    by destruct (dyn_val [DT_HASH] l). }
  rewrite orb_false_r in Hg. rewrite Hg.
  destruct (dyn_val [DT_HASH] l), (has_tag [DT_HASH] t), (is_use_gnu_hash s);
    eauto using hash_same_trans, hash_at_same.
Qed.

Lemma parsed_as_cons t v l s s1 s2 :
  parsed_as [(t, v)] s s1 -> parsed_as l s1 s2 -> parsed_as ((t, v) :: l) s s2.
Proof.
  intros [(A1 & A2 & A3 & A4 & A5 & A6 & A7) B1 B2 B3 B4 B5 B6 B7 B8 B9 B10 B11]
         [(C1 & C2 & C3 & C4 & C5 & C6 & C7) D1 D2 D3 D4 D5 D6 D7 D8 D9 D10 D11].
  split; [split_and!; congruence| | | | | | | | | | |by eapply hash_as_cons].
  all: clear B11 D11; unfold table, rebase in *; rewrite ?dyn_val_cons; cbn [dyn_val] in *;
    rewrite ?A2, ?A3 in *.
  all: repeat match goal with
       | |- context [dyn_val ?tags ?k] => destruct (dyn_val tags k) eqn:?; simpl in *
       | |- context [has_tag ?f ?x] => destruct (has_tag f x) eqn:?; simpl in *
       end.
  all: try congruence; try (intuition congruence).
  all: rewrite D10, B10, ?orb_true_r, ?orb_false_r; done.
Qed.

(** One entry of the dynamic section. *)
Lemma set_table_entry (f : xh_elf -> Z) set s v s1 : (forall a s, f (set a s) = a) ->
  (forall a s, base_addr (set a s) = base_addr s) ->
  set_table set s v = (0, s1) -> s1 = set (rebase s v) s /\ base_addr s <= rebase s v.
Proof.
  intros Hf Hb. unfold set_table, rebase. rewrite Hb.
  destruct (Z.ltb_spec (uword (bias_addr s + v)) (base_addr s)); [done|]. by intros [= <-].
Qed.

Ltac tag_is t c :=
  let E := fresh "E" in destruct (Z.eqb_spec t c) as [E|E]; [subst t|]; cbn [orb].

Ltac one_table f :=
  let H := fresh "H" in
  intros H; apply Ok_inj in H; apply (set_table_entry f) in H as [-> ?]; [|done|done];
  split; unfold table, hash_as, hash_same; cbn; rewrite ?orb_false_r; try done.

Ltac one_value :=
  intros [= <-]; split; unfold table, hash_as, hash_same; cbn; rewrite ?orb_false_r; done.

Lemma parse_dyn_entry s t v s1 : parse_dyn m s t v = Ok (0, s1) -> parsed_as [(t, v)] s s1.
Proof.
  unfold parse_dyn.
  tag_is t DT_STRTAB; [one_table strtab|].
  tag_is t DT_SYMTAB; [one_table symtab|].
  tag_is t DT_PLTREL; [one_value|].
  tag_is t DT_JMPREL; [one_table relplt|].
  tag_is t DT_PLTRELSZ; [one_value|].
  tag_is t DT_REL; [one_table reldyn|]. tag_is t DT_RELA; [one_table reldyn|].
  tag_is t DT_RELSZ; [one_value|]. tag_is t DT_RELASZ; [one_value|].
  tag_is t DT_ANDROID_REL; [one_table relandroid|].
  tag_is t DT_ANDROID_RELA; [one_table relandroid|].
  tag_is t DT_ANDROID_RELSZ; [one_value|]. tag_is t DT_ANDROID_RELASZ; [one_value|].
  tag_is t DT_HASH.
  { destruct (is_use_gnu_hash s) eqn:Eg;
      [intros [= <-]; split; unfold table, hash_as, hash_same; cbn; rewrite ?Eg; done|].
    destruct (Z.ltb_spec (uword (bias_addr s + v)) (base_addr s)); [done|].
    intros Hp. apply result_bind_Ok in Hp as (nb & H0 & Hp).
    apply result_bind_Ok in Hp as (nc & H1 & Hp). injection Hp as <-.
    split; unfold table, hash_as, hash_at; cbn; rewrite ?Eg, ?orb_false_r; try done. }
  tag_is t DT_GNU_HASH.
  { destruct (Z.ltb_spec (uword (bias_addr s + v)) (base_addr s)); [done|].
    intros Hp. apply result_bind_Ok in Hp as (nb & H0 & Hp).
    apply result_bind_Ok in Hp as (so & H1 & Hp). apply result_bind_Ok in Hp as (bs & H2 & Hp).
    apply result_bind_Ok in Hp as (sh & H3 & Hp). injection Hp as <-.
    split; unfold table, hash_as, gnu_at; cbn; rewrite ?orb_true_r; done. }
  intros Hp. apply Ok_inj in Hp. injection Hp as <-.
  split; unfold table, hash_as, hash_same; cbn [dyn_val]; unfold has_tag; cbn [existsb];
    rewrite ?(proj2 (Z.eqb_neq t _)) by done; simpl; try done; by rewrite orb_false_r.
Qed.

Lemma dyn_loop_parsed n : forall s a s', dyn_loop n m s a = Ok (0, s') ->
  exists l, dyn_entries n a = Ok l /\ parsed_as l s s'.
Proof.
  induction n as [|n IH]; intros s a s'; cbn [dyn_loop dyn_entries].
  { intros [= <-]. exists []. split; [done|apply parsed_as_nil]. }
  intros H. apply result_bind_Ok in H as (t & Ht & H). rewrite Ht. cbn [mbind result_bind].
  destruct (t =? DT_NULL).
  { injection H as <-. exists []. split; [done|apply parsed_as_nil]. }
  apply result_bind_Ok in H as (v & Hv & H). rewrite Hv. cbn [mbind result_bind].
  apply result_bind_Ok in H as ([r s1] & Hp & H). destruct (Z.eqb_spec r 0) as [-> | Hr]; cbn [negb] in H.
  2:{ by injection H as -> _. }
  destruct (IH _ _ _ H) as (l & El & Hl). exists ((t, v) :: l). rewrite El. split; [done|].
  eapply parsed_as_cons; [by apply parse_dyn_entry|done].
Qed.

(** The packed section, with its magic, which is not part of what the iterator gets. *)
Definition android_as (l : list (Z * Z)) (s : xh_elf) : Prop :=
  let sz := default 0 (u32 <$> dyn_val [DT_ANDROID_RELSZ; DT_ANDROID_RELASZ] l) in
  match dyn_val [DT_ANDROID_REL; DT_ANDROID_RELA] l with
  | Some v =>
      (rebase s v = 0 /\ relandroid s = 0)
      \/ (relandroid s = uword (rebase s v + 4) /\ relandroid_sz s = sz - 4 /\ 4 <= sz)
  | None => relandroid s = 0
  end.

(** [s'] differs from [s] in the fields of the packed section only. *)
Definition but_android (s s' : xh_elf) : Prop :=
  s' = set_relandroid (relandroid s') (set_relandroid_sz (relandroid_sz s') s).

Lemma check_android_spec s s' : check_android m s = Ok (Some s') ->
  but_android s s'
  /\ ((relandroid s = 0 /\ s' = s)
      \/ (relandroid s <> 0 /\ 4 <= relandroid_sz s /\ relandroid s' = uword (relandroid s + 4)
          /\ relandroid_sz s' = relandroid_sz s - 4)).
Proof.
  unfold check_android, but_android. destruct (Z.eqb_spec (relandroid s) 0) as [E|E].
  { intros [= <-]. split; [by destruct s|by left]. }
  destruct (Z.ltb_spec (relandroid_sz s) 4); [done|].
  intros Hc. apply result_bind_Ok in Hc as ([] & _ & Hc); [|done]. injection Hc as <-.
  split; [done|]. right. split_and!; done.
Qed.

(** A pointer field of the result, for a table the image may lack. *)
Definition optional (f : xh_elf -> Z) (tags : list Z) (l : list (Z * Z)) (s : xh_elf) : Prop :=
  match dyn_val tags l with
  | Some v => f s = rebase s v /\ base_addr s <= f s
  | None => f s = 0
  end.

(** ... and for one it must have. *)
Definition mandatory (f : xh_elf -> Z) (tag : Z) (l : list (Z * Z)) (s : xh_elf) : Prop :=
  exists v, dyn_val [tag] l = Some v /\ f s = rebase s v /\ base_addr s <= f s /\ f s <> 0.

(** What a successful initialisation leaves, in terms of the dynamic section's entries. *)
Record initialised (l : list (Z * Z)) (bias phdrs : Z) (path : option (list Z)) (s : xh_elf) : Prop := {
  in_self : pathname s = path /\ bias_addr s = bias /\ phdr s = phdrs /\ ehdr s = base_addr s
    /\ bias <> 0 /\ phdrs <> 0 /\ base_addr s <> 0;
  in_strtab : mandatory strtab DT_STRTAB l s;
  in_symtab : mandatory symtab DT_SYMTAB l s;
  in_relplt : optional relplt [DT_JMPREL] l s;
  in_relplt_sz : relplt_sz s = default 0 (u32 <$> dyn_val [DT_PLTRELSZ] l);
  in_reldyn : optional reldyn [DT_REL; DT_RELA] l s;
  in_reldyn_sz : reldyn_sz s = default 0 (u32 <$> dyn_val [DT_RELSZ; DT_RELASZ] l);
  in_android : android_as l s;
  in_rela : is_use_rela s = bool_decide (dyn_val [DT_PLTREL] l = Some DT_RELA);
  in_gnu : is_use_gnu_hash s = bool_decide (is_Some (dyn_val [DT_GNU_HASH] l));
  in_hash :
    match dyn_val [DT_GNU_HASH] l with
    | Some v => gnu_at s (rebase s v)
    | None => exists v, dyn_val [DT_HASH] l = Some v /\ hash_at s (rebase s v)
    end
}.

Lemma check_ok s : xh_elf_check s = 0 ->
  base_addr s <> 0 /\ bias_addr s <> 0 /\ phdr s <> 0 /\ strtab s <> 0 /\ symtab s <> 0
  /\ bucket s <> 0.
Proof.
  unfold xh_elf_check.
  destruct (Z.eqb_spec (base_addr s) 0); [done|]. destruct (Z.eqb_spec (bias_addr s) 0); [done|].
  destruct (Z.eqb_spec (ehdr s) 0); [done|]. destruct (Z.eqb_spec (phdr s) 0); [done|].
  destruct (Z.eqb_spec (strtab s) 0); [done|]. destruct (Z.eqb_spec (symtab s) 0); [done|].
  destruct (Z.eqb_spec (bucket s) 0); [done|]. done.
Qed.

(** Parsing from a zeroed structure that passes the final checks. *)
Lemma parsed_initialised l s1 s2 s3 : parsed_as l s1 s2 ->
  s1 = set_dyn_sz (dyn_sz s1) (set_dyn (dyn s1) (set_ehdr (base_addr s1)
         (set_base_addr (base_addr s1) (set_phdr (phdr s1)
         (set_bias_addr (bias_addr s1) (set_pathname (pathname s1) zero_elf)))))) ->
  check_android m s2 = Ok (Some s3) -> xh_elf_check s3 = 0 ->
  initialised l (bias_addr s1) (phdr s1) (pathname s1) s3
  /\ dyn s3 = dyn s1 /\ dyn_sz s3 = dyn_sz s1.
Proof.
  intros [(A1 & A2 & A3 & A4 & A5 & A6 & A7) B1 B2 B3 B4 B5 B6 B7 B8 B9 B10 B11] Hz Ha Hc.
  apply check_android_spec in Ha as [Hbut Ha].
  apply check_ok in Hc as (C1 & C2 & C3 & C4 & C5 & C6).
  unfold but_android, table, rebase, hash_as, gnu_at, hash_at, hash_same in *.
  destruct s1, s2, s3. cbn in Hz, Hbut. injection Hz. clear Hz. injection Hbut. clear Hbut.
  cbn in *. intros. subst.
  split; [|done]. split; unfold mandatory, optional, android_as, rebase, gnu_at, hash_at; cbn.
  - split_and!; done.
  - destruct (dyn_val [DT_STRTAB] l) as [v|]; [exists v; intuition congruence|done].
  - destruct (dyn_val [DT_SYMTAB] l) as [v|]; [exists v; intuition congruence|done].
  - done.
  - done.
  - done.
  - done.
  - destruct (dyn_val [DT_ANDROID_REL; DT_ANDROID_RELA] l) as [v|];
      destruct Ha as [[H1 H2]|(H1 & H2 & H3 & H4)]; [|right|congruence|congruence].
    + left. injection H2 as -> ->. split; [|done]. destruct B5. congruence.
    + destruct B5 as [-> _]. done.
  - destruct (dyn_val [DT_PLTREL] l) as [v|]; simpl; [|done].
    destruct (Z.eqb_spec v DT_RELA) as [-> | Hne]; [done|].
    by rewrite bool_decide_false by congruence.
  - done.
  - destruct (dyn_val [DT_GNU_HASH] l); [done|].
    destruct (dyn_val [DT_HASH] l) as [v|]; [by exists v|]. intuition congruence.
Qed.

Lemma init_spec (self : xh_elf) (bias phdrs phdr_count : Z)
    (path : option (list Z)) (s : xh_elf) :
  xh_elf_init m self bias phdrs phdr_count path = Ok (0, s) ->
  exists l, dyn_entries (Z.to_nat (dyn_sz s / sizeof_Dyn)) (dyn s) = Ok l
    /\ initialised l bias phdrs path s.
Proof.
  unfold xh_elf_init. destruct (_ || _) eqn:Einv; [done|]. intros H.
  apply result_bind_Ok in H as ([phdr0|] & _ & H); [|done].
  apply result_bind_Ok in H as (vaddr & _ & H). case_match; [done|].
  apply result_bind_Ok in H as ([dhdr|] & _ & H); [|done].
  apply result_bind_Ok in H as (dvaddr & _ & H). apply result_bind_Ok in H as (memsz & _ & H).
  apply result_bind_Ok in H as ([r s2] & Hdyn & H).
  destruct (Z.eqb_spec r 0) as [-> | Hr]; cbn [negb] in H; [|by injection H as -> _].
  apply dyn_loop_parsed in Hdyn as (l & El & Hl).
  apply result_bind_Ok in H as ([s3|] & Ha & H); [|done].
  destruct (Z.eqb_spec (xh_elf_check s3) 0) as [Hc|]; cbn [negb] in H; [|done].
  injection H as <-.
  destruct (parsed_initialised l _ s2 s3 Hl eq_refl Ha Hc) as (Hin & -> & ->).
  exists l. split; [exact El|exact Hin].
Qed.

End Facts.
End InitFacts.

(** * A small library in memory, for examples

    An arm64 image of two pages at 0x10000: headers, dynamic section, the symbols "open"
    (imported) and "foo" (exported, so hashed in .gnu.hash), .rela.plt with one JUMP_SLOT and
    .rela.dyn with one GLOB_DAT entry for "open", and the two slots in the second page. *)
Module DemoImage.
Import XhElf HashFacts LookupFacts InitFacts.

Definition base : Z := 0x10000.

Definition dyn_entry (tag val : Z) : list Z := (le_bytes 8 tag ++ le_bytes 8 val)%list.
Definition rela_entry (off sym type : Z) : list Z :=
  (le_bytes 8 off ++ le_bytes 8 (Z.lor (Z.shiftl sym 32) type) ++ le_bytes 8 0)%list.
Definition sym_entry (name : Z) : list Z := (le_bytes 4 name ++ replicate 20 0)%list.
Definition phdr_entry (type vaddr memsz : Z) : list Z :=
  (le_bytes 8 type ++ le_bytes 8 vaddr ++ le_bytes 8 vaddr ++ le_bytes 8 vaddr
   ++ le_bytes 8 memsz ++ le_bytes 8 memsz ++ le_bytes 8 0x1000)%list.

Definition foo_hash : Z := xh_elf_gnu_hash (bytes_of "foo").

Definition parts : list (Z * list Z) :=
  [ (0, ELFMAG ++ [ELFCLASS64; ELFDATA2LSB; EV_CURRENT; 0]);
    (32, le_bytes 8 64);
    (16, le_bytes 2 ET_DYN ++ le_bytes 2 183 ++ le_bytes 4 EV_CURRENT);
    (40, le_bytes 8 0x80);
    (56, le_bytes 2 2 ++ le_bytes 2 64 ++ le_bytes 2 3 ++ le_bytes 2 0);
    (64, phdr_entry PT_LOAD 0 0x2000 ++ phdr_entry PT_DYNAMIC 0x200 0x90);
    (0x200, dyn_entry DT_STRTAB 0x400 ++ dyn_entry DT_SYMTAB 0x300
            ++ dyn_entry DT_PLTREL DT_RELA ++ dyn_entry DT_JMPREL 0x500
            ++ dyn_entry DT_PLTRELSZ 24 ++ dyn_entry DT_RELA 0x520
            ++ dyn_entry DT_RELASZ 24 ++ dyn_entry DT_GNU_HASH 0x600 ++ dyn_entry DT_NULL 0);
    (0x300, sym_entry 0 ++ sym_entry 1 ++ sym_entry 6);
    (0x400, [0] ++ bytes_of "open" ++ [0] ++ bytes_of "foo" ++ [0]);
    (0x500, rela_entry 0x1008 1 1026);
    (0x520, rela_entry 0x1010 1 1025);
    (0x600, le_bytes 4 1 ++ le_bytes 4 2 ++ le_bytes 4 1 ++ le_bytes 4 6
            ++ le_bytes 8 (Z.lor (Z.shiftl 1 (foo_hash mod 64))
                             (Z.shiftl 1 (Z.shiftr foo_hash 6 mod 64)))
            ++ le_bytes 4 2 ++ le_bytes 4 (Z.lor foo_hash 1));
    (0x1008, le_bytes 8 0x7f1234);
    (0x1010, le_bytes 8 0x7f1234) ]%list.

Definition memory : gmap Z Z :=
  foldr (fun '(a, bs) g => put_bytes (Ar := arch_aarch64) g (base + a) bs) ∅ parts.

(** The page of the slots is read-only (RELRO); the caller's variable is at 0x20000. *)
Definition maps_text : list Z :=
  (bytes_of "10000-11000 r-xp 00000000 fd:02 1234    /lib/libdemo.so" ++ [10]
   ++ bytes_of "11000-12000 r--p 00001000 fd:02 1234    /lib/libdemo.so" ++ [10])%list.

Definition demo_kernel : Kernel := permissive_kernel (Some maps_text).

Definition demo : machine :=
  MkMachine memory (<[0x10 := 5]> (<[0x11 := 1]> (<[0x20 := 3]> ∅))).

Definition elf : xh_elf :=
  MkElf (Some (bytes_of "/lib/libdemo.so")) base base base (base + 64) (base + 0x200) 0x90
    (base + 0x400) (base + 0x300) (base + 0x500) 24 (base + 0x520) 24 0 0
    (base + 0x618) 1 (base + 0x61c) 0 2 (base + 0x610) 1 6 true true.

(** Initialising the structure from this image finds all of it. *)
Example demo_init :
  xh_elf_init (Ar := arch_aarch64) (K := demo_kernel) demo zero_elf base (base + 64) 2
    (Some (bytes_of "/lib/libdemo.so")) = Ok (0, elf).
Proof. vm_compute. reflexivity. Qed.


Example demo_header :
  xh_elf_check_elfheader (Ar := arch_aarch64) (K := demo_kernel) demo base = Ok 0.
Proof. vm_compute. reflexivity. Qed.

Definition names (i : Z) : list Z :=
  if i =? 1 then bytes_of "open" else if i =? 2 then bytes_of "foo" else [].

Lemma demo_symbols :
  symbols (Ar := arch_aarch64) (K := demo_kernel) demo elf names 0 3.
Proof.
  simpl. split; [done|]. exists (fun _ => Z.lor foo_hash 1). split.
  - simpl. lia.
  - simpl. lia.
  - intros i Hi. assert (i = 0 \/ i = 1 \/ i = 2) as [-> |[-> | ->]] by lia;
      eexists; (split; [vm_compute; reflexivity|]); vm_compute; repeat split; discriminate.
  - simpl. intros i Hi. replace i with 2 by lia. split; vm_compute; reflexivity.
  - simpl. intros k Hk. replace k with 0 by lia. eexists. split; [vm_compute; reflexivity|].
    intros i Hi _. replace i with 2 by lia. vm_compute. reflexivity.
  - simpl. intros b Hb. replace b with 0 by lia. exists 2, 2. split; [vm_compute; reflexivity|].
    split; [intros _; split; [lia|vm_compute; reflexivity]|].
    intros i Hi _. replace i with 2 by lia. split; [lia|]. intros j Hj. lia.
Qed.

(** Looking up the imported symbol, the exported one, and one that is not there. *)
Lemma find_symidx_correct_witness :
  let find s := xh_elf_find_symidx_by_name (Ar := arch_aarch64) (K := demo_kernel) 3 demo elf
                  (bytes_of s) in
  (exists i, find "open" = Ok (Some i)) /\ (exists i, find "foo" = Ok (Some i))
  /\ find "close" = Ok None.
Proof.
  pose proof (fun s H => find_symidx_correct (Ar := arch_aarch64) (K := demo_kernel) demo elf
                names 0 3 s 3 demo_symbols H (le_n 3)) as Hfind.
  split_and!.
  - destruct (Hfind (bytes_of "open")) as ([i|] & E & Hr); [decide_now| |].
    + exists i. exact E.
    + clear E. destruct (Hr 1); [lia|reflexivity].
  - destruct (Hfind (bytes_of "foo")) as ([i|] & E & Hr); [decide_now| |].
    + exists i. exact E.
    + clear E. destruct (Hr 2); [lia|reflexivity].
  - destruct (Hfind (bytes_of "close")) as ([i|] & E & Hr); [decide_now| |exact E].
    clear E. exfalso. destruct Hr as [Hi E]. unfold names in E.
    destruct (i =? 1), (i =? 2); discriminate E.
Defined.
End DemoImage.
