(* ===== verification/XhHook.v ===== *)
(** What hooking a function does to a process (libxhook, xh_elf.c).

    [IterFacts]: the relocation iterators only depend on the bytes of their section, so that
    a loop that writes to slots elsewhere still visits the entries that were there at its
    start.  [SlotFacts]: the effect of [xh_elf_replace_function] on one slot.  [HookFacts]:
    the loops of [xh_elf_hook], and the theorem about the whole function. *)
From S2P Require Import Prelude Arch Machine Elf Libc XhMaps XhUtil Reloc XhElf.

Module IterFacts.
Import Reloc XhElf.

Section Facts.
Context `{Ar : Arch} `{K : Kernel}.
Variables (m m' : machine).

(** ** Packed sections *)
Section Packed.
Variables (lo hi : Z).
Hypothesis Hagree : agree (fun b => lo <= b < hi) m m'.
Hypothesis Hlo : 0 <= lo.
Hypothesis Hhi : hi < 2 ^ word_bits.

(** The decoder is somewhere in the section. *)
Definition within (d : sleb128_decoder) : Prop := lo <= sl_cur d /\ sl_end d = hi.

Lemma sleb128_loop_agree fuel : forall d v s, within d ->
  sleb128_loop fuel m' d v s = sleb128_loop fuel m d v s
  /\ forall r d', sleb128_loop fuel m d v s = Ok (r, d') -> within d'.
Proof.
  induction fuel as [|fuel IH]; intros [c e] v s [Hc He]; simpl in Hc, He; subst e; [done|].
  cbn [sleb128_loop sl_cur sl_end]. destruct (Z.leb_spec hi c).
  { split; [done|]. intros r d' [= <- <-]. by split. }
  rewrite (Hagree c) by lia. destruct (load8 m c) as [b| | | |]; try done.
  cbn [mbind result_bind]. destruct (word_bits <=? s); [done|].
  rewrite (uword_small (c + 1)) by lia.
  assert (within (MkSleb (c + 1) hi)) by (split; simpl; lia).
  destruct (Z.testbit b 7); [by apply IH|]. split; [done|]. by intros r d' [= <- <-].
Qed.

Lemma decoder_next_agree d : within d ->
  sleb128_decoder_next m' d = sleb128_decoder_next m d
  /\ forall r d', sleb128_decoder_next m d = Ok (r, d') -> within d'.
Proof.
  intros Hd. unfold sleb128_decoder_next.
  destruct (sleb128_loop_agree sleb128_fuel d 0 0 Hd) as [-> Hw]. split; [done|].
  intros r d'. destruct (sleb128_loop _ m d 0 0) as [[[[[b v] s]|] d1]| | | |]; try done;
    cbn [mbind result_bind]; intros [= <- <-]; by eapply Hw.
Qed.

(** A step of the iterator: the same on both machines, and it stays in the section. *)
Definition same_step {A} (f : machine -> result (A * packed_reloc_iterator)) : Prop :=
  f m' = f m /\ forall r it, f m = Ok (r, it) -> within (decoder it).

Lemma same_step_ret {A} (r : A) it : within (decoder it) -> same_step (fun _ => Ok (r, it)).
Proof. intros H. split; [done|]. by intros ? ? [= <- <-]. Qed.

Lemma same_step_if {A} (b : bool) (f g : machine -> result (A * packed_reloc_iterator)) :
  same_step f -> same_step g -> same_step (fun m => if b then f m else g m).
Proof. by destruct b. Qed.

Lemma next_value_agree it (k : machine -> Z -> packed_reloc_iterator -> _) :
  within (decoder it) ->
  (forall v it, within (decoder it) -> same_step (fun m => k m v it)) ->
  same_step (fun m => next_value m it (k m)).
Proof.
  intros Hw Hk. unfold same_step, next_value.
  destruct (decoder_next_agree (decoder it) Hw) as [-> Hd].
  destruct (sleb128_decoder_next m (decoder it)) as [[[v|] d]| | | |]; try done;
    cbn [mbind result_bind].
  - apply (Hk v (set_decoder it d)). simpl. by eapply Hd.
  - split; [done|]. intros r i [= <- <-]. simpl. by eapply Hd.
Qed.

Lemma read_group_agree it : within (decoder it) ->
  same_step (fun m => packed_reloc_iterator_read_group_fields m it).
Proof.
  intros Hw. unfold packed_reloc_iterator_read_group_fields.
  repeat first
    [ apply next_value_agree; [done|intros ? ? ?]
    | apply same_step_if
    | apply same_step_ret; simpl; try done; case_match; done ].
Qed.

Lemma packed_entry_agree it : within (decoder it) -> same_step (fun m => packed_entry m it).
Proof.
  intros Hw. unfold packed_entry.
  repeat first
    [ apply next_value_agree; [done|intros ? ? ?]
    | apply same_step_if
    | apply same_step_ret; done ].
Qed.

Lemma packed_next_agree it : within (decoder it) ->
  same_step (fun m => packed_reloc_iterator_next m it).
Proof.
  intros Hw. unfold packed_reloc_iterator_next.
  apply same_step_if; [by apply same_step_ret|].
  assert (same_step (fun m => if relocation_group_index it =? group_size it
    then packed_reloc_iterator_read_group_fields m it else Ok (Some tt, it))) as [E1 H1].
  { apply same_step_if; [by apply read_group_agree|by apply same_step_ret]. }
  unfold same_step. rewrite E1. clear E1.
  destruct (if relocation_group_index it =? group_size it then _ else _)
    as [[[u|] it1]| | | |]; try done; cbn [mbind result_bind];
    specialize (H1 _ _ eq_refl).
  2:{ split; [done|]. by intros r i [= <- <-]. }
  destruct (packed_entry_agree it1 H1) as [-> H2].
  destruct (packed_entry m it1) as [[[u'|] it2]| | | |]; try done; cbn [mbind result_bind];
    (split; [done|]); intros r i [= <- <-]; exact (H2 _ _ eq_refl).
Qed.
End Packed.

(** Initialisation reads the section as well. *)
Lemma packed_init_agree rel sz rela :
  0 <= rel -> 0 <= sz -> rel + sz < 2 ^ word_bits ->
  agree (fun b => rel <= b < rel + sz) m m' ->
  same_step rel (rel + sz) (fun m => packed_reloc_iterator_init m rel sz rela).
Proof.
  intros Hrel Hsz Hend Hag. unfold packed_reloc_iterator_init.
  assert (within rel (rel + sz) (sleb128_decoder_init rel sz)) as Hw.
  { split; simpl; [lia|]. apply uword_small. lia. }
  repeat first
    [ apply next_value_agree; [done|lia|lia|done|intros ? ? ?]
    | apply same_step_ret; done ].
Qed.

(** ** Plain sections *)

Definition entry_size (rela : bool) : Z := if rela then sizeof_Rela else sizeof_Rel.

Lemma entry_size_words rela : 2 * word_bytes <= entry_size rela.
Proof.
  unfold entry_size, sizeof_Rela, sizeof_Rel, at_, is_lp64.
  destruct word_bytes_cases as [[-> ->]|[-> ->]]; destruct rela; simpl; lia.
Qed.

Lemma plain_entry_agree a : fits a (2 * word_bytes) ->
  agree (inside a (2 * word_bytes)) m m' ->
  plain_entry m' a = plain_entry m a.
Proof.
  intros [H0 Hf] Hag. unfold plain_entry, r_info_field, r_offset_field, fieldW, at_, is_lp64.
  assert (forall o, 0 <= o <= word_bytes -> loadW m' (uword (a + o)) = loadW m (uword (a + o))) as H.
  { intros o Ho. pose proof word_bytes_pos. rewrite uword_small by lia. unfold loadW, load.
    rewrite (load_bytes_agree (inside a (2 * word_bytes)) m m'); [done| |done|].
    - unfold fits. lia.
    - unfold inside. intros b Hb. lia. }
  destruct word_bytes_cases as [[Ew Eb]|[Ew Eb]]; rewrite Ew;
    cbn [Z.eqb Pos.eqb]; rewrite !H by lia; done.
Qed.
End Facts.
End IterFacts.

Module SlotFacts.
Import XhMaps XhMapsFacts XhUtil XhUtilFacts XhElf.

Section Facts.
Context `{Ar : Arch} `{K : Kernel}.

(** The cache of mappings is consistent, no allocation fails, and an iteration over the
    mappings sees [its]. *)
Record ready (its : list maps_item) (p : process) : Prop := {
  rd_ok : maps_ok (maps p);
  rd_mem : mem_ok p;
  rd_sees : sees p its
}.

(** A slot that can be hooked: inside one page of a readable private mapping whose
    permissions in the list of mappings are those of the page. *)
Record slot_ok (its : list maps_item) (m : machine) (addr : Z) : Prop := {
  so_page : in_page addr;
  so_kernel : may_protect addr;
  so_map : exists it, it ∈ its /\ covers addr (addr + word_bytes) it
    /\ prot m !! page_of addr = Some (prot_of it) /\ perm_is it 0 114 = true
}.

(** The variable for the old function: absent, or writable. *)
Definition cell_ok (m : machine) (old : Z) : Prop :=
  old = 0 \/ (fits old word_bytes /\ forall b, inside old word_bytes b -> can PROT_WRITE m b = true).

(** Memory after a slot was replaced. *)
Definition save (g : gmap Z Z) (old v : Z) : gmap Z Z :=
  if old =? 0 then g else put_word g old v.

Definition replaced (new old : Z) (g : gmap Z Z) (addr : Z) : gmap Z Z :=
  if word_at g addr =? new then g else put_word (save g old (word_at g addr)) addr new.

Definition RW : Z := Z.lor PROT_READ PROT_WRITE.

Lemma prot_of_read it : perm_is it 0 114 = true -> Z.land (prot_of it) PROT_READ <> 0.
Proof.
  intros H. unfold prot_of. rewrite H.
  by destruct (perm_is it 1 119), (perm_is it 2 120).
Qed.

(** Where the page of [addr] is mapped, [protect] decides what can be done in it. *)
Lemma can_protected bit m addr pr q b : in_page addr -> inside addr word_bytes b ->
  prot m !! page_of addr = Some q -> Z.land pr bit <> 0 ->
  can bit (protect m addr pr) b = true.
Proof.
  intros Hp Hb Hq Hr. pose proof (in_page_inside addr b Hp Hb) as E.
  rewrite can_protect, decide_True, E, Hq by done. by destruct (Z.eqb_spec (Z.land pr bit) 0).
Qed.

Lemma can_slot bit m addr pr b : in_page addr -> inside addr word_bytes b ->
  prot m !! page_of addr = Some pr -> Z.land pr bit <> 0 -> can bit m b = true.
Proof.
  intros Hp Hb Hq Hr. unfold can. rewrite (in_page_inside addr b Hp Hb), Hq.
  by destruct (Z.eqb_spec (Z.land pr bit) 0).
Qed.

Lemma cell_protected m addr old : cell_ok m old -> cell_ok (protect m addr RW) old.
Proof.
  intros [-> | [Hf Hw]]; [by left|right]. split; [done|]. intros b Hb.
  specialize (Hw b Hb). rewrite can_protect. case_decide; [|done].
  unfold can in Hw. by destruct (prot m !! page_of b).
Qed.

(** Saving the old function. *)
Lemma save_run p old v : cell_ok (mach p) old ->
  (if old =? 0 then mret tt else on_mach (storeW old v) : M process unit) p
  = (Ok tt, set_mach (set_mem (mach p) (save (mem (mach p)) old v)) p).
Proof.
  intros Hc. unfold save. destruct (Z.eqb_spec old 0) as [-> | Hne].
  - destruct p as [[g t] s l]. done.
  - destruct Hc as [|[Hf Hw]]; [done|]. unfold on_mach, lift. by rewrite storeW_run.
Qed.

Lemma write_run p addr new : in_page addr -> vm_writev_allowed (mach p) = true ->
  (forall b, inside addr word_bytes b -> can PROT_WRITE (mach p) b = true) ->
  xh_util_write_memory_safely addr (le_bytes (Z.to_nat word_bytes) new) p
  = (Ok word_bytes, set_mach (set_mem (mach p) (put_word (mem (mach p)) addr new)) p).
Proof.
  intros [Hf _] Hv Hw. unfold xh_util_write_memory_safely, on_mach, lift, process_vm_writev.
  pose proof word_bytes_pos. rewrite length_le_bytes, Hv.
  assert (can_range PROT_WRITE (mach p) addr (Z.to_nat word_bytes) = true) as ->.
  { apply can_range_inside; rewrite Z2Nat.id by lia; done. }
  simpl. by rewrite Z2Nat.id by lia.
Qed.

Lemma loadW_run p a : fits a word_bytes ->
  (forall b, inside a word_bytes b -> can PROT_READ (mach p) b = true) ->
  (reads (fun p => loadW (mach p) a) : M process Z) p = (Ok (word_at (mem (mach p)) a), p).
Proof. intros Hf Hr. unfold reads. by rewrite loadW_word. Qed.

(** ** Failure *)

(** Memory outside of the variable for the old function. *)
Definition frame (old : Z) (g g' : gmap Z Z) : Prop :=
  forall b, ~ (old <> 0 /\ inside old word_bytes b) -> g' !! b = g !! b.

Lemma save_frame p old v : old = 0 \/ fits old word_bytes ->
  let '(r, p') := (if old =? 0 then mret tt else on_mach (storeW old v) : M process unit) p in
  frame old (mem (mach p)) (mem (mach p')).
Proof.
  intros Hold. destruct (Z.eqb_spec old 0) as [-> | Hne]; [by intros b _|].
  unfold on_mach, lift, storeW. destruct (can_range _ _ _ _); intros b Hb; [|done].
  apply put_word_other; [by destruct Hold|]. intros Hi. by apply Hb.
Qed.

Lemma write_fails p addr bs n p' :
  xh_util_write_memory_safely addr bs p = (Ok n, p') -> n <> Z.of_nat (length bs) ->
  mach p' = mach p.
Proof.
  unfold xh_util_write_memory_safely, on_mach, lift, process_vm_writev.
  destruct (_ && _); intros [= <- <-] Hn; [done|]. by destruct p.
Qed.

Lemma keeps_run {S A B} (f : S -> B) (c : M S A) s r s' : keeps f c -> c s = (r, s') -> f s' = f s.
Proof. intros H E. by rewrite <- (H s), E. Qed.

(** C31. A slot is replaced or left alone.  Whenever [xh_elf_replace_function] does not return
    0 (the address has no known protection, the kernel refuses to change it, the write
    fails, or an access faults on the way), no byte of memory has changed except possibly
    the variable for the old function, whatever the state of the process and however the
    kernel answers. *)
Theorem replace_function_failure (addr new old : Z) (p p' : process) (r : result Z) :
  old = 0 \/ fits old word_bytes ->
  xh_elf_replace_function addr new old p = (r, p') -> r <> Ok 0 ->
  frame old (mem (mach p)) (mem (mach p')).
Proof.
  intros Hold E Hr. unfold xh_elf_replace_function, mbind, M_bind in E.
  assert (frame old (mem (mach p)) (mem (mach p))) as Hsame by (by intros b _).
  unfold reads at 1 in E. destruct (loadW (mach p) addr) as [v| | | |];
    try (injection E as <- <-; done).
  destruct (v =? new); [injection E as <- <-; done|].
  destruct (xh_util_get_addr_protect addr p) as [r1 p1] eqn:E1.
  pose proof (keeps_run _ _ _ _ _ (get_addr_protect_keeps addr) E1) as Hm1. rewrite <- Hm1 in *.
  destruct r1 as [[r1 pr]| | | |]; try (injection E as <- <-; done).
  destruct (negb (r1 =? 0)); [injection E as <- <-; done|].
  destruct (xh_util_set_addr_protect addr RW p1) as [r2 p2] eqn:E2. unfold RW in E2. rewrite E2 in E.
  pose proof (keeps_run _ _ _ _ _ (set_addr_protect_keeps addr RW) E2) as Hm2. simpl in Hm2.
  rewrite <- Hm2 in *.
  destruct r2 as [r2| | | |]; try (injection E as <- <-; done).
  destruct (negb (r2 =? 0)); [injection E as <- <-; done|].
  unfold reads at 1 in E. destruct (loadW (mach p2) addr) as [v2| | | |];
    try (injection E as <- <-; done).
  pose proof (save_frame p2 old v2 Hold) as Hsave.
  destruct ((if old =? 0 then mret tt else on_mach (storeW old v2) : M process unit) p2)
    as [r3 p3] eqn:E3.
  destruct r3; try (injection E as <- <-; done).
  destruct (xh_util_write_memory_safely _ _ p3) as [r4 p4] eqn:E4.
  destruct r4 as [n| | | |]; try (exfalso; revert E4; unfold xh_util_write_memory_safely,
    on_mach, lift, process_vm_writev; destruct (_ && _); done).
  destruct (Z.eqb_spec n word_bytes) as [-> | Hn]; cbn [negb] in E.
  - destruct (xh_util_set_addr_protect addr _ p4) as [r5 p5] eqn:E5.
    destruct r5; try (exfalso; revert E5; unfold xh_util_set_addr_protect, mbind, M_bind,
      on_mach, lift, mprotect; destruct (mprotect_errno _ _ _ _); done).
    injection E as <- <-. done.
  - injection E as <- <-. rewrite (write_fails _ _ _ _ _ E4); [done|].
    pose proof word_bytes_pos. by rewrite length_le_bytes, Z2Nat.id by lia.
Qed.

Hypothesis writev_allowed : forall m, vm_writev_allowed m = true.

(** Replacing one slot succeeds; it changes the slot and the variable for the old function
    as [replaced] says, and leaves all protections as they were. *)
Lemma replace_run its p addr new old :
  ready its p -> ascending its -> slot_ok its (mach p) addr -> cell_ok (mach p) old ->
  exists p', xh_elf_replace_function addr new old p = (Ok 0, p')
    /\ mach p' = set_mem (mach p) (replaced new old (mem (mach p)) addr)
    /\ ready its p'.
Proof.
  intros [Hok Hmem Hsees] Hasc [Hpg Hk (it & Hin & Hcov & Hpr & Hread)] Hcell.
  pose proof (prot_of_read it Hread) as Hrd. pose proof Hpg as [Hf _].
  pose proof Hf as [Hf0 Hf1]. pose proof word_bytes_pos.
  unfold xh_elf_replace_function, replaced. set (g := mem (mach p)).
  rewrite (M_bind_run _ _ _ _ _ (loadW_run p addr Hf
    (fun b Hb => can_slot _ _ _ _ _ Hpg Hb Hpr Hrd))).
  fold g. destruct (word_at g addr =? new).
  { exists p. split; [done|]. split; [by destruct p as [[]]|done]. }
  destruct (get_addr_protect_run addr p its it Hok Hmem Hsees Hasc Hin)
    as (s & l & E & Hs & Hl & Hup & Hent); [by rewrite uword_small by lia|].
  rewrite (M_bind_run _ _ _ _ _ E). clear E. cbn [Z.eqb negb].
  set (p1 := MkProcess (mach p) s l).
  rewrite (M_bind_run _ _ _ _ _ (set_addr_protect_run addr RW p1 Hpg Hk)).
  cbn [Z.eqb negb]. set (p2 := set_mach _ p1).
  rewrite (M_bind_run _ _ _ _ _ (loadW_run p2 addr Hf
    (fun b Hb => can_protected PROT_READ _ _ RW _ b Hpg Hb Hpr ltac:(done)))).
  change (mem (mach p2)) with g.
  rewrite (M_bind_run _ _ _ _ _ (save_run p2 old _ (cell_protected _ _ _ Hcell))).
  set (p3 := set_mach _ p2).
  rewrite (M_bind_run _ _ _ _ _ (write_run p3 addr new Hpg (writev_allowed _)
    (fun b Hb => can_protected PROT_WRITE (mach p) _ RW _ b Hpg Hb Hpr ltac:(done)))).
  rewrite Z.eqb_refl. cbn [negb]. set (p4 := set_mach _ p3).
  destruct (Z.eqb_spec (Z.land (prot_of it) PROT_READ) 0); [done|].
  rewrite (M_bind_run _ _ _ _ _ (set_addr_protect_run addr (prot_of it) p4 Hpg Hk)).
  eexists. split; [reflexivity|]. split.
  - apply (protect_back _ _ _ RW Hpr).
  - split; [done|done|]. unfold sees. simpl. by rewrite Hup.
Qed.
End Facts.
End SlotFacts.

Module HookFacts.
Import XhMaps XhMapsFacts XhUtil XhUtilFacts Reloc XhElf IterFacts SlotFacts.

Section Facts.
Context `{Ar : Arch} `{K : Kernel}.
Hypothesis writev_allowed : forall m, vm_writev_allowed m = true.

(** The image, the new function, where the old one goes, and the process at the start. *)
Variables (self : xh_elf) (symidx new old : Z).
Variables (its : list maps_item) (m0 : machine).

Definition slot_of (rel : reloc) : Z := uword (bias_addr self + ro_offset rel).

(** The relocation asks the linker for the address of the symbol: a jump slot in .rel(a).plt,
    a GOT entry or a plain pointer elsewhere. *)
Definition imports (is_plt : bool) (rel : reloc) : Prop :=
  R_SYM (ro_info rel) = symidx
  /\ R_TYPE (ro_info rel)
     ∈ (if is_plt then [R_GENERIC_JUMP_SLOT] else [R_GENERIC_GLOB_DAT; R_GENERIC_ABS]).

#[global] Instance imports_dec is_plt rel : Decision (imports is_plt rel).
Proof. unfold imports. apply _. Defined.

Lemma reloc_matches_iff is_plt rel : reloc_matches is_plt symidx rel = true <-> imports is_plt rel.
Proof.
  unfold reloc_matches, imports. rewrite andb_true_iff, Z.eqb_eq.
  destruct is_plt; rewrite ?orb_true_iff, !Z.eqb_eq; set_solver.
Qed.

(** The slots that a section makes the hook replace: the first match in .rel(a).plt, every
    match elsewhere. *)
Definition slots_of (is_plt : bool) (l : list reloc) : list Z :=
  let ts := slot_of <$> filter (imports is_plt) l in
  if is_plt then take 1 ts else ts.

(** All slots the hook may write to. *)
Variable slots : list Z.

Definition written (b : Z) : Prop :=
  (exists t, t ∈ slots /\ inside t word_bytes b) \/ (old <> 0 /\ inside old word_bytes b).

(** A section that no write touches. *)
Definition untouched (a n : Z) : Prop := forall b, a <= b < a + n -> ~ written b.

(** The slots can be hooked. *)
Record target_ok (t : Z) : Prop := {
  tg_slot : slot_ok its m0 t;
  tg_base : base_addr self <= t;
  tg_in : t ∈ slots
}.

(** The process between two replacements. *)
Record between (p : process) : Prop := {
  bt_ready : ready its p;
  bt_prot : prot (mach p) = prot m0;
  bt_mem : forall b, ~ written b -> mem (mach p) !! b = mem m0 !! b
}.

Hypothesis its_ascending : ascending its.
Hypothesis old_ok : cell_ok m0 old.

Lemma can_same bit m b : prot m = prot m0 -> can bit m b = can bit m0 b.
Proof. unfold can. by intros ->. Qed.

Lemma between_agree p a n : between p -> untouched a n -> agree (fun b => a <= b < a + n) m0 (mach p).
Proof.
  intros [_ Hp Hm] Hu b Hb. unfold load8. rewrite (can_same _ _ _ Hp), Hm; [done|]. by apply Hu.
Qed.

Lemma replaced_frame g t b : target_ok t -> ~ written b -> replaced new old g t !! b = g !! b.
Proof.
  intros [[[Hf _] _ _] _ Hin] Hb. unfold replaced, written in *. case_match; [done|].
  rewrite put_word_other; [|done|intros Ht; apply Hb; left; eauto].
  unfold save. destruct (Z.eqb_spec old 0); [done|].
  destruct old_ok as [|[Hfo _]]; [done|]. apply put_word_other; [done|]. intros Ho. by auto.
Qed.

(** One relocation entry. *)
Lemma find_and_replace_run p is_plt rel :
  between p ->
  (reloc_matches is_plt symidx rel = true -> target_ok (slot_of rel)) ->
  exists p', xh_elf_find_and_replace_func self is_plt new old symidx rel p
      = (Ok (0, reloc_matches is_plt symidx rel), p')
    /\ between p'
    /\ mem (mach p') = if reloc_matches is_plt symidx rel
                       then replaced new old (mem (mach p)) (slot_of rel) else mem (mach p).
Proof.
  intros Hb Ht. pose proof Hb as [Hr Hp Hm]. unfold xh_elf_find_and_replace_func.
  destruct (reloc_matches is_plt symidx rel); cbn [negb]; [|by exists p].
  specialize (Ht eq_refl). pose proof Ht as [[Hpg Hk Hmap] Hbase Hin].
  fold (slot_of rel). destruct (Z.ltb_spec (slot_of rel) (base_addr self)); [lia|].
  destruct (replace_run writev_allowed its p (slot_of rel) new old) as (p' & E & Hmach & Hr');
    [done|done|split; [done|done|by rewrite Hp]| |].
  { destruct old_ok as [-> | [Hf Hw]]; [by left|right]. split; [done|]. intros b Hbi.
    rewrite (can_same _ _ _ Hp). by apply Hw. }
  exists p'. rewrite (M_bind_run _ _ _ _ _ E). split; [done|]. rewrite Hmach. split; [|done].
  split; [done|by rewrite Hmach|]. rewrite Hmach. simpl. intros b Hbw.
  rewrite replaced_frame by done. by apply Hm.
Qed.

Definition slot_in (is_plt : bool) (l : list reloc) : Prop :=
  forall t, t ∈ slots_of is_plt l -> target_ok t.

Lemma slots_of_cons is_plt r l :
  slots_of is_plt (r :: l)
  = if reloc_matches is_plt symidx r
    then slot_of r :: (if is_plt then [] else slots_of is_plt l) else slots_of is_plt l.
Proof.
  unfold slots_of. rewrite filter_cons.
  destruct (decide (imports is_plt r)) as [E|E]; rewrite <- reloc_matches_iff in E.
  - rewrite E. by destruct is_plt.
  - by destruct (reloc_matches is_plt symidx r).
Qed.

(** ** Plain sections *)

(** The [n] entries at [a]. *)
Fixpoint plain_entries (m : machine) (rela : bool) (a : Z) (n : nat) : result (list reloc) :=
  match n with
  | O => Ok []
  | S n => r ← plain_entry m a; l ← plain_entries m rela (a + entry_size rela) n; Ok (r :: l)
  end.

Lemma plain_loop_run is_plt rela n : forall a fuel p l,
  let len := Z.of_nat n * entry_size rela in
  between p -> 0 <= a -> a + len < 2 ^ word_bits -> untouched a len ->
  plain_entries m0 rela a n = Ok l -> slot_in is_plt l -> (n < fuel)%nat ->
  exists p', plain_loop fuel self is_plt new old symidx (MkPlain a (a + len) rela) p = (Ok 0, p')
    /\ between p' /\ mem (mach p') = foldl (replaced new old) (mem (mach p)) (slots_of is_plt l).
Proof.
  pose proof (entry_size_words rela) as Hes. pose proof word_bytes_pos.
  induction n as [|n IH]; intros a fuel p l len Hb Ha Hlen Hu Hl Hin Hfuel;
    (destruct fuel as [|fuel]; [lia|]); cbn [plain_loop plain_entries] in *;
    unfold plain_reloc_iterator_next; cbn [pl_end pl_cur pl_rela]; unfold len in *; clear len.
  { simpl. rewrite Z.add_0_r. injection Hl as <-. destruct (Z.leb_spec a a); [|lia].
    exists p. split; [done|]. split; [done|]. by destruct is_plt. }
  destruct (Z.leb_spec (a + Z.of_nat (S n) * entry_size rela) a); [nia|].
  assert (agree (inside a (2 * word_bytes)) m0 (mach p)) as Hag.
  { intros b Hib. apply (between_agree p a (entry_size rela)); [done| |].
    - intros c Hc. apply Hu. nia.
    - unfold inside in Hib. lia. }
  unfold reads. unfold mbind at 1, M_bind at 1.
  rewrite (plain_entry_agree m0 (mach p) a) by (try done; split; nia).
  apply result_bind_Ok in Hl as (r & -> & Hl). apply result_bind_Ok in Hl as (l' & Hl & E).
  injection E as <-.
  destruct (find_and_replace_run p is_plt r) as (p1 & E1 & Hb1 & Hm1);
    [done|intros Em; apply Hin; rewrite slots_of_cons, Em; left|].
  rewrite (M_bind_run _ _ _ _ _ E1). cbn [Z.eqb negb]. unfold slot_in in Hin.
  rewrite slots_of_cons in *. destruct (is_plt && reloc_matches is_plt symidx r) eqn:Estop.
  { exists p1. apply andb_true_iff in Estop as [-> Em]. rewrite Em in *. by rewrite Hm1. }
  fold (entry_size rela). rewrite uword_small by nia.
  destruct (IH (a + entry_size rela) fuel p1 l') as (p' & E' & Hb' & Hm'); try done; try nia.
  { intros b Hb'. apply Hu. nia. }
  { intros t Ht. apply Hin. destruct is_plt, (reloc_matches _ symidx r); try done; by right. }
  replace (a + entry_size rela + Z.of_nat n * entry_size rela)
    with (a + Z.of_nat (S n) * entry_size rela) in E' by nia.
  exists p'. split; [exact E'|]. split; [done|]. rewrite Hm', Hm1.
  destruct (reloc_matches is_plt symidx r); [|done]. by destruct is_plt.
Qed.

(** ** Packed sections *)

Lemma packed_loop_run lo hi fuel : forall it p l,
  between p -> 0 <= lo -> hi < 2 ^ word_bits -> untouched lo (hi - lo) ->
  within lo hi (decoder it) -> packed_relocs fuel m0 it = Ok l -> slot_in false l ->
  exists p', packed_loop fuel self new old symidx it p = (Ok 0, p')
    /\ between p' /\ mem (mach p') = foldl (replaced new old) (mem (mach p)) (slots_of false l).
Proof.
  induction fuel as [|fuel IH]; intros it p l Hb Hlo Hhi Hu Hw Hl Hin; [done|].
  cbn [packed_loop packed_relocs] in *.
  destruct (packed_next_agree m0 (mach p) lo hi) with (it := it) as [Enext Hnext]; try done.
  { intros b Hb'. apply (between_agree p lo (hi - lo)); [done|done|lia]. }
  unfold reads. unfold mbind at 1, M_bind at 1. rewrite Enext.
  destruct (packed_reloc_iterator_next m0 it) as [[r it1]| | | |]; try done.
  specialize (Hnext _ _ eq_refl). cbn [mbind result_bind] in Hl. destruct r as [r|].
  2:{ injection Hl as <-. by exists p. }
  apply result_bind_Ok in Hl as (l' & Hl & E). injection E as <-.
  destruct (find_and_replace_run p false r) as (p1 & E1 & Hb1 & Hm1);
    [done|intros Em; apply Hin; rewrite slots_of_cons, Em; left|].
  rewrite (M_bind_run _ _ _ _ _ E1). cbn [Z.eqb negb]. unfold slot_in in Hin.
  rewrite slots_of_cons in *. destruct (IH it1 p1 l') as (p' & E' & Hb' & Hm'); try done.
  { intros t Ht. apply Hin. destruct (reloc_matches _ symidx r); [by right|done]. }
  exists p'. split; [exact E'|]. split; [done|]. rewrite Hm', Hm1.
  by destruct (reloc_matches false symidx r).
Qed.

(** ** The three sections of an image *)

(** The entries [l] of a plain section; an absent one has none. *)
Definition plain_section (rel sz : Z) (l : list reloc) : Prop :=
  if rel =? 0 then l = []
  else exists n, sz = Z.of_nat n * entry_size (is_use_rela self)
    /\ 0 <= rel /\ rel + sz < 2 ^ word_bits /\ untouched rel sz
    /\ plain_entries m0 (is_use_rela self) rel n = Ok l.

(** The entries [l] of the packed section. *)
Definition packed_section (fuel : nat) (rel sz : Z) (l : list reloc) : Prop :=
  if rel =? 0 then l = []
  else 0 <= rel /\ 0 <= sz /\ rel + sz < 2 ^ word_bits /\ untouched rel sz
    /\ exists r it, packed_reloc_iterator_init m0 rel sz (is_use_rela self) = Ok (r, it)
         /\ packed_relocs fuel m0 it = Ok l.

Lemma slots_of_nil is_plt : slots_of is_plt [] = [].
Proof. by destruct is_plt. Qed.

Lemma hook_plain_run fuel is_plt rel sz l p :
  between p -> plain_section rel sz l -> slot_in is_plt l ->
  (Z.to_nat sz < fuel)%nat ->
  exists p', hook_plain fuel self is_plt new old symidx rel sz p = (Ok 0, p')
    /\ between p' /\ mem (mach p') = foldl (replaced new old) (mem (mach p)) (slots_of is_plt l).
Proof.
  intros Hb Hs Hin Hf. unfold plain_section in Hs. unfold hook_plain. destruct (rel =? 0).
  { subst l. exists p. by rewrite slots_of_nil. }
  destruct Hs as (n & -> & H0 & Hend & Hu & Hl). unfold plain_reloc_iterator_init.
  pose proof (entry_size_words (is_use_rela self)). pose proof word_bytes_pos.
  rewrite uword_small by nia. apply plain_loop_run; try done. nia.
Qed.

Lemma hook_packed_run fuel l p :
  between p -> packed_section fuel (relandroid self) (relandroid_sz self) l -> slot_in false l ->
  exists p', hook_packed fuel self new old symidx p = (Ok 0, p')
    /\ between p' /\ mem (mach p') = foldl (replaced new old) (mem (mach p)) (slots_of false l).
Proof.
  intros Hb Hs Hin. unfold packed_section in Hs. unfold hook_packed.
  destruct (relandroid self =? 0); [subst l; by exists p|].
  destruct Hs as (H0 & Hsz & Hend & Hu & r & it & Hinit & Hl).
  destruct (packed_init_agree m0 (mach p) (relandroid self) (relandroid_sz self) (is_use_rela self))
    as [Ei Hw]; [done|done|done|by apply between_agree|].
  unfold reads. unfold mbind at 1, M_bind at 1. rewrite Ei, Hinit.
  apply (packed_loop_run (relandroid self) (relandroid self + relandroid_sz self)); try done.
  - by rewrite Z.add_simpl_l.
  - by eapply Hw.
Qed.

End Facts.

(** ** Effect on memory of replacing a list of slots *)
Section Effect.
Context `{Ar : Arch} `{K : Kernel}.
Variables (new old : Z).

Definition hooked (g : gmap Z Z) (ts : list Z) : gmap Z Z := foldl (replaced new old) g ts.

(** Slots are the same word or disjoint, and none is the variable for the old function. *)
Definition separate (ts : list Z) : Prop :=
  (forall t, t ∈ ts -> fits t word_bytes)
  /\ (forall t u, t ∈ ts -> u ∈ ts -> t = u \/ apart t u)
  /\ (old <> 0 -> fits old word_bytes /\ forall t, t ∈ ts -> apart t old).

Hypothesis new_word : in_word word_bits new.
Hypothesis old_fits : old = 0 \/ fits old word_bytes.

Lemma replaced_word g ts t u : separate ts -> t ∈ ts -> u ∈ ts ->
  word_at (replaced new old g t) u = if decide (u = t) then new else word_at g u.
Proof.
  intros (Hf & Hs & Ho) Ht Hu. unfold replaced.
  destruct (Z.eqb_spec (word_at g t) new) as [E|E].
  { case_decide; by subst. }
  case_decide as Eu; [subst u; apply word_at_put_same; auto|].
  destruct (Hs u t) as [|Hap]; [done|done|done|].
  rewrite word_at_put_other by auto. unfold save. destruct (Z.eqb_spec old 0); [done|].
  destruct Ho as [Hfo Hao]; [done|]. by rewrite word_at_put_other by auto.
Qed.

Lemma hooked_word ts ts' : separate ts -> forall g, ts' ⊆ ts -> forall u, u ∈ ts ->
  word_at (hooked g ts') u = if decide (u ∈ ts') then new else word_at g u.
Proof.
  intros Hs. induction ts' as [|t ts' IH]; intros g Hsub u Hu; cbn [hooked foldl].
  { by rewrite decide_False by (apply not_elem_of_nil). }
  fold (hooked (replaced new old g t) ts').
  rewrite IH by (set_solver || done). rewrite (replaced_word g ts) by set_solver.
  destruct (decide (u ∈ ts')) as [Hin|Hin].
  - by rewrite decide_True by set_solver.
  - destruct (decide (u = t)) as [-> |].
    + by rewrite decide_True by set_solver.
    + by rewrite decide_False by set_solver.
Qed.

(** Slots that hold the new function already are left alone. *)
Lemma hooked_same ts g : (forall t, t ∈ ts -> word_at g t = new) -> hooked g ts = g.
Proof.
  induction ts as [|t ts IH]; intros H; [done|]. cbn [hooked foldl]. unfold replaced at 2.
  rewrite (H t), Z.eqb_refl by set_solver. apply IH. intros u Hu. apply H. set_solver.
Qed.

Lemma put_word_bytes g a v : fits a word_bytes -> map_Forall (fun _ b => is_byte b) g ->
  map_Forall (fun _ b => is_byte b) (put_word g a v).
Proof.
  intros Hf Hg b x. rewrite put_word_lookup by done. case_decide; [|by apply Hg].
  intros E. pose proof (le_bytes_is_byte (Z.to_nat word_bytes) v) as Hb.
  rewrite Forall_forall in Hb. apply Hb. by eapply list_elem_of_lookup_2.
Qed.

Lemma replaced_bytes g t : map_Forall (fun _ b => is_byte b) g -> fits t word_bytes ->
  map_Forall (fun _ b => is_byte b) (replaced new old g t).
Proof.
  intros Hg Ht. unfold replaced, save. case_match; [done|]. apply put_word_bytes; [done|].
  destruct (Z.eqb_spec old 0); [done|]. destruct old_fits as [|Hf]; [done|].
  by apply put_word_bytes.
Qed.

(** The variable receives what was in one of the slots, and never the new function. *)
Lemma hooked_old ts ts' : old <> 0 -> separate ts -> forall g,
  map_Forall (fun _ b => is_byte b) g -> ts' ⊆ ts ->
  (word_at (hooked g ts') old = word_at g old /\ forall t, t ∈ ts' -> word_at g t = new)
  \/ exists t, t ∈ ts' /\ word_at (hooked g ts') old = word_at g t /\ word_at g t <> new.
Proof.
  intros Hold Hs. induction ts' as [|t ts' IH]; intros g Hg Hsub; cbn [hooked foldl].
  { left. split; [done|]. intros t Ht. by apply not_elem_of_nil in Ht. }
  fold (hooked (replaced new old g t) ts').
  destruct (Z.eqb_spec (word_at g t) new) as [E|E].
  { assert (replaced new old g t = g) as -> by (unfold replaced; by rewrite E, Z.eqb_refl).
    destruct (IH g Hg) as [[H1 H2]|(u & Hu & H1 & H2)]; [set_solver|left|right].
    - split; [done|]. intros u Hu. apply elem_of_cons in Hu as [-> |]; auto.
    - exists u. split; [by right|done]. }
  right. pose proof Hs as (Hf & Hsep & Ho). destruct (Ho Hold) as [Hfo Hao].
  assert (word_at (replaced new old g t) old = word_at g t) as Ecell.
  { unfold replaced, save. destruct (Z.eqb_spec (word_at g t) new); [done|].
    destruct (Z.eqb_spec old 0); [done|].
    rewrite word_at_put_other; [|apply Hf; set_solver|].
    - apply word_at_put_same; [done|by apply word_at_range].
    - destruct (Hao t); [set_solver|by right|by left]. }
  destruct (IH (replaced new old g t)) as [[H1 H2]|(u & Hu & H1 & H2)].
  - apply replaced_bytes; [done|apply Hf; set_solver].
  - set_solver.
  - exists t. split; [left|]. by rewrite H1, Ecell.
  - rewrite (replaced_word g ts) in H1, H2 by set_solver. case_decide; [done|].
    exists u. split; [by right|done].
Qed.
End Effect.

Section Hook.
Context `{Ar : Arch} `{K : Kernel}.

(** An image that can be hooked: the entries of its three relocation sections, and the
    slots that the entries for symbol [symidx] name. *)
Record hookable (fuel : nat) (self : xh_elf) (symidx new old : Z) (its : list maps_item)
    (m : machine) (plt dyn android : list reloc) (slots : list Z) : Prop := {
  hk_writev : forall m, vm_writev_allowed m = true;
  hk_ascending : ascending its;
  hk_new : in_word word_bits new /\ new <> 0;
  hk_slots : slots = (slots_of self symidx true plt ++ slots_of self symidx false dyn
                      ++ slots_of self symidx false android)%list;
  hk_plt : plain_section self old m slots (relplt self) (relplt_sz self) plt;
  hk_dyn : plain_section self old m slots (reldyn self) (reldyn_sz self) dyn;
  hk_android : packed_section self old m slots fuel (relandroid self) (relandroid_sz self) android;
  hk_slot : forall t, t ∈ slots -> slot_ok its m t /\ base_addr self <= t;
  hk_separate : separate old slots;
  hk_cell : cell_ok m old;
  hk_fuel : (Z.to_nat (relplt_sz self) < fuel)%nat /\ (Z.to_nat (reldyn_sz self) < fuel)%nat
}.

Lemma hook_run fuel self symbol symidx new old its p plt dyn android slots :
  ready its p -> pathname self <> None ->
  xh_elf_find_symidx_by_name fuel (mach p) self symbol = Ok (Some symidx) ->
  hookable fuel self symidx new old its (mach p) plt dyn android slots ->
  exists p', xh_elf_hook fuel self (Some symbol) new old p = (Ok 0, p')
    /\ between old its (mach p) slots p'
    /\ mem (mach p') = hooked new old (mem (mach p)) slots.
Proof.
  intros Hr Hpath Hsym [Hwv Hasc [Hnew Hnz] Hslots Hplt Hdyn Hand Hslot Hsep Hcell [Hf1 Hf2]].
  unfold xh_elf_hook. rewrite bool_decide_false by done. destruct (Z.eqb_spec new 0); [done|].
  unfold reads. unfold mbind at 1, M_bind at 1. rewrite Hsym.
  assert (between old its (mach p) slots p) as Hb0 by (by split).
  assert (forall t, t ∈ slots -> target_ok self its (mach p) slots t) as Htg.
  { intros t Ht. destruct (Hslot t Ht). by split. }
  destruct (hook_plain_run Hwv self symidx new old its (mach p) slots Hasc Hcell fuel true _ _ plt p
              Hb0 Hplt) as (p1 & E1 & Hb1 & Hm1); [intros t Ht; apply Htg; set_solver|done|].
  rewrite (M_bind_run _ _ _ _ _ E1). cbn [Z.eqb negb].
  destruct (hook_plain_run Hwv self symidx new old its (mach p) slots Hasc Hcell fuel false _ _ dyn p1
              Hb1 Hdyn) as (p2 & E2 & Hb2 & Hm2); [intros t Ht; apply Htg; set_solver|done|].
  rewrite (M_bind_run _ _ _ _ _ E2). cbn [Z.eqb negb].
  destruct (hook_packed_run Hwv self symidx new old its (mach p) slots Hasc Hcell fuel android p2
              Hb2 Hand) as (p3 & E3 & Hb3 & Hm3); [intros t Ht; apply Htg; set_solver|].
  exists p3. split; [exact E3|]. split; [done|].
  rewrite Hm3, Hm2, Hm1, Hslots. unfold hooked. by rewrite !foldl_app.
Qed.

(** C1. Hooking.  Where the image imports the symbol and its relocation sections do not
    overlap the slots they name, [xh_elf_hook] succeeds, and afterwards every slot that a
    relocation for the symbol names (the first in .rel(a).plt, all of .rel(a).dyn and of
    the packed Android section) holds the new function; no other byte of memory has
    changed except the variable for the old function, and every page has the protection
    it had.  That variable holds the former contents of one of the slots, never the new
    function; where all slots held the new function before, nothing changes at all, so
    that hooking twice cannot make a function its own original. *)
Theorem xh_elf_hook_correct (fuel : nat) (self : xh_elf) (symbol : list Z)
    (symidx new old : Z) (its : list maps_item) (p : process)
    (plt dyn android : list reloc) (slots : list Z) :
  ready its p -> pathname self <> None ->
  xh_elf_find_symidx_by_name fuel (mach p) self symbol = Ok (Some symidx) ->
  hookable fuel self symidx new old its (mach p) plt dyn android slots ->
  map_Forall (fun _ b => is_byte b) (mem (mach p)) ->
  exists p', xh_elf_hook fuel self (Some symbol) new old p = (Ok 0, p')
    /\ (forall t, t ∈ slots -> word_at (mem (mach p')) t = new)
    /\ (forall b, ~ written old slots b -> mem (mach p') !! b = mem (mach p) !! b)
    /\ prot (mach p') = prot (mach p)
    /\ (old <> 0 -> (exists t, t ∈ slots /\ word_at (mem (mach p)) t <> new) ->
         exists t, t ∈ slots /\ word_at (mem (mach p')) old = word_at (mem (mach p)) t
                   /\ word_at (mem (mach p)) t <> new)
    /\ ((forall t, t ∈ slots -> word_at (mem (mach p)) t = new) -> mach p' = mach p).
Proof.
  intros Hr Hpath Hsym Hh Hbytes.
  destruct (hook_run fuel self symbol symidx new old its p plt dyn android slots)
    as (p' & E & [_ Hprot Hframe] & Hmem); try done.
  destruct Hh as [_ _ [Hnew _] _ _ _ _ _ Hsep Hcell _].
  assert (old = 0 \/ fits old word_bytes) as Hfit by (destruct Hcell as [|[? _]]; auto).
  exists p'. split; [done|]. split_and!.
  - intros t Ht. rewrite Hmem, (hooked_word new old Hnew Hfit slots) by done. by rewrite decide_True.
  - done.
  - done.
  - intros Hold (t & Ht & Hne). rewrite Hmem.
    destruct (hooked_old new old Hnew Hfit slots slots Hold Hsep
      (mem (mach p)) Hbytes) as [[_ Hall]|H]; [done| |exact H]. by destruct Hne; apply Hall.
  - intros Hall. rewrite (hooked_same new old) in Hmem by done.
    destruct (mach p') as [g t], (mach p) as [g0 t0]. simpl in *. by subst.
Qed.
End Hook.
End HookFacts.

(** Hooking "open" in the example image: two slots in a read-only page. *)
Module HookDemo.
Import XhMaps XhMapsFacts XhUtil XhUtilFacts Reloc XhElf IterFacts SlotFacts HookFacts DemoImage.

#[local] Existing Instance arch_aarch64.
#[local] Existing Instance demo_kernel.

Definition demo_plt : list reloc := [MkReloc 0x1008 0x100000402 0].
Definition demo_dyn : list reloc := [MkReloc 0x1010 0x100000401 0].
Definition demo_slots : list Z := [0x11008; 0x11010].

Definition demo_process : process := MkProcess demo initial [].
Definition demo_its : list maps_item := parsed maps_text.

(** A kernel that answers every [mprotect] with [EACCES]: the slot keeps its contents. *)
Definition refusing_kernel : Kernel :=
  {| page_bits := 12; page_bits_range := ltac:(lia);
     proc_self_maps := fun _ => Some maps_text;
     proc_self_maps_prot := fun _ _ _ => eq_refl;
     mprotect_errno := fun _ _ _ _ => Some 13;
     vm_writev_allowed := fun _ => true |}.

Lemma replace_function_failure_witness :
  let run := xh_elf_replace_function (K := refusing_kernel) 0x11008 0x7fabcd 0x20000 demo_process in
  fst run = Ok 13 /\ frame 0x20000 memory (mem (mach (snd run))).
Proof.
  set (run := xh_elf_replace_function _ _ _ _). cbv zeta.
  assert (fst run = Ok 13) as E by (vm_compute; reflexivity). split; [exact E|].
  apply (replace_function_failure (K := refusing_kernel) 0x11008 0x7fabcd 0x20000 demo_process
           (snd run) (fst run)).
  - right. split; vm_compute; [discriminate|reflexivity].
  - unfold run. apply surjective_pairing.
  - rewrite E. discriminate.
Defined.

Lemma demo_untouched a n : (a + n <= 0x11008 /\ 0 <= a) -> untouched 0x20000 demo_slots a n.
Proof.
  intros Ha b Hb Hw. destruct Hw as [(t & Ht & Hi)|[_ Hi]]; unfold inside in Hi;
    change word_bytes with 8 in Hi; [|lia].
  unfold demo_slots in Ht. apply elem_of_cons in Ht as [-> |Ht]; [lia|].
  apply list_elem_of_singleton in Ht as ->. lia.
Qed.

Lemma demo_slot t : t ∈ demo_slots -> slot_ok demo_its demo t /\ base_addr elf <= t.
Proof.
  intros Ht. unfold demo_slots in Ht.
  apply elem_of_cons in Ht as [-> |Ht]; [|apply list_elem_of_singleton in Ht as ->];
    (split; [|vm_compute; discriminate]);
    (split; [split; [split; vm_compute; [discriminate|reflexivity]|reflexivity]|by intros ??|]);
    exists (MkItem 0x11000 0x12000 (bytes_of "r--p") 0x1000 (Some (bytes_of "/lib/libdemo.so")));
    (split_and!; [right; left|split_and!; vm_compute; try reflexivity; discriminate
                 |vm_compute; reflexivity|reflexivity]).
Qed.

Lemma demo_separate : separate 0x20000 demo_slots.
Proof.
  split_and!.
  - intros t Ht. destruct (demo_slot t Ht) as [[[Hf _] _ _] _]. exact Hf.
  - intros t u Ht Hu. unfold demo_slots, apart in *. change word_bytes with 8.
    apply elem_of_cons in Ht as [-> |Ht]; [|apply list_elem_of_singleton in Ht as ->];
      (apply elem_of_cons in Hu as [-> |Hu]; [|apply list_elem_of_singleton in Hu as ->]); lia.
  - intros _. split; [split; vm_compute; [discriminate|reflexivity]|].
    intros t Ht. unfold demo_slots, apart in *. change word_bytes with 8.
    apply elem_of_cons in Ht as [-> |Ht]; [|apply list_elem_of_singleton in Ht as ->]; lia.
Qed.

Lemma demo_hookable :
  hookable 100 elf 1 0x7fabcd 0x20000 demo_its demo demo_plt demo_dyn [] demo_slots.
Proof.
  split.
  - intros m. reflexivity.
  - vm_compute. repeat constructor; intros; discriminate.
  - split; [split; vm_compute; [discriminate|reflexivity]|discriminate].
  - vm_compute. reflexivity.
  - exists 1%nat. split_and!; [reflexivity|vm_compute; discriminate|vm_compute; reflexivity
      |apply demo_untouched; vm_compute; split; discriminate|vm_compute; reflexivity].
  - exists 1%nat. split_and!; [reflexivity|vm_compute; discriminate|vm_compute; reflexivity
      |apply demo_untouched; vm_compute; split; discriminate|vm_compute; reflexivity].
  - reflexivity.
  - apply demo_slot.
  - apply demo_separate.
  - right. split; [split; vm_compute; [discriminate|reflexivity]|].
    intros b Hb. unfold inside in Hb. change word_bytes with 8 in Hb. unfold can.
    replace (page_of b) with 0x20; [vm_compute; reflexivity|].
    unfold page_of. change PAGE_SIZE with 4096. Z.to_euclidean_division_equations; lia.
  - vm_compute. lia.
Qed.

Lemma xh_elf_hook_correct_witness :
  exists p', xh_elf_hook 100 elf (Some (bytes_of "open")) 0x7fabcd 0x20000 demo_process = (Ok 0, p')
    /\ word_at (mem (mach p')) 0x11008 = 0x7fabcd
    /\ word_at (mem (mach p')) 0x11010 = 0x7fabcd
    /\ prot (mach p') = prot demo.
Proof.
  destruct (xh_elf_hook_correct 100 elf (bytes_of "open") 1 0x7fabcd 0x20000 demo_its demo_process
              demo_plt demo_dyn [] demo_slots) as (p' & E & Hs & _ & Hp & _).
  - split; [by split|constructor|by exists maps_text].
  - discriminate.
  - vm_compute. reflexivity.
  - apply demo_hookable.
  - decide_now.
  - exists p'. split; [exact E|]. split; [apply Hs; left|].
    split; [apply Hs; right; left|exact Hp].
Defined.
End HookDemo.
