(* ===== verification/SemiDlfcn.v ===== *)
(** Looking up libraries and symbols past the linker's restrictions (libsemi_dlfcn,
    semi_dlfcn.c).

    Module [SemiDlfcn] translates semi_dlfcn.c: the walk over loaded libraries with the
    fallback to /proc/self/maps, the cached base address of the linker, reading sections from
    the file of a library, and [semi_dlopen], [semi_dlsym] and [semi_dlclose].  What the
    linker and the file system contribute is the class [Linker]; the state of the process the
    code runs in is abstract (class [DlState]), so that a client passes callbacks over a
    state of its own. *)
From S2P Require Import Prelude Arch Machine Elf Libc XhMaps XhUtil XhElf.

(** [struct dl_phdr_info].  [name_static]: the name outlives the call of the callback. *)
Record dl_phdr_info := MkInfo {
  dlpi_name : option (list Z);
  dlpi_addr : Z;
  dlpi_phdr : Z;
  dlpi_phnum : Z;
  name_static : bool
}.

(** The linker and the files of the device: the API level, the file name [dladdr] reports for
    this library, the auxiliary vector's [AT_BASE], whether [dladdr] knows an address, the
    objects [dl_iterate_phdr] visits, the contents of a file that can be opened, and whether
    a [mmap] of a file succeeds. *)
Class Linker := {
  api_level : Z;
  own_fname : option (list Z);
  at_base : Z;
  dladdr_known : machine -> Z -> bool;
  dl_objects : machine -> list dl_phdr_info;
  open_file : list Z -> option (list Z);
  mmap_allowed : list Z -> Z -> Z -> bool
}.

(** The static variables of semi_dlfcn.c, and whether the linker's mutex is held. *)
Record sd_state := MkSd {
  s_linker_base : Z;
  s_dl_mutex_address : Z;
  dl_mutex_held : bool
}.

(** The state the code runs in: an address space, the variables above, and allocation.
    Allocation changes neither. *)
Class DlState (S : Type) := {
  dl_mach : S -> machine;
  dl_get : S -> sd_state;
  dl_put : sd_state -> S -> S;
  dl_alloc : M S bool;
  dl_get_put : forall x s, dl_get (dl_put x s) = x;
  dl_put_put : forall x y s, dl_put x (dl_put y s) = dl_put x s;
  dl_put_get : forall s, dl_put (dl_get s) s = s;
  dl_mach_put : forall x s, dl_mach (dl_put x s) = dl_mach s
}.

Module SemiDlfcn.

(** [semi_dlinfo_t]; the tables are copies on the heap.  [pathname_static]: what [pathname]
    points to still exists after the search. *)
Record semi_dlinfo := MkDl {
  magic : Z;
  pathname : list Z;
  pathname_static : bool;
  ehdr : Z;
  phdrs : Z;
  phdr_count : Z;
  load_bias : Z;
  strs : option (list Z);
  syms : option (list Z);
  sym_count : Z;
  dynsyms : option (list Z);
  dynsym_count : Z
}.

Definition SEMI_DLINFO_MAGIC : Z := 0xFE5D15D1.

Definition set_tables (st sy : option (list Z)) (sc : Z) (dy : option (list Z)) (dc : Z)
    (i : semi_dlinfo) : semi_dlinfo :=
  MkDl (magic i) (pathname i) (pathname_static i) (ehdr i) (phdrs i) (phdr_count i)
    (load_bias i) st sy sc dy dc.

Section Code.
Context `{Ar : Arch} `{K : Kernel} `{L : Linker} {St : Type} `{D : DlState St}.

(** [return false] unless [b]. *)
Definition check (b : bool) (k : result bool) : result bool := if b then k else Ok false.

Definition validate_elf_header (m : machine) (base_addr : Z) : result bool :=
  magic ← load_bytes m base_addr SELFMAG;
  check (bool_decide (magic = ELFMAG)) (
  cls ← e_ident m base_addr EI_CLASS;
  check (cls =? if is_lp64 then ELFCLASS64 else ELFCLASS32) (
  data ← e_ident m base_addr EI_DATA;
  check (data =? ELFDATA2LSB) (
  vers ← e_ident m base_addr EI_VERSION;
  check (vers =? EV_CURRENT) (
  ty ← e_type m base_addr;
  check ((ty =? ET_EXEC) || (ty =? ET_DYN)) (
  mach ← e_machine m base_addr;
  check (mach =? elf_machine) (
  version ← e_version m base_addr;
  check (version =? EV_CURRENT) (Ok true))))))).

(** The first PT_LOAD header among [n] from [phdr] on. *)
Definition first_load (m : machine) (phdr : Z) (n : Z) : result (option Z) :=
  XhElf.first_phdr (fun p => t ← p_type m p; Ok (t =? PT_LOAD)) phdr (Z.to_nat n).

Definition find_load_bias (m : machine) (base phdrs phnum : Z) : result Z :=
  p ← first_load m phdrs phnum;
  match p with
  | Some p => v ← p_vaddr m p; Ok (uword (base - v))
  | None => Ok 0
  end.

(** ** The walk over /proc/self/maps *)

(** The [sscanf] call of [legacy_iterate_maps]: base address, permissions, offset and the
    position [%n] stored. *)
Definition scan_legacy (line : list Z) : option (Z * list Z * Z * Z) :=
  '(base, s) ← scan_lx line;
  s ← scan_char 45 s;
  s ← skip_x s;
  '(perm, s) ← scan_s 4 s;
  '(off, s) ← scan_lx s;
  let pos :=
    match (s ← skip_x s; s ← scan_char 58 s; s ← skip_x s; skip_d s) with
    | Some s => Z.of_nat (length line) - Z.of_nat (length s)
    | None => 0
    end in
  Some (base, perm, u32 off, pos).

(** A line up to the checks of its path: base address and path; [None] is [continue]. *)
Definition legacy_line (line : list Z) : option (Z * list Z) :=
  '(base, perm, off, pos) ← scan_legacy line;
  if negb (nth 0 perm 0 =? 114) || negb (nth 3 perm 0 =? 112) then None else
  if negb (off =? 0) then None else
  let rest := drop (Z.to_nat pos) line in
  let path := skip_ws rest in
  let pos := pos + (Z.of_nat (length rest) - Z.of_nat (length path)) in
  if 511 <=? pos then None else
  let path := XhMaps.c_string path in
  if bool_decide (path = []) then None else
  let path := XhMaps.chomp path in
  if bool_decide (path = []) || (nth 0 path 0 =? 91) then None else
  if bool_decide (take 5 path = bytes_of "/dev/") then None else
  Some (base, path).

(** The [dl_phdr_info] built for a line; its name lies in the buffer [line]. *)
Definition legacy_info (m : machine) (base : Z) (path : list Z) : result dl_phdr_info :=
  phoff ← e_phoff m base;
  phnum ← e_phnum m base;
  let phdr := uword (base + phoff) in
  bias ← find_load_bias m base phdr phnum;
  Ok (MkInfo (Some path) bias phdr phnum false).

Fixpoint legacy_loop {T} (cb : dl_phdr_info -> T -> M St (Z * T)) (lines : list (list Z))
    (data : T) : M St (Z * T) :=
  match lines with
  | [] => mret (0, data)
  | line :: lines =>
      match legacy_line line with
      | None => legacy_loop cb lines data
      | Some (base, path) =>
          known ← gets (fun s => dladdr_known (dl_mach s) base);
          if negb known then legacy_loop cb lines data else
          valid ← reads (fun s => validate_elf_header (dl_mach s) base);
          if negb valid then legacy_loop cb lines data else
          info ← reads (fun s => legacy_info (dl_mach s) base path);
          '(res, data) ← cb info data;
          if negb (res =? 0) then mret (res, data) else legacy_loop cb lines data
      end
  end.

Definition legacy_iterate_maps {T} (cb : dl_phdr_info -> T -> M St (Z * T)) (data : T)
  : M St (Z * T) :=
  text ← gets (fun s => proc_self_maps (dl_mach s));
  match text with
  | None => mret (0, data)
  | Some text => legacy_loop cb (read_lines (length text) 512 text) data
  end.

(** ** The linker *)

Definition LINKER_PATHNAME_SUFFIX : list Z :=
  bytes_of (if is_lp64 then "/system/bin/linker64" else "/system/bin/linker").
Definition LINKER_PATHNAME_SUFFIX_LEN : Z := Z.of_nat (length LINKER_PATHNAME_SUFFIX).

(** [strncmp(s, t, n) == 0]. *)
Fixpoint strneq (n : nat) (s t : list Z) : bool :=
  match n with
  | O => true
  | S n =>
      match s, t with
      | [], [] => true
      | c :: s, d :: t => (c =? d) && strneq n s t
      | _, _ => false
      end
  end.

(** The length of the path is taken with [sizeof] of the pointer. *)
Definition find_linker_base_iter_cb (info : dl_phdr_info) (base : Z) : M St (Z * Z) :=
  let pathname := default [] (dlpi_name info) in
  let pathname_len := word_bytes in
  if pathname_len <? LINKER_PATHNAME_SUFFIX_LEN then mret (0, base) else
  if strneq (Z.to_nat LINKER_PATHNAME_SUFFIX_LEN)
       (drop (Z.to_nat (pathname_len - LINKER_PATHNAME_SUFFIX_LEN)) pathname)
       LINKER_PATHNAME_SUFFIX
  then mret (1, dlpi_addr info) else mret (0, base).

Definition put_base (b : Z) : M St unit :=
  modify (fun s => dl_put (MkSd b (s_dl_mutex_address (dl_get s)) (dl_mutex_held (dl_get s))) s).
Definition put_mutex (a : Z) : M St unit :=
  modify (fun s => dl_put (MkSd (s_linker_base (dl_get s)) a (dl_mutex_held (dl_get s))) s).
Definition put_held (b : bool) : M St unit :=
  modify (fun s => dl_put (MkSd (s_linker_base (dl_get s)) (s_dl_mutex_address (dl_get s)) b) s).

Definition get_linker_base_address : M St Z :=
  base ← gets (fun s => s_linker_base (dl_get s));
  if negb (base =? 0) then mret base else
  put_base at_base;;
  if at_base =? 0 then
    '(_, b) ← legacy_iterate_maps find_linker_base_iter_cb 0;
    put_base b;; mret b
  else mret at_base.

(** ** Sections of a file *)

(** [load_section]: the bytes are copied from a mapping, which has zeros between the end of
    the file and the end of its last page, and no page after that. *)
Definition load_section (path file : list Z) (file_offset section_size : Z)
  : M St (option (list Z)) :=
  let aligned := Z.land file_offset (Z.lnot (PAGE_SIZE - 1)) in
  let bias := file_offset - aligned in
  let map_size := section_size + PAGE_SIZE in
  if negb (mmap_allowed path aligned map_size) then mret None else
  ok ← dl_alloc;
  if negb ok then mret None else
  let len := Z.of_nat (length file) in
  let mapped := (len + PAGE_SIZE - 1) / PAGE_SIZE * PAGE_SIZE in
  if mapped <? aligned + bias + section_size then raise Segv else
  mret (Some (take (Z.to_nat section_size)
                (drop (Z.to_nat (aligned + bias))
                   (file ++ replicate (Z.to_nat (mapped - len)) 0)%list))).

(** A field of [n] bytes at offset [o] of a heap copy. *)
Definition buf_field (buf : list Z) (o : Z) (n : nat) : result Z :=
  if (0 <=? o) && (o + Z.of_nat n <=? Z.of_nat (length buf))
  then Ok (le_word (take n (drop (Z.to_nat o) buf))) else Undef.

Definition buf_word (buf : list Z) (o o32 o64 : Z) : result Z :=
  buf_field buf (o + at_ o32 o64) (Z.to_nat word_bytes).

Definition sizeof_Shdr : Z := at_ 40 64.

(** [shdrs[i]]: type, offset, size and entry size. *)
Record shdr := MkShdr { sh_type : Z; sh_offset : Z; sh_size : Z; sh_entsize : Z }.

Definition get_shdr (shdrs : list Z) (i : Z) : result shdr :=
  let o := i * sizeof_Shdr in
  t ← buf_field shdrs (o + 4) 4;
  off ← buf_word shdrs o 16 24;
  sz ← buf_word shdrs o 20 32;
  en ← buf_word shdrs o 36 56;
  Ok (MkShdr t off sz en).

(** [sh_size / sh_entsize], as an ElfW(Word). *)
Definition entries (h : shdr) : result Z :=
  if sh_entsize h =? 0 then Undef else Ok (u32 (sh_size h / sh_entsize h)).

(** [strtbl_ok], [symtbl_ok], [dynsym_ok]. *)
Record loaded := MkLoaded { strtbl_ok : bool; symtbl_ok : bool; dynsym_ok : bool }.

Definition enough (l : loaded) : bool := strtbl_ok l && (symtbl_ok l || dynsym_ok l).

(** One iteration of the loop over section headers. *)
Definition load_one (file : list Z) (shstrndx idx : Z) (h : shdr) (i : semi_dlinfo) (l : loaded)
  : M St (semi_dlinfo * loaded) :=
  if (sh_type h =? SHT_STRTAB) && negb (idx =? shstrndx) then
    b ← load_section (pathname i) file (sh_offset h) (sh_size h);
    match b with
    | Some b => mret (set_tables (Some b) (syms i) (sym_count i) (dynsyms i) (dynsym_count i) i,
                      MkLoaded true (symtbl_ok l) (dynsym_ok l))
    | None => mret (set_tables None (syms i) (sym_count i) (dynsyms i) (dynsym_count i) i,
                    MkLoaded false (symtbl_ok l) (dynsym_ok l))
    end
  else if sh_type h =? SHT_SYMTAB then
    b ← load_section (pathname i) file (sh_offset h) (sh_size h);
    match b with
    | Some b =>
        n ← raise (entries h);
        mret (set_tables (strs i) (Some b) n (dynsyms i) (dynsym_count i) i,
              MkLoaded (strtbl_ok l) true (dynsym_ok l))
    | None => mret (set_tables (strs i) None 0 (dynsyms i) (dynsym_count i) i,
                    MkLoaded (strtbl_ok l) false (dynsym_ok l))
    end
  else if sh_type h =? SHT_DYNSYM then
    b ← load_section (pathname i) file (sh_offset h) (sh_size h);
    match b with
    | Some b =>
        n ← raise (entries h);
        mret (set_tables (strs i) (syms i) (sym_count i) (Some b) n i,
              MkLoaded (strtbl_ok l) (symtbl_ok l) true)
    | None => mret (set_tables (strs i) (syms i) (sym_count i) None 0 i,
                    MkLoaded (strtbl_ok l) (symtbl_ok l) false)
    end
  else mret (i, l).

(** The loop: [n] headers, from index [n - 1] down to 0. *)
Fixpoint load_loop (file shdrs : list Z) (shstrndx : Z) (n : nat) (i : semi_dlinfo) (l : loaded)
  : M St (semi_dlinfo * loaded) :=
  match n with
  | O => mret (i, l)
  | S n =>
      h ← raise (get_shdr shdrs (Z.of_nat n));
      '(i, l) ← load_one file shstrndx (Z.of_nat n) h i l;
      if enough l then mret (i, l) else load_loop file shdrs shstrndx n i l
  end.

(** Return value and the structure.  Opening a path that no longer exists in memory is
    undefined. *)
Definition fill_rest_neccessary_data (i : semi_dlinfo) : M St (bool * semi_dlinfo) :=
  phnum ← reads (fun s => e_phnum (dl_mach s) (ehdr i));
  if negb (phdr_count i =? phnum) then mret (false, i) else
  if negb (pathname_static i) then raise Undef else
  match open_file (pathname i) with
  | None => mret (false, i)
  | Some file =>
      shoff ← reads (fun s => e_shoff (dl_mach s) (ehdr i));
      entsize ← reads (fun s => e_shentsize (dl_mach s) (ehdr i));
      shnum ← reads (fun s => e_shnum (dl_mach s) (ehdr i));
      b ← load_section (pathname i) file shoff (entsize * shnum);
      match b with
      | None => mret (false, i)
      | Some shdrs =>
          shstrndx ← reads (fun s => e_shstrndx (dl_mach s) (ehdr i));
          '(i, l) ← load_loop file shdrs shstrndx (Z.to_nat shnum) i (MkLoaded false false false);
          if enough l then mret (true, i)
          else mret (false, set_tables None None (match syms i with Some _ => 0 | None => sym_count i end)
                              None
                              (match dynsyms i with Some _ => 0 | None => dynsym_count i end) i)
      end
  end.

(** ** Symbols *)

(** [strcmp(strs + off, name) == 0] in a heap copy. *)
Fixpoint buf_streq (name : list Z) (rest : list Z) : result bool :=
  match rest with
  | [] => Undef
  | c :: rest =>
      match name with
      | [] => Ok (c =? 0)
      | d :: name => if c =? d then buf_streq name rest else Ok false
      end
  end.

(** Is entry [i] of the table a function or an object called [name]? *)
Definition sym_is (strtab tab name : list Z) (i : Z) : result bool :=
  info ← buf_field tab (i * sizeof_Sym + at_ 12 4) 1;
  nm ← buf_field tab (i * sizeof_Sym) 4;
  if (ST_TYPE info =? STT_FUNC) || (ST_TYPE info =? STT_OBJECT)
  then if nm <=? Z.of_nat (length strtab) then buf_streq name (drop (Z.to_nat nm) strtab) else Undef
  else Ok false.

(** The loop over a table: [n] entries from [i] on. *)
Fixpoint sym_loop (n : nat) (strtab tab name : list Z) (i : Z) : result (option Z) :=
  match n with
  | O => Ok None
  | S n =>
      hit ← sym_is strtab tab name i;
      if (hit : bool)
      then v ← buf_word tab (i * sizeof_Sym) 4 8; Ok (Some v)
      else sym_loop n strtab tab name (i + 1)
  end.

(** [NULL] is 0. *)
Definition semi_dlsym (i : semi_dlinfo) (name : list Z) : result Z :=
  if negb (magic i =? SEMI_DLINFO_MAGIC) then Ok 0 else
  let st := default [] (strs i) in
  r ← sym_loop (Z.to_nat (sym_count i)) st (default [] (syms i)) name 0;
  match r with
  | Some v => Ok (uword (load_bias i + v))
  | None =>
      r ← sym_loop (Z.to_nat (dynsym_count i)) st (default [] (dynsyms i)) name 0;
      match r with
      | Some v => Ok (uword (load_bias i + v))
      | None => Ok 0
      end
  end.

(** ** The walk over loaded libraries *)

Definition LINKER_DL_MUTEX_SYMNAME : list Z := bytes_of "__dl__ZL10g_dl_mutex".

(** The linker's own entry, as [get_dl_mutex_address] and [semi_dl_iterate_phdr] build it. *)
Definition linker_info (base : Z) : M St dl_phdr_info :=
  phoff ← reads (fun s => e_phoff (dl_mach s) base);
  phnum ← reads (fun s => e_phnum (dl_mach s) base);
  let phdr := uword (base + phoff) in
  bias ← reads (fun s => find_load_bias (dl_mach s) base phdr phnum);
  mret (MkInfo (Some LINKER_PATHNAME_SUFFIX) bias phdr phnum true).

Definition get_dl_mutex_address : M St Z :=
  a ← gets (fun s => s_dl_mutex_address (dl_get s));
  if negb (a =? 0) then mret a else
  base ← get_linker_base_address;
  if base =? 0 then mret 0 else
  info ← linker_info base;
  '(_, i) ← fill_rest_neccessary_data
              (MkDl SEMI_DLINFO_MAGIC LINKER_PATHNAME_SUFFIX true base (dlpi_phdr info)
                 (dlpi_phnum info) (dlpi_addr info) None None 0 None 0);
  a ← raise (semi_dlsym i LINKER_DL_MUTEX_SYMNAME);
  put_mutex a;; mret a.

(** [dl_iterate_phdr] with the wrapper that skips entries without a name. *)
Definition dl_iterate_phdr_npe_avoidance_cb {T} (cb : dl_phdr_info -> T -> M St (Z * T))
    (info : dl_phdr_info) (data : T) : M St (Z * T) :=
  match dlpi_name info with
  | None => mret (0, data)
  | Some _ => cb info data
  end.

Fixpoint dl_iterate {T} (cb : dl_phdr_info -> T -> M St (Z * T)) (infos : list dl_phdr_info)
    (data : T) : M St (Z * T) :=
  match infos with
  | [] => mret (0, data)
  | info :: infos =>
      '(res, data) ← cb info data;
      if negb (res =? 0) then mret (res, data) else dl_iterate cb infos data
  end.

Definition dl_iterate_phdr {T} (cb : dl_phdr_info -> T -> M St (Z * T)) (data : T)
  : M St (Z * T) :=
  infos ← gets (fun s => dl_objects (dl_mach s));
  dl_iterate cb infos data.

(** The linker first, where its base is known, then the loaded objects. *)
Definition iterate_with_linker {T} (cb : dl_phdr_info -> T -> M St (Z * T)) (data : T)
  : M St (Z * T) :=
  base ← get_linker_base_address;
  '(ret, data) ← (if base =? 0 then mret (0, data)
                  else info ← linker_info base; cb info data);
  if negb (ret =? 0) then mret (ret, data)
  else dl_iterate_phdr (dl_iterate_phdr_npe_avoidance_cb cb) data.

Definition semi_dl_iterate_phdr {T} (cb : dl_phdr_info -> T -> M St (Z * T)) (data : T)
  : M St (Z * T) :=
  let fallback_to_legacy :=
    match own_fname with Some f => negb (nth 0 f 0 =? 47) | None => false end in
  if (api_level <? 21) || fallback_to_legacy then legacy_iterate_maps cb data
  else if api_level <=? 22 then
    dl_mutex ← get_dl_mutex_address;
    (if dl_mutex =? 0 then mret tt else put_held true);;
    r ← iterate_with_linker cb data;
    (if dl_mutex =? 0 then mret tt else put_held false);;
    mret r
  else iterate_with_linker cb data.

(** ** Opening a library *)

(** Does the path end with the suffix?  [strncmp] on the last [length suffix] characters. *)
Definition ends_with (path suffix : list Z) : bool :=
  strneq (length suffix) (drop (length path - length suffix) path) suffix.

Definition dlopen_iter_cb (suffix : list Z) (info : dl_phdr_info) (i : semi_dlinfo)
  : M St (Z * semi_dlinfo) :=
  match dlpi_name info with
  | None => mret (0, i)
  | Some path =>
      if (length path <? length suffix)%nat then mret (0, i) else
      if ends_with path suffix then
        p ← reads (fun s => first_load (dl_mach s) (dlpi_phdr info) (dlpi_phnum info));
        eh ← match p with
             | Some p => v ← reads (fun s => p_vaddr (dl_mach s) p);
                         mret (uword (dlpi_addr info + v))
             | None => mret (ehdr i)
             end;
        mret (1, MkDl (magic i) path (name_static info) eh (dlpi_phdr info) (dlpi_phnum info)
                   (dlpi_addr info) (strs i) (syms i) (sym_count i) (dynsyms i) (dynsym_count i))
      else mret (0, i)
  end.

(** [None] is [NULL]. *)
Definition semi_dlopen (pathname : option (list Z)) : M St (option semi_dlinfo) :=
  match pathname with
  | None => mret None
  | Some [] => mret None
  | Some ((c :: _) as path) =>
      suffix ← (if c =? 47 then mret (Some path)
                else ok ← dl_alloc; mret (if (ok : bool) then Some (47 :: path) else None));
      match suffix with
      | None => mret None
      | Some suffix =>
          ok ← dl_alloc;
          if negb ok then mret None else
          '(_, i) ← semi_dl_iterate_phdr (dlopen_iter_cb suffix)
                      (MkDl SEMI_DLINFO_MAGIC [] true 0 0 0 0 None None 0 None 0);
          if ehdr i =? 0 then mret None else
          '(ok, i) ← fill_rest_neccessary_data i;
          mret (if (ok : bool) then Some i else None)
      end
  end.

(** What is left of a handle: nothing, or the handle where its magic is wrong. *)
Definition semi_dlclose (h : option semi_dlinfo) : option semi_dlinfo :=
  match h with
  | None => None
  | Some i => if magic i =? SEMI_DLINFO_MAGIC then None else Some i
  end.
End Code.
End SemiDlfcn.

Module SemiFacts.
Import SemiDlfcn.

Section Facts.
Context `{Ar : Arch} `{K : Kernel} `{L : Linker} {St : Type} `{D : DlState St}.

(** ** Header check *)

(** Both header checks read the same bytes and stop at the same place. *)
Lemma check_require b k1 k2 : k1 = (r ← k2; Ok (r =? 0)) ->
  check b k1 = (r ← XhElf.require b k2; Ok (r =? 0)).
Proof. intros ->. by destruct b. Qed.

(** [validate_elf_header], the copy in semi_dlfcn.c of the header check of xhook, accepts
    exactly the headers that [xh_elf_check_elfheader] accepts, on every address space and
    architecture, and faults on the same ones. *)
Lemma validate_elf_header_same (m : machine) (base : Z) :
  validate_elf_header m base
  = (r ← XhElf.xh_elf_check_elfheader m base; Ok (r =? 0)).
Proof.
  unfold validate_elf_header, XhElf.xh_elf_check_elfheader.
  destruct (load_bytes m base SELFMAG); [|done..]. cbn [mbind result_bind].
  apply check_require. destruct (e_ident m base EI_CLASS); [|done..]. cbn [mbind result_bind].
  apply check_require. destruct (e_ident m base EI_DATA); [|done..]. cbn [mbind result_bind].
  apply check_require. destruct (e_ident m base EI_VERSION); [|done..]. cbn [mbind result_bind].
  apply check_require. destruct (e_type m base); [|done..]. cbn [mbind result_bind].
  apply check_require. destruct (e_machine m base); [|done..]. cbn [mbind result_bind].
  apply check_require. destruct (e_version m base); [|done..]. cbn [mbind result_bind].
  by apply check_require.
Qed.

(** ** The base of the linker *)

Lemma find_linker_base_cb_0 info b : find_linker_base_iter_cb info b = (mret (0, b) : M St (Z * Z)).
Proof.
  unfold find_linker_base_iter_cb, LINKER_PATHNAME_SUFFIX_LEN, LINKER_PATHNAME_SUFFIX, is_lp64.
  by destruct word_bytes_cases as [[-> ->]|[-> ->]].
Qed.

Lemma legacy_loop_linker lines : forall b (s : St) r s',
  legacy_loop find_linker_base_iter_cb lines b s = (Ok r, s') -> snd r = b /\ s' = s.
Proof.
  induction lines as [|line lines IH]; intros b s r s'; cbn [legacy_loop].
  { by intros [= <- <-]. }
  destruct (legacy_line line) as [[base path]|]; [|apply IH].
  intros H. case_run H. injection Hrun as <- <-.
  destruct (dladdr_known (dl_mach s) base); [|by apply IH]. cbn [negb] in H.
  case_run H. unfold reads in Hrun. injection Hrun as Hv <-.
  destruct a; [|by apply IH]. cbn [negb] in H.
  case_run H. unfold reads in Hrun. injection Hrun as Hi <-.
  rewrite find_linker_base_cb_0 in H. by apply IH.
Qed.

(** Without [AT_BASE] the linker is never found.  The fallback of
    [get_linker_base_address] walks over /proc/self/maps, but its callback measures the
    path with [sizeof] of the pointer, which is shorter than the suffix it looks for on
    every ABI: whatever is mapped, where the base was not cached and the auxiliary vector
    has none, the address returned and cached is 0. *)
Lemma linker_base_never_found (s : St) (r : Z) (s' : St) :
  s_linker_base (dl_get s) = 0 -> at_base = 0 ->
  get_linker_base_address s = (Ok r, s') ->
  r = 0 /\ s_linker_base (dl_get s') = 0.
Proof.
  intros Hs Hb H. unfold get_linker_base_address in H. case_run H. injection Hrun as <- <-.
  rewrite Hs in H. cbn [Z.eqb negb] in H. case_run H. injection Hrun as <- <-.
  rewrite Hb in H. cbn [Z.eqb] in H. case_run H. destruct a as [res b].
  assert (b = 0) as ->.
  { unfold legacy_iterate_maps in Hrun. case_run Hrun. injection Hrun0 as <- <-.
    destruct (proc_self_maps _) as [text|]; [|by injection Hrun].
    by apply legacy_loop_linker in Hrun as [? _]. }
  case_run H. injection Hrun0 as <- <-. injection H as <- <-. split; [done|].
  by rewrite dl_get_put.
Qed.

(** ** Which objects are visited *)

(** A callback that only computes. *)
Definition pure_cb {T} (f : dl_phdr_info -> T -> Z * T) (info : dl_phdr_info) (data : T)
  : M St (Z * T) := mret (f info data).

(** Folding a callback over a list until it returns non-zero. *)
Fixpoint fold_until {T} (f : dl_phdr_info -> T -> Z * T) (l : list dl_phdr_info) (data : T)
  : Z * T :=
  match l with
  | [] => (0, data)
  | info :: l =>
      let '(res, data) := f info data in
      if negb (res =? 0) then (res, data) else fold_until f l data
  end.

Definition has_name (info : dl_phdr_info) : Prop := is_Some (dlpi_name info).

#[global] Instance has_name_dec info : Decision (has_name info).
Proof. unfold has_name. apply _. Defined.

Lemma dl_iterate_pure {T} (f : dl_phdr_info -> T -> Z * T) l : forall data s,
  dl_iterate (dl_iterate_phdr_npe_avoidance_cb (pure_cb f)) l data s
  = (Ok (fold_until f (filter has_name l) data), s).
Proof.
  induction l as [|info l IH]; intros data s; [done|]. cbn [dl_iterate].
  rewrite filter_cons. destruct (decide (has_name info)) as [[nm E]|E].
  - assert (dl_iterate_phdr_npe_avoidance_cb (pure_cb f) info data = mret (f info data)) as ->
      by (unfold dl_iterate_phdr_npe_avoidance_cb; by rewrite E).
    cbn [fold_until]. unfold_M. destruct (f info data) as [res data'].
    destruct (negb (res =? 0)); [done|]. apply IH.
  - assert (dl_iterate_phdr_npe_avoidance_cb (pure_cb f) info data = mret (0, data)) as ->
      by (unfold dl_iterate_phdr_npe_avoidance_cb; destruct (dlpi_name info) eqn:?; [|done];
          exfalso; apply E; by eexists).
    unfold_M. apply IH.
Qed.

(** The base address that the library works with. *)
Definition linker_base (s : St) : Z :=
  if s_linker_base (dl_get s) =? 0 then at_base else s_linker_base (dl_get s).

Definition with_base (b : Z) (s : St) : St :=
  dl_put (MkSd b (s_dl_mutex_address (dl_get s)) (dl_mutex_held (dl_get s))) s.

Lemma get_linker_base_run (s : St) : linker_base s <> 0 ->
  get_linker_base_address s = (Ok (linker_base s), with_base (linker_base s) s).
Proof.
  intros Hb. unfold linker_base, get_linker_base_address, with_base, put_base in *. unfold_M.
  destruct (Z.eqb_spec (s_linker_base (dl_get s)) 0) as [E|E]; cbn [negb].
  - destruct (Z.eqb_spec at_base 0); [done|]. done.
  - f_equal. rewrite <- (dl_put_get s) at 1. f_equal. by destruct (dl_get s).
Qed.

(** The entry for the linker, from its header in memory. *)
Definition linker_entry (m : machine) (base : Z) (info : dl_phdr_info) : Prop :=
  exists phoff phnum bias, e_phoff m base = Ok phoff /\ e_phnum m base = Ok phnum
    /\ find_load_bias m base (uword (base + phoff)) phnum = Ok bias
    /\ info = MkInfo (Some LINKER_PATHNAME_SUFFIX) bias (uword (base + phoff)) phnum true.

Lemma linker_info_run (s : St) base info : linker_entry (dl_mach s) base info ->
  linker_info base s = (Ok info, s).
Proof.
  intros (phoff & phnum & bias & H1 & H2 & H3 & ->). unfold linker_info. unfold_M.
  by rewrite H1, H2, H3.
Qed.

Lemma dl_iterate_named {T} (cb : dl_phdr_info -> T -> M St (Z * T)) l : forall data s,
  dl_iterate (dl_iterate_phdr_npe_avoidance_cb cb) l data s
  = dl_iterate cb (filter has_name l) data s.
Proof.
  induction l as [|info l IH]; intros data s; [done|]. cbn [dl_iterate]. rewrite filter_cons.
  destruct (decide (has_name info)) as [[nm E]|E].
  - assert (dl_iterate_phdr_npe_avoidance_cb cb info data = cb info data) as ->
      by (unfold dl_iterate_phdr_npe_avoidance_cb; by rewrite E).
    cbn [dl_iterate]. unfold_M. destruct (cb info data s) as [[[res d]| | | |] s1]; try done.
    destruct (negb (res =? 0)); [done|]. apply IH.
  - assert (dl_iterate_phdr_npe_avoidance_cb cb info data = mret (0, data)) as ->
      by (unfold dl_iterate_phdr_npe_avoidance_cb; destruct (dlpi_name info) eqn:?; [|done];
          exfalso; apply E; by eexists).
    unfold_M. apply IH.
Qed.

(** The device has the new interface, and the list of loaded objects does not depend on
    the contents of memory. *)
Record modern (objs : list dl_phdr_info) : Prop := {
  md_api : 23 <= api_level;
  md_name : match own_fname with Some f => nth 0 f 0 = 47 | None => True end;
  md_objects : forall m, dl_objects m = objs
}.

(** For any callback, the walk is the walk over a list. *)
Lemma semi_iterate_as_list {T} (cb : dl_phdr_info -> T -> M St (Z * T)) data (s : St) info objs :
  modern objs -> linker_base s <> 0 -> linker_entry (dl_mach s) (linker_base s) info ->
  semi_dl_iterate_phdr cb data s
  = dl_iterate cb (info :: filter has_name objs) data (with_base (linker_base s) s).
Proof.
  intros [Hapi Hname Hobjs] Hb Hinfo. unfold semi_dl_iterate_phdr.
  replace (match own_fname with Some f => negb (nth 0 f 0 =? 47) | None => false end) with false
    by (destruct own_fname; [by rewrite Hname|done]).
  destruct (Z.ltb_spec api_level 21); [lia|]. cbn [orb].
  destruct (Z.leb_spec api_level 22); [lia|]. unfold iterate_with_linker.
  rewrite (M_bind_run _ _ _ _ _ (get_linker_base_run s Hb)).
  destruct (Z.eqb_spec (linker_base s) 0); [done|].
  assert (linker_entry (dl_mach (with_base (linker_base s) s)) (linker_base s) info) as Hi
    by (unfold with_base; by rewrite dl_mach_put).
  cbn [dl_iterate]. unfold mbind at 1 3, M_bind at 1 3.
  rewrite (M_bind_run _ _ _ _ _ (linker_info_run _ _ _ Hi)).
  destruct (cb info data _) as [[[res d]| | | |] s1]; try done.
  destruct (negb (res =? 0)); [done|]. unfold dl_iterate_phdr, gets.
  unfold mbind at 1, M_bind at 1. rewrite Hobjs. apply dl_iterate_named.
Qed.

(** C37. Which libraries a client sees.  From API level 23 on, where [dladdr] reports
    absolute names and the base of the linker is known, [semi_dl_iterate_phdr] calls the
    callback on the linker itself, with the program headers that its ELF header names, and
    then on every object of [dl_iterate_phdr] that has a name, in order, until the
    callback returns non-zero; that value is the result.  Apart from caching the base of
    the linker it changes nothing. *)
Theorem semi_dl_iterate_phdr_visits {T} (f : dl_phdr_info -> T -> Z * T) (data : T) (s : St)
    (info : dl_phdr_info) :
  23 <= api_level ->
  match own_fname with Some f => nth 0 f 0 = 47 | None => True end ->
  linker_base s <> 0 -> linker_entry (dl_mach s) (linker_base s) info ->
  semi_dl_iterate_phdr (pure_cb f) data s
  = (Ok (fold_until f (info :: filter has_name (dl_objects (dl_mach s))) data),
     with_base (linker_base s) s).
Proof.
  intros Hapi Hname Hb Hinfo. unfold semi_dl_iterate_phdr.
  replace (match own_fname with Some f => negb (nth 0 f 0 =? 47) | None => false end) with false
    by (destruct own_fname; [by rewrite Hname|done]).
  destruct (Z.ltb_spec api_level 21); [lia|]. cbn [orb].
  destruct (Z.leb_spec api_level 22); [lia|]. unfold iterate_with_linker.
  rewrite (M_bind_run _ _ _ _ _ (get_linker_base_run s Hb)).
  destruct (Z.eqb_spec (linker_base s) 0); [done|].
  assert (linker_entry (dl_mach (with_base (linker_base s) s)) (linker_base s) info) as Hi
    by (unfold with_base; by rewrite dl_mach_put).
  unfold mbind at 1, M_bind at 1. rewrite (M_bind_run _ _ _ _ _ (linker_info_run _ _ _ Hi)).
  cbn [fold_until]. unfold pure_cb at 1. unfold mret, M_ret.
  destruct (f info data) as [res data']. destruct (negb (res =? 0)); [done|].
  unfold dl_iterate_phdr, gets. unfold mbind at 1, M_bind at 1. rewrite dl_iterate_pure.
  unfold with_base. by rewrite dl_mach_put.
Qed.

(** ** Opening a library in legacy mode *)

(** A handle that was found has a name on the stack of the walk that found it. *)
Definition stack_name (i : semi_dlinfo) : Prop := ehdr i <> 0 -> pathname_static i = false.

Lemma legacy_info_stack m base path info : legacy_info m base path = Ok info -> name_static info = false.
Proof.
  unfold legacy_info. intros H. apply result_bind_Ok in H as (? & _ & H).
  apply result_bind_Ok in H as (? & _ & H). apply result_bind_Ok in H as (? & _ & H).
  by injection H as <-.
Qed.

Lemma dlopen_cb_stack suffix info i (s : St) res i' s' : name_static info = false -> stack_name i ->
  dlopen_iter_cb suffix info i s = (Ok (res, i'), s') -> stack_name i'.
Proof.
  intros Hs Hi H. unfold dlopen_iter_cb in H. destruct (dlpi_name info); [|by injection H as <- <-].
  destruct (_ <? _)%nat; [by injection H as <- <-|].
  destruct (ends_with _ _); [|by injection H as <- <-].
  case_run H. case_run H. injection H as <- <- _. intros _. done.
Qed.

(** An invariant of the callback's data is an invariant of the walk. *)
Lemma legacy_loop_inv {T} (P : T -> Prop) (cb : dl_phdr_info -> T -> M St (Z * T)) lines :
  (forall info data s res data' s', name_static info = false -> P data ->
     cb info data s = (Ok (res, data'), s') -> P data') ->
  forall data s res data' s', P data ->
  legacy_loop cb lines data s = (Ok (res, data'), s') -> P data'.
Proof.
  intros Hcb. induction lines as [|line lines IH]; intros data s res data' s' Hi H;
    cbn [legacy_loop] in H.
  { by injection H as <- <-. }
  destruct (legacy_line line) as [[base path]|]; [|by eapply IH].
  case_run H. destruct (negb a); [by eapply IH|].
  case_run H. destruct (negb a0); [by eapply IH|].
  case_run H. unfold reads in Hrun1. injection Hrun1 as Hinfo <-.
  case_run H. destruct a2 as [res1 i1]. apply legacy_info_stack in Hinfo.
  pose proof (Hcb _ _ _ _ _ _ Hinfo Hi Hrun1) as Hi1.
  destruct (negb (res1 =? 0)); [by injection H as <- <-|]. by eapply IH.
Qed.

Lemma legacy_inv {T} (P : T -> Prop) (cb : dl_phdr_info -> T -> M St (Z * T)) :
  (forall info data s res data' s', name_static info = false -> P data ->
     cb info data s = (Ok (res, data'), s') -> P data') ->
  forall data s res data' s', P data ->
  legacy_iterate_maps cb data s = (Ok (res, data'), s') -> P data'.
Proof.
  intros Hcb data s res data' s' Hi H. unfold legacy_iterate_maps in H. case_run H.
  destruct a as [text|]; [by eapply legacy_loop_inv|by injection H as _ <- _].
Qed.

Lemma dl_iterate_inv {T} (P : T -> Prop) (cb : dl_phdr_info -> T -> M St (Z * T)) l :
  (forall info data s res data' s', P data -> cb info data s = (Ok (res, data'), s') -> P data') ->
  forall data s res data' s', P data -> dl_iterate cb l data s = (Ok (res, data'), s') -> P data'.
Proof.
  intros Hcb. induction l as [|info l IH]; intros data s res data' s' Hi H; cbn [dl_iterate] in H.
  { by injection H as <- <-. }
  case_run H. destruct a as [res1 d1]. pose proof (Hcb _ _ _ _ _ _ Hi Hrun) as Hi1.
  destruct (negb (res1 =? 0)); [by injection H as <- <-|]. by eapply IH.
Qed.

Lemma with_linker_inv {T} (P : T -> Prop) (cb : dl_phdr_info -> T -> M St (Z * T)) :
  (forall info data s res data' s', P data -> cb info data s = (Ok (res, data'), s') -> P data') ->
  forall data s res data' s', P data ->
  iterate_with_linker cb data s = (Ok (res, data'), s') -> P data'.
Proof.
  intros Hcb data s res data' s' Hi H. unfold iterate_with_linker in H. case_run H.
  case_run H. destruct a0 as [res1 d1].
  assert (P d1) as Hd1.
  { destruct (a =? 0); [by injection Hrun0 as _ <- _|]. case_run Hrun0. by eapply Hcb. }
  destruct (negb (res1 =? 0)); [by injection H as _ <- _|].
  unfold dl_iterate_phdr in H. case_run H. eapply dl_iterate_inv; [|exact Hd1|exact H].
  intros info d t r d' t' Hd Hr. unfold dl_iterate_phdr_npe_avoidance_cb in Hr.
  destruct (dlpi_name info); [by eapply Hcb|by injection Hr as _ <- _].
Qed.

Lemma semi_iterate_inv {T} (P : T -> Prop) (cb : dl_phdr_info -> T -> M St (Z * T)) :
  (forall info data s res data' s', P data -> cb info data s = (Ok (res, data'), s') -> P data') ->
  forall data s res data' s', P data ->
  semi_dl_iterate_phdr cb data s = (Ok (res, data'), s') -> P data'.
Proof.
  intros Hcb data s res data' s' Hi H. unfold semi_dl_iterate_phdr in H.
  destruct (_ || _); [eapply legacy_inv; [|exact Hi|exact H]; eauto|].
  destruct (api_level <=? 22); [|by eapply with_linker_inv].
  case_run H. case_run H. case_run H. destruct a1 as [r d]. case_run H. injection H as -> -> _.
  by eapply with_linker_inv.
Qed.

Lemma fill_stack i (s : St) i' s' : pathname_static i = false ->
  fill_rest_neccessary_data i s = (Ok (true, i'), s') -> False.
Proof.
  intros Hi H. unfold fill_rest_neccessary_data in H. case_run H.
  destruct (negb (_ =? _)); [done|]. by rewrite Hi in H.
Qed.

(** Legacy mode cannot open libraries.  Below API level 21 the name of a library that
    [semi_dlopen] finds points into a buffer on the stack of [legacy_iterate_maps], which
    has returned when [fill_rest_neccessary_data] opens that name: whatever is loaded, the
    call returns [NULL], or its behaviour is undefined. *)
Lemma semi_dlopen_legacy (path : option (list Z)) (s : St) (r : option semi_dlinfo) (s' : St) :
  api_level < 21 -> semi_dlopen path s = (Ok r, s') -> r = None.
Proof.
  intros Hapi H. unfold semi_dlopen in H. destruct path as [[|c path]|]; [by injection H| |by injection H].
  case_run H. destruct a as [suffix|]; [|by injection H as <-].
  case_run H. destruct (negb a); [by injection H as <-|].
  case_run H. destruct a0 as [res i].
  assert (stack_name i) as Hi.
  { unfold semi_dl_iterate_phdr in Hrun1. destruct (Z.ltb_spec api_level 21); [|lia].
    cbn [orb] in Hrun1. eapply (legacy_inv stack_name); [| |exact Hrun1]; [|intros Hne; by destruct Hne].
    intros info d t q d' t' Hs Hd Hr. by eapply dlopen_cb_stack. }
  destruct (Z.eqb_spec (ehdr i) 0) as [|Hne]; [by injection H as <-|].
  case_run H. destruct a0 as [ok i']. destruct ok; [|by injection H as <-].
  exfalso. eapply fill_stack; [|exact Hrun2]. by apply Hi.
Qed.

(** ** Sections *)

Lemma page_floor off : Z.land off (Z.lnot (PAGE_SIZE - 1)) = off / PAGE_SIZE * PAGE_SIZE.
Proof. apply (XhUtilFacts.PAGE_START_page off). Qed.

(** Reading a section.  Where the section lies inside the file, the mapping is granted
    and the allocation succeeds, [load_section] returns exactly the bytes of the file at
    the offset, although it maps from the page boundary below; it never reads past the
    mapping, whatever the alignment. *)
Lemma load_section_correct (path file : list Z) (off size : Z) (s s1 : St) :
  0 <= off -> 0 <= size -> off + size <= Z.of_nat (length file) ->
  mmap_allowed path (off / PAGE_SIZE * PAGE_SIZE) (size + PAGE_SIZE) = true ->
  dl_alloc s = (Ok true, s1) ->
  load_section path file off size s
  = (Ok (Some (take (Z.to_nat size) (drop (Z.to_nat off) file))), s1).
Proof.
  intros H0 Hs Hlen Hm Ha. unfold load_section. rewrite page_floor, Hm. cbn [negb].
  rewrite (M_bind_run _ _ _ _ _ Ha). cbn [negb]. pose proof PAGE_SIZE_pos as Hp.
  rewrite Zplus_minus. set (len := Z.of_nat (length file)) in *.
  assert (len <= (len + PAGE_SIZE - 1) / PAGE_SIZE * PAGE_SIZE).
  { Z.to_euclidean_division_equations. nia. }
  destruct (Z.ltb_spec ((len + PAGE_SIZE - 1) / PAGE_SIZE * PAGE_SIZE) (off + size)); [lia|].
  unfold_M. do 3 f_equal. rewrite drop_app_le by lia. apply take_app_le. rewrite length_drop. lia.
Qed.

(** ** Symbols *)

Record symbol := MkSymbol { sy_type : Z; sy_name : list Z; sy_value : Z }.

(** The string [s] with its terminator is at the start of the buffer. *)
Definition cstr (buf s : list Z) : Prop := exists rest, buf = (s ++ 0 :: rest)%list.

(** Entry [i] of a symbol table on the heap. *)
Definition entry_at (strtab tab : list Z) (i : Z) (e : symbol) : Prop :=
  exists info nm, buf_field tab (i * sizeof_Sym + at_ 12 4) 1 = Ok info
    /\ ST_TYPE info = sy_type e
    /\ buf_field tab (i * sizeof_Sym) 4 = Ok nm
    /\ 0 <= nm <= Z.of_nat (length strtab)
    /\ cstr (drop (Z.to_nat nm) strtab) (sy_name e) /\ is_cstring (sy_name e)
    /\ buf_word tab (i * sizeof_Sym) 4 8 = Ok (sy_value e).

Definition table_at (strtab tab : list Z) (l : list symbol) : Prop :=
  forall i e, l !! i = Some e -> entry_at strtab tab (Z.of_nat i) e.

(** A function or an object of that name. *)
Definition wanted (name : list Z) (e : symbol) : Prop :=
  (sy_type e = STT_FUNC \/ sy_type e = STT_OBJECT) /\ sy_name e = name.

#[global] Instance wanted_dec name e : Decision (wanted name e).
Proof. unfold wanted. apply _. Defined.

Lemma buf_streq_correct name : forall s rest, is_cstring name -> is_cstring s ->
  buf_streq name (s ++ 0 :: rest)%list = Ok (bool_decide (s = name)).
Proof.
  induction name as [|d name IH]; intros [|c s] rest Hn Hs; cbn [app buf_streq].
  - done.
  - apply Forall_cons in Hs as [Hc _]. rewrite bool_decide_false by done.
    by destruct (Z.eqb_spec c 0); [lia|].
  - apply Forall_cons in Hn as [Hd _]. rewrite bool_decide_false by done.
    by destruct (Z.eqb_spec 0 d); [lia|].
  - apply Forall_cons in Hn as [Hd Hn]. apply Forall_cons in Hs as [Hc Hs].
    destruct (Z.eqb_spec c d) as [-> | Hne].
    + rewrite IH by done. f_equal. apply bool_decide_ext. split; congruence.
    + rewrite bool_decide_false; [done|congruence].
Qed.

Lemma sym_is_correct strtab tab name i e : is_cstring name -> entry_at strtab tab i e ->
  sym_is strtab tab name i = Ok (bool_decide (wanted name e)).
Proof.
  intros Hn (info & nm & H1 & Ht & H2 & Hnm & [rest Hs] & Hc & _). unfold sym_is.
  rewrite H1. cbn [mbind result_bind]. rewrite H2. cbn [mbind result_bind]. rewrite Ht.
  unfold wanted. destruct (Z.eqb_spec (sy_type e) STT_FUNC) as [E1|E1];
    [|destruct (Z.eqb_spec (sy_type e) STT_OBJECT) as [E2|E2]]; cbn [orb].
  1,2: destruct (Z.leb_spec nm (Z.of_nat (length strtab))); [|lia];
    rewrite Hs, buf_streq_correct by done; f_equal; apply bool_decide_ext; tauto.
  rewrite bool_decide_false; [done|]. tauto.
Qed.

Lemma sym_loop_correct strtab tab name l : is_cstring name ->
  forall k, (forall i e, l !! i = Some e -> entry_at strtab tab (Z.of_nat (k + i)) e) ->
  sym_loop (length l) strtab tab name (Z.of_nat k)
  = Ok (sy_value ∘ snd <$> list_find (wanted name) l).
Proof.
  intros Hn. induction l as [|e l IH]; intros k Hl; [done|]. cbn [length sym_loop list_find].
  pose proof (Hl 0%nat e eq_refl) as He. rewrite Nat.add_0_r in He.
  rewrite (sym_is_correct _ _ _ _ e) by done. cbn [mbind result_bind].
  destruct He as (_ & _ & _ & _ & _ & _ & _ & _ & Hv).
  destruct (decide (wanted name e)) as [Hw|Hw].
  - rewrite bool_decide_true by done. by rewrite Hv.
  - rewrite bool_decide_false by done.
    replace (Z.of_nat k + 1) with (Z.of_nat (S k)) by lia. rewrite IH.
    + f_equal. by destruct (list_find _ l) as [[? ?]|].
    + intros i e' Hi. replace (S k + i)%nat with (k + S i)%nat by lia. by apply Hl.
Qed.

(** C38. [semi_dlsym] on a handle whose tables were loaded returns the load bias plus the
    value of the first function or object of that name, .symtab before .dynsym, and
    [NULL] exactly where neither has one; other symbol types are passed over even where
    their name matches, and every access stays inside the loaded tables. *)
Theorem semi_dlsym_correct (i : semi_dlinfo) (name : list Z) (l1 l2 : list symbol) :
  magic i = SEMI_DLINFO_MAGIC -> is_cstring name ->
  table_at (default [] (strs i)) (default [] (syms i)) l1 ->
  table_at (default [] (strs i)) (default [] (dynsyms i)) l2 ->
  sym_count i = Z.of_nat (length l1) -> dynsym_count i = Z.of_nat (length l2) ->
  semi_dlsym i name
  = Ok (match list_find (wanted name) (l1 ++ l2) with
        | Some (_, e) => uword (load_bias i + sy_value e)
        | None => 0
        end).
Proof.
  intros Hm Hn H1 H2 C1 C2. unfold semi_dlsym. rewrite Hm, C1, C2, !Nat2Z.id, Z.eqb_refl. cbn [negb].
  rewrite (sym_loop_correct _ _ name l1 Hn 0%nat) by done. cbn [mbind result_bind].
  destruct (list_find (wanted name) l1) as [[k e]|] eqn:E1.
  { by rewrite (list_find_app_l _ _ _ _ _ E1). }
  rewrite (list_find_app_r _ _ _ E1). cbn [fmap option_fmap option_map].
  rewrite (sym_loop_correct _ _ name l2 Hn 0%nat) by done. cbn [mbind result_bind].
  by destruct (list_find (wanted name) l2) as [[k e]|].
Qed.

(** ** Handles *)

(** The flags of the loop say which tables are there. *)
Record tables_ok (i : semi_dlinfo) (l : loaded) : Prop := {
  to_strs : strtbl_ok l = true -> is_Some (strs i);
  to_syms : symtbl_ok l = true -> is_Some (syms i);
  to_dyn : dynsym_ok l = true -> is_Some (dynsyms i)
}.

(** What identifies the library of a handle. *)
Definition same_library (i i' : semi_dlinfo) : Prop :=
  magic i' = magic i /\ pathname i' = pathname i /\ ehdr i' = ehdr i /\ load_bias i' = load_bias i.

Ltac handle_done :=
  match goal with H : _ = (Ok (_, _), _) |- _ => injection H as <- <- _ end;
  split; [by split|]; by split; simpl; eauto.

Lemma load_one_ok file ndx idx h i l (s : St) i' l' s' : tables_ok i l ->
  load_one file ndx idx h i l s = (Ok (i', l'), s') -> same_library i i' /\ tables_ok i' l'.
Proof.
  intros [H1 H2 H3] H. unfold load_one in H.
  destruct (_ && _); [case_run H; destruct a; handle_done|].
  destruct (sh_type h =? SHT_SYMTAB).
  { case_run H. destruct a; [|handle_done]. case_run H. handle_done. }
  destruct (sh_type h =? SHT_DYNSYM); [|handle_done].
  case_run H. destruct a; [|handle_done]. case_run H. handle_done.
Qed.

Lemma load_loop_ok file shdrs ndx n : forall i l (s : St) i' l' s', tables_ok i l ->
  load_loop file shdrs ndx n i l s = (Ok (i', l'), s') -> same_library i i' /\ tables_ok i' l'.
Proof.
  induction n as [|n IH]; intros i l s i' l' s' Ht H; cbn [load_loop] in H.
  { injection H as <- <- _. split; [by split|done]. }
  case_run H. case_run H. destruct a0 as [i1 l1].
  apply (load_one_ok file ndx) in Hrun0 as [(E1 & E2 & E3 & E4) Ht1]; [|done].
  destruct (enough l1).
  - injection H as <- <- _. split; [by split|done].
  - apply IH in H as [(F1 & F2 & F3 & F4) Ht']; [|done].
    split; [|done]. split; [congruence|]. split_and!; congruence.
Qed.

Lemma fill_ok i (s : St) i' s' :
  strs i = None -> syms i = None -> dynsyms i = None ->
  fill_rest_neccessary_data i s = (Ok (true, i'), s') ->
  same_library i i' /\ is_Some (strs i') /\ (is_Some (syms i') \/ is_Some (dynsyms i')).
Proof.
  intros _ _ _ H. unfold fill_rest_neccessary_data in H. case_run H.
  destruct (negb (_ =? _)); [done|]. destruct (negb (pathname_static i)); [done|].
  destruct (open_file (pathname i)) as [file|]; [|done].
  do 4 case_run H. destruct a3 as [shdrs|]; [|done]. case_run H. case_run H.
  destruct a4 as [i1 l1]. apply load_loop_ok in Hrun5 as [Hsame [H1 H2 H3]]; [|by split].
  unfold enough in H. destruct (strtbl_ok l1); [|done]. cbn [andb] in H.
  destruct (symtbl_ok l1); [injection H as <- _; split_and!; auto|].
  destruct (dynsym_ok l1); [injection H as <- _; split_and!; auto|done].
Qed.

(** The name that a search looks for at the end of a path. *)
Definition search_suffix (path : list Z) : list Z :=
  if nth 0 path 0 =? 47 then path else 47 :: path.

Definition found (suffix : list Z) (i : semi_dlinfo) : Prop :=
  (ehdr i <> 0 -> ends_with (pathname i) suffix = true) /\ magic i = SEMI_DLINFO_MAGIC
  /\ strs i = None /\ syms i = None /\ dynsyms i = None.

Lemma dlopen_cb_found suffix info i (s : St) res i' s' : found suffix i ->
  dlopen_iter_cb suffix info i s = (Ok (res, i'), s') -> found suffix i'.
Proof.
  intros Hi H. unfold dlopen_iter_cb in H.
  destruct (dlpi_name info) as [path|]; [|by injection H as _ <- _].
  destruct (_ <? _)%nat; [by injection H as _ <- _|].
  destruct (ends_with path suffix) eqn:E; [|by injection H as _ <- _].
  case_run H. case_run H. injection H as _ <- _. destruct Hi as (_ & ? & ? & ? & ?).
  by split_and!.
Qed.

(** A handle stands for the library that was asked for.  When [semi_dlopen] returns a
    handle, its magic is set, the path of its library ends with the requested name, with a
    slash in front unless the name is absolute, so that a request for libc.so cannot be
    answered with xlibc.so, and a string table and at least one symbol table are loaded,
    as [semi_dlsym] needs them. *)
Lemma semi_dlopen_handle (path : list Z) (s : St) (i : semi_dlinfo) (s' : St) :
  semi_dlopen (Some path) s = (Ok (Some i), s') ->
  magic i = SEMI_DLINFO_MAGIC /\ ehdr i <> 0
  /\ ends_with (pathname i) (search_suffix path) = true
  /\ is_Some (strs i) /\ (is_Some (syms i) \/ is_Some (dynsyms i)).
Proof.
  intros H. unfold semi_dlopen in H. destruct path as [|c path]; [done|].
  case_run H. destruct a as [suffix|]; [|done].
  assert (suffix = search_suffix (c :: path)) as ->.
  { unfold search_suffix. cbn [nth]. destruct (c =? 47); [by injection Hrun as <- _|].
    case_run Hrun. destruct a; [by injection Hrun as <- _|done]. }
  case_run H. destruct (negb a); [done|]. case_run H. destruct a0 as [res i0].
  assert (found (search_suffix (c :: path)) i0) as (Hend & Hm & Hst & Hsy & Hdy).
  { eapply (semi_iterate_inv (found _)); [| |exact Hrun1];
      [|split_and!; try done; intros Hne; by destruct Hne].
    intros info d t q d' t' Hd Hr. by eapply dlopen_cb_found. }
  destruct (Z.eqb_spec (ehdr i0) 0) as [|Hne]; [done|].
  case_run H. destruct a0 as [ok i1]. destruct ok; [|done]. injection H as -> _.
  apply fill_ok in Hrun2 as [(E1 & E2 & E3 & _) Ht]; [|done..].
  rewrite E1, E2, E3. split_and!; [done|done|by apply Hend|apply Ht|apply Ht].
Qed.
End Facts.
End SemiFacts.

(** * A device, for examples *)

#[export] Instance process_dl : DlState (XhMaps.process * sd_state) := {
  dl_mach s := XhMaps.mach (fst s);
  dl_get := snd;
  dl_put x s := (fst s, x);
  dl_alloc s := let '(r, p) := XhMaps.alloc (fst s) in (r, (p, snd s));
  dl_get_put x s := eq_refl;
  dl_put_put x y s := eq_refl;
  dl_put_get s := match s with (p, x) => eq_refl end;
  dl_mach_put x s := eq_refl
}.

Module SemiDemo.
Import SemiDlfcn SemiFacts XhElf.DemoImage.

(** The file of the example image: section headers at 0x80, a string table at 0x140, and a
    symbol table with "foo" at 0x148. *)
Definition shdr_entry (type off size entsize : Z) : list Z :=
  (le_bytes 4 0 ++ le_bytes 4 type ++ le_bytes 8 0 ++ le_bytes 8 0 ++ le_bytes 8 off
   ++ le_bytes 8 size ++ le_bytes 8 0 ++ le_bytes 8 0 ++ le_bytes 8 entsize)%list.

Definition strings : list Z := ([0] ++ bytes_of "foo" ++ [0])%list.
Definition symbols : list Z :=
  (replicate 24 0 ++ le_bytes 4 1 ++ [STT_FUNC; 0; 0; 0] ++ le_bytes 8 0x1234 ++ le_bytes 8 16)%list.

Definition demo_file : list Z :=
  (replicate 0x80 0 ++ shdr_entry 0 0 0 0 ++ shdr_entry SHT_SYMTAB 0x148 48 24
   ++ shdr_entry SHT_STRTAB 0x140 5 0 ++ strings ++ [0; 0; 0] ++ symbols)%list.

Definition demo_info : dl_phdr_info :=
  MkInfo (Some (bytes_of "/lib/libdemo.so")) base (base + 64) 2 true.

(** A device of API level [api] whose linker is at [at] in the example image. *)
Definition device (api at_ : Z) : Linker :=
  {| api_level := api; own_fname := Some (bytes_of "/lib/libsemi.so"); at_base := at_;
     dladdr_known := fun _ _ => true;
     dl_objects := fun _ => [MkInfo None 0 0 0 true; demo_info];
     open_file := fun p => if bool_decide (p = bytes_of "/lib/libdemo.so") then Some demo_file else None;
     mmap_allowed := fun _ _ _ => true |}.

#[local] Existing Instance arch_aarch64.
#[local] Existing Instance demo_kernel.

Definition start : XhMaps.process * sd_state :=
  (XhMaps.MkProcess demo XhMaps.initial [], MkSd 0 0 false).

Lemma linker_base_never_found_witness :
  exists r s', get_linker_base_address (L := device 29 0) start = (Ok r, s')
    /\ r = 0 /\ s_linker_base (dl_get s') = 0.
Proof.
  set (run := get_linker_base_address (L := device 29 0) start).
  assert (run = (Ok 0, start)) as E by (vm_compute; reflexivity).
  exists 0, start. split; [exact E|].
  apply (linker_base_never_found (L := device 29 0) start 0 start); [reflexivity|reflexivity|exact E].
Defined.

(** The names a callback sees: the linker and the object that has one. *)
Definition collect (info : dl_phdr_info) (l : list (list Z)) : Z * list (list Z) :=
  (0, l ++ [default [] (dlpi_name info)])%list.

Lemma semi_dl_iterate_phdr_visits_witness :
  exists s', semi_dl_iterate_phdr (L := device 29 base) (pure_cb collect) [] start
    = (Ok (0, [bytes_of "/system/bin/linker64"; bytes_of "/lib/libdemo.so"]), s').
Proof.
  eexists.
  rewrite (semi_dl_iterate_phdr_visits (L := device 29 base) collect [] start
             (MkInfo (Some (bytes_of "/system/bin/linker64")) base (base + 64) 2 true)).
  - reflexivity.
  - simpl. lia.
  - reflexivity.
  - discriminate.
  - exists 64, 2, base. split_and!; vm_compute; reflexivity.
Defined.

(** On API level 19, a library that is loaded: the path is read after its buffer is gone. *)
Example legacy_dlopen_undefined :
  fst (semi_dlopen (L := device 19 base) (Some (bytes_of "libdemo.so")) start) = Undef.
Proof. vm_compute. reflexivity. Qed.

Lemma semi_dlopen_legacy_witness :
  exists r s', semi_dlopen (L := device 19 base) (Some (bytes_of "libnone.so")) start = (Ok r, s')
    /\ r = None.
Proof.
  destruct (semi_dlopen (L := device 19 base) (Some (bytes_of "libnone.so")) start) as [r s'] eqn:E.
  assert (r = Ok None) as Hr by (apply (f_equal fst) in E; vm_compute in E; by rewrite <- E).
  subst r. exists None, s'. split; [reflexivity|].
  apply (semi_dlopen_legacy (L := device 19 base) (Some (bytes_of "libnone.so")) start None s');
    [simpl; lia|exact E].
Defined.

Lemma load_section_correct_witness :
  load_section (L := device 29 base) [] demo_file 0x140 5 start = (Ok (Some strings), start).
Proof.
  rewrite (load_section_correct (L := device 29 base) [] demo_file 0x140 5 start start);
    [reflexivity|lia|lia|vm_compute; discriminate|reflexivity|reflexivity].
Defined.

Definition demo_handle : semi_dlinfo :=
  MkDl SEMI_DLINFO_MAGIC (bytes_of "/lib/libdemo.so") true base (base + 64) 2 base
    (Some strings) (Some symbols) 2 None 0.

Lemma semi_dlopen_handle_witness :
  exists i s', semi_dlopen (L := device 29 base) (Some (bytes_of "libdemo.so")) start = (Ok (Some i), s')
    /\ i = demo_handle /\ ends_with (pathname i) (bytes_of "/libdemo.so") = true.
Proof.
  destruct (semi_dlopen (L := device 29 base) (Some (bytes_of "libdemo.so")) start) as [r s'] eqn:E.
  assert (r = Ok (Some demo_handle)) as Hr by (apply (f_equal fst) in E; vm_compute in E; by rewrite <- E).
  subst r. exists demo_handle, s'. split; [reflexivity|]. split; [reflexivity|].
  apply (semi_dlopen_handle (L := device 29 base) (bytes_of "libdemo.so") start demo_handle s' E).
Defined.

Lemma semi_dlsym_correct_witness :
  semi_dlsym demo_handle (bytes_of "foo") = Ok 0x11234 /\ semi_dlsym demo_handle (bytes_of "bar") = Ok 0.
Proof.
  assert (forall name, is_cstring name -> semi_dlsym demo_handle name
    = Ok (match list_find (wanted name) [MkSymbol 0 [] 0; MkSymbol STT_FUNC (bytes_of "foo") 0x1234] with
          | Some (_, e) => uword (base + sy_value e) | None => 0 end)) as H.
  { intros name Hn. apply (semi_dlsym_correct demo_handle name
      [MkSymbol 0 [] 0; MkSymbol STT_FUNC (bytes_of "foo") 0x1234] []); try reflexivity; try done.
    intros [|[|i]] e He; [| |done]; injection He as <-.
    - exists 0, 0. split_and!; first [reflexivity|lia|eexists; reflexivity|decide_now|vm_compute; discriminate].
    - exists STT_FUNC, 1. split_and!; first [reflexivity|lia|eexists; reflexivity|decide_now|vm_compute; discriminate]. }
  split; rewrite H by decide_now; vm_compute; reflexivity.
Defined.
End SemiDemo.
