(* ===== verification/XhCore.v ===== *)
(** The hook registry and its refresh (libxhook, xh_core.c).

    Module [XhCore] translates xh_core.c for one thread: registration of hook and ignore
    requests, plain and grouped, the SIGSEGV protection around header check, initialisation
    and hooking, the refresh over the loaded libraries, the refresh blocker and the handles
    of [xh_core_elf_open].  The asynchronous refresh thread and its interleavings are in
    [XhAsync].  POSIX regular expressions and the calls that can fail for want of resources are
    parameters (class [Posix]). *)
From S2P Require Import Prelude Arch Machine Elf Libc XhMaps XhUtil Reloc XhElf SemiDlfcn.

(** [regcomp] with [REG_NOSUB] and [regexec]; the [errno] with which [sigaction] fails, if it
    does; whether [pthread_key_create] and the first [pthread_setspecific] succeed. *)
Class Posix := {
  regex : Type;
  regcomp : list Z -> option regex;
  regexec : regex -> list Z -> bool;
  sigaction_errno : option Z;
  key_create_ok : bool;
  setspecific_ok : bool
}.

Module XhCore.
Import XhMaps XhUtil XhElf.

Section Core.
Context `{Ar : Arch} `{K : Kernel} `{L : Linker} `{P : Posix}.

(** ** Data *)

(** [xh_core_hook_info_t]; [new_func] and [old_func] are addresses. *)
Record hook_info := MkHook {
  hi_regex : regex;
  hi_symbol : list Z;
  new_func : Z;
  old_func : Z
}.

(** [xh_core_ignore_info_t]; no symbol means all symbols. *)
Record ignore_info := MkIgnore {
  ii_regex : regex;
  ii_symbol : option (list Z)
}.

(** [xh_core_request_group_t]. *)
Record request_group := MkGroup {
  group_id : Z;
  hook_infos : list hook_info;
  ignore_infos : list ignore_info
}.

(** [xh_core_map_info_t]. *)
Record map_info := MkMap {
  mi_pathname : list Z;
  mi_bias : Z;
  mi_phdrs : Z;
  mi_phdr_count : Z;
  mi_elf : xh_elf
}.

(** The disposition of SIGSEGV: the handler of xh_core.c, or another one. *)
Inductive handler := OurHandler | OtherHandler (id : Z).

(** The static variables of xh_core.c, as one thread sees them.  [map_infos] is the tree
    ordered by path name; [request_groups] is the tree ordered by group id, as the list of
    its elements in order; [tls_key] says that the TLS key was created, [reenter_count] is the
    thread's value of it. *)
Record core := MkCore {
  sigsegv_enable : bool;
  sigsegv_act : handler;
  sigsegv_act_old : handler;
  sigsegv_flag : bool;
  core_hook_info : list hook_info;
  core_ignore_info : list ignore_info;
  request_groups : list request_group;
  map_infos : gmap (list Z) map_info;
  inited : bool;
  init_ok : bool;
  refresh_blocker : rwlock;
  tls_key : bool;
  reenter_count : Z;
  log_debug : bool
}.

Definition set_sigsegv_enable (v : bool) (s : core) : core :=
  MkCore v (sigsegv_act s) (sigsegv_act_old s) (sigsegv_flag s) (core_hook_info s)
    (core_ignore_info s) (request_groups s) (map_infos s) (inited s) (init_ok s)
    (refresh_blocker s) (tls_key s) (reenter_count s) (log_debug s).
Definition set_sigsegv_act (v : handler) (s : core) : core :=
  MkCore (sigsegv_enable s) v (sigsegv_act_old s) (sigsegv_flag s) (core_hook_info s)
    (core_ignore_info s) (request_groups s) (map_infos s) (inited s) (init_ok s)
    (refresh_blocker s) (tls_key s) (reenter_count s) (log_debug s).
Definition set_sigsegv_act_old (v : handler) (s : core) : core :=
  MkCore (sigsegv_enable s) (sigsegv_act s) v (sigsegv_flag s) (core_hook_info s)
    (core_ignore_info s) (request_groups s) (map_infos s) (inited s) (init_ok s)
    (refresh_blocker s) (tls_key s) (reenter_count s) (log_debug s).
Definition set_sigsegv_flag (v : bool) (s : core) : core :=
  MkCore (sigsegv_enable s) (sigsegv_act s) (sigsegv_act_old s) v (core_hook_info s)
    (core_ignore_info s) (request_groups s) (map_infos s) (inited s) (init_ok s)
    (refresh_blocker s) (tls_key s) (reenter_count s) (log_debug s).
Definition set_core_hook_info (v : list hook_info) (s : core) : core :=
  MkCore (sigsegv_enable s) (sigsegv_act s) (sigsegv_act_old s) (sigsegv_flag s) v
    (core_ignore_info s) (request_groups s) (map_infos s) (inited s) (init_ok s)
    (refresh_blocker s) (tls_key s) (reenter_count s) (log_debug s).
Definition set_core_ignore_info (v : list ignore_info) (s : core) : core :=
  MkCore (sigsegv_enable s) (sigsegv_act s) (sigsegv_act_old s) (sigsegv_flag s)
    (core_hook_info s) v (request_groups s) (map_infos s) (inited s) (init_ok s)
    (refresh_blocker s) (tls_key s) (reenter_count s) (log_debug s).
Definition set_request_groups (v : list request_group) (s : core) : core :=
  MkCore (sigsegv_enable s) (sigsegv_act s) (sigsegv_act_old s) (sigsegv_flag s)
    (core_hook_info s) (core_ignore_info s) v (map_infos s) (inited s) (init_ok s)
    (refresh_blocker s) (tls_key s) (reenter_count s) (log_debug s).
Definition set_map_infos (v : gmap (list Z) map_info) (s : core) : core :=
  MkCore (sigsegv_enable s) (sigsegv_act s) (sigsegv_act_old s) (sigsegv_flag s)
    (core_hook_info s) (core_ignore_info s) (request_groups s) v (inited s) (init_ok s)
    (refresh_blocker s) (tls_key s) (reenter_count s) (log_debug s).
Definition set_inited (v : bool) (s : core) : core :=
  MkCore (sigsegv_enable s) (sigsegv_act s) (sigsegv_act_old s) (sigsegv_flag s)
    (core_hook_info s) (core_ignore_info s) (request_groups s) (map_infos s) v (init_ok s)
    (refresh_blocker s) (tls_key s) (reenter_count s) (log_debug s).
Definition set_init_ok (v : bool) (s : core) : core :=
  MkCore (sigsegv_enable s) (sigsegv_act s) (sigsegv_act_old s) (sigsegv_flag s)
    (core_hook_info s) (core_ignore_info s) (request_groups s) (map_infos s) (inited s) v
    (refresh_blocker s) (tls_key s) (reenter_count s) (log_debug s).
Definition set_refresh_blocker (v : rwlock) (s : core) : core :=
  MkCore (sigsegv_enable s) (sigsegv_act s) (sigsegv_act_old s) (sigsegv_flag s)
    (core_hook_info s) (core_ignore_info s) (request_groups s) (map_infos s) (inited s)
    (init_ok s) v (tls_key s) (reenter_count s) (log_debug s).
Definition set_tls_key (v : bool) (s : core) : core :=
  MkCore (sigsegv_enable s) (sigsegv_act s) (sigsegv_act_old s) (sigsegv_flag s)
    (core_hook_info s) (core_ignore_info s) (request_groups s) (map_infos s) (inited s)
    (init_ok s) (refresh_blocker s) v (reenter_count s) (log_debug s).
Definition set_reenter_count (v : Z) (s : core) : core :=
  MkCore (sigsegv_enable s) (sigsegv_act s) (sigsegv_act_old s) (sigsegv_flag s)
    (core_hook_info s) (core_ignore_info s) (request_groups s) (map_infos s) (inited s)
    (init_ok s) (refresh_blocker s) (tls_key s) v (log_debug s).
Definition set_log_debug (v : bool) (s : core) : core :=
  MkCore (sigsegv_enable s) (sigsegv_act s) (sigsegv_act_old s) (sigsegv_flag s)
    (core_hook_info s) (core_ignore_info s) (request_groups s) (map_infos s) (inited s)
    (init_ok s) (refresh_blocker s) (tls_key s) (reenter_count s) v.

(** The process, the variables of semi_dlfcn.c, and those of xh_core.c. *)
Record world := MkWorld {
  proc : process;
  dls : sd_state;
  cor : core
}.

Definition set_proc (p : process) (w : world) : world := MkWorld p (dls w) (cor w).
Definition set_cor (c : core) (w : world) : world := MkWorld (proc w) (dls w) c.

Definition on_proc {A} (c : M process A) : M world A := lift proc set_proc c.
Definition on_core (f : core -> core) : M world unit := modify (fun w => set_cor (f (cor w)) w).

(** [malloc], [strdup]. *)
Definition walloc : M world bool := on_proc alloc.

#[export] Instance world_dl : DlState world := {
  dl_mach w := mach (proc w);
  dl_get := dls;
  dl_put x w := MkWorld (proc w) x (cor w);
  dl_alloc := walloc;
  dl_get_put x w := eq_refl;
  dl_put_put x y w := eq_refl;
  dl_put_get w := match w with MkWorld _ _ _ => eq_refl end;
  dl_mach_put x w := eq_refl
}.

(** ** SIGSEGV protection *)

Definition xh_core_add_sigsegv_handler : M world Z :=
  c ← gets cor;
  if negb (sigsegv_enable c) then mret 0 else
  match sigaction_errno with
  | Some e => mret (if e =? 0 then XH_ERRNO_UNKNOWN else e)
  | None =>
      on_core (fun c => set_sigsegv_act OurHandler (set_sigsegv_act_old (sigsegv_act c) c));;
      mret 0
  end.

Definition xh_core_del_sigsegv_handler : M world unit :=
  c ← gets cor;
  if negb (sigsegv_enable c) then mret tt else
  on_core (fun c => set_sigsegv_act (sigsegv_act_old c) c).

(** A fault while [body] runs: the handler jumps to the [sigsetjmp] of the caller when it
    is installed and the flag is set; otherwise the fault is the process's. *)
Definition sigsetjmp {A} (body caught : M world A) : M world A := fun w =>
  match body w with
  | (Segv, w') =>
      match sigsegv_act (cor w') with
      | OurHandler => if sigsegv_flag (cor w') then caught w' else (Segv, w')
      | OtherHandler _ => (Segv, w')
      end
  | r => r
  end.

(** [xh_core_sigsegv_flag = 1; if(0 == sigsetjmp()) body else caught; flag = 0]. *)
Definition with_protection {A} (body caught : M world A) : M world A :=
  c ← gets cor;
  if negb (sigsegv_enable c) then body else
  on_core (set_sigsegv_flag true);;
  r ← sigsetjmp body caught;
  on_core (set_sigsegv_flag false);;
  mret r.

Definition xh_core_check_elf_header (base_addr : Z) : M world Z :=
  with_protection (reads (fun w => xh_elf_check_elfheader (mach (proc w)) base_addr))
    (mret XH_ERRNO_SEGVERR).

(** ** Refresh blocker *)

Definition lock_write (c : core) : core :=
  match refresh_blocker c with Unlocked => set_refresh_blocker WriteLocked c | _ => c end.

(** Unlocking a lock that nobody holds fails and changes nothing. *)
Definition unlock (c : core) : core := set_refresh_blocker Unlocked c.

(** A thread that holds the write lock gets [EDEADLK], which the code ignores. *)
Definition lock_read (c : core) : core :=
  match refresh_blocker c with Unlocked => set_refresh_blocker ReadLocked c | _ => c end.

(** [pthread_getspecific] and [pthread_setspecific]: a key that was not created yet has no
    value and takes none. *)
Definition getspecific (c : core) : Z := if tls_key c then reenter_count c else 0.
Definition setspecific (n : Z) (c : core) : core := if tls_key c then set_reenter_count n c else c.

Definition xh_core_block_refresh : M world unit :=
  on_core (fun c =>
    let n := getspecific c in
    let c := setspecific (n + 1) c in
    if n =? 0 then lock_write c else c).

Definition xh_core_unblock_refresh : M world unit :=
  on_core (fun c =>
    let n := getspecific c in
    let '(n, c) := if 1 <=? n then (n - 1, setspecific (n - 1) c) else (n, c) in
    if n =? 0 then unlock c else c).

(** ** Requests *)

(** [xh_core_register_impl] up to the insertion: the request, or the error code. *)
Definition make_hook (pathname_regex_str symbol : option (list Z)) (new_f old_f : Z)
  : M world (hook_info + Z) :=
  match pathname_regex_str, symbol with
  | Some re, Some sym =>
      if new_f =? 0 then mret (inr XH_ERRNO_INVAL) else
      match regcomp re with
      | None => mret (inr XH_ERRNO_INVAL)
      | Some r =>
          ok ← walloc;
          if negb ok then mret (inr XH_ERRNO_NOMEM) else
          ok ← walloc;
          if negb ok then mret (inr XH_ERRNO_NOMEM) else
          mret (inl (MkHook r sym new_f old_f))
      end
  | _, _ => mret (inr XH_ERRNO_INVAL)
  end.

(** [xh_core_register_impl]; [insert] appends to the queue. *)
Definition xh_core_register_impl (insert : hook_info -> core -> core)
    (pathname_regex_str symbol : option (list Z)) (new_f old_f : Z) : M world Z :=
  r ← make_hook pathname_regex_str symbol new_f old_f;
  match r with
  | inr e => mret e
  | inl hi => on_core (insert hi);; mret 0
  end.

Definition xh_core_register (pathname_regex_str symbol : option (list Z)) (new_f old_f : Z)
  : M world Z :=
  xh_core_register_impl (fun hi c => set_core_hook_info (core_hook_info c ++ [hi])%list c)
    pathname_regex_str symbol new_f old_f.

Definition make_ignore (pathname_regex_str symbol : option (list Z)) : M world (ignore_info + Z) :=
  match pathname_regex_str with
  | None => mret (inr XH_ERRNO_INVAL)
  | Some re =>
      match regcomp re with
      | None => mret (inr XH_ERRNO_INVAL)
      | Some r =>
          ok ← walloc;
          if negb ok then mret (inr XH_ERRNO_NOMEM) else
          match symbol with
          | None => mret (inl (MkIgnore r None))
          | Some sym =>
              ok ← walloc;
              if negb ok then mret (inr XH_ERRNO_NOMEM) else
              mret (inl (MkIgnore r (Some sym)))
          end
      end
  end.

Definition xh_core_ignore_impl (insert : ignore_info -> core -> core)
    (pathname_regex_str symbol : option (list Z)) : M world Z :=
  r ← make_ignore pathname_regex_str symbol;
  match r with
  | inr e => mret e
  | inl ii => on_core (insert ii);; mret 0
  end.

Definition xh_core_ignore (pathname_regex_str symbol : option (list Z)) : M world Z :=
  xh_core_ignore_impl (fun ii c => set_core_ignore_info (core_ignore_info c ++ [ii])%list c)
    pathname_regex_str symbol.

(** [RB_FIND]. *)
Definition find_group (id : Z) (gs : list request_group) : option request_group :=
  snd <$> list_find (fun g => group_id g = id) gs.

(** [RB_INSERT] of a new id. *)
Fixpoint insert_group (g : request_group) (gs : list request_group) : list request_group :=
  match gs with
  | [] => [g]
  | g' :: gs => if group_id g <? group_id g' then g :: g' :: gs else g' :: insert_group g gs
  end.

(** A change of the queues of group [id], through the pointer the tree holds. *)
Definition update_group (id : Z) (f : request_group -> request_group) (c : core) : core :=
  set_request_groups ((fun g => if group_id g =? id then f g else g) <$> request_groups c) c.

(** Find the group, or create it; [false] is a failed allocation. *)
Definition ensure_group (id : Z) : M world bool :=
  c ← gets cor;
  match find_group id (request_groups c) with
  | Some _ => mret true
  | None =>
      ok ← walloc;
      if negb ok then mret false else
      on_core (fun c => set_request_groups (insert_group (MkGroup id [] []) (request_groups c)) c);;
      mret true
  end.

Definition xh_core_grouped_register (id : Z) (pathname_regex_str symbol : option (list Z))
    (new_f old_f : Z) : M world Z :=
  ok ← ensure_group id;
  if negb ok then mret XH_ERRNO_NOMEM else
  xh_core_register_impl (fun hi =>
    update_group id (fun g => MkGroup (group_id g) (hook_infos g ++ [hi])%list (ignore_infos g)))
    pathname_regex_str symbol new_f old_f.

Definition xh_core_grouped_ignore (id : Z) (pathname_regex_str symbol : option (list Z))
  : M world Z :=
  ok ← ensure_group id;
  if negb ok then mret XH_ERRNO_NOMEM else
  xh_core_ignore_impl (fun ii =>
    update_group id (fun g => MkGroup (group_id g) (hook_infos g) (ignore_infos g ++ [ii])%list))
    pathname_regex_str symbol.

(** ** Hooking a library *)

(** What the ignore requests say about one hook request on a path: hook it, go on with the
    next request, or stop with this queue. *)
Inductive verdict := HookIt | Skip | Stop.

Fixpoint ignore_verdict (iis : list ignore_info) (symbol path : list Z) : verdict :=
  match iis with
  | [] => HookIt
  | ii :: iis =>
      if regexec (ii_regex ii) path then
        match ii_symbol ii with
        | None => Stop
        | Some s => if bool_decide (s = symbol) then Skip else ignore_verdict iis symbol path
        end
      else ignore_verdict iis symbol path
  end.

(** The requests of a queue that the loop of [xh_core_hook_impl_with_spec_info] hooks. *)
Fixpoint to_hook (his : list hook_info) (iis : list ignore_info) (path : list Z)
  : list hook_info :=
  match his with
  | [] => []
  | hi :: his =>
      if regexec (hi_regex hi) path then
        match ignore_verdict iis (hi_symbol hi) path with
        | HookIt => hi :: to_hook his iis path
        | Skip => to_hook his iis path
        | Stop => []
        end
      else to_hook his iis path
  end.

(** [xh_elf_hook] for each of them; its result is not used. *)
Fixpoint hook_all (fuel : nat) (elf : xh_elf) (his : list hook_info) : M world unit :=
  match his with
  | [] => mret tt
  | hi :: his =>
      on_proc (xh_elf_hook fuel elf (Some (hi_symbol hi)) (new_func hi) (old_func hi));;
      hook_all fuel elf his
  end.

Definition xh_core_hook_impl_with_spec_info (fuel : nat) (mi : map_info)
    (his : list hook_info) (iis : list ignore_info) : M world unit :=
  hook_all fuel (mi_elf mi) (to_hook his iis (mi_pathname mi)).

Definition set_elf (mi : map_info) (e : xh_elf) : map_info :=
  MkMap (mi_pathname mi) (mi_bias mi) (mi_phdrs mi) (mi_phdr_count mi) e.

(** [xh_elf_init] on the library's structure: return value and the library. *)
Definition init_elf (mi : map_info) : M world (Z * map_info) :=
  '(r, e) ← reads (fun w => xh_elf_init (mach (proc w)) (mi_elf mi) (mi_bias mi) (mi_phdrs mi)
                               (mi_phdr_count mi) (Some (mi_pathname mi)));
  mret (r, set_elf mi e).

Fixpoint hook_groups (fuel : nat) (mi : map_info) (gs : list request_group) : M world unit :=
  match gs with
  | [] => mret tt
  | g :: gs =>
      xh_core_hook_impl_with_spec_info fuel mi (hook_infos g) (ignore_infos g);;
      hook_groups fuel mi gs
  end.

Definition xh_core_hook_impl (fuel : nat) (mi : map_info) : M world map_info :=
  '(r, mi) ← init_elf mi;
  if negb (r =? 0) then mret mi else
  c ← gets cor;
  xh_core_hook_impl_with_spec_info fuel mi (core_hook_info c) (core_ignore_info c);;
  hook_groups fuel mi (request_groups c);;
  mret mi.

(** After a fault that was caught, what was parsed of the image stays in the structure;
    every use initialises it again, so its old contents stand for it here. *)
Definition xh_core_hook (fuel : nat) (mi : map_info) : M world map_info :=
  with_protection (xh_core_hook_impl fuel mi) (mret mi).

(** ** Refresh *)

(** The scan of a queue: [match] of the source. *)
Fixpoint is_current_pathname_matches_any_requests (his : list hook_info)
    (iis : list ignore_info) (path : list Z) : bool :=
  match his with
  | [] => false
  | hi :: his =>
      if regexec (hi_regex hi) path then
        match ignore_verdict iis (hi_symbol hi) path with
        | HookIt => true
        | Skip => is_current_pathname_matches_any_requests his iis path
        | Stop => false
        end
      else is_current_pathname_matches_any_requests his iis path
  end.

(** The default requests, then the groups. *)
Definition wanted_path (c : core) (path : list Z) : bool :=
  is_current_pathname_matches_any_requests (core_hook_info c) (core_ignore_info c) path
  || existsb (fun g => is_current_pathname_matches_any_requests (hook_infos g) (ignore_infos g) path)
       (request_groups c).

Definition xh_core_maps_iterate_cb (fuel : nat) (info : dl_phdr_info)
    (refreshed : gmap (list Z) map_info) : M world (Z * gmap (list Z) map_info) :=
  let path := default [] (dlpi_name info) in
  if nth 0 path 0 =? 91 then mret (0, refreshed) else
  c ← gets cor;
  if negb (wanted_path c path) then mret (0, refreshed) else
  match map_infos c !! path with
  | Some mi =>
      on_core (fun c => set_map_infos (delete path (map_infos c)) c);;
      match refreshed !! path with
      | Some _ => mret (0, refreshed)
      | None =>
          if mi_bias mi =? dlpi_addr info then mret (0, <[path := mi]> refreshed) else
          mi ← xh_core_hook fuel
                 (MkMap (mi_pathname mi) (dlpi_addr info) (dlpi_phdr info) (dlpi_phnum info) (mi_elf mi));
          mret (0, <[path := mi]> refreshed)
      end
  | None =>
      ok ← walloc;
      if negb ok then mret (0, refreshed) else
      ok ← walloc;
      if negb ok then mret (0, refreshed) else
      match refreshed !! path with
      | Some _ => mret (0, refreshed)
      | None =>
          mi ← xh_core_hook fuel
                 (MkMap path (dlpi_addr info) (dlpi_phdr info) (dlpi_phnum info) zero_elf);
          mret (0, <[path := mi]> refreshed)
      end
  end.

Definition xh_core_refresh_impl (fuel : nat) : M world unit :=
  on_core lock_read;;
  '(_, refreshed) ← SemiDlfcn.semi_dl_iterate_phdr (xh_core_maps_iterate_cb fuel) ∅;
  on_core (fun c => set_map_infos refreshed c);;
  on_core unlock.

Definition xh_core_init_once : M world unit :=
  c ← gets cor;
  if inited c then mret tt else
  on_core (set_inited true);;
  r ← xh_core_add_sigsegv_handler;
  if negb (r =? 0) then mret tt else
  if negb key_create_ok then mret tt else
  on_core (fun c => set_reenter_count 0 (set_tls_key true c));;
  if negb setspecific_ok then on_core (set_tls_key false) else
  on_core (set_init_ok true).

(** The synchronous refresh. *)
Definition xh_core_refresh_sync (fuel : nat) : M world Z :=
  xh_core_init_once;;
  c ← gets cor;
  if negb (init_ok c) then mret XH_ERRNO_UNKNOWN else
  xh_core_refresh_impl fuel;;
  mret 0.

(** [xh_core_clear] without the thread: the groups stay. *)
Definition xh_core_clear : M world unit :=
  c ← gets cor;
  (if init_ok c then xh_core_del_sigsegv_handler;; on_core (set_init_ok false) else mret tt);;
  on_core (fun c => set_core_ignore_info [] (set_core_hook_info []
                      (set_map_infos ∅ (set_inited false c)))).

Definition xh_core_enable_debug (flag : Z) : M world unit :=
  on_core (set_log_debug (negb (flag =? 0))).

Definition xh_core_enable_sigsegv_protection (flag : Z) : M world unit :=
  on_core (set_sigsegv_enable (negb (flag =? 0))).

(** ** Single libraries *)

(** [strncmp] on the end of the path; a path shorter than the suffix is read out of
    bounds. *)
Definition xh_single_so_search_iterate_cb (suffix : list Z) (info : dl_phdr_info)
    (mi : option map_info) : M world (Z * option map_info) :=
  let path := default [] (dlpi_name info) in
  if (length path <? length suffix)%nat then raise Undef else
  if negb (SemiDlfcn.ends_with path suffix) then mret (0, mi) else
  r ← xh_core_check_elf_header (dlpi_addr info);
  if negb (r =? 0) then mret (0, mi) else
  ok ← walloc;
  if negb ok then mret (-1, mi) else
  mret (1, Some (MkMap path (dlpi_addr info) (dlpi_phdr info) (dlpi_phnum info) zero_elf)).

(** [None] is [NULL]. *)
Definition xh_core_elf_open (path_suffix : option (list Z)) : M world (option map_info) :=
  match path_suffix with
  | None => mret None
  | Some suffix =>
      ok ← walloc;
      if negb ok then mret None else
      '(r, mi) ← SemiDlfcn.semi_dl_iterate_phdr (xh_single_so_search_iterate_cb suffix) None;
      mret (if 0 <? r then mi else None)
  end.

Definition xh_core_hook_single_sym_impl (fuel : nat) (mi : option map_info)
    (symbol : option (list Z)) (new_f old_f : Z) : M world Z :=
  match mi, symbol with
  | Some mi, Some sym =>
      if new_f =? 0 then mret XH_ERRNO_INVAL else
      '(r, mi) ← init_elf mi;
      if negb (r =? 0) then mret r else
      on_proc (xh_elf_hook fuel (mi_elf mi) (Some sym) new_f old_f)
  | _, _ => mret XH_ERRNO_INVAL
  end.

Definition xh_core_got_hook_symbol (fuel : nat) (mi : option map_info)
    (symbol : option (list Z)) (new_f old_f : Z) : M world Z :=
  with_protection (xh_core_hook_single_sym_impl fuel mi symbol new_f old_f)
    (mret XH_ERRNO_SEGVERR).
End Core.
End XhCore.

Module XhCoreFacts.
Import XhMaps XhMapsFacts XhUtil XhUtilFacts Reloc XhElf SemiDlfcn SemiFacts XhCore.

(** * Memory that does not run out *)
Section Allocs.
Context `{Ar : Arch} `{K : Kernel}.

(** No allocation fails from here on. *)
Definition plenty (p : process) : Prop := allocs p = [].

Lemma plenty_alloc : preserves plenty alloc.
Proof. intros [m s l]. unfold plenty, alloc. simpl. by intros ->. Qed.

Lemma plenty_on_maps f : preserves plenty (on_maps f).
Proof. by intros [m s l]. Qed.

Lemma plenty_on_mach {A} (c : M machine A) : preserves plenty (on_mach c).
Proof. intros [m s l]. unfold on_mach, lift, plenty. simpl. by destruct (c m). Qed.

#[local] Hint Resolve plenty_alloc plenty_on_maps plenty_on_mach : keeps.

Lemma plenty_fill lines : forall its idx cap, preserves plenty (fill lines its idx cap).
Proof.
  induction lines as [|line lines IH]; intros its idx cap; cbn [fill]; [auto with keeps|].
  destruct (parse_line line); [|done]. apply preserves_bind; [auto with keeps|].
  intros [|]; cbn [negb]; [|auto with keeps].
  apply preserves_bind; [|by intros []]. destruct (_ || _); [|auto with keeps].
  apply preserves_bind; [auto with keeps|]. intros [|]; cbn [negb]; auto with keeps.
Qed.

Lemma plenty_update : preserves plenty xh_maps_update.
Proof.
  unfold xh_maps_update, _xh_lock_write_accesslock, _xh_unlock_accesslock.
  do 3 (apply preserves_bind; [auto with keeps|intros ?]).
  apply preserves_bind; [|auto with keeps].
  destruct a0; [auto with keeps|]. apply preserves_bind; [auto with keeps|].
  intros [text|]; [|auto with keeps].
  apply preserves_bind; [auto with keeps|]. intros s. apply preserves_bind; [apply plenty_fill|].
  intros []. auto with keeps.
Qed.

Lemma plenty_iterate {D} (cb : D -> maps_item -> Z * D) (data : D) :
  preserves plenty (xh_maps_iterate cb data).
Proof.
  unfold xh_maps_iterate, _xh_lock_read_accesslock, _xh_unlock_accesslock.
  apply preserves_bind; [apply plenty_update|]. auto 10 with keeps.
Qed.

Lemma plenty_get_protect addr : preserves plenty (xh_util_get_addr_protect addr).
Proof. apply preserves_bind; [apply plenty_iterate|]. intros []. auto with keeps. Qed.

Lemma plenty_set_protect addr pr : preserves plenty (xh_util_set_addr_protect addr pr).
Proof. apply preserves_bind; auto with keeps. Qed.

Lemma plenty_write addr bs : preserves plenty (xh_util_write_memory_safely addr bs).
Proof. apply plenty_on_mach. Qed.

Lemma plenty_flush addr : preserves plenty (xh_util_flush_instruction_cache addr).
Proof. apply preserves_ret. Qed.

#[local] Hint Resolve plenty_get_protect plenty_set_protect plenty_write plenty_flush : keeps.

(** [step]: one statement of a body. *)
Ltac step :=
  match goal with
  | |- preserves _ (_ ≫= _) =>
      apply preserves_bind; [auto with keeps|];
      let a := fresh "a" in intros a; try destruct a as [? ?]
  | |- preserves _ (if ?b then _ else _) => destruct b; [auto with keeps|]
  end.

Lemma plenty_replace addr new old : preserves plenty (xh_elf_replace_function addr new old).
Proof.
  unfold xh_elf_replace_function. do 6 step. step.
  apply preserves_bind; [destruct (old =? 0); auto with keeps|]. intros _. do 3 step.
  auto with keeps.
Qed.

Lemma plenty_find_and_replace self is_plt new old symidx rel :
  preserves plenty (xh_elf_find_and_replace_func self is_plt new old symidx rel).
Proof.
  unfold xh_elf_find_and_replace_func. do 2 step.
  apply preserves_bind; [apply plenty_replace|]. auto with keeps.
Qed.

#[local] Hint Resolve plenty_find_and_replace : keeps.

Lemma plenty_plain_loop self is_plt new old symidx fuel : forall it,
  preserves plenty (plain_loop fuel self is_plt new old symidx it).
Proof.
  induction fuel as [|fuel IH]; intros it; cbn [plain_loop]; [auto with keeps|].
  destruct (plain_reloc_iterator_next it) as [[a|] it']; [|auto with keeps].
  apply preserves_bind; [auto with keeps|]. intros rel. do 3 step. apply IH.
Qed.

Lemma plenty_packed_loop self new old symidx fuel : forall it,
  preserves plenty (packed_loop fuel self new old symidx it).
Proof.
  induction fuel as [|fuel IH]; intros it; cbn [packed_loop]; [auto with keeps|]. step.
  destruct o as [rel|]; [|auto with keeps]. do 2 step. apply IH.
Qed.

Lemma plenty_hook fuel self symbol new old :
  preserves plenty (xh_elf_hook fuel self symbol new old).
Proof.
  unfold xh_elf_hook. step. destruct symbol as [symbol|]; [|auto with keeps]. step.
  apply preserves_bind; [auto with keeps|]. intros [symidx|]; [|auto with keeps].
  assert (forall is_plt rel sz, preserves plenty
    (hook_plain fuel self is_plt new old symidx rel sz)) as Hplain.
  { intros is_plt rel sz. unfold hook_plain. step. apply plenty_plain_loop. }
  do 2 (apply preserves_bind; [apply Hplain|intros ?]; step).
  unfold hook_packed. step. step. apply plenty_packed_loop.
Qed.
End Allocs.

Section Facts.
Context `{Ar : Arch} `{K : Kernel} `{L : Linker} `{P : Posix}.

(** * Which requests apply to a path *)

(** An ignore request for all symbols matches the path. *)
Definition all_ignored (iis : list ignore_info) (path : list Z) : Prop :=
  Exists (fun ii => regexec (ii_regex ii) path = true /\ ii_symbol ii = None) iis.

(** An ignore request for the symbol matches the path. *)
Definition sym_ignored (iis : list ignore_info) (path sym : list Z) : Prop :=
  Exists (fun ii => regexec (ii_regex ii) path = true /\ ii_symbol ii = Some sym) iis.

#[global] Instance all_ignored_dec iis path : Decision (all_ignored iis path).
Proof. unfold all_ignored. apply _. Defined.
#[global] Instance sym_ignored_dec iis path sym : Decision (sym_ignored iis path sym).
Proof. unfold sym_ignored. apply _. Defined.

Definition applies (iis : list ignore_info) (path : list Z) (hi : hook_info) : Prop :=
  regexec (hi_regex hi) path = true /\ ~ sym_ignored iis path (hi_symbol hi).

#[global] Instance applies_dec iis path hi : Decision (applies iis path hi).
Proof. unfold applies. apply _. Defined.

Lemma verdict_spec iis sym path :
  match ignore_verdict iis sym path with
  | HookIt => ~ all_ignored iis path /\ ~ sym_ignored iis path sym
  | Skip => sym_ignored iis path sym
  | Stop => all_ignored iis path
  end.
Proof.
  induction iis as [|ii iis IH]; cbn [ignore_verdict].
  { split; intros H; by inversion H. }
  pose proof (Exists_cons (fun ii => regexec (ii_regex ii) path = true /\ ii_symbol ii = None) ii iis) as Ha.
  pose proof (Exists_cons (fun ii => regexec (ii_regex ii) path = true /\ ii_symbol ii = Some sym) ii iis) as Hs.
  fold (all_ignored (ii :: iis) path) in Ha. fold (all_ignored iis path) in Ha.
  fold (sym_ignored (ii :: iis) path sym) in Hs. fold (sym_ignored iis path sym) in Hs.
  cbv beta in Ha, Hs. destruct (regexec (ii_regex ii) path).
  - destruct (ii_symbol ii) as [s|]; [|tauto]. case_bool_decide as E; [subst; tauto|].
    assert (Some s <> Some sym) by congruence. assert (Some s <> None) by done.
    destruct (ignore_verdict iis sym path); tauto.
  - assert (false <> true) by done. destruct (ignore_verdict iis sym path); tauto.
Qed.

Lemma to_hook_spec his iis path :
  to_hook his iis path = if decide (all_ignored iis path) then [] else filter (applies iis path) his.
Proof.
  induction his as [|hi his IH]; [by destruct (decide _)|]. cbn [to_hook]. rewrite filter_cons.
  destruct (regexec (hi_regex hi) path) eqn:Er.
  2:{ rewrite IH. destruct (decide (all_ignored iis path)); [done|].
      rewrite decide_False; [done|]. unfold applies. rewrite Er. by intros [? _]. }
  pose proof (verdict_spec iis (hi_symbol hi) path) as Hv.
  destruct (ignore_verdict iis (hi_symbol hi) path).
  - destruct Hv as [Hna Hns]. rewrite IH. destruct (decide (all_ignored iis path)); [done|].
    rewrite decide_True; [done|]. by split.
  - rewrite IH. destruct (decide (all_ignored iis path)); [done|].
    rewrite decide_False; [done|]. by intros [_ H].
  - by rewrite decide_True.
Qed.

Lemma matches_to_hook his iis path :
  is_current_pathname_matches_any_requests his iis path = negb (bool_decide (to_hook his iis path = [])).
Proof.
  induction his as [|hi his IH]; [done|]. cbn [to_hook is_current_pathname_matches_any_requests].
  destruct (regexec (hi_regex hi) path); [|done]. by destruct (ignore_verdict iis (hi_symbol hi) path).
Qed.

(** C30. The meaning of hook and ignore requests.  For every queue and path, the requests that
    the loops of [xh_core_hook_impl_with_spec_info] hook are, in the order of registration,
    those whose pattern matches the path and for whose symbol no ignore request matches it,
    or none at all where an ignore request for all symbols matches; the order in which
    ignore requests were made plays no role although the loops leave early.  The scan that
    decides whether a library is looked at accepts it exactly when that list is not
    empty. *)
Theorem requests_semantics (his : list hook_info) (iis : list ignore_info) (path : list Z) :
  to_hook his iis path
  = (if decide (all_ignored iis path) then [] else filter (applies iis path) his)
  /\ (is_current_pathname_matches_any_requests his iis path = true
      <-> to_hook his iis path <> []).
Proof.
  split; [apply to_hook_spec|]. rewrite matches_to_hook, negb_true_iff, bool_decide_eq_false. done.
Qed.

(** * SIGSEGV protection *)

Lemma on_proc_keeps {A} (c : M process A) : keeps cor (on_proc c).
Proof. intros w. unfold on_proc, lift. by destruct (c (proc w)). Qed.

#[local] Hint Resolve on_proc_keeps : keeps.

Lemma hook_all_keeps fuel elf his : keeps cor (hook_all fuel elf his).
Proof. induction his; cbn [hook_all]; auto with keeps. Qed.

Lemma hook_groups_keeps fuel mi gs : keeps cor (hook_groups fuel mi gs).
Proof.
  induction gs; cbn [hook_groups]; [auto with keeps|].
  apply keeps_bind; [apply hook_all_keeps|done].
Qed.

Lemma init_elf_keeps mi : keeps cor (init_elf mi).
Proof. apply keeps_bind; [auto with keeps|]. intros []. auto with keeps. Qed.

Lemma hook_impl_keeps fuel mi : keeps cor (xh_core_hook_impl fuel mi).
Proof.
  apply keeps_bind; [apply init_elf_keeps|]. intros [r mi']. destruct (negb _); [auto with keeps|].
  apply keeps_bind; [auto with keeps|]. intros c. apply keeps_bind; [apply hook_all_keeps|].
  intros _. auto using hook_groups_keeps with keeps.
Qed.

Lemma single_keeps fuel mi symbol new old :
  keeps cor (xh_core_hook_single_sym_impl fuel mi symbol new old).
Proof.
  unfold xh_core_hook_single_sym_impl. destruct mi, symbol; auto with keeps.
  destruct (new =? 0); [auto with keeps|].
  apply keeps_bind; [apply init_elf_keeps|]. intros [r mi']. destruct (negb _); auto with keeps.
Qed.

(** The protection is active. *)
Definition protected_ (c : core) : Prop := sigsegv_enable c = true /\ sigsegv_act c = OurHandler.

Lemma set_flag_back c : sigsegv_flag c = false ->
  set_sigsegv_flag false (set_sigsegv_flag true c) = c.
Proof. destruct c. simpl. by intros ->. Qed.

(** Running [body] under protection: a fault becomes the alternative result, everything else
    stays as it is, and the variables of xh_core.c are as before. *)
Lemma protection_run {A} (body : M world A) (alt : A) w :
  protected_ (cor w) -> sigsegv_flag (cor w) = false -> keeps cor body ->
  exists r w', body (set_cor (set_sigsegv_flag true (cor w)) w) = (r, w')
    /\ match r with
       | Ok a => with_protection body (mret alt) w = (Ok a, set_cor (cor w) w')
       | Segv => with_protection body (mret alt) w = (Ok alt, set_cor (cor w) w')
       | Aborted => with_protection body (mret alt) w = (Aborted, w')
       | Undef => with_protection body (mret alt) w = (Undef, w')
       | NoFuel => with_protection body (mret alt) w = (NoFuel, w')
       end.
Proof.
  intros [He Ha] Hf Hk. set (w1 := set_cor (set_sigsegv_flag true (cor w)) w).
  destruct (body w1) as [r w'] eqn:E. exists r, w'. split; [done|].
  assert (cor w' = set_sigsegv_flag true (cor w)) as Hc
    by (specialize (Hk w1); rewrite E in Hk; exact Hk).
  assert (set_cor (set_sigsegv_flag false (cor w')) w' = set_cor (cor w) w') as Hback
    by (by rewrite Hc, set_flag_back).
  unfold with_protection. rewrite (M_bind_run (gets cor) _ w (cor w) w eq_refl), He. cbn [negb].
  rewrite (M_bind_run (on_core (set_sigsegv_flag true)) _ w tt w1 eq_refl).
  assert (sigsetjmp body (mret alt) w1 = (match r with Segv => Ok alt | r => r end, w')) as Ej.
  { unfold sigsetjmp. rewrite E, Hc. destruct r; try done. simpl. by rewrite Ha. }
  destruct r; try (unfold mbind, M_bind; by rewrite Ej);
    rewrite (M_bind_run _ _ _ _ _ Ej),
      (M_bind_run (on_core (set_sigsegv_flag false)) _ w' tt _ eq_refl);
    by rewrite Hback.
Qed.


(** The protection does not work before the first refresh.  The handler is installed by
    [xh_core_init_once], which only [xh_core_refresh] calls: where it is not installed, a
    fault in [xh_core_got_hook_symbol] reaches the process although the protection is
    enabled. *)
Lemma unprotected_before_refresh (fuel : nat) (mi : map_info) (symbol : option (list Z))
    (new old id : Z) (w w' : world) :
  sigsegv_enable (cor w) = true -> sigsegv_act (cor w) = OtherHandler id ->
  xh_core_hook_single_sym_impl fuel (Some mi) symbol new old
    (set_cor (set_sigsegv_flag true (cor w)) w) = (Segv, w') ->
  xh_core_got_hook_symbol fuel (Some mi) symbol new old w = (Segv, w').
Proof.
  intros He Ha E. unfold xh_core_got_hook_symbol, with_protection.
  rewrite (M_bind_run (gets cor) _ w (cor w) w eq_refl), He. cbn [negb].
  rewrite (M_bind_run (on_core (set_sigsegv_flag true)) _ w tt _ eq_refl).
  pose proof (single_keeps fuel (Some mi) symbol new old
    (set_cor (set_sigsegv_flag true (cor w)) w)) as Hk. rewrite E in Hk. simpl in Hk.
  unfold mbind, M_bind, sigsetjmp. rewrite E, Hk. simpl. by rewrite Ha.
Qed.
End Facts.

(** * Refresh *)
Section Refresh.
Context `{Ar : Arch} `{K : Kernel} `{L : Linker} `{P : Posix}.

(** A library that the requests in [c] want, and that is not a pseudo file. *)
Definition wants (c : core) (path : list Z) : bool :=
  negb (nth 0 path 0 =? 91) && wanted_path c path.

(** The requests are the ones in [c]. *)
Definition same_requests (c c' : core) : Prop :=
  core_hook_info c' = core_hook_info c /\ core_ignore_info c' = core_ignore_info c
  /\ request_groups c' = request_groups c.

Lemma wants_same c c' path : same_requests c c' -> wants c' path = wants c path.
Proof. unfold wants, wanted_path. by intros (-> & -> & ->). Qed.

(** The variables of semi_dlfcn.c during the walk. *)
Variable d : sd_state.

(** The state between two calls of the callback. *)
Definition walking (c : core) (t : gmap (list Z) map_info) (w : world) : Prop :=
  plenty (proc w) /\ same_requests c (cor w) /\ map_infos (cor w) = t /\ dls w = d.

Lemma walking_flag c t b : preserves (walking c t) (on_core (set_sigsegv_flag b)).
Proof. by intros w. Qed.

Lemma walking_proc {A} c t (m : M process A) : preserves plenty m -> preserves (walking c t) (on_proc m).
Proof.
  intros Hm w (Hp & Hs & Ht & Hd). unfold on_proc, lift. specialize (Hm (proc w) Hp).
  by destruct (m (proc w)).
Qed.

#[local] Hint Resolve walking_flag : keeps.

Lemma walking_sigsetjmp {A} c t (body caught : M world A) :
  preserves (walking c t) body -> preserves (walking c t) caught ->
  preserves (walking c t) (sigsetjmp body caught).
Proof.
  intros Hb Hc w Hw. specialize (Hb w Hw). unfold sigsetjmp.
  destruct (body w) as [[] w']; simpl in *; try done.
  destruct (sigsegv_act (cor w')); [|done]. destruct (sigsegv_flag (cor w')); [by apply Hc|done].
Qed.

Lemma walking_protection {A} c t (body caught : M world A) :
  preserves (walking c t) body -> preserves (walking c t) caught ->
  preserves (walking c t) (with_protection body caught).
Proof.
  intros Hb Hc. unfold with_protection. apply preserves_bind; [auto with keeps|]. intros c'.
  destruct (negb _); [done|]. apply preserves_bind; [auto with keeps|]. intros _.
  apply preserves_bind; [by apply walking_sigsetjmp|]. auto with keeps.
Qed.

Lemma walking_hook_all c t fuel elf his : preserves (walking c t) (hook_all fuel elf his).
Proof.
  induction his; cbn [hook_all]; [auto with keeps|].
  apply preserves_bind; [|auto]. apply walking_proc, plenty_hook.
Qed.

Lemma walking_hook_impl c t fuel mi : preserves (walking c t) (xh_core_hook_impl fuel mi).
Proof.
  apply preserves_bind; [apply preserves_bind; [auto with keeps|]; intros []; auto with keeps|].
  intros [r mi']. destruct (negb _); [auto with keeps|].
  apply preserves_bind; [auto with keeps|]. intros c'.
  apply preserves_bind; [apply walking_hook_all|]. intros _. apply preserves_bind; [|auto with keeps].
  induction (request_groups c'); cbn [hook_groups]; [auto with keeps|].
  apply preserves_bind; [apply walking_hook_all|auto].
Qed.

Lemma walking_hook c t fuel mi : preserves (walking c t) (xh_core_hook fuel mi).
Proof. apply walking_protection; [apply walking_hook_impl|auto with keeps]. Qed.

Lemma walking_hook_run c t fuel mi w r w' :
  walking c t w -> xh_core_hook fuel mi w = (r, w') -> walking c t w'.
Proof. intros Hw E. pose proof (walking_hook c t fuel mi w Hw) as H. by rewrite E in H. Qed.

(** Hooking does not change which library an entry stands for. *)
Lemma hook_impl_value fuel mi w mi' w' : xh_core_hook_impl fuel mi w = (Ok mi', w') ->
  exists e, mi' = set_elf mi e.
Proof.
  intros H. unfold xh_core_hook_impl, init_elf in H. case_run H. destruct a as [r m1].
  case_run Hrun. destruct a as [r' e]. injection Hrun as <- <- <-. exists e.
  destruct (negb _); [by injection H as <- _|]. do 3 case_run H. by injection H as <- _.
Qed.

Lemma hook_value fuel mi w mi' w' : xh_core_hook fuel mi w = (Ok mi', w') ->
  mi_pathname mi' = mi_pathname mi /\ mi_bias mi' = mi_bias mi.
Proof.
  intros H. unfold xh_core_hook, with_protection in H. case_run H.
  destruct (negb _); [by apply hook_impl_value in H as [e ->]|].
  case_run H. case_run H. case_run H. injection H as <- _. unfold sigsetjmp in Hrun1.
  destruct (xh_core_hook_impl fuel mi s0) as [[m1| | | |] w1] eqn:E; try done.
  - injection Hrun1 as <- _. by apply hook_impl_value in E as [e ->].
  - destruct (sigsegv_act (cor w1)); [|done]. destruct (sigsegv_flag (cor w1)); [|done].
    by injection Hrun1 as <- _.
Qed.

(** An allocation while there is plenty. *)
Lemma walloc_run w : plenty (proc w) -> walloc w = (Ok true, w).
Proof.
  destruct w as [[m s l] x c]. unfold plenty, walloc, on_proc, lift, alloc. simpl. by intros ->.
Qed.

(** Entries of the tree are under their own name. *)
Definition tree_ok (t : gmap (list Z) map_info) : Prop :=
  forall path mi, t !! path = Some mi -> mi_pathname mi = path.

(** What one call of the callback does with a library called [path]. *)
Lemma cb_step fuel info path c t r w res r' w' :
  walking c t w -> tree_ok t -> dlpi_name info = Some path ->
  xh_core_maps_iterate_cb fuel info r w = (Ok (res, r'), w') ->
  res = 0 /\ walking c (if wants c path then delete path t else t) w'
  /\ (if wants c path && bool_decide (r !! path = None)
      then exists mi, r' = <[path := mi]> r /\ mi_bias mi = dlpi_addr info /\ mi_pathname mi = path
      else r' = r).
Proof.
  intros Hw Ht Hname H. pose proof Hw as (Hp & Hs & Hm & Hd).
  unfold xh_core_maps_iterate_cb in H. rewrite Hname in H. cbn [default from_option id] in H.
  unfold wants. destruct (nth 0 path 0 =? 91); [by injection H as <- <- <-|]. cbn [negb andb].
  rewrite (M_bind_run (gets cor) _ w (cor w) w eq_refl) in H.
  assert (wanted_path (cor w) path = wanted_path c path) as Ew
    by (unfold wanted_path; by destruct Hs as (-> & -> & ->)).
  rewrite Ew, Hm in H. destruct (wanted_path c path); [|by injection H as <- <- <-]. cbn [negb andb] in *.
  destruct (t !! path) as [mi|] eqn:Et.
  - case_run H. injection Hrun as <- <-.
    set (w1 := set_cor (set_map_infos (delete path (map_infos (cor w))) (cor w)) w) in H.
    assert (walking c (delete path t) w1) as Hw1 by (split_and!; [done|done..|simpl; by rewrite Hm|done]).
    destruct (r !! path) as [mi0|] eqn:Er; [injection H as <- <- <-; by rewrite bool_decide_false|].
    rewrite bool_decide_true by done.
    destruct (Z.eqb_spec (mi_bias mi) (dlpi_addr info)) as [Eb|Eb].
    { injection H as <- <- <-. split_and!; [done|done|]. exists mi. split_and!; auto. }
    case_run H. injection H as <- <- <-. apply hook_value in Hrun as Hv. destruct Hv as [Hv1 Hv2].
    split_and!; [done| |exists a; split_and!; [done|done|rewrite Hv1; simpl; auto]].
    by eapply walking_hook_run.
  - rewrite (M_bind_run _ _ _ _ _ (walloc_run w Hp)) in H. cbn [negb] in H.
    rewrite (M_bind_run _ _ _ _ _ (walloc_run w Hp)) in H. cbn [negb] in H.
    rewrite delete_id by done.
    destruct (r !! path) as [mi0|] eqn:Er; [injection H as <- <- <-; by rewrite bool_decide_false|].
    rewrite bool_decide_true by done.
    case_run H. injection H as <- <- <-. apply hook_value in Hrun as Hv. destruct Hv as [Hv1 Hv2].
    split_and!; [done| |by exists a].
    by eapply walking_hook_run.
Qed.

(** [r] and [r'] stop the run in the same way. *)
Definition same_failure {A B} (r : result A) (r' : result B) : Prop :=
  match r, r' with
  | Segv, Segv | Aborted, Aborted | Undef, Undef | NoFuel, NoFuel => True
  | _, _ => False
  end.

(** The protection is active and no protected code is running. *)
Definition armed (w : world) : Prop := protected_ (cor w) /\ sigsegv_flag (cor w) = false.

Lemma armed_hook fuel mi w : armed w ->
  match xh_core_hook fuel mi w with
  | (Ok _, w') => armed w'
  | (Segv, _) => False
  | _ => True
  end.
Proof.
  intros [Hp Hf]. unfold xh_core_hook.
  destruct (protection_run (xh_core_hook_impl fuel mi) mi w Hp Hf (hook_impl_keeps fuel mi))
    as (r & w' & _ & H).
  by destruct r; rewrite H.
Qed.

(** Hooking a library that stands for [info] ends like [r], in a state that is protected if
    [w] is. *)
Definition hook_ends {A} (fuel : nat) (info : dl_phdr_info) (w : world) (r : result A) : Prop :=
  exists mi w1, Some (mi_pathname mi) = dlpi_name info /\ mi_bias mi = dlpi_addr info
    /\ same_failure r (fst (xh_core_hook fuel mi w1)) /\ (armed w -> armed w1).

(** The callback returns, unless the hooking in it does not. *)
Definition cb_ends {A} (fuel : nat) (info : dl_phdr_info) (w : world) (o : result A * world) : Prop :=
  match o with
  | (Ok _, w') => armed w -> armed w'
  | (r, _) => hook_ends fuel info w r
  end.

Lemma cb_ends_hook {A} fuel info mi w w1 (f : map_info -> A) :
  Some (mi_pathname mi) = dlpi_name info -> mi_bias mi = dlpi_addr info -> (armed w -> armed w1) ->
  cb_ends fuel info w ((m ← xh_core_hook fuel mi; mret (f m)) w1).
Proof.
  intros Hn Hb Ha. unfold mbind, M_bind. pose proof (armed_hook fuel mi w1) as Hh.
  destruct (xh_core_hook fuel mi w1) as [[] w2] eqn:E; cbn [cb_ends mret M_ret]; [auto|..];
    exists mi, w1; rewrite E; by split_and!.
Qed.

Lemma cb_outcome fuel info path c t r w :
  walking c t w -> tree_ok t -> dlpi_name info = Some path ->
  cb_ends fuel info w (xh_core_maps_iterate_cb fuel info r w).
Proof.
  intros (Hp & _ & Hm & _) Ht Hname. unfold xh_core_maps_iterate_cb. rewrite Hname.
  cbn [default from_option id]. destruct (nth 0 path 0 =? 91); [exact id|].
  rewrite (M_bind_run (gets cor) _ w (cor w) w eq_refl), Hm.
  destruct (wanted_path (cor w) path); [|exact id]. cbn [negb].
  destruct (t !! path) as [mi|] eqn:Et.
  - rewrite (M_bind_run (on_core (fun c => set_map_infos (delete path (map_infos c)) c)) _ w tt _ eq_refl).
    destruct (r !! path); [exact id|]. destruct (mi_bias mi =? dlpi_addr info); [exact id|].
    apply cb_ends_hook; [|done|exact id]. simpl. by rewrite (Ht _ _ Et).
  - do 2 (rewrite (M_bind_run _ _ _ _ _ (walloc_run w Hp)); cbn [negb]).
    destruct (r !! path); [exact id|]. by apply cb_ends_hook.
Qed.

(** The first loaded object of a name. *)
Definition find_info (path : list Z) (infos : list dl_phdr_info) : option dl_phdr_info :=
  snd <$> list_find (fun i => dlpi_name i = Some path) infos.

Lemma find_info_cons path info infos :
  find_info path (info :: infos)
  = if decide (dlpi_name info = Some path) then Some info else find_info path infos.
Proof.
  unfold find_info. cbn [list_find]. case_decide; [done|]. by destruct (list_find _ infos) as [[]|].
Qed.

(** An entry that stands for [info]. *)
Definition stands_for (path : list Z) (info : dl_phdr_info) (o : option map_info) : Prop :=
  exists mi, o = Some mi /\ mi_bias mi = dlpi_addr info /\ mi_pathname mi = path.

(** The tree [r'] after a walk over [infos] from [r] on. *)
Definition walked (c : core) (infos : list dl_phdr_info) (r r' : gmap (list Z) map_info) : Prop :=
  forall path,
  match r !! path with
  | Some mi => r' !! path = Some mi
  | None =>
      match find_info path infos with
      | Some info => if wants c path then stands_for path info (r' !! path) else r' !! path = None
      | None => r' !! path = None
      end
  end.

Lemma tree_ok_delete t path : tree_ok t -> tree_ok (delete path t).
Proof. intros Ht q mi Hq. apply lookup_delete_Some in Hq as [_ Hq]. by apply Ht. Qed.

Lemma walk_run fuel c infos : Forall has_name infos -> forall t r w res r' w',
  walking c t w -> tree_ok t ->
  dl_iterate (xh_core_maps_iterate_cb fuel) infos r w = (Ok (res, r'), w') ->
  walked c infos r r' /\ exists t', walking c t' w'.
Proof.
  induction 1 as [|info infos [path Hname] _ IH]; intros t r w res r' w' Hw Ht H; cbn [dl_iterate] in H.
  { injection H as <- <- <-. split; [|eauto]. intros path. by destruct (r !! path). }
  case_run H. destruct a as [res1 r1].
  destruct (cb_step fuel info path c t r w res1 r1 s Hw Ht Hname Hrun) as (-> & Hw1 & Hr1).
  cbn [Z.eqb negb] in H.
  apply (IH (if wants c path then delete path t else t)) in H as [Hwalk Hw']; [|done|].
  2:{ destruct (wants c path); [by apply tree_ok_delete|done]. }
  split; [|done]. intros q. specialize (Hwalk q). rewrite find_info_cons, Hname.
  destruct (wants c path) eqn:Ewp; cbn [andb] in Hr1.
  2:{ subst r1. destruct (r !! q); [done|]. case_decide as E; [|done].
      injection E as ->. rewrite Ewp. destruct (find_info q infos); [|done]. by rewrite Ewp in Hwalk. }
  case_bool_decide as En.
  - destruct Hr1 as (mi & -> & Hb & Hpn).
    destruct (decide (q = path)) as [-> | Hq].
    + rewrite lookup_insert_eq in Hwalk. rewrite En, decide_True by done. rewrite Ewp.
      exists mi. by split_and!.
    + rewrite lookup_insert_ne in Hwalk by done. destruct (r !! q); [done|].
      rewrite decide_False; [done|]. congruence.
  - subst r1. destruct (r !! q) eqn:Eq; [done|]. rewrite decide_False; [done|]. intros [= ->]. done.
Qed.

(** The walk returns, unless hooking one of the libraries does not. *)
Lemma walk_outcome fuel c infos : Forall has_name infos -> forall t r w,
  walking c t w -> tree_ok t ->
  match dl_iterate (xh_core_maps_iterate_cb fuel) infos r w with
  | (Ok _, _) => True
  | (f, _) => exists info, info ∈ infos /\ hook_ends fuel info w f
  end.
Proof.
  induction 1 as [|info infos [path Hname] _ IH]; intros t r w Hw Ht; cbn [dl_iterate]; [done|].
  pose proof (cb_outcome fuel info path c t r w Hw Ht Hname) as Hcb.
  unfold mbind, M_bind.
  destruct (xh_core_maps_iterate_cb fuel info r w) as [[[res1 r1]| | | |] w1] eqn:E;
    [|exists info; split; [by constructor|exact Hcb]..].
  destruct (cb_step fuel info path c t r w res1 r1 w1 Hw Ht Hname E) as (-> & Hw1 & _).
  cbn [Z.eqb negb].
  specialize (IH (if wants c path then delete path t else t) r1 w1 Hw1).
  assert (tree_ok (if wants c path then delete path t else t)) as Ht1
    by (destruct (wants c path); [by apply tree_ok_delete|done]).
  specialize (IH Ht1). cbn [cb_ends] in Hcb.
  destruct (dl_iterate _ infos r1 w1) as [[] w2]; [done|..];
    destruct IH as (i & Hi & mi & w3 & H1 & H2 & H3 & H4); exists i;
    (split; [by constructor|]); exists mi, w3; split_and!; auto.
Qed.

(** Every wanted library that is still to come has an entry with its load bias. *)
Definition synced (c : core) (t r : gmap (list Z) map_info) (infos : list dl_phdr_info) : Prop :=
  forall path info, wants c path = true -> r !! path = None -> find_info path infos = Some info ->
  stands_for path info (t !! path).

(** The step for a library that is known with its load bias, or was seen already. *)
Lemma cb_synced fuel info infos path c t r w :
  walking c t w -> dlpi_name info = Some path -> synced c t r (info :: infos) ->
  exists r' w', xh_core_maps_iterate_cb fuel info r w = (Ok (0, r'), w')
    /\ proc w' = proc w
    /\ walking c (if wants c path then delete path t else t) w'
    /\ (if wants c path && bool_decide (r !! path = None)
        then exists mi, t !! path = Some mi /\ r' = <[path := mi]> r else r' = r).
Proof.
  intros Hw Hname Hsync. pose proof Hw as (Hp & Hs & Hm & Hd).
  specialize (Hsync path info). rewrite find_info_cons, decide_True in Hsync by done.
  unfold xh_core_maps_iterate_cb. rewrite Hname. cbn [default from_option id]. unfold wants in *.
  destruct (nth 0 path 0 =? 91); [by exists r, w|]. cbn [negb andb] in *.
  rewrite (M_bind_run (gets cor) _ w (cor w) w eq_refl).
  assert (wanted_path (cor w) path = wanted_path c path) as Ew
    by (unfold wanted_path; by destruct Hs as (-> & -> & ->)).
  rewrite Ew, Hm. destruct (wanted_path c path); [|by exists r, w]. cbn [negb andb] in *.
  set (w1 := set_cor (set_map_infos (delete path (map_infos (cor w))) (cor w)) w).
  assert (walking c (delete path t) w1) as Hw1 by (split_and!; [done|done..|simpl; by rewrite Hm|done]).
  destruct (r !! path) as [mi0|] eqn:Er.
  - rewrite bool_decide_false by done. destruct (t !! path) as [mi|] eqn:Et.
    + exists r, w1. by split_and!.
    + do 2 (rewrite (M_bind_run _ _ _ _ _ (walloc_run w Hp)); cbn [negb]).
      exists r, w. rewrite delete_id by done. by split_and!.
  - rewrite bool_decide_true by done. destruct Hsync as (mi & -> & Hb & _); [done|done|done|].
    rewrite (M_bind_run (on_core (fun c => set_map_infos (delete path (map_infos c)) c)) _ w tt w1 eq_refl).
    rewrite Hb, Z.eqb_refl.
    exists (<[path := mi]> r), w1. split_and!; try done. by exists mi.
Qed.

Lemma walk_synced fuel c infos : Forall has_name infos -> forall t r w,
  walking c t w -> synced c t r infos ->
  exists r' w', dl_iterate (xh_core_maps_iterate_cb fuel) infos r w = (Ok (0, r'), w')
    /\ proc w' = proc w
    /\ forall path, r' !! path
         = match r !! path with
           | Some mi => Some mi
           | None => if wants c path && bool_decide (is_Some (find_info path infos))
                     then t !! path else None
           end.
Proof.
  induction 1 as [|info infos [path Hname] _ IH]; intros t r w Hw Hsync; cbn [dl_iterate].
  { exists r, w. split_and!; try done. intros q. rewrite andb_false_r. by destruct (r !! q). }
  destruct (cb_synced fuel info infos path c t r w Hw Hname Hsync) as (r1 & w1 & E1 & Hp1 & Hw1 & Hr1).
  rewrite (M_bind_run _ _ _ _ _ E1). cbn [Z.eqb negb].
  destruct (IH (if wants c path then delete path t else t) r1 w1) as (r' & w' & E' & Hp' & Hr'); [done| |].
  { intros q i Hwq Hrq Hfq. specialize (Hsync q i Hwq). rewrite find_info_cons, Hname in Hsync.
    destruct (wants c path) eqn:Ewp; cbn [andb] in Hr1.
    - case_bool_decide as En.
      + destruct Hr1 as (mi & _ & ->). apply lookup_insert_None in Hrq as [Hrq Hne].
        rewrite lookup_delete_ne by done. apply Hsync; [done|]. rewrite decide_False by congruence. done.
      + subst r1. assert (q <> path) by congruence. rewrite lookup_delete_ne by done.
        apply Hsync; [done|]. rewrite decide_False by congruence. done.
    - subst r1. apply Hsync; [done|]. rewrite decide_False; [done|]. congruence. }
  exists r', w'. split; [exact E'|]. split; [congruence|]. intros q. rewrite Hr', find_info_cons, Hname.
  destruct (wants c path) eqn:Ewp; cbn [andb] in Hr1.
  2:{ subst r1. destruct (r !! q); [done|]. case_decide as E; [|done].
      injection E as ->. by rewrite Ewp. }
  case_bool_decide as En.
  - destruct Hr1 as (mi & Hmi & ->). destruct (decide (q = path)) as [-> | Hq].
    + rewrite lookup_insert_eq, En, decide_True by done. rewrite Ewp, bool_decide_true by done.
      by rewrite Hmi.
    + rewrite lookup_insert_ne by done. destruct (r !! q); [done|].
      rewrite decide_False by congruence. by rewrite lookup_delete_ne.
  - subst r1. destruct (r !! q) eqn:Eq; [done|].
    rewrite decide_False by congruence. by rewrite lookup_delete_ne by congruence.
Qed.
End Refresh.

Section RefreshTheorem.
Context `{Ar : Arch} `{K : Kernel} `{L : Linker} `{P : Posix}.

(** The libraries loaded, as a refresh sees them. *)
Definition loaded_infos (info : dl_phdr_info) (objs : list dl_phdr_info) : list dl_phdr_info :=
  info :: filter has_name objs.

(** Some request applies to the path. *)
Definition requested (c : core) (path : list Z) : Prop :=
  Exists (fun '(his, iis) => ~ all_ignored iis path /\ Exists (applies iis path) his)
    ((core_hook_info c, core_ignore_info c)
     :: ((fun g => (hook_infos g, ignore_infos g)) <$> request_groups c)).

#[global] Instance requested_dec c path : Decision (requested c path).
Proof. unfold requested. apply Exists_dec. intros []. apply _. Defined.

(** A library is hooked: it is not a pseudo file, whose names start with a bracket, and some
    request applies. *)
Definition wanted (c : core) (path : list Z) : Prop := nth 0 path 0 <> 91 /\ requested c path.

#[global] Instance wanted_dec c path : Decision (wanted c path).
Proof. unfold wanted. apply _. Defined.

Lemma scan_spec his iis path :
  is_current_pathname_matches_any_requests his iis path = true
  <-> ~ all_ignored iis path /\ Exists (applies iis path) his.
Proof.
  rewrite matches_to_hook, to_hook_spec, negb_true_iff, bool_decide_eq_false.
  destruct (decide (all_ignored iis path)); [tauto|]. rewrite Exists_exists. split.
  - intros H. split; [done|]. destruct (filter (applies iis path) his) as [|hi l] eqn:E; [done|].
    exists hi. assert (hi ∈ filter (applies iis path) his) as Hin by (rewrite E; left).
    apply list_elem_of_filter in Hin. tauto.
  - intros [_ (hi & Hin & Ha)] E.
    assert (hi ∈ filter (applies iis path) his) as Hf by (by apply list_elem_of_filter).
    rewrite E in Hf. by apply not_elem_of_nil in Hf.
Qed.

Lemma wants_spec c path : wants c path = bool_decide (wanted c path).
Proof.
  apply eq_true_iff_eq. rewrite bool_decide_eq_true. unfold wants, wanted, wanted_path, requested.
  rewrite andb_true_iff, negb_true_iff, Z.eqb_neq, orb_true_iff, scan_spec, Exists_cons.
  rewrite existsb_exists, !Exists_exists. setoid_rewrite list_elem_of_fmap.
  setoid_rewrite scan_spec. setoid_rewrite list_elem_of_In.
  split; intros [Hn H]; (split; [done|]); (destruct H as [H|H]; [by left|right]).
  - destruct H as (g & Hg & H). exists (hook_infos g, ignore_infos g). split; [by exists g|done].
  - destruct H as (q & (g & -> & Hg) & H). by exists g.
Qed.

(** The registry agrees with the loaded libraries. *)
Definition in_step (c : core) (infos : list dl_phdr_info) (t : gmap (list Z) map_info) : Prop :=
  forall path,
  match find_info path infos with
  | Some i => if decide (wanted c path) then stands_for path i (t !! path) else t !! path = None
  | None => t !! path = None
  end.

Lemma in_step_wants c infos t : in_step c infos t <->
  forall path,
  match find_info path infos with
  | Some i => if wants c path then stands_for path i (t !! path) else t !! path = None
  | None => t !! path = None
  end.
Proof.
  unfold in_step. apply forall_proper. intros path. destruct (find_info path infos); [|done].
  rewrite wants_spec. by case_bool_decide; case_decide.
Qed.

Lemma loaded_named info objs : has_name info -> Forall has_name (loaded_infos info objs).
Proof. intros H. constructor; [done|]. apply Forall_forall. intros x Hx. by apply list_elem_of_filter in Hx as [? _]. Qed.

Lemma linker_entry_named m base info : linker_entry m base info -> has_name info.
Proof. intros (? & ? & ? & _ & _ & _ & ->). by eexists. Qed.

(** The state in which the walk starts. *)
Definition start_walk (w : world) : world :=
  with_base (linker_base w) (set_cor (lock_read (cor w)) w).

Lemma lock_read_core c : same_requests c (lock_read c) /\ map_infos (lock_read c) = map_infos c.
Proof. unfold lock_read. by destruct (refresh_blocker c). Qed.

Lemma start_walking w : plenty (proc w) ->
  walking (dls (start_walk w)) (cor w) (map_infos (cor w)) (start_walk w).
Proof. intros Hp. destruct (lock_read_core (cor w)) as [H1 H2]. by split_and!. Qed.

Lemma refresh_start fuel w info objs :
  modern objs -> linker_base w <> 0 -> linker_entry (mach (proc w)) (linker_base w) info ->
  xh_core_refresh_impl fuel w
  = ('(_, refreshed) ← dl_iterate (xh_core_maps_iterate_cb fuel) (loaded_infos info objs) ∅;
     on_core (fun c => set_map_infos refreshed c);; on_core unlock) (start_walk w).
Proof.
  intros Hm Hb Hi. unfold xh_core_refresh_impl.
  rewrite (M_bind_run (on_core lock_read) _ w tt (set_cor (lock_read (cor w)) w) eq_refl).
  unfold mbind at 1 3, M_bind at 1 3. by rewrite (semi_iterate_as_list _ ∅ _ info objs).
Qed.

Lemma armed_start w : armed w -> armed (start_walk w).
Proof. unfold armed, protected_, start_walk. simpl. unfold lock_read. by destruct (refresh_blocker (cor w)). Qed.

(** A refresh when the registry is in step: nothing is hooked. *)
Lemma refresh_in_step fuel w info objs :
  modern objs -> linker_base w <> 0 -> linker_entry (mach (proc w)) (linker_base w) info ->
  plenty (proc w) -> in_step (cor w) (loaded_infos info objs) (map_infos (cor w)) ->
  exists w', xh_core_refresh_impl fuel w = (Ok tt, w') /\ proc w' = proc w
    /\ map_infos (cor w') = map_infos (cor w).
Proof.
  intros Hmod Hb Hi Hp Hstep. rewrite in_step_wants in Hstep. rewrite (refresh_start fuel w info objs) by done.
  destruct (walk_synced (dls (start_walk w)) fuel (cor w) (loaded_infos info objs)
              (loaded_named info objs (linker_entry_named _ _ _ Hi)) (map_infos (cor w)) ∅ (start_walk w)
              (start_walking w Hp)) as (r' & w' & E & Hpw & Hr).
  { intros path i Hw _ Hf. specialize (Hstep path). by rewrite Hf, Hw in Hstep. }
  rewrite (M_bind_run _ _ _ _ _ E). eexists. split; [reflexivity|]. split; [done|].
  simpl. apply map_eq. intros path. rewrite Hr, lookup_empty. specialize (Hstep path).
  destruct (find_info path (loaded_infos info objs)) as [i|].
  - rewrite bool_decide_true by (by eexists). by destruct (wants (cor w) path).
  - by rewrite andb_false_r.
Qed.

(** After a refresh that returns, the registry is in step. *)
Lemma refresh_returned fuel w w' info objs :
  modern objs -> linker_base w <> 0 -> linker_entry (mach (proc w)) (linker_base w) info ->
  plenty (proc w) -> tree_ok (map_infos (cor w)) ->
  xh_core_refresh_impl fuel w = (Ok tt, w') ->
  in_step (cor w) (loaded_infos info objs) (map_infos (cor w'))
  /\ same_requests (cor w) (cor w') /\ plenty (proc w') /\ linker_base w' = linker_base w.
Proof.
  intros Hmod Hb Hi Hp Ht H. rewrite (refresh_start fuel w info objs) in H by done.
  case_run H. destruct a as [res r]. injection H as <-.
  apply (walk_run (dls (start_walk w)) fuel (cor w)) with (t := map_infos (cor w)) in Hrun
    as [Hwalk (t' & Hp' & Hs' & _ & Hd')]; [|by eapply loaded_named, linker_entry_named
    |by apply start_walking|done].
  split_and!; [|done..|].
  - apply in_step_wants. intros path. specialize (Hwalk path). rewrite lookup_empty in Hwalk. exact Hwalk.
  - unfold linker_base at 1. simpl. rewrite Hd'. simpl.
    by destruct (Z.eqb_spec (linker_base w) 0).
Qed.

End RefreshTheorem.
End XhCoreFacts.

(** * The refresh blocker *)
Module BlockerFacts.
Import XhMaps XhCore.

Section Facts.
Context `{Ar : Arch} `{K : Kernel} `{L : Linker} `{P : Posix}.

Inductive blocker_op := Block | Unblock.

Definition run_op (o : blocker_op) : M world unit :=
  match o with Block => xh_core_block_refresh | Unblock => xh_core_unblock_refresh end.

Fixpoint run_ops (l : list blocker_op) : M world unit :=
  match l with
  | [] => mret tt
  | o :: l => run_op o;; run_ops l
  end.

(** The nesting after a sequence of calls from nesting [n] on; [None] where it unblocks more
    often than it blocked. *)
Fixpoint nesting (n : Z) (l : list blocker_op) : option Z :=
  match l with
  | [] => Some n
  | Block :: l => nesting (n + 1) l
  | Unblock :: l => if n =? 0 then None else nesting (n - 1) l
  end.

(** The lock at a nesting of [n]. *)
Definition blocked (n : Z) (c : core) : Prop :=
  tls_key c = true /\ reenter_count c = n
  /\ refresh_blocker c = if n =? 0 then Unlocked else WriteLocked.

Lemma block_run n w : 0 <= n -> blocked n (cor w) ->
  exists w', xh_core_block_refresh w = (Ok tt, w') /\ blocked (n + 1) (cor w').
Proof.
  intros Hn (Hk & Hc & Hl). eexists. split; [reflexivity|].
  unfold getspecific, setspecific, lock_write, blocked. simpl. rewrite Hk, Hc. simpl.
  rewrite Hl. destruct (Z.eqb_spec n 0), (Z.eqb_spec (n + 1) 0); try lia; by rewrite ?Hk, ?Hl.
Qed.

Lemma unblock_run n w : 0 < n -> blocked n (cor w) ->
  exists w', xh_core_unblock_refresh w = (Ok tt, w') /\ blocked (n - 1) (cor w').
Proof.
  intros Hn (Hk & Hc & Hl). eexists. split; [reflexivity|].
  unfold getspecific, setspecific, unlock, blocked. simpl. rewrite Hk, Hc. simpl.
  destruct (Z.leb_spec 1 n); [|lia]. simpl.
  destruct (Z.eqb_spec n 0); [lia|]. destruct (Z.eqb_spec (n - 1) 0); by rewrite ?Hk, ?Hl.
Qed.

(** C40. Blocking refreshes nests.  Once the TLS key exists, any sequence of
    [xh_core_block_refresh] and [xh_core_unblock_refresh] of one thread that never unblocks
    more often than it blocked leaves the write lock held exactly while calls are
    outstanding, and released by the last one. *)
Theorem blocker_nests (l : list blocker_op) (n k : Z) (w : world) :
  0 <= n -> blocked n (cor w) -> nesting n l = Some k ->
  exists w', run_ops l w = (Ok tt, w') /\ reenter_count (cor w') = k
    /\ (refresh_blocker (cor w') = WriteLocked <-> k <> 0)
    /\ (refresh_blocker (cor w') = Unlocked <-> k = 0).
Proof.
  revert n w. induction l as [|o l IH]; intros n w Hn Hb Hk; cbn [nesting run_ops] in *.
  { injection Hk as <-. exists w. destruct Hb as (_ & Hc & Hl). split; [done|]. rewrite Hl.
    destruct (Z.eqb_spec n 0); split_and!; done. }
  destruct o; cbn [run_op].
  - destruct (block_run n w Hn Hb) as (w1 & E1 & Hb1). rewrite (M_bind_run _ _ _ _ _ E1).
    apply (IH (n + 1)); [lia|done|done].
  - destruct (Z.eqb_spec n 0); [done|].
    destruct (unblock_run n w) as (w1 & E1 & Hb1); [lia|done|]. rewrite (M_bind_run _ _ _ _ _ E1).
    apply (IH (n - 1)); [lia|done|done].
Qed.
End Facts.
End BlockerFacts.

(** * A process with one request, for examples *)
Module CoreDemo.
Import XhMaps XhMapsFacts XhElf DemoImage SemiDlfcn SemiFacts SemiDemo XhCore XhCoreFacts BlockerFacts.

#[local] Existing Instance arch_aarch64.
#[local] Existing Instance demo_kernel.

(** Patterns that match at the end of a path. *)
Definition suffix_posix : Posix :=
  {| regex := list Z; regcomp := Some; regexec := fun r path => ends_with path r;
     sigaction_errno := None; key_create_ok := true; setspecific_ok := true |}.
#[local] Existing Instance suffix_posix.
#[local] Instance demo_device : Linker :=
  {| api_level := 29; own_fname := Some (bytes_of "/lib/libxhook.so"); at_base := base;
     dladdr_known := fun _ _ => true; dl_objects := fun _ => [MkInfo None 0 0 0 true; demo_info];
     open_file := fun _ => None; mmap_allowed := fun _ _ _ => true |}.

Definition demo_hook : hook_info := MkHook (bytes_of "libdemo.so") (bytes_of "open") 0x7fabcd 0x20000.

Definition demo_core (act : handler) : core :=
  MkCore true act (OtherHandler 0) false [demo_hook] [] [] ∅ true true Unlocked true 0 false.

Definition demo_world (act : handler) : world :=
  MkWorld (MkProcess demo initial []) (MkSd 0 0 false) (demo_core act).

(** The refresh hooks the library: its slot has the new function. *)
Example demo_refresh :
  match xh_core_refresh_impl 100 (demo_world OurHandler) with
  | (Ok _, w) => word_at (mem (mach (proc w))) 0x11008 = 0x7fabcd
                 /\ word_at (mem (mach (proc w))) 0x20000 = 0x7f1234
  | _ => False
  end.
Proof. vm_compute. split; reflexivity. Qed.

Definition linker_demo : dl_phdr_info :=
  MkInfo (Some (bytes_of "/system/bin/linker64")) base (base + 64) 2 true.


(** A library whose program headers are not mapped. *)
Definition broken : map_info := MkMap (bytes_of "/lib/broken.so") 0x1000 0xdead000 1 zero_elf.


Lemma unprotected_before_refresh_witness :
  exists w', xh_core_got_hook_symbol 10 (Some broken) (Some (bytes_of "open")) 1 0
    (demo_world (OtherHandler 7)) = (Segv, w').
Proof.
  eexists. apply (unprotected_before_refresh 10 broken (Some (bytes_of "open")) 1 0 7
                    (demo_world (OtherHandler 7))); [reflexivity|reflexivity|vm_compute; reflexivity].
Defined.

Lemma blocker_nests_witness :
  exists w', run_ops [Block; Block; Unblock; Unblock] (demo_world OurHandler) = (Ok tt, w')
    /\ refresh_blocker (cor w') = Unlocked.
Proof.
  destruct (blocker_nests [Block; Block; Unblock; Unblock] 0 0 (demo_world OurHandler))
    as (w' & E & _ & _ & Hu); [lia|by split_and!|reflexivity|].
  exists w'. split; [exact E|]. by apply Hu.
Defined.
End CoreDemo.
