(* ===== verification/XhookExt.v ===== *)
(** The public interface of libxhook (xhook.c, xhook_ext.c, xh_version.c): the entry points
    that forward to xh_core.c, hooking by rewriting a library's export table, and the version
    number. *)
From S2P Require Import Prelude Arch Machine Elf Libc XhMaps XhUtil XhElf XhHook SemiDlfcn XhCore.

Module XhookExt.
Import XhMaps XhUtil XhElf XhCore.

(** ** xh_version.c *)

Definition XH_VERSION_MAJOR : Z := 1.
Definition XH_VERSION_MINOR : Z := 1.
Definition XH_VERSION_EXTRA : Z := 12.

Definition xh_version : Z :=
  Z.lor (Z.lor (Z.shiftl XH_VERSION_MAJOR 16) (Z.shiftl XH_VERSION_MINOR 8)) XH_VERSION_EXTRA.

Definition xh_version_str : string := "1.1.12".

Section Code.
Context `{Ar : Arch} `{K : Kernel} `{L : Linker} `{P : Posix}.

(** ** xhook.c *)

Definition xhook_register (re symbol : option (list Z)) (new old : Z) : M world Z :=
  xh_core_register re symbol new old.
Definition xhook_ignore (re symbol : option (list Z)) : M world Z := xh_core_ignore re symbol.
Definition xhook_clear : M world unit := xh_core_clear.
Definition xhook_enable_debug (flag : Z) : M world unit := xh_core_enable_debug flag.
Definition xhook_enable_sigsegv_protection (flag : Z) : M world unit :=
  xh_core_enable_sigsegv_protection flag.

(** ** xhook_ext.c *)

Definition xhook_block_refresh : M world unit := xh_core_block_refresh.
Definition xhook_unblock_refresh : M world unit := xh_core_unblock_refresh.
Definition xhook_grouped_register (id : Z) (re symbol : option (list Z)) (new old : Z)
  : M world Z := xh_core_grouped_register id re symbol new old.
Definition xhook_grouped_ignore (id : Z) (re symbol : option (list Z)) : M world Z :=
  xh_core_grouped_ignore id re symbol.
Definition xhook_elf_open (path : option (list Z)) : M world (option map_info) :=
  xh_core_elf_open path.
Definition xhook_got_hook_symbol (fuel : nat) (h : option map_info) (symbol : option (list Z))
    (new old : Z) : M world Z := xh_core_got_hook_symbol fuel h symbol new old.

(** The part of [xh_export_symtable_hook] after the symbol is known: [addr] is the address
    of its [st_value]. *)
Definition export_symbol (addr bias handler original : Z) : M process Z :=
  old ← reads (fun p => loadW (mach p) addr);
  (if original =? 0 then mret tt else on_mach (storeW original old));;
  '(r, old_prot) ← xh_util_get_addr_protect addr;
  if negb (r =? 0) then mret r else
  r ← xh_util_set_addr_protect addr (Z.lor PROT_READ PROT_WRITE);
  if negb (r =? 0) then mret r else
  on_mach (storeW addr (uword (handler - bias)));;
  xh_util_flush_instruction_cache addr;;
  xh_util_set_addr_protect addr old_prot;;
  mret 0.

Definition xh_export_symtable_hook (fuel : nat) (path : option (list Z))
    (bias phdrs phdr_count : Z) (symbol : option (list Z)) (handler original : Z)
  : M process Z :=
  match symbol with
  | None => mret XH_ERRNO_INVAL
  | Some symbol =>
      if handler =? 0 then mret XH_ERRNO_INVAL else
      '(error, self) ← reads (fun p => xh_elf_init (mach p) zero_elf bias phdrs phdr_count path);
      if negb (error =? 0) then mret error else
      idx ← reads (fun p => xh_elf_find_symidx_by_name fuel (mach p) self symbol);
      match idx with
      | None => mret XH_ERRNO_NOTFND
      | Some symidx =>
          export_symbol (st_value_at (uword (symtab self + sizeof_Sym * symidx)))
            (bias_addr self) handler original
      end
  end.

(** [real_suffix]: a slash in front, cut to [PATH_MAX] characters. *)
Definition real_suffix (name : list Z) : list Z :=
  take (Z.to_nat PATH_MAX) (if nth 0 name 0 =? 47 then name else 47 :: name).

(** The callback of [xhook_export_symtable_hook].  A path that is shorter than the suffix is
    read in front of its start, one that is longer than the buffer is written past its
    end. *)
Definition find_owner_library_cb (owner : list Z) (info : dl_phdr_info)
    (found : option dl_phdr_info) : M world (Z * option dl_phdr_info) :=
  if bool_decide (owner = []) then mret (0, found) else
  let path := default [] (dlpi_name info) in
  let suffix := real_suffix owner in
  if (length path <? length suffix)%nat then raise Undef else
  if SemiDlfcn.ends_with path suffix then
    if PATH_MAX <? Z.of_nat (length path) then raise Undef else mret (1, Some info)
  else mret (0, found).

Definition xhook_export_symtable_hook (fuel : nat) (owner : list Z) (symbol : option (list Z))
    (handler original : Z) : M world Z :=
  '(r, found) ← SemiDlfcn.semi_dl_iterate_phdr (find_owner_library_cb owner) None;
  if r =? 1 then
    match found with
    | Some i =>
        on_proc (xh_export_symtable_hook fuel (dlpi_name i) (dlpi_addr i) (dlpi_phdr i)
                   (dlpi_phnum i) symbol handler original)
    | None => raise Undef
    end
  else if r =? 0 then mret XH_ERRNO_NOTFND
  else if r =? XH_ERRNO_NOMEM then mret XH_ERRNO_NOMEM
  else mret XH_ERRNO_UNKNOWN.
End Code.
End XhookExt.

Module XhookExtFacts.
Import XhMaps XhMapsFacts XhUtil XhUtilFacts XhElf SlotFacts XhookExt.

Section Facts.
Context `{Ar : Arch} `{K : Kernel}.

(** The effect of [export_symbol] on the symbol's value. *)
Lemma export_symbol_run its p addr bias handler original :
  ready its p -> ascending its -> slot_ok its (mach p) addr -> cell_ok (mach p) original ->
  exists p', export_symbol addr bias handler original p = (Ok 0, p')
    /\ mach p' = set_mem (mach p)
         (put_word (save (mem (mach p)) original (word_at (mem (mach p)) addr)) addr
            (uword (handler - bias)))
    /\ ready its p'.
Proof.
  intros [Hok Hmem Hsees] Hasc [Hpg Hk (it & Hin & Hcov & Hpr & Hread)] Hcell.
  pose proof (prot_of_read it Hread) as Hrd. pose proof Hpg as [Hf _].
  pose proof Hf as [Hf0 Hf1]. pose proof word_bytes_pos. unfold export_symbol.
  rewrite (M_bind_run _ _ _ _ _ (loadW_run p addr Hf
    (fun b Hb => can_slot _ _ _ _ _ Hpg Hb Hpr Hrd))).
  rewrite (M_bind_run _ _ _ _ _ (save_run p original _ Hcell)).
  set (g := save _ _ _). set (p0 := set_mach _ p).
  assert (sees p0 its) as Hsees0.
  { unfold sees, p0 in *. simpl. destruct (up_to_date (maps p)); [done|].
    destruct Hsees as (text & Htext & ->). exists text. split; [|done].
    by rewrite (proc_self_maps_prot (mach p)). }
  destruct (get_addr_protect_run addr p0 its it Hok Hmem Hsees0 Hasc Hin)
    as (s & l & E & Hs & Hl & Hup & Hent); [by rewrite uword_small by lia|].
  rewrite (M_bind_run _ _ _ _ _ E). clear E. cbn [Z.eqb negb].
  set (p1 := MkProcess (mach p0) s l).
  rewrite (M_bind_run _ _ _ _ _ (set_addr_protect_run addr RW p1 Hpg Hk)).
  cbn [Z.eqb negb]. set (p2 := set_mach _ p1).
  assert (on_mach (storeW addr (uword (handler - bias))) p2
          = (Ok tt, set_mach (set_mem (mach p2) (put_word g addr (uword (handler - bias)))) p2)) as Est.
  { unfold on_mach, lift. rewrite storeW_run; [done|done|]. intros b Hb.
    apply (can_protected PROT_WRITE (set_mem (mach p) g) addr RW (prot_of it)); done. }
  rewrite (M_bind_run _ _ _ _ _ Est). set (p3 := set_mach _ p2).
  rewrite (M_bind_run (xh_util_flush_instruction_cache addr) _ p3 tt p3 eq_refl).
  rewrite (M_bind_run _ _ _ _ _ (set_addr_protect_run addr (prot_of it) p3 Hpg Hk)).
  eexists. split; [reflexivity|]. split.
  - apply (protect_back (set_mem (mach p) g) addr (prot_of it) RW Hpr).
  - split; [done|done|]. unfold sees. simpl. by rewrite Hup.
Qed.

(** Rewriting an export table.  Where a library exports the symbol and the page of its
    symbol table entry is a readable private mapping, [xh_export_symtable_hook] succeeds,
    and from then on the load bias plus the symbol's value is the handler: every later
    resolution against this table gets it.  No byte outside of that value and the caller's
    variable changes, and all protections are restored.  The variable receives the symbol's
    former value as the table had it, an offset within the library to which the load bias
    has not been added. *)
Theorem export_symtable_hook_correct (fuel : nat) (path : option (list Z))
    (bias phdrs phdr_count : Z) (symbol : list Z) (handler original symidx : Z) (self : xh_elf)
    (its : list maps_item) (p : process) :
  let slot := st_value_at (uword (symtab self + sizeof_Sym * symidx)) in
  ready its p -> ascending its -> slot_ok its (mach p) slot -> cell_ok (mach p) original ->
  in_word word_bits handler -> handler <> 0 ->
  map_Forall (fun _ b => is_byte b) (mem (mach p)) ->
  original = 0 \/ apart slot original ->
  xh_elf_init (mach p) zero_elf bias phdrs phdr_count path = Ok (0, self) ->
  xh_elf_find_symidx_by_name fuel (mach p) self symbol = Ok (Some symidx) ->
  exists p', xh_export_symtable_hook fuel path bias phdrs phdr_count (Some symbol) handler original p
      = (Ok 0, p')
    /\ uword (bias + word_at (mem (mach p')) slot) = handler
    /\ prot (mach p') = prot (mach p)
    /\ (forall b, ~ inside slot word_bytes b -> ~ (original <> 0 /\ inside original word_bytes b) ->
          mem (mach p') !! b = mem (mach p) !! b)
    /\ (original <> 0 -> word_at (mem (mach p')) original = word_at (mem (mach p)) slot).
Proof.
  intros slot Hr Hasc Hslot Hcell Hh Hh0 Hbytes Hap Hinit Hfind.
  assert (bias_addr self = bias) as Hbias
    by (destruct (InitFacts.init_spec _ _ _ _ _ _ _ Hinit) as (l & _ & [Hi _ _ _ _ _ _ _ _ _ _]); apply Hi).
  unfold xh_export_symtable_hook. destruct (Z.eqb_spec handler 0); [done|].
  assert ((reads (fun p => xh_elf_init (mach p) zero_elf bias phdrs phdr_count path) : M process _) p
          = (Ok (0, self), p)) as E1 by (unfold reads; by rewrite Hinit).
  rewrite (M_bind_run _ _ _ _ _ E1). cbn [Z.eqb negb].
  assert ((reads (fun p => xh_elf_find_symidx_by_name fuel (mach p) self symbol) : M process _) p
          = (Ok (Some symidx), p)) as E2 by (unfold reads; by rewrite Hfind).
  rewrite (M_bind_run _ _ _ _ _ E2). fold slot. rewrite Hbias.
  destruct (export_symbol_run its p slot bias handler original Hr Hasc Hslot Hcell)
    as (p' & E & Hm & _).
  exists p'. split; [exact E|]. rewrite Hm. simpl.
  pose proof Hslot as [[Hf _] _ _].
  assert (original = 0 \/ fits original word_bytes) as Hfo by (destruct Hcell as [|[? _]]; auto).
  split_and!.
  - rewrite word_at_put_same; [|done|apply uword_range].
    unfold uword. rewrite wrap_add_r by apply word_bits_nonneg.
    replace (bias + (handler - bias)) with handler by lia. by apply wrap_small.
  - done.
  - intros b Hb Ho. rewrite put_word_other by done. unfold save.
    destruct (Z.eqb_spec original 0); [done|]. destruct Hfo as [|Hfo]; [done|].
    apply put_word_other; [done|]. intros Hi. by apply Ho.
  - intros Ho. destruct Hap as [|Hap]; [done|]. destruct Hfo as [|Hfo]; [done|].
    rewrite word_at_put_other; [|done|unfold apart in *; lia]. unfold save.
    destruct (Z.eqb_spec original 0); [done|].
    apply word_at_put_same; [done|by apply word_at_range].
Qed.
End Facts.
End XhookExtFacts.

(** The export "foo" of the example image is redirected to 0x20100. *)
Module XhookDemo.
Import XhMaps XhMapsFacts XhUtil XhUtilFacts XhElf SlotFacts DemoImage XhookExt XhookExtFacts.

#[local] Existing Instance arch_aarch64.
#[local] Existing Instance demo_kernel.

Lemma demo_export_slot : slot_ok (parsed maps_text) demo 0x10338.
Proof.
  split.
  - split; [split; vm_compute; [discriminate|reflexivity]|reflexivity].
  - by intros ??.
  - exists (MkItem 0x10000 0x11000 (bytes_of "r-xp") 0 (Some (bytes_of "/lib/libdemo.so"))).
    split_and!; [left|split_and!; vm_compute; try reflexivity; discriminate
                |vm_compute; reflexivity|reflexivity].
Qed.

Lemma export_symtable_hook_correct_witness :
  exists p', xh_export_symtable_hook 10 (Some (bytes_of "/lib/libdemo.so")) base (base + 64) 2
      (Some (bytes_of "foo")) 0x20100 0 (MkProcess demo initial []) = (Ok 0, p')
    /\ uword (base + word_at (mem (mach p')) 0x10338) = 0x20100.
Proof.
  destruct (export_symtable_hook_correct 10 (Some (bytes_of "/lib/libdemo.so")) base (base + 64) 2
              (bytes_of "foo") 0x20100 0 2 elf (parsed maps_text) (MkProcess demo initial []))
    as (p' & E & Hw & _).
  - split; [by split|constructor|by exists maps_text].
  - vm_compute. repeat constructor; intros; discriminate.
  - apply demo_export_slot.
  - by left.
  - split; vm_compute; [discriminate|reflexivity].
  - discriminate.
  - decide_now.
  - by left.
  - vm_compute. reflexivity.
  - vm_compute. reflexivity.
  - exists p'. split; [exact E|exact Hw].
Defined.
End XhookDemo.
