(* ===== verification/XhAsync.v ===== *)
(** The asynchronous refresh thread (libxhook, xh_core.c).

    [xh_core_refresh(1)] starts a thread once and then only sets [xh_core_refresh_thread_do]
    under [xh_core_mutex] and signals; the thread ([xh_core_refresh_thread_func]) sleeps on
    the condition until there is something to do, and [xh_core_clear] stops and joins it.
    Everything between taking and releasing the mutex is one step here, as is everything
    between two such sections; the clients' and the thread's steps interleave in any order,
    and the thread may wake up spuriously. *)
From S2P Require Import Prelude.

Module XhAsync.

(** Where the thread is: before the test of the outer loop, about to take the mutex, inside
    [pthread_cond_wait], returned from it, in [xh_core_refresh_impl], or finished. *)
Inductive pc := NoThread | AtTop | Locking | Sleeping | Woken | Refreshing | Exited.

#[export] Instance pc_eq_dec : EqDecision pc.
Proof. solve_decision. Defined.

(** The variables of xh_core.c.  [unserved] counts the requests since a refresh was last
    begun; the code has no such counter. *)
Record state := MkState {
  async_inited : bool;
  async_init_ok : bool;
  thread_running : bool;
  thread_do : bool;
  thread : pc;
  unserved : nat
}.

Definition initial : state := MkState false false false false NoThread 0.

(** [pthread_cond_signal]: a sleeping thread wakes up. *)
Definition signal (t : pc) : pc := match t with Sleeping => Woken | t => t end.

(** What clients do.  [Start] is [xh_core_init_async_once] where [pthread_create] succeeds or
    fails, [Request] the section of [xh_core_refresh(1)] under the mutex (which the test of
    [xh_core_async_init_ok] precedes outside it, so that another client may have cleared
    that flag since), [Stop] and [Join] the two parts of [xh_core_clear] around the wait for
    the thread.  Calls of [xh_core_clear] do not overlap: two of them would join one thread
    twice. *)
Inductive client := Start (created : bool) | Request | Stop | Join.

Definition client_step (c : client) (s : state) : option state :=
  match c with
  | Start created =>
      if async_inited s then None else
      Some (if created then MkState true true true (thread_do s) AtTop (unserved s)
            else MkState true (async_init_ok s) false (thread_do s) (thread s) (unserved s))
  | Request =>
      Some (MkState (async_inited s) (async_init_ok s) (thread_running s) true (signal (thread s))
              (S (unserved s)))
  | Stop =>
      if async_init_ok s
      then Some (MkState (async_inited s) true false (thread_do s) (signal (thread s)) (unserved s))
      else None
  | Join =>
      if async_init_ok s
      then if bool_decide (thread s = Exited)
           then Some (MkState false false (thread_running s) (thread_do s) NoThread (unserved s))
           else None
      else Some (MkState false false (thread_running s) (thread_do s) (thread s) (unserved s))
  end.

(** A step of [xh_core_refresh_thread_func]; [None] where the thread cannot go on by
    itself. *)
Definition worker_step (s : state) : option state :=
  let goto t := Some (MkState (async_inited s) (async_init_ok s) (thread_running s) (thread_do s) t (unserved s)) in
  match thread s with
  | NoThread | Sleeping | Exited => None
  | AtTop => if thread_running s then goto Locking else goto Exited
  | Locking | Woken =>
      if negb (thread_do s) && thread_running s then goto Sleeping
      else if negb (thread_running s) then goto Exited
      else Some (MkState (async_inited s) (async_init_ok s) (thread_running s) false Refreshing 0)
  | Refreshing => goto AtTop
  end.

Inductive step : state -> state -> Prop :=
| step_client c s s' : client_step c s = Some s' -> step s s'
| step_worker s s' : worker_step s = Some s' -> step s s'
| step_spurious s : thread s = Sleeping ->
    step s (MkState (async_inited s) (async_init_ok s) (thread_running s) (thread_do s) Woken (unserved s)).

Inductive reachable : state -> Prop :=
| reach_init : reachable initial
| reach_step s s' : reachable s -> step s s' -> reachable s'.

(** The thread on its own, [n] steps. *)
Fixpoint worker_run (n : nat) (s : state) : option state :=
  match n with
  | O => Some s
  | S n => s ← worker_step s; worker_run n s
  end.
End XhAsync.

Module XhAsyncFacts.
Import XhAsync.

(** The flag says whether requests are waiting; a thread that sleeps has nothing to do and
    was not told to stop; a thread exists exactly while initialisation counts as done. *)
Record inv (s : state) : Prop := {
  inv_do : thread_do s = true <-> (0 < unserved s)%nat;
  inv_sleep : thread s = Sleeping -> thread_do s = false /\ thread_running s = true;
  inv_thread : async_init_ok s = true <-> thread s <> NoThread;
  inv_inited : async_init_ok s = true -> async_inited s = true;
  inv_running : thread_running s = true -> async_init_ok s = true /\ thread s <> Exited
}.

Lemma inv_initial : inv initial.
Proof. split; simpl; try done; split; first [done|lia|intros Hn; by destruct Hn]. Qed.

Lemma signal_NoThread t : signal t <> NoThread <-> t <> NoThread.
Proof. by destruct t. Qed.

Lemma signal_not_Sleeping t : signal t <> Sleeping.
Proof. by destruct t. Qed.

Lemma client_inv c s s' : inv s -> client_step c s = Some s' -> inv s'.
Proof.
  intros [H1 H2 H3 H4 H5]. destruct c as [created| | |]; simpl.
  - destruct (async_inited s) eqn:Ei; [done|]. intros [= <-].
    assert (async_init_ok s = false) as Eo by (destruct (async_init_ok s); [by discriminate H4|done]).
    destruct created; split; simpl; try done.
    intros [_ Hr]%H2. apply H5 in Hr as [Hr _]. congruence.
  - intros [= <-]. split; simpl.
    + split; [lia|done].
    + intros Hs. by destruct (signal_not_Sleeping (thread s)).
    + by rewrite signal_NoThread.
    + done.
    + intros Hr. apply H5 in Hr as [Ho Hr]. split; [done|]. by destruct (thread s).
  - destruct (async_init_ok s) eqn:Eo; [|done]. intros [= <-]. split; simpl; try done.
    + intros Hs. by destruct (signal_not_Sleeping (thread s)).
    + by rewrite signal_NoThread.
  - destruct (async_init_ok s) eqn:Eo.
    + case_bool_decide as Et; [|done]. intros [= <-]. split; simpl; try done.
      intros Hr. by apply H5 in Hr as [_ ?].
    + intros [= <-]. split; simpl; try done; try (intros Hr; by apply H5 in Hr as [? _]).
Qed.

(** Every case of the thread's step is propositional once the state is taken apart. *)
Ltac by_fields := split; simpl; try done; try tauto; try lia; try (intros; intuition congruence).

Lemma worker_inv s s' : inv s -> worker_step s = Some s' -> inv s'.
Proof.
  destruct s as [i o r d t u]. intros [H1 H2 H3 H4 H5]. unfold worker_step. simpl in *.
  destruct t; try done; destruct r, d; simpl; intros [= <-]; by_fields.
Qed.

Lemma step_inv s s' : inv s -> step s s' -> inv s'.
Proof.
  intros Hi Hs. destruct Hs as [c t t' E|t t' E|t E].
  - by eapply client_inv.
  - by eapply worker_inv.
  - destruct t as [i o r d t u]. simpl in *. subst t. destruct Hi as [H1 H2 H3 H4 H5]. simpl in *.
    destruct (H2 eq_refl) as [-> ->]. by_fields.
Qed.

Lemma reachable_inv s : reachable s -> inv s.
Proof. induction 1; [apply inv_initial|by eapply step_inv]. Qed.

(** C35. No request for an asynchronous refresh is lost.  In every state that clients and the
      thread can reach, whatever the order of their steps and with spurious wake-ups: while
      the thread is meant to run and a request has been made since a refresh was last begun,
      the thread is not asleep, and on its own, within four steps, it begins a refresh that
      serves all requests made so far. *)
Theorem async_requests_served (s : state) :
  reachable s -> thread_running s = true -> (0 < unserved s)%nat ->
  thread s <> Sleeping
  /\ exists n s', (n <= 4)%nat /\ worker_run n s = Some s' /\ thread s' = Refreshing
       /\ unserved s' = 0%nat.
Proof.
  intros Hr Hrun Hun. destruct (reachable_inv s Hr) as [H1 H2 H3 H4 H5].
  apply H1 in Hun as Hd. destruct (H5 Hrun) as [Ho Hx]. split; [intros Hs; by apply H2 in Hs as [? _]; congruence|].
  apply H3 in Ho. destruct s as [i o r d t u]. simpl in *. subst r d.
  destruct t; try done; [exists 2%nat|exists 1%nat|by destruct (H2 eq_refl)|exists 1%nat|exists 3%nat];
    (eexists; split; [lia|]; split; [reflexivity|]; done).
Qed.

(** A thread told to stop begins no refresh. *)
Lemma stopped_step s s' : thread_running s = false -> worker_step s = Some s' ->
  thread_running s' = false /\ thread s' <> Refreshing.
Proof.
  destruct s as [i o r d t u]. unfold worker_step. simpl. intros ->.
  destruct t; simpl; try done; rewrite ?andb_false_r; by intros [= <-].
Qed.

Lemma stopped_run k s s' : thread_running s = false -> worker_run (S k) s = Some s' ->
  thread s' <> Refreshing.
Proof.
  revert s. induction k as [|k IH]; intros s Hs E; simpl in E;
    destruct (worker_step s) as [s1|] eqn:E1; try done; apply stopped_step in E1 as [Hs1 Ht]; try done.
  - by injection E as <-.
  - by apply (IH s1).
Qed.


(** A request that arrives while the thread refreshes. *)
Definition busy : state := MkState true true true true Refreshing 1.

Lemma busy_reachable : reachable busy.
Proof.
  assert (reachable (MkState true true true false AtTop 0)) as R1
    by (eapply reach_step; [apply reach_init|by apply (step_client (Start true))]).
  assert (reachable (MkState true true true true AtTop 1)) as R2
    by (eapply reach_step; [exact R1|by apply (step_client Request)]).
  assert (reachable (MkState true true true true Locking 1)) as R3
    by (eapply reach_step; [exact R2|by apply step_worker]).
  assert (reachable (MkState true true true false Refreshing 0)) as R4
    by (eapply reach_step; [exact R3|by apply step_worker]).
  eapply reach_step; [exact R4|by apply (step_client Request)].
Qed.

Lemma async_requests_served_witness :
  exists n s', (n <= 4)%nat /\ worker_run n busy = Some s' /\ thread s' = Refreshing /\ unserved s' = 0%nat.
Proof. apply async_requests_served; [apply busy_reachable|reflexivity|simpl; lia]. Defined.

Definition stopped : state := MkState true true false true Refreshing 1.

End XhAsyncFacts.
