(* ===== verification/FakeDlfcn.v ===== *)
(** Looking up symbols through a second mapping of a library (traceharbor-backtrace,
    common/fake_dlfcn.c).

    Module [FakeDlfcn] translates fake_dlfcn.c: [fake_dlopen] finds the executable mapping of a
    library in /proc/self/maps, maps its file once more and copies the dynamic symbol and string
    tables; [fake_dlsym] searches them.  Files and [mmap] are those of class [Linker].
    [FakeFacts] says which address a lookup yields, and that it stays inside the copies. *)
From S2P Require Import Prelude Arch Machine Elf Libc XhMaps SemiDlfcn.

Module FakeDlfcn.
Import XhMaps SemiDlfcn.

(** [strstr(s, t) != NULL]. *)
Fixpoint strstr (s t : list Z) : bool :=
  bool_decide (t `prefix_of` s) || match s with [] => false | _ :: s => strstr s t end.

(** [struct ctx]; [None] is a null table. *)
Record ctx := MkCtx {
  load_addr : Z;
  dynstr : option (list Z);
  dynsym : option (list Z);
  nsyms : Z;
  bias : Z
}.

Section Code.
Context `{Ar : Arch} `{K : Kernel} `{L : Linker}.

(** The search in /proc/self/maps: the line in [buff] when the loop ends with [found]. *)
Fixpoint find_line (libpath : list Z) (lines : list (list Z)) : option (list Z) :=
  match lines with
  | [] => None
  | buff :: lines =>
      let buff := c_string buff in
      if strstr buff (bytes_of "r-xp") && strstr buff libpath then Some buff
      else find_line libpath lines
  end.

(** ** The mapped file *)

(** The file with the zeros up to the end of its last page. *)
Definition mapped (file : list Z) : list Z :=
  let len := Z.of_nat (length file) in
  (file ++ replicate (Z.to_nat ((len + PAGE_SIZE - 1) / PAGE_SIZE * PAGE_SIZE - len)) 0)%list.

(** [n] bytes at [elf + o]; there is nothing to read behind the mapping. *)
Definition mapped_bytes (file : list Z) (o n : Z) : result (list Z) :=
  if (0 <=? o) && (o + n <=? Z.of_nat (length (mapped file)))
  then Ok (take (Z.to_nat n) (drop (Z.to_nat o) (mapped file))) else Segv.

Definition mapped_field (file : list Z) (o n : Z) : result Z :=
  bs ← mapped_bytes file o n; Ok (le_word bs).

Definition mapped_word (file : list Z) (o o32 o64 : Z) : result Z :=
  mapped_field file (o + at_ o32 o64) word_bytes.

(** Elf_Ehdr, Elf_Shdr *)
Definition m_shoff (file : list Z) : result Z := mapped_word file 0 32 40.
Definition m_shentsize (file : list Z) : result Z := mapped_field file (at_ 46 58) 2.
Definition m_shnum (file : list Z) : result Z := mapped_field file (at_ 48 60) 2.
Definition m_type (file : list Z) (sh : Z) : result Z := mapped_field file (sh + 4) 4.
Definition m_addr (file : list Z) (sh : Z) : result Z := mapped_word file sh 12 16.
Definition m_offset (file : list Z) (sh : Z) : result Z := mapped_word file sh 16 24.
Definition m_size (file : list Z) (sh : Z) : result Z := mapped_word file sh 20 32.

(** [malloc(sh->sh_size)] and the [memcpy] of the section; [None]: no memory. *)
Definition copy_section (file : list Z) (sh : Z) : M process (option (Z * list Z)) :=
  size ← raise (m_size file sh);
  ok ← alloc;
  if negb ok then mret None else
  off ← raise (m_offset file sh);
  bs ← raise (mapped_bytes file off size);
  mret (Some (size, bs)).

(** The loop over [n] section headers from [sh] on; [None] is [goto err_exit]. *)
Fixpoint section_loop (n : nat) (file : list Z) (entsize sh : Z) (c : ctx)
  : M process (option ctx) :=
  match n with
  | O => mret (Some c)
  | S n =>
      t ← raise (m_type file sh);
      if t =? SHT_DYNSYM then
        match dynsym c with
        | Some _ => mret None
        | None =>
            r ← copy_section file sh;
            match r with
            | None => mret None
            | Some (size, bs) =>
                section_loop n file entsize (sh + entsize)
                  (MkCtx (load_addr c) (dynstr c) (Some bs) (s32 (size / sizeof_Sym)) (bias c))
            end
        end
      else if t =? SHT_STRTAB then
        match dynstr c with
        | Some _ => section_loop n file entsize (sh + entsize) c
        | None =>
            r ← copy_section file sh;
            match r with
            | None => mret None
            | Some (_, bs) =>
                section_loop n file entsize (sh + entsize)
                  (MkCtx (load_addr c) (Some bs) (dynsym c) (nsyms c) (bias c))
            end
        end
      else if t =? SHT_PROGBITS then
        match dynstr c, dynsym c with
        | Some _, Some _ =>
            addr ← raise (m_addr file sh);
            off ← raise (m_offset file sh);
            mret (Some (MkCtx (load_addr c) (dynstr c) (dynsym c) (nsyms c) (uword (addr - off))))
        | _, _ => section_loop n file entsize (sh + entsize) c
        end
      else section_loop n file entsize (sh + entsize) c
  end.

(** [None] is [NULL]. *)
Definition fake_dlopen (libpath : list Z) : M process (option ctx) :=
  text ← gets (fun p => proc_self_maps (mach p));
  match text with
  | None => mret None
  | Some text =>
      match find_line libpath (read_lines (length text) 256 text) with
      | None => mret None
      | Some buff =>
          match scan_lx buff with
          | None => mret None
          | Some (load_addr, _) =>
              match open_file libpath with
              | None => mret None
              | Some file =>
                  let size := Z.of_nat (length file) in
                  if size <=? 0 then mret None else
                  if negb (mmap_allowed libpath 0 size) then mret None else
                  ok ← alloc;
                  if negb ok then mret None else
                  shoff ← raise (m_shoff file);
                  shnum ← raise (m_shnum file);
                  entsize ← raise (m_shentsize file);
                  r ← section_loop (Z.to_nat shnum) file entsize shoff (MkCtx load_addr None None 0 0);
                  mret (match r with
                        | Some c => match dynstr c, dynsym c with Some _, Some _ => Some c | _, _ => None end
                        | None => None
                        end)
              end
          end
      end
  end.

(** The loop of [fake_dlsym]: [n] symbols from [k] on. *)
Fixpoint dlsym_loop (n : nat) (strings sym name : list Z) (k : Z) : result (option Z) :=
  match n with
  | O => Ok None
  | S n =>
      nm ← buf_field sym (k * sizeof_Sym) 4;
      eq ← (if nm <=? Z.of_nat (length strings) then buf_streq name (drop (Z.to_nat nm) strings)
            else Undef);
      if (eq : bool) then v ← buf_word sym (k * sizeof_Sym) 4 8; Ok (Some v)
      else dlsym_loop n strings sym name (k + 1)
  end.

(** [NULL] is 0; a null handle is dereferenced. *)
Definition fake_dlsym (handle : option ctx) (name : list Z) : result Z :=
  match handle with
  | None => Segv
  | Some c =>
      r ← dlsym_loop (Z.to_nat (nsyms c)) (default [] (dynstr c)) (default [] (dynsym c)) name 0;
      Ok (match r with Some v => uword (load_addr c + v - bias c) | None => 0 end)
  end.
End Code.
End FakeDlfcn.

Module FakeFacts.
Import XhMaps SemiDlfcn SemiFacts FakeDlfcn.

Section Facts.
Context `{Ar : Arch} `{K : Kernel} `{L : Linker}.

Lemma sizeof_Sym_pos : 0 < sizeof_Sym.
Proof. unfold sizeof_Sym, at_. destruct is_lp64; lia. Qed.

Lemma word_bytes_at : word_bytes = at_ 4 8.
Proof. unfold word_bytes, at_, is_lp64. by destruct word_bits_cases as [-> | ->]. Qed.

(** ** Handles *)

(** The symbol table of a handle, where it is there, has [nsyms] entries. *)
Definition table_fits (c : ctx) : Prop :=
  match dynsym c with
  | Some sy => nsyms c * sizeof_Sym <= Z.of_nat (length sy)
  | None => True
  end.

Lemma s32_le z : 0 <= z -> s32 z <= z.
Proof. intros Hz. unfold swrap. pose proof (Z.mod_le (z + 2 ^ (32 - 1)) (2 ^ 32)). lia. Qed.

Lemma mapped_bytes_length file o n bs : 0 <= n -> mapped_bytes file o n = Ok bs ->
  Z.of_nat (length bs) = n.
Proof.
  intros Hn H. unfold mapped_bytes in H. destruct (Z.leb_spec 0 o), (Z.leb_spec (o + n) (Z.of_nat (length (mapped file))));
    try done. injection H as <-. rewrite length_take, length_drop. lia.
Qed.

Lemma mapped_is_bytes file : Forall is_byte file -> Forall is_byte (mapped file).
Proof.
  intros H. apply Forall_app. split; [done|]. apply Forall_replicate. unfold is_byte. lia.
Qed.

Lemma mapped_field_nonneg file o n v : Forall is_byte file -> mapped_field file o n = Ok v -> 0 <= v.
Proof.
  intros Hf H. unfold mapped_field, mapped_bytes in H. destruct (_ && _); [|done].
  injection H as <-. apply le_word_range. by apply Forall_take, Forall_drop, mapped_is_bytes.
Qed.

Lemma copy_section_length file sh p size bs p' : Forall is_byte file ->
  copy_section file sh p = (Ok (Some (size, bs)), p') -> 0 <= size /\ Z.of_nat (length bs) = size.
Proof.
  intros Hf H. unfold copy_section in H. case_run H. injection Hrun as Es _.
  apply mapped_field_nonneg in Es as Hs; [|done].
  case_run H. destruct a0; [|done]. cbn [negb] in H. case_run H. case_run H. injection H as -> -> _.
  injection Hrun1 as Eb _. split; [done|]. by eapply mapped_bytes_length.
Qed.

Lemma alloc_pure : keeps mach alloc.
Proof. intros [m s l]. by destruct l. Qed.

#[local] Hint Resolve alloc_pure : keeps.

Lemma copy_section_keeps file sh : keeps mach (copy_section file sh).
Proof.
  unfold copy_section. apply keeps_bind; [auto with keeps|]. intros size.
  apply keeps_bind; [auto with keeps|]. intros [|]; cbn [negb]; auto with keeps.
Qed.

#[local] Hint Resolve copy_section_keeps : keeps.

Lemma section_loop_keeps n file entsize : forall sh c, keeps mach (section_loop n file entsize sh c).
Proof.
  induction n as [|n IH]; intros sh c; cbn [section_loop]; [auto with keeps|].
  apply keeps_bind; [auto with keeps|]. intros t. repeat case_match; auto with keeps.
  all: apply keeps_bind; [auto with keeps|]; intros r; repeat case_match; auto with keeps.
Qed.

Lemma section_loop_fits n file entsize : Forall is_byte file -> forall sh c p c' p', table_fits c ->
  section_loop n file entsize sh c p = (Ok (Some c'), p') ->
  table_fits c' /\ load_addr c' = load_addr c.
Proof.
  intros Hf. induction n as [|n IH]; intros sh c p c' p' Hc H; cbn [section_loop] in H.
  { by injection H as <- _. }
  case_run H. destruct (a =? SHT_DYNSYM); [|destruct (a =? SHT_STRTAB); [|destruct (a =? SHT_PROGBITS)]].
  - destruct (dynsym c); [done|]. case_run H. destruct a0 as [[size bs]|]; [|done].
    apply copy_section_length in Hrun0 as [Hs Hl]; [|done]. apply IH in H; [done|].
    unfold table_fits. simpl. pose proof sizeof_Sym_pos.
    pose proof (s32_le (size / sizeof_Sym) ltac:(apply Z.div_pos; lia)).
    pose proof (Z.mul_div_le size sizeof_Sym). nia.
  - destruct (dynstr c); [by apply IH in H|]. case_run H. destruct a0 as [[size bs]|]; [|done].
    by apply IH in H.
  - destruct (dynstr c), (dynsym c) eqn:E; try (by apply IH in H).
    do 2 case_run H. injection H as <- _. unfold table_fits in *. simpl in *. by rewrite E in Hc.
  - by apply IH in H.
Qed.

(** The entries of a handle's symbol table can be read. *)
Lemma table_fits_read c k : table_fits c -> is_Some (dynsym c) -> 0 <= k < nsyms c ->
  exists nm v, buf_field (default [] (dynsym c)) (k * sizeof_Sym) 4 = Ok nm
    /\ buf_word (default [] (dynsym c)) (k * sizeof_Sym) 4 8 = Ok v.
Proof.
  intros Hc [sy E] Hk. unfold table_fits in Hc. rewrite E in *. cbn [default from_option id] in *.
  assert (at_ 4 8 + word_bytes <= sizeof_Sym /\ 4 <= sizeof_Sym /\ 0 <= at_ 4 8 /\ 0 <= word_bytes) as (H1 & H2 & H3 & H4)
    by (rewrite word_bytes_at; unfold sizeof_Sym, at_; destruct is_lp64; lia).
  unfold buf_word, buf_field. rewrite Z2Nat.id by lia.
  assert (k * sizeof_Sym + sizeof_Sym <= Z.of_nat (length sy)) by nia.
  assert (0 <= k * sizeof_Sym) by nia.
  rewrite (proj2 (andb_true_iff _ _)) by (rewrite !Z.leb_le; lia).
  rewrite (proj2 (andb_true_iff _ _)) by (rewrite !Z.leb_le; lia). eauto.
Qed.

(** Comparing with a string that a terminator follows. *)
Lemma buf_streq_ends name rest : last rest = Some 0 -> is_cstring name ->
  exists b, buf_streq name rest = Ok b.
Proof.
  revert name. induction rest as [|c rest IH]; intros name Hl Hn; [done|].
  destruct name as [|d name]; cbn [buf_streq]; [eauto|]. apply Forall_cons in Hn as [Hd Hn].
  destruct (Z.eqb_spec c d); [|eauto]. destruct rest as [|c' rest]; [|by apply IH].
  injection Hl as ->. lia.
Qed.

Lemma dlsym_loop_ends strings sym name n k : last strings = Some 0 -> is_cstring name ->
  (forall i, k <= i < k + Z.of_nat n ->
     exists nm v, buf_field sym (i * sizeof_Sym) 4 = Ok nm /\ 0 <= nm < Z.of_nat (length strings)
       /\ buf_word sym (i * sizeof_Sym) 4 8 = Ok v) ->
  exists r, dlsym_loop n strings sym name k = Ok r.
Proof.
  intros Hl Hn. revert k. induction n as [|n IH]; intros k Hr; cbn [dlsym_loop]; [eauto|].
  destruct (Hr k ltac:(lia)) as (nm & v & -> & Hnm & Hv). cbn [mbind result_bind].
  rewrite (proj2 (Z.leb_le _ _)) by lia.
  destruct (buf_streq_ends name (drop (Z.to_nat nm) strings)) as [b ->]; [|done|].
  { destruct (lookup_lt_is_Some_2 strings (Z.to_nat nm) ltac:(lia)) as [x Hx].
    rewrite <- (take_drop (Z.to_nat nm) strings), last_app in Hl.
    rewrite (drop_S _ _ _ Hx) in *. destruct (last (x :: drop (S (Z.to_nat nm)) strings)) eqn:E; [done|].
    by apply last_None in E. }
  cbn [mbind result_bind]. destruct b; [rewrite Hv; eauto|]. apply IH. intros i Hi. apply Hr. lia.
Qed.

Lemma find_line_some libpath lines line : find_line libpath lines = Some line ->
  strstr line (bytes_of "r-xp") = true /\ strstr line libpath = true
  /\ exists l, l ∈ lines /\ line = c_string l.
Proof.
  induction lines as [|l lines IH]; cbn [find_line]; [done|].
  destruct (strstr (c_string l) (bytes_of "r-xp") && strstr (c_string l) libpath) eqn:E.
  - intros [= <-]. apply andb_true_iff in E as [? ?]. split_and!; [done..|]. exists l. split; [left|done].
  - intros H. apply IH in H as (? & ? & l' & ? & ?). split_and!; [done..|]. exists l'. split; [by right|done].
Qed.

(** A handle that was opened is sound: *)
Record sound_handle (libpath : list Z) (m : machine) (c : ctx) : Prop := {
  (** the load address starts a line that has the path and is executable, *)
  sh_line : exists text l rest, proc_self_maps m = Some text /\ l ∈ read_lines (length text) 256 text
    /\ strstr (c_string l) (bytes_of "r-xp") = true /\ strstr (c_string l) libpath = true
    /\ scan_lx (c_string l) = Some (load_addr c, rest);
  (** both tables are there, *)
  sh_tables : is_Some (dynstr c) /\ is_Some (dynsym c);
  (** and the symbol table has as many entries as the handle says. *)
  sh_fits : table_fits c
}.

Lemma fake_dlopen_sound libpath p c p' :
  (forall path file, open_file path = Some file -> Forall is_byte file) ->
  fake_dlopen libpath p = (Ok (Some c), p') -> mach p' = mach p /\ sound_handle libpath (mach p) c.
Proof.
  intros Hfiles H. split.
  { assert (keeps mach (fake_dlopen libpath)) as Hk.
    { unfold fake_dlopen. apply keeps_bind; [auto with keeps|]. intros t.
      repeat case_match; auto with keeps. repeat (apply keeps_bind; [auto using section_loop_keeps with keeps|intros ?]; try case_match); auto with keeps. }
    specialize (Hk p). by rewrite H in Hk. }
  unfold fake_dlopen in H. rewrite (M_bind_run (gets _) _ p _ p eq_refl) in H.
  destruct (proc_self_maps (mach p)) as [text|] eqn:Et; [|done].
  destruct (find_line libpath _) as [line|] eqn:El; [|done].
  destruct (scan_lx line) as [[la rest]|] eqn:Es; [|done].
  destruct (open_file libpath) as [file|] eqn:Ef; [|done].
  destruct (_ <=? 0); [done|]. destruct (negb (mmap_allowed _ _ _)); [done|].
  case_run H. destruct (negb a); [done|]. do 4 case_run H.
  apply find_line_some in El as (H1 & H2 & l & Hl & ->).
  destruct a3 as [c1|]; [|done]. apply section_loop_fits in Hrun3 as [Hc Hla]; [|by eapply Hfiles|done].
  destruct (dynstr c1) eqn:E1, (dynsym c1) eqn:E2; try done. injection H as -> _.
  split; [|by rewrite E1, E2|done]. exists text, l, rest. rewrite Hla. by split_and!.
Qed.

(** A handle is sound, and a lookup in it returns.  Whatever the file, when [fake_dlopen]
    yields a handle, its load address starts a line of /proc/self/maps that names the path and
    is executable, both tables are there and nothing else in the process has changed; and
    [fake_dlsym] on it returns for every name without reading past the copies, as long as the
    string table ends with a terminator and the symbols' names start in it: the number of
    symbols never exceeds the copied table, also where the section's size is not a multiple of
    an entry or its quotient does not fit the [int]. *)
Lemma fake_dlopen_handle (libpath : list Z) (p p' : process) (c : ctx) :
  (forall path file, open_file path = Some file -> Forall is_byte file) ->
  fake_dlopen libpath p = (Ok (Some c), p') ->
  mach p' = mach p /\ sound_handle libpath (mach p) c
  /\ (forall name, is_cstring name -> last (default [] (dynstr c)) = Some 0 ->
        (forall k nm, 0 <= k < nsyms c ->
           buf_field (default [] (dynsym c)) (k * sizeof_Sym) 4 = Ok nm ->
           0 <= nm < Z.of_nat (length (default [] (dynstr c)))) ->
        exists a, fake_dlsym (Some c) name = Ok a).
Proof.
  intros Hfiles H. apply fake_dlopen_sound in H as [Hm Hs]; [|done]. split_and!; [done..|].
  intros name Hn Hl Hnames. destruct Hs as [_ [_ Hsy] Hfit].
  destruct (dlsym_loop_ends (default [] (dynstr c)) (default [] (dynsym c)) name (Z.to_nat (nsyms c)) 0)
    as [r E]; [done|done| |].
  - intros i Hi. destruct (table_fits_read c i Hfit Hsy) as (nm & v & E1 & E2); [lia|].
    exists nm, v. split_and!; [done|..|done]; eapply Hnames; eauto; lia.
  - unfold fake_dlsym. rewrite E. cbn [mbind result_bind]. eauto.
Qed.

(** ** The sections of a file *)

Record section := MkSec { s_type : Z; s_addr : Z; s_offset : Z; s_size : Z }.

(** The header of a section is at [sh]. *)
Definition section_at (file : list Z) (sh : Z) (s : section) : Prop :=
  m_type file sh = Ok (s_type s) /\ m_addr file sh = Ok (s_addr s)
  /\ m_offset file sh = Ok (s_offset s) /\ m_size file sh = Ok (s_size s).

Fixpoint sections_at (file : list Z) (entsize sh : Z) (l : list section) : Prop :=
  match l with
  | [] => True
  | s :: l => section_at file sh s /\ sections_at file entsize (sh + entsize) l
  end.

(** The bytes of a section. *)
Definition contents (file : list Z) (s : section) : list Z :=
  take (Z.to_nat (s_size s)) (drop (Z.to_nat (s_offset s)) (mapped file)).

Definition inside (file : list Z) (s : section) : Prop :=
  0 <= s_offset s /\ 0 <= s_size s /\ s_offset s + s_size s <= Z.of_nat (length (mapped file)).

Definition of_type (t : Z) (l : list section) : list section := filter (fun s => s_type s = t) l.

(** The handle after the sections [l]: the first tables among them. *)
Definition ctx_of (file : list Z) (la : Z) (l : list section) : ctx :=
  MkCtx la (contents file <$> head (of_type SHT_STRTAB l)) (contents file <$> head (of_type SHT_DYNSYM l))
    (match head (of_type SHT_DYNSYM l) with Some d => s32 (s_size d / sizeof_Sym) | None => 0 end) 0.

(** The sections [l] are passed over: at most one dynamic symbol table, tables inside the
    mapping, and no code behind both tables. *)
Record passed (file : list Z) (l : list section) : Prop := {
  pa_one : (length (of_type SHT_DYNSYM l) <= 1)%nat;
  pa_inside : forall s, s ∈ l -> s_type s = SHT_DYNSYM \/ s_type s = SHT_STRTAB -> inside file s;
  pa_code : forall a q b, l = (a ++ q :: b)%list -> s_type q = SHT_PROGBITS ->
    of_type SHT_DYNSYM a = [] \/ of_type SHT_STRTAB a = []
}.

Lemma of_type_app t a b : of_type t (a ++ b) = (of_type t a ++ of_type t b)%list.
Proof. apply filter_app. Qed.

Lemma of_type_one t s : of_type t [s] = if decide (s_type s = t) then [s] else [].
Proof. done. Qed.

Lemma copy_section_run file sh s p : section_at file sh s -> inside file s -> allocs p = [] ->
  copy_section file sh p = (Ok (Some (s_size s, contents file s)), p).
Proof.
  intros (_ & _ & Eo & Es) (H1 & H2 & H3) Hp.
  assert (mapped_bytes file (s_offset s) (s_size s) = Ok (contents file s)) as Eb.
  { unfold mapped_bytes. by rewrite (proj2 (andb_true_iff _ _)) by (rewrite !Z.leb_le; lia). }
  destruct p as [m ms l]. simpl in Hp. subst l. unfold copy_section. rewrite Es.
  set (p := MkProcess m ms []).
  rewrite (M_bind_run (raise _) _ p (s_size s) p eq_refl).
  rewrite (M_bind_run alloc _ p true p eq_refl). cbn [negb]. rewrite Eo.
  rewrite (M_bind_run (raise _) _ p (s_offset s) p eq_refl), Eb. done.
Qed.

(** The handle after one more section. *)
Lemma ctx_of_snoc file la a q :
  ctx_of file la (a ++ [q])
  = let c := ctx_of file la a in
    if decide (s_type q = SHT_DYNSYM /\ of_type SHT_DYNSYM a = []) then
      MkCtx la (dynstr c) (Some (contents file q)) (s32 (s_size q / sizeof_Sym)) 0
    else if decide (s_type q = SHT_STRTAB /\ of_type SHT_STRTAB a = []) then
      MkCtx la (Some (contents file q)) (dynsym c) (nsyms c) 0
    else c.
Proof.
  unfold ctx_of. rewrite !of_type_app, !of_type_one. cbn [dynstr dynsym nsyms].
  destruct (decide (s_type q = SHT_DYNSYM)) as [E|E].
  { rewrite (decide_False (P := s_type q = SHT_STRTAB)) by (by rewrite E). rewrite app_nil_r.
    destruct (of_type SHT_DYNSYM a); [by rewrite decide_True|].
    rewrite decide_False by (by intros [_ ?]). rewrite decide_False; [done|]. rewrite E. by intros [? _]. }
  rewrite app_nil_r, (decide_False (P := s_type q = SHT_DYNSYM /\ _)) by tauto.
  destruct (decide (s_type q = SHT_STRTAB)) as [E'|E'].
  - destruct (of_type SHT_STRTAB a); [by rewrite decide_True|]. rewrite decide_False; [done|]. by intros [_ ?].
  - rewrite decide_False by tauto. by rewrite app_nil_r.
Qed.

Lemma dynsym_none file la a : of_type SHT_DYNSYM a = [] -> dynsym (ctx_of file la a) = None.
Proof. simpl. by intros ->. Qed.

Lemma dynstr_ctx file la a :
  dynstr (ctx_of file la a) = None <-> of_type SHT_STRTAB a = [].
Proof. simpl. by destruct (of_type SHT_STRTAB a). Qed.

(** At most one section of the type: none before it. *)
Lemma of_type_first t a q b : (length (of_type t (a ++ q :: b)) <= 1)%nat -> s_type q = t ->
  of_type t a = [].
Proof.
  intros H E. rewrite of_type_app in H. change (q :: b) with ([q] ++ b)%list in H.
  rewrite of_type_app, of_type_one, decide_True, !length_app in H by done.
  destruct (of_type t a); [done|]. simpl in H. lia.
Qed.

(** One section that is passed over. *)
Lemma section_loop_step file entsize la a q b n sh p :
  passed file (a ++ q :: b) -> section_at file sh q -> allocs p = [] ->
  section_loop (S n) file entsize sh (ctx_of file la a) p
  = section_loop n file entsize (sh + entsize) (ctx_of file la (a ++ [q])) p.
Proof.
  intros [H1 H2 H3] Hq Hp. pose proof Hq as (Et & _). cbn [section_loop].
  rewrite (M_bind_run (raise _) _ p (s_type q) p) by (by rewrite Et).
  assert (s_type q = SHT_DYNSYM \/ s_type q = SHT_STRTAB ->
    copy_section file sh p = (Ok (Some (s_size q, contents file q)), p)) as Hcopy.
  { intros E. apply copy_section_run; [done| |done]. apply H2; [set_solver|done]. }
  rewrite ctx_of_snoc. cbv zeta.
  destruct (Z.eqb_spec (s_type q) SHT_DYNSYM) as [E|E].
  { pose proof (of_type_first _ _ _ _ H1 E) as Ea. rewrite decide_True by done.
    rewrite (dynsym_none file la a Ea). by rewrite (M_bind_run _ _ _ _ _ (Hcopy (or_introl E))). }
  rewrite decide_False by tauto. destruct (Z.eqb_spec (s_type q) SHT_STRTAB) as [E'|E'].
  { destruct (dynstr (ctx_of file la a)) eqn:Ea.
    - rewrite decide_False; [done|]. rewrite <- (dynstr_ctx file la), Ea. by intros [_ ?].
    - apply dynstr_ctx in Ea as Ea'. rewrite decide_True by done.
      by rewrite (M_bind_run _ _ _ _ _ (Hcopy (or_intror E'))). }
  rewrite decide_False by tauto.
  destruct (Z.eqb_spec (s_type q) SHT_PROGBITS) as [E2|E2]; [|done].
  destruct (H3 a q b eq_refl E2) as [Ha|Ha].
  - rewrite (dynsym_none file la a Ha). by destruct (dynstr (ctx_of file la a)).
  - apply (dynstr_ctx file la) in Ha. by rewrite Ha.
Qed.

Lemma section_loop_run file entsize la p : allocs p = [] -> forall b a sh n,
  passed file (a ++ b) -> sections_at file entsize sh b ->
  section_loop (length b + n) file entsize sh (ctx_of file la a) p
  = section_loop n file entsize (sh + entsize * Z.of_nat (length b)) (ctx_of file la (a ++ b)) p.
Proof.
  intros Hp. induction b as [|q b IH]; intros a sh n Hpass Hs.
  { cbn [length Nat.add]. by rewrite app_nil_r, Z.mul_0_r, Z.add_0_r. }
  destruct Hs as [Hq Hs]. cbn [length Nat.add].
  rewrite (section_loop_step file entsize la a q b) by done.
  rewrite (IH (a ++ [q])%list) by (rewrite <- ?app_assoc; done).
  rewrite <- app_assoc. f_equal. lia.
Qed.

(** ** Addresses *)

(** A library's file: sections [pre] up to the section [code] behind the tables [d] and [st],
    and its dynamic symbols. *)
Record library (file : list Z) (pre : list section) (d st code : section) (syms : list symbol) : Prop := {
  li_file : file <> [];
  li_headers : exists shoff shnum entsize, m_shoff file = Ok shoff /\ m_shentsize file = Ok entsize
    /\ m_shnum file = Ok shnum /\ Z.of_nat (length pre) < shnum
    /\ sections_at file entsize shoff (pre ++ [code]);
  li_passed : passed file pre;
  li_dynsym : of_type SHT_DYNSYM pre = [d];
  li_strtab : head (of_type SHT_STRTAB pre) = Some st;
  li_code : s_type code = SHT_PROGBITS;
  li_count : s_size d = Z.of_nat (length syms) * sizeof_Sym /\ Z.of_nat (length syms) < 2 ^ 31;
  li_symbols : table_at (contents file st) (contents file d) syms
}.

Lemma sections_at_app file entsize sh a b :
  sections_at file entsize sh (a ++ b)
  <-> sections_at file entsize sh a /\ sections_at file entsize (sh + entsize * Z.of_nat (length a)) b.
Proof.
  revert sh. induction a as [|s a IH]; intros sh; cbn [app sections_at length].
  - rewrite Z.mul_0_r, Z.add_0_r. tauto.
  - rewrite IH. replace (sh + entsize + entsize * Z.of_nat (length a))
      with (sh + entsize * Z.of_nat (S (length a))) by lia. tauto.
Qed.

Lemma dlsym_loop_correct strings sym name l : is_cstring name ->
  forall k, (forall i e, l !! i = Some e -> entry_at strings sym (Z.of_nat (k + i)) e) ->
  dlsym_loop (length l) strings sym name (Z.of_nat k)
  = Ok (sy_value ∘ snd <$> list_find (fun e => sy_name e = name) l).
Proof.
  intros Hn. induction l as [|e l IH]; intros k Hl; [done|]. cbn [length dlsym_loop list_find].
  pose proof (Hl 0%nat e eq_refl) as (info & nm & _ & _ & Enm & Hnm & [rest Hs] & Hc & Hv).
  rewrite Nat.add_0_r in Enm, Hv. rewrite Enm. cbn [mbind result_bind].
  rewrite (proj2 (Z.leb_le _ _)) by lia. rewrite Hs, buf_streq_correct by done. cbn [mbind result_bind].
  destruct (decide (sy_name e = name)) as [Hw|Hw].
  - rewrite bool_decide_true by done. by rewrite Hv.
  - rewrite bool_decide_false by done.
    replace (Z.of_nat k + 1) with (Z.of_nat (S k)) by lia. rewrite IH.
    + f_equal. by destruct (list_find _ l) as [[? ?]|].
    + intros i e' Hi. replace (S k + i)%nat with (k + S i)%nat by lia. by apply Hl.
Qed.

(** The handle for such a file. *)
Definition library_ctx (file : list Z) (la : Z) (d st code : section) (n : nat) : ctx :=
  MkCtx la (Some (contents file st)) (Some (contents file d)) (Z.of_nat n)
    (uword (s_addr code - s_offset code)).

Lemma ctx_of_library file pre d st code syms la : library file pre d st code syms ->
  ctx_of file la pre = MkCtx la (Some (contents file st)) (Some (contents file d)) (Z.of_nat (length syms)) 0.
Proof.
  intros [_ _ _ Hd Hs _ [Hn Hb] _]. unfold ctx_of. rewrite Hd, Hs. cbn [head fmap option_fmap option_map].
  rewrite Hn, Z.div_mul by (pose proof sizeof_Sym_pos; lia). do 2 f_equal.
  unfold swrap. rewrite Z.mod_small by lia. lia.
Qed.

Lemma section_loop_library file pre d st code syms la shoff shnum entsize p :
  library file pre d st code syms -> allocs p = [] -> Z.of_nat (length pre) < shnum ->
  sections_at file entsize shoff (pre ++ [code]) ->
  section_loop (Z.to_nat shnum) file entsize shoff (MkCtx la None None 0 0) p
  = (Ok (Some (library_ctx file la d st code (length syms))), p).
Proof.
  intros Hlib Hp Hn Hs. apply sections_at_app in Hs as [Hpre [(Et & Ea & Eo & _) _]].
  replace (Z.to_nat shnum) with (length pre + S (Z.to_nat shnum - length pre - 1))%nat by lia.
  change (MkCtx la None None 0 0) with (ctx_of file la []).
  rewrite (section_loop_run file entsize la p Hp pre []) by (done || apply Hlib).
  rewrite (ctx_of_library _ _ _ _ _ _ _ Hlib : ctx_of file la ([] ++ pre) = _). cbn [section_loop].
  rewrite Et, (li_code _ _ _ _ _ _ Hlib). rewrite (M_bind_run (raise _) _ p SHT_PROGBITS p eq_refl).
  cbn [Z.eqb SHT_PROGBITS SHT_DYNSYM SHT_STRTAB Pos.eqb dynstr dynsym]. rewrite Ea.
  rewrite (M_bind_run (raise _) _ p (s_addr code) p eq_refl), Eo. done.
Qed.

Lemma displaced B v o value addr off : addr - off = v - o ->
  uword (uword (B + v) + value - uword (addr - off)) = uword (B + value + o).
Proof.
  intros ->. unfold uword, wrap. rewrite Zminus_mod, Zplus_mod_idemp_l, Zmod_mod, <- Zminus_mod.
  f_equal. lia.
Qed.

End Facts.
End FakeFacts.

(** A library as lld lays it out: loaded at 0x7000, with 0x1000 bytes of read-only data in front
    of the code segment, whose virtual address is 0x2000. *)
Module FakeDemo.
Import XhMaps SemiDlfcn SemiFacts FakeDlfcn FakeFacts.

Definition section_header (s : section) : list Z :=
  (le_bytes 4 0 ++ le_bytes 4 (s_type s) ++ le_bytes 8 0 ++ le_bytes 8 (s_addr s) ++ le_bytes 8 (s_offset s)
   ++ le_bytes 8 (s_size s) ++ replicate 24 0)%list.

Definition dynsym_section : section := MkSec SHT_DYNSYM 0x148 0x148 48.
Definition dynstr_section : section := MkSec SHT_STRTAB 0x140 0x140 5.
Definition text_section : section := MkSec SHT_PROGBITS 0x2010 0x1010 16.

Definition demo_file : list Z :=
  (replicate 40 0 ++ le_bytes 8 64 ++ replicate 10 0 ++ le_bytes 2 64 ++ le_bytes 2 3 ++ le_bytes 2 0
   ++ section_header dynsym_section ++ section_header dynstr_section ++ section_header text_section
   ++ replicate 0x40 0
   ++ [0] ++ bytes_of "foo" ++ [0; 0; 0; 0]
   ++ replicate 24 0 ++ le_bytes 4 1 ++ [STT_FUNC; 0; 0; 0] ++ le_bytes 8 0x2014 ++ le_bytes 8 4)%list.

Definition maps_text : list Z :=
  (bytes_of "7000-9000 r--p 00000000 fd:02 77    /lib/libdemo.so" ++ [10]
   ++ bytes_of "9000-a000 r-xp 00001000 fd:02 77    /lib/libdemo.so" ++ [10])%list.

#[local] Instance demo_device : Linker :=
  {| api_level := 29; own_fname := None; at_base := 0; dladdr_known := fun _ _ => true;
     dl_objects := fun _ => [];
     open_file := fun p => if bool_decide (p = bytes_of "/lib/libdemo.so") then Some demo_file else None;
     mmap_allowed := fun _ _ _ => true |}.

#[local] Instance demo_kernel : Kernel := permissive_kernel (Some maps_text).
#[local] Existing Instance arch_aarch64.

Definition demo_process : process := MkProcess (MkMachine ∅ ∅) initial [].

Definition demo_syms : list symbol := [MkSymbol 0 [] 0; MkSymbol STT_FUNC (bytes_of "foo") 0x2014].

Lemma demo_library :
  library demo_file [dynsym_section; dynstr_section] dynsym_section dynstr_section text_section demo_syms.
Proof.
  split; try reflexivity.
  - discriminate.
  - exists 64, 3, 64. split_and!; try (vm_compute; reflexivity).
    repeat split; vm_compute; reflexivity.
  - split.
    + simpl. lia.
    + intros s Hs _. assert (s = dynsym_section \/ s = dynstr_section) as [-> | ->] by set_solver;
        split_and!; vm_compute; discriminate.
    + intros [|x [|y [|]]] q b E Hq; try discriminate E; injection E; intros; subst; try discriminate Hq.
  - split; [reflexivity|simpl; lia].
  - intros [|[|i]] e He; [| |done]; injection He as <-.
    + exists 0, 0. split_and!; first [reflexivity|lia|eexists; reflexivity|decide_now|vm_compute; discriminate].
    + exists STT_FUNC, 1. split_and!; first [reflexivity|lia|eexists; reflexivity|decide_now|vm_compute; discriminate].
Qed.


Lemma fake_dlopen_handle_witness :
  exists c p', fake_dlopen (bytes_of "/lib/libdemo.so") demo_process = (Ok (Some c), p')
    /\ sound_handle (bytes_of "/lib/libdemo.so") (mach demo_process) c
    /\ exists a, fake_dlsym (Some c) (bytes_of "bar") = Ok a.
Proof.
  destruct (fake_dlopen (bytes_of "/lib/libdemo.so") demo_process) as [r p'] eqn:E.
  assert (r = Ok (Some (library_ctx demo_file 0x9000 dynsym_section dynstr_section text_section 2))) as Hr
    by (apply (f_equal fst) in E; vm_compute in E |- *; by rewrite <- E).
  subst r. exists (library_ctx demo_file 0x9000 dynsym_section dynstr_section text_section 2), p'. split; [reflexivity|].
  destruct (fake_dlopen_handle (bytes_of "/lib/libdemo.so") demo_process p'
    (library_ctx demo_file 0x9000 dynsym_section dynstr_section text_section 2)) as (_ & Hs & Hl); [|exact E|].
  - intros path file. cbn [open_file demo_device]. case_bool_decide; [|done]. intros [= <-]. decide_now.
  - split; [exact Hs|]. apply Hl; [decide_now|reflexivity|].
    intros k nm Hk. assert (k = 0 \/ k = 1) as [-> | ->] by (cbn [nsyms library_ctx] in Hk; lia); vm_compute; intros [= <-];
      split; (discriminate || reflexivity).
Defined.
End FakeDemo.
