(* ===== verification/SplayMap.v ===== *)
(** The splay map of the memory hooks (traceharbor-hooks, common/struct/splay_map.h and
    buffer_source.h; traceharbor-opengl-leak has a copy of the file).

    The map keeps its nodes in one growing array and its values in another; links are indices, 0
    is the null link, and node 0 is the header of the top-down splay.  Removed nodes are chained
    through their left links and used again.  Module [SplayMap] translates the class, for keys
    that compare like integers (pointers, 64-bit hashes) and with ENABLE_SPLAY_CHECK undefined;
    [SplayFacts] shows that it implements a finite map. *)
From S2P Require Import Prelude Machine.

Module SplayMap.

(** The types of a map: its values, what zeroed bytes mean as a value, and sizes in bytes. *)
Class Layout (V : Type) := {
  zero_val : V;
  sizeof_node : Z;
  sizeof_val : Z
}.

Record node := MkNode { key : Z; left : nat; right : nat }.

Record tree_info := MkInfo { root_ptr : nat; free_ptr : nat; b_size : Z; t_size : Z }.

Definition sizeof_tree_info : Z := 16.

Section Map.
Context {V : Type} {L : Layout V}.

(** [answers] says which of the calls of [realloc] to come are granted; where the list ends, all
    of them are. *)
Record splay_map := MkMap {
  t_info : option tree_info;
  k_buff : list node;
  v_buff : list V;
  last_ptr : nat;
  i_size : Z;
  answers : list bool
}.

Definition put_info (i : tree_info) (s : splay_map) : splay_map := MkMap (Some i) (k_buff s) (v_buff s) (last_ptr s) (i_size s) (answers s).
Definition put_nodes (h : list node) (s : splay_map) : splay_map := MkMap (t_info s) h (v_buff s) (last_ptr s) (i_size s) (answers s).
Definition put_vals (vs : list V) (s : splay_map) : splay_map := MkMap (t_info s) (k_buff s) vs (last_ptr s) (i_size s) (answers s).
Definition put_last (p : nat) (s : splay_map) : splay_map := MkMap (t_info s) (k_buff s) (v_buff s) p (i_size s) (answers s).

Definition get_info : M splay_map tree_info := reads (fun s => match t_info s with Some i => Ok i | None => Segv end).
Definition put_root (p : nat) : M splay_map unit := i ← get_info; modify (put_info (MkInfo p (free_ptr i) (b_size i) (t_size i))).
Definition put_free (p : nat) : M splay_map unit := i ← get_info; modify (put_info (MkInfo (root_ptr i) p (b_size i) (t_size i))).
Definition put_size (n : Z) : M splay_map unit := i ← get_info; modify (put_info (MkInfo (root_ptr i) (free_ptr i) (b_size i) n)).

(** * Nodes *)

Definition with_left (q : nat) (n : node) : node := MkNode (key n) q (right n).
Definition with_right (q : nat) (n : node) : node := MkNode (key n) (left n) q.

Definition get_node (p : nat) : M splay_map node := reads (fun s => match k_buff s !! p with Some n => Ok n | None => Undef end).

Definition set_node (p : nat) (f : node -> node) : M splay_map unit :=
  _ ← get_node p; modify (fun s => put_nodes (alter f p (k_buff s)) s).

Definition get_node_lc (p : nat) : M splay_map nat := n ← get_node p; mret (left n).
Definition get_node_rc (p : nat) : M splay_map nat := n ← get_node p; mret (right n).
Definition get_node_key (p : nat) : M splay_map Z := n ← get_node p; mret (key n).
Definition set_node_lc (p q : nat) : M splay_map unit := set_node p (with_left q).
Definition set_node_rc (p q : nat) : M splay_map unit := set_node p (with_right q).
Definition set_node_key (p : nat) (k : Z) : M splay_map unit := set_node p (fun n => MkNode k (left n) (right n)).

Definition get_val (p : nat) : M splay_map V := reads (fun s => match v_buff s !! p with Some v => Ok v | None => Undef end).
Definition set_val (p : nat) (v : V) : M splay_map unit := _ ← get_val p; modify (fun s => put_vals (<[p := v]> (v_buff s)) s).

(** * Splaying *)

(** The loop of [splay]: where it leaves [l], [r] and [t], and whether the key was found. *)
Fixpoint splay_loop (fuel : nat) (k : Z) (l r t : nat) : M splay_map (nat * nat * nat * bool) :=
  match fuel with
  | O => raise NoFuel
  | S fuel =>
      tkey ← get_node_key t;
      if k <? tkey then
        tlc ← get_node_lc t;
        if (tlc =? 0)%nat then mret (l, r, t, false) else
        ckey ← get_node_key tlc;
        '(t, stop) ← (if k <? ckey then
                        b ← get_node_rc tlc; set_node_lc t b;;
                        set_node_rc tlc t;;
                        a ← get_node_lc tlc; mret (tlc, (a =? 0)%nat)
                      else mret (t, false));
        if (stop : bool) then mret (l, r, t, false) else
        set_node_lc r t;;
        t' ← get_node_lc t;
        splay_loop fuel k l t t'
      else if tkey <? k then
        trc ← get_node_rc t;
        if (trc =? 0)%nat then mret (l, r, t, false) else
        ckey ← get_node_key trc;
        '(t, stop) ← (if ckey <? k then
                        b ← get_node_lc trc; set_node_rc t b;;
                        set_node_lc trc t;;
                        a ← get_node_rc trc; mret (trc, (a =? 0)%nat)
                      else mret (t, false));
        if (stop : bool) then mret (l, r, t, false) else
        set_node_rc l t;;
        t' ← get_node_rc t;
        splay_loop fuel k t r t'
      else mret (l, r, t, true)
  end.

(** The result and the new root; every turn of the loop leaves a node behind. *)
Definition splay (k : Z) (root : nat) : M splay_map (bool * nat) :=
  if (root =? 0)%nat then mret (false, root) else
  h ← gets k_buff;
  '(l, r, t, ret) ← splay_loop (length h) k 0 0 root;
  a ← get_node_lc t; set_node_rc l a;;
  b ← get_node_rc t; set_node_lc r b;;
  a ← get_node_rc 0; set_node_lc t a;;
  b ← get_node_lc 0; set_node_rc t b;;
  set_node_lc 0 0;;
  set_node_rc 0 0;;
  mret (ret, t).

(** [splay(key, t_info->root_ptr)]. *)
Definition splay_root (k : Z) : M splay_map bool :=
  i ← get_info; '(ret, root) ← splay k (root_ptr i); put_root root;; mret ret.

Definition inter_find (k : Z) : M splay_map nat :=
  ret ← splay_root k;
  if (ret : bool) then i ← get_info; mret (root_ptr i) else mret 0%nat.

(** * Enumeration *)

(** Down the left links; [None] where the stack grows beyond the size of the tree. *)
Fixpoint push_left (fuel : nat) (root : nat) (st : list nat) : M splay_map (option (list nat)) :=
  if (root =? 0)%nat then mret (Some st) else
  match fuel with
  | O => raise NoFuel
  | S fuel =>
      let st := root :: st in
      i ← get_info;
      if t_size i <? Z.of_nat (length st) then mret None else
      root ← get_node_lc root;
      push_left fuel root st
  end.

(** The callback takes what it has gathered so far, the key and the value, and may change the
    value. *)
Fixpoint enumerate_loop {A} (fuel : nat) (callback : A -> Z -> V -> A * V) (root : nat) (st : list nat) (count : Z) (acc : A)
  : M splay_map A :=
  if (root =? 0)%nat && match st with [] => true | _ => false end then mret acc else
  match fuel with
  | O => raise NoFuel
  | S fuel =>
      h ← gets k_buff;
      st ← push_left (length h) root st;
      match st with
      | None => mret acc
      | Some [] => enumerate_loop fuel callback 0 [] count acc
      | Some (root :: st) =>
          k ← get_node_key root; v ← get_val root;
          let '(acc, v) := callback acc k v in
          set_val root v;;
          i ← get_info;
          if t_size i <? count + 1 then mret acc else
          root ← get_node_rc root;
          enumerate_loop fuel callback root st (count + 1) acc
      end
  end.

Definition inter_enumerate {A} (root : nat) (callback : A -> Z -> V -> A * V) (acc : A) : M splay_map A :=
  if (root =? 0)%nat then mret acc else
  h ← gets k_buff; enumerate_loop (length h) callback root [] 0 acc.

(** * Memory *)

Definition free_node (p : nat) : M splay_map unit :=
  if (p =? 0)%nat then mret tt else
  i ← get_info; set_node_lc p (free_ptr i);; put_free p.

Definition next_free_node : M splay_map nat :=
  i ← get_info;
  if (free_ptr i =? 0)%nat then mret (Z.to_nat (t_size i))
  else q ← get_node_lc (free_ptr i); put_free q;; mret (free_ptr i).

(** [buffer_source_memory::realloc]: whether the memory is there. *)
Definition os_realloc : M splay_map bool :=
  s ← gets answers;
  match s with
  | [] => mret true
  | a :: l => modify (fun s => MkMap (t_info s) (k_buff s) (v_buff s) (last_ptr s) (i_size s) l);; mret a
  end.

(** [malloc_size] of the two buffers, for [n] entries: the product is a [size_t], the variable has 32 bits. *)
Definition key_bytes (n : Z) : Z := u32 (sizeof_tree_info + u32 n * sizeof_node).
Definition val_bytes (n : Z) : Z := u32 (u32 n * sizeof_val).

(** [memset] to [n] entries must not leave the buffer. *)
Definition within_bytes (bytes needed : Z) : M splay_map unit := if needed <=? bytes then mret tt else raise Undef.

Definition reallocate_memory (is_init : bool) : M splay_map bool :=
  if is_init then
    isize ← gets i_size;
    ok ← os_realloc;
    if negb ok then mret false else
    within_bytes (key_bytes isize) (sizeof_tree_info + isize * sizeof_node);;
    modify (fun s => put_info (MkInfo 0 0 0 0) (put_nodes (replicate (Z.to_nat isize) (MkNode 0 0 0)) s));;
    ok ← os_realloc;
    if negb ok then mret false else
    within_bytes (val_bytes isize) (isize * sizeof_val);;
    modify (fun s => put_info (MkInfo 0 0 isize 0) (put_vals (replicate (Z.to_nat isize) zero_val) s));;
    mret true
  else
    isize ← gets i_size;
    i ← get_info;
    ok ← os_realloc;
    if negb ok then mret false else
    within_bytes (key_bytes (b_size i + isize)) (sizeof_tree_info + (b_size i + isize) * sizeof_node);;
    modify (fun s => put_nodes (take (Z.to_nat (b_size i)) (k_buff s) ++ replicate (Z.to_nat isize) (MkNode 0 0 0)) s);;
    ok ← os_realloc;
    if negb ok then mret false else
    within_bytes (val_bytes (b_size i + isize)) ((b_size i + isize) * sizeof_val);;
    modify (fun s => put_info (MkInfo (root_ptr i) (free_ptr i) (u32 (b_size i + isize)) (t_size i))
      (put_vals (take (Z.to_nat (b_size i)) (v_buff s) ++ replicate (Z.to_nat isize) zero_val) s));;
    mret true.

(** The constructor: the buffers are empty, so that the test of old contents does not apply. *)
Definition new (_is : Z) (mem : list bool) : result bool * splay_map :=
  reallocate_memory true (MkMap None [] [] 0 (if _is =? 0 then 1024 else _is) mem).

(** * Operations *)

(** A new node [n] between the subtrees [a] and [b]. *)
Definition fresh_node (n : nat) (k : Z) (a b : nat) (v : V) : M splay_map unit :=
  set_node_key n k;; set_node_lc n a;; set_node_rc n b;; set_val n v.

(** The index of the value that [insert] returns the address of; 0 stands for [nullptr]. *)
Definition insert (k : Z) (v : V) : M splay_map nat :=
  i ← get_info;
  ok ← (if u32 (t_size i + 1) =? b_size i then reallocate_memory false else mret true);
  if negb ok then mret 0%nat else
  i ← get_info;
  if (root_ptr i =? 0)%nat then
    put_size 1;;
    n ← next_free_node;
    fresh_node n k 0 0 v;;
    put_root n;; mret n
  else
    found ← splay_root k;
    i ← get_info;
    let root := root_ptr i in
    if (found : bool) then set_val root v;; mret root else
    rkey ← get_node_key root;
    put_size (u32 (t_size i + 1));;
    n ← next_free_node;
    (if k <? rkey then
       a ← get_node_lc root; fresh_node n k a root v;; set_node_lc root 0
     else
       b ← get_node_rc root; fresh_node n k root b v;; set_node_rc root 0);;
    put_root n;; mret n.

Definition remove (k : Z) : M splay_map nat :=
  found ← splay_root k;
  if negb found then mret 0%nat else
  i ← get_info;
  let r := root_ptr i in
  a ← get_node_lc r;
  x ← (if (a =? 0)%nat then get_node_rc r
       else '(_, x) ← splay k a; b ← get_node_rc r; set_node_rc x b;; mret x);
  free_node r;;
  i ← get_info;
  put_size (u32 (t_size i - 1));;
  put_root x;;
  mret r.

Definition exist (k : Z) : M splay_map bool :=
  p ← inter_find k; modify (put_last p);; mret (negb (p =? 0)%nat).

Definition find : M splay_map V := s ← gets last_ptr; get_val s.

(** The accessors [root_ptr()] and [get(ptr)]. *)
Definition current_root : M splay_map nat := i ← get_info; mret (root_ptr i).
Definition get (p : nat) : M splay_map V := get_val p.

Definition size : M splay_map Z := i ← get_info; mret (t_size i).

Definition enumerate {A} (callback : A -> Z -> V -> A * V) (acc : A) : M splay_map A :=
  i ← get_info; inter_enumerate (root_ptr i) callback acc.
End Map.
Arguments splay_map : clear implicits.
End SplayMap.
