(* ===== verification/SplayTree.v ===== *)
(** Top-down splaying keeps the elements of a tree in order.

    A tree in the node array is a [tree] whose nodes carry their indices, and [agrees] says that
    the array holds it.  The two mirror images of every step of the top-down splay are treated at
    once: an orientation [o] says whether the near child is the left one ([true]) or the right
    one.  While the loop runs, the array holds the tree below [t] and two piles of [frames], the
    trees that were linked to the right and to the left of it; their elements in order, with those
    of the tree between them, never change.
    The result is [splay_run]. *)
From S2P Require Import Prelude Machine SplayMap.
From Stdlib Require Import Sorted.

Module SplayTree.
Import SplayMap.

(** * Fields of nodes *)

Definition kf (h : list node) (p : nat) : option Z := key <$> h !! p.
Definition fld (o : bool) (h : list node) (p : nat) : option nat := (if o then left else right) <$> h !! p.
Definition chg (o : bool) (q : nat) (n : node) : node := if o then with_left q n else with_right q n.

Lemma fld_chg_eq o q p h : (p < length h)%nat -> fld o (alter (chg o q) p h) p = Some q.
Proof.
  intros Hp. unfold fld. rewrite list_lookup_alter_eq. destruct (lookup_lt_is_Some_2 h p Hp) as [n ->]. by destruct o.
Qed.

Lemma fld_chg_ne o o' q p p' h : p <> p' \/ o <> o' -> fld o' (alter (chg o q) p h) p' = fld o' h p'.
Proof.
  intros H. unfold fld. rewrite list_lookup_alter. destruct (decide (p = p')) as [->|]; [|done].
  destruct H as [?|H]; [done|]. destruct (h !! p'); [|done]. by destruct o, o'.
Qed.

Lemma kf_chg o q p p' h : kf (alter (chg o q) p h) p' = kf h p'.
Proof. unfold kf. rewrite list_lookup_alter. destruct (decide (p = p')) as [->|]; [|done]. destruct (h !! p'); [|done]. by destruct o. Qed.

Lemma kf_bound h p k : kf h p = Some k -> (p < length h)%nat.
Proof. unfold kf. intros H. apply fmap_Some in H as (n & H & _). by apply lookup_lt_Some in H. Qed.

Lemma fld_bound o h p q : fld o h p = Some q -> (p < length h)%nat.
Proof. unfold fld. intros H. apply fmap_Some in H as (n & H & _). by apply lookup_lt_Some in H. Qed.

(** * Trees *)

Inductive tree :=
| Leaf
| Node (l : tree) (p : nat) (k : Z) (r : tree).

#[export] Instance leaf_dec (t : tree) : Decision (t = Leaf).
Proof. destruct t; [by left|by right]. Defined.

Definition ptr (t : tree) : nat := match t with Leaf => 0 | Node _ p _ _ => p end.

Fixpoint elems (t : tree) : list (Z * nat) :=
  match t with
  | Leaf => []
  | Node l p k r => elems l ++ (k, p) :: elems r
  end.

Fixpoint addrs (t : tree) : list nat :=
  match t with
  | Leaf => []
  | Node l p _ r => addrs l ++ p :: addrs r
  end.

Fixpoint agrees (h : list node) (t : tree) : Prop :=
  match t with
  | Leaf => True
  | Node l p k r => p <> 0%nat /\ kf h p = Some k /\ fld true h p = Some (ptr l) /\ fld false h p = Some (ptr r) /\ agrees h l /\ agrees h r
  end.

(** A node with the child [a] on the near side. *)
Definition nd (o : bool) (a : tree) (p : nat) (k : Z) (b : tree) : tree := if o then Node a p k b else Node b p k a.

Lemma ptr_nd o a p k b : ptr (nd o a p k b) = p.
Proof. by destruct o. Qed.

Lemma agrees_nd o h a p k b : agrees h (nd o a p k b) <->
  p <> 0%nat /\ kf h p = Some k /\ fld o h p = Some (ptr a) /\ fld (negb o) h p = Some (ptr b) /\ agrees h a /\ agrees h b.
Proof. destruct o; simpl; tauto. Qed.

Lemma addrs_nd o a p k b : addrs (nd o a p k b) ≡ₚ p :: addrs a ++ addrs b.
Proof. destruct o; simpl; [by rewrite Permutation_middle|]. rewrite <- Permutation_middle. by rewrite (Permutation_app_comm (addrs b)). Qed.

Lemma elems_addrs t : map snd (elems t) = addrs t.
Proof. induction t as [|l IHl p k r IHr]; simpl; [done|]. by rewrite map_app, IHl, <- IHr. Qed.

Lemma agrees_ptr h t : agrees h t -> ptr t = 0%nat <-> t = Leaf.
Proof. destruct t; simpl; [done|]. intros (? & _). done. Qed.

(** Whoever agrees outside the tree does not matter. *)
Lemma agrees_ext h h' t : (forall x, x ∈ addrs t -> h' !! x = h !! x) -> agrees h t -> agrees h' t.
Proof.
  induction t as [|l IHl p k r IHr]; simpl; [done|]. intros Hx (Hp & Hk & Hl & Hr & Ha & Hb).
  assert (h' !! p = h !! p) as E by (apply Hx; set_solver). unfold kf, fld in *. rewrite E.
  split_and!; [done..| |]; [apply IHl|apply IHr]; try done; intros x Hin; apply Hx; set_solver.
Qed.

Lemma agrees_chg o q p h t : p ∉ addrs t -> agrees h t -> agrees (alter (chg o q) p h) t.
Proof. intros Hp. apply agrees_ext. intros x Hx. apply list_lookup_alter_ne. by intros ->. Qed.

Lemma agrees_bound h t x : agrees h t -> x ∈ addrs t -> x <> 0%nat /\ (x < length h)%nat.
Proof.
  induction t as [|l IHl p k r IHr]; simpl; [by intros _ ?%not_elem_of_nil|]. intros (Hp & Hk & _ & _ & Ha & Hb).
  rewrite elem_of_app, elem_of_cons. intros [Hx|[->|Hx]]; [by apply IHl| |by apply IHr]. split; [done|by eapply kf_bound].
Qed.

(** ** Rotation *)
Lemma rotate_agrees o h a q kc b p kt c : NoDup (addrs (nd o (nd o a q kc b) p kt c)) -> agrees h (nd o (nd o a q kc b) p kt c) ->
  agrees (alter (chg (negb o) p) q (alter (chg o (ptr b)) p h)) (nd o a q kc (nd o b p kt c)).
Proof.
  rewrite !addrs_nd. rewrite !agrees_nd, ptr_nd. intros Hnd (Hp & Hkp & Hfp & Hgp & (Hq & Hkq & Hfq & Hgq & Ha & Hb) & Hc).
  rewrite !NoDup_cons, !elem_of_app, !NoDup_app in Hnd. rewrite !elem_of_cons, !elem_of_app in Hnd.
  destruct Hnd as (Hnp & Hnq & Hdc & _). rewrite NoDup_cons, elem_of_app in Hnq. destruct Hnq as [Hnq _].
  assert (p <> q) as Hpq by tauto. assert (q ∉ addrs c) by (apply Hdc; set_solver).
  assert (q < length (alter (chg o (ptr b)) p h))%nat by (rewrite length_alter; by eapply kf_bound).
  assert (p < length h)%nat by (by eapply kf_bound).
  assert (o <> negb o) by (by destruct o).
  rewrite !kf_chg. split_and!; try done.
  - by rewrite !fld_chg_ne by auto.
  - by rewrite fld_chg_eq, ptr_nd.
  - apply agrees_chg; [tauto|]. apply agrees_chg; [tauto|done].
  - rewrite fld_chg_ne by auto. by apply fld_chg_eq.
  - by rewrite !fld_chg_ne by auto.
  - apply agrees_chg; [tauto|]. apply agrees_chg; [tauto|done].
  - apply agrees_chg; [done|]. apply agrees_chg; [tauto|done].
Qed.

(** * Frames *)

(** A node whose near child is elsewhere: it, its key and its far child. *)
Definition frames : Type := list (nat * Z * tree).

(** The innermost frame, or the header. *)
Definition cur (fs : frames) : nat := match fs with [] => 0 | (p, _, _) :: _ => p end.

Fixpoint fok (o : bool) (h : list node) (fs : frames) : Prop :=
  match fs with
  | [] => True
  | (p, k, c) :: fs =>
      p <> 0%nat /\ kf h p = Some k /\ fld (negb o) h p = Some (ptr c) /\ agrees h c
      /\ fld o h (cur fs) = Some p /\ fok o h fs
  end.

Fixpoint fp (fs : frames) : list nat :=
  match fs with
  | [] => []
  | (p, _, c) :: fs => p :: addrs c ++ fp fs
  end.

Fixpoint plug (o : bool) (fs : frames) (t : tree) : tree :=
  match fs with
  | [] => t
  | (p, k, c) :: fs => plug o fs (nd o t p k c)
  end.

(** The elements in order: those linked to the right follow, those linked to the left precede. *)
Fixpoint felems (o : bool) (fs : frames) : list (Z * nat) :=
  match fs with
  | [] => []
  | (p, k, c) :: fs => if o then (k, p) :: elems c ++ felems o fs else felems o fs ++ elems c ++ [(k, p)]
  end.

Lemma felems_fp o fs : map snd (felems o fs) ≡ₚ fp fs.
Proof.
  induction fs as [|[[p k] c] fs IH]; [done|]. destruct o; simpl.
  - by rewrite map_app, elems_addrs, IH.
  - rewrite !map_app, elems_addrs, IH. simpl. rewrite (Permutation_app_comm (fp fs)), <- app_assoc. simpl.
    rewrite <- Permutation_middle. by rewrite (Permutation_app_comm (addrs c)), app_nil_r || by constructor.
Qed.

Lemma cur_fp fs : cur fs = 0%nat /\ fs = [] \/ cur fs ∈ fp fs.
Proof. destruct fs as [|[[p k] c] fs]; simpl; [by left|right; set_solver]. Qed.

Lemma cur_apart fs X G : NoDup (0%nat :: fp fs ++ X ++ G) -> NoDup (0%nat :: fp fs) /\ cur fs ∉ X /\ cur fs ∉ G.
Proof.
  rewrite !NoDup_cons, !NoDup_app, !elem_of_app. intros (H0 & Hn & Hd & _). split; [tauto|].
  destruct (cur_fp fs) as [[-> _]|Hx]; [tauto|]. specialize (Hd _ Hx). rewrite elem_of_app in Hd. tauto.
Qed.

Lemma plug_agrees o h fs : forall t, fok o h fs -> agrees h t -> fld o h (cur fs) = Some (ptr t) ->
  agrees h (plug o fs t) /\ fld o h 0 = Some (ptr (plug o fs t)).
Proof.
  induction fs as [|[[p k] c] fs IH]; intros t Hf Ht Hc; simpl in *; [done|]. destruct Hf as (Hp & Hk & Hn & Ha & Hl & Hf).
  apply IH; [done|by apply agrees_nd|by rewrite ptr_nd].
Qed.

Lemma plug_elems o fs : forall t, elems (plug o fs t) = if o then elems t ++ felems o fs else felems o fs ++ elems t.
Proof.
  induction fs as [|[[p k] c] fs IH]; intros t; simpl; [destruct o; by rewrite ?app_nil_r|]. rewrite IH. by destruct o; simpl; rewrite <- !app_assoc.
Qed.

(** A change elsewhere leaves frames alone, as does one of the other link of the header. *)
Lemma fok_chg o o' v q h fs : q ∉ fp fs -> q <> 0%nat \/ o' <> o -> fok o h fs -> fok o (alter (chg o' v) q h) fs.
Proof.
  induction fs as [|[[p k] c] fs IH]; simpl; [done|]. intros Hq Hor (Hp & Hk & Hn & Ha & Hl & Hf).
  rewrite elem_of_cons, elem_of_app in Hq. rewrite kf_chg. split_and!; [done|done| | | |].
  - by rewrite fld_chg_ne by (left; intros ->; tauto).
  - apply agrees_chg; [tauto|done].
  - rewrite fld_chg_ne; [done|]. destruct Hor as [Hor|Hor]; [left|by right]. intros ->.
    destruct (cur_fp fs) as [[? _]|?]; [done|tauto].
  - apply IH; [tauto|done|done].
Qed.

(** Neither does the link that is about to be made. *)
Lemma fok_link o v h fs : NoDup (0%nat :: fp fs) -> fok o h fs -> fok o (alter (chg o v) (cur fs) h) fs.
Proof.
  destruct fs as [|[[p k] c] fs]; simpl; [done|]. rewrite !NoDup_cons, !elem_of_cons, !elem_of_app. intros (H0 & Hd & _) (Hp & Hk & Hn & Ha & Hl & Hf).
  rewrite kf_chg. split_and!; [done|done| | | |].
  - rewrite fld_chg_ne; [done|right; by destruct o].
  - apply agrees_chg; [tauto|done].
  - rewrite fld_chg_ne; [done|left; intros ->]. destruct (cur_fp fs) as [[? _]|?]; [done|tauto].
  - apply fok_chg; [tauto|by left|done].
Qed.

(** * The loop *)

(** The array holds the frames linked on the near side, the tree and the frames on the far side. *)
Definition held (o : bool) (h : list node) (fs : frames) (t : tree) (gs : frames) : Prop :=
  agrees h t /\ fok o h fs /\ fok (negb o) h gs /\ (0 < length h)%nat /\ NoDup (0%nat :: fp fs ++ addrs t ++ fp gs).

Lemma held_flip o h fs t gs : held o h fs t gs -> held (negb o) h gs t fs.
Proof.
  intros (Ht & Hf & Hg & Hl & Hn). rewrite <- (negb_involutive o) in Hf. split_and!; try done.
  by rewrite (Permutation_app_comm (addrs t)), (Permutation_app_comm (fp gs)), <- app_assoc.
Qed.

Lemma cur_bound o h fs : (0 < length h)%nat -> fok o h fs -> (cur fs < length h)%nat.
Proof. destruct fs as [|[[p k] c] fs]; simpl; [done|]. intros _ (_ & Hk & _). by eapply kf_bound. Qed.

Lemma held_rotate o h fs a q kc b p kt c gs : held o h fs (nd o (nd o a q kc b) p kt c) gs ->
  held o (alter (chg (negb o) p) q (alter (chg o (ptr b)) p h)) fs (nd o a q kc (nd o b p kt c)) gs.
Proof.
  intros (Ht & Hf & Hg & Hl & Hn). assert (p <> 0%nat /\ q <> 0%nat) as [Hp Hq].
  { rewrite !agrees_nd in Ht. tauto. }
  assert (p ∉ fp fs /\ q ∉ fp fs /\ p ∉ fp gs /\ q ∉ fp gs /\ NoDup (addrs (nd o (nd o a q kc b) p kt c))) as (H1 & H2 & H3 & H4 & H5).
  { apply NoDup_cons in Hn as [_ Hn]. rewrite !NoDup_app in Hn. destruct Hn as (_ & Hd & Hn' & He & _).
    assert (p ∈ addrs (nd o (nd o a q kc b) p kt c) /\ q ∈ addrs (nd o (nd o a q kc b) p kt c)) as [Hip Hiq]
      by (rewrite !addrs_nd; set_solver).
    split_and!; [intros Hx; apply (Hd _ Hx); set_solver|intros Hx; apply (Hd _ Hx); set_solver|by apply He|by apply He|done]. }
  split_and!.
  - by apply rotate_agrees.
  - apply fok_chg; [done|by left|]. apply fok_chg; [done|by left|done].
  - apply fok_chg; [done|by left|]. apply fok_chg; [done|by left|done].
  - by rewrite !length_alter.
  - eapply NoDup_Permutation_proper, Hn. rewrite !addrs_nd. rewrite !(Permutation_app_comm _ (fp gs)), !(Permutation_app_comm (fp fs)).
    f_equiv. f_equiv. f_equiv. rewrite <- !Permutation_middle. simpl. solve_Permutation.
Qed.

Lemma held_link o h fs a p k c gs : held o h fs (nd o a p k c) gs -> held o (alter (chg o p) (cur fs) h) ((p, k, c) :: fs) a gs.
Proof.
  intros (Ht & Hf & Hg & Hl & Hn). pose proof (cur_bound o h fs Hl Hf) as Hc.
  assert (NoDup (0%nat :: fp fs) /\ cur fs ∉ addrs a /\ cur fs ∉ addrs c /\ cur fs ∉ fp gs) as (H1 & H2 & H3 & H4).
  { rewrite addrs_nd in Hn. rewrite !NoDup_cons, !NoDup_app, !elem_of_app, !elem_of_cons, !elem_of_app in Hn. destruct Hn as (H0 & Hn1 & Hd & _).
    split; [apply NoDup_cons; tauto|]. destruct (cur_fp fs) as [[-> _]|Hx]; [tauto|]. specialize (Hd _ Hx).
    rewrite !elem_of_app, !elem_of_cons, !elem_of_app in Hd. tauto. }
  apply agrees_nd in Ht as (Hp & Hk & Hfp & Hgp & Ha & Hcc). assert (o <> negb o) by (by destruct o).
  split_and!.
  - by apply agrees_chg.
  - simpl. rewrite kf_chg, fld_chg_ne, fld_chg_eq by auto. split_and!; try done; [by apply agrees_chg|by apply fok_link].
  - apply fok_chg; [done|by right|done].
  - by rewrite length_alter.
  - eapply NoDup_Permutation_proper, Hn. rewrite addrs_nd. simpl. solve_Permutation.
Qed.

(** On the near side of [k]. *)
Definition beyond (o : bool) (k x : Z) : Prop := if o then k < x else x < k.

Definition sorted (E : list (Z * nat)) : Prop := StronglySorted (fun a b => a.1 < b.1) E.

(** All elements, in order. *)
Definition total (o : bool) (fs : frames) (t : tree) (gs : frames) : list (Z * nat) :=
  if o then felems false gs ++ elems t ++ felems true fs else felems false fs ++ elems t ++ felems true gs.

Lemma total_flip o fs t gs : total (negb o) gs t fs = total o fs t gs.
Proof. by destruct o. Qed.

Lemma total_link o fs a p k c gs : total o ((p, k, c) :: fs) a gs = total o fs (nd o a p k c) gs.
Proof. destruct o; simpl; by rewrite <- !app_assoc. Qed.

Lemma elems_rotate o a q kc b p kt c : elems (nd o a q kc (nd o b p kt c)) = elems (nd o (nd o a q kc b) p kt c).
Proof. destruct o; simpl; by rewrite <- !app_assoc. Qed.

Lemma total_rotate o fs a q kc b p kt c gs : total o fs (nd o a q kc (nd o b p kt c)) gs = total o fs (nd o (nd o a q kc b) p kt c) gs.
Proof. unfold total. by rewrite elems_rotate. Qed.

Lemma sorted_app E F : sorted (E ++ F) <-> sorted E /\ sorted F /\ (forall a b, a ∈ E -> b ∈ F -> a.1 < b.1).
Proof.
  induction E as [|e E IH]; simpl.
  - split; [intros H; split_and!; [constructor|done|by intros a b ?%not_elem_of_nil]|by intros (_ & ? & _)].
  - unfold sorted in *. split.
    + inversion 1 as [|? ? HS HF]; subst. apply IH in HS as (H1 & H2 & H3). rewrite Forall_app in HF. destruct HF as [HF1 HF2].
      split_and!; [by constructor|done|]. intros a b [->|Ha]%elem_of_cons Hb; [|by apply H3]. rewrite Forall_forall in HF2. by apply HF2.
    + intros (H1 & H2 & H3). inversion H1 as [|? ? HS HF]; subst. constructor; [apply IH; split_and!; [done|done|set_solver]|].
      rewrite Forall_app. split; [done|]. apply Forall_forall. intros b Hb. apply H3; [set_solver|done].
Qed.

Lemma sorted_node l p k r : sorted (elems (Node l p k r)) -> Forall (fun e => e.1 < k) (elems l) /\ Forall (fun e => k < e.1) (elems r).
Proof.
  simpl. rewrite sorted_app. intros (_ & Hr & Hd). inversion Hr as [|? ? _ HF]; subst. split; [|done].
  apply Forall_forall. intros e He. apply (Hd e (k, p)); [done|set_solver].
Qed.

Lemma sorted_total o fs t gs : sorted (total o fs t gs) -> sorted (elems t).
Proof. unfold total. destruct o; rewrite !sorted_app; tauto. Qed.

(** The root and its far child lie on the near side of [k], if the root does. *)
Lemma far_beyond o k a p kt c : sorted (elems (nd o a p kt c)) -> beyond o k kt ->
  Forall (fun e => beyond o k e.1) (felems o [(p, kt, c)]).
Proof.
  intros Hs Hb. destruct o; simpl in *; apply sorted_node in Hs as [H1 H2]; rewrite ?app_nil_r; rewrite ?Forall_app, ?Forall_cons.
  - split; [done|]. eapply Forall_impl; [exact H2|]. intros e He. simpl in He. lia.
  - split_and!; [|done|done]. eapply Forall_impl; [exact H1|]. intros e He. simpl in He. lia.
Qed.

Lemma felems_cons o x fs : felems o (x :: fs) = if o then felems o [x] ++ felems o fs else felems o fs ++ felems o [x].
Proof. destruct x as [[p k] c], o; simpl; by rewrite ?app_nil_r. Qed.

(** The invariant of the loop that splays at [k] a tree with the elements [E]. *)
Definition inv (k : Z) (E : list (Z * nat)) (o : bool) (h : list node) (fs : frames) (t : tree) (gs : frames) : Prop :=
  held o h fs t gs /\ total o fs t gs = E
  /\ Forall (fun e => beyond o k e.1) (felems o fs) /\ Forall (fun e => beyond (negb o) k e.1) (felems (negb o) gs).

Lemma inv_flip k E o h fs t gs : inv k E o h fs t gs -> inv k E (negb o) h gs t fs.
Proof.
  intros (Hh & Ht & Hf & Hg). split_and!; [by apply held_flip|by rewrite total_flip|done|by rewrite negb_involutive].
Qed.

Lemma inv_rotate k E o h fs a q kc b p kt c gs : inv k E o h fs (nd o (nd o a q kc b) p kt c) gs ->
  inv k E o (alter (chg (negb o) p) q (alter (chg o (ptr b)) p h)) fs (nd o a q kc (nd o b p kt c)) gs.
Proof. intros (Hh & Ht & Hf & Hg). split_and!; [by apply held_rotate|by rewrite total_rotate|done|done]. Qed.

Lemma inv_link k E o h fs a p kt c gs : sorted E -> beyond o k kt -> inv k E o h fs (nd o a p kt c) gs ->
  inv k E o (alter (chg o p) (cur fs) h) ((p, kt, c) :: fs) a gs.
Proof.
  intros HE Hb (Hh & Ht & Hf & Hg). split_and!; [by apply held_link|by rewrite total_link| |done].
  assert (sorted (elems (nd o a p kt c))) as Hs by (eapply sorted_total; by rewrite Ht).
  pose proof (far_beyond o k a p kt c Hs Hb). rewrite felems_cons. destruct o; rewrite Forall_app; tauto.
Qed.

(** Outside the tree and the header nothing changes. *)
Definition frame (E : list (Z * nat)) (h h' : list node) : Prop :=
  length h' = length h /\ forall x, x ∉ 0%nat :: map snd E -> h' !! x = h !! x.

Lemma frame_refl E h : frame E h h.
Proof. done. Qed.

Lemma frame_trans E h1 h2 h3 : frame E h1 h2 -> frame E h2 h3 -> frame E h1 h3.
Proof. intros [L1 F1] [L2 F2]. split; [congruence|]. intros x Hx. by rewrite F2, F1. Qed.

Lemma frame_chg E o q p h : p ∈ 0%nat :: map snd E -> frame E h (alter (chg o q) p h).
Proof. intros Hp. split; [by rewrite length_alter|]. intros x Hx. apply list_lookup_alter_ne. by intros ->. Qed.

Lemma total_in o fs t gs x : x ∈ map snd (total o fs t gs) <-> x ∈ fp fs \/ x ∈ addrs t \/ x ∈ fp gs.
Proof.
  assert (forall o fs, x ∈ map snd (felems o fs) <-> x ∈ fp fs) as Hf by (intros; by rewrite felems_fp).
  unfold total. destruct o; rewrite !map_app, !elem_of_app, elems_addrs, !Hf; tauto.
Qed.

(** How the loop ends. *)
Definition ends (k : Z) (t : tree) (ret : bool) : Prop :=
  exists a p kt c, t = Node a p kt c /\ if ret then kt = k else k < kt /\ a = Leaf \/ kt < k /\ c = Leaf.

Lemma ends_beyond o k p kt c : beyond o k kt -> ends k (nd o Leaf p kt c) false.
Proof. destruct o; simpl; intros H; [exists Leaf, p, kt, c|exists c, p, kt, Leaf]; auto. Qed.

(** * The code *)

Section Code.
Context {V : Type} {L : Layout V}.
Implicit Types s : splay_map V.

Definition get_fld (o : bool) (p : nat) : M (splay_map V) nat := if o then get_node_lc p else get_node_rc p.
Definition set_fld (o : bool) (p q : nat) : M (splay_map V) unit := if o then set_node_lc p q else set_node_rc p q.
Definition nearer (o : bool) (k x : Z) : bool := if o then k <? x else x <? k.

Lemma get_fld_run o p q s (Q : nat -> splay_map V -> Prop) : fld o (k_buff s) p = Some q -> Q q s -> wp (get_fld o p) Q s.
Proof.
  unfold fld. intros Hp HQ. apply fmap_Some in Hp as (n & Hp & ->). unfold get_fld.
  destruct o; unfold get_node_lc, get_node_rc, get_node; wp_step; (eapply wp_reads; [by rewrite Hp|]); by wp_step.
Qed.

Lemma get_key_run p k s (Q : Z -> splay_map V -> Prop) : kf (k_buff s) p = Some k -> Q k s -> wp (get_node_key p) Q s.
Proof.
  unfold kf. intros Hp HQ. apply fmap_Some in Hp as (n & Hp & ->). unfold get_node_key, get_node. wp_step. eapply wp_reads; [by rewrite Hp|]. by wp_step.
Qed.

Lemma set_fld_run o p q s (Q : unit -> splay_map V -> Prop) : (p < length (k_buff s))%nat ->
  Q tt (put_nodes (alter (chg o q) p (k_buff s)) s) -> wp (set_fld o p q) Q s.
Proof.
  intros Hp HQ. destruct (lookup_lt_is_Some_2 _ _ Hp) as [n E]. unfold set_fld.
  destruct o; unfold set_node_lc, set_node_rc, set_node, get_node; wp_step; (eapply wp_reads; [by rewrite E|]); by wp_step.
Qed.

(** One turn of the loop, for both orientations. *)
Definition turn (o : bool) (fuel : nat) (k : Z) (l r t : nat) : M (splay_map V) (nat * nat * nat * bool) :=
  c ← get_fld o t;
  if (c =? 0)%nat then mret (l, r, t, false) else
  ckey ← get_node_key c;
  '(t, stop) ← (if nearer o k ckey then
                  b ← get_fld (negb o) c; set_fld o t b;;
                  set_fld (negb o) c t;;
                  a ← get_fld o c; mret (c, (a =? 0)%nat)
                else mret (t, false));
  if (stop : bool) then mret (l, r, t, false) else
  set_fld o (if o then r else l) t;;
  t' ← get_fld o t;
  splay_loop fuel k (if o then l else t) (if o then t else r) t'.

Lemma splay_loop_unfold fuel k l r t : splay_loop (S fuel) k l r t =
  (tkey ← get_node_key t;
   if k <? tkey then turn true fuel k l r t else if tkey <? k then turn false fuel k l r t else mret (l, r, t, true)).
Proof. reflexivity. Qed.

Definition lc (o : bool) (fs gs : frames) : nat := if o then cur gs else cur fs.
Definition rc (o : bool) (fs gs : frames) : nat := if o then cur fs else cur gs.

Lemma put_nodes_same s : put_nodes (k_buff s) s = s.
Proof. by destruct s. Qed.

Lemma as_nd o t : t <> Leaf -> exists a p k c, t = nd o a p k c.
Proof. destruct t as [|l p k r]; [done|]. intros _. destruct o; [by exists l, p, k, r|by exists r, p, k, l]. Qed.

Lemma nearer_spec o k x : reflect (beyond o k x) (nearer o k x).
Proof. destruct o; apply Z.ltb_spec0. Qed.

Lemma size_nd o a p k c : length (elems (nd o a p k c)) = S (length (elems a) + length (elems c)).
Proof. destruct o; simpl; rewrite length_app; simpl; lia. Qed.

Lemma inv_bounds k E o h fs t gs x : inv k E o h fs t gs -> x ∈ addrs t -> (x < length h)%nat /\ x ∈ 0%nat :: map snd E.
Proof.
  intros ((Ha & _) & <- & _) Hx. split; [by apply (agrees_bound h t x)|]. apply elem_of_cons. right. apply total_in. auto.
Qed.

Lemma inv_cur k E o h fs t gs : inv k E o h fs t gs -> (cur fs < length h)%nat /\ cur fs ∈ 0%nat :: map snd E.
Proof.
  intros ((_ & Hf & _ & Hl & _) & <- & _). split; [by eapply cur_bound|]. destruct (cur_fp fs) as [[-> _]|Hx]; [set_solver|].
  apply elem_of_cons. right. apply total_in. auto.
Qed.

Section Loop.
Context (k : Z) (E : list (Z * nat)) (HE : sorted E).

(** What is left to show behind the loop. *)
Definition exits (o : bool) (s : splay_map V) (Q : nat * nat * nat * bool -> splay_map V -> Prop) : Prop :=
  forall h' fs t gs ret, inv k E o h' fs t gs -> ends k t ret -> frame E (k_buff s) h' ->
    Q (lc o fs gs, rc o fs gs, ptr t, ret) (put_nodes h' s).

Lemma exits_frame o s h Q : frame E (k_buff s) h -> exits o s Q -> exits o (put_nodes h s) Q.
Proof. intros Hf HQ h' fs t gs ret Hi He Hf'. apply (HQ h' fs t gs ret); [done|done|by eapply frame_trans]. Qed.

Definition loops (fuel : nat) (o : bool) : Prop :=
  forall t fs gs s Q, inv k E o (k_buff s) fs t gs -> t <> Leaf -> (length (elems t) <= fuel)%nat -> exits o s Q ->
    wp (splay_loop fuel k (lc o fs gs) (rc o fs gs) (ptr t)) Q s.

Lemma link_run fuel o a p kt c fs gs s Q : loops fuel o -> inv k E o (k_buff s) fs (nd o a p kt c) gs -> beyond o k kt -> a <> Leaf ->
  (length (elems a) <= fuel)%nat -> exits o s Q ->
  wp (set_fld o (cur fs) p;; t' ← get_fld o p; splay_loop fuel k (if o then lc o fs gs else p) (if o then p else rc o fs gs) t') Q s.
Proof.
  intros IH Hi Hb Ha Hs HQ. pose proof (inv_link k E o _ _ _ _ _ _ _ HE Hb Hi) as Hi'. destruct (inv_cur _ _ _ _ _ _ _ Hi) as [Hc1 Hc2].
  destruct (inv_bounds _ _ _ _ _ _ _ p Hi) as [Hp _]; [rewrite addrs_nd; set_solver|].
  wp_step. apply set_fld_run; [done|]. wp_step. apply (get_fld_run _ _ (ptr a)).
  { destruct Hi as ((Ht & _ & _ & _ & Hn) & _). apply agrees_nd in Ht as (_ & _ & Hf & _). simpl. rewrite fld_chg_ne; [done|]. left. intros Ec.
    rewrite addrs_nd in Hn. rewrite !NoDup_cons, !NoDup_app in Hn. destruct Hn as (H0 & _ & Hd & _).
    destruct (cur_fp fs) as [[Ec0 _]|Hx]; [|apply (Hd _ Hx); set_solver]. rewrite Ec0 in Ec. set_solver. }
  assert (wp (splay_loop fuel k (lc o ((p, kt, c) :: fs) gs) (rc o ((p, kt, c) :: fs) gs) (ptr a)) Q (put_nodes (alter (chg o p) (cur fs) (k_buff s)) s)) as H.
  { apply IH; [done|done|done|]. apply exits_frame; [by apply frame_chg|done]. }
  by destruct o.
Qed.

Lemma turn_run fuel o a p kt c fs gs s Q : loops fuel o -> inv k E o (k_buff s) fs (nd o a p kt c) gs -> beyond o k kt ->
  (length (elems (nd o a p kt c)) <= S fuel)%nat -> exits o s Q -> wp (turn o fuel k (lc o fs gs) (rc o fs gs) p) Q s.
Proof.
  intros IH Hi Hb Hs HQ. rewrite size_nd in Hs. unfold turn. wp_step. pose proof Hi as ((Ht & _) & _). apply agrees_nd in Ht as (Hp & Hk & Hf & Hg & Ha & Hc).
  assert ((if o then rc o fs gs else lc o fs gs) = cur fs) as Ecur by (by destruct o).
  apply (get_fld_run _ _ _ _ _ Hf). destruct (decide (a = Leaf)) as [->|Hne].
  { cbn [ptr Nat.eqb]. wp_step. rewrite <- (put_nodes_same s), <- (ptr_nd o Leaf p kt c). apply HQ; [done|by apply ends_beyond|apply frame_refl]. }
  destruct (as_nd o a Hne) as (a1 & q & kc & a2 & ->). rewrite ptr_nd in Hf |- *. apply agrees_nd in Ha as (Hq & Hkq & Hfq & Hgq & Ha1 & Ha2).
  destruct (Nat.eqb_spec q 0); [done|]. wp_step. apply (get_key_run _ _ _ _ Hkq). wp_step. rewrite size_nd in Hs.
  destruct (nearer_spec o k kc) as [Hb'|_].
  - assert (p ∈ addrs (nd o (nd o a1 q kc a2) p kt c) /\ q ∈ addrs (nd o (nd o a1 q kc a2) p kt c)) as [Hip Hiq] by (rewrite !addrs_nd; set_solver).
    destruct (inv_bounds _ _ _ _ _ _ _ p Hi Hip) as [Hp1 Hp2]. destruct (inv_bounds _ _ _ _ _ _ _ q Hi Hiq) as [Hq1 Hq2].
    wp_step. apply (get_fld_run _ _ _ _ _ Hgq). wp_step. apply set_fld_run; [done|]. wp_step. apply set_fld_run; [by simpl; rewrite length_alter|].
    pose proof (inv_rotate _ _ _ _ _ _ _ _ _ _ _ _ _ Hi) as Hi1. pose proof Hi1 as ((Ht1 & _) & _). apply agrees_nd in Ht1 as (_ & _ & Hf1 & _).
    wp_step. eapply get_fld_run; [exact Hf1|]. wp_step.
    set (s1 := put_nodes _ (put_nodes _ s)).
    assert (exits o s1 Q) as HQ1.
    { apply (exits_frame o (put_nodes (alter (chg o (ptr a2)) p (k_buff s)) s)); [by apply frame_chg|]. apply exits_frame; [by apply frame_chg|done]. }
    destruct (decide (a1 = Leaf)) as [->|Hne1].
    + cbn [ptr Nat.eqb]. wp_step. rewrite <- (put_nodes_same s1), <- (ptr_nd o Leaf q kc (nd o a2 p kt c)). apply HQ1; [done|by apply ends_beyond|apply frame_refl].
    + destruct (Nat.eqb_spec (ptr a1) 0) as [E0|_]; [apply (agrees_ptr _ _ Ha1) in E0; done|]. rewrite Ecur.
      apply (link_run fuel o a1 q kc (nd o a2 p kt c)); [done|done|done|done|lia|done].
  - wp_step. rewrite Ecur. apply (link_run fuel o (nd o a1 q kc a2) p kt c); [done|done|done|done|rewrite size_nd; lia|done].
Qed.

Lemma loop_run fuel : forall o, loops fuel o.
Proof.
  induction fuel as [|fuel IH]; intros o t fs gs s Q Hi Hne Hs HQ; [destruct t; [done|simpl in Hs; rewrite length_app in Hs; simpl in Hs; lia]|].
  destruct t as [|a p kt c]; [done|]. rewrite splay_loop_unfold. wp_step. pose proof Hi as ((Ht & _) & _). destruct Ht as (Hp & Hk & _).
  apply (get_key_run _ _ _ _ Hk). cbn [ptr].
  assert (forall o', beyond o' k kt -> wp (turn o' fuel k (lc o fs gs) (rc o fs gs) p) Q s) as Hturn.
  { intros o' Hb. assert (exists a' c', Node a p kt c = nd o' a' p kt c') as (a' & c' & Ent) by (destruct o'; [by exists a, c|by exists c, a]). rewrite Ent in *.
    destruct (decide (o' = o)) as [->|Hno]; [by apply (turn_run fuel o a' p kt c')|].
    assert (o' = negb o) as -> by (by destruct o, o').
    replace (lc o fs gs) with (lc (negb o) gs fs) by (by destruct o). replace (rc o fs gs) with (rc (negb o) gs fs) by (by destruct o).
    apply (turn_run fuel (negb o) a' p kt c'); [done|by apply inv_flip|done|done|].
    intros h' fs' t' gs' ret Hi' He Hf. apply inv_flip in Hi'. rewrite negb_involutive in Hi'. pose proof (HQ _ _ _ _ _ Hi' He Hf) as H. by destruct o. }
  destruct (Z.ltb_spec k kt); [by apply (Hturn true)|]. destruct (Z.ltb_spec kt k); [by apply (Hturn false)|].
  wp_step. rewrite <- (put_nodes_same s). apply (HQ _ fs (Node a p kt c) gs true); [done| |apply frame_refl]. exists a, p, kt, c. split; [done|lia].
Qed.
End Loop.

(** What splaying at [k] makes of a tree: the root has the key, or separates the smaller keys from
    the larger ones. *)
Definition splayed (k : Z) (t : tree) (ret : bool) : Prop :=
  match t with
  | Leaf => ret = false
  | Node a _ kt b => if ret then kt = k else kt <> k /\ (k < kt -> Forall (fun e => e.1 < k) (elems a)) /\ (kt < k -> Forall (fun e => k < e.1) (elems b))
  end.

(** The last lines of [splay]. *)
Definition assemble (l r t : nat) (ret : bool) : M (splay_map V) (bool * nat) :=
  a ← get_fld true t; set_fld false l a;;
  b ← get_fld false t; set_fld true r b;;
  a ← get_fld false 0; set_fld true t a;;
  b ← get_fld true 0; set_fld false t b;;
  set_fld true 0 0;;
  set_fld false 0 0;;
  mret (ret, t).

Lemma total_nodup k E h fs t gs : inv k E true h fs t gs -> NoDup (0%nat :: map snd E).
Proof.
  intros ((_ & _ & _ & _ & Hn) & <- & _). eapply NoDup_Permutation_proper, Hn. f_equiv. unfold total.
  rewrite !map_app, elems_addrs, !felems_fp. solve_Permutation.
Qed.

Lemma assemble_run k E a p kt c fs gs s ret (Q : bool * nat -> splay_map V -> Prop) :
  inv k E true (k_buff s) fs (Node a p kt c) gs -> ends k (Node a p kt c) ret ->
  (forall h' T, agrees h' T -> elems T = E -> frame E (k_buff s) h' -> splayed k T ret -> Q (ret, ptr T) (put_nodes h' s)) ->
  wp (assemble (cur gs) (cur fs) p ret) Q s.
Proof.
  intros Hi He HQ. pose proof (total_nodup _ _ _ _ _ _ Hi) as HnE. destruct (inv_cur _ _ _ _ _ _ _ Hi) as [Hc1 Hc2].
  destruct (inv_cur _ _ _ _ _ _ _ (inv_flip _ _ _ _ _ _ _ Hi)) as [Hd1 Hd2].
  destruct (inv_bounds _ _ _ _ _ _ _ p Hi) as [Hp1 Hp2]; [simpl; set_solver|].
  destruct Hi as (((Hp & Hk & Hl & Hr & Ha & Hc) & Hf & Hg & Hlen & Hn) & HE & Hbf & Hbg). cbn [negb] in *.
  set (A := plug false gs a). set (B := plug true fs c).
  assert (elems (Node A p kt B) = E) as EE by (unfold A, B; simpl; rewrite !plug_elems, <- HE; unfold total; simpl; by rewrite <- !app_assoc).
  assert (p ∉ addrs A /\ p ∉ addrs B /\ 0%nat ∉ addrs A /\ 0%nat ∉ addrs B) as (HpA & HpB & H0A & H0B).
  { rewrite <- EE, elems_addrs in HnE. cbn [addrs] in HnE. rewrite NoDup_cons, elem_of_app, elem_of_cons, NoDup_app, NoDup_cons in HnE.
    destruct HnE as (H0 & _ & Hd & HpB & _). split_and!; [|done|tauto|tauto]. intros Hx. apply (Hd _ Hx). apply elem_of_cons. by left. }
  assert (NoDup (0%nat :: fp fs) /\ NoDup (0%nat :: fp gs) /\ cur fs <> p /\ cur gs <> p /\ (cur gs ∉ fp fs) /\ (cur fs ∉ fp gs)
    /\ cur gs ∉ addrs a /\ cur gs ∉ addrs c /\ cur fs ∉ addrs a /\ cur fs ∉ addrs c) as (N1 & N2 & N3 & N4 & N5 & N6 & N7 & N8 & N9 & N10).
  { assert (forall x, x ∈ addrs a \/ x = p \/ x ∈ addrs c -> x ∈ addrs (Node a p kt c)) as Hsub
      by (intros x Hx; cbn [addrs]; rewrite elem_of_app, elem_of_cons; tauto).
    destruct (cur_apart _ _ _ Hn) as (M1 & M2 & M3).
    assert (NoDup (0%nat :: fp gs ++ addrs (Node a p kt c) ++ fp fs)) as Hn'.
    { eapply NoDup_Permutation_proper, Hn. solve_Permutation. }
    destruct (cur_apart _ _ _ Hn') as (M4 & M5 & M6).
    split_and!; try done; intros Hx; first [apply M2, Hsub; tauto|apply M5, Hsub; tauto]. }
  unfold assemble.
  wp_step. eapply get_fld_run; [exact Hl|]. wp_step. apply set_fld_run; [done|].
  set (h1 := alter (chg false (ptr a)) (cur gs) (k_buff s)).
  wp_step. eapply get_fld_run; [unfold h1; simpl; rewrite fld_chg_ne by (by left); exact Hr|].
  wp_step. apply set_fld_run; [simpl; unfold h1; by rewrite length_alter|]. cbn [k_buff put_nodes].
  set (h2 := alter (chg true (ptr c)) (cur fs) h1).
  assert (fok true h2 fs /\ fok false h2 gs /\ agrees h2 a /\ agrees h2 c) as (F1 & F2 & A1 & A2).
  { unfold h2, h1. split_and!.
    - apply fok_link; [done|]. apply fok_chg; [done|by right|done].
    - apply fok_chg; [done|by right|]. by apply fok_link.
    - apply agrees_chg; [done|]. by apply agrees_chg.
    - apply agrees_chg; [done|]. by apply agrees_chg. }
  destruct (plug_agrees false h2 gs a F2 A1) as [PA HA].
  { unfold h2. rewrite fld_chg_ne by (by right). unfold h1. by apply fld_chg_eq. }
  destruct (plug_agrees true h2 fs c F1 A2) as [PB HB].
  { unfold h2. apply fld_chg_eq. unfold h1. by rewrite length_alter. }
  fold A in PA, HA. fold B in PB, HB.
  assert (length h2 = length (k_buff s)) as L2 by (unfold h2, h1; by rewrite !length_alter).
  wp_step. eapply get_fld_run; [exact HA|]. wp_step. apply set_fld_run; [simpl; by rewrite L2|]. cbn [k_buff put_nodes].
  wp_step. eapply get_fld_run; [cbn [k_buff put_nodes]; rewrite fld_chg_ne by (by left); exact HB|].
  wp_step. apply set_fld_run; [simpl; by rewrite length_alter, L2|]. cbn [k_buff put_nodes].
  wp_step. apply set_fld_run; [simpl; by rewrite !length_alter, L2|]. cbn [k_buff put_nodes].
  wp_step. apply set_fld_run; [simpl; by rewrite !length_alter, L2|]. cbn [k_buff put_nodes]. wp_step.
  apply (HQ _ (Node A p kt B)).
  - cbn [agrees]. rewrite !kf_chg. split_and!; [done|unfold h2, h1; by rewrite !kf_chg| | | |].
    + rewrite !fld_chg_ne by auto. apply fld_chg_eq. by rewrite L2.
    + rewrite !(fld_chg_ne _ _ _ 0) by auto. apply fld_chg_eq. by rewrite length_alter, L2.
    + do 4 (apply agrees_chg; [done|]). done.
    + do 4 (apply agrees_chg; [done|]). done.
  - done.
  - assert (0%nat ∈ 0%nat :: map snd E) by (apply elem_of_cons; by left).
    unfold h2, h1. repeat (eapply frame_trans; [|by apply frame_chg]). apply frame_refl.
  - destruct He as (a' & p' & kt' & c' & [= <- <- <- <-] & Hret). cbn [splayed]. destruct ret; [done|]. unfold A, B.
    rewrite !plug_elems, !Forall_app. cbn [beyond] in *. destruct Hret as [[? ->]|[? ->]]; (split; [lia|split; intros ?; [|]; try lia]); split; try done; by constructor.
Qed.

Lemma splay_run k T s (Q : bool * nat -> splay_map V -> Prop) :
  agrees (k_buff s) T -> NoDup (0%nat :: addrs T) -> sorted (elems T) -> (length (elems T) < length (k_buff s))%nat ->
  (forall h' T' ret, agrees h' T' -> elems T' = elems T -> frame (elems T) (k_buff s) h' -> splayed k T' ret -> Q (ret, ptr T') (put_nodes h' s)) ->
  wp (splay k (ptr T)) Q s.
Proof.
  intros HT Hn HE Hlen HQ. unfold splay. destruct T as [|a p kt c].
  - cbn [ptr Nat.eqb]. wp_step. rewrite <- (put_nodes_same s). by apply (HQ _ Leaf).
  - cbn [ptr]. destruct (Nat.eqb_spec p 0) as [->|_]; [by destruct HT|]. wp_step. wp_step. wp_step.
    apply (loop_run k (elems (Node a p kt c)) HE (length (k_buff s)) true (Node a p kt c) [] []); [|done|lia|].
    + split_and!; [split_and!; try done; [lia|by rewrite app_nil_r]|unfold total; simpl; by rewrite app_nil_r|by constructor..].
    + intros h' fs t gs ret Hi He Hf. destruct He as (a' & p' & kt' & c' & -> & Hret). cbn [ptr lc rc].
      change (wp (assemble (cur gs) (cur fs) p' ret) Q (put_nodes h' s)).
      apply (assemble_run k (elems (Node a p kt c)) a' p' kt' c' fs gs); [done|by exists a', p', kt', c'|].
      intros h'' T' HT' ET' Hf' Hs. apply (HQ h'' T' ret); [done|done|by eapply frame_trans|done].
Qed.

End Code.
End SplayTree.
