(* ===== verification/SplayFacts.v ===== *)
(** The operations of the splay map.

    [shape] is the invariant of the state: the node array holds a search tree and the chain of
    removed nodes, of the nodes that were ever used.  [holds] abstracts it to the index of each
    key, which is what a client that keeps indices or references relies on, and [represents] to
    the bindings of keys to values.  Each operation has a lemma on both levels. *)
From S2P Require Import Prelude Machine SplayMap SplayTree.
From Stdlib Require Import Sorted.

Module SplayFacts.
Import SplayMap SplayTree.

Section Code.
Context {V : Type} {L : Layout V}.
Implicit Types s : splay_map V.

(** * The invariant *)

(** Removed nodes, chained through their left links. *)
Fixpoint free_chain (h : list node) (q : nat) (fl : list nat) : Prop :=
  match fl with
  | [] => q = 0%nat
  | p :: fl => q = p /\ p <> 0%nat /\ exists q', fld true h p = Some q' /\ free_chain h q' fl
  end.

Lemma free_chain_ext h h' fl : forall q, (forall x, x ∈ fl -> h' !! x = h !! x) -> free_chain h q fl -> free_chain h' q fl.
Proof.
  induction fl as [|p fl IH]; simpl; [done|]. intros q Hx (-> & Hp & q' & Hf & Hc). split_and!; [done|done|]. exists q'.
  unfold fld in *. rewrite Hx by set_solver. split; [done|]. apply IH; [|done]. intros x Hin. apply Hx. set_solver.
Qed.

(** The array holds the tree [T] and the free nodes [fl], of [hw] nodes that were ever used. *)
Definition shape (s : splay_map V) (i : tree_info) (T : tree) (fl : list nat) (hw : nat) : Prop :=
  t_info s = Some i /\ root_ptr i = ptr T /\ agrees (k_buff s) T /\ free_chain (k_buff s) (free_ptr i) fl
  /\ addrs T ++ fl ≡ₚ seq 1 hw /\ (0 < b_size i < 2 ^ 32) /\ Z.of_nat hw < b_size i
  /\ b_size i <= Z.of_nat (length (k_buff s)) /\ b_size i <= Z.of_nat (length (v_buff s))
  /\ t_size i = Z.of_nat (length (elems T)) /\ sorted (elems T).

(** The index of each key. *)
Definition indexed (T : tree) (im : gmap Z nat) : Prop := forall k p, im !! k = Some p <-> (k, p) ∈ elems T.

Definition holds (s : splay_map V) (im : gmap Z nat) : Prop := exists i T fl hw, shape s i T fl hw /\ indexed T im.

(** The bindings of keys to values. *)
Definition values (vs : list V) (im : gmap Z nat) : gmap Z V := omap (fun p => vs !! p) im.

Lemma lookup_values vs im k : values vs im !! k = im !! k ≫= (fun p => vs !! p).
Proof. apply lookup_omap. Qed.

Definition represents (s : splay_map V) (m : gmap Z V) : Prop := exists im, holds s im /\ m = values (v_buff s) im.

Lemma shape_nodup s i T fl hw : shape s i T fl hw -> NoDup (addrs T ++ fl) /\ 0%nat ∉ addrs T ++ fl.
Proof.
  intros (_ & _ & _ & _ & Hp & _). rewrite Hp. split; [apply NoDup_seq|]. rewrite elem_of_seq. lia.
Qed.

Lemma shape_in s i T fl hw x : shape s i T fl hw -> x ∈ addrs T \/ x ∈ fl -> (0 < x <= hw)%nat.
Proof. intros (_ & _ & _ & _ & Hp & _). rewrite <- elem_of_app, Hp, elem_of_seq. lia. Qed.

Lemma shape_size s i T fl hw : shape s i T fl hw -> (length (elems T) + length fl = hw)%nat.
Proof.
  intros (_ & _ & _ & _ & Hp & _). apply Permutation_length in Hp. rewrite length_app, length_seq in Hp.
  by rewrite <- elems_addrs, length_map in Hp.
Qed.

Definition with_root (p : nat) (i : tree_info) : tree_info := MkInfo p (free_ptr i) (b_size i) (t_size i).

(** Another tree on the same nodes. *)
Lemma shape_splay s i T fl hw h' T' : shape s i T fl hw -> agrees h' T' -> elems T' = elems T -> frame (elems T) (k_buff s) h' ->
  shape (put_info (with_root (ptr T') i) (put_nodes h' s)) (with_root (ptr T') i) T' fl hw.
Proof.
  intros Hs Ha He [Hl Hf]. pose proof (shape_nodup _ _ _ _ _ Hs) as [Hn H0]. destruct Hs as (Hi & Hr & Ht & Hc & Hp & Hb & Hw & Hk & Hv & Hz & Ho).
  assert (addrs T' = addrs T) as EA by (by rewrite <- !elems_addrs, He). split_and!; simpl; rewrite ?EA, ?Hl, ?He; try done; try lia.
  eapply free_chain_ext, Hc. intros x Hx. apply Hf. rewrite elem_of_cons, elems_addrs. rewrite NoDup_app in Hn.
  intros [->|Hin]; [apply H0; by apply elem_of_app; right|]. by apply (proj1 (proj2 Hn) x Hin).
Qed.

Lemma get_info_run s i (Q : tree_info -> splay_map V -> Prop) : t_info s = Some i -> Q i s -> wp get_info Q s.
Proof. intros E HQ. unfold get_info. eapply wp_reads; [by rewrite E|done]. Qed.

Lemma put_root_run s i p (Q : unit -> splay_map V -> Prop) : t_info s = Some i -> Q tt (put_info (with_root p i) s) -> wp (put_root p) Q s.
Proof. intros E HQ. unfold put_root. wp_step. eapply get_info_run; [done|]. by wp_step. Qed.

Lemma shape_splay_run k s i T fl hw (Q : bool * nat -> splay_map V -> Prop) : shape s i T fl hw ->
  (forall h' T' ret, agrees h' T' -> elems T' = elems T -> frame (elems T) (k_buff s) h' -> splayed k T' ret -> Q (ret, ptr T') (put_nodes h' s)) ->
  wp (splay k (ptr T)) Q s.
Proof.
  intros Hs HQ. pose proof (shape_nodup _ _ _ _ _ Hs) as [Hn H0]. pose proof (shape_size _ _ _ _ _ Hs) as Hz.
  destruct Hs as (Hi & Hr & Ht & Hc & Hp & Hb & Hw & Hk & Hv & Ho). apply splay_run; [done| |apply Ho|lia|done].
  apply NoDup_cons. rewrite NoDup_app, elem_of_app in *. tauto.
Qed.

(** Splaying the map. *)
Lemma splay_root_run k s i T fl hw (Q : bool -> splay_map V -> Prop) : shape s i T fl hw ->
  (forall h' T' ret, let s' := put_info (with_root (ptr T') i) (put_nodes h' s) in
     shape s' (with_root (ptr T') i) T' fl hw -> elems T' = elems T -> splayed k T' ret -> Q ret s') ->
  wp (splay_root k) Q s.
Proof.
  intros Hs HQ. unfold splay_root. wp_step. pose proof Hs as (Hi & Hr & _). eapply get_info_run; [done|]. wp_step. rewrite Hr.
  eapply shape_splay_run; [done|]. intros h' T' ret Ha He Hf Hsp. wp_step. apply (put_root_run _ i); [done|]. wp_step.
  apply (HQ h' T' ret); [by eapply shape_splay|done|done].
Qed.

Lemma indexed_elems T T' im : elems T' = elems T -> indexed T im -> indexed T' im.
Proof. unfold indexed. by intros ->. Qed.

Lemma indexed_none T im k : indexed T im -> (forall p, (k, p) ∉ elems T) -> im !! k = None.
Proof. intros Hx Hk. destruct (im !! k) as [p|] eqn:E; [|done]. apply Hx in E. by apply Hk in E. Qed.

(** The search succeeds exactly on the keys of the tree. *)
Lemma splayed_found k T ret : sorted (elems T) -> splayed k T ret ->
  if ret then (k, ptr T) ∈ elems T else forall p, (k, p) ∉ elems T.
Proof.
  destruct T as [|a p kt b]; intros Hs Hsp; [simpl in Hsp; subst; by intros p ?%not_elem_of_nil|]. pose proof (sorted_node _ _ _ _ Hs) as [Ha Hb].
  cbn [splayed elems ptr] in *. destruct ret; [subst; set_solver|]. destruct Hsp as (Hne & Hl & Hr). rewrite Forall_forall in Ha, Hb.
  intros q. rewrite elem_of_app, elem_of_cons. intros [Hin|[[= ? _]|Hin]]; [|done|].
  - specialize (Ha _ Hin). simpl in Ha. specialize (Hl ltac:(lia)). rewrite Forall_forall in Hl. specialize (Hl _ Hin). simpl in Hl. lia.
  - specialize (Hb _ Hin). simpl in Hb. specialize (Hr ltac:(lia)). rewrite Forall_forall in Hr. specialize (Hr _ Hin). simpl in Hr. lia.
Qed.

Lemma elems_in_addrs T k p : (k, p) ∈ elems T -> p ∈ addrs T.
Proof. rewrite <- elems_addrs. intros H. apply (list_elem_of_fmap_2 snd) in H. done. Qed.

Lemma sorted_key_inj E k p q : sorted E -> (k, p) ∈ E -> (k, q) ∈ E -> p = q.
Proof.
  induction 1 as [|e E HS IH HF]; [by intros ?%not_elem_of_nil|]. rewrite Forall_forall in HF. rewrite !elem_of_cons.
  intros [Hp|Hp] [Hq|Hq]; [congruence| | |by apply IH]; [apply HF in Hq; subst e|apply HF in Hp; subst e]; simpl in *; lia.
Qed.

Lemma get_val_run s p v (Q : V -> splay_map V -> Prop) : v_buff s !! p = Some v -> Q v s -> wp (get_val p) Q s.
Proof. intros E HQ. unfold get_val. eapply wp_reads; [by rewrite E|done]. Qed.

Lemma shape_val s i T fl hw k p : shape s i T fl hw -> (k, p) ∈ elems T -> exists v, v_buff s !! p = Some v.
Proof.
  intros Hs Hin. pose proof (shape_in _ _ _ _ _ p Hs (or_introl (elems_in_addrs _ _ _ Hin))).
  destruct Hs as (_ & _ & _ & _ & _ & _ & Hw & _ & Hv & _). apply lookup_lt_is_Some. lia.
Qed.

(** Operations that ask for no memory. *)
Definition kept (s s' : splay_map V) : Prop :=
  i_size s' = i_size s /\ answers s' = answers s /\ b_size <$> t_info s' = b_size <$> t_info s.

Lemma kept_info s s' i : t_info s = Some i -> i_size s' = i_size s -> answers s' = answers s ->
  b_size <$> t_info s' = Some (b_size i) -> kept s s'.
Proof. intros E ? ? ?. split_and!; [done|done|]. by rewrite E. Qed.

Lemma elems_ptr_inj T k k' p : NoDup (addrs T) -> (k, p) ∈ elems T -> (k', p) ∈ elems T -> k = k'.
Proof.
  rewrite <- elems_addrs. induction (elems T) as [|[k1 p1] l IH]; [by intros _ ?%not_elem_of_nil|]. simpl. rewrite NoDup_cons, !elem_of_cons.
  intros [Hn Hd] [H1|H1] [H2|H2]; simplify_eq; [done| | |by apply IH]; exfalso; apply Hn.
  - by apply (list_elem_of_fmap_2 snd) in H2.
  - by apply (list_elem_of_fmap_2 snd) in H1.
Qed.

(** The root has the index [p]. *)
Definition rooted (s : splay_map V) (p : nat) : Prop := root_ptr <$> t_info s = Some p.

Lemma holds_index s im k p : holds s im -> im !! k = Some p -> p <> 0%nat /\ exists v, v_buff s !! p = Some v.
Proof.
  intros (i & T & fl & hw & Hs & Hx) Hp. apply Hx in Hp. split; [|by eapply shape_val].
  pose proof (shape_in _ _ _ _ _ _ Hs (or_introl (elems_in_addrs _ _ _ Hp))). lia.
Qed.

(** No two keys share a node. *)
Lemma holds_inj s im k k' p : holds s im -> im !! k = Some p -> im !! k' = Some p -> k = k'.
Proof.
  intros (i & T & fl & hw & Hs & Hx) Hk Hk'. apply Hx in Hk, Hk'. pose proof (shape_nodup _ _ _ _ _ Hs) as [Hn _]. apply NoDup_app in Hn as (Hn & _).
  by eapply elems_ptr_inj.
Qed.

(** Values may change in place. *)
Lemma holds_vals s im vs : holds s im -> length vs = length (v_buff s) -> holds (put_vals vs s) im.
Proof.
  intros (i & T & fl & hw & Hs & Hx) Hl. exists i, T, fl, hw. split; [|done]. clear - Hs Hl.
  destruct Hs as (? & ? & ? & ? & ? & ? & ? & ? & ? & ? & ?). split_and!; try done; cbn; lia.
Qed.

(** Looking a key up. *)
Lemma exist_run k s im : holds s im ->
  wp (exist k) (fun b s' => b = bool_decide (is_Some (im !! k)) /\ holds s' im /\ kept s s' /\ v_buff s' = v_buff s /\ last_ptr s' = default 0%nat (im !! k)
    /\ forall p, im !! k = Some p -> rooted s' p) s.
Proof.
  intros (i & T & fl & hw & Hs & Hx). unfold exist, inter_find. wp_step. wp_step.
  eapply splay_root_run; [done|]. intros h' T' ret s' Hs' He Hsp. assert (indexed T' im) as Hx' by (by eapply indexed_elems).
  assert (holds s' im) as Hh by (by exists (with_root (ptr T') i), T', fl, hw).
  assert (sorted (elems T')) as Ho by apply Hs'. pose proof (splayed_found _ _ _ Ho Hsp) as Hf. destruct ret.
  - wp_step. eapply get_info_run; [done|]. wp_step. wp_step. wp_step. wp_step. cbn [root_ptr with_root]. apply Hx' in Hf.
    destruct (holds_index _ _ _ _ Hh Hf) as [Hne _]. destruct (Nat.eqb_spec (ptr T') 0); [done|]. rewrite Hf. split_and!; try done. 
    apply kept_info with i; [apply Hs|done..].
  - wp_step. wp_step. wp_step. cbn [Nat.eqb negb]. rewrite (indexed_none _ _ _ Hx' Hf). split_and!; try done. apply kept_info with i; [apply Hs|done..].
Qed.

Lemma find_run s v (Q : V -> splay_map V -> Prop) : v_buff s !! last_ptr s = Some v -> Q v s -> wp find Q s.
Proof. intros Hv HQ. unfold find. wp_step. wp_step. by eapply get_val_run. Qed.

Lemma current_root_run s p (Q : nat -> splay_map V -> Prop) : rooted s p -> Q p s -> wp current_root Q s.
Proof. unfold rooted. intros Hr HQ. destruct (t_info s) as [i|] eqn:E; [|done]. injection Hr as <-. unfold current_root. wp_step. eapply get_info_run; [done|]. by wp_step. Qed.

(** * Growing *)

(** The sizes of the buffers fit in 32 bits after [n] more growths. *)
Definition spacious (s : splay_map V) (n : Z) : Prop :=
  0 < i_size s /\ 0 <= sizeof_node /\ 0 <= sizeof_val
  /\ forall i, t_info s = Some i -> b_size i + n * i_size s < 2 ^ 32
       /\ sizeof_tree_info + (b_size i + n * i_size s) * sizeof_node < 2 ^ 32 /\ (b_size i + n * i_size s) * sizeof_val < 2 ^ 32.

Lemma os_realloc_run s (Q : bool -> splay_map V -> Prop) :
  Q (default true (head (answers s))) (MkMap (t_info s) (k_buff s) (v_buff s) (last_ptr s) (i_size s) (tail (answers s))) -> wp os_realloc Q s.
Proof.
  intros HQ. unfold os_realloc. wp_step. wp_step. destruct s as [ti kb vb lp isz [|a l]]; simpl in *; [by wp_step|].
  wp_step. wp_step. by wp_step.
Qed.

Lemma within_run a b s (Q : unit -> splay_map V -> Prop) : b <= a -> Q tt s -> wp (within_bytes a b) Q s.
Proof. intros H HQ. unfold within_bytes. destruct (Z.leb_spec b a); [done|lia]. Qed.

Definition with_b_size (b : Z) (i : tree_info) : tree_info := MkInfo (root_ptr i) (free_ptr i) b (t_size i).

(** Moved to larger arrays, the nodes that are in use stay the same. *)
Lemma shape_moved s s' i i' T fl hw : shape s i T fl hw -> (forall x, (x <= hw)%nat -> k_buff s' !! x = k_buff s !! x) ->
  t_info s' = Some i' -> root_ptr i' = root_ptr i -> free_ptr i' = free_ptr i -> t_size i' = t_size i -> b_size i <= b_size i' < 2 ^ 32 ->
  b_size i' <= Z.of_nat (length (k_buff s')) -> b_size i' <= Z.of_nat (length (v_buff s')) -> shape s' i' T fl hw.
Proof.
  intros Hs Hx Hi Hr Hf Ht Hb Hk Hv. pose proof (fun x => shape_in _ _ _ _ _ x Hs) as Hin. destruct Hs as (Hi0 & Hr0 & Ha & Hc & Hp & Hb0 & Hw & Hk0 & Hv0 & Hz & Ho).
  split_and!; try done; rewrite ?Hr, ?Hf, ?Ht; try done; try lia.
  - eapply agrees_ext, Ha. intros x Hx'. apply Hx. specialize (Hin x (or_introl Hx')). lia.
  - eapply free_chain_ext, Hc. intros x Hx'. apply Hx. specialize (Hin x (or_intror Hx')). lia.
Qed.

Lemma key_bytes_small n : 0 <= n < 2 ^ 32 -> 0 <= sizeof_node -> sizeof_tree_info + n * sizeof_node < 2 ^ 32 ->
  key_bytes n = sizeof_tree_info + n * sizeof_node.
Proof. intros Hn Hs H. unfold key_bytes. rewrite (wrap_small _ n) by lia. apply wrap_small. unfold sizeof_tree_info in *. nia. Qed.

Lemma val_bytes_small n : 0 <= n < 2 ^ 32 -> 0 <= sizeof_val -> n * sizeof_val < 2 ^ 32 -> val_bytes n = n * sizeof_val.
Proof. intros Hn Hs H. unfold val_bytes. rewrite (wrap_small _ n) by lia. apply wrap_small. nia. Qed.

(** Whether the next two requests are granted. *)
Definition granted (s : splay_map V) : bool := default true (head (answers s)) && default true (head (tail (answers s))).

(** Growing keeps the map; where memory is missing, the sizes stay. *)
Lemma larger_run s i T fl hw : shape s i T fl hw -> spacious s 1 ->
  wp (reallocate_memory false) (fun ok s' => i_size s' = i_size s /\ ok = granted s /\ (answers s = [] -> answers s' = [])
    /\ (forall x, (x <= hw)%nat -> v_buff s' !! x = v_buff s !! x)
    /\ shape s' (if ok then with_b_size (b_size i + i_size s) i else i) T fl hw) s.
Proof.
  intros Hs (His & Hsn & Hsv & Hsp). pose proof Hs as (Hi & _ & _ & _ & _ & Hb & Hw & Hk & Hv & _). specialize (Hsp i Hi) as (Hsp1 & Hsp2 & Hsp3).
  rewrite Z.mul_1_l in *. unfold reallocate_memory. wp_step. wp_step. wp_step. eapply get_info_run; [done|]. wp_step. apply os_realloc_run. unfold granted. destruct (default true (head (answers s))); cbn [negb andb].
  2: { wp_step. cbn. split_and!; try done. by intros ->. }
  wp_step. apply within_run; [rewrite key_bytes_small by lia; lia|]. wp_step. wp_step. wp_step. apply os_realloc_run.
  assert (forall x, (x <= hw)%nat -> (take (Z.to_nat (b_size i)) (k_buff s) ++ replicate (Z.to_nat (i_size s)) (MkNode 0 0 0)) !! x = k_buff s !! x) as Hkx.
  { intros x Hx. rewrite lookup_app_l by (rewrite length_take; lia). by rewrite lookup_take_lt by lia. }
  assert (Z.of_nat (length (take (Z.to_nat (b_size i)) (k_buff s) ++ replicate (Z.to_nat (i_size s)) (MkNode 0 0 0))) = b_size i + i_size s) as Hkl.
  { rewrite length_app, length_take, length_replicate. lia. }
  cbn [answers put_nodes]. destruct (default true (head (tail (answers s)))); cbn [negb].
  2: { wp_step. cbn. split_and!; try done; [by intros ->|]. eapply (shape_moved s); try done; cbn [k_buff]; lia. }
  wp_step. apply within_run; [rewrite val_bytes_small by lia; lia|]. wp_step. wp_step. wp_step.
  assert (forall x, (x <= hw)%nat -> (take (Z.to_nat (b_size i)) (v_buff s) ++ replicate (Z.to_nat (i_size s)) zero_val) !! x = v_buff s !! x) as Hvx.
  { intros x Hx. rewrite lookup_app_l by (rewrite length_take; lia). by rewrite lookup_take_lt by lia. }
  split_and!; try done; [by cbn; intros ->|]. eapply (shape_moved s); try done; cbn [k_buff v_buff put_info put_vals put_nodes b_size with_b_size]; try done; try lia.
  - cbn. by rewrite wrap_small by lia.
  - rewrite length_app, length_take, length_replicate. lia.
Qed.

(** * Insertion *)

(** A node with the near link [x] and the far link [y]. *)
Definition mk (o : bool) (k : Z) (x y : nat) : node := if o then MkNode k x y else MkNode k y x.

Lemma kf_insert h n e p : (n < length h)%nat -> kf (<[n := e]> h) p = if decide (n = p) then Some (key e) else kf h p.
Proof. intros Hn. unfold kf. rewrite list_lookup_insert. destruct (decide (n = p)) as [->|]; [by rewrite decide_True by done|by rewrite decide_False by tauto]. Qed.

Lemma fld_insert o o' h n k x y p : (n < length h)%nat ->
  fld o' (<[n := mk o k x y]> h) p = if decide (n = p) then Some (if eqb o o' then x else y) else fld o' h p.
Proof.
  intros Hn. unfold fld. rewrite list_lookup_insert. destruct (decide (n = p)) as [->|]; [rewrite decide_True by done|by rewrite decide_False by tauto].
  by destruct o, o'.
Qed.

Lemma agrees_insert h n e t : n ∉ addrs t -> agrees h t -> agrees (<[n := e]> h) t.
Proof. intros Hn. apply agrees_ext. intros x Hx. apply list_lookup_insert_ne. by intros ->. Qed.

(** A new root above the splayed tree. *)
Lemma insert_agrees o h a p kt b n k : NoDup (addrs (nd o a p kt b)) -> agrees h (nd o a p kt b) -> n ∉ addrs (nd o a p kt b) -> n <> 0%nat ->
  (n < length h)%nat -> agrees (alter (chg o 0) p (<[n := mk o k (ptr a) p]> h)) (nd o a n k (nd o Leaf p kt b)).
Proof.
  rewrite addrs_nd, !agrees_nd, ptr_nd, NoDup_cons, elem_of_cons, !elem_of_app. intros (Hpn & _) (Hp & Hk & Hf & Hg & Ha & Hb) Hn H0 Hl.
  assert (n <> p) as Hnp by tauto. assert (o <> negb o) by (by destruct o). assert (p < length h)%nat by (by eapply kf_bound).
  rewrite !kf_chg, !kf_insert by done. rewrite decide_True by done. rewrite decide_False by done.
  assert (eqb o o = true /\ eqb o (negb o) = false) as [E1 E2] by (by destruct o).
  split_and!; try done.
  - by destruct o.
  - rewrite fld_chg_ne by auto. rewrite fld_insert by done. by rewrite decide_True, E1 by done.
  - rewrite fld_chg_ne by auto. rewrite fld_insert by done. by rewrite decide_True, E2 by done.
  - apply agrees_chg; [tauto|]. apply agrees_insert; [tauto|done].
  - apply fld_chg_eq. by rewrite length_insert.
  - rewrite fld_chg_ne by auto. rewrite fld_insert by done. by rewrite decide_False by done.
  - apply agrees_chg; [tauto|]. apply agrees_insert; [tauto|done].
Qed.

Lemma set_node_run p f s (Q : unit -> splay_map V -> Prop) : (p < length (k_buff s))%nat ->
  Q tt (put_nodes (alter f p (k_buff s)) s) -> wp (set_node p f) Q s.
Proof.
  intros Hp HQ. destruct (lookup_lt_is_Some_2 _ _ Hp) as [n E]. unfold set_node, get_node. wp_step. eapply wp_reads; [by rewrite E|]. by wp_step.
Qed.

Lemma set_val_run p v s (Q : unit -> splay_map V -> Prop) : (p < length (v_buff s))%nat -> Q tt (put_vals (<[p := v]> (v_buff s)) s) -> wp (set_val p v) Q s.
Proof.
  intros Hp HQ. destruct (lookup_lt_is_Some_2 _ _ Hp) as [w E]. unfold set_val. wp_step. eapply get_val_run; [done|]. by wp_step.
Qed.

Lemma fresh_node_run n k a b v s (Q : unit -> splay_map V -> Prop) : (n < length (k_buff s))%nat -> (n < length (v_buff s))%nat ->
  Q tt (put_vals (<[n := v]> (v_buff s)) (put_nodes (<[n := MkNode k a b]> (k_buff s)) s)) -> wp (fresh_node n k a b v) Q s.
Proof.
  intros Hk Hv HQ. unfold fresh_node, set_node_key, set_node_lc, set_node_rc. wp_step. apply set_node_run; [done|]. wp_step.
  apply set_node_run; [by simpl; rewrite length_alter|]. wp_step. apply set_node_run; [by simpl; rewrite !length_alter|]. apply set_val_run; [done|].
  cbn [k_buff v_buff put_nodes put_vals]. assert (alter (with_right b) n (alter (with_left a) n (alter (fun e => MkNode k (left e) (right e)) n (k_buff s)))
    = <[n := MkNode k a b]> (k_buff s)) as E; [|by rewrite E].
  apply list_eq. intros j. rewrite !list_lookup_alter, list_lookup_insert. destruct (decide (n = j)) as [<-|]; [|by rewrite decide_False by tauto].
  rewrite decide_True by done. rewrite !decide_True by done. by destruct (lookup_lt_is_Some_2 _ _ Hk) as [e ->].
Qed.

Definition with_size (n : Z) (i : tree_info) : tree_info := MkInfo (root_ptr i) (free_ptr i) (b_size i) n.
Definition with_free (p : nat) (i : tree_info) : tree_info := MkInfo (root_ptr i) p (b_size i) (t_size i).

Lemma put_size_run s i n (Q : unit -> splay_map V -> Prop) : t_info s = Some i -> Q tt (put_info (with_size n i) s) -> wp (put_size n) Q s.
Proof. intros E HQ. unfold put_size. wp_step. eapply get_info_run; [done|]. by wp_step. Qed.

Lemma put_free_run s i p (Q : unit -> splay_map V -> Prop) : t_info s = Some i -> Q tt (put_info (with_free p i) s) -> wp (put_free p) Q s.
Proof. intros E HQ. unfold put_free. wp_step. eapply get_info_run; [done|]. by wp_step. Qed.

(** The node that the next insertion uses. *)
Lemma next_free_run s i T fl hw (Q : nat -> splay_map V -> Prop) : shape s i T fl hw -> t_size i + 1 < b_size i ->
  (forall n q fl' hw', free_chain (k_buff s) q fl' -> addrs T ++ n :: fl' ≡ₚ seq 1 hw' -> Z.of_nat hw' < b_size i ->
     Q n (put_info (with_free q (with_size (t_size i + 1) i)) s)) ->
  wp next_free_node Q (put_info (with_size (t_size i + 1) i) s).
Proof.
  intros Hs Hroom HQ. pose proof (shape_size _ _ _ _ _ Hs) as Hsz. destruct Hs as (Hi & Hr & Ha & Hc & Hp & Hb & Hw & Hk & Hv & Hz & Ho).
  unfold next_free_node. wp_step. eapply get_info_run; [done|]. cbn [free_ptr with_size t_size]. destruct fl as [|p fl]; simpl in Hc.
  - rewrite Hc. cbn [Nat.eqb]. wp_step. rewrite app_nil_r in Hp. simpl in Hsz.
    replace (put_info (with_size (t_size i + 1) i) s) with (put_info (with_free 0 (with_size (t_size i + 1) i)) s) by (unfold with_free, with_size; simpl; by rewrite Hc).
    apply (HQ _ 0%nat [] (S hw)); [done| |lia]. rewrite seq_S, Hp. replace (Z.to_nat (t_size i + 1)) with (1 + hw)%nat by lia. done.
  - destruct Hc as (-> & Hp0 & q & Hq & Hc). destruct (Nat.eqb_spec p 0); [done|]. wp_step. apply (get_fld_run true p q); [done|].
    wp_step. apply (put_free_run _ (with_size (t_size i + 1) i)); [done|]. wp_step. by apply (HQ p q fl hw).
Qed.

(** A tree with one more element. *)
Lemma indexed_insert T T' im k n : indexed T im -> (forall q, (k, q) ∉ elems T) -> elems T' ≡ₚ (k, n) :: elems T -> indexed T' (<[k := n]> im).
Proof.
  intros Hx Hk He k' p. rewrite He, elem_of_cons. destruct (decide (k = k')) as [<-|Hne].
  - rewrite lookup_insert_eq. split; [intros [= ->]; by left|]. intros [[= ->]|Hin]; [done|by apply Hk in Hin].
  - rewrite lookup_insert_ne by done. rewrite (Hx k' p). split; [by right|]. by intros [[= -> _]|Hin].
Qed.

Lemma shape_insert s i T fl hw q fl' hw' h T' n k vs : shape s i T fl hw -> free_chain (k_buff s) q fl' -> addrs T ++ n :: fl' ≡ₚ seq 1 hw' ->
  Z.of_nat hw' < b_size i -> agrees h T' -> elems T' ≡ₚ (k, n) :: elems T -> sorted (elems T') -> length h = length (k_buff s) ->
  (forall x, x ∈ fl' -> h !! x = k_buff s !! x) -> length vs = length (v_buff s) ->
  shape (put_info (with_root (ptr T') (with_free q (with_size (t_size i + 1) i))) (put_vals vs (put_nodes h s)))
    (with_root (ptr T') (with_free q (with_size (t_size i + 1) i))) T' fl' hw'.
Proof.
  intros (Hi & Hr & Ha & Hc & Hp & Hb & Hw & Hk & Hv & Hz & Ho) Hc' Hp' Hw' Ha' He Hs Hlh Hx Hlv.
  split_and!; try done; cbn [b_size with_root with_free with_size]; try lia.
  - by eapply free_chain_ext.
  - rewrite <- elems_addrs, He. simpl. rewrite elems_addrs, <- Hp'. solve_Permutation.
  - cbn. by rewrite Hlh.
  - cbn. by rewrite Hlv.
  - cbn. rewrite He, Hz. simpl. lia.
Qed.

(** What the rest of [insert] does once the tree is splayed, on either side of the root. *)
Lemma insert_side_run o k v s i a p kt b fl hw im (Q : nat -> splay_map V -> Prop) :
  shape s i (nd o a p kt b) fl hw -> indexed (nd o a p kt b) im -> beyond o k kt -> Forall (fun e => beyond (negb o) k e.1) (elems a) ->
  (forall q, (k, q) ∉ elems (nd o a p kt b)) -> t_size i + 1 < b_size i ->
  (forall n s', n <> 0%nat -> i_size s' = i_size s -> answers s' = answers s -> (forall j, t_info s' = Some j -> b_size j = b_size i) -> (forall x, x <> n -> v_buff s' !! x = v_buff s !! x) ->
     v_buff s' !! n = Some v -> rooted s' n -> (forall k', im !! k' <> Some n) -> holds s' (<[k := n]> im) -> Q n s') ->
  wp (n ← next_free_node;
      (x ← get_fld o p; fresh_node n k (if o then x else p) (if o then p else x) v;; set_fld o p 0);;
      put_root n;; mret n) Q (put_info (with_size (t_size i + 1) i) s).
Proof.
  intros Hs Hd Hb Hfa Hk Hroom HQ. wp_step. eapply next_free_run; [done|done|]. intros n q fl' hw' Hc Hp Hw.
  pose proof (shape_nodup _ _ _ _ _ Hs) as [Hnd _]. apply NoDup_app in Hnd as (Hnd & _). pose proof Hs as (Hi & Hr & Ha & _ & _ & Hb0 & _ & Hlk & Hlv & Hz & Ho).
  assert (n ∈ seq 1 hw') as Hn%elem_of_seq by (rewrite <- Hp; set_solver).
  assert (NoDup (addrs (nd o a p kt b) ++ n :: fl')) as Hnd' by (rewrite Hp; apply NoDup_seq). rewrite NoDup_app, NoDup_cons in Hnd'. destruct Hnd' as (_ & Hd1 & Hd2 & _).
  assert (n ∉ addrs (nd o a p kt b)) as Hna by (intros Hx; apply (Hd1 _ Hx); set_solver).
  assert (p ∈ addrs (nd o a p kt b)) as Hpa by (rewrite addrs_nd; set_solver).
  pose proof (proj1 (agrees_nd _ _ _ _ _ _) Ha) as (Hp0 & Hkp & Hfp & _).
  wp_step. wp_step. eapply (get_fld_run o p (ptr a)); [exact Hfp|]. wp_step. apply fresh_node_run; [cbn; lia|cbn; lia|]. apply set_fld_run.
  { cbn. rewrite length_insert. by eapply kf_bound. }
  cbn [k_buff put_vals put_nodes put_info]. set (T' := nd o a n k (nd o Leaf p kt b)).
  replace (MkNode k (if o then ptr a else p) (if o then p else ptr a)) with (mk o k (ptr a) p) by (by destruct o).
  assert (agrees (alter (chg o 0) p (<[n := mk o k (ptr a) p]> (k_buff s))) T') as HaT by (apply insert_agrees; try done; lia).
  assert (elems T' ≡ₚ (k, n) :: elems (nd o a p kt b)) as HeT by (unfold T'; destruct o; simpl; solve_Permutation).
  wp_step. eapply put_root_run; [done|]. wp_step. set (s' := put_info _ _).
  assert (sorted (elems T')) as HoT.
  { clear - Ho Hb Hfa. unfold T'. destruct o; simpl in *; rewrite ?app_nil_r in *.
    - rewrite sorted_app in Ho |- *. destruct Ho as (O1 & O2 & O3). rewrite Forall_forall in Hfa. split_and!; [done| |].
      + constructor; [done|]. inversion O2 as [|? ? ? HF]; subst. constructor; [done|]. eapply Forall_impl; [exact HF|]. intros e He. simpl in *. lia.
      + intros x y Hx [->|Hy]%elem_of_cons; [by apply Hfa|by apply O3].
    - rewrite <- app_assoc. simpl. rewrite sorted_app in Ho |- *. destruct Ho as (O1 & O2 & O3). inversion O2 as [|? ? O4 HF]; subst. rewrite Forall_forall in Hfa. split_and!; [done| |].
      + constructor; [constructor; [done|by apply Forall_forall]|]. constructor; [done|]. eapply Forall_impl; [exact HF|]. intros e He. simpl in *. lia.
      + intros x y Hx. rewrite !elem_of_cons. intros [->|[->|Hy]]; [apply O3; set_solver| |apply O3; set_solver].
        assert (x.1 < kt) by (apply (O3 x (kt, p)); set_solver). simpl. lia. }
  apply HQ; [lia|done|done|by intros j [= <-]| | |done| |].
  - intros x Hxn. cbn. by apply list_lookup_insert_ne.
  - cbn. apply list_lookup_insert_eq. lia.
  - intros k' Hk'. apply Hd in Hk'. by apply elems_in_addrs in Hk'.
  - exists (with_root n (with_free q (with_size (t_size i + 1) i))), T', fl', hw'.
    split; [|by apply (indexed_insert (nd o a p kt b))].
    assert (ptr T' = n) as En by (unfold T'; by rewrite ptr_nd).
    assert (shape (put_info (with_root n (with_free q (with_size (t_size i + 1) i)))
      (put_vals (<[n := v]> (v_buff s)) (put_nodes (alter (chg o 0) p (<[n := mk o k (ptr a) p]> (k_buff s))) s)))
      (with_root n (with_free q (with_size (t_size i + 1) i))) T' fl' hw') as Hfin; [|exact Hfin]. rewrite <- En at 1 4.
    apply (shape_insert s i (nd o a p kt b) fl hw q fl' hw' _ T' n k); try done.
    + by rewrite length_alter, length_insert.
    + intros x Hx. rewrite list_lookup_alter_ne, list_lookup_insert_ne; [done|by intros ->|]. intros ->. apply (Hd1 _ Hpa). set_solver.
    + by rewrite length_insert.
Qed.

(** No node is left but the last. *)
Definition full (s : splay_map V) : bool := match t_info s with Some i => t_size i + 1 =? b_size i | None => false end.

(** What an operation may change: a full map grows. *)
Definition grown (s s' : splay_map V) : Prop :=
  i_size s' = i_size s /\ (answers s = [] -> answers s' = [])
  /\ forall i j, t_info s = Some i -> t_info s' = Some j -> b_size j = b_size i + (if full s && granted s then i_size s else 0).

Lemma elems_nil T : elems Leaf = elems T -> T = Leaf.
Proof. destruct T as [|a p k b]; [done|]. simpl. by destruct (elems a). Qed.

(** [insert] once there is a node left. *)
Definition insert_here (k : Z) (v : V) : M (splay_map V) nat :=
  i ← get_info;
  if (root_ptr i =? 0)%nat then
    put_size 1;;
    n ← next_free_node;
    fresh_node n k 0 0 v;;
    put_root n;; mret n
  else
    found ← splay_root k;
    i ← get_info;
    let root := root_ptr i in
    if (found : bool) then set_val root v;; mret root else
    rkey ← get_node_key root;
    put_size (u32 (t_size i + 1));;
    n ← next_free_node;
    (if k <? rkey then
       a ← get_node_lc root; fresh_node n k a root v;; set_node_lc root 0
     else
       b ← get_node_rc root; fresh_node n k root b v;; set_node_rc root 0);;
    put_root n;; mret n.

Lemma insert_unfold k v : insert k v =
  (i ← get_info; ok ← (if u32 (t_size i + 1) =? b_size i then reallocate_memory false else mret true);
   if negb ok then mret 0%nat else insert_here k v).
Proof. reflexivity. Qed.

(** The key has the node [n], the root, with the value [v]; the other keys keep theirs. *)
Definition inserted (k : Z) (v : V) (s : splay_map V) (im : gmap Z nat) (n : nat) (s' : splay_map V) : Prop :=
  n <> 0%nat /\ holds s' (<[k := n]> im) /\ v_buff s' !! n = Some v /\ rooted s' n
  /\ (im !! k = Some n \/ im !! k = None /\ forall k', im !! k' <> Some n)
  /\ forall k' x, im !! k' = Some x -> x <> n -> v_buff s' !! x = v_buff s !! x.

(** Insertion into the empty tree. *)
Lemma insert_first k v s i fl hw im (Q : nat -> splay_map V -> Prop) : shape s i Leaf fl hw -> indexed Leaf im -> t_size i + 1 < b_size i ->
  (forall n s', kept s s' -> inserted k v s im n s' -> Q n s') -> wp (insert_here k v) Q s.
Proof.
  intros Hs Hx Hroom HQ. unfold insert_here. pose proof Hs as (Hi & Hr & _ & _ & _ & Hb & _ & Hlk & Hlv & Hz & _). wp_step. eapply get_info_run; [done|]. rewrite Hr.
  cbn [ptr Nat.eqb]. wp_step. apply (put_size_run _ i); [done|]. replace 1 with (t_size i + 1) by (rewrite Hz; done).
  wp_step. eapply next_free_run; [done|done|]. intros n q fl' hw' Hc Hp Hw. cbn [addrs app] in Hp.
  assert (n ∈ seq 1 hw') as Hn%elem_of_seq by (rewrite <- Hp; set_solver). assert (NoDup (n :: fl')) as [Hnf _]%NoDup_cons by (rewrite Hp; apply NoDup_seq).
  assert (forall k', im !! k' = None) as Hnone by (intros k'; eapply indexed_none; [done|]; intros p; apply not_elem_of_nil).
  wp_step. apply fresh_node_run; [cbn; lia|cbn; lia|]. wp_step. eapply put_root_run; [done|]. wp_step. apply HQ; [apply kept_info with i; done|].
  split_and!; [lia| |cbn; apply list_lookup_insert_eq; lia|done|right; split; [done|]; intros k'; by rewrite Hnone|intros k' x; by rewrite Hnone].
  exists (with_root n (with_free q (with_size (t_size i + 1) i))), (Node Leaf n k Leaf), fl', hw'. split.
  - apply (shape_insert s i Leaf fl hw q fl' hw' (<[n := MkNode k 0 0]> (k_buff s)) (Node Leaf n k Leaf) n k (<[n := v]> (v_buff s))); try done; try (by apply length_insert); try (by repeat constructor).
    + cbn [agrees]. change (MkNode k 0 0) with (mk true k 0 0). rewrite kf_insert, !fld_insert by lia. rewrite !decide_True by done. split_and!; try done; lia.
    + intros x Hx'. apply list_lookup_insert_ne. by intros ->.
  - apply (indexed_insert Leaf); [done|intros q' ?%not_elem_of_nil; done|done].
Qed.

Lemma insert_here_run k v s i T fl hw im (Q : nat -> splay_map V -> Prop) : shape s i T fl hw -> indexed T im -> t_size i + 1 < b_size i ->
  (forall n s', kept s s' -> inserted k v s im n s' -> Q n s') -> wp (insert_here k v) Q s.
Proof.
  intros Hs Hx Hroom HQ. destruct (decide (T = Leaf)) as [->|Hne]; [by eapply insert_first|]. unfold insert_here. pose proof Hs as (Hi & Hr & Ha & _).
  wp_step. eapply get_info_run; [done|]. rewrite Hr. destruct (Nat.eqb_spec (ptr T) 0) as [E0|_]; [by apply (agrees_ptr _ _ Ha) in E0|].
  wp_step. eapply splay_root_run; [done|]. intros h' T' ret s2 Hs2 He Hsp2.
  assert (indexed T' im) as Hx2 by (by eapply indexed_elems). assert (sorted (elems T')) as Ho2 by apply Hs2.
  assert (holds s2 im) as Hh2 by (by exists (with_root (ptr T') i), T', fl, hw).
  pose proof (splayed_found _ _ _ Ho2 Hsp2) as Hf. wp_step. eapply get_info_run; [done|]. cbn [root_ptr with_root]. destruct ret.
  - apply Hx2 in Hf. destruct (holds_index _ _ _ _ Hh2 Hf) as (Hp0 & w & Ew). apply lookup_lt_Some in Ew.
    wp_step. apply set_val_run; [done|]. wp_step. apply HQ; [apply kept_info with i; done|].
    split_and!; [done| |by apply list_lookup_insert_eq|done|by left|intros k' x _ Hxn; by apply list_lookup_insert_ne].
    rewrite insert_id by done. apply holds_vals; [done|]. by rewrite length_insert.
  - destruct T' as [|A p kt B]; [by apply elems_nil in He|].
    destruct Hsp2 as (Hkt & HA & HB). wp_step. eapply get_key_run; [apply Hs2|]. wp_step. eapply put_size_run; [done|]. cbn [t_size with_root].
    assert (u32 (t_size i + 1) = t_size i + 1) as -> by (apply wrap_small; pose proof Hs as (_ & _ & _ & _ & _ & ? & _ & _ & _ & ? & _); lia).
    pose proof (indexed_none _ _ _ Hx2 Hf) as Hnone.
    destruct (Z.ltb_spec k kt) as [Hlt|Hge]; [apply (insert_side_run true k v s2 (with_root p i) A p kt B fl hw im)|apply (insert_side_run false k v s2 (with_root p i) B p kt A fl hw im)];
      try done; try (apply HA; done); try (apply HB; lia); try (cbn; lia);
      (intros n s' Hn E1 E2 E3 E4 E5 E6 E7 E8; apply HQ; [|split_and!; try done; [by right|intros k' x _; apply E4]]);
      (split_and!; [done|done|]; rewrite Hi; unfold rooted in E6; destruct (t_info s') as [j|]; [|done]; simpl; by rewrite (E3 j eq_refl)).
Qed.

(** Room for one more node. *)
Lemma room_run s i T fl hw : shape s i T fl hw -> 0 < i_size s -> (full s = true -> spacious s 1) ->
  wp (if u32 (t_size i + 1) =? b_size i then reallocate_memory false else mret true)
    (fun ok s' => exists i', shape s' i' T fl hw /\ i_size s' = i_size s /\ (answers s = [] -> answers s' = [])
       /\ (forall x, (x <= hw)%nat -> v_buff s' !! x = v_buff s !! x) /\ b_size i' = b_size i + (if full s && granted s then i_size s else 0)
       /\ ok = negb (full s && negb (granted s)) /\ (ok = true -> t_size i' + 1 < b_size i')) s.
Proof.
  intros Hs His Hsp. pose proof (shape_size _ _ _ _ _ Hs) as Hz0. pose proof Hs as (Hi & _ & _ & _ & _ & Hb & Hw & _ & _ & Hz & _).
  assert (full s = (t_size i + 1 =? b_size i)) as Efull by (unfold full; by rewrite Hi). rewrite wrap_small by lia. rewrite Efull in *.
  destruct (Z.eqb_spec (t_size i + 1) (b_size i)) as [Ez|Ez].
  - eapply wp_mono, (larger_run s i T fl hw Hs (Hsp eq_refl)). intros ok s1 (H1 & Eok & H2 & H3 & H4). eexists. split; [exact H4|].
    rewrite <- Eok. cbn [andb]. rewrite negb_involutive. split_and!; try done; [by destruct ok; cbn; lia|intros ->; cbn; lia].
  - wp_step. exists i. cbn [andb]. split_and!; try done; try lia.
Qed.

Lemma insert_run k v s im : holds s im -> 0 < i_size s -> (full s = true -> spacious s 1) ->
  wp (insert k v) (fun n s' => grown s s' /\ (n = 0%nat <-> full s && negb (granted s) = true)
    /\ if (n =? 0)%nat then holds s' im /\ forall k' x, im !! k' = Some x -> v_buff s' !! x = v_buff s !! x else inserted k v s im n s') s.
Proof.
  intros (i & T & fl & hw & Hs & Hx) His Hsp. rewrite insert_unfold. wp_step. pose proof Hs as (Hi & _). eapply get_info_run; [done|]. wp_step.
  eapply wp_mono, (room_run s i T fl hw Hs His Hsp). intros ok s1 (i1 & Hs1 & Hsz & Han & Hv1 & Hb1 & Eok & Hok).
  assert (forall k' x, im !! k' = Some x -> v_buff s1 !! x = v_buff s !! x) as Hv.
  { intros k' x Hin%Hx. apply Hv1. pose proof (shape_in _ _ _ _ _ _ Hs (or_introl (elems_in_addrs _ _ _ Hin))). lia. }
  pose proof Hs1 as (Hi1 & _). destruct ok; cbn [negb]; symmetry in Eok; apply (f_equal negb) in Eok; rewrite negb_involutive in Eok; cbn [negb] in Eok.
  - specialize (Hok eq_refl). eapply insert_here_run; [exact Hs1|exact Hx|exact Hok|]. intros n s' (K1 & K2 & K3) (Hn & Hins). destruct (Nat.eqb_spec n 0); [done|].
    split; [split; [congruence|split; [by rewrite K2|]]|split; [by rewrite Eok|]].
    + intros j j' Hj Hj'. rewrite Hi in Hj. rewrite Hi1, Hj' in K3. simpl in K3. simplify_eq. congruence.
    + split; [done|]. destruct Hins as (H1 & H2 & H3 & H4 & H5). split_and!; try done. intros k' x Hk' Hxn. rewrite (H5 k' x) by done. by eapply Hv.
  - wp_step. cbn [Nat.eqb]. split; [split; [done|split; [done|]]|split; [done|split; [by exists i1, T, fl, hw|done]]].
    intros j j' Hj Hj'. rewrite Hi in Hj. rewrite Hi1 in Hj'. by simplify_eq.
Qed.

(** * Removal *)

Lemma sorted_drop E e F : sorted (E ++ e :: F) -> sorted (E ++ F).
Proof.
  rewrite !sorted_app. intros (H1 & H2 & H3). inversion H2; subst. split_and!; [done|done|]. intros a b Ha Hb. apply H3; set_solver.
Qed.

(** The root [r] goes to the free nodes and another tree takes the rest. *)
Lemma shape_remove s i A r k B fl hw h T2 : shape s i (Node A r k B) fl hw -> agrees h T2 -> elems T2 = elems A ++ elems B ->
  length h = length (k_buff s) -> (forall x, x ∈ r :: fl -> h !! x = k_buff s !! x) ->
  let i' := MkInfo (ptr T2) r (b_size i) (t_size i - 1) in
  shape (put_info i' (put_nodes (alter (chg true (free_ptr i)) r h) s)) i' T2 (r :: fl) hw.
Proof.
  intros Hs Ha He Hl Hx i'. pose proof (shape_nodup _ _ _ _ _ Hs) as [Hn _]. destruct Hs as (Hi & Hr & (Hr0 & Hkr & _) & Hc & Hp & Hb & Hw & Hk & Hv & Hz & Ho).
  assert (addrs T2 = addrs A ++ addrs B) as EA by (by rewrite <- !elems_addrs, He, map_app). cbn [addrs elems] in *.
  assert (NoDup (r :: (addrs A ++ addrs B) ++ fl)) as Hn' by (rewrite <- app_assoc in *; simpl in Hn; by rewrite <- Permutation_middle in Hn).
  apply NoDup_cons in Hn' as [Hnr Hn']. rewrite elem_of_app in Hnr.
  split_and!; cbn; try done; try lia.
  - apply agrees_chg; [|done]. rewrite EA. tauto.
  - split; [done|]. split; [done|]. exists (free_ptr i). split.
    + apply fld_chg_eq. rewrite Hl. by eapply kf_bound.
    + eapply free_chain_ext, Hc. intros x Hin. rewrite list_lookup_alter_ne by (intros ->; tauto). apply Hx. set_solver.
  - rewrite EA, <- Hp. solve_Permutation.
  - rewrite length_alter. lia.
  - rewrite He, Hz, !length_app. simpl. lia.
  - rewrite He. by eapply sorted_drop.
Qed.

Lemma indexed_delete T T2 im k r E F : indexed T im -> elems T = E ++ (k, r) :: F -> elems T2 = E ++ F -> sorted (elems T) -> indexed T2 (delete k im).
Proof.
  intros Hx E1 E2 Ho k' p. rewrite E2. destruct (decide (k = k')) as [<-|Hne].
  - rewrite lookup_delete_eq. split; [done|]. intros Hp. exfalso. rewrite E1 in Ho. apply sorted_app in Ho as (_ & H2 & H3).
    inversion H2 as [|? ? _ HF]; subst. rewrite Forall_forall in HF. apply elem_of_app in Hp as [Hp|Hp].
    + specialize (H3 (k, p) (k, r) Hp ltac:(set_solver)). simpl in H3. lia.
    + specialize (HF _ Hp). simpl in HF. lia.
  - rewrite lookup_delete_ne by done. rewrite (Hx k' p), E1, !elem_of_app, elem_of_cons. split; [|tauto]. intros [?|[[= -> _]|?]]; [by left|done|by right].
Qed.

(** The largest key of the smaller keys comes to the top and has no right child. *)
Lemma splayed_above k T ret : splayed k T ret -> sorted (elems T) -> Forall (fun e => e.1 < k) (elems T) -> T <> Leaf -> exists a p kt, T = Node a p kt Leaf.
Proof.
  destruct T as [|a p kt b]; [done|]. intros Hsp Ho HF _. exists a, p, kt. simpl in HF. rewrite Forall_app, Forall_cons in HF. destruct HF as (_ & Hk & HF). simpl in Hk.
  destruct ret; simpl in Hsp; [lia|]. destruct Hsp as (_ & _ & Hb). specialize (Hb Hk). destruct b as [|bl bp bk br]; [done|]. exfalso.
  simpl in Hb, HF. rewrite Forall_app, Forall_cons in Hb, HF. destruct Hb as (_ & Hb & _), HF as (_ & HF & _). simpl in *. lia.
Qed.

(** Joining the two subtrees of the root. *)
Lemma join_run s i A r k B fl hw (Q : nat -> splay_map V -> Prop) : shape s i (Node A r k B) fl hw ->
  (forall h T2, agrees h T2 -> elems T2 = elems A ++ elems B -> length h = length (k_buff s) -> (forall x, x ∈ r :: fl -> h !! x = k_buff s !! x) ->
     Q (ptr T2) (put_nodes h s)) ->
  wp (a ← get_node_lc r; if (a =? 0)%nat then get_node_rc r else '(_, x) ← splay k a; b ← get_node_rc r; set_node_rc x b;; mret x) Q s.
Proof.
  intros Hs HQ. pose proof (shape_nodup _ _ _ _ _ Hs) as [Hn H0]. pose proof (shape_size _ _ _ _ _ Hs) as Hsz.
  destruct Hs as (Hi & Hr & (Hr0 & Hkr & Hfl & Hfr & HA & HB) & Hc & Hp & Hb & Hw & Hk & Hv & Hz & Ho).
  wp_step. eapply (get_fld_run true r (ptr A)); [done|]. destruct (decide (A = Leaf)) as [->|HneA].
  { cbn [ptr Nat.eqb]. eapply (get_fld_run false r (ptr B)); [done|]. rewrite <- (put_nodes_same s). by apply (HQ _ B). }
  destruct (Nat.eqb_spec (ptr A) 0) as [E0|_]; [by apply (agrees_ptr _ _ HA) in E0|].
  assert (0%nat ∉ addrs A) as H0A by (clear - H0; cbn [addrs] in H0; set_solver).
  assert (NoDup (addrs A) /\ r ∉ addrs A /\ r ∉ addrs B /\ r ∉ fl /\ (forall x, x ∈ addrs A -> x ∉ addrs B /\ x ∉ fl)) as (HnA & HrA & HrB & Hrf & HdA).
  { clear - Hn. cbn [addrs] in Hn. rewrite <- app_assoc in Hn. simpl in Hn. rewrite NoDup_app, NoDup_cons, NoDup_app in Hn.
    destruct Hn as (H1 & H2 & (H3 & _)). split_and!; [done|intros ?; eapply H2; [done|set_solver]|set_solver|set_solver|]. intros x Hx. specialize (H2 _ Hx). set_solver. }
  assert (0%nat ∉ addrs B /\ 0%nat ∉ fl) as [H0B H0f] by (clear - H0; cbn [addrs] in H0; set_solver).
  pose proof (sorted_node _ _ _ _ Ho) as [HFA _]. cbn [elems] in Ho, Hsz. rewrite length_app in Hsz. simpl in Hsz. pose proof (proj1 (sorted_app _ _) Ho) as (HoA & _).
  wp_step. apply splay_run; [done|by apply NoDup_cons|done|lia|]. intros h' T' ret Ha He [Hlen Hfr'] Hsp.
  destruct (splayed_above _ _ _ Hsp) as (a & x & kx & ->); [by rewrite He|by rewrite He|intros ->; by apply HneA, elems_nil|].
  assert (forall y, y ∉ addrs A -> y <> 0%nat -> h' !! y = k_buff s !! y) as Hout by (intros y Hy Hy0; apply Hfr'; rewrite elems_addrs; set_solver).
  assert (x ∈ addrs A) as HxA by (rewrite <- elems_addrs, <- He, elems_addrs; cbn [addrs]; set_solver).
  wp_step. eapply (get_fld_run false r (ptr B)); [unfold fld; cbn; rewrite Hout by done; exact Hfr|]. cbn [ptr].
  destruct Ha as (Hx0 & Hkx & Hlx & Hrx & Haa & _). wp_step. apply (set_fld_run false); [by eapply kf_bound|]. wp_step. cbn [put_nodes k_buff].
  assert (NoDup (addrs (Node a x kx Leaf))) as Hnx by (by rewrite <- elems_addrs, He, elems_addrs). cbn [addrs] in Hnx.
  apply NoDup_app in Hnx as (_ & Hxa & _). apply (HQ _ (Node a x kx B)); [|by cbn [elems] in He |-*; rewrite <- He, <- app_assoc|by rewrite length_alter|].
  - cbn [agrees]. rewrite kf_chg, fld_chg_ne by auto. rewrite fld_chg_eq by (by eapply kf_bound). split_and!; try done.
    + apply agrees_chg; [|done]. intros Hx. apply (Hxa _ Hx). set_solver.
    + apply agrees_chg; [by apply HdA|]. eapply agrees_ext, HB. intros y Hy. apply Hout; [|by intros ->]. intros Hy'. by apply HdA in Hy' as [? _].
  - intros y Hy. assert (y ∉ addrs A /\ y <> 0%nat) as [Hy1 Hy2].
    { apply elem_of_cons in Hy as [->|Hy]; [done|]. split; [|by intros ->]. intros Hy'. by apply HdA in Hy' as [_ ?]. }
    rewrite list_lookup_alter_ne by (by intros ->). by apply Hout.
Qed.

Lemma wp_join {A B C} (c : M (splay_map V) A) (f : A -> M (splay_map V) B) (g : B -> M (splay_map V) C) Q s :
  wp (a ← c; f a) (fun b => wp (g b) Q) s -> wp (a ← c; b ← f a; g b) Q s.
Proof.
  intros H. apply wp_bind. assert (wp c (fun a => wp (f a) (fun b => wp (g b) Q)) s) as H'.
  { revert H. unfold wp, mbind, M_bind. by destruct (c s) as [[] ?]. }
  eapply wp_mono, H'. intros a s' Ha. by apply wp_bind.
Qed.

Lemma remove_run k s im : holds s im ->
  wp (remove k) (fun n s' => n = default 0%nat (im !! k) /\ kept s s' /\ holds s' (delete k im) /\ v_buff s' = v_buff s) s.
Proof.
  intros (i & T & fl & hw & Hs & Hx0). unfold remove. wp_step. eapply splay_root_run; [done|]. intros h' T' ret s1 Hs1 He Hsp.
  assert (indexed T' im) as Hx1 by (by eapply indexed_elems). assert (sorted (elems T')) as Ho1 by apply Hs1.
  pose proof (splayed_found _ _ _ Ho1 Hsp) as Hf. destruct ret; cbn [negb].
  - destruct T' as [|A r kt B]; [done|]. simpl in Hsp. subst kt. cbn [ptr] in *. apply Hx1 in Hf.
    assert (r <> 0%nat) as Hr0 by apply Hs1.
    wp_step. eapply get_info_run; [done|]. cbn [root_ptr with_root]. apply wp_join. eapply join_run; [done|]. intros h T2 Ha He2 Hl Hx.
    wp_step. unfold free_node. destruct (Nat.eqb_spec r 0); [done|]. wp_step. eapply get_info_run; [done|]. wp_step.
    apply (set_fld_run true); [cbn; rewrite Hl; by eapply (agrees_bound _ _ r (proj1 (proj2 (proj2 Hs1)))); cbn [addrs]; set_solver|].
    eapply put_free_run; [done|]. wp_step. eapply get_info_run; [done|]. wp_step. eapply put_size_run; [done|]. wp_step. eapply put_root_run; [done|]. wp_step.
    cbn [t_size with_free with_root free_ptr b_size with_size]. rewrite wrap_small.
    2: { pose proof Hs1 as (_ & _ & _ & _ & _ & ? & ? & _ & _ & Hz & _). pose proof (shape_size _ _ _ _ _ Hs1). cbn [t_size with_root b_size elems] in *. rewrite length_app in *. simpl in *. lia. }
    rewrite Hf. split_and!; [done|apply kept_info with i; [apply Hs|done..]| |done].
    exists (MkInfo (ptr T2) r (b_size i) (t_size i - 1)), T2, (r :: fl), hw.
    split; [apply (shape_remove s1 (with_root r i) A r k B fl hw h T2); done|]. by eapply indexed_delete.
  - wp_step. rewrite (indexed_none _ _ _ Hx1 Hf), delete_id by (by eapply indexed_none). split_and!; [done|apply kept_info with i; [apply Hs|done..]| |done].
    by exists (with_root (ptr T') i), T', fl, hw.
Qed.

(** * Enumeration *)

(** The stack: nodes whose right children are still to be seen. *)
Fixpoint stacked (h : list node) (st : list nat) (fs : frames) : Prop :=
  match st, fs with
  | [], [] => True
  | p :: st, (q, k, c) :: fs => p = q /\ kf h p = Some k /\ fld false h p = Some (ptr c) /\ agrees h c /\ stacked h st fs
  | _, _ => False
  end.

Lemma stacked_length h st : forall fs, stacked h st fs -> (length st <= length (felems true fs))%nat.
Proof.
  induction st as [|p st IH]; intros [|[[q k] c] fs]; simpl; try done. intros (_ & _ & _ & _ & Hs). specialize (IH _ Hs). rewrite length_app. lia.
Qed.

Lemma push_left_run fuel : forall t st fs s i (Q : option (list nat) -> splay_map V -> Prop), t_info s = Some i -> agrees (k_buff s) t -> stacked (k_buff s) st fs ->
  (length (elems t) <= fuel)%nat -> Z.of_nat (length (elems t) + length (felems true fs)) <= t_size i ->
  (forall st' fs', stacked (k_buff s) st' fs' -> felems true fs' = elems t ++ felems true fs -> Q (Some st') s) ->
  wp (push_left fuel (ptr t) st) Q s.
Proof.
  induction fuel as [|fuel IH]; intros t st fs s i Q Hi Ha Hst Hf Hz HQ.
  - destruct t as [|a p k b]; [cbn [push_left ptr Nat.eqb]; wp_step; by apply (HQ _ fs)|]. simpl in Hf. rewrite length_app in Hf. simpl in Hf. lia.
  - destruct t as [|a p k b]; [cbn [push_left ptr Nat.eqb]; wp_step; by apply (HQ _ fs)|]. cbn [push_left ptr]. destruct Ha as (Hp0 & Hk & Hl & Hr & Ha & Hb).
    destruct (Nat.eqb_spec p 0); [done|]. wp_step. eapply get_info_run; [done|]. pose proof (stacked_length _ _ _ Hst) as Hsl.
    cbn [elems length] in Hf, Hz |- *. rewrite length_app in Hf, Hz. simpl in Hf, Hz. destruct (Z.ltb_spec (t_size i) (Z.of_nat (S (length st)))); [lia|].
    wp_step. eapply (get_fld_run true); [exact Hl|]. apply (IH a (p :: st) ((p, k, b) :: fs) s i); [done|done|done|lia| |].
    + simpl. rewrite length_app. lia.
    + intros st' fs' H1 H2. apply (HQ st' fs' H1). rewrite H2. simpl. by rewrite <- app_assoc.
Qed.

Section Visit.
Context {A : Type} (callback : A -> Z -> V -> A * V).

(** What the callback gathers from the nodes [E], and the values it leaves. *)
Fixpoint visit (acc : A) (E : list (Z * nat)) (vs : list V) : A * list V :=
  match E with
  | [] => (acc, vs)
  | (k, p) :: E =>
      match vs !! p with
      | Some v => visit (callback acc k v).1 E (<[p := (callback acc k v).2]> vs)
      | None => (acc, vs)
      end
  end.

Lemma put_vals_twice vs vs' s : put_vals vs (put_vals vs' s) = put_vals vs s.
Proof. done. Qed.

Lemma enumerate_loop_run fuel : forall t st fs s i count acc (Q : A -> splay_map V -> Prop), t_info s = Some i -> agrees (k_buff s) t -> stacked (k_buff s) st fs ->
  let E := elems t ++ felems true fs in
  (length E <= fuel)%nat -> (length E < length (k_buff s))%nat -> 0 <= count -> count + Z.of_nat (length E) <= t_size i ->
  Forall (fun e => (e.2 < length (v_buff s))%nat) E ->
  Q (visit acc E (v_buff s)).1 (put_vals (visit acc E (v_buff s)).2 s) ->
  wp (enumerate_loop fuel callback (ptr t) st count acc) Q s.
Proof.
  induction fuel as [|fuel IH]; intros t st fs s i count acc Q Hi Ha Hst E Hf Hl Hc Hz HF HQ.
  - destruct t as [|a p k b]; [|unfold E in Hf; simpl in Hf; rewrite !length_app in Hf; simpl in Hf; lia].
    destruct st, fs as [|[[? ?] ?] ?]; try done; [|simpl in Hf; lia]. cbn [enumerate_loop ptr Nat.eqb andb]. wp_step. by destruct s.
  - cbn [enumerate_loop]. destruct ((ptr t =? 0)%nat && match st with [] => true | _ => false end) eqn:Eend.
    + apply andb_true_iff in Eend as [E0%Nat.eqb_eq Est]. apply (agrees_ptr _ _ Ha) in E0 as ->. destruct st, fs as [|[[? ?] ?] ?]; try done. wp_step. by destruct s.
    + wp_step. wp_step. wp_step. eapply (push_left_run _ t st fs s i); [done|done|done| | |].
      { unfold E in Hl. rewrite length_app in Hl. lia. } { unfold E in Hz. rewrite length_app in Hz. lia. }
      intros st' fs' Hst' HE. fold E in HE. destruct st' as [|p st'], fs' as [|[[q k] c] fs']; try done.
      * exfalso. symmetry in HE. apply app_nil in HE as [Et Efs]. rewrite (elems_nil _ (eq_sym Et)) in Eend. destruct st, fs as [|[[? ?] ?] ?]; done.
      * destruct Hst' as (<- & Hk & Hr & Hc' & Hst'). cbn [felems] in HE. rewrite <- HE in *. clear HE. apply Forall_cons in HF as [Hp HF]. cbn [length] in *.
        simpl in Hp. destruct (lookup_lt_is_Some_2 _ _ Hp) as [v Ev]. cbn [visit] in HQ. rewrite Ev in HQ.
        wp_step. eapply get_key_run; [done|]. wp_step. eapply get_val_run; [done|]. destruct (callback acc k v) as [acc' v'] eqn:Ecb. cbn [fst snd] in HQ.
        wp_step. apply set_val_run; [done|]. wp_step. eapply get_info_run; [done|]. destruct (Z.ltb_spec (t_size i) (count + 1)); [lia|].
        wp_step. eapply (get_fld_run false); [exact Hr|]. apply (IH c st' fs' _ i); try done; cbn; try lia. by rewrite length_insert.
Qed.

(** The same on the bindings of a map. *)
Fixpoint through (acc : A) (l : list (Z * V)) : A * list (Z * V) :=
  match l with
  | [] => (acc, [])
  | (k, v) :: l => let r := through (callback acc k v).1 l in (r.1, (k, (callback acc k v).2) :: r.2)
  end.
End Visit.

Definition entries (E : list (Z * nat)) (vs : list V) : list (Z * V) := omap (fun e => pair e.1 <$> vs !! e.2) E.

(** The bindings of a map, in the order of the keys. *)
Definition listing (m : gmap Z V) (l : list (Z * V)) : Prop := StronglySorted (fun a b => a.1 < b.1) l /\ list_to_map l = m.

Lemma entries_unfold k p E vs : entries ((k, p) :: E) vs = match vs !! p with Some v => (k, v) :: entries E vs | None => entries E vs end.
Proof. unfold entries. simpl. by destruct (vs !! p). Qed.

Lemma entries_ext E vs vs' : (forall x, x ∈ map snd E -> vs' !! x = vs !! x) -> entries E vs' = entries E vs.
Proof.
  induction E as [|[k p] E IH]; intros Hx; [done|]. rewrite !entries_unfold, Hx by (simpl; set_solver).
  rewrite IH; [done|]. intros x Hin. apply Hx. simpl. set_solver.
Qed.

Lemma entries_cons k p E vs v : vs !! p = Some v -> entries ((k, p) :: E) vs = (k, v) :: entries E vs.
Proof. intros Ev. by rewrite entries_unfold, Ev. Qed.

Lemma elem_of_entries E vs k v : (k, v) ∈ entries E vs <-> exists p, (k, p) ∈ E /\ vs !! p = Some v.
Proof.
  unfold entries. rewrite list_elem_of_omap. split.
  - intros ([k' p] & Hin & Hv). simpl in Hv. apply fmap_Some in Hv as (w & Hw & [= -> ->]). by exists p.
  - intros (p & Hin & Hv). exists (k, p). simpl. by rewrite Hv.
Qed.

Lemma entries_sorted E vs : sorted E -> StronglySorted (fun a b => a.1 < b.1) (entries E vs).
Proof.
  induction 1 as [|[k p] E Hs IH HF]; [constructor|]. destruct (vs !! p) as [v|] eqn:Ev; [|by rewrite entries_unfold, Ev].
  rewrite (entries_cons _ _ _ _ v) by done. constructor; [done|]. apply Forall_forall. intros [k' v'] (q & Hq & _)%elem_of_entries. rewrite Forall_forall in HF. apply (HF _ Hq).
Qed.

Lemma sorted_nodup (l : list (Z * V)) : StronglySorted (fun a b => a.1 < b.1) l -> NoDup l.*1.
Proof.
  induction 1 as [|[k v] l Hs IH HF]; [constructor|]. simpl. constructor; [|done]. intros ([k' v'] & -> & Hin)%list_elem_of_fmap. rewrite Forall_forall in HF. specialize (HF _ Hin). simpl in HF. lia.
Qed.

(** The nodes in the order of their keys. *)
Definition in_order (im : gmap Z nat) (E : list (Z * nat)) : Prop := sorted E /\ forall k p, im !! k = Some p <-> (k, p) ∈ E.

Lemma values_entries im E vs : in_order im E -> values vs im = list_to_map (entries E vs).
Proof.
  intros [Ho Hx]. apply map_eq. intros k. apply option_eq. intros v. rewrite lookup_values, <- elem_of_list_to_map by (by apply sorted_nodup, entries_sorted).
  rewrite elem_of_entries, bind_Some. by setoid_rewrite Hx.
Qed.

Lemma visit_through {A} (callback : A -> Z -> V -> A * V) E : forall acc vs, NoDup (map snd E) -> Forall (fun e => (e.2 < length vs)%nat) E ->
  let '(a, vs') := visit callback acc E vs in
  through callback acc (entries E vs) = (a, entries E vs') /\ length vs' = length vs /\ forall x, x ∉ map snd E -> vs' !! x = vs !! x.
Proof.
  induction E as [|[k p] E IH]; intros acc vs Hn HF; [done|]. apply Forall_cons in HF as [Hp HF]. simpl in Hp. cbn [map snd] in *. apply NoDup_cons in Hn as [Hpn Hn].
  destruct (lookup_lt_is_Some_2 _ _ Hp) as [v Ev]. cbn [visit]. rewrite Ev, (entries_cons _ _ _ _ v) by done. set (cb := callback acc k v).
  specialize (IH cb.1 (<[p := cb.2]> vs) Hn ltac:(by rewrite length_insert)). destruct (visit _ _ _ _) as [a vs']. destruct IH as (H1 & H2 & H3).
  rewrite length_insert in H2. assert (vs' !! p = Some cb.2) as Ev' by (rewrite H3 by done; by apply list_lookup_insert_eq).
  rewrite (entries_ext E vs) in H1 by (intros x Hx; apply list_lookup_insert_ne; by intros ->). split_and!; [|done|].
  - cbn [through]. fold cb. rewrite H1. by rewrite (entries_cons _ _ _ _ cb.2).
  - intros x Hx. rewrite elem_of_cons in Hx. rewrite H3 by tauto. apply list_lookup_insert_ne. intros ->. tauto.
Qed.

Lemma enumerate_run {A} (callback : A -> Z -> V -> A * V) acc s im : holds s im ->
  exists E, in_order im E /\ NoDup (map snd E) /\ Forall (fun e => (e.2 < length (v_buff s))%nat) E
  /\ wp (enumerate callback acc) (fun a s' => a = (visit callback acc E (v_buff s)).1 /\ s' = put_vals (visit callback acc E (v_buff s)).2 s) s.
Proof.
  intros (i & T & fl & hw & Hs & Hx). pose proof Hs as (Hi & Hr & Ha & _ & _ & Hb & Hw & Hk & Hv & Hz & Ho). pose proof (shape_size _ _ _ _ _ Hs) as Hsz.
  pose proof (shape_nodup _ _ _ _ _ Hs) as [Hn _]. apply NoDup_app in Hn as (Hn & _). rewrite <- elems_addrs in Hn.
  assert (Forall (fun e => (e.2 < length (v_buff s))%nat) (elems T)) as HF.
  { apply Forall_forall. intros [k p] Hin. pose proof (shape_in _ _ _ _ _ _ Hs (or_introl (elems_in_addrs _ _ _ Hin))). simpl. lia. }
  exists (elems T). do 3 (split; [done|]). unfold enumerate, inter_enumerate. wp_step. eapply get_info_run; [done|]. rewrite Hr. destruct T as [|a p k b].
  - cbn [ptr Nat.eqb]. wp_step. by destruct s.
  - assert (p <> 0%nat) as Hp by apply Ha. cbn [ptr]. destruct (Nat.eqb_spec p 0); [done|]. wp_step. wp_step.
    apply (enumerate_loop_run callback _ (Node a p k b) [] [] s i); cbn [felems]; rewrite ?app_nil_r; try done; try lia.
Qed.

(** * The constructor *)

(** The constructor, where memory lasts and the buffers stay below 4 GiB. *)
Lemma new_run _is : let n := if _is =? 0 then 1024 else _is in
  0 < n < 2 ^ 32 -> 0 <= sizeof_node -> 0 <= sizeof_val -> sizeof_tree_info + n * sizeof_node < 2 ^ 32 -> n * sizeof_val < 2 ^ 32 ->
  exists s, new _is [] = (Ok true, s) /\ holds s ∅ /\ i_size s = n /\ answers s = [] /\ b_size <$> t_info s = Some n.
Proof.
  intros n Hn Hsn Hsv Hk Hv. unfold new. fold n.
  assert (wp (reallocate_memory true) (fun ok s => ok = true /\ holds s ∅ /\ i_size s = n /\ answers s = [] /\ b_size <$> t_info s = Some n) (MkMap None [] [] 0 n [])) as H.
  { unfold reallocate_memory. wp_step. wp_step. wp_step. apply os_realloc_run. cbn [answers head default negb i_size from_option].
    wp_step. apply within_run; [rewrite key_bytes_small by lia; lia|]. wp_step. wp_step. wp_step. apply os_realloc_run. cbn [answers head tail default negb put_info put_nodes from_option id].
    wp_step. apply within_run; [rewrite val_bytes_small by lia; lia|]. wp_step. wp_step. wp_step. split_and!; try done.
    exists (MkInfo 0 0 n 0), Leaf, [], 0%nat. split; [|intros k p; rewrite lookup_empty; split; [done|by intros ?%not_elem_of_nil]].
    split_and!; try done; try lia; try apply SSorted_nil; cbn [k_buff v_buff put_info put_nodes put_vals b_size]; try (rewrite length_replicate); lia. }
  apply wp_run in H as (ok & s & E & -> & H). by exists s.
Qed.

(** * Enough memory *)

(** Buffers of [n] entries whose sizes in bytes have 32 bits. *)
Definition fits (n : Z) : Prop :=
  n < 2 ^ 32 /\ 0 <= sizeof_node /\ 0 <= sizeof_val /\ sizeof_tree_info + n * sizeof_node < 2 ^ 32 /\ n * sizeof_val < 2 ^ 32.

Lemma fits_le n n' : 0 <= n' <= n -> fits n -> fits n'.
Proof. unfold fits, sizeof_tree_info. intros Hn (H1 & H2 & H3 & H4 & H5). split_and!; try lia; nia. Qed.

(** Memory lasts, and the arrays never had to be larger than for [c] keys. *)
Definition roomy (isz c : Z) (s : splay_map V) : Prop := i_size s = isz /\ answers s = [] /\ forall i, t_info s = Some i -> b_size i <= c + 1 + isz.

Lemma roomy_kept isz c s s' : roomy isz c s -> kept s s' -> roomy isz c s'.
Proof.
  intros (H1 & H2 & H3) (K1 & K2 & K3). split_and!; [congruence|congruence|]. intros i Hi. rewrite Hi in K3. simpl in K3.
  destruct (t_info s) as [j|] eqn:Ej; [|done]. simpl in K3. simplify_eq. specialize (H3 _ eq_refl). congruence.
Qed.

Lemma indexed_size T im : indexed T im -> sorted (elems T) -> base.size im = length (elems T).
Proof.
  intros Hx Ho. assert (NoDup (elems T).*1) as Hn.
  { clear Hx. revert Ho. generalize (elems T). induction 1 as [|[k p] E Hs IH HF]; [constructor|]. simpl. constructor; [|done].
    intros ([k' p'] & -> & Hin)%list_elem_of_fmap. rewrite Forall_forall in HF. specialize (HF _ Hin). simpl in HF. lia. }
  assert (im = list_to_map (elems T)) as ->; [|by rewrite <- length_map_to_list, map_to_list_to_map].
  apply map_eq. intros k. apply option_eq. intros p. by rewrite <- elem_of_list_to_map.
Qed.

Lemma holds_size s im : holds s im -> exists i, t_info s = Some i /\ t_size i = Z.of_nat (base.size im) /\ 0 < b_size i.
Proof.
  intros (i & T & fl & hw & Hs & Hx). exists i. pose proof Hs as (Hi & _ & _ & _ & _ & Hb & _ & _ & _ & Hz & Ho). split_and!; [done| |lia].
  by rewrite (indexed_size T im).
Qed.

Section Roomy.
Context (isz c : Z) (Hisz : 0 < isz) (Hfits : fits (c + 1 + isz)).

Lemma roomy_spacious s im : holds s im -> roomy isz c s -> Z.of_nat (base.size im) <= c -> 0 < i_size s /\ (full s = true -> spacious s 1) /\ granted s = true.
Proof.
  intros Hh (Hi & Ha & Hb) Hm. destruct (holds_size _ _ Hh) as (i & Ei & Et & Eb). specialize (Hb _ Ei). split_and!; [lia| |unfold granted; by rewrite Ha].
  unfold full. rewrite Ei. intros Ef%Z.eqb_eq. split_and!; [lia|apply Hfits|apply Hfits|]. intros j Ej. rewrite Ei in Ej. simplify_eq.
  assert (fits (b_size j + 1 * i_size s)) as (? & ? & ? & ? & ?) by (eapply fits_le, Hfits; lia). done.
Qed.

Lemma roomy_grown s s' im : holds s im -> roomy isz c s -> Z.of_nat (base.size im) <= c -> grown s s' -> roomy isz c s'.
Proof.
  intros Hh (Hi & Ha & Hb) Hm (G1 & G2 & G3). destruct (holds_size _ _ Hh) as (i & Ei & Et & Eb). specialize (Hb _ Ei). split_and!; [congruence|by apply G2|].
  intros j Ej. rewrite (G3 _ _ Ei Ej). unfold granted, full. rewrite Ha, Ei, andb_true_r. destruct (Z.eqb_spec (t_size i + 1) (b_size i)); lia.
Qed.

Lemma roomy_insert k v s im : holds s im -> roomy isz c s -> Z.of_nat (base.size im) <= c -> wp (insert k v) (fun n s' => inserted k v s im n s' /\ roomy isz c s') s.
Proof.
  intros Hh Hr Hm. destruct (roomy_spacious _ _ Hh Hr Hm) as (Hi & Hsp & Eg). eapply wp_mono, (insert_run k v s im Hh Hi Hsp).
  intros n s' (Hg & Hn & Hres). rewrite Eg, andb_false_r in Hn. destruct (Nat.eqb_spec n 0) as [->|Hn0]; [by destruct Hn as [Hn _]; specialize (Hn eq_refl)|].
  split; [done|by eapply roomy_grown].
Qed.
End Roomy.

(** * The bindings *)

Lemma values_insert vs vs' im k n v : (im !! k = Some n \/ im !! k = None /\ forall k', im !! k' <> Some n) -> (forall k k' p, im !! k = Some p -> im !! k' = Some p -> k = k') ->
  vs' !! n = Some v -> (forall k' x, im !! k' = Some x -> x <> n -> vs' !! x = vs !! x) -> values vs' (<[k := n]> im) = <[k := v]> (values vs im).
Proof.
  intros Hn Hinj Hv Hx. apply map_eq. intros k'. rewrite lookup_values. destruct (decide (k = k')) as [<-|Hne].
  - by rewrite !lookup_insert_eq.
  - rewrite !lookup_insert_ne, lookup_values by done. destruct (im !! k') as [x|] eqn:E; [|done]. simpl. apply (Hx k' x E). intros ->.
    destruct Hn as [Hn|[_ Hn]]; [by apply Hne, (Hinj _ _ n)|by apply Hn in E].
Qed.

Lemma values_ext vs vs' im : (forall k x, im !! k = Some x -> vs' !! x = vs !! x) -> values vs' im = values vs im.
Proof. intros Hx. apply map_eq. intros k. rewrite !lookup_values. destruct (im !! k) as [x|] eqn:E; [|done]. simpl. by eapply Hx. Qed.

Lemma represents_exist k s m : represents s m ->
  wp (exist k) (fun b s' => b = bool_decide (is_Some (m !! k)) /\ represents s' m /\ kept s s' /\ forall v, m !! k = Some v -> v_buff s' !! last_ptr s' = Some v) s.
Proof.
  intros (im & Hh & ->). eapply wp_mono, exist_run; [|done]. intros b s' (-> & Hh' & Hk & Ev & El & _).
  rewrite !lookup_values, El, Ev. split_and!; [|by exists im; rewrite Ev|done|].
  - apply bool_decide_ext. split; [|by intros [v (p & -> & _)%bind_Some]]. intros [p E]. destruct (holds_index _ _ _ _ Hh E) as [_ Hv]. rewrite E. apply Hv.
  - intros v. by destruct (im !! k).
Qed.

Lemma represents_insert k v s m : represents s m -> 0 < i_size s -> (full s = true -> spacious s 1) ->
  wp (insert k v) (fun n s' => grown s s' /\ (n = 0%nat <-> full s && negb (granted s) = true)
    /\ if (n =? 0)%nat then represents s' m else v_buff s' !! n = Some v /\ represents s' (<[k := v]> m)) s.
Proof.
  intros (im & Hh & ->) Hi Hsp. eapply wp_mono, (insert_run k v s im Hh Hi Hsp). intros n s' (Hg & Hn & Hres). split; [done|]. split; [done|].
  destruct (n =? 0)%nat.
  - destruct Hres as [Hh' Hv]. exists im. split; [done|]. by rewrite (values_ext _ _ _ Hv).
  - destruct Hres as (_ & Hh' & Hv & _ & Hf & Hx). split; [done|]. exists (<[k := n]> im). split; [done|]. symmetry. apply values_insert; try done.
    intros k1 k2 p. by apply holds_inj with s.
Qed.

Lemma represents_remove k s m : represents s m ->
  wp (remove k) (fun n s' => kept s s' /\ represents s' (delete k m) /\ match m !! k with Some v => n <> 0%nat /\ v_buff s' !! n = Some v | None => n = 0%nat end) s.
Proof.
  intros (im & Hh & ->). eapply wp_mono, remove_run; [|done]. intros n s' (-> & Hk & Hh' & Ev). split; [done|]. split.
  - exists (delete k im). split; [done|]. unfold values. by rewrite omap_delete, Ev.
  - rewrite lookup_values, Ev. destruct (im !! k) as [p|] eqn:E; [|done]. destruct (holds_index _ _ _ _ Hh E) as (Hp & v & Hv). simpl. by rewrite Hv.
Qed.

Lemma represents_enumerate {A} (callback : A -> Z -> V -> A * V) acc s m : represents s m ->
  wp (enumerate callback acc) (fun a s' => kept s s' /\ exists l, listing m l /\ a = (through callback acc l).1 /\ represents s' (list_to_map (through callback acc l).2)) s.
Proof.
  intros (im & Hh & ->). destruct (enumerate_run callback acc s im Hh) as (E & HE & Hn & HF & Hw). eapply wp_mono, Hw. intros a s' [-> ->].
  pose proof (visit_through callback E acc (v_buff s) Hn HF) as Hvt. destruct (visit _ _ _ _) as [a vs']. destruct Hvt as (H1 & H2 & _). split; [done|].
  exists (entries E (v_buff s)). split; [split; [apply entries_sorted, HE|by rewrite (values_entries im E)]|]. rewrite H1. split; [done|].
  exists im. split; [by apply holds_vals|]. cbn. by rewrite (values_entries im E).
Qed.
End Code.
End SplayFacts.
