(* ===== verification/SplayOps.v ===== *)
(** The splay map against finite maps: sequences of operations, and missing memory.

    A client of the class calls [insert], [remove], [exist] with [find], [size] and [enumerate];
    [perform] is one such call, with the value read through the pointer it returns.  The
    specification [specified] is that of a finite map [gmap Z V]. *)
From S2P Require Import Prelude Machine SplayMap SplayTree SplayFacts.
From Stdlib Require Import Sorted.

Module SplayOps.
Import SplayMap SplayTree SplayFacts.

Section Ops.
Context {V : Type} {L : Layout V}.
Implicit Types s : splay_map V.

Inductive op :=
| OInsert (k : Z) (v : V)
| ORemove (k : Z)
| OFind (k : Z)
| OSize
| OList.

Inductive answer :=
| AVal (v : option V)
| ASize (n : Z)
| AList (l : list (Z * V)).

(** Through the pointer to a value. *)
Definition deref (n : nat) : M (splay_map V) (option V) := if (n =? 0)%nat then mret None else v ← get_val n; mret (Some v).

Definition gather (acc : list (Z * V)) (k : Z) (v : V) : list (Z * V) * V := (acc ++ [(k, v)], v).

Definition perform (o : op) : M (splay_map V) answer :=
  match o with
  | OInsert k v => n ← insert k v; w ← deref n; mret (AVal w)
  | ORemove k => n ← remove k; w ← deref n; mret (AVal w)
  | OFind k => b ← exist k; if (b : bool) then v ← find; mret (AVal (Some v)) else mret (AVal None)
  | OSize => n ← size; mret (ASize n)
  | OList => l ← enumerate gather []; mret (AList l)
  end.

Fixpoint performs (os : list op) : M (splay_map V) (list answer) :=
  match os with
  | [] => mret []
  | o :: os => a ← perform o; l ← performs os; mret (a :: l)
  end.

(** ** The specification *)

Definition after (o : op) (m : gmap Z V) : gmap Z V :=
  match o with OInsert k v => <[k := v]> m | ORemove k => delete k m | _ => m end.

Definition specified (o : op) (m : gmap Z V) (a : answer) : Prop :=
  match o, a with
  | OInsert _ v, AVal w => w = Some v
  | ORemove k, AVal w | OFind k, AVal w => w = m !! k
  | OSize, ASize n => n = Z.of_nat (base.size m)
  | OList, AList l => listing m l
  | _, _ => False
  end.

Fixpoint conforms (m : gmap Z V) (os : list op) (l : list answer) : Prop :=
  match os, l with
  | [], [] => True
  | o :: os, a :: l => specified o m a /\ conforms (after o m) os l
  | _, _ => False
  end.

(** Never more than [c] keys. *)
Fixpoint within (c : Z) (m : gmap Z V) (os : list op) : Prop :=
  Z.of_nat (base.size m) <= c /\ match os with [] => True | o :: os => within c (after o m) os end.

(** ** Sizes *)

Lemma values_size s im : holds s im -> base.size (values (v_buff s) im) = base.size im.
Proof.
  intros Hh. rewrite <- !size_dom. f_equal. apply set_eq. intros k. rewrite !elem_of_dom, lookup_values. split; [by intros [v (p & -> & _)%bind_Some]|].
  intros [p E]. rewrite E. by apply (holds_index _ _ _ _ Hh E).
Qed.

Lemma through_gather l : forall acc, through gather acc l = (acc ++ l, l).
Proof.
  induction l as [|[k v] l IH]; intros acc; simpl; [by rewrite app_nil_r|]. rewrite IH. simpl. by rewrite <- app_assoc.
Qed.

(** The state between two operations. *)
Definition ready (isz c : Z) (s : splay_map V) (m : gmap Z V) : Prop := represents s m /\ roomy isz c s.

Lemma ready_kept isz c s s' m m' : ready isz c s m -> kept s s' -> represents s' m' -> ready isz c s' m'.
Proof. intros [_ Hr] Hk Hr'. split; [done|by eapply roomy_kept]. Qed.

Lemma deref_run s n v (Q : option V -> splay_map V -> Prop) : n <> 0%nat -> v_buff s !! n = Some v -> Q (Some v) s -> wp (deref n) Q s.
Proof. intros Hn Hv HQ. unfold deref. destruct (Nat.eqb_spec n 0); [done|]. wp_step. eapply get_val_run; [done|]. by wp_step. Qed.

Section Bounded.
Context (isz c : Z) (Hisz : 0 < isz) (Hfits : fits (c + 1 + isz)).

Lemma ready_insert k v s m : ready isz c s m -> Z.of_nat (base.size m) <= c ->
  wp (perform (OInsert k v)) (fun a s' => a = AVal (Some v) /\ ready isz c s' (<[k := v]> m)) s.
Proof.
  intros [Hr Hroom] Hm. cbn [perform]. wp_step. destruct Hr as (im & Hh & ->). rewrite values_size in Hm by done.
  eapply wp_mono, (roomy_insert isz c Hisz Hfits k v s im Hh Hroom Hm). intros n s' (Hins & Hroom'). pose proof Hins as (Hn & Hh' & Hv & _ & Hf & Hx).
  wp_step. eapply deref_run; [done|done|]. wp_step. split; [done|]. split; [|done]. exists (<[k := n]> im). split; [done|]. symmetry.
  apply values_insert; try done. intros k1 k2 p. by apply holds_inj with s.
Qed.

Lemma ready_perform o s m : ready isz c s m -> Z.of_nat (base.size m) <= c ->
  wp (perform o) (fun a s' => specified o m a /\ ready isz c s' (after o m)) s.
Proof.
  intros Hr Hm. destruct o as [k v|k|k| |].
  - eapply wp_mono, ready_insert; [|done..]. by intros a s' [-> ?].
  - cbn [perform]. wp_step. eapply wp_mono, represents_remove; [|apply Hr]. intros n s' (Hk & Hr' & Hn). wp_step. destruct (m !! k) as [v|] eqn:Em.
    + destruct Hn as [Hn Hv]. eapply deref_run; [done|done|]. wp_step. simpl. split; [by rewrite Em|by eapply ready_kept].
    + subst n. unfold deref. cbn [Nat.eqb]. wp_step. wp_step. simpl. split; [by rewrite Em|by eapply ready_kept].
  - cbn [perform]. wp_step. eapply wp_mono, represents_exist; [|apply Hr]. intros b s' (-> & Hr' & Hk & Hf). destruct (m !! k) as [v|] eqn:Em.
    + rewrite bool_decide_true by (by eexists). wp_step. eapply find_run; [by apply Hf|]. wp_step. simpl. split; [by rewrite Em|by eapply ready_kept].
    + rewrite bool_decide_false by (by intros [? ?]). wp_step. simpl. split; [by rewrite Em|by eapply ready_kept].
  - cbn [perform]. unfold size. destruct Hr as ((im & Hh & ->) & Hroom). destruct (holds_size _ _ Hh) as (i & Ei & Et & _). wp_step. wp_step.
    eapply get_info_run; [done|]. wp_step. wp_step. split; [simpl; by rewrite values_size|]. split; [by exists im|done].
  - cbn [perform]. wp_step. eapply wp_mono, represents_enumerate; [|apply Hr]. intros a s' (Hk & l & Hl & -> & Hr'). rewrite through_gather in *. wp_step.
    simpl in *. split; [done|]. destruct Hl as [_ Hl]. rewrite Hl in Hr'. by eapply ready_kept.
Qed.

Lemma ready_performs os : forall s m, ready isz c s m -> within c m os -> wp (performs os) (fun l s' => conforms m os l) s.
Proof.
  induction os as [|o os IH]; intros s m Hr Hw; cbn [performs]; [by wp_step|]. destruct Hw as [Hm Hw]. wp_step.
  eapply wp_mono, ready_perform; [|done..]. intros a s' [Ha Hr']. wp_step. eapply wp_mono, IH; [|done..]. intros l s'' Hl. by wp_step.
Qed.
End Bounded.

(** C25. The splay map implements a finite map.  Constructed with room for [_is] entries (1024 if
    that is 0), it answers every sequence of insertions, removals, searches, size queries and
    enumerations as a finite map does, where memory lasts and at most [c] keys are present at any
    time, with the two buffers for [c + 1] entries and one more increment below 4 GiB: an
    insertion returns the new value, a removal the removed one, a search the present one, the size
    is the number of keys and the enumeration visits the bindings once each in the order of the
    keys.  No operation runs out of fuel or leaves its buffers. *)
Theorem splay_map_refines (_is c : Z) (os : list op) :
  let n := if _is =? 0 then 1024 else _is in
  0 <= _is -> 0 <= c -> fits (c + 1 + n) -> within c ∅ os ->
  exists s l s', new _is [] = (Ok true, s) /\ performs os s = (Ok l, s') /\ conforms ∅ os l.
Proof.
  intros n Hi Hc Hf Hw. assert (0 < n) as Hn by (unfold n; destruct (Z.eqb_spec _is 0); lia).
  assert (fits n) as (F1 & F2 & F3 & F4 & F5) by (eapply fits_le, Hf; lia).
  destruct (new_run _is) as (s & E & Hr & Ei & Ea & Eb); try done. fold n in Ei, Eb. assert (represents s ∅) as Hr' by (exists ∅; split; [done|]; by apply map_eq).
  assert (ready n c s ∅) as Hready. { split; [done|]. split_and!; [done|done|]. intros i Hi'. rewrite Hi' in Eb. simpl in Eb. simplify_eq. lia. }
  destruct (wp_run _ _ _ (ready_performs n c Hn Hf os s ∅ Hready Hw)) as (l & s' & El & Hl). by exists s, l, s'.
Qed.

(** Without memory, an insertion changes nothing.  [insert] returns a null pointer exactly if
    the array is full and one of the two requests for larger buffers is refused (the second
    refusal leaves a larger array of nodes behind); the map then represents the same bindings, and
    otherwise the pointer leads to the new value and the map has the new binding. *)
Lemma splay_insert_refused (k : Z) (v : V) (s : splay_map V) (m : gmap Z V) :
  represents s m -> 0 < i_size s -> (full s = true -> spacious s 1) ->
  exists n s', insert k v s = (Ok n, s') /\ (n = 0%nat <-> full s && negb (granted s) = true)
    /\ if (n =? 0)%nat then represents s' m else v_buff s' !! n = Some v /\ represents s' (<[k := v]> m).
Proof.
  intros Hr Hi Hs. destruct (wp_run _ _ _ (represents_insert k v s m Hr Hi Hs)) as (n & s' & E & _ & H). by exists n, s'.
Qed.
End Ops.
Arguments op : clear implicits.

(** Pointers to 8-byte values. *)
#[local] Instance layout_example : Layout Z := {| zero_val := 0; sizeof_node := 16; sizeof_val := 8 |}.

(** [C90] on a sequence that grows the arrays and uses a removed node again. *)
Lemma splay_map_refines_witness : exists s l s', new 2 [] = (Ok true, s)
  /\ performs [OInsert 5 50; OInsert 3 30; OInsert 9 90; OInsert 3 31; ORemove 5; OFind 5; OFind 3; OInsert 7 70; OSize; OList] s = (Ok l, s')
  /\ conforms ∅ [OInsert 5 50; OInsert 3 30; OInsert 9 90; OInsert 3 31; ORemove 5; OFind 5; OFind 3; OInsert 7 70; OSize; OList] l.
Proof.
  apply (splay_map_refines 2 3); [lia|lia|by vm_compute|].
  cbn [within after]. repeat (split; [apply Z.leb_le; vm_compute; reflexivity|]). done.
Defined.

(** [C91] on a map whose second request is refused. *)
Lemma splay_insert_refused_witness : exists n s', insert 5 50 (new 1 [true; true; false]).2 = (Ok n, s') /\ n = 0%nat.
Proof.
  destruct (splay_insert_refused 5 50 (new 1 [true; true; false]).2 ∅) as (n & s' & E & Hn & _).
  - exists ∅. split; [|by apply map_eq]. exists (MkInfo 0 0 1 0), Leaf, [], 0%nat. split; [|intros k p; rewrite lookup_empty; split; [done|by intros ?%not_elem_of_nil]].
    split_and!; try done; constructor.
  - vm_compute. reflexivity.
  - intros _. do 3 (split; [by vm_compute|]). intros i [= <-]. by vm_compute.
  - exists n, s'. split; [done|]. apply Hn. vm_compute. reflexivity.
Defined.
End SplayOps.
