(* ===== verification/MemoryMetas.v ===== *)
(** The bookkeeping of the memory hook (traceharbor-hooks, memory/MemoryHookMetas.h, with the
    message handler of memory/MemoryBufferQueue.cpp and the collection of memory/MemoryHook.cpp).

    A container keeps one splay map from live pointers to their [ptr_meta] and one from the hashes
    of call stacks to their [stack_meta].  A call stack whose hash is taken by another one gets a
    block of its own on the C heap, linked from the entry of the hash through [ext].  A pointer
    refers to the record of its stack by the index in the array of the splay map or by the address
    of the block.  The mutexes are left out: every operation holds the one of the map it uses. *)
From S2P Require Import Prelude Arch Machine SplayMap.

Module MemoryMetas.
Import SplayMap.

Section Metas.
Context `{A : Arch}.

(** * Call stacks *)

(** A [Frame] of BacktraceDefine.h. *)
Record Frame := MkFrame { attr : Z; pc : Z }.

(** [frames] up to [frame_size], at most [MEMHOOK_BACKTRACE_MAX_FRAMES]. *)
Definition backtrace_t : Type := list Frame.

Definition MAX_FRAMES : nat := 16.

(** The pc of a frame is shifted as a word and added up in 64 bits. *)
Fixpoint hash_loop (i : Z) (frames : list Frame) (sum : Z) : Z :=
  match frames with
  | [] => sum
  | f :: frames => hash_loop (i + 1) frames (u64 (sum + uword (Z.shiftl (pc f) (Z.shiftl i 1))))
  end.

Definition hash_frames (frames : list Frame) : Z :=
  match frames with
  | [] => 1
  | _ => hash_loop 0 (take 16 frames) (Z.of_nat (length frames))
  end.

Fixpoint compare_frames (a b : list Frame) : bool :=
  match a, b with
  | f :: a, g :: b => if pc f =? pc g then compare_frames a b else false
  | _, _ => true
  end.

Definition stacktrace_compare_common (a b : backtrace_t) : bool :=
  if negb (length a =? length b)%nat then false else compare_frames a b.

(** * Records *)

Record allocation_message := MkAlloc { am_ptr : Z; am_caller : Z; am_size : Z; am_backtrace : backtrace_t }.

(** [pm_word] is the union of [caller], [stack_idx] and [ext_stack_ptr]. *)
Record ptr_meta := MkPtr {
  pm_ptr : Z;
  pm_size : Z;
  pm_stack_hash : Z;
  pm_word : Z;
  pm_is_stack_idx : bool;
  pm_is_mmap : bool
}.

Record stack_meta := MkStack { sm_size : Z; sm_caller : Z; sm_backtrace : backtrace_t; sm_ext : Z }.

Definition zero_stack : stack_meta := MkStack 0 0 [] 0.

Definition sizeof_frame : Z := if elf_machine =? 183 then 8 else word_bytes + 1.

#[export] Instance ptr_layout : Layout ptr_meta :=
  {| zero_val := MkPtr 0 0 0 0 false false; sizeof_node := word_bytes + 8; sizeof_val := 3 * word_bytes + 9 |}.

#[export] Instance stack_layout : Layout stack_meta :=
  {| zero_val := zero_stack; sizeof_node := 16; sizeof_val := 3 * word_bytes + Z.of_nat MAX_FRAMES * sizeof_frame + 1 |}.

(** * The records of stacks *)

(** Where a record is: an index of the array, or the address of a block. *)
Definition place : Type := (nat + Z)%type.

(** [blocks] are the blocks that [calloc] returned and nobody freed; addresses are names, and
    [next_block] is the next one.  [callocs] says which calls of [calloc] are granted. *)
Record stack_store := MkStore {
  stack_map : splay_map stack_meta;
  blocks : gmap Z stack_meta;
  next_block : Z;
  callocs : list bool;
  extra_allocated : Z;
  extra_kept : Z
}.

Definition put_stack_map (m : splay_map stack_meta) (s : stack_store) : stack_store :=
  MkStore m (blocks s) (next_block s) (callocs s) (extra_allocated s) (extra_kept s).
Definition put_blocks (b : gmap Z stack_meta) (s : stack_store) : stack_store :=
  MkStore (stack_map s) b (next_block s) (callocs s) (extra_allocated s) (extra_kept s).

Definition on_map {B} : M (splay_map stack_meta) B -> M stack_store B := lift stack_map put_stack_map.

Definition read_meta (p : place) : M stack_store stack_meta :=
  match p with
  | inl n => on_map (get_val n)
  | inr a => reads (fun s => if a =? 0 then Segv else match blocks s !! a with Some m => Ok m | None => Undef end)
  end.

Definition write_meta (p : place) (m : stack_meta) : M stack_store unit :=
  match p with
  | inl n => on_map (set_val n m)
  | inr a => _ ← read_meta p; modify (fun s => put_blocks (<[a := m]> (blocks s)) s)
  end.

Definition update_meta (p : place) (f : stack_meta -> stack_meta) : M stack_store unit := m ← read_meta p; write_meta p (f m).

Definition set_ext (e : Z) (m : stack_meta) : stack_meta := MkStack (sm_size m) (sm_caller m) (sm_backtrace m) e.
Definition set_size (n : Z) (m : stack_meta) : stack_meta := MkStack n (sm_caller m) (sm_backtrace m) (sm_ext m).

(** [calloc(1, sizeof(stack_meta_t))]. *)
Definition calloc_meta : M stack_store Z := fun s =>
  let granted := MkStore (stack_map s) (<[next_block s := zero_stack]> (blocks s)) (next_block s + 1) (tail (callocs s)) (extra_allocated s) (extra_kept s) in
  match callocs s with
  | false :: l => (Ok 0, MkStore (stack_map s) (blocks s) (next_block s) l (extra_allocated s) (extra_kept s))
  | _ => (Ok (next_block s), granted)
  end.

Definition free_meta (a : Z) : M stack_store unit := modify (fun s => put_blocks (delete a (blocks s)) s).

Definition count_extra (allocated kept : Z) : M stack_store unit :=
  modify (fun s => MkStore (stack_map s) (blocks s) (next_block s) (callocs s) (uword (extra_allocated s + allocated)) (uword (extra_kept s + kept))).

Definition critical_check {S} (b : bool) : M S unit := if b then mret tt else raise Aborted.

(** ** The vectors of maps have one element each *)

Definition MAX_PTR_META_SLOT : Z := Z.shiftl 1 0.
Definition MAX_STACK_META_SLOT : Z := Z.shiftl 1 0.
Definition ptr_meta_hash (k : Z) : Z := Z.land (Z.lxor k (Z.shiftr k 16)) (MAX_PTR_META_SLOT - 1).
Definition stack_meta_hash (k : Z) : Z := Z.land (Z.lxor k (Z.shiftr k 16)) (MAX_STACK_META_SLOT - 1).

(** [containers.data()[hash]]. *)
Definition slot {S} (hash capacity : Z) : M S unit := if hash <? capacity then mret tt else raise Undef.

(** ** Inserting *)

(** The loop over the records of one hash: the last record it looked at, whether it is the stack
    of the message, and whether it is the first one. *)
Fixpoint search_chain (fuel : nat) (am : allocation_message) (target : place) (is_top : bool) : M stack_store (place * bool * bool) :=
  match fuel with
  | O => raise NoFuel
  | S fuel =>
      m ← read_meta target;
      let same := if am_caller am =? sm_caller m then stacktrace_compare_common (am_backtrace am) (sm_backtrace m) else false in
      if same then mret (target, true, is_top) else
      if sm_ext m =? 0 then mret (target, false, false) else
      search_chain fuel am (inr (sm_ext m)) false
  end.

(** The record for the stack of the message; [None] is a null pointer.  The second component is
    what the pointer remembers, with [is_stack_idx]. *)
Definition stack_of (stack_hash : Z) (am : allocation_message) : M stack_store (option place * option (Z * bool)) :=
  slot (stack_meta_hash stack_hash) MAX_STACK_META_SLOT;;
  found ← on_map (exist stack_hash);
  if (found : bool) then
    top ← on_map (gets last_ptr);
    last ← on_map current_root;
    critical_check (negb (last =? 0)%nat);;
    n ← gets blocks;
    '(target, same, is_top) ← search_chain (S (base.size n)) am (inl top) true;
    '(target, is_top) ←
      (if (same : bool) then mret (Some target, is_top) else
       m ← read_meta (inl top);
       if (sm_size m =? 0) && (sm_caller m =? 0) && (length (sm_backtrace m) =? 0)%nat then mret (Some (inl top), true)
       else
         a ← calloc_meta;
         update_meta target (set_ext a);;
         count_extra 1 1;;
         mret (if a =? 0 then None else Some (inr a), false));
    let word := if (is_top : bool) then Z.of_nat last else match target with Some (inr a) => a | _ => 0 end in
    mret (target, Some (word, is_top))
  else
    n ← on_map (insert stack_hash zero_val);
    if (n =? 0)%nat then mret (None, None) else
    last ← on_map current_root;
    mret (Some (inl n), Some (Z.of_nat last, true)).

(** ** Erasing *)

(** The loop that looks for the block [target]: its predecessor, and the block or 0. *)
Fixpoint find_prev (fuel : nat) (prev : place) (ext target : Z) : M stack_store (place * Z) :=
  if ext =? 0 then mret (prev, 0) else
  if ext =? target then mret (prev, ext) else
  match fuel with
  | O => raise NoFuel
  | S fuel => m ← read_meta (inr ext); find_prev fuel (inr ext) (sm_ext m) target
  end.

(** What [erase] does with the stack of the pointer. *)
Definition release_stack (pm : ptr_meta) : M stack_store unit :=
  slot (stack_meta_hash (pm_stack_hash pm)) MAX_STACK_META_SLOT;;
  found ← on_map (exist (pm_stack_hash pm));
  if negb found then mret tt else
  top ← on_map (gets last_ptr);
  top_idx ← on_map current_root;
  target ← (if pm_is_stack_idx pm then critical_check (pm_word pm =? Z.of_nat top_idx);; mret (inl (Z.to_nat (pm_word pm))) else mret (inr (pm_word pm)));
  m ← read_meta target;
  if pm_size pm <? sm_size m then write_meta target (set_size (sm_size m - pm_size pm) m) else
  t ← read_meta (inl top);
  if pm_is_stack_idx pm then
    if sm_ext t =? 0 then _ ← on_map (remove (pm_stack_hash pm)); mret tt
    else write_meta (inl top) (MkStack 0 0 [] (sm_ext t))
  else
    critical_check (negb (sm_ext t =? 0));;
    n ← gets blocks;
    '(prev, ext) ← find_prev (base.size n) (inl top) (sm_ext t) (pm_word pm);
    critical_check (negb (ext =? 0));;
    e ← read_meta (inr ext);
    update_meta prev (set_ext (sm_ext e));;
    free_meta ext;;
    count_extra 0 (-1).

(** * The container *)

Record memory_meta_container := MkMetas { ptr_map : splay_map ptr_meta; stacks : stack_store }.

Definition on_ptrs {B} : M (splay_map ptr_meta) B -> M memory_meta_container B := lift ptr_map (fun m s => MkMetas m (stacks s)).
Definition on_stacks {B} : M stack_store B -> M memory_meta_container B := lift stacks (fun t s => MkMetas (ptr_map s) t).

Definition PTR_SPLAY_MAP_CAPACITY : Z := 10240.
Definition STACK_SPLAY_MAP_CAPACITY : Z := 1024.

(** The constructor; [pm], [sm] and [cs] say which requests for memory are granted. *)
Definition new_container (pm sm cs : list bool) : memory_meta_container :=
  MkMetas (new PTR_SPLAY_MAP_CAPACITY pm).2 (MkStore (new STACK_SPLAY_MAP_CAPACITY sm).2 ∅ 1 cs 0 0).

Definition update_ptr (n : nat) (f : ptr_meta -> ptr_meta) : M memory_meta_container unit :=
  m ← on_ptrs (get_val n); on_ptrs (set_val n (f m)).

Definition set_hash (h : Z) (m : ptr_meta) : ptr_meta := MkPtr (pm_ptr m) (pm_size m) h (pm_word m) (pm_is_stack_idx m) (pm_is_mmap m).
Definition set_stack (w : Z) (is_idx : bool) (m : ptr_meta) : ptr_meta := MkPtr (pm_ptr m) (pm_size m) (pm_stack_hash m) w is_idx (pm_is_mmap m).

Definition insert_meta (ptr stack_hash : Z) (am : allocation_message) (callback : nat -> option place -> M memory_meta_container unit) : M memory_meta_container unit :=
  slot (ptr_meta_hash ptr) MAX_PTR_META_SLOT;;
  n ← on_ptrs (insert ptr zero_val);
  if (n =? 0)%nat then mret tt else
  update_ptr n (set_hash stack_hash);;
  if stack_hash =? 0 then callback n None else
  '(target, mark) ← on_stacks (stack_of stack_hash am);
  (match mark with Some (w, is_idx) => update_ptr n (set_stack w is_idx) | None => mret tt end);;
  critical_check (match target with Some _ => true | None => false end);;
  callback n target.

Definition get_meta (k : Z) (callable : nat -> M memory_meta_container unit) : M memory_meta_container unit :=
  slot (ptr_meta_hash k) MAX_PTR_META_SLOT;;
  found ← on_ptrs (exist k);
  if (found : bool) then p ← on_ptrs (gets last_ptr); callable p else mret tt.

Definition contains (k : Z) : M memory_meta_container bool := slot (ptr_meta_hash k) MAX_PTR_META_SLOT;; on_ptrs (exist k).

Definition erase (k : Z) : M memory_meta_container bool :=
  slot (ptr_meta_hash k) MAX_PTR_META_SLOT;;
  n ← on_ptrs (remove k);
  if (n =? 0)%nat then mret false else
  pm ← on_ptrs (get_val n);
  (if pm_stack_hash pm =? 0 then mret tt else on_stacks (release_stack pm));;
  mret true.

(** One turn of [for_each]; the callback may look at the pointer and at its stack. *)
Definition for_each_step {B} (callback : B -> Z -> ptr_meta -> option place -> M stack_store B) (b : B) (k : Z) (pm : ptr_meta) : M stack_store B :=
  if pm_stack_hash pm =? 0 then callback b k pm None else
  slot (stack_meta_hash (pm_stack_hash pm)) MAX_STACK_META_SLOT;;
  found ← on_map (exist (pm_stack_hash pm));
  callback b k pm (if (found : bool) then Some (if pm_is_stack_idx pm then inl (Z.to_nat (pm_word pm)) else inr (pm_word pm)) else None).

(** The lambda that [for_each] passes to [enumerate]: nothing happens after an abort. *)
Definition for_each_visit {B} (callback : B -> Z -> ptr_meta -> option place -> M stack_store B) (acc : result B * stack_store) (k : Z) (pm : ptr_meta)
  : (result B * stack_store) * ptr_meta :=
  match acc with
  | (Ok b, st) => (for_each_step callback b k pm st, pm)
  | _ => (acc, pm)
  end.

Definition for_each {B} (callback : B -> Z -> ptr_meta -> option place -> M stack_store B) (b : B) : M memory_meta_container B := fun s =>
  match enumerate (for_each_visit callback) (Ok b, stacks s) (ptr_map s) with
  | (Ok (r, st), m) => (r, MkMetas m st)
  | (Segv, m) => (Segv, MkMetas m (stacks s))
  | (Aborted, m) => (Aborted, MkMetas m (stacks s))
  | (Undef, m) => (Undef, MkMetas m (stacks s))
  | (NoFuel, m) => (NoFuel, MkMetas m (stacks s))
  end.

(** * Messages *)

(** The callback of [process_routine]: it fills in the pointer, and the stack if it is new. *)
Definition record_allocation (is_mmap : bool) (am : allocation_message) (n : nat) (stack : option place) : M memory_meta_container unit :=
  update_ptr n (fun m => MkPtr (am_ptr am) (am_size am) (pm_stack_hash m) (pm_word m) (pm_is_stack_idx m) is_mmap);;
  match stack with
  | None => update_ptr n (fun m => MkPtr (pm_ptr m) (pm_size m) (pm_stack_hash m) (am_caller am) (pm_is_stack_idx m) (pm_is_mmap m))
  | Some p =>
      on_stacks (update_meta p (fun m => set_size (uword (sm_size m + am_size am)) m);;
                 update_meta p (fun m => if (length (sm_backtrace m) =? 0)%nat && negb (length (am_backtrace am) =? 0)%nat
                                         then MkStack (sm_size m) (am_caller am) (am_backtrace am) (sm_ext m) else m))
  end.

Definition stack_hash_of (am : allocation_message) : Z :=
  if negb (am_size am =? 0) && negb (length (am_backtrace am) =? 0)%nat then hash_frames (am_backtrace am) else 0.

Definition process_allocation (is_mmap : bool) (am : allocation_message) : M memory_meta_container unit :=
  insert_meta (am_ptr am) (stack_hash_of am) am (record_allocation is_mmap am).

(** * Collecting *)

Record caller_meta := MkCaller { total_size : Z; pointers : gset Z }.

Record collected := MkCollected {
  heap_callers : gmap Z caller_meta;
  mmap_callers : gmap Z caller_meta;
  heap_stacks : gmap place stack_meta;
  mmap_stacks : gmap place stack_meta;
  ptr_meta_size : Z
}.

Definition add_caller (caller ptr size : Z) (m : gmap Z caller_meta) : gmap Z caller_meta :=
  let c := default (MkCaller 0 ∅) (m !! caller) in
  <[caller := MkCaller (uword (total_size c + size)) ({[ptr]} ∪ pointers c)]> m.

Definition add_stack (p : place) (size : Z) (sm : stack_meta) (m : gmap place stack_meta) : gmap place stack_meta :=
  let d := default zero_stack (m !! p) in
  <[p := MkStack (uword (sm_size d + size)) (sm_caller sm) (sm_backtrace sm) (sm_ext d)]> m.

Definition collect_visit (c : collected) (ptr : Z) (pm : ptr_meta) (stack : option place) : M stack_store collected :=
  sm ← match stack with Some p => m ← read_meta p; mret (Some (p, m)) | None => mret None end;
  let caller := match sm with Some (_, m) => sm_caller m | None => pm_word pm end in
  let callers := if caller =? 0 then (fun m => m) else add_caller caller ptr (pm_size pm) in
  let stacks := match sm with Some (p, m) => add_stack p (pm_size pm) m | None => fun m => m end in
  mret (if pm_is_mmap pm
        then MkCollected (heap_callers c) (callers (mmap_callers c)) (heap_stacks c) (stacks (mmap_stacks c)) (uword (ptr_meta_size c + 1))
        else MkCollected (callers (heap_callers c)) (mmap_callers c) (stacks (heap_stacks c)) (mmap_stacks c) (uword (ptr_meta_size c + 1))).

Definition collect_metas : M memory_meta_container collected := for_each collect_visit (MkCollected ∅ ∅ ∅ ∅ 0).
End Metas.
End MemoryMetas.
