(* ===== verification/MemoryFacts.v ===== *)
(** The records of call stacks.

    The first half of the correctness of the container: [linked] is the structure of the store of
    stacks, in which every hash has an entry of the splay map and a chain of blocks, and every
    block is on one chain.  [contents] is what clients see of a record, without its link. *)
From S2P Require Import Prelude Arch Machine SplayMap SplayTree SplayFacts MemoryMetas.

Module MemoryFacts.
Import SplayMap SplayFacts MemoryMetas.

Lemma wp_lift {S T B} (get : S -> T) (put : T -> S -> S) (c : M T B) (Q : B -> S -> Prop) s :
  wp c (fun b t => Q b (put t s)) (get s) -> wp (lift get put c) Q s.
Proof. unfold wp, lift. by destruct (c (get s)) as [[] t]. Qed.

Section Facts.
Context `{A : Arch}.
Implicit Types st : stack_store.

(** * Call stacks *)

(** What distinguishes two stacks. *)
Definition am_stack (am : allocation_message) : Z * list Z := (am_caller am, map pc (am_backtrace am)).

(** Size, caller and frames of a record. *)
Definition content (m : stack_meta) : Z * Z * backtrace_t := (sm_size m, sm_caller m, sm_backtrace m).

Definition content_stack (c : Z * Z * backtrace_t) : Z * list Z := (c.1.2, map pc c.2).

Lemma compare_frames_spec a : forall b, length a = length b -> compare_frames a b = true <-> map pc a = map pc b.
Proof.
  induction a as [|f a IH]; intros [|g b] Hl; simpl in *; try done. injection Hl as Hl. destruct (Z.eqb_spec (pc f) (pc g)) as [->|Hne].
  - rewrite IH by done. split; [by intros ->|by intros [= ->]].
  - split; [done|]. by intros [= ? _].
Qed.

Lemma compare_common_spec a b : stacktrace_compare_common a b = true <-> map pc a = map pc b.
Proof.
  unfold stacktrace_compare_common. destruct (Nat.eqb_spec (length a) (length b)) as [El|Hne]; cbn [negb]; [by apply compare_frames_spec|].
  split; [done|]. intros E. apply (f_equal length) in E. by rewrite !length_map in E.
Qed.

(** The test of the loop in [insert]. *)
Lemma same_spec am m : (if am_caller am =? sm_caller m then stacktrace_compare_common (am_backtrace am) (sm_backtrace m) else false) = true <-> content_stack (content m) = am_stack am.
Proof.
  unfold content_stack, content, am_stack. simpl. destruct (Z.eqb_spec (am_caller am) (sm_caller m)) as [->|Hne].
  - rewrite compare_common_spec. split; [by intros ->|by intros [= ->]].
  - split; [done|]. by intros [= ? _].
Qed.

(** * Records *)

Definition rd (st : stack_store) (p : place) : option stack_meta :=
  match p with inl n => v_buff (stack_map st) !! n | inr a => blocks st !! a end.

Definition wr (p : place) (m : stack_meta) (st : stack_store) : stack_store :=
  match p with
  | inl n => put_stack_map (put_vals (<[n := m]> (v_buff (stack_map st))) (stack_map st)) st
  | inr a => put_blocks (<[a := m]> (blocks st)) st
  end.

Lemma read_meta_run st p m (Q : stack_meta -> stack_store -> Prop) : rd st p = Some m -> p <> inr 0 -> Q m st -> wp (read_meta p) Q st.
Proof.
  destruct p as [n|a]; simpl; intros E Hp HQ.
  - apply wp_lift. eapply get_val_run; [done|]. by destruct st.
  - eapply wp_reads; [|done]. destruct (Z.eqb_spec a 0) as [->|_]; [done|]. by rewrite E.
Qed.

Lemma write_meta_run st p m m' (Q : unit -> stack_store -> Prop) : rd st p = Some m -> p <> inr 0 -> Q tt (wr p m' st) -> wp (write_meta p m') Q st.
Proof.
  destruct p as [n|a]; simpl; intros E Hp HQ.
  - apply wp_lift. apply set_val_run; [by eapply lookup_lt_Some|done].
  - wp_step. eapply (read_meta_run st (inr a)); [done|done|]. by wp_step.
Qed.

Lemma update_meta_run st p m f (Q : unit -> stack_store -> Prop) : rd st p = Some m -> p <> inr 0 -> Q tt (wr p (f m) st) -> wp (update_meta p f) Q st.
Proof. intros E Hp HQ. unfold update_meta. wp_step. eapply read_meta_run; [done|done|]. by eapply write_meta_run. Qed.

Lemma rd_wr st p q m : is_Some (rd st p) -> rd (wr p m st) q = if decide (p = q) then Some m else rd st q.
Proof.
  destruct p as [n|a]; cbn [rd wr]; intros [m0 E].
  - destruct q as [k|b]; cbn [rd stack_map put_stack_map v_buff put_vals blocks]; [|by rewrite decide_False by done]. rewrite list_lookup_insert. apply lookup_lt_Some in E.
    destruct (decide (n = k)) as [->|Hne]; [by rewrite !decide_True by done|]. rewrite !decide_False; [done|congruence|tauto].
  - destruct q as [k|b]; cbn [rd stack_map put_blocks blocks]; [by rewrite decide_False by done|]. rewrite lookup_insert.
    destruct (decide (a = b)) as [->|Hne]; [by rewrite decide_True by done|]. rewrite decide_False; [done|congruence].
Qed.

(** * Chains *)

(** The blocks [bs] hang on the record at [p]. *)
Fixpoint chained (st : stack_store) (p : place) (bs : list Z) : Prop :=
  match bs with
  | [] => exists m, rd st p = Some m /\ sm_ext m = 0
  | b :: bs => b <> 0 /\ (exists m, rd st p = Some m /\ sm_ext m = b) /\ chained st (inr b) bs
  end.

Definition places (n : nat) (bs : list Z) : list place := inl n :: map inr bs.

Fixpoint last_place (p : place) (bs : list Z) : place := match bs with [] => p | b :: bs => last_place (inr b) bs end.

Lemma chained_in st p bs q : chained st p bs -> q ∈ p :: map inr bs -> exists m, rd st q = Some m.
Proof.
  revert p. induction bs as [|b bs IH]; intros p Hc Hq; simpl in *.
  - apply list_elem_of_singleton in Hq as ->. destruct Hc as (m & Hm & _). by exists m.
  - destruct Hc as (_ & (m & Hm & _) & Hc). apply elem_of_cons in Hq as [->|Hq]; [by exists m|]. by eapply IH.
Qed.

Lemma chained_nonzero st p bs a : chained st p bs -> a ∈ bs -> a <> 0.
Proof. revert p. induction bs as [|b bs IH]; intros p Hc Ha; [by apply not_elem_of_nil in Ha|]. destruct Hc as (Hb & _ & Hc). apply elem_of_cons in Ha as [->|Ha]; [done|by eapply IH]. Qed.

(** Only the links matter. *)
Lemma chained_ext st st' p bs : (forall q, q ∈ p :: map inr bs -> sm_ext <$> rd st' q = sm_ext <$> rd st q) -> chained st p bs -> chained st' p bs.
Proof.
  revert p. induction bs as [|b bs IH]; intros p Hx Hc; simpl in *.
  - destruct Hc as (m & Hm & He). specialize (Hx p ltac:(set_solver)). rewrite Hm in Hx. simpl in Hx. apply fmap_Some in Hx as (m' & Hm' & E). exists m'. by rewrite <- E.
  - destruct Hc as (Hb & (m & Hm & He) & Hc). split_and!; [done| |apply IH; [intros q Hq; apply Hx; set_solver|done]].
    specialize (Hx p ltac:(set_solver)). rewrite Hm in Hx. simpl in Hx. apply fmap_Some in Hx as (m' & Hm' & E). exists m'. by rewrite <- E.
Qed.

Lemma last_place_in p bs : last_place p bs ∈ p :: map inr bs.
Proof. revert p. induction bs as [|b bs IH]; intros p; simpl; [by apply list_elem_of_singleton|]. apply elem_of_cons. right. apply IH. Qed.

(** ** Searching *)

(** What the loop finds from the record at [p] on. *)
Definition searched (st : stack_store) (am : allocation_message) (p : place) (bs : list Z) (b : bool) (r : place * bool * bool) : Prop :=
  let '(q, same, top) := r in
  if same then (exists m, rd st q = Some m /\ content_stack (content m) = am_stack am) /\ (q = p /\ top = b \/ top = false /\ q ∈ map (inr : Z -> place) bs)
  else q = last_place p bs /\ top = false /\ forall q' m, q' ∈ p :: map inr bs -> rd st q' = Some m -> content_stack (content m) <> am_stack am.

Lemma search_chain_run st am fuel : forall p bs b (Q : place * bool * bool -> stack_store -> Prop), chained st p bs -> p <> inr 0 -> (length bs < fuel)%nat ->
  (forall r, searched st am p bs b r -> Q r st) -> wp (search_chain fuel am p b) Q st.
Proof.
  induction fuel as [|fuel IH]; intros p bs b Q Hc Hp Hf HQ; [lia|]. cbn [search_chain].
  assert (exists m, rd st p = Some m) as [m Hm] by (eapply chained_in; [done|set_solver]). wp_step. eapply read_meta_run; [done|done|].
  pose proof (same_spec am m) as Hsame. destruct (if _ =? _ then _ else _) eqn:Es.
  - wp_step. apply HQ. split; [exists m; split; [done|by apply Hsame]|by left].
  - assert (content_stack (content m) <> am_stack am) as Hne by (intros E; apply Hsame in E; congruence). clear Hsame Es.
    destruct bs as [|b' bs]; cbn [chained] in Hc.
    + destruct Hc as (m' & Hm' & He). assert (m' = m) as -> by congruence. destruct (Z.eqb_spec (sm_ext m) 0); [|done]. wp_step. apply HQ. split_and!; [done|done|].
      intros q' m2 Hq' Hm2. apply list_elem_of_singleton in Hq' as ->. by simplify_eq.
    + destruct Hc as (Hb' & (m' & Hm' & He) & Hc). assert (m' = m) as -> by congruence. subst b'. destruct (Z.eqb_spec (sm_ext m) 0); [done|].
      apply (IH _ bs); [done|congruence|simpl in Hf; lia|]. intros [[q same] top] Hr. apply HQ. destruct same; simpl in Hr |- *.
      * destruct Hr as (Hm2 & [[-> ->]|[-> Hq]]); (split; [done|]); right; (split; [done|]); set_solver.
      * destruct Hr as (-> & -> & Hr). split_and!; [done|done|]. intros q' m2 [->|Hq']%elem_of_cons Hm2; [by simplify_eq|by eapply Hr].
Qed.

(** ** Linking a new block *)

Lemma chained_snoc st p bs a : chained st p bs -> NoDup (p :: map inr bs) -> inr a ∉ p :: map inr bs -> a <> 0 -> (exists m, rd st (inr a) = Some m /\ sm_ext m = 0) ->
  forall m, rd st (last_place p bs) = Some m -> chained (wr (last_place p bs) (set_ext a m) st) p (bs ++ [a]).
Proof.
  revert p. induction bs as [|b bs IH]; intros p Hc Hn Ha Ha0 (ma & Hma & Hea) m Hm; cbn [app chained last_place] in *.
  - split; [done|]. rewrite !rd_wr by (by eexists). rewrite decide_True by done. split; [by eexists|]. exists ma. rewrite decide_False by set_solver. done.
  - destruct Hc as (Hb & (m' & Hm' & He) & Hc). cbn [map] in *. apply NoDup_cons in Hn as [Hp Hn]. split; [done|]. split.
    + exists m'. split; [|done]. rewrite rd_wr by (by eexists). rewrite decide_False; [done|]. intros E. apply Hp. rewrite <- E. apply last_place_in.
    + apply IH; [done|done|set_solver|done|by exists ma|done].
Qed.

(** ** Unlinking a block *)

(** The predecessor of [a]. *)
Lemma find_prev_run st fuel : forall p bs a (Q : place * Z -> stack_store -> Prop), chained st p bs -> a ∈ bs -> (length bs <= S fuel)%nat ->
  (forall l1 l2, bs = l1 ++ a :: l2 -> a ∉ l1 -> Q (last_place p l1, a) st) ->
  wp (find_prev fuel p (hd 0 bs) a) Q st.
Proof.
  induction fuel as [|fuel IH]; intros p bs a Q Hc Ha Hf HQ; (destruct bs as [|b bs]; [by apply not_elem_of_nil in Ha|]); destruct Hc as (Hb & _ & Hc); cbn [hd find_prev];
    (destruct (Z.eqb_spec b 0); [done|]); (destruct (Z.eqb_spec b a) as [->|Hne]; [wp_step; apply (HQ [] bs); [done|apply not_elem_of_nil]|]);
    (apply elem_of_cons in Ha as [->|Ha]; [done|]).
  - simpl in Hf. destruct bs; [by apply not_elem_of_nil in Ha|simpl in Hf; lia].
  - assert (exists m, rd st (inr b) = Some m /\ sm_ext m = hd 0 bs) as (m & Hm & He).
    { destruct bs; cbn [chained] in Hc; [destruct Hc as (m & ? & ?)|destruct Hc as (_ & (m & ? & ?) & _)]; by exists m. }
    wp_step. eapply read_meta_run; [done|congruence|]. rewrite He. apply IH; [done|done|simpl in Hf; lia|]. intros l1 l2 -> Hl. apply (HQ (b :: l1) l2); [done|]. set_solver.
Qed.

Lemma chained_unlink st p l1 a l2 : chained st p (l1 ++ a :: l2) -> NoDup (p :: map inr (l1 ++ a :: l2)) ->
  forall m e, rd st (last_place p l1) = Some m -> rd st (inr a) = Some e -> chained (wr (last_place p l1) (set_ext (sm_ext e) m) st) p (l1 ++ l2).
Proof.
  revert p. induction l1 as [|b l1 IH]; intros p Hc Hn m e Hm He; cbn [app chained last_place map] in *.
  - destruct Hc as (Ha & _ & Hc). apply NoDup_cons in Hn as [Hp Hn]. apply NoDup_cons in Hn as [Hna Hn].
    destruct l2 as [|b l2]; cbn [chained] in Hc |- *.
    + destruct Hc as (e' & He' & Ez). assert (e' = e) as -> by congruence. exists (set_ext (sm_ext e) m). rewrite rd_wr by (by eexists). by rewrite decide_True.
    + destruct Hc as (Hb & (e' & He' & Ez) & Hc). assert (e' = e) as -> by congruence. split; [done|]. split.
      * exists (set_ext (sm_ext e) m). rewrite rd_wr by (by eexists). by rewrite decide_True.
      * eapply chained_ext, Hc. intros q Hq. rewrite rd_wr by (by eexists). rewrite decide_False; [done|]. intros ->. apply Hp. cbn [map] in Hq |- *. set_solver.
  - destruct Hc as (Hb & (m' & Hm' & Em) & Hc). apply NoDup_cons in Hn as [Hp Hn]. split; [done|]. split; [|by apply IH].
    exists m'. split; [|done]. rewrite rd_wr by (by eexists). rewrite decide_False; [done|]. intros E. apply Hp. rewrite <- E.
    pose proof (last_place_in (inr b) l1) as Hin. rewrite map_app. simpl. set_solver.
Qed.

(** * The store *)

(** The entry of each hash and its blocks; the hash of each block. *)
Notation chains := (gmap Z (nat * list Z)).
Notation owners := (gmap Z Z).
Implicit Types (ch : chains) (own : owners).

Record linked (st : stack_store) (ch : chains) (own : owners) : Prop := MkLinked {
  lk_holds : holds (stack_map st) (fst <$> ch);
  lk_chain h n bs : ch !! h = Some (n, bs) -> chained st (inl n) bs /\ NoDup bs;
  lk_owner h n bs a : ch !! h = Some (n, bs) -> a ∈ bs <-> own !! a = Some h;
  lk_hash a h : own !! a = Some h -> is_Some (ch !! h);
  lk_blocks : dom (blocks st) = dom own;
  lk_next : 0 < next_block st;
  lk_below a h : own !! a = Some h -> 0 < a < next_block st;
  lk_kept : extra_kept st = uword (Z.of_nat (base.size own))
}.

(** Memory lasts. *)
Definition stocked (c : Z) (st : stack_store) : Prop := roomy STACK_SPLAY_MAP_CAPACITY c (stack_map st) /\ callocs st = [].

(** [p] is a record of the hash [h]. *)
Definition located (ch : chains) (h : Z) (p : place) : Prop := exists n bs, ch !! h = Some (n, bs) /\ p ∈ places n bs.

Lemma elem_of_places n bs p : p ∈ places n bs <-> p = inl n \/ exists a, p = inr a /\ a ∈ bs.
Proof. unfold places. rewrite elem_of_cons, list_elem_of_fmap. done. Qed.

Lemma places_nodup n bs : NoDup bs -> NoDup (places n bs).
Proof. intros Hn. constructor; [by intros (a & ? & _)%list_elem_of_fmap|]. apply NoDup_fmap; [|done]. by intros a b [= ->]. Qed.

Lemma index_of ch h n bs : ch !! h = Some (n, bs) -> (fst <$> ch) !! h = Some n.
Proof. intros E. by rewrite lookup_fmap, E. Qed.

Lemma dom_wr st p m : is_Some (rd st p) -> dom (blocks (wr p m st)) = dom (blocks st).
Proof. destruct p as [n|a]; [done|]. simpl. intros Ha%elem_of_dom. rewrite dom_insert_L. set_solver. Qed.

(** The counters of extra records. *)
Definition counted (al k : Z) (st : stack_store) : stack_store :=
  MkStore (stack_map st) (blocks st) (next_block st) (callocs st) (uword (extra_allocated st + al)) (uword (extra_kept st + k)).

Section Linked.
Context {st : stack_store} {ch : chains} {own : owners} (Hl : linked st ch own).

(** A record belongs to one hash. *)
Lemma located_inj h h' p : located ch h p -> located ch h' p -> h = h'.
Proof.
  intros (n & bs & E & Hp) (n' & bs' & E' & Hp'). rewrite elem_of_places in Hp, Hp'. destruct Hp as [->|(a & -> & Ha)], Hp' as [Hp'|(b & Hp' & Hb)]; simplify_eq.
  - eapply (holds_inj (stack_map st)); [apply (lk_holds _ _ _ Hl)|by eapply index_of|by eapply index_of].
  - apply (lk_owner _ _ _ Hl _ _ _ _ E) in Ha. apply (lk_owner _ _ _ Hl _ _ _ _ E') in Hb. congruence.
Qed.

Lemma located_rd h p : located ch h p -> p <> inr 0 /\ exists m, rd st p = Some m.
Proof.
  intros (n & bs & E & Hp). pose proof (lk_chain _ _ _ Hl _ _ _ E) as [Hc _]. split; [|by eapply chained_in].
  apply elem_of_places in Hp as [->|(a & -> & Ha)]; [done|]. intros [= ->]. by eapply chained_nonzero in Hc.
Qed.

Lemma chain_length h n bs : ch !! h = Some (n, bs) -> (length bs <= base.size (blocks st))%nat.
Proof.
  intros E. pose proof (lk_chain _ _ _ Hl _ _ _ E) as [_ Hn]. rewrite <- (size_list_to_set (C := gset Z) bs) by done.
  rewrite <- size_dom, (lk_blocks _ _ _ Hl). apply subseteq_size. intros a Ha%elem_of_list_to_set. apply elem_of_dom. exists h. by eapply lk_owner.
Qed.

Lemma next_fresh : own !! next_block st = None /\ forall h p, located ch h p -> p <> inr (next_block st).
Proof.
  assert (own !! next_block st = None) as Hn. { destruct (own !! next_block st) eqn:E; [|done]. apply (lk_below _ _ _ Hl) in E. lia. }
  split; [done|]. intros h p Hp ->. destruct Hp as (n & bs & E & [?|(a & [= <-] & Ha)]%elem_of_places); [done|]. apply (lk_owner _ _ _ Hl _ _ _ _ E) in Ha. congruence.
Qed.

(** Another state with the same links. *)
Lemma linked_links st' : holds (stack_map st') (fst <$> ch) -> (forall h p, located ch h p -> sm_ext <$> rd st' p = sm_ext <$> rd st p) ->
  dom (blocks st') = dom (blocks st) -> next_block st' = next_block st -> extra_kept st' = extra_kept st -> linked st' ch own.
Proof.
  intros Hh Hx Hb En Ek. constructor; [done| |apply (lk_owner _ _ _ Hl)|apply (lk_hash _ _ _ Hl)|rewrite Hb; apply (lk_blocks _ _ _ Hl)|rewrite En; apply (lk_next _ _ _ Hl)| |rewrite Ek; apply (lk_kept _ _ _ Hl)].
  - intros h n bs E. destruct (lk_chain _ _ _ Hl _ _ _ E) as [Hc Hn]. split; [|done]. eapply chained_ext, Hc. intros q Hq. apply (Hx h). by exists n, bs.
  - rewrite En. apply (lk_below _ _ _ Hl).
Qed.

Lemma exist_store_run h c (Q : bool -> stack_store -> Prop) : stocked c st ->
  (forall m, linked (put_stack_map m st) ch own -> stocked c (put_stack_map m st) -> v_buff m = v_buff (stack_map st) -> last_ptr m = default 0%nat (fst <$> ch !! h) ->
     (forall n bs, ch !! h = Some (n, bs) -> rooted m n) -> Q (bool_decide (is_Some (ch !! h))) (put_stack_map m st)) ->
  wp (on_map (exist h)) Q st.
Proof.
  intros [Hr Hc] HQ. apply wp_lift. eapply wp_mono, exist_run; [|apply (lk_holds _ _ _ Hl)]. intros b m (-> & Hh & Hk & Hv & El & Hroot). rewrite lookup_fmap in *.
  assert (bool_decide (is_Some (fst <$> ch !! h)) = bool_decide (is_Some (ch !! h))) as -> by (apply bool_decide_ext, fmap_is_Some).
  apply HQ; [|split; [by eapply roomy_kept|done]|done|done|].
  - apply linked_links; try done. intros h' p _. destruct p; simpl; [by rewrite Hv|done].
  - intros n bs E. apply Hroot. by rewrite E.
Qed.

(** Writing what clients see of a record. *)
Lemma linked_wr h p m m' : located ch h p -> rd st p = Some m -> sm_ext m' = sm_ext m -> linked (wr p m' st) ch own.
Proof.
  intros Hp Hm He. apply linked_links.
  - destruct p as [n|a]; cbn [wr]; [|apply (lk_holds _ _ _ Hl)]. apply holds_vals; [apply (lk_holds _ _ _ Hl)|]. by rewrite length_insert.
  - intros h' q _. rewrite rd_wr by (by eexists). destruct (decide (p = q)) as [<-|]; [|done]. rewrite Hm. simpl. by rewrite He.
  - apply dom_wr. by eexists.
  - by destruct p.
  - by destruct p.
Qed.

(** ** A new hash *)
Lemma linked_new h n m : ch !! h = None -> inserted h zero_stack (stack_map st) (fst <$> ch) n m ->
  linked (put_stack_map m st) (<[h := (n, [])]> ch) own /\ rd (put_stack_map m st) (inl n) = Some zero_stack
  /\ forall h' p, located ch h' p -> rd (put_stack_map m st) p = rd st p.
Proof.
  intros Eh (Hn0 & Hh & Hv & _ & Hf & Hx). assert (forall h' p, located ch h' p -> rd (put_stack_map m st) p = rd st p) as Hrd.
  { intros h' p (n' & bs & E & Hp). apply elem_of_places in Hp as [->|(a & -> & _)]; [|done]. pose proof (index_of _ _ _ _ E) as E'. apply (Hx h'); [done|].
    intros ->. destruct Hf as [Hf|[_ Hf]]; [by rewrite lookup_fmap, Eh in Hf|by apply Hf in E']. }
  split; [|done]. constructor; [by rewrite fmap_insert| | | |apply (lk_blocks _ _ _ Hl)|apply (lk_next _ _ _ Hl)|apply (lk_below _ _ _ Hl)|apply (lk_kept _ _ _ Hl)].
  - intros h' n' bs. rewrite lookup_insert_Some. intros [[<- [= <- <-]]|[Hne E]]; [split; [by exists zero_stack|constructor]|].
    destruct (lk_chain _ _ _ Hl _ _ _ E) as [Hc Hn]. split; [|done]. eapply chained_ext, Hc. intros q Hq. rewrite (Hrd h'); [done|]. by exists n', bs.
  - intros h' n' bs a. rewrite lookup_insert_Some. intros [[<- [= <- <-]]|[Hne E]]; [|by apply (lk_owner _ _ _ Hl) with n'].
    split; [by intros ?%not_elem_of_nil|]. intros [? Ho]%(lk_hash _ _ _ Hl). congruence.
  - intros a h' Ho%(lk_hash _ _ _ Hl). rewrite lookup_insert_is_Some'. by right.
Qed.

(** ** A new block *)

Definition granted_block : stack_store :=
  MkStore (stack_map st) (<[next_block st := zero_stack]> (blocks st)) (next_block st + 1) (tail (callocs st)) (extra_allocated st) (extra_kept st).

Lemma rd_granted p : p <> inr (next_block st) -> rd granted_block p = rd st p.
Proof. destruct p as [n|a]; [done|]. intros Hp. simpl. apply lookup_insert_ne. congruence. Qed.

Lemma rd_counted al k st0 p : rd (counted al k st0) p = rd st0 p.
Proof. by destruct p. Qed.

Lemma linked_block h n bs m : ch !! h = Some (n, bs) -> rd st (last_place (inl n) bs) = Some m ->
  let a := next_block st in
  let st' := counted 1 1 (wr (last_place (inl n) bs) (set_ext a m) granted_block) in
  linked st' (<[h := (n, bs ++ [a])]> ch) (<[a := h]> own) /\ rd st' (inr a) = Some zero_stack
  /\ forall h' p, located ch h' p -> content <$> rd st' p = content <$> rd st p.
Proof.
  intros E Hm a st'. set (q := last_place (inl n) bs) in *. destruct next_fresh as [Hoa Hfresh]. fold a in Hoa, Hfresh.
  assert (located ch h q) as Hq by (exists n, bs; split; [done|apply last_place_in]).
  assert (rd granted_block q = Some m) as Hm' by (rewrite rd_granted; [done|by eapply Hfresh]).
  assert (forall p, rd st' p = if decide (q = p) then Some (set_ext a m) else rd granted_block p) as Hrd by (intros p; unfold st'; rewrite rd_counted; apply rd_wr; by eexists).
  assert (rd granted_block (inr a) = Some zero_stack) as Hza by (simpl; apply lookup_insert_eq).
  destruct (lk_chain _ _ _ Hl _ _ _ E) as [Hc Hn]. split; [constructor|split].
  - rewrite fmap_insert. rewrite insert_id by (by rewrite lookup_fmap, E). unfold st'. destruct q as [k|b]; cbn; [|apply (lk_holds _ _ _ Hl)].
    apply holds_vals; [apply (lk_holds _ _ _ Hl)|]. by rewrite length_insert.
  - intros h' n' bs'. rewrite lookup_insert_Some. intros [[<- [= <- <-]]|[Hne E']].
    + assert (a ∉ bs) as Hab by (rewrite (lk_owner _ _ _ Hl _ _ _ _ E); congruence). split; [|apply NoDup_app; split_and!; [done|by intros b Hb ->%list_elem_of_singleton|apply NoDup_singleton]].
      eapply chained_ext, (chained_snoc granted_block (inl n) bs a); [intros p _; unfold st'; by rewrite rd_counted| |by apply places_nodup| | |by exists zero_stack|done].
      * eapply chained_ext, Hc. intros p Hp. rewrite rd_granted; [done|]. apply (Hfresh h). by exists n, bs.
      * change (inr a ∉ places n bs). rewrite elem_of_places. by intros [?|(b & [= <-] & Hb)].
      * pose proof (lk_next _ _ _ Hl). unfold a. lia.
    + destruct (lk_chain _ _ _ Hl _ _ _ E') as [Hc' Hn']. split; [|done]. eapply chained_ext, Hc'. intros p Hp. assert (located ch h' p) as Hp' by (by exists n', bs').
      rewrite Hrd, decide_False by (intros <-; by eapply Hne, located_inj). rewrite rd_granted; [done|]. by eapply Hfresh.
  - intros h' n' bs' b. rewrite lookup_insert_Some. intros [[<- [= <- <-]]|[Hne E']]; rewrite lookup_insert; destruct (decide (a = b)) as [<-|Hab].
    + split; [done|]. intros _. apply elem_of_app. right. by apply list_elem_of_singleton.
    + rewrite <- (lk_owner _ _ _ Hl _ _ _ _ E), elem_of_app, list_elem_of_singleton. naive_solver.
    + rewrite (lk_owner _ _ _ Hl _ _ _ _ E'). split; [congruence|]. by intros [= ?].
    + apply (lk_owner _ _ _ Hl) with n'. done.
  - intros b h' Ho. rewrite lookup_insert_is_Some'. apply lookup_insert_Some in Ho as [[_ <-]|[_ Ho]]; [by left|right]. by eapply lk_hash.
  - unfold st'. cbn [counted blocks]. rewrite dom_wr by (by eexists). cbn [granted_block blocks]. rewrite !dom_insert_L. by rewrite (lk_blocks _ _ _ Hl).
  - unfold st'. pose proof (lk_next _ _ _ Hl). destruct q; cbn; lia.
  - intros b h' Ho. assert (next_block st' = a + 1) as -> by (unfold st'; by destruct q). pose proof (lk_next _ _ _ Hl). unfold a in *.
    apply lookup_insert_Some in Ho as [[<- _]|[_ Ho]]; [lia|]. apply (lk_below _ _ _ Hl) in Ho. lia.
  - unfold st'. rewrite map_size_insert_None by done. assert (extra_kept (wr q (set_ext a m) granted_block) = extra_kept st) as Ek by (by destruct q).
    cbn [counted extra_kept]. rewrite Ek, (lk_kept _ _ _ Hl). unfold uword. rewrite wrap_add_l by apply word_bits_nonneg. f_equal. lia.
  - rewrite Hrd, decide_False by (by eapply Hfresh). done.
  - intros h' p Hp. rewrite Hrd. destruct (decide (q = p)) as [<-|]; [by rewrite Hm|]. rewrite rd_granted; [done|]. by eapply Hfresh.
Qed.

(** ** Removing a hash *)
Lemma linked_remove h n m : ch !! h = Some (n, []) -> holds m (delete h (fst <$> ch)) -> v_buff m = v_buff (stack_map st) ->
  linked (put_stack_map m st) (delete h ch) own /\ forall p, rd (put_stack_map m st) p = rd st p.
Proof.
  intros E Hh Hv. assert (forall p, rd (put_stack_map m st) p = rd st p) as Hrd by (intros [k|b]; [simpl; by rewrite Hv|done]).
  split; [|done]. constructor; [by rewrite fmap_delete| | | |apply (lk_blocks _ _ _ Hl)|apply (lk_next _ _ _ Hl)|apply (lk_below _ _ _ Hl)|apply (lk_kept _ _ _ Hl)].
  - intros h' n' bs [_ E']%lookup_delete_Some. destruct (lk_chain _ _ _ Hl _ _ _ E') as [Hc Hn]. split; [|done]. eapply chained_ext, Hc. intros q _. by rewrite Hrd.
  - intros h' n' bs a [_ E']%lookup_delete_Some. by apply (lk_owner _ _ _ Hl) with n'.
  - intros a h' Ho. destruct (decide (h = h')) as [<-|Hne].
    + apply (lk_owner _ _ _ Hl _ _ _ _ E) in Ho. by apply not_elem_of_nil in Ho.
    + rewrite lookup_delete_ne by done. by eapply lk_hash.
Qed.

(** ** Freeing a block *)
Lemma linked_unlink h n l1 a l2 m e : ch !! h = Some (n, l1 ++ a :: l2) -> rd st (last_place (inl n) l1) = Some m -> rd st (inr a) = Some e ->
  let st1 := wr (last_place (inl n) l1) (set_ext (sm_ext e) m) st in
  let st' := counted 0 (-1) (put_blocks (delete a (blocks st1)) st1) in
  linked st' (<[h := (n, l1 ++ l2)]> ch) (delete a own) /\ forall h' p, located ch h' p -> p <> inr a -> content <$> rd st' p = content <$> rd st p.
Proof.
  intros E Hm He st1 st'. set (q := last_place (inl n) l1) in *. destruct (lk_chain _ _ _ Hl _ _ _ E) as [Hc Hn].
  assert (located ch h q) as Hq. { exists n, (l1 ++ a :: l2). split; [done|]. unfold places. rewrite map_app. pose proof (last_place_in (inl n) l1). set_solver. }
  assert (own !! a = Some h) as Hoa by (apply (lk_owner _ _ _ Hl _ _ _ _ E); set_solver).
  assert (a ∉ l1 ++ l2) as Ha by (rewrite <- Permutation_middle, NoDup_cons in Hn; tauto).
  assert (forall p, p <> inr a -> rd st' p = if decide (q = p) then Some (set_ext (sm_ext e) m) else rd st p) as Hrd.
  { intros p Hp. unfold st', st1. rewrite <- rd_wr by (by eexists). destruct p as [k|b]; cbn; [by destruct q|]. rewrite lookup_delete_ne by congruence. done. }
  assert (chained st' (inl n) (l1 ++ l2)) as Hc'.
  { eapply chained_ext, (chained_unlink st (inl n) l1 a l2); [|exact Hc|by apply places_nodup|exact Hm|exact He]. intros p Hp. change (p ∈ places n (l1 ++ l2)) in Hp.
    rewrite Hrd, rd_wr; [done|by eexists|]. intros ->. apply elem_of_places in Hp as [?|(b & [= <-] & Hb)]; done. }
  split; [constructor|].
  - rewrite fmap_insert. rewrite insert_id by (by rewrite lookup_fmap, E). unfold st', st1. destruct q as [k|b]; cbn; [|apply (lk_holds _ _ _ Hl)].
    apply holds_vals; [apply (lk_holds _ _ _ Hl)|]. by rewrite length_insert.
  - intros h' n' bs'. rewrite lookup_insert_Some. intros [[<- [= <- <-]]|[Hne E']].
    + split; [done|]. rewrite <- Permutation_middle, NoDup_cons in Hn. tauto.
    + destruct (lk_chain _ _ _ Hl _ _ _ E') as [Hc2 Hn2]. split; [|done]. eapply chained_ext, Hc2. intros p Hp. assert (located ch h' p) as Hp' by (by exists n', bs').
      rewrite Hrd, decide_False; [done|intros <-; by eapply Hne, located_inj|]. intros ->. apply Hne. eapply located_inj; [|exact Hp']. exists n, (l1 ++ a :: l2).
      split; [done|]. apply elem_of_places. right. exists a. set_solver.
  - intros h' n' bs' b. rewrite lookup_insert_Some, lookup_delete_Some. intros [[<- [= <- <-]]|[Hne E']].
    + rewrite <- (lk_owner _ _ _ Hl _ _ _ _ E). set_solver.
    + rewrite (lk_owner _ _ _ Hl _ _ _ _ E'). split; [|tauto]. intros Ho. split; [|done]. intros <-. congruence.
  - intros b h' [_ Ho]%lookup_delete_Some. rewrite lookup_insert_is_Some'. right. by eapply lk_hash.
  - unfold st', st1. cbn [counted put_blocks blocks]. rewrite !dom_delete_L, dom_wr by (by eexists). by rewrite (lk_blocks _ _ _ Hl).
  - unfold st', st1. pose proof (lk_next _ _ _ Hl). destruct q; cbn; lia.
  - intros b h' [_ Ho]%lookup_delete_Some. apply (lk_below _ _ _ Hl) in Ho. unfold st', st1. destruct q; cbn; lia.
  - assert (extra_kept st1 = extra_kept st) as Ek by (unfold st1; by destruct q). cbn. rewrite Ek, (lk_kept _ _ _ Hl). unfold uword. rewrite wrap_add_l by apply word_bits_nonneg. f_equal.
    rewrite map_size_delete_Some by (by eexists). assert (base.size own <> 0)%nat by (rewrite map_size_non_empty_iff; intros ->; done). lia.
  - intros h' p Hp Hpa. rewrite Hrd by done. destruct (decide (q = p)) as [<-|]; [by rewrite Hm|done].
Qed.
End Linked.

Lemma stocked_wr c st p m : stocked c st -> stocked c (wr p m st).
Proof. by destruct p. Qed.

(** * Operations on the store *)

(** The record that a pointer remembers. *)
Definition place_of (w : Z) (is_idx : bool) : place := if is_idx then inl (Z.to_nat w) else inr w.

(** A pointer to a record of [h] that an index names only if it is the first one. *)
Definition refers (ch : chains) (h w : Z) (is_idx : bool) : Prop :=
  located ch h (place_of w is_idx) /\ 0 <= w /\ (is_idx = true -> exists bs, ch !! h = Some (Z.to_nat w, bs)).

(** The store after [stack_of]: the same records, or one more, which is blank. *)
Record targeted (h : Z) (am : allocation_message) (st : stack_store) (ch : chains) (w : Z) (is_idx : bool) (st' : stack_store) (ch' : chains) : Prop := MkTargeted {
  tg_refers : refers ch' h w is_idx;
  tg_other h' : h' <> h -> ch' !! h' = ch !! h';
  tg_old p : located ch h p -> located ch' h p;
  tg_new p : located ch' h p -> located ch h p \/ p = place_of w is_idx;
  tg_top n bs : ch !! h = Some (n, bs) -> exists bs', ch' !! h = Some (n, bs');
  tg_content h' p : located ch h' p -> content <$> rd st' p = content <$> rd st p;
  tg_found : exists m, rd st' (place_of w is_idx) = Some m
    /\ (content_stack (content m) = am_stack am /\ located ch h (place_of w is_idx)
        \/ content m = (0, 0, []) /\ (located ch h (place_of w is_idx) -> place_of w is_idx = inl (Z.to_nat w))
            /\ forall p m', located ch h p -> rd st p = Some m' -> content_stack (content m') <> am_stack am);
  tg_size : (base.size ch' <= S (base.size ch))%nat
}.

Lemma slot_run {S} h (Q : unit -> S -> Prop) s : Q tt s -> wp (slot (stack_meta_hash h) MAX_STACK_META_SLOT) Q s.
Proof. intros HQ. unfold slot, stack_meta_hash. change (MAX_STACK_META_SLOT - 1) with 0. rewrite Z.land_0_r. done. Qed.

Lemma check_run {S} b (Q : unit -> S -> Prop) s : b = true -> Q tt s -> wp (critical_check b) Q s.
Proof. by intros ->. Qed.

Lemma located_unfold ch h n bs p : ch !! h = Some (n, bs) -> located ch h p <-> p ∈ places n bs.
Proof. intros E. split; [|by exists n, bs]. intros (n' & bs' & E' & Hp). by simplify_eq. Qed.

(** The record was there before. *)
Lemma targeted_same h am st ch n bs w is_idx st' m : ch !! h = Some (n, bs) -> place_of w is_idx ∈ places n bs -> 0 <= w -> (is_idx = true -> Z.to_nat w = n) ->
  (forall p, rd st' p = rd st p) -> rd st (place_of w is_idx) = Some m ->
  (content_stack (content m) = am_stack am
   \/ content m = (0, 0, []) /\ is_idx = true /\ forall p m', located ch h p -> rd st p = Some m' -> content_stack (content m') <> am_stack am) ->
  targeted h am st ch w is_idx st' ch.
Proof.
  intros E Hp Hw Hi Hrd Hm Hcase. assert (located ch h (place_of w is_idx)) as Hloc by (by exists n, bs).
  constructor; [|done|done|by left|intros n0 bs0 E0; by exists bs0|intros h' p _; by rewrite Hrd| |lia].
  - split; [done|]. split; [done|]. intros Hidx. exists bs. by rewrite (Hi Hidx).
  - exists m. rewrite Hrd. split; [done|]. destruct Hcase as [Hc|(Hc & -> & Hn)]; [by left|right]. done.
Qed.

Section StackOf.
Context (c : Z) (Hfits : fits (V := stack_meta) (c + 1 + STACK_SPLAY_MAP_CAPACITY)).

(** No record has the stack of the message. *)
Definition absent (st : stack_store) (ch : chains) (h : Z) (am : allocation_message) : Prop :=
  forall p m, located ch h p -> rd st p = Some m -> content_stack (content m) <> am_stack am.

Lemma calloc_run st (Q : Z -> stack_store -> Prop) : callocs st = [] -> Q (next_block st) (granted_block (st := st)) -> wp calloc_meta Q st.
Proof. intros E HQ. unfold wp, calloc_meta, granted_block in *. rewrite E in HQ |- *. done. Qed.

(** A block is linked behind the last record. *)
Lemma append_block_run {B} (f : Z -> B) h am st ch own n bs m (Q : B -> stack_store -> Prop) : linked st ch own -> stocked c st -> ch !! h = Some (n, bs) ->
  rd st (last_place (inl n) bs) = Some m -> absent st ch h am ->
  (forall st' ch' own' w, w <> 0 -> linked st' ch' own' -> stocked c st' -> targeted h am st ch w false st' ch' -> Q (f w) st') ->
  wp (a ← calloc_meta; update_meta (last_place (inl n) bs) (set_ext a);; count_extra 1 1;; mret (f a)) Q st.
Proof.
  intros Hl Hs E Hm Hab HQ. destruct (next_fresh Hl) as [Hoa Hfresh]. assert (located ch h (last_place (inl n) bs)) as Hq by (exists n, bs; split; [done|apply last_place_in]).
  wp_step. apply calloc_run; [apply Hs|]. wp_step. eapply update_meta_run; [rewrite rd_granted; [exact Hm|by eapply Hfresh]|by eapply (located_rd Hl)|]. unfold count_extra. wp_step. wp_step. wp_step.
  destruct (linked_block Hl h n bs m E Hm) as (Hl' & Ha & Hct). set (a := next_block st) in *. assert (a <> 0) as Ha0 by (pose proof (lk_next _ _ _ Hl); unfold a; lia).
  apply (HQ _ (<[h := (n, bs ++ [a])]> ch) (<[a := h]> own)); [done|exact Hl'|destruct Hs as [Hs1 Hs2]; split; destruct (last_place (inl n) bs); cbn; by rewrite ?Hs2|].
  assert (forall p, located (<[h := (n, bs ++ [a])]> ch) h p <-> p ∈ places n bs \/ p = inr a) as Hloc.
  { intros p. rewrite (located_unfold _ _ n (bs ++ [a])) by apply lookup_insert_eq. rewrite !elem_of_places. setoid_rewrite elem_of_app. setoid_rewrite list_elem_of_singleton. naive_solver. }
  constructor.
  - split; [apply Hloc; by right|]. split; [pose proof (lk_next _ _ _ Hl); unfold a; lia|done].
  - intros h' Hne. by apply lookup_insert_ne.
  - intros p Hp. apply Hloc. left. by apply (located_unfold _ _ _ _ _ E).
  - intros p [Hp|Hp]%Hloc; [left; by apply (located_unfold _ _ _ _ _ E)|by right].
  - intros n' bs' E'. simplify_eq. exists (bs ++ [a]). by rewrite lookup_insert_eq.
  - exact Hct.
  - exists zero_stack. split; [exact Ha|]. right. split; [done|]. split; [intros Hx; by eapply Hfresh in Hx|exact Hab].
  - rewrite map_size_insert_Some by (by eexists). lia.
Qed.

(** The hash is new. *)
Lemma first_run h am st ch own (Q : nat -> stack_store -> Prop) : linked st ch own -> stocked c st -> Z.of_nat (base.size ch) <= c -> ch !! h = None ->
  (forall m st' ch' own' n, n <> 0%nat -> rooted m n -> st' = put_stack_map m st -> linked st' ch' own' -> stocked c st' -> targeted h am st ch (Z.of_nat n) true st' ch' -> Q n st') ->
  wp (on_map (insert h zero_val)) Q st.
Proof.
  intros Hl [Hr Hcs] Hsz E HQ. apply wp_lift. eapply wp_mono, (roomy_insert STACK_SPLAY_MAP_CAPACITY c ltac:(done) Hfits h zero_stack _ _ (lk_holds _ _ _ Hl) Hr).
  2: { by rewrite map_size_fmap. }
  intros n m (Hins & Hr'). pose proof Hins as (Hn0 & _ & _ & Hroot & _). destruct (linked_new Hl h n m E Hins) as (Hl' & Hn & Hct).
  apply (HQ m _ (<[h := (n, [])]> ch) own); try done. assert (place_of (Z.of_nat n) true = inl n) as Epl by (unfold place_of; by rewrite Nat2Z.id).
  assert (forall p, located (<[h := (n, [])]> ch) h p <-> p = inl n) as Hloc.
  { intros p. rewrite (located_unfold _ _ n []) by apply lookup_insert_eq. apply list_elem_of_singleton. }
  assert (forall p, ~ located ch h p) as Hno by (intros p (? & ? & ? & _); congruence).
  constructor; rewrite ?Epl; try done.
  - split_and!; [rewrite Epl; by apply Hloc|lia|]. intros _. exists []. rewrite lookup_insert_eq. by rewrite Nat2Z.id.
  - intros h' Hne. by apply lookup_insert_ne.
  - intros p Hp. by apply Hno in Hp.
  - intros p Hp%Hloc. by right.
  - intros n' bs' E'. congruence.
  - intros h' p Hp. by rewrite (Hct h').
  - exists zero_stack. split; [done|]. right. split; [done|]. split; [intros Hx; by apply Hno in Hx|]. intros p m' Hp. by apply Hno in Hp.
  - rewrite map_size_insert_None by done. lia.
Qed.

Lemma targeted_rd h am st st1 ch w is_idx st' ch' : (forall p, rd st1 p = rd st p) -> targeted h am st1 ch w is_idx st' ch' -> targeted h am st ch w is_idx st' ch'.
Proof.
  intros Hrd [T1 T2 T3 T4 T5 T6 T7 T8]. constructor; try done.
  - intros h' p Hp. by rewrite (T6 h'), Hrd.
  - destruct T7 as (m & Hm & [T7|(T7 & T9 & T10)]); exists m; (split; [done|]); [by left|right]. split_and!; [done|done|]. intros p m' Hp Hm'. apply (T10 p); [done|by rewrite Hrd].
Qed.

Lemma stack_of_run h am st ch own (Q : option place * option (Z * bool) -> stack_store -> Prop) :
  linked st ch own -> stocked c st -> Z.of_nat (base.size ch) <= c ->
  (forall st' ch' own' w is_idx, linked st' ch' own' -> stocked c st' -> targeted h am st ch w is_idx st' ch' -> Q (Some (place_of w is_idx), Some (w, is_idx)) st') ->
  wp (stack_of h am) Q st.
Proof.
  intros Hl Hs Hc HQ. unfold stack_of. wp_step. apply slot_run. wp_step. apply (exist_store_run Hl h c); [done|]. intros m Hl1 Hs1 Hv El Hroot.
  assert (forall p, rd (put_stack_map m st) p = rd st p) as Hrd by (intros [k|b]; [simpl; by rewrite Hv|done]). set (st1 := put_stack_map m st) in *.
  destruct (ch !! h) as [[n bs]|] eqn:E.
  - rewrite bool_decide_true by (by eexists). simpl in El. specialize (Hroot _ _ eq_refl). destruct (lk_chain _ _ _ Hl1 _ _ _ E) as [Hch Hnd].
    assert (n <> 0%nat) as Hn0 by (eapply (holds_index (stack_map st)); [apply (lk_holds _ _ _ Hl)|by eapply index_of]).
    wp_step. apply wp_lift. wp_step. cbn [stack_map st1 put_stack_map]. rewrite El. wp_step. apply wp_lift. eapply current_root_run; [exact Hroot|]. wp_step.
    apply check_run; [by destruct n|]. wp_step. wp_step. wp_step. change (put_stack_map m (put_stack_map m st)) with st1.
    assert (place_of (Z.of_nat n) true = inl n) as Epl by (unfold place_of; by rewrite Nat2Z.id).
    eapply (search_chain_run st1 am _ (inl n) bs true); [done|done|pose proof (chain_length Hl1 _ _ _ E); unfold st1 in *; cbn in *; lia|].
    intros [[q same] top] Hsr. destruct same; simpl in Hsr.
    + destruct Hsr as ((mq & Hmq & Hsame) & Hq). wp_step. wp_step. wp_step. destruct Hq as [[-> ->]|[-> (a & -> & Ha)%list_elem_of_fmap]].
      * rewrite <- Epl at 1. apply (HQ _ ch own); [done|done|]. apply (targeted_same _ _ _ _ n bs _ _ _ mq); [done|rewrite Epl; apply elem_of_places; by left|lia|intros _; lia|done|by rewrite Epl, <- Hrd|by left].
      * change (inr a : place) with (place_of a false) at 1. assert (0 <= a) by (apply (lk_owner _ _ _ Hl _ _ _ _ E), (lk_below _ _ _ Hl) in Ha; lia).
        apply (HQ _ ch own); [done|done|]. apply (targeted_same _ _ _ _ n bs _ _ _ mq); [done|apply elem_of_places; right; by exists a|done|done|done|by rewrite <- Hrd|by left].
    + destruct Hsr as (-> & -> & Hab). assert (absent st1 ch h am) as Hab' by (intros p m' Hp; apply Hab; by apply (located_unfold _ _ _ _ _ E)).
      assert (exists mt, rd st1 (inl n) = Some mt) as [mt Hmt] by (eapply chained_in; [done|set_solver]).
      wp_step. wp_step. eapply read_meta_run; [exact Hmt|done|]. destruct (_ && _) eqn:Eb.
      * apply andb_true_iff in Eb as [[E1%Z.eqb_eq E2%Z.eqb_eq]%andb_true_iff E3%Nat.eqb_eq]. apply length_zero_iff_nil in E3. wp_step. wp_step. rewrite <- Epl at 1.
        apply (HQ _ ch own); [done|done|]. apply (targeted_same _ _ _ _ n bs _ _ _ mt); [done|rewrite Epl; apply elem_of_places; by left|lia|intros _; lia|done|by rewrite Epl, <- Hrd|right].
        split; [unfold content; by rewrite E1, E2, E3|]. split; [done|]. intros p m' Hp. rewrite <- Hrd. by apply Hab'.
      * destruct (chained_in _ _ _ _ Hch (last_place_in (inl n) bs)) as [ml Hml]. eapply (append_block_run (fun a => (if a =? 0 then None else Some (inr a), false))); try done.
        intros st2 ch2 own2 w Hw0 Hl2 Hs2 Ht. destruct (Z.eqb_spec w 0); [done|]. wp_step. change (inr w : place) with (place_of w false) at 1.
        eapply HQ; [exact Hl2|done|]. by eapply targeted_rd.
  - rewrite bool_decide_false by (by intros [? ?]). wp_step. eapply first_run; [exact Hl1|exact Hs1|done|done|]. intros m2 st2 ch2 own2 n Hn0 Hroot2 -> Hl2 Hs2 Ht.
    destruct (Nat.eqb_spec n 0); [done|]. wp_step. apply wp_lift. eapply current_root_run; [exact Hroot2|]. wp_step.
    assert (inl n = place_of (Z.of_nat n) true) as -> by (unfold place_of; by rewrite Nat2Z.id). eapply HQ; [exact Hl2|done|]. by eapply targeted_rd.
Qed.
End StackOf.

(** The store after the record [q], which nobody needs any more, was dropped or made blank. *)
Record dropped (q : place) (st : stack_store) (ch : chains) (st' : stack_store) (ch' : chains) : Prop := MkDropped {
  dr_old h p : located ch' h p -> located ch h p;
  dr_kept h p : located ch h p -> p <> q -> located ch' h p;
  dr_top h n bs : ch !! h = Some (n, bs) -> inl n <> q -> exists bs', ch' !! h = Some (n, bs');
  dr_content h p : located ch' h p -> p <> q -> content <$> rd st' p = content <$> rd st p;
  dr_blank h : located ch' h q -> content <$> rd st' q = Some (0, 0, []) /\ exists n, q = inl n;
  dr_size : (base.size ch' <= base.size ch)%nat
}.

(** What [release_stack] leaves of the record [m] at [q]. *)
Definition released (pm : ptr_meta) (q : place) (m : stack_meta) (st : stack_store) (ch : chains) (st' : stack_store) (ch' : chains) : Prop :=
  if pm_size pm <? sm_size m
  then ch' = ch /\ (forall p, content <$> rd st' p = if decide (p = q) then Some (sm_size m - pm_size pm, sm_caller m, sm_backtrace m) else content <$> rd st p)
  else dropped q st ch st' ch'.

Lemma dropped_rd q st st1 ch st' ch' : (forall p, rd st1 p = rd st p) -> dropped q st1 ch st' ch' -> dropped q st ch st' ch'.
Proof. intros Hrd [D1 D2 D3 D4 D5 D6]. constructor; try done. intros h p Hp Hq. by rewrite (D4 h), Hrd. Qed.

(** The first record, without others. *)
Lemma drop_hash_run h n st ch own c (Q : unit -> stack_store -> Prop) : linked st ch own -> stocked c st -> ch !! h = Some (n, []) ->
  (forall st' ch', linked st' ch' own -> stocked c st' -> dropped (inl n) st ch st' ch' -> Q tt st') ->
  wp (_ ← on_map (remove h); mret tt) Q st.
Proof.
  intros Hl [Hr Hc] E HQ. wp_step. apply wp_lift. eapply wp_mono, remove_run; [|apply (lk_holds _ _ _ Hl)]. intros k m (_ & Hk & Hh & Hv). wp_step.
  destruct (linked_remove Hl h n m E Hh Hv) as [Hl' Hrd]. apply (HQ _ (delete h ch)); [done|split; [by eapply roomy_kept|done]|].
  assert (forall h' p, located (delete h ch) h' p <-> h' <> h /\ located ch h' p) as Hloc.
  { intros h' p. unfold located. setoid_rewrite lookup_delete_Some. naive_solver. }
  constructor.
  - intros h' p [_ Hp]%Hloc. done.
  - intros h' p Hp Hq. apply Hloc. split; [|done]. intros ->. apply (located_unfold _ _ _ _ _ E), list_elem_of_singleton in Hp. done.
  - intros h' n' bs' E' Hq. exists bs'. rewrite lookup_delete_ne; [done|]. intros <-. congruence.
  - intros h' p _ _. by rewrite Hrd.
  - intros h' [Hne Hp]%Hloc. exfalso. apply Hne. eapply (located_inj Hl); [exact Hp|]. exists n, []. split; [done|]. by apply list_elem_of_singleton.
  - rewrite map_size_delete_Some by (by eexists). lia.
Qed.

(** The first record, before others. *)
Lemma clear_run h n bs t st ch own c (Q : unit -> stack_store -> Prop) : linked st ch own -> stocked c st -> ch !! h = Some (n, bs) -> rd st (inl n) = Some t ->
  (forall st', linked st' ch own -> stocked c st' -> dropped (inl n) st ch st' ch -> Q tt st') ->
  wp (write_meta (inl n) (MkStack 0 0 [] (sm_ext t))) Q st.
Proof.
  intros Hl Hs E Ht HQ. assert (located ch h (inl n)) as Hloc by (exists n, bs; split; [done|apply elem_of_places; by left]). eapply write_meta_run; [done|done|].
  apply HQ; [by eapply (linked_wr Hl)|by apply stocked_wr|]. constructor; try done.
  - intros h' n' bs' E' _. by exists bs'.
  - intros h' p _ Hp. rewrite rd_wr by (by eexists). by rewrite decide_False.
  - intros h' _. rewrite rd_wr by (by eexists). rewrite decide_True by done. split; [done|by exists n].
Qed.

(** A block. *)
Lemma drop_block_run h n bs a t st ch own c (Q : unit -> stack_store -> Prop) : linked st ch own -> stocked c st -> ch !! h = Some (n, bs) -> a ∈ bs -> rd st (inl n) = Some t ->
  (forall st' ch' own', linked st' ch' own' -> stocked c st' -> dropped (inr a) st ch st' ch' -> Q tt st') ->
  wp (critical_check (negb (sm_ext t =? 0));; b ← gets blocks; '(prev, ext) ← find_prev (base.size b) (inl n) (sm_ext t) a;
      critical_check (negb (ext =? 0));; e ← read_meta (inr ext); update_meta prev (set_ext (sm_ext e));; free_meta ext;; count_extra 0 (-1)) Q st.
Proof.
  intros Hl Hs E Ha Ht HQ. destruct (lk_chain _ _ _ Hl _ _ _ E) as [Hc Hn]. pose proof (chained_nonzero _ _ _ _ Hc Ha) as Ha0.
  assert (sm_ext t = hd 0 bs /\ sm_ext t <> 0) as [Eh Eh0].
  { destruct bs as [|b bs]; [by apply not_elem_of_nil in Ha|]. cbn [chained] in Hc. destruct Hc as (Hb & (t' & Ht' & Et) & _). simplify_eq. done. }
  wp_step. apply check_run; [apply negb_true_iff; by apply Z.eqb_neq|]. wp_step. wp_step. wp_step. rewrite Eh.
  apply (find_prev_run st _ (inl n) bs a); [done|done|pose proof (chain_length Hl _ _ _ E); lia|]. intros l1 l2 -> Hl1.
  wp_step. apply check_run; [apply negb_true_iff; by apply Z.eqb_neq|].
  assert (exists e, rd st (inr a) = Some e) as [e He] by (eapply chained_in; [exact Hc|]; apply elem_of_cons; right; by apply list_elem_of_fmap_2).
  assert (located ch h (last_place (inl n) l1)) as Hq. { exists n, (l1 ++ a :: l2). split; [done|]. unfold places. rewrite map_app. pose proof (last_place_in (inl n) l1). set_solver. }
  destruct (located_rd Hl _ _ Hq) as (Hq0 & m & Hm). wp_step. eapply read_meta_run; [exact He|congruence|]. wp_step. eapply update_meta_run; [exact Hm|done|].
  unfold free_meta, count_extra. wp_step. wp_step. wp_step. destruct (linked_unlink Hl h n l1 a l2 m e E Hm He) as [Hl' Hct].
  eapply HQ; [exact Hl'|by destruct Hs, (last_place (inl n) l1)|].
  assert (forall h' p, located (<[h := (n, l1 ++ l2)]> ch) h' p <-> located ch h' p /\ p <> inr a) as Hloc.
  { intros h' p. assert (located ch h (inr a)) as Hla by (exists n, (l1 ++ a :: l2); split; [done|]; apply elem_of_places; right; by exists a).
    destruct (decide (h = h')) as [<-|Hne].
    - rewrite (located_unfold _ _ n (l1 ++ l2)) by apply lookup_insert_eq. rewrite (located_unfold _ _ _ _ _ E), !elem_of_places.
      rewrite <- Permutation_middle, NoDup_cons in Hn. destruct Hn as [Hna _]. setoid_rewrite <- Permutation_middle. setoid_rewrite elem_of_cons. naive_solver.
    - unfold located. rewrite lookup_insert_ne by done. fold (located ch h' p). split; [|tauto]. intros Hp. split; [done|]. intros ->. by apply Hne, (located_inj Hl h h' (inr a)). }
  constructor.
  - intros h' p [Hp _]%Hloc. done.
  - intros h' p Hp Hpa. by apply Hloc.
  - intros h' n' bs' E' _. destruct (decide (h = h')) as [<-|Hne]; [|exists bs'; by rewrite lookup_insert_ne]. simplify_eq. exists (l1 ++ l2). by rewrite lookup_insert_eq.
  - intros h' p [Hp _]%Hloc Hpa. by apply (Hct h').
  - intros h' [_ Hp]%Hloc. done.
  - rewrite map_size_insert_Some by (by eexists). lia.
Qed.

Lemma release_stack_run pm st ch own c m (Q : unit -> stack_store -> Prop) : linked st ch own -> stocked c st ->
  refers ch (pm_stack_hash pm) (pm_word pm) (pm_is_stack_idx pm) -> rd st (place_of (pm_word pm) (pm_is_stack_idx pm)) = Some m ->
  (forall st' ch' own', linked st' ch' own' -> stocked c st' -> released pm (place_of (pm_word pm) (pm_is_stack_idx pm)) m st ch st' ch' -> Q tt st') ->
  wp (release_stack pm) Q st.
Proof.
  intros Hl Hs (Hloc & Hw & Hidx) Hm HQ. unfold release_stack. destruct pm as [ptr sz h w is_idx mm]. cbn [pm_size pm_stack_hash pm_word pm_is_stack_idx] in *.
  wp_step. apply slot_run. wp_step. apply (exist_store_run Hl h c); [done|]. intros sm Hl1 Hs1 Hv El Hroot.
  assert (forall p, rd (put_stack_map sm st) p = rd st p) as Hrd by (intros [k|b]; [simpl; by rewrite Hv|done]). set (st1 := put_stack_map sm st) in *.
  pose proof Hloc as (n & bs & E & Hp). rewrite E in *. specialize (Hroot _ _ eq_refl). simpl in El. rewrite bool_decide_true by (by eexists). cbn [negb].
  wp_step. apply wp_lift. wp_step. cbn [stack_map st1 put_stack_map]. rewrite El. wp_step. apply wp_lift. eapply current_root_run; [exact Hroot|]. change (put_stack_map sm (put_stack_map sm st)) with st1.
  destruct (located_rd Hl _ _ Hloc) as (Hp0 & _). assert (wp (if is_idx then critical_check (w =? Z.of_nat n);; mret (inl (Z.to_nat w)) else mret (inr w)) (fun t s => t = place_of w is_idx /\ s = st1) st1) as Htarget.
  { destruct is_idx; [|by wp_step]. destruct (Hidx eq_refl) as [bs' E']. simplify_eq. wp_step. apply check_run; [apply Z.eqb_eq; lia|]. by wp_step. }
  wp_step. change (put_stack_map sm (put_stack_map sm st)) with st1. eapply wp_mono, Htarget. intros t s [-> ->]. wp_step. eapply read_meta_run; [rewrite Hrd; exact Hm|done|].
  unfold released in HQ. cbn [pm_size pm_word pm_is_stack_idx] in HQ. destruct (sz <? sm_size m) eqn:Elt.
  - eapply write_meta_run; [rewrite Hrd; exact Hm|done|]. apply (HQ _ ch own); [by eapply (linked_wr Hl1); [done|rewrite Hrd; exact Hm|]|by apply stocked_wr|].
    split; [done|]. intros p. rewrite rd_wr by (rewrite Hrd; by eexists). rewrite Hrd. destruct (decide (place_of w is_idx = p)) as [<-|]; [by rewrite decide_True|by rewrite decide_False].
  - assert (exists t, rd st1 (inl n) = Some t) as [t Ht] by (rewrite Hrd; eapply (located_rd Hl h); exists n, bs; split; [done|]; apply elem_of_places; by left).
    wp_step. eapply read_meta_run; [exact Ht|done|]. assert (n = Z.to_nat w \/ is_idx = false) as Hn by (destruct is_idx; [destruct (Hidx eq_refl) as [bs' E']; simplify_eq; by left|by right]).
    destruct is_idx; cbn [place_of] in *.
    + destruct Hn as [Hn|?]; [|done]. rewrite <- Hn in HQ. destruct (lk_chain _ _ _ Hl1 _ _ _ E) as [Hc _]. destruct bs as [|b bs]; cbn [chained] in Hc.
      * destruct Hc as (t' & Ht' & Et). assert (t' = t) as -> by congruence. destruct (Z.eqb_spec (sm_ext t) 0); [|done].
        eapply drop_hash_run; [exact Hl1|done|done|]. intros st' ch' Hl' Hs' Hd. eapply HQ; [done|done|]. by apply (dropped_rd _ st st1).
      * destruct Hc as (Hb & (t' & Ht' & Et) & _). assert (t' = t) as -> by congruence. destruct (Z.eqb_spec (sm_ext t) 0); [congruence|].
        eapply clear_run; [exact Hl1|done|done|done|]. intros st' Hl' Hs' Hd. eapply HQ; [done|done|]. by apply (dropped_rd _ st st1).
    + apply elem_of_places in Hp as [?|(a & [= <-] & Ha)]; [done|]. eapply drop_block_run; [exact Hl1|done|exact E|done|done|].
      intros st' ch' own' Hl' Hs' Hd. eapply HQ; [done|done|]. by apply (dropped_rd _ st st1).
Qed.
End Facts.
End MemoryFacts.
