(* ===== verification/MemoryAccounts.v ===== *)
(** The accounts of the memory hook.

    The second half of the correctness of the container, on what clients see of it: [accounts]
    relates the pointers and the contents of the records of stacks to the allocations that are
    live.  Every live pointer is described by its [ptr_meta]; the record it refers to has the
    caller and the frames of its allocation; no two records of a hash have the same stack; and the
    size of a record is at least the sum of the sizes of the pointers that refer to it, so that a
    record whose size runs out has no pointer left. *)
From S2P Require Import Prelude Arch Machine SplayMap SplayFacts MemoryMetas MemoryFacts.

Module MemoryAccounts.
Import MemoryMetas MemoryFacts.

Section Accounts.
Context `{A : Arch}.

Notation chains := (gmap Z (nat * list Z)).
Notation contents := (place -> option (Z * Z * backtrace_t)).
Notation ptrs := (gmap Z ptr_meta).

(** The allocations that are live: the message, and whether it was for [mmap]. *)
Notation lives := (gmap Z (allocation_message * bool)).

Implicit Types (ch : chains) (cs : contents) (pmap : ptrs) (live : lives).

(** * Charges *)

(** The record a pointer refers to. *)
Definition ref_of (pm : ptr_meta) : place := place_of (pm_word pm) (pm_is_stack_idx pm).

Definition charge (p : place) (pm : ptr_meta) : Z := if negb (pm_stack_hash pm =? 0) && bool_decide (ref_of pm = p) then pm_size pm else 0.

Definition charges (p : place) (pmap : ptrs) : Z := map_fold (fun _ pm acc => charge p pm + acc) 0 pmap.

Lemma charges_insert p pmap k pm : pmap !! k = None -> charges p (<[k := pm]> pmap) = charge p pm + charges p pmap.
Proof. intros E. unfold charges. rewrite map_fold_insert_L; [done| |done]. intros. lia. Qed.

Lemma charges_delete p pmap k pm : pmap !! k = Some pm -> charges p pmap = charge p pm + charges p (delete k pmap).
Proof. intros E. rewrite <- (charges_insert p (delete k pmap) k pm) by apply lookup_delete_eq. by rewrite insert_delete_id. Qed.

(** Sizes are not negative, and positive for pointers with a stack. *)
Definition sized (pmap : ptrs) : Prop := forall k pm, pmap !! k = Some pm -> 0 <= pm_size pm /\ (pm_stack_hash pm <> 0 -> 0 < pm_size pm).

Lemma sized_delete pmap k : sized pmap -> sized (delete k pmap).
Proof. intros H k' pm [_ E]%lookup_delete_Some. by eapply H. Qed.

Lemma charge_nonneg p pmap k pm : sized pmap -> pmap !! k = Some pm -> 0 <= charge p pm.
Proof. intros Hs E. destruct (Hs _ _ E). unfold charge. destruct (_ && _); lia. Qed.

Lemma charges_nonneg p pmap : sized pmap -> 0 <= charges p pmap.
Proof.
  induction pmap as [|k pm pmap E IH] using map_ind; intros Hs; [done|]. rewrite charges_insert by done.
  assert (sized pmap) as Hs' by (intros k' pm' E'; eapply (Hs k'); rewrite lookup_insert_ne; [done|congruence]).
  pose proof (charge_nonneg p _ k pm Hs (lookup_insert_eq _ _ _)). specialize (IH Hs'). lia.
Qed.

(** A record without charges has no pointers. *)
Lemma charges_none p pmap k pm : sized pmap -> charges p pmap <= 0 -> pmap !! k = Some pm -> pm_stack_hash pm <> 0 -> ref_of pm <> p.
Proof.
  intros Hs Hc E Hh Hp. pose proof (charges_nonneg p _ (sized_delete _ k Hs)). rewrite (charges_delete p _ _ _ E) in Hc.
  destruct (Hs _ _ E) as [_ Hpos]. specialize (Hpos Hh). unfold charge in Hc. rewrite bool_decide_true in Hc by done. destruct (Z.eqb_spec (pm_stack_hash pm) 0); [done|]. simpl in Hc. lia.
Qed.

Lemma charges_absent p pmap : (forall k pm, pmap !! k = Some pm -> pm_stack_hash pm <> 0 -> ref_of pm <> p) -> charges p pmap = 0.
Proof.
  induction pmap as [|k pm pmap E IH] using map_ind; intros Hp; [done|]. rewrite charges_insert by done. rewrite IH.
  - specialize (Hp k pm (lookup_insert_eq _ _ _)). unfold charge. destruct (Z.eqb_spec (pm_stack_hash pm) 0); [done|]. by rewrite bool_decide_false by (by apply Hp).
  - intros k' pm' E'. apply (Hp k'). rewrite lookup_insert_ne; [done|congruence].
Qed.

(** A pointer that is overwritten keeps its charge on the record, but has none itself. *)
Lemma charges_overwrite p pmap k pm : sized pmap -> charges p (<[k := pm]> pmap) <= charge p pm + charges p pmap.
Proof.
  intros Hs. destruct (pmap !! k) as [old|] eqn:E; [|by rewrite charges_insert]. rewrite <- insert_delete_eq, charges_insert by apply lookup_delete_eq.
  rewrite (charges_delete p pmap k old) by done. pose proof (charge_nonneg p _ _ _ Hs E). lia.
Qed.

(** * Accounts *)

(** [pm] describes the live allocation [am] at [k]. *)
Definition described cs ch (k : Z) (pm : ptr_meta) (am : allocation_message) (mm : bool) : Prop :=
  am_ptr am = k /\ 0 <= am_size am /\ pm_ptr pm = k /\ pm_size pm = am_size am /\ pm_is_mmap pm = mm /\ pm_stack_hash pm = stack_hash_of am
  /\ if pm_stack_hash pm =? 0 then pm_word pm = am_caller am
     else refers ch (pm_stack_hash pm) (pm_word pm) (pm_is_stack_idx pm) /\ exists x, cs (ref_of pm) = Some x /\ content_stack x = am_stack am.

Record accounts cs ch pmap live (W : Z) : Prop := MkAccounts {
  ac_live k : is_Some (live !! k) -> is_Some (pmap !! k);
  ac_described k pm : pmap !! k = Some pm -> exists am mm, live !! k = Some (am, mm) /\ described cs ch k pm am mm;
  ac_shape h p x : located ch h p -> cs p = Some x -> x.2 <> [] \/ x = (0, 0, []);
  ac_distinct h p q x y : located ch h p -> located ch h q -> cs p = Some x -> cs q = Some y -> content_stack x = content_stack y -> x.2 <> [] -> p = q;
  ac_charges h p x : located ch h p -> cs p = Some x -> charges p pmap <= x.1.1 <= W
}.

Lemma stack_hash_stack am : stack_hash_of am <> 0 -> am_size am <> 0 /\ am_backtrace am <> [].
Proof.
  unfold stack_hash_of. destruct (Z.eqb_spec (am_size am) 0); [done|]. destruct (am_backtrace am); [done|]. done.
Qed.

Lemma content_stack_nil x am : content_stack x = am_stack am -> am_backtrace am <> [] -> x.2 <> [].
Proof. unfold content_stack, am_stack. intros [= _ E] Ha Hx. rewrite Hx in E. by destruct (am_backtrace am). Qed.

Lemma accounts_sized cs ch pmap live W : accounts cs ch pmap live W -> sized pmap.
Proof.
  intros Ha k pm E. destruct (ac_described _ _ _ _ _ Ha _ _ E) as (am & mm & _ & (_ & H0 & _ & Es & _ & Eh & _)). rewrite Es, Eh. split; [done|].
  intros [? _]%stack_hash_stack. lia.
Qed.

(** A live pointer with a stack: its record. *)
Lemma described_stack cs ch k pm am mm : described cs ch k pm am mm -> pm_stack_hash pm <> 0 ->
  refers ch (pm_stack_hash pm) (pm_word pm) (pm_is_stack_idx pm) /\ exists x, cs (ref_of pm) = Some x /\ content_stack x = am_stack am /\ x.2 <> [].
Proof.
  intros (_ & _ & _ & _ & _ & Eh & Hr) Hh. destruct (Z.eqb_spec (pm_stack_hash pm) 0); [done|]. destruct Hr as (Hr & x & Hx & Es). split; [done|]. exists x. split_and!; [done|done|].
  eapply content_stack_nil; [done|]. rewrite Eh in Hh. by apply stack_hash_stack in Hh as [_ ?].
Qed.

(** Another store in which the record of the pointer has the same stack. *)
Lemma described_mono cs cs' ch ch' k pm am mm : described cs ch k pm am mm ->
  (pm_stack_hash pm <> 0 -> refers ch' (pm_stack_hash pm) (pm_word pm) (pm_is_stack_idx pm) /\ exists x, cs' (ref_of pm) = Some x /\ content_stack x = am_stack am) ->
  described cs' ch' k pm am mm.
Proof.
  intros (H1 & H2 & H3 & H4 & H5 & H6 & H7) Hr. unfold described. do 6 (split; [done|]). destruct (Z.eqb_spec (pm_stack_hash pm) 0); [done|by apply Hr].
Qed.

(** ** Pointers without a stack *)

Lemma accounts_plain cs ch pmap live W W' pm am mm : accounts cs ch pmap live W -> W <= W' -> stack_hash_of am = 0 -> described cs ch (am_ptr am) pm am mm ->
  accounts cs ch (<[am_ptr am := pm]> pmap) (<[am_ptr am := (am, mm)]> live) W'.
Proof.
  intros Ha HW Hh Hd. constructor; [| |apply Ha|apply Ha|].
  - intros k. rewrite !lookup_insert_is_Some'. intros [?|?]; [by left|right; by eapply ac_live].
  - intros k pm'. rewrite lookup_insert_Some. intros [[<- <-]|[Hne E]]; [exists am, mm; by rewrite lookup_insert_eq|].
    rewrite lookup_insert_ne by done. by eapply ac_described.
  - intros h p x Hp Hx. pose proof (ac_charges _ _ _ _ _ Ha _ _ _ Hp Hx). pose proof (charges_overwrite p pmap (am_ptr am) pm (accounts_sized _ _ _ _ _ Ha)).
    assert (charge p pm = 0) as Hc0 by (unfold charge; destruct Hd as (_ & _ & _ & _ & _ & Eh & _); by rewrite Eh, Hh). lia.
Qed.

Lemma accounts_forget cs ch pmap live W k pm : accounts cs ch pmap live W -> pmap !! k = Some pm -> pm_stack_hash pm = 0 ->
  accounts cs ch (delete k pmap) (delete k live) W.
Proof.
  intros Ha E Hh. constructor; [| |apply Ha|apply Ha|].
  - intros k' (x & [Hne Ex]%lookup_delete_Some). rewrite lookup_delete_ne by done. eapply ac_live; [done|by eexists].
  - intros k' pm' [Hne E']%lookup_delete_Some. rewrite lookup_delete_ne by done. by eapply ac_described.
  - intros h p x Hp Hx. pose proof (ac_charges _ _ _ _ _ Ha _ _ _ Hp Hx) as Hc. rewrite (charges_delete p _ _ _ E) in Hc. unfold charge in Hc. by rewrite Hh in Hc.
Qed.

(** A pointer is unknown exactly if its allocation is. *)
Lemma accounts_unknown cs ch pmap live W k : accounts cs ch pmap live W -> pmap !! k = None -> live !! k = None.
Proof. intros Ha E. destruct (live !! k) eqn:E'; [|done]. destruct (ac_live _ _ _ _ _ Ha k) as [x Ex]; [by eexists|]. congruence. Qed.

(** ** Allocations with a stack *)

Section Allocated.
Context {cs : contents} {ch : chains} {pmap : ptrs} {live : lives} {W : Z} (Ha : accounts cs ch pmap live W).
Context {st st' : stack_store} {ch' : chains} {am : allocation_message} {w : Z} {is_idx : bool}.
Context (Hcs : forall p, cs p = content <$> rd st p) (Ht : targeted (stack_hash_of am) am st ch w is_idx st' ch').
Context (Hinj : forall h h' p, located ch' h p -> located ch' h' p -> h = h') (Hh : stack_hash_of am <> 0).
Let h : Z := stack_hash_of am.
Let q : place := place_of w is_idx.

Lemma allocated_old h' p : located ch h' p -> located ch' h' p.
Proof.
  intros Hp. destruct (decide (h' = h)) as [->|Hne]; [by eapply tg_old|]. destruct Hp as (n & bs & E & Hp). exists n, bs. by rewrite (tg_other _ _ _ _ _ _ _ _ Ht).
Qed.

Lemma allocated_new h' p : located ch' h' p -> p <> q -> located ch h' p.
Proof.
  intros Hp Hq. destruct (decide (h' = h)) as [->|Hne]; [by destruct (tg_new _ _ _ _ _ _ _ _ Ht _ Hp)|].
  destruct Hp as (n & bs & E & Hp). exists n, bs. by rewrite <- (tg_other _ _ _ _ _ _ _ _ Ht).
Qed.

Lemma allocated_refers h' w' i' : refers ch h' w' i' -> refers ch' h' w' i'.
Proof.
  intros (H1 & H2 & H3). split_and!; [by apply allocated_old|done|]. intros Hi. destruct (H3 Hi) as [bs E]. destruct (decide (h' = h)) as [->|Hne]; [by eapply tg_top|].
  exists bs. by rewrite (tg_other _ _ _ _ _ _ _ _ Ht).
Qed.

Lemma allocated_hash h' : located ch' h' q -> h' = h.
Proof. intros Hp. eapply Hinj; [exact Hp|]. apply Ht. Qed.

(** What clients saw of a record is what they see. *)
Lemma allocated_content h' p : located ch h' p -> content <$> rd st' p = cs p.
Proof. intros Hp. rewrite Hcs. by eapply tg_content. Qed.

(** The record of the stack, before the message is added to it. *)
Lemma allocated_record : 0 <= W -> exists x, content <$> rd st' q = Some x /\ charges q pmap <= x.1.1 <= W
  /\ (located ch h q -> cs q = Some x)
  /\ (content_stack x = am_stack am /\ located ch h q \/ x = (0, 0, []) /\ forall p y, located ch h p -> cs p = Some y -> content_stack y <> am_stack am).
Proof.
  intros HW. destruct (tg_found _ _ _ _ _ _ _ _ Ht) as (m & Hm & Hcase). fold q in Hm, Hcase. exists (content m). rewrite Hm.
  assert (located ch h q -> cs q = Some (content m)) as Hq by (intros Hp; rewrite <- (allocated_content h) by done; by rewrite Hm). split; [done|].
  assert (forall p y, (forall p m', located ch (stack_hash_of am) p -> rd st p = Some m' -> content_stack (content m') <> am_stack am) ->
    located ch h p -> cs p = Some y -> content_stack y <> am_stack am) as Habs.
  { intros p y Habs Hp Hy. rewrite Hcs in Hy. apply fmap_Some in Hy as (m' & Hm' & ->). by apply (Habs p). }
  destruct Hcase as [[Hs Hl]|(Hb & _ & Hn)].
  - split; [by eapply (ac_charges _ _ _ _ _ Ha h); [|apply Hq]|]. split; [done|by left].
  - split; [|split; [done|right; split; [done|]; intros p y; by apply Habs]]. rewrite Hb. simpl. split; [|done]. rewrite charges_absent; [done|].
    intros k pm E Hpm Hr. destruct (ac_described _ _ _ _ _ Ha _ _ E) as (am' & mm' & _ & Hd). destruct (described_stack _ _ _ _ _ _ Hd Hpm) as (Hrf & y & Hy & _ & Hne).
    rewrite Hr in Hy. destruct Hrf as (Hl & _). change (located ch (pm_stack_hash pm) (ref_of pm)) in Hl. rewrite Hr in Hl.
    pose proof (allocated_hash _ (allocated_old _ _ Hl)) as Eh. rewrite Eh in Hl. rewrite (Hq Hl) in Hy. simplify_eq. by rewrite Hb in Hne.
Qed.

(** The message is added to a record. *)
Definition fill (x : Z * Z * backtrace_t) : Z * Z * backtrace_t :=
  if (length x.2 =? 0)%nat then (x.1.1 + am_size am, am_caller am, am_backtrace am) else (x.1.1 + am_size am, x.1.2, x.2).

Lemma filled_stack x : content_stack x = am_stack am \/ x = (0, 0, []) -> content_stack (fill x) = am_stack am /\ (fill x).2 <> [] /\ (fill x).1.1 = x.1.1 + am_size am.
Proof.
  pose proof (stack_hash_stack _ Hh) as [_ Hbt]. unfold fill. intros [Hs| ->]; [|done]. pose proof (content_stack_nil _ _ Hs Hbt). destruct (Nat.eqb_spec (length x.2) 0) as [E|_]; [by apply length_zero_iff_nil in E|done].
Qed.

Lemma accounts_allocated cs' pm mm : 0 <= W -> (forall p, cs' p = if decide (p = q) then fill <$> (content <$> rd st' q) else content <$> rd st' p) ->
  described cs' ch' (am_ptr am) pm am mm -> ref_of pm = q -> accounts cs' ch' (<[am_ptr am := pm]> pmap) (<[am_ptr am := (am, mm)]> live) (W + am_size am).
Proof.
  intros HW Hcs' Hd Hr. destruct (allocated_record HW) as (x & Hx & Hchg & Hxq & Hcase). destruct (filled_stack x) as (Fs & Fb & Fz); [naive_solver|].
  assert (cs' q = Some (fill x)) as Hq by (rewrite Hcs', decide_True by done; by rewrite Hx).
  assert (forall h' p, located ch' h' p -> p <> q -> located ch h' p /\ cs' p = cs p) as Hold.
  { intros h' p Hp Hpq. pose proof (allocated_new _ _ Hp Hpq) as Hp'. split; [done|]. rewrite Hcs', decide_False by done. by eapply allocated_content. }
  assert (0 <= am_size am) as Hsz by apply Hd. constructor.
  - intros k. rewrite !lookup_insert_is_Some'. intros [?|?]; [by left|right; by eapply ac_live].
  - intros k pm'. rewrite lookup_insert_Some. intros [[<- <-]|[Hne E]]; [exists am, mm; by rewrite lookup_insert_eq|]. rewrite lookup_insert_ne by done.
    destruct (ac_described _ _ _ _ _ Ha _ _ E) as (am' & mm' & El & Hd'). exists am', mm'. split; [done|]. eapply described_mono; [done|]. intros Hh'.
    destruct (described_stack _ _ _ _ _ _ Hd' Hh') as (Hrf & y & Hy & Es & Hb). pose proof (allocated_refers _ _ _ Hrf) as Hrf'. split; [done|].
    pose proof (proj1 Hrf) as Hl. pose proof (proj1 Hrf') as Hl'. change (located ch (pm_stack_hash pm') (ref_of pm')) in Hl. change (located ch' (pm_stack_hash pm') (ref_of pm')) in Hl'.
    destruct (decide (ref_of pm' = q)) as [Eq|Hpq]; [|exists y; by rewrite (proj2 (Hold _ _ Hl' Hpq))]. exists (fill x). rewrite Eq in *. split; [done|]. rewrite Fs, <- Es.
    rewrite (allocated_hash _ Hl') in Hl. rewrite (Hxq Hl) in Hy. simplify_eq. destruct Hcase as [[Hs _]|[-> _]]; [by symmetry|done].
  - intros h' p y Hp Hy. destruct (decide (p = q)) as [->|Hpq]; [left; congruence|]. destruct (Hold _ _ Hp Hpq) as [Hp' Ec]. rewrite Ec in Hy. by eapply ac_shape.
  - assert (forall h' p y, located ch' h' p -> p <> q -> located ch' h' q -> cs' p = Some y -> content_stack y = am_stack am -> False) as Hone.
    { intros h' p y Hp Hpq Hq' Hy Es. destruct (Hold _ _ Hp Hpq) as [Hp' Ec]. rewrite Ec in Hy. rewrite (allocated_hash _ Hq') in Hp'. destruct Hcase as [[Hs Hl]|[_ Habs]]; [|by eapply Habs].
      apply Hpq. eapply (ac_distinct _ _ _ _ _ Ha h p q y x); [done|done|done|by apply Hxq|congruence|]. eapply content_stack_nil; [done|]. by apply stack_hash_stack. }
    intros h' p1 p2 x1 x2 H1 H2 E1 E2 Es Hb. destruct (decide (p1 = q)) as [->|N1], (decide (p2 = q)) as [->|N2]; [done| | |].
    + exfalso. eapply (Hone h' p2 x2); try done. congruence.
    + exfalso. eapply (Hone h' p1 x1); try done. congruence.
    + destruct (Hold _ _ H1 N1) as [L1 C1], (Hold _ _ H2 N2) as [L2 C2]. rewrite C1 in E1. rewrite C2 in E2. by eapply ac_distinct.
  - intros h' p y Hp Hy. pose proof (charges_overwrite p pmap (am_ptr am) pm (accounts_sized _ _ _ _ _ Ha)) as Hov. destruct (decide (p = q)) as [->|Hpq].
    + assert (y = fill x) as -> by congruence. assert (charge q pm <= am_size am) by (destruct Hd as (_ & _ & _ & Es & _); unfold charge; destruct (_ && _); lia). lia.
    + destruct (Hold _ _ Hp Hpq) as [Hp' Ec]. rewrite Ec in Hy. pose proof (ac_charges _ _ _ _ _ Ha _ _ _ Hp' Hy).
      assert (charge p pm = 0) as Hc0 by (unfold charge; rewrite bool_decide_false by congruence; by rewrite andb_false_r). lia.
Qed.
End Allocated.

(** ** Releasing a pointer with a stack *)

Section Released.
Context {cs cs' : contents} {ch ch' : chains} {pmap : ptrs} {live : lives} {W : Z} (Ha : accounts cs ch pmap live W).
Context {st st' : stack_store} (Hcs : forall p, cs p = content <$> rd st p) (Hcs' : forall p, cs' p = content <$> rd st' p).
Context {k : Z} {pm : ptr_meta} {m : stack_meta} (E : pmap !! k = Some pm) (Hh : pm_stack_hash pm <> 0) (Hm : rd st (ref_of pm) = Some m).

(** The other pointers, if they refer to records that are as they were. *)
Lemma released_described : (forall k' pm', k' <> k -> pmap !! k' = Some pm' -> pm_stack_hash pm' <> 0 ->
    refers ch' (pm_stack_hash pm') (pm_word pm') (pm_is_stack_idx pm') /\ (content_stack <$> cs' (ref_of pm')) = (content_stack <$> cs (ref_of pm'))) ->
  (forall k', is_Some (delete k live !! k') -> is_Some (delete k pmap !! k')) /\
  forall k' pm', delete k pmap !! k' = Some pm' -> exists am mm, delete k live !! k' = Some (am, mm) /\ described cs' ch' k' pm' am mm.
Proof.
  intros Hr. split.
  - intros k' (x & [Hne Ex]%lookup_delete_Some). rewrite lookup_delete_ne by done. eapply ac_live; [done|by eexists].
  - intros k' pm' [Hne E']%lookup_delete_Some. rewrite lookup_delete_ne by done. destruct (ac_described _ _ _ _ _ Ha _ _ E') as (am & mm & El & Hd).
    exists am, mm. split; [done|]. eapply described_mono; [done|]. intros Hh'. destruct (Hr k' pm') as [Hrf Hc]; [done|done|done|]. split; [done|].
    destruct (described_stack _ _ _ _ _ _ Hd Hh') as (_ & x & Hx & Es & _). rewrite Hx in Hc. simpl in Hc. apply fmap_Some in Hc as (y & Hy & Ey). exists y. split; [done|congruence].
Qed.

Lemma charge_self : charge (ref_of pm) pm = pm_size pm.
Proof. unfold charge. rewrite bool_decide_true by done. by destruct (Z.eqb_spec (pm_stack_hash pm) 0). Qed.

Lemma refers_located : located ch (pm_stack_hash pm) (ref_of pm).
Proof. destruct (ac_described _ _ _ _ _ Ha _ _ E) as (am & mm & _ & Hd). destruct (described_stack _ _ _ _ _ _ Hd Hh) as ((Hl & _) & _). done. Qed.

Lemma charges_rest p x h : located ch h p -> cs p = Some x -> charge p pm + charges p (delete k pmap) <= x.1.1 <= W.
Proof. intros Hp Hx. rewrite <- charges_delete by done. by eapply ac_charges. Qed.

Lemma accounts_dropped : sm_size m <= pm_size pm -> dropped (ref_of pm) st ch st' ch' -> accounts cs' ch' (delete k pmap) (delete k live) W.
Proof.
  intros Hsz Hdr. pose proof (accounts_sized _ _ _ _ _ Ha) as Hsized. pose proof refers_located as Hq.
  pose proof (charges_rest _ (content m) _ Hq ltac:(by rewrite Hcs, Hm)) as Hc. rewrite charge_self in Hc. simpl in Hc.
  assert (forall k' pm', delete k pmap !! k' = Some pm' -> pm_stack_hash pm' <> 0 -> ref_of pm' <> ref_of pm) as Hnone.
  { intros k' pm' E' Hh'. apply (charges_none (ref_of pm) (delete k pmap) k'); [by apply sized_delete|lia|exact E'|done]. }
  assert (forall h' p, located ch' h' p -> p <> ref_of pm -> cs' p = cs p) as Hsame by (intros h' p Hp Hpq; rewrite Hcs, Hcs'; by eapply dr_content).
  destruct released_described as [D1 D2].
  { intros k' pm' Hne E' Hh'. specialize (Hnone k' pm' ltac:(by rewrite lookup_delete_ne) Hh'). destruct (ac_described _ _ _ _ _ Ha _ _ E') as (am & mm & _ & Hd).
    destruct (described_stack _ _ _ _ _ _ Hd Hh') as ((Hl & Hw & Hi) & _). change (located ch (pm_stack_hash pm') (ref_of pm')) in Hl.
    pose proof (dr_kept _ _ _ _ _ Hdr _ _ Hl Hnone) as Hl'. split; [|by rewrite (Hsame _ _ Hl' Hnone)]. split_and!; [done|done|]. intros Ei. destruct (Hi Ei) as [bs Eb].
    eapply dr_top; [done|done|]. unfold ref_of at 1 in Hnone. by rewrite Ei in Hnone. }
  constructor; [exact D1|exact D2| | |].
  - intros h' p x Hp Hx. destruct (decide (p = ref_of pm)) as [->|Hpq].
    + right. destruct (dr_blank _ _ _ _ _ Hdr _ Hp) as [Hb _]. rewrite Hcs', Hb in Hx. by simplify_eq.
    + rewrite (Hsame _ _ Hp Hpq) in Hx. eapply ac_shape; [done|by eapply dr_old|done].
  - assert (forall h' p x, located ch' h' p -> cs' p = Some x -> x.2 <> [] -> p <> ref_of pm) as Hnb.
    { intros h' p x Hp Hx Hb ->. destruct (dr_blank _ _ _ _ _ Hdr _ Hp) as [Hbl _]. rewrite Hcs', Hbl in Hx. by simplify_eq. }
    intros h' p1 p2 x1 x2 H1 H2 E1 E2 Es Hb. assert (x2.2 <> []) as Hb2. { unfold content_stack in Es. injection Es as _ Es. intros E0. rewrite E0 in Es. by destruct x1.2. }
    pose proof (Hnb _ _ _ H1 E1 Hb) as N1. pose proof (Hnb _ _ _ H2 E2 Hb2) as N2. rewrite (Hsame _ _ H1 N1) in E1. rewrite (Hsame _ _ H2 N2) in E2.
    eapply ac_distinct; [done|by eapply dr_old|by eapply dr_old|done..].
  - intros h' p x Hp Hx. destruct (decide (p = ref_of pm)) as [->|Hpq].
    + destruct (dr_blank _ _ _ _ _ Hdr _ Hp) as [Hb _]. rewrite Hcs', Hb in Hx. simplify_eq. simpl. split; [lia|]. pose proof (charges_nonneg (ref_of pm) _ (sized_delete _ k Hsized)).
      destruct (Hsized _ _ E). lia.
    + rewrite (Hsame _ _ Hp Hpq) in Hx. pose proof (charges_rest _ _ _ (dr_old _ _ _ _ _ Hdr _ _ Hp) Hx). pose proof (charge_nonneg p _ _ _ Hsized E). lia.
Qed.

Lemma accounts_reduced : pm_size pm < sm_size m ->
  (forall p, cs' p = if decide (p = ref_of pm) then Some (sm_size m - pm_size pm, sm_caller m, sm_backtrace m) else cs p) -> accounts cs' ch (delete k pmap) (delete k live) W.
Proof.
  intros Hsz Hc'. pose proof (accounts_sized _ _ _ _ _ Ha) as Hsized. assert (cs (ref_of pm) = Some (content m)) as Hq by (by rewrite Hcs, Hm).
  assert (forall p, (snd <$> cs' p) = (snd <$> cs p) /\ (content_stack <$> cs' p) = (content_stack <$> cs p)) as Hsame.
  { intros p. rewrite Hc'. destruct (decide (p = ref_of pm)) as [->|]; [|done]. by rewrite Hq. }
  assert (forall p x, cs' p = Some x -> exists y, cs p = Some y /\ y.2 = x.2 /\ content_stack y = content_stack x) as Hback.
  { intros p x Hx. destruct (Hsame p) as [S1 S2]. rewrite Hx in S1, S2. destruct (cs p) as [y|]; [|done]. exists y. injection S1 as S1. split_and!; [done|done|]. by apply Some_inj in S2. }
  constructor.
  - intros k' (x & [Hne Ex]%lookup_delete_Some). rewrite lookup_delete_ne by done. eapply ac_live; [done|by eexists].
  - intros k' pm' [Hne E']%lookup_delete_Some. rewrite lookup_delete_ne by done. destruct (ac_described _ _ _ _ _ Ha _ _ E') as (am & mm & El & Hd).
    exists am, mm. split; [done|]. eapply described_mono; [done|]. intros Hh'. destruct (described_stack _ _ _ _ _ _ Hd Hh') as (Hrf & x & Hx & Es & _). split; [done|].
    destruct (Hsame (ref_of pm')) as [_ S2]. rewrite Hx in S2. simpl in S2. apply fmap_Some in S2 as (y & Hy & Ey). exists y. split; [done|congruence].
  - intros h' p x Hp Hx. destruct (decide (p = ref_of pm)) as [->|Hpq].
    + left. rewrite Hc', decide_True in Hx by done. simplify_eq. simpl. destruct (ac_described _ _ _ _ _ Ha _ _ E) as (am & mm & _ & Hd).
      destruct (described_stack _ _ _ _ _ _ Hd Hh) as (_ & y & Hy & _ & Hb). rewrite Hq in Hy. by simplify_eq.
    + rewrite Hc', decide_False in Hx by done. by eapply ac_shape.
  - intros h' p1 p2 x1 x2 H1 H2 E1 E2 Es Hb. destruct (Hback _ _ E1) as (y1 & Y1 & B1 & S1), (Hback _ _ E2) as (y2 & Y2 & B2 & S2). eapply (ac_distinct _ _ _ _ _ Ha h' p1 p2 y1 y2); try done; congruence.
  - intros h' p x Hp Hx. rewrite Hc' in Hx. destruct (decide (p = ref_of pm)) as [->|Hpq].
    + simplify_eq. pose proof (charges_rest _ _ _ Hp Hq) as Hc. rewrite charge_self in Hc. simpl in *. destruct (Hsized _ _ E). lia.
    + pose proof (charges_rest _ _ _ Hp Hx). pose proof (charge_nonneg p _ _ _ Hsized E). lia.
Qed.
End Released.
End Accounts.
End MemoryAccounts.
