(* ===== verification/MemoryContainer.v ===== *)
(** The container of the memory hook keeps the live allocations. *)
From S2P Require Import Prelude Arch Machine SplayMap SplayFacts MemoryMetas MemoryFacts MemoryAccounts.

Module MemoryContainer.
Import SplayMap SplayFacts MemoryMetas MemoryFacts MemoryAccounts.

Section Container.
Context `{A : Arch} (c : Z).
Context (Hptrs : fits (V := ptr_meta) (c + 1 + PTR_SPLAY_MAP_CAPACITY)) (Hstacks : fits (V := stack_meta) (c + 1 + STACK_SPLAY_MAP_CAPACITY)).

Notation lives := (gmap Z (allocation_message * bool)).

(** * Pointers *)

(** The map of pointers, with the index and the record of each. *)
Definition pointing (m : splay_map ptr_meta) (im : gmap Z nat) (pmap : gmap Z ptr_meta) : Prop :=
  holds m im /\ values (v_buff m) im = pmap /\ roomy PTR_SPLAY_MAP_CAPACITY c m.

Lemma pointing_lookup m im pmap k n pm : pointing m im pmap -> im !! k = Some n -> pmap !! k = Some pm -> v_buff m !! n = Some pm.
Proof. intros (_ & <- & _) E. rewrite lookup_values, E. done. Qed.

Lemma update_ptr_run s im pmap k n pm f (Q : unit -> memory_meta_container -> Prop) : pointing (ptr_map s) im pmap -> im !! k = Some n -> pmap !! k = Some pm ->
  (forall m, pointing m im (<[k := f pm]> pmap) -> Q tt (MkMetas m (stacks s))) -> wp (update_ptr n f) Q s.
Proof.
  intros Hp E Epm HQ. pose proof (pointing_lookup _ _ _ _ _ _ Hp E Epm) as Hv. destruct Hp as (Hh & Hvals & Hr). unfold update_ptr.
  wp_step. apply wp_lift. eapply get_val_run; [done|]. apply wp_lift. apply set_val_run; [by eapply lookup_lt_Some|]. apply HQ. split_and!.
  - apply holds_vals; [done|]. by rewrite length_insert.
  - rewrite <- Hvals. cbn. rewrite <- (insert_id im k n) at 1 by done. apply values_insert; [by left| |by apply list_lookup_insert_eq; eapply lookup_lt_Some|].
    + intros k1 k2 p. by apply holds_inj with (ptr_map s).
    + intros k' x _ Hx. by apply list_lookup_insert_ne.
  - by eapply roomy_kept.
Qed.

Lemma insert_ptr_run k v s im pmap (Q : nat -> memory_meta_container -> Prop) : pointing (ptr_map s) im pmap -> Z.of_nat (base.size im) <= c ->
  (forall n m, n <> 0%nat -> pointing m (<[k := n]> im) (<[k := v]> pmap) -> Q n (MkMetas m (stacks s))) -> wp (on_ptrs (insert k v)) Q s.
Proof.
  intros (Hh & Hvals & Hr) Hsz HQ. apply wp_lift. eapply wp_mono, (roomy_insert (V := ptr_meta) PTR_SPLAY_MAP_CAPACITY c ltac:(done) Hptrs k v _ _ Hh Hr Hsz).
  intros n m ((Hn & Hh' & Hv & _ & Hf & Hx) & Hr'). apply HQ; [done|]. split_and!; [done| |done]. rewrite <- Hvals. apply values_insert; try done.
  intros k1 k2 p. by apply holds_inj with (ptr_map s).
Qed.

Lemma remove_ptr_run k s im pmap (Q : nat -> memory_meta_container -> Prop) : pointing (ptr_map s) im pmap ->
  (forall m, pointing m (delete k im) (delete k pmap) -> v_buff m = v_buff (ptr_map s) -> Q (default 0%nat (im !! k)) (MkMetas m (stacks s))) -> wp (on_ptrs (remove k)) Q s.
Proof.
  intros (Hh & Hvals & Hr) HQ. apply wp_lift. eapply wp_mono, remove_run; [|done]. intros n m (-> & Hk & Hh' & Hv). apply HQ; [|done].
  split_and!; [done| |by eapply roomy_kept]. rewrite <- Hvals, Hv. unfold values. by rewrite omap_delete.
Qed.

Lemma ptr_slot_run {S} k (Q : unit -> S -> Prop) s : Q tt s -> wp (slot (ptr_meta_hash k) MAX_PTR_META_SLOT) Q s.
Proof. intros HQ. unfold slot, ptr_meta_hash. change (MAX_PTR_META_SLOT - 1) with 0. rewrite Z.land_0_r. done. Qed.

Lemma pointing_some m im pmap k pm : pointing m im pmap -> pmap !! k = Some pm -> exists n, im !! k = Some n /\ n <> 0%nat.
Proof. intros (Hh & <- & _) E. rewrite lookup_values in E. apply bind_Some in E as (n & E & _). exists n. split; [done|]. by eapply holds_index in E as [? _]. Qed.

Lemma pointing_none m im pmap k : pointing m im pmap -> pmap !! k = None -> im !! k = None.
Proof.
  intros (Hh & <- & _) E. destruct (im !! k) as [n|] eqn:E'; [|done]. destruct (holds_index _ _ _ _ Hh E') as (_ & v & Hv). rewrite lookup_values, E' in E. simpl in E. congruence.
Qed.

(** * Records *)

(** The last lines of the callback: the message is added to the record at [p]. *)
Lemma record_stack_run am st ch own h p m (Q : unit -> stack_store -> Prop) : linked st ch own -> stocked c st -> located ch h p -> rd st p = Some m ->
  0 <= sm_size m + am_size am < 2 ^ word_bits -> am_backtrace am <> [] ->
  (forall st', linked st' ch own -> stocked c st' -> (forall p', content <$> rd st' p' = if decide (p' = p) then Some (fill (am := am) (content m)) else content <$> rd st p') -> Q tt st') ->
  wp (update_meta p (fun m => set_size (uword (sm_size m + am_size am)) m);;
      update_meta p (fun m => if (length (sm_backtrace m) =? 0)%nat && negb (length (am_backtrace am) =? 0)%nat
                              then MkStack (sm_size m) (am_caller am) (am_backtrace am) (sm_ext m) else m)) Q st.
Proof.
  intros Hl Hs Hp Hm Hsz Hbt HQ. destruct (located_rd Hl _ _ Hp) as (Hp0 & _). wp_step. eapply update_meta_run; [done|done|]. set (m1 := set_size _ m).
  assert (linked (wr p m1 st) ch own) as Hl1 by (by eapply (linked_wr Hl)). assert (rd (wr p m1 st) p = Some m1) as Hm1 by (rewrite rd_wr by (by eexists); by rewrite decide_True).
  eapply update_meta_run; [exact Hm1|done|]. apply HQ; [eapply (linked_wr Hl1); [done|done|by destruct (_ && _)]|by apply stocked_wr, stocked_wr|].
  intros p'. rewrite !rd_wr by (try eexists; done). destruct (decide (p = p')) as [<-|Hne]; [|by rewrite decide_False]. rewrite decide_True by done. simpl. f_equal.
  unfold fill, m1. cbn [sm_backtrace set_size content fst snd]. rewrite uword_small by done.
  destruct (am_backtrace am); [done|]. destruct (length (sm_backtrace m) =? 0)%nat; done.
Qed.

(** * The container *)

(** The container [s] holds the allocations [live]; at most [N] of them were ever made, of at most
    [W] bytes in total. *)
Definition tracks (s : memory_meta_container) (live : lives) (N W : Z) : Prop :=
  exists im pmap ch own, pointing (ptr_map s) im pmap /\ linked (stacks s) ch own /\ stocked c (stacks s)
    /\ accounts (fun p => content <$> rd (stacks s) p) ch pmap live W
    /\ Z.of_nat (base.size im) <= N /\ Z.of_nat (base.size ch) <= N /\ 0 <= W.

Lemma size_insert_le {V} (m : gmap Z V) k v : (base.size (<[k := v]> m) <= S (base.size m))%nat.
Proof. rewrite map_size_insert. destruct (m !! k); simpl; lia. Qed.

Lemma process_allocation_run mm am s live N W : tracks s live N W -> 0 <= am_size am -> W + am_size am < 2 ^ word_bits -> N <= c ->
  wp (process_allocation mm am) (fun _ s' => tracks s' (<[am_ptr am := (am, mm)]> live) (N + 1) (W + am_size am)) s.
Proof.
  intros (im & pmap & ch & own & Hp & Hl & Hst & Ha & HNi & HNc & HW) Hsz Hmax HN. unfold process_allocation, insert_meta. set (k := am_ptr am). set (h := stack_hash_of am).
  wp_step. apply ptr_slot_run. wp_step. eapply insert_ptr_run; [exact Hp|lia|]. intros n m1 Hn0 Hp1. destruct (Nat.eqb_spec n 0); [done|].
  assert (<[k := n]> im !! k = Some n) as Ek by apply lookup_insert_eq. wp_step. eapply update_ptr_run; [exact Hp1|exact Ek|apply lookup_insert_eq|]. intros m2 Hp2. rewrite insert_insert_eq in Hp2.
  pose proof (size_insert_le im k n). destruct (Z.eqb_spec h 0) as [Eh|Hh].
  - unfold record_allocation. wp_step. eapply update_ptr_run; [exact Hp2|exact Ek|apply lookup_insert_eq|]. intros m3 Hp3. rewrite insert_insert_eq in Hp3.
    eapply update_ptr_run; [exact Hp3|exact Ek|apply lookup_insert_eq|]. intros m4 Hp4. rewrite insert_insert_eq in Hp4.
    exists (<[k := n]> im). eexists. exists ch, own. split; [exact Hp4|]. split_and!; try done; try lia. eapply accounts_plain; [done|lia|done|]. unfold described. cbn. by rewrite Eh.
  - wp_step. apply wp_lift. eapply (stack_of_run c Hstacks); [exact Hl|exact Hst|lia|]. intros st1 ch1 own1 w is_idx Hl1 Hst1 Ht.
    wp_step. eapply update_ptr_run; [exact Hp2|exact Ek|apply lookup_insert_eq|]. intros m3 Hp3. rewrite insert_insert_eq in Hp3. cbn [stacks]. wp_step. apply check_run; [done|].
    unfold record_allocation. wp_step. eapply update_ptr_run; [exact Hp3|exact Ek|apply lookup_insert_eq|]. intros m4 Hp4. rewrite insert_insert_eq in Hp4. cbn [stacks].
    destruct (allocated_record Ha (fun p => eq_refl) Ht (fun h h' p => located_inj Hl1 h h' p) HW) as (x & Hx & Hchg & _).
    apply fmap_Some in Hx as (mq & Hmq & ->). pose proof (charges_nonneg (place_of w is_idx) _ (accounts_sized _ _ _ _ _ Ha)). simpl in Hchg.
    apply wp_lift. eapply (record_stack_run am st1 ch1 own1 h (place_of w is_idx) mq); [exact Hl1|exact Hst1|apply Ht|exact Hmq|lia|by apply stack_hash_stack|].
    intros st2 Hl2 Hst2 Hc2. exists (<[k := n]> im). eexists. exists ch1, own1. split; [exact Hp4|]. split; [exact Hl2|]. split; [exact Hst2|].
    pose proof (tg_size _ _ _ _ _ _ _ _ Ht). split; [|split_and!; lia].
    eapply (accounts_allocated Ha (fun p => eq_refl) Ht (fun h h' p => located_inj Hl1 h h' p) Hh); [done|intros p; rewrite Hc2, Hmq; done| |done].
    unfold described. cbn [pm_stack_hash pm_word pm_is_stack_idx pm_ptr pm_size pm_is_mmap set_stack set_hash zero_val ptr_layout]. do 6 (split; [done|]). destruct (Z.eqb_spec h 0); [done|].
    split; [apply Ht|]. exists (fill (am := am) (content mq)). unfold ref_of. cbn [pm_word pm_is_stack_idx]. rewrite Hc2, decide_True by done. split; [done|].
    apply filled_stack; [done|]. destruct (tg_found _ _ _ _ _ _ _ _ Ht) as (mq' & Hmq' & Hcase). rewrite Hmq in Hmq'. simplify_eq. naive_solver.
Qed.

Lemma erase_run k s live N W : tracks s live N W -> wp (erase k) (fun b s' => b = bool_decide (is_Some (live !! k)) /\ tracks s' (delete k live) N W) s.
Proof.
  intros (im & pmap & ch & own & Hp & Hl & Hst & Ha & HNi & HNc & HW). unfold erase. wp_step. apply ptr_slot_run. wp_step. eapply remove_ptr_run; [exact Hp|]. intros m1 Hp1 Hv.
  assert (base.size (delete k im) <= base.size im)%nat as Hsz by apply map_subseteq_size, delete_subseteq.
  destruct (pmap !! k) as [pm|] eqn:Epm.
  - destruct (pointing_some _ _ _ _ _ Hp Epm) as (n & En & Hn0). rewrite En. simpl. destruct (Nat.eqb_spec n 0); [done|].
    destruct (ac_described _ _ _ _ _ Ha _ _ Epm) as (am & mm & El & Hd). rewrite El, bool_decide_true by (by eexists).
    wp_step. apply wp_lift. cbn [ptr_map]. eapply get_val_run; [rewrite Hv; by eapply pointing_lookup|]. wp_step. destruct (Z.eqb_spec (pm_stack_hash pm) 0) as [Eh|Hh].
    + wp_step. wp_step. split; [done|]. exists (delete k im), (delete k pmap), ch, own. split_and!; try done; try lia. by eapply accounts_forget.
    + destruct (described_stack _ _ _ _ _ _ Hd Hh) as (Hrf & x & Hx & _). apply fmap_Some in Hx as (mq & Hmq & ->).
      apply wp_lift. cbn [stacks]. eapply release_stack_run; [exact Hl|exact Hst|exact Hrf|exact Hmq|]. intros st' ch' own' Hl' Hst' Hrel. wp_step. split; [done|].
      unfold released in Hrel. destruct (Z.ltb_spec (pm_size pm) (sm_size mq)) as [Hlt|Hge].
      * destruct Hrel as [-> Hc']. exists (delete k im), (delete k pmap), ch, own'. split_and!; try done; try lia.
        eapply (accounts_reduced Ha (fun p => eq_refl) Epm Hh Hmq Hlt). intros p. by rewrite Hc'.
      * exists (delete k im), (delete k pmap), ch', own'. pose proof (dr_size _ _ _ _ _ Hrel). split_and!; try done; try lia.
        by eapply (accounts_dropped Ha (fun p => eq_refl) (fun p => eq_refl) Epm Hh Hmq Hge).
  - rewrite (pointing_none _ _ _ _ Hp Epm). simpl. wp_step. rewrite (accounts_unknown _ _ _ _ _ _ Ha Epm). split; [done|].
    rewrite (delete_id live) by (by eapply accounts_unknown). exists (delete k im), (delete k pmap), ch, own. rewrite (delete_id pmap) in * by done. split_and!; try done; try lia.
Qed.
End Container.
End MemoryContainer.
