(* ===== verification/MemoryReport.v ===== *)
(** What the memory hook reports.

    [process_all] handles messages as the background thread does; [lives_after] is its
    specification, the allocations that are live.  [reported] says what a collection has to
    contain for a list of live allocations: for every kind of memory and every caller the pointers
    and the sum of their sizes, and for every call stack one record with the sum of the sizes. *)
From S2P Require Import Prelude Arch Machine SplayMap SplayFacts MemoryMetas MemoryFacts MemoryAccounts MemoryContainer.
From Stdlib Require Import Sorted.

Module MemoryReport.
Import SplayMap SplayFacts MemoryMetas MemoryFacts MemoryAccounts MemoryContainer.

Section Report.
Context `{A : Arch}.

Notation lives := (gmap Z (allocation_message * bool)).

(** * The specification *)

Inductive event :=
| Allocated (is_mmap : bool) (am : allocation_message)
| Released (ptr : Z).

Definition live_after (e : event) (live : lives) : lives :=
  match e with Allocated mm am => <[am_ptr am := (am, mm)]> live | Released p => delete p live end.

Definition lives_after (es : list event) : lives := foldl (fun l e => live_after e l) ∅ es.

(** A live allocation with its pointer. *)
Notation entry := (Z * (allocation_message * bool))%type.

Definition bytes (l : list entry) : Z := foldr (fun e n => am_size e.2.1 + n) 0 l.

Definition of_caller (mm : bool) (caller : Z) (l : list entry) : list entry := filter (fun e => e.2.2 = mm /\ am_caller e.2.1 = caller) l.

Definition of_stack (mm : bool) (stack : Z * list Z) (l : list entry) : list entry :=
  filter (fun e => e.2.2 = mm /\ stack_hash_of e.2.1 <> 0 /\ am_stack e.2.1 = stack) l.

Definition callers_in (mm : bool) (r : collected) : gmap Z caller_meta := if mm then mmap_callers r else heap_callers r.
Definition stacks_in (mm : bool) (r : collected) : gmap place stack_meta := if mm then mmap_stacks r else heap_stacks r.

Record reported (r : collected) (l : list entry) : Prop := MkReported {
  rp_count : ptr_meta_size r = Z.of_nat (length l);
  rp_callers mm caller : callers_in mm r !! caller =
    if bool_decide (caller = 0 \/ of_caller mm caller l = []) then None
    else Some (MkCaller (bytes (of_caller mm caller l)) (list_to_set (of_caller mm caller l).*1));
  rp_stack mm p m : stacks_in mm r !! p = Some m ->
    of_stack mm (content_stack (content m)) l <> [] /\ sm_size m = bytes (of_stack mm (content_stack (content m)) l);
  rp_stacks mm stack : of_stack mm stack l <> [] -> exists p m, stacks_in mm r !! p = Some m /\ content_stack (content m) = stack;
  rp_distinct mm p p' m m' : stacks_in mm r !! p = Some m -> stacks_in mm r !! p' = Some m' -> content_stack (content m) = content_stack (content m') -> p = p'
}.

(** * Processing *)

Definition process (e : event) : M memory_meta_container unit :=
  match e with Allocated mm am => process_allocation mm am | Released p => _ ← erase p; mret tt end.

Fixpoint process_all (es : list event) : M memory_meta_container unit :=
  match es with [] => mret tt | e :: es => process e;; process_all es end.

(** Bytes ever allocated. *)
Definition volume (es : list event) : Z := foldr (fun e n => match e with Allocated _ am => am_size am | Released _ => 0 end + n) 0 es.

Definition sane (e : event) : Prop := match e with Allocated _ am => 0 <= am_size am | Released _ => True end.

Lemma volume_nonneg es : Forall sane es -> 0 <= volume es.
Proof. induction 1 as [|[mm am|p] es He _ IH]; simpl in *; lia. Qed.

Section Run.
Context (c : Z) (Hptrs : fits (V := ptr_meta) (c + 1 + PTR_SPLAY_MAP_CAPACITY)) (Hstacks : fits (V := stack_meta) (c + 1 + STACK_SPLAY_MAP_CAPACITY)).

Lemma process_all_run es : forall s live N W, tracks c s live N W -> Forall sane es -> N + Z.of_nat (length es) <= c + 1 -> W + volume es < 2 ^ word_bits ->
  wp (process_all es) (fun _ s' => exists N' W', tracks c s' (foldl (fun l e => live_after e l) live es) N' W') s.
Proof.
  induction es as [|e es IH]; intros s live N W Ht Hs HN HW; cbn [process_all]; [wp_step; by exists N, W|]. apply Forall_cons in Hs as [He Hs]. pose proof (volume_nonneg _ Hs).
  cbn [length volume foldr] in HN, HW. fold (volume es) in HW. wp_step. destruct e as [mm am|p]; cbn [process].
  - simpl in He. eapply wp_mono, (process_allocation_run c Hptrs Hstacks mm am s live N W Ht); [|done|lia|lia]. intros [] s' Ht'. apply (IH _ _ _ _ Ht'); [done|lia|lia].
  - wp_step. eapply wp_mono, (erase_run c p s live N W Ht). intros b s' [_ Ht']. wp_step. apply (IH _ _ _ _ Ht'); [done|lia|lia].
Qed.

Lemma new_tracks : 0 <= c -> tracks c (new_container [] [] []) ∅ 0 0.
Proof.
  intros Hc. destruct (new_run (V := ptr_meta) PTR_SPLAY_MAP_CAPACITY) as (pm & Epm & Hpm & Ip & Ap & Bp); [done|apply Hptrs|apply Hptrs|..].
  1,2: assert (fits (V := ptr_meta) PTR_SPLAY_MAP_CAPACITY) as (_ & _ & _ & ? & ?) by (eapply fits_le, Hptrs; unfold PTR_SPLAY_MAP_CAPACITY; lia); done.
  destruct (new_run (V := stack_meta) STACK_SPLAY_MAP_CAPACITY) as (sm & Esm & Hsm & Is & As & Bs); [done|apply Hstacks|apply Hstacks|..].
  1,2: assert (fits (V := stack_meta) STACK_SPLAY_MAP_CAPACITY) as (_ & _ & _ & ? & ?) by (eapply fits_le, Hstacks; unfold STACK_SPLAY_MAP_CAPACITY; lia); done.
  unfold new_container. rewrite Epm, Esm. cbn [snd]. exists ∅, ∅, ∅, ∅. split_and!; try done.
  - do 2 (split; [done|]). do 2 (split; [done|]). intros i Hi. cbn in Hi. rewrite Hi in Bp. simplify_eq/=. unfold PTR_SPLAY_MAP_CAPACITY in *. lia.
  - split; [|done]. do 2 (split; [done|]). intros i Hi. cbn in Hi. rewrite Hi in Bs. simplify_eq/=. unfold STACK_SPLAY_MAP_CAPACITY in *. lia.
  - constructor; [by intros k [? ?]|done|..]; intros h p; [intros x (? & ? & ? & _)|intros q x y (? & ? & ? & _)|intros x (? & ? & ? & _)]; done.
Qed.
End Run.

(** * Collecting *)

(** A pointer in the map, with its allocation. *)
Record item := MkItem { it_key : Z; it_meta : ptr_meta; it_am : allocation_message; it_mmap : bool }.

Definition entry_of (x : item) : entry := (it_key x, (it_am x, it_mmap x)).
Definition binding_of (x : item) : Z * ptr_meta := (it_key x, it_meta x).

(** What a turn of [collect_metas] adds. *)
Definition collect_item (recs : place -> stack_meta) (r : collected) (x : item) : collected :=
  let callers := if am_caller (it_am x) =? 0 then (fun m => m) else add_caller (am_caller (it_am x)) (it_key x) (am_size (it_am x)) in
  let stacks := if pm_stack_hash (it_meta x) =? 0 then (fun m => m) else add_stack (ref_of (it_meta x)) (am_size (it_am x)) (recs (ref_of (it_meta x))) in
  if it_mmap x
  then MkCollected (heap_callers r) (callers (mmap_callers r)) (heap_stacks r) (stacks (mmap_stacks r)) (uword (ptr_meta_size r + 1))
  else MkCollected (callers (heap_callers r)) (mmap_callers r) (stacks (heap_stacks r)) (mmap_stacks r) (uword (ptr_meta_size r + 1)).

Definition item_ok (st : stack_store) (ch : gmap Z (nat * list Z)) (x : item) : Prop :=
  described (fun p => content <$> rd st p) ch (it_key x) (it_meta x) (it_am x) (it_mmap x).

Definition recs_of (st : stack_store) (p : place) : stack_meta := default zero_stack (rd st p).

Lemma collect_step c st ch own r x : linked st ch own -> stocked c st -> item_ok st ch x ->
  wp (for_each_step collect_visit r (it_key x) (it_meta x))
    (fun r' st' => r' = collect_item (recs_of st) r x /\ linked st' ch own /\ stocked c st' /\ forall p, rd st' p = rd st p) st.
Proof.
  destruct x as [k pm am mm]. unfold item_ok. cbn [it_key it_meta it_am it_mmap]. intros Hl Hs Hd. pose proof Hd as (_ & _ & _ & Esz & Emm & _ & Hr). unfold for_each_step, collect_item. cbn [it_key it_meta it_am it_mmap].
  destruct (Z.eqb_spec (pm_stack_hash pm) 0) as [Eh|Hh].
  - unfold collect_visit. wp_step. wp_step. wp_step. split; [|done]. by rewrite Hr, Esz, Emm.
  - destruct Hr as (Hrf & x & Hx & Es). apply fmap_Some in Hx as (m & Hm & ->). destruct Hrf as (Hloc & _). change (located ch (pm_stack_hash pm) (ref_of pm)) in Hloc.
    wp_step. apply slot_run. wp_step. apply (exist_store_run Hl _ c); [done|]. intros sm Hl1 Hs1 Hv _ _.
    assert (forall p, rd (put_stack_map sm st) p = rd st p) as Hrd by (intros [n|a]; [simpl; by rewrite Hv|done]). set (st1 := put_stack_map sm st) in *.
    destruct Hloc as (n & bs & E & Hp). rewrite bool_decide_true by (rewrite E; by eexists). change (if pm_is_stack_idx pm then inl (Z.to_nat (pm_word pm)) else inr (pm_word pm)) with (ref_of pm).
    unfold collect_visit. wp_step. wp_step. eapply read_meta_run; [rewrite Hrd; exact Hm|eapply (located_rd Hl); by exists n, bs|]. wp_step. wp_step.
    split; [|done]. unfold recs_of. rewrite Hm. cbn [default]. rewrite Esz, Emm. assert (sm_caller m = am_caller am) as -> by (by injection Es). done.
Qed.

Lemma collect_fold c st ch own z : forall st' r, linked st' ch own -> stocked c st' -> (forall p, rd st' p = rd st p) -> Forall (item_ok st ch) z ->
  exists st'', through (for_each_visit collect_visit) (Ok r, st') (map binding_of z) = ((Ok (foldl (collect_item (recs_of st)) r z), st''), map binding_of z).
Proof.
  induction z as [|x z IH]; intros st' r Hl Hs Hrd Hz; [by exists st'|]. apply Forall_cons in Hz as [Hx Hz]. cbn [map through foldl binding_of].
  assert (item_ok st' ch x) as Hx'. { unfold item_ok in *. eapply described_mono; [exact Hx|]. intros Hh. destruct (described_stack _ _ _ _ _ _ Hx Hh) as (Hrf & y & Hy & Es & _). split; [done|]. exists y. by rewrite Hrd. }
  destruct (wp_run _ _ _ (collect_step c st' ch own r x Hl Hs Hx')) as (r1 & st1 & E & -> & Hl1 & Hs1 & Hrd1). 
  assert (for_each_visit collect_visit (Ok r, st') (it_key x) (it_meta x) = ((Ok (collect_item (recs_of st) r x), st1), it_meta x)) as EV.
  { unfold for_each_visit. rewrite E. assert (collect_item (recs_of st') r x = collect_item (recs_of st) r x) as -> by (unfold collect_item, recs_of; by rewrite Hrd). done. }
  destruct (IH st1 (collect_item (recs_of st) r x) Hl1 Hs1) as [st2 E2]; [intros p; by rewrite Hrd1|done|]. exists st2. rewrite EV. cbn [fst snd]. by rewrite E2.
Qed.

Lemma Forall_kept {T} (Q P : T -> Prop) `{!forall x, Decision (P x)} l : Forall Q l -> Forall Q (filter P l).
Proof. rewrite !Forall_forall. intros HQ x [_ Hx]%list_elem_of_filter. by apply HQ. Qed.

(** ** Sums *)

Lemma bytes_app l1 l2 : bytes (l1 ++ l2) = bytes l1 + bytes l2.
Proof. induction l1 as [|e l1 IH]; simpl; [done|]. rewrite IH. lia. Qed.

Definition counted_sizes (l : list entry) : Prop := Forall (fun e => 0 <= am_size e.2.1) l.

Lemma bytes_nonneg l : counted_sizes l -> 0 <= bytes l.
Proof. induction 1; simpl; lia. Qed.

Lemma bytes_filter (P : entry -> Prop) `{!forall e, Decision (P e)} l : counted_sizes l -> bytes (filter P l) <= bytes l.
Proof. induction 1 as [|e l He Hl IH]; [done|]. rewrite filter_cons. destruct (decide (P e)); simpl; lia. Qed.

Lemma bytes_perm l1 l2 : l1 ≡ₚ l2 -> bytes l1 = bytes l2.
Proof. induction 1; simpl; lia. Qed.

Lemma counted_map z : counted_sizes (map entry_of z) <-> Forall (fun x => 0 <= am_size (it_am x)) z.
Proof. unfold counted_sizes. induction z as [|x z IH]; simpl; [done|]. by rewrite !Forall_cons, IH. Qed.

Lemma counted_kept z (P : item -> Prop) `{!forall x, Decision (P x)} : counted_sizes (map entry_of z) ->
  counted_sizes (map entry_of (filter P z)) /\ bytes (map entry_of (filter P z)) <= bytes (map entry_of z).
Proof.
  rewrite !counted_map. intros Hz. split; [by apply Forall_kept|]. induction Hz as [|x z Hx Hz IH]; [done|]. rewrite filter_cons. destruct (decide (P x)); simpl; lia.
Qed.

(** ** The collection of a list of pointers *)

Definition by_place (mm : bool) (p : place) (z : list item) : list item :=
  filter (fun x => it_mmap x = mm /\ pm_stack_hash (it_meta x) <> 0 /\ ref_of (it_meta x) = p) z.

Definition sum_caller (g : list entry) : caller_meta := MkCaller (bytes g) (list_to_set g.*1).
Definition sum_place (recs : place -> stack_meta) (p : place) (g : list item) : stack_meta := MkStack (bytes (map entry_of g)) (sm_caller (recs p)) (sm_backtrace (recs p)) 0.

Record gathered (recs : place -> stack_meta) (r : collected) (z : list item) : Prop := MkGathered {
  gt_count : ptr_meta_size r = Z.of_nat (length z);
  gt_callers mm caller : callers_in mm r !! caller =
    if bool_decide (caller = 0 \/ of_caller mm caller (map entry_of z) = []) then None else Some (sum_caller (of_caller mm caller (map entry_of z)));
  gt_stacks mm p : stacks_in mm r !! p = if bool_decide (by_place mm p z = []) then None else Some (sum_place recs p (by_place mm p z))
}.

Section Snoc.
Context (recs : place -> stack_meta) (r : collected) (z : list item) (x : item) (Hg : gathered recs r z).
Context (Hsz : counted_sizes (map entry_of (z ++ [x]))) (Hmax : bytes (map entry_of (z ++ [x])) < 2 ^ word_bits) (Hlen : Z.of_nat (length z) + 1 < 2 ^ word_bits).

Lemma uword_bytes g : (exists P (_ : forall e, Decision (P e)), g = filter P (map entry_of (z ++ [x]))) -> uword (bytes g) = bytes g.
Proof.
  intros (P & HP & ->). apply uword_small. pose proof (bytes_filter P _ Hsz). pose proof (bytes_nonneg (filter P (map entry_of (z ++ [x])))) as Hn.
  assert (counted_sizes (filter P (map entry_of (z ++ [x])))) as Hf by (by apply Forall_kept). specialize (Hn Hf). lia.
Qed.

Lemma callers_item mm : callers_in mm (collect_item recs r x) =
  if bool_decide (it_mmap x = mm) && negb (am_caller (it_am x) =? 0) then add_caller (am_caller (it_am x)) (it_key x) (am_size (it_am x)) (callers_in mm r) else callers_in mm r.
Proof. unfold collect_item, callers_in. destruct mm, (it_mmap x), (am_caller (it_am x) =? 0); done. Qed.

Lemma stacks_item mm : stacks_in mm (collect_item recs r x) =
  if bool_decide (it_mmap x = mm) && negb (pm_stack_hash (it_meta x) =? 0) then add_stack (ref_of (it_meta x)) (am_size (it_am x)) (recs (ref_of (it_meta x))) (stacks_in mm r) else stacks_in mm r.
Proof. unfold collect_item, stacks_in. destruct mm, (it_mmap x), (pm_stack_hash (it_meta x) =? 0); done. Qed.

Lemma of_caller_snoc mm caller : of_caller mm caller (map entry_of (z ++ [x])) =
  of_caller mm caller (map entry_of z) ++ (if decide (it_mmap x = mm /\ am_caller (it_am x) = caller) then [entry_of x] else []).
Proof. unfold of_caller. rewrite map_app, filter_app. by f_equal. Qed.

Lemma by_place_snoc mm p : by_place mm p (z ++ [x]) =
  by_place mm p z ++ (if decide (it_mmap x = mm /\ pm_stack_hash (it_meta x) <> 0 /\ ref_of (it_meta x) = p) then [x] else []).
Proof. unfold by_place. rewrite filter_app. by f_equal. Qed.

Lemma caller_default mm caller : caller <> 0 -> default (MkCaller 0 ∅) (callers_in mm r !! caller) = sum_caller (of_caller mm caller (map entry_of z)).
Proof.
  intros Hc. rewrite (gt_callers _ _ _ Hg). destruct (bool_decide _) eqn:Eb; [|done]. apply bool_decide_eq_true in Eb as [?| ->]; done.
Qed.

Lemma place_default mm p : sm_size (default zero_stack (stacks_in mm r !! p)) = bytes (map entry_of (by_place mm p z)) /\ sm_ext (default zero_stack (stacks_in mm r !! p)) = 0.
Proof. rewrite (gt_stacks _ _ _ Hg). destruct (bool_decide _) eqn:Eb; [|done]. apply bool_decide_eq_true in Eb. by rewrite Eb. Qed.

Lemma gathered_caller mm caller : callers_in mm (collect_item recs r x) !! caller =
  if bool_decide (caller = 0 \/ of_caller mm caller (map entry_of (z ++ [x])) = []) then None else Some (sum_caller (of_caller mm caller (map entry_of (z ++ [x])))).
Proof.
  rewrite callers_item. destruct (decide (it_mmap x = mm /\ am_caller (it_am x) = caller)) as [[Em Ec]|Hne].
  - rewrite bool_decide_true by done. destruct (Z.eqb_spec (am_caller (it_am x)) 0) as [E0|H0]; simpl.
    + rewrite (gt_callers _ _ _ Hg), !bool_decide_true by (left; congruence). done.
    + rewrite Ec in *. unfold add_caller. rewrite lookup_insert_eq, caller_default by done. rewrite bool_decide_false.
      2: { rewrite of_caller_snoc, decide_True by done. intros [?|E]; [done|]. by apply app_nil in E as [_ ?]. }
      f_equal. unfold sum_caller. cbn [total_size pointers]. rewrite <- (uword_bytes (of_caller mm caller (map entry_of (z ++ [x])))) by (eexists _, _; reflexivity).
      rewrite of_caller_snoc, decide_True by done. rewrite bytes_app, fmap_app, list_to_set_app_L. simpl. f_equal; [f_equal; lia|]. set_solver.
  - rewrite of_caller_snoc, decide_False, app_nil_r by done. destruct (bool_decide (it_mmap x = mm) && negb (am_caller (it_am x) =? 0)) eqn:Eb; [|apply Hg].
    apply andb_true_iff in Eb as [Em%bool_decide_eq_true _]. unfold add_caller. rewrite lookup_insert_ne by naive_solver. apply Hg.
Qed.

Lemma gathered_place mm p : stacks_in mm (collect_item recs r x) !! p = if bool_decide (by_place mm p (z ++ [x]) = []) then None else Some (sum_place recs p (by_place mm p (z ++ [x]))).
Proof.
  rewrite stacks_item. destruct (decide (it_mmap x = mm /\ pm_stack_hash (it_meta x) <> 0 /\ ref_of (it_meta x) = p)) as [(Em & Eh & Ep)|Hne].
  - rewrite bool_decide_true by done. destruct (Z.eqb_spec (pm_stack_hash (it_meta x)) 0); [done|]. simpl. unfold add_stack. rewrite Ep, lookup_insert_eq. destruct (place_default mm p) as [-> ->].
    rewrite by_place_snoc, decide_True by done. rewrite bool_decide_false by (intros E; by apply app_nil in E as [_ ?]). f_equal. unfold sum_place. f_equal. rewrite map_app, bytes_app.
    replace (bytes (map entry_of [x])) with (am_size (it_am x)) by (simpl; lia). apply uword_small. rewrite map_app, bytes_app in Hmax. unfold counted_sizes in Hsz. rewrite map_app in Hsz. apply Forall_app in Hsz as [Hz Hx]. simpl in Hmax. apply Forall_cons in Hx as [Hx _]. simpl in Hx.
    destruct (counted_kept z (fun x => it_mmap x = mm /\ pm_stack_hash (it_meta x) <> 0 /\ ref_of (it_meta x) = p) Hz) as [Hn Hle].
    fold (by_place mm p z) in Hn, Hle. pose proof (bytes_nonneg _ Hn). lia.
  - rewrite by_place_snoc, decide_False, app_nil_r by done. destruct (bool_decide (it_mmap x = mm) && negb (pm_stack_hash (it_meta x) =? 0)) eqn:Eb; [|apply Hg].
    apply andb_true_iff in Eb as [Em%bool_decide_eq_true Eh%negb_true_iff%Z.eqb_neq]. unfold add_stack. rewrite lookup_insert_ne by naive_solver. apply Hg.
Qed.

Lemma gathered_snoc : gathered recs (collect_item recs r x) (z ++ [x]).
Proof.
  constructor; [|apply gathered_caller|apply gathered_place].
  assert (ptr_meta_size (collect_item recs r x) = uword (ptr_meta_size r + 1)) as -> by (unfold collect_item; by destruct (it_mmap x)).
  rewrite (gt_count _ _ _ Hg), uword_small by lia. rewrite length_app. simpl. lia.
Qed.
End Snoc.

Lemma gathered_all recs z : counted_sizes (map entry_of z) -> bytes (map entry_of z) < 2 ^ word_bits -> Z.of_nat (length z) < 2 ^ word_bits ->
  gathered recs (foldl (collect_item recs) (MkCollected ∅ ∅ ∅ ∅ 0) z) z.
Proof.
  induction z as [|x z IH] using rev_ind; intros Hs Hb Hl.
  - constructor; [done| |by intros []]. intros mm caller. rewrite bool_decide_true by (by right). by destruct mm.
  - rewrite foldl_app. cbn [foldl]. rewrite length_app in Hl. simpl in Hl. assert (counted_sizes (map entry_of z) /\ bytes (map entry_of z) <= bytes (map entry_of (z ++ [x]))) as [Hs' Hb'].
    { rewrite map_app in *. apply Forall_app in Hs as [Hz Hx]. split; [done|]. rewrite bytes_app. pose proof (bytes_nonneg _ Hx). lia. }
    apply gathered_snoc; [apply IH; [done|lia|lia]|done|done|lia].
Qed.

(** ** Stacks and records *)

Lemma hash_loop_pcs a : forall b i sum, map pc a = map pc b -> hash_loop i a sum = hash_loop i b sum.
Proof. induction a as [|f a IH]; intros [|g b] i sum E; simpl in *; try done. injection E as Ef E. rewrite Ef. by apply IH. Qed.

Lemma hash_frames_pcs a b : map pc a = map pc b -> hash_frames a = hash_frames b.
Proof.
  intros E. assert (length a = length b) as El by (apply (f_equal length) in E; by rewrite !length_map in E). unfold hash_frames. destruct a as [|f a], b as [|g b]; try done.
  rewrite El. apply hash_loop_pcs. rewrite <- !firstn_map. by rewrite E.
Qed.

Lemma stack_hash_am_stack am am' : stack_hash_of am <> 0 -> stack_hash_of am' <> 0 -> am_stack am = am_stack am' -> stack_hash_of am = stack_hash_of am'.
Proof.
  intros H1 H2 [= _ E]. pose proof (stack_hash_stack _ H1) as [S1 B1]. pose proof (stack_hash_stack _ H2) as [S2 B2]. unfold stack_hash_of.
  destruct (Z.eqb_spec (am_size am) 0), (Z.eqb_spec (am_size am') 0); try done. destruct (am_backtrace am) eqn:Ea, (am_backtrace am') eqn:Eb; try done. cbn [length Nat.eqb negb andb]. by apply hash_frames_pcs.
Qed.

Section Stacks.
Context {st : stack_store} {ch : gmap Z (nat * list Z)} {pmap : gmap Z ptr_meta} {live : lives} {W : Z} (Ha : accounts (fun p => content <$> rd st p) ch pmap live W).

(** Two pointers share a record exactly if they share their stack. *)
Lemma share_record x y : item_ok st ch x -> item_ok st ch y -> pm_stack_hash (it_meta x) <> 0 -> pm_stack_hash (it_meta y) <> 0 ->
  ref_of (it_meta x) = ref_of (it_meta y) <-> am_stack (it_am x) = am_stack (it_am y).
Proof.
  intros Hx Hy Nx Ny. destruct (described_stack _ _ _ _ _ _ Hx Nx) as (Rx & cx & Cx & Sx & Bx), (described_stack _ _ _ _ _ _ Hy Ny) as (Ry & cy & Cy & Sy & By).
  destruct Hx as (_ & _ & _ & _ & _ & Ex & _), Hy as (_ & _ & _ & _ & _ & Ey & _). split; intros E; [rewrite E in Cx; congruence|].
  rewrite Ex in Nx. rewrite Ey in Ny. pose proof (stack_hash_am_stack _ _ Nx Ny E) as Eh. eapply (ac_distinct _ _ _ _ _ Ha _ _ _ cx cy); [apply Rx| |exact Cx|exact Cy|congruence|done].
  rewrite Ex, Eh, <- Ey. apply Ry.
Qed.

Lemma record_stack x : item_ok st ch x -> pm_stack_hash (it_meta x) <> 0 -> (sm_caller (recs_of st (ref_of (it_meta x))), map pc (sm_backtrace (recs_of st (ref_of (it_meta x))))) = am_stack (it_am x).
Proof.
  intros Hx Nx. destruct (described_stack _ _ _ _ _ _ Hx Nx) as (_ & c & Hc & Es & _). apply fmap_Some in Hc as (m & Hm & ->). unfold recs_of. rewrite Hm. exact Es.
Qed.

(** The pointers of a record are those of a stack. *)
Lemma by_place_stack mm x z : item_ok st ch x -> pm_stack_hash (it_meta x) <> 0 -> Forall (item_ok st ch) z ->
  map entry_of (by_place mm (ref_of (it_meta x)) z) = of_stack mm (am_stack (it_am x)) (map entry_of z).
Proof.
  intros Hx Nx. induction 1 as [|y z Hy Hz IH]; [done|]. unfold by_place, of_stack in *. cbn [map]. rewrite !filter_cons.
  assert (pm_stack_hash (it_meta y) = stack_hash_of (it_am y)) as Ey by apply Hy.
  destruct (decide (it_mmap y = mm /\ _ /\ _)) as [(E1 & E2 & E3)|Hne].
  - rewrite decide_True by (simpl; rewrite <- Ey; split_and!; [done|done|]; by apply (share_record y x)). cbn [map]. by rewrite IH.
  - rewrite decide_False; [done|]. simpl. rewrite <- Ey. intros (E1 & E2 & E3). apply Hne. split_and!; [done|done|]. by apply (share_record y x).
Qed.

Lemma gathered_reported r z : gathered (recs_of st) r z -> Forall (item_ok st ch) z -> reported r (map entry_of z).
Proof.
  intros Hg Hz. rewrite Forall_forall in Hz. assert (forall mm p m, stacks_in mm r !! p = Some m -> exists x, x ∈ z /\ it_mmap x = mm /\ pm_stack_hash (it_meta x) <> 0 /\ p = ref_of (it_meta x)
    /\ content_stack (content m) = am_stack (it_am x) /\ sm_size m = bytes (of_stack mm (am_stack (it_am x)) (map entry_of z))) as Hentry.
  { intros mm p m Hm. rewrite (gt_stacks _ _ _ Hg) in Hm. destruct (bool_decide _) eqn:Eb; [done|]. apply bool_decide_eq_false in Eb. injection Hm as <-.
    destruct (by_place mm p z) as [|x g] eqn:Eg; [done|]. assert (x ∈ by_place mm p z) as Hin by (rewrite Eg; set_solver). apply list_elem_of_filter in Hin as ((E1 & E2 & E3) & Hin).
    exists x. split_and!; try done. 1: unfold sum_place, content_stack, content; simpl; rewrite <- E3; by apply record_stack, E2; apply Hz.
    unfold sum_place. cbn [sm_size]. rewrite <- Eg, <- E3. f_equal. apply by_place_stack; [by apply Hz|done|by apply Forall_forall]. }
  assert (forall mm x, x ∈ z -> it_mmap x = mm -> pm_stack_hash (it_meta x) <> 0 -> entry_of x ∈ of_stack mm (am_stack (it_am x)) (map entry_of z)) as Hof.
  { intros mm x Hx Em Hh. apply list_elem_of_filter. split; [|by apply list_elem_of_fmap_2]. simpl. split_and!; [done| |done]. pose proof (Hz _ Hx) as (_ & _ & _ & _ & _ & Eh & _). congruence. }
  constructor; [rewrite length_map; apply Hg|apply (gt_callers _ _ _ Hg)| | |].
  - intros mm p m Hm. destruct (Hentry _ _ _ Hm) as (x & Hx & Em & Hh & -> & Es & Esz). rewrite Es. split; [|done]. intros E. specialize (Hof _ _ Hx Em Hh). rewrite E in Hof. by apply not_elem_of_nil in Hof.
  - intros mm stack Hne. destruct (of_stack mm stack (map entry_of z)) as [|e g] eqn:Eg; [done|]. assert (e ∈ of_stack mm stack (map entry_of z)) as He by (rewrite Eg; set_solver).
    apply list_elem_of_filter in He as ((E1 & E2 & E3) & (x & -> & Hx)%list_elem_of_fmap). simpl in *. assert (pm_stack_hash (it_meta x) <> 0) as Hh. { pose proof (Hz _ Hx) as (_ & _ & _ & _ & _ & Eh & _). congruence. }
    exists (ref_of (it_meta x)), (sum_place (recs_of st) (ref_of (it_meta x)) (by_place mm (ref_of (it_meta x)) z)). rewrite (gt_stacks _ _ _ Hg). rewrite bool_decide_false.
    + split; [done|]. unfold sum_place, content_stack, content. simpl. rewrite <- E3. by apply record_stack, Hh; apply Hz.
    + assert (x ∈ by_place mm (ref_of (it_meta x)) z) as Hin by (by apply list_elem_of_filter). intros E. rewrite E in Hin. by apply not_elem_of_nil in Hin.
  - intros mm p p' m m' Hm Hm' E. destruct (Hentry _ _ _ Hm) as (x & Hx & _ & Nx & -> & Sx & _), (Hentry _ _ _ Hm') as (y & Hy & _ & Ny & -> & Sy & _).
    apply share_record; [by apply Hz|by apply Hz|done|done|congruence].
Qed.
End Stacks.

(** ** The order of the entries does not matter *)

Lemma filter_perm {T} (P : T -> Prop) `{!forall x, Decision (P x)} l l' : l ≡ₚ l' -> filter P l ≡ₚ filter P l'.
Proof. intros E. by rewrite E. Qed.

Lemma perm_nil {T} (l l' : list T) : l ≡ₚ l' -> l = [] <-> l' = [].
Proof. intros E. split; intros ->; [by apply Permutation_nil_l in E|by apply Permutation_nil_r in E]. Qed.

Lemma reported_perm r l l' : l ≡ₚ l' -> reported r l -> reported r l'.
Proof.
  intros E [H1 H2 H3 H4 H5]. constructor; [by rewrite <- E| | | |done].
  - intros mm caller. rewrite H2. pose proof (filter_perm (fun e => e.2.2 = mm /\ am_caller e.2.1 = caller) _ _ E) as Ef. fold (of_caller mm caller l) (of_caller mm caller l') in Ef.
    rewrite (bool_decide_ext _ (caller = 0 \/ of_caller mm caller l' = [])) by (by rewrite (perm_nil _ _ Ef)). destruct (bool_decide _); [done|]. f_equal. f_equal; [by apply bytes_perm|].
    apply list_to_set_perm_L. by apply fmap_Permutation.
  - intros mm p m Hm. destruct (H3 _ _ _ Hm) as [G1 G2]. set (k := content_stack (content m)) in *.
    pose proof (filter_perm (fun e => e.2.2 = mm /\ stack_hash_of e.2.1 <> 0 /\ am_stack e.2.1 = k) _ _ E) as Ef. fold (of_stack mm k l) (of_stack mm k l') in Ef.
    split; [by rewrite <- (perm_nil _ _ Ef)|]. rewrite G2. by apply bytes_perm.
  - intros mm k Hk. apply H4. pose proof (filter_perm (fun e => e.2.2 = mm /\ stack_hash_of e.2.1 <> 0 /\ am_stack e.2.1 = k) _ _ E) as Ef. fold (of_stack mm k l) (of_stack mm k l') in Ef. by rewrite (perm_nil _ _ Ef).
Qed.

(** ** The container *)

Lemma listing_items st ch pmap live W l : accounts (fun p => content <$> rd st p) ch pmap live W -> (forall k pm, (k, pm) ∈ l -> pmap !! k = Some pm) ->
  exists z, map binding_of z = l /\ Forall (item_ok st ch) z /\ Forall (fun x => live !! it_key x = Some (it_am x, it_mmap x)) z.
Proof.
  intros Ha. induction l as [|[k pm] l IH]; intros Hl; [by exists []|]. destruct IH as (z & <- & H1 & H2); [intros k' pm' Hin; apply Hl; set_solver|].
  destruct (ac_described _ _ _ _ _ Ha k pm) as (am & mm & El & Hd); [apply Hl; set_solver|]. exists (MkItem k pm am mm :: z). split_and!; [done|by constructor|by constructor].
Qed.

Lemma collect_run c s live N W : tracks c s live N W -> counted_sizes (map_to_list live) -> bytes (map_to_list live) < 2 ^ word_bits -> Z.of_nat (base.size live) < 2 ^ word_bits ->
  exists r s', collect_metas s = (Ok r, s') /\ reported r (map_to_list live).
Proof.
  intros (im & pmap & ch & own & (Hh & Hv & _) & Hl & Hst & Ha & _) Hsz Hb Hn. assert (represents (ptr_map s) pmap) as Hr by (by exists im).
  destruct (wp_run _ _ _ (represents_enumerate (for_each_visit collect_visit) (Ok (MkCollected ∅ ∅ ∅ ∅ 0), stacks s) _ _ Hr)) as (a & m' & E & _ & l & (Hs & Hm) & -> & _).
  pose proof (sorted_nodup _ Hs) as Hk. destruct (listing_items (stacks s) ch pmap live W l Ha) as (z & <- & Hz & Hlive); [intros k pm; by rewrite <- Hm, <- elem_of_list_to_map|].
  destruct (collect_fold c (stacks s) ch own z (stacks s) (MkCollected ∅ ∅ ∅ ∅ 0) Hl Hst (fun p => eq_refl) Hz) as [st' Ez]. rewrite Ez in E. cbn [fst] in E.
  unfold collect_metas, for_each. rewrite E. eexists _, _. split; [reflexivity|].
  assert (map entry_of z ≡ₚ map_to_list live) as Hperm.
  { apply NoDup_Permutation; [|apply NoDup_map_to_list|].
    - apply (NoDup_fmap_1 fst). assert ((map entry_of z).*1 = (map binding_of z).*1) as ->; [|done]. clear. induction z as [|x z IH]; [done|]. cbn. by f_equal.
    - intros [k [am mm]]. rewrite elem_of_map_to_list, list_elem_of_fmap. rewrite Forall_forall in Hlive. split; [intros (x & [= -> -> ->] & Hx); by apply Hlive|]. intros El.
      destruct (ac_live _ _ _ _ _ Ha k ltac:(by eexists)) as [pm Epm]. rewrite <- Hm in Epm. apply elem_of_list_to_map in Epm; [|done]. apply list_elem_of_fmap in Epm as (x & [= -> ->] & Hx).
      exists x. split; [|done]. specialize (Hlive _ Hx). unfold entry_of. congruence. }
  eapply reported_perm; [exact Hperm|]. eapply gathered_reported; [exact Ha| |done]. apply gathered_all.
  - unfold counted_sizes in *. by rewrite Hperm.
  - by rewrite (bytes_perm _ _ Hperm).
  - replace (length z) with (length (map entry_of z)) by apply length_map. by rewrite Hperm, length_map_to_list.
Qed.

(** ** Bounds *)

Lemma live_bounds e live : sane e -> counted_sizes (map_to_list live) ->
  counted_sizes (map_to_list (live_after e live)) /\ bytes (map_to_list (live_after e live)) <= volume [e] + bytes (map_to_list live) /\ (base.size (live_after e live) <= S (base.size live))%nat.
Proof.
  intros He Hc. assert (forall k, counted_sizes (map_to_list (delete k live)) /\ bytes (map_to_list (delete k live)) <= bytes (map_to_list live)) as Hd.
  { intros k. destruct (live !! k) as [v|] eqn:E; [|by rewrite delete_id]. pose proof (map_to_list_delete _ _ _ E) as Hp. unfold counted_sizes in *. rewrite <- Hp in Hc. apply Forall_cons in Hc as [Hv Hc].
    split; [done|]. rewrite <- (bytes_perm _ _ Hp). simpl in *. lia. }
  destruct e as [mm am|k]; simpl in *.
  - destruct (Hd (am_ptr am)) as [D1 D2]. pose proof (map_to_list_insert (delete (am_ptr am) live) (am_ptr am) (am, mm) (lookup_delete_eq _ _)) as Hp. rewrite insert_delete_eq in Hp.
    split; [unfold counted_sizes; rewrite Hp; by constructor|]. rewrite (bytes_perm _ _ Hp). split; [simpl; lia|]. apply size_insert_le.
  - destruct (Hd k) as [D1 D2]. split_and!; [done|lia|]. pose proof (map_subseteq_size _ _ (delete_subseteq live k)). lia.
Qed.

Lemma lives_bounds es : forall live, Forall sane es -> counted_sizes (map_to_list live) -> let live' := foldl (fun l e => live_after e l) live es in
  counted_sizes (map_to_list live') /\ bytes (map_to_list live') <= volume es + bytes (map_to_list live) /\ (base.size live' <= length es + base.size live)%nat.
Proof.
  induction es as [|e es IH]; intros live Hs Hc; simpl; [done|]. apply Forall_cons in Hs as [He Hs]. destruct (live_bounds e live He Hc) as (B1 & B2 & B3). destruct (IH _ Hs B1) as (C1 & C2 & C3).
  simpl in B2. split_and!; [done| |lia]. fold (volume es). destruct e; simpl in *; lia.
Qed.

Lemma metas_fit n : 0 <= n <= 2 ^ 24 -> fits (V := ptr_meta) (n + 1 + PTR_SPLAY_MAP_CAPACITY) /\ fits (V := stack_meta) (n + 1 + STACK_SPLAY_MAP_CAPACITY).
Proof.
  intros Hn. unfold fits, PTR_SPLAY_MAP_CAPACITY, STACK_SPLAY_MAP_CAPACITY. cbn [sizeof_node sizeof_val ptr_layout stack_layout]. unfold sizeof_tree_info, sizeof_frame, MAX_FRAMES.
  destruct word_bytes_cases as [[_ ->]|[_ ->]]; destruct (elf_machine =? 183); split_and!; lia.
Qed.

(** C7. The memory hook reports exactly what is live.  Whatever sequence of at most [2^24]
    messages the background thread of the memory hook processes, allocations and releases of
    pointers known or unknown, with call stacks whose hashes may collide, where memory lasts and
    fewer than [2^word_bits] bytes are allocated in total: no assertion fails, no pointer to a
    freed record is followed, and a collection then finds, for mapped and for other memory, under
    each caller the live pointers it allocated and the sum of their sizes, and for each call stack
    of live pointers one record with its frames and the sum of the sizes. *)
Theorem memory_hook_reports (es : list event) :
  Forall sane es -> Z.of_nat (length es) <= 2 ^ 24 -> volume es < 2 ^ word_bits ->
  exists s r s', process_all es (new_container [] [] []) = (Ok tt, s) /\ collect_metas s = (Ok r, s') /\ reported r (map_to_list (lives_after es)).
Proof.
  intros Hs Hn Hv. destruct (metas_fit (Z.of_nat (length es))) as [F1 F2]; [lia|].
  destruct (wp_run _ _ _ (process_all_run (Z.of_nat (length es)) F1 F2 es _ ∅ 0 0 (new_tracks _ F1 F2 ltac:(lia)) Hs ltac:(lia) ltac:(lia))) as ([] & s & E & N & W & Ht).
  destruct (lives_bounds es ∅ Hs) as (B1 & B2 & B3); [constructor|]. rewrite map_to_list_empty, map_size_empty in *. simpl in B2, B3.
  assert (2 ^ 32 <= 2 ^ word_bits) by (apply Z.pow_le_mono_r; [lia|apply word_bits_ge]).
  destruct (collect_run _ _ _ _ _ Ht B1) as (r & s' & Er & Hr); [lia|lia|]. by exists s, r, s'.
Qed.
End Report.

#[local] Existing Instance arch_aarch64.

(** A report with two colliding stacks, an unknown pointer and a pointer that is used again. *)
Lemma memory_hook_reports_witness :
  let es := [Allocated false (MkAlloc 100 7 10 [MkFrame 0 4; MkFrame 0 0]); Allocated true (MkAlloc 200 7 20 [MkFrame 0 0; MkFrame 0 1]); Released 300;
             Released 100; Allocated false (MkAlloc 100 8 30 [MkFrame 0 4; MkFrame 0 0])] in
  hash_frames [MkFrame 0 4; MkFrame 0 0] = hash_frames [MkFrame 0 0; MkFrame 0 1] /\
  exists s r s', process_all es (new_container [] [] []) = (Ok tt, s) /\ collect_metas s = (Ok r, s') /\ reported r (map_to_list (lives_after es)).
Proof.
  intros es. split; [vm_compute; reflexivity|]. apply (memory_hook_reports es); [repeat constructor; simpl; lia|simpl; lia|vm_compute; reflexivity].
Defined.
End MemoryReport.
