(* ===== verification/MemoryQueue.v ===== *)
(** The message queues of the memory hook (traceharbor-hooks, memory/MemoryBufferQueue.h and
    MemoryBufferQueue.cpp, with the entry points of memory/MemoryHook.cpp).

    A hooked call puts a message into one of 256 queues, chosen by a hash of the pointer; a
    background thread takes the queues one after the other, leaves an empty one in exchange, and
    feeds the messages to the container of MemoryMetas.v.  A release whose pointer was allocated by
    the last message of its queue just removes that message.  [Module MemoryQueue] translates the
    queues, the entry points and the thread; queues are objects with names, so that the exchange is
    one of pointers.

    A call of an entry point is one step, and so is a turn of a loop of the thread: each takes and
    drops the lock of at most one queue, and what it does without a lock concerns nobody else.  The
    counters are read and written without locks; apart from statistics they decide only whether a
    queue may still grow.  How long the thread sleeps is left out. *)
From S2P Require Import Prelude Arch Machine MemoryMetas.

Module MemoryQueue.
Import MemoryMetas.

Section Queue.
Context `{A : Arch}.

(** * Messages *)

Inductive message_type :=
| message_type_nil
| message_type_allocation
| message_type_reallocation
| message_type_deletion
| message_type_mmap
| message_type_munmap.

#[export] Instance message_type_eq_dec : EqDecision message_type.
Proof. solve_decision. Defined.

(** [payload] is the union of [index] and [ptr]. *)
Record message := MkMessage { type : message_type; payload : Z }.

(** On aarch64 both members of the union are bit fields. *)
Definition payload_bits : Z := if elf_machine =? 183 then 56 else word_bits.

Definition store_payload (z : Z) : Z := wrap payload_bits z.

(** The union is aligned to a word except where the structure is packed. *)
Definition sizeof_message : Z := if elf_machine =? 183 then 16 else word_bytes + 1.

Definition sizeof_allocation_message : Z := (3 * word_bytes + Z.of_nat MAX_FRAMES * sizeof_frame + 1 + (word_bytes - 1)) / word_bytes * word_bytes.

Definition MAX_PTR_SLOT : Z := Z.shiftl 1 8.
Definition PTR_MASK : Z := MAX_PTR_SLOT - 1.

Definition memory_ptr_hash (key : Z) : nat := Z.to_nat (Z.land (Z.lxor key (Z.shiftr key 16)) PTR_MASK).

(** * Allocators *)

Record message_queue_counter := MkCounter {
  realloc_memory_counter_ : Z;
  realloc_counter_ : Z;
  realloc_failure_counter_ : Z;
  realloc_reach_limit_counter_ : Z
}.

Definition add_memory (n : Z) (c : message_queue_counter) : message_queue_counter :=
  MkCounter (uword (realloc_memory_counter_ c + n)) (realloc_counter_ c) (realloc_failure_counter_ c) (realloc_reach_limit_counter_ c).
Definition add_realloc (c : message_queue_counter) : message_queue_counter :=
  MkCounter (realloc_memory_counter_ c) (uword (realloc_counter_ c + 1)) (realloc_failure_counter_ c) (realloc_reach_limit_counter_ c).
Definition add_failure (c : message_queue_counter) : message_queue_counter :=
  MkCounter (realloc_memory_counter_ c) (realloc_counter_ c) (uword (realloc_failure_counter_ c + 1)) (realloc_reach_limit_counter_ c).
Definition add_reach_limit (c : message_queue_counter) : message_queue_counter :=
  MkCounter (realloc_memory_counter_ c) (realloc_counter_ c) (realloc_failure_counter_ c) (uword (realloc_reach_limit_counter_ c + 1)).

Definition SIZE_AUGMENT : Z := 192.
Definition MEMORY_OVER_LIMIT : Z := 1024 * 1024 * 150.
Definition limit_size : Z := MEMORY_OVER_LIMIT / (sizeof_message * 2 + sizeof_allocation_message).

(** What the constructor of BufferQueue passes to the two allocators. *)
Class Pool (T : Type) := { sizeof : Z; size_augment_ : Z; memory_limit_ : Z }.

#[export] Instance message_pool : Pool message :=
  {| sizeof := sizeof_message; size_augment_ := SIZE_AUGMENT * 2; memory_limit_ := uword (uword (limit_size * 2) * sizeof_message) |}.
#[export] Instance allocation_pool : Pool allocation_message :=
  {| sizeof := sizeof_allocation_message; size_augment_ := SIZE_AUGMENT; memory_limit_ := uword (limit_size * sizeof_allocation_message) |}.

Arguments sizeof T {_}.
Arguments size_augment_ T {_}.
Arguments memory_limit_ T {_}.

Section Allocator.
Context {T : Type} {P : Pool T}.

(** [queue_] lists the elements of the buffer, [None] where nothing was written yet. *)
Record MessageAllocator := MkAllocator { size_ : Z; idx_ : Z; queue_ : list (option T) }.

(** The allocator, with the counters it shares and the answers that [realloc] is going to give:
    where the list ends, all requests are granted. *)
Record pool := MkPool { allocator : MessageAllocator; counter_ : message_queue_counter; grants : list bool }.

Definition put_allocator (a : MessageAllocator) (s : pool) : pool := MkPool a (counter_ s) (grants s).
Definition count (f : message_queue_counter -> message_queue_counter) : M pool unit := modify (fun s => MkPool (allocator s) (f (counter_ s)) (grants s)).

(** [realloc(queue_, sizeof(T) * resize)]. *)
Definition realloc (resize : Z) : M pool bool := fun s =>
  let n := Z.to_nat (uword (sizeof T * resize) / sizeof T) in
  let a := allocator s in
  match grants s with
  | false :: l => (Ok false, MkPool a (counter_ s) l)
  | l => (Ok true, MkPool (MkAllocator (size_ a) (idx_ a) (take n (queue_ a) ++ replicate (n - length (queue_ a)) None)) (counter_ s) (tail l))
  end.

Definition buffer_realloc (init : bool) : M pool bool :=
  memory ← gets (fun s => realloc_memory_counter_ (counter_ s));
  if negb init && (memory_limit_ T <=? memory) then count add_reach_limit;; mret false else
  size ← gets (fun s => size_ (allocator s));
  (if negb init && negb (size =? 0) then count add_realloc else mret tt);;
  let resize := if init then size_augment_ T else uword (size + size_augment_ T) in
  buffer ← realloc resize;
  if (buffer : bool) then
    count (add_memory (- (sizeof T * size)));;
    modify (fun s => put_allocator (MkAllocator resize (idx_ (allocator s)) (queue_ (allocator s))) s);;
    count (add_memory (sizeof T * resize));;
    mret true
  else count add_failure;; mret false.

Definition reset : M pool unit :=
  modify (fun s => put_allocator (MkAllocator (size_ (allocator s)) 0 (queue_ (allocator s))) s);;
  size ← gets (fun s => size_ (allocator s));
  if size_augment_ T <? size then _ ← buffer_realloc true; mret tt else mret tt.

Definition check_realloc : M pool bool :=
  a ← gets allocator;
  if size_ a <=? idx_ a then buffer_realloc false else mret true.

(** [queue_[i]]. *)
Definition read (i : Z) : M pool T :=
  reads (fun s => match queue_ (allocator s) !! Z.to_nat i with Some (Some x) => if 0 <=? i then Ok x else Undef | _ => Undef end).

Definition write (i : Z) (x : T) : M pool unit :=
  n ← gets (fun s => Z.of_nat (length (queue_ (allocator s))));
  if (0 <=? i) && (i <? n) then modify (fun s => put_allocator (MkAllocator (size_ (allocator s)) (idx_ (allocator s)) (<[Z.to_nat i := Some x]> (queue_ (allocator s)))) s)
  else raise Undef.

Definition put_idx (i : Z) : M pool unit := modify (fun s => put_allocator (MkAllocator (size_ (allocator s)) (uword i) (queue_ (allocator s))) s).
Definition get_idx : M pool Z := gets (fun s => idx_ (allocator s)).

Definition new_allocator : MessageAllocator := MkAllocator 0 0 [].
End Allocator.
Arguments MessageAllocator T : clear implicits.
Arguments pool T : clear implicits.

(** * Queues *)

Record BufferQueue := MkQueue { messages_ : MessageAllocator message; allocations_ : MessageAllocator allocation_message }.

(** A queue with the static counters and the answers of [realloc]. *)
Record desk := MkDesk { queue : BufferQueue; message_counter : message_queue_counter; allocation_counter : message_queue_counter; answers : list bool }.

Definition on_messages {B} : M (pool message) B -> M desk B :=
  lift (fun d => MkPool (messages_ (queue d)) (message_counter d) (answers d))
       (fun p d => MkDesk (MkQueue (allocator p) (allocations_ (queue d))) (counter_ p) (allocation_counter d) (grants p)).
Definition on_allocations {B} : M (pool allocation_message) B -> M desk B :=
  lift (fun d => MkPool (allocations_ (queue d)) (allocation_counter d) (answers d))
       (fun p d => MkDesk (MkQueue (messages_ (queue d)) (allocator p)) (message_counter d) (counter_ p) (grants p)).

(** The constructor, on a queue with nothing in it. *)
Definition init_queue : M desk unit := _ ← on_messages (buffer_realloc true); _ ← on_allocations (buffer_realloc true); mret tt.

Definition is_acquisition (t : message_type) : bool :=
  match t with message_type_mmap | message_type_reallocation | message_type_allocation => true | _ => false end.

(** The index of the allocation message that the caller has to fill in. *)
Definition enqueue_allocation_message (t : message_type) : M desk (option Z) :=
  ok ← on_messages check_realloc;
  ok ← (if (ok : bool) then on_allocations check_realloc else mret false);
  if negb ok then mret None else
  critical_check (is_acquisition t);;
  i ← on_messages get_idx;
  on_messages (put_idx (i + 1));;
  index ← on_allocations get_idx;
  on_messages (write i (MkMessage t (store_payload index)));;
  on_allocations (put_idx (index + 1));;
  on_allocations (write index (MkAlloc 0 0 0 []));;
  mret (Some index).

(** Whether the last message is cancelled by the release of [ptr]. *)
Definition cancels (ptr : Z) (is_munmap : bool) : M desk bool :=
  i ← on_messages get_idx;
  if 0 <? i then
    msg ← on_messages (read (i - 1));
    if (negb is_munmap && bool_decide (type msg = message_type_allocation)) || (is_munmap && bool_decide (type msg = message_type_mmap))
    then am ← on_allocations (read (payload msg)); mret (am_ptr am =? ptr)
    else mret false
  else mret false.

Definition enqueue_deletion_message (ptr : Z) (is_munmap : bool) : M desk bool :=
  fast ← cancels ptr is_munmap;
  if (fast : bool) then
    i ← on_messages get_idx;
    msg ← on_messages (read (i - 1));
    on_messages (write (i - 1) (MkMessage message_type_nil (payload msg)));;
    on_messages (put_idx (i - 1));;
    n ← on_allocations get_idx;
    on_allocations (put_idx (n - 1));;
    mret true
  else
    ok ← on_messages check_realloc;
    if negb ok then mret false else
    i ← on_messages get_idx;
    on_messages (put_idx (i + 1));;
    on_messages (write i (MkMessage (if is_munmap then message_type_munmap else message_type_deletion) (store_payload ptr)));;
    mret true.

Definition reset_queue : M desk unit := on_messages reset;; on_allocations reset.

Definition queue_size (q : BufferQueue) : Z := idx_ (messages_ q).
Definition queue_empty (q : BufferQueue) : bool := idx_ (messages_ q) =? 0.

(** The message number [i] of [process], with its allocation. *)
Definition fetch (i : Z) : M desk (message * option allocation_message) :=
  msg ← on_messages (read i);
  if is_acquisition (type msg) then am ← on_allocations (read (payload msg)); mret (msg, Some am) else mret (msg, None).

(** * The hook *)

(** Where the thread is: before its loop over the queues, at a queue, or at message [k] of the
    queue [q] that it took from the container [i]. *)
Inductive location :=
| Outside
| Visit (i : nat)
| Process (i q : nat) (k : Z).

(** The settings of MemoryHook.cpp. *)
Record settings := MkSettings { is_stacktrace_enabled : bool; m_tracing_alloc_size_min : Z; m_tracing_alloc_size_max : Z; m_stacktrace_log_threshold : Z }.

(** [queues] lists the objects that were created; a queue is named by its number.  [worker] is
    [None] until the thread is started. *)
Record hook := MkHook {
  options : settings;
  queues : list BufferQueue;
  containers_ : list (option nat);
  queue_swapped_ : option nat;
  g_message_queue_counter_ : message_queue_counter;
  g_allocation_queue_counter_ : message_queue_counter;
  g_message_overflow_counter : Z;
  reallocs : list bool;
  metas : memory_meta_container;
  worker : option location
}.

Definition put_options (o : settings) (s : hook) : hook :=
  MkHook o (queues s) (containers_ s) (queue_swapped_ s) (g_message_queue_counter_ s) (g_allocation_queue_counter_ s) (g_message_overflow_counter s) (reallocs s) (metas s) (worker s).
Definition put_containers (cs : list (option nat)) (s : hook) : hook :=
  MkHook (options s) (queues s) cs (queue_swapped_ s) (g_message_queue_counter_ s) (g_allocation_queue_counter_ s) (g_message_overflow_counter s) (reallocs s) (metas s) (worker s).
Definition put_swapped (q : option nat) (s : hook) : hook :=
  MkHook (options s) (queues s) (containers_ s) q (g_message_queue_counter_ s) (g_allocation_queue_counter_ s) (g_message_overflow_counter s) (reallocs s) (metas s) (worker s).
Definition put_worker (w : location) (s : hook) : hook :=
  MkHook (options s) (queues s) (containers_ s) (queue_swapped_ s) (g_message_queue_counter_ s) (g_allocation_queue_counter_ s) (g_message_overflow_counter s) (reallocs s) (metas s) (Some w).
Definition put_metas (m : memory_meta_container) (s : hook) : hook :=
  MkHook (options s) (queues s) (containers_ s) (queue_swapped_ s) (g_message_queue_counter_ s) (g_allocation_queue_counter_ s) (g_message_overflow_counter s) (reallocs s) m (worker s).
Definition count_overflow : M hook unit := modify (fun s =>
  MkHook (options s) (queues s) (containers_ s) (queue_swapped_ s) (g_message_queue_counter_ s) (g_allocation_queue_counter_ s) (uword (g_message_overflow_counter s + 1)) (reallocs s) (metas s) (worker s)).
Definition put_desk (q : nat) (d : desk) (s : hook) : hook :=
  MkHook (options s) (<[q := queue d]> (queues s)) (containers_ s) (queue_swapped_ s) (message_counter d) (allocation_counter d) (g_message_overflow_counter s) (answers d) (metas s) (worker s).

Definition on_metas {B} : M memory_meta_container B -> M hook B := lift metas put_metas.

(** Code on the queue with the number [q]. *)
Definition on_queue {B} (q : nat) (c : M desk B) : M hook B := fun s =>
  match queues s !! q with
  | Some b => let '(r, d) := c (MkDesk b (g_message_queue_counter_ s) (g_allocation_queue_counter_ s) (reallocs s)) in (r, put_desk q d s)
  | None => (Segv, s)
  end.

(** [new BufferQueue(SIZE_AUGMENT)]. *)
Definition new_queue : M hook nat :=
  q ← gets (fun s => length (queues s));
  modify (fun s => MkHook (options s) (queues s ++ [MkQueue new_allocator new_allocator]) (containers_ s) (queue_swapped_ s) (g_message_queue_counter_ s)
                          (g_allocation_queue_counter_ s) (g_message_overflow_counter s) (reallocs s) (metas s) (worker s));;
  on_queue q init_queue;;
  mret q.

(** [containers_[i]->queue_]. *)
Definition container_queue (i : nat) : M hook (option nat) := reads (fun s => match containers_ s !! i with Some q => Ok q | None => Undef end).

(** [BufferQueueContainer::lock]: the queue of the container. *)
Definition lock (i : nat) : M hook nat :=
  q ← container_queue i;
  match q with
  | Some q => mret q
  | None => q ← new_queue; modify (fun s => put_containers (<[i := Some q]> (containers_ s)) s);; mret q
  end.

(** ** Entry points *)

Definition should_do_unwind (o : settings) (byte_count : Z) : bool :=
  ((m_tracing_alloc_size_min o =? 0) || (m_tracing_alloc_size_min o <=? byte_count))
  && ((m_tracing_alloc_size_max o =? 0) || (byte_count <=? m_tracing_alloc_size_max o)).

(** The frames that are recorded: those of the unwinder, or none. *)
Definition recorded_frames (o : settings) (byte_count : Z) (unwound : backtrace_t) : backtrace_t :=
  if (0 <? byte_count) && is_stacktrace_enabled o && should_do_unwind o byte_count then unwound else [].

(** [unwound] is what the unwinder would find. *)
Definition on_acquire_memory (unwound : backtrace_t) (caller ptr byte_count : Z) (t : message_type) : M hook unit :=
  if ptr =? 0 then mret tt else
  backtrace ← gets (fun s => recorded_frames (options s) byte_count unwound);
  q ← lock (memory_ptr_hash ptr);
  message ← on_queue q (enqueue_allocation_message t);
  match message with
  | None => count_overflow
  | Some i => on_queue q (on_allocations (write i (MkAlloc ptr caller byte_count backtrace)))
  end.

Definition on_release_memory (ptr : Z) (is_munmap : bool) : M hook unit :=
  if ptr =? 0 then mret tt else
  q ← lock (memory_ptr_hash ptr);
  ret ← on_queue q (enqueue_deletion_message ptr is_munmap);
  if (ret : bool) then mret tt else count_overflow.

Definition on_alloc_memory (unwound : backtrace_t) (caller ptr byte_count : Z) : M hook unit := on_acquire_memory unwound caller ptr byte_count message_type_allocation.
Definition on_realloc_memory (unwound : backtrace_t) (caller ptr byte_count : Z) : M hook unit := on_acquire_memory unwound caller ptr byte_count message_type_reallocation.
Definition on_free_memory (ptr : Z) : M hook unit := on_release_memory ptr false.
Definition on_mmap_memory (unwound : backtrace_t) (caller ptr byte_count : Z) : M hook unit := on_acquire_memory unwound caller ptr byte_count message_type_mmap.
Definition on_munmap_memory (ptr : Z) : M hook unit := on_release_memory ptr true.

Definition enable_stacktrace (enable : bool) : M hook unit :=
  modify (fun s => put_options (MkSettings enable (m_tracing_alloc_size_min (options s)) (m_tracing_alloc_size_max (options s)) (m_stacktrace_log_threshold (options s))) s).
Definition set_stacktrace_log_threshold (threshold : Z) : M hook unit :=
  modify (fun s => put_options (MkSettings (is_stacktrace_enabled (options s)) (m_tracing_alloc_size_min (options s)) (m_tracing_alloc_size_max (options s)) threshold) s).
Definition set_tracing_alloc_size_range (min max : Z) : M hook unit :=
  modify (fun s => put_options (MkSettings (is_stacktrace_enabled (options s)) min max (m_stacktrace_log_threshold (options s))) s).

(** ** The thread *)

Definition start_process : M hook unit := w ← gets worker; match w with Some _ => mret tt | None => modify (put_worker Outside) end.
Definition memory_hook_init : M hook unit := start_process.

(** What the thread does with a message. *)
Definition handle (msg : message) (am : option allocation_message) : M memory_meta_container unit :=
  match type msg with
  | message_type_allocation | message_type_reallocation | message_type_mmap =>
      match am with
      | Some am => process_allocation (bool_decide (type msg = message_type_mmap)) am
      | None => critical_check false
      end
  | message_type_deletion | message_type_munmap => _ ← erase (payload msg); mret tt
  | message_type_nil => mret tt
  end.

Definition visit_container (i : nat) : M hook unit :=
  q ← container_queue i;
  match q with
  | Some q =>
      b ← reads (fun s => match queues s !! q with Some b => Ok b | None => Segv end);
      if queue_empty b then modify (put_worker (Visit (S i)))
      else modify (fun s => put_worker (Process i q 0) (put_containers (<[i := queue_swapped_ s]> (containers_ s)) s))
  | None => modify (put_worker (Visit (S i)))
  end.

Definition process_message (i q : nat) (k : Z) : M hook unit :=
  b ← reads (fun s => match queues s !! q with Some b => Ok b | None => Segv end);
  if k <? queue_size b then
    '(msg, am) ← on_queue q (fetch k);
    on_metas (handle msg am);;
    modify (put_worker (Process i q (uword (k + 1))))
  else
    on_queue q reset_queue;;
    modify (fun s => put_worker (Visit (S i)) (put_swapped (Some q) s)).

(** One turn of [process_routine]. *)
Definition worker_step : M hook unit :=
  w ← gets worker;
  match w with
  | None => mret tt
  | Some Outside =>
      swapped ← gets queue_swapped_;
      (match swapped with Some _ => mret tt | None => q ← new_queue; modify (put_swapped (Some q)) end);;
      modify (put_worker (Visit 0))
  | Some (Visit i) =>
      n ← gets (fun s => length (containers_ s));
      if (i <? n)%nat then visit_container i else modify (put_worker Outside)
  | Some (Process i q k) => process_message i q k
  end.

(** The static objects of MemoryHook.cpp; [answers] says which requests of the queues are granted. *)
Definition new_hook (o : settings) (answers : list bool) (m : memory_meta_container) : hook :=
  MkHook o [] (replicate (Z.to_nat MAX_PTR_SLOT) None) None (MkCounter 0 0 0 0) (MkCounter 0 0 0 0) 0 answers m None.

(** * Schedules *)

(** A call of an entry point, or a turn of the thread. *)
Inductive action :=
| Acquire (unwound : backtrace_t) (caller ptr byte_count : Z) (t : message_type)
| Release (ptr : Z) (is_munmap : bool)
| Work.

Definition act (a : action) : M hook unit :=
  match a with
  | Acquire unwound caller ptr byte_count t => on_acquire_memory unwound caller ptr byte_count t
  | Release ptr is_munmap => on_release_memory ptr is_munmap
  | Work => worker_step
  end.

Fixpoint run (l : list action) : M hook unit :=
  match l with [] => mret tt | a :: l => act a;; run l end.
End Queue.
Arguments sizeof T {_}.
Arguments size_augment_ T {_}.
Arguments memory_limit_ T {_}.
Arguments MessageAllocator T : clear implicits.
Arguments pool T : clear implicits.
End MemoryQueue.
