(* ===== verification/MemoryQueueFacts.v ===== *)
(** The queues of the memory hook lose nothing and keep the order of the messages on a pointer.

    [queued b l] says that the queue [b] holds the items [l]; the lemmas up to [process_run] say
    what the operations do with them.  [inv] gives the items of the 256 queues and those that the
    thread still has in its hands; [settled] says that they turn the pointers that the container
    knows into those that are live. *)
From S2P Require Import Prelude Arch Machine SplayMap SplayFacts MemoryMetas MemoryFacts MemoryAccounts MemoryContainer MemoryReport MemoryQueue.

Module MemoryQueueFacts.
Import MemoryMetas MemoryFacts MemoryQueue.

(** [wp_go]: the statements up to the next call or branch. *)
Ltac wp_go :=
  repeat match goal with
  | |- wp (mbind _ _) _ _ => apply wp_bind
  | |- wp (mret _) _ _ => apply wp_ret
  | |- wp (gets _) _ _ => apply wp_gets
  | |- wp (modify _) _ _ => apply wp_modify
  | |- wp (count _) _ _ => unfold count
  | |- wp get_idx _ _ => unfold get_idx
  | |- wp (put_idx _) _ _ => unfold put_idx
  | |- wp (on_messages _) _ _ => apply wp_lift
  | |- wp (on_allocations _) _ _ => apply wp_lift
  end.

Section Facts.
Context `{A : Arch}.

(** * Buffers *)

(** No queue gets longer. *)
Definition MAX_QUEUED : Z := 2 ^ 24.

Section Shelf.
Context {T : Type} {P : Pool T}.

Definition modest : Prop := 0 < sizeof T <= 176 /\ 0 < size_augment_ T <= 384.

(** The buffer holds [xs]. *)
Record shelf (a : MessageAllocator T) (xs : list T) : Prop := MkShelf {
  sh_idx : idx_ a = Z.of_nat (length xs);
  sh_size : size_ a = Z.of_nat (length (queue_ a));
  sh_max : size_ a <= MAX_QUEUED + 384;
  sh_elems : take (length xs) (queue_ a) = Some <$> xs
}.

Context (Hmod : modest).

Lemma shelf_length a xs : shelf a xs -> (length xs <= length (queue_ a))%nat.
Proof. intros [_ _ _ H]. apply (f_equal length) in H. rewrite length_take, length_fmap in H. lia. Qed.

Lemma shelf_get a xs i x : shelf a xs -> xs !! i = Some x -> queue_ a !! i = Some (Some x).
Proof.
  intros Ha Hi. pose proof (lookup_lt_Some _ _ _ Hi). rewrite <- (lookup_take_lt _ (length xs)) by done. rewrite (sh_elems _ _ Ha). by rewrite list_lookup_fmap, Hi.
Qed.

Lemma read_run s xs i x (Q : T -> pool T -> Prop) : shelf (allocator s) xs -> 0 <= i -> xs !! Z.to_nat i = Some x -> Q x s -> wp (read i) Q s.
Proof. intros Ha Hi Hx HQ. eapply wp_reads; [|exact HQ]. cbv beta. rewrite (shelf_get _ _ _ _ Ha Hx). by destruct (Z.leb_spec 0 i); [|lia]. Qed.

Lemma write_cell_run s i x (Q : unit -> pool T -> Prop) : 0 <= i < Z.of_nat (length (queue_ (allocator s))) ->
  Q tt (put_allocator (MkAllocator (size_ (allocator s)) (idx_ (allocator s)) (<[Z.to_nat i := Some x]> (queue_ (allocator s)))) s) -> wp (write i x) Q s.
Proof. intros Hi HQ. unfold write. wp_go. destruct (Z.leb_spec 0 i), (Z.ltb_spec i (Z.of_nat (length (queue_ (allocator s))))); try lia. exact HQ. Qed.

Lemma words : 2 ^ 32 <= 2 ^ word_bits.
Proof. apply Z.pow_le_mono_r; [lia|apply word_bits_ge]. Qed.

Lemma regrow_run s resize (Q : bool -> pool T -> Prop) : 0 <= resize <= MAX_QUEUED + 384 ->
  (forall s', allocator s' = allocator s -> Q false s') ->
  (forall s', allocator s' = MkAllocator (size_ (allocator s)) (idx_ (allocator s)) (take (Z.to_nat resize) (queue_ (allocator s)) ++ replicate (Z.to_nat resize - length (queue_ (allocator s))) None) -> Q true s') ->
  wp (realloc resize) Q s.
Proof.
  intros Hr Hno Hyes. destruct Hmod as [Hs _]. pose proof words. assert (uword (sizeof T * resize) / sizeof T = resize) as E.
  { unfold MAX_QUEUED in *. rewrite uword_small by nia. rewrite Z.mul_comm. apply Z.div_mul. lia. }
  unfold wp, realloc. rewrite E. destruct (grants s) as [|[] l]; [by apply Hyes|by apply Hyes|by apply Hno].
Qed.

(** The buffer after [realloc]. *)
Lemma shelf_resized a xs resize : shelf a xs -> Z.of_nat (length xs) <= resize <= MAX_QUEUED + 384 ->
  shelf (MkAllocator resize (idx_ a) (take (Z.to_nat resize) (queue_ a) ++ replicate (Z.to_nat resize - length (queue_ a)) None)) xs.
Proof.
  intros Ha Hr. pose proof (shelf_length _ _ Ha). destruct Ha as [H1 H2 H3 H4]. constructor; cbn; [done| |lia|].
  - rewrite length_app, length_take, length_replicate. lia.
  - rewrite take_app_le by (rewrite length_take; lia). rewrite take_take, Nat.min_l by lia. done.
Qed.

Lemma buffer_realloc_run (init : bool) s xs (Q : bool -> pool T -> Prop) : shelf (allocator s) xs -> (if init then xs = [] else size_ (allocator s) <= MAX_QUEUED) ->
  (forall s', shelf (allocator s') xs -> Q false s') ->
  (forall s', shelf (allocator s') xs -> size_ (allocator s') = (if init then size_augment_ T else size_ (allocator s) + size_augment_ T) -> Q true s') ->
  wp (buffer_realloc init) Q s.
Proof.
  intros Ha Hsz Hno Hyes. unfold buffer_realloc. wp_go. destruct (negb init && _); [wp_go; by apply Hno|]. wp_go.
  pose proof (sh_size _ _ Ha). pose proof (sh_idx _ _ Ha). pose proof (shelf_length _ _ Ha). pose proof Hmod as [_ Haug]. pose proof words. set (size := size_ (allocator s)) in *.
  set (resize := if init then size_augment_ T else uword (size + size_augment_ T)).
  assert (Z.of_nat (length xs) <= resize <= MAX_QUEUED + 384 /\ resize = (if init then size_augment_ T else size + size_augment_ T)) as [Hr Er].
  { unfold resize, MAX_QUEUED in *. destruct init; [subst xs; simpl; lia|]. rewrite uword_small by lia. lia. }
  destruct (negb init && _); wp_go; (apply regrow_run; [lia|intros s2 E2; wp_go; apply Hno; cbn; by rewrite E2|intros s2 E2; wp_go; apply Hyes; [|done]]);
    cbn; rewrite E2; cbn; by apply shelf_resized.
Qed.

Lemma check_realloc_run s xs (Q : bool -> pool T -> Prop) : shelf (allocator s) xs -> Z.of_nat (length xs) <= MAX_QUEUED ->
  (forall s', shelf (allocator s') xs -> Q false s') ->
  (forall s', shelf (allocator s') xs -> Z.of_nat (length xs) < size_ (allocator s') -> Q true s') ->
  wp check_realloc Q s.
Proof.
  intros Ha Hn Hno Hyes. unfold check_realloc. wp_go. pose proof (sh_idx _ _ Ha). pose proof (sh_size _ _ Ha). pose proof (shelf_length _ _ Ha). pose proof Hmod as [_ Haug].
  destruct (Z.leb_spec (size_ (allocator s)) (idx_ (allocator s))) as [Hle|Hlt].
  - eapply buffer_realloc_run; [exact Ha|lia|exact Hno|]. intros s' Hs' E. apply Hyes; [done|lia].
  - wp_go. apply Hyes; [done|lia].
Qed.

(** A new element behind the others; the index may be raised before or after it is written. *)
Lemma shelf_push a xs x i : shelf a xs -> Z.of_nat (length xs) < size_ a -> i = Z.of_nat (length xs) ->
  shelf (MkAllocator (size_ a) (uword (i + 1)) (<[Z.to_nat i := Some x]> (queue_ a))) (xs ++ [x]).
Proof.
  intros [H1 H2 H3 H4] Hlt ->. pose proof words. unfold MAX_QUEUED in *. constructor; cbn; [rewrite length_app; simpl; rewrite uword_small by lia; lia|by rewrite length_insert|done|].
  rewrite Nat2Z.id, length_app, fmap_app. simpl. rewrite Nat.add_1_r. erewrite take_S_r by (apply list_lookup_insert_eq; lia). rewrite take_insert_ge by lia. by rewrite H4.
Qed.

(** The last element is replaced. *)
Lemma shelf_set a xs x y : shelf a (xs ++ [x]) -> shelf (MkAllocator (size_ a) (idx_ a) (<[length xs := Some y]> (queue_ a))) (xs ++ [y]).
Proof.
  intros Ha. pose proof (shelf_length _ _ Ha) as Hl. destruct Ha as [H1 H2 H3 H4]. rewrite length_app in *. simpl in *. constructor; cbn; [rewrite length_app; done|by rewrite length_insert|done|].
  rewrite length_app, fmap_app in *. simpl in *. rewrite Nat.add_1_r in *. erewrite take_S_r by (apply list_lookup_insert_eq; lia). rewrite take_insert_ge by lia. f_equal.
  apply (f_equal (take (length xs))) in H4. rewrite take_take, Nat.min_l in H4 by lia. rewrite H4. rewrite take_app_le by (rewrite length_fmap; lia). apply take_ge. rewrite length_fmap. lia.
Qed.

(** The last element is dropped, whatever is in its place. *)
Lemma shelf_pop a xs x q : shelf a (xs ++ [x]) -> length q = length (queue_ a) -> take (length xs) q = take (length xs) (queue_ a) ->
  shelf (MkAllocator (size_ a) (uword (idx_ a - 1)) q) xs.
Proof.
  intros Ha Hl Hq. pose proof (shelf_length _ _ Ha) as Hlen. destruct Ha as [H1 H2 H3 H4]. rewrite length_app in *. simpl in *. pose proof words. unfold MAX_QUEUED in *.
  constructor; cbn; [rewrite H1, uword_small by lia; lia|lia|done|]. rewrite Hq. rewrite fmap_app in H4. apply (f_equal (take (length xs))) in H4. rewrite take_take, Nat.min_l in H4 by lia.
  rewrite H4. rewrite take_app_le by (rewrite length_fmap; lia). apply take_ge. rewrite length_fmap. lia.
Qed.

Lemma reset_pool_run s xs (Q : unit -> pool T -> Prop) : shelf (allocator s) xs -> (forall s', shelf (allocator s') [] -> Q tt s') -> wp reset Q s.
Proof.
  intros Ha HQ. unfold reset. wp_go. assert (shelf (MkAllocator (size_ (allocator s)) 0 (queue_ (allocator s))) []) as H0 by (destruct Ha; by constructor).
  cbn [allocator put_allocator size_]. destruct (_ <? _); [|wp_go; by apply HQ]. wp_go. eapply (buffer_realloc_run true); [exact H0|done|..]; intros s' Hs'; intros; wp_go; by apply HQ.
Qed.

Lemma shelf_new : shelf new_allocator [].
Proof. by constructor. Qed.
End Shelf.

Lemma message_modest : modest (T := message).
Proof. split; [|done]. cbn. unfold sizeof_message. destruct word_bytes_cases as [[_ ->]|[_ ->]]; destruct (elf_machine =? 183); lia. Qed.

Lemma allocation_modest : modest (T := allocation_message).
Proof.
  split; [|done]. cbn. unfold sizeof_allocation_message, sizeof_frame, MAX_FRAMES. destruct word_bytes_cases as [[_ ->]|[_ ->]]; destruct (elf_machine =? 183); (split; [reflexivity|by vm_compute]).
Qed.

(** * Queues *)

(** What a message means. *)
Inductive item :=
| Taken (t : message_type) (am : allocation_message)
| Dropped (is_munmap : bool) (ptr : Z).

Definition item_ptr (x : item) : Z := match x with Taken _ am => am_ptr am | Dropped _ p => p end.

Definition valid (x : item) : Prop :=
  match x with Taken t am => is_acquisition t = true /\ 0 <= am_size am | Dropped _ p => 0 <= p < 2 ^ payload_bits end.

Definition deletion_type (is_munmap : bool) : message_type := if is_munmap then message_type_munmap else message_type_deletion.

(** The messages of the items, where [n] allocations are before them. *)
Fixpoint encode (n : Z) (l : list item) : list message :=
  match l with
  | [] => []
  | Taken t _ :: l => MkMessage t n :: encode (n + 1) l
  | Dropped mu p :: l => MkMessage (deletion_type mu) p :: encode n l
  end.

Fixpoint allocs (l : list item) : list allocation_message :=
  match l with [] => [] | Taken _ am :: l => am :: allocs l | Dropped _ _ :: l => allocs l end.

Lemma encode_items_length n l : length (encode n l) = length l.
Proof. revert n. induction l as [|[]]; intros n; simpl; congruence. Qed.

Lemma allocs_length l : (length (allocs l) <= length l)%nat.
Proof. induction l as [|[] l IH]; simpl; lia. Qed.

Lemma encode_app n l1 l2 : encode n (l1 ++ l2) = encode n l1 ++ encode (n + Z.of_nat (length (allocs l1))) l2.
Proof.
  revert n. induction l1 as [|[t am|mu p] l1 IH]; intros n; cbn [app encode allocs length]; [by rewrite Z.add_0_r|rewrite IH; do 3 f_equal; lia|by rewrite IH].
Qed.

Lemma allocs_app l1 l2 : allocs (l1 ++ l2) = allocs l1 ++ allocs l2.
Proof. induction l1 as [|[] l1 IH]; simpl; congruence. Qed.

Lemma encode_lookup n l k x : l !! k = Some x ->
  encode n l !! k = Some (match x with Taken t _ => MkMessage t (n + Z.of_nat (length (allocs (take k l)))) | Dropped mu p => MkMessage (deletion_type mu) p end).
Proof.
  intros Hk. rewrite <- (take_drop_middle l k x Hk) at 1. pose proof (lookup_lt_Some _ _ _ Hk). rewrite encode_app, lookup_app_r; rewrite encode_items_length, length_take, Nat.min_l by lia; [|done].
  rewrite Nat.sub_diag. by destruct x.
Qed.

Lemma allocs_lookup l k t am : l !! k = Some (Taken t am) -> allocs l !! length (allocs (take k l)) = Some am.
Proof. intros Hk. replace (allocs l) with (allocs (take k l ++ Taken t am :: drop (S k) l)) by (by rewrite take_drop_middle). rewrite allocs_app, lookup_app_r by done. by rewrite Nat.sub_diag. Qed.

(** The queue holds the items. *)
Definition queued (b : BufferQueue) (l : list item) : Prop := shelf (messages_ b) (encode 0 l) /\ shelf (allocations_ b) (allocs l).

Definition desk_of (b : BufferQueue) (s : hook) : desk := MkDesk b (g_message_queue_counter_ s) (g_allocation_queue_counter_ s) (reallocs s).

Lemma payload_small z : 0 <= z <= MAX_QUEUED -> store_payload z = z.
Proof.
  intros Hz. unfold store_payload, payload_bits, MAX_QUEUED in *. pose proof (Z.pow_le_mono_r 2 32 word_bits ltac:(lia) word_bits_ge). apply wrap_small. destruct (elf_machine =? 183); lia.
Qed.

Lemma queued_idx b l : queued b l -> idx_ (messages_ b) = Z.of_nat (length l) /\ idx_ (allocations_ b) = Z.of_nat (length (allocs l)).
Proof. intros [H1 H2]. rewrite (sh_idx _ _ H1), (sh_idx _ _ H2), encode_items_length. done. Qed.

Lemma init_queue_run d (Q : unit -> desk -> Prop) : queued (queue d) [] -> (forall d', queued (queue d') [] -> Q tt d') -> wp init_queue Q d.
Proof.
  intros [H1 H2] HQ. unfold init_queue. wp_go. eapply (buffer_realloc_run message_modest true); [exact H1|done|..]; intros s1 Hs1; intros;
    wp_go; (eapply (buffer_realloc_run allocation_modest true); [exact H2|done|..]; intros s2 Hs2; intros; wp_go; by apply HQ).
Qed.

Lemma reset_queue_run d l (Q : unit -> desk -> Prop) : queued (queue d) l -> (forall d', queued (queue d') [] -> Q tt d') -> wp reset_queue Q d.
Proof.
  intros [H1 H2] HQ. unfold reset_queue. wp_go. eapply (reset_pool_run message_modest); [exact H1|]. intros s1 Hs1.
  wp_go. eapply (reset_pool_run allocation_modest); [exact H2|]. intros s2 Hs2. by apply HQ.
Qed.

(** Room for one more element. *)
Lemma reserve_run {T} {P : Pool T} (Hmod : modest (T := T)) s xs (Q : bool -> pool T -> Prop) : shelf (allocator s) xs -> Z.of_nat (length xs) <= MAX_QUEUED ->
  (forall s' ok, shelf (allocator s') xs -> (ok = true -> Z.of_nat (length xs) < size_ (allocator s')) -> Q ok s') -> wp check_realloc Q s.
Proof. intros Ha Hn HQ. eapply (check_realloc_run Hmod); [exact Ha|done|..]; intros s' Hs'; intros; by apply HQ. Qed.

Definition blank : allocation_message := MkAlloc 0 0 0 [].

Lemma enqueue_allocation_run t d l (Q : option Z -> desk -> Prop) : queued (queue d) l -> is_acquisition t = true -> Z.of_nat (length l) <= MAX_QUEUED ->
  (forall d', queued (queue d') l -> Q None d') ->
  (forall d', queued (queue d') (l ++ [Taken t blank]) -> Q (Some (Z.of_nat (length (allocs l)))) d') ->
  wp (enqueue_allocation_message t) Q d.
Proof.
  intros [H1 H2] Ht Hn Hno Hyes. pose proof (allocs_length l). unfold enqueue_allocation_message. wp_go.
  eapply (reserve_run message_modest); [exact H1|rewrite encode_items_length; lia|]. intros s1 ok Hs1 Hok. rewrite encode_items_length in Hok. destruct ok; [|wp_go; by apply Hno]. specialize (Hok eq_refl).
  wp_go. eapply (reserve_run allocation_modest); [exact H2|lia|]. intros s2 ok Hs2 Hok2. destruct ok; [|wp_go; by apply Hno]. specialize (Hok2 eq_refl). cbn [negb].
  wp_go. apply check_run; [done|]. wp_go.
  cbn in *. pose proof (sh_idx _ _ Hs1) as E1. pose proof (sh_idx _ _ Hs2) as E2. rewrite encode_items_length in E1. pose proof (sh_size _ _ Hs1). pose proof (sh_size _ _ Hs2).
  apply write_cell_run; [cbn; lia|]. wp_go. apply write_cell_run; [cbn; lia|]. wp_go. rewrite E2. apply Hyes.
  rewrite payload_small by lia. split; cbn.
  - rewrite encode_app. apply shelf_push; [done|by rewrite encode_items_length|by rewrite encode_items_length].
  - rewrite allocs_app. by apply shelf_push.
Qed.

(** The entry point fills in the blank. *)
Lemma fill_in_run t am d l (Q : unit -> desk -> Prop) : queued (queue d) (l ++ [Taken t blank]) ->
  (forall d', queued (queue d') (l ++ [Taken t am]) -> Q tt d') -> wp (on_allocations (write (Z.of_nat (length (allocs l))) am)) Q d.
Proof.
  intros [H1 H2] HQ. rewrite encode_app in H1. rewrite allocs_app in H2. simpl in H2. pose proof (shelf_length _ _ H2) as Hl. rewrite length_app in Hl. simpl in Hl.
  wp_go. apply write_cell_run; [cbn; lia|]. apply HQ. rewrite Nat2Z.id. split; cbn; [by rewrite encode_app|]. rewrite allocs_app. simpl. by eapply shelf_set.
Qed.

(** A release cancels the allocation before it if it is of the same kind. *)
Definition cancelled_by (is_munmap : bool) (t : message_type) : Prop := t = if is_munmap then message_type_mmap else message_type_allocation.

Lemma cancels_run p mu d l (Q : bool -> desk -> Prop) : queued (queue d) l ->
  ((forall l0 t am, l = l0 ++ [Taken t am] -> cancelled_by mu t -> am_ptr am <> p) -> Q false d) ->
  (forall l0 t am, l = l0 ++ [Taken t am] -> cancelled_by mu t -> am_ptr am = p -> Q true d) ->
  wp (cancels p mu) Q d.
Proof.
  destruct d as [[ms als] mc ac an]. intros Hq Hno Hyes. pose proof (queued_idx _ _ Hq) as [E1 _]. cbn in E1. destruct Hq as [H1 H2]. unfold cancels. wp_go. cbn [allocator messages_ queue]. rewrite E1.
  destruct (Z.ltb_spec 0 (Z.of_nat (length l))) as [Hpos|Hz]; wp_go.
  2: { apply Hno. intros l0 t am ->. rewrite length_app in Hz. simpl in Hz. lia. }
  destruct l as [|x l0 _] using rev_ind; [simpl in *; lia|]. rewrite length_app in *. simpl in Hpos |- *.
  replace (Z.of_nat (length l0 + 1) - 1) with (Z.of_nat (length l0)) by lia.
  assert ((l0 ++ [x]) !! length l0 = Some x) as Hx by (by apply list_lookup_middle). pose proof (encode_lookup 0 _ _ _ Hx) as Hm. rewrite take_app_length in Hm.
  eapply read_run; [exact H1|lia|rewrite Nat2Z.id; exact Hm|]. clear Hm. destruct x as [t am|mu' p']; cbn [type payload].
  - rewrite allocs_app in H2. simpl in H2. destruct (negb mu && _ || _) eqn:E.
    + assert (cancelled_by mu t) as Hc by (unfold cancelled_by; destruct mu; simpl in E; rewrite ?orb_false_r in E; by apply bool_decide_eq_true in E). wp_go.
      eapply read_run; [exact H2|lia|rewrite Z.add_0_l, Nat2Z.id; by apply list_lookup_middle|]. wp_go. destruct (Z.eqb_spec (am_ptr am) p) as [Ep|Hp]; [by eapply Hyes|].
      apply Hno. intros l1 t1 am1 [_ [= <- <-]]%app_inj_tail _. done.
    + wp_go. apply Hno. intros l1 t1 am1 [_ [= <- <-]]%app_inj_tail Hc. exfalso. unfold cancelled_by in Hc. subst t. destruct mu; simpl in E; by rewrite ?bool_decide_true in E by done.
  - replace (negb mu && _ || _) with false by (by destruct mu, mu'). wp_go. apply Hno. intros l1 t1 am1 [_ ?]%app_inj_tail. done.
Qed.

Lemma enqueue_deletion_run p mu d l (Q : bool -> desk -> Prop) : queued (queue d) l -> 0 <= p < 2 ^ payload_bits -> Z.of_nat (length l) <= MAX_QUEUED ->
  (forall d', queued (queue d') l -> Q false d') ->
  (forall d', queued (queue d') (l ++ [Dropped mu p]) -> Q true d') ->
  (forall l0 t am d', l = l0 ++ [Taken t am] -> cancelled_by mu t -> am_ptr am = p -> queued (queue d') l0 -> Q true d') ->
  wp (enqueue_deletion_message p mu) Q d.
Proof.
  destruct d as [[ms als] mc ac an]. intros Hq Hp Hn Hno Happ Hcan. pose proof (queued_idx _ _ Hq) as [E1 E2]. cbn in E1, E2. unfold enqueue_deletion_message. wp_go. eapply cancels_run; [exact Hq|..].
  - intros _. destruct Hq as [H1 H2]. wp_go. eapply (reserve_run message_modest); [exact H1|rewrite encode_items_length; lia|]. intros s1 ok Hs1 Hok. rewrite encode_items_length in Hok.
    destruct ok; [|wp_go; by apply Hno]. specialize (Hok eq_refl). cbn [negb]. wp_go. pose proof (sh_size _ _ Hs1). pose proof (sh_idx _ _ Hs1) as Ei. rewrite encode_items_length in Ei.
    assert (store_payload p = p) as -> by (by apply wrap_small). apply write_cell_run; [cbn; lia|]. wp_go. apply Happ. split; cbn; [|by rewrite allocs_app, app_nil_r]. rewrite encode_app.
    apply shelf_push; [done|by rewrite encode_items_length|by rewrite encode_items_length].
  - intros l0 t am -> Hc Ep. destruct Hq as [H1 H2]. wp_go. cbn [allocator queue messages_ allocations_] in *. rewrite E1. rewrite length_app in *. simpl in *. replace (Z.of_nat (length l0 + 1) - 1) with (Z.of_nat (length l0)) by lia.
    rewrite encode_app in H1. rewrite allocs_app in H2. simpl in H1, H2. pose proof (shelf_length _ _ H1) as Hl. rewrite length_app, encode_items_length in Hl. simpl in Hl.
    eapply read_run; [exact H1|lia|rewrite Nat2Z.id, <- (encode_items_length 0 l0); by apply list_lookup_middle|]. wp_go.
    apply write_cell_run; [cbn; lia|]. wp_go. eapply Hcan; [done|exact Hc|exact Ep|]. rewrite Nat2Z.id. split; cbn.
    + replace (Z.of_nat (length l0)) with (idx_ ms - 1) by lia. eapply shelf_pop; [exact H1|by rewrite length_insert|]. rewrite encode_items_length, take_insert_ge by lia. done.
    + by eapply shelf_pop.
Qed.

(** What the thread does with an item. *)
Definition handle_item (x : item) : M memory_meta_container unit :=
  match x with Taken t am => process_allocation (bool_decide (t = message_type_mmap)) am | Dropped _ p => _ ← erase p; mret tt end.

Lemma fetch_run k d l x (Q : message * option allocation_message -> desk -> Prop) : queued (queue d) l -> 0 <= k -> l !! Z.to_nat k = Some x -> valid x ->
  (forall r, handle r.1 r.2 = handle_item x -> Q r d) -> wp (fetch k) Q d.
Proof.
  intros [H1 H2] Hk Hx Hv HQ. unfold fetch. wp_go. eapply read_run; [exact H1|done|by eapply encode_lookup|]. destruct d as [[] ? ? ?]. destruct x as [t am|mu p]; cbn [type payload].
  - destruct Hv as [Ht _]. rewrite Ht. wp_go. eapply read_run; [exact H2|lia|rewrite Z.add_0_l, Nat2Z.id; by eapply allocs_lookup|]. wp_go. apply HQ. unfold handle. simpl. by destruct t.
  - replace (is_acquisition (deletion_type mu)) with false by (by destruct mu). wp_go. apply HQ. unfold handle. simpl. by destruct mu.
Qed.
End Facts.
End MemoryQueueFacts.
