(* ===== verification/MemoryQueueRun.v ===== *)
(** The memory hook under every schedule of its callers and its thread.

    [inv] relates the state to the items in the queues; [balanced] adds that these items, applied
    to the pointers that the container knows, give the live ones.  Every step keeps it, and the
    thread empties the queues when it is left alone ([drain]). *)
From S2P Require Import Prelude Arch Machine SplayMap SplayFacts MemoryMetas MemoryFacts MemoryAccounts MemoryContainer MemoryReport MemoryQueue MemoryQueueFacts.

Module MemoryQueueRun.
Import MemoryMetas MemoryFacts MemoryContainer MemoryReport MemoryQueue MemoryQueueFacts.

Section Run.
Context `{A : Arch}.

Notation lives := (gmap Z (allocation_message * bool)).
Notation status := (option (allocation_message * bool)).

(** * Items of a pointer *)

Definition after_item (o : status) (x : item) : status :=
  match x with Taken t am => Some (am, bool_decide (t = message_type_mmap)) | Dropped _ _ => None end.

Definition settle (o : status) (l : list item) : status := foldl after_item o l.

(** Only a reallocation may find the pointer live. *)
Definition opens (o : status) (x : item) : Prop := match x with Taken t _ => t <> message_type_reallocation -> o = None | Dropped _ _ => True end.

Fixpoint fresh (o : status) (l : list item) : Prop := match l with [] => True | x :: l => opens o x /\ fresh (after_item o x) l end.

Lemma settle_snoc o l x : settle o (l ++ [x]) = after_item (settle o l) x.
Proof. unfold settle. by rewrite foldl_app. Qed.

Lemma fresh_snoc o l x : fresh o (l ++ [x]) <-> fresh o l /\ opens (settle o l) x.
Proof. revert o. induction l as [|y l IH]; intros o; simpl; [tauto|]. rewrite IH. unfold settle. simpl. tauto. Qed.

Definition view (p : Z) (l : list item) : list item := filter (fun x => item_ptr x = p) l.

Lemma view_app p l1 l2 : view p (l1 ++ l2) = view p l1 ++ view p l2.
Proof. apply filter_app. Qed.

Lemma view_one p x : view p [x] = if decide (item_ptr x = p) then [x] else [].
Proof. done. Qed.

(** What is under way for a pointer: the items of the thread [F] before those of its queue. *)
Definition pending (F : list item) (C : list (list item)) (p : Z) : list item := view p F ++ view p (C !!! memory_ptr_hash p).

Lemma pending_push F C x p : (memory_ptr_hash (item_ptr x) < length C)%nat ->
  pending F (<[memory_ptr_hash (item_ptr x) := C !!! memory_ptr_hash (item_ptr x) ++ [x]]> C) p = if decide (item_ptr x = p) then pending F C p ++ [x] else pending F C p.
Proof.
  intros Hi. unfold pending. destruct (decide (memory_ptr_hash (item_ptr x) = memory_ptr_hash p)) as [E|Hne].
  - rewrite <- E. rewrite list_lookup_total_insert_eq by done. rewrite view_app, view_one. destruct (decide (item_ptr x = p)); by rewrite ?app_assoc, ?app_nil_r.
  - rewrite list_lookup_total_insert_ne by done. rewrite decide_False by congruence. done.
Qed.

Lemma pending_cons x F C p : pending (x :: F) C p = if decide (item_ptr x = p) then x :: pending F C p else pending F C p.
Proof. unfold pending, view. rewrite filter_cons. by destruct (decide _). Qed.

(** The thread takes a queue. *)
Lemma pending_take C i p : (i < length C)%nat -> Forall (fun x => memory_ptr_hash (item_ptr x) = i) (C !!! i) -> pending (C !!! i) (<[i := []]> C) p = pending [] C p.
Proof.
  intros Hi Hc. unfold pending. cbn [view filter list_filter app]. destruct (decide (memory_ptr_hash p = i)) as [<-|Hne].
  - rewrite list_lookup_total_insert_eq by done. by rewrite app_nil_r.
  - rewrite list_lookup_total_insert_ne by done. assert (view p (C !!! i) = []) as ->; [|done]. clear Hi.
    induction Hc as [|x l Hx _ IH]; [done|]. unfold view. rewrite filter_cons, decide_False by congruence. exact IH.
Qed.

(** * Sums over the queues *)

Definition tally (f : list item -> Z) (C : list (list item)) : Z := foldr (fun l n => f l + n) 0 C.

Lemma tally_insert f C i l : (i < length C)%nat -> tally f (<[i := l]> C) = tally f C - f (C !!! i) + f l.
Proof. revert i. induction C as [|l0 C IH]; intros [|i] Hi; simpl in *; [lia|lia|lia|]. rewrite IH by lia. change ((l0 :: C) !!! S i) with (C !!! i). lia. Qed.

Lemma tally_nonneg f C : (forall l, 0 <= f l) -> 0 <= tally f C.
Proof. intros Hf. induction C as [|l C IH]; simpl; [lia|]. specialize (Hf l). lia. Qed.

Lemma tally_lookup f C i : (forall l, 0 <= f l) -> (i < length C)%nat -> f (C !!! i) <= tally f C.
Proof.
  intros Hf. revert i. induction C as [|l C IH]; intros [|i] Hi; simpl in *; try lia; pose proof (tally_nonneg f C Hf) as Hn; pose proof (Hf l).
  - change ((l :: C) !!! 0%nat) with l. lia.
  - change ((l :: C) !!! S i) with (C !!! i). specialize (IH i ltac:(lia)). lia.
Qed.

Definition load (l : list item) : Z := Z.of_nat (length l).
Definition item_bytes (x : item) : Z := match x with Taken _ am => am_size am | Dropped _ _ => 0 end.
Definition mass (l : list item) : Z := foldr (fun x n => Z.max 0 (item_bytes x) + n) 0 l.

Lemma load_nonneg l : 0 <= load l.
Proof. unfold load. lia. Qed.

Lemma mass_nonneg l : 0 <= mass l.
Proof. induction l; simpl; lia. Qed.

Lemma mass_app l1 l2 : mass (l1 ++ l2) = mass l1 + mass l2.
Proof. induction l1 as [|x l1 IH]; simpl; [done|]. rewrite IH. lia. Qed.

Lemma load_snoc l x : load (l ++ [x]) = load l + 1.
Proof. unfold load. rewrite length_app. simpl. lia. Qed.

(** * The state and the items *)

Definition slots : nat := Z.to_nat MAX_PTR_SLOT.

Lemma hash_slots k : (memory_ptr_hash k < slots)%nat.
Proof.
  unfold memory_ptr_hash, slots. change PTR_MASK with (Z.ones 8). rewrite Z.land_ones by lia. change MAX_PTR_SLOT with (2 ^ 8).
  pose proof (Z.mod_pos_bound (Z.lxor k (Z.shiftr k 16)) (2 ^ 8) ltac:(lia)). lia.
Qed.

Definition belongs (i : nat) (x : item) : Prop := valid x /\ memory_ptr_hash (item_ptr x) = i.

Definition unused (s : hook) (q : nat) : Prop := forall j, containers_ s !! j <> Some (Some q).

(** A queue to exchange. *)
Definition spare (s : hook) (q : nat) : Prop := exists b, queues s !! q = Some b /\ queued b [] /\ unused s q.

(** The thread was started and holds the items [F]. *)
Definition at_work (s : hook) (F : list item) : Prop :=
  match worker s with
  | None => False
  | Some Outside => F = [] /\ forall q, queue_swapped_ s = Some q -> spare s q
  | Some (Visit _) => F = [] /\ exists q, queue_swapped_ s = Some q /\ spare s q
  | Some (Process i q k) => exists b l, queues s !! q = Some b /\ queued b l /\ unused s q /\ 0 <= k <= Z.of_nat (length l) /\ F = drop (Z.to_nat k) l /\ Forall (belongs i) l
  end.

Record inv (s : hook) (C : list (list item)) (F : list item) : Prop := MkInv {
  iv_containers : length (containers_ s) = slots;
  iv_lists : length C = slots;
  iv_queue i q : containers_ s !! i = Some (Some q) -> exists b, queues s !! q = Some b /\ queued b (C !!! i);
  iv_none i : containers_ s !! i = Some None -> C !!! i = [];
  iv_inj i j q : containers_ s !! i = Some (Some q) -> containers_ s !! j = Some (Some q) -> i = j;
  iv_class i : Forall (belongs i) (C !!! i);
  iv_work : at_work s F
}.

(** ** Changes of the queues *)

(** Everything else is as before. *)
Record same (s s' : hook) : Prop := MkSame {
  sm_options : options s' = options s;
  sm_metas : metas s' = metas s;
  sm_worker : worker s' = worker s;
  sm_swapped : queue_swapped_ s' = queue_swapped_ s;
  sm_overflow : g_message_overflow_counter s' = g_message_overflow_counter s
}.

Lemma at_work_same s s' F : same s s' -> (forall q b, queues s !! q = Some b -> unused s q -> queues s' !! q = Some b /\ unused s' q) -> at_work s F -> at_work s' F.
Proof.
  intros [_ _ Hw Hs _] Hq. assert (forall q, spare s q -> spare s' q) as Hsp. { intros q (b & Hb & Hb' & Hu). destruct (Hq _ _ Hb Hu). by exists b. }
  unfold at_work. rewrite Hw, Hs. destruct (worker s) as [[|i|i q k]|]; [naive_solver|naive_solver| |naive_solver].
  intros (b & l & Hb & Hb' & Hu & ? & ? & ?). destruct (Hq _ _ Hb Hu). exists b, l. done.
Qed.

Lemma same_put_desk q d s : same s (put_desk q d s).
Proof. done. Qed.

Lemma inv_put_desk s C F i q d l : inv s C F -> containers_ s !! i = Some (Some q) -> queued (queue d) l -> Forall (belongs i) l -> inv (put_desk q d s) (<[i := l]> C) F.
Proof.
  intros Hi Hc Hq Hl. pose proof (lookup_lt_Some _ _ _ Hc) as Hlt. rewrite (iv_containers _ _ _ Hi) in Hlt. pose proof (iv_lists _ _ _ Hi) as HC.
  constructor; cbn; [apply Hi|by rewrite length_insert|..].
  - intros j q' Hj. destruct (decide (i = j)) as [<-|Hne].
    + assert (q' = q) as -> by congruence. exists (queue d). destruct (iv_queue _ _ _ Hi _ _ Hj) as (b & Hb & _). split; [apply list_lookup_insert_eq; by eapply lookup_lt_Some|].
      by rewrite list_lookup_total_insert_eq by lia.
    + destruct (iv_queue _ _ _ Hi _ _ Hj) as (b & Hb & Hb'). exists b. rewrite list_lookup_insert_ne; [|intros ->; apply Hne; by eapply (iv_inj _ _ _ Hi)]. by rewrite list_lookup_total_insert_ne.
  - intros j Hj. rewrite list_lookup_total_insert_ne by (intros <-; congruence). by apply (iv_none _ _ _ Hi).
  - apply (iv_inj _ _ _ Hi).
  - intros j. destruct (decide (i = j)) as [<-|Hne]; [by rewrite list_lookup_total_insert_eq by lia|]. rewrite list_lookup_total_insert_ne by done. apply (iv_class _ _ _ Hi).
  - eapply at_work_same; [apply same_put_desk| |apply Hi]. intros q' b Hb Hu. split; [|done]. cbn. rewrite list_lookup_insert_ne; [done|]. intros ->. by eapply Hu.
Qed.

(** New objects. *)
Record extends (s s' : hook) : Prop := MkExtends {
  ex_same : same s s';
  ex_containers : containers_ s' = containers_ s;
  ex_queues q b : queues s !! q = Some b -> queues s' !! q = Some b
}.

Lemma inv_extends s s' C F : extends s s' -> inv s C F -> inv s' C F.
Proof.
  intros [Hs Hc Hq] Hi. constructor; rewrite ?Hc; try apply Hi.
  - intros i q E. destruct (iv_queue _ _ _ Hi _ _ E) as (b & Hb & ?). exists b. split; [by apply Hq|done].
  - eapply at_work_same; [exact Hs| |apply Hi]. intros q b Hb Hu. split; [by apply Hq|]. unfold unused. by rewrite Hc.
Qed.

Lemma on_queue_run {B} q (c : M desk B) s b (Q : B -> hook -> Prop) : queues s !! q = Some b -> wp c (fun a d => Q a (put_desk q d s)) (desk_of b s) -> wp (on_queue q c) Q s.
Proof. intros Hb. unfold wp, on_queue. rewrite Hb. unfold desk_of. by destruct (c _) as [[] d]. Qed.

Lemma new_queue_run s (Q : nat -> hook -> Prop) :
  (forall s' b, extends s s' -> queues s' !! length (queues s) = Some b -> queued b [] -> Q (length (queues s)) s') -> wp new_queue Q s.
Proof.
  intros HQ. unfold new_queue. wp_go. eapply on_queue_run; [cbn; by apply list_lookup_middle|]. eapply init_queue_run; [split; apply shelf_new|]. intros d Hd. wp_go.
  eapply HQ; [|cbn; apply list_lookup_insert_eq; rewrite length_app; simpl; lia|exact Hd]. constructor; [done|done|]. intros q b Hb. cbn.
  pose proof (lookup_lt_Some _ _ _ Hb). rewrite list_lookup_insert_ne by lia. by apply lookup_app_l_Some.
Qed.

Lemma spare_new s s' b : extends s s' -> (forall i q, containers_ s !! i = Some (Some q) -> is_Some (queues s !! q)) -> queues s' !! length (queues s) = Some b -> queued b [] ->
  spare s' (length (queues s)).
Proof.
  intros He Hc Hb Hb'. exists b. split_and!; [done|done|]. intros j Hj. rewrite (ex_containers _ _ He) in Hj. apply Hc in Hj as [b' Hb'']. apply lookup_lt_Some in Hb''. lia.
Qed.

Lemma lock_run i s C F (Q : nat -> hook -> Prop) : inv s C F -> (i < slots)%nat ->
  (forall q s', inv s' C F -> same s s' -> containers_ s' !! i = Some (Some q) -> Q q s') -> wp (lock i) Q s.
Proof.
  intros Hi Hlt HQ. unfold lock. rewrite <- (iv_containers _ _ _ Hi) in Hlt. destruct (lookup_lt_is_Some_2 _ _ Hlt) as [[q|] E].
  - wp_go. eapply wp_reads; [cbv beta; by rewrite E|]. cbv beta iota. wp_go. by apply HQ.
  - wp_go. eapply wp_reads; [cbv beta; by rewrite E|]. cbv beta iota. wp_go. apply new_queue_run. intros s' b He Hb Hb'. wp_go.
    assert (spare s' (length (queues s))) as (b0 & Hb0 & Hq0 & Hu). { eapply spare_new; try done. intros j q Hj. destruct (iv_queue _ _ _ Hi _ _ Hj) as (b0 & ? & _). by eexists. }
    pose proof (inv_extends _ _ _ _ He Hi) as Hi'. rewrite (ex_containers _ _ He). apply HQ; [|by destruct (ex_same _ _ He)|cbn; by apply list_lookup_insert_eq].
    set (q0 := length (queues s)) in *. assert (forall j q, <[i := Some q0]> (containers_ s) !! j = Some (Some q) -> (j = i /\ q = q0) \/ (j <> i /\ containers_ s !! j = Some (Some q))) as Hcase.
    { intros j q. destruct (decide (i = j)) as [<-|Hne]; [rewrite list_lookup_insert_eq by done; intros [= <-]; by left|]. rewrite list_lookup_insert_ne by done. by right. }
    constructor; cbn; [rewrite length_insert; apply Hi|apply Hi|..].
    + intros j q [[-> ->]|[_ Hj]]%Hcase; [exists b0; by rewrite (iv_none _ _ _ Hi _ E)|]. apply (iv_queue _ _ _ Hi'). by rewrite (ex_containers _ _ He).
    + intros j Hj. apply (iv_none _ _ _ Hi). destruct (decide (i = j)) as [<-|Hne]; [by rewrite list_lookup_insert_eq in Hj|]. by rewrite list_lookup_insert_ne in Hj by done.
    + intros j k q [[-> ->]|[_ Hj]]%Hcase [[-> ?]|[_ Hk]]%Hcase; try done; [exfalso; eapply Hu; rewrite (ex_containers _ _ He); exact Hk|subst; exfalso; eapply Hu; rewrite (ex_containers _ _ He); exact Hj|by eapply (iv_inj _ _ _ Hi)].
    + apply Hi.
    + eapply (at_work_same s); [by destruct (ex_same _ _ He)| |apply Hi]. intros q b1 Hb1 Hu1. split; [by apply (ex_queues _ _ He)|]. intros j [[_ ->]|[_ Hj]]%Hcase; [|by eapply Hu1].
      apply lookup_lt_Some in Hb1. unfold q0 in *. lia.
Qed.

(** * Balance *)

Definition apply_item (x : item) (m : lives) : lives :=
  match x with Taken t am => <[am_ptr am := (am, bool_decide (t = message_type_mmap))]> m | Dropped _ p => delete p m end.

Lemma lookup_apply x m p : apply_item x m !! p = if decide (item_ptr x = p) then after_item (m !! p) x else m !! p.
Proof. destruct x as [t am|mu q]; simpl; [rewrite lookup_insert|rewrite lookup_delete]; by destruct (decide _). Qed.

(** The items under way take the pointer from what the container knows to what it is. *)
Definition settled (live spec : lives) (F : list item) (C : list (list item)) (p : Z) : Prop :=
  fresh (live !! p) (pending F C p) /\ settle (live !! p) (pending F C p) = spec !! p.

Lemma settled_push live spec F C x p : (memory_ptr_hash (item_ptr x) < length C)%nat -> opens (spec !! item_ptr x) x -> settled live spec F C p ->
  settled live (apply_item x spec) F (<[memory_ptr_hash (item_ptr x) := C !!! memory_ptr_hash (item_ptr x) ++ [x]]> C) p.
Proof.
  intros Hi Ho [Hf Hs]. unfold settled. rewrite pending_push by done. rewrite lookup_apply. destruct (decide (item_ptr x = p)) as [<-|]; [|done].
  rewrite fresh_snoc, settle_snoc, Hs. done.
Qed.

Lemma settled_pop live spec F C l0 t am mu p : let i := memory_ptr_hash (am_ptr am) in (i < length C)%nat -> C !!! i = l0 ++ [Taken t am] -> cancelled_by mu t ->
  settled live spec F C p -> settled live (delete (am_ptr am) spec) F (<[i := l0]> C) p.
Proof.
  intros i Hi El Hc [Hf Hs]. set (C0 := <[i := l0]> C). assert (C = <[i := C0 !!! i ++ [Taken t am]]> C0) as EC.
  { unfold C0. rewrite list_lookup_total_insert_eq, list_insert_insert_eq by done. rewrite <- El. symmetry. apply list_insert_id. by apply list_lookup_lookup_total_lt. }
  assert (i < length C0)%nat as HL by (unfold C0; by rewrite length_insert). clearbody C0. pose proof (pending_push F C0 (Taken t am) p HL) as Hp. simpl in Hp. fold i in Hp. rewrite <- EC in Hp. rewrite Hp in Hf, Hs. unfold settled.
  rewrite lookup_delete. destruct (decide (am_ptr am = p)); [|done]. rewrite fresh_snoc in Hf. destruct Hf as [Hf Ho]. split; [done|]. apply Ho. unfold cancelled_by in Hc. by destruct mu; subst.
Qed.

Lemma settled_cons live spec x F C p : settled live spec (x :: F) C p -> settled (apply_item x live) spec F C p.
Proof.
  intros [Hf Hs]. rewrite pending_cons in Hf, Hs. unfold settled. rewrite lookup_apply. destruct (decide (item_ptr x = p)); [|done]. destruct Hf as [_ Hf]. split; [done|exact Hs].
Qed.

Section Steps.
Context (c : Z) (Hc : c <= MAX_QUEUED).
Context (Hptrs : SplayFacts.fits (V := ptr_meta) (c + 1 + PTR_SPLAY_MAP_CAPACITY)) (Hstacks : SplayFacts.fits (V := stack_meta) (c + 1 + STACK_SPLAY_MAP_CAPACITY)).
Context (o : settings).

(** At most [n] calls were made so far, for at most [W] bytes, and [spec] is live. *)
Record balanced (s : hook) (C : list (list item)) (F : list item) (spec : lives) (n W : Z) : Prop := MkBalanced {
  bl_inv : inv s C F;
  bl_options : options s = o;
  bl_overflow : 0 <= g_message_overflow_counter s <= n;
  bl_live : exists live N V, tracks c (metas s) live N V /\ 0 <= N /\ N + load F + tally load C <= n /\ V + mass F + tally mass C <= W
    /\ (g_message_overflow_counter s = 0 -> forall p, settled live spec F C p)
}.

Lemma balanced_queue s C F spec n W i : balanced s C F spec n W -> (i < slots)%nat -> Z.of_nat (length (C !!! i)) <= n.
Proof.
  intros Hb Hi. destruct (bl_live _ _ _ _ _ _ Hb) as (live & N & V & _ & HN & Hn & _). rewrite <- (iv_lists _ _ _ (bl_inv _ _ _ _ _ _ Hb)) in Hi.
  pose proof (tally_lookup load C i load_nonneg Hi). pose proof (load_nonneg F). unfold load in *. lia.
Qed.

Lemma put_desk_twice q d1 d2 s : put_desk q d2 (put_desk q d1 s) = put_desk q d2 s.
Proof. unfold put_desk. cbn. by rewrite list_insert_insert_eq. Qed.

Lemma insert_self (C : list (list item)) i : (i < length C)%nat -> <[i := C !!! i]> C = C.
Proof. intros Hi. apply list_insert_id. by apply list_lookup_lookup_total_lt. Qed.

(** A message is lost. *)
Lemma balanced_lost s s' C F spec spec' n W W' : balanced s C F spec n W -> n < c -> 0 <= W' -> inv s' C F -> options s' = options s -> metas s' = metas s ->
  g_message_overflow_counter s' = uword (g_message_overflow_counter s + 1) -> balanced s' C F spec' (n + 1) (W + W').
Proof.
  intros [_ Ho Hv (live & N & V & Ht & HN & Hn & HW & _)] Hlt HW' Hi Eo Em Ev. pose proof words. unfold MAX_QUEUED in Hc. rewrite uword_small in Ev by lia.
  constructor; [done|congruence|lia|]. rewrite Em. exists live, N, V. split_and!; [done|done|lia|lia|]. intros E. lia.
Qed.

(** A message is put into its queue. *)
Lemma balanced_push s s' C F spec n W x : balanced s C F spec n W -> n < c -> opens (spec !! item_ptr x) x -> valid x ->
  inv s' (<[memory_ptr_hash (item_ptr x) := C !!! memory_ptr_hash (item_ptr x) ++ [x]]> C) F -> options s' = options s -> metas s' = metas s ->
  g_message_overflow_counter s' = g_message_overflow_counter s ->
  balanced s' (<[memory_ptr_hash (item_ptr x) := C !!! memory_ptr_hash (item_ptr x) ++ [x]]> C) F (apply_item x spec) (n + 1) (W + item_bytes x).
Proof.
  intros [Hi0 Ho Hv (live & N & V & Ht & HN & Hn & HW & Hs)] Hlt Hop Hx Hi Eo Em Ev. pose proof (hash_slots (item_ptr x)) as Hh. rewrite <- (iv_lists _ _ _ Hi0) in Hh.
  constructor; [done|congruence|lia|]. rewrite Em, Ev. exists live, N, V. split; [done|]. split; [done|]. rewrite !tally_insert by done. rewrite load_snoc, mass_app. simpl.
  split; [lia|]. split; [destruct x as [t am|mu p]; simpl in *; lia|]. intros E p. by apply settled_push, Hs.
Qed.

Lemma acquire_run unwound caller ptr byte_count t s C F spec n W : let am := MkAlloc ptr caller byte_count (recorded_frames o byte_count unwound) in
  balanced s C F spec n W -> n < c -> ptr <> 0 -> is_acquisition t = true -> 0 <= byte_count -> (t <> message_type_reallocation -> spec !! ptr = None) ->
  wp (on_acquire_memory unwound caller ptr byte_count t) (fun _ s' => exists C', balanced s' C' F (apply_item (Taken t am) spec) (n + 1) (W + byte_count)) s.
Proof.
  intros am Hb Hn Hp Ht Hsz Hfr. unfold on_acquire_memory. destruct (Z.eqb_spec ptr 0); [done|]. wp_go. rewrite (bl_options _ _ _ _ _ _ Hb).
  set (i := memory_ptr_hash ptr). pose proof (hash_slots ptr) as Hi. fold i in Hi. pose proof (balanced_queue _ _ _ _ _ _ i Hb Hi) as Hlen. pose proof (bl_inv _ _ _ _ _ _ Hb) as Hinv.
  eapply lock_run; [exact Hinv|done|]. intros q s1 Hi1 [E1 E2 E3 E4 E5] Hcq. wp_go. destruct (iv_queue _ _ _ Hi1 _ _ Hcq) as (b & Hqb & Hq).
  pose proof (iv_lists _ _ _ Hi1) as HC. eapply on_queue_run; [exact Hqb|]. eapply enqueue_allocation_run; [exact Hq|done|lia|..].
  - intros d Hd. unfold count_overflow. wp_go. exists C. eapply balanced_lost; [exact Hb|done|done| |done|done|cbn; by rewrite E5].
    pose proof (inv_put_desk _ _ _ _ _ _ _ Hi1 Hcq Hd (iv_class _ _ _ Hi1 i)) as Hi2. rewrite insert_self in Hi2 by lia. by destruct Hi2.
  - intros d Hd. eapply on_queue_run; [cbn; apply list_lookup_insert_eq; by eapply lookup_lt_Some|]. eapply fill_in_run; [exact Hd|]. intros d' Hd'. rewrite put_desk_twice.
    exists (<[i := C !!! i ++ [Taken t am]]> C). eapply (balanced_push s _ C F spec n W (Taken t am)); [exact Hb|done|exact Hfr|done| |done|done|done].
    eapply inv_put_desk; [exact Hi1|exact Hcq|exact Hd'|]. apply Forall_app. split; [apply Hi1|]. by repeat constructor.
Qed.
Lemma release_run ptr mu s C F spec n W : balanced s C F spec n W -> n < c -> ptr <> 0 -> 0 <= ptr < 2 ^ payload_bits ->
  wp (on_release_memory ptr mu) (fun _ s' => exists C', balanced s' C' F (delete ptr spec) (n + 1) W) s.
Proof.
  intros Hb Hn Hp Hr. unfold on_release_memory. destruct (Z.eqb_spec ptr 0); [done|]. wp_go.
  set (i := memory_ptr_hash ptr). pose proof (hash_slots ptr) as Hi. fold i in Hi. pose proof (balanced_queue _ _ _ _ _ _ i Hb Hi) as Hlen. pose proof (bl_inv _ _ _ _ _ _ Hb) as Hinv.
  eapply lock_run; [exact Hinv|done|]. intros q s1 Hi1 [E1 E2 E3 E4 E5] Hcq. wp_go. destruct (iv_queue _ _ _ Hi1 _ _ Hcq) as (b & Hqb & Hq).
  pose proof (iv_lists _ _ _ Hi1) as HC. eapply on_queue_run; [exact Hqb|]. eapply enqueue_deletion_run; [exact Hq|done|lia|..].
  - intros d Hd. unfold count_overflow. wp_go. exists C. replace W with (W + 0) by lia. eapply balanced_lost; [exact Hb|done|done| |done|done|cbn; by rewrite E5].
    pose proof (inv_put_desk _ _ _ _ _ _ _ Hi1 Hcq Hd (iv_class _ _ _ Hi1 i)) as Hi2. rewrite insert_self in Hi2 by lia. by destruct Hi2.
  - intros d Hd. wp_go. exists (<[i := C !!! i ++ [Dropped mu ptr]]> C). replace W with (W + item_bytes (Dropped mu ptr)) by (simpl; lia).
    eapply (balanced_push s _ C F spec n W (Dropped mu ptr)); [exact Hb|done|done|done| |done|done|done].
    eapply inv_put_desk; [exact Hi1|exact Hcq|exact Hd|]. apply Forall_app. split; [apply Hi1|]. by apply Forall_singleton.
  - intros l0 t am d El Hca Ep Hd. wp_go. exists (<[i := l0]> C). pose proof (iv_class _ _ _ Hi1 i) as Hcl. rewrite El in Hcl. apply Forall_app in Hcl as [Hcl _].
    destruct Hb as [_ Ho Hv (live & N & V & Ht & HN & Hcnt & HW & Hs)]. subst ptr.
    constructor; [by eapply inv_put_desk|cbn; congruence|cbn; lia|]. cbn. rewrite E2, E5. exists live, N, V. split; [done|]. split; [done|].
    rewrite !tally_insert by lia. rewrite El, load_snoc, mass_app. pose proof (mass_nonneg [Taken t am]). split; [lia|]. split; [lia|]. intros E p. eapply settled_pop; [unfold i in *; lia|exact El|exact Hca|]. by apply Hs.
Qed.

(** ** The thread *)

Lemma handle_item_run x m live N V : tracks c m live N V -> valid x -> 0 <= N <= c -> V + mass [x] < 2 ^ word_bits ->
  wp (handle_item x) (fun _ m' => exists N' V', tracks c m' (apply_item x live) N' V' /\ 0 <= N' <= N + 1 /\ V' <= V + mass [x]) m.
Proof.
  intros Ht Hv HN HV. destruct x as [t am|mu p]; simpl in *.
  - destruct Hv as [_ Hsz]. eapply wp_mono, (process_allocation_run c Hptrs Hstacks _ am _ _ _ _ Ht); [|done|lia|lia]. intros [] m' Ht'. exists (N + 1), (V + am_size am). split_and!; [done|lia|lia|lia].
  - wp_go. eapply wp_mono, (erase_run c p _ _ _ _ Ht). intros b m' [_ Ht']. wp_go. exists N, V. split_and!; [done|lia|lia|lia].
Qed.

(** Only the place of the thread changes. *)
Lemma balanced_goto s C F spec n W w : balanced s C F spec n W -> at_work (put_worker w s) F -> balanced (put_worker w s) C F spec n W.
Proof. intros [[] ? ? ?] Hw. by constructor. Qed.

Lemma outside_run s C F spec n W : balanced s C F spec n W -> worker s = Some Outside ->
  wp worker_step (fun _ s' => balanced s' C F spec n W /\ F = [] /\ worker s' = Some (Visit 0)) s.
Proof.
  intros Hb Hw. pose proof (bl_inv _ _ _ _ _ _ Hb) as Hi. pose proof (iv_work _ _ _ Hi) as Hwk. unfold at_work in Hwk. rewrite Hw in Hwk. destruct Hwk as [-> Hsp].
  unfold worker_step. wp_go. rewrite Hw. wp_go. destruct (queue_swapped_ s) as [q|] eqn:Eq; wp_go.
  - split; [|done]. apply balanced_goto; [done|]. split; [done|]. exists q. split; [done|]. by apply Hsp.
  - apply new_queue_run. intros s' b He Hb' Hq. wp_go. split; [|done]. pose proof (inv_extends _ _ _ _ He Hi) as Hi'.
    assert (spare s' (length (queues s))) as Hs'. { eapply spare_new; try done. intros j q Hj. destruct (iv_queue _ _ _ Hi _ _ Hj) as (b0 & ? & _). by eexists. }
    destruct He as [[E1 E2 E3 E4 E5] Ec Eq']. destruct Hb as [_ Ho Hv Hl]. constructor; [|cbn; congruence|cbn; lia|cbn; by rewrite E2, E5]. destruct Hi'. constructor; try done. split; [done|]. by exists (length (queues s)).
Qed.

Lemma visit_run i s C F spec n W : balanced s C F spec n W -> worker s = Some (Visit i) -> (i < slots)%nat ->
  wp worker_step (fun _ s' => (C !!! i = [] /\ balanced s' C F spec n W /\ worker s' = Some (Visit (S i)))
    \/ exists q, balanced s' (<[i := []]> C) (C !!! i) spec n W /\ worker s' = Some (Process i q 0)) s.
Proof.
  intros Hb Hw Hlt. pose proof (bl_inv _ _ _ _ _ _ Hb) as Hi. pose proof (iv_work _ _ _ Hi) as Hwk. unfold at_work in Hwk. rewrite Hw in Hwk. destruct Hwk as [-> (q0 & Eq0 & Hsp)].
  unfold worker_step. wp_go. rewrite Hw. wp_go. pose proof Hlt as Hlt'. rewrite <- (iv_containers _ _ _ Hi) in Hlt'. destruct (Nat.ltb_spec i (length (containers_ s))) as [_|]; [|lia].
  unfold visit_container. destruct (lookup_lt_is_Some_2 _ _ Hlt') as [[q|] E]; wp_go; (eapply wp_reads; [cbv beta; by rewrite E|]); cbv beta iota; wp_go.
  2: { left. split; [by apply (iv_none _ _ _ Hi)|]. split; [|done]. apply balanced_goto; [done|]. split; [done|]. by exists q0. }
  destruct (iv_queue _ _ _ Hi _ _ E) as (b & Hqb & Hq). eapply wp_reads; [cbv beta; by rewrite Hqb|]. unfold queue_empty. rewrite (proj1 (queued_idx _ _ Hq)).
  destruct (Z.eqb_spec (Z.of_nat (length (C !!! i))) 0) as [Ez|Hne]; wp_go.
  - left. split; [by apply nil_length_inv; lia|]. split; [|done]. apply balanced_goto; [done|]. split; [done|]. by exists q0.
  - right. exists q. split; [|done]. pose proof (iv_lists _ _ _ Hi) as HC. destruct Hsp as (b0 & Hb0 & Hq0 & Hu0).
    assert (forall j q', <[i := queue_swapped_ s]> (containers_ s) !! j = Some (Some q') -> (j = i /\ q' = q0) \/ (j <> i /\ containers_ s !! j = Some (Some q'))) as Hcase.
    { intros j q'. rewrite Eq0. destruct (decide (i = j)) as [<-|Hij]; [rewrite list_lookup_insert_eq by done; intros [= <-]; by left|]. rewrite list_lookup_insert_ne by done. by right. }
    destruct Hb as [_ Ho Hv (live & N & V & Ht & HN & Hcnt & HW & Hs)]. constructor; [|done|done|].
    + constructor; cbn; [by rewrite length_insert, (iv_containers _ _ _ Hi)|by rewrite length_insert|..].
      * intros j q' [[-> ->]|[Hj Hcj]]%Hcase; [exists b0; by rewrite list_lookup_total_insert_eq by lia|]. rewrite list_lookup_total_insert_ne by done. by apply (iv_queue _ _ _ Hi).
      * intros j Hj. destruct (decide (i = j)) as [<-|Hij]; [by rewrite list_lookup_total_insert_eq by lia|]. rewrite list_lookup_total_insert_ne by done.
        rewrite list_lookup_insert_ne in Hj by done. by apply (iv_none _ _ _ Hi).
      * intros j k q' [[-> ->]|[Hj Hcj]]%Hcase [[-> ?]|[Hk Hck]]%Hcase; try done; [by apply Hu0 in Hck|subst; by apply Hu0 in Hcj|by eapply (iv_inj _ _ _ Hi)].
      * intros j. destruct (decide (i = j)) as [<-|Hij]; [by rewrite list_lookup_total_insert_eq by lia|]. rewrite list_lookup_total_insert_ne by done. apply (iv_class _ _ _ Hi).
      * exists b, (C !!! i). split_and!; try done; try lia; [|apply (iv_class _ _ _ Hi)].
        intros j [[-> ->]|[Hj Hcj]]%Hcase; [by apply (Hu0 i)|]. apply Hj. by eapply (iv_inj _ _ _ Hi).
    + cbn. exists live, N, V. split; [done|]. split; [done|]. rewrite !tally_insert by lia. change (load []) with 0 in *. change (mass []) with 0 in *. split; [lia|]. split; [lia|].
      intros Ev p. destruct (Hs Ev p) as [Hf Hst]. unfold settled. rewrite pending_take; [done|lia|]. eapply Forall_impl; [apply (iv_class _ _ _ Hi)|]. by intros x [_ ?].
Qed.

Lemma end_run i s C F spec n W : balanced s C F spec n W -> worker s = Some (Visit i) -> (slots <= i)%nat ->
  wp worker_step (fun _ s' => F = [] /\ balanced s' C F spec n W /\ worker s' = Some Outside) s.
Proof.
  intros Hb Hw Hge. pose proof (bl_inv _ _ _ _ _ _ Hb) as Hi. pose proof (iv_work _ _ _ Hi) as Hwk. unfold at_work in Hwk. rewrite Hw in Hwk. destruct Hwk as [-> (q0 & Eq0 & Hsp)].
  unfold worker_step. wp_go. rewrite Hw. wp_go. rewrite (iv_containers _ _ _ Hi). destruct (Nat.ltb_spec i slots) as [|_]; [lia|]. wp_go. split; [done|]. split; [|done].
  apply balanced_goto; [done|]. split; [done|]. cbn. intros q. rewrite Eq0. by intros [= <-].
Qed.

Lemma process_run i q k s C F spec n W : balanced s C F spec n W -> n <= c -> W < 2 ^ word_bits -> worker s = Some (Process i q k) ->
  wp worker_step (fun _ s' => match F with
    | [] => balanced s' C [] spec n W /\ worker s' = Some (Visit (S i))
    | _ :: F => exists k, balanced s' C F spec n W /\ worker s' = Some (Process i q k) end) s.
Proof.
  intros Hb Hn HWw Hw. pose proof (bl_inv _ _ _ _ _ _ Hb) as Hi. pose proof (iv_work _ _ _ Hi) as Hwk. unfold at_work in Hwk. rewrite Hw in Hwk.
  destruct Hwk as (b & l & Hqb & Hq & Hu & Hk & EF & Hcl). unfold worker_step. wp_go. rewrite Hw. cbv beta iota. unfold process_message. wp_go. eapply wp_reads; [cbv beta; by rewrite Hqb|].
  unfold queue_size. rewrite (proj1 (queued_idx _ _ Hq)). pose proof words. destruct Hb as [_ Ho Hv (live & N & V & Ht & HN & Hcnt & HWV & Hs)].
  destruct (Z.ltb_spec k (Z.of_nat (length l))) as [Hlt|Hge].
  - destruct (lookup_lt_is_Some_2 l (Z.to_nat k) ltac:(lia)) as [x Hx]. pose proof (proj1 (Forall_lookup _ _) Hcl _ _ Hx) as [Hvx _]. rewrite (drop_S _ _ _ Hx) in EF. subst F.
    set (F := drop (S (Z.to_nat k)) l) in *. wp_go. eapply on_queue_run; [exact Hqb|]. eapply fetch_run; [exact Hq|lia|exact Hx|done|]. intros [msg am] Eh. wp_go. simpl in Eh. rewrite Eh.
    change (mass (x :: F)) with (Z.max 0 (item_bytes x) + mass F) in HWV. replace (load (x :: F)) with (load F + 1) in Hcnt by (unfold load; simpl; lia).
    pose proof (mass_nonneg F). pose proof (load_nonneg F). pose proof (tally_nonneg load C load_nonneg). pose proof (tally_nonneg mass C mass_nonneg).
    unfold on_metas. apply wp_lift. cbn [metas put_desk]. eapply wp_mono, (handle_item_run x _ _ _ _ Ht Hvx); [|lia|simpl; lia]. intros [] m' (N' & V' & Ht' & HN' & HV'). wp_go. exists (uword (k + 1)). split; [|done].
    pose proof (sh_max _ _ (proj1 Hq)). pose proof (sh_size _ _ (proj1 Hq)). pose proof (shelf_length _ _ (proj1 Hq)) as Hle. rewrite encode_items_length in Hle. unfold MAX_QUEUED in *. rewrite uword_small by lia.
    replace (put_desk q (desk_of b s) s) with s by (unfold put_desk, desk_of; cbn; rewrite list_insert_id by done; by destruct s).
    simpl in HV'. constructor; [|done|done|].
    + destruct Hi. constructor; try done. exists b, l. cbn. split_and!; try done; try lia. unfold F. f_equal. lia.
    + cbn. exists (apply_item x live), N', V'. split; [exact Ht'|]. split; [lia|]. split; [lia|]. split; [lia|]. intros Ev p. by apply settled_cons, Hs.
  - assert (F = []) as -> by (rewrite EF; apply drop_ge; lia). wp_go. eapply on_queue_run; [exact Hqb|]. eapply reset_queue_run; [exact Hq|]. intros d Hd. wp_go. split; [|done].
    constructor; [|done|done|cbn; by exists live, N, V]. constructor; cbn; try apply Hi.
    + intros j q' Hj. destruct (iv_queue _ _ _ Hi _ _ Hj) as (b' & Hb' & Hq'). exists b'. rewrite list_lookup_insert_ne; [done|]. intros ->. by apply Hu in Hj.
    + split; [done|]. exists q. split; [done|]. exists (queue d). cbn. split; [apply list_lookup_insert_eq; by eapply lookup_lt_Some|]. done.
Qed.
Lemma work_run s C F spec n W : balanced s C F spec n W -> n <= c -> W < 2 ^ word_bits -> wp worker_step (fun _ s' => exists C' F', balanced s' C' F' spec n W) s.
Proof.
  intros Hb Hn HW. pose proof (iv_work _ _ _ (bl_inv _ _ _ _ _ _ Hb)) as Hwk. destruct (worker s) as [[|i|i q k]|] eqn:Hw.
  - eapply wp_mono, outside_run; [|exact Hb|done]. intros [] s' (Hb' & _). by exists C, F.
  - destruct (decide (i < slots)%nat).
    + eapply wp_mono, visit_run; [|exact Hb|exact Hw|done]. intros [] s' [(_ & Hb' & _)|(q & Hb' & _)]; eauto.
    + eapply wp_mono, end_run; [|exact Hb|exact Hw|lia]. intros [] s' (_ & Hb' & _). by exists C, F.
  - eapply wp_mono, process_run; [|exact Hb|done|done|exact Hw]. intros [] s'. destruct F as [|x F]; [intros [Hb' _]; eauto|intros (k' & Hb' & _); eauto].
  - unfold at_work in Hwk. by rewrite Hw in Hwk.
Qed.

(** * Schedules *)

(** What the caller of the hook means. *)
Definition event_of (a : action) : option event :=
  match a with
  | Acquire unwound caller ptr byte_count t =>
      if ptr =? 0 then None else Some (Allocated (bool_decide (t = message_type_mmap)) (MkAlloc ptr caller byte_count (recorded_frames o byte_count unwound)))
  | Release ptr _ => if ptr =? 0 then None else Some (Released ptr)
  | Work => None
  end.

(** Memory is acquired where nothing is live and released by an address that a message can hold. *)
Definition lawful_action (live : lives) (a : action) : Prop :=
  match a with
  | Acquire _ _ ptr byte_count t => is_acquisition t = true /\ 0 <= byte_count /\ (t <> message_type_reallocation -> live !! ptr = None)
  | Release ptr _ => 0 <= ptr < 2 ^ payload_bits
  | Work => True
  end.

Definition step_live (live : lives) (a : action) : lives := from_option (fun e => live_after e live) live (event_of a).

Fixpoint lawful (live : lives) (l : list action) : Prop :=
  match l with [] => True | a :: l => lawful_action live a /\ lawful (step_live live a) l end.

Definition events (l : list action) : list event := omap event_of l.

Lemma lawful_app l1 l2 : forall live, lawful live (l1 ++ l2) <-> lawful live l1 /\ lawful (foldl step_live live l1) l2.
Proof. induction l1 as [|a l1 IH]; intros live; simpl; [tauto|]. rewrite IH. tauto. Qed.

Lemma foldl_events l : forall live, foldl step_live live l = foldl (fun m e => live_after e m) live (events l).
Proof. induction l as [|a l IH]; intros live; [done|]. cbn [foldl events omap list_omap]. rewrite IH. unfold step_live. by destruct (event_of a). Qed.

Definition event_bytes (e : event) : Z := match e with Allocated _ am => am_size am | Released _ => 0 end.

Lemma events_cons a l : events (a :: l) = match event_of a with Some e => e :: events l | None => events l end.
Proof. done. Qed.

Lemma volume_cons e es : volume (e :: es) = event_bytes e + volume es.
Proof. by destruct e. Qed.

Lemma act_run a s C F spec n W : balanced s C F spec n W -> lawful_action spec a -> n + Z.of_nat (length (events [a])) <= c -> W < 2 ^ word_bits ->
  wp (act a) (fun _ s' => exists C' F', balanced s' C' F' (step_live spec a) (n + Z.of_nat (length (events [a]))) (W + volume (events [a]))) s.
Proof.
  intros Hb Ha Hn HW. unfold step_live. rewrite events_cons in *. destruct a as [unwound caller ptr byte_count t|ptr mu|]; cbn [act event_of] in *.
  - destruct Ha as (Ht & Hsz & Hfr). destruct (Z.eqb_spec ptr 0) as [Ep|Hp]; simpl in *.
    + unfold on_acquire_memory. rewrite Ep. simpl. wp_go. exists C, F. by rewrite !Z.add_0_r.
    + eapply wp_mono, (acquire_run unwound caller ptr byte_count t); [|exact Hb|lia|done|done|done|done]. intros [] s' [C' Hb']. exists C', F. simpl in Hb'. by rewrite Z.add_0_r.
  - destruct (Z.eqb_spec ptr 0) as [Ep|Hp]; simpl in *.
    + unfold on_release_memory. rewrite Ep. simpl. wp_go. exists C, F. by rewrite !Z.add_0_r.
    + eapply wp_mono, (release_run ptr mu); [|exact Hb|lia|done|done]. intros [] s' [C' Hb']. exists C', F. by rewrite Z.add_0_r.
  - simpl in *. eapply wp_mono, work_run; [|exact Hb|lia|done]. intros [] s' (C' & F' & Hb'). exists C', F'. by rewrite !Z.add_0_r.
Qed.

Lemma act_sane spec a : lawful_action spec a -> Forall sane (events [a]).
Proof.
  intros Ha. rewrite events_cons. destruct a as [unwound caller ptr byte_count t|ptr mu|]; simpl in *; [destruct (ptr =? 0)|destruct (ptr =? 0)|]; repeat constructor. simpl. by destruct Ha as (_ & ? & _).
Qed.

Lemma events_app l1 l2 : events (l1 ++ l2) = events l1 ++ events l2.
Proof. apply omap_app. Qed.

Lemma volume_app es1 es2 : volume (es1 ++ es2) = volume es1 + volume es2.
Proof. induction es1 as [|e es1 IH]; [done|]. simpl app. rewrite !volume_cons, IH. lia. Qed.

Lemma lawful_sane l : forall spec, lawful spec l -> Forall sane (events l).
Proof.
  induction l as [|a l IH]; intros spec Hl; [constructor|]. destruct Hl as [Ha Hl]. change (a :: l) with ([a] ++ l). rewrite events_app. apply Forall_app. split; [by eapply act_sane|by eapply IH].
Qed.

Lemma run_run l : forall s C F spec n W, balanced s C F spec n W -> lawful spec l -> n + Z.of_nat (length (events l)) <= c -> W + volume (events l) < 2 ^ word_bits ->
  wp (run l) (fun _ s' => exists C' F', balanced s' C' F' (foldl step_live spec l) (n + Z.of_nat (length (events l))) (W + volume (events l))) s.
Proof.
  induction l as [|a l IH]; intros s C F spec n W Hb Hl Hn HW; cbn [run foldl].
  - wp_go. exists C, F. simpl. by rewrite !Z.add_0_r.
  - pose proof (lawful_sane _ _ Hl) as Hsane. destruct Hl as [Ha Hl]. change (a :: l) with ([a] ++ l) in Hn, HW, Hsane |- *. rewrite events_app, length_app, volume_app in *. apply Forall_app in Hsane as [H1 H2].
    pose proof (volume_nonneg _ H1). pose proof (volume_nonneg _ H2). wp_go. eapply wp_mono, act_run; [|exact Hb|exact Ha|lia|lia]. intros [] s' (C' & F' & Hb').
    eapply wp_mono, (IH _ _ _ _ _ _ Hb' Hl); [|lia|lia]. intros [] s'' (C'' & F'' & Hb''). exists C'', F''. by rewrite Nat2Z.inj_add, !Z.add_assoc.
Qed.

(** * The thread left alone *)

Lemma keeps_put {S B} (f : S -> B) g : (forall s, f (g s) = f s) -> keeps f (modify g).
Proof. intros H s. apply H. Qed.

Lemma keeps_on_queue {B} q (m : M desk B) : keeps g_message_overflow_counter (on_queue q m).
Proof. intros s. unfold on_queue. destruct (queues s !! q); [|done]. by destruct (m _). Qed.

Lemma keeps_on_metas {B} (m : M memory_meta_container B) : keeps g_message_overflow_counter (on_metas m).
Proof. intros s. unfold on_metas, lift. by destruct (m _). Qed.

Lemma keeps_new_queue : keeps g_message_overflow_counter new_queue.
Proof. unfold new_queue. repeat (first [apply keeps_bind; [|intros]|apply keeps_ret|apply keeps_gets|apply keeps_on_queue|by apply keeps_put]). Qed.

(** The thread loses no message. *)
Lemma work_keeps : keeps g_message_overflow_counter worker_step.
Proof.
  unfold worker_step, visit_container, process_message, container_queue.
  repeat match goal with
  | |- keeps _ (mbind _ _) => apply keeps_bind; [|intros]
  | |- keeps _ (match ?x with _ => _ end) => destruct x
  | |- keeps _ new_queue => apply keeps_new_queue
  | |- _ => first [apply keeps_ret|apply keeps_gets|apply keeps_reads|apply keeps_on_queue|apply keeps_on_metas|by apply keeps_put]
  end.
Qed.

Lemma works_keep k s s' : run (replicate k Work) s = (Ok tt, s') -> g_message_overflow_counter s' = g_message_overflow_counter s.
Proof.
  revert s. induction k as [|k IH]; intros s E; [by injection E as <-|]. cbn [replicate run act] in E. apply M_bind_Ok in E as ([] & s2 & E1 & E2).
  rewrite (IH _ E2). pose proof (work_keeps s) as Hk. by rewrite E1 in Hk.
Qed.

Definition reaches (s : hook) (R : hook -> Prop) : Prop := exists k s', run (replicate k Work) s = (Ok tt, s') /\ R s'.

Lemma reaches_now s (R : hook -> Prop) : R s -> reaches s R.
Proof. intros H. by exists 0%nat, s. Qed.

Lemma reaches_step s R : wp worker_step (fun _ s' => reaches s' R) s -> reaches s R.
Proof. intros (a & s1 & E & k & s' & E' & H)%wp_run. exists (S k), s'. split; [|done]. cbn [replicate run]. erewrite M_bind_run; [exact E'|]. destruct a. exact E. Qed.

Lemma reaches_trans s R R' : reaches s R -> (forall s', R s' -> reaches s' R') -> reaches s R'.
Proof.
  intros (k & s1 & E & H) HR. revert s E. induction k as [|k IH]; intros s E; [injection E as <-; by apply HR|].
  cbn [replicate run act] in E. apply M_bind_Ok in E as ([] & s2 & E1 & E2). apply reaches_step. unfold wp. rewrite E1. by apply IH.
Qed.

(** The queues from [a] up to [b] are empty. *)
Definition drained (a b : nat) (C : list (list item)) : Prop := forall j, (a <= j < b)%nat -> C !!! j = [].

Section Drain.
Context (spec : lives) (n W : Z) (Hn : n <= c) (HW : W < 2 ^ word_bits).

Lemma finish_process C i q F : forall s k, balanced s C F spec n W -> worker s = Some (Process i q k) -> reaches s (fun s' => balanced s' C [] spec n W /\ worker s' = Some (Visit (S i))).
Proof.
  induction F as [|x F IH]; intros s k Hb Hw; apply reaches_step; (eapply wp_mono; [|eapply process_run; [exact Hb|done|done|exact Hw]]); intros [] s'; [intros Hb'; by apply reaches_now|].
  intros (k' & Hb' & Hw'). by eapply IH.
Qed.

Lemma to_outside a m : forall i s C, balanced s C [] spec n W -> worker s = Some (Visit i) -> drained a i C -> (slots <= i + m)%nat ->
  reaches s (fun s' => exists C', balanced s' C' [] spec n W /\ worker s' = Some Outside /\ drained a slots C').
Proof.
  induction m as [|m IH]; intros i s C Hb Hw Hd Hm; destruct (decide (i < slots)%nat) as [Hi|Hi]; try lia.
  1, 3: apply reaches_step; (eapply wp_mono; [|eapply end_run; [exact Hb|exact Hw|lia]]); intros [] s' (_ & Hb' & Hw'); apply reaches_now; exists C; split_and!; [done|done|]; intros j Hj; apply Hd; lia.
  apply reaches_step. eapply wp_mono; [|eapply visit_run; [exact Hb|exact Hw|done]]. intros [] s' [(Ei & Hb' & Hw')|(q & Hb' & Hw')].
  - apply (IH (S i) s' C Hb' Hw'); [|lia]. intros j Hj. destruct (decide (j = i)) as [->|]; [done|]. apply Hd. lia.
  - eapply reaches_trans; [by eapply finish_process|]. intros s2 [Hb2 Hw2]. eapply (IH (S i) s2 _ Hb2 Hw2); [|lia]. pose proof (iv_lists _ _ _ (bl_inv _ _ _ _ _ _ Hb)).
    intros j Hj. destruct (decide (i = j)) as [->|]; [by rewrite list_lookup_total_insert_eq by lia|]. rewrite list_lookup_total_insert_ne by done. apply Hd. lia.
Qed.

Lemma drain s C F : balanced s C F spec n W -> reaches s (fun s' => exists C', balanced s' C' [] spec n W /\ drained 0 slots C').
Proof.
  intros Hb. assert (forall s C, balanced s C [] spec n W -> worker s = Some Outside -> reaches s (fun s' => exists C', balanced s' C' [] spec n W /\ drained 0 slots C')) as Hout.
  { intros s1 C1 Hb1 Hw1. apply reaches_step. eapply wp_mono; [|eapply outside_run; [exact Hb1|done]]. intros [] s2 (Hb2 & _ & Hw2).
    eapply reaches_trans; [eapply (to_outside 0 slots 0); [exact Hb2|exact Hw2|intros j Hj; lia|lia]|]. intros s3 (C3 & Hb3 & _ & Hd). apply reaches_now. by exists C3. }
  assert (forall i s C, balanced s C [] spec n W -> worker s = Some (Visit i) -> reaches s (fun s' => exists C', balanced s' C' [] spec n W /\ drained 0 slots C')) as Hvis.
  { intros i s1 C1 Hb1 Hw1. eapply reaches_trans; [eapply (to_outside i slots i); [exact Hb1|exact Hw1|intros j Hj; lia|lia]|]. intros s2 (C2 & Hb2 & Hw2 & _). by eapply Hout. }
  pose proof (iv_work _ _ _ (bl_inv _ _ _ _ _ _ Hb)) as Hwk. unfold at_work in Hwk. destruct (worker s) as [[|i|i q k]|] eqn:Hw; [| | |done].
  - destruct Hwk as [-> _]. by eapply Hout.
  - destruct Hwk as [-> _]. by eapply Hvis.
  - eapply reaches_trans; [by eapply finish_process|]. intros s2 [Hb2 Hw2]. by eapply Hvis.
Qed.

(** Where the queues are empty, the container holds what is live. *)
Lemma drained_tracks s C : balanced s C [] spec n W -> drained 0 slots C -> g_message_overflow_counter s = 0 -> exists N V, tracks c (metas s) spec N V.
Proof.
  intros Hb Hd Hv. destruct (bl_live _ _ _ _ _ _ Hb) as (live & N & V & Ht & _ & _ & _ & Hs). exists N, V. replace spec with live; [done|]. apply map_eq. intros p.
  destruct (Hs Hv p) as [_ E]. unfold pending in E. rewrite Hd in E by (pose proof (hash_slots p); lia). exact E.
Qed.
End Drain.
End Steps.
End Run.
End MemoryQueueRun.
