(* ===== verification/MemoryHooks.v ===== *)
(** The hooks of the allocation functions (traceharbor-hooks, memory/MemoryHookFunctions.cpp) and
    what the memory hook as a whole reports.

    A hook calls the original function and tells the entry points of MemoryQueue.v about the
    result; the results of the original functions, which belong to the C library and the kernel,
    are arguments here.  [allowed] and [effect] say what they may be and what they do to the heap:
    the contract of the C library. *)
From S2P Require Import Prelude Arch Machine SplayMap SplayFacts MemoryMetas MemoryFacts MemoryAccounts MemoryContainer MemoryReport MemoryQueue MemoryQueueFacts MemoryQueueRun.

Module MemoryHooks.
Import MemoryMetas MemoryFacts MemoryContainer MemoryReport MemoryQueue MemoryQueueFacts MemoryQueueRun.

Section Hooks.
Context `{A : Arch}.

(** * Hooks *)

(** Where a hook is called from: the return address, and the stack that the unwinder would find. *)
Record site := MkSite { caller : Z; unwound : backtrace_t }.

Definition MAP_FAILED : Z := uword (-1).

Definition DO_HOOK_ACQUIRE (st : site) (p size : Z) : M hook unit := on_alloc_memory (unwound st) (caller st) p size.
Definition DO_HOOK_RELEASE (p : Z) : M hook unit := on_free_memory p.

(** The last argument [p] or [ret] of a hook is what the original function returns. *)
Definition h_malloc (st : site) (byte_count p : Z) : M hook Z := DO_HOOK_ACQUIRE st p byte_count;; mret p.

Definition h_calloc (st : site) (item_count item_size p : Z) : M hook Z := DO_HOOK_ACQUIRE st p (uword (item_count * item_size));; mret p.

Definition h_realloc (st : site) (ptr byte_count p : Z) : M hook Z :=
  if ptr =? 0 then on_alloc_memory (unwound st) (caller st) p byte_count;; mret p else
  if byte_count =? 0 then on_free_memory ptr;; mret p else
  on_free_memory ptr;;
  on_alloc_memory (unwound st) (caller st) p byte_count;;
  mret p.

Definition h_memalign (st : site) (byte_count p : Z) : M hook Z := DO_HOOK_ACQUIRE st p byte_count;; mret p.

(** [p] is what the original function stores. *)
Definition h_posix_memalign (st : site) (size p ret : Z) : M hook Z := (if ret =? 0 then DO_HOOK_ACQUIRE st p size else mret tt);; mret ret.

Definition h_free (ptr : Z) : M hook unit := DO_HOOK_RELEASE ptr.

Definition h_mmap (st : site) (size p : Z) : M hook Z :=
  if p =? MAP_FAILED then mret p else on_mmap_memory (unwound st) (caller st) p size;; mret p.

Definition h_mmap64 (st : site) (size p : Z) : M hook Z :=
  if p =? MAP_FAILED then mret p else on_mmap_memory (unwound st) (caller st) p size;; mret p.

Definition h_mremap (st : site) (old_addr new_size p : Z) : M hook Z :=
  if p =? MAP_FAILED then mret p else
  on_munmap_memory old_addr;;
  on_mmap_memory (unwound st) (caller st) p new_size;;
  mret p.

Definition h_munmap (addr ret : Z) : M hook Z := on_munmap_memory addr;; mret ret.

(** [sizeof(str)] is the size of a pointer. *)
Definition h_strdup (st : site) (p : Z) : M hook Z := DO_HOOK_ACQUIRE st p word_bytes;; mret p.
Definition h_strndup (st : site) (n p : Z) : M hook Z := DO_HOOK_ACQUIRE st p (if word_bytes <? n then word_bytes else n);; mret p.

(** The operators of C++, by their symbols without the type of the size; with 64-bit words
    [_Znw_RKSt9nothrow_t] calls the original of [_Znw_]. *)
Inductive new_operator := _Znw_ | _Znw_St11align_val_t | _Znw_St11align_val_tRKSt9nothrow_t | _Znw_RKSt9nothrow_t
| _Zna_ | _Zna_St11align_val_t | _Zna_St11align_val_tRKSt9nothrow_t | _Zna_RKSt9nothrow_t.

Inductive delete_operator := _ZdlPv_ | _ZdlPv_St11align_val_t | _ZdaPv_ | _ZdaPv_St11align_val_t
| _ZdlPv | _ZdlPvSt11align_val_t | _ZdlPvSt11align_val_tRKSt9nothrow_t | _ZdlPvRKSt9nothrow_t
| _ZdaPv | _ZdaPvSt11align_val_t | _ZdaPvSt11align_val_tRKSt9nothrow_t | _ZdaPvRKSt9nothrow_t.

Definition h_new (op : new_operator) (st : site) (size p : Z) : M hook Z :=
  match op with
  | _Znw_ | _Znw_St11align_val_t | _Znw_St11align_val_tRKSt9nothrow_t | _Znw_RKSt9nothrow_t
  | _Zna_ | _Zna_St11align_val_t | _Zna_St11align_val_tRKSt9nothrow_t | _Zna_RKSt9nothrow_t => DO_HOOK_ACQUIRE st p size;; mret p
  end.

Definition h_delete (op : delete_operator) (ptr : Z) : M hook unit :=
  match op with
  | _ZdlPv_ | _ZdlPv_St11align_val_t | _ZdaPv_ | _ZdaPv_St11align_val_t
  | _ZdlPv | _ZdlPvSt11align_val_t | _ZdlPvSt11align_val_tRKSt9nothrow_t | _ZdlPvRKSt9nothrow_t
  | _ZdaPv | _ZdaPvSt11align_val_t | _ZdaPvSt11align_val_tRKSt9nothrow_t | _ZdaPvRKSt9nothrow_t => DO_HOOK_RELEASE ptr
  end.

(** * Programs *)

(** A call of a hooked function, with the result of the original. *)
Inductive call :=
| Malloc (byte_count p : Z)
| Calloc (item_count item_size p : Z)
| Realloc (ptr byte_count p : Z)
| Memalign (byte_count p : Z)
| Posix_memalign (size p ret : Z)
| Free (ptr : Z)
| New (op : new_operator) (size p : Z)
| Delete (op : delete_operator) (ptr : Z)
| Mmap (size p : Z)
| Mmap64 (size p : Z)
| Mremap (old_addr new_size p : Z)
| Munmap (addr : Z).

Definition h_call (st : site) (c : call) : M hook unit :=
  match c with
  | Malloc n p => _ ← h_malloc st n p; mret tt
  | Calloc n m p => _ ← h_calloc st n m p; mret tt
  | Realloc ptr n p => _ ← h_realloc st ptr n p; mret tt
  | Memalign n p => _ ← h_memalign st n p; mret tt
  | Posix_memalign n p ret => _ ← h_posix_memalign st n p ret; mret tt
  | Free ptr => h_free ptr
  | New op n p => _ ← h_new op st n p; mret tt
  | Delete op ptr => h_delete op ptr
  | Mmap n p => _ ← h_mmap st n p; mret tt
  | Mmap64 n p => _ ← h_mmap64 st n p; mret tt
  | Mremap old n p => _ ← h_mremap st old n p; mret tt
  | Munmap addr => _ ← h_munmap addr 0; mret tt
  end.

(** The program calls a function, or the thread of the hook makes a turn. *)
Inductive step := Call (st : site) (c : call) | Turn.

Definition perform (x : step) : M hook unit := match x with Call st c => h_call st c | Turn => worker_step end.

Fixpoint perform_all (l : list step) : M hook unit := match l with [] => mret tt | x :: l => perform x;; perform_all l end.

(** * The heap *)

(** Blocks by their addresses: the size, and whether [mmap] made it. *)
Notation heap := (gmap Z (Z * bool)).

Definition obtain (h : heap) (p size : Z) (mm : bool) : heap := if p =? 0 then h else <[p := (size, mm)]> h.

(** A function that returns memory returns a null pointer or a block of its own. *)
Definition obtains (h : heap) (p : Z) : Prop := p = 0 \/ (0 < p < 2 ^ payload_bits /\ h !! p = None).

Definition owned (h : heap) (p : Z) (mm : bool) : Prop := exists n, h !! p = Some (n, mm).

Definition allowed (h : heap) (c : call) : Prop :=
  match c with
  | Malloc n p | Memalign n p | New _ n p => 0 <= n /\ obtains h p
  | Calloc n m p => (p <> 0 -> 0 <= n * m < 2 ^ word_bits) /\ obtains h p
  | Realloc ptr n p =>
      0 <= n /\ if ptr =? 0 then obtains h p else owned h ptr false /\ (if n =? 0 then p = 0 else p <> 0 /\ obtains (delete ptr h) p)
  | Posix_memalign n p ret => 0 <= n /\ (ret = 0 -> p <> 0 /\ obtains h p)
  | Free ptr | Delete _ ptr => ptr = 0 \/ owned h ptr false
  | Mmap n p | Mmap64 n p => 0 <= n /\ (p = MAP_FAILED \/ p <> 0 /\ obtains h p)
  | Mremap old n p => 0 <= n /\ (p = MAP_FAILED \/ owned h old true /\ p <> 0 /\ obtains (delete old h) p)
  | Munmap addr => owned h addr true
  end.

Definition effect (h : heap) (c : call) : heap :=
  match c with
  | Malloc n p | Memalign n p | New _ n p => obtain h p n false
  | Calloc n m p => obtain h p (n * m) false
  | Realloc ptr n p => if ptr =? 0 then obtain h p n false else if n =? 0 then delete ptr h else obtain (delete ptr h) p n false
  | Posix_memalign n p ret => if ret =? 0 then obtain h p n false else h
  | Free ptr | Delete _ ptr => delete ptr h
  | Mmap n p | Mmap64 n p => if p =? MAP_FAILED then h else obtain h p n true
  | Mremap old n p => if p =? MAP_FAILED then h else obtain (delete old h) p n true
  | Munmap addr => delete addr h
  end.

Fixpoint permitted (h : heap) (l : list step) : Prop :=
  match l with
  | [] => True
  | Call _ c :: l => allowed h c /\ permitted (effect h c) l
  | Turn :: l => permitted h l
  end.

Definition heap_step (h : heap) (x : step) : heap := match x with Call _ c => effect h c | Turn => h end.
Definition heap_after (l : list step) : heap := foldl heap_step ∅ l.

(** * Hooks are calls of the entry points *)

Definition acquire (st : site) (p n : Z) (t : message_type) : action := Acquire (unwound st) (caller st) p n t.

Definition actions_of (x : step) : list action :=
  match x with
  | Call st (Malloc n p) | Call st (Memalign n p) | Call st (New _ n p) => [acquire st p n message_type_allocation]
  | Call st (Calloc n m p) => [acquire st p (uword (n * m)) message_type_allocation]
  | Call st (Realloc ptr n p) =>
      if ptr =? 0 then [acquire st p n message_type_allocation] else if n =? 0 then [Release ptr false] else [Release ptr false; acquire st p n message_type_allocation]
  | Call st (Posix_memalign n p ret) => if ret =? 0 then [acquire st p n message_type_allocation] else []
  | Call st (Free ptr) | Call st (Delete _ ptr) => [Release ptr false]
  | Call st (Mmap n p) | Call st (Mmap64 n p) => if p =? MAP_FAILED then [] else [acquire st p n message_type_mmap]
  | Call st (Mremap old n p) => if p =? MAP_FAILED then [] else [Release old true; acquire st p n message_type_mmap]
  | Call st (Munmap addr) => [Release addr true]
  | Turn => [Work]
  end.

Definition schedule (l : list step) : list action := flat_map actions_of l.

Lemma bind_tt (m : M hook unit) s : (m;; mret tt) s = m s.
Proof. unfold mbind, M_bind. by destruct (m s) as [[[]| | | |] ?]. Qed.

Lemma bind_bind {B C} (m : M hook unit) (b : B) (k : B -> M hook C) s : ((m;; mret b) ≫= k) s = (m;; k b) s.
Proof. unfold mbind, M_bind. by destruct (m s) as [[[]| | | |] ?]. Qed.

Lemma bind_two (m1 m2 : M hook unit) (b : Z) s : (_ ← (m1;; m2;; mret b); mret tt) s = (m1;; m2;; mret tt) s.
Proof. unfold mbind, M_bind. destruct (m1 s) as [[[]| | | |] s1]; try done. by destruct (m2 s1) as [[[]| | | |] ?]. Qed.

Lemma perform_actions x s : perform x s = run (actions_of x) s.
Proof.
  destruct x as [st c|]; [|symmetry; apply bind_tt].
  destruct c as [| |ptr n p| |n p ret|ptr|[]|[]|n p|n p|old n p|addr]; cbn [perform h_call actions_of];
    try (symmetry; apply bind_tt); unfold h_malloc, h_calloc, h_memalign, h_new, h_munmap; try (by etransitivity; [apply bind_bind|]).
  - unfold h_realloc. destruct (ptr =? 0); [by etransitivity; [apply bind_bind|]|]. destruct (n =? 0); [by etransitivity; [apply bind_bind|]|apply bind_two].
  - unfold h_posix_memalign. destruct (ret =? 0); [by etransitivity; [apply bind_bind|]|done].
  - unfold h_mmap. destruct (p =? MAP_FAILED); [done|by etransitivity; [apply bind_bind|]].
  - unfold h_mmap64. destruct (p =? MAP_FAILED); [done|by etransitivity; [apply bind_bind|]].
  - unfold h_mremap. destruct (p =? MAP_FAILED); [done|apply bind_two].
Qed.

Lemma run_app l1 l2 s : run (l1 ++ l2) s = (run l1;; run l2) s.
Proof.
  revert s. induction l1 as [|a l1 IH]; intros s; [done|]. cbn [app run]. unfold mbind, M_bind in *. destruct (act a s) as [[[]| | | |] s1]; [apply IH|done..].
Qed.

Lemma perform_schedule l s : perform_all l s = run (schedule l) s.
Proof.
  revert s. induction l as [|x l IH]; intros s; [done|]. cbn [perform_all schedule flat_map]. rewrite run_app. unfold mbind, M_bind. rewrite perform_actions.
  destruct (run (actions_of x) s) as [[[]| | | |] s1]; [apply IH|done..].
Qed.
(** * The heap and the live allocations *)

Section Agree.
Context (o : settings).

Notation lives := (gmap Z (allocation_message * bool)).

(** The size and the kind of what is live. *)
Definition sizes (live : lives) : heap := (fun e => (am_size e.1, e.2)) <$> live.

Definition addressable (h : heap) : Prop := forall p, is_Some (h !! p) -> 0 < p < 2 ^ payload_bits.

Lemma sizes_insert live p am mm : sizes (<[p := (am, mm)]> live) = <[p := (am_size am, mm)]> (sizes live).
Proof. unfold sizes. by rewrite fmap_insert. Qed.

Lemma sizes_none live p : sizes live !! p = None -> live !! p = None.
Proof. unfold sizes. rewrite lookup_fmap. by destruct (live !! p). Qed.

Lemma obtains_addressable h p n mm : addressable h -> obtains h p -> addressable (obtain h p n mm).
Proof.
  intros Ha Ho. unfold obtain. destruct (Z.eqb_spec p 0) as [|Hp]; [done|]. destruct Ho as [|[Hr _]]; [done|]. intros q Hq. destruct (decide (p = q)) as [<-|Hne]; [done|].
  apply Ha. by rewrite lookup_insert_ne in Hq.
Qed.

Lemma delete_addressable h p : addressable h -> addressable (delete p h).
Proof. intros Ha q [x Hx]. apply Ha. rewrite lookup_delete_Some in Hx. destruct Hx. by eexists. Qed.

(** What the entry points do is what happens to the heap. *)
Lemma acquire_agrees st h live p n t : sizes live = h -> addressable h -> 0 <= n -> (t = message_type_allocation \/ t = message_type_mmap) -> obtains h p ->
  lawful_action live (acquire st p n t) /\ sizes (step_live o live (acquire st p n t)) = obtain h p n (bool_decide (t = message_type_mmap)) /\ addressable (obtain h p n (bool_decide (t = message_type_mmap))).
Proof.
  intros Es Ha Hn Ht Ho. split_and!; [| |by apply obtains_addressable].
  - split; [by destruct Ht; subst|]. split; [done|]. intros _. apply sizes_none. rewrite Es. destruct Ho as [-> |[_ ?]]; [|done]. apply eq_None_not_Some. intros Hs. apply Ha in Hs. lia.
  - unfold step_live, obtain. cbn [acquire event_of]. destruct (p =? 0); [done|]. simpl. by rewrite sizes_insert, Es.
Qed.

Lemma release_agrees h live p mu : sizes live = h -> addressable h -> (p = 0 \/ is_Some (h !! p)) ->
  lawful_action live (Release p mu) /\ sizes (step_live o live (Release p mu)) = delete p h /\ addressable (delete p h).
Proof.
  intros Es Ha Hp. split_and!; [| |by apply delete_addressable].
  - destruct Hp as [-> |Hp]; [|apply Ha in Hp; simpl; lia]. split; [done|]. apply Z.pow_pos_nonneg; [lia|]. unfold payload_bits. pose proof word_bits_ge. destruct (_ =? _); lia.
  - unfold step_live. cbn [event_of]. destruct (Z.eqb_spec p 0) as [->|_]; simpl; [|unfold sizes in *; by rewrite fmap_delete, Es].
    rewrite Es. symmetry. apply delete_id. apply eq_None_not_Some. intros Hs. apply Ha in Hs. lia.
Qed.

Lemma owned_some h p mm : owned h p mm -> is_Some (h !! p).
Proof. intros [n ->]. by eexists. Qed.

(** Two entry points in a row. *)
Lemma exchange_agrees st h live old p n mu t : sizes live = h -> addressable h -> owned h old mu -> 0 <= n -> (t = message_type_allocation \/ t = message_type_mmap) -> obtains (delete old h) p ->
  lawful o live [Release old mu; acquire st p n t] /\ sizes (foldl (step_live o) live [Release old mu; acquire st p n t]) = obtain (delete old h) p n (bool_decide (t = message_type_mmap))
  /\ addressable (obtain (delete old h) p n (bool_decide (t = message_type_mmap))).
Proof.
  intros Es Ha Ho Hn Ht Hp. destruct (release_agrees h live old mu Es Ha) as (L1 & S1 & A1); [right; by eapply owned_some|].
  destruct (acquire_agrees st _ _ p n t S1 A1 Hn Ht Hp) as (L2 & S2 & A2). cbn [lawful foldl]. done.
Qed.

Definition agrees (x : step) : Prop := forall h live, sizes live = h -> addressable h -> (match x with Call _ c => allowed h c | Turn => True end) ->
  lawful o live (actions_of x) /\ sizes (foldl (step_live o) live (actions_of x)) = heap_step h x /\ addressable (heap_step h x).

Lemma acquire_one st h live p n t : sizes live = h -> addressable h -> 0 <= n -> (t = message_type_allocation \/ t = message_type_mmap) -> obtains h p ->
  lawful o live [acquire st p n t] /\ sizes (foldl (step_live o) live [acquire st p n t]) = obtain h p n (bool_decide (t = message_type_mmap)) /\ addressable (obtain h p n (bool_decide (t = message_type_mmap))).
Proof. intros. cbn [lawful foldl]. edestruct acquire_agrees as (? & ? & ?); [done..|]. done. Qed.

Lemma release_one h live p mu : sizes live = h -> addressable h -> (p = 0 \/ is_Some (h !! p)) ->
  lawful o live [Release p mu] /\ sizes (foldl (step_live o) live [Release p mu]) = delete p h /\ addressable (delete p h).
Proof. intros. cbn [lawful foldl]. edestruct release_agrees as (? & ? & ?); [done..|]. done. Qed.

Lemma step_agrees x : agrees x.
Proof.
  intros h live Es Ha Hx. destruct x as [st c|]; [|done]. destruct c as [n p|n m p|ptr n p|n p|n p ret|ptr|op n p|op ptr|n p|n p|old n p|addr]; cbn [actions_of heap_step effect]; simpl in Hx.
  - apply acquire_one; tauto.
  - destruct Hx as [Hm Ho]. destruct (Z.eq_dec p 0) as [->|Hp].
    + destruct (acquire_one st h live 0 (uword (n * m)) message_type_allocation Es Ha) as (L & S & Ad); [apply uword_range|by left|by left|done].
    + specialize (Hm Hp). rewrite uword_small by done. apply acquire_one; [done|done|lia|by left|done].
  - destruct Hx as [Hn Hx]. destruct (ptr =? 0); [apply acquire_one; tauto|]. destruct Hx as [Ho Hp]. destruct (n =? 0); [apply release_one; [done|done|right; by eapply owned_some]|].
    destruct Hp as [_ Hp]. apply exchange_agrees; tauto.
  - apply acquire_one; tauto.
  - destruct Hx as [Hn Hx]. destruct (Z.eqb_spec ret 0) as [Er|]; [|done]. destruct (Hx Er). apply acquire_one; tauto.
  - apply release_one; [done|done|]. destruct Hx as [|Ho]; [by left|right; by eapply owned_some].
  - apply acquire_one; tauto.
  - apply release_one; [done|done|]. destruct Hx as [|Ho]; [by left|right; by eapply owned_some].
  - destruct Hx as [Hn Hx]. destruct (Z.eqb_spec p MAP_FAILED); [done|]. apply acquire_one; tauto.
  - destruct Hx as [Hn Hx]. destruct (Z.eqb_spec p MAP_FAILED); [done|]. apply acquire_one; tauto.
  - destruct Hx as [Hn Hx]. destruct (Z.eqb_spec p MAP_FAILED); [done|]. destruct Hx as [|(Ho & _ & Hp)]; [done|]. apply exchange_agrees; tauto.
  - apply release_one; [done|done|right; by eapply owned_some].
Qed.

Lemma schedule_agrees l : forall h live, sizes live = h -> addressable h -> permitted h l ->
  lawful o live (schedule l) /\ sizes (foldl (step_live o) live (schedule l)) = foldl heap_step h l.
Proof.
  induction l as [|x l IH]; intros h live Es Ha Hl; [done|]. cbn [schedule flat_map foldl]. rewrite lawful_app, foldl_app.
  destruct (step_agrees x h live Es Ha) as (L1 & S1 & A1); [destruct x; [by destruct Hl|done]|]. destruct (IH (heap_step h x) _ S1 A1) as [L2 S2]; [destruct x; [by destruct Hl|done]|]. done.
Qed.
End Agree.

(** * The whole hook *)

(** The hook after [memory_hook_init]; [answers] says which requests of the queues for memory are
    granted. *)
Definition started (o : settings) (answers : list bool) : hook := (memory_hook_init (new_hook o answers (new_container [] [] []))).2.

Definition trace (o : settings) (l : list step) : list event := events o (schedule l).

Lemma started_balanced o answers c : 0 <= c ->
  SplayFacts.fits (V := ptr_meta) (c + 1 + PTR_SPLAY_MAP_CAPACITY) -> SplayFacts.fits (V := stack_meta) (c + 1 + STACK_SPLAY_MAP_CAPACITY) ->
  balanced c o (started o answers) (replicate slots []) [] ∅ 0 0.
Proof.
  intros Hc F1 F2. assert (forall i : nat, replicate slots (@nil item) !!! i = []) as Hr.
  { intros i. destruct (decide (i < slots)%nat) as [Hi|Hi]; [by apply lookup_total_replicate_2|]. rewrite list_lookup_total_alt. by rewrite lookup_ge_None_2 by (rewrite length_replicate; lia). }
  assert (forall i x, containers_ (started o answers) !! i = Some x -> x = None) as Hn by (intros i x Hx; by apply lookup_replicate in Hx as [-> _]).
  constructor; [|done|done|].
  - constructor; [done|by rewrite length_replicate|intros i q Hq; by apply Hn in Hq|intros i _; apply Hr|intros i j q Hq; by apply Hn in Hq| |].
    + intros i. rewrite Hr. constructor.
    + split; [done|]. by intros q.
  - exists ∅, 0, 0. split; [by apply new_tracks|]. split; [done|]. assert (forall f n, f [] = 0 -> tally f (replicate n (@nil item)) = 0) as Ht.
    { intros f n Hf. induction n as [|n IH]; simpl; [done|]. rewrite Hf, IH. done. }
    rewrite !Ht by done. split; [done|]. split; [done|]. intros _ p. unfold settled, pending. rewrite Hr, lookup_empty. done.
Qed.

End Hooks.

#[local] Existing Instance arch_aarch64.

(** A program that moves a block, frees one before the thread sees it, and maps memory; the two
    first blocks share a queue. *)
Definition demo_options : settings := MkSettings true 0 0 0.

Definition demo_site (n : Z) : site := MkSite n [MkFrame 0 n; MkFrame 0 (n + 4)].

Definition demo_program : list step :=
  [Call (demo_site 100) (Malloc 16 0x1000); Call (demo_site 104) (Calloc 4 8 0x1100); Turn; Turn; Call (demo_site 108) (Realloc 0x1000 64 0x1010);
   Call (demo_site 112) (New _Znw_ 24 0x2000); Call (demo_site 112) (Delete _ZdlPv 0x2000); Turn; Call (demo_site 116) (Mmap 4096 0x7f0000); Call (demo_site 120) (Mmap 4096 MAP_FAILED);
   Call (demo_site 100) (Free 0x1100); Call (demo_site 100) (Malloc 8 0); Turn].

End MemoryHooks.
