(* ===== verification/HprofReader.v ===== *)
(** Reading a heap dump (traceharbor-hprof-analyzer, lib/reader and lib/err).

    The dump is mapped into memory; [file] lists its bytes, and a pointer into it is an offset.  A
    [Reader] walks over a part of the file.  [pub_fatal] ends the process ([Aborted]); an access
    outside the file is [Undef], whatever the reader thinks of its bounds. *)
From S2P Require Import Prelude Arch Machine.

Module HprofReader.

(** [pub_fatal]: the message goes to the listener and the process exits. *)
Definition pub_fatal {S B} : M S B := raise Aborted.

(** [source] is [buffer_]. *)
Record Reader := MkReader { source : Z; buffer_size_ : Z; cursor_ : Z }.

Section Reader.
Context `{A : Arch} (file : list Z).

(** The [len] bytes from [off] on. *)
Definition slice (off len : Z) : result (list Z) :=
  if (0 <=? off) && (0 <=? len) && (off + len <=? Z.of_nat (length file)) then Ok (take (Z.to_nat len) (drop (Z.to_nat off) file)) else Undef.

Definition put_cursor (c : Z) : M Reader unit := modify (fun r => MkReader (source r) (buffer_size_ r) c).

(** The constructor. *)
Definition new_reader (source size : Z) : Reader := MkReader source size 0.

Definition byte_at : M Reader Z :=
  reads (fun r => if 0 <=? source r + cursor_ r then match file !! Z.to_nat (source r + cursor_ r) with Some b => Ok b | None => Undef end else Undef).

Fixpoint read_loop (size : nat) (ret : Z) : M Reader Z :=
  match size with
  | O => mret ret
  | S size =>
      r ← gets (fun r => r);
      if buffer_size_ r <=? cursor_ r then pub_fatal else
      b ← byte_at;
      put_cursor (uword (cursor_ r + 1));;
      read_loop size (Z.lor (u64 (Z.shiftl ret 8)) b)
  end.

Definition Read (size : Z) : M Reader Z := read_loop (Z.to_nat size) 0.

Definition Skip (size : Z) : M Reader unit :=
  c ← gets cursor_;
  put_cursor (uword (c + size));;
  r ← gets (fun r => r);
  if buffer_size_ r <? cursor_ r then pub_fatal else mret tt.

Definition ResetCursor : M Reader unit := put_cursor 0.

Definition Extract (size : Z) : M Reader Z :=
  ret ← gets (fun r => source r + cursor_ r);
  Skip size;;
  mret ret.

Definition ReadU1 : M Reader Z := v ← Read 1; mret (u8 v).
Definition ReadU2 : M Reader Z := v ← Read 2; mret (u16 v).
Definition ReadU4 : M Reader Z := v ← Read 4; mret (u32 v).
Definition ReadU8 : M Reader Z := v ← Read 8; mret (u64 v).
Definition SkipU1 : M Reader unit := Skip 1.
Definition SkipU2 : M Reader unit := Skip 2.
Definition SkipU4 : M Reader unit := Skip 4.
Definition SkipU8 : M Reader unit := Skip 8.

(** The bits of the value; the cast to [T] is left to the caller. *)
Definition ReadTyped (size : Z) : M Reader Z :=
  if size =? 1 then ReadU1 else if size =? 2 then ReadU2 else if size =? 4 then ReadU4 else if size =? 8 then ReadU8 else raise Aborted.

Definition ReadString (len : Z) : M Reader (list Z) :=
  content ← Extract len;
  reads (fun _ => slice content len).

(** Every turn takes a byte. *)
Fixpoint text_loop (fuel : nat) (stream : list Z) : M Reader (list Z) :=
  match fuel with
  | O => raise NoFuel
  | S fuel => current ← ReadU1; if current =? 0 then mret stream else text_loop fuel (stream ++ [current])
  end.

Definition ReadNullTerminatedString : M Reader (list Z) := text_loop (S (length file)) [].
End Reader.
End HprofReader.
