(* ===== verification/HprofHeap.v ===== *)
(** The heap of a dump (traceharbor-hprof-analyzer, lib/heap).

    [Heap] keeps what the parser found, in ordered maps keyed by identifiers ([std::map]); where the
    code runs over such a map, it does so in the order of the keys ([entries]).  Strings, the data of
    instances and primitive arrays stay in the file: the heap holds their offsets and sizes.  The
    results of the functions that search by name are remembered. *)
From stdpp Require Import sorting.
From S2P Require Import Prelude Arch Machine Libc HprofReader.
#[local] Open Scope Z_scope.

Module HprofHeap.
Import HprofReader.

(** * Types *)

Inductive value_type_t := kObject | kBoolean | kChar | kFloat | kDouble | kByte | kShort | kInt | kLong.

#[export] Instance value_type_eq_dec : EqDecision value_type_t.
Proof. solve_decision. Defined.

Definition value_type_code (t : value_type_t) : Z :=
  match t with kObject => 2 | kBoolean => 4 | kChar => 5 | kFloat => 6 | kDouble => 7 | kByte => 8 | kShort => 9 | kInt => 10 | kLong => 11 end.

Definition get_value_type_size (t : value_type_t) : Z :=
  match t with kObject => 0 | kBoolean => 1 | kChar => 2 | kFloat => 4 | kDouble => 8 | kByte => 1 | kShort => 2 | kInt => 4 | kLong => 8 end.

Definition valid_value_types : list value_type_t := [kObject; kBoolean; kChar; kFloat; kDouble; kByte; kShort; kInt; kLong].

Definition value_type_cast {S} (type : Z) : M S value_type_t :=
  match List.find (fun t => value_type_code t =? type) valid_value_types with Some t => mret t | None => pub_fatal end.

Inductive gc_root_type_t := kRootJniGlobal | kRootJniLocal | kRootJavaFrame | kRootNativeStack | kRootStickyClass | kRootThreadBlock | kRootMonitorUsed
| kRootThreadObject | kRootInternedString | kRootFinalizing | kRootDebugger | kRootReferenceCleanup | kRootVMInternal | kRootJniMonitor | kRootUnknown | kRootUnreachable.

#[export] Instance gc_root_type_eq_dec : EqDecision gc_root_type_t.
Proof. solve_decision. Defined.

Inductive object_type_t := kClass | kObjectArray | kPrimitiveArray | kInstance.

Inductive reference_type_t := kStaticField | kInstanceField | kArrayElement.

#[export] Instance reference_type_eq_dec : EqDecision reference_type_t.
Proof. solve_decision. Defined.

Record reference_t := MkReference { reference_type : reference_type_t; index : Z; field_name_id : Z }.

Record field_t := MkField { name_id : Z; type : value_type_t }.

(** The data of an instance, as an offset into the file. *)
Record HeapFieldsData := MkFieldsData { instance_id_ : Z; class_id_ : Z; fields_data_size_ : Z; data_at : Z }.

Record HeapPrimitiveData := MkPrimitive { primitive_type_ : value_type_t; primitive_data_ : Z }.

Record HeapPrimitiveArrayData := MkArrayData { array_type_ : value_type_t; array_data_size_ : Z; array_data_ : Z }.

(** A string is the offset and the length of its bytes; the last two components are the entries
    of the heap in [find_class_by_name_memorized] and [find_string_id_memorized]. *)
Record Heap := MkHeap {
  id_size_ : Z;
  class_names_ : gmap Z Z;
  inheritance_ : gmap Z Z;
  instance_fields_ : gmap Z (list field_t);
  instance_types_ : gmap Z object_type_t;
  instance_classes_ : gmap Z Z;
  gc_roots_ : list Z;
  gc_root_types_ : gmap Z gc_root_type_t;
  thread_serial_numbers_ : gmap Z Z;
  thread_object_ids_ : gmap Z Z;
  strings_ : gmap Z (Z * Z);
  fields_data_ : gmap Z HeapFieldsData;
  primitives_ : gmap Z (gmap Z HeapPrimitiveData);
  primitive_arrays_ : gmap Z HeapPrimitiveArrayData;
  references_ : gmap Z (gmap Z reference_t);
  excluded_references_ : gmap Z (gmap Z reference_t);
  class_memo : gmap (list Z) Z;
  string_memo : gmap (list Z) Z
}.

Definition empty_heap : Heap := MkHeap 0 ∅ ∅ ∅ ∅ ∅ [] ∅ ∅ ∅ ∅ ∅ ∅ ∅ ∅ ∅ ∅ ∅.

Definition set_id_size (v : Z) (h : Heap) : Heap :=
  MkHeap v (class_names_ h) (inheritance_ h) (instance_fields_ h) (instance_types_ h) (instance_classes_ h) (gc_roots_ h) (gc_root_types_ h) (thread_serial_numbers_ h) (thread_object_ids_ h) (strings_ h) (fields_data_ h) (primitives_ h) (primitive_arrays_ h) (references_ h) (excluded_references_ h) (class_memo h) (string_memo h).
Definition set_class_names (v : gmap Z Z) (h : Heap) : Heap :=
  MkHeap (id_size_ h) v (inheritance_ h) (instance_fields_ h) (instance_types_ h) (instance_classes_ h) (gc_roots_ h) (gc_root_types_ h) (thread_serial_numbers_ h) (thread_object_ids_ h) (strings_ h) (fields_data_ h) (primitives_ h) (primitive_arrays_ h) (references_ h) (excluded_references_ h) (class_memo h) (string_memo h).
Definition set_inheritance (v : gmap Z Z) (h : Heap) : Heap :=
  MkHeap (id_size_ h) (class_names_ h) v (instance_fields_ h) (instance_types_ h) (instance_classes_ h) (gc_roots_ h) (gc_root_types_ h) (thread_serial_numbers_ h) (thread_object_ids_ h) (strings_ h) (fields_data_ h) (primitives_ h) (primitive_arrays_ h) (references_ h) (excluded_references_ h) (class_memo h) (string_memo h).
Definition set_instance_fields (v : gmap Z (list field_t)) (h : Heap) : Heap :=
  MkHeap (id_size_ h) (class_names_ h) (inheritance_ h) v (instance_types_ h) (instance_classes_ h) (gc_roots_ h) (gc_root_types_ h) (thread_serial_numbers_ h) (thread_object_ids_ h) (strings_ h) (fields_data_ h) (primitives_ h) (primitive_arrays_ h) (references_ h) (excluded_references_ h) (class_memo h) (string_memo h).
Definition set_instance_types (v : gmap Z object_type_t) (h : Heap) : Heap :=
  MkHeap (id_size_ h) (class_names_ h) (inheritance_ h) (instance_fields_ h) v (instance_classes_ h) (gc_roots_ h) (gc_root_types_ h) (thread_serial_numbers_ h) (thread_object_ids_ h) (strings_ h) (fields_data_ h) (primitives_ h) (primitive_arrays_ h) (references_ h) (excluded_references_ h) (class_memo h) (string_memo h).
Definition set_instance_classes (v : gmap Z Z) (h : Heap) : Heap :=
  MkHeap (id_size_ h) (class_names_ h) (inheritance_ h) (instance_fields_ h) (instance_types_ h) v (gc_roots_ h) (gc_root_types_ h) (thread_serial_numbers_ h) (thread_object_ids_ h) (strings_ h) (fields_data_ h) (primitives_ h) (primitive_arrays_ h) (references_ h) (excluded_references_ h) (class_memo h) (string_memo h).
Definition set_gc_roots (v : list Z) (h : Heap) : Heap :=
  MkHeap (id_size_ h) (class_names_ h) (inheritance_ h) (instance_fields_ h) (instance_types_ h) (instance_classes_ h) v (gc_root_types_ h) (thread_serial_numbers_ h) (thread_object_ids_ h) (strings_ h) (fields_data_ h) (primitives_ h) (primitive_arrays_ h) (references_ h) (excluded_references_ h) (class_memo h) (string_memo h).
Definition set_gc_root_types (v : gmap Z gc_root_type_t) (h : Heap) : Heap :=
  MkHeap (id_size_ h) (class_names_ h) (inheritance_ h) (instance_fields_ h) (instance_types_ h) (instance_classes_ h) (gc_roots_ h) v (thread_serial_numbers_ h) (thread_object_ids_ h) (strings_ h) (fields_data_ h) (primitives_ h) (primitive_arrays_ h) (references_ h) (excluded_references_ h) (class_memo h) (string_memo h).
Definition set_thread_serial_numbers (v : gmap Z Z) (h : Heap) : Heap :=
  MkHeap (id_size_ h) (class_names_ h) (inheritance_ h) (instance_fields_ h) (instance_types_ h) (instance_classes_ h) (gc_roots_ h) (gc_root_types_ h) v (thread_object_ids_ h) (strings_ h) (fields_data_ h) (primitives_ h) (primitive_arrays_ h) (references_ h) (excluded_references_ h) (class_memo h) (string_memo h).
Definition set_thread_object_ids (v : gmap Z Z) (h : Heap) : Heap :=
  MkHeap (id_size_ h) (class_names_ h) (inheritance_ h) (instance_fields_ h) (instance_types_ h) (instance_classes_ h) (gc_roots_ h) (gc_root_types_ h) (thread_serial_numbers_ h) v (strings_ h) (fields_data_ h) (primitives_ h) (primitive_arrays_ h) (references_ h) (excluded_references_ h) (class_memo h) (string_memo h).
Definition set_strings (v : gmap Z (Z * Z)) (h : Heap) : Heap :=
  MkHeap (id_size_ h) (class_names_ h) (inheritance_ h) (instance_fields_ h) (instance_types_ h) (instance_classes_ h) (gc_roots_ h) (gc_root_types_ h) (thread_serial_numbers_ h) (thread_object_ids_ h) v (fields_data_ h) (primitives_ h) (primitive_arrays_ h) (references_ h) (excluded_references_ h) (class_memo h) (string_memo h).
Definition set_fields_data (v : gmap Z HeapFieldsData) (h : Heap) : Heap :=
  MkHeap (id_size_ h) (class_names_ h) (inheritance_ h) (instance_fields_ h) (instance_types_ h) (instance_classes_ h) (gc_roots_ h) (gc_root_types_ h) (thread_serial_numbers_ h) (thread_object_ids_ h) (strings_ h) v (primitives_ h) (primitive_arrays_ h) (references_ h) (excluded_references_ h) (class_memo h) (string_memo h).
Definition set_primitives (v : gmap Z (gmap Z HeapPrimitiveData)) (h : Heap) : Heap :=
  MkHeap (id_size_ h) (class_names_ h) (inheritance_ h) (instance_fields_ h) (instance_types_ h) (instance_classes_ h) (gc_roots_ h) (gc_root_types_ h) (thread_serial_numbers_ h) (thread_object_ids_ h) (strings_ h) (fields_data_ h) v (primitive_arrays_ h) (references_ h) (excluded_references_ h) (class_memo h) (string_memo h).
Definition set_primitive_arrays (v : gmap Z HeapPrimitiveArrayData) (h : Heap) : Heap :=
  MkHeap (id_size_ h) (class_names_ h) (inheritance_ h) (instance_fields_ h) (instance_types_ h) (instance_classes_ h) (gc_roots_ h) (gc_root_types_ h) (thread_serial_numbers_ h) (thread_object_ids_ h) (strings_ h) (fields_data_ h) (primitives_ h) v (references_ h) (excluded_references_ h) (class_memo h) (string_memo h).
Definition set_references (v : gmap Z (gmap Z reference_t)) (h : Heap) : Heap :=
  MkHeap (id_size_ h) (class_names_ h) (inheritance_ h) (instance_fields_ h) (instance_types_ h) (instance_classes_ h) (gc_roots_ h) (gc_root_types_ h) (thread_serial_numbers_ h) (thread_object_ids_ h) (strings_ h) (fields_data_ h) (primitives_ h) (primitive_arrays_ h) v (excluded_references_ h) (class_memo h) (string_memo h).
Definition set_excluded_references (v : gmap Z (gmap Z reference_t)) (h : Heap) : Heap :=
  MkHeap (id_size_ h) (class_names_ h) (inheritance_ h) (instance_fields_ h) (instance_types_ h) (instance_classes_ h) (gc_roots_ h) (gc_root_types_ h) (thread_serial_numbers_ h) (thread_object_ids_ h) (strings_ h) (fields_data_ h) (primitives_ h) (primitive_arrays_ h) (references_ h) v (class_memo h) (string_memo h).
Definition set_class_memo (v : gmap (list Z) Z) (h : Heap) : Heap :=
  MkHeap (id_size_ h) (class_names_ h) (inheritance_ h) (instance_fields_ h) (instance_types_ h) (instance_classes_ h) (gc_roots_ h) (gc_root_types_ h) (thread_serial_numbers_ h) (thread_object_ids_ h) (strings_ h) (fields_data_ h) (primitives_ h) (primitive_arrays_ h) (references_ h) (excluded_references_ h) v (string_memo h).
Definition set_string_memo (v : gmap (list Z) Z) (h : Heap) : Heap :=
  MkHeap (id_size_ h) (class_names_ h) (inheritance_ h) (instance_fields_ h) (instance_types_ h) (instance_classes_ h) (gc_roots_ h) (gc_root_types_ h) (thread_serial_numbers_ h) (thread_object_ids_ h) (strings_ h) (fields_data_ h) (primitives_ h) (primitive_arrays_ h) (references_ h) (excluded_references_ h) (class_memo h) v.

Definition key_le {V} (a b : Z * V) : Prop := a.1 <= b.1.

#[export] Instance key_le_dec {V} (a b : Z * V) : Decision (key_le a b).
Proof. unfold key_le. apply _. Defined.

(** The elements of an ordered map. *)
Definition entries {V} (m : gmap Z V) : list (Z * V) := merge_sort key_le (map_to_list m).

Section Heap.
Context `{A : Arch} (file : list Z).

(** * Identifiers *)

Definition InitializeIdSize (id_size : Z) : M Heap unit :=
  if id_size =? 0 then pub_fatal else
  old ← gets id_size_;
  if negb (old =? 0) then pub_fatal else modify (set_id_size id_size).

Definition GetIdSize : M Heap Z := n ← gets id_size_; if n =? 0 then pub_fatal else mret n.

(** * Strings *)

Definition AddString (string_id data length : Z) : M Heap unit := modify (fun h => set_strings (<[string_id := (data, length)]> (strings_ h)) h).

Definition GetString (string_id : Z) : M Heap (option (list Z)) :=
  reads (fun h => match strings_ h !! string_id with
    | Some (data, len) => match slice file data len with Ok s => Ok (Some s) | _ => Undef end
    | None => Ok None
    end).

(** [std::find_if] over the strings. *)
Fixpoint find_string (l : list (Z * (Z * Z))) (value : list Z) : M Heap Z :=
  match l with
  | [] => mret 0
  | (id, _) :: l => s ← GetString id; if bool_decide (s = Some value) then mret id else find_string l value
  end.

Definition FindStringIdInternal (value : list Z) : M Heap Z := h ← gets (fun h => h); find_string (entries (strings_ h)) value.

Definition some_id (id : Z) : option Z := if id =? 0 then None else Some id.

Definition FindStringId (value : list Z) : M Heap (option Z) :=
  memo ← gets (fun h => string_memo h !! value);
  match memo with
  | Some id => mret (some_id id)
  | None =>
      string_id ← FindStringIdInternal value;
      modify (fun h => set_string_memo (<[value := string_id]> (string_memo h)) h);;
      mret (some_id string_id)
  end.

(** * Classes *)

Definition AddClassNameRecord (class_id class_name_id : Z) : M Heap unit := modify (fun h => set_class_names (<[class_id := class_name_id]> (class_names_ h)) h).

Definition GetClassNameId (class_id : Z) : M Heap (option Z) := gets (fun h => class_names_ h !! class_id).

Definition FindClassByNameInternal (class_name : list Z) : M Heap Z :=
  id ← FindStringId class_name;
  match id with
  | None => mret 0
  | Some class_name_id => gets (fun h => match List.find (fun e => e.2 =? class_name_id) (entries (class_names_ h)) with Some (id, _) => id | None => 0 end)
  end.

Definition FindClassByName (class_name : list Z) : M Heap (option Z) :=
  memo ← gets (fun h => class_memo h !! class_name);
  match memo with
  | Some id => mret (some_id id)
  | None =>
      class_id ← FindClassByNameInternal class_name;
      modify (fun h => set_class_memo (<[class_name := class_id]> (class_memo h)) h);;
      mret (some_id class_id)
  end.

Definition GetClassName (class_id : Z) : M Heap (option (list Z)) :=
  id ← GetClassNameId class_id;
  match id with None => mret None | Some class_name_id => GetString class_name_id end.

Definition AddInheritanceRecord (class_id super_class_id : Z) : M Heap unit := modify (fun h => set_inheritance (<[class_id := super_class_id]> (inheritance_ h)) h).

Definition super_class (h : Heap) (class_id : Z) : option Z := match inheritance_ h !! class_id with Some id => some_id id | None => None end.

Definition GetSuperClass (class_id : Z) : M Heap (option Z) := gets (fun h => super_class h class_id).

(** A chain without cycle has no more classes than there are records. *)
Fixpoint child_loop (fuel : nat) (current super_class_id : Z) : M Heap bool :=
  match fuel with
  | O => raise NoFuel
  | S fuel =>
      if current =? super_class_id then mret true else
      next ← GetSuperClass current;
      match next with Some next => child_loop fuel next super_class_id | None => mret false end
  end.

Definition class_fuel (h : Heap) : nat := S (S (base.size (inheritance_ h))).

Definition ChildClassOf (class_id super_class_id : Z) : M Heap bool := fuel ← gets class_fuel; child_loop fuel class_id super_class_id.

Definition AddInstanceFieldRecord (class_id : Z) (field : field_t) : M Heap unit :=
  modify (fun h => set_instance_fields (<[class_id := default [] (instance_fields_ h !! class_id) ++ [field]]> (instance_fields_ h)) h).

Definition GetInstanceFields (class_id : Z) : M Heap (list field_t) := gets (fun h => default [] (instance_fields_ h !! class_id)).

(** * Instances *)

Definition AddInstanceTypeRecord (instance_id : Z) (t : object_type_t) : M Heap unit := modify (fun h => set_instance_types (<[instance_id := t]> (instance_types_ h)) h).

Definition GetInstanceType (instance_id : Z) : M Heap object_type_t := reads (fun h => match instance_types_ h !! instance_id with Some t => Ok t | None => Aborted end).

Definition AddInstanceClassRecord (instance_id class_id : Z) : M Heap unit := modify (fun h => set_instance_classes (<[instance_id := class_id]> (instance_classes_ h)) h).

Definition GetClass (instance_id : Z) : M Heap (option Z) := gets (fun h => instance_classes_ h !! instance_id).

Definition GetInstances (class_id : Z) : M Heap (list Z) := gets (fun h => map fst (List.filter (fun e => e.2 =? class_id) (entries (instance_classes_ h)))).

Definition InstanceOf (instance_id class_id : Z) : M Heap bool :=
  c ← GetClass instance_id;
  match c with None => mret false | Some instance_class_id => ChildClassOf instance_class_id class_id end.

(** * Roots and threads *)

Definition MarkGcRoot (instance_id : Z) (t : gc_root_type_t) : M Heap unit :=
  modify (fun h => set_gc_roots (gc_roots_ h ++ [instance_id]) h);;
  modify (fun h => set_gc_root_types (<[instance_id := t]> (gc_root_types_ h)) h).

Definition GetGcRootType (gc_root : Z) : M Heap gc_root_type_t := reads (fun h => match gc_root_types_ h !! gc_root with Some t => Ok t | None => Aborted end).

Definition GetGcRoots : M Heap (list Z) := gets gc_roots_.

Definition AddThreadReferenceRecord (instance_id thread_serial_number : Z) : M Heap unit :=
  modify (fun h => set_thread_serial_numbers (<[instance_id := thread_serial_number]> (thread_serial_numbers_ h)) h).

Definition GetThreadReference (instance_id : Z) : M Heap Z := reads (fun h => match thread_serial_numbers_ h !! instance_id with Some n => Ok n | None => Aborted end).

Definition AddThreadObjectRecord (thread_object_id thread_serial_number : Z) : M Heap unit :=
  modify (fun h => set_thread_object_ids (<[thread_serial_number := thread_object_id]> (thread_object_ids_ h)) h).

Definition GetThreadObject (thread_serial_number : Z) : M Heap Z := reads (fun h => match thread_object_ids_ h !! thread_serial_number with Some id => Ok id | None => Aborted end).

(** * Data *)

(** The parser works on a reader and on the heap. *)
Record parser := MkParser { rd : Reader; hp : Heap }.

Definition on_reader {B} : M Reader B -> M parser B := lift rd (fun r s => MkParser r (hp s)).
Definition on_heap {B} : M Heap B -> M parser B := lift hp (fun h s => MkParser (rd s) h).

(** [std::map::emplace]: an element that is there stays. *)
Definition emplace {V} (k : Z) (v : V) (m : gmap Z V) : gmap Z V := match m !! k with Some _ => m | None => <[k := v]> m end.

Definition ReadFieldsData (instance_id class_id fields_data_size : Z) : M parser unit :=
  data ← on_reader (Extract fields_data_size);
  on_heap (modify (fun h => set_fields_data (emplace instance_id (MkFieldsData instance_id class_id fields_data_size data) (fields_data_ h)) h)).

Definition ScopedGetFieldsData (instance_id : Z) : M Heap (option HeapFieldsData) := gets (fun h => fields_data_ h !! instance_id).

Definition ScopedGetFieldsDataList : M Heap (list HeapFieldsData) := gets (fun h => map snd (entries (fields_data_ h))).

Definition GetScopeReader (d : HeapFieldsData) : Reader := new_reader (data_at d) (fields_data_size_ d).

(** The constructor of HeapPrimitiveData: the value is in the low bytes of the word. *)
Definition read_primitive (t : value_type_t) : M Reader HeapPrimitiveData :=
  if bool_decide (t = kObject) then pub_fatal else
  let size := get_value_type_size t in
  data ← (if size =? 1 then ReadU1 file else if size =? 2 then ReadU2 file else if size =? 4 then ReadU4 file else ReadU8 file);
  mret (MkPrimitive t data).

Definition ReadPrimitive (referrer_id field_name_id : Z) (t : value_type_t) : M parser unit :=
  p ← on_reader (read_primitive t);
  on_heap (modify (fun h => set_primitives (<[referrer_id := emplace field_name_id p (default ∅ (primitives_ h !! referrer_id))]> (primitives_ h)) h)).

Definition ReadPrimitiveArray (primitive_array_object_id : Z) (t : value_type_t) (data_size : Z) : M parser unit :=
  if bool_decide (t = kObject) then pub_fatal else
  data ← on_reader (Extract data_size);
  on_heap (modify (fun h => set_primitive_arrays (emplace primitive_array_object_id (MkArrayData t data_size data) (primitive_arrays_ h)) h)).

Definition ScopedGetPrimitiveData (instance_id field_name_id : Z) : M Heap (option HeapPrimitiveData) :=
  gets (fun h => match primitives_ h !! instance_id with Some m => m !! field_name_id | None => None end).

Definition ScopedGetPrimitiveArrayData (primitive_array_object_id : Z) : M Heap (option HeapPrimitiveArrayData) := gets (fun h => primitive_arrays_ h !! primitive_array_object_id).

Definition GetFieldPrimitiveRaw (referrer_id : Z) (reference_name : list Z) : M Heap (option Z) :=
  id ← FindStringId reference_name;
  match id with
  | None => mret None
  | Some reference_name_id => data ← ScopedGetPrimitiveData referrer_id reference_name_id; mret (option_map primitive_data_ data)
  end.

(** [GetFieldPrimitive<int32_t>]. *)
Definition GetFieldPrimitive_int32 (referrer_id : Z) (reference_name : list Z) : M Heap (option Z) :=
  data ← GetFieldPrimitiveRaw referrer_id reference_name; mret (option_map s32 data).

Fixpoint primitives_loop (n : nat) (t : value_type_t) (result : list Z) : M Reader (list Z) :=
  match n with
  | O => mret result
  | S n => d ← read_primitive t; primitives_loop n t (result ++ [primitive_data_ d])
  end.

(** Code with a reader of its own. *)
Definition with_reader {B} (r : Reader) (c : M Reader B) : M Heap B := reads (fun _ => (c r).1).

Definition GetArrayPrimitiveRaw (primitive_array_id : Z) : M Heap (option (list Z)) :=
  data ← ScopedGetPrimitiveArrayData primitive_array_id;
  match data with
  | None => mret None
  | Some d =>
      l ← with_reader (new_reader (array_data_ d) (array_data_size_ d)) (primitives_loop (Z.to_nat (array_data_size_ d / get_value_type_size (array_type_ d))) (array_type_ d) []);
      mret (Some l)
  end.

(** * References *)

Definition AddReference (referrer_id : Z) (reference : reference_t) (referent_id : Z) : M Heap unit :=
  modify (fun h => set_references (<[referrer_id := <[referent_id := reference]> (default ∅ (references_ h !! referrer_id))]> (references_ h)) h).

Definition AddExcludedReference (referrer_id : Z) (reference : reference_t) (referent_id : Z) : M Heap unit :=
  modify (fun h => set_excluded_references (<[referrer_id := <[referent_id := reference]> (default ∅ (excluded_references_ h !! referrer_id))]> (excluded_references_ h)) h).

Definition field_reference (field_name_id : Z) (static_reference : bool) : reference_t := MkReference (if static_reference then kStaticField else kInstanceField) 0 field_name_id.

Definition AddFieldReference (referrer_id field_name_id referent_id : Z) (static_reference : bool) : M Heap unit :=
  AddReference referrer_id (field_reference field_name_id static_reference) referent_id.

Definition AddFieldExcludedReference (referrer_id field_name_id referent_id : Z) (static_reference : bool) : M Heap unit :=
  AddExcludedReference referrer_id (field_reference field_name_id static_reference) referent_id.

Definition find_named (m : option (gmap Z reference_t)) (name : Z) : option Z :=
  match m with
  | Some m => option_map fst (List.find (fun e => field_name_id e.2 =? name) (entries m))
  | None => None
  end.

Definition GetFieldReference (referrer_id : Z) (reference_name : list Z) (with_excluded : bool) : M Heap (option Z) :=
  id ← FindStringId reference_name;
  match id with
  | None => mret None
  | Some reference_name_id =>
      gets (fun h => match find_named (references_ h !! referrer_id) reference_name_id with
        | Some id => Some id
        | None => if with_excluded then find_named (excluded_references_ h !! referrer_id) reference_name_id else None
        end)
  end.

Definition AddArrayReference (referrer_id index referent_id : Z) : M Heap unit := AddReference referrer_id (MkReference kArrayElement index 0) referent_id.

Definition GetArrayReference (referrer_id i : Z) : M Heap (option Z) :=
  gets (fun h => match references_ h !! referrer_id with
    | Some m => option_map fst (List.find (fun e => index e.2 =? i) (entries m))
    | None => None
    end).

Fixpoint exclude_loop (referrer_id : Z) (l : list (Z * reference_t)) : M Heap unit :=
  match l with
  | [] => mret tt
  | (referent_id, reference) :: l => AddExcludedReference referrer_id reference referent_id;; exclude_loop referrer_id l
  end.

Definition ExcludeReferences (referrer_id : Z) : M Heap unit :=
  refs ← gets (fun h => references_ h !! referrer_id);
  match refs with
  | Some m => exclude_loop referrer_id (entries m);; modify (fun h => set_references (delete referrer_id (references_ h)) h)
  | None => mret tt
  end.

Definition GetLeakReferenceGraph : M Heap (gmap Z (gmap Z reference_t)) := gets references_.

(** * Strings of Java *)

Fixpoint utf16_loop (n : nat) (temp : list Z) : M Reader (list Z) :=
  match n with O => mret temp | S n => v ← Read file 2; utf16_loop n (temp ++ [u16 v]) end.

(** The bytes of a code point in UTF-8. *)
Definition utf8 (c : Z) : list Z :=
  if c <? 0x80 then [c] else
  if c <? 0x800 then [Z.lor 0xc0 (Z.shiftr c 6); Z.lor 0x80 (Z.land c 0x3f)] else
  if c <? 0x10000 then [Z.lor 0xe0 (Z.shiftr c 12); Z.lor 0x80 (Z.land (Z.shiftr c 6) 0x3f); Z.lor 0x80 (Z.land c 0x3f)] else
  [Z.lor 0xf0 (Z.shiftr c 18); Z.lor 0x80 (Z.land (Z.shiftr c 12) 0x3f); Z.lor 0x80 (Z.land (Z.shiftr c 6) 0x3f); Z.lor 0x80 (Z.land c 0x3f)].

Definition is_high (c : Z) : bool := (0xd800 <=? c) && (c <? 0xdc00).
Definition is_low (c : Z) : bool := (0xdc00 <=? c) && (c <? 0xe000).

(** [converter.to_bytes]: it throws where the surrogates do not pair up. *)
Fixpoint to_bytes (l : list Z) : option (list Z) :=
  match l with
  | [] => Some []
  | c :: l =>
      if is_high c then
        match l with
        | d :: l => if is_low d then option_map (app (utf8 (0x10000 + Z.shiftl (c - 0xd800) 10 + (d - 0xdc00)))) (to_bytes l) else None
        | [] => None
        end
      else if is_low c then None else option_map (app (utf8 c)) (to_bytes l)
  end.

Definition convert_utf_16_string (buffer buffer_size : Z) : M Heap (list Z) :=
  temp ← with_reader (new_reader buffer buffer_size) (utf16_loop (Z.to_nat (buffer_size / 2)) []);
  match to_bytes temp with Some s => mret s | None => raise Aborted end.

Definition GetValueFromStringInstance (instance_id : Z) : M Heap (option (list Z)) :=
  cls ← FindClassByName (bytes_of "java.lang.String");
  match cls with
  | None => mret None
  | Some string_class_id =>
      is_string ← InstanceOf instance_id string_class_id;
      if negb is_string then mret None else
      content ← GetFieldReference instance_id (bytes_of "value") false;
      match content with
      | None => mret None
      | Some string_content_array =>
          data ← ScopedGetPrimitiveArrayData string_content_array;
          match data with
          | None => mret None
          | Some d =>
              match array_type_ d with
              | kChar =>
                  o ← GetFieldPrimitive_int32 instance_id (bytes_of "offset");
                  let offset := uword (uword (default 0 o) * get_value_type_size kChar) in
                  c ← GetFieldPrimitive_int32 instance_id (bytes_of "count");
                  let size := Z.min (uword (uword (default 0 c) * get_value_type_size kChar)) (uword (array_data_size_ d - offset)) in
                  s ← convert_utf_16_string (array_data_ d + offset) size;
                  mret (Some s)
              | kByte => reads (fun _ => match slice file (array_data_ d) (array_data_size_ d) with Ok s => Ok (Some s) | _ => Undef end)
              | _ => pub_fatal
              end
          end
      end
  end.
End Heap.
End HprofHeap.
