(* ===== verification/HprofEngine.v ===== *)
(** The parser of heap dumps (traceharbor-hprof-analyzer, lib/parser).

    A dump is a header and a sequence of records, some of which hold a sequence of subrecords.
    [Parse] fills a heap from them; the references in the fields of instances are found at the end
    ([LazyParse]), when the classes are known.  The functions of the class HeapParserEngineImpl are
    definitions of the same names; the engine [next] that they call is the engine itself. *)
From S2P Require Import Prelude Arch Machine Libc HprofReader HprofHeap.

Module HprofEngine.
Import HprofReader HprofHeap.

(** * Matchers *)

Definition is_star (s : list Z) : bool := bool_decide (s = bytes_of "*").
Definition unless_star (s : list Z) : list Z := if is_star s then [] else s.

Record FieldExcludeMatcher := MkFieldMatcher { class_name_full_match_ : bool; class_name_ : list Z; field_name_full_match_ : bool; field_name_ : list Z }.

Definition new_field_matcher (class_name field_name : list Z) : FieldExcludeMatcher :=
  MkFieldMatcher (is_star class_name) (unless_star class_name) (is_star field_name) (unless_star field_name).

Record ThreadExcludeMatcher := MkThreadMatcher { thread_name_full_match_ : bool; thread_name_ : list Z }.

Definition new_thread_matcher (thread_name : list Z) : ThreadExcludeMatcher := MkThreadMatcher (is_star thread_name) (unless_star thread_name).

Record NativeGlobalExcludeMatcher := MkNativeMatcher { native_class_full_match_ : bool; native_class_name_ : list Z }.

Definition new_native_global_matcher (class_name : list Z) : NativeGlobalExcludeMatcher := MkNativeMatcher (is_star class_name) (unless_star class_name).

Record ExcludeMatcherGroup := MkGroup {
  exclude_instance_fields : list FieldExcludeMatcher;
  exclude_static_fields : list FieldExcludeMatcher;
  exclude_threads : list ThreadExcludeMatcher;
  exclude_native_globals : list NativeGlobalExcludeMatcher
}.

(** A matcher by identifiers; 0 matches everything. *)
Record flat_matcher := MkFlat { flat_class_id : Z; flat_field_name_id : Z }.

Section Engine.
Context `{A : Arch} (file : list Z).

Fixpoint flatten_field_exclude_matchers (flatten_matchers : list flat_matcher) (matchers : list FieldExcludeMatcher) : M Heap (list flat_matcher) :=
  match matchers with
  | [] => mret flatten_matchers
  | m :: matchers =>
      c ← (if class_name_full_match_ m then mret (Some 0) else FindClassByName file (class_name_ m));
      match c with
      | None => flatten_field_exclude_matchers flatten_matchers matchers
      | Some class_id =>
          f ← (if field_name_full_match_ m then mret (Some 0) else FindStringId file (field_name_ m));
          match f with
          | None => flatten_field_exclude_matchers flatten_matchers matchers
          | Some field_id => flatten_field_exclude_matchers (flatten_matchers ++ [MkFlat class_id field_id]) matchers
          end
      end
  end.

Fixpoint flatten_native_global_exclude_matchers (flatten_matchers : list Z) (matchers : list NativeGlobalExcludeMatcher) : M Heap (list Z) :=
  match matchers with
  | [] => mret flatten_matchers
  | m :: matchers =>
      c ← (if native_class_full_match_ m then mret (Some 0) else FindClassByName file (native_class_name_ m));
      flatten_native_global_exclude_matchers (match c with Some class_id => flatten_matchers ++ [class_id] | None => flatten_matchers end) matchers
  end.

(** The matchers whose class is the given one or a class above it. *)
Fixpoint match_class (class_id : Z) (l : list flat_matcher) : M Heap (list flat_matcher) :=
  match l with
  | [] => mret []
  | m :: l =>
      ok ← (if flat_class_id m =? 0 then mret true else ChildClassOf class_id (flat_class_id m));
      rest ← match_class class_id l;
      mret (if (ok : bool) then m :: rest else rest)
  end.

Definition match_field (field_name_id : Z) (l : list flat_matcher) : bool := existsb (fun m => (flat_field_name_id m =? 0) || (flat_field_name_id m =? field_name_id)) l.

(** * Records *)

Definition id_size : M parser Z := on_heap GetIdSize.
Definition read_id : M parser Z := n ← id_size; on_reader (Read file n).

Definition versions : list (list Z) := map bytes_of ["JAVA PROFILE 1.0"; "JAVA PROFILE 1.0.1"; "JAVA PROFILE 1.0.2"; "JAVA PROFILE 1.0.3"]%string.

Definition ParseHeader : M parser unit :=
  version ← on_reader (ReadNullTerminatedString file);
  if negb (bool_decide (version ∈ versions)) then pub_fatal else
  n ← on_reader (ReadU4 file);
  on_heap (InitializeIdSize n);;
  on_reader SkipU8.

Definition ParseStringRecord (record_length : Z) : M parser unit :=
  string_id ← read_id;
  n ← id_size;
  let len := uword (record_length - n) in
  data ← on_reader (Extract len);
  on_heap (AddString string_id data len).

Definition ParseLoadClassRecord (record_length : Z) : M parser unit :=
  on_reader SkipU4;;
  class_id ← read_id;
  on_reader SkipU4;;
  class_name_id ← read_id;
  on_heap (AddClassNameRecord class_id class_name_id).

(** ** Roots *)

Definition mark_root (object_id : Z) (t : gc_root_type_t) : M parser unit := if object_id =? 0 then mret tt else on_heap (MarkGcRoot object_id t).

Definition ParseHeapContentRootUnknownSubRecord : M parser Z :=
  object_id ← read_id;
  mark_root object_id kRootUnknown;;
  n ← id_size;
  mret n.

Definition ParseHeapContentRootJniGlobalSubRecord : M parser Z :=
  object_id ← read_id;
  mark_root object_id kRootJniGlobal;;
  n ← id_size;
  on_reader (Skip n);;
  mret (uword (n + n)).

Definition ParseHeapContentRootJniLocalSubRecord : M parser Z :=
  object_id ← read_id;
  mark_root object_id kRootJniLocal;;
  on_reader SkipU4;;
  on_reader SkipU4;;
  n ← id_size;
  mret (uword (n + 8)).

Definition ParseHeapContentRootNativeStackSubRecord : M parser Z :=
  object_id ← read_id;
  mark_root object_id kRootNativeStack;;
  on_reader SkipU4;;
  n ← id_size;
  mret (uword (n + 4)).

Definition ParseHeapContentRootStickyClassSubRecord : M parser Z :=
  object_id ← read_id;
  mark_root object_id kRootStickyClass;;
  n ← id_size;
  mret n.

Definition ParseHeapContentRootThreadBlockSubRecord : M parser Z :=
  object_id ← read_id;
  mark_root object_id kRootThreadBlock;;
  on_reader SkipU4;;
  n ← id_size;
  mret (uword (n + 4)).

Definition ParseHeapContentRootMonitorUsedSubRecord : M parser Z :=
  object_id ← read_id;
  mark_root object_id kRootMonitorUsed;;
  n ← id_size;
  mret n.

Definition ParseHeapContentRootInternedStringSubRecord : M parser Z :=
  object_id ← read_id;
  mark_root object_id kRootInternedString;;
  n ← id_size;
  mret n.

Definition ParseHeapContentRootFinalizingSubRecord : M parser Z :=
  object_id ← read_id;
  mark_root object_id kRootFinalizing;;
  n ← id_size;
  mret n.

Definition ParseHeapContentRootDebuggerSubRecord : M parser Z :=
  object_id ← read_id;
  mark_root object_id kRootDebugger;;
  n ← id_size;
  mret n.

Definition ParseHeapContentRootReferenceCleanupSubRecord : M parser Z :=
  object_id ← read_id;
  mark_root object_id kRootReferenceCleanup;;
  n ← id_size;
  mret n.

Definition ParseHeapContentRootVMInternalSubRecord : M parser Z :=
  object_id ← read_id;
  mark_root object_id kRootVMInternal;;
  n ← id_size;
  mret n.

Definition ParseHeapContentRootJniMonitorSubRecord : M parser Z :=
  object_id ← read_id;
  mark_root object_id kRootJniMonitor;;
  on_reader SkipU4;;
  on_reader SkipU4;;
  n ← id_size;
  mret (uword (n + 8)).

Definition ParseHeapContentRootUnreachableSubRecord : M parser Z :=
  object_id ← read_id;
  mark_root object_id kRootUnreachable;;
  n ← id_size;
  mret n.


Definition ParseHeapContentRootJavaFrameSubRecord : M parser Z :=
  object_id ← read_id;
  mark_root object_id kRootJavaFrame;;
  thread_serial_number ← on_reader (ReadU4 file);
  (if object_id =? 0 then mret tt else on_heap (AddThreadReferenceRecord object_id thread_serial_number));;
  on_reader SkipU4;;
  n ← id_size;
  mret (uword (n + 8)).

Definition ParseHeapContentRootThreadObjectSubRecord : M parser Z :=
  object_id ← read_id;
  mark_root object_id kRootThreadObject;;
  thread_serial_number ← on_reader (ReadU4 file);
  (if object_id =? 0 then mret tt else on_heap (AddThreadObjectRecord object_id thread_serial_number));;
  on_reader SkipU4;;
  n ← id_size;
  mret (uword (n + 8)).

(** ** Classes *)

Fixpoint constant_loop (k : nat) (content_size : Z) : M parser Z :=
  match k with
  | O => mret content_size
  | S k =>
      on_reader SkipU2;;
      t ← on_reader (ReadU1 file);
      t ← value_type_cast t;
      type_size ← (if bool_decide (t = kObject) then id_size else mret (get_value_type_size t));
      on_reader (Skip type_size);;
      constant_loop k (uword (content_size + 2 + 1 + type_size))
  end.

Fixpoint static_loop (k : nat) (class_id : Z) (matchers : list flat_matcher) (content_size : Z) : M parser Z :=
  match k with
  | O => mret content_size
  | S k =>
      field_name_id ← read_id;
      n ← id_size;
      t ← on_reader (ReadU1 file);
      t ← value_type_cast t;
      if bool_decide (t = kObject) then
        referent_id ← read_id;
        on_heap (if match_field field_name_id matchers then AddFieldExcludedReference class_id field_name_id referent_id true
                 else AddFieldReference class_id field_name_id referent_id true);;
        static_loop k class_id matchers (uword (content_size + n + 1 + n))
      else
        let type_size := get_value_type_size t in
        on_reader (Skip type_size);;
        static_loop k class_id matchers (uword (content_size + n + 1 + type_size))
  end.

Fixpoint field_loop (k : nat) (class_id content_size : Z) : M parser Z :=
  match k with
  | O => mret content_size
  | S k =>
      field_name_id ← read_id;
      n ← id_size;
      t ← on_reader (ReadU1 file);
      t ← value_type_cast t;
      on_heap (AddInstanceFieldRecord class_id (MkField field_name_id t));;
      field_loop k class_id (uword (content_size + n + 1))
  end.

Definition ParseHeapContentClassSubRecord (group : ExcludeMatcherGroup) : M parser Z :=
  class_id ← read_id;
  on_heap (AddInstanceTypeRecord class_id kClass);;
  on_reader SkipU4;;
  super_class_id ← read_id;
  on_heap (AddInheritanceRecord class_id super_class_id);;
  n ← id_size;
  on_reader (Skip n);;
  on_reader (Skip n);;
  on_reader (Skip n);;
  on_reader (Skip n);;
  on_reader (Skip n);;
  on_reader SkipU4;;
  constant_pool_length ← on_reader (ReadU2 file);
  content_size ← constant_loop (Z.to_nat constant_pool_length) 2;
  static_fields_length ← on_reader (ReadU2 file);
  static_exclude_matchers ← on_heap (flatten_field_exclude_matchers [] (exclude_static_fields group));
  class_match_matchers ← on_heap (match_class class_id static_exclude_matchers);
  content_size ← static_loop (Z.to_nat static_fields_length) class_id class_match_matchers (uword (content_size + 2));
  non_static_fields_length ← on_reader (ReadU2 file);
  content_size ← field_loop (Z.to_nat non_static_fields_length) class_id (uword (content_size + 2));
  mret (uword (n + 4 + n * 6 + 4 + content_size)).

(** ** Objects *)

Definition ParseHeapContentInstanceSubRecord : M parser Z :=
  instance_id ← read_id;
  on_heap (AddInstanceTypeRecord instance_id kInstance);;
  on_reader SkipU4;;
  class_id ← read_id;
  on_heap (AddInstanceClassRecord instance_id class_id);;
  fields_data_size ← on_reader (ReadU4 file);
  ReadFieldsData instance_id class_id fields_data_size;;
  n ← id_size;
  mret (uword (n + 4 + n + 4 + fields_data_size)).

Fixpoint element_loop (k : nat) (array_id i : Z) : M parser unit :=
  match k with
  | O => mret tt
  | S k =>
      referent_id ← read_id;
      on_heap (AddArrayReference array_id i referent_id);;
      element_loop k array_id (i + 1)
  end.

Definition ParseHeapContentObjectArraySubRecord : M parser Z :=
  array_id ← read_id;
  on_heap (AddInstanceTypeRecord array_id kObjectArray);;
  on_reader SkipU4;;
  array_length ← on_reader (ReadU4 file);
  class_id ← read_id;
  on_heap (AddInstanceClassRecord array_id class_id);;
  element_loop (Z.to_nat array_length) array_id 0;;
  n ← id_size;
  mret (uword (n + 4 + 4 + n + array_length * n)).

Definition ParseHeapContentPrimitiveArraySubRecord : M parser Z :=
  array_id ← read_id;
  on_heap (AddInstanceTypeRecord array_id kPrimitiveArray);;
  on_reader SkipU4;;
  array_length ← on_reader (ReadU4 file);
  t ← on_reader (ReadU1 file);
  t ← value_type_cast t;
  let array_size := uword (array_length * get_value_type_size t) in
  ReadPrimitiveArray array_id t array_size;;
  n ← id_size;
  mret (uword (n + 4 + 4 + 1 + array_size)).

Definition ParseHeapContentPrimitiveArrayNoDataDumpSubRecord : M parser Z :=
  array_id ← read_id;
  on_heap (AddInstanceTypeRecord array_id kPrimitiveArray);;
  on_reader SkipU4;;
  on_reader SkipU4;;
  on_reader SkipU1;;
  n ← id_size;
  mret (uword (n + 4 + 4 + 1)).

Definition SkipHeapContentInfoSubRecord : M parser Z :=
  on_reader SkipU4;;
  n ← id_size;
  on_reader (Skip n);;
  mret (uword (4 + n)).

(** * Segments *)

(** The subrecord with the given tag, and the bytes that its parser reports. *)
Definition ParseSubRecord (group : ExcludeMatcherGroup) (tag : Z) : M parser Z :=
  match tag with
  | 0xff => ParseHeapContentRootUnknownSubRecord
  | 0x01 => ParseHeapContentRootJniGlobalSubRecord
  | 0x02 => ParseHeapContentRootJniLocalSubRecord
  | 0x03 => ParseHeapContentRootJavaFrameSubRecord
  | 0x04 => ParseHeapContentRootNativeStackSubRecord
  | 0x05 => ParseHeapContentRootStickyClassSubRecord
  | 0x06 => ParseHeapContentRootThreadBlockSubRecord
  | 0x07 => ParseHeapContentRootMonitorUsedSubRecord
  | 0x08 => ParseHeapContentRootThreadObjectSubRecord
  | 0x89 => ParseHeapContentRootInternedStringSubRecord
  | 0x8a => ParseHeapContentRootFinalizingSubRecord
  | 0x8b => ParseHeapContentRootDebuggerSubRecord
  | 0x8c => ParseHeapContentRootReferenceCleanupSubRecord
  | 0x8d => ParseHeapContentRootVMInternalSubRecord
  | 0x8e => ParseHeapContentRootJniMonitorSubRecord
  | 0x90 => ParseHeapContentRootUnreachableSubRecord
  | 0x20 => ParseHeapContentClassSubRecord group
  | 0x21 => ParseHeapContentInstanceSubRecord
  | 0x22 => ParseHeapContentObjectArraySubRecord
  | 0x23 => ParseHeapContentPrimitiveArraySubRecord
  | 0xc3 => ParseHeapContentPrimitiveArrayNoDataDumpSubRecord
  | 0xfe => SkipHeapContentInfoSubRecord
  | _ => pub_fatal
  end.

(** Every turn counts a byte at least, unless the count wraps. *)
Fixpoint content_loop (fuel : nat) (group : ExcludeMatcherGroup) (bytes_read record_length : Z) : M parser unit :=
  if record_length <=? bytes_read then mret tt else
  match fuel with
  | O => raise NoFuel
  | S fuel =>
      tag ← on_reader (ReadU1 file);
      n ← ParseSubRecord group tag;
      content_loop fuel group (uword (bytes_read + 1 + n)) record_length
  end.

Definition ParseHeapContent (group : ExcludeMatcherGroup) (record_length : Z) : M parser unit := content_loop (Z.to_nat record_length) group 0 record_length.

(** * References of instances *)

Definition get_thread_name (thread_object_id : Z) : M Heap (option (list Z)) :=
  c ← FindClassByName file (bytes_of "java.lang.Thread");
  match c with
  | None => mret None
  | Some thread_class_id =>
      is_thread ← InstanceOf thread_object_id thread_class_id;
      if negb is_thread then mret None else
      name ← GetFieldReference file thread_object_id (bytes_of "name") false;
      match name with None => mret None | Some name_string_id => GetValueFromStringInstance file name_string_id end
  end.

Fixpoint instance_fields_loop (referrer_id : Z) (matchers : list flat_matcher) (fields : list field_t) : M parser unit :=
  match fields with
  | [] => mret tt
  | field :: fields =>
      (if bool_decide (type field = kObject) then
         referent_id ← read_id;
         on_heap (if match_field (name_id field) matchers then AddFieldExcludedReference referrer_id (name_id field) referent_id false
                  else AddFieldReference referrer_id (name_id field) referent_id false)
       else ReadPrimitive file referrer_id (name_id field) (type field));;
      instance_fields_loop referrer_id matchers fields
  end.

(** The fields of the class and of those above it. *)
Fixpoint class_loop (fuel : nat) (referrer_id : Z) (matchers : list flat_matcher) (current_class_id : Z) : M parser unit :=
  match fuel with
  | O => raise NoFuel
  | S fuel =>
      fields ← on_heap (GetInstanceFields current_class_id);
      instance_fields_loop referrer_id matchers fields;;
      super ← on_heap (GetSuperClass current_class_id);
      match super with Some super => class_loop fuel referrer_id matchers super | None => mret tt end
  end.

(** Code on the heap and a reader of its own. *)
Definition scoped {B} (r : Reader) (c : M parser B) : M Heap B := fun h => let '(b, s) := c (MkParser r h) in (b, hp s).

Definition analyze_instance (matchers : list flat_matcher) (task : HeapFieldsData) : M Heap unit :=
  class_match_matchers ← match_class (class_id_ task) matchers;
  fuel ← gets class_fuel;
  scoped (GetScopeReader task) (class_loop fuel (instance_id_ task) class_match_matchers (class_id_ task)).

Fixpoint analyze_instances (matchers : list flat_matcher) (tasks : list HeapFieldsData) : M Heap unit :=
  match tasks with [] => mret tt | task :: tasks => analyze_instance matchers task;; analyze_instances matchers tasks end.

Fixpoint native_loop (gc_root : Z) (matchers : list Z) : M Heap unit :=
  match matchers with
  | [] => mret tt
  | class_id :: matchers =>
      ok ← (if class_id =? 0 then mret true else InstanceOf gc_root class_id);
      (if (ok : bool) then ExcludeReferences gc_root else mret tt);;
      native_loop gc_root matchers
  end.

Definition exclude_root (group : ExcludeMatcherGroup) (native_global_matchers : list Z) (gc_root : Z) : M Heap unit :=
  t ← GetGcRootType gc_root;
  if bool_decide (t = kRootJavaFrame) then
    n ← GetThreadReference gc_root;
    thread_object_id ← GetThreadObject n;
    name ← get_thread_name thread_object_id;
    match name with
    | None => mret tt
    | Some thread_name =>
        if existsb (fun m => thread_name_full_match_ m || bool_decide (thread_name_ m = thread_name)) (exclude_threads group) then ExcludeReferences gc_root else mret tt
    end
  else if bool_decide (t = kRootJniGlobal) then native_loop gc_root native_global_matchers
  else mret tt.

Fixpoint exclude_roots (group : ExcludeMatcherGroup) (native_global_matchers : list Z) (roots : list Z) : M Heap unit :=
  match roots with [] => mret tt | r :: roots => exclude_root group native_global_matchers r;; exclude_roots group native_global_matchers roots end.

Definition LazyParse (group : ExcludeMatcherGroup) : M Heap unit :=
  instance_field_matchers ← flatten_field_exclude_matchers [] (exclude_instance_fields group);
  tasks ← ScopedGetFieldsDataList;
  analyze_instances instance_field_matchers tasks;;
  native_global_matchers ← flatten_native_global_exclude_matchers [] (exclude_native_globals group);
  roots ← GetGcRoots;
  exclude_roots group native_global_matchers roots.

(** * The dump *)

(** Every turn takes nine bytes at least, unless the cursor wraps. *)
Fixpoint record_loop (fuel : nat) (group : ExcludeMatcherGroup) : M parser unit :=
  match fuel with
  | O => raise NoFuel
  | S fuel =>
      tag ← on_reader (ReadU1 file);
      on_reader SkipU4;;
      len ← on_reader (ReadU4 file);
      match tag with
      | 0x01 => ParseStringRecord len;; record_loop fuel group
      | 0x02 => ParseLoadClassRecord len;; record_loop fuel group
      | 0x0c | 0x1c => ParseHeapContent group len;; record_loop fuel group
      | 0x2c => mret tt
      | _ => on_reader (Skip len);; record_loop fuel group
      end
  end.

Definition Parse (group : ExcludeMatcherGroup) : M parser unit :=
  ParseHeader;;
  record_loop (S (length file)) group;;
  on_heap (LazyParse group).
End Engine.
End HprofEngine.
