(* ===== verification/HprofAnalyzer.v ===== *)
(** Leak chains (traceharbor-hprof-analyzer, lib/analyzer and lib/main).

    [find_leak_chains] searches the graph of references breadth first from the roots of the
    garbage collector, once for every suspect, and follows the referrers back from the suspect to a
    root.  [Analyze] parses the dump, lets the client choose suspects, and describes the chains. *)
From S2P Require Import Prelude Arch Machine Libc HprofReader HprofHeap HprofEngine.

Module HprofAnalyzer.
Import HprofReader HprofHeap HprofEngine.

(** * The search *)

Record ref_super_t := MkSuper { referrer_id : Z; reference : reference_t }.

Record ref_node_t := MkNode { referent_id : Z; super : option ref_super_t; depth : Z }.

Notation chain := (list (Z * option reference_t)).

Section Search.
Context `{A : Arch} (graph : gmap Z (gmap Z reference_t)) (leak : Z).

(** The search: what was reached, the queue, and whether the suspect was. *)
Record search := MkSearch { traversed : gmap Z ref_node_t; waiting : list ref_node_t; found : bool }.

Fixpoint start (roots : list Z) (s : search) : search :=
  match roots with
  | [] => s
  | gc_root :: roots =>
      let node := MkNode gc_root None 0 in
      start roots (MkSearch (<[gc_root := node]> (traversed s)) (waiting s ++ [node]) (found s))
  end.

(** The loop over the referents of a node; it ends at the suspect. *)
Fixpoint expand (node : ref_node_t) (l : list (Z * reference_t)) (s : search) : search :=
  match l with
  | [] => s
  | (referent, ref) :: l =>
      if match traversed s !! referent with Some n => depth n <=? uword (depth node + 1) | None => false end then expand node l s else
      let next_node := MkNode referent (Some (MkSuper (referent_id node) ref)) (uword (depth node + 1)) in
      let traversed := <[referent := next_node]> (traversed s) in
      if leak =? referent then MkSearch traversed (waiting s) true else expand node l (MkSearch traversed (waiting s ++ [next_node]) (found s))
  end.

Fixpoint search_loop (fuel : nat) (s : search) : result search :=
  match waiting s with
  | [] => Ok s
  | node :: rest =>
      match fuel with
      | O => NoFuel
      | S fuel =>
          let s := MkSearch (traversed s) rest (found s) in
          match graph !! referent_id node with
          | None => search_loop fuel s
          | Some refs => let s := expand node (entries refs) s in if found s then Ok s else search_loop fuel s
          end
      end
  end.

(** Back from the suspect; [std::map::at] throws. *)
Fixpoint chain_loop (fuel : nat) (traversed : gmap Z ref_node_t) (current : Z) (current_reference : option reference_t) (ret : chain) : result chain :=
  match fuel with
  | O => NoFuel
  | S fuel =>
      let ret := ret ++ [(current, current_reference)] in
      match traversed !! current with
      | None => Aborted
      | Some node => match super node with Some s => chain_loop fuel traversed (referrer_id s) (Some (reference s)) ret | None => Ok ret end
      end
  end.

(** Every node is put into the queue once, a root once for each time it is marked. *)
Definition search_fuel (roots : list Z) : nat := S (length roots + sum_list_with (fun e => base.size e.2) (map_to_list graph)).

(** The search for one suspect. *)
Definition leak_chain (roots : list Z) : result (option chain) :=
  s ← search_loop (search_fuel roots) (start roots (MkSearch ∅ [] false));
  if found s then ret ← chain_loop (S (base.size (traversed s))) (traversed s) leak None []; Ok (Some (rev ret)) else Ok None.
End Search.

Fixpoint chains_loop `{A : Arch} (h : Heap) (tracked : list Z) (ret : gmap Z chain) : result (gmap Z chain) :=
  match tracked with
  | [] => Ok ret
  | leak :: tracked =>
      c ← leak_chain (references_ h) leak (gc_roots_ h);
      chains_loop h tracked (match c with Some c => <[leak := c]> ret | None => ret end)
  end.

Definition find_leak_chains `{A : Arch} (h : Heap) (tracked : list Z) : result (gmap Z chain) := chains_loop h tracked ∅.

(** * The result *)

(** The types of the public interface. *)
Module LeakChainTypes.
Inductive GcRootType := kRootJniGlobal | kRootJniLocal | kRootJavaFrame | kRootNativeStack | kRootStickyClass | kRootThreadBlock | kRootMonitorUsed
| kRootThreadObject | kRootInternedString | kRootFinalizing | kRootDebugger | kRootReferenceCleanup | kRootVMInternal | kRootJniMonitor | kRootUnknown | kRootUnreachable.

Inductive ReferenceType := kStaticField | kInstanceField | kArrayElement.

Inductive ObjectType := kClass | kInstance | kObjectArray | kPrimitiveArray.
End LeakChainTypes.

Definition convert_gc_root_type (t : gc_root_type_t) : LeakChainTypes.GcRootType :=
  match t with
  | kRootJniGlobal => LeakChainTypes.kRootJniGlobal
  | kRootJniLocal => LeakChainTypes.kRootJniLocal
  | kRootJavaFrame => LeakChainTypes.kRootJavaFrame
  | kRootNativeStack => LeakChainTypes.kRootNativeStack
  | kRootStickyClass => LeakChainTypes.kRootStickyClass
  | kRootThreadBlock => LeakChainTypes.kRootThreadBlock
  | kRootMonitorUsed => LeakChainTypes.kRootMonitorUsed
  | kRootThreadObject => LeakChainTypes.kRootThreadObject
  | kRootInternedString => LeakChainTypes.kRootInternedString
  | kRootFinalizing => LeakChainTypes.kRootFinalizing
  | kRootDebugger => LeakChainTypes.kRootDebugger
  | kRootReferenceCleanup => LeakChainTypes.kRootReferenceCleanup
  | kRootVMInternal => LeakChainTypes.kRootVMInternal
  | kRootJniMonitor => LeakChainTypes.kRootJniMonitor
  | kRootUnknown => LeakChainTypes.kRootUnknown
  | kRootUnreachable => LeakChainTypes.kRootUnreachable
  end.

Definition convert_reference_type (t : reference_type_t) : LeakChainTypes.ReferenceType :=
  match t with
  | kStaticField => LeakChainTypes.kStaticField
  | kInstanceField => LeakChainTypes.kInstanceField
  | kArrayElement => LeakChainTypes.kArrayElement
  end.

Definition convert_object_type (t : object_type_t) : LeakChainTypes.ObjectType :=
  match t with
  | kClass => LeakChainTypes.kClass
  | kInstance => LeakChainTypes.kInstance
  | kObjectArray => LeakChainTypes.kObjectArray
  | kPrimitiveArray => LeakChainTypes.kPrimitiveArray
  end.

Record chain_root := MkChainRoot { root_name : list Z; root_type : LeakChainTypes.GcRootType }.

Record chain_node := MkChainNode { node_reference : list Z; node_reference_type : LeakChainTypes.ReferenceType; node_object : list Z; node_object_type : LeakChainTypes.ObjectType }.

Record LeakChain := MkLeakChain { gc_root_ : chain_root; nodes_ : list chain_node }.

Definition GetDepth (c : LeakChain) : Z := Z.of_nat (length (nodes_ c)).

(** * Exclusion rules *)

Definition ExcludeInstanceFieldReference (class_name field_name : list Z) (g : ExcludeMatcherGroup) : ExcludeMatcherGroup :=
  MkGroup (exclude_instance_fields g ++ [new_field_matcher class_name field_name]) (exclude_static_fields g) (exclude_threads g) (exclude_native_globals g).

Definition ExcludeStaticFieldReference (class_name field_name : list Z) (g : ExcludeMatcherGroup) : ExcludeMatcherGroup :=
  MkGroup (exclude_instance_fields g) (exclude_static_fields g ++ [new_field_matcher class_name field_name]) (exclude_threads g) (exclude_native_globals g).

Definition ExcludeThreadReference (thread_name : list Z) (g : ExcludeMatcherGroup) : ExcludeMatcherGroup :=
  MkGroup (exclude_instance_fields g) (exclude_static_fields g) (exclude_threads g ++ [new_thread_matcher thread_name]) (exclude_native_globals g).

Definition ExcludeNativeGlobalReference (class_name : list Z) (g : ExcludeMatcherGroup) : ExcludeMatcherGroup :=
  MkGroup (exclude_instance_fields g) (exclude_static_fields g) (exclude_threads g) (exclude_native_globals g ++ [new_native_global_matcher class_name]).

Section Main.
Context `{A : Arch} (file : list Z).

(** [std::to_string] of a [size_t]. *)
Fixpoint digits (fuel : nat) (n : Z) (l : list Z) : list Z :=
  match fuel with
  | O => l
  | S fuel => let l := (48 + n mod 10) :: l in if n / 10 =? 0 then l else digits fuel (n / 10) l
  end.

Definition to_string (n : Z) : list Z := digits 20 n [].

(** The name of the class of an object; of the class itself where it is left through a static field. *)
Definition referent_name (id : Z) (ref : option reference_t) : M Heap (option (list Z)) :=
  c ← (if match ref with Some r => bool_decide (reference_type r = kStaticField) | None => false end then mret (Some id) else GetClass id);
  match c with None => mret None | Some class_id => GetClassName file class_id end.

(** The nodes behind the root; [next_reference] leads to the next one. *)
Fixpoint chain_nodes (next_reference : reference_t) (l : chain) (nodes : list chain_node) : M Heap (option (list chain_node)) :=
  match l with
  | [] => mret (Some nodes)
  | (id, ref) :: l =>
      name ← referent_name id ref;
      match name with
      | None => mret None
      | Some referent =>
          label ← match reference_type next_reference with
                  | kArrayElement => mret (to_string (index next_reference))
                  | _ => s ← GetString file (field_name_id next_reference); mret (default [] s)
                  end;
          t ← GetInstanceType id;
          let nodes := nodes ++ [MkChainNode label (convert_reference_type (reference_type next_reference)) referent (convert_object_type t)] in
          match ref with Some r => chain_nodes r l nodes | None => mret (Some nodes) end
      end
  end.

Definition BuildLeakChain (c : chain) : M Heap (option LeakChain) :=
  match c with
  | [] => mret None
  | (id, ref) :: l =>
      name ← referent_name id ref;
      match name with
      | None => mret None
      | Some referent =>
          t ← GetGcRootType id;
          nodes ← match ref with Some r => chain_nodes r l [] | None => mret (Some []) end;
          mret (option_map (MkLeakChain (MkChainRoot referent (convert_gc_root_type t))) nodes)
      end
  end.

Fixpoint build_chains (l : list (Z * chain)) (ret : list LeakChain) : M Heap (list LeakChain) :=
  match l with
  | [] => mret ret
  | (_, c) :: l => r ← BuildLeakChain c; build_chains l (match r with Some r => ret ++ [r] | None => ret end)
  end.

Definition AnalyzeHeap (leaks : list Z) : M Heap (list LeakChain) :=
  chains ← reads (fun h => find_leak_chains h leaks);
  build_chains (entries chains) [].

(** [leak_finder] is the client. *)
Definition Analyze (group : ExcludeMatcherGroup) (leak_finder : M Heap (list Z)) : M Heap (list LeakChain) :=
  scoped (new_reader 0 (Z.of_nat (length file))) (Parse file group);;
  leaks ← leak_finder;
  AnalyzeHeap leaks.
End Main.
End HprofAnalyzer.
