(* ===== verification/HprofSearch.v ===== *)
(** The search for leak chains finds shortest chains.

    [reach n x]: a chain of [n] references leads from a root to [x].  The invariant [inv] of the
    breadth-first search says what the table [T] of reached objects and the queue [Q] have in
    common, where [D] is the depth of the front of the queue. *)
From stdpp Require Import sorting.
From S2P Require Import Prelude Arch Machine Libc HprofReader HprofHeap HprofEngine HprofAnalyzer.
#[local] Open Scope Z_scope.

Module HprofSearch.
Import HprofReader HprofHeap HprofEngine HprofAnalyzer.

(** * Ordered maps *)

Lemma entries_perm {V} (m : gmap Z V) : entries m ≡ₚ map_to_list m.
Proof. apply merge_sort_Permutation. Qed.

Lemma elem_of_ordered {V} (m : gmap Z V) k v : (k, v) ∈ entries m <-> m !! k = Some v.
Proof. rewrite entries_perm. apply elem_of_map_to_list. Qed.

(** * Chains *)

Section Chains.
Context (E : Z -> Z -> reference_t -> Prop) (roots : list Z).

Inductive reach : nat -> Z -> Prop :=
| reach_root x : x ∈ roots -> reach 0 x
| reach_edge n a b r : reach n a -> E a b r -> reach (S n) b.

(** Each object refers to the next one. *)
Fixpoint walk (c : chain) : Prop :=
  match c with
  | (a, ra) :: rest => match rest with [] => True | (b, _) :: _ => (exists r, ra = Some r /\ E a b r) /\ walk rest end
  | [] => True
  end.

(** The chain starts at a root and ends at [x]. *)
Definition leads (c : chain) (x : Z) (ref : option reference_t) : Prop := (exists a, a ∈ roots /\ head (map fst c) = Some a) /\ last c = Some (x, ref) /\ walk c.

Lemma walk_snoc c p r x ref : walk (c ++ [(p, Some r)]) -> E p x r -> walk ((c ++ [(p, Some r)]) ++ [(x, ref)]).
Proof.
  intros Hw He. induction c as [|[a ra] c IH]; simpl in *; [split; [by exists r|done]|]. destruct (c ++ [(p, Some r)]) as [|[b rb] l] eqn:Ec; [by destruct c|]. simpl in *.
  destruct Hw as [H1 H2]. split; [done|]. by apply IH.
Qed.

Lemma leads_snoc c p r x ref : leads c p (Some r) -> E p x r -> leads (c ++ [(x, ref)]) x ref.
Proof.
  intros ((a & Ha & Hh) & Hl & Hw) He. apply last_Some in Hl as [c' ->]. split; [|split; [apply last_snoc|by apply walk_snoc]]. exists a. split; [done|].
  rewrite map_app. by destruct (map fst (c' ++ [(p, Some r)])).
Qed.

Lemma leads_reach c x ref : leads c x ref -> exists n, length c = S n /\ reach n x.
Proof.
  revert x ref. induction c as [|[b rb] c IH] using rev_ind; intros x ref ((a & Ha & Hh) & Hl & Hw); [done|]. rewrite last_snoc in Hl. simplify_eq.
  destruct c as [|[p rp] c _] using rev_ind; [exists 0%nat; simpl in *; simplify_eq; by split; [|constructor]|].
  assert (exists r, rp = Some r /\ E p x r) as (r & -> & He).
  { clear -Hw. induction c as [|[a ra] c IH]; simpl in Hw; [by destruct Hw|]. apply IH. destruct (c ++ [(p, rp)]) as [|[b rb] l] eqn:Ec; [by destruct c|]. simpl in Hw. by destruct Hw. }
  destruct (IH p (Some r)) as (n & Hn & Hr).
  - split; [exists a; split; [done|]; rewrite map_app in Hh; by destruct (map fst (c ++ [(p, Some r)])) eqn:Ec; [destruct c|]|]. split; [apply last_snoc|].
    clear -Hw. induction c as [|[a ra] c IH]; [done|]. simpl in *. destruct c as [|[b rb] l]; simpl in *; naive_solver.
  - exists (S n). rewrite length_app, Hn. simpl. split; [lia|]. by econstructor.
Qed.

(** What a search answers. *)
Definition chain_spec (leak : Z) (o : option chain) : Prop :=
  match o with
  | Some c => leak ∉ roots /\ leads c leak None /\ forall n, reach n leak -> (length c <= S n)%nat
  | None => leak ∈ roots \/ forall n, ~ reach n leak
  end.

End Chains.

(** The same chains, where every reference of the one graph has one in the other. *)
Lemma reach_same E E' roots n x : (forall a b r, E a b r -> exists r', E' a b r') -> reach E roots n x -> reach E' roots n x.
Proof. intros H Hr. induction Hr as [x Hx|n a b r Hr IH He]; [by constructor|]. destruct (H _ _ _ He) as [r' He']. by econstructor. Qed.

Lemma leads_same E E' roots c x ref : (forall a b r, E a b r -> E' a b r) -> leads E roots c x ref -> leads E' roots c x ref.
Proof.
  intros H (H1 & H2 & Hw). split; [done|]. split; [done|]. clear H1 H2. induction c as [|[a ra] c IH]; [done|]. simpl in *. destruct c as [|[b rb] c]; [done|].
  destruct Hw as [(r & -> & He) Hw]. split; [exists r; by split; [|apply H]|by apply IH].
Qed.

Lemma chain_spec_same E E' roots leak o : (forall a b r, E a b r -> E' a b r) -> (forall a b r, E' a b r -> exists r', E a b r') -> chain_spec E roots leak o -> chain_spec E' roots leak o.
Proof.
  intros H H'. destruct o as [c|]; simpl.
  - intros (Hl & Hc & Hs). split; [done|]. split; [by eapply leads_same|]. intros n Hr. apply Hs. by eapply reach_same.
  - intros [Hl|Hn]; [by left|right]. intros n Hr. apply (Hn n). by eapply reach_same.
Qed.

Definition edge (graph : gmap Z (gmap Z reference_t)) (a b : Z) (r : reference_t) : Prop := exists m, graph !! a = Some m /\ m !! b = Some r.

Section Search.
Context `{A : Arch} (graph : gmap Z (gmap Z reference_t)) (roots : list Z).
Notation edge := (edge graph).
Notation reach := (reach edge roots).
Notation leads := (leads edge roots).
Notation chain_spec := (chain_spec edge roots).

(** * The invariant *)

Definition referents : gset Z := ⋃ (map (fun e => dom e.2) (map_to_list graph)).

Lemma edge_referents a b r : edge a b r -> b ∈ referents.
Proof. intros (m & Ha & Hb). apply elem_of_union_list. exists (dom m). split; [|by apply elem_of_dom]. apply list_elem_of_fmap. exists (a, m). split; [done|]. by apply elem_of_map_to_list. Qed.

Lemma size_union_le (X Y : gset Z) : (size (X ∪ Y) <= size X + size Y)%nat.
Proof. rewrite size_union_alt. pose proof (subseteq_size (Y ∖ X) Y ltac:(set_solver)). lia. Qed.

Lemma size_list_to_set_le (l : list Z) : (size (list_to_set l : gset Z) <= length l)%nat.
Proof. induction l as [|x l IH]; simpl; [reflexivity|]. pose proof (size_union_le {[x]} (list_to_set l)). rewrite size_singleton in *. lia. Qed.

Definition references_count : nat := sum_list_with (fun e => base.size e.2) (map_to_list graph).

Lemma referents_size : (size referents <= references_count)%nat.
Proof.
  unfold referents, references_count. induction (map_to_list graph) as [|[a m] l IH]; simpl; [reflexivity|]. pose proof (size_union_le (dom m) (⋃ map (fun e => dom e.2) l)).
  rewrite size_dom in *. simpl in *. lia.
Qed.

Notation table := (gmap Z ref_node_t).

(** How an object was reached. *)
Definition explained (T : table) (x : Z) (n : ref_node_t) : Prop :=
  referent_id n = x /\ match super n with
  | None => x ∈ roots /\ depth n = 0
  | Some s => edge (referrer_id s) x (reference s) /\ exists p, T !! referrer_id s = Some p /\ depth n = depth p + 1
  end.

(** All references of [x] were followed. *)
Definition closed (T : table) (x : Z) (n : ref_node_t) : Prop := forall y r, edge x y r -> exists m, T !! y = Some m /\ depth m <= depth n + 1.

Record inv (leak : Z) (T : table) (Q : list ref_node_t) (D : Z) : Prop := MkInv {
  iv_roots x : x ∈ roots -> exists n, T !! x = Some n /\ depth n = 0;
  iv_explained x n : T !! x = Some n -> explained T x n;
  iv_depth x n : T !! x = Some n -> 0 <= depth n < Z.of_nat (base.size T);
  iv_reach x n : T !! x = Some n -> reach (Z.to_nat (depth n)) x;
  iv_queue n : n ∈ Q -> T !! referent_id n = Some n /\ D <= depth n;
  iv_limit x n : T !! x = Some n -> depth n <= D + 1;
  iv_closed x n : T !! x = Some n -> n ∈ Q \/ closed T x n;
  iv_sorted : StronglySorted (fun a b => depth a <= depth b) Q;
  iv_dom x n : T !! x = Some n -> x ∈ roots \/ x ∈ referents;
  iv_leak : is_Some (T !! leak) -> leak ∈ roots
}.

(** Every object nearer than the front is in the table. *)
Lemma inv_near leak T Q D n x : inv leak T Q D -> reach n x -> Z.of_nat n <= D -> exists m, T !! x = Some m /\ depth m <= Z.of_nat n.
Proof.
  intros Hi Hr. induction Hr as [x Hx|n a b r Hr IH He]; intros Hn; [destruct (iv_roots _ _ _ _ Hi _ Hx) as (m & Hm & Ed); exists m; split; [done|lia]|].
  destruct IH as (m & Hm & Hd); [lia|]. destruct (iv_closed _ _ _ _ Hi _ _ Hm) as [Hq|Hc].
  - destruct (iv_queue _ _ _ _ Hi _ Hq). lia.
  - destruct (Hc _ _ He) as (m' & Hm' & Hd'). exists m'. split; [done|lia].
Qed.

(** Where the queue is empty, every reachable object is in the table. *)
Lemma inv_all leak T D n x : inv leak T [] D -> reach n x -> is_Some (T !! x).
Proof.
  intros Hi Hr. induction Hr as [x Hx|n a b r Hr IH He]; [destruct (iv_roots _ _ _ _ Hi _ Hx) as (m & Hm & _); by exists m|].
  destruct IH as [m Hm]. destruct (iv_closed _ _ _ _ Hi _ _ Hm) as [Hq|Hc]; [by apply not_elem_of_nil in Hq|]. destruct (Hc _ _ He) as (m' & Hm' & _). by exists m'.
Qed.

Lemma inv_size leak T Q D : inv leak T Q D -> (base.size T <= length roots + references_count)%nat.
Proof.
  intros Hi. rewrite <- size_dom. transitivity (size (list_to_set roots ∪ referents : gset Z)).
  - apply subseteq_size. intros x [n Hn]%elem_of_dom. apply (iv_dom _ _ _ _ Hi) in Hn as [?|?]; set_solver.
  - pose proof (size_union_le (list_to_set roots : gset Z) referents). pose proof referents_size. pose proof (size_list_to_set_le roots). lia.
Qed.

(** * Steps of the search *)

(** The front of the queue may move on. *)
Lemma inv_advance leak T Q D D' : inv leak T Q D -> D <= D' -> (forall n, n ∈ Q -> D' <= depth n) -> inv leak T Q D'.
Proof.
  intros Hi HD Hq. destruct Hi as [H1 H2 H3 H4 H5 H6 H7 H8 H9 H10]. split; try done.
  - intros n Hn. split; [by apply H5|by apply Hq].
  - intros x n Hn. pose proof (H6 _ _ Hn). lia.
Qed.

Lemma explained_mono (T T' : table) x n : T ⊆ T' -> explained T x n -> explained T' x n.
Proof. intros HT [H1 H2]. split; [done|]. destruct (super n); [|done]. destruct H2 as (He & p & Hp & Hd). split; [done|]. exists p. split; [by apply (lookup_weaken T)|done]. Qed.

Lemma closed_mono (T T' : table) x n : T ⊆ T' -> closed T x n -> closed T' x n.
Proof. intros HT H y r He. destruct (H _ _ He) as (m & Hm & Hd). exists m. split; [by apply (lookup_weaken T)|done]. Qed.

(** A new object, one reference behind the front. *)
Definition behind (node : ref_node_t) (y : Z) (r : reference_t) : ref_node_t := MkNode y (Some (MkSuper (referent_id node) r)) (depth node + 1).

Section Insert.
Context (leak : Z) (T : table) (node : ref_node_t) (Q : list ref_node_t) (Hi : inv leak T (node :: Q) (depth node)).
Context (y : Z) (r : reference_t) (Hy : T !! y = None) (He : edge (referent_id node) y r).
Notation T' := (<[y := behind node y r]> T).

Lemma insert_above : T ⊆ T'.
Proof. by apply insert_subseteq. Qed.

Lemma front_found : T !! referent_id node = Some node.
Proof. by apply (iv_queue _ _ _ _ Hi), list_elem_of_here. Qed.

Lemma insert_lookup x n : T' !! x = Some n -> x = y /\ n = behind node y r \/ T !! x = Some n.
Proof. intros [[-> <-]|[_ ?]]%lookup_insert_Some; [by left|by right]. Qed.

Lemma insert_explained x n : T' !! x = Some n -> explained T' x n.
Proof.
  intros [[-> ->]|Hn]%insert_lookup; [|by eapply explained_mono, iv_explained; [apply insert_above| |]]. split; [done|]. split; [done|]. exists node. split; [|done].
  eapply lookup_weaken; [apply front_found|apply insert_above].
Qed.

Lemma insert_depth x n : T' !! x = Some n -> 0 <= depth n < Z.of_nat (base.size T').
Proof.
  rewrite map_size_insert_None by done. pose proof (iv_depth _ _ _ _ Hi _ _ front_found). intros [[-> ->]|Hn]%insert_lookup; [simpl; lia|].
  pose proof (iv_depth _ _ _ _ Hi _ _ Hn). lia.
Qed.

Lemma insert_reach x n : T' !! x = Some n -> reach (Z.to_nat (depth n)) x.
Proof.
  intros [[-> ->]|Hn]%insert_lookup; [|by eapply iv_reach]. pose proof (iv_depth _ _ _ _ Hi _ _ front_found). simpl. replace (Z.to_nat (depth node + 1)) with (S (Z.to_nat (depth node))) by lia.
  eapply reach_edge; [|done]. by eapply iv_reach, front_found.
Qed.

Lemma insert_roots x : x ∈ roots -> exists n, T' !! x = Some n /\ depth n = 0.
Proof. intros Hx. destruct (iv_roots _ _ _ _ Hi _ Hx) as (n & Hn & Hd). exists n. split; [|done]. by eapply lookup_weaken, insert_above. Qed.

(** The suspect is found at its distance. *)
Lemma insert_nearest n : reach n y -> depth node + 1 <= Z.of_nat n.
Proof. intros Hr. destruct (decide (depth node + 1 <= Z.of_nat n)) as [?|Hn]; [done|]. destruct (inv_near _ _ _ _ _ _ Hi Hr) as (m & Hm & _); [lia|]. congruence. Qed.

Lemma insert_inv : leak <> y -> inv leak T' (node :: Q ++ [behind node y r]) (depth node).
Proof.
  intros Hl. split.
  - apply insert_roots.
  - apply insert_explained.
  - apply insert_depth.
  - apply insert_reach.
  - intros n Hn. rewrite app_comm_cons in Hn. apply elem_of_app in Hn as [Hn|Hn]; [|apply list_elem_of_singleton in Hn as ->; simpl; rewrite lookup_insert_eq; by split; [|lia]].
    destruct (iv_queue _ _ _ _ Hi _ Hn) as [H1 H2]. split; [|done]. eapply lookup_weaken, insert_above. done.
  - intros x n [[-> ->]|Hn]%insert_lookup; [simpl; lia|]. by eapply iv_limit.
  - intros x n [[-> ->]|Hn]%insert_lookup; [left; rewrite app_comm_cons; apply elem_of_app; right; by apply list_elem_of_singleton|].
    destruct (iv_closed _ _ _ _ Hi _ _ Hn) as [Hq|Hc]; [left; rewrite app_comm_cons; apply elem_of_app; by left|right]. by eapply closed_mono, Hc; apply insert_above.
  - rewrite app_comm_cons. pose proof (iv_sorted _ _ _ _ Hi) as Hs. apply StronglySorted_app_2; [|done|repeat constructor]. intros a b Ha ->%list_elem_of_singleton. simpl.
    by eapply (iv_limit _ _ _ _ Hi), (iv_queue _ _ _ _ Hi).
  - intros x n [[-> ->]|Hn]%insert_lookup; [right; by eapply edge_referents|]. by eapply iv_dom.
  - rewrite lookup_insert_ne by done. by eapply iv_leak.
Qed.
End Insert.

(** The table leads from the suspect back to a root, by a shortest way. *)
Record discovered (leak : Z) (T : table) : Prop := MkDiscovered {
  di_root : leak ∉ roots;
  di_explained x n : T !! x = Some n -> explained T x n;
  di_depth x n : T !! x = Some n -> 0 <= depth n < Z.of_nat (base.size T);
  di_near : exists n, T !! leak = Some n /\ forall k, reach k leak -> depth n <= Z.of_nat k
}.

Lemma insert_discovered T node Q leak r : inv leak T (node :: Q) (depth node) -> T !! leak = None -> edge (referent_id node) leak r -> discovered leak (<[leak := behind node leak r]> T).
Proof.
  intros Hi Hl He. split.
  - intros Hr. destruct (iv_roots _ _ _ _ Hi _ Hr) as (n & Hn & _). congruence.
  - by eapply insert_explained.
  - by eapply insert_depth.
  - exists (behind node leak r). split; [apply lookup_insert_eq|]. intros k Hk. by eapply insert_nearest.
Qed.

Definition open_referents (T : table) : nat := size (referents ∖ dom T).

Lemma open_insert T y n : T !! y = None -> y ∈ referents -> S (open_referents (<[y := n]> T)) = open_referents T.
Proof.
  intros Hy Hr. unfold open_referents. rewrite dom_insert_L. replace (referents ∖ dom T) with ({[y]} ∪ (referents ∖ ({[y]} ∪ dom T))).
  - rewrite (size_union {[y]} (referents ∖ ({[y]} ∪ dom T))) by set_solver. by rewrite size_singleton.
  - apply not_elem_of_dom in Hy. apply set_eq. intros x. destruct (decide (x = y)) as [->|]; set_solver.
Qed.

Context (Hfit : Z.of_nat (length roots + references_count) < 2 ^ word_bits).

Lemma front_fits leak T node Q D : inv leak T (node :: Q) D -> uword (depth node + 1) = depth node + 1.
Proof.
  intros Hi. pose proof (inv_size _ _ _ _ Hi). destruct (iv_queue _ _ _ _ Hi node (list_elem_of_here _ _)) as [Hn _]. pose proof (iv_depth _ _ _ _ Hi _ _ Hn).
  apply uword_small. lia.
Qed.

Lemma expand_spec leak node l T Q (s := expand leak node l (MkSearch T Q false)) :
  inv leak T (node :: Q) (depth node) -> (forall y r, (y, r) ∈ l -> edge (referent_id node) y r) ->
  if found s then discovered leak (traversed s)
  else inv leak (traversed s) (node :: waiting s) (depth node) /\ T ⊆ traversed s /\ (forall y r, (y, r) ∈ l -> is_Some (traversed s !! y))
       /\ (length (waiting s) + open_referents (traversed s) = length Q + open_referents T)%nat.
Proof.
  subst s. revert T Q. induction l as [|[y r] l IH]; intros T Q Hi Hl; simpl; [split_and!; [done|done|by intros ?? ?%not_elem_of_nil|done]|].
  assert (edge (referent_id node) y r) as He by (apply Hl, list_elem_of_here). assert (forall y r, (y, r) ∈ l -> edge (referent_id node) y r) as Hl' by (intros; by apply Hl, list_elem_of_further).
  rewrite (front_fits _ _ _ _ _ Hi). destruct (T !! y) as [n|] eqn:Hy.
  - replace (depth n <=? depth node + 1) with true by (symmetry; apply Z.leb_le; by eapply iv_limit). specialize (IH T Q Hi Hl'). destruct (found _); [done|].
    destruct IH as (H1 & H2 & H3 & H4). split_and!; try done. intros z rz [[= -> ->]|Hz]%elem_of_cons; [|by eapply H3]. exists n. by eapply lookup_weaken.
  - destruct (Z.eqb_spec leak y) as [->|Hne]; simpl; [by eapply insert_discovered|]. specialize (IH _ _ (insert_inv _ _ _ _ Hi y r Hy He Hne) Hl'). fold (behind node y r).
    destruct (found _); [done|]. destruct IH as (H1 & H2 & H3 & H4). split_and!; [done|by etrans; [apply insert_subseteq|]| |].
    + intros z rz [[= -> ->]|Hz]%elem_of_cons; [|by eapply H3]. eexists. eapply lookup_weaken; [apply lookup_insert_eq|done].
    + rewrite H4, length_app. simpl. rewrite <- (open_insert T y (behind node y r)) by (done || by eapply edge_referents). lia.
Qed.

(** The front leaves the queue when its references were followed. *)
Lemma inv_pop leak T node Q : inv leak T (node :: Q) (depth node) -> (forall y r, edge (referent_id node) y r -> is_Some (T !! y)) -> inv leak T Q (depth node).
Proof.
  intros Hi Hc. assert (forall x n, T !! x = Some n -> depth n <= depth node + 1) as Hlim by by eapply iv_limit. destruct Hi as [H1 H2 H3 H4 H5 H6 H7 H8 H9 H10]. split; try done.
  - intros n Hn. by apply H5, list_elem_of_further.
  - intros x n Hn. destruct (H7 _ _ Hn) as [[->|Hq]%elem_of_cons|?]; [|by left|by right]. right. destruct (H2 _ _ Hn) as [<- _].
    intros y r He. destruct (Hc _ _ He) as [m Hm]. exists m. split; [done|by eapply Hlim].
  - by apply StronglySorted_inv in H8 as [? _].
Qed.

Lemma inv_front leak T node Q D : inv leak T (node :: Q) D -> inv leak T (node :: Q) (depth node).
Proof.
  intros Hi. eapply inv_advance; [done|by apply (iv_queue _ _ _ _ Hi), list_elem_of_here|]. pose proof (iv_sorted _ _ _ _ Hi) as [_ Hf]%StronglySorted_inv.
  intros n [->|Hn]%elem_of_cons; [done|]. by eapply Forall_forall in Hf.
Qed.

(** What the search ends with. *)
Definition searched (leak : Z) (s : search) : Prop := if found s then discovered leak (traversed s) else exists D, inv leak (traversed s) [] D.

Lemma search_loop_ok leak fuel T Q D : inv leak T Q D -> (length Q + open_referents T < fuel)%nat -> exists s, search_loop graph leak fuel (MkSearch T Q false) = Ok s /\ searched leak s.
Proof.
  revert T Q D. induction fuel as [|fuel IH]; intros T Q D Hi Hf; [lia|]. destruct Q as [|node Q]; [eexists; split; [done|by exists D]|]. simpl in Hf |- *. apply inv_front in Hi.
  destruct (graph !! referent_id node) as [refs|] eqn:Hg.
  - assert (forall y r, (y, r) ∈ entries refs <-> edge (referent_id node) y r) as He.
    { intros y r. rewrite elem_of_ordered. split; [by exists refs|]. intros (m & Hm & Hr). congruence. }
    pose proof (expand_spec leak node (entries refs) T Q Hi (fun y r => proj1 (He y r))) as Hx. destruct (expand _ _ _ _) as [T' Q' []]; simpl in *; [eexists; split; [done|done]|].
    destruct Hx as (Hi' & _ & Hall & Hm). eapply IH; [eapply inv_pop; [done|]|lia]. intros y r Hy. by eapply Hall, He.
  - eapply IH; [eapply inv_pop; [done|]|lia]. intros y r (m & Hm & _). congruence.
Qed.

(** * The start *)

Definition root_node (x : Z) : ref_node_t := MkNode x None 0.

Lemma start_waiting rs s : waiting (start rs s) = waiting s ++ map root_node rs /\ found (start rs s) = found s.
Proof. revert s. induction rs as [|x rs IH]; intros s; simpl; [by rewrite app_nil_r|]. destruct (IH (MkSearch (<[x := root_node x]> (traversed s)) (waiting s ++ [root_node x]) (found s))) as [H1 H2]. unfold root_node in *. rewrite H1, H2. simpl. by rewrite <- app_assoc. Qed.

Lemma start_traversed rs s x : traversed (start rs s) !! x = if decide (x ∈ rs) then Some (root_node x) else traversed s !! x.
Proof.
  revert s. induction rs as [|y rs IH]; intros s; simpl; [done|]. rewrite IH. simpl. destruct (decide (x ∈ rs)) as [Hx|Hx]; [by rewrite decide_True by by apply list_elem_of_further|].
  destruct (decide (x = y)) as [->|Hne]; [rewrite lookup_insert_eq, decide_True by apply list_elem_of_here; done|]. rewrite lookup_insert_ne by done. rewrite decide_False; [done|]. by intros [?|?]%elem_of_cons.
Qed.

Lemma start_inv leak (s := start roots (MkSearch ∅ [] false)) : inv leak (traversed s) (waiting s) 0.
Proof.
  assert (forall x n, traversed s !! x = Some n <-> x ∈ roots /\ n = root_node x) as HT.
  { intros x n. unfold s. rewrite start_traversed. destruct (decide _); naive_solver. }
  assert (waiting s = map root_node roots) as -> by apply start_waiting. clearbody s. split.
  - intros x Hx. exists (root_node x). by rewrite HT.
  - intros x n [Hx ->]%HT. by split; [|split].
  - intros x n Hn. pose proof Hn as [Hx ->]%HT. simpl. split; [done|]. assert (size (traversed s) <> 0%nat); [|lia]. rewrite map_size_ne_0_lookup. by exists x; exists (root_node x).
  - intros x n [Hx ->]%HT. by constructor.
  - intros n (x & -> & Hx)%list_elem_of_fmap. simpl. by rewrite HT.
  - intros x n [Hx ->]%HT. simpl. lia.
  - intros x n [Hx ->]%HT. left. by apply list_elem_of_fmap_2.
  - clear. induction roots as [|x l IH]; simpl; [constructor|]. constructor; [done|]. apply Forall_map, Forall_true. intros. simpl. lia.
  - intros x n [Hx _]%HT. by left.
  - intros [n [Hx _]%HT]. done.
Qed.

(** * The way back *)

Lemma chain_loop_ok (T : table) x n ref ret fuel :
  (forall x n, T !! x = Some n -> explained T x n /\ 0 <= depth n) -> T !! x = Some n -> (Z.to_nat (depth n) < fuel)%nat ->
  exists c, chain_loop fuel T x ref ret = Ok (ret ++ rev c) /\ leads c x ref /\ Z.of_nat (length c) = depth n + 1.
Proof.
  intros HT. revert x n ref ret. induction fuel as [|fuel IH]; intros x n ref ret Hx Hf; [lia|]. simpl. rewrite Hx. destruct (HT _ _ Hx) as [[_ He] Hd]. destruct (super n) as [[p r]|]; simpl in *.
  - destruct He as (He & np & Hp & Ed). destruct (HT _ _ Hp) as [_ Hdp]. destruct (IH p np (Some r) (ret ++ [(x, ref)]) Hp) as (c & -> & Hl & Hlen); [lia|].
    exists (c ++ [(x, ref)]). split; [by rewrite rev_app_distr, <- app_assoc|]. split; [by eapply leads_snoc|]. rewrite length_app. simpl. lia.
  - destruct He as [Hr E]. exists [(x, ref)]. split; [done|]. split; [|simpl; lia]. split; [by exists x|]. by split.
Qed.

Lemma leak_chain_ok leak : exists o, leak_chain graph leak roots = Ok o /\ chain_spec leak o.
Proof.
  unfold leak_chain. destruct (start_waiting roots (MkSearch ∅ [] false)) as [Hw Hfd]. pose proof (start_inv leak) as Hi. cbv zeta in Hi. destruct (start roots _) as [T Q b]. cbn [waiting found traversed app] in Hw, Hfd, Hi. subst Q b.
  edestruct search_loop_ok as (s & -> & Hs); [exact Hi| |].
  { rewrite length_map. unfold search_fuel. fold references_count. pose proof referents_size. pose proof (subseteq_size (referents ∖ dom T) referents ltac:(set_solver)). unfold open_referents. lia. }
  cbn [mbind result_bind]. unfold searched in Hs. destruct (found s).
  - destruct Hs as [Hr He Hd (n & Hn & Hk)]. edestruct (chain_loop_ok (traversed s) leak n None []) as (c & -> & Hl & Hlen); [|done| |].
    + intros x m Hm. split; [by apply He|by apply (Hd _ _ Hm)].
    + pose proof (Hd _ _ Hn). lia.
    + simpl. eexists. split; [done|]. rewrite rev_involutive. split; [done|]. split; [done|]. intros k Hrk. pose proof (Hk _ Hrk). lia.
  - destruct Hs as [D HD]. eexists. split; [done|]. destruct (decide (leak ∈ roots)) as [?|Hn]; [by left|right]. intros n Hr. apply Hn, (iv_leak _ _ _ _ HD). by eapply inv_all.
Qed.
End Search.

(** * All suspects *)

Section Chains.
Context `{A : Arch} (h : Heap) (Hfit : Z.of_nat (length (gc_roots_ h) + references_count (references_ h)) < 2 ^ word_bits).

Lemma chains_loop_ok tracked ret :
  exists m, chains_loop h tracked ret = Ok m /\ forall leak o, leak_chain (references_ h) leak (gc_roots_ h) = Ok o ->
    m !! leak = if decide (leak ∈ tracked) then match o with Some c => Some c | None => ret !! leak end else ret !! leak.
Proof.
  revert ret. induction tracked as [|x tracked IH]; intros ret; simpl; [by eexists|]. destruct (leak_chain_ok _ _ Hfit x) as (ox & Ex & _). rewrite Ex. simpl.
  destruct (IH (match ox with Some c => <[x := c]> ret | None => ret end)) as (m & -> & Hm). exists m. split; [done|]. intros leak o Eo. rewrite (Hm _ _ Eo).
  destruct (decide (x = leak)) as [->|Hne].
  - destruct (decide (leak ∈ leak :: tracked)) as [_|[]]; [|apply list_elem_of_here]. assert (o = ox) as -> by congruence. destruct ox as [c|]; [|by destruct (decide _)]. rewrite lookup_insert_eq. by destruct (decide _).
  - assert (forall c, <[x := c]> ret !! leak = ret !! leak) as Hret by (intros; by apply lookup_insert_ne). destruct (decide (leak ∈ tracked)).
    + destruct (decide (leak ∈ x :: tracked)) as [_|[]]; [|by apply list_elem_of_further]. destruct ox; by rewrite ?Hret.
    + destruct (decide (leak ∈ x :: tracked)) as [[?|?]%elem_of_cons|_]; [done|done|]. destruct ox; by rewrite ?Hret.
Qed.
End Chains.

Lemma chains_found `{A : Arch} (h : Heap) tracked :
  Z.of_nat (length (gc_roots_ h) + references_count (references_ h)) < 2 ^ word_bits ->
  exists m, find_leak_chains h tracked = Ok m /\ forall leak,
    (leak ∉ tracked -> m !! leak = None) /\
    (leak ∈ tracked -> chain_spec (edge (references_ h)) (gc_roots_ h) leak (m !! leak)).
Proof.
  intros Hfit. destruct (chains_loop_ok h Hfit tracked ∅) as (m & Em & Hm). exists m. split; [done|]. intros leak. destruct (leak_chain_ok _ _ Hfit leak) as (o & Eo & Ho).
  rewrite (Hm _ _ Eo), lookup_empty. split; intros Hl; [by rewrite decide_False|]. rewrite decide_True by done. by destruct o.
Qed.

(** C16. The search for leak chains ends for every heap whose roots and references can be counted in a [size_t] and every list of suspects, without running out of fuel or throwing. A suspect gets a chain if and only if it is no root itself and is reachable from one; the chain starts at a root, each of its references is one of the heap's, it ends in the suspect, and no chain is shorter. *)
Theorem leak_chains_shortest `{A : Arch} (h : Heap) tracked :
  Z.of_nat (length (gc_roots_ h) + references_count (references_ h)) < 2 ^ word_bits ->
  exists m, find_leak_chains h tracked = Ok m /\ forall leak,
    (leak ∉ tracked -> m !! leak = None) /\
    (leak ∈ tracked -> chain_spec (edge (references_ h)) (gc_roots_ h) leak (m !! leak)).
Proof. apply chains_found. Qed.

(** The heap of the unit test of the analyzer: two roots, a cycle, two suspects. *)
Definition sample_heap : Heap :=
  let add a f b h := (AddFieldReference a f b false h).2 in
  (MarkGcRoot 6 kRootUnknown (MarkGcRoot 1 kRootUnknown
    (add 9 0x10a 10 (add 1 0x109 9 (add 8 0x108 5 (add 8 0x107 7 (add 7 0x106 8 (add 6 0x105 7 (add 4 0x104 5 (add 3 0x103 4 (add 2 0x102 3 (add 1 0x101 2 empty_heap))))))))))).2).2.

Lemma leak_chains_shortest_witness : exists m,
  find_leak_chains (A := arch_aarch64) sample_heap [5; 10; 11; 1] = Ok m
  /\ m !! 5 = Some [(6, Some (field_reference 0x105 false)); (7, Some (field_reference 0x106 false)); (8, Some (field_reference 0x108 false)); (5, None)]
  /\ m !! 11 = None /\ m !! 1 = None
  /\ chain_spec (edge (references_ sample_heap)) (gc_roots_ sample_heap) 5 (m !! 5).
Proof.
  destruct (leak_chains_shortest (A := arch_aarch64) sample_heap [5; 10; 11; 1] ltac:(vm_compute; reflexivity)) as (m & Em & Hm).
  exists m. split; [exact Em|]. vm_compute in Em. injection Em as <-. split; [vm_compute; reflexivity|]. split; [vm_compute; reflexivity|]. split; [vm_compute; reflexivity|].
  apply (Hm 5). apply list_elem_of_here.
Defined.
End HprofSearch.
