(* ===== verification/HprofDump.v ===== *)
(** The format of heap dumps.

    A dump as data, what its bytes are ([encode]) and what a record tells about the heap
    ([sub_effect], [record_effect]).  Identifiers take [n] bytes; all numbers are big-endian.  The
    parser is compared with this description in HprofRoundTrip. *)
From S2P Require Import Prelude Arch Machine Libc HprofReader HprofHeap HprofEngine.
#[local] Open Scope Z_scope.

Module HprofDump.
Import HprofReader HprofHeap HprofEngine.

Definition zlen {X} (l : list X) : Z := Z.of_nat (length l).

(** The [k] bytes of [v]. *)
Fixpoint be (k : nat) (v : Z) : list Z := match k with O => [] | S k => (v / 2 ^ (8 * Z.of_nat k)) mod 256 :: be k v end.

Definition below (k : nat) (v : Z) : Prop := 0 <= v < 2 ^ (8 * Z.of_nat k).

(** * Records *)

Record constant_dump := MkConstant { constant_index : Z; constant_type : value_type_t; constant_value : list Z }.

Inductive static_dump :=
| StaticObject (name referent : Z)
| StaticPrimitive (name : Z) (t : value_type_t) (value : list Z).

(** [class_reserved]: the loader, the signers, the protection domain and two unused identifiers. *)
Record class_dump := MkClass {
  class_id : Z; class_trace : Z; class_super : Z; class_reserved : list Z; class_instance_size : Z;
  class_constants : list constant_dump; class_statics : list static_dump; class_fields : list field_t
}.

Inductive sub_record :=
| SubRoot (t : gc_root_type_t) (id : Z) (rest : list Z)
| SubJavaFrame (id thread : Z) (rest : list Z)
| SubThreadObject (id thread : Z) (rest : list Z)
| SubClass (c : class_dump)
| SubInstance (id trace cls : Z) (data : list Z)
| SubObjectArray (id trace cls : Z) (elements : list Z)
| SubPrimitiveArray (id trace : Z) (t : value_type_t) (count : Z) (data : list Z)
| SubPrimitiveArrayNoData (id : Z) (rest : list Z)
| SubHeapInfo (rest : list Z).

Inductive record :=
| RecString (id : Z) (text : list Z)
| RecLoadClass (id name : Z) (serial trace : Z)
| RecHeap (segment : bool) (subs : list sub_record)
| RecOther (tag : Z) (body : list Z).

(** A dump: the version, the size of identifiers, the time, and the records; every record has a time of its own. *)
Record dump := MkDump { dump_version : list Z; dump_id_size : nat; dump_time : Z; dump_records : list (Z * record); dump_end_time : Z; dump_end_length : Z; dump_rest : list Z }.

Definition root_tag (t : gc_root_type_t) : Z :=
  match t with
  | kRootUnknown => 0xff | kRootJniGlobal => 0x01 | kRootJniLocal => 0x02 | kRootJavaFrame => 0x03 | kRootNativeStack => 0x04 | kRootStickyClass => 0x05
  | kRootThreadBlock => 0x06 | kRootMonitorUsed => 0x07 | kRootThreadObject => 0x08 | kRootInternedString => 0x89 | kRootFinalizing => 0x8a | kRootDebugger => 0x8b
  | kRootReferenceCleanup => 0x8c | kRootVMInternal => 0x8d | kRootJniMonitor => 0x8e | kRootUnreachable => 0x90
  end.

Section Encode.
Context (n : nat).

(** What follows the identifier of a root. *)
Definition root_rest (t : gc_root_type_t) : nat :=
  match t with
  | kRootJniGlobal => n
  | kRootJniLocal | kRootJavaFrame | kRootThreadObject | kRootJniMonitor => 8
  | kRootNativeStack | kRootThreadBlock => 4
  | _ => 0
  end.

Definition width (t : value_type_t) : nat := match t with kObject => n | _ => Z.to_nat (get_value_type_size t) end.

(** * Bytes *)

Definition encode_constant (c : constant_dump) : list Z := be 2 (constant_index c) ++ be 1 (value_type_code (constant_type c)) ++ constant_value c.

Definition encode_static (s : static_dump) : list Z :=
  match s with
  | StaticObject name referent => be n name ++ be 1 (value_type_code kObject) ++ be n referent
  | StaticPrimitive name t value => be n name ++ be 1 (value_type_code t) ++ value
  end.

Definition encode_field (f : field_t) : list Z := be n (name_id f) ++ be 1 (value_type_code (type f)).

Definition encode_class (c : class_dump) : list Z :=
  be n (class_id c) ++ be 4 (class_trace c) ++ be n (class_super c) ++ class_reserved c ++ be 4 (class_instance_size c)
  ++ be 2 (zlen (class_constants c)) ++ concat (map encode_constant (class_constants c))
  ++ be 2 (zlen (class_statics c)) ++ concat (map encode_static (class_statics c))
  ++ be 2 (zlen (class_fields c)) ++ concat (map encode_field (class_fields c)).

Definition sub_tag (s : sub_record) : Z :=
  match s with
  | SubRoot t _ _ => root_tag t
  | SubJavaFrame _ _ _ => 0x03
  | SubThreadObject _ _ _ => 0x08
  | SubClass _ => 0x20
  | SubInstance _ _ _ _ => 0x21
  | SubObjectArray _ _ _ _ => 0x22
  | SubPrimitiveArray _ _ _ _ _ => 0x23
  | SubPrimitiveArrayNoData _ _ => 0xc3
  | SubHeapInfo _ => 0xfe
  end.

Definition sub_body (s : sub_record) : list Z :=
  match s with
  | SubRoot _ id rest => be n id ++ rest
  | SubJavaFrame id thread rest | SubThreadObject id thread rest => be n id ++ be 4 thread ++ rest
  | SubClass c => encode_class c
  | SubInstance id trace cls data => be n id ++ be 4 trace ++ be n cls ++ be 4 (zlen data) ++ data
  | SubObjectArray id trace cls elements => be n id ++ be 4 trace ++ be 4 (zlen elements) ++ be n cls ++ concat (map (be n) elements)
  | SubPrimitiveArray id trace t count data => be n id ++ be 4 trace ++ be 4 count ++ be 1 (value_type_code t) ++ data
  | SubPrimitiveArrayNoData id rest => be n id ++ rest
  | SubHeapInfo rest => rest
  end.

Definition encode_sub (s : sub_record) : list Z := be 1 (sub_tag s) ++ sub_body s.

Definition record_tag (r : record) : Z :=
  match r with RecString _ _ => 0x01 | RecLoadClass _ _ _ _ => 0x02 | RecHeap segment _ => if segment then 0x1c else 0x0c | RecOther tag _ => tag end.

Definition record_body (r : record) : list Z :=
  match r with
  | RecString id text => be n id ++ text
  | RecLoadClass id name serial trace => be 4 serial ++ be n id ++ be 4 trace ++ be n name
  | RecHeap _ subs => concat (map encode_sub subs)
  | RecOther _ body => body
  end.

Definition encode_record (e : Z * record) : list Z := be 1 (record_tag e.2) ++ be 4 e.1 ++ be 4 (zlen (record_body e.2)) ++ record_body e.2.

(** * Formats *)

Definition wf_static (s : static_dump) : Prop :=
  match s with StaticObject name referent => below n name /\ below n referent | StaticPrimitive name t value => below n name /\ t <> kObject /\ length value = width t end.

Definition wf_class (c : class_dump) : Prop :=
  below n (class_id c) /\ below n (class_super c) /\ length (class_reserved c) = (5 * n)%nat
  /\ below 2 (zlen (class_constants c)) /\ Forall (fun c => length (constant_value c) = width (constant_type c)) (class_constants c)
  /\ below 2 (zlen (class_statics c)) /\ Forall wf_static (class_statics c)
  /\ below 2 (zlen (class_fields c)) /\ Forall (fun f => below n (name_id f)) (class_fields c).

Definition wf_sub (s : sub_record) : Prop :=
  match s with
  | SubRoot t id rest => t <> kRootJavaFrame /\ t <> kRootThreadObject /\ below n id /\ length rest = root_rest t
  | SubJavaFrame id thread rest | SubThreadObject id thread rest => below n id /\ below 4 thread /\ length rest = 4%nat
  | SubClass c => wf_class c
  | SubInstance id _ cls data => below n id /\ below n cls /\ below 4 (zlen data)
  | SubObjectArray id _ cls elements => below n id /\ below n cls /\ below 4 (zlen elements) /\ Forall (below n) elements
  | SubPrimitiveArray id _ t count data => below n id /\ below 4 count /\ t <> kObject /\ zlen data = count * get_value_type_size t
  | SubPrimitiveArrayNoData id rest => below n id /\ length rest = 9%nat
  | SubHeapInfo rest => length rest = (4 + n)%nat
  end.

Definition wf_record (r : record) : Prop :=
  below 4 (zlen (record_body r)) /\
  match r with
  | RecString id _ => below n id
  | RecLoadClass id name _ _ => below n id /\ below n name
  | RecHeap _ subs => Forall wf_sub subs
  | RecOther tag _ => below 1 tag /\ tag ∉ [0x01; 0x02; 0x0c; 0x1c; 0x2c]
  end.
End Encode.

(** The records end with one of kind 0x2c; what follows is not looked at. *)
Definition encode_header (d : dump) : list Z := dump_version d ++ [0] ++ be 4 (Z.of_nat (dump_id_size d)) ++ be 8 (dump_time d).

Definition encode (d : dump) : list Z := encode_header d ++ concat (map (encode_record (dump_id_size d)) (dump_records d)) ++ be 1 0x2c ++ be 4 (dump_end_time d) ++ be 4 (dump_end_length d) ++ dump_rest d.

Definition wf_dump (d : dump) : Prop :=
  dump_version d ∈ versions /\ (1 <= dump_id_size d <= 8)%nat /\ Forall (fun e => wf_record (dump_id_size d) e.2) (dump_records d) /\ below 4 (dump_end_length d).

(** * Meaning *)

Section Effects.
Context `{A : Arch} (file : list Z) (group : ExcludeMatcherGroup) (n : nat).

Fixpoint each {X} (f : X -> M Heap unit) (l : list X) : M Heap unit := match l with [] => mret tt | x :: l => f x;; each f l end.

Definition mark (id : Z) (t : gc_root_type_t) : M Heap unit := if id =? 0 then mret tt else MarkGcRoot id t.

Definition static_effect (c : Z) (matchers : list flat_matcher) (s : static_dump) : M Heap unit :=
  match s with
  | StaticObject name referent => if match_field name matchers then AddFieldExcludedReference c name referent true else AddFieldReference c name referent true
  | StaticPrimitive _ _ _ => mret tt
  end.

Definition class_effect (c : class_dump) : M Heap unit :=
  AddInstanceTypeRecord (class_id c) kClass;;
  AddInheritanceRecord (class_id c) (class_super c);;
  matchers ← flatten_field_exclude_matchers file [] (exclude_static_fields group);
  matchers ← match_class (class_id c) matchers;
  each (static_effect (class_id c) matchers) (class_statics c);;
  each (AddInstanceFieldRecord (class_id c)) (class_fields c).

Fixpoint elements_effect (id i : Z) (elements : list Z) : M Heap unit :=
  match elements with [] => mret tt | r :: elements => AddArrayReference id i r;; elements_effect id (i + 1) elements end.

(** What the subrecord with its body at [pos] says. *)
Definition sub_effect (pos : Z) (s : sub_record) : M Heap unit :=
  match s with
  | SubRoot t id _ => mark id t
  | SubJavaFrame id thread _ => mark id kRootJavaFrame;; if id =? 0 then mret tt else AddThreadReferenceRecord id thread
  | SubThreadObject id thread _ => mark id kRootThreadObject;; if id =? 0 then mret tt else AddThreadObjectRecord id thread
  | SubClass c => class_effect c
  | SubInstance id _ cls data =>
      AddInstanceTypeRecord id kInstance;;
      AddInstanceClassRecord id cls;;
      modify (fun h => set_fields_data (emplace id (MkFieldsData id cls (zlen data) (pos + Z.of_nat n + 4 + Z.of_nat n + 4)) (fields_data_ h)) h)
  | SubObjectArray id _ cls elements => AddInstanceTypeRecord id kObjectArray;; AddInstanceClassRecord id cls;; elements_effect id 0 elements
  | SubPrimitiveArray id _ t _ data =>
      AddInstanceTypeRecord id kPrimitiveArray;;
      modify (fun h => set_primitive_arrays (emplace id (MkArrayData t (zlen data) (pos + Z.of_nat n + 4 + 4 + 1)) (primitive_arrays_ h)) h)
  | SubPrimitiveArrayNoData id _ => AddInstanceTypeRecord id kPrimitiveArray
  | SubHeapInfo _ => mret tt
  end.

Fixpoint subs_effect (pos : Z) (subs : list sub_record) : M Heap unit :=
  match subs with [] => mret tt | s :: subs => sub_effect (pos + 1) s;; subs_effect (pos + zlen (encode_sub n s)) subs end.

Definition record_effect (pos : Z) (r : record) : M Heap unit :=
  match r with
  | RecString id text => AddString id (pos + Z.of_nat n) (zlen text)
  | RecLoadClass id name _ _ => AddClassNameRecord id name
  | RecHeap _ subs => subs_effect pos subs
  | RecOther _ _ => mret tt
  end.

Fixpoint records_effect (pos : Z) (records : list (Z * record)) : M Heap unit :=
  match records with [] => mret tt | e :: records => record_effect (pos + 9) e.2;; records_effect (pos + zlen (encode_record n e)) records end.
End Effects.

(** What a dump says: the records, then the references of the instances. *)
Definition dump_effect `{A : Arch} (group : ExcludeMatcherGroup) (d : dump) : M Heap unit :=
  InitializeIdSize (Z.of_nat (dump_id_size d));;
  records_effect (encode d) group (dump_id_size d) (zlen (encode_header d)) (dump_records d);;
  LazyParse (encode d) group.
End HprofDump.
