(* ===== verification/HprofRoundTrip.v ===== *)
(** The parser of heap dumps and the format.

    [takes at len c e]: from the position [at] of the reader, the parser code [c] moves on by [len]
    bytes and does to the heap what [e] does.  The rules of [takes] follow the structure of the
    code; there is one lemma for each function of the parser. *)
From S2P Require Import Prelude Arch Machine Libc HprofReader HprofHeap HprofEngine HprofDump.
#[local] Open Scope Z_scope.

Module HprofRoundTrip.
Import HprofReader HprofHeap HprofEngine HprofDump.

(** * Numbers *)

Lemma length_be k v : length (be k v) = k.
Proof. induction k as [|k IH]; simpl; [done|by rewrite IH]. Qed.

Lemma zlen_app {X} (l l' : list X) : zlen (l ++ l') = zlen l + zlen l'.
Proof. unfold zlen. rewrite length_app. lia. Qed.

Lemma zlen_cons {X} (x : X) (l : list X) : zlen (x :: l) = 1 + zlen l.
Proof. unfold zlen. simpl. lia. Qed.

Lemma zlen_be k v : zlen (be k v) = Z.of_nat k.
Proof. unfold zlen. by rewrite length_be. Qed.

Lemma zlen_nonneg {X} (l : list X) : 0 <= zlen l.
Proof. unfold zlen. lia. Qed.

#[local] Hint Rewrite @zlen_app @zlen_cons zlen_be : lens.

(** The bytes of the parts. *)
Definition counted {X} (enc : X -> list Z) (xs : list X) : Z := zlen (concat (map enc xs)).

Lemma counted_cons {X} (enc : X -> list Z) x xs : counted enc (x :: xs) = zlen (enc x) + counted enc xs.
Proof. unfold counted. simpl. by rewrite zlen_app. Qed.

Lemma counted_nonneg {X} (enc : X -> list Z) xs : 0 <= counted enc xs.
Proof. apply zlen_nonneg. Qed.

(** A further byte of a number of eight bytes. *)
Lemma be_step k v : below 8 v -> Z.lor (u64 (Z.shiftl (v / 2 ^ (8 * Z.of_nat (S k))) 8)) ((v / 2 ^ (8 * Z.of_nat k)) mod 256) = v / 2 ^ (8 * Z.of_nat k).
Proof.
  intros [H0 H1]. set (w := v / 2 ^ (8 * Z.of_nat k)). assert (v / 2 ^ (8 * Z.of_nat (S k)) = w / 256) as ->.
  { unfold w. rewrite Z.div_div by lia. f_equal. replace (8 * Z.of_nat (S k)) with (8 * Z.of_nat k + 8) by lia. by rewrite Z.pow_add_r by lia. }
  assert (0 <= w < 2 ^ 64) as Hw. { unfold w. split; [apply Z.div_pos; lia|]. apply Z.div_lt_upper_bound; [lia|]. change (8 * Z.of_nat 8) with 64 in H1. nia. }
  clearbody w. assert (u64 (Z.shiftl (w / 256) 8) = Z.shiftl (w / 256) 8) as ->.
  { rewrite Z.shiftl_mul_pow2 by lia. apply Z.mod_small. change (2 ^ 8) with 256. pose proof (Z.mul_div_le w 256). pose proof (Z.div_pos w 256). lia. }
  change 256 with (2 ^ 8). rewrite <- Z.land_ones, <- Z.shiftr_div_pow2 by lia. apply Z.bits_inj'. intros i Hi.
  rewrite Z.lor_spec, Z.land_spec, Z.shiftl_spec by lia. destruct (Z.ltb_spec i 8).
  - rewrite Z.testbit_neg_r by lia. by rewrite Z.ones_spec_low, andb_true_r by lia.
  - rewrite Z.shiftr_spec by lia. replace (i - 8 + 8) with i by lia. rewrite Z.ones_spec_high by lia. by rewrite andb_false_r, orb_false_r.
Qed.

(** * Searching by name changes the memories only *)

Lemma keeps_if {S B C} (f : S -> C) (b : bool) (c c' : M S B) : keeps f c -> keeps f c' -> keeps f (if b then c else c').
Proof. by destruct b. Qed.

Lemma keeps_option {S B C D} (f : S -> D) (o : option C) (c : M S B) (k : C -> M S B) : keeps f c -> (forall x, keeps f (k x)) -> keeps f (match o with None => c | Some x => k x end).
Proof. by destruct o. Qed.

Lemma keeps_modify {S C} (f : S -> C) (g : S -> S) : (forall s, f (g s) = f s) -> keeps f (modify g).
Proof. intros H s. apply H. Qed.

#[local] Hint Resolve keeps_if keeps_option keeps_modify : keeps.

Section Keeps.
Context `{A : Arch} (file : list Z) {B : Type} (f : Heap -> B).
Context (Hstrings : forall v h, f (set_string_memo v h) = f h) (Hclasses : forall v h, f (set_class_memo v h) = f h).

Lemma find_string_keeps l v : keeps f (find_string file l v).
Proof. induction l as [|[id ?] l IH]; simpl; unfold GetString; auto with keeps. Qed.

Lemma FindStringId_keeps v : keeps f (FindStringId file v).
Proof. pose proof find_string_keeps. unfold FindStringId, FindStringIdInternal. auto 8 with keeps. Qed.

Lemma FindClassByName_keeps v : keeps f (FindClassByName file v).
Proof. pose proof FindStringId_keeps. unfold FindClassByName, FindClassByNameInternal. auto 8 with keeps. Qed.

Lemma child_loop_keeps fuel c s : keeps f (child_loop fuel c s).
Proof. revert c. induction fuel as [|fuel IH]; intros c; simpl; unfold GetSuperClass; auto 8 with keeps. Qed.

Lemma ChildClassOf_keeps c s : keeps f (ChildClassOf c s).
Proof. pose proof child_loop_keeps. unfold ChildClassOf. auto with keeps. Qed.

Lemma InstanceOf_keeps i c : keeps f (InstanceOf i c).
Proof. pose proof ChildClassOf_keeps. unfold InstanceOf, GetClass. auto with keeps. Qed.

Lemma GetFieldReference_keeps i v b : keeps f (GetFieldReference file i v b).
Proof. pose proof FindStringId_keeps. unfold GetFieldReference. auto with keeps. Qed.

Lemma GetFieldPrimitive_keeps i v : keeps f (GetFieldPrimitive_int32 file i v).
Proof. pose proof FindStringId_keeps. unfold GetFieldPrimitive_int32, GetFieldPrimitiveRaw, ScopedGetPrimitiveData. auto 8 with keeps. Qed.

Lemma GetValueFromStringInstance_keeps i : keeps f (GetValueFromStringInstance file i).
Proof.
  pose proof FindClassByName_keeps. pose proof InstanceOf_keeps. pose proof GetFieldReference_keeps. pose proof GetFieldPrimitive_keeps.
  unfold GetValueFromStringInstance, ScopedGetPrimitiveArrayData, convert_utf_16_string, with_reader, pub_fatal.
  apply keeps_bind; [done|]. intros [c|]; [|apply keeps_ret]. apply keeps_bind; [done|]. intros b. apply keeps_if; [apply keeps_ret|]. apply keeps_bind; [done|]. intros [a|]; [|apply keeps_ret].
  apply keeps_bind; [apply keeps_gets|]. intros [d|]; [|apply keeps_ret]. destruct (array_type_ d); auto 10 with keeps.
Qed.

Lemma get_thread_name_keeps i : keeps f (get_thread_name file i).
Proof.
  pose proof FindClassByName_keeps. pose proof InstanceOf_keeps. pose proof GetFieldReference_keeps. pose proof GetValueFromStringInstance_keeps. unfold get_thread_name. auto 10 with keeps.
Qed.

Lemma flatten_keeps l ms : keeps f (flatten_field_exclude_matchers file l ms).
Proof. pose proof FindStringId_keeps. pose proof FindClassByName_keeps. revert l. induction ms as [|m ms IH]; intros l; simpl; auto 10 with keeps. Qed.

Lemma match_class_keeps c l : keeps f (match_class c l).
Proof. pose proof ChildClassOf_keeps. induction l as [|m l IH]; simpl; auto 10 with keeps. Qed.
End Keeps.

#[local] Arguments be : simpl never.

Section Takes.
Context `{A : Arch} (file : list Z) (src size : Z).

Definition here (at_ : Z) : Reader := MkReader src size at_.

(** The bytes [bs] are at the position. *)
Definition holds (at_ : Z) (bs : list Z) : Prop := 0 <= at_ /\ at_ + zlen bs <= size /\ forall i b, bs !! i = Some b -> file !! Z.to_nat (src + at_ + Z.of_nat i) = Some b.

Lemma holds_app at_ a b : holds at_ (a ++ b) -> holds at_ a /\ holds (at_ + zlen a) b.
Proof.
  intros (H0 & H1 & H2). rewrite zlen_app in H1. pose proof (zlen_nonneg a). pose proof (zlen_nonneg b). split.
  - split; [done|]. split; [lia|]. intros i c Hc. apply H2. by apply lookup_app_l_Some.
  - split; [lia|]. split; [lia|]. intros i c Hc. replace (src + (at_ + zlen a) + Z.of_nat i) with (src + at_ + Z.of_nat (length a + i)) by (unfold zlen; lia).
    apply H2. by rewrite lookup_app_r, Nat.add_comm, Nat.add_sub by lia.
Qed.

(** * Reading *)

Context (Hsrc : 0 <= src) (Hsize : size < 2 ^ word_bits).

Lemma read_loop_at k v at_ : below 8 v -> holds at_ (be k v) -> read_loop file k (v / 2 ^ (8 * Z.of_nat k)) (here at_) = (Ok v, here (at_ + Z.of_nat k)).
Proof.
  intros Hv. revert at_. induction k as [|k IH]; intros at_ Hh; [simpl; unfold mret, M_ret; by rewrite Z.div_1_r, Z.add_0_r|].
  pose proof (holds_app at_ [(v / 2 ^ (8 * Z.of_nat k)) mod 256] (be k v) Hh) as [Hb Hr]. destruct Hb as (H0 & H1 & H2). specialize (H2 0%nat _ eq_refl). rewrite zlen_cons in H1. change (zlen (@nil Z)) with 0 in H1.
  cbn [read_loop]. unfold mbind, M_bind, gets, byte_at, reads, put_cursor, modify. cbn [here source buffer_size_ cursor_]. rewrite (proj2 (Z.leb_gt size at_)) by lia. cbn [here source buffer_size_ cursor_].
  rewrite (proj2 (Z.leb_le 0 (src + at_))) by lia. replace (src + at_ + Z.of_nat 0) with (src + at_) in H2 by lia. rewrite H2. rewrite be_step by done. cbn [here source buffer_size_ cursor_].
  rewrite uword_small by lia. fold (here (at_ + 1)). rewrite IH by done. do 2 f_equal. lia.
Qed.

Lemma below_le k v : (k <= 8)%nat -> below k v -> below 8 v.
Proof. intros Hk [H0 H1]. split; [done|]. eapply Z.lt_le_trans; [done|]. apply Z.pow_le_mono_r; lia. Qed.

Lemma Read_at k v at_ : (k <= 8)%nat -> below k v -> holds at_ (be k v) -> Read file (Z.of_nat k) (here at_) = (Ok v, here (at_ + Z.of_nat k)).
Proof.
  intros Hk Hv Hh. unfold Read. rewrite Nat2Z.id. rewrite <- (read_loop_at k v at_) by (done || by eapply below_le). f_equal. symmetry. apply Z.div_small. destruct Hv. done.
Qed.

Lemma Skip_at at_ k : 0 <= at_ -> 0 <= k -> at_ + k <= size -> Skip k (here at_) = (Ok tt, here (at_ + k)).
Proof.
  intros H0 H1 H2. unfold Skip, mbind, M_bind, gets, put_cursor, modify. cbn [here source buffer_size_ cursor_]. rewrite uword_small by lia. by rewrite (proj2 (Z.ltb_ge size (at_ + k))) by lia.
Qed.

Lemma U1_at at_ b : below 1 b -> holds at_ [b] -> ReadU1 file (here at_) = (Ok b, here (at_ + 1)).
Proof.
  intros Hb H. assert (be 1 b = [b]) as E by (unfold be; rewrite Z.div_1_r, Z.mod_small; done). unfold ReadU1, mbind, M_bind. change 1 with (Z.of_nat 1) at 1. rewrite (Read_at 1 b) by (lia || done || by rewrite E).
  unfold mret, M_ret. assert (u8 b = b) as -> by (by apply Z.mod_small). done.
Qed.

Lemma text_loop_at text fuel acc at_ : Forall (fun b => 0 < b < 256) text -> holds at_ (text ++ [0]) -> (length text < fuel)%nat ->
  text_loop file fuel acc (here at_) = (Ok (acc ++ text), here (at_ + zlen text + 1)).
Proof.
  revert fuel acc at_. induction text as [|b text IH]; intros fuel acc at_ Hw H Hf; (destruct fuel as [|fuel]; [simpl in Hf; lia|]); cbn [text_loop]; unfold mbind, M_bind.
  - rewrite (U1_at at_ 0) by done. rewrite app_nil_r. simpl. unfold mret, M_ret. do 2 f_equal. unfold zlen. simpl. lia.
  - apply Forall_cons in Hw as [Hb Hw]. apply (holds_app at_ [b] (text ++ [0])) in H as [H1 H]. rewrite (U1_at at_ b) by (done || unfold below; simpl; lia).
    rewrite (proj2 (Z.eqb_neq b 0)) by lia. rewrite IH by (done || simpl in Hf; lia). rewrite <- app_assoc. simpl. do 2 f_equal. rewrite zlen_cons. lia.
Qed.

Context (group : ExcludeMatcherGroup) (n : nat) (Hn : (1 <= n <= 8)%nat).

Definition takes {B} (at_ len : Z) (c : M parser B) (e : M Heap B) : Prop := forall h, id_size_ h = Z.of_nat n ->
  match e h with
  | (Ok b, h') => c (MkParser (here at_) h) = (Ok b, MkParser (here (at_ + len)) h') /\ id_size_ h' = Z.of_nat n
  | (r, h') => exists rd', c (MkParser (here at_) h) = (r, MkParser rd' h')
  end.

(** * Rules *)

Lemma takes_ext {B} at_ len (c : M parser B) (e e' : M Heap B) : (forall h, e h = e' h) -> takes at_ len c e' -> takes at_ len c e.
Proof. intros He Ht h Hh. rewrite He. by apply Ht. Qed.

Lemma takes_len {B} at_ len len' (c : M parser B) (e : M Heap B) : len' = len -> takes at_ len' c e -> takes at_ len c e.
Proof. by intros ->. Qed.

Lemma takes_bind {B C} at_ l1 l2 (c : M parser B) (e : M Heap B) (k : B -> M parser C) (f : B -> M Heap C) :
  takes at_ l1 c e -> (forall b, takes (at_ + l1) l2 (k b) (f b)) -> takes at_ (l1 + l2) (c ≫= k) (e ≫= f).
Proof.
  intros Hc Hk h Hh. specialize (Hc h Hh). unfold mbind, M_bind. destruct (e h) as [r h']. destruct r as [b| | | |]; try (destruct Hc as [rd' ->]; by eexists).
  destruct Hc as [-> Hh']. rewrite Z.add_assoc. by apply Hk.
Qed.

Lemma takes_read {B C} at_ l1 l2 (c : M parser B) (v : B) (k : B -> M parser C) (e : M Heap C) :
  takes at_ l1 c (mret v) -> takes (at_ + l1) l2 (k v) e -> takes at_ (l1 + l2) (c ≫= k) e.
Proof. intros Hc Hk h Hh. destruct (Hc h Hh) as [E _]. unfold mbind, M_bind. rewrite E, Z.add_assoc. by apply Hk. Qed.

Lemma takes_at {B} p at_ len (c : M parser B) (e : M Heap B) : p = at_ -> takes p len c e -> takes at_ len c e.
Proof. by intros ->. Qed.

(** Code that returns a value known beforehand. *)
Lemma takes_effect {B C} at_ l1 l2 (c : M parser B) (e : M Heap unit) (v : B) (k : B -> M parser C) (f : M Heap C) :
  takes at_ l1 c (e;; mret v) -> takes (at_ + l1) l2 (k v) f -> takes at_ (l1 + l2) (c ≫= k) (e;; f).
Proof.
  intros Hc Hk h Hh. specialize (Hc h Hh). unfold mbind, M_bind, mret, M_ret in *. destruct (e h) as [r h']. destruct r as [[]| | | |]; try (destruct Hc as [rd' ->]; by eexists).
  destruct Hc as [-> Hh']. rewrite Z.add_assoc. by apply Hk.
Qed.

Lemma takes_ret {B} at_ (b : B) : takes at_ 0 (mret b) (mret b).
Proof. intros h Hh. by rewrite Z.add_0_r. Qed.

Lemma takes_heap {B} at_ (e : M Heap B) : keeps id_size_ e -> takes at_ 0 (on_heap e) e.
Proof.
  intros Hk h Hh. unfold on_heap, lift. simpl. specialize (Hk h). destruct (e h) as [r h']. simpl in *. rewrite Z.add_0_r. destruct r; try by eexists. split; [done|congruence].
Qed.

Lemma takes_do {B C} at_ l (e : M Heap B) (k : B -> M parser C) (f : B -> M Heap C) :
  keeps id_size_ e -> (forall b, takes at_ l (k b) (f b)) -> takes at_ l (on_heap e ≫= k) (e ≫= f).
Proof. intros He Hk. apply (takes_len _ _ (0 + l)); [done|]. apply takes_bind; [by apply takes_heap|]. by rewrite Z.add_0_r. Qed.

Lemma takes_id_size {C} at_ l (k : Z -> M parser C) (e : M Heap C) : takes at_ l (k (Z.of_nat n)) e -> takes at_ l (id_size ≫= k) e.
Proof.
  intros Hk h Hh. unfold id_size, on_heap, lift, GetIdSize. unfold mbind, M_bind, gets. cbn [hp rd]. rewrite Hh. replace (Z.of_nat n =? 0) with false by (symmetry; apply Z.eqb_neq; lia).
  by apply Hk.
Qed.

Lemma takes_reader {B} at_ k (c : M Reader B) v : c (here at_) = (Ok v, here (at_ + k)) -> takes at_ k (on_reader c) (mret v).
Proof. intros E h Hh. split; [|done]. unfold on_reader, lift. cbn [rd hp]. by rewrite E. Qed.

Lemma takes_Read p at_ k v : (k <= 8)%nat -> below k v -> holds p (be k v) -> p = at_ -> takes at_ (Z.of_nat k) (on_reader (Read file (Z.of_nat k))) (mret v).
Proof. intros Hk Hv Hh ->. by apply takes_reader, Read_at. Qed.

(** The casts of [ReadU1] and the like change nothing. *)
Lemma takes_cast p at_ k v (c : Z -> Z) : (k <= 8)%nat -> below k v -> (forall v, below k v -> c v = v) -> holds p (be k v) -> p = at_ ->
  takes at_ (Z.of_nat k) (on_reader (w ← Read file (Z.of_nat k); mret (c w))) (mret v).
Proof.
  intros Hk Hv Hc Hh ->. apply takes_reader. unfold mbind, M_bind. rewrite (Read_at k v) by done. unfold mret, M_ret. by rewrite Hc.
Qed.

Lemma takes_u1 p at_ v : below 1 v -> holds p (be 1 v) -> p = at_ -> takes at_ 1 (on_reader (ReadU1 file)) (mret v).
Proof. intros Hv. apply (takes_cast p at_ 1 v u8); [lia|done|]. intros w Hw. by apply Z.mod_small. Qed.

Lemma takes_u2 p at_ v : below 2 v -> holds p (be 2 v) -> p = at_ -> takes at_ 2 (on_reader (ReadU2 file)) (mret v).
Proof. intros Hv. apply (takes_cast p at_ 2 v u16); [lia|done|]. intros w Hw. by apply Z.mod_small. Qed.

Lemma takes_u4 p at_ v : below 4 v -> holds p (be 4 v) -> p = at_ -> takes at_ 4 (on_reader (ReadU4 file)) (mret v).
Proof. intros Hv. apply (takes_cast p at_ 4 v u32); [lia|done|]. intros w Hw. by apply Z.mod_small. Qed.

Lemma takes_id p at_ v : below n v -> holds p (be n v) -> p = at_ -> takes at_ (Z.of_nat n) (read_id file) (mret v).
Proof. intros Hv Hh Hp. apply takes_id_size. apply (takes_Read p); [lia|done|done|done]. Qed.

Lemma takes_skip at_ k : 0 <= at_ -> 0 <= k -> at_ + k <= size -> takes at_ k (on_reader (Skip k)) (mret tt).
Proof. intros H0 H1 H2. by apply takes_reader, Skip_at. Qed.

Lemma takes_extract p at_ bs k : holds p bs -> p = at_ -> zlen bs = k -> takes at_ k (on_reader (Extract k)) (mret (src + at_)).
Proof.
  intros (H0 & H1 & _) -> <-. pose proof (zlen_nonneg bs). apply takes_reader. unfold Extract, mbind, M_bind, gets. rewrite Skip_at by lia. done.
Qed.

Lemma takes_done {B} at_ (b b' : B) : b = b' -> takes at_ 0 (mret b) (mret b').
Proof. intros ->. apply takes_ret. Qed.

Lemma takes_type {C} at_ l t (k : value_type_t -> M parser C) (e : M Heap C) : takes at_ l (k t) e -> takes at_ l (value_type_cast (value_type_code t) ≫= k) e.
Proof. by destruct t. Qed.

Lemma below_code t : below 1 (value_type_code t).
Proof. by destruct t; vm_compute. Qed.

Lemma mark_size id t : keeps id_size_ (mark id t).
Proof. intros h. unfold mark. by destruct (id =? 0). Qed.


Lemma takes_mark {C} at_ l id t (k : unit -> M parser C) (f : unit -> M Heap C) : (forall b, takes at_ l (k b) (f b)) -> takes at_ l (mark_root id t ≫= k) (mark id t ≫= f).
Proof. intros Hk. unfold mark_root, mark. destruct (id =? 0); [exact (Hk tt)|]. apply takes_do; [done|exact Hk]. Qed.

Lemma M_assoc {S B C D} (m : M S B) (f : B -> M S C) (g : C -> M S D) s : ((m ≫= f) ≫= g) s = (m ≫= (fun x => f x ≫= g)) s.
Proof. unfold mbind, M_bind. by destruct (m s) as [[] s']. Qed.

Lemma takes_assoc {B C D} at_ l (m : M parser B) (f : B -> M parser C) (g : C -> M parser D) e : takes at_ l (m ≫= (fun x => f x ≫= g)) e -> takes at_ l ((m ≫= f) ≫= g) e.
Proof. intros H h Hh. rewrite M_assoc. by apply H. Qed.

Lemma takes_assoc_effect {B C D} at_ l c (m : M Heap B) (f : B -> M Heap C) (g : C -> M Heap D) : takes at_ l c (m ≫= (fun x => f x ≫= g)) -> takes at_ l c ((m ≫= f) ≫= g).
Proof. apply takes_ext. intros. apply M_assoc. Qed.

Lemma takes_unless {C} at_ l id (e : M Heap unit) (k : unit -> M parser C) (f : unit -> M Heap C) : keeps id_size_ e -> (forall b, takes at_ l (k b) (f b)) ->
  takes at_ l ((if id =? 0 then mret tt else on_heap e) ≫= k) ((if id =? 0 then mret tt else e) ≫= f).
Proof. intros He Hk. destruct (id =? 0); [exact (Hk tt)|]. by apply takes_do. Qed.

Lemma takes_mret {B C} at_ l (v : B) (k : B -> M parser C) (e : M Heap C) : takes at_ l (k v) e -> takes at_ l (mret v ≫= k) e.
Proof. exact (fun H => H). Qed.

(** * The operations of the heap keep the size of identifiers *)

Lemma static_size b c f r s : keeps id_size_ (if (b : bool) then AddFieldExcludedReference c f r s else AddFieldReference c f r s).
Proof. by destruct b. Qed.

Lemma flatten_size l ms : keeps id_size_ (flatten_field_exclude_matchers file l ms).
Proof. by apply flatten_keeps. Qed.

Lemma match_class_size c l : keeps id_size_ (match_class c l).
Proof. apply match_class_keeps. Qed.

#[local] Hint Resolve flatten_size match_class_size static_size : keeps.

(** * Automation *)

(** [unpack H]: the parts of the bytes. *)
Ltac unpack H := repeat (let H' := fresh "Hh" in apply holds_app in H as [H' H]).

Ltac pos := autorewrite with lens in *; unfold counted, zlen in *; lia.

(** [sized]: the number of bytes that a parser reports. *)
Ltac sized := rewrite ?uword_small by pos; pos.

(** [take]: the rule for the next statement, at the bytes of the position. *)
Ltac take :=
  match goal with
  | |- takes _ _ ((_ ≫= _) ≫= _) _ => apply takes_assoc
  | |- takes _ _ _ ((_ ≫= _) ≫= _) => apply takes_assoc_effect
  | |- takes _ _ (mret _ ≫= _) _ => apply takes_mret
  | |- takes _ _ (id_size ≫= _) _ => apply takes_id_size
  | |- takes _ _ (mark_root _ _ ≫= _) _ => apply takes_mark; intros []
  | |- takes _ _ (read_id _ ≫= _) _ => match goal with H : holds ?p (be n ?v) |- _ => eapply takes_read; [apply (takes_id p _ v); [done|exact H|pos]|] end
  | |- takes _ _ (on_reader (ReadU1 _) ≫= _) _ => match goal with H : holds ?p (be 1 ?v) |- _ => eapply takes_read; [apply (takes_u1 p _ v); [done || apply below_code|exact H|pos]|] end
  | |- takes _ _ (on_reader (ReadU2 _) ≫= _) _ => match goal with H : holds ?p (be 2 ?v) |- _ => eapply takes_read; [apply (takes_u2 p _ v); [done|exact H|pos]|] end
  | |- takes _ _ (on_reader (ReadU4 _) ≫= _) _ => match goal with H : holds ?p (be 4 ?v) |- _ => eapply takes_read; [apply (takes_u4 p _ v); [done|exact H|pos]|] end
  | |- takes _ _ (on_reader (Skip _) ≫= _) _ => eapply takes_read; [apply takes_skip; pos|]
  | |- takes _ _ (on_reader SkipU4 ≫= _) _ => eapply takes_read; [apply (takes_skip _ 4); pos|]
  | |- takes _ _ (on_reader SkipU1 ≫= _) _ => eapply takes_read; [apply (takes_skip _ 1); pos|]
  | |- takes _ _ (on_reader SkipU2 ≫= _) _ => eapply takes_read; [apply (takes_skip _ 2); pos|]
  | |- takes _ _ (on_reader (Extract _) ≫= _) _ => match goal with H : holds ?p ?bs |- _ => eapply takes_read; [apply (takes_extract p _ bs); [exact H|pos|pos]|] end
  | |- takes _ _ ((if _ =? 0 then mret tt else on_heap _) ≫= _) _ => apply takes_unless; [solve [done | auto with keeps]|intros []]
  | |- takes _ _ (value_type_cast _ ≫= _) _ => apply takes_type
  | |- takes _ _ (on_heap _ ≫= _) _ => apply takes_do; [solve [done | auto with keeps]|intros ?]
  | |- takes _ _ (mret _) _ => apply takes_done
  end.

(** * Roots *)

Notation reports s := (zlen (sub_body n s)).

(** [ParseSubRecord] does what the subrecord says, and reports its size. *)
Definition sub_parsed (s : sub_record) : Prop :=
  forall at_, wf_sub n s -> holds at_ (sub_body n s) -> takes at_ (reports s) (ParseSubRecord file group (sub_tag s)) (sub_effect file group n (src + at_) s;; mret (reports s)).

(** [takes_all]: straight-line code. *)
Ltac takes_all := eapply takes_len; [|repeat take]; cycle 1; [sized|pos].

Lemma root_parsed t id rest : sub_parsed (SubRoot t id rest).
Proof.
  intros at_ (Ht & Ht' & Hid & Hrest) H. pose proof H as (H0 & Hb & _). cbn [sub_body sub_tag sub_effect] in *. unpack H.
  destruct t; try done; simpl in Hrest; cbn [root_tag ParseSubRecord].
  all: unfold ParseHeapContentRootUnknownSubRecord, ParseHeapContentRootJniGlobalSubRecord, ParseHeapContentRootJniLocalSubRecord, ParseHeapContentRootNativeStackSubRecord,
    ParseHeapContentRootStickyClassSubRecord, ParseHeapContentRootThreadBlockSubRecord, ParseHeapContentRootMonitorUsedSubRecord, ParseHeapContentRootInternedStringSubRecord,
    ParseHeapContentRootFinalizingSubRecord, ParseHeapContentRootDebuggerSubRecord, ParseHeapContentRootReferenceCleanupSubRecord, ParseHeapContentRootVMInternalSubRecord,
    ParseHeapContentRootJniMonitorSubRecord, ParseHeapContentRootUnreachableSubRecord.
  all: takes_all.
Qed.

Lemma java_frame_parsed id thread rest : sub_parsed (SubJavaFrame id thread rest).
Proof.
  intros at_ (Hid & Ht & Hrest) H. pose proof H as (H0 & Hb & _). cbn [sub_body sub_tag sub_effect ParseSubRecord] in *. unpack H. unfold ParseHeapContentRootJavaFrameSubRecord.
  takes_all.
Qed.

Lemma thread_object_parsed id thread rest : sub_parsed (SubThreadObject id thread rest).
Proof.
  intros at_ (Hid & Ht & Hrest) H. pose proof H as (H0 & Hb & _). cbn [sub_body sub_tag sub_effect ParseSubRecord] in *. unpack H. unfold ParseHeapContentRootThreadObjectSubRecord.
  takes_all.
Qed.

(** * Objects *)

Lemma instance_parsed id trace cls data : sub_parsed (SubInstance id trace cls data).
Proof.
  intros at_ (Hid & Hc & Hd) H. pose proof H as (H0 & Hb & _). cbn [sub_body sub_tag sub_effect ParseSubRecord] in *. unpack H. unfold ParseHeapContentInstanceSubRecord, ReadFieldsData.
  eapply takes_len; cycle 1; [repeat take|].
  - replace (src + (at_ + Z.of_nat n + 4 + Z.of_nat n + 4)) with (src + at_ + Z.of_nat n + 4 + Z.of_nat n + 4) by lia. repeat take. sized.
  - pos.
Qed.

Lemma takes_elements id elements i at_ : Forall (below n) elements -> holds at_ (concat (map (be n) elements)) ->
  takes at_ (zlen elements * Z.of_nat n) (element_loop file (length elements) id i) (elements_effect id i elements).
Proof.
  revert i at_. induction elements as [|v elements IH]; intros i at_ Hw H; [apply takes_ret|]. apply Forall_cons in Hw as [Hv Hw]. simpl in H. unpack H. rewrite zlen_be in *.
  eapply takes_len; cycle 1; [simpl; take; take; by apply IH|pos].
Qed.

Lemma zlen_elements elements : zlen (concat (map (be n) elements)) = zlen elements * Z.of_nat n.
Proof. induction elements as [|v elements IH]; simpl; [done|]. autorewrite with lens. lia. Qed.

Lemma object_array_parsed id trace cls elements : sub_parsed (SubObjectArray id trace cls elements).
Proof.
  intros at_ (Hid & Hc & Hl & He) H. pose proof H as (H0 & Hb & _). cbn [sub_body sub_tag sub_effect ParseSubRecord] in *. unpack H. rewrite !zlen_app, zlen_elements in *. unfold ParseHeapContentObjectArraySubRecord.
  eapply takes_len; cycle 1; [repeat take|].
  - replace (Z.to_nat (zlen elements)) with (length elements) by (unfold zlen; lia). apply takes_bind; [apply takes_elements; [done|]|intros []; repeat take; sized].
    autorewrite with lens in *. exact H.
  - pos.
Qed.

Lemma primitive_array_parsed id trace t count data : sub_parsed (SubPrimitiveArray id trace t count data).
Proof.
  intros at_ (Hid & Hl & Ht & Hd) H. pose proof H as (H0 & Hb & _). cbn [sub_body sub_tag sub_effect ParseSubRecord] in *. unpack H. unfold ParseHeapContentPrimitiveArraySubRecord, ReadPrimitiveArray.
  eapply takes_len; cycle 1; [repeat take|].
  - rewrite bool_decide_eq_false_2 by done. rewrite <- Hd. assert (uword (zlen data) = zlen data) as -> by (apply uword_small; pos).
    take. match goal with |- takes ?p _ _ _ => replace p with (at_ + (Z.of_nat n + 4 + 4 + 1)) by lia end. take. replace (src + (at_ + (Z.of_nat n + 4 + 4 + 1))) with (src + at_ + Z.of_nat n + 4 + 4 + 1) by lia.
    repeat take. sized.
  - pos.
Qed.

Lemma no_data_parsed id rest : sub_parsed (SubPrimitiveArrayNoData id rest).
Proof.
  intros at_ (Hid & Hr) H. pose proof H as (H0 & Hb & _). cbn [sub_body sub_tag sub_effect ParseSubRecord] in *. unpack H. unfold ParseHeapContentPrimitiveArrayNoDataDumpSubRecord.
  takes_all.
Qed.

Lemma heap_info_parsed rest : sub_parsed (SubHeapInfo rest).
Proof.
  intros at_ Hr H. pose proof H as (H0 & Hb & _). cbn [sub_body sub_tag sub_effect ParseSubRecord wf_sub] in *. unfold SkipHeapContentInfoSubRecord. takes_all.
Qed.

(** * Classes *)

Lemma width_value t : t <> kObject -> Z.of_nat (width n t) = get_value_type_size t.
Proof. by destruct t. Qed.

Lemma takes_type_size {C} at_ l t (k : Z -> M parser C) e : takes at_ l (k (Z.of_nat (width n t))) e -> takes at_ l ((if bool_decide (t = kObject) then id_size else mret (get_value_type_size t)) ≫= k) e.
Proof. intros H. destruct t; simpl in *; try exact H. by apply takes_id_size. Qed.

Section Loop.
Context {X : Type} (enc : X -> list Z) (ok : X -> Prop) (effect : X -> M Heap unit) (loop : nat -> Z -> M parser Z).
Context (loop_end : forall c, loop 0 c = mret c).
Context (loop_step : forall x k c at_ l (e : M Heap Z), ok x -> holds at_ (enc x) ->
  takes (at_ + zlen (enc x)) l (loop k (uword (c + zlen (enc x)))) e -> takes at_ (zlen (enc x) + l) (loop (S k) c) (effect x;; e)).

Lemma takes_loop xs c at_ : Forall ok xs -> holds at_ (concat (map enc xs)) -> 0 <= c -> c + counted enc xs < 2 ^ word_bits ->
  takes at_ (counted enc xs) (loop (length xs) c) (each effect xs;; mret (c + counted enc xs)).
Proof.
  revert c at_. induction xs as [|x xs IH]; intros c at_ Hw H H0 Hb; [cbn [length]; rewrite loop_end; apply takes_done; change (counted enc []) with 0; lia|].
  apply Forall_cons in Hw as [Hx Hw]. simpl in H. apply holds_app in H as [H1 H]. rewrite counted_cons in *. pose proof (counted_nonneg enc xs). pose proof (zlen_nonneg (enc x)).
  cbn [each length]. apply takes_assoc_effect. apply loop_step; [done|done|]. rewrite uword_small by lia. rewrite Z.add_assoc. apply IH; [done|done|lia|lia].
Qed.
End Loop.

Ltac unpack_bounds H := let H0 := fresh "H0" in let Hb := fresh "Hb" in pose proof H as (H0 & Hb & _); unpack H.

(** [goes_on]: the rest of a loop. *)
Ltac goes_on := match goal with Hl : takes ?p _ (?f (uword ?a)) ?e |- takes ?q _ (?f (uword ?b)) ?e => replace q with p by pos; replace b with a by pos; exact Hl end.

Definition constant_ok (c : constant_dump) : Prop := length (constant_value c) = width n (constant_type c).

Lemma constant_step x k c at_ l (e : M Heap Z) : constant_ok x -> holds at_ (encode_constant x) ->
  takes (at_ + zlen (encode_constant x)) l (constant_loop file k (uword (c + zlen (encode_constant x)))) e -> takes at_ (zlen (encode_constant x) + l) (constant_loop file (S k) c) (mret tt;; e).
Proof.
  intros Hx H Hl. change (mret tt;; e) with e. unfold constant_ok, encode_constant in *. unpack_bounds H. autorewrite with lens in Hl |- *. cbn [constant_loop].
  eapply takes_len; cycle 1; [take; take; take; apply takes_type_size; take; goes_on|pos].
Qed.

Lemma field_step id x k c at_ l (e : M Heap Z) : below n (name_id x) -> holds at_ (encode_field n x) ->
  takes (at_ + zlen (encode_field n x)) l (field_loop file k id (uword (c + zlen (encode_field n x)))) e -> takes at_ (zlen (encode_field n x) + l) (field_loop file (S k) id c) (AddInstanceFieldRecord id x;; e).
Proof.
  intros Hx H Hl. destruct x as [name t]. unfold encode_field in *. cbn [name_id type] in *. unpack_bounds H. autorewrite with lens in Hl |- *. cbn [field_loop].
  eapply takes_len; cycle 1; [take; take; take; take; take; goes_on|pos].
Qed.

Lemma static_step id ms x k c at_ l (e : M Heap Z) : wf_static n x -> holds at_ (encode_static n x) ->
  takes (at_ + zlen (encode_static n x)) l (static_loop file k id ms (uword (c + zlen (encode_static n x)))) e -> takes at_ (zlen (encode_static n x) + l) (static_loop file (S k) id ms c) (static_effect id ms x;; e).
Proof.
  intros Hx H Hl. destruct x as [name r|name t v]; unfold encode_static in *; simpl in Hx; unpack_bounds H; autorewrite with lens in Hl |- *; cbn [static_loop].
  - destruct Hx as [Hx Hr]. eapply takes_len; cycle 1; [take; take; take; take; simpl; take; take; goes_on|pos].
  - destruct Hx as (Hx & Ht & Hv). pose proof (width_value t Ht). eapply takes_len; cycle 1; [take; take; take; take; rewrite bool_decide_eq_false_2 by done; take; simpl; goes_on|pos].
Qed.

Lemma each_nothing {X B} (xs : list X) (e : M Heap B) h : (each (fun _ => mret tt) xs;; e) h = e h.
Proof. induction xs as [|x xs IH]; [done|]. exact IH. Qed.

Lemma takes_constants cs c at_ : Forall constant_ok cs -> holds at_ (concat (map encode_constant cs)) -> 0 <= c -> c + counted encode_constant cs < 2 ^ word_bits ->
  takes at_ (counted encode_constant cs) (constant_loop file (length cs) c) (mret (c + counted encode_constant cs)).
Proof.
  intros. eapply takes_ext; [intros; symmetry; apply (each_nothing cs)|]. apply (takes_loop encode_constant constant_ok (fun _ => mret tt) (constant_loop file)); [done|apply constant_step|done|done|done|done].
Qed.

Lemma takes_statics id ms ss c at_ : Forall (wf_static n) ss -> holds at_ (concat (map (encode_static n) ss)) -> 0 <= c -> c + counted (encode_static n) ss < 2 ^ word_bits ->
  takes at_ (counted (encode_static n) ss) (static_loop file (length ss) id ms c) (each (static_effect id ms) ss;; mret (c + counted (encode_static n) ss)).
Proof. intros. apply (takes_loop (encode_static n) (wf_static n) (static_effect id ms) (fun k => static_loop file k id ms)); [done|apply static_step|done|done|done|done]. Qed.

Lemma takes_fields id fs c at_ : Forall (fun f => below n (name_id f)) fs -> holds at_ (concat (map (encode_field n) fs)) -> 0 <= c -> c + counted (encode_field n) fs < 2 ^ word_bits ->
  takes at_ (counted (encode_field n) fs) (field_loop file (length fs) id c) (each (AddInstanceFieldRecord id) fs;; mret (c + counted (encode_field n) fs)).
Proof. intros. apply (takes_loop (encode_field n) (fun f => below n (name_id f)) (AddInstanceFieldRecord id) (fun k => field_loop file k id)); [done|apply field_step|done|done|done|done]. Qed.

Lemma to_nat_zlen {X} (l : list X) : Z.to_nat (zlen l) = length l.
Proof. unfold zlen. lia. Qed.

Lemma class_parsed c : sub_parsed (SubClass c).
Proof.
  intros at_ (Hid & Hs & Hr & Hcl & Hc & Hsl & Hss & Hfl & Hf) H. pose proof H as (H0 & Hb & _). cbn [sub_body sub_tag sub_effect ParseSubRecord wf_sub] in *. unfold encode_class in *.
  unpack H. unfold ParseHeapContentClassSubRecord, class_effect. eapply takes_len; cycle 1; [repeat take|]; rewrite ?to_nat_zlen.
  - eapply takes_read; [match goal with H : holds ?p (concat (map encode_constant _)) |- _ => apply (takes_at p); [pos|apply takes_constants; [done|exact H|done|pos]] end|].
    rewrite uword_small by pos. do 5 take. rewrite to_nat_zlen.
    eapply takes_effect; [match goal with H : holds ?p (concat (map (encode_static n) _)) |- _ => apply (takes_at p); [pos|apply takes_statics; [done|exact H|pos|pos]] end|].
    rewrite uword_small by pos. take. rewrite to_nat_zlen.
    eapply takes_effect; [match goal with H : holds ?p (concat (map (encode_field n) _)) |- _ => apply (takes_at p); [pos|apply takes_fields; [done|exact H|pos|pos]] end|].
    take. sized.
  - pos.
Qed.

Lemma all_parsed s : sub_parsed s.
Proof.
  destruct s; [apply root_parsed|apply java_frame_parsed|apply thread_object_parsed|apply class_parsed|apply instance_parsed|apply object_array_parsed|apply primitive_array_parsed|apply no_data_parsed|apply heap_info_parsed].
Qed.

(** * Segments *)

Lemma below_sub_tag s : below 1 (sub_tag s).
Proof. destruct s as [[]| | | | | | | |]; by vm_compute. Qed.

Lemma takes_content subs fuel read len at_ : Forall (wf_sub n) subs -> holds at_ (concat (map (encode_sub n) subs)) -> 0 <= read -> read + counted (encode_sub n) subs = len -> len < 2 ^ word_bits ->
  (length subs <= fuel)%nat -> takes at_ (counted (encode_sub n) subs) (content_loop file fuel group read len) (subs_effect file group n (src + at_) subs).
Proof.
  revert fuel read at_. induction subs as [|s subs IH]; intros fuel read at_ Hw H H0 Hlen Hl Hf.
  - change (counted (encode_sub n) []) with 0 in *. replace (content_loop file fuel group read len) with (mret tt : M parser unit); [apply takes_ret|]. destruct fuel; simpl; by rewrite (proj2 (Z.leb_le len read)) by lia.
  - apply Forall_cons in Hw as [Hs Hw]. destruct fuel as [|fuel]; [simpl in Hf; lia|]. rewrite counted_cons in *. cbn [map concat] in H. apply holds_app in H as [H1 H]. unfold encode_sub in H1. unpack_bounds H1.
    assert (zlen (encode_sub n s) = 1 + zlen (sub_body n s)) as E by (unfold encode_sub; by autorewrite with lens). pose proof (counted_nonneg (encode_sub n) subs). pose proof (zlen_nonneg (sub_body n s)).
    cbn [content_loop subs_effect]. rewrite (proj2 (Z.leb_gt len read)) by lia. pose proof (below_sub_tag s). rewrite E in *.
    eapply takes_len; cycle 1; [take; replace (src + at_ + 1) with (src + (at_ + 1)) by lia; eapply takes_effect; [apply all_parsed; [done|]|]|].
    + autorewrite with lens in H1. exact H1.
    + rewrite uword_small by lia. rewrite <- !Z.add_assoc. apply IH; [done|done|lia|lia|done|simpl in Hf; lia].
    + lia.
Qed.

Lemma length_subs subs : Z.of_nat (length subs) <= counted (encode_sub n) subs.
Proof. induction subs as [|s subs IH]; [done|]. rewrite counted_cons. unfold encode_sub at 1. autorewrite with lens. pose proof (zlen_nonneg (sub_body n s)). simpl. lia. Qed.

(** * Records *)

Definition record_action (tag len : Z) (rest : M parser unit) : M parser unit :=
  if tag =? 0x01 then ParseStringRecord file len;; rest
  else if tag =? 0x02 then ParseLoadClassRecord file len;; rest
  else if (tag =? 0x0c) || (tag =? 0x1c) then ParseHeapContent file group len;; rest
  else if tag =? 0x2c then mret tt
  else on_reader (Skip len);; rest.

Lemma record_match tag len rest :
  match tag with
  | 0x01 => ParseStringRecord file len;; rest
  | 0x02 => ParseLoadClassRecord file len;; rest
  | 0x0c | 0x1c => ParseHeapContent file group len;; rest
  | 0x2c => mret tt
  | _ => on_reader (Skip len);; rest
  end = record_action tag len rest.
Proof. unfold record_action. destruct tag as [|p|p]; [done| |done]. do 6 (try destruct p as [p|p|]); done. Qed.

Lemma string_parsed id text at_ : wf_record n (RecString id text) -> holds at_ (record_body n (RecString id text)) ->
  takes at_ (zlen (record_body n (RecString id text))) (ParseStringRecord file (zlen (record_body n (RecString id text)))) (AddString id (src + at_ + Z.of_nat n) (zlen text)).
Proof.
  intros [_ Hid] H. cbn [record_body] in *. unpack_bounds H. unfold ParseStringRecord. eapply takes_len; cycle 1; [take; take|].
  - rewrite zlen_app, zlen_be. replace (Z.of_nat n + zlen text - Z.of_nat n) with (zlen text) by lia. rewrite uword_small by pos. take. rewrite Z.add_assoc. by apply takes_heap.
  - pos.
Qed.

Lemma load_class_parsed id name serial trace at_ : wf_record n (RecLoadClass id name serial trace) -> holds at_ (record_body n (RecLoadClass id name serial trace)) ->
  takes at_ (zlen (record_body n (RecLoadClass id name serial trace))) (ParseLoadClassRecord file (zlen (record_body n (RecLoadClass id name serial trace)))) (AddClassNameRecord id name).
Proof.
  intros (_ & Hid & Hname) H. cbn [record_body] in *. unpack_bounds H. unfold ParseLoadClassRecord. eapply takes_len; cycle 1; [repeat take; by apply takes_heap|pos].
Qed.

Lemma heap_parsed segment subs at_ : wf_record n (RecHeap segment subs) -> holds at_ (record_body n (RecHeap segment subs)) ->
  takes at_ (zlen (record_body n (RecHeap segment subs))) (ParseHeapContent file group (zlen (record_body n (RecHeap segment subs)))) (subs_effect file group n (src + at_) subs).
Proof.
  intros [_ Hs] H. cbn [record_body] in *. pose proof H as (H0 & Hb & _). pose proof (length_subs subs). unfold ParseHeapContent. apply takes_content; [done|done|done|done|lia|unfold counted in *; lia].
Qed.

Lemma record_action_parsed r p l rest (e : M Heap unit) : wf_record n r -> holds p (record_body n r) -> takes (p + zlen (record_body n r)) l rest e ->
  takes p (zlen (record_body n r) + l) (record_action (record_tag r) (zlen (record_body n r)) rest) (record_effect file group n (src + p) r;; e).
Proof.
  intros Hr H Hl. destruct r as [id text|id name serial trace|segment subs|tag body].
  - apply takes_bind; [by apply string_parsed|by intros []].
  - apply takes_bind; [by apply load_class_parsed|by intros []].
  - replace (record_action _ _ rest) with (ParseHeapContent file group (zlen (record_body n (RecHeap segment subs)));; rest) by by destruct segment. apply takes_bind; [by apply heap_parsed|by intros []].
  - destruct Hr as (_ & _ & Ht). cbn [record_tag record_body record_effect] in *. change (mret tt;; e) with e. pose proof H as (H0 & Hb & _). pose proof (zlen_nonneg body).
    unfold record_action. rewrite !(proj2 (Z.eqb_neq tag _)) by set_solver. simpl. eapply takes_read; [apply takes_skip; lia|done].
Qed.

(** One turn of the loop. *)
Lemma record_step t r fuel at_ l (e : M Heap unit) : wf_record n r -> holds at_ (encode_record n (t, r)) ->
  takes (at_ + zlen (encode_record n (t, r))) l (record_loop file fuel group) e ->
  takes at_ (zlen (encode_record n (t, r)) + l) (record_loop file (S fuel) group) (record_effect file group n (src + at_ + 9) r;; e).
Proof.
  intros Hr H Hl. unfold encode_record in *. cbn [fst snd] in *. unpack_bounds H. pose proof (proj1 Hr) as Hlen.
  assert (below 1 (record_tag r)) as Htag by (destruct r as [| |[]|tag body]; [by vm_compute|by vm_compute|by vm_compute|by vm_compute|apply Hr]).
  cbn [record_loop]. eapply takes_len; cycle 1; [take; take; take; rewrite record_match|].
  - replace (src + at_ + 9) with (src + (at_ + 1 + 4 + 4)) by lia. match goal with H : holds ?p (record_body n r) |- _ => replace p with (at_ + 1 + 4 + 4) in H by pos end.
    apply record_action_parsed; [done|done|]. eapply takes_at; [|exact Hl]. pos.
  - pos.
Qed.

(** The records and the end of the dump. *)
Lemma records_parsed rs fuel at_ time len : Forall (fun e => wf_record n e.2) rs -> below 4 len -> holds at_ (concat (map (encode_record n) rs) ++ be 1 0x2c ++ be 4 time ++ be 4 len) -> (length rs < fuel)%nat ->
  takes at_ (counted (encode_record n) rs + 9) (record_loop file fuel group) (records_effect file group n (src + at_) rs).
Proof.
  intros Hw Hlen. revert fuel at_ Hw. induction rs as [|[t r] rs IH]; intros fuel at_ Hw H Hf; (destruct fuel as [|fuel]; [lia|]).
  - cbn [map concat app] in H. unpack_bounds H. cbn [record_loop records_effect]. eapply takes_len; cycle 1; [take; take; take; apply takes_ret|done].
  - apply Forall_cons in Hw as [Hr Hw]. cbn [map concat] in H. rewrite <- app_assoc in H. apply holds_app in H as [H1 H]. rewrite counted_cons, <- Z.add_assoc. cbn [records_effect].
    apply record_step; [done|done|]. rewrite <- Z.add_assoc. apply IH; [done|done|simpl in Hf; lia].
Qed.

End Takes.

(** * The header *)

Lemma version_bytes v : v ∈ versions -> Forall (fun b => 0 < b < 256) v.
Proof. intros Hv. assert (Forall (Forall (fun b => 0 < b < 256)) versions) as H by (vm_compute; repeat constructor). by eapply Forall_forall in H. Qed.

(** * The dump *)

Section Dump.
Context `{A : Arch} (group : ExcludeMatcherGroup) (d : dump) (Hd : wf_dump d) (Hfits : zlen (encode d) < 2 ^ word_bits).
Notation file := (encode d).
Notation size := (zlen (encode d)).
Notation n := (dump_id_size d).

Lemma holds_file : holds file 0 size 0 file.
Proof. split; [done|]. split; [lia|]. intros i b Hb. by rewrite Z.add_0_l, Nat2Z.id. Qed.

(** What follows the header. *)
Definition records_part : list Z := (concat (map (encode_record n) (dump_records d)) ++ be 1 0x2c ++ be 4 (dump_end_time d) ++ be 4 (dump_end_length d)) ++ dump_rest d.

Lemma file_parts : file = (dump_version d ++ [0]) ++ be 4 (Z.of_nat n) ++ be 8 (dump_time d) ++ records_part.
Proof. unfold records_part, encode, encode_header. by rewrite <- !app_assoc. Qed.

Lemma header_parsed h : ParseHeader file (MkParser (here 0 size 0) h) =
  (match InitializeIdSize (Z.of_nat n) h with (Ok _, h') => (Ok tt, MkParser (here 0 size (zlen (encode_header d))) h') | (r, h') => (r, MkParser (here 0 size (zlen (dump_version d) + 1 + 4)) h') end).
Proof.
  destruct Hd as (Hv & Hn & _). pose proof holds_file as H. rewrite file_parts in H at 3. apply holds_app in H as [H1 H]. apply holds_app in H as [H2 H]. pose proof H as (H0 & Hb & _).
  unfold encode_header. autorewrite with lens in *. change (zlen [0]) with 1 in *. pose proof (zlen_nonneg (dump_version d)). pose proof (zlen_nonneg records_part).
  unfold ParseHeader, ReadNullTerminatedString. unfold mbind, M_bind, on_reader, lift. cbn [rd hp]. rewrite (text_loop_at file 0 size) with (text := dump_version d); [|lia|lia|by apply version_bytes|done|].
  2: { rewrite file_parts, !length_app. lia. }
  cbn [app]. rewrite bool_decide_eq_true_2 by done. cbn [negb rd hp].
  unfold ReadU4, mbind, M_bind. change 4 with (Z.of_nat 4) at 1. change (zlen []) with 0 in *. replace (0 + (zlen (dump_version d) + (1 + 0))) with (0 + zlen (dump_version d) + 1) in H2 by lia.
  rewrite (Read_at file 0 size ltac:(lia) Hfits 4 (Z.of_nat n)) by first [done | lia | split; [lia|change (2 ^ (8 * Z.of_nat 4)) with 4294967296; lia]].
  unfold mret, M_ret, on_heap, lift. cbn [rd hp]. assert (u32 (Z.of_nat n) = Z.of_nat n) as -> by (apply Z.mod_small; lia).
  destruct (InitializeIdSize _ h) as [r h']. destruct r as [[]| | | |]; cbn [rd hp]; try (repeat f_equal; lia). unfold SkipU8.
  rewrite Skip_at by lia. unfold here. do 3 f_equal. lia.
Qed.

Lemma length_records rs : (length rs <= length (concat (map (encode_record n) rs)))%nat.
Proof. induction rs as [|e rs IH]; [done|]. cbn [map concat]. unfold encode_record at 1. rewrite !length_app, length_be. simpl. lia. Qed.

Lemma records_at_header h : id_size_ h = Z.of_nat n ->
  match records_effect file group n (zlen (encode_header d)) (dump_records d) h with
  | (Ok tt, h') => exists rd', record_loop file (S (length file)) group (MkParser (here 0 size (zlen (encode_header d))) h) = (Ok tt, MkParser rd' h')
  | (r, h') => exists rd', record_loop file (S (length file)) group (MkParser (here 0 size (zlen (encode_header d))) h) = (r, MkParser rd' h')
  end.
Proof.
  intros Hh. destruct Hd as (Hv & Hn & Hr & Hl). pose proof holds_file as H. assert (file = encode_header d ++ records_part) as E by (rewrite file_parts; unfold encode_header; by rewrite <- !app_assoc).
  rewrite E in H at 3. apply holds_app in H as [_ H]. apply holds_app in H as [H _]. rewrite Z.add_0_l in H.
  pose proof (records_parsed file 0 size ltac:(lia) Hfits group n Hn (dump_records d) (S (length file)) _ _ _ Hr Hl H) as Ht. rewrite Z.add_0_l in Ht.
  assert (length (dump_records d) < S (length file))%nat as Hf. { pose proof (length_records (dump_records d)). rewrite E. unfold records_part. rewrite !length_app. lia. }
  specialize (Ht Hf h Hh). destruct (records_effect _ _ _ _ _ h) as [r h']. destruct r as [[]| | | |]; try done. destruct Ht as [Ht _]. by eexists.
Qed.
End Dump.

Lemma Parse_run `{A : Arch} group d h : wf_dump d -> zlen (encode d) < 2 ^ word_bits ->
  exists rd', Parse (encode d) group (MkParser (here 0 (zlen (encode d)) 0) h) = ((dump_effect group d h).1, MkParser rd' (dump_effect group d h).2).
Proof.
  intros Hd Hfits. unfold Parse, dump_effect. unfold mbind, M_bind. rewrite header_parsed by done.
  destruct (InitializeIdSize _ h) as [r h1] eqn:Ei. assert (r = Ok tt -> id_size_ h1 = Z.of_nat (dump_id_size d)) as Hs.
  { intros ->. revert Ei. unfold InitializeIdSize, mbind, M_bind, gets, pub_fatal, raise, modify. destruct (_ =? 0); [done|]. destruct (negb _); [done|]. by intros [= <-]. }
  destruct r as [[]| | | |]; try by eexists. specialize (Hs eq_refl). pose proof (records_at_header group d Hd Hfits h1 Hs) as Hr.
  destruct (records_effect _ _ _ _ _ h1) as [r h2]. destruct r as [[]| | | |]; destruct Hr as [rd' ->]; try by eexists. unfold on_heap, lift. cbn [rd hp]. destruct (LazyParse _ _ h2). by eexists.
Qed.

(** C10. Every well-formed dump that fits the address space is parsed as the format says, whatever the exclusion rules and the heap to start with: the parser does to the heap exactly what the records of the dump say, one after the other, and then looks for the references of the instances; it fails only where one of these steps does. The reader never leaves the dump, never loses its place, and ignores what follows the end record. *)
Theorem parse_encode `{A : Arch} group d h : wf_dump d -> zlen (encode d) < 2 ^ word_bits ->
  scoped (new_reader 0 (zlen (encode d))) (Parse (encode d) group) h = dump_effect group d h.
Proof.
  intros Hd Hfits. destruct (Parse_run group d h Hd Hfits) as [rd' E]. unfold scoped. change (new_reader 0 (zlen (encode d))) with (here 0 (zlen (encode d)) 0). rewrite E. by destruct (dump_effect group d h).
Qed.

(** * A small dump *)

(** Two classes, the lower of them with an instance that refers to an array; a static field; two roots. *)
Definition sample_upper : class_dump := MkClass 100 0 0 (repeat 0 20) 8 [MkConstant 1 kByte [7]] [StaticObject 3 300; StaticPrimitive 5 kShort [1; 2]] [MkField 1 kObject; MkField 2 kInt].
Definition sample_lower : class_dump := MkClass 101 0 100 (repeat 0 20) 12 [] [] [MkField 4 kObject].

Definition sample_subs : list sub_record :=
  [SubClass sample_upper;
   SubRoot kRootStickyClass 100 []; SubRoot kRootJniLocal 200 (repeat 0 8);
   SubInstance 200 0 101 (be 4 400 ++ be 4 0 ++ be 4 7);
   SubClass sample_lower;
   SubObjectArray 400 0 102 [0; 500]].

Definition sample_dump : dump :=
  MkDump (bytes_of "JAVA PROFILE 1.0.3") 4 0 [(0, RecString 3 (bytes_of "next")); (1, RecLoadClass 100 3 0 0); (2, RecOther 0x05 [1; 2; 3]); (3, RecHeap true sample_subs)] 4 0 [0; 255].

Ltac wf := repeat (cbn [wf_sub wf_record wf_static class_constants class_statics class_fields class_id class_super class_reserved fst snd dump_records];
  match goal with
  | |- below _ _ => vm_compute; split; [discriminate|reflexivity]
  | |- wf_class _ _ => unfold wf_class, sample_upper, sample_lower
  | |- wf_record _ _ => unfold wf_record
  | |- Forall _ sample_subs => unfold sample_subs
  | |- Forall _ [] => apply Forall_nil_2
  | |- Forall _ (_ :: _) => apply Forall_cons
  | |- _ <> _ => discriminate
  | |- _ ∉ _ => apply (bool_decide_eq_true_1 _); vm_compute; reflexivity
  | |- _ = _ => vm_compute; reflexivity
  | |- _ /\ _ => split
  end).

Lemma sample_wf : wf_dump sample_dump.
Proof.
  split; [apply (bool_decide_eq_true_1 _); by vm_compute|]. split; [simpl; lia|]. unfold sample_dump. wf.
Qed.

Lemma parse_encode_witness :
  let group := MkGroup [] [new_field_matcher (bytes_of "*") (bytes_of "next")] [] [] in
  scoped (new_reader 0 (zlen (encode sample_dump))) (Parse (A := arch_arm) (encode sample_dump) group) empty_heap = dump_effect (A := arch_arm) group sample_dump empty_heap
  /\ (dump_effect (A := arch_arm) group sample_dump empty_heap).1 = Ok tt
  /\ excluded_references_ (dump_effect (A := arch_arm) group sample_dump empty_heap).2 !! 100 = Some {[ 300 := field_reference 3 true ]}.
Proof.
  intros group. split; [exact (parse_encode (A := arch_arm) group sample_dump empty_heap sample_wf ltac:(vm_compute; reflexivity))|]. split; vm_compute; reflexivity.
Defined.
End HprofRoundTrip.
