(* ===== verification/HprofGraph.v ===== *)
(** From the bytes of a dump to the chains of its objects.

    The objects of a dump and their references are described on the data of the format
    ([refers], [rooted]).  [grown] says how a heap grows by a part of the dump. *)
From stdpp Require Import sorting.
From S2P Require Import Prelude Arch Machine Libc HprofReader HprofHeap HprofEngine HprofAnalyzer HprofSearch HprofDump HprofRoundTrip.
#[local] Open Scope Z_scope.

Module HprofGraph.
Import HprofReader HprofHeap HprofEngine HprofAnalyzer HprofSearch HprofDump HprofRoundTrip.

(** * The objects of a dump *)

Definition record_subs (r : record) : list sub_record := match r with RecHeap _ subs => subs | _ => [] end.

Definition dump_subs (d : dump) : list sub_record := concat (map (fun e => record_subs e.2) (dump_records d)).

(** The number that bytes stand for. *)
Definition be_value (bs : list Z) : Z := foldl (fun acc b => 256 * acc + b) 0 bs.

(** The object fields of an instance with the given fields and data. *)
Fixpoint object_fields (n : nat) (fs : list field_t) (data : list Z) : list (Z * Z) :=
  match fs with
  | [] => []
  | f :: fs =>
      let rest := object_fields n fs (drop (width n (type f)) data) in
      match type f with kObject => (name_id f, be_value (take n data)) :: rest | _ => rest end
  end.

Definition fields_width (n : nat) (fs : list field_t) : nat := sum_list_with (fun f => width n (type f)) fs.

Section Objects.
Context (subs : list sub_record).

(** [hierarchy k c fs]: [fs] are the fields of the class [c] and of the [k] classes above it. *)
Inductive hierarchy : nat -> Z -> list field_t -> Prop :=
| hierarchy_none c : (forall k, SubClass k ∈ subs -> class_id k <> c) -> hierarchy 0 c []
| hierarchy_top k : SubClass k ∈ subs -> class_super k = 0 -> hierarchy 0 (class_id k) (class_fields k)
| hierarchy_sub i k fs : SubClass k ∈ subs -> class_super k <> 0 -> hierarchy i (class_super k) fs -> hierarchy (S i) (class_id k) (class_fields k ++ fs).

(** [refers n a b r]: the object [a] refers to [b]. *)
Inductive refers (n : nat) : Z -> Z -> reference_t -> Prop :=
| refers_element id trace cls elements i b : SubObjectArray id trace cls elements ∈ subs -> elements !! i = Some b -> refers n id b (MkReference kArrayElement (Z.of_nat i) 0)
| refers_static c name b : SubClass c ∈ subs -> StaticObject name b ∈ class_statics c -> refers n (class_id c) b (field_reference name true)
| refers_field id trace cls data k fs name b : SubInstance id trace cls data ∈ subs -> hierarchy k cls fs -> (name, b) ∈ object_fields n fs data -> refers n id b (field_reference name false).

Definition roots_of (s : sub_record) : list (Z * gc_root_type_t) :=
  match s with
  | SubRoot t id _ => if id =? 0 then [] else [(id, t)]
  | SubJavaFrame id _ _ => if id =? 0 then [] else [(id, kRootJavaFrame)]
  | SubThreadObject id _ _ => if id =? 0 then [] else [(id, kRootThreadObject)]
  | _ => []
  end.

Definition rooted (x : Z) : Prop := x ∈ map fst (concat (map roots_of subs)).

Definition class_ids : list Z := omap (fun s => match s with SubClass c => Some (class_id c) | _ => None end) subs.
Definition instance_ids : list Z := omap (fun s => match s with SubInstance id _ _ _ => Some id | _ => None end) subs.

(** Objects have one record each, classes are not above themselves, and instances hold all their fields. *)
Definition wf_objects (n : nat) : Prop :=
  NoDup class_ids /\ NoDup instance_ids /\
  forall id trace cls data, SubInstance id trace cls data ∈ subs -> Forall (fun b => 0 <= b < 256) data /\ exists k fs, hierarchy k cls fs /\ (fields_width n fs <= length data)%nat.
End Objects.

(** * How a heap grows *)

Definition inserts {V} (l : list (Z * V)) (m : gmap Z V) : gmap Z V := foldl (fun m e => <[e.1 := e.2]> m) m l.
Definition emplaces {V} (l : list (Z * V)) (m : gmap Z V) : gmap Z V := foldl (fun m e => emplace e.1 e.2 m) m l.
Definition appends (l : list (Z * field_t)) (m : gmap Z (list field_t)) : gmap Z (list field_t) := foldl (fun m e => <[e.1 := default [] (m !! e.1) ++ [e.2]]> m) m l.
Definition adds (l : list (Z * Z * reference_t)) (m : gmap Z (gmap Z reference_t)) : gmap Z (gmap Z reference_t) :=
  foldl (fun m e => <[e.1.1 := <[e.1.2 := e.2]> (default ∅ (m !! e.1.1))]> m) m l.

Record growth := MkGrowth { g_supers : list (Z * Z); g_fields : list (Z * field_t); g_data : list (Z * HeapFieldsData); g_refs : list (Z * Z * reference_t); g_roots : list (Z * gc_root_type_t) }.

Definition no_growth : growth := MkGrowth [] [] [] [] [].
Definition join (a b : growth) : growth := MkGrowth (g_supers a ++ g_supers b) (g_fields a ++ g_fields b) (g_data a ++ g_data b) (g_refs a ++ g_refs b) (g_roots a ++ g_roots b).

Record grown (g : growth) (h h' : Heap) : Prop := MkGrown {
  gr_size : id_size_ h' = id_size_ h;
  gr_supers : inheritance_ h' = inserts (g_supers g) (inheritance_ h);
  gr_fields : instance_fields_ h' = appends (g_fields g) (instance_fields_ h);
  gr_data : fields_data_ h' = emplaces (g_data g) (fields_data_ h);
  gr_refs : references_ h' = adds (g_refs g) (references_ h);
  gr_roots : gc_roots_ h' = gc_roots_ h ++ map fst (g_roots g);
  gr_types : gc_root_types_ h' = inserts (g_roots g) (gc_root_types_ h)
}.

Lemma grown_none h h' : id_size_ h' = id_size_ h -> inheritance_ h' = inheritance_ h -> instance_fields_ h' = instance_fields_ h -> fields_data_ h' = fields_data_ h -> references_ h' = references_ h ->
  gc_roots_ h' = gc_roots_ h -> gc_root_types_ h' = gc_root_types_ h -> grown no_growth h h'.
Proof. intros. split; try done. by rewrite app_nil_r. Qed.

Lemma grown_join a b h h1 h2 : grown a h h1 -> grown b h1 h2 -> grown (join a b) h h2.
Proof.
  intros [A0 A1 A2 A3 A4 A5 A6] [B0 B1 B2 B3 B4 B5 B6]. split; simpl; unfold inserts, appends, emplaces, adds in *; rewrite ?foldl_app; try congruence.
  by rewrite B5, A5, map_app, app_assoc.
Qed.

(** [grows c g]: the code returns, and the heap has grown by [g]. *)
Definition grows (c : M Heap unit) (g : growth) : Prop := forall h, wp c (fun _ h' => grown g h h') h.

Lemma grows_bind c c' a b : grows c a -> grows c' b -> grows (c;; c') (join a b).
Proof. intros H1 H2 h. apply wp_bind. eapply wp_mono; [|apply H1]. intros [] h1 G1. eapply wp_mono; [|apply H2]. intros [] h2 G2. by eapply grown_join. Qed.

Lemma join_none_l g : join no_growth g = g.
Proof. by destruct g. Qed.

Lemma join_none_r g : join g no_growth = g.
Proof. destruct g. unfold join. simpl. by rewrite !app_nil_r. Qed.

Lemma grows_ret : grows (mret tt) no_growth.
Proof. intros h. apply wp_ret. by apply grown_none. Qed.

Lemma grows_skip c c' g : grows c no_growth -> grows c' g -> grows (c;; c') g.
Proof. intros H1 H2. rewrite <- (join_none_l g). by apply grows_bind. Qed.

Definition refs_growth (l : list (Z * Z * reference_t)) : growth := MkGrowth [] [] [] l [].
Definition fields_growth (l : list (Z * field_t)) : growth := MkGrowth [] l [] [] [].

(** [grows_op]: an operation that sets some components. *)
Ltac grows_op := intros h; unfold wp; simpl; split; simpl; unfold inserts, appends, emplaces, adds; simpl; rewrite ?app_nil_r; done.

Lemma grows_type id t : grows (AddInstanceTypeRecord id t) no_growth.
Proof. grows_op. Qed.

Lemma grows_class id c : grows (AddInstanceClassRecord id c) no_growth.
Proof. grows_op. Qed.

Lemma grows_super c s : grows (AddInheritanceRecord c s) (MkGrowth [(c, s)] [] [] [] []).
Proof. grows_op. Qed.

Lemma grows_reference a r b : grows (AddReference a r b) (refs_growth [(a, b, r)]).
Proof. grows_op. Qed.

Lemma grows_field c f : grows (AddInstanceFieldRecord c f) (fields_growth [(c, f)]).
Proof. grows_op. Qed.

Lemma grows_data id x : grows (modify (fun h => set_fields_data (emplace id x (fields_data_ h)) h)) (MkGrowth [] [] [(id, x)] [] []).
Proof. grows_op. Qed.

Lemma grows_arrays id x : grows (modify (fun h => set_primitive_arrays (emplace id x (primitive_arrays_ h)) h)) no_growth.
Proof. grows_op. Qed.

Lemma grows_mark id t : grows (mark id t) (MkGrowth [] [] [] [] (if id =? 0 then [] else [(id, t)])).
Proof. unfold mark. destruct (id =? 0); grows_op. Qed.

Lemma grows_thread_reference id t : grows (if id =? 0 then mret tt else AddThreadReferenceRecord id t) no_growth.
Proof. destruct (id =? 0); grows_op. Qed.

Lemma grows_thread_object id t : grows (if id =? 0 then mret tt else AddThreadObjectRecord id t) no_growth.
Proof. destruct (id =? 0); grows_op. Qed.

(** * What a subrecord adds *)

Definition static_refs (c : Z) (s : static_dump) : list (Z * Z * reference_t) := match s with StaticObject name b => [(c, b, field_reference name true)] | StaticPrimitive _ _ _ => [] end.

Fixpoint element_refs (id i : Z) (elements : list Z) : list (Z * Z * reference_t) := match elements with [] => [] | b :: l => (id, b, MkReference kArrayElement i 0) :: element_refs id (i + 1) l end.

Definition sub_growth (n : nat) (pos : Z) (s : sub_record) : growth :=
  match s with
  | SubRoot _ _ _ | SubJavaFrame _ _ _ | SubThreadObject _ _ _ => MkGrowth [] [] [] [] (roots_of s)
  | SubClass c => MkGrowth [(class_id c, class_super c)] (map (pair (class_id c)) (class_fields c)) [] (concat (map (static_refs (class_id c)) (class_statics c))) []
  | SubInstance id _ cls data => MkGrowth [] [] [(id, MkFieldsData id cls (zlen data) (pos + Z.of_nat n + 4 + Z.of_nat n + 4))] [] []
  | SubObjectArray id _ _ elements => refs_growth (element_refs id 0 elements)
  | _ => no_growth
  end.

Section Effects.
Context `{A : Arch} (file : list Z) (group : ExcludeMatcherGroup) (n : nat) (Hgroup : exclude_static_fields group = []).

Lemma grows_statics c l : grows (each (static_effect c []) l) (refs_growth (concat (map (static_refs c) l))).
Proof.
  induction l as [|s l IH]; [apply grows_ret|]. cbn [each map concat]. destruct s as [name b|name t v].
  - apply (grows_bind _ _ (refs_growth [(c, b, field_reference name true)]) (refs_growth _)); [apply grows_reference|done].
  - apply grows_skip; [apply grows_ret|done].
Qed.

Lemma grows_fields c l : grows (each (AddInstanceFieldRecord c) l) (fields_growth (map (pair c) l)).
Proof. induction l as [|f l IH]; [apply grows_ret|]. cbn [each map]. apply (grows_bind _ _ (fields_growth [(c, f)]) (fields_growth _)); [apply grows_field|done]. Qed.

Lemma grows_elements id i l : grows (elements_effect id i l) (refs_growth (element_refs id i l)).
Proof. revert i. induction l as [|b l IH]; intros i; [apply grows_ret|]. cbn [elements_effect element_refs]. apply (grows_bind _ _ (refs_growth [(id, b, _)]) (refs_growth _)); [apply grows_reference|done]. Qed.

Lemma grows_class_dump c : grows (class_effect file group c) (sub_growth n 0 (SubClass c)).
Proof.
  unfold class_effect. rewrite Hgroup. simpl. apply grows_skip; [apply grows_type|].
  apply (grows_bind _ _ (MkGrowth [(class_id c, class_super c)] [] [] [] []) (MkGrowth [] (map (pair (class_id c)) (class_fields c)) [] (concat (map (static_refs (class_id c)) (class_statics c))) [])); [apply grows_super|].
  change (grows (each (static_effect (class_id c) []) (class_statics c);; each (AddInstanceFieldRecord (class_id c)) (class_fields c)) (MkGrowth [] (map (pair (class_id c)) (class_fields c)) [] (concat (map (static_refs (class_id c)) (class_statics c))) [])).
  rewrite <- (app_nil_r (concat _)). apply (grows_bind _ _ (refs_growth _) (fields_growth _)); [apply grows_statics|apply grows_fields].
Qed.

Lemma grows_sub pos s : grows (sub_effect file group n pos s) (sub_growth n pos s).
Proof.
  destruct s; cbn [sub_effect sub_growth roots_of].
  - apply grows_mark.
  - rewrite <- join_none_r. apply grows_bind; [apply grows_mark|apply grows_thread_reference].
  - rewrite <- join_none_r. apply grows_bind; [apply grows_mark|apply grows_thread_object].
  - apply grows_class_dump.
  - apply grows_skip; [apply grows_type|]. apply grows_skip; [apply grows_class|]. apply grows_data.
  - apply grows_skip; [apply grows_type|]. apply grows_skip; [apply grows_class|]. apply grows_elements.
  - apply grows_skip; [apply grows_type|]. apply grows_arrays.
  - apply grows_type.
  - apply grows_ret.
Qed.

(** The subrecords with the positions of their bodies. *)
Fixpoint subs_at (pos : Z) (subs : list sub_record) : list (Z * sub_record) := match subs with [] => [] | s :: subs => (pos + 1, s) :: subs_at (pos + zlen (encode_sub n s)) subs end.

Fixpoint records_at (pos : Z) (rs : list (Z * record)) : list (Z * sub_record) :=
  match rs with [] => [] | e :: rs => subs_at (pos + 9) (record_subs e.2) ++ records_at (pos + zlen (encode_record n e)) rs end.

Definition joins (l : list (Z * sub_record)) : growth := foldr (fun e g => join (sub_growth n e.1 e.2) g) no_growth l.

Lemma join_assoc a b c : join a (join b c) = join (join a b) c.
Proof. unfold join. simpl. by rewrite !app_assoc. Qed.

Lemma joins_app l l' : joins (l ++ l') = join (joins l) (joins l').
Proof. induction l as [|e l IH]; simpl; [by rewrite join_none_l|]. by rewrite IH, join_assoc. Qed.

Lemma grows_subs pos subs : grows (subs_effect file group n pos subs) (joins (subs_at pos subs)).
Proof. revert pos. induction subs as [|s subs IH]; intros pos; [apply grows_ret|]. cbn [subs_effect subs_at joins foldr fst snd]. apply grows_bind; [apply grows_sub|apply IH]. Qed.

Lemma grows_records pos rs : grows (records_effect file group n pos rs) (joins (records_at pos rs)).
Proof.
  revert pos. induction rs as [|[t r] rs IH]; intros pos; [apply grows_ret|]. cbn [records_effect records_at snd]. rewrite joins_app. apply grows_bind; [|apply IH].
  destruct r; cbn [record_effect record_subs]; [grows_op|grows_op|apply grows_subs|apply grows_ret].
Qed.

Lemma subs_at_subs pos subs : map snd (subs_at pos subs) = subs.
Proof. revert pos. induction subs as [|s subs IH]; intros pos; simpl; [done|]. by rewrite IH. Qed.

Lemma records_at_subs pos rs : map snd (records_at pos rs) = concat (map (fun e => record_subs e.2) rs).
Proof. revert pos. induction rs as [|e rs IH]; intros pos; simpl; [done|]. by rewrite map_app, subs_at_subs, IH. Qed.

Lemma joins_supers l : g_supers (joins l) = omap (fun s => match s with SubClass c => Some (class_id c, class_super c) | _ => None end) (map snd l).
Proof. induction l as [|[p s] l IH]; [done|]. simpl. rewrite IH. by destruct s. Qed.

Lemma joins_fields l : g_fields (joins l) = concat (map (fun s => match s with SubClass c => map (pair (class_id c)) (class_fields c) | _ => [] end) (map snd l)).
Proof. induction l as [|[p s] l IH]; [done|]. simpl. rewrite IH. by destruct s. Qed.

Lemma joins_roots l : g_roots (joins l) = concat (map roots_of (map snd l)).
Proof. induction l as [|[p s] l IH]; [done|]. simpl. rewrite IH. by destruct s. Qed.

Lemma joins_refs l : g_refs (joins l) = concat (map (fun s => g_refs (sub_growth n 0 s)) (map snd l)).
Proof. induction l as [|[p s] l IH]; [done|]. simpl. rewrite IH. by destruct s. Qed.
End Effects.

(** * Maps *)

Lemma inserts_some {V} l (m : gmap Z V) k v : inserts l m !! k = Some v -> (k, v) ∈ l \/ m !! k = Some v.
Proof.
  revert m. induction l as [|[k' v'] l IH]; intros m; simpl; [by right|]. intros [?|H]%IH; [by left; right|]. simpl in H. apply lookup_insert_Some in H as [[-> ->]|[_ ?]]; [left; left|by right].
Qed.

Lemma inserts_notin {V} l (m : gmap Z V) k : k ∉ map fst l -> inserts l m !! k = m !! k.
Proof.
  revert m. induction l as [|[k' v'] l IH]; intros m; simpl; [done|]. intros [Hk Hl]%not_elem_of_cons. unfold inserts in *. simpl. rewrite IH by done. by apply lookup_insert_ne.
Qed.

Lemma inserts_in {V} l (m : gmap Z V) k v : NoDup (map fst l) -> (k, v) ∈ l -> inserts l m !! k = Some v.
Proof.
  revert m. induction l as [|[k' v'] l IH]; intros m; simpl; [by intros _ ?%not_elem_of_nil|]. intros [Hn Hl]%NoDup_cons [[= -> ->]|Hk]%elem_of_cons; [|by apply (IH (<[k' := v']> m))].
  change (inserts l (<[k' := v']> m) !! k' = Some v'). rewrite inserts_notin by done. apply lookup_insert_eq.
Qed.

Lemma inserts_is_Some {V} l (m : gmap Z V) k : k ∈ map fst l -> is_Some (inserts l m !! k).
Proof.
  revert m. induction l as [|[k' v'] l IH]; intros m; simpl; [by intros ?%not_elem_of_nil|]. destruct (decide (k ∈ map fst l)) as [H|H]; [by intros _; apply (IH (<[k' := v']> m))|].
  intros [->|?]%elem_of_cons; [|done]. change (is_Some (inserts l (<[k' := v']> m) !! k')). rewrite inserts_notin by done. rewrite lookup_insert_eq. by eexists.
Qed.

(** An [emplace] of new keys inserts. *)
Lemma emplaces_inserts {V} l (m : gmap Z V) : NoDup (map fst l) -> (forall k, k ∈ map fst l -> m !! k = None) -> emplaces l m = inserts l m.
Proof.
  revert m. induction l as [|[k' v'] l IH]; intros m; [done|]. simpl. intros [Hn Hl]%NoDup_cons Hm. unfold emplaces, inserts in *. simpl. unfold emplace at 2. rewrite (Hm k') by left. apply IH; [done|].
  intros k Hk. rewrite lookup_insert_ne by (by intros ->). apply Hm. by right.
Qed.

Lemma appends_lookup l m c : default [] (appends l m !! c) = default [] (m !! c) ++ map snd (List.filter (fun e => e.1 =? c) l).
Proof.
  revert m. induction l as [|[k f] l IH]; intros m; [simpl; by rewrite app_nil_r|]. unfold appends in *. simpl. rewrite IH. destruct (Z.eqb_spec k c) as [->|Hne].
  - rewrite lookup_insert_eq. simpl. by rewrite <- app_assoc.
  - by rewrite lookup_insert_ne.
Qed.

Lemma adds_edge l m a b r : edge (adds l m) a b r -> (a, b, r) ∈ l \/ edge m a b r.
Proof.
  revert m. induction l as [|[[a' b'] r'] l IH]; intros m; simpl; [by right|]. intros [?|(x & Hx & Hb)]%IH; [by left; right|]. simpl in Hx.
  apply lookup_insert_Some in Hx as [[-> <-]|[_ Hx]]; [|by right; exists x]. apply lookup_insert_Some in Hb as [[-> ->]|[_ Hb]]; [by left; left|]. right. destruct (m !! a) as [y|] eqn:Ey; simpl in Hb; [by exists y|done].
Qed.

(** A reference stays, its name may change. *)
Lemma adds_in l m a b r : (a, b, r) ∈ l \/ edge m a b r -> exists r', edge (adds l m) a b r'.
Proof.
  revert m r. induction l as [|[[a' b'] r'] l IH]; intros m r; simpl; [intros [?%not_elem_of_nil|?]; [done|by exists r]|]. intros H.
  assert ((a, b, r) ∈ l \/ exists r, edge (<[a' := <[b' := r']> (default ∅ (m !! a'))]> m) a b r) as [Hl|[r1 He]]; [|by eapply (IH _ r); left|by eapply (IH _ r1); right].
  destruct H as [[[= -> -> ->]|Hl]%elem_of_cons|(x & Hx & Hb)]; [right|by left|right].
  - exists r', (<[b' := r']> (default ∅ (m !! a'))). by rewrite !lookup_insert_eq.
  - destruct (decide (a' = a)) as [->|Hne]; [|exists r, x; by rewrite lookup_insert_ne]. rewrite Hx. simpl. destruct (decide (b' = b)) as [->|Hne].
    + exists r', (<[b := r']> x). by rewrite !lookup_insert_eq.
    + exists r, (<[b' := r']> x). by rewrite lookup_insert_eq, lookup_insert_ne.
Qed.

(** * Positions *)

Section Positions.
Context (file : list Z) (size : Z) (n : nat).
Notation holds := (holds file 0 size).

Lemma subs_at_holds subs p pos s : holds p (concat (map (encode_sub n) subs)) -> (pos, s) ∈ subs_at n p subs -> holds pos (sub_body n s).
Proof.
  revert p. induction subs as [|s' subs IH]; intros p H Hin; [by apply not_elem_of_nil in Hin|]. cbn [map concat] in H. apply holds_app in H as [H1 H]. cbn [subs_at] in Hin.
  apply elem_of_cons in Hin as [[= -> ->]|Hin]; [|by eapply IH]. unfold encode_sub in H1. apply holds_app in H1 as [_ H1]. by rewrite zlen_be in H1.
Qed.

Lemma records_at_holds rs p pos s : holds p (concat (map (encode_record n) rs)) -> (pos, s) ∈ records_at n p rs -> holds pos (sub_body n s).
Proof.
  revert p. induction rs as [|[t r] rs IH]; intros p H Hin; [by apply not_elem_of_nil in Hin|]. cbn [map concat] in H. apply holds_app in H as [H1 H]. cbn [records_at] in Hin.
  apply elem_of_app in Hin as [Hin|Hin]; [|by eapply IH]. destruct r as [| |segment subs|]; try by apply not_elem_of_nil in Hin. unfold encode_record in H1. cbn [fst snd record_body] in H1.
  apply holds_app in H1 as [_ H1]. apply holds_app in H1 as [_ H1]. apply holds_app in H1 as [_ H1]. rewrite !zlen_be in H1. replace (p + Z.of_nat 1 + Z.of_nat 4 + Z.of_nat 4) with (p + 9) in H1 by lia. by eapply subs_at_holds.
Qed.

Lemma instance_holds pos id trace cls data : holds pos (sub_body n (SubInstance id trace cls data)) -> holds (pos + Z.of_nat n + 4 + Z.of_nat n + 4) data.
Proof. cbn [sub_body]. intros H. do 4 apply holds_app in H as [_ H]. by rewrite !zlen_be in H. Qed.
End Positions.

(** * Classes *)

Lemma omap_unique {X Y} (f : X -> option Y) l x x' y : NoDup (omap f l) -> x ∈ l -> x' ∈ l -> f x = Some y -> f x' = Some y -> x = x'.
Proof.
  intros Hd Hx Hx' Ex Ex'. induction l as [|z l IH]; [by apply not_elem_of_nil in Hx|]. simpl in Hd.
  assert (forall w, w ∈ l -> f w = Some y -> y ∈ omap f l) as Hin by (intros w Hw Ew; apply list_elem_of_omap; by exists w).
  apply elem_of_cons in Hx as [->|Hx]; apply elem_of_cons in Hx' as [->|Hx']; [done|rewrite Ex in Hd|rewrite Ex' in Hd|].
  - apply NoDup_cons in Hd as [Hn _]. destruct Hn. by eapply Hin.
  - apply NoDup_cons in Hd as [Hn _]. destruct Hn. by eapply Hin.
  - apply IH; [|done|done]. destruct (f z); [by apply NoDup_cons in Hd as [_ ?]|done].
Qed.

Section Classes.
Context (subs : list sub_record) (Hclasses : NoDup (class_ids subs)).

Lemma class_unique k k' : SubClass k ∈ subs -> SubClass k' ∈ subs -> class_id k = class_id k' -> k = k'.
Proof. intros H H' E. assert (SubClass k = SubClass k') as [= ->]; [|done]. eapply (omap_unique _ _ _ _ (class_id k) Hclasses); [done|done|done|simpl; congruence]. Qed.

Lemma hierarchy_unique k c fs k' fs' : hierarchy subs k c fs -> hierarchy subs k' c fs' -> k = k' /\ fs = fs'.
Proof.
  intros H. revert k' fs'. induction H as [c Hc|c Hc Hs|i c fs Hc Hs H IH]; intros k' fs' H'; inversion H' as [c' Hc'|c' Hc' Hs'|i' c' fs1 Hc' Hs' H1]; subst.
  all: try done.
  all: try (by edestruct Hc); try (by edestruct Hc').
  all: match goal with E : class_id _ = class_id _ |- _ => apply class_unique in E; [subst|done|done] end; try done.
  destruct (IH _ _ H1) as [-> ->]. done.
Qed.

(** The classes from [c] on are different ones. *)
Lemma hierarchy_chain k c fs : hierarchy subs k c fs ->
  exists l, length l = k /\ NoDup l /\ forall x, x ∈ l -> x ∈ class_ids subs /\ exists j fs', hierarchy subs j x fs' /\ (j <= k)%nat.
Proof.
  intros H. induction H as [c Hc|c Hc Hs|i c fs Hc Hs H (l & Hl & Hd & Hx)]; [exists []; split; [done|]; split; [constructor|]; by intros ? ?%not_elem_of_nil..|].
  assert (hierarchy subs (S i) (class_id c) (class_fields c ++ fs)) as Hh by by apply hierarchy_sub. exists (class_id c :: l). split; [simpl; congruence|]. split.
  - apply NoDup_cons. split; [|done]. intros Hin. destruct (Hx _ Hin) as (_ & j & fs' & Hj & Hle). destruct (hierarchy_unique _ _ _ _ _ Hh Hj) as [E _]. lia.
  - intros x [->|Hin]%elem_of_cons; [|destruct (Hx _ Hin) as (H1 & j & fs' & Hj & Hle); split; [done|]; exists j, fs'; split; [done|lia]].
    split; [apply list_elem_of_omap; by exists (SubClass c)|]. exists (S i), (class_fields c ++ fs). by split.
Qed.

Definition class_field_list (s : sub_record) : list (Z * field_t) := match s with SubClass c => map (pair (class_id c)) (class_fields c) | _ => [] end.

Lemma own_fields c (fs : list field_t) : map snd (List.filter (fun e => e.1 =? c) (map (pair c) fs)) = fs.
Proof. induction fs as [|f fs IH]; [done|]. simpl. rewrite Z.eqb_refl. simpl. by rewrite IH. Qed.

Lemma other_fields (l : list (Z * field_t)) c : c ∉ map fst l -> List.filter (fun e => e.1 =? c) l = [].
Proof. induction l as [|[k f] l IH]; [done|]. simpl. intros [Hk Hl]%not_elem_of_cons. rewrite (proj2 (Z.eqb_neq k c)) by congruence. by apply IH. Qed.

Lemma class_field_ids l x : x ∈ map fst (concat (map class_field_list l)) -> x ∈ class_ids l.
Proof.
  induction l as [|s l IH]; simpl; [by intros ?%not_elem_of_nil|]. rewrite map_app, elem_of_app. intros [H|H]; [|destruct s; simpl; try right; by apply IH].
  destruct s as [| | |c| | | | |]; try by apply not_elem_of_nil in H. simpl in *. rewrite map_map in H. apply list_elem_of_fmap in H as (f & -> & _). by left.
Qed.
End Classes.

Lemma class_fields_found subs k : NoDup (class_ids subs) -> SubClass k ∈ subs ->
  map snd (List.filter (fun e => e.1 =? class_id k) (concat (map class_field_list subs))) = class_fields k.
Proof.
  induction subs as [|s subs IH]; [by intros _ ?%not_elem_of_nil|]. intros Hd Hk. cbn [map concat]. rewrite List.filter_app, map_app. apply elem_of_cons in Hk as [<-|Hk].
  - simpl in Hd. apply NoDup_cons in Hd as [Hn Hd]. cbn [class_field_list]. rewrite own_fields. rewrite (other_fields (concat _)); [apply app_nil_r|]. intros H. by apply Hn, class_field_ids.
  - assert (class_id k ∈ class_ids subs) as Hin by (apply list_elem_of_omap; by exists (SubClass k)). destruct s as [| | |c| | | | |]; try (apply IH; [exact Hd|exact Hk]).
    simpl in Hd. apply NoDup_cons in Hd as [Hn Hd]. rewrite (other_fields (class_field_list (SubClass c))); [apply IH; done|].
    simpl. rewrite map_map. intros (f & E & _)%list_elem_of_fmap. simpl in E. congruence.
Qed.

(** * The tables of the heap *)

Record tables (n : nat) (subs : list sub_record) (h : Heap) : Prop := MkTables {
  tb_size : id_size_ h = Z.of_nat n;
  tb_supers c s : inheritance_ h !! c = Some s <-> exists k, SubClass k ∈ subs /\ class_id k = c /\ class_super k = s;
  tb_fields k : SubClass k ∈ subs -> default [] (instance_fields_ h !! class_id k) = class_fields k;
  tb_no_fields c : c ∉ class_ids subs -> default [] (instance_fields_ h !! c) = []
}.

Lemma tables_grown n subs l h h' : tables n subs h -> grown (refs_growth l) h h' -> tables n subs h'.
Proof. intros [H1 H2 H3 H4] [G0 G1 G2 _ _ _ _]. simpl in *. unfold inserts, appends in *. simpl in *. split; rewrite ?G0, ?G1, ?G2; done. Qed.

(** The loop over the classes has enough turns. *)
Lemma tables_fuel n subs h k c fs : NoDup (class_ids subs) -> tables n subs h -> hierarchy subs k c fs -> (k < class_fuel h)%nat.
Proof.
  intros Hd Ht Hh. destruct (hierarchy_chain subs Hd _ _ _ Hh) as (l & <- & Hl & Hx). unfold class_fuel. enough (length l <= base.size (inheritance_ h))%nat by lia.
  rewrite <- size_dom. rewrite <- (size_list_to_set (C := gset Z) l) by done. apply subseteq_size. intros x Hin%elem_of_list_to_set. destruct (Hx x Hin) as [Hc _].
  apply list_elem_of_omap in Hc as (s & Hs & E). destruct s as [| | |k| | | | |]; try done. simplify_eq. apply elem_of_dom. exists (class_super k). apply (tb_supers _ _ _ Ht). by exists k.
Qed.

(** * The data of instances *)

Lemma be_snoc k v b : 0 <= b < 256 -> be (S k) (256 * v + b) = be k v ++ [b].
Proof.
  intros Hb. induction k as [|k IH]; [unfold be; simpl; rewrite Z.div_1_r; f_equal; rewrite Z.add_comm, Z.mul_comm, Z.mod_add by lia; by apply Z.mod_small|].
  change (be (S (S k)) (256 * v + b)) with (((256 * v + b) / 2 ^ (8 * Z.of_nat (S k))) mod 256 :: be (S k) (256 * v + b)). rewrite IH. simpl. f_equal. f_equal.
  replace (8 * Z.of_nat (S k)) with (8 + 8 * Z.of_nat k) by lia. rewrite Z.pow_add_r by lia. rewrite <- Z.div_div by lia. f_equal. change (2 ^ 8) with 256. rewrite Z.mul_comm, Z.div_add_l by lia. rewrite Z.div_small; lia.
Qed.

Lemma be_value_snoc bs b : be_value (bs ++ [b]) = 256 * be_value bs + b.
Proof. unfold be_value. by rewrite foldl_app. Qed.

(** Bytes are those of the number they stand for. *)
Lemma be_value_be bs : Forall (fun b => 0 <= b < 256) bs -> be (length bs) (be_value bs) = bs /\ below (length bs) (be_value bs).
Proof.
  induction bs as [|b bs IH] using rev_ind; [done|]. intros [Hbs Hb]%Forall_app. apply Forall_cons in Hb as [Hb _]. destruct (IH Hbs) as [E [H0 H1]]. rewrite length_app, be_value_snoc. simpl. rewrite Nat.add_1_r.
  split; [rewrite be_snoc by done; by rewrite E|]. unfold below. replace (8 * Z.of_nat (S (length bs))) with (8 * Z.of_nat (length bs) + 8) by lia. rewrite Z.pow_add_r by lia. change (2 ^ 8) with 256. nia.
Qed.

Definition field_effect (n : nat) (id : Z) (f : field_t) (data : list Z) : M Heap unit :=
  match type f with
  | kObject => AddFieldReference id (name_id f) (be_value (take n data)) false
  | t => modify (fun h => set_primitives (<[id := emplace (name_id f) (MkPrimitive t (be_value (take (width n t) data))) (default ∅ (primitives_ h !! id))]> (primitives_ h)) h)
  end.

Fixpoint fields_effect (n : nat) (id : Z) (fs : list field_t) (data : list Z) : M Heap unit :=
  match fs with [] => mret tt | f :: fs => field_effect n id f data;; fields_effect n id fs (drop (width n (type f)) data) end.

Definition field_refs (n : nat) (id : Z) (fs : list field_t) (data : list Z) : list (Z * Z * reference_t) := map (fun e => (id, e.2, field_reference e.1 false)) (object_fields n fs data).

Lemma grows_instance n id fs data : grows (fields_effect n id fs data) (refs_growth (field_refs n id fs data)).
Proof.
  revert data. induction fs as [|[name t] fs IH]; intros data; [apply grows_ret|]. cbn [fields_effect]. unfold field_refs. cbn [object_fields type name_id]. unfold field_effect. cbn [type name_id].
  destruct t; try (apply grows_skip; [grows_op|apply IH]). apply (grows_bind _ _ (refs_growth [_]) (refs_growth _)); [apply grows_reference|apply IH].
Qed.

Section Instance.
Context `{A : Arch} (file : list Z) (src size : Z) (Hsrc : 0 <= src) (Hsize : size < 2 ^ word_bits) (n : nat) (Hn : (1 <= n <= 8)%nat).
Notation takes := (takes src size n).
Notation holds := (holds file src size).

Lemma read_primitive_at t p v : t <> kObject -> below (width n t) v -> holds p (be (width n t) v) -> read_primitive file t (here src size p) = (Ok (MkPrimitive t v), here src size (p + Z.of_nat (width n t))).
Proof.
  intros Ht Hv H. unfold read_primitive. rewrite bool_decide_eq_false_2 by done.
  assert (forall k (c : Z -> Z), (k <= 8)%nat -> width n t = k -> (forall v, below k v -> c v = v) ->
    (data ← (w ← Read file (Z.of_nat k); mret (c w)); mret (MkPrimitive t data)) (here src size p) = (Ok (MkPrimitive t v), here src size (p + Z.of_nat (width n t)))) as Hr.
  { intros k c Hk <- Hc. unfold mbind, M_bind. rewrite (Read_at file src size Hsrc Hsize _ v) by done. unfold mret, M_ret. by rewrite Hc. }
  destruct t; try done.
  - apply (Hr 1%nat u8); [lia|done|]. intros w Hw. by apply Z.mod_small.
  - apply (Hr 2%nat u16); [lia|done|]. intros w Hw. by apply Z.mod_small.
  - apply (Hr 4%nat u32); [lia|done|]. intros w Hw. by apply Z.mod_small.
  - apply (Hr 8%nat u64); [lia|done|]. intros w Hw. by apply Z.mod_small.
  - apply (Hr 1%nat u8); [lia|done|]. intros w Hw. by apply Z.mod_small.
  - apply (Hr 2%nat u16); [lia|done|]. intros w Hw. by apply Z.mod_small.
  - apply (Hr 4%nat u32); [lia|done|]. intros w Hw. by apply Z.mod_small.
  - apply (Hr 8%nat u64); [lia|done|]. intros w Hw. by apply Z.mod_small.
Qed.

Lemma takes_instance id fs data p : Forall (fun b => 0 <= b < 256) data -> (fields_width n fs <= length data)%nat -> holds p data ->
  takes p (Z.of_nat (fields_width n fs)) (instance_fields_loop file id [] fs) (fields_effect n id fs data).
Proof.
  revert data p. induction fs as [|[name t] fs IH]; intros data p Hb Hw H; [apply takes_ret|]. unfold fields_width in *. cbn [sum_list_with type name_id] in *. fold (fields_width n fs) in *.
  set (w := width n t) in *. rewrite <- (take_drop w data) in H, Hb. apply holds_app in H as [H1 H]. apply Forall_app in Hb as [Hb1 Hb2]. assert (length (take w data) = w) as El by (rewrite length_take; lia).
  unfold zlen in H. rewrite El in H. destruct (be_value_be _ Hb1) as [Ev Hv]. rewrite El in Ev, Hv. rewrite <- Ev in H1. cbn [instance_fields_loop fields_effect type name_id]. fold w. rewrite Nat2Z.inj_add.
  apply takes_bind; [|intros []; apply IH; [done|rewrite length_drop; lia|done]]. unfold field_effect. cbn [type name_id].
  destruct (decide (t = kObject)) as [->|Ht].
  - rewrite bool_decide_eq_true_2 by done. change w with n in *. rewrite <- (Z.add_0_r (Z.of_nat n)). eapply takes_read; [by apply (takes_id file src size Hsrc Hsize n Hn p)|]. by apply takes_heap.
  - rewrite bool_decide_eq_false_2 by done. unfold ReadPrimitive. rewrite <- (Z.add_0_r (Z.of_nat w)). eapply takes_read; [apply takes_reader, read_primitive_at; [done|exact Hv|exact H1]|].
    destruct t; try done; by apply takes_heap.
Qed.

Lemma object_fields_app fs fs' data : object_fields n (fs ++ fs') data = object_fields n fs data ++ object_fields n fs' (drop (fields_width n fs) data).
Proof.
  revert data. induction fs as [|[name t] fs IH]; intros data; [done|]. unfold fields_width. cbn [app object_fields sum_list_with type name_id]. fold (fields_width n fs). rewrite IH, drop_drop. by destruct t.
Qed.

Lemma fields_width_app fs fs' : fields_width n (fs ++ fs') = (fields_width n fs + fields_width n fs')%nat.
Proof. unfold fields_width. by rewrite sum_list_with_app. Qed.

(** The fields of one class. *)
Lemma fields_run h id fs data p : id_size_ h = Z.of_nat n -> Forall (fun b => 0 <= b < 256) data -> (fields_width n fs <= length data)%nat -> holds p data ->
  exists h', instance_fields_loop file id [] fs (MkParser (here src size p) h) = (Ok tt, MkParser (here src size (p + Z.of_nat (fields_width n fs))) h') /\ grown (refs_growth (field_refs n id fs data)) h h'.
Proof.
  intros Hh Hb Hw H. pose proof (takes_instance id fs data p Hb Hw H h Hh) as Ht. destruct (wp_run _ _ _ (grows_instance n id fs data h)) as ([] & h' & E & G). rewrite E in Ht. destruct Ht as [Ht _]. by exists h'.
Qed.

Lemma holds_drop k p data : (k <= length data)%nat -> holds p data -> holds (p + Z.of_nat k) (drop k data).
Proof. intros Hk H. rewrite <- (take_drop k data) in H. apply holds_app in H as [_ H]. unfold zlen in H. by rewrite length_take, Nat.min_l in H by done. Qed.

Lemma class_run subs id k c fs : NoDup (class_ids subs) -> hierarchy subs k c fs -> forall fuel h data p, tables n subs h -> (k < fuel)%nat ->
  Forall (fun b => 0 <= b < 256) data -> (fields_width n fs <= length data)%nat -> holds p data ->
  exists rd' h', class_loop file fuel id [] c (MkParser (here src size p) h) = (Ok tt, MkParser rd' h') /\ grown (refs_growth (field_refs n id fs data)) h h'.
Proof.
  intros Hd Hh. induction Hh as [c Hc|c Hc Hs|i c fs Hc Hs Hh IH]; intros fuel h data p Ht Hf Hb Hw H; (destruct fuel as [|fuel]; [lia|]); cbn [class_loop].
  - assert (c ∉ class_ids subs) as Hn'. { intros (s & Hin & E)%list_elem_of_omap. destruct s; try done. simplify_eq. by eapply Hc. }
    assert (inheritance_ h !! c = None) as Ei. { destruct (inheritance_ h !! c) as [s|] eqn:E; [|done]. apply (tb_supers _ _ _ Ht) in E as (k & Hk & E & _). by edestruct Hc. }
    unfold mbind, M_bind, on_heap, lift, GetInstanceFields, GetSuperClass, gets. cbn [rd hp]. rewrite (tb_no_fields _ _ _ Ht) by done. cbn [instance_fields_loop]. unfold mret, M_ret. cbn [rd hp].
    unfold super_class. rewrite Ei. eexists _, h. split; [done|]. by apply grown_none.
  - destruct (fields_run h id (class_fields c) data p (tb_size _ _ _ Ht) Hb Hw H) as (h' & E & G). pose proof (tables_grown _ _ _ _ _ Ht G) as Ht'.
    unfold mbind, M_bind, on_heap, lift, GetInstanceFields, GetSuperClass, gets. cbn [rd hp]. rewrite (tb_fields _ _ _ Ht) by done. rewrite E. cbn [rd hp].
    assert (inheritance_ h' !! class_id c = Some 0) as Ei by (apply (tb_supers _ _ _ Ht'); by exists c). unfold super_class. rewrite Ei. by eexists _, h'.
  - rewrite fields_width_app in Hw. destruct (fields_run h id (class_fields c) data p (tb_size _ _ _ Ht) Hb ltac:(lia) H) as (h' & E & G). pose proof (tables_grown _ _ _ _ _ Ht G) as Ht'.
    unfold mbind, M_bind, on_heap, lift, GetInstanceFields, GetSuperClass, gets. cbn [rd hp]. rewrite (tb_fields _ _ _ Ht) by done. rewrite E. cbn [rd hp].
    assert (inheritance_ h' !! class_id c = Some (class_super c)) as Ei by (apply (tb_supers _ _ _ Ht'); by exists c). unfold super_class. rewrite Ei. unfold some_id. rewrite (proj2 (Z.eqb_neq _ _) Hs). cbn [rd hp].
    destruct (IH fuel h' (drop (fields_width n (class_fields c)) data) (p + Z.of_nat (fields_width n (class_fields c)))) as (rd' & h2 & E2 & G2);
      [done|lia|by apply Forall_drop|rewrite length_drop; lia|apply holds_drop; [lia|done]|].
    exists rd', h2. split; [done|]. unfold field_refs. rewrite object_fields_app, map_app. by apply (grown_join (refs_growth _) (refs_growth _) _ h').
Qed.
End Instance.

(** * All instances *)

Section Instances.
Context `{A : Arch} (file : list Z) (n : nat) (Hn : (1 <= n <= 8)%nat) (subs : list sub_record) (Hclasses : NoDup (class_ids subs)).

(** What the task of an instance will add. *)
Definition described (x : HeapFieldsData) (l : list (Z * Z * reference_t)) : Prop := exists data k fs,
  hierarchy subs k (class_id_ x) fs /\ Forall (fun b => 0 <= b < 256) data /\ (fields_width n fs <= length data)%nat /\ fields_data_size_ x = zlen data
  /\ 0 <= data_at x /\ zlen data < 2 ^ word_bits /\ holds file (data_at x) (zlen data) 0 data /\ l = field_refs n (instance_id_ x) fs data.

Lemma analyze_instance_run x l h : tables n subs h -> described x l -> exists h', analyze_instance file [] x h = (Ok tt, h') /\ grown (refs_growth l) h h'.
Proof.
  intros Ht (data & k & fs & Hh & Hb & Hw & Es & H0 & Hf & H & ->). destruct (class_run file (data_at x) (zlen data) H0 Hf n Hn subs (instance_id_ x) k _ fs Hclasses Hh (class_fuel h) h data 0) as (rd' & h' & E & G);
    [done|by eapply tables_fuel|done|done|done|].
  exists h'. split; [|done]. unfold analyze_instance, GetScopeReader, scoped, new_reader. unfold mbind, M_bind, gets. cbn [match_class]. unfold mret, M_ret. rewrite Es. unfold here in E. by rewrite E.
Qed.

Lemma analyze_instances_run xs ls h : tables n subs h -> Forall2 described xs ls -> exists h', analyze_instances file [] xs h = (Ok tt, h') /\ grown (refs_growth (concat ls)) h h'.
Proof.
  intros Ht H. revert h Ht. induction H as [|x l xs ls Hx Hxs IH]; intros h Ht; [exists h; split; [done|]; by apply grown_none|].
  destruct (analyze_instance_run x l h Ht Hx) as (h1 & E1 & G1). destruct (IH h1) as (h2 & E2 & G2); [by eapply tables_grown|]. exists h2. cbn [analyze_instances]. unfold mbind, M_bind. rewrite E1. split; [done|].
  simpl. by apply (grown_join (refs_growth _) (refs_growth _) _ h1).
Qed.
End Instances.

(** * The end: roots to exclude *)

Definition no_exclusions : ExcludeMatcherGroup := MkGroup [] [] [] [].

Section Excluded.
Context `{A : Arch} (file : list Z).

Definition graph_of (h : Heap) := (references_ h, gc_roots_ h).

Lemma exclude_root_keeps r : keeps graph_of (exclude_root file no_exclusions [] r).
Proof.
  pose proof (get_thread_name_keeps file graph_of ltac:(done) ltac:(done)) as Hk. unfold exclude_root, GetGcRootType, GetThreadReference, GetThreadObject.
  apply keeps_bind; [apply keeps_reads|]. intros t. destruct (bool_decide _); [|destruct (bool_decide _); apply keeps_ret]. apply keeps_bind; [apply keeps_reads|]. intros k. apply keeps_bind; [apply keeps_reads|]. intros o.
  apply keeps_bind; [apply Hk|]. intros [name|]; apply keeps_ret.
Qed.

Lemma exclude_roots_keeps rs : keeps graph_of (exclude_roots file no_exclusions [] rs).
Proof. induction rs as [|r rs IH]; [apply keeps_ret|]. apply keeps_bind; [apply exclude_root_keeps|done]. Qed.

Lemma exclude_roots_run rs h : (forall r, r ∈ rs -> exists t, gc_root_types_ h !! r = Some t /\ t <> kRootJavaFrame) -> exclude_roots file no_exclusions [] rs h = (Ok tt, h).
Proof.
  induction rs as [|r rs IH]; intros H; [done|]. destruct (H r ltac:(left)) as (t & Et & Ht). cbn [exclude_roots]. unfold mbind, M_bind, exclude_root, GetGcRootType, reads. unfold mbind, M_bind. rewrite Et.
  rewrite bool_decide_eq_false_2 by done. assert ((if bool_decide (t = kRootJniGlobal) then native_loop r [] else mret tt) h = (Ok tt, h)) as -> by by destruct (bool_decide _). apply IH. intros r' Hr. apply H. by right.
Qed.
End Excluded.

(** * Counting *)

Lemma inserts_list {V} l (m : gmap Z V) : NoDup (map fst l) -> (forall k, k ∈ map fst l -> m !! k = None) -> map_to_list (inserts l m) ≡ₚ l ++ map_to_list m.
Proof.
  revert m. induction l as [|[k v] l IH]; intros m; [done|]. simpl. intros [Hn Hl]%NoDup_cons Hm. change (inserts ((k, v) :: l) m) with (inserts l (<[k := v]> m)). rewrite IH; [|done|].
  - rewrite map_to_list_insert by (apply Hm; left). by rewrite Permutation_middle.
  - intros k' Hk'. rewrite lookup_insert_ne by (by intros ->). apply Hm. by right.
Qed.

Lemma references_count_insert g a m : (references_count (<[a := m]> g) <= references_count (delete a g) + base.size m)%nat.
Proof. unfold references_count. rewrite <- insert_delete_eq. rewrite map_to_list_insert by apply lookup_delete_eq. simpl. lia. Qed.

Lemma references_count_delete g a : (references_count (delete a g) + base.size (default ∅ (g !! a)) = references_count g)%nat.
Proof.
  unfold references_count. destruct (g !! a) as [m|] eqn:E; simpl.
  - rewrite <- (insert_delete_id g a m) at 2 by done. rewrite map_to_list_insert by apply lookup_delete_eq. simpl. lia.
  - rewrite delete_id by done. rewrite map_size_empty. lia.
Qed.

(** Every addition adds one reference at most. *)
Lemma references_count_adds l g : (references_count (adds l g) <= references_count g + length l)%nat.
Proof.
  revert g. induction l as [|[[a b] r] l IH]; intros g; simpl; [lia|]. change (adds ((a, b, r) :: l) g) with (adds l (<[a := <[b := r]> (default ∅ (g !! a))]> g)). rewrite IH.
  pose proof (references_count_insert g a (<[b := r]> (default ∅ (g !! a)))). pose proof (references_count_delete g a). rewrite map_size_insert in *. destruct (default ∅ (g !! a) !! b); simpl in *; lia.
Qed.

Lemma sum_concat {X Y} (f : X -> list Y) l : length (concat (map f l)) = sum_list_with (fun x => length (f x)) l.
Proof. induction l as [|x l IH]; simpl; [done|]. by rewrite length_app, IH. Qed.

Section Counting.
Context (n : nat) (Hn : (1 <= n)%nat).

Definition data_size (s : sub_record) : nat := match s with SubInstance _ _ _ data => length data | _ => 0 end.

Definition weight (s : sub_record) : nat := (length (roots_of s) + length (g_refs (sub_growth n 0 s)) + data_size s)%nat.

Lemma length_roots_of s : (length (roots_of s) <= 1)%nat.
Proof. destruct s as [t id r|id t r|id t r| | | | | |]; simpl; try lia; destruct (id =? 0); simpl; lia. Qed.

Lemma length_element_refs id i l : length (element_refs id i l) = length l.
Proof. revert i. induction l as [|b l IH]; intros i; simpl; [done|]. by rewrite IH. Qed.

Lemma length_encode_elements l : (length l <= length (concat (map (be n) l)))%nat.
Proof. induction l as [|b l IH]; simpl; [lia|]. rewrite length_app, length_be. lia. Qed.

Lemma length_static_refs c l : (length (concat (map (static_refs c) l)) <= length (concat (map (encode_static n) l)))%nat.
Proof. induction l as [|[name b|name t v] l IH]; [done| |]; cbn [map concat encode_static static_refs]; rewrite !length_app, ?length_be; simpl; lia. Qed.

(** A subrecord has a byte for everything it adds. *)
Lemma weight_bytes s : (weight s <= length (encode_sub n s))%nat.
Proof.
  unfold weight, encode_sub. rewrite length_app, length_be. pose proof (length_roots_of s).
  destruct s as [t id r|id t r|id t r|c|id tr cls data|id tr cls els|id tr t cnt data|id r|r]; cbn [sub_growth g_refs refs_growth no_growth data_size roots_of sub_body length] in *; try lia.
  - pose proof (length_static_refs (class_id c) (class_statics c)). unfold encode_class. rewrite !length_app. lia.
  - rewrite !length_app. lia.
  - rewrite length_element_refs, !length_app. pose proof (length_encode_elements els). lia.
Qed.

Lemma weights_records rs : (sum_list_with weight (concat (map (fun e => record_subs e.2) rs)) <= length (concat (map (encode_record n) rs)))%nat.
Proof.
  induction rs as [|[t r] rs IH]; [done|]. cbn [map concat]. rewrite sum_list_with_app, length_app. enough (sum_list_with weight (record_subs r) <= length (encode_record n (t, r)))%nat by (cbn [snd] in *; lia).
  unfold encode_record. rewrite !length_app. cbn [snd]. destruct r as [| |segment subs|]; cbn [record_subs record_body sum_list_with]; try lia.
  enough (sum_list_with weight subs <= length (concat (map (encode_sub n) subs)))%nat by lia. induction subs as [|s subs IHs]; [done|]. cbn [map concat sum_list_with]. rewrite length_app. pose proof (weight_bytes s). lia.
Qed.

Lemma weights_split l : sum_list_with weight l = (sum_list_with (fun s => length (roots_of s)) l + sum_list_with (fun s => length (g_refs (sub_growth n 0 s))) l + sum_list_with data_size l)%nat.
Proof. induction l as [|s l IH]; [done|]. cbn [sum_list_with]. rewrite IH. unfold weight. lia. Qed.
End Counting.

Lemma object_fields_width n fs data : (1 <= n)%nat -> (length (object_fields n fs data) <= fields_width n fs)%nat.
Proof. intros Hn. revert data. induction fs as [|[name t] fs IH]; intros data; [done|]. unfold fields_width. cbn [object_fields sum_list_with type]. fold (fields_width n fs). specialize (IH (drop (width n t) data)). destruct t; simpl in *; lia. Qed.

(** * The dump *)

Lemma choose_lists {X Y} (P : X -> Y -> Prop) xs : (forall x, x ∈ xs -> exists y, P x y) -> exists ys, Forall2 P xs ys.
Proof.
  induction xs as [|x xs IH]; intros H; [by exists []|]. destruct (H x ltac:(left)) as [y Hy]. destruct IH as [ys Hys]; [intros; apply H; by right|]. exists (y :: ys). by constructor.
Qed.

Lemma Forall2_concat {X Y} (P : X -> list Y -> Prop) xs ls y : Forall2 P xs ls -> y ∈ concat ls -> exists x l, x ∈ xs /\ P x l /\ y ∈ l.
Proof.
  intros H. induction H as [|x l xs ls Hx H IH]; simpl; [by intros ?%not_elem_of_nil|]. intros [Hy|Hy]%elem_of_app; [exists x, l; by split; [left|]|]. destruct (IH Hy) as (x' & l' & Hin & HP & Hy'). exists x', l'. by split; [right|].
Qed.

Lemma Forall2_in_concat {X Y} (P : X -> list Y -> Prop) xs ls x y : Forall2 P xs ls -> x ∈ xs -> (forall l, P x l -> y ∈ l) -> y ∈ concat ls.
Proof. intros H Hx Hl. induction H as [|x' l xs ls Hx' H IH]; [by apply not_elem_of_nil in Hx|]. simpl. apply elem_of_app. apply elem_of_cons in Hx as [->|Hx]; [left; by apply Hl|right; by apply IH]. Qed.

Lemma elem_of_concat_map {X Y} (f : X -> list Y) l y : y ∈ concat (map f l) <-> exists x, x ∈ l /\ y ∈ f x.
Proof.
  induction l as [|x l IH]; simpl; [split; [by intros ?%not_elem_of_nil|by intros (x & ?%not_elem_of_nil & _)]|]. rewrite elem_of_app, IH. split.
  - intros [H|(z & Hz & H)]; [exists x; by split; [left|]|exists z; by split; [right|]].
  - intros (z & [->|Hz]%elem_of_cons & H); [by left|right; by exists z].
Qed.

Lemma joins_data n l : g_data (joins n l) = omap (fun e => match e.2 with SubInstance id _ cls data => Some (id, MkFieldsData id cls (zlen data) (e.1 + Z.of_nat n + 4 + Z.of_nat n + 4)) | _ => None end) l.
Proof. induction l as [|[p s] l IH]; [done|]. simpl. rewrite IH. by destruct s. Qed.

Section Graph.
Context `{A : Arch} (d : dump) (Hd : wf_dump d) (Hfits : zlen (encode d) < 2 ^ word_bits) (Ho : wf_objects (dump_subs d) (dump_id_size d)).
Notation file := (encode d).
Notation size := (zlen (encode d)).
Notation n := (dump_id_size d).
Notation subs := (dump_subs d).

Definition placed : list (Z * sub_record) := records_at n (zlen (encode_header d)) (dump_records d).

Lemma placed_subs : map snd placed = subs.
Proof. apply records_at_subs. Qed.

Lemma placed_holds pos s : (pos, s) ∈ placed -> holds file 0 size pos (sub_body n s).
Proof.
  apply records_at_holds. pose proof (holds_file d) as H. unfold encode in H at 3. apply holds_app in H as [_ H]. apply holds_app in H as [H _]. by rewrite Z.add_0_l in H.
Qed.

(** The heap after the records. *)
Context (h1 : Heap) (G1 : grown (joins n placed) (set_id_size (Z.of_nat n) empty_heap) h1).

Lemma records_tables : tables n subs h1.
Proof.
  destruct Ho as (Hc & _ & _). destruct G1 as [G0 Gs Gf _ _ _ _]. simpl in G0, Gs, Gf. rewrite joins_supers, placed_subs in Gs. rewrite joins_fields, placed_subs in Gf.
  assert (map fst (omap (fun s => match s with SubClass c => Some (class_id c, class_super c) | _ => None end) subs) = class_ids subs) as Ek.
  { clear. induction subs as [|s l IH]; [done|]. destruct s; simpl; try done. by f_equal. }
  split.
  - done.
  - intros c sc. rewrite Gs. split.
    + intros [H|H]%inserts_some; [|done]. apply list_elem_of_omap in H as (s & Hin & E). destruct s as [| | |k| | | | |]; try done. simplify_eq. by exists k.
    + intros (k & Hk & <- & <-). apply inserts_in; [by rewrite Ek|]. apply list_elem_of_omap. by exists (SubClass k).
  - intros k Hk. rewrite Gf, appends_lookup. simpl. by apply class_fields_found.
  - intros c Hn. rewrite Gf, appends_lookup. simpl. rewrite other_fields; [done|]. intros H. by apply Hn, class_field_ids.
Qed.

Definition task_of (x : HeapFieldsData) (trace : Z) (data : list Z) : Prop :=
  SubInstance (instance_id_ x) trace (class_id_ x) data ∈ subs /\ fields_data_size_ x = zlen data /\ holds file 0 size (data_at x) data.

Notation tasks := (map snd (entries (fields_data_ h1))).

Lemma data_keys : map fst (g_data (joins n placed)) = instance_ids subs.
Proof. rewrite joins_data, <- placed_subs. clear. induction placed as [|[p s] l IH]; [done|]. destruct s; simpl; try done. by f_equal. Qed.

Lemma tasks_perm : tasks ≡ₚ map snd (g_data (joins n placed)).
Proof.
  destruct Ho as (_ & Hi & _). destruct G1 as [_ _ _ Gd _ _ _]. simpl in Gd. assert (NoDup (map fst (g_data (joins n placed)))) as Hk by by rewrite data_keys.
  rewrite entries_perm, Gd, emplaces_inserts by done. rewrite inserts_list by done. by rewrite map_to_list_empty, app_nil_r.
Qed.

Lemma tasks_known x : x ∈ tasks -> exists trace data, task_of x trace data.
Proof.
  rewrite tasks_perm, joins_data. intros ([i y] & -> & Hy)%list_elem_of_fmap. apply list_elem_of_omap in Hy as ([pos s] & Hin & E). destruct s as [| | | |id tr cls data| | | |]; try done. simpl in E. simplify_eq.
  exists tr, data. split; [rewrite <- placed_subs; apply list_elem_of_fmap; by exists (pos, SubInstance i tr cls data)|]. split; [done|]. simpl. apply (instance_holds _ _ _ _ i tr cls). by apply placed_holds.
Qed.

Lemma tasks_complete id trace cls data : SubInstance id trace cls data ∈ subs -> exists x, x ∈ tasks /\ instance_id_ x = id /\ class_id_ x = cls.
Proof.
  rewrite <- placed_subs. intros ([pos s] & E & Hin)%list_elem_of_fmap. simpl in E. subst s. eexists. split; [rewrite tasks_perm, joins_data; apply list_elem_of_fmap; eexists (id, _); split; [reflexivity|]; apply list_elem_of_omap; by eexists (pos, _)|done].
Qed.

(** The references that the tasks add. *)
Definition task_refs (x : HeapFieldsData) (l : list (Z * Z * reference_t)) : Prop := described file n subs x l /\
  exists trace data k fs, SubInstance (instance_id_ x) trace (class_id_ x) data ∈ subs /\ hierarchy subs k (class_id_ x) fs /\ (fields_width n fs <= length data)%nat /\ fields_data_size_ x = zlen data /\ l = field_refs n (instance_id_ x) fs data.

Lemma tasks_refs : exists ls, Forall2 task_refs tasks ls.
Proof.
  apply choose_lists. intros x (trace & data & Hin & Es & H)%tasks_known. destruct Ho as (_ & _ & Hi). destruct (Hi _ _ _ _ Hin) as (Hb & k & fs & Hh & Hw). exists (field_refs n (instance_id_ x) fs data).
  destruct H as (H0 & H1 & H2). split; [|by exists trace, data, k, fs]. exists data, k, fs. do 6 (split; [done || lia|]). split; [|done]. split; [done|]. split; [lia|]. intros i b Hb'. rewrite Z.add_0_r. apply H2. done.
Qed.

(** ** References *)

Lemma element_refs_spec id i l a b r : (a, b, r) ∈ element_refs id i l <-> exists j, l !! j = Some b /\ a = id /\ r = MkReference kArrayElement (i + Z.of_nat j) 0.
Proof.
  revert i. induction l as [|x l IH]; intros i; cbn [element_refs]; [split; [by intros ?%not_elem_of_nil|by intros (j & ? & _)]|]. rewrite elem_of_cons, IH. split.
  - intros [[= -> -> ->]|(j & Hj & -> & ->)]; [exists 0%nat; split; [done|]; split; [done|]; f_equal; lia|]. exists (S j). split; [done|]. split; [done|]. f_equal. lia.
  - intros ([|j] & Hj & -> & ->); [left; simpl in Hj; simplify_eq; repeat f_equal; lia|right]. exists j. split; [done|]. split; [done|]. f_equal. lia.
Qed.

Lemma record_refs_sound a b r : (a, b, r) ∈ g_refs (joins n placed) -> refers subs n a b r.
Proof.
  rewrite joins_refs, placed_subs. intros (s & Hs & H)%elem_of_concat_map. destruct s as [| | |c| |id tr cls els| | |]; try by apply not_elem_of_nil in H.
  - cbn [sub_growth g_refs] in H. apply elem_of_concat_map in H as (x & Hx & H). destruct x as [name v|]; [|by apply not_elem_of_nil in H]. apply list_elem_of_singleton in H. simplify_eq. by apply refers_static.
  - apply element_refs_spec in H as (j & Hj & -> & ->). by eapply refers_element.
Qed.

Lemma instance_unique id tr cls data tr' cls' data' : SubInstance id tr cls data ∈ subs -> SubInstance id tr' cls' data' ∈ subs -> cls = cls' /\ data = data'.
Proof.
  intros H H'. destruct Ho as (_ & Hi & _). assert (SubInstance id tr cls data = SubInstance id tr' cls' data') as E by by eapply (omap_unique _ _ _ _ id Hi). by simplify_eq.
Qed.

Context (ls : list (list (Z * Z * reference_t))) (Hls : Forall2 task_refs tasks ls) (h2 : Heap) (G2 : grown (refs_growth (concat ls)) h1 h2).

Lemma graph_references : references_ h2 = adds (concat ls) (adds (g_refs (joins n placed)) ∅).
Proof. destruct G2 as [_ _ _ _ -> _ _]. destruct G1 as [_ _ _ _ -> _ _]. done. Qed.

Lemma graph_sound a b r : edge (references_ h2) a b r -> refers subs n a b r.
Proof.
  rewrite graph_references. intros [H|[H|(m & Hm & _)]%adds_edge]%adds_edge; [|by apply record_refs_sound|done].
  destruct (Forall2_concat _ _ _ _ Hls H) as (x & l & Hx & [_ (tr & data & k & fs & Hin & Hh & _ & _ & ->)] & Hy). apply list_elem_of_fmap in Hy as ([name v] & E & Hv). simplify_eq. by eapply refers_field.
Qed.

Lemma graph_complete a b r : refers subs n a b r -> exists r', edge (references_ h2) a b r'.
Proof.
  intros H. rewrite graph_references. assert ((a, b, r) ∈ concat ls \/ (a, b, r) ∈ g_refs (joins n placed)) as [Hc|Hr].
  - destruct H as [id tr cls els i b Hin Hi|c name b Hin Hs|id tr cls data k fs name b Hin Hh Hf].
    + right. rewrite joins_refs, placed_subs. apply elem_of_concat_map. eexists. split; [exact Hin|]. apply element_refs_spec. by exists i.
    + right. rewrite joins_refs, placed_subs. apply elem_of_concat_map. eexists. split; [exact Hin|]. cbn [sub_growth g_refs]. apply elem_of_concat_map. eexists. split; [exact Hs|]. by left.
    + left. destruct (tasks_complete _ _ _ _ Hin) as (x & Hx & Ei & Ec). eapply (Forall2_in_concat _ _ _ x); [done|done|]. intros l [_ (tr' & data' & k' & fs' & Hin' & Hh' & _ & _ & ->)]. rewrite Ei, Ec in *.
      destruct (instance_unique _ _ _ _ _ _ _ Hin Hin') as [_ <-]. destruct (hierarchy_unique subs (proj1 Ho) _ _ _ _ _ Hh Hh') as [_ <-]. apply list_elem_of_fmap. by exists (name, b).
  - by eapply adds_in; left.
  - assert (exists r', edge (adds (g_refs (joins n placed)) ∅) a b r') as [r' Hr'] by by eapply adds_in; left. by eapply adds_in; right.
Qed.

Definition dump_roots : list Z := map fst (concat (map roots_of subs)).

Lemma graph_roots : gc_roots_ h2 = dump_roots.
Proof. destruct G2 as [_ _ _ _ _ -> _]. destruct G1 as [_ _ _ _ _ -> _]. rewrite joins_roots, placed_subs. apply app_nil_r. Qed.

Lemma graph_types x : (forall id thread rest, SubJavaFrame id thread rest ∈ subs -> id = 0) -> x ∈ gc_roots_ h2 -> exists t, gc_root_types_ h2 !! x = Some t /\ t <> kRootJavaFrame.
Proof.
  intros Hf. rewrite graph_roots. intros Hx. destruct G2 as [_ _ _ _ _ _ Gt2]. destruct G1 as [_ _ _ _ _ _ Gt1]. simpl in Gt1, Gt2. rewrite Gt2. change (inserts [] (gc_root_types_ h1)) with (gc_root_types_ h1). rewrite Gt1, joins_roots, placed_subs.
  destruct (inserts_is_Some (concat (map roots_of subs)) ∅ x Hx) as [t Ht]. exists t. split; [done|]. apply inserts_some in Ht as [Ht|Ht]; [|done]. apply elem_of_concat_map in Ht as (s & Hs & H).
  assert (wf_sub n s) as Hw. { apply elem_of_concat_map in Hs as ([tm rc] & Hr & Hs). destruct Hd as (_ & _ & Hrs & _). eapply Forall_forall in Hrs; [|exact Hr]. destruct rc as [| |seg ss|]; try by apply not_elem_of_nil in Hs.
    destruct Hrs as [_ Hss]. by eapply Forall_forall in Hss. }
  destruct s as [t' id rest|id th rest|id th rest| | | | | |]; try by apply not_elem_of_nil in H; cbn [roots_of] in H.
  - cbn [roots_of] in H. destruct (id =? 0); [by apply not_elem_of_nil in H|]. apply list_elem_of_singleton in H. simplify_eq. apply Hw.
  - rewrite (Hf _ _ _ Hs) in H. by apply not_elem_of_nil in H.
  - cbn [roots_of] in H. destruct (id =? 0); [by apply not_elem_of_nil in H|]. apply list_elem_of_singleton in H. by simplify_eq.
Qed.

(** ** Size *)

Notation task_size := (fun x => Z.to_nat (fields_data_size_ x)).

Lemma tasks_count : (length (concat ls) <= sum_list_with task_size tasks)%nat.
Proof.
  assert (1 <= n)%nat as Hn by apply Hd. clear -Hls Hn. revert Hls. generalize tasks as xs. intros xs Hls.
  induction Hls as [|x l xs ls' Hx H IH]; simpl; [lia|]. rewrite length_app. destruct Hx as [_ (tr & data & k & fs & _ & _ & Hw & -> & ->)].
  unfold field_refs, zlen. rewrite length_map. pose proof (object_fields_width n fs data Hn). lia.
Qed.

Lemma tasks_size : sum_list_with task_size tasks = sum_list_with data_size subs.
Proof.
  rewrite tasks_perm, joins_data, <- placed_subs. clear. induction placed as [|[p s] l IH]; [done|]. destruct s as [| | | |id tr cls data| | | |]; try exact IH. exact (f_equal2 Nat.add (Nat2Z.id (length data)) IH).
Qed.

Lemma graph_count : (length (gc_roots_ h2) + references_count (references_ h2) <= length file)%nat.
Proof.
  assert (1 <= n)%nat as Hn by apply Hd. rewrite graph_roots, graph_references. unfold dump_roots. rewrite length_map. pose proof (references_count_adds (concat ls) (adds (g_refs (joins n placed)) ∅)).
  pose proof (references_count_adds (g_refs (joins n placed)) ∅). change (references_count ∅) with 0%nat in *. pose proof tasks_count. rewrite tasks_size in *. rewrite joins_refs, placed_subs in *.
  pose proof (weights_records n Hn (dump_records d)) as Hw. fold subs in Hw. rewrite !sum_concat in *. rewrite (weights_split n Hn) in Hw.
  assert (sum_list_with (fun x => length (encode_record n x)) (dump_records d) <= length file)%nat by (unfold encode; rewrite <- sum_concat, !length_app; lia). lia.
Qed.
End Graph.

Lemma records_run `{A : Arch} d h : wf_dump d -> exists h1, records_effect (encode d) no_exclusions (dump_id_size d) (zlen (encode_header d)) (dump_records d) h = (Ok tt, h1) /\ grown (joins (dump_id_size d) (placed d)) h h1.
Proof. intros Hd. destruct (wp_run _ _ _ (grows_records (encode d) no_exclusions (dump_id_size d) eq_refl (zlen (encode_header d)) (dump_records d) h)) as ([] & h1 & E & G). by exists h1. Qed.

(** What the parser makes of a dump of objects. *)
Lemma dump_graph `{A : Arch} d r h : wf_dump d -> zlen (encode d) < 2 ^ word_bits -> wf_objects (dump_subs d) (dump_id_size d) ->
  dump_effect no_exclusions d empty_heap = (r, h) ->
  (forall a b x, edge (references_ h) a b x -> refers (dump_subs d) (dump_id_size d) a b x)
  /\ (forall a b x, refers (dump_subs d) (dump_id_size d) a b x -> exists x', edge (references_ h) a b x')
  /\ gc_roots_ h = dump_roots d /\ (length (gc_roots_ h) + references_count (references_ h) <= length (encode d))%nat
  /\ ((forall id thread rest, SubJavaFrame id thread rest ∈ dump_subs d -> id = 0) -> r = Ok tt).
Proof.
  intros Hd Hfits Ho. pose proof Hd as (_ & Hn & _). unfold dump_effect. unfold mbind, M_bind.
  assert (InitializeIdSize (Z.of_nat (dump_id_size d)) empty_heap = (Ok tt, set_id_size (Z.of_nat (dump_id_size d)) empty_heap)) as ->.
  { unfold InitializeIdSize, mbind, M_bind, gets, modify. rewrite (proj2 (Z.eqb_neq _ 0)) by lia. done. }
  destruct (records_run d (set_id_size (Z.of_nat (dump_id_size d)) empty_heap) Hd) as (h1 & -> & G1). destruct (tasks_refs d Hfits Ho h1 G1) as [ls Hls].
  destruct (analyze_instances_run (encode d) (dump_id_size d) Hn (dump_subs d) (proj1 Ho) _ ls h1 (records_tables d Ho h1 G1) (Forall2_impl _ _ _ _ Hls (fun x l H => proj1 H))) as (h2 & E2 & G2).
  pose proof (graph_sound d h1 G1 ls Hls h2 G2) as Hs. pose proof (graph_complete d Ho h1 G1 ls Hls h2 G2) as Hc. pose proof (graph_roots d h1 G1 ls h2 G2) as Hr. pose proof (graph_count d Hd Ho h1 G1 ls Hls h2 G2) as Hk.
  pose proof (graph_types d Hd h1 G1 ls h2 G2) as Ht. pose proof (exclude_roots_keeps (encode d) (gc_roots_ h2) h2) as Hx. pose proof (exclude_roots_run (encode d) (gc_roots_ h2) h2) as He.
  unfold LazyParse. cbn [no_exclusions exclude_instance_fields exclude_native_globals flatten_field_exclude_matchers flatten_native_global_exclude_matchers]. unfold mbind, M_bind, ScopedGetFieldsDataList, GetGcRoots, gets, mret, M_ret. rewrite E2.
  intros E. rewrite E in Hx, He. unfold graph_of in Hx. simpl in Hx. injection Hx as Er Eg. rewrite Er, Eg. split; [done|]. split; [done|]. split; [done|]. split; [done|]. intros Hf.
  assert ((r, h) = (Ok tt, h2)) as [= -> _]; [|done]. apply He. intros x Hx. by apply Ht.
Qed.

(** C6. The analysis of a heap dump is right from its bytes on. Let a dump be well-formed and fit the address space, let its objects have one record each and no class be above itself. Parsing its bytes without exclusion rules gives a heap in which the search for leak chains ends for every list of suspects; a suspect gets a chain if and only if it is no root and is reachable from a root through the fields, static fields and array elements of the objects in the dump, every step of the chain is such a reference, and no chain is shorter. Where the dump has no roots in Java frames, the parser returns normally (for those it looks up the names of the threads, which may end the process). *)
Theorem dump_leak_chains `{A : Arch} d tracked : wf_dump d -> zlen (encode d) < 2 ^ word_bits -> wf_objects (dump_subs d) (dump_id_size d) ->
  let '(r, h) := scoped (new_reader 0 (zlen (encode d))) (Parse (encode d) no_exclusions) empty_heap in
  ((forall id thread rest, SubJavaFrame id thread rest ∈ dump_subs d -> id = 0) -> r = Ok tt) /\
  exists m, find_leak_chains h tracked = Ok m /\ forall leak,
    (leak ∉ tracked -> m !! leak = None) /\
    (leak ∈ tracked -> chain_spec (refers (dump_subs d) (dump_id_size d)) (dump_roots d) leak (m !! leak)).
Proof.
  intros Hd Hfits Ho. destruct (Parse_run no_exclusions d empty_heap Hd Hfits) as [rd' E]. unfold scoped. change (new_reader 0 (zlen (encode d))) with (here 0 (zlen (encode d)) 0). rewrite E.
  destruct (dump_effect no_exclusions d empty_heap) as [r h] eqn:Ed. destruct (dump_graph d r h Hd Hfits Ho Ed) as (Hs & Hc & Hr & Hk & Hok). cbn [fst snd hp]. split; [done|].
  destruct (chains_found h tracked) as (m & Em & Hm); [unfold zlen in Hfits; lia|]. exists m. split; [done|]. intros leak. destruct (Hm leak) as [Hm1 Hm2]. split; [done|]. intros Hl. rewrite Hr in Hm2.
  eapply chain_spec_same; [exact Hs|exact Hc|by apply Hm2].
Qed.

(** * The small dump *)

Lemma sample_objects : wf_objects (dump_subs sample_dump) 4.
Proof.
  split; [apply (bool_decide_eq_true_1 _); by vm_compute|]. split; [apply (bool_decide_eq_true_1 _); by vm_compute|]. intros id trace cls data H.
  assert (SubInstance id trace cls data = SubInstance 200 0 101 (be 4 400 ++ be 4 0 ++ be 4 7)) as [= -> -> -> ->].
  { change (dump_subs sample_dump) with sample_subs in H. unfold sample_subs in H. repeat (apply elem_of_cons in H as [H|H]; [by try discriminate H|]). by apply not_elem_of_nil in H. }
  split; [repeat (apply Forall_cons; split); try apply Forall_nil_2; by vm_compute|]. exists 1%nat, (class_fields sample_lower ++ class_fields sample_upper). split; [|simpl; lia].
  change (hierarchy sample_subs 1 (class_id sample_lower) (class_fields sample_lower ++ class_fields sample_upper)). apply hierarchy_sub; [do 4 right; left|done|]. apply (hierarchy_top _ sample_upper); [left|done].
Qed.

Lemma dump_leak_chains_witness : exists h m,
  scoped (new_reader 0 (zlen (encode sample_dump))) (Parse (A := arch_arm) (encode sample_dump) no_exclusions) empty_heap = (Ok tt, h)
  /\ find_leak_chains (A := arch_arm) h [500; 300; 600] = Ok m
  /\ m !! 500 = Some [(200, Some (field_reference 4 false)); (400, Some (MkReference kArrayElement 1 0)); (500, None)]
  /\ m !! 300 = Some [(100, Some (field_reference 3 true)); (300, None)] /\ m !! 600 = None
  /\ chain_spec (refers (dump_subs sample_dump) 4) (dump_roots sample_dump) 500 (m !! 500).
Proof.
  pose proof (dump_leak_chains (A := arch_arm) sample_dump [500; 300; 600] sample_wf ltac:(vm_compute; reflexivity) sample_objects) as H.
  destruct (scoped _ _ _) as [r h] eqn:E. destruct H as [_ (m & Em & Hm)]. exists h, m.
  assert (h = (scoped (new_reader 0 (zlen (encode sample_dump))) (Parse (A := arch_arm) (encode sample_dump) no_exclusions) empty_heap).2) as Eh by (rewrite E; reflexivity).
  assert (r = (scoped (new_reader 0 (zlen (encode sample_dump))) (Parse (A := arch_arm) (encode sample_dump) no_exclusions) empty_heap).1) as Er by (rewrite E; reflexivity).
  clear E. assert (r = Ok tt) as -> by (rewrite Er; vm_compute; reflexivity). split; [done|]. split; [exact Em|]. rewrite Eh in Em. vm_compute in Em. injection Em as Em.
  split; [rewrite <- Em; vm_compute; reflexivity|]. split; [rewrite <- Em; vm_compute; reflexivity|]. split; [rewrite <- Em; vm_compute; reflexivity|]. apply (Hm 500). left.
Defined.
End HprofGraph.
