(* ===== verification/MemGuard.v ===== *)
(** The guarded allocator of traceharbor-memguard (src/main/cpp/memguard).

    MemGuard places sampled allocations of an app into slots of an area of their own.  Every slot
    lies between two pages that are never accessible, and its own pages are accessible only while
    a block lives in it, so that an access next to a block or after its end raises SIGSEGV.

    Modules: [Auxiliary] (util/Auxiliary.h, port/Random.cpp), [Memory] (port/Memory.cpp),
    [PagePool] (util/PagePool.cpp and [TriggerIssue] of util/Issue.cpp), [Allocation]
    (util/Allocation.cpp), [Issue] (the rest of util/Issue.cpp without the printing, and
    util/SignalHandler.cpp), [Installer] (MemGuard.cpp).

    The state [guard] holds the process, the pool, and the thread-local variables of the thread that
    runs; the tables of slots and of free slots are arrays of their own and not bytes of the process.
    Thread names, stack traces, the time and the places that [mmap] chooses are arguments. *)
From S2P Require Import Prelude Arch Machine.

(** * Options.inc *)
Record options := MkOptions {
  maxAllocationSize : Z;
  maxDetectableAllocationCount : Z;
  maxSkippedAllocationCount : Z;
  percentageOfLeftSideGuard : Z;
  perfectRightSideGuard : bool;
  ignoreOverlappedReading : bool
}.

Definition default_options : options := MkOptions (64 * 1024) 16384 5 30 false false.

(** * Auxiliary.h and Random.cpp *)
Module Auxiliary.
Section Auxiliary.
Context `{Ar : Arch}.

(** [~x] of a [size_t]. *)
Definition not_word (x : Z) : Z := 2 ^ word_bits - 1 - x.

Definition IsPowOf2 (value : Z) : bool := Z.land value (u64 (value - 1)) =? 0.

(** The mask has the width of a [size_t] and is extended with zeros. *)
Definition AlignUpTo (value align : Z) : Z :=
  if IsPowOf2 align then Z.land (u64 (value + align - 1)) (not_word (uword (align - 1)))
  else u64 (u64 (value + align - 1) / align * align).

Definition AlignDownTo (value align : Z) : Z :=
  if IsPowOf2 align then Z.land value (not_word (uword (align - 1)))
  else u64 (value / align * align).

Definition AlignUpToPowOf2 (value : Z) : Z :=
  let value := u64 (value - 1) in
  let value := Z.lor value (Z.shiftr value 1) in
  let value := Z.lor value (Z.shiftr value 2) in
  let value := Z.lor value (Z.shiftr value 4) in
  let value := Z.lor value (Z.shiftr value 8) in
  let value := Z.lor value (Z.shiftr value 16) in
  u64 (value + 1).
End Auxiliary.

(** The step of the generator on [sLastRndValue]. *)
Definition xorshift (r : Z) : Z :=
  let r := Z.lxor r (u32 (Z.shiftl r 7)) in
  let r := Z.lxor r (Z.shiftr r 17) in
  Z.lxor r (u32 (Z.shiftl r 5)).
End Auxiliary.

(** * The state *)

Inductive InternalGuardSide := UNINITIALIZED | INTERNAL_ON_LEFT | INTERNAL_ON_RIGHT.
Inductive GuardSide := ON_LEFT | ON_RIGHT.
Inductive IssueType := UNKNOWN | OVERFLOW | UNDERFLOW | USE_AFTER_FREE | DOUBLE_FREE.

#[global] Instance GuardSide_eq_dec : EqDecision GuardSide.
Proof. solve_decision. Defined.
#[global] Instance IssueType_eq_dec : EqDecision IssueType.
Proof. solve_decision. Defined.

Record PageMeta := MkPageMeta {
  isBorrowed : bool;
  allocatedStart : Z;
  allocatedSize : Z;
  guardSide : InternalGuardSide;
  borrowThreadId : Z;
  borrowThreadName : list Z;
  stackTraceOnBorrow : list Z;
  onBorrowStackFrameCount : Z;
  returnThreadId : Z;
  returnThreadName : list Z;
  stackTraceOnReturn : list Z;
  onReturnStackFrameCount : Z
}.

Definition MAX_RECORDED_STACKFRAME_COUNT : nat := 16.
Definition MAX_TASK_COMM_LEN : nat := 16.

(** What [memset] leaves. *)
Definition zero_meta : PageMeta :=
  MkPageMeta false 0 0 UNINITIALIZED
    0 (replicate MAX_TASK_COMM_LEN 0) (replicate MAX_RECORDED_STACKFRAME_COUNT 0) 0
    0 (replicate MAX_TASK_COMM_LEN 0) (replicate MAX_RECORDED_STACKFRAME_COUNT 0) 0.

Record page_pool := MkPool {
  sGuardPageSize : Z;
  sSlotSize : Z;
  sSlotAreaStart : Z;
  sSlotAreaSize : Z;
  sSlotAreaEnd : Z;
  sMetaArea : list PageMeta;
  sFreeSlots : list Z;
  sFreeSlotCount : Z;
  sLentPageCount : Z
}.

(** The variables of a thread: [sTLSValues] of Allocation.cpp, [sLastRndValue] of Random.cpp and
    [gLastIssueType] of Issue.cpp. *)
Record thread_vars := MkThreadVars {
  sampleCounter : Z;
  isCallingAlloc : bool;
  isCallingFree : bool;
  sLastRndValue : Z;
  gLastIssueType : IssueType
}.

Definition new_thread : thread_vars := MkThreadVars 0 false false 0xFCDE97AB UNKNOWN.

(** The part of the state that the C library can reach. *)
Record process := MkProcess { space : machine; errno : Z }.

Record guard := MkGuard {
  proc : process;
  pool : page_pool;
  self : thread_vars;
  sAdjustedPercentageOfLeftSideGuard : Z;
  sSampleCycleLength : Z
}.

Definition set_proc (v : process) (s : guard) : guard :=
  MkGuard v (pool s) (self s) (sAdjustedPercentageOfLeftSideGuard s) (sSampleCycleLength s).
Definition set_pool (v : page_pool) (s : guard) : guard :=
  MkGuard (proc s) v (self s) (sAdjustedPercentageOfLeftSideGuard s) (sSampleCycleLength s).
Definition set_self (v : thread_vars) (s : guard) : guard :=
  MkGuard (proc s) (pool s) v (sAdjustedPercentageOfLeftSideGuard s) (sSampleCycleLength s).
Definition set_sampling (percentage cycle : Z) (s : guard) : guard :=
  MkGuard (proc s) (pool s) (self s) percentage cycle.

Definition set_sampleCounter (v : Z) (t : thread_vars) : thread_vars :=
  MkThreadVars v (isCallingAlloc t) (isCallingFree t) (sLastRndValue t) (gLastIssueType t).
Definition set_isCallingAlloc (v : bool) (t : thread_vars) : thread_vars :=
  MkThreadVars (sampleCounter t) v (isCallingFree t) (sLastRndValue t) (gLastIssueType t).
Definition set_isCallingFree (v : bool) (t : thread_vars) : thread_vars :=
  MkThreadVars (sampleCounter t) (isCallingAlloc t) v (sLastRndValue t) (gLastIssueType t).
Definition set_sLastRndValue (v : Z) (t : thread_vars) : thread_vars :=
  MkThreadVars (sampleCounter t) (isCallingAlloc t) (isCallingFree t) v (gLastIssueType t).
Definition set_gLastIssueType (v : IssueType) (t : thread_vars) : thread_vars :=
  MkThreadVars (sampleCounter t) (isCallingAlloc t) (isCallingFree t) (sLastRndValue t) v.

Definition set_lent (v : Z) (p : page_pool) : page_pool :=
  MkPool (sGuardPageSize p) (sSlotSize p) (sSlotAreaStart p) (sSlotAreaSize p) (sSlotAreaEnd p)
    (sMetaArea p) (sFreeSlots p) (sFreeSlotCount p) v.
Definition set_free (slots : list Z) (count : Z) (p : page_pool) : page_pool :=
  MkPool (sGuardPageSize p) (sSlotSize p) (sSlotAreaStart p) (sSlotAreaSize p) (sSlotAreaEnd p)
    (sMetaArea p) slots count (sLentPageCount p).
Definition set_metas (v : list PageMeta) (p : page_pool) : page_pool :=
  MkPool (sGuardPageSize p) (sSlotSize p) (sSlotAreaStart p) (sSlotAreaSize p) (sSlotAreaEnd p)
    v (sFreeSlots p) (sFreeSlotCount p) (sLentPageCount p).

Definition on_pool (f : page_pool -> page_pool) (s : guard) : guard := set_pool (f (pool s)) s.
Definition on_self (f : thread_vars -> thread_vars) (s : guard) : guard := set_self (f (self s)) s.

(** Code that only works on the process, or on its memory. *)
Definition in_process {A} : M process A -> M guard A := lift proc set_proc.
Definition in_space {A} (c : M machine A) : M guard A :=
  in_process (lift space (fun m p => MkProcess m (errno p)) c).
Definition set_errno (e : Z) : M guard unit := in_process (modify (fun p => MkProcess (space p) e)).

Definition EINVAL : Z := 22.
Definition ENOMEM : Z := 12.

(** [a[i]] of an array: an access outside of it is undefined. *)
Definition array_get {A} (l : list A) (i : Z) : M guard A :=
  raise (if i <? 0 then Undef else match l !! Z.to_nat i with Some x => Ok x | None => Undef end).

(** Who calls: [gettid()], what [prctl(PR_GET_NAME)] stores if it succeeds, and what the unwinder
    of port/Unwind.cpp finds. *)
Record caller := MkCaller { tid : Z; thread_name : option (list Z); frames : list Z }.

(** Where the kernel puts an anonymous mapping of a size and a protection, if it can. *)
Class Mapper := mmap_place : machine -> Z -> Z -> option Z.

(** * Memory.cpp *)
Module Memory.
Section Memory.
Context `{Ar : Arch} `{K : Kernel} `{Mp : Mapper} (gOpts : options).

(** [n] pages from [page] on are mapped with protection [p]. *)
Fixpoint map_pages (t : gmap Z Z) (page : Z) (n : nat) (p : Z) : gmap Z Z :=
  match n with
  | O => t
  | S n => map_pages (<[page := p]> t) (page + 1) n p
  end.

Definition PROT_NO_WRITE : Z := if ignoreOverlappedReading gOpts then PROT_READ else PROT_NONE.

(** [nullptr] where [mmap] fails.  The targets with 32-bit words are those with [__NR_mmap2]. *)
Definition MapMemArea (size : Z) : M machine Z := fun m =>
  let prot := if is_lp64 then PROT_NO_WRITE else PROT_NONE in
  match mmap_place m size prot with
  | None => (Ok 0, m)
  | Some res =>
      (Ok res, MkMachine (mem m)
         (map_pages (Machine.prot m) (page_of res) (Z.to_nat ((size + PAGE_SIZE - 1) / PAGE_SIZE)) prot))
  end.

(** A failed call of [mprotect] is only logged. *)
Definition MarkAreaReadWrite (start size : Z) : M machine unit :=
  _ ← mprotect start size (Z.lor PROT_READ PROT_WRITE); mret tt.

Definition MarkAreaInaccessible (start size : Z) : M machine unit :=
  _ ← mprotect start size PROT_NO_WRITE; mret tt.

Definition GetPageSize : Z := PAGE_SIZE.

(** A store of the bytes [bs] at [a], as [memset] and [memcpy] make it. *)
Definition store_bytes (a : Z) (bs : list Z) : M machine unit := fun m =>
  if can_range PROT_WRITE m a (length bs) then (Ok tt, set_mem m (put_bytes (mem m) a bs)) else (Segv, m).
End Memory.
End Memory.

(** * PagePool.cpp *)
Module PagePool.
Import Auxiliary Memory.

Definition SLOT_NONE : Z := -1.

Section PagePool.
Context `{Ar : Arch} `{K : Kernel} `{Mp : Mapper} (gOpts : options).

Definition sizeof_PageMeta : Z := if is_lp64 then 344 else 192.
Definition sizeof_slot_t : Z := 8.

(** [ASSERT(slot >= 0 && (unsigned) slot < gOpts.maxDetectableAllocationCount, ...)]. *)
Definition good_slot (slot : Z) : bool :=
  (0 <=? slot) && (u32 slot <? maxDetectableAllocationCount gOpts).

Definition assert_slot {A} (slot : Z) (r : result A) : result A := if good_slot slot then r else Aborted.

(** The second and the third area hold one element per slot: [metas] and [slots] stand for them. *)
Definition map_table (size : Z) : M guard bool :=
  a ← in_space (MapMemArea gOpts size);
  if a =? 0 then mret false else
  in_space (MarkAreaReadWrite a size);;
  in_space (fun m => if can_range PROT_WRITE m a (Z.to_nat size) then (Ok tt, m) else (Segv, m));;
  mret true.

Definition Prepare : M guard bool :=
  let n := maxDetectableAllocationCount gOpts in
  let guard_size := GetPageSize in
  let slot_size := uword (AlignUpTo (maxAllocationSize gOpts) GetPageSize) in
  let area_size := uword (guard_size + (slot_size + guard_size) * n) in
  p ← gets pool;
  start ← in_space (MapMemArea gOpts area_size);
  modify (set_pool (MkPool guard_size slot_size start area_size (sSlotAreaEnd p)
                      (sMetaArea p) (sFreeSlots p) (sFreeSlotCount p) (sLentPageCount p)));;
  if start =? 0 then mret false else
  modify (set_pool (MkPool guard_size slot_size start area_size (uword (u64 (start + area_size)))
                      (sMetaArea p) (sFreeSlots p) (sFreeSlotCount p) (sLentPageCount p)));;
  ok ← map_table (uword (sizeof_PageMeta * n));
  if negb ok then mret false else
  modify (on_pool (set_metas (replicate (Z.to_nat n) zero_meta)));;
  ok ← map_table (uword (sizeof_slot_t * n));
  if negb ok then mret false else
  modify (on_pool (fun p => set_free (replicate (Z.to_nat n) 0) (sFreeSlotCount p) p));;
  mret true.

Definition GetGuardedPageStart (p : page_pool) (slot : Z) : result Z :=
  assert_slot slot
    (Ok (uword (u64 (sSlotAreaStart p + sGuardPageSize p + uword (sSlotSize p + sGuardPageSize p) * slot)))).

(** [sMetaAreaStart[slot]]. *)
Definition meta_at (p : page_pool) (slot : Z) : result PageMeta :=
  if slot <? 0 then Undef else match sMetaArea p !! Z.to_nat slot with Some m => Ok m | None => Undef end.

Definition update_meta (slot : Z) (f : PageMeta -> PageMeta) : M guard unit :=
  m ← reads (fun s => meta_at (pool s) slot);
  modify (on_pool (fun p => set_metas (<[Z.to_nat slot := f m]> (sMetaArea p)) p)).

Definition GenerateUnsignedInt32 : M guard Z := fun s =>
  let r := xorshift (sLastRndValue (self s)) in (Ok r, on_self (set_sLastRndValue r) s).

(** [GetSelfThreadName] into an array with contents [old]. *)
Definition GetSelfThreadName (c : caller) (old : list Z) : list Z :=
  match thread_name c with
  | None => <[0%nat := 0]> old
  | Some n => <[(MAX_TASK_COMM_LEN - 1)%nat := 0]> n
  end.

(** [UnwindStack] into an array with contents [old], and the number of frames it returns. *)
Definition UnwindStack (c : caller) (old : list Z) : list Z * Z :=
  let fs := take MAX_RECORDED_STACKFRAME_COUNT (frames c) in
  (fs ++ drop (length fs) old, Z.of_nat (length fs)).

(** The part of [BorrowSlot] under the lock. *)
Definition pick_slot : M guard Z :=
  p ← gets pool;
  if sLentPageCount p <? maxDetectableAllocationCount gOpts then
    modify (on_pool (set_lent (uword (sLentPageCount p + 1))));;
    mret (swrap 64 (sLentPageCount p))
  else if 0 <? sFreeSlotCount p then
    r ← GenerateUnsignedInt32;
    let pickedSlotIndex := s32 (r mod sFreeSlotCount p) in
    resultSlotID ← array_get (sFreeSlots p) pickedSlotIndex;
    let count := uword (sFreeSlotCount p - 1) in
    last ← array_get (sFreeSlots p) count;
    modify (on_pool (set_free (<[Z.to_nat pickedSlotIndex := last]> (sFreeSlots p)) count));;
    mret resultSlotID
  else mret SLOT_NONE.

Definition borrow_meta (c : caller) (size : Z) (m : PageMeta) : PageMeta :=
  let '(st, n) := UnwindStack c (stackTraceOnBorrow m) in
  MkPageMeta true (allocatedStart m) size (guardSide m)
    (tid c) (GetSelfThreadName c (borrowThreadName m)) st n
    0 (<[0%nat := 0]> (returnThreadName m)) (stackTraceOnReturn m) 0.

Definition place_meta (start : Z) (m : PageMeta) : PageMeta :=
  MkPageMeta (isBorrowed m) start (allocatedSize m) (guardSide m)
    (borrowThreadId m) (borrowThreadName m) (stackTraceOnBorrow m) (onBorrowStackFrameCount m)
    (returnThreadId m) (returnThreadName m) (stackTraceOnReturn m) (onReturnStackFrameCount m).

(** The offset of a block in its slot. *)
Definition block_offset (slot_size size alignment : Z) (side : GuardSide) : Z :=
  match side with
  | ON_LEFT => 0
  | ON_RIGHT =>
      let padding := uword (slot_size - size) in
      sword (if perfectRightSideGuard gOpts then padding else AlignDownTo padding alignment)
  end.

Definition BorrowSlot (c : caller) (size alignment : Z) (guard_side : GuardSide) : M guard Z :=
  slot_size ← gets (fun s => sSlotSize (pool s));
  if slot_size <? size then mret SLOT_NONE else
  if slot_size <? AlignUpTo size alignment then mret SLOT_NONE else
  resultSlotID ← pick_slot;
  if resultSlotID =? SLOT_NONE then mret SLOT_NONE else
  update_meta resultSlotID (borrow_meta c size);;
  guardedPageStart ← reads (fun s => GetGuardedPageStart (pool s) resultSlotID);
  let start := uword (u64 (guardedPageStart + block_offset slot_size size alignment guard_side)) in
  update_meta resultSlotID (place_meta start);;
  let pagedAllocatedStart := uword (AlignDownTo start GetPageSize) in
  let pagedAllocatedSize := uword (AlignUpTo size GetPageSize) in
  in_space (MarkAreaReadWrite pagedAllocatedStart pagedAllocatedSize);;
  mret (s32 resultSlotID).

Definition IsSlotBorrowed (p : page_pool) (slot : Z) : result bool :=
  assert_slot slot (m ← meta_at p slot; Ok (isBorrowed m)).

(** [issue::TriggerIssue] of Issue.cpp: a store into the guard page behind the slot. *)
Definition TriggerIssue (accessing_slot : Z) (type : IssueType) : M guard unit :=
  if accessing_slot =? SLOT_NONE then mret tt else
  modify (on_self (set_gLastIssueType type));;
  start ← reads (fun s => GetGuardedPageStart (pool s) accessing_slot);
  slot_size ← gets (fun s => sSlotSize (pool s));
  in_space (store_bytes (uword (start + slot_size)) [0]).

Definition return_meta (c : caller) (m : PageMeta) : PageMeta :=
  let '(st, n) := UnwindStack c (stackTraceOnReturn m) in
  MkPageMeta false (allocatedStart m) (allocatedSize m) (guardSide m)
    (borrowThreadId m) (borrowThreadName m) (stackTraceOnBorrow m) (onBorrowStackFrameCount m)
    (tid c) (GetSelfThreadName c (returnThreadName m)) st n.

Definition ReturnSlot (c : caller) (slot : Z) : M guard unit :=
  borrowed ← reads (fun s => IsSlotBorrowed (pool s) slot);
  (if borrowed : bool then mret tt else TriggerIssue slot DOUBLE_FREE);;
  update_meta slot (return_meta c);;
  guardedPageStart ← reads (fun s => GetGuardedPageStart (pool s) slot);
  slot_size ← gets (fun s => sSlotSize (pool s));
  in_space (MarkAreaReadWrite guardedPageStart slot_size);;
  in_space (MarkAreaInaccessible gOpts guardedPageStart slot_size);;
  p ← gets pool;
  if maxDetectableAllocationCount gOpts <=? sFreeSlotCount p then mret tt else
  array_get (sFreeSlots p) (sFreeSlotCount p);;
  modify (on_pool (set_free (<[Z.to_nat (sFreeSlotCount p) := slot]> (sFreeSlots p)) (uword (sFreeSlotCount p + 1)))).

Definition GetAllocatedAddress (p : page_pool) (slot : Z) : result Z :=
  assert_slot slot (m ← meta_at p slot; Ok (allocatedStart m)).

Definition GetAllocatedSize (p : page_pool) (slot : Z) : result Z :=
  assert_slot slot (m ← meta_at p slot; Ok (allocatedSize m)).

(** [None]: the function returns [false]. *)
Definition GetSlotGuardSide (p : page_pool) (slot : Z) : result (option GuardSide) :=
  if slot =? SLOT_NONE then Ok None else
  m ← meta_at p slot;
  Ok (if isBorrowed m then Some match guardSide m with INTERNAL_ON_LEFT => ON_LEFT | _ => ON_RIGHT end else None).

Definition GetSlotIdOfAddress (p : page_pool) (addr : Z) : result Z :=
  if (addr <? sSlotAreaStart p) || (sSlotAreaEnd p <=? addr) then Ok SLOT_NONE else
  firstGuardedPageStart ← GetGuardedPageStart p 0;
  if addr <? firstGuardedPageStart then Ok 0 else
  let distance := u64 (addr - firstGuardedPageStart) in
  let step := uword (sSlotSize p + sGuardPageSize p) in
  if step =? 0 then Undef else Ok (swrap 64 (distance / step)).

Definition IsAddressInGuardPage (p : page_pool) (addr : Z) : bool :=
  if (addr <? sSlotAreaStart p) || (sSlotAreaEnd p <=? addr) then false else
  let addrPageCount := uword (u64 (addr - sSlotAreaStart p) / GetPageSize) in
  let maxAllocationPageCount := sSlotSize p / GetPageSize in
  addrPageCount mod uword (maxAllocationPageCount + 1) =? 0.

(** The thread, its name and the recorded frames. *)
Record trace := MkTrace { trace_tid : Z; trace_name : list Z; trace_frames : list Z }.

(** [GetThreadInfoOnBorrow] and [GetStackTraceOnBorrow]. *)
Definition trace_on_borrow (p : page_pool) (slot : Z) : result trace :=
  assert_slot slot (m ← meta_at p slot;
    Ok (MkTrace (borrowThreadId m) (borrowThreadName m)
          (take (Z.to_nat (onBorrowStackFrameCount m)) (stackTraceOnBorrow m)))).

(** [GetThreadInfoOnReturn] and [GetStackTraceOnReturn]. *)
Definition trace_on_return (p : page_pool) (slot : Z) : result trace :=
  assert_slot slot (m ← meta_at p slot;
    Ok (MkTrace (returnThreadId m) (returnThreadName m)
          (take (Z.to_nat (onReturnStackFrameCount m)) (stackTraceOnReturn m)))).
End PagePool.
End PagePool.

(** * Allocation.cpp *)
Module Allocation.
Import Auxiliary Memory PagePool.
Section Allocation.
Context `{Ar : Arch} `{K : Kernel} (gOpts : options).

Definition ShouldBeGuardedThisTime : M guard bool :=
  counter ← gets (fun s => sampleCounter (self s));
  if counter =? 0 then
    r ← GenerateUnsignedInt32;
    cycle ← gets sSampleCycleLength;
    modify (on_self (set_sampleCounter (u32 (Z.land r (uword (cycle - 1))))));;
    mret true
  else
    modify (on_self (set_sampleCounter (u32 (counter - 1))));;
    mret false.

Definition ShouldBeGuardedOnLeft : M guard bool :=
  r ← GenerateUnsignedInt32;
  percentage ← gets sAdjustedPercentageOfLeftSideGuard;
  mret (u32 (Z.land r (2 ^ 10 - 1) * 100) <=? uword (Z.shiftl percentage 10)).

(** [RECURSIVE_GUARD(sTLSValues.isCallingAlloc, ...)] around [body]. *)
Definition guard_alloc (body : M guard Z) : M guard Z :=
  entered ← gets (fun s => isCallingAlloc (self s));
  if entered : bool then mret 0 else
  modify (on_self (set_isCallingAlloc true));;
  r ← body;
  modify (on_self (set_isCallingAlloc false));;
  mret r.

(** [RECURSIVE_GUARD(sTLSValues.isCallingFree, false)] around [body]. *)
Definition guard_free (body : M guard bool) : M guard bool :=
  entered ← gets (fun s => isCallingFree (self s));
  if entered : bool then mret false else
  modify (on_self (set_isCallingFree true));;
  r ← body;
  modify (on_self (set_isCallingFree false));;
  mret r.

(** [now] is [time(nullptr) + gettid()], the seed. *)
Definition Prepare (now : Z) : M guard bool :=
  let percentage := percentageOfLeftSideGuard gOpts in
  let percentage := if 100 <? percentage then 100 else percentage in
  let cycle := uword (AlignUpToPowOf2 (maxSkippedAllocationCount gOpts)) in
  let cycle := if cycle =? 0 then 1 else if cycle =? 1 then 2 else cycle in
  modify (set_sampling percentage cycle);;
  modify (on_self (set_sLastRndValue (u32 now)));;
  r ← GenerateUnsignedInt32;
  modify (on_self (set_sampleCounter (u32 (Z.land r (uword (cycle - 1))))));;
  mret true.

Definition AlignedAllocate (c : caller) (size alignment : Z) : M guard Z :=
  guard_alloc (
    now ← ShouldBeGuardedThisTime;
    slot_size ← gets (fun s => sSlotSize (pool s));
    if negb now then mret 0 else
    if slot_size <? alignment then mret 0 else
    if negb (IsPowOf2 alignment) then mret 0 else
    if slot_size <? AlignUpTo size alignment then mret 0 else
    left ← ShouldBeGuardedOnLeft;
    slot ← BorrowSlot gOpts c size alignment (if left : bool then ON_LEFT else ON_RIGHT);
    if slot =? SLOT_NONE then mret 0 else
    reads (fun s => GetAllocatedAddress gOpts (pool s) slot)).

(** [sizeof(void * ) << 1]. *)
Definition Allocate (c : caller) (size : Z) : M guard Z := AlignedAllocate c size (2 * word_bytes).

Definition IsAllocatedByThisAllocator (p : page_pool) (ptr : Z) : result bool :=
  slot ← GetSlotIdOfAddress gOpts p ptr; Ok (negb (slot =? SLOT_NONE)).

Definition GetAllocatedSize (p : page_pool) (ptr : Z) : result Z :=
  slot ← GetSlotIdOfAddress gOpts p ptr;
  if s32 slot =? SLOT_NONE then Ok 0 else PagePool.GetAllocatedSize gOpts p (s32 slot).

Definition Free (c : caller) (ptr : Z) : M guard bool :=
  guard_free (
    slot ← reads (fun s => GetSlotIdOfAddress gOpts (pool s) ptr);
    if s32 slot =? SLOT_NONE then mret false else
    ReturnSlot gOpts c (s32 slot);; mret true).
End Allocation.
End Allocation.

(** * Issue.cpp and SignalHandler.cpp *)
Module Issue.
Import Auxiliary Memory PagePool Allocation.
Section Issue.
Context `{Ar : Arch} `{K : Kernel} (gOpts : options).

Definition GetNearestSlotID (p : page_pool) (addr : Z) : result Z :=
  first ← GetGuardedPageStart gOpts p 0;
  if addr <? first then Ok 0 else
  slot ← GetSlotIdOfAddress gOpts p addr;
  if slot =? SLOT_NONE then Ok slot else
  if negb (IsAddressInGuardPage p addr) then Ok slot else
  if (GetPageSize <? uword (addr mod GetPageSize * 2))
     && (slot <? swrap 64 (uword (maxDetectableAllocationCount gOpts - 1)))
  then Ok (slot + 1) else Ok slot.

(** What [Report] prints: the slot, the kind of issue, the distance that it mentions for an
    overflow or underflow, the size of the block, who allocated it and, for a use after free or a
    double free, who freed it. *)
Record report := MkReport {
  r_slot : Z;
  r_type : IssueType;
  r_offset : option Z;
  r_size : Z;
  r_allocated : trace;
  r_freed : option trace
}.

(** [UNKNOWN] is replaced by what the state of the slot suggests. *)
Definition issue_type (last : IssueType) (borrowed : bool) (accessing_addr start : Z) : IssueType :=
  match last with
  | UNKNOWN =>
      if borrowed then
        if negb (start =? 0) then if accessing_addr <=? start then UNDERFLOW else OVERFLOW else UNKNOWN
      else USE_AFTER_FREE
  | _ => last
  end.

Definition issue_offset (type : IssueType) (accessing_addr start size : Z) : option Z :=
  match type with
  | OVERFLOW => Some (uword (accessing_addr - start - size))
  | UNDERFLOW => Some (uword (start - accessing_addr - size))
  | _ => None
  end.

(** [None]: the function returns [false]. *)
Definition Report (s : guard) (accessing_addr : Z) : result (option report) :=
  slot ← GetNearestSlotID (pool s) accessing_addr;
  if slot =? SLOT_NONE then Ok None else
  start ← GetAllocatedAddress gOpts (pool s) slot;
  borrowed ← IsSlotBorrowed gOpts (pool s) slot;
  let type := issue_type (gLastIssueType (self s)) borrowed accessing_addr start in
  size ← PagePool.GetAllocatedSize gOpts (pool s) slot;
  allocated ← trace_on_borrow gOpts (pool s) slot;
  freed ← (if bool_decide (type = DOUBLE_FREE) || bool_decide (type = USE_AFTER_FREE)
           then t ← trace_on_return gOpts (pool s) slot; Ok (Some t) else Ok None);
  Ok (Some (MkReport slot type (issue_offset type accessing_addr start size) size allocated freed)).

(** [PrintLineV]: the text that [vsnprintf] produces is cut to the buffer of 1024 bytes, a newline
    is put behind it or over its last byte, and as many bytes are written as [vsnprintf] counted. *)
Definition line_size : Z := 1024.

Definition PrintLineV (text : list Z) : result (list Z) :=
  let bytesPrint := Z.of_nat (length text) in
  if bytesPrint <? line_size then Ok (text ++ [10]) else
  if bytesPrint =? line_size then Ok (take (Z.to_nat (line_size - 1)) text ++ [10]) else Undef.

(** [sPrevSigAction] at the time of [Install]. *)
Inductive previous_action := PREV_SIGACTION | PREV_DFL | PREV_IGN | PREV_HANDLER.

(** How [SegvSignalHandler] goes on: it calls the previous handler, it ends the process, or it
    returns. *)
Inductive disposition := CallsPrevious | Dies | Returns.

(** [accerr]: [si_code] is [SEGV_ACCERR]; [started]: the thread that runs [Report] could be started.
    The thread is cloned without [CLONE_SETTLS], so that it sees the variables of this one. *)
Definition SegvSignalHandler (prev : previous_action) (accerr started : bool) (si_addr : Z) (s : guard)
  : result (option report * disposition) :=
  r ← (if accerr then
         ours ← IsAllocatedByThisAllocator gOpts (pool s) si_addr;
         if ours && started then Report s si_addr else Ok None
       else Ok None);
  d ← match prev with
      | PREV_SIGACTION | PREV_HANDLER => Ok CallsPrevious
      | PREV_DFL => Ok Dies
      | PREV_IGN =>
          if negb (bool_decide (gLastIssueType (self s) = UNKNOWN)) && negb (si_addr =? 0) then Ok Dies else
          ours ← IsAllocatedByThisAllocator gOpts (pool s) si_addr;
          Ok (if ours : bool then Dies else Returns)
      end;
  Ok (r, d).
End Issue.
End Issue.

(** * MemGuard.cpp *)
Module Installer.
Section Installer.
Context `{Ar : Arch} `{K : Kernel} `{Mp : Mapper} (gOpts : options).

(** The outcomes of the parts of [Install] that are outside of this model: the directory of the
    dump file, the monitor of loaded libraries, the unwinder, [sigaction], and the hooks. *)
Record parts := MkParts {
  dump_path_ok : bool; so_monitor_ok : bool; unwind_ok : bool; sigaction_ok : bool; hooks_ok : bool
}.

(** [installed] is the flag [sInstalled]; its new value comes with the result. *)
Definition Install (have_opts installed : bool) (env : parts) (now : Z) : M guard (bool * bool) :=
  if negb have_opts then mret (false, installed) else
  if installed then mret (true, true) else
  if negb (dump_path_ok env) then mret (false, true) else
  if negb (so_monitor_ok env) then mret (false, true) else
  ok ← PagePool.Prepare gOpts;
  if negb ok then mret (false, true) else
  if negb (unwind_ok env) then mret (false, true) else
  if negb (sigaction_ok env) then mret (false, true) else
  ok ← Allocation.Prepare gOpts now;
  if negb ok then mret (false, true) else
  mret (hooks_ok env, true).
End Installer.
End Installer.
