(* ===== verification/MemGuardFacts.v ===== *)
(** Facts about the guarded allocator: rounding, the layout of the slot area, the invariant of the
    pool, and what lending and taking back a slot do to it. *)
From S2P Require Import Prelude Arch Machine MemGuard.

(** * Rounding *)
Module AlignFacts.
Import Auxiliary.
Section Align.
Context `{Ar : Arch} `{K : Kernel}.

Lemma word_bits_le_64 : word_bits <= 64.
Proof. destruct word_bits_cases; lia. Qed.

Lemma pow2_word_le k : 0 <= k <= word_bits -> 2 ^ k <= 2 ^ word_bits.
Proof. intros. apply Z.pow_le_mono_r; lia. Qed.

Lemma pow2_word_64 : 2 ^ word_bits <= 2 ^ 64.
Proof. apply Z.pow_le_mono_r; [lia|apply word_bits_le_64]. Qed.

Lemma uword_u64 z : uword (u64 z) = uword z.
Proof. apply wrap_wrap_le. pose proof word_bits_le_64. pose proof word_bits_ge. lia. Qed.

Lemma IsPowOf2_pow k : 0 <= k < 64 -> IsPowOf2 (2 ^ k) = true.
Proof.
  intros Hk. unfold IsPowOf2. assert (0 < 2 ^ k) by (apply Z.pow_pos_nonneg; lia).
  assert (2 ^ k < 2 ^ 64) by (apply Z.pow_lt_mono_r; lia).
  rewrite wrap_small by lia. apply Z.eqb_eq.
  replace (2 ^ k - 1) with (Z.ones k) by (rewrite Z.ones_equiv; lia).
  rewrite Z.land_ones by lia. apply Z.mod_same. lia.
Qed.

(** What the test accepts: powers of two, and zero. *)
Lemma IsPowOf2_inv a : 0 <= a < 2 ^ 64 -> IsPowOf2 a = true -> a = 0 \/ exists k, 0 <= k < 64 /\ a = 2 ^ k.
Proof.
  intros Ha Hp. unfold IsPowOf2 in Hp. apply Z.eqb_eq in Hp.
  destruct (decide (a = 0)) as [?|Hne]; [by left|right]. exists (Z.log2 a).
  rewrite wrap_small in Hp by lia. pose proof (Z.log2_spec a ltac:(lia)) as [Hl Hu].
  pose proof (Z.log2_nonneg a). split.
  { split; [done|]. destruct (decide (Z.log2 a < 64)); [done|].
    assert (2 ^ 64 <= 2 ^ Z.log2 a) by (apply Z.pow_le_mono_r; lia). lia. }
  destruct (decide (a = 2 ^ Z.log2 a)) as [|Hn]; [done|exfalso].
  assert (Z.log2 (a - 1) = Z.log2 a) as El by (apply Z.log2_unique; lia).
  assert (Z.testbit (Z.land a (a - 1)) (Z.log2 a) = true) as E.
  { rewrite Z.land_spec, Z.bit_log2 by lia. rewrite <- El, Z.bit_log2; [done|].
    assert (0 < 2 ^ Z.log2 a) by (apply Z.pow_pos_nonneg; lia). lia. }
  by rewrite Hp, Z.bits_0 in E.
Qed.

Lemma land_not_word x k : 0 <= k <= word_bits -> 0 <= x < 2 ^ word_bits ->
  Z.land x (not_word (2 ^ k - 1)) = x / 2 ^ k * 2 ^ k.
Proof.
  intros Hk Hx. unfold not_word.
  replace (2 ^ word_bits - 1 - (2 ^ k - 1)) with (Z.shiftl (Z.ones (word_bits - k)) k).
  2:{ rewrite Z.shiftl_mul_pow2, Z.ones_equiv by lia.
      replace (2 ^ word_bits) with (2 ^ (word_bits - k) * 2 ^ k) by (rewrite <- Z.pow_add_r by lia; f_equal; lia).
      unfold Z.pred. nia. }
  rewrite <- (Z.shiftl_mul_pow2 _ k), <- Z.shiftr_div_pow2 by lia.
  apply Z.bits_inj'. intros i Hi. rewrite Z.land_spec.
  destruct (Z.ltb_spec i k).
  { rewrite !Z.shiftl_spec_low by lia. apply andb_false_r. }
  rewrite !Z.shiftl_spec, Z.shiftr_spec by lia. replace (i - k + k) with i by lia.
  destruct (Z.ltb_spec i word_bits).
  - rewrite Z.ones_spec_low by lia. apply andb_true_r.
  - rewrite Z.ones_spec_high by lia. rewrite andb_false_r. symmetry.
    rewrite <- (Z.mod_small x (2 ^ word_bits)) by done. apply Z.mod_pow2_bits_high. lia.
Qed.

Lemma uword_pow2_pred k : 0 <= k < word_bits -> uword (2 ^ k - 1) = 2 ^ k - 1.
Proof.
  intros Hk. apply uword_small. pose proof (pow2_word_le k ltac:(lia)).
  assert (0 < 2 ^ k) by (apply Z.pow_pos_nonneg; lia). lia.
Qed.

Lemma AlignDownTo_pow x k : 0 <= k < word_bits -> 0 <= x < 2 ^ word_bits ->
  AlignDownTo x (2 ^ k) = x / 2 ^ k * 2 ^ k.
Proof.
  intros Hk Hx. pose proof word_bits_le_64. unfold AlignDownTo.
  rewrite IsPowOf2_pow, uword_pow2_pred by lia. apply land_not_word; lia.
Qed.

Lemma AlignUpTo_pow x k : 0 <= k < word_bits -> 0 <= x -> x + 2 ^ k - 1 < 2 ^ word_bits ->
  AlignUpTo x (2 ^ k) = (x + 2 ^ k - 1) / 2 ^ k * 2 ^ k.
Proof.
  intros Hk Hx Hu. pose proof word_bits_le_64. pose proof pow2_word_64. unfold AlignUpTo.
  assert (0 < 2 ^ k) by (apply Z.pow_pos_nonneg; lia).
  rewrite IsPowOf2_pow, uword_pow2_pred, (wrap_small 64) by lia. apply land_not_word; lia.
Qed.

Lemma not_word_max : not_word (uword (0 - 1)) = 0.
Proof. unfold not_word, uword. pose proof word_bits_ge. destruct word_bits_cases as [-> | ->]; reflexivity. Qed.

Lemma AlignDownTo_0 x : AlignDownTo x 0 = 0.
Proof. unfold AlignDownTo. change (IsPowOf2 0) with true. cbv iota. by rewrite not_word_max, Z.land_0_r. Qed.

Lemma xorshift_range r : in_word 32 r -> in_word 32 (xorshift r).
Proof.
  intros Hr. unfold in_word in *.
  assert (forall a b, 0 <= a < 2 ^ 32 -> 0 <= b < 2 ^ 32 -> 0 <= Z.lxor a b < 2 ^ 32) as Hx.
  { intros a b Ha Hb. rewrite <- (wrap_small 32 a), <- (wrap_small 32 b), <- wrap_lxor by lia.
    apply wrap_range. lia. }
  unfold xorshift. repeat apply Hx; try done; try (apply wrap_range; lia).
  rewrite Z.shiftr_div_pow2 by lia.
  assert (0 <= Z.lxor r (u32 (Z.shiftl r 7)) < 2 ^ 32) as H by (apply Hx; [done|apply wrap_range; lia]).
  split; [apply Z.div_pos; lia|]. apply Z.div_lt_upper_bound; lia.
Qed.

(** [y] has a bit wherever [x] has one among the [n] bits from there on. *)
Definition smeared (x n y : Z) : Prop :=
  forall i, 0 <= i -> Z.testbit y i = true <-> exists j, 0 <= j < n /\ Z.testbit x (i + j) = true.

Lemma smear_step x n y : 0 < n -> smeared x n y -> smeared x (2 * n) (Z.lor y (Z.shiftr y n)).
Proof.
  intros Hn H i Hi. rewrite Z.lor_spec, Z.shiftr_spec, orb_true_iff by done. rewrite (H i), (H (i + n)) by lia. split.
  - intros [(j & Hj & E)|(j & Hj & E)]; [exists j; split; [lia|done]|exists (n + j); split; [lia|]].
    by replace (i + (n + j)) with (i + n + j) by lia.
  - intros (j & Hj & E). destruct (decide (j < n)); [left; exists j; split; [lia|done]|right].
    exists (j - n). split; [lia|]. by replace (i + n + (j - n)) with (i + j) by lia.
Qed.

Lemma smeared_ones x y : 0 < x < 2 ^ 32 -> 0 <= y -> smeared x 32 y -> y = Z.ones (Z.log2 x + 1).
Proof.
  intros Hx Hy H. pose proof (Z.log2_nonneg x). assert (Z.log2 x < 32) by (apply Z.log2_lt_pow2; lia).
  apply Z.bits_inj'. intros i Hi. destruct (Z.ltb_spec i (Z.log2 x + 1)).
  - rewrite Z.ones_spec_low by lia. apply H; [done|]. exists (Z.log2 x - i). split; [lia|].
    replace (i + (Z.log2 x - i)) with (Z.log2 x) by lia. apply Z.bit_log2. lia.
  - rewrite Z.ones_spec_high by lia. apply not_true_iff_false. intros E. apply H in E as (j & Hj & E); [|done].
    rewrite Z.bits_above_log2 in E by lia. done.
Qed.

(** Up to [2^32] the shifts reach every bit, and the result is the next power of two. *)
Lemma AlignUpToPowOf2_pow v : 1 < v <= 2 ^ 32 -> AlignUpToPowOf2 v = 2 ^ Z.log2_up v.
Proof.
  intros Hv. unfold AlignUpToPowOf2. rewrite (wrap_small 64 (v - 1)) by lia.
  assert (smeared (v - 1) 1 (v - 1)) as H0.
  { intros i Hi. split; [intros E; exists 0; split; [lia|by rewrite Z.add_0_r]|].
    intros (j & Hj & E). by replace (i + j) with i in E by lia. }
  do 5 (apply smear_step in H0; [|lia]; cbn [Z.mul Pos.mul] in H0).
  match type of H0 with smeared _ _ ?e => set (y := e) in * end.
  assert (y = Z.ones (Z.log2 (v - 1) + 1)) as Ey.
  { apply smeared_ones; [lia| |done]. unfold y. repeat (rewrite Z.lor_nonneg || rewrite Z.shiftr_nonneg). lia. }
  change (u64 (y + 1) = 2 ^ Z.log2_up v).
  assert (Z.log2 (v - 1) < 32) by (apply Z.log2_lt_pow2; lia). pose proof (Z.log2_nonneg (v - 1)).
  rewrite Ey, Z.ones_equiv. replace (Z.pred (2 ^ (Z.log2 (v - 1) + 1)) + 1) with (2 ^ (Z.log2 (v - 1) + 1)) by lia.
  rewrite Z.log2_up_eqn by lia. replace (Z.pred v) with (v - 1) by lia. rewrite <- Z.add_1_r. apply wrap_small.
  split; [apply Z.pow_nonneg; lia|]. apply Z.pow_lt_mono_r; lia.
Qed.

(** The number of pages that [n] bytes need, as the kernel counts it. *)
Definition page_count (n : Z) : Z := (n + PAGE_SIZE - 1) / PAGE_SIZE.

Lemma page_count_nonneg n : 0 <= n -> 0 <= page_count n.
Proof. intros. pose proof PAGE_SIZE_pos. apply Z.div_pos; lia. Qed.

Lemma page_count_ge n : n <= page_count n * PAGE_SIZE.
Proof. pose proof PAGE_SIZE_pos. unfold page_count. pose proof (Z.mul_succ_div_gt (n + PAGE_SIZE - 1) PAGE_SIZE). nia. Qed.

Lemma page_count_lt n : page_count n * PAGE_SIZE < n + PAGE_SIZE.
Proof. pose proof PAGE_SIZE_pos. unfold page_count. pose proof (Z.mul_div_le (n + PAGE_SIZE - 1) PAGE_SIZE). nia. Qed.

Lemma page_count_mult k : page_count (k * PAGE_SIZE) = k.
Proof.
  pose proof PAGE_SIZE_pos. unfold page_count.
  replace (k * PAGE_SIZE + PAGE_SIZE - 1) with (PAGE_SIZE - 1 + k * PAGE_SIZE) by lia.
  rewrite Z.div_add by lia. rewrite Z.div_small by lia. lia.
Qed.

Lemma AlignDown_page x : 0 <= x < 2 ^ word_bits -> AlignDownTo x PAGE_SIZE = page_of x * PAGE_SIZE.
Proof. pose proof page_bits_range. pose proof word_bits_ge. apply AlignDownTo_pow. lia. Qed.

Lemma AlignUp_page x : 0 <= x -> x + PAGE_SIZE < 2 ^ word_bits -> AlignUpTo x PAGE_SIZE = page_count x * PAGE_SIZE.
Proof.
  pose proof page_bits_range. pose proof word_bits_ge. intros Hx Hu.
  unfold PAGE_SIZE in *. apply AlignUpTo_pow; lia.
Qed.
End Align.
End AlignFacts.

(** * Tables of pages *)
Section Pages.
Context `{Ar : Arch} `{K : Kernel}.

Lemma set_prot_lookup n : forall t pg p q,
  set_prot t pg n p !! q = if decide (pg <= q < pg + Z.of_nat n) then (fun _ => p) <$> t !! q else t !! q.
Proof.
  induction n as [|n IH]; intros t pg p q; cbn [set_prot].
  { by rewrite decide_False by lia. }
  rewrite IH. destruct (decide (q = pg)) as [-> |Hne].
  - rewrite (decide_True (P := pg <= pg < pg + Z.of_nat (S n))) by lia.
    rewrite decide_False by lia. by rewrite lookup_alter_eq.
  - rewrite lookup_alter_ne by done.
    destruct (decide (pg + 1 <= q < pg + 1 + Z.of_nat n)), (decide (pg <= q < pg + Z.of_nat (S n))); try done; lia.
Qed.

Lemma map_pages_lookup n : forall t pg p q,
  Memory.map_pages t pg n p !! q = if decide (pg <= q < pg + Z.of_nat n) then Some p else t !! q.
Proof.
  induction n as [|n IH]; intros t pg p q; cbn [Memory.map_pages].
  { by rewrite decide_False by lia. }
  rewrite IH. destruct (decide (q = pg)) as [-> |Hne].
  - rewrite (decide_True (P := pg <= pg < pg + Z.of_nat (S n))) by lia.
    rewrite decide_False by lia. by rewrite lookup_insert_eq.
  - rewrite lookup_insert_ne by done.
    destruct (decide (pg + 1 <= q < pg + 1 + Z.of_nat n)), (decide (pg <= q < pg + Z.of_nat (S n))); try done; lia.
Qed.
End Pages.

(** * The pool *)
Module PoolFacts.
Import Auxiliary Memory PagePool AlignFacts.
Section Pool.
Context `{Ar : Arch} `{K : Kernel} (gOpts : options).

(** The first byte of slot [i], behind the guard page on its left. *)
Definition slot_start (p : page_pool) (i : Z) : Z :=
  sSlotAreaStart p + PAGE_SIZE + (sSlotSize p + PAGE_SIZE) * i.

Definition slots : Z := maxDetectableAllocationCount gOpts.

(** The area is laid out as the drawing in PagePool.cpp shows, and does not end the address space. *)
Record layout (p : page_pool) : Prop := MkLayout {
  lay_guard : sGuardPageSize p = PAGE_SIZE;
  lay_slot : 0 <= sSlotSize p;
  lay_pages : sSlotSize p mod PAGE_SIZE = 0;
  lay_start : 0 < sSlotAreaStart p;
  lay_start_page : sSlotAreaStart p mod PAGE_SIZE = 0;
  lay_count : 0 < slots < 2 ^ 31;
  lay_end : sSlotAreaEnd p = slot_start p slots;
  lay_fits : sSlotAreaEnd p < 2 ^ word_bits
}.

Definition in_area (p : page_pool) (a : Z) : Prop := sSlotAreaStart p <= a < sSlotAreaEnd p.

#[global] Instance in_area_dec p a : Decision (in_area p a).
Proof. unfold in_area. apply _. Defined.

(** Slot [i] holds a block of [n] bytes at [a]. *)
Definition live (p : page_pool) (i a n : Z) : Prop :=
  0 <= i /\ exists m, sMetaArea p !! Z.to_nat i = Some m /\ isBorrowed m = true /\ allocatedStart m = a /\ allocatedSize m = n.

(** The pages that are opened for a block of [n] bytes at [a]. *)
Definition opened (a n q : Z) : Prop := page_of a <= q < page_of a + page_count n.

(** The block lies in its slot, and so do the pages opened for it, which cover it. *)
Record block_ok (p : page_pool) (i a n : Z) : Prop := MkBlockOk {
  block_size : 0 <= n;
  block_start : slot_start p i <= a;
  block_covered : a + n <= (page_of a + page_count n) * PAGE_SIZE;
  block_in_slot : (page_of a + page_count n) * PAGE_SIZE <= slot_start p i + sSlotSize p
}.

(** The slots on the free list. *)
Definition free_list (p : page_pool) : list Z := take (Z.to_nat (sFreeSlotCount p)) (sFreeSlots p).

Definition borrowed (p : page_pool) (i : Z) : Prop := exists a n, live p i a n.

Record pool_ok (p : page_pool) : Prop := MkPoolOk {
  ok_layout : layout p;
  ok_metas : Z.of_nat (length (sMetaArea p)) = slots;
  ok_slots : Z.of_nat (length (sFreeSlots p)) = slots;
  ok_count : 0 <= sFreeSlotCount p <= slots;
  ok_lent : 0 <= sLentPageCount p <= slots;
  ok_nodup : NoDup (free_list p);
  ok_free : forall i, i ∈ free_list p <-> 0 <= i < sLentPageCount p /\ ~ borrowed p i;
  ok_borrowed : forall i, borrowed p i -> i < sLentPageCount p;
  ok_block : forall i a n, live p i a n -> block_ok p i a n
}.

(** A page of the area that no block needs cannot be written to, and can be read only where the
    option asks for it. *)
Definition closed_prot (x : Z) : Prop :=
  x = PROT_NONE \/ x = PROT_READ /\ ignoreOverlappedReading gOpts = true.

(** Writable are exactly the pages of blocks. *)
Record prot_ok (p : page_pool) (t : gmap Z Z) : Prop := MkProtOk {
  prot_open : forall i a n q, live p i a n -> opened a n q -> t !! q = Some (Z.lor PROT_READ PROT_WRITE);
  prot_closed : forall q, in_area p (q * PAGE_SIZE) -> (forall i a n, live p i a n -> ~ opened a n q) ->
    exists x, t !! q = Some x /\ closed_prot x
}.

(** Between two calls a thread is in neither an allocation nor a release, and has no issue. *)
Record self_ok (t : thread_vars) : Prop := MkSelfOk {
  self_alloc : isCallingAlloc t = false;
  self_free : isCallingFree t = false;
  self_rnd : in_word 32 (sLastRndValue t);
  self_issue : gLastIssueType t = UNKNOWN
}.

(** The state between two calls. *)
Record guard_ok (s : guard) : Prop := MkGuardOk {
  g_pool : pool_ok (pool s);
  g_prot : prot_ok (pool s) (prot (space (proc s)));
  g_self : self_ok (self s)
}.

(** ** Layout *)

Lemma live_functional p i a n a' n' : live p i a n -> live p i a' n' -> a' = a /\ n' = n.
Proof. intros (_ & m & Hm & _ & <- & <-) (_ & m' & Hm' & _ & <- & <-). naive_solver. Qed.

Section Layout.
Context (p : page_pool) (L : layout p).

Lemma slot_start_mono i j : i < j -> slot_start p i + sSlotSize p + PAGE_SIZE <= slot_start p j.
Proof. intros. pose proof PAGE_SIZE_pos. pose proof (lay_slot p L). unfold slot_start. nia. Qed.

Lemma slot_bounds i : 0 <= i < slots ->
  sSlotAreaStart p + PAGE_SIZE <= slot_start p i /\ slot_start p i + sSlotSize p + PAGE_SIZE <= sSlotAreaEnd p.
Proof.
  intros Hi. pose proof PAGE_SIZE_pos. pose proof (lay_slot p L). rewrite (lay_end p L). split.
  - unfold slot_start. nia.
  - apply slot_start_mono. lia.
Qed.

Lemma slot_start_page i : slot_start p i mod PAGE_SIZE = 0.
Proof.
  pose proof PAGE_SIZE_pos. pose proof (lay_start_page p L) as Ha. pose proof (lay_pages p L) as Hb.
  apply Z.mod_divide in Ha; [|lia]. apply Z.mod_divide in Hb; [|lia]. apply Z.mod_divide; [lia|].
  unfold slot_start. apply Z.divide_add_r; [apply Z.divide_add_r; [done|apply Z.divide_refl]|].
  apply Z.divide_mul_l, Z.divide_add_r; [done|apply Z.divide_refl].
Qed.

Lemma page_of_start i : page_of (slot_start p i) * PAGE_SIZE = slot_start p i.
Proof.
  pose proof PAGE_SIZE_pos. pose proof (slot_start_page i). unfold page_of.
  rewrite (Z.div_mod (slot_start p i) PAGE_SIZE) at 2 by lia. lia.
Qed.

Lemma slot_size_pages : page_count (sSlotSize p) * PAGE_SIZE = sSlotSize p.
Proof.
  pose proof PAGE_SIZE_pos. pose proof (lay_pages p L) as Hb. apply Z.mod_divide in Hb as [k Hk]; [|lia].
  rewrite Hk, page_count_mult. done.
Qed.

Lemma good_slot_true i : 0 <= i < slots -> good_slot gOpts i = true.
Proof.
  intros Hi. unfold good_slot. pose proof (lay_count p L). rewrite wrap_small by lia.
  apply andb_true_intro. split; [apply Z.leb_le; lia|apply Z.ltb_lt]. unfold slots in Hi. lia.
Qed.

Lemma GetGuardedPageStart_run i : 0 <= i < slots -> GetGuardedPageStart gOpts p i = Ok (slot_start p i).
Proof.
  intros Hi. unfold GetGuardedPageStart, assert_slot. rewrite good_slot_true by done.
  rewrite uword_u64, (lay_guard p L). pose proof (slot_bounds i Hi). pose proof (lay_fits p L).
  pose proof (lay_start p L). pose proof PAGE_SIZE_pos. pose proof (lay_slot p L).
  assert (sSlotSize p + PAGE_SIZE < 2 ^ word_bits) by lia.
  rewrite (uword_small (sSlotSize p + PAGE_SIZE)) by lia. do 2 f_equal. apply uword_small.
  change (0 <= slot_start p i < 2 ^ word_bits). lia.
Qed.

(** Every address of the area lies in the first guard page or in a slot with the guard page behind it. *)
Lemma area_cases a : in_area p a ->
  a < slot_start p 0 \/ exists i, 0 <= i < slots /\ slot_start p i <= a < slot_start p i + sSlotSize p + PAGE_SIZE.
Proof.
  intros [Hl Hu]. destruct (Z.ltb_spec a (slot_start p 0)) as [|Hge]; [by left|right].
  pose proof PAGE_SIZE_pos. pose proof (lay_slot p L). rewrite (lay_end p L) in Hu.
  set (w := sSlotSize p + PAGE_SIZE). set (d := a - slot_start p 0).
  assert (0 < w) by lia. assert (0 <= d) by lia.
  exists (d / w). pose proof (Z.mul_div_le d w). pose proof (Z.mul_succ_div_gt d w).
  assert (slot_start p (d / w) = slot_start p 0 + w * (d / w)) as E by (unfold slot_start; subst w; lia).
  assert (d < w * slots) by (unfold slot_start in *; subst d w; lia).
  repeat split; [by apply Z.div_pos|apply Z.div_lt_upper_bound; lia|lia|lia].
Qed.

Lemma GetSlotIdOfAddress_slot i a : 0 <= i < slots ->
  slot_start p i <= a < slot_start p i + sSlotSize p + PAGE_SIZE -> GetSlotIdOfAddress gOpts p a = Ok i.
Proof.
  intros Hi Ha. pose proof (slot_bounds i Hi). pose proof PAGE_SIZE_pos. pose proof (lay_slot p L).
  pose proof (lay_count p L). pose proof (lay_fits p L). pose proof (lay_start p L).
  pose proof (slot_bounds 0 ltac:(lia)). pose proof pow2_word_64.
  unfold GetSlotIdOfAddress. rewrite (proj2 (Z.ltb_ge _ _)), (proj2 (Z.leb_gt _ _)) by lia. cbn [orb].
  rewrite GetGuardedPageStart_run by lia. cbn [mbind result_bind].
  assert (slot_start p 0 + (sSlotSize p + PAGE_SIZE) * i = slot_start p i) as E by (unfold slot_start; lia).
  rewrite (proj2 (Z.ltb_ge _ _)) by nia.
  rewrite (lay_guard p L), (uword_small (_ + _)) by lia. rewrite (proj2 (Z.eqb_neq _ _)) by lia.
  rewrite (wrap_small 64) by nia.
  replace ((a - slot_start p 0) / (sSlotSize p + PAGE_SIZE)) with i.
  - unfold swrap. rewrite Z.mod_small by lia. f_equal. lia.
  - apply Z.div_unique with (a - slot_start p i); nia.
Qed.

Lemma GetSlotIdOfAddress_first a : sSlotAreaStart p <= a < slot_start p 0 -> GetSlotIdOfAddress gOpts p a = Ok 0.
Proof.
  intros Ha. pose proof (lay_count p L). pose proof (slot_bounds 0 ltac:(lia)). pose proof (lay_slot p L).
  pose proof PAGE_SIZE_pos. unfold GetSlotIdOfAddress.
  rewrite (proj2 (Z.ltb_ge _ _)), (proj2 (Z.leb_gt _ _)) by lia. cbn [orb].
  rewrite GetGuardedPageStart_run by lia. cbn [mbind result_bind]. by rewrite (proj2 (Z.ltb_lt _ _)) by lia.
Qed.

Lemma GetSlotIdOfAddress_outside a : ~ in_area p a -> GetSlotIdOfAddress gOpts p a = Ok SLOT_NONE.
Proof.
  intros Ha. unfold GetSlotIdOfAddress, in_area in *.
  destruct (Z.ltb_spec a (sSlotAreaStart p)), (Z.leb_spec (sSlotAreaEnd p) a); try done; lia.
Qed.
End Layout.

(** ** Blocks *)

Lemma page_count_least n k : n <= k * PAGE_SIZE -> page_count n <= k.
Proof. intros H. pose proof PAGE_SIZE_pos. pose proof (page_count_lt n). nia. Qed.

(** A block at offset [off] of its slot lies in the pages opened for it, and these in the slot, if it
    starts on a page or ends in the last page that it needs. *)
Lemma block_ok_offset p i off size : layout p -> 0 <= off -> 0 <= size -> off + size <= sSlotSize p ->
  off mod PAGE_SIZE = 0 \/ sSlotSize p - off <= page_count size * PAGE_SIZE ->
  block_ok p i (slot_start p i + off) size.
Proof.
  intros L Ho Hs Hle Hc. pose proof PAGE_SIZE_pos as HP.
  pose proof (page_of_start p L i) as Hb. pose proof (slot_size_pages p L) as HS.
  pose proof (page_count_ge size). pose proof (page_count_lt size).
  assert (page_of (slot_start p i + off) = page_of (slot_start p i) + off / PAGE_SIZE) as Ep.
  { unfold page_of in *. rewrite <- Hb at 1. rewrite Z.div_add_l by lia. done. }
  assert (PAGE_SIZE <> 0) as HP0 by lia.
  pose proof (Z.div_mod off PAGE_SIZE HP0). pose proof (Z.mod_pos_bound off PAGE_SIZE HP).
  set (qo := off / PAGE_SIZE) in *. set (c := page_count size) in *. set (sp := page_count (sSlotSize p)) in *.
  set (b := page_of (slot_start p i)) in *.
  assert (off + size <= (qo + c) * PAGE_SIZE /\ qo + c <= sp) as [? ?].
  { assert (forall x y, x * PAGE_SIZE < y * PAGE_SIZE + PAGE_SIZE -> x <= y) as Hdiv by (intros; nia).
    split; [|apply Hdiv; nia]. destruct Hc as [Hc|Hc]; [nia|].
    assert (sp <= qo + c) by (apply Hdiv; nia). nia. }
  constructor; rewrite ?Ep; try lia; fold c; nia.
Qed.

(** Alignments that [AlignedAllocate] lets through. *)
Definition alignment_ok (p : page_pool) (alignment : Z) : Prop :=
  alignment <= sSlotSize p /\ (alignment = 0 \/ exists k, 0 <= k < word_bits /\ alignment = 2 ^ k).

(** Where a block is placed: at the start of its slot, or as close to its end as the alignment allows. *)
Definition block_place (p : page_pool) (size alignment : Z) (side : GuardSide) (off : Z) : Prop :=
  match side with
  | ON_LEFT => off = 0
  | ON_RIGHT =>
      if perfectRightSideGuard gOpts then off = sSlotSize p - size else
      if decide (alignment = 0) then off = 0 else
      off mod alignment = 0 /\ sSlotSize p - alignment < off + size <= sSlotSize p
  end.

(** An offset of type [off_t] is added to an address modulo the word. *)
Lemma uword_add_sword a z : uword (u64 (a + sword z)) = uword (a + z).
Proof.
  rewrite uword_u64. unfold uword, wrap, sword, swrap. pose proof word_bits_ge.
  assert (2 ^ word_bits <> 0) by (apply Z.pow_nonzero; lia).
  rewrite Z.add_sub_assoc, <- Zminus_mod_idemp_l, Zplus_mod_idemp_r, Zminus_mod_idemp_l. f_equal. lia.
Qed.

(** An alignment divides the page or is a multiple of it. *)
Lemma aligned_offset p size k off : layout p -> 0 <= k -> 0 <= size -> 0 <= off ->
  off mod 2 ^ k = 0 -> sSlotSize p - 2 ^ k < off + size <= sSlotSize p ->
  off mod PAGE_SIZE = 0 \/ sSlotSize p - off <= page_count size * PAGE_SIZE.
Proof.
  intros L Hk Hs Ho Hoff Hb. pose proof PAGE_SIZE_pos. pose proof page_bits_range.
  assert (0 < 2 ^ k) by (apply Z.pow_pos_nonneg; lia).
  apply Z.mod_divide in Hoff; [|lia]. destruct (decide (page_bits <= k)) as [Hle|Hgt].
  - left. apply Z.mod_divide; [lia|]. etrans; [|exact Hoff]. unfold PAGE_SIZE.
    exists (2 ^ (k - page_bits)). rewrite <- Z.pow_add_r by lia. f_equal. lia.
  - right. assert ((2 ^ k | PAGE_SIZE)) as Hd.
    { unfold PAGE_SIZE. exists (2 ^ (page_bits - k)). rewrite <- Z.pow_add_r by lia. f_equal. lia. }
    assert ((2 ^ k | sSlotSize p)) as Hd2.
    { etrans; [exact Hd|]. apply Z.mod_divide; [lia|]. apply (lay_pages p L). }
    destruct Hd as [u Hu], Hoff as [v Hv], Hd2 as [w Hw].
    pose proof (page_count_ge size) as Hc. rewrite Hu, Hv, Hw in *. set (c := page_count size) in *.
    assert (w - v < c * u + 1); nia.
Qed.

(** The address that [BorrowSlot] computes. *)
Lemma block_address p i size alignment side : layout p -> 0 <= i < slots -> 0 <= size <= sSlotSize p ->
  alignment_ok p alignment ->
  exists off, block_place p size alignment side off /\
    uword (u64 (slot_start p i + block_offset gOpts (sSlotSize p) size alignment side)) = slot_start p i + off /\
    block_ok p i (slot_start p i + off) size.
Proof.
  intros L Hi Hs [Ha Hal]. pose proof (slot_bounds p L i Hi). pose proof (lay_fits p L). pose proof (lay_start p L).
  pose proof PAGE_SIZE_pos. pose proof (page_count_ge size).
  assert (forall off, 0 <= off -> off + size <= sSlotSize p -> uword (slot_start p i + off) = slot_start p i + off) as Hu.
  { intros off ? ?. apply uword_small. lia. }
  assert (exists off, block_place p size alignment side off /\ 0 <= off /\ off + size <= sSlotSize p /\
    (off mod PAGE_SIZE = 0 \/ sSlotSize p - off <= page_count size * PAGE_SIZE) /\
    uword (u64 (slot_start p i + block_offset gOpts (sSlotSize p) size alignment side)) = uword (slot_start p i + off))
    as (off & Hp & Ho1 & Ho2 & Ho3 & E).
  2:{ exists off. split; [done|]. split; [rewrite E; by apply Hu|]. apply block_ok_offset; (done || lia). }
  unfold block_place, block_offset. destruct side.
  { exists 0. rewrite uword_u64. repeat split; try lia. left. apply Z.mod_0_l. lia. }
  rewrite (uword_small (_ - _)) by lia. rewrite uword_add_sword. destruct (perfectRightSideGuard gOpts).
  { exists (sSlotSize p - size). repeat split; lia. }
  destruct (decide (alignment = 0)) as [-> |Hn].
  { exists 0. rewrite AlignDownTo_0. repeat split; try lia. left. apply Z.mod_0_l. lia. }
  destruct Hal as [?|(k & Hk & ->)]; [done|]. assert (0 < 2 ^ k) by (apply Z.pow_pos_nonneg; lia).
  rewrite AlignDownTo_pow by lia. set (x := sSlotSize p - size).
  pose proof (Z.mul_div_le x (2 ^ k) ltac:(lia)). pose proof (Z.mul_succ_div_gt x (2 ^ k) ltac:(lia)).
  exists (x / 2 ^ k * 2 ^ k). assert (0 <= x / 2 ^ k) by (apply Z.div_pos; lia).
  assert ((x / 2 ^ k * 2 ^ k) mod 2 ^ k = 0) by (apply Z.mod_mul; lia).
  repeat split; try lia; try nia. apply (aligned_offset p size k); try done; nia.
Qed.

(** ** Steps *)

Definition set_space (m : machine) (s : guard) : guard := set_proc (MkProcess m (errno (proc s))) s.

Lemma wp_in_process {A} (c : M process A) (Q : A -> guard -> Prop) s :
  wp c (fun a pr => Q a (set_proc pr s)) (proc s) -> wp (in_process c) Q s.
Proof. unfold wp, in_process, lift. by destruct (c (proc s)) as [[] pr]. Qed.

Lemma wp_in_space {A} (c : M machine A) (Q : A -> guard -> Prop) s :
  wp c (fun a m => Q a (set_space m s)) (space (proc s)) -> wp (in_space c) Q s.
Proof. intros H. apply wp_in_process. unfold wp, lift in *. by destruct (c (space (proc s))) as [[] m]. Qed.

Lemma wp_array_get {A} (l : list A) i x (Q : A -> guard -> Prop) s :
  0 <= i -> l !! Z.to_nat i = Some x -> Q x s -> wp (array_get l i) Q s.
Proof. intros Hi Hx HQ. unfold wp, array_get, raise. rewrite (proj2 (Z.ltb_ge _ _)) by lia. by rewrite Hx. Qed.

Lemma wp_rnd (Q : Z -> guard -> Prop) s :
  in_word 32 (sLastRndValue (self s)) ->
  (forall r, in_word 32 r -> Q r (on_self (set_sLastRndValue r) s)) -> wp GenerateUnsignedInt32 Q s.
Proof. intros Hr HQ. apply HQ. by apply xorshift_range. Qed.

Lemma meta_at_run p i m : 0 <= i -> sMetaArea p !! Z.to_nat i = Some m -> meta_at p i = Ok m.
Proof. intros Hi Hm. unfold meta_at. rewrite (proj2 (Z.ltb_ge _ _)) by lia. by rewrite Hm. Qed.

Lemma wp_update_meta i f m (Q : unit -> guard -> Prop) s :
  0 <= i -> sMetaArea (pool s) !! Z.to_nat i = Some m ->
  Q tt (on_pool (fun p => set_metas (<[Z.to_nat i := f m]> (sMetaArea p)) p) s) -> wp (update_meta i f) Q s.
Proof.
  intros Hi Hm HQ. unfold update_meta. apply wp_bind. eapply wp_reads; [by apply meta_at_run|].
  by apply wp_modify.
Qed.

Lemma get_start_wp i (Q : Z -> guard -> Prop) s : layout (pool s) -> 0 <= i < slots ->
  Q (slot_start (pool s) i) s -> wp (reads (fun s => GetGuardedPageStart gOpts (pool s) i)) Q s.
Proof. intros L Hi HQ. eapply wp_reads; [by apply GetGuardedPageStart_run|done]. Qed.

(** ** Taking a slot *)

Lemma swap_remove_perm (l : list Z) k n r x : l !! k = Some r -> l !! n = Some x -> (k <= n)%nat ->
  take (S n) l ≡ₚ r :: take n (<[k := x]> l).
Proof.
  intros Hk Hn Hle. rewrite (take_S_r _ _ x) by done.
  destruct (decide (k = n)) as [-> |Hne].
  { rewrite take_insert_ge by lia. assert (r = x) as -> by naive_solver. symmetry. apply Permutation_cons_append. }
  rewrite take_insert_lt by lia.
  assert (take n l !! k = Some r) as Hk' by (rewrite lookup_take_lt by lia; done).
  rewrite <- (take_drop_middle (take n l) k r) at 1 by done.
  rewrite insert_take_drop by (eapply lookup_lt_Some; done).
  rewrite <- !app_assoc. cbn [app]. rewrite <- !Permutation_middle. constructor.
  by rewrite app_nil_r.
Qed.

(** The thread-local variables after an operation that draws random numbers. *)
Definition same_calls (t t' : thread_vars) : Prop :=
  isCallingAlloc t' = isCallingAlloc t /\ isCallingFree t' = isCallingFree t /\
  gLastIssueType t' = gLastIssueType t /\ in_word 32 (sLastRndValue t').

(** The tables of the pool change, the area does not. *)
Definition same_area (p p' : page_pool) : Prop :=
  sGuardPageSize p' = sGuardPageSize p /\ sSlotSize p' = sSlotSize p /\ sSlotAreaStart p' = sSlotAreaStart p /\
  sSlotAreaEnd p' = sSlotAreaEnd p.

Lemma same_area_layout p p' : same_area p p' -> layout p -> layout p'.
Proof.
  intros (E1 & E2 & E3 & E4) []. assert (forall i, slot_start p' i = slot_start p i) as E.
  { intros i. unfold slot_start. by rewrite E2, E3. }
  constructor; rewrite ?E, ?E1, ?E2, ?E3, ?E4; done.
Qed.

(** Slot [i] is off the free list and not yet borrowed. *)
Record taken (p p' : page_pool) (i : Z) : Prop := MkTaken {
  tk_area : same_area p p';
  tk_metas : sMetaArea p' = sMetaArea p;
  tk_slots : length (sFreeSlots p') = length (sFreeSlots p);
  tk_count : 0 <= sFreeSlotCount p' <= slots;
  tk_lent : sLentPageCount p <= sLentPageCount p' <= slots;
  tk_range : 0 <= i < sLentPageCount p';
  tk_fresh : ~ borrowed p i;
  tk_nodup : NoDup (free_list p');
  tk_free : forall j, j ∈ free_list p' <-> (0 <= j < sLentPageCount p' /\ ~ borrowed p j) /\ j <> i
}.

Lemma swrap_small w z : 0 < w -> 0 <= z < 2 ^ (w - 1) -> swrap w z = z.
Proof.
  intros Hw Hz. unfold swrap.
  assert (2 ^ w = 2 * 2 ^ (w - 1)) as E by (rewrite <- Z.pow_succ_r by lia; f_equal; lia).
  rewrite Z.mod_small by lia. lia.
Qed.

Lemma slots_word p : layout p -> slots < 2 ^ word_bits.
Proof.
  intros L. pose proof (lay_count p L). pose proof word_bits_ge.
  assert (2 ^ 31 < 2 ^ word_bits) by (apply Z.pow_lt_mono_r; lia). lia.
Qed.

Lemma taken_lent p : pool_ok p -> sLentPageCount p < slots ->
  taken p (set_lent (sLentPageCount p + 1) p) (sLentPageCount p).
Proof.
  intros Hp Hlt. pose proof (ok_lent p Hp). assert (~ borrowed p (sLentPageCount p)) as Hn.
  { intros Hb. apply (ok_borrowed p Hp) in Hb. lia. }
  constructor; cbn; try done; try lia; [apply (ok_count p Hp)|apply (ok_nodup p Hp)|].
  intros j. change (free_list (set_lent _ _)) with (free_list p). rewrite (ok_free p Hp). split.
  - intros [? ?]. split; [split; [lia|done]|lia].
  - intros [[? ?] ?]. split; [lia|done].
Qed.

Lemma taken_free p k r x : pool_ok p -> 0 < sFreeSlotCount p -> 0 <= k < sFreeSlotCount p ->
  sFreeSlots p !! Z.to_nat k = Some r -> sFreeSlots p !! Z.to_nat (sFreeSlotCount p - 1) = Some x ->
  taken p (set_free (<[Z.to_nat k := x]> (sFreeSlots p)) (sFreeSlotCount p - 1) p) r.
Proof.
  intros Hp Hc Hk Hr Hx. pose proof (ok_count p Hp). pose proof (ok_lent p Hp).
  assert (free_list p ≡ₚ r :: free_list (set_free (<[Z.to_nat k := x]> (sFreeSlots p)) (sFreeSlotCount p - 1) p)) as Hperm.
  { unfold free_list. cbn. replace (Z.to_nat (sFreeSlotCount p)) with (S (Z.to_nat (sFreeSlotCount p - 1))) by lia.
    apply swap_remove_perm; [done|done|lia]. }
  pose proof (ok_nodup p Hp) as Hnd. rewrite Hperm in Hnd. apply NoDup_cons in Hnd as [Hni Hnd].
  assert (r ∈ free_list p) as Hin by (rewrite Hperm; apply elem_of_cons; by left).
  apply (ok_free p Hp) in Hin as [Hr0 Hr1].
  constructor; try done; try (cbn; lia).
  - cbn. by rewrite length_insert.
  - intros j. change (sLentPageCount (set_free _ _ p)) with (sLentPageCount p).
    rewrite <- (ok_free p Hp), Hperm, elem_of_cons. split.
    + intros Hj. split; [by right|]. by intros ->.
    + intros [[?|?] ?]; done.
Qed.

(** Every slot holds a block. *)
Definition pool_full (p : page_pool) : Prop := sLentPageCount p = slots /\ sFreeSlotCount p = 0.

Lemma pick_slot_wp (Q : Z -> guard -> Prop) s :
  pool_ok (pool s) -> in_word 32 (sLastRndValue (self s)) ->
  (pool_full (pool s) -> Q SLOT_NONE s) ->
  (forall i p' t', taken (pool s) p' i -> same_calls (self s) t' -> Q i (set_pool p' (set_self t' s))) ->
  wp (pick_slot gOpts) Q s.
Proof.
  intros Hp Hr H0 HQ. pose proof (ok_layout _ Hp) as L. pose proof (ok_lent _ Hp). pose proof (ok_count _ Hp).
  pose proof (slots_word _ L). pose proof (lay_count _ L). pose proof (ok_slots _ Hp).
  unfold pick_slot. fold slots. do 2 wp_step. wp_step.
  { apply Z.ltb_lt in E. do 2 wp_step. wp_step. rewrite swrap_small, uword_small by lia.
    assert (same_calls (self s) (self s)) as Hc by done.
    specialize (HQ _ _ _ (taken_lent _ Hp E) Hc). by destruct s. }
  wp_step; [|wp_step; apply H0; apply Z.ltb_ge in E, E0; split; lia]. apply Z.ltb_lt in E0. wp_step. apply wp_rnd; [done|]. intros r Hr'. unfold in_word in Hr'.
  pose proof (Z.mod_pos_bound r (sFreeSlotCount (pool s)) E0) as Hm.
  rewrite swrap_small by lia. rewrite uword_small by lia.
  destruct (lookup_lt_is_Some_2 (sFreeSlots (pool s)) (Z.to_nat (r mod sFreeSlotCount (pool s)))) as [i Hi]; [lia|].
  destruct (lookup_lt_is_Some_2 (sFreeSlots (pool s)) (Z.to_nat (sFreeSlotCount (pool s) - 1))) as [x Hx]; [lia|].
  wp_step. eapply wp_array_get; [lia|done|]. wp_step. eapply wp_array_get; [lia|done|].
  do 2 wp_step. wp_step.
  assert (same_calls (self s) (set_sLastRndValue r (self s))) as Hc by (repeat split; cbn; unfold in_word; lia).
  specialize (HQ _ _ _ (taken_free _ _ _ _ Hp E0 Hm Hi Hx) Hc). by destruct s.
Qed.

(** ** Lending and taking back *)

Lemma live_update p p' i m : sMetaArea p' = <[Z.to_nat i := m]> (sMetaArea p) ->
  0 <= i < Z.of_nat (length (sMetaArea p)) -> forall j b n,
  live p' j b n <->
  (j = i /\ isBorrowed m = true /\ allocatedStart m = b /\ allocatedSize m = n) \/ (j <> i /\ live p j b n).
Proof.
  intros E Hi j b n. unfold live. rewrite E. destruct (decide (j = i)) as [-> |Hne].
  - rewrite list_lookup_insert_eq by lia. naive_solver.
  - split.
    + intros (Hj & m' & Hm & H). right. rewrite list_lookup_insert_ne in Hm by lia. eauto.
    + intros [[? _]|(_ & Hj & m' & Hm & H)]; [done|]. split; [done|]. exists m'.
      rewrite list_lookup_insert_ne by lia. done.
Qed.

(** The pages opened for a block lie in its slot. *)
Lemma opened_in_slot p i a n q : layout p -> block_ok p i a n -> opened a n q ->
  slot_start p i <= q * PAGE_SIZE /\ (q + 1) * PAGE_SIZE <= slot_start p i + sSlotSize p.
Proof.
  intros L [] [Hq1 Hq2]. pose proof PAGE_SIZE_pos. pose proof (page_of_start p L i).
  assert (page_of (slot_start p i) <= page_of a) by (unfold page_of; apply Z.div_le_mono; lia). nia.
Qed.

(** Blocks of different slots share no page. *)
Lemma opened_disjoint p i j a n b k q : layout p -> block_ok p i a n -> block_ok p j b k -> i <> j ->
  opened a n q -> opened b k q -> False.
Proof.
  intros L Hi Hj Hne Ha Hb. pose proof PAGE_SIZE_pos.
  destruct (opened_in_slot _ _ _ _ _ L Hi Ha), (opened_in_slot _ _ _ _ _ L Hj Hb).
  destruct (Z.lt_trichotomy i j) as [Hlt|[?|Hlt]]; [|done|]; pose proof (slot_start_mono p L _ _ Hlt); lia.
Qed.

Lemma live_range p i a n : pool_ok p -> live p i a n -> 0 <= i < slots.
Proof.
  intros Hp Hl. pose proof (ok_lent p Hp). pose proof (ok_borrowed p Hp i ltac:(by exists a, n)).
  destruct Hl as [? _]. lia.
Qed.

Lemma page_of_mult q : page_of (q * PAGE_SIZE) = q.
Proof. pose proof PAGE_SIZE_pos. unfold page_of. apply Z.div_mul. lia. Qed.

(** [x] lies on a page that is open for a block. *)
Definition on_block_page (p : page_pool) (x : Z) : Prop := exists i a n, live p i a n /\ opened a n (page_of x).

Lemma area_page p x : layout p -> in_area p x -> in_area p (page_of x * PAGE_SIZE).
Proof.
  intros L [Hl Hu]. pose proof PAGE_SIZE_pos as HP. pose proof (lay_start_page _ L) as Hs.
  apply Z.mod_divide in Hs as [k Hk]; [|lia]. unfold in_area, page_of.
  pose proof (Z.mul_div_le x PAGE_SIZE HP).
  assert (k <= x / PAGE_SIZE) by (apply Z.div_le_lower_bound; lia). nia.
Qed.

(** An open page around [x] belongs to a block of the slot around [x]. *)
Lemma opened_slot p i x j a n : pool_ok p -> slot_start p i <= x < slot_start p i + sSlotSize p + PAGE_SIZE ->
  live p j a n -> opened a n (page_of x) -> j = i /\ x < slot_start p i + sSlotSize p.
Proof.
  intros Hp Hx Hl Ho. pose proof (ok_layout _ Hp) as L. pose proof PAGE_SIZE_pos as HP.
  destruct (opened_in_slot _ _ _ _ _ L (ok_block _ Hp _ _ _ Hl) Ho) as [Hlo Hhi].
  pose proof (Z.mul_div_le x PAGE_SIZE HP). pose proof (Z.mul_succ_div_gt x PAGE_SIZE HP).
  assert (j = i) as ->; [|split; [done|unfold page_of in *; lia]].
  destruct (Z.lt_trichotomy i j) as [Hlt|[?|Hlt]]; [|done|]; pose proof (slot_start_mono p L _ _ Hlt);
    unfold page_of in *; lia.
Qed.

Lemma opened_first p x j a n : pool_ok p -> live p j a n -> opened a n (page_of x) -> slot_start p 0 <= x.
Proof.
  intros Hp Hl Ho. pose proof (ok_layout _ Hp) as L. pose proof PAGE_SIZE_pos as HP.
  destruct (opened_in_slot _ _ _ _ _ L (ok_block _ Hp _ _ _ Hl) Ho) as [Hlo _].
  pose proof (Z.mul_div_le x PAGE_SIZE HP). pose proof (lay_slot _ L).
  assert (slot_start p 0 <= slot_start p j) by (destruct Hl as [? _]; unfold slot_start; nia).
  unfold page_of in *. lia.
Qed.

Lemma on_block_page_dec p x : pool_ok p -> in_area p x -> on_block_page p x \/ ~ on_block_page p x.
Proof.
  intros Hp Hx. pose proof (ok_layout _ Hp) as L. destruct (area_cases _ L _ Hx) as [Hlt|(i & Hi & Hxi)].
  { right. intros (i & a & n & Hl & Ho). pose proof (opened_first _ _ _ _ _ Hp Hl Ho). lia. }
  pose proof (ok_metas _ Hp).
  destruct (lookup_lt_is_Some_2 (sMetaArea p) (Z.to_nat i)) as [m Hm]; [lia|].
  destruct (decide (isBorrowed m = true /\ (page_of (allocatedStart m) <= page_of x <
    page_of (allocatedStart m) + page_count (allocatedSize m)))) as [[Hb Ho]|Hno].
  { left. exists i, (allocatedStart m), (allocatedSize m). split; [|done]. split; [lia|]. by exists m. }
  right. intros (j & a & n & Hl & Ho). destruct (opened_slot _ _ _ _ _ _ Hp Hxi Hl Ho) as [-> _].
  destruct Hl as (_ & m' & Hm' & Hb & <- & <-). simplify_eq. by apply Hno.
Qed.

(** Every page of the area is mapped. *)
Lemma area_mapped p t q : pool_ok p -> prot_ok p t -> in_area p (q * PAGE_SIZE) -> is_Some (t !! q).
Proof.
  intros Hp Ht Hq. destruct (on_block_page_dec _ _ Hp Hq) as [(i & a & n & Hl & Ho)|Hno].
  - rewrite page_of_mult in Ho. rewrite (prot_open _ _ Ht _ _ _ _ Hl Ho). eauto.
  - destruct (prot_closed _ _ Ht q Hq) as (x & -> & _); [|eauto].
    intros i a n Hl Ho. apply Hno. exists i, a, n. by rewrite page_of_mult.
Qed.

Lemma block_ok_area p p' i a n : same_area p p' -> block_ok p i a n -> block_ok p' i a n.
Proof.
  intros (E1 & E2 & E3 & E4) []. constructor; unfold slot_start in *; rewrite ?E2, ?E3; done.
Qed.

Lemma pool_ok_lend p p' i m : pool_ok p -> taken p p' i -> isBorrowed m = true ->
  block_ok p i (allocatedStart m) (allocatedSize m) ->
  pool_ok (set_metas (<[Z.to_nat i := m]> (sMetaArea p')) p').
Proof.
  intros Hp Ht Hm Hb. pose proof (ok_metas p Hp). pose proof (tk_range _ _ _ Ht). pose proof (tk_lent _ _ _ Ht).
  set (p2 := set_metas _ _). assert (same_area p p2) as Ha by apply (tk_area _ _ _ Ht).
  assert (sMetaArea p2 = <[Z.to_nat i := m]> (sMetaArea p)) as Em by (cbn; by rewrite (tk_metas _ _ _ Ht)).
  pose proof (live_update p p2 i m Em ltac:(lia)) as Hl.
  assert (forall j, borrowed p2 j <-> j = i \/ borrowed p j) as Hbo.
  { intros j. unfold borrowed. setoid_rewrite Hl. destruct (decide (j = i)) as [-> |]; naive_solver. }
  pose proof (ok_lent p Hp). constructor.
  - by apply (same_area_layout p), (ok_layout p Hp).
  - rewrite Em, length_insert. done.
  - cbn. rewrite (tk_slots _ _ _ Ht). apply (ok_slots p Hp).
  - apply (tk_count _ _ _ Ht).
  - cbn. lia.
  - apply (tk_nodup _ _ _ Ht).
  - intros j. change (free_list p2) with (free_list p'). rewrite (tk_free _ _ _ Ht), Hbo. cbn. naive_solver.
  - intros j. rewrite Hbo. cbn. intros [-> |Hj]; [lia|]. apply (ok_borrowed p Hp) in Hj. lia.
  - intros j b n. rewrite Hl. intros [(-> & _ & <- & <-)|(_ & Hj)]; apply (block_ok_area p); try done.
    by apply (ok_block p Hp).
Qed.

Lemma in_slot_area p i a : layout p -> 0 <= i < slots -> slot_start p i <= a < slot_start p i + sSlotSize p + PAGE_SIZE ->
  in_area p a.
Proof. intros L Hi Ha. pose proof (slot_bounds p L i Hi). pose proof PAGE_SIZE_pos. unfold in_area. lia. Qed.

Lemma prot_ok_lend p p' i a n t : pool_ok p -> prot_ok p t -> same_area p p' -> 0 <= i < slots -> ~ borrowed p i ->
  block_ok p i a n ->
  (forall j b k, live p' j b k <-> (j = i /\ b = a /\ k = n) \/ (j <> i /\ live p j b k)) ->
  prot_ok p' (set_prot t (page_of a) (Z.to_nat (page_count n)) (Z.lor PROT_READ PROT_WRITE)).
Proof.
  intros Hp Ht Ha Hi Hn Hb Hl. pose proof (ok_layout p Hp) as L. pose proof PAGE_SIZE_pos.
  pose proof (page_count_nonneg n (block_size _ _ _ _ Hb)). constructor.
  - intros j b k q Hj Hq. rewrite set_prot_lookup. apply Hl in Hj as [(-> & -> & ->)|[Hne Hj]].
    + rewrite decide_True by (unfold opened in Hq; lia).
      destruct (opened_in_slot _ _ _ _ _ L Hb Hq).
      destruct (prot_closed p t Ht q) as (x & -> & _); [|..|done].
      * apply (in_slot_area p i); [done|done|lia].
      * intros j' b' k' Hj' Hq'. apply (opened_disjoint p i j' a n b' k' q); try done; [by apply (ok_block p Hp)|].
        intros <-. apply Hn. by exists b', k'.
    + rewrite decide_False; [by apply (prot_open p t Ht j b k)|]. intros Hq'.
      apply (opened_disjoint p i j a n b k q); try done; [by apply (ok_block p Hp)|]. unfold opened. lia.
  - intros q Hq Hcl. rewrite set_prot_lookup. rewrite decide_False.
    + apply (prot_closed p t Ht). { destruct Ha as (_ & _ & E3 & E4). unfold in_area in *. by rewrite E3, E4 in Hq. }
      intros j b k Hj. apply (Hcl j). apply Hl. right. split; [|done]. intros ->. apply Hn. by exists b, k.
    + intros Hq'. apply (Hcl i a n); [apply Hl; by left|]. unfold opened. lia.
Qed.

(** Slot [i], which holds a block, goes to the end of the free list. *)
Definition give_back (p : page_pool) (i : Z) (m : PageMeta) : page_pool :=
  set_free (<[Z.to_nat (sFreeSlotCount p) := i]> (sFreeSlots p)) (sFreeSlotCount p + 1)
    (set_metas (<[Z.to_nat i := m]> (sMetaArea p)) p).

(** There is room on the free list: it holds slots that are not borrowed, each once. *)
Lemma free_count_lt p i : pool_ok p -> borrowed p i -> sFreeSlotCount p < slots.
Proof.
  intros Hp Hb. pose proof (ok_count p Hp). pose proof (ok_slots p Hp). pose proof (ok_borrowed p Hp i Hb).
  pose proof (ok_lent p Hp). destruct (decide (sFreeSlotCount p = slots)) as [E|]; [exfalso|lia].
  assert (i :: free_list p ⊆+ seqZ 0 slots) as Hsub.
  { apply NoDup_submseteq.
    - apply NoDup_cons. split; [|apply (ok_nodup p Hp)]. intros Hi. apply (ok_free p Hp) in Hi as [_ Hi]. done.
    - intros j Hj. apply elem_of_seqZ. apply elem_of_cons in Hj as [-> |Hj].
      + destruct Hb as (a & n & Hi & _). lia.
      + apply (ok_free p Hp) in Hj. lia. }
  apply submseteq_length in Hsub. rewrite length_seqZ in Hsub. cbn [length] in Hsub.
  unfold free_list in Hsub. rewrite length_take in Hsub. lia.
Qed.

Lemma take_insert_last {A} (l : list A) k x : (k < length l)%nat -> take (S k) (<[k := x]> l) = take k l ++ [x].
Proof.
  intros Hk. rewrite (take_S_r _ _ x) by (by rewrite list_lookup_insert_eq by lia).
  by rewrite take_insert_ge by lia.
Qed.

Lemma pool_ok_give p i m : pool_ok p -> borrowed p i -> isBorrowed m = false -> pool_ok (give_back p i m).
Proof.
  intros Hp Hb Hm. pose proof (ok_count p Hp). pose proof (ok_slots p Hp). pose proof (ok_borrowed p Hp i Hb).
  pose proof (ok_lent p Hp). pose proof (free_count_lt p i Hp Hb). pose proof (ok_metas p Hp).
  assert (0 <= i) as Hi by (by destruct Hb as (? & ? & ? & _)).
  set (p2 := give_back p i m). assert (same_area p p2) as Ha by done.
  pose proof (live_update p p2 i m eq_refl ltac:(lia)) as Hl.
  assert (forall j, borrowed p2 j <-> j <> i /\ borrowed p j) as Hbo.
  { intros j. unfold borrowed. setoid_rewrite Hl. naive_solver congruence. }
  assert (free_list p2 = free_list p ++ [i]) as Hf.
  { unfold free_list. cbn. replace (Z.to_nat (sFreeSlotCount p + 1)) with (S (Z.to_nat (sFreeSlotCount p))) by lia.
    apply take_insert_last. lia. }
  constructor.
  - by apply (same_area_layout p), (ok_layout p Hp).
  - cbn. rewrite length_insert. done.
  - cbn. rewrite length_insert. done.
  - cbn. lia.
  - cbn. lia.
  - rewrite Hf. apply NoDup_app. split_and!; [apply (ok_nodup p Hp)| |apply NoDup_singleton].
    intros j Hj Hj'. apply list_elem_of_singleton in Hj' as ->. apply (ok_free p Hp) in Hj. naive_solver.
  - intros j. rewrite Hf, elem_of_app, list_elem_of_singleton, (ok_free p Hp), Hbo. cbn.
    destruct (decide (j = i)) as [-> |]; naive_solver lia.
  - intros j. rewrite Hbo. cbn. intros [_ Hj]. by apply (ok_borrowed p Hp).
  - intros j b n. rewrite Hl. intros [(-> & Hf' & _)|(_ & Hj)]; [congruence|].
    by apply (block_ok_area p), (ok_block p Hp).
Qed.

Lemma prot_ok_give p i m t : pool_ok p -> prot_ok p t -> borrowed p i -> isBorrowed m = false ->
  prot_ok (give_back p i m)
    (set_prot (set_prot t (page_of (slot_start p i)) (Z.to_nat (page_count (sSlotSize p))) (Z.lor PROT_READ PROT_WRITE))
       (page_of (slot_start p i)) (Z.to_nat (page_count (sSlotSize p))) (PROT_NO_WRITE gOpts)).
Proof.
  intros Hp Ht (a & n & Hb) Hm. pose proof (ok_layout p Hp) as L. pose proof PAGE_SIZE_pos.
  pose proof (ok_metas p Hp). pose proof (live_range p i a n Hp Hb) as Hi.
  pose proof (live_update p (give_back p i m) i m eq_refl ltac:(lia)) as Hl.
  pose proof (page_of_start p L i) as Hs. pose proof (slot_size_pages p L) as HS.
  pose proof (page_count_nonneg _ (lay_slot p L)). set (pg := page_of (slot_start p i)) in *.
  set (c := page_count (sSlotSize p)) in *. constructor.
  - intros j b k q Hj Hq. apply Hl in Hj as [(_ & ? & _)|[Hne Hj]]; [congruence|].
    destruct (opened_in_slot _ _ _ _ _ L (ok_block p Hp _ _ _ Hj) Hq).
    rewrite !set_prot_lookup, !decide_False; [by apply (prot_open p t Ht j b k)|..];
      intros Hq'; (destruct (Z.lt_trichotomy i j) as [Hlt|[?|Hlt]]; [|done|]; pose proof (slot_start_mono p L _ _ Hlt); nia).
  - intros q Hq Hcl. rewrite !set_prot_lookup. destruct (decide (pg <= q < pg + Z.of_nat (Z.to_nat c))) as [Hin|Hout].
    + assert (is_Some (t !! q)) as [x ->].
      { destruct (decide (page_of a <= q < page_of a + page_count n)) as [Ho|Hno].
        { rewrite (prot_open p t Ht i a n q); [eauto|done|done]. }
        destruct (prot_closed p t Ht q) as (x & -> & _); [done|..|eauto].
        intros j b k Hj Ho. destruct (decide (j = i)) as [-> |Hne].
        { destruct (live_functional _ _ _ _ _ _ Hb Hj) as [-> ->]. done. }
        apply (Hcl j b k); [apply Hl; by right|done]. }
      exists (PROT_NO_WRITE gOpts). split; [done|]. unfold PROT_NO_WRITE, closed_prot.
      destruct (ignoreOverlappedReading gOpts); auto.
    + apply (prot_closed p t Ht); [done|]. intros j b k Hj Ho. destruct (decide (j = i)) as [-> |Hne].
      * destruct (opened_in_slot _ _ _ _ _ L (ok_block p Hp _ _ _ Hj) Ho). apply Hout. nia.
      * apply (Hcl j b k); [apply Hl; by right|done].
Qed.

(** ** Lending a slot *)

(** The kernel grants changes of the protection of whole pages that are mapped. *)
Definition mprotect_works : Prop := forall m a len x, a mod PAGE_SIZE = 0 -> 0 <= len ->
  (forall q, page_of a <= q < page_of a + page_count len -> is_Some (prot m !! q)) ->
  mprotect_errno m a len x = None.

Lemma wp_mprotect a n x (Q : unit -> machine -> Prop) m : mprotect_errno m a n x = None ->
  Q tt (MkMachine (mem m) (set_prot (prot m) (page_of a) (Z.to_nat (page_count n)) x)) ->
  wp (_ ← mprotect a n x; mret tt) Q m.
Proof. intros E HQ. apply wp_bind. unfold wp, mprotect. rewrite E. exact HQ. Qed.

(** Memory keeps its contents, and outside of the area its protection. *)
Definition same_memory (p : page_pool) (pr pr' : process) : Prop :=
  mem (space pr') = mem (space pr) /\ errno pr' = errno pr /\
  forall q, ~ in_area p (q * PAGE_SIZE) -> prot (space pr') !! q = prot (space pr) !! q.

(** Slot [i] was free and now holds a block of [n] bytes at [a], allocated by [c]. *)
Record lent (c : caller) (p : page_pool) (pr : process) (p' : page_pool) (pr' : process) (i a n : Z) : Prop := MkLent {
  ln_area : same_area p p';
  ln_range : 0 <= i < slots;
  ln_fresh : ~ borrowed p i;
  ln_pool : pool_ok p';
  ln_prot : prot_ok p' (prot (space pr'));
  ln_block : block_ok p i a n;
  ln_metas : exists m, sMetaArea p !! Z.to_nat i = Some m /\
    sMetaArea p' = <[Z.to_nat i := place_meta a (borrow_meta c n m)]> (sMetaArea p);
  ln_memory : same_memory p pr pr';
  ln_pages : forall q, ~ opened a n q -> prot (space pr') !! q = prot (space pr) !! q
}.

Lemma placed_meta c n a m : isBorrowed (place_meta a (borrow_meta c n m)) = true /\
  allocatedStart (place_meta a (borrow_meta c n m)) = a /\ allocatedSize (place_meta a (borrow_meta c n m)) = n.
Proof. unfold borrow_meta. by destruct (UnwindStack c (stackTraceOnBorrow m)). Qed.

Lemma lent_live c p pr p' pr' i a n : pool_ok p -> lent c p pr p' pr' i a n -> forall j b k,
  live p' j b k <-> (j = i /\ b = a /\ k = n) \/ (j <> i /\ live p j b k).
Proof.
  intros Hp Hl j b k. destruct (ln_metas _ _ _ _ _ _ _ _ Hl) as (m & Hm & E).
  pose proof (ln_range _ _ _ _ _ _ _ _ Hl). pose proof (ok_metas p Hp).
  rewrite (live_update p p' i _ E) by lia. destruct (placed_meta c n a m) as (-> & -> & ->). naive_solver.
Qed.

Lemma set_prot_outside p t pg n x q : PAGE_SIZE * pg >= sSlotAreaStart p -> PAGE_SIZE * (pg + Z.of_nat n) <= sSlotAreaEnd p ->
  ~ in_area p (q * PAGE_SIZE) -> set_prot t pg n x !! q = t !! q.
Proof.
  intros H1 H2 Hq. rewrite set_prot_lookup. pose proof PAGE_SIZE_pos.
  rewrite decide_False; [done|]. intros [? ?]. apply Hq. unfold in_area. nia.
Qed.

(** The state that [BorrowSlot] leaves. *)
Lemma lend_lent c p pr p' i a n m : pool_ok p -> prot_ok p (prot (space pr)) -> taken p p' i ->
  sMetaArea p !! Z.to_nat i = Some m -> block_ok p i a n ->
  sSlotAreaStart p <= page_of a * PAGE_SIZE -> (page_of a + page_count n) * PAGE_SIZE <= sSlotAreaEnd p ->
  lent c p pr (set_metas (<[Z.to_nat i := place_meta a (borrow_meta c n m)]> (sMetaArea p')) p')
    (MkProcess (MkMachine (mem (space pr)) (set_prot (prot (space pr)) (page_of a) (Z.to_nat (page_count n))
       (Z.lor PROT_READ PROT_WRITE))) (errno pr)) i a n.
Proof.
  intros Hp Ht Htk Hm Hb Hlo Hhi. pose proof (tk_range _ _ _ Htk). pose proof (tk_lent _ _ _ Htk).
  pose proof (ok_metas _ Hp). pose proof (page_count_nonneg n (block_size _ _ _ _ Hb)).
  destruct (placed_meta c n a m) as (Em1 & Em2 & Em3). set (m' := place_meta a (borrow_meta c n m)) in *.
  set (p2 := set_metas _ p').
  assert (sMetaArea p2 = <[Z.to_nat i := m']> (sMetaArea p)) as E by (cbn; by rewrite (tk_metas _ _ _ Htk)).
  constructor; [apply (tk_area _ _ _ Htk)|lia|apply (tk_fresh _ _ _ Htk)|..|by exists m| |].
  - apply (pool_ok_lend p); [done..|by rewrite Em2, Em3].
  - apply (prot_ok_lend p p2 i a n); try done; [apply (tk_area _ _ _ Htk)|lia|apply (tk_fresh _ _ _ Htk)|].
    intros j b k. rewrite (live_update p p2 i m' E) by lia. rewrite Em1, Em2, Em3. naive_solver.
  - done.
  - repeat split. intros q Hq. apply (set_prot_outside p); [lia|rewrite Z2Nat.id by done; lia|done].
  - intros q Hq. cbn -[set_prot Z.lor]. rewrite set_prot_lookup, decide_False; [done|]. unfold opened in Hq. lia.
Qed.

Lemma BorrowSlot_wp c size alignment side (Q : Z -> guard -> Prop) s :
  mprotect_works -> pool_ok (pool s) -> prot_ok (pool s) (prot (space (proc s))) ->
  in_word 32 (sLastRndValue (self s)) -> 0 <= size -> alignment_ok (pool s) alignment ->
  (sSlotSize (pool s) < size \/ sSlotSize (pool s) < AlignUpTo size alignment \/ pool_full (pool s) -> Q SLOT_NONE s) ->
  (forall i off s', lent c (pool s) (proc s) (pool s') (proc s') i (slot_start (pool s) i + off) size ->
    block_place (pool s) size alignment side off -> same_calls (self s) (self s') -> Q i s') ->
  wp (BorrowSlot gOpts c size alignment side) Q s.
Proof.
  intros Hmp Hp Ht Hr Hs Hal H0 HQ. pose proof (ok_layout _ Hp) as L. unfold BorrowSlot. do 2 wp_step.
  wp_step; [wp_step; apply Z.ltb_lt in E; auto|]. apply Z.ltb_ge in E.
  wp_step; [wp_step; apply Z.ltb_lt in E0; auto|]. clear E0. wp_step.
  apply pick_slot_wp; [done|done|intros Hfull; rewrite Z.eqb_refl; wp_step; apply H0; auto|]. intros i p' t' Htk Hc.
  pose proof (tk_range _ _ _ Htk) as Hri. pose proof (tk_lent _ _ _ Htk) as Hle. pose proof (tk_area _ _ _ Htk) as Ha.
  rewrite (proj2 (Z.eqb_neq _ _)) by (unfold SLOT_NONE; lia). pose proof (ok_metas _ Hp) as Hlen.
  destruct (lookup_lt_is_Some_2 (sMetaArea (pool s)) (Z.to_nat i)) as [m Hm]; [lia|].
  destruct (block_address (pool s) i size alignment side L ltac:(lia) ltac:(lia) Hal) as (off & Hpl & Eaddr & Hb).
  assert (layout p') as L' by (by apply (same_area_layout (pool s))).
  assert (forall j, slot_start p' j = slot_start (pool s) j) as Est.
  { intros j. unfold slot_start. destruct Ha as (_ & -> & -> & _). done. }
  wp_step. apply (wp_update_meta _ _ m); [lia|cbn; by rewrite (tk_metas _ _ _ Htk)|].
  wp_step. apply get_start_wp; [by apply (same_area_layout p')|lia|].
  change (slot_start (pool (on_pool _ _)) i) with (slot_start p' i). rewrite Est, Eaddr.
  wp_step. eapply wp_update_meta; [lia|cbn; rewrite list_lookup_insert_eq by (rewrite (tk_metas _ _ _ Htk); lia); done|].
  pose proof (slot_bounds _ L i ltac:(lia)). pose proof (lay_fits _ L). pose proof (lay_start _ L).
  set (a := slot_start (pool s) i + off) in *. pose proof PAGE_SIZE_pos. pose proof (page_count_lt size).
  assert (0 <= a /\ a < 2 ^ word_bits) as Har by (destruct Hb; nia).
  assert (size + PAGE_SIZE < 2 ^ word_bits) by (destruct Hb; lia).
  assert (0 <= page_of a) by (apply Z.div_pos; lia). pose proof (page_count_nonneg size Hs).
  assert (sSlotAreaStart (pool s) <= page_of a * PAGE_SIZE /\ page_of a * PAGE_SIZE + page_count size * PAGE_SIZE <= sSlotAreaEnd (pool s)) as Hpg.
  { pose proof (page_of_start _ L i). destruct Hb as [_ Hb1 _ Hb2].
    assert (page_of (slot_start (pool s) i) <= page_of a) by (apply Z.div_le_mono; lia). nia. }
  unfold GetPageSize. rewrite AlignDown_page, AlignUp_page by lia. rewrite !uword_small by lia.
  wp_step. apply wp_in_space. unfold MarkAreaReadWrite. apply wp_mprotect.
  { apply Hmp; [apply Z.mod_mul; lia|lia|]. rewrite page_of_mult, page_count_mult. intros q Hq.
    apply (area_mapped (pool s)); [done|done|]. unfold in_area. nia. }
  wp_step. rewrite swrap_small by (pose proof (lay_count _ L); lia).
  rewrite page_of_mult, page_count_mult. eapply HQ; [|exact Hpl|done].
  assert (lent c (pool s) (proc s) (set_metas (<[Z.to_nat i := place_meta a (borrow_meta c size m)]> (sMetaArea p')) p')
    (MkProcess (MkMachine (mem (space (proc s))) (set_prot (prot (space (proc s))) (page_of a) (Z.to_nat (page_count size))
       (Z.lor PROT_READ PROT_WRITE))) (errno (proc s))) i a size) as Hl by (apply lend_lent; try done; lia).
  rewrite <- (list_insert_insert_eq (sMetaArea p') _ _ (borrow_meta c size m)) in Hl. exact Hl.
Qed.

(** ** Taking a slot back *)

(** Slot [i] held a block and is free now; [c] is recorded as the one who freed it. *)
Record returned (c : caller) (p : page_pool) (pr : process) (p' : page_pool) (pr' : process) (i : Z) : Prop := MkReturned {
  rt_area : same_area p p';
  rt_pool : pool_ok p';
  rt_prot : prot_ok p' (prot (space pr'));
  rt_metas : exists m, sMetaArea p !! Z.to_nat i = Some m /\ 0 <= i /\
    sMetaArea p' = <[Z.to_nat i := return_meta c m]> (sMetaArea p);
  rt_memory : same_memory p pr pr'
}.

Lemma returned_meta c m : isBorrowed (return_meta c m) = false.
Proof. unfold return_meta. by destruct (UnwindStack c (stackTraceOnReturn m)). Qed.

Lemma returned_live c p pr p' pr' i : returned c p pr p' pr' i -> forall j b k,
  live p' j b k <-> j <> i /\ live p j b k.
Proof.
  intros Hr j b k. destruct (rt_metas _ _ _ _ _ _ Hr) as (m & Hm & Hi & E).
  apply lookup_lt_Some in Hm. rewrite (live_update p p' i _ E) by lia. rewrite returned_meta. naive_solver.
Qed.

Lemma IsSlotBorrowed_run p i m : layout p -> 0 <= i < slots -> sMetaArea p !! Z.to_nat i = Some m ->
  IsSlotBorrowed gOpts p i = Ok (isBorrowed m).
Proof.
  intros L Hi Hm. unfold IsSlotBorrowed, assert_slot. rewrite (good_slot_true p) by done.
  by rewrite (meta_at_run _ _ m) by (done || lia).
Qed.

Lemma ReturnSlot_wp c i (Q : unit -> guard -> Prop) s :
  mprotect_works -> pool_ok (pool s) -> prot_ok (pool s) (prot (space (proc s))) -> borrowed (pool s) i ->
  (forall s', returned c (pool s) (proc s) (pool s') (proc s') i -> self s' = self s -> Q tt s') ->
  wp (ReturnSlot gOpts c i) Q s.
Proof.
  intros Hmp Hp Ht Hb HQ. pose proof (ok_layout _ Hp) as L. pose proof Hb as (a & n & Hl).
  pose proof (live_range _ _ _ _ Hp Hl) as Hi. pose proof Hl as (_ & m & Hm & Hbm & _).
  pose proof (free_count_lt _ _ Hp Hb). pose proof (ok_count _ Hp). pose proof (ok_slots _ Hp). pose proof (slots_word _ L).
  pose proof (slot_bounds _ L i Hi). pose proof (lay_slot _ L). pose proof PAGE_SIZE_pos.
  unfold ReturnSlot. wp_step. eapply wp_reads; [by apply (IsSlotBorrowed_run _ _ m)|]. rewrite Hbm.
  do 2 wp_step. wp_step. apply (wp_update_meta _ _ m); [lia|done|].
  wp_step. apply get_start_wp; [by apply (same_area_layout (pool s))|lia|]. wp_step. wp_step. wp_step. apply wp_in_space. unfold MarkAreaReadWrite.
  change (slot_start (pool (on_pool _ s)) i) with (slot_start (pool s) i). cbn [pool on_pool set_pool set_metas sSlotSize].
  pose proof (slot_start_page _ L i).
  pose proof (page_of_start _ L i). pose proof (slot_size_pages _ L).
  assert (forall q, page_of (slot_start (pool s) i) <= q < page_of (slot_start (pool s) i) + page_count (sSlotSize (pool s)) ->
    is_Some (prot (space (proc s)) !! q)) as Hmap.
  { intros q Hq. apply (area_mapped (pool s)); [done|done|]. unfold in_area. nia. }
  apply wp_mprotect; [by apply Hmp|]. wp_step. apply wp_in_space. unfold MarkAreaInaccessible.
  apply wp_mprotect.
  { apply Hmp; [done|done|]. intros q Hq. cbn -[set_prot Z.lor]. rewrite set_prot_lookup.
    destruct (Hmap q Hq) as [x ->]. by destruct (decide _). }
  do 2 wp_step. cbn [pool on_pool set_pool set_metas set_space set_proc sFreeSlotCount sFreeSlots].
  change (maxDetectableAllocationCount gOpts) with slots. rewrite (proj2 (Z.leb_gt _ _)) by lia.
  destruct (lookup_lt_is_Some_2 (sFreeSlots (pool s)) (Z.to_nat (sFreeSlotCount (pool s)))) as [x Hx]; [lia|].
  wp_step. apply (wp_array_get _ _ x); [lia|done|]. wp_step. rewrite uword_small by lia. apply HQ; [|done].
  pose proof (page_count_nonneg _ (lay_slot _ L)).
  constructor.
  - done.
  - apply (pool_ok_give (pool s) i (return_meta c m)); [done|done|apply returned_meta].
  - apply (prot_ok_give (pool s) i (return_meta c m)); [done|done|done|apply returned_meta].
  - exists m. repeat split; [done|lia].
  - repeat split. intros q Hq. cbn -[set_prot Z.lor]. rewrite !(set_prot_outside (pool s)); try done;
      rewrite ?Z2Nat.id by done; lia.
Qed.
End Pool.
End PoolFacts.
