(* ===== verification/MemGuardAlloc.v ===== *)
(** The guarded allocator as a whole: what an allocation and a release do, that every access outside
    of the pages of a block faults, and what the report about such a fault says. *)
From S2P Require Import Prelude Arch Machine MemGuard MemGuardFacts.

Module AllocationFacts.
Import Auxiliary Memory PagePool Allocation AlignFacts PoolFacts.
Section Allocation.
Context `{Ar : Arch} `{K : Kernel} (gOpts : options).

#[local] Abbreviation pool_ok := (pool_ok gOpts).
#[local] Abbreviation guard_ok := (guard_ok gOpts).
#[local] Abbreviation lent := (lent gOpts).
#[local] Abbreviation returned := (returned gOpts).

(** ** Allocations *)

Lemma same_calls_trans t1 t2 t3 : same_calls t1 t2 -> same_calls t2 t3 -> same_calls t1 t3.
Proof. intros (? & ? & ? & ?) (? & ? & ? & ?). split_and!; [congruence..|done]. Qed.

Lemma wp_sample (Q : bool -> guard -> Prop) s : in_word 32 (sLastRndValue (self s)) ->
  (forall b t', same_calls (self s) t' -> b = (sampleCounter (self s) =? 0) -> Q b (set_self t' s)) -> wp ShouldBeGuardedThisTime Q s.
Proof.
  intros Hr HQ. unfold ShouldBeGuardedThisTime. do 2 wp_step. wp_step.
  - wp_step. apply wp_rnd; [done|]. intros r Hr'. do 2 wp_step. do 2 wp_step. wp_step.
    apply (HQ true (set_sampleCounter _ (set_sLastRndValue r (self s)))); [repeat split; apply Hr'|done].
  - do 2 wp_step. wp_step. apply (HQ false (set_sampleCounter _ (self s))); [repeat split; apply Hr|done].
Qed.

Lemma wp_side (Q : bool -> guard -> Prop) s : in_word 32 (sLastRndValue (self s)) ->
  (forall b t', same_calls (self s) t' -> Q b (set_self t' s)) -> wp ShouldBeGuardedOnLeft Q s.
Proof.
  intros Hr HQ. unfold ShouldBeGuardedOnLeft. wp_step. apply wp_rnd; [done|]. intros r Hr'. do 2 wp_step. wp_step.
  apply (HQ _ (set_sLastRndValue r (self s))). repeat split; apply Hr'.
Qed.

(** A block of [n] bytes at [a] was placed into a free slot. *)
Definition allocated (c : caller) (s s' : guard) (n alignment a : Z) : Prop :=
  exists i off side, a = slot_start (pool s) i + off /\ block_place gOpts (pool s) n alignment side off /\
    alignment_ok (pool s) alignment /\ lent c (pool s) (proc s) (pool s') (proc s') i a n.

Lemma alignment_ok_intro p alignment : layout gOpts p -> 0 <= alignment -> alignment <= sSlotSize p ->
  IsPowOf2 alignment = true -> alignment_ok p alignment.
Proof.
  intros L H0 Hle Hp. split; [done|]. pose proof (lay_fits _ _ L). pose proof (lay_end _ _ L) as He.
  pose proof (slot_bounds gOpts p L 0 ltac:(pose proof (lay_count _ _ L); lia)). pose proof (lay_start _ _ L).
  pose proof PAGE_SIZE_pos. pose proof pow2_word_64.
  apply IsPowOf2_inv in Hp as [?|(k & Hk & ->)]; [by left|right|lia]. exists k. split; [|done].
  split; [lia|]. pose proof word_bits_nonneg. apply (Z.pow_lt_mono_r_iff 2); lia.
Qed.

Lemma wp_guard_alloc (body : M guard Z) (Q : Z -> guard -> Prop) s : isCallingAlloc (self s) = false ->
  wp body (fun r s' => Q r (on_self (set_isCallingAlloc false) s')) (on_self (set_isCallingAlloc true) s) ->
  wp (guard_alloc body) Q s.
Proof.
  intros Hf H. unfold guard_alloc. do 2 wp_step. rewrite Hf. do 2 wp_step. wp_step.
  eapply wp_mono; [|exact H]. intros r s' HQ. do 2 wp_step. by wp_step.
Qed.

Lemma wp_guard_free (body : M guard bool) (Q : bool -> guard -> Prop) s : isCallingFree (self s) = false ->
  wp body (fun r s' => Q r (on_self (set_isCallingFree false) s')) (on_self (set_isCallingFree true) s) ->
  wp (guard_free body) Q s.
Proof.
  intros Hf H. unfold guard_free. do 2 wp_step. rewrite Hf. do 2 wp_step. wp_step.
  eapply wp_mono; [|exact H]. intros r s' HQ. do 2 wp_step. by wp_step.
Qed.

Lemma same_calls_alloc t t' : isCallingAlloc t = false -> same_calls (set_isCallingAlloc true t) t' ->
  same_calls t (set_isCallingAlloc false t').
Proof. intros E (_ & ? & ? & ?). by split_and!. Qed.

(** Why an allocation is left to the C library. *)
Definition refused (s : guard) (size alignment : Z) : Prop :=
  sampleCounter (self s) <> 0 \/ sSlotSize (pool s) < alignment \/ IsPowOf2 alignment = false \/
  sSlotSize (pool s) < AlignUpTo size alignment \/ sSlotSize (pool s) < size \/ pool_full gOpts (pool s).

Lemma AlignedAllocate_wp c size alignment (Q : Z -> guard -> Prop) s :
  mprotect_works -> guard_ok s -> 0 <= size -> 0 <= alignment ->
  (forall t', same_calls (self s) t' -> refused s size alignment -> Q 0 (set_self t' s)) ->
  (forall a s', allocated c s s' size alignment a -> same_calls (self s) (self s') -> Q a s') ->
  wp (AlignedAllocate gOpts c size alignment) Q s.
Proof.
  intros Hmp [Hp Ht [Hca Hcf Hr Hiss]] Hs Ha H0 HQ. pose proof (ok_layout _ _ Hp) as L.
  unfold AlignedAllocate. apply wp_guard_alloc; [done|]. wp_step. apply wp_sample; [done|]. intros now t1 Hc1 Enow.
  assert (forall t', same_calls (set_isCallingAlloc true (self s)) t' -> refused s size alignment ->
    Q 0 (on_self (set_isCallingAlloc false) (set_self t' s))) as H0'.
  { intros t' Ht' Hrf. apply (H0 (set_isCallingAlloc false t')); [by apply same_calls_alloc|done]. }
  unfold refused in H0'. do 2 wp_step. wp_step.
  { wp_step. apply H0'; [done|left]. intros E0. rewrite Enow in E. cbn in E. by rewrite E0 in E. }
  wp_step; [wp_step; apply H0'; [done|apply Z.ltb_lt in E0; auto]|]. apply Z.ltb_ge in E0.
  wp_step; [wp_step; apply H0'; [done|apply negb_true_iff in E1; auto]|]. apply negb_false_iff in E1.
  wp_step; [wp_step; apply H0'; [done|apply Z.ltb_lt in E2; auto]|].
  assert (alignment_ok (pool s) alignment) as Hal by (by apply alignment_ok_intro).
  wp_step. apply wp_side; [apply Hc1|]. intros left t2 Hc2. pose proof (same_calls_trans _ _ _ Hc1 Hc2) as Hc12.
  wp_step. apply BorrowSlot_wp; try done; [apply Hc12| |].
  { intros Hwhy. rewrite Z.eqb_refl. wp_step. apply H0'; [done|]. cbn in Hwhy. tauto. }
  intros i off s3 Hl Hpl Hc3. pose proof (ln_range _ _ _ _ _ _ _ _ _ Hl). cbn [pool set_self on_self] in Hl, Hpl.
  rewrite (proj2 (Z.eqb_neq _ _)) by (unfold SLOT_NONE; lia).
  assert (live (pool s3) i (slot_start (pool s) i + off) size) as Hlive.
  { apply (lent_live gOpts _ _ _ _ _ _ _ _ Hp Hl). by left. }
  assert (layout gOpts (pool s3)) as L3 by (apply (ok_layout _ _ (ln_pool _ _ _ _ _ _ _ _ _ Hl))).
  destruct Hlive as (Hi & m & Hm & _ & Em & _).
  eapply wp_reads.
  { unfold GetAllocatedAddress, assert_slot. rewrite (good_slot_true gOpts (pool s3)) by done.
    rewrite (meta_at_run _ _ m) by done. reflexivity. }
  rewrite Em. apply HQ.
  - exists i, off, (if left then ON_LEFT else ON_RIGHT). done.
  - apply same_calls_alloc; [done|]. by eapply same_calls_trans.
Qed.

Lemma same_calls_ok t t' : self_ok t -> same_calls t t' -> self_ok t'.
Proof. intros [] (? & ? & ? & ?). constructor; congruence || done. Qed.

(** After an allocation the invariant holds again. *)
Lemma allocated_ok c s s' n alignment a : guard_ok s -> allocated c s s' n alignment a -> same_calls (self s) (self s') ->
  guard_ok s'.
Proof.
  intros [Hp Ht Hs] (i & off & side & _ & _ & _ & Hl) Hc. constructor.
  - by apply (ln_pool _ _ _ _ _ _ _ _ _ Hl).
  - by apply (ln_prot _ _ _ _ _ _ _ _ _ Hl).
  - by eapply same_calls_ok.
Qed.

Lemma guard_ok_self s t' : guard_ok s -> same_calls (self s) t' -> guard_ok (set_self t' s).
Proof. intros [] Hc. constructor; try done. by eapply same_calls_ok. Qed.

(** ** Sampling *)

(** The counter of the thread is not touched behind [ShouldBeGuardedThisTime]. *)
#[local] Abbreviation counter := (fun s : guard => sampleCounter (self s)).

Lemma keeps_counter_modify (f : guard -> guard) : (forall s, counter (f s) = counter s) -> keeps counter (modify f).
Proof. intros Hf s. apply Hf. Qed.

Lemma keeps_counter_space {A} (c : M machine A) : keeps counter (in_space c).
Proof. intros s. unfold in_space, in_process, lift. by destruct (c (space (proc s))). Qed.

Lemma keeps_counter_rnd : keeps counter GenerateUnsignedInt32.
Proof. by intros s. Qed.

Lemma keeps_counter_array {A} (l : list A) i : keeps counter (array_get l i).
Proof. by intros s. Qed.

Lemma keeps_counter_meta i f : keeps counter (update_meta i f).
Proof. apply keeps_bind; [apply keeps_reads|]. intros m. by apply keeps_counter_modify. Qed.

#[local] Hint Resolve keeps_counter_space keeps_counter_rnd keeps_counter_array keeps_counter_meta : keeps.

Ltac keeps_counter :=
  repeat first
    [ apply keeps_bind; [|intros ?]
    | match goal with |- context [if ?b then _ else _] => destruct b end
    | by apply keeps_counter_modify
    | by auto with keeps nocore ].

Lemma keeps_counter_borrow c size alignment side : keeps counter (BorrowSlot gOpts c size alignment side).
Proof. unfold BorrowSlot, pick_slot. keeps_counter. Qed.

Lemma keeps_counter_side : keeps counter ShouldBeGuardedOnLeft.
Proof. unfold ShouldBeGuardedOnLeft. keeps_counter. Qed.

Lemma keeps_tail {A B} (m : M guard A) (k : A -> M guard B) s : (forall a, keeps counter (k a)) ->
  counter (snd ((m ≫= k) s)) = counter (snd (m s)).
Proof.
  intros Hk. unfold mbind, M_bind. destruct (m s) as [[a| | | |] s1]; try done. apply Hk.
Qed.

(** The counter never exceeds a mask of [k] bits. *)
Lemma masked_counter r k : 0 <= k < word_bits -> 0 <= u32 (Z.land r (uword (2 ^ k - 1))) < 2 ^ k.
Proof.
  intros Hk. rewrite uword_pow2_pred by done. replace (2 ^ k - 1) with (Z.ones k) by (rewrite Z.ones_equiv; lia).
  assert (0 < 2 ^ k) by (apply Z.pow_pos_nonneg; lia). rewrite Z.land_ones by lia.
  pose proof (Z.mod_pos_bound r (2 ^ k) ltac:(lia)). unfold wrap.
  split; [apply Z.mod_pos_bound; lia|]. eapply Z.le_lt_trans; [apply Z.mod_le; lia|lia].
Qed.

(** After an allocation that was sampled, fewer allocations are skipped than the cycle is long. *)
Lemma AlignedAllocate_counter c size alignment s k : sSampleCycleLength s = 2 ^ k -> 0 <= k < word_bits ->
  isCallingAlloc (self s) = false -> sampleCounter (self s) = 0 ->
  0 <= sampleCounter (self (snd (AlignedAllocate gOpts c size alignment s))) < 2 ^ k.
Proof.
  intros Ek Hk Hf H0. unfold AlignedAllocate, guard_alloc. rewrite (M_bind_run (gets _) _ s _ _ eq_refl), Hf.
  rewrite (M_bind_run (modify _) _ s _ _ eq_refl). set (s1 := on_self _ s).
  rewrite keeps_tail by (intros r; keeps_counter).
  rewrite keeps_tail by (intros now; pose proof keeps_counter_borrow; pose proof keeps_counter_side; keeps_counter).
  unfold ShouldBeGuardedThisTime. unfold_M. cbn [self s1 on_self set_self set_isCallingAlloc sampleCounter]. rewrite H0.
  cbn [Z.eqb GenerateUnsignedInt32 snd self on_self set_self set_sampleCounter sampleCounter sSampleCycleLength].
  change (sSampleCycleLength s1) with (sSampleCycleLength s).
  rewrite Ek. by apply masked_counter.
Qed.

(** Allocations that are not sampled only count down. *)
Lemma AlignedAllocate_skip c size alignment s : isCallingAlloc (self s) = false -> 0 < sampleCounter (self s) < 2 ^ 32 ->
  AlignedAllocate gOpts c size alignment s = (Ok 0, set_self (set_sampleCounter (sampleCounter (self s) - 1) (self s)) s).
Proof.
  intros Hf Hc. unfold AlignedAllocate, guard_alloc, ShouldBeGuardedThisTime. unfold_M. rewrite Hf.
  cbn [self on_self set_self set_isCallingAlloc sampleCounter]. rewrite (proj2 (Z.eqb_neq _ _)) by lia. cbn [negb].
  rewrite wrap_small by lia. destruct s as [? ? [] ? ?]. cbn in *. by subst.
Qed.

(** Small blocks with usual alignments fit into a slot. *)
Lemma fits_slot p size k : layout gOpts p -> 0 <= size <= sSlotSize p -> 0 <= k <= page_bits -> 2 ^ k <= sSlotSize p ->
  AlignUpTo size (2 ^ k) <= sSlotSize p.
Proof.
  intros L Hs Hk Hp. pose proof page_bits_range. pose proof word_bits_ge. pose proof (lay_fits _ _ L). pose proof (lay_start _ _ L).
  pose proof (slot_bounds gOpts p L 0 ltac:(pose proof (lay_count _ _ L); lia)). pose proof PAGE_SIZE_pos.
  assert (2 ^ k <= PAGE_SIZE) by (apply Z.pow_le_mono_r; lia). assert (0 < 2 ^ k) by (apply Z.pow_pos_nonneg; lia).
  rewrite AlignUpTo_pow by lia. pose proof (lay_pages _ _ L) as Hd. apply Z.mod_divide in Hd; [|lia].
  assert ((2 ^ k | sSlotSize p)) as [q Hq].
  { etrans; [|exact Hd]. unfold PAGE_SIZE. exists (2 ^ (page_bits - k)). rewrite <- Z.pow_add_r by lia. f_equal. lia. }
  rewrite Hq. apply Z.mul_le_mono_nonneg_r; [lia|]. apply Z.lt_succ_r, Z.div_lt_upper_bound; lia.
Qed.

(** A sampled allocation that fits is guarded, unless all slots are in use. *)
Lemma AlignedAllocate_sampled c size k s : mprotect_works -> guard_ok s -> sampleCounter (self s) = 0 ->
  ~ pool_full gOpts (pool s) -> 0 <= size <= sSlotSize (pool s) -> 0 <= k <= page_bits -> 2 ^ k <= sSlotSize (pool s) ->
  exists a s', AlignedAllocate gOpts c size (2 ^ k) s = (Ok a, s') /\ allocated c s s' size (2 ^ k) a /\
    same_calls (self s) (self s').
Proof.
  intros Hmp Hg H0 Hnf Hs Hk Hal. assert (0 < 2 ^ k) by (apply Z.pow_pos_nonneg; lia). pose proof page_bits_range.
  assert (wp (AlignedAllocate gOpts c size (2 ^ k)) (fun a s' => allocated c s s' size (2 ^ k) a /\ same_calls (self s) (self s')) s) as Hwp.
  { apply AlignedAllocate_wp; [done|done|lia|lia| |done]. intros t' _ Hrf. exfalso.
    pose proof (fits_slot (pool s) size k (ok_layout _ _ (g_pool _ _ Hg)) Hs Hk Hal).
    destruct Hrf as [?|[?|[Hp|[?|[?|?]]]]]; try done; try lia. rewrite IsPowOf2_pow in Hp by lia. done. }
  apply wp_run in Hwp as (a & s' & E & ? & ?). by exists a, s'.
Qed.

(** ** Releases *)

(** The block in slot [i] was given back. *)
Definition released (c : caller) (s s' : guard) (i : Z) : Prop :=
  returned c (pool s) (proc s) (pool s') (proc s') i.

Lemma slot_int i : 0 <= i < slots gOpts -> forall p, layout gOpts p -> s32 i = i /\ (s32 i =? SLOT_NONE) = false.
Proof.
  intros Hi p L. pose proof (lay_count _ _ L). rewrite swrap_small by lia. split; [done|].
  apply Z.eqb_neq. unfold SLOT_NONE. lia.
Qed.

(** Where the address of a block, or an address behind it in its slot, is looked up. *)
Lemma live_slot_id p i a n b : pool_ok p -> live p i a n -> a <= b <= a + n -> GetSlotIdOfAddress gOpts p b = Ok i.
Proof.
  intros Hp Hl Hb. pose proof (ok_layout _ _ Hp) as L. pose proof (live_range _ _ _ _ _ Hp Hl).
  destruct (ok_block _ _ Hp _ _ _ Hl). pose proof PAGE_SIZE_pos. apply GetSlotIdOfAddress_slot; [done|done|lia].
Qed.

Lemma Free_wp c ptr i a n (Q : bool -> guard -> Prop) s :
  mprotect_works -> guard_ok s -> live (pool s) i a n -> a <= ptr <= a + n ->
  (forall s', released c s s' i -> self s' = self s -> Q true s') ->
  wp (Free gOpts c ptr) Q s.
Proof.
  intros Hmp [Hp Ht [Hca Hcf Hr Hiss]] Hl Hb HQ. pose proof (ok_layout _ _ Hp) as L.
  pose proof (live_range _ _ _ _ _ Hp Hl) as Hi. destruct (slot_int i Hi _ L) as [E1 E2].
  unfold Free. apply wp_guard_free; [done|]. wp_step. eapply wp_reads; [by eapply live_slot_id|].
  rewrite E2, E1. wp_step. apply ReturnSlot_wp; try done; [by exists a, n|]. intros s' Hs' E. wp_step.
  apply HQ; [done|]. cbn. rewrite E. destruct s as [? ? [] ? ?]. cbn in *. by subst.
Qed.

Lemma Free_outside c ptr s : guard_ok s -> ~ in_area (pool s) ptr -> Free gOpts c ptr s = (Ok false, s).
Proof.
  intros [Hp Ht [Hca Hcf Hr Hiss]] Ho. unfold Free, guard_free. unfold_M. rewrite Hcf. cbn [self on_self set_self].
  rewrite GetSlotIdOfAddress_outside by done. destruct s as [? ? [] ? ?]. cbn in *. by subst.
Qed.

Lemma released_ok c s s' i : guard_ok s -> released c s s' i -> self s' = self s -> guard_ok s'.
Proof.
  intros [Hp Ht Hs] Hr E. constructor; [by apply (rt_pool _ _ _ _ _ _ _ Hr)|by apply (rt_prot _ _ _ _ _ _ _ Hr)|].
  by rewrite E.
Qed.

Lemma GetAllocatedSize_live p i a n : pool_ok p -> live p i a n -> Allocation.GetAllocatedSize gOpts p a = Ok n.
Proof.
  intros Hp Hl. pose proof (ok_layout _ _ Hp) as L. pose proof (live_range _ _ _ _ _ Hp Hl) as Hi.
  destruct (slot_int i Hi _ L) as [E1 E2]. unfold Allocation.GetAllocatedSize.
  rewrite (live_slot_id p i a n) by (done || (destruct (ok_block _ _ Hp _ _ _ Hl); lia)).
  cbn [mbind result_bind]. rewrite E2, E1. unfold PagePool.GetAllocatedSize, assert_slot.
  rewrite (good_slot_true gOpts p) by done. destruct Hl as (? & m & Hm & _ & _ & <-).
  by rewrite (meta_at_run _ _ m).
Qed.

Lemma IsAllocated_live p i a n : pool_ok p -> live p i a n -> IsAllocatedByThisAllocator gOpts p a = Ok true.
Proof.
  intros Hp Hl. unfold IsAllocatedByThisAllocator. pose proof (live_range _ _ _ _ _ Hp Hl).
  rewrite (live_slot_id p i a n) by (done || (destruct (ok_block _ _ Hp _ _ _ Hl); lia)).
  cbn [mbind result_bind]. rewrite (proj2 (Z.eqb_neq _ _)) by (unfold SLOT_NONE; lia). done.
Qed.

Lemma IsAllocated_outside p a : ~ in_area p a -> IsAllocatedByThisAllocator gOpts p a = Ok false.
Proof. intros Ha. unfold IsAllocatedByThisAllocator. by rewrite GetSlotIdOfAddress_outside. Qed.
End Allocation.
End AllocationFacts.

Module IssueFacts.
Import Auxiliary Memory PagePool Allocation Issue AlignFacts PoolFacts AllocationFacts.
Section Issue.
Context `{Ar : Arch} `{K : Kernel} (gOpts : options).

#[local] Abbreviation pool_ok := (pool_ok gOpts).
#[local] Abbreviation guard_ok := (guard_ok gOpts).
#[local] Abbreviation slots := (slots gOpts).

(** ** Accesses *)

(** An address of the area can be written to exactly on the pages of blocks. *)
Lemma can_write_iff s x : pool_ok (pool s) -> prot_ok gOpts (pool s) (prot (space (proc s))) -> in_area (pool s) x ->
  can PROT_WRITE (space (proc s)) x = true <-> on_block_page (pool s) x.
Proof.
  intros Hp Ht Hx. pose proof (ok_layout _ _ Hp) as L. unfold can. split.
  - intros Hc. destruct (on_block_page_dec _ _ _ Hp Hx) as [|Hno]; [done|].
    destruct (prot_closed _ _ _ Ht (page_of x)) as (y & E & Hy).
    + by apply (area_page gOpts).
    + intros i a n Hl Ho. apply Hno. by exists i, a, n.
    + rewrite E in Hc. by destruct Hy as [-> |[-> _]].
  - intros (i & a & n & Hl & Ho). by rewrite (prot_open _ _ _ Ht _ _ _ _ Hl Ho).
Qed.

(** A store into the area that is not on the page of a block faults and changes nothing. *)
Lemma store_faults s x v : pool_ok (pool s) -> prot_ok gOpts (pool s) (prot (space (proc s))) -> in_area (pool s) x -> ~ on_block_page (pool s) x ->
  in_space (store_bytes x [v]) s = (Segv, s).
Proof.
  intros Hp Ht Hx Hn. unfold in_space, in_process, lift, store_bytes. cbn [length can_range].
  destruct (can PROT_WRITE (space (proc s)) x) eqn:E.
  - by apply can_write_iff in E.
  - cbn [andb]. by destruct s as [[[] ?] ? ? ? ?].
Qed.

(** The bytes of a block lie on its pages. *)
Lemma block_byte_page p i a n x : pool_ok p -> live p i a n -> a <= x < a + n -> opened a n (page_of x).
Proof.
  intros Hp Hl Hx. destruct (ok_block _ _ Hp _ _ _ Hl). pose proof PAGE_SIZE_pos as HP. unfold opened, page_of in *.
  split; [apply Z.div_le_mono; lia|]. apply Z.div_lt_upper_bound; lia.
Qed.

Lemma block_byte_area p i a n x : pool_ok p -> live p i a n -> a <= x <= a + n -> in_area p x.
Proof.
  intros Hp Hl Hx. destruct (ok_block _ _ Hp _ _ _ Hl). pose proof PAGE_SIZE_pos as HP.
  apply (in_slot_area gOpts p i); [apply (ok_layout _ _ Hp)|by apply (live_range gOpts p i a n)|lia].
Qed.

(** ** The nearest slot *)

(** [x] is in slot [i], or in the half of a guard page that is next to it. *)
Definition near (p : page_pool) (i x : Z) : Prop :=
  slot_start p i <= x < slot_start p i + sSlotSize p \/
  (slot_start p i + sSlotSize p <= x < slot_start p i + sSlotSize p + PAGE_SIZE /\
   (2 * (x - (slot_start p i + sSlotSize p)) <= PAGE_SIZE \/ i = slots - 1)) \/
  (slot_start p i - PAGE_SIZE <= x < slot_start p i /\
   (i = 0 \/ PAGE_SIZE < 2 * (x - (slot_start p i - PAGE_SIZE)))).

Lemma in_guard_page p i x : layout gOpts p -> 0 <= i < slots ->
  slot_start p i <= x < slot_start p i + sSlotSize p + PAGE_SIZE ->
  IsAddressInGuardPage p x = (slot_start p i + sSlotSize p <=? x).
Proof.
  intros L Hi Hx. pose proof PAGE_SIZE_pos as HP. pose proof (in_slot_area _ _ _ _ L Hi Hx) as [Ha1 Ha2].
  unfold IsAddressInGuardPage. rewrite (proj2 (Z.ltb_ge _ _)), (proj2 (Z.leb_gt _ _)) by lia. cbn [orb].
  pose proof (lay_start _ _ L). pose proof (lay_fits _ _ L). pose proof pow2_word_64.
  pose proof (slot_size_pages _ _ L) as HS. pose proof (lay_slot _ _ L).
  rewrite (wrap_small 64) by lia. unfold GetPageSize.
  set (d := x - slot_start p i). set (sp := page_count (sSlotSize p)) in *.
  assert (0 <= sp) by (apply page_count_nonneg; done).
  assert ((x - sSlotAreaStart p) / PAGE_SIZE = (sp + 1) * i + (d / PAGE_SIZE + 1)) as E1.
  { replace (x - sSlotAreaStart p) with (d + (1 + (sp + 1) * i) * PAGE_SIZE) by (unfold d, slot_start; nia).
    rewrite Z.div_add by lia. lia. }
  assert (sSlotSize p / PAGE_SIZE = sp) as -> by (rewrite <- HS; apply Z.div_mul; lia).
  assert (0 <= d / PAGE_SIZE) by (apply Z.div_pos; lia).
  assert (d / PAGE_SIZE <= sp) by (apply Z.lt_succ_r, Z.div_lt_upper_bound; lia).
  pose proof (Z.mul_div_le d PAGE_SIZE HP). pose proof (Z.mul_succ_div_gt d PAGE_SIZE HP).
  assert ((x - sSlotAreaStart p) / PAGE_SIZE <= x - sSlotAreaStart p) by (apply Z.div_le_upper_bound; nia).
  rewrite uword_small by (rewrite E1 in *; nia). pose proof (slot_bounds _ _ L i Hi).
  rewrite (uword_small (sp + 1)) by (split; [lia|]; assert (sp * 1 <= sp * PAGE_SIZE) by (apply Z.mul_le_mono_nonneg_l; lia); lia).
  rewrite E1, Z.add_comm, Z.mul_comm, Z.mod_add by lia.
  destruct (Z.leb_spec (slot_start p i + sSlotSize p) x).
  - apply Z.eqb_eq. assert (d / PAGE_SIZE = sp) as -> by (apply Z.le_antisymm; [done|apply Z.div_le_lower_bound; lia]). apply Z.mod_same. lia.
  - apply Z.eqb_neq. rewrite Z.mod_small; [lia|]. assert (d / PAGE_SIZE < sp); [|lia].
    apply Z.div_lt_upper_bound; lia.
Qed.

Lemma nearest p i x : layout gOpts p -> 0 <= i < slots -> near p i x -> GetNearestSlotID gOpts p x = Ok i.
Proof.
  intros L Hi Hn. pose proof PAGE_SIZE_pos as HP. pose proof (lay_slot _ _ L). pose proof (lay_count _ _ L).
  pose proof (slots_word _ _ L). pose proof page_bits_range. pose proof word_bits_ge.
  assert (PAGE_SIZE * 2 < 2 ^ word_bits).
  { unfold PAGE_SIZE. rewrite Z.mul_comm, <- Z.pow_succ_r by lia. apply Z.pow_lt_mono_r; lia. }
  assert (swrap 64 (uword (slots - 1)) = slots - 1) as Esl by (rewrite uword_small, swrap_small by lia; done).
  unfold GetNearestSlotID. change (maxDetectableAllocationCount gOpts) with slots. rewrite Esl. unfold GetPageSize.
  rewrite (GetGuardedPageStart_run _ _ L) by lia. cbn [mbind result_bind].
  assert (forall j, 0 <= j < slots -> slot_start p j <= x < slot_start p j + sSlotSize p + PAGE_SIZE ->
    (if x <? slot_start p 0 then Ok 0 else
     GetSlotIdOfAddress gOpts p x ≫= fun slot => if slot =? SLOT_NONE then Ok slot else
     if negb (IsAddressInGuardPage p x) then Ok slot else
     if (PAGE_SIZE <? uword (x mod PAGE_SIZE * 2)) && (slot <? slots - 1) then Ok (slot + 1) else Ok slot)
    = Ok (if (slot_start p j + sSlotSize p <=? x) && (PAGE_SIZE <? 2 * (x - (slot_start p j + sSlotSize p))) && (j <? slots - 1)
          then j + 1 else j)) as Hj.
  { intros j Hj Hx. assert (slot_start p 0 <= slot_start p j) by (unfold slot_start; nia).
    rewrite (proj2 (Z.ltb_ge _ _)) by lia. rewrite (GetSlotIdOfAddress_slot _ _ L j) by done. cbn [mbind result_bind].
    rewrite (proj2 (Z.eqb_neq _ _)) by (unfold SLOT_NONE; lia). rewrite (in_guard_page p j) by done.
    destruct (Z.leb_spec (slot_start p j + sSlotSize p) x) as [Hg|Hg]; cbn [negb andb]; [|done].
    assert (x mod PAGE_SIZE = x - (slot_start p j + sSlotSize p)) as Em.
    { pose proof (page_of_start _ _ L j) as Hs. pose proof (slot_size_pages _ _ L) as HS. symmetry.
      apply (Z.mod_unique_pos _ _ (page_of (slot_start p j) + page_count (sSlotSize p))); lia. }
    rewrite Em, uword_small by lia. rewrite Z.mul_comm. by destruct (_ && _). }
  destruct Hn as [Hx|[[Hx Hr]|[Hx Hr]]].
  - rewrite (Hj i) by lia. by rewrite (proj2 (Z.leb_gt _ _)) by lia.
  - rewrite (Hj i) by lia. rewrite (proj2 (Z.leb_le _ _)) by lia. cbn [andb].
    destruct (Z.ltb_spec PAGE_SIZE (2 * (x - (slot_start p i + sSlotSize p)))); cbn [andb]; [|done].
    by rewrite (proj2 (Z.ltb_ge _ _)) by lia.
  - destruct (decide (i = 0)) as [-> |Hi0]; [by rewrite (proj2 (Z.ltb_lt _ _)) by lia|].
    destruct Hr as [?|Hr]; [done|].
    assert (slot_start p i = slot_start p (i - 1) + sSlotSize p + PAGE_SIZE) as E by (unfold slot_start; lia).
    rewrite (Hj (i - 1)) by lia. rewrite (proj2 (Z.leb_le _ _)), !(proj2 (Z.ltb_lt _ _)) by lia. cbn [andb].
    f_equal. lia.
Qed.

(** ** Reports *)

Definition borrow_trace (m : PageMeta) : trace :=
  MkTrace (borrowThreadId m) (borrowThreadName m) (take (Z.to_nat (onBorrowStackFrameCount m)) (stackTraceOnBorrow m)).
Definition return_trace (m : PageMeta) : trace :=
  MkTrace (returnThreadId m) (returnThreadName m) (take (Z.to_nat (onReturnStackFrameCount m)) (stackTraceOnReturn m)).

(** What is reported about an address near slot [i]. *)
Lemma Report_near s i x m : pool_ok (pool s) -> 0 <= i < slots -> near (pool s) i x ->
  sMetaArea (pool s) !! Z.to_nat i = Some m ->
  let type := issue_type (gLastIssueType (self s)) (isBorrowed m) x (allocatedStart m) in
  Report gOpts s x = Ok (Some (MkReport i type (issue_offset type x (allocatedStart m) (allocatedSize m))
    (allocatedSize m) (borrow_trace m)
    (if bool_decide (type = DOUBLE_FREE) || bool_decide (type = USE_AFTER_FREE) then Some (return_trace m) else None))).
Proof.
  intros Hp Hi Hn Hm type. pose proof (ok_layout _ _ Hp) as L. unfold Report.
  rewrite (nearest (pool s) i x) by done. cbn [mbind result_bind].
  rewrite (proj2 (Z.eqb_neq _ _)) by (unfold SLOT_NONE; lia).
  unfold GetAllocatedAddress, IsSlotBorrowed, PagePool.GetAllocatedSize, trace_on_borrow, trace_on_return, assert_slot.
  rewrite (good_slot_true _ _ L) by done. rewrite (meta_at_run _ _ m) by (done || lia). cbn [mbind result_bind].
  fold type. by destruct (bool_decide (type = DOUBLE_FREE) || bool_decide (type = USE_AFTER_FREE)).
Qed.

Lemma IsAllocated_area p x : pool_ok p -> in_area p x -> IsAllocatedByThisAllocator gOpts p x = Ok true.
Proof.
  intros Hp Hx. pose proof (ok_layout _ _ Hp) as L. pose proof (lay_count _ _ L). unfold IsAllocatedByThisAllocator.
  destruct (area_cases _ _ L _ Hx) as [Hlt|(i & Hi & Hxi)].
  - rewrite (GetSlotIdOfAddress_first _ _ L) by (destruct Hx; lia). done.
  - rewrite (GetSlotIdOfAddress_slot _ _ L i) by done. cbn [mbind result_bind].
    by rewrite (proj2 (Z.eqb_neq _ _)) by (unfold SLOT_NONE; lia).
Qed.

(** The signal handler reports every fault in the area, and lets the process die where no other
    handler was installed. *)
Lemma handler_reports s prev x r : pool_ok (pool s) -> in_area (pool s) x -> Report gOpts s x = Ok r ->
  SegvSignalHandler gOpts prev true true x s
  = Ok (r, match prev with PREV_SIGACTION | PREV_HANDLER => CallsPrevious | PREV_DFL | PREV_IGN => Dies end).
Proof.
  intros Hp Hx Hr. unfold SegvSignalHandler. rewrite IsAllocated_area by done. cbn [mbind result_bind andb].
  rewrite Hr. cbn [mbind result_bind]. destruct prev; try done.
  by destruct (negb _ && negb _).
Qed.

Lemma near_area p i x : layout gOpts p -> 0 <= i < slots -> near p i x -> in_area p x.
Proof.
  intros L Hi Hn. pose proof (slot_bounds _ _ L i Hi). pose proof PAGE_SIZE_pos. pose proof (lay_slot _ _ L).
  unfold near, in_area in *. lia.
Qed.

(** An address next to a block but not on its pages lies before or behind the whole block. *)
Lemma beside_block p i a n x : pool_ok p -> live p i a n -> ~ on_block_page p x -> a < x -> a + n <= x.
Proof.
  intros Hp Hl Hn Hx. destruct (decide (x < a + n)) as [Hlt|]; [exfalso|lia].
  apply Hn. exists i, a, n. split; [done|]. apply (block_byte_page p i); [done|done|lia].
Qed.

(** ** Double free *)

Lemma guard_page_closed p i : pool_ok p -> 0 <= i < slots -> ~ on_block_page p (slot_start p i + sSlotSize p).
Proof.
  intros Hp Hi (j & a & n & Hl & Ho). pose proof PAGE_SIZE_pos. pose proof (lay_slot _ _ (ok_layout _ _ Hp)).
  assert (slot_start p i <= slot_start p i + sSlotSize p < slot_start p i + sSlotSize p + PAGE_SIZE) as Hx by lia.
  destruct (opened_slot gOpts p i _ _ _ _ Hp Hx Hl Ho). lia.
Qed.

(** Giving back a slot that holds no block ends in a fault, with the kind of issue recorded and
    nothing else changed. *)
Lemma Free_twice c ptr i s : guard_ok s -> 0 <= i < slots -> ~ borrowed (pool s) i ->
  slot_start (pool s) i <= ptr < slot_start (pool s) i + sSlotSize (pool s) + PAGE_SIZE ->
  exists t', gLastIssueType t' = DOUBLE_FREE /\ Free gOpts c ptr s = (Segv, set_self t' s).
Proof.
  intros Hg Hi Hn Hptr. pose proof Hg as [Hp Ht [Hca Hcf Hr Hiss]]. pose proof (ok_layout _ _ Hp) as L.
  destruct (slot_int gOpts i Hi _ L) as [E1 E2]. pose proof (ok_metas _ _ Hp). pose proof (lay_fits _ _ L).
  pose proof (slot_bounds _ _ L i Hi). pose proof (lay_start _ _ L). pose proof PAGE_SIZE_pos. pose proof (lay_slot _ _ L).
  destruct (lookup_lt_is_Some_2 (sMetaArea (pool s)) (Z.to_nat i)) as [m Hm]; [lia|].
  assert (isBorrowed m = false) as Hb.
  { destruct (isBorrowed m) eqn:E; [|done]. destruct Hn. exists (allocatedStart m), (allocatedSize m). split; [lia|]. by exists m. }
  exists (set_gLastIssueType DOUBLE_FREE (set_isCallingFree true (self s))). split; [done|].
  unfold Free, guard_free. unfold_M. rewrite Hcf. cbn [pool on_self set_self].
  rewrite (GetSlotIdOfAddress_slot _ _ L i) by done. rewrite E2, E1.
  unfold ReturnSlot. unfold_M. cbn [pool on_self set_self]. rewrite (IsSlotBorrowed_run _ _ _ m) by done. rewrite Hb.
  unfold TriggerIssue. rewrite (proj2 (Z.eqb_neq i SLOT_NONE)) by (unfold SLOT_NONE; lia). unfold_M. cbn [pool on_self set_self self].
  rewrite (GetGuardedPageStart_run _ _ L) by done. rewrite uword_small by lia.
  rewrite store_faults; [done|done|done|..].
  - apply (in_slot_area gOpts _ i); [done|done|cbn; lia].
  - by apply guard_page_closed.
Qed.
End Issue.
End IssueFacts.

Module PrepareFacts.
Import Auxiliary Memory PagePool Allocation AlignFacts PoolFacts AllocationFacts.
Section Prepare.
Context `{Ar : Arch} `{K : Kernel} `{Mp : Mapper} (gOpts : options).

(** [mmap] returns the address of pages that were not mapped before. *)
Definition mapper_ok : Prop := forall m size prot a, mmap_place m size prot = Some a ->
  0 < a /\ a mod PAGE_SIZE = 0 /\ a + page_count size * PAGE_SIZE < 2 ^ word_bits /\
  forall q, page_of a <= q < page_of a + page_count size -> Machine.prot m !! q = None.

(** The areas are smaller than the address space. *)
Record options_ok : Prop := MkOptionsOk {
  opt_count : 0 < slots gOpts < 2 ^ 31;
  opt_size : 0 <= maxAllocationSize gOpts;
  opt_area : PAGE_SIZE + (page_count (maxAllocationSize gOpts) * PAGE_SIZE + PAGE_SIZE) * slots gOpts < 2 ^ word_bits;
  opt_tables : sizeof_PageMeta * slots gOpts < 2 ^ word_bits
}.

(** All pages of the area are mapped and closed. *)
Definition all_closed (p : page_pool) (t : gmap Z Z) : Prop :=
  forall q, in_area p (q * PAGE_SIZE) -> exists x, t !! q = Some x /\ closed_prot gOpts x.

Lemma page_of_aligned a : a mod PAGE_SIZE = 0 -> page_of a * PAGE_SIZE = a.
Proof.
  intros Ha. pose proof PAGE_SIZE_pos. unfold page_of. rewrite (Z.div_mod a PAGE_SIZE) at 2 by lia. lia.
Qed.

Lemma map_table_wp size (Q : bool -> guard -> Prop) s : mprotect_works -> mapper_ok -> 0 <= size -> all_closed (pool s) (prot (space (proc s))) ->
  Q false s ->
  (forall m', mem m' = mem (space (proc s)) -> all_closed (pool s) (prot m') -> Q true (set_space m' s)) ->
  wp (map_table gOpts size) Q s.
Proof.
  intros Hmp Hmm Hsz Hcl H0 HQ. pose proof PAGE_SIZE_pos. pose proof (page_count_nonneg size Hsz) as Hpc.
  pose proof (page_count_ge size). unfold map_table. wp_step. apply wp_in_space.
  unfold wp at 1, MapMemArea. destruct (mmap_place _ _ _) as [a|] eqn:E.
  2:{ rewrite Z.eqb_refl. wp_step. by destruct s as [[[] ?] ? ? ? ?]. }
  destruct (Hmm _ _ _ _ E) as (Ha & Hal & Hfit & Hfresh). rewrite (proj2 (Z.eqb_neq _ _)) by lia.
  pose proof (page_of_aligned a Hal). set (pg := page_of a) in *.
  set (x := if is_lp64 then PROT_NO_WRITE gOpts else PROT_NONE) in *.
  fold (page_count size). set (c := page_count size) in *.
  wp_step. apply wp_in_space. unfold MarkAreaReadWrite. apply wp_mprotect.
  { apply Hmp; [done|done|]. intros q Hq. cbn -[map_pages]. rewrite map_pages_lookup.
    rewrite decide_True by (unfold pg, c in *; lia). eauto. }
  cbn [space proc set_space set_proc mem prot]. fold pg c.
  set (t := set_prot _ _ _ _). assert (forall q, pg <= q < pg + c -> t !! q = Some 3) as Hopen.
  { intros q Hq. unfold t. rewrite set_prot_lookup, map_pages_lookup, !decide_True by lia. done. }
  assert (all_closed (pool s) t) as Hcl'.
  { intros q Hq. destruct (Hcl q Hq) as (y & Hy & Hc). exists y. split; [|done]. unfold t.
    assert (~ (pg <= q < pg + Z.of_nat (Z.to_nat c))) as Hno by (intros Hin; rewrite Hfresh in Hy by lia; done).
    by rewrite set_prot_lookup, map_pages_lookup, !decide_False by done. }
  wp_step. apply wp_in_space. unfold wp at 1. cbn [space proc set_space set_proc mem prot].
  assert (can_range PROT_WRITE (MkMachine (mem (space (proc s))) t) a (Z.to_nat size) = true) as ->.
  { apply can_range_inside; [unfold fits; lia|]. intros b Hb. unfold inside in Hb. unfold can.
    cbn [prot]. rewrite Hopen; [done|]. unfold pg, page_of in *. split; [apply Z.div_le_mono; lia|].
    apply Z.div_lt_upper_bound; lia. }
  wp_step. apply (HQ (MkMachine (mem (space (proc s))) t)); done.
Qed.

(** [Prepare] returns, and where it returns [true] there is an empty pool. *)
Lemma Prepare_wp (Q : bool -> guard -> Prop) s : mprotect_works -> mapper_ok -> options_ok ->
  sFreeSlotCount (pool s) = 0 -> sLentPageCount (pool s) = 0 -> self_ok (self s) ->
  (forall s', Q false s') ->
  (forall s', guard_ok gOpts s' -> (forall i, ~ borrowed (pool s') i) -> self s' = self s -> Q true s') ->
  wp (PagePool.Prepare gOpts) Q s.
Proof.
  intros Hmp Hmm [Hn Hsz Harea Htab] Hf Hl Hs H0 HQ. pose proof PAGE_SIZE_pos as HP.
  pose proof (page_count_nonneg _ Hsz) as Hpc. unfold PagePool.Prepare, GetPageSize.
  change (maxDetectableAllocationCount gOpts) with (slots gOpts). set (n := slots gOpts) in *.
  set (sz := maxAllocationSize gOpts) in *. set (S := page_count sz * PAGE_SIZE) in *.
  pose proof (page_count_ge sz). fold S in H.
  assert (S + PAGE_SIZE <= (S + PAGE_SIZE) * n) by nia.
  rewrite AlignUp_page by lia. fold S. rewrite (uword_small S) by lia. rewrite (uword_small (PAGE_SIZE + _)) by lia.
  set (area := PAGE_SIZE + (S + PAGE_SIZE) * n) in *.
  do 2 wp_step. wp_step. apply wp_in_space. unfold wp at 1, MapMemArea.
  destruct (mmap_place _ _ _) as [a|] eqn:E.
  2:{ do 2 wp_step. rewrite Z.eqb_refl. wp_step. apply H0. }
  destruct (Hmm _ _ _ _ E) as (Ha & Hal & Hfit & Hfresh). do 2 wp_step. rewrite (proj2 (Z.eqb_neq _ _)) by lia.
  assert (page_count area * PAGE_SIZE = area) as Eap.
  { unfold area, S. replace (PAGE_SIZE + (page_count sz * PAGE_SIZE + PAGE_SIZE) * n)
      with ((1 + (page_count sz + 1) * n) * PAGE_SIZE) by lia. by rewrite page_count_mult. }
  rewrite Eap in Hfit. do 2 wp_step. rewrite uword_u64, (uword_small (a + area)) by lia.
  fold (page_count area). set (x := if is_lp64 then PROT_NO_WRITE gOpts else PROT_NONE) in *.
  set (t := map_pages _ _ _ _).
  set (p1 := MkPool PAGE_SIZE S a area (a + area) _ _ _ _).
  assert (closed_prot gOpts x) as Hx.
  { unfold x, closed_prot, PROT_NO_WRITE. destruct is_lp64, (ignoreOverlappedReading gOpts); auto. }
  pose proof (page_of_aligned a Hal).
  assert (all_closed p1 t) as Hcl.
  { intros q [Hq1 Hq2]. exists x. split; [|done]. unfold t. rewrite map_pages_lookup, decide_True; [done|].
    cbn in Hq1, Hq2. assert (0 <= page_count area) by (apply page_count_nonneg; lia). nia. }
  wp_step. assert (0 <= sizeof_PageMeta /\ 8 <= sizeof_PageMeta) as Hsp by (unfold sizeof_PageMeta; destruct is_lp64; lia).
  rewrite (uword_small (sizeof_PageMeta * n)) by nia.
  apply map_table_wp; [done|done|nia|exact Hcl|cbn [negb]; wp_step; apply H0|].
  intros m1 _ Hcl1. cbn [negb]. do 2 wp_step. wp_step. rewrite (uword_small (sizeof_slot_t * n)) by (unfold sizeof_slot_t; nia).
  apply map_table_wp; [done|done|unfold sizeof_slot_t; lia|exact Hcl1|cbn [negb]; wp_step; apply H0|].
  intros m2 _ Hcl2. cbn [negb]. do 2 wp_step. wp_step.
  set (s' := on_pool _ _).
  assert (forall i b k, ~ live (pool s') i b k) as Hno.
  { intros i b k (Hi & m & Hm & Hb & _). cbn in Hm. apply lookup_replicate_1 in Hm as [-> _]. done. }
  apply HQ; [|intros i (b & k & Hb); by apply (Hno i b k)|done].
  constructor; [|constructor|exact Hs].
  - constructor; try (cbn; rewrite ?length_replicate; lia).
    + constructor; cbn; try done; try lia.
      * unfold S. apply Z.mod_mul. lia.
      * unfold slot_start. cbn. unfold area. lia.
    + unfold free_list. cbn. rewrite Hf. apply NoDup_nil_2.
    + intros i. unfold free_list. cbn. rewrite Hf, Hl. cbn. split; [intros Hi; by apply not_elem_of_nil in Hi|lia].
    + intros i (b & k & Hb). by apply Hno in Hb.
    + intros i b k Hb. by apply Hno in Hb.
  - intros i b k q Hb. by apply Hno in Hb.
  - intros q Hq _. by apply (Hcl2 q).
Qed.
End Prepare.
End PrepareFacts.
