(* ===== verification/MemGuardHandlers.v ===== *)
(** The allocation functions that MemGuard installs (util/Interception.cpp).

    A handler tries the guarded allocator and falls back on the original function.  The original
    functions belong to the C library: class [OriginalFunctions]. *)
From S2P Require Import Prelude Arch Machine MemGuard.

(** The operators of C++ that have a handler, by the name of the handler. *)
Inductive new_operator := New | NewNoThrow | NewAligned | NewAlignedNoThrow
| NewArr | NewArrNoThrow | NewArrAligned | NewArrAlignedNoThrow.

Inductive delete_operator := Delete | DeleteNoThrow | DeleteAligned | DeleteAlignedNoThrow
| DeleteSize | DeleteSizeAligned | DeleteArr | DeleteArrNoThrow | DeleteArrAligned | DeleteArrAlignedNoThrow
| DeleteArrSize | DeleteArrSizeAligned.

(** [sOriginalFunctions]: what the C library does to the process.  An operator [new] gets its size
    and its alignment, where it has one. *)
Class OriginalFunctions := {
  orig_malloc : Z -> M process Z;
  orig_calloc : Z -> Z -> M process Z;
  orig_realloc : Z -> Z -> M process Z;
  orig_memalign : Z -> Z -> M process Z;
  orig_posix_memalign : Z -> Z -> Z -> M process Z;
  orig_strdup : Z -> M process Z;
  orig_strndup : Z -> Z -> M process Z;
  orig_malloc_usable_size : Z -> M process Z;
  orig_free : Z -> M process unit;
  orig_new : new_operator -> Z -> Z -> M process Z;
  orig_delete : delete_operator -> Z -> M process unit
}.

Module Interception.
Import Auxiliary Memory PagePool Allocation.
Section Interception.
Context `{Ar : Arch} `{K : Kernel} `{OF : OriginalFunctions} (gOpts : options).

Definition DEFAULT_PTR_ALIGN : Z := if is_lp64 then 16 else 8.

(** [memcpy(dst, src, n)]. *)
Definition memcpy (dst src : Z) (n : nat) : M guard unit :=
  bs ← reads (fun s => load_bytes (space (proc s)) src n);
  in_space (store_bytes dst bs).

(** [strlen(a)]; [fuel] bounds the bytes that are looked at. *)
Fixpoint strlen_loop (fuel : nat) (m : machine) (a : Z) : result Z :=
  match fuel with
  | O => NoFuel
  | S fuel => b ← load8 m a; if b =? 0 then Ok 0 else n ← strlen_loop fuel m (uword (a + 1)); Ok (n + 1)
  end.

Definition strlen (fuel : nat) (a : Z) : M guard Z := reads (fun s => strlen_loop fuel (space (proc s)) a).

Definition HandleMAlloc (c : caller) (size : Z) : M guard Z :=
  res ← Allocate gOpts c size;
  if res =? 0 then in_process (orig_malloc size) else set_errno 0;; mret res.

Definition HandleCAlloc (c : caller) (elem_count elem_size : Z) : M guard Z :=
  let n := uword (elem_count * elem_size) in
  res ← Allocate gOpts c n;
  if res =? 0 then in_process (orig_calloc elem_count elem_size) else
  in_space (store_bytes res (replicate (Z.to_nat n) 0));;
  set_errno 0;;
  mret res.

Definition HandleFree (c : caller) (ptr : Z) : M guard unit :=
  freed ← Free gOpts c ptr;
  if negb freed then in_process (orig_free ptr) else set_errno 0.

Definition HandleReAlloc (c : caller) (ptr size : Z) : M guard Z :=
  if ptr =? 0 then in_process (orig_malloc size) else
  if size =? 0 then HandleFree c ptr;; set_errno 0;; mret 0 else
  ours ← reads (fun s => IsAllocatedByThisAllocator gOpts (pool s) ptr);
  if negb ours then res ← in_process (orig_realloc ptr size); set_errno 0;; mret res else
  newPtr ← HandleMAlloc c size;
  if newPtr =? 0 then set_errno ENOMEM;; mret 0 else
  oldSize ← reads (fun s => Allocation.GetAllocatedSize gOpts (pool s) ptr);
  memcpy newPtr ptr (Z.to_nat (if oldSize <=? size then oldSize else size));;
  Free gOpts c ptr;;
  set_errno 0;;
  mret newPtr.

Definition HandleMemAlign (c : caller) (alignment byte_count : Z) : M guard Z :=
  if negb (IsPowOf2 alignment) then set_errno EINVAL;; mret 0 else
  res ← AlignedAllocate gOpts c byte_count alignment;
  if negb (res =? 0) then set_errno 0;; mret res else in_process (orig_memalign alignment byte_count).

Definition HandlePosixMemAlign (c : caller) (ptr alignment size : Z) : M guard Z :=
  if negb (Z.land alignment (word_bytes - 1) =? 0) then mret EINVAL else
  res ← AlignedAllocate gOpts c size alignment;
  if negb (res =? 0) then in_space (storeW ptr res);; set_errno 0;; mret 0
  else in_process (orig_posix_memalign ptr alignment size).

Definition HandleAlignedAlloc (c : caller) (alignment size : Z) : M guard Z :=
  if alignment =? 0 then raise Undef else
  if negb (size mod alignment =? 0) then set_errno EINVAL;; mret 0 else
  HandleMemAlign c alignment size.

Definition HandleStrDup (fuel : nat) (c : caller) (str : Z) : M guard Z :=
  len ← strlen fuel str;
  buf ← Allocate gOpts c (uword (len + 1));
  if negb (buf =? 0) then
    memcpy buf str (Z.to_nat (uword (len + 1)));;
    set_errno 0;;
    mret buf
  else in_process (orig_strdup str).

Definition HandleStrNDup (fuel : nat) (c : caller) (str n : Z) : M guard Z :=
  len ← strlen fuel str;
  let dupLen := if n <=? len then n else len in
  buf ← Allocate gOpts c (uword (dupLen + 1));
  if negb (buf =? 0) then
    memcpy buf str (Z.to_nat dupLen);;
    in_space (store_bytes (uword (buf + dupLen)) [0]);;
    set_errno 0;;
    mret buf
  else in_process (orig_strndup str n).

Definition HandleMAllocUsableSize (ptr : Z) : M guard Z :=
  ours ← reads (fun s => IsAllocatedByThisAllocator gOpts (pool s) ptr);
  if ours : bool then reads (fun s => Allocation.GetAllocatedSize gOpts (pool s) ptr)
  else in_process (orig_malloc_usable_size ptr).

(** The eight handlers [HandleNew...]: the aligned ones use [align], the others the default. *)
Definition new_alignment (op : new_operator) (align : Z) : Z :=
  match op with
  | New | NewNoThrow | NewArr | NewArrNoThrow => DEFAULT_PTR_ALIGN
  | NewAligned | NewAlignedNoThrow | NewArrAligned | NewArrAlignedNoThrow => align
  end.

Definition HandleNew (op : new_operator) (c : caller) (size align : Z) : M guard Z :=
  result ← AlignedAllocate gOpts c size (new_alignment op align);
  if negb (result =? 0) then mret result else in_process (orig_new op size align).

(** The twelve handlers [HandleDelete...]. *)
Definition HandleDelete (op : delete_operator) (c : caller) (ptr : Z) : M guard unit :=
  freed ← Free gOpts c ptr;
  if negb freed then in_process (orig_delete op ptr) else mret tt.
End Interception.
End Interception.
