(* ===== verification/MemGuardHeap.v ===== *)
(** What a program sees of MemGuard: a heap of blocks.

    [call] are the functions that MemGuard replaces, and the stores of the program itself; [post] says
    what each of them does to the guarded blocks, which are a finite map from addresses to contents.
    The main theorem is that any sequence of legal calls from any threads has these effects.  The
    functions of the C library are known by their contract ([libc_ok]): they stay away from the slot
    area. *)
From S2P Require Import Prelude Arch Machine MemGuard MemGuardFacts MemGuardAlloc MemGuardHandlers.

Module GuardedHeap.
Import Auxiliary Memory PagePool Allocation Interception AlignFacts PoolFacts AllocationFacts IssueFacts.

(** A guarded block: its bytes and who allocated it. *)
Record block := MkBlock { contents : list Z; owner : caller }.

Abbreviation heap := (gmap Z block).

(** [StrDup] and [StrNDup] carry the text of the string. *)
Inductive call :=
| Malloc (size : Z)
| Calloc (elem_count elem_size : Z)
| ReAlloc (ptr size : Z)
| MemAlign (alignment byte_count : Z)
| PosixMemAlign (ptr alignment size : Z)
| AlignedAlloc (alignment size : Z)
| StrDup (str : Z) (text : list Z)
| StrNDup (str n : Z) (text : list Z)
| UsableSize (ptr : Z)
| FreeCall (ptr : Z)
| NewCall (op : new_operator) (size align : Z)
| DeleteCall (op : delete_operator) (ptr : Z)
| Store (a v : Z).

Section Heap.
Context `{Ar : Arch} `{K : Kernel} `{OF : OriginalFunctions} (gOpts : options) (fuel : nat).

(** The handler of a call; [0] stands for no result. *)
Definition exec (c : caller) (k : call) : M guard Z :=
  match k with
  | Malloc size => HandleMAlloc gOpts c size
  | Calloc elem_count elem_size => HandleCAlloc gOpts c elem_count elem_size
  | ReAlloc ptr size => HandleReAlloc gOpts c ptr size
  | MemAlign alignment byte_count => HandleMemAlign gOpts c alignment byte_count
  | PosixMemAlign ptr alignment size => HandlePosixMemAlign gOpts c ptr alignment size
  | AlignedAlloc alignment size => HandleAlignedAlloc gOpts c alignment size
  | StrDup str _ => HandleStrDup gOpts fuel c str
  | StrNDup str n _ => HandleStrNDup gOpts fuel c str n
  | UsableSize ptr => HandleMAllocUsableSize gOpts ptr
  | FreeCall ptr => HandleFree gOpts c ptr;; mret 0
  | NewCall op size align => HandleNew gOpts op c size align
  | DeleteCall op ptr => HandleDelete gOpts op c ptr;; mret 0
  | Store a v => in_space (store_bytes a [v]);; mret 0
  end.

(** ** The C library *)
Section Contract.
Context (lo hi : Z).

Definition foreign (r : Z) : Prop := ~ (lo <= r < hi).
Definition outside (a n : Z) : Prop := a + n <= lo \/ hi <= a.

(** Neither the contents nor the protection of the area changes. *)
Definition keeps_area (pr pr' : process) : Prop :=
  (forall a, lo <= a < hi -> mem (space pr') !! a = mem (space pr) !! a) /\
  (forall q, lo <= q * PAGE_SIZE < hi -> prot (space pr') !! q = prot (space pr) !! q).

Definition returns {A} (f : M process A) (pr : process) (Q : A -> process -> Prop) : Prop :=
  wp f (fun r pr' => keeps_area pr pr' /\ Q r pr') pr.

(** [n] bytes at [a] can be written to and are not in the area. *)
Definition writable (a n : Z) (pr : process) : Prop :=
  fits a n /\ outside a n /\ forall x, inside a n x -> can PROT_WRITE (space pr) x = true.

(** The documented behaviour of the original functions.  [valid pr p]: in the process [pr] the C
    library accepts [p] as a pointer that it handed out. *)
Record libc_ok (valid : process -> Z -> Prop) : Prop := MkLibcOk {
  libc_malloc : forall n pr, returns (orig_malloc n) pr (fun r pr' => foreign r /\ (r = 0 \/ writable r n pr'));
  libc_calloc : forall k n pr, returns (orig_calloc k n) pr (fun r _ => foreign r);
  libc_realloc : forall p n pr, p = 0 \/ valid pr p -> returns (orig_realloc p n) pr (fun r _ => foreign r);
  libc_memalign : forall al n pr, returns (orig_memalign al n) pr (fun r _ => foreign r);
  libc_posix_memalign : forall p al n pr, writable p word_bytes pr ->
    returns (orig_posix_memalign p al n) pr (fun _ _ => True);
  libc_strdup : forall a text pr, is_cstring text -> str_at (space pr) a text ->
    returns (orig_strdup a) pr (fun r _ => foreign r);
  libc_strndup : forall a n text pr, is_cstring text -> str_at (space pr) a text ->
    returns (orig_strndup a n) pr (fun r _ => foreign r);
  libc_usable_size : forall p pr, p = 0 \/ valid pr p -> returns (orig_malloc_usable_size p) pr (fun _ _ => True);
  libc_free : forall p pr, p = 0 \/ valid pr p -> returns (orig_free p) pr (fun _ _ => True);
  libc_new : forall op n al pr, returns (orig_new op n al) pr (fun r _ => foreign r);
  libc_delete : forall op p pr, p = 0 \/ valid pr p -> returns (orig_delete op p) pr (fun _ _ => True)
}.

(** ** Legal calls *)

(** A pointer that may be passed to [free]: the start of a guarded block, or one for the C library. *)
Definition legal_pointer (valid : process -> Z -> Prop) (s : guard) (p : Z) : Prop :=
  (exists i n, live (pool s) i p n) \/ (foreign p /\ (p = 0 \/ valid (proc s) p)).

(** The string [text] at [a], within the bound of the model and of the address space. *)
Definition legal_string (s : guard) (a : Z) (text : list Z) : Prop :=
  is_cstring text /\ str_at (space (proc s)) a text /\ (length text < fuel)%nat /\
  Z.of_nat (length text) + 1 < 2 ^ word_bits.

Definition legal (valid : process -> Z -> Prop) (s : guard) (k : call) : Prop :=
  match k with
  | Malloc n => in_word word_bits n
  | Calloc m n => in_word word_bits m /\ in_word word_bits n
  | ReAlloc p n => in_word word_bits n /\ legal_pointer valid s p
  | MemAlign al n => in_word word_bits al /\ in_word word_bits n
  | PosixMemAlign p al n => in_word word_bits al /\ in_word word_bits n /\ writable p word_bytes (proc s)
  | AlignedAlloc al n => in_word word_bits al /\ in_word word_bits n /\ al <> 0
  | StrDup a text => legal_string s a text
  | StrNDup a n text => in_word word_bits n /\ legal_string s a text
  | UsableSize p | FreeCall p | DeleteCall _ p => legal_pointer valid s p
  | NewCall _ n al => in_word word_bits n /\ in_word word_bits al
  | Store a v => in_word word_bits (a + 1) /\ 0 <= a /\ can PROT_WRITE (space (proc s)) a = true
  end.

(** ** Effects *)

(** The guarded blocks are at least a page away from [n] bytes at [r]. *)
Definition apart (h : heap) (r n : Z) : Prop := forall a b, h !! a = Some b ->
  r + n + PAGE_SIZE <= a \/ a + Z.of_nat (length (contents b)) + PAGE_SIZE <= r.

(** Up to the size of a page, alignments are respected, unless the option asks for no gaps. *)
Definition aligned (al r : Z) : Prop := perfectRightSideGuard gOpts = false -> 0 < al <= PAGE_SIZE -> r mod al = 0.

(** A call returned [r]: a new guarded block of [n] bytes, or something of the C library. *)
Definition new_block (c : caller) (al n r : Z) (P : list Z -> Prop) (h h' : heap) : Prop :=
  (foreign r /\ h' = h) \/
  (~ foreign r /\ apart h r n /\ aligned al r /\
   exists bs, Z.of_nat (length bs) = n /\ P bs /\ h' = <[r := MkBlock bs c]> h).

(** The bytes of a block after a store of [v] at [a]. *)
Definition write_block (a v start : Z) (b : block) : block :=
  if decide (inside start (Z.of_nat (length (contents b))) a)
  then MkBlock (<[Z.to_nat (a - start) := v]> (contents b)) (owner b) else b.

Definition default_align : Z := 2 * word_bytes.

(** What [realloc] keeps of a block. *)
Definition kept (b : block) (n : Z) : list Z := take (Z.to_nat n) (contents b).

Definition post (c : caller) (k : call) (h : heap) (r : Z) (s' : guard) (h' : heap) : Prop :=
  match k with
  | Malloc n => new_block c default_align n r (fun _ => True) h h'
  | Calloc m n =>
      new_block c default_align (uword (m * n)) r (fun bs => bs = replicate (Z.to_nat (uword (m * n))) 0) h h'
  | ReAlloc p n =>
      if decide (p = 0) then foreign r /\ h' = h else
      if decide (n = 0) then r = 0 /\ h' = delete p h else
      match h !! p with
      | None => foreign r /\ h' = h
      | Some b =>
          (r = 0 /\ h' = h) \/
          (r <> 0 /\ bytes_in (mem (space (proc s'))) r (length (kept b n)) = kept b n /\
           exists h1, new_block c default_align n r (fun bs => take (length (kept b n)) bs = kept b n) h h1 /\ h' = delete p h1)
      end
  | MemAlign al n => if IsPowOf2 al then new_block c al n r (fun _ => True) h h' else r = 0 /\ h' = h
  | PosixMemAlign p al n =>
      h' = h \/ (r = 0 /\ exists a, word_at (mem (space (proc s'))) p = a /\ ~ foreign a /\ new_block c al n a (fun _ => True) h h')
  | AlignedAlloc al n =>
      if (n mod al =? 0) && IsPowOf2 al then new_block c al n r (fun _ => True) h h' else r = 0 /\ h' = h
  | StrDup _ text => new_block c default_align (Z.of_nat (length text) + 1) r (fun bs => bs = text ++ [0]) h h'
  | StrNDup _ n text =>
      let t := take (Z.to_nat n) text in
      new_block c default_align (Z.of_nat (length t) + 1) r (fun bs => bs = t ++ [0]) h h'
  | UsableSize p => h' = h /\ forall b, h !! p = Some b -> r = Z.of_nat (length (contents b))
  | FreeCall p | DeleteCall _ p => h' = delete p h
  | NewCall op n al => new_block c (new_alignment op al) n r (fun _ => True) h h'
  | Store a v => h' = map_imap (fun start b => Some (write_block a v start b)) h
  end.

(** ** The guarded blocks of a state *)

(** The recorded trace [t] is that of [c]. *)
Definition made_by (c : caller) (t : trace) : Prop :=
  trace_tid t = tid c /\ trace_frames t = take MAX_RECORDED_STACKFRAME_COUNT (frames c) /\
  forall n, thread_name c = Some n -> trace_name t = <[(MAX_TASK_COMM_LEN - 1)%nat := 0]> n.

(** The block [b] at [a] is in slot [i]. *)
Definition block_at (s : guard) (i a : Z) (b : block) : Prop :=
  live (pool s) i a (Z.of_nat (length (contents b))) /\
  contents b = bytes_in (mem (space (proc s))) a (length (contents b)) /\
  exists m, sMetaArea (pool s) !! Z.to_nat i = Some m /\ made_by (owner b) (borrow_trace m).

Record holds (s : guard) (h : heap) : Prop := MkHolds {
  h_block : forall a b, h !! a = Some b -> exists i, block_at s i a b;
  h_live : forall i a n, live (pool s) i a n -> is_Some (h !! a)
}.

Record heap_ok (s : guard) (h : heap) : Prop := MkHeapOk {
  hp_guard : guard_ok gOpts s;
  hp_lo : sSlotAreaStart (pool s) = lo;
  hp_hi : sSlotAreaEnd (pool s) = hi;
  hp_holds : holds s h
}.
End Contract.
End Heap.
End GuardedHeap.
