(* ===== verification/MemGuardHeapFacts.v ===== *)
(** The handlers against the heap of MemGuardHeap.v. *)
From S2P Require Import Prelude Arch Machine MemGuard MemGuardFacts MemGuardAlloc MemGuardHandlers MemGuardHeap.

Module GuardedHeapFacts.
Import Auxiliary Memory PagePool Allocation Interception AlignFacts PoolFacts AllocationFacts IssueFacts GuardedHeap.

(** * Memory *)
Section Memory.
Context `{Ar : Arch} `{K : Kernel}.

Lemma wp_store_bytes a bs (Q : unit -> machine -> Prop) m : fits a (Z.of_nat (length bs)) ->
  (forall x, inside a (Z.of_nat (length bs)) x -> can PROT_WRITE m x = true) ->
  Q tt (set_mem m (put_bytes (mem m) a bs)) -> wp (store_bytes a bs) Q m.
Proof.
  intros Hf Hw HQ. unfold wp, store_bytes. by rewrite (proj2 (can_range_inside _ _ _ _ Hf) Hw).
Qed.

(** A store into the bytes of an object. *)
Lemma bytes_in_put_inside g a off bs n : fits (a + Z.of_nat off) (Z.of_nat (length bs)) -> (off + length bs <= n)%nat ->
  bytes_in (put_bytes g (a + Z.of_nat off) bs) a n = list_inserts off bs (bytes_in g a n).
Proof.
  intros Hf Hn. apply list_eq_same_length with n.
  - by rewrite length_inserts, length_bytes_in.
  - by rewrite length_bytes_in.
  - intros i x y Hi Hx Hy. assert (y = x); [|congruence]. revert Hx Hy.
    unfold bytes_in at 1. rewrite list_lookup_fmap, lookup_seq_lt by done. simpl. intros [= <-] Hy.
    rewrite put_bytes_lookup by done. unfold inside.
    destruct (decide (off <= i < off + length bs)%nat) as [Hin|Hout].
    + rewrite decide_True by lia.
      rewrite list_lookup_inserts in Hy by (rewrite ?length_bytes_in; lia).
      replace (Z.to_nat (a + Z.of_nat i - (a + Z.of_nat off))) with (i - off)%nat by lia. by rewrite Hy.
    + rewrite decide_False by lia.
      destruct (decide (i < off)%nat); [rewrite list_lookup_inserts_lt in Hy by lia|rewrite list_lookup_inserts_ge in Hy by lia];
        unfold bytes_in in Hy; rewrite list_lookup_fmap, lookup_seq_lt in Hy by done; by injection Hy.
Qed.

(** A store next to an object. *)
Lemma bytes_in_put_outside g a r bs n : fits r (Z.of_nat (length bs)) ->
  r + Z.of_nat (length bs) <= a \/ a + Z.of_nat n <= r ->
  bytes_in (put_bytes g r bs) a n = bytes_in g a n.
Proof.
  intros Hf Hd. apply bytes_in_ext. intros b Hb. rewrite put_bytes_lookup by done.
  rewrite decide_False; [done|]. unfold inside in *. lia.
Qed.

Lemma list_inserts_all {A} (bs l : list A) : length bs = length l -> list_inserts 0 bs l = bs.
Proof.
  intros E. apply list_eq_same_length with (length bs); [done|by rewrite length_inserts|].
  intros i x y Hi Hx Hy. rewrite list_lookup_inserts in Hx by lia. rewrite Nat.sub_0_r in Hx. congruence.
Qed.

Lemma take_inserts {A} (bs l : list A) : (length bs <= length l)%nat -> take (length bs) (list_inserts 0 bs l) = bs.
Proof.
  intros E. apply list_eq_same_length with (length bs).
  - done.
  - rewrite length_take, length_inserts. lia.
  - intros i x y Hi Hx Hy. rewrite lookup_take_lt in Hx by done. rewrite list_lookup_inserts in Hx by lia.
    rewrite Nat.sub_0_r in Hx. congruence.
Qed.

(** [strlen] and the bytes of a string. *)
Lemma strlen_loop_run m text : forall fuel a, is_cstring text -> str_at m a text -> (length text < fuel)%nat ->
  strlen_loop fuel m a = Ok (Z.of_nat (length text)).
Proof.
  induction text as [|x text IH]; intros [|fuel] a Hc Hs Hf; cbn [length] in *; try lia; cbn [strlen_loop str_at] in *.
  { by rewrite Hs. }
  apply Forall_cons in Hc as [_ Hc]. destruct Hs as (Hx & -> & Hs). cbn [mbind result_bind].
  rewrite (proj2 (Z.eqb_neq _ _)) by done. rewrite (IH fuel) by (done || lia). cbn [mbind result_bind]. f_equal. lia.
Qed.

Lemma load_text m text : forall a k, str_at m a text -> (k <= length text)%nat -> load_bytes m a k = Ok (take k text).
Proof.
  induction text as [|x text IH]; intros a [|k] Hs Hk; cbn [length] in *; try lia; [done|done|].
  cbn [load_bytes str_at] in *. destruct Hs as (_ & -> & Hs). cbn [mbind result_bind].
  rewrite IH by (done || lia). done.
Qed.

Lemma load_text_all m text : forall a, str_at m a text -> load_bytes m a (length text + 1) = Ok (text ++ [0]).
Proof.
  induction text as [|x text IH]; intros a Hs; cbn [length Nat.add] in *; cbn [load_bytes str_at] in *.
  { by rewrite Hs. }
  destruct Hs as (_ & -> & Hs). cbn [mbind result_bind]. rewrite IH by done. done.
Qed.

Lemma str_at_mono m m' text : (forall x v, load8 m x = Ok v -> load8 m' x = Ok v) -> forall a, str_at m a text -> str_at m' a text.
Proof.
  intros Hl. induction text as [|x text IH]; intros a Hs; cbn [str_at] in *; [by apply Hl|].
  destruct Hs as (? & ? & ?). split_and!; auto.
Qed.
End Memory.

(** * Blocks *)
Section Blocks.
Context `{Ar : Arch} `{K : Kernel} (gOpts : options) (lo hi : Z).

#[local] Abbreviation pool_ok := (pool_ok gOpts).
#[local] Abbreviation guard_ok := (guard_ok gOpts).
#[local] Abbreviation heap_ok := (heap_ok gOpts lo hi).
#[local] Abbreviation foreign := (foreign lo hi).

Lemma foreign_area s h a : heap_ok s h -> foreign a <-> ~ in_area (pool s) a.
Proof. intros Hh. unfold foreign, in_area. by rewrite (hp_lo _ _ _ _ _ Hh), (hp_hi _ _ _ _ _ Hh). Qed.

Lemma live_same_address p i j a n k : pool_ok p -> live p i a n -> live p j a k -> i = j.
Proof.
  intros Hp Hi Hj. assert (Ok i = Ok j) as E; [|by injection E].
  rewrite <- (live_slot_id gOpts p i a n a), <- (live_slot_id gOpts p j a k a); try done;
    [destruct (ok_block _ _ Hp _ _ _ Hj)|destruct (ok_block _ _ Hp _ _ _ Hi)]; lia.
Qed.

(** A live slot is a block of the heap, and vice versa. *)
Lemma live_block s h i a n : heap_ok s h -> live (pool s) i a n ->
  exists b, h !! a = Some b /\ block_at s i a b /\ Z.of_nat (length (contents b)) = n.
Proof.
  intros Hh Hl. destruct (h_live _ _ (hp_holds _ _ _ _ _ Hh) _ _ _ Hl) as [b Hb].
  destruct (h_block _ _ (hp_holds _ _ _ _ _ Hh) _ _ Hb) as (j & Hj). exists b. split; [done|].
  pose proof (g_pool _ _ (hp_guard _ _ _ _ _ Hh)) as Hp.
  assert (j = i) as -> by (eapply live_same_address; [done|apply Hj|done]).
  split; [done|]. by destruct (live_functional _ _ _ _ _ _ Hl (proj1 Hj)) as [_ ?].
Qed.

Lemma heap_block_area s h a b : heap_ok s h -> h !! a = Some b -> ~ foreign a.
Proof.
  intros Hh Hb Hf. apply (foreign_area s h) in Hf; [|done]. apply Hf.
  destruct (h_block _ _ (hp_holds _ _ _ _ _ Hh) _ _ Hb) as (i & Hl & _).
  eapply block_byte_area; [apply (g_pool _ _ (hp_guard _ _ _ _ _ Hh))|done|lia].
Qed.

Lemma heap_foreign s h p : heap_ok s h -> foreign p -> h !! p = None.
Proof. intros Hh Hf. destruct (h !! p) as [b|] eqn:E; [|done]. by destruct (heap_block_area _ _ _ _ Hh E). Qed.

(** Slots are a guard page apart. *)
Lemma slots_apart p i j a n b k : layout gOpts p -> block_ok p i a n -> block_ok p j b k -> i <> j ->
  a + n + PAGE_SIZE <= b \/ b + k + PAGE_SIZE <= a.
Proof.
  intros L [] [] Hne. destruct (Z.lt_trichotomy i j) as [Hlt|[?|Hlt]]; [|done|];
    pose proof (slot_start_mono _ _ L _ _ Hlt); [left|right]; lia.
Qed.

(** Blocks at different addresses are a page apart. *)
Lemma blocks_apart s h a b a' b' : heap_ok s h -> h !! a = Some b -> h !! a' = Some b' -> a <> a' ->
  a + Z.of_nat (length (contents b)) + PAGE_SIZE <= a' \/ a' + Z.of_nat (length (contents b')) + PAGE_SIZE <= a.
Proof.
  intros Hh Hb Hb' Hne. pose proof (g_pool _ _ (hp_guard _ _ _ _ _ Hh)) as Hp.
  destruct (h_block _ _ (hp_holds _ _ _ _ _ Hh) _ _ Hb) as (i & Hi & _).
  destruct (h_block _ _ (hp_holds _ _ _ _ _ Hh) _ _ Hb') as (j & Hj & _).
  eapply slots_apart; [apply (ok_layout _ _ Hp)|by apply (ok_block _ _ Hp)|by apply (ok_block _ _ Hp)|].
  intros ->. destruct (live_functional _ _ _ _ _ _ Hi Hj) as [? _]. done.
Qed.

(** The C library and the variables of the thread do not matter to the blocks. *)
Lemma heap_ok_process s h pr' t' : heap_ok s h -> keeps_area lo hi (proc s) pr' -> self_ok t' ->
  heap_ok (set_proc pr' (set_self t' s)) h.
Proof.
  intros Hh [Hm Hq] Ht. pose proof Hh as [[Hp Hpr _] Hlo Hhi [Hb Hl]]. constructor; try done.
  - constructor; [done| |done]. cbn. destruct Hpr as [Ho Hc]. constructor.
    + intros i a n q Hli Hop. rewrite Hq; [by eapply Ho|].
      destruct (opened_in_slot _ _ _ _ _ _ (ok_layout _ _ Hp) (ok_block _ _ Hp _ _ _ Hli) Hop).
      pose proof (slot_bounds _ _ (ok_layout _ _ Hp) i (live_range _ _ _ _ _ Hp Hli)). pose proof PAGE_SIZE_pos. lia.
    + intros q Hin Hno. unfold in_area in Hin. rewrite Hq by (cbn in Hin; lia). by apply Hc.
  - constructor; [|done]. intros a b Hab. destruct (Hb a b Hab) as (i & Hli & E & Hm'). exists i. split_and!; [done| |done].
    rewrite E at 1. symmetry. apply bytes_in_ext. intros x Hx. apply Hm.
    pose proof (block_byte_area gOpts _ _ _ _ x Hp Hli) as Ha. unfold inside in Hx. unfold in_area in Ha. lia.
Qed.

Lemma heap_ok_self s h t' : heap_ok s h -> same_calls (self s) t' -> heap_ok (set_self t' s) h.
Proof.
  intros Hh Hc. pose proof (heap_ok_process s h (proc s) t' Hh) as H.
  destruct s. apply H; [done|]. eapply same_calls_ok; [|done]. apply (g_self _ _ (hp_guard _ _ _ _ _ Hh)).
Qed.

(** A store of the program, or of a handler, into [a .. a + length bs) of the block at [start]. *)
Lemma heap_ok_put s h start b off bs e : heap_ok s h -> h !! start = Some b -> (off + length bs <= length (contents b))%nat ->
  heap_ok (set_proc (MkProcess (set_mem (space (proc s)) (put_bytes (mem (space (proc s))) (start + Z.of_nat off) bs)) e) s)
    (<[start := MkBlock (list_inserts off bs (contents b)) (owner b)]> h).
Proof.
  intros Hh Hb Hn. pose proof Hh as [[Hp Hpr Hs] Hlo Hhi [Hbl Hl]].
  destruct (Hbl _ _ Hb) as (i & Hli & E & Hown). pose proof (ok_layout _ _ Hp) as L.
  pose proof (slot_bounds _ _ L i (live_range _ _ _ _ _ Hp Hli)). pose proof (lay_fits _ _ L). pose proof (lay_start _ _ L).
  pose proof PAGE_SIZE_pos. destruct (ok_block _ _ Hp _ _ _ Hli).
  assert (fits (start + Z.of_nat off) (Z.of_nat (length bs))) as Hf by (unfold fits; lia).
  constructor; [by constructor|done|done|]. constructor.
  - intros a x Hx. destruct (decide (a = start)) as [-> |Hne].
    + rewrite lookup_insert_eq in Hx. injection Hx as <-. exists i. split_and!.
      * cbn. by rewrite length_inserts.
      * cbn -[put_bytes bytes_in list_inserts]. rewrite length_inserts, bytes_in_put_inside by done. by rewrite <- E.
      * done.
    + rewrite lookup_insert_ne in Hx by done. destruct (Hbl _ _ Hx) as (j & Hlj & Ej & Hj). exists j. split_and!; [done| |done].
      rewrite Ej at 1. symmetry. apply bytes_in_put_outside; [done|].
      destruct (blocks_apart _ _ _ _ _ _ Hh Hb Hx); [done|lia|lia].
  - intros j a n Hlj. destruct (decide (a = start)) as [-> |]; [rewrite lookup_insert_eq; eauto|].
    rewrite lookup_insert_ne by done. by apply (Hl j a n).
Qed.

(** A store outside of every block. *)
Lemma heap_ok_put_other s h a bs e : heap_ok s h -> fits a (Z.of_nat (length bs)) ->
  (forall start b, h !! start = Some b -> a + Z.of_nat (length bs) <= start \/ start + Z.of_nat (length (contents b)) <= a) ->
  heap_ok (set_proc (MkProcess (set_mem (space (proc s)) (put_bytes (mem (space (proc s))) a bs)) e) s) h.
Proof.
  intros Hh Hf Hd. pose proof Hh as [[Hp Hpr Hs] Hlo Hhi [Hbl Hl]]. constructor; [by constructor|done|done|].
  constructor; [|done]. intros x b Hb. destruct (Hbl _ _ Hb) as (i & Hli & E & Hown). exists i. split_and!; [done| |done].
  rewrite E at 1. symmetry. apply bytes_in_put_outside; [done|]. by apply Hd.
Qed.

(** ** Allocations *)

(** The recorded trace of a new block is that of the caller. *)
Lemma placed_trace c n a m : made_by c (borrow_trace (place_meta a (borrow_meta c n m))).
Proof.
  unfold borrow_meta, UnwindStack. split_and!; cbn [borrow_trace place_meta trace_tid trace_frames trace_name
    borrowThreadId borrowThreadName onBorrowStackFrameCount stackTraceOnBorrow].
  - done.
  - by rewrite Nat2Z.id, take_app_length.
  - intros name Hn. unfold GetSelfThreadName. by rewrite Hn.
Qed.

(** A new guarded block at [r]: what holds after [AlignedAllocate] has returned [r]. *)
Record fresh_block (c : caller) (s : guard) (h : heap) (al n r : Z) (s' : guard) : Prop := MkFresh {
  fb_nonzero : r <> 0;
  fb_area : ~ foreign r;
  fb_apart : apart h r n;
  fb_aligned : aligned gOpts al r;
  fb_fits : fits r n;
  fb_heap : heap_ok s' (<[r := MkBlock (bytes_in (mem (space (proc s'))) r (Z.to_nat n)) c]> h);
  fb_write : forall x, inside r n x -> can PROT_WRITE (space (proc s')) x = true;
  fb_load : forall x v, load8 (space (proc s)) x = Ok v -> load8 (space (proc s')) x = Ok v;
  fb_can : forall bit x, bit = PROT_READ \/ bit = PROT_WRITE -> can bit (space (proc s)) x = true -> can bit (space (proc s')) x = true
}.

Lemma can_rw bit m x : (bit = PROT_READ \/ bit = PROT_WRITE) -> prot m !! page_of x = Some (Z.lor PROT_READ PROT_WRITE) ->
  can bit m x = true.
Proof. intros Hb E. unfold can. rewrite E. by destruct Hb as [-> | ->]. Qed.

(** Lending opens pages and closes none. *)
Lemma lent_can c p pr p' pr' i a n bit x : pool_ok p -> lent gOpts c p pr p' pr' i a n ->
  (bit = PROT_READ \/ bit = PROT_WRITE) -> can bit (space pr) x = true -> can bit (space pr') x = true.
Proof.
  intros Hp Hl Hbit Hc. destruct (decide (page_of a <= page_of x < page_of a + page_count n)) as [Ho|Ho].
  - apply can_rw; [done|]. apply (prot_open _ _ _ (ln_prot _ _ _ _ _ _ _ _ _ Hl) i a n); [|done].
    apply (lent_live _ _ _ _ _ _ _ _ _ Hp Hl). by left.
  - unfold can in *. by rewrite (ln_pages _ _ _ _ _ _ _ _ _ Hl) by done.
Qed.

Lemma block_place_aligned p n al side off : layout gOpts p -> alignment_ok p al -> block_place gOpts p n al side off ->
  forall i, aligned gOpts al (slot_start p i + off).
Proof.
  intros L [Hle Hal] Hpl i Hperf [Hpos Hpage]. destruct Hal as [?|(k & Hk & ->)]; [lia|].
  assert (slot_start p i mod 2 ^ k = 0) as Hs.
  { pose proof (slot_start_page _ _ L i) as E. pose proof PAGE_SIZE_pos. apply Z.mod_divide in E; [|lia].
    apply Z.mod_divide; [lia|]. etrans; [|exact E]. pose proof page_bits_range. unfold PAGE_SIZE in *.
    assert (k <= page_bits) by (apply (Z.pow_le_mono_r_iff 2); lia).
    exists (2 ^ (page_bits - k)). rewrite <- Z.pow_add_r by lia. f_equal. lia. }
  assert (off mod 2 ^ k = 0) as Ho.
  { unfold block_place in Hpl. rewrite Hperf in Hpl. destruct side; [subst; apply Z.mod_0_l; lia|].
    destruct (decide (2 ^ k = 0)); [lia|]. apply Hpl. }
  rewrite Z.add_mod, Hs, Ho by lia. apply Z.mod_0_l. lia.
Qed.

Lemma allocated_fresh c s h al n a s' : heap_ok s h -> allocated gOpts c s s' n al a -> same_calls (self s) (self s') ->
  fresh_block c s h al n a s'.
Proof.
  intros Hh Hal Hc. pose proof (allocated_ok _ _ _ _ _ _ _ (hp_guard _ _ _ _ _ Hh) Hal Hc) as Hg'.
  destruct Hal as (i & off & side & Ea & Hpl & Hok & Hl). pose proof Hh as [[Hp Hpr Hs] Hlo Hhi [Hbl Hlv]].
  pose proof (ok_layout _ _ Hp) as L. pose proof (ln_range _ _ _ _ _ _ _ _ _ Hl) as Hi.
  pose proof (ln_block _ _ _ _ _ _ _ _ _ Hl) as Hb. pose proof Hb as [Hn Hst Hcov Hin].
  pose proof (slot_bounds _ _ L i Hi). pose proof (lay_fits _ _ L). pose proof (lay_start _ _ L). pose proof PAGE_SIZE_pos.
  pose proof (lent_live _ _ _ _ _ _ _ _ _ Hp Hl) as Hlive. destruct (ln_area _ _ _ _ _ _ _ _ _ Hl) as (Ea1 & Ea2 & Ea3 & Ea4).
  assert (live (pool s') i a n) as Hlia by (apply Hlive; by left).
  destruct (ln_memory _ _ _ _ _ _ _ _ _ Hl) as (Em & Ee & Ep).
  assert (apart h a n) as Hap.
  { intros x b Hx. destruct (Hbl _ _ Hx) as (j & Hj & _).
    destruct (slots_apart (pool s) i j a n x (Z.of_nat (length (contents b)))); try done; [by apply (ok_block _ _ Hp)| |lia|lia].
    intros <-. apply (ln_fresh _ _ _ _ _ _ _ _ _ Hl). by eexists _, _. }
  assert (forall bit x, bit = PROT_READ \/ bit = PROT_WRITE -> can bit (space (proc s)) x = true -> can bit (space (proc s')) x = true) as Hcan.
  { intros bit x Hbit. by eapply lent_can. }
  constructor; try done.
  - lia.
  - unfold foreign. rewrite <- Hlo, <- Hhi. lia.
  - rewrite Ea. by eapply block_place_aligned.
  - unfold fits. lia.
  - constructor; [done|congruence|congruence|]. constructor.
    + intros x b Hx. destruct (decide (x = a)) as [-> |Hne].
      * rewrite lookup_insert_eq in Hx. injection Hx as <-. exists i. split_and!; cbn [contents owner].
        { rewrite length_bytes_in, Z2Nat.id by lia. done. }
        { by rewrite length_bytes_in. }
        destruct (ln_metas _ _ _ _ _ _ _ _ _ Hl) as (m & Hm & ->). eexists. split; [|apply placed_trace].
        apply list_lookup_insert_eq. by eapply lookup_lt_Some.
      * rewrite lookup_insert_ne in Hx by done. destruct (Hbl _ _ Hx) as (j & Hj & E & m & Hm & Hown).
        assert (j <> i) as Hji.
        { intros ->. apply (ln_fresh _ _ _ _ _ _ _ _ _ Hl). by eexists _, _. }
        exists j. split_and!; [apply Hlive; by right|by rewrite Em|]. exists m. split; [|done].
        destruct (ln_metas _ _ _ _ _ _ _ _ _ Hl) as (m' & Hm' & ->). rewrite list_lookup_insert_ne; [done|].
        destruct Hj as [? _]. lia.
    + intros j x k Hj. apply Hlive in Hj as [(-> & -> & ->)|[Hji Hj]]; [rewrite lookup_insert_eq; eauto|].
      destruct (decide (x = a)) as [-> |]; [rewrite lookup_insert_eq; eauto|]. rewrite lookup_insert_ne by done.
      by eapply Hlv.
  - intros x Hx. apply can_rw; [by right|]. apply (prot_open _ _ _ (ln_prot _ _ _ _ _ _ _ _ _ Hl) i a n); [done|].
    eapply block_byte_page; [apply (g_pool _ _ Hg')|done|]. unfold inside in Hx. lia.
  - intros x v. unfold load8. destruct (can PROT_READ (space (proc s)) x) eqn:E; [|done].
    rewrite (Hcan PROT_READ x) by auto. by rewrite Em.
Qed.

(** [AlignedAllocate] on the heap. *)
Lemma allocate_wp c n al (Q : Z -> guard -> Prop) s h : mprotect_works -> heap_ok s h -> 0 <= n -> 0 <= al ->
  (forall t', same_calls (self s) t' -> heap_ok (set_self t' s) h -> Q 0 (set_self t' s)) ->
  (forall r s', fresh_block c s h al n r s' -> Q r s') ->
  wp (AlignedAllocate gOpts c n al) Q s.
Proof.
  intros Hmp Hh Hn Hal H0 HQ. apply AlignedAllocate_wp; [done|apply (hp_guard _ _ _ _ _ Hh)|done|done|..].
  - intros t' Ht _. apply H0; [done|]. by apply heap_ok_self.
  - intros a s' Ha Hc. apply HQ. by eapply allocated_fresh.
Qed.

(** ** Releases *)

Lemma released_heap c s h i a n s' : heap_ok s h -> live (pool s) i a n -> released gOpts c s s' i -> self s' = self s ->
  heap_ok s' (delete a h).
Proof.
  intros Hh Hl Hr E. pose proof (released_ok _ _ _ _ _ (hp_guard _ _ _ _ _ Hh) Hr E) as Hg'.
  pose proof Hh as [[Hp Hpr Hs] Hlo Hhi [Hbl Hlv]]. destruct (rt_area _ _ _ _ _ _ _ Hr) as (E1 & E2 & E3 & E4).
  pose proof (returned_live _ _ _ _ _ _ _ Hr) as Hlive. destruct (rt_memory _ _ _ _ _ _ _ Hr) as (Em & _ & _).
  constructor; [done|congruence|congruence|]. constructor.
  - intros x b Hx. apply lookup_delete_Some in Hx as [Hne Hx]. destruct (Hbl _ _ Hx) as (j & Hj & Ej & m & Hm & Hown).
    assert (j <> i) as Hji. { intros ->. destruct (live_functional _ _ _ _ _ _ Hl Hj). congruence. }
    exists j. split_and!; [by apply Hlive|by rewrite Em|]. exists m. split; [|done].
    destruct (rt_metas _ _ _ _ _ _ _ Hr) as (m' & _ & Hi & ->). rewrite list_lookup_insert_ne; [done|].
    destruct Hj as [? _]. lia.
  - intros j x k Hj. apply Hlive in Hj as [Hji Hj]. rewrite lookup_delete_ne; [by eapply Hlv|].
    intros ->. apply Hji. by eapply live_same_address.
Qed.

Lemma free_live_wp c ptr i n (Q : bool -> guard -> Prop) s h : mprotect_works -> heap_ok s h -> live (pool s) i ptr n ->
  (forall s', heap_ok s' (delete ptr h) -> mem (space (proc s')) = mem (space (proc s)) ->
     (forall q, ~ in_area (pool s) (q * PAGE_SIZE) -> prot (space (proc s')) !! q = prot (space (proc s)) !! q) -> Q true s') ->
  wp (Free gOpts c ptr) Q s.
Proof.
  intros Hmp Hh Hl HQ. pose proof (g_pool _ _ (hp_guard _ _ _ _ _ Hh)) as Hp. destruct (ok_block _ _ Hp _ _ _ Hl).
  eapply Free_wp; [done|apply (hp_guard _ _ _ _ _ Hh)|done|lia|]. intros s' Hr E.
  destruct (rt_memory _ _ _ _ _ _ _ Hr) as (Em & _ & Eo). apply HQ; [by eapply released_heap|done|done].
Qed.
End Blocks.

(** * Handlers *)
Section Handlers.
Context `{Ar : Arch} `{K : Kernel} `{OF : OriginalFunctions} (gOpts : options) (fuel : nat) (lo hi : Z).
Context (valid : process -> Z -> Prop) (libc : libc_ok lo hi valid) (Hmp : mprotect_works).

#[local] Abbreviation heap_ok := (heap_ok gOpts lo hi).
#[local] Abbreviation foreign := (foreign lo hi).
#[local] Abbreviation returns := (returns lo hi).
#[local] Abbreviation new_block := (new_block gOpts lo hi).
#[local] Abbreviation fresh_block := (fresh_block gOpts lo hi).

Lemma wp_orig {A} (f : M process A) (P : A -> process -> Prop) (Q : A -> guard -> Prop) s h : heap_ok s h ->
  returns f (proc s) P -> (forall r pr', heap_ok (set_proc pr' s) h -> P r pr' -> Q r (set_proc pr' s)) ->
  wp (in_process f) Q s.
Proof.
  intros Hh Hr HQ. apply wp_in_process. eapply wp_mono; [|exact Hr]. intros r pr' [Hk HP]. apply HQ; [|done].
  pose proof (heap_ok_process _ _ _ s h pr' (self s) Hh Hk (g_self _ _ (hp_guard _ _ _ _ _ Hh))). by destruct s.
Qed.

Lemma wp_errno e (Q : unit -> guard -> Prop) s : Q tt (set_proc (MkProcess (space (proc s)) e) s) -> wp (set_errno e) Q s.
Proof. intros HQ. by apply wp_in_process, wp_modify. Qed.

Lemma heap_ok_errno s h e : heap_ok s h -> heap_ok (set_proc (MkProcess (space (proc s)) e) s) h.
Proof.
  intros Hh. pose proof (heap_ok_process _ _ _ s h (MkProcess (space (proc s)) e) (self s) Hh) as H.
  destruct s. apply H; [done|]. apply (g_self _ _ (hp_guard _ _ _ _ _ Hh)).
Qed.

(** The result of a handler: the heap after it. *)
Definition effect (c : caller) (k : call) (h : heap) (r : Z) (s' : guard) : Prop :=
  exists h', heap_ok s' h' /\ post gOpts lo hi c k h r s' h'.

(** A fresh block, with the bytes that were written into it. *)
Lemma fresh_new c s h al n r s' bs (P : list Z -> Prop) : fresh_block c s h al n r s' -> Z.of_nat (length bs) = n -> P bs ->
  new_block c al n r P h (<[r := MkBlock bs c]> h).
Proof.
  intros [] Hn HP. right. split_and!; [done..|]. exists bs. done.
Qed.

(** Writing [bs] at the start of a fresh block. *)
Lemma fresh_store c s h al n r s' bs (Q : unit -> guard -> Prop) : fresh_block c s h al n r s' -> Z.of_nat (length bs) <= n ->
  (forall s2, heap_ok s2 (<[r := MkBlock (list_inserts 0 bs (bytes_in (mem (space (proc s'))) r (Z.to_nat n))) c]> h) ->
     mem (space (proc s2)) = put_bytes (mem (space (proc s'))) r bs -> prot (space (proc s2)) = prot (space (proc s')) ->
     pool s2 = pool s' -> Q tt s2) ->
  wp (in_space (store_bytes r bs)) Q s'.
Proof.
  intros Hf Hn HQ. pose proof Hf as [Hnz Har Hap Hal [Hfit1 Hfit2] Hh Hw Hld Hcan].
  apply wp_in_space, wp_store_bytes; [unfold fits; lia|intros x Hx; apply Hw; unfold inside in *; lia|].
  apply HQ; [|done|done|done].
  pose proof (heap_ok_put _ _ _ s' _ r _ 0 bs (errno (proc s')) Hh (lookup_insert_eq _ _ _)) as H.
  cbn [contents owner] in H. rewrite length_bytes_in in H. rewrite Z.add_0_r in H. rewrite insert_insert_eq in H.
  apply H. lia.
Qed.

Lemma default_align_nonneg : 0 <= default_align.
Proof. unfold default_align. pose proof word_bytes_pos. lia. Qed.

Lemma malloc_effect c n s h : heap_ok s h -> in_word word_bits n -> wp (HandleMAlloc gOpts c n) (effect c (Malloc n) h) s.
Proof.
  intros Hh [Hn _]. unfold HandleMAlloc, Allocate. wp_step.
  apply (allocate_wp gOpts lo hi _ _ _ _ _ h); [done|done|done|apply default_align_nonneg|..].
  - intros t' _ Hh'. rewrite Z.eqb_refl. eapply wp_orig; [done|apply (libc_malloc _ _ _ libc)|].
    intros r pr' Hh2 [Hf _]. exists h. split; [done|]. by left.
  - intros r s' Hf. rewrite (proj2 (Z.eqb_neq _ _)) by apply (fb_nonzero _ _ _ _ _ _ _ _ _ _ Hf).
    wp_step. apply wp_errno. wp_step. eexists. split; [apply heap_ok_errno, (fb_heap _ _ _ _ _ _ _ _ _ _ Hf)|].
    eapply fresh_new; [done| |done]. rewrite length_bytes_in, Z2Nat.id; done.
Qed.

Lemma calloc_effect c m n s h : heap_ok s h -> wp (HandleCAlloc gOpts c m n) (effect c (Calloc m n) h) s.
Proof.
  intros Hh. pose proof (uword_range (m * n)) as Hr. unfold HandleCAlloc, Allocate. wp_step.
  apply (allocate_wp gOpts lo hi _ _ _ _ _ h); [done|done|lia|apply default_align_nonneg|..].
  - intros t' _ Hh'. rewrite Z.eqb_refl. eapply wp_orig; [done|apply (libc_calloc _ _ _ libc)|].
    intros r pr' Hh2 Hf. exists h. split; [done|]. by left.
  - intros r s' Hf. rewrite (proj2 (Z.eqb_neq _ _)) by apply (fb_nonzero _ _ _ _ _ _ _ _ _ _ Hf).
    wp_step. eapply fresh_store; [done|rewrite length_replicate; lia|]. intros s2 Hh2 _ _ _.
    rewrite list_inserts_all in Hh2 by (rewrite length_replicate, length_bytes_in; done).
    wp_step. apply wp_errno. wp_step. eexists. split; [by apply heap_ok_errno|].
    eapply fresh_new; [done| |done]. rewrite length_replicate. lia.
Qed.

Lemma memalign_effect c al n s h : heap_ok s h -> 0 <= al -> 0 <= n ->
  wp (HandleMemAlign gOpts c al n) (effect c (MemAlign al n) h) s.
Proof.
  intros Hh Hal Hn. unfold HandleMemAlign, effect, post. destruct (IsPowOf2 al); cbn [negb].
  2:{ wp_step. apply wp_errno. wp_step. exists h. split; [by apply heap_ok_errno|done]. }
  wp_step. apply (allocate_wp gOpts lo hi _ _ _ _ _ h); [done|done|done|done|..].
  - intros t' _ Hh'. rewrite Z.eqb_refl. cbn [negb]. eapply wp_orig; [done|apply (libc_memalign _ _ _ libc)|].
    intros r pr' Hh2 Hf. exists h. split; [done|]. by left.
  - intros r s' Hf. rewrite (proj2 (Z.eqb_neq _ _)) by apply (fb_nonzero _ _ _ _ _ _ _ _ _ _ Hf). cbn [negb].
    wp_step. apply wp_errno. wp_step. eexists. split; [apply heap_ok_errno, (fb_heap _ _ _ _ _ _ _ _ _ _ Hf)|].
    eapply fresh_new; [done| |done]. rewrite length_bytes_in, Z2Nat.id; done.
Qed.

Lemma aligned_alloc_effect c al n s h : heap_ok s h -> 0 <= al -> 0 <= n -> al <> 0 ->
  wp (HandleAlignedAlloc gOpts c al n) (effect c (AlignedAlloc al n) h) s.
Proof.
  intros Hh Hal Hn Hnz. unfold HandleAlignedAlloc, effect, post. rewrite (proj2 (Z.eqb_neq _ _)) by done.
  destruct (n mod al =? 0); cbn [negb andb].
  - eapply wp_mono; [|by apply (memalign_effect c al n s h)]. intros r s' H. exact H.
  - wp_step. apply wp_errno. wp_step. exists h. split; [by apply heap_ok_errno|done].
Qed.

Lemma new_effect c op n al s h : heap_ok s h -> 0 <= al -> 0 <= n ->
  wp (HandleNew gOpts op c n al) (effect c (NewCall op n al) h) s.
Proof.
  intros Hh Hal Hn. unfold HandleNew, effect, post. wp_step.
  assert (0 <= new_alignment op al) by (unfold new_alignment, DEFAULT_PTR_ALIGN; destruct op, is_lp64; lia).
  apply (allocate_wp gOpts lo hi _ _ _ _ _ h); [done|done|done|done|..].
  - intros t' _ Hh'. rewrite Z.eqb_refl. cbn [negb]. eapply wp_orig; [done|apply (libc_new _ _ _ libc)|].
    intros r pr' Hh2 Hf. exists h. split; [done|]. by left.
  - intros r s' Hf. rewrite (proj2 (Z.eqb_neq _ _)) by apply (fb_nonzero _ _ _ _ _ _ _ _ _ _ Hf). cbn [negb].
    wp_step. eexists. split; [apply (fb_heap _ _ _ _ _ _ _ _ _ _ Hf)|].
    eapply fresh_new; [done| |done]. rewrite length_bytes_in, Z2Nat.id; done.
Qed.

(** Copying bytes that can be read into a fresh block. *)
Lemma fresh_memcpy c s h al n r s' src k bs (Q : unit -> guard -> Prop) : fresh_block c s h al n r s' ->
  load_bytes (space (proc s')) src k = Ok bs -> Z.of_nat (length bs) <= n ->
  (forall s2, heap_ok s2 (<[r := MkBlock (list_inserts 0 bs (bytes_in (mem (space (proc s'))) r (Z.to_nat n))) c]> h) ->
     mem (space (proc s2)) = put_bytes (mem (space (proc s'))) r bs -> prot (space (proc s2)) = prot (space (proc s')) ->
     pool s2 = pool s' -> Q tt s2) ->
  wp (memcpy r src k) Q s'.
Proof.
  intros Hf Hl Hn HQ. unfold memcpy. wp_step. eapply wp_reads; [exact Hl|]. by eapply fresh_store.
Qed.

Lemma strdup_effect c a text s h : heap_ok s h -> legal_string fuel s a text ->
  wp (HandleStrDup gOpts fuel c a) (effect c (StrDup a text) h) s.
Proof.
  intros Hh (Hc & Hs & Hf & Hlen). unfold HandleStrDup, Allocate, effect, post. wp_step.
  eapply wp_reads; [by apply strlen_loop_run|]. rewrite uword_small by lia. wp_step.
  apply (allocate_wp gOpts lo hi _ _ _ _ _ h); [done|done|lia|apply default_align_nonneg|..].
  - intros t' _ Hh'. rewrite Z.eqb_refl. cbn [negb]. eapply wp_orig; [done|by apply (libc_strdup _ _ _ libc _ text)|].
    intros r pr' Hh2 Hfo. exists h. split; [done|]. by left.
  - intros r s' Hfr. rewrite (proj2 (Z.eqb_neq _ _)) by apply (fb_nonzero _ _ _ _ _ _ _ _ _ _ Hfr). cbn [negb]. wp_step.
    replace (Z.to_nat (Z.of_nat (length text) + 1)) with (length text + 1)%nat by lia.
    assert (length (text ++ [0]) = (length text + 1)%nat) as El by (rewrite length_app; done).
    eapply fresh_memcpy; [done| |rewrite El; lia|].
    { apply load_text_all. eapply str_at_mono; [|exact Hs]. apply (fb_load _ _ _ _ _ _ _ _ _ _ Hfr). }
    intros s2 Hh2 _ _ _. rewrite list_inserts_all in Hh2 by (rewrite length_bytes_in, El; lia).
    wp_step. apply wp_errno. wp_step. eexists. split; [by apply heap_ok_errno|].
    eapply fresh_new; [done|rewrite El; lia|done].
Qed.

Lemma inserts_at_end (bs : list Z) l v : length l = S (length bs) -> list_inserts (length bs) [v] (list_inserts 0 bs l) = bs ++ [v].
Proof.
  intros E. apply list_eq_same_length with (length bs + 1)%nat; [rewrite length_app; done|rewrite !length_inserts; lia|].
  intros i x y Hi Hx Hy. destruct (decide (i = length bs)) as [-> |Hne].
  - rewrite list_lookup_inserts in Hx by (rewrite ?length_inserts; simpl; lia).
    rewrite Nat.sub_diag in Hx. rewrite lookup_app_r, Nat.sub_diag in Hy by lia. simpl in *. congruence.
  - rewrite list_lookup_inserts_lt in Hx by lia. rewrite list_lookup_inserts in Hx by lia.
    rewrite Nat.sub_0_r in Hx. rewrite lookup_app_l in Hy by lia. congruence.
Qed.

Lemma strndup_effect c a n text s h : heap_ok s h -> legal_string fuel s a text -> 0 <= n ->
  wp (HandleStrNDup gOpts fuel c a n) (effect c (StrNDup a n text) h) s.
Proof.
  intros Hh (Hc & Hs & Hf & Hlen) Hn. unfold HandleStrNDup, Allocate, effect, post. wp_step.
  eapply wp_reads; [by apply strlen_loop_run|].
  set (t := take (Z.to_nat n) text). assert ((if n <=? Z.of_nat (length text) then n else Z.of_nat (length text)) = Z.of_nat (length t)) as ->.
  { unfold t. rewrite length_take. destruct (Z.leb_spec n (Z.of_nat (length text))); lia. }
  assert (length t <= length text)%nat by (unfold t; rewrite length_take; lia).
  rewrite uword_small by lia. rewrite Nat2Z.id. wp_step.
  apply (allocate_wp gOpts lo hi _ _ _ _ _ h); [done|done|lia|apply default_align_nonneg|..].
  - intros t' _ Hh'. rewrite Z.eqb_refl. cbn [negb]. eapply wp_orig; [done|by apply (libc_strndup _ _ _ libc _ _ text)|].
    intros r pr' Hh2 Hfo. exists h. split; [done|]. by left.
  - intros r s' Hfr. rewrite (proj2 (Z.eqb_neq _ _)) by apply (fb_nonzero _ _ _ _ _ _ _ _ _ _ Hfr). cbn [negb]. wp_step.
    pose proof (fb_fits _ _ _ _ _ _ _ _ _ _ Hfr) as [Hf1 Hf2].
    assert (take (length t) text = t) as Et.
    { unfold t. rewrite length_take. destruct (Nat.min_spec (Z.to_nat n) (length text)) as [[_ ->]|[? ->]]; [done|].
      by rewrite !take_ge by lia. }
    eapply (fresh_memcpy _ _ _ _ _ _ _ _ _ t); [done| |lia|].
    { rewrite <- Et at 2. apply load_text; [|done]. eapply str_at_mono; [|exact Hs]. apply (fb_load _ _ _ _ _ _ _ _ _ _ Hfr). }
    intros s2 Hh2 _ Hp2 _. rewrite uword_small by lia. wp_step. apply wp_in_space, wp_store_bytes.
    { unfold fits. simpl. lia. }
    { intros x Hx. pose proof (fb_write _ _ _ _ _ _ _ _ _ _ Hfr x) as Hw. unfold can in *. rewrite Hp2. apply Hw.
      unfold inside in *. simpl in Hx. lia. }
    pose proof (heap_ok_put _ _ _ s2 _ r _ (length t) [0] (errno (proc s2)) Hh2 (lookup_insert_eq _ _ _)) as H3.
    cbn [contents owner] in H3. rewrite insert_insert_eq in H3.
    rewrite inserts_at_end in H3 by (rewrite length_bytes_in; lia).
    wp_step. apply wp_errno. wp_step. eexists. split.
    + apply heap_ok_errno. apply H3. rewrite length_inserts, length_bytes_in. simpl. lia.
    + eapply fresh_new; [done| |done]. rewrite length_app. simpl. lia.
Qed.

(** ** Pointers *)

Lemma legal_pointer_cases s h p : heap_ok s h -> legal_pointer lo hi valid s p ->
  (exists i n, live (pool s) i p n) \/ (~ in_area (pool s) p /\ h !! p = None /\ (p = 0 \/ valid (proc s) p)).
Proof.
  intros Hh [?|[Hf Hv]]; [by left|right]. split_and!; [by apply (foreign_area gOpts lo hi s h)|by eapply heap_foreign|done].
Qed.

Lemma free_effect c p s h : heap_ok s h -> legal_pointer lo hi valid s p ->
  wp (HandleFree gOpts c p) (fun _ s' => heap_ok s' (delete p h)) s.
Proof.
  intros Hh Hp. unfold HandleFree. wp_step. destruct (legal_pointer_cases _ _ _ Hh Hp) as [(i & n & Hl)|(Ho & Hn & Hv)].
  - eapply free_live_wp; [done|done|done|]. intros s' Hh' _ _. cbn [negb]. apply wp_errno. by apply heap_ok_errno.
  - unfold wp at 1. rewrite Free_outside by (done || apply (hp_guard _ _ _ _ _ Hh)). cbn [negb].
    eapply wp_orig; [done|by apply (libc_free _ _ _ libc)|]. intros _ pr' Hh' _. by rewrite delete_id.
Qed.

Lemma delete_effect c op p s h : heap_ok s h -> legal_pointer lo hi valid s p ->
  wp (HandleDelete gOpts op c p) (fun _ s' => heap_ok s' (delete p h)) s.
Proof.
  intros Hh Hp. unfold HandleDelete. wp_step. destruct (legal_pointer_cases _ _ _ Hh Hp) as [(i & n & Hl)|(Ho & Hn & Hv)].
  - eapply free_live_wp; [done|done|done|]. intros s' Hh' _ _. cbn [negb]. by wp_step.
  - unfold wp at 1. rewrite Free_outside by (done || apply (hp_guard _ _ _ _ _ Hh)). cbn [negb].
    eapply wp_orig; [done|by apply (libc_delete _ _ _ libc)|]. intros _ pr' Hh' _. by rewrite delete_id.
Qed.

Lemma usable_size_effect c p s h : heap_ok s h -> legal_pointer lo hi valid s p ->
  wp (HandleMAllocUsableSize gOpts p) (effect c (UsableSize p) h) s.
Proof.
  intros Hh Hp. pose proof (g_pool _ _ (hp_guard _ _ _ _ _ Hh)) as Hpo. unfold HandleMAllocUsableSize, effect, post. wp_step.
  destruct (legal_pointer_cases _ _ _ Hh Hp) as [(i & n & Hl)|(Ho & Hn & Hv)].
  - eapply wp_reads; [by eapply IsAllocated_live|]. eapply wp_reads; [by eapply GetAllocatedSize_live|].
    exists h. split_and!; [done|done|]. intros b Hb. destruct (live_block _ _ _ _ _ _ _ _ Hh Hl) as (b' & Hb' & _ & <-). congruence.
  - eapply wp_reads; [by apply IsAllocated_outside|]. cbn [negb].
    eapply wp_orig; [done|by apply (libc_usable_size _ _ _ libc)|]. intros r pr' Hh' _.
    exists h. split_and!; [done|done|]. intros b Hb. congruence.
Qed.

Lemma store_effect c a v s h : heap_ok s h -> 0 <= a -> a + 1 < 2 ^ word_bits -> can PROT_WRITE (space (proc s)) a = true ->
  wp (in_space (store_bytes a [v])) (fun _ s' => effect c (Store a v) h 0 s') s.
Proof.
  intros Hh Ha0 Ha Hw. apply wp_in_space, wp_store_bytes.
  { unfold fits. simpl. lia. }
  { intros x Hx. unfold inside in Hx. simpl in Hx. by replace x with a by lia. }
  set (s' := set_space _ s). assert (forall x b, h !! x = Some b ->
    inside x (Z.of_nat (length (contents b))) a \/ a + 1 <= x \/ x + Z.of_nat (length (contents b)) <= a) as Hcases.
  { intros x b _. unfold inside. lia. }
  destruct (decide (map_Exists (fun x b => inside x (Z.of_nat (length (contents b))) a) h)) as [(x & b & Hb & Hin)|Hno].
  - eexists. split; [|reflexivity].
    pose proof (heap_ok_put _ _ _ s h x b (Z.to_nat (a - x)) [v] (errno (proc s)) Hh Hb) as H.
    replace (x + Z.of_nat (Z.to_nat (a - x))) with a in H by (unfold inside in Hin; lia).
    assert (map_imap (fun start b => Some (write_block a v start b)) h
      = <[x := MkBlock (list_inserts (Z.to_nat (a - x)) [v] (contents b)) (owner b)]> h) as ->.
    { apply map_eq. intros y. rewrite map_lookup_imap. destruct (decide (y = x)) as [-> |Hne].
      - rewrite lookup_insert_eq, Hb. simpl. unfold write_block. by rewrite decide_True.
      - rewrite lookup_insert_ne by done. destruct (h !! y) as [b'|] eqn:Ey; [|done]. simpl.
        unfold write_block. rewrite decide_False; [done|]. intros Hin'.
        destruct (blocks_apart _ _ _ _ _ _ _ _ _ Hh Hb Ey); [done|..]; unfold inside in *; pose proof PAGE_SIZE_pos; lia. }
    apply H. unfold inside in Hin. simpl. lia.
  - eexists. split; [|reflexivity].
    assert (map_imap (fun start b => Some (write_block a v start b)) h = h) as ->.
    { apply map_eq. intros y. rewrite map_lookup_imap. destruct (h !! y) as [b'|] eqn:Ey; [|done]. simpl.
      unfold write_block. rewrite decide_False; [done|]. intros Hin. apply Hno. by exists y, b'. }
    apply (heap_ok_put_other _ _ _ s h a [v] (errno (proc s)) Hh); [unfold fits; simpl; lia|].
    intros x b Hb. simpl. destruct (Hcases x b Hb) as [Hin|?]; [|lia]. destruct Hno. by exists x, b.
Qed.

(** ** [realloc] *)

(** The blocks of the heap lie in the area. *)
Lemma block_bounds s h a b : heap_ok s h -> h !! a = Some b ->
  lo <= a /\ a + Z.of_nat (length (contents b)) <= hi /\ 0 < lo /\ hi < 2 ^ word_bits.
Proof.
  intros Hh Hb. pose proof Hh as [[Hp _ _] <- <- [Hbl _]]. destruct (Hbl _ _ Hb) as (i & Hl & _).
  pose proof (ok_layout _ _ Hp) as L. pose proof (lay_start _ _ L). pose proof (lay_fits _ _ L).
  pose proof (block_byte_area gOpts _ _ _ _ a Hp Hl ltac:(lia)) as [? ?].
  pose proof (block_byte_area gOpts _ _ _ _ (a + Z.of_nat (length (contents b))) Hp Hl ltac:(lia)) as [? ?]. lia.
Qed.

Lemma bytes_in_take g a n k : (k <= n)%nat -> take k (bytes_in g a n) = bytes_in g a k.
Proof.
  intros Hk. unfold bytes_in. rewrite <- fmap_take. f_equal. rewrite take_seq. f_equal. lia.
Qed.

(** The bytes of a block can be read. *)
Lemma block_load s h a b k : heap_ok s h -> h !! a = Some b -> (k <= length (contents b))%nat ->
  load_bytes (space (proc s)) a k = Ok (take k (contents b)).
Proof.
  intros Hh Hb Hk. destruct (block_bounds _ _ _ _ Hh Hb) as (? & ? & ? & ?).
  pose proof Hh as [[Hp Hpr _] _ _ [Hbl _]]. destruct (Hbl _ _ Hb) as (i & Hl & E & _).
  rewrite load_bytes_in; [|unfold fits; lia|].
  - rewrite E. by rewrite bytes_in_take.
  - intros x Hx. apply can_rw; [by left|]. eapply (prot_open _ _ _ Hpr); [done|].
    eapply block_byte_page; [done|done|]. unfold inside in Hx. lia.
Qed.

Lemma bytes_in_put_same g a bs : fits a (Z.of_nat (length bs)) -> bytes_in (put_bytes g a bs) a (length bs) = bs.
Proof.
  intros Hf. pose proof (bytes_in_put_inside g a 0 bs (length bs)) as H. rewrite Z.add_0_r in H. rewrite H; [|done|lia].
  apply list_inserts_all. by rewrite length_bytes_in.
Qed.

Lemma fresh_errno c s h al n r s' e : fresh_block c s h al n r s' ->
  fresh_block c s h al n r (set_proc (MkProcess (space (proc s')) e) s').
Proof. intros []. constructor; try done. by apply heap_ok_errno. Qed.

Lemma malloc_wp c n (Q : Z -> guard -> Prop) s h : heap_ok s h -> 0 <= n ->
  (forall r s', heap_ok s' h -> foreign r -> r = 0 \/ writable lo hi r n (proc s') -> Q r s') ->
  (forall r s', fresh_block c s h default_align n r s' -> Q r s') ->
  wp (HandleMAlloc gOpts c n) Q s.
Proof.
  intros Hh Hn H0 HQ. unfold HandleMAlloc, Allocate. wp_step.
  apply (allocate_wp gOpts lo hi _ _ _ _ _ h); [done|done|done|apply default_align_nonneg|..].
  - intros t' _ Hh'. rewrite Z.eqb_refl. eapply wp_orig; [done|apply (libc_malloc _ _ _ libc)|].
    intros r pr' Hh2 [Hf Hw]. by apply H0.
  - intros r s' Hf. rewrite (proj2 (Z.eqb_neq _ _)) by apply (fb_nonzero _ _ _ _ _ _ _ _ _ _ Hf).
    wp_step. apply wp_errno. wp_step. apply HQ. by apply fresh_errno.
Qed.

Lemma heap_live s h a b : heap_ok s h -> h !! a = Some b -> exists i, live (pool s) i a (Z.of_nat (length (contents b))).
Proof. intros Hh Hb. destruct (h_block _ _ (hp_holds _ _ _ _ _ Hh) _ _ Hb) as (i & Hl & _). by exists i. Qed.

(** What is left of a reallocation once the new place [r] is known, with the bytes copied. *)
Lemma finish_realloc c p b r s2 (Q : Z -> guard -> Prop) (h1 : heap) : heap_ok s2 h1 -> h1 !! p = Some b -> r <> 0 ->
  (forall s3, heap_ok s3 (delete p h1) -> mem (space (proc s3)) = mem (space (proc s2)) -> Q r s3) ->
  wp (Free gOpts c p;; set_errno 0;; mret r) Q s2.
Proof.
  intros Hh Hb Hr HQ. destruct (heap_live _ _ _ _ Hh Hb) as (i & Hl). wp_step.
  eapply free_live_wp; [done|done|done|]. intros s3 Hh3 Em _. wp_step. apply wp_errno. wp_step.
  apply HQ; [by apply heap_ok_errno|done].
Qed.

Lemma kept_facts b n : 0 <= n ->
  Z.to_nat (if Z.of_nat (length (contents b)) <=? n then Z.of_nat (length (contents b)) else n) = length (kept b n) /\
  (length (kept b n) <= length (contents b))%nat /\ Z.of_nat (length (kept b n)) <= n /\
  take (length (kept b n)) (contents b) = kept b n.
Proof.
  intros Hn. unfold kept. rewrite length_take. split_and!; [|lia|lia|].
  - destruct (Z.leb_spec (Z.of_nat (length (contents b))) n); lia.
  - destruct (Nat.min_spec (Z.to_nat n) (length (contents b))) as [[_ ->]|[? ->]]; [done|]. by rewrite !take_ge by lia.
Qed.

(** The rest of [HandleReAlloc], once it has the new place [r]. *)
Definition move (c : caller) (p r size : Z) : M guard Z :=
  oldSize ← reads (fun s => Allocation.GetAllocatedSize gOpts (pool s) p);
  memcpy r p (Z.to_nat (if oldSize <=? size then oldSize else size));;
  Free gOpts c p;;
  set_errno 0;;
  mret r.

Lemma live_size s h p b : heap_ok s h -> h !! p = Some b ->
  Allocation.GetAllocatedSize gOpts (pool s) p = Ok (Z.of_nat (length (contents b))).
Proof.
  intros Hh Hb. destruct (heap_live _ _ _ _ Hh Hb) as (j & Hj).
  eapply GetAllocatedSize_live; [apply (g_pool _ _ (hp_guard _ _ _ _ _ Hh))|done].
Qed.

(** Moving a block to memory of the C library. *)
Lemma move_out c p b n r s h (Q : Z -> guard -> Prop) : heap_ok s h -> h !! p = Some b -> 0 <= n -> r <> 0 ->
  writable lo hi r n (proc s) ->
  (forall s3, heap_ok s3 (delete p h) -> bytes_in (mem (space (proc s3))) r (length (kept b n)) = kept b n -> Q r s3) ->
  wp (move c p r n) Q s.
Proof.
  intros Hh Hb Hn Hr ([Hfit1 Hfit2] & Hout & Hcan) HQ. destruct (kept_facts b n Hn) as (Ek & Hk1 & Hk2 & Et).
  unfold move. wp_step. eapply wp_reads; [by apply (live_size _ h)|]. rewrite Ek.
  wp_step. unfold memcpy. wp_step. eapply wp_reads; [by apply (block_load _ h _ b)|]. rewrite Et.
  assert (fits r (Z.of_nat (length (kept b n)))) as Hfit by (unfold fits; lia).
  apply wp_in_space, wp_store_bytes; [done|intros x Hx; apply Hcan; unfold inside in *; lia|].
  eapply finish_realloc; [|exact Hb|done|].
  - apply (heap_ok_put_other _ _ _ s h r (kept b n) (errno (proc s)) Hh Hfit).
    intros x b' Hb'. destruct (block_bounds _ _ _ _ Hh Hb') as (? & ? & _). unfold outside in Hout. lia.
  - intros s3 Hh3 Em. apply HQ; [done|]. rewrite Em. by apply bytes_in_put_same.
Qed.

(** Moving a block to a new guarded one. *)
Lemma move_in c p b n r s0 s h (Q : Z -> guard -> Prop) : fresh_block c s0 h default_align n r s -> h !! p = Some b -> 0 <= n ->
  (forall s3 h1, heap_ok s3 (delete p h1) -> bytes_in (mem (space (proc s3))) r (length (kept b n)) = kept b n ->
     new_block c default_align n r (fun bs => take (length (kept b n)) bs = kept b n) h h1 -> Q r s3) ->
  wp (move c p r n) Q s.
Proof.
  intros Hf Hb Hn HQ. destruct (kept_facts b n Hn) as (Ek & Hk1 & Hk2 & Et).
  pose proof (fb_heap _ _ _ _ _ _ _ _ _ _ Hf) as Hh. pose proof (fb_fits _ _ _ _ _ _ _ _ _ _ Hf) as [Hfit1 Hfit2].
  assert (r <> p) as Hrp. { intros ->. destruct (fb_apart _ _ _ _ _ _ _ _ _ _ Hf _ _ Hb); pose proof PAGE_SIZE_pos; lia. }
  unfold move. wp_step. eapply wp_reads; [eapply (live_size _ _ p b Hh); by rewrite lookup_insert_ne|].
  rewrite Ek. wp_step. eapply (fresh_memcpy _ _ _ _ _ _ _ _ _ (kept b n)); [done| |done|].
  { rewrite <- Et at 2. eapply block_load; [done|by rewrite lookup_insert_ne|done]. }
  intros s2 Hh2 Em2 _ _. eapply finish_realloc; [done|by rewrite lookup_insert_ne|by apply (fb_nonzero _ _ _ _ _ _ _ _ _ _ Hf)|].
  intros s3 Hh3 Em. eapply HQ; [done| |].
  - rewrite Em, Em2. apply bytes_in_put_same. unfold fits. lia.
  - eapply fresh_new; [done|rewrite length_inserts, length_bytes_in; lia|].
    apply take_inserts. rewrite length_bytes_in. lia.
Qed.

Lemma realloc_effect c p n s h : heap_ok s h -> 0 <= n -> legal_pointer lo hi valid s p ->
  wp (HandleReAlloc gOpts c p n) (effect c (ReAlloc p n) h) s.
Proof.
  intros Hh Hn Hp. unfold HandleReAlloc.
  destruct (Z.eqb_spec p 0) as [-> |Hp0].
  { eapply wp_orig; [done|apply (libc_malloc _ _ _ libc)|]. intros r pr' Hh' [Hf _]. by exists h. }
  destruct (Z.eqb_spec n 0) as [-> |Hn0].
  { wp_step. eapply wp_mono; [|by apply free_effect]. intros u s' Hh'. cbn beta in Hh'.
    wp_step. apply wp_errno. wp_step. eexists. split; [by apply heap_ok_errno|].
    unfold post. by rewrite decide_False, decide_True by done. }
  wp_step.
  destruct (legal_pointer_cases _ _ _ Hh Hp) as [(i & len & Hl)|(Ho & Hno & Hv)].
  2:{ eapply wp_reads; [by apply IsAllocated_outside|]. cbn [negb]. wp_step.
      eapply wp_orig; [done|by apply (libc_realloc _ _ _ libc)|]. intros r pr' Hh' Hf. wp_step. apply wp_errno. wp_step.
      exists h. split; [by apply heap_ok_errno|]. unfold post. by rewrite !decide_False, Hno by done. }
  eapply wp_reads; [eapply IsAllocated_live; [apply (g_pool _ _ (hp_guard _ _ _ _ _ Hh))|done]|]. cbn [negb]. wp_step.
  destruct (live_block _ _ _ _ _ _ _ _ Hh Hl) as (b & Hb & _ & <-).
  assert (forall r s' h', (r = 0 /\ h' = h) \/
    (r <> 0 /\ bytes_in (mem (space (proc s'))) r (length (kept b n)) = kept b n /\
     exists h1, new_block c default_align n r (fun bs => take (length (kept b n)) bs = kept b n) h h1 /\ h' = delete p h1) ->
    post gOpts lo hi c (ReAlloc p n) h r s' h') as Hpost.
  { intros r s' h' H. unfold post. by rewrite !decide_False, Hb by done. }
  apply (malloc_wp _ _ _ _ h); [done|done|..].
  - intros r s' Hh' Hf Hw. destruct (Z.eqb_spec r 0) as [-> |Hr0].
    { wp_step. apply wp_errno. wp_step. exists h. split; [by apply heap_ok_errno|]. apply Hpost. by left. }
    destruct Hw as [?|Hw]; [done|]. apply (move_out _ _ b _ _ _ h); [done..|].
    intros s3 Hh3 Em. exists (delete p h). split; [done|]. apply Hpost. right. split; [done|]. split; [done|].
    exists h. split; [by left|done].
  - intros r s' Hf. pose proof (fb_nonzero _ _ _ _ _ _ _ _ _ _ Hf) as Hr0. rewrite (proj2 (Z.eqb_neq _ _)) by done.
    apply (move_in _ _ b _ _ s _ h); [done..|]. intros s3 h1 Hh3 Em Hnew. exists (delete p h1). split; [done|].
    apply Hpost. right. split; [done|]. split; [done|]. by exists h1.
Qed.

Lemma posix_memalign_effect c p al n s h : heap_ok s h -> 0 <= al -> 0 <= n -> writable lo hi p word_bytes (proc s) ->
  wp (HandlePosixMemAlign gOpts c p al n) (effect c (PosixMemAlign p al n) h) s.
Proof.
  intros Hh Hal Hn Hw. pose proof word_bytes_pos. unfold HandlePosixMemAlign, effect, post.
  destruct (negb (Z.land al (word_bytes - 1) =? 0)). { wp_step. exists h. split; [done|by left]. }
  wp_step. apply (allocate_wp gOpts lo hi _ _ _ _ _ h); [done|done|done|done|..].
  - intros t' _ Hh'. rewrite Z.eqb_refl. cbn [negb]. eapply wp_orig; [done|by apply (libc_posix_memalign _ _ _ libc)|].
    intros r pr' Hh2 _. exists h. split; [done|by left].
  - intros r s' Hf. rewrite (proj2 (Z.eqb_neq _ _)) by apply (fb_nonzero _ _ _ _ _ _ _ _ _ _ Hf). cbn [negb]. wp_step.
    destruct Hw as (Hfit & Hout & Hcan). pose proof (fb_heap _ _ _ _ _ _ _ _ _ _ Hf) as Hh'.
    pose proof (fb_fits _ _ _ _ _ _ _ _ _ _ Hf) as [Hr1 Hr2].
    apply wp_in_space. unfold wp at 1. rewrite storeW_run; [|done|].
    2:{ intros b Hb. apply (fb_can _ _ _ _ _ _ _ _ _ _ Hf); [by right|]. by apply Hcan. }
    wp_step. apply wp_errno. wp_step.
    eexists. split.
    + apply heap_ok_errno. apply (heap_ok_put_other _ _ _ s' _ p (le_bytes (Z.to_nat word_bytes) r) (errno (proc s')) Hh').
      * rewrite length_le_bytes, Z2Nat.id by lia. done.
      * intros x b Hb. rewrite length_le_bytes, Z2Nat.id by lia. destruct (block_bounds _ _ _ _ Hh' Hb) as (? & ? & _).
        unfold outside in Hout. lia.
    + right. split; [done|]. exists r. split; [|split].
      * cbn [proc space set_proc mem set_space set_mem]. apply word_at_put_same; [done|]. unfold in_word. lia.
      * apply (fb_area _ _ _ _ _ _ _ _ _ _ Hf).
      * eapply fresh_new; [done|rewrite length_bytes_in, Z2Nat.id; done|done].
Qed.

(** ** All calls *)

(** A legal call returns and has its effect. *)
Lemma exec_effect c k s h : heap_ok s h -> legal fuel lo hi valid s k -> wp (exec gOpts fuel c k) (effect c k h) s.
Proof.
  intros Hh Hl. destruct k; cbn [exec legal] in *.
  - by apply malloc_effect.
  - by apply calloc_effect.
  - destruct Hl as [[] ?]. by apply realloc_effect.
  - destruct Hl as [[] []]. by apply memalign_effect.
  - destruct Hl as ([] & [] & ?). by apply posix_memalign_effect.
  - destruct Hl as ([] & [] & ?). by apply aligned_alloc_effect.
  - by apply strdup_effect.
  - destruct Hl as [[] ?]. by apply strndup_effect.
  - by apply usable_size_effect.
  - wp_step. eapply wp_mono; [|by apply free_effect]. intros u s' Hh'. wp_step. by exists (delete ptr h).
  - destruct Hl as [[] []]. by apply new_effect.
  - wp_step. eapply wp_mono; [|by apply delete_effect]. intros u s' Hh'. wp_step. by exists (delete ptr h).
  - destruct Hl as ([] & ? & ?). wp_step. eapply wp_mono; [|by apply (store_effect c)]. intros u s' Hs'. by wp_step.
Qed.
End Handlers.
End GuardedHeapFacts.
