(* ===== verification/MemGuardRun.v ===== *)
(** Programs under MemGuard: any threads, any sequence of calls, from the installation on.

    A call of a handler is one step.  The variables of the threads are kept apart and exchanged when
    another thread runs. *)
From S2P Require Import Prelude Arch Machine MemGuard MemGuardFacts MemGuardAlloc MemGuardHandlers MemGuardHeap MemGuardHeapFacts.

Module GuardedRun.
Import Auxiliary Memory PagePool Allocation Issue Interception AlignFacts PoolFacts AllocationFacts IssueFacts PrepareFacts Installer GuardedHeap GuardedHeapFacts.

(** The state and the variables of the threads that have run. *)
Record world := MkWorld { shared : guard; threads : gmap Z thread_vars }.

Section Run.
Context `{Ar : Arch} `{K : Kernel} `{Mp : Mapper} `{OF : OriginalFunctions} (gOpts : options) (fuel : nat).

(** The state that thread [tid c] sees. *)
Definition enter (c : caller) (w : world) : guard := set_self (default new_thread (threads w !! tid c)) (shared w).

Definition step (c : caller) (k : call) : M world Z := fun w =>
  let '(r, s') := exec gOpts fuel c k (enter c w) in (r, MkWorld s' (<[tid c := self s']> (threads w))).

Fixpoint run (evs : list (caller * call)) : M world (list Z) :=
  match evs with
  | [] => mret []
  | (c, k) :: evs => r ← step c k; rs ← run evs; mret (r :: rs)
  end.

(** Each call has its effect on the heap. *)
Inductive effects (lo hi : Z) : world -> heap -> list (caller * call) -> list Z -> world -> heap -> Prop :=
| effects_nil w h : effects lo hi w h [] [] w h
| effects_cons w h c k evs r rs w1 h1 w2 h2 :
    step c k w = (Ok r, w1) -> post gOpts lo hi c k h r (shared w1) h1 ->
    effects lo hi w1 h1 evs rs w2 h2 -> effects lo hi w h ((c, k) :: evs) (r :: rs) w2 h2.

(** Every call is legal when its turn comes. *)
Fixpoint safe (lo hi : Z) (valid : process -> Z -> Prop) (evs : list (caller * call)) (w : world) : Prop :=
  match evs with
  | [] => True
  | (c, k) :: evs => legal fuel lo hi valid (enter c w) k /\ safe lo hi valid evs (snd (step c k w))
  end.

(** The guarded blocks of [w] are those of [h]. *)
Record world_ok (lo hi : Z) (w : world) (h : heap) : Prop := MkWorldOk {
  w_heap : heap_ok gOpts lo hi (shared w) h;
  w_threads : map_Forall (fun _ t => self_ok t) (threads w)
}.

Lemma new_thread_ok : self_ok new_thread.
Proof. by constructor. Qed.

Lemma enter_ok lo hi w h c : world_ok lo hi w h -> heap_ok gOpts lo hi (enter c w) h.
Proof.
  intros [Hh Ht]. unfold enter. set (t := default _ _). assert (self_ok t) as Hs.
  { subst t. destruct (threads w !! tid c) as [t|] eqn:E; [by apply (Ht (tid c))|apply new_thread_ok]. }
  pose proof (heap_ok_process _ _ _ _ _ (proc (shared w)) t Hh) as H. by apply H.
Qed.

Lemma step_ok lo hi valid c k w h : libc_ok lo hi valid -> mprotect_works -> world_ok lo hi w h ->
  legal fuel lo hi valid (enter c w) k ->
  exists r w' h', step c k w = (Ok r, w') /\ post gOpts lo hi c k h r (shared w') h' /\ world_ok lo hi w' h'.
Proof.
  intros Hc Hmp Hw Hl. pose proof (exec_effect gOpts fuel lo hi valid Hc Hmp c k _ h (enter_ok _ _ _ _ c Hw) Hl) as H.
  apply wp_run in H as (r & s' & E & h' & Hh' & Hp). unfold step. rewrite E.
  eexists _, _, h'. split_and!; [done|done|]. constructor; [done|]. cbn.
  apply map_Forall_insert_2; [|apply (w_threads _ _ _ _ Hw)]. apply (g_self _ _ (hp_guard _ _ _ _ _ Hh')).
Qed.

Lemma run_ok lo hi valid evs : libc_ok lo hi valid -> mprotect_works -> forall w h, world_ok lo hi w h ->
  safe lo hi valid evs w ->
  exists rs w' h', run evs w = (Ok rs, w') /\ effects lo hi w h evs rs w' h' /\ world_ok lo hi w' h'.
Proof.
  intros Hc Hmp. induction evs as [|[c k] evs IH]; intros w h Hw Hs.
  { exists [], w, h. split_and!; [done|constructor|done]. }
  destruct Hs as [Hl Hs]. destruct (step_ok _ _ _ _ _ _ _ Hc Hmp Hw Hl) as (r & w1 & h1 & E & Hp & Hw1).
  rewrite E in Hs. destruct (IH w1 h1 Hw1 Hs) as (rs & w2 & h2 & E2 & He & Hw2).
  exists (r :: rs), w2, h2. split_and!; [|by econstructor|done].
  cbn [run]. unfold mbind, M_bind. rewrite E, E2. done.
Qed.

(** ** Faults *)

(** A store into the area that meets no page of a block faults.  If it is near a block, the signal
    handler says so: before or behind the block, by how much, and who allocated it. *)
Lemma wild_store lo hi c w h i a b x v prev : world_ok lo hi w h -> block_at (enter c w) i a b ->
  near gOpts (pool (enter c w)) i x -> ~ on_block_page (pool (enter c w)) x ->
  step c (Store x v) w = (Segv, MkWorld (enter c w) (<[tid c := self (enter c w)]> (threads w))) /\
  exists type off t d,
    SegvSignalHandler gOpts prev true true x (enter c w)
    = Ok (Some (MkReport i type (Some off) (Z.of_nat (length (contents b))) t None), d) /\
    made_by (owner b) t /\
    (x <= a /\ type = UNDERFLOW \/
     a + Z.of_nat (length (contents b)) <= x /\ type = OVERFLOW /\ off = x - (a + Z.of_nat (length (contents b)))).
Proof.
  intros Hw (Hl & _ & m & Hm & Hown) Hn Hno. set (s := enter c w) in *.
  pose proof (enter_ok _ _ _ _ c Hw) as [[Hp Hpr Hs] _ _ _]. fold s in Hp, Hpr, Hs.
  pose proof (live_range _ _ _ _ _ Hp Hl) as Hi. pose proof (near_area _ _ _ _ (ok_layout _ _ Hp) Hi Hn) as Hx.
  split.
  { unfold step. cbn [exec]. fold s. unfold mbind, M_bind. by rewrite (store_faults gOpts) by done. }
  pose proof (Report_near gOpts s i x m Hp Hi Hn Hm) as Hrep. rewrite (self_issue _ Hs) in Hrep.
  destruct Hl as (Hi0 & m' & Hm' & Hb & Ea & En). rewrite Hm in Hm'. injection Hm' as <-. rewrite Hb, Ea, En in Hrep.
  pose proof (ok_layout _ _ Hp) as L. pose proof (lay_start _ _ L). pose proof (lay_fits _ _ L).
  assert (live (pool s) i a (Z.of_nat (length (contents b)))) as Hl by (split; [done|by exists m]).
  pose proof (block_byte_area _ _ _ _ _ a Hp Hl ltac:(lia)) as [? ?]. destruct Hx as [Hx1 Hx2].
  cbn [issue_type] in Hrep. rewrite (proj2 (Z.eqb_neq a 0)) in Hrep by lia. cbn [negb] in Hrep.
  rewrite (handler_reports gOpts s prev x _ Hp (conj Hx1 Hx2) Hrep).
  destruct (Z.leb_spec x a) as [Hle|Hgt]; cbn [issue_offset bool_decide] in *.
  - eexists UNDERFLOW, _, _, _. split; [reflexivity|]. split; [done|]. by left.
  - pose proof (beside_block _ _ _ _ _ _ Hp Hl Hno Hgt). eexists OVERFLOW, _, _, _. split; [reflexivity|]. split; [done|].
    right. split_and!; [done|done|]. rewrite uword_small by lia. lia.
Qed.

(** ** Freed blocks *)

Lemma returned_traces c m : borrow_trace (return_meta c m) = borrow_trace m /\ made_by c (return_trace (return_meta c m)) /\
  allocatedSize (return_meta c m) = allocatedSize m.
Proof.
  unfold return_meta, UnwindStack. split_and!; [done| |done]. split_and!; cbn [return_trace trace_tid trace_frames trace_name
    returnThreadId returnThreadName onReturnStackFrameCount stackTraceOnReturn].
  - done.
  - by rewrite Nat2Z.id, take_app_length.
  - intros name Hn. unfold GetSelfThreadName. by rewrite Hn.
Qed.

(** Slot [i] is free, and its record still tells of the block [b] at [a], which [c] freed. *)
Record freed_slot (c : caller) (s : guard) (i a : Z) (b : block) : Prop := MkFreed {
  fs_range : 0 <= i < slots gOpts;
  fs_free : ~ borrowed (pool s) i;
  fs_place : slot_start (pool s) i <= a /\ a + Z.of_nat (length (contents b)) <= slot_start (pool s) i + sSlotSize (pool s);
  fs_meta : exists m, sMetaArea (pool s) !! Z.to_nat i = Some m /\ isBorrowed m = false /\
    allocatedSize m = Z.of_nat (length (contents b)) /\ made_by (owner b) (borrow_trace m) /\ made_by c (return_trace m)
}.

Lemma free_step lo hi c w h i a b : mprotect_works -> world_ok lo hi w h -> h !! a = Some b -> block_at (shared w) i a b ->
  exists w1, step c (FreeCall a) w = (Ok 0, w1) /\ world_ok lo hi w1 (delete a h) /\ freed_slot c (shared w1) i a b.
Proof.
  intros Hmp Hw Hb (Hl & _ & m & Hm & Hown). pose proof (enter_ok _ _ _ _ c Hw) as Hh. set (s := enter c w) in *.
  pose proof (g_pool _ _ (hp_guard _ _ _ _ _ Hh)) as Hp. change (pool (shared w)) with (pool s) in *.
  destruct (ok_block _ _ Hp _ _ _ Hl) as [Hb1 Hb2 Hb3 Hb4].
  assert (wp (HandleFree gOpts c a) (fun _ s' => heap_ok gOpts lo hi s' (delete a h) /\ freed_slot c s' i a b) s) as H.
  { unfold HandleFree. apply wp_bind. eapply Free_wp; [done|apply (hp_guard _ _ _ _ _ Hh)|done|lia|].
    intros s1 Hr E. cbn [negb]. apply wp_errno. split; [apply heap_ok_errno; by eapply released_heap|].
    pose proof (returned_live _ _ _ _ _ _ _ Hr) as Hlive. destruct (rt_metas _ _ _ _ _ _ _ Hr) as (m1 & Hm1 & Hi & Em).
    destruct (rt_area _ _ _ _ _ _ _ Hr) as (_ & E2 & E3 & _). rewrite Hm in Hm1. injection Hm1 as <-.
    destruct (returned_traces c m) as (T1 & T2 & T3). constructor.
    - by apply (live_range _ _ _ _ _ Hp Hl).
    - intros (x & n & Hx). apply Hlive in Hx. naive_solver.
    - unfold slot_start in *. cbn [pool set_proc]. rewrite E2, E3. lia.
    - exists (return_meta c m). cbn [pool set_proc]. rewrite Em. split_and!; [|apply returned_meta| | |done].
      + apply list_lookup_insert_eq. by eapply lookup_lt_Some.
      + rewrite T3. destruct Hl as (_ & m' & Hm' & _ & _ & <-). congruence.
      + by rewrite T1. }
  apply wp_run in H as (u & s' & E & Hh' & Hf). eexists. unfold step. cbn [exec]. fold s. unfold mbind, M_bind. rewrite E.
  cbn. split; [reflexivity|]. split; [|done]. constructor; [done|]. cbn.
  apply map_Forall_insert_2; [|apply (w_threads _ _ _ _ Hw)]. apply (g_self _ _ (hp_guard _ _ _ _ _ Hh')).
Qed.

(** A store into a freed block faults, and is reported as a use after free with both traces. *)
Lemma use_after_free lo hi c c2 w h i a b x v prev : world_ok lo hi w h -> freed_slot c (shared w) i a b ->
  inside a (Z.of_nat (length (contents b))) x ->
  step c2 (Store x v) w = (Segv, MkWorld (enter c2 w) (<[tid c2 := self (enter c2 w)]> (threads w))) /\
  exists t1 t2 d, SegvSignalHandler gOpts prev true true x (enter c2 w)
    = Ok (Some (MkReport i USE_AFTER_FREE None (Z.of_nat (length (contents b))) t1 (Some t2)), d) /\
    made_by (owner b) t1 /\ made_by c t2.
Proof.
  intros Hw [Hi Hfree Hpl (m & Hm & Hbm & Hsz & Ht1 & Ht2)] Hx. set (s := enter c2 w) in *.
  pose proof (enter_ok _ _ _ _ c2 Hw) as [[Hp Hpr Hs] _ _ _]. fold s in Hp, Hpr, Hs.
  change (pool (shared w)) with (pool s) in *. unfold inside in Hx. pose proof PAGE_SIZE_pos.
  pose proof (ok_layout _ _ Hp) as L.
  assert (near gOpts (pool s) i x) as Hn by (left; lia). pose proof (near_area _ _ _ _ L Hi Hn) as Har.
  assert (~ on_block_page (pool s) x) as Hno.
  { intros (j & a' & n' & Hl & Ho). assert (slot_start (pool s) i <= x < slot_start (pool s) i + sSlotSize (pool s) + PAGE_SIZE) as Hx' by lia.
    destruct (opened_slot gOpts (pool s) i x j a' n' Hp Hx' Hl Ho) as [-> _]. apply Hfree. by exists a', n'. }
  split.
  { unfold step. cbn [exec]. fold s. unfold mbind, M_bind. by rewrite (store_faults gOpts) by done. }
  pose proof (Report_near gOpts s i x m Hp Hi Hn Hm) as Hrep. rewrite (self_issue _ Hs), Hbm, Hsz in Hrep. cbn in Hrep.
  rewrite (handler_reports gOpts s prev x _ Hp Har Hrep). by eexists _, _, _.
Qed.

(** A second release faults in the guard page, and is reported as a double free with both traces. *)
(** The first byte of the guard page behind a slot is next to the slot. *)
Lemma near_end p i : pool_ok gOpts p -> near gOpts p i (slot_start p i + sSlotSize p).
Proof. intros Hp. pose proof PAGE_SIZE_pos. pose proof (lay_slot _ _ (ok_layout _ _ Hp)). right. left. split; [lia|left; lia]. Qed.

Lemma double_free lo hi c c2 w h i a b prev : world_ok lo hi w h -> freed_slot c (shared w) i a b ->
  exists w2, step c2 (FreeCall a) w = (Segv, w2) /\
  exists t1 t2 d, SegvSignalHandler gOpts prev true true (slot_start (pool (shared w)) i + sSlotSize (pool (shared w))) (enter c2 w2)
    = Ok (Some (MkReport i DOUBLE_FREE None (Z.of_nat (length (contents b))) t1 (Some t2)), d) /\
    made_by (owner b) t1 /\ made_by c t2.
Proof.
  intros Hw [Hi Hfree Hpl (m & Hm & Hbm & Hsz & Ht1 & Ht2)]. set (s := enter c2 w) in *.
  pose proof (enter_ok _ _ _ _ c2 Hw) as [Hg _ _ _]. fold s in Hg. pose proof Hg as [Hp Hpr Hs].
  change (pool (shared w)) with (pool s) in *. pose proof PAGE_SIZE_pos. pose proof (ok_layout _ _ Hp) as L.
  pose proof (lay_slot _ _ L).
  destruct (Free_twice gOpts c2 a i s Hg Hi Hfree ltac:(lia)) as (t' & Et & E).
  unfold step. cbn [exec]. fold s. unfold HandleFree, mbind, M_bind. rewrite E. eexists. split; [reflexivity|].
  assert (forall m', enter c2 (MkWorld (set_self t' s) (<[tid c2 := t']> m')) = set_self t' s) as Een.
  { intros m'. unfold enter. cbn [threads shared]. by rewrite lookup_insert_eq. }
  cbn [self set_self]. rewrite Een. set (s2 := set_self t' s). assert (near gOpts (pool s2) i (slot_start (pool s) i + sSlotSize (pool s))) as Hn by exact (near_end _ _ Hp).
  pose proof (Report_near gOpts s2 i _ m Hp Hi Hn Hm) as Hrep. change (gLastIssueType (self s2)) with (gLastIssueType t') in Hrep.
  rewrite Et, Hsz in Hrep. cbn in Hrep.
  rewrite (handler_reports gOpts s2 prev _ _ Hp (near_area _ _ _ _ L Hi Hn) Hrep). by eexists _, _, _.
Qed.

(** ** Sampling *)

(** The length of a sampling cycle is the power of two at or above the option; 0 and 1 are special. *)
Definition cycle_bits (skipped : Z) : Z := if skipped =? 0 then 0 else if skipped =? 1 then 1 else Z.log2_up skipped.

Lemma cycle_bits_range v : 0 <= v <= 2 ^ 31 -> 0 <= cycle_bits v <= 31.
Proof.
  intros Hv. unfold cycle_bits. destruct (Z.eqb_spec v 0); [lia|]. destruct (Z.eqb_spec v 1); [lia|].
  pose proof (Z.log2_up_nonneg v). assert (v <= 2 ^ 31) as Hle by lia. apply Z.log2_up_le_mono in Hle.
  rewrite Z.log2_up_pow2 in Hle by lia. lia.
Qed.

Lemma cycle_length v : 0 <= v <= 2 ^ 31 ->
  (let c := uword (AlignUpToPowOf2 v) in if c =? 0 then 1 else if c =? 1 then 2 else c) = 2 ^ cycle_bits v.
Proof.
  intros Hv. pose proof word_bits_ge. pose proof (cycle_bits_range v Hv) as Hc. unfold cycle_bits in *. cbv zeta.
  assert (2 ^ 32 <= 2 ^ word_bits) by (apply Z.pow_le_mono_r; lia).
  destruct (Z.eqb_spec v 0) as [-> |]; [by rewrite uword_small by (change (AlignUpToPowOf2 0) with 0; lia)|].
  destruct (Z.eqb_spec v 1) as [-> |]; [by rewrite uword_small by (change (AlignUpToPowOf2 1) with 1; lia)|].
  rewrite AlignUpToPowOf2_pow by lia. assert (2 ^ Z.log2_up v < 2 ^ word_bits) by (apply Z.pow_lt_mono_r; lia).
  assert (v <= 2 ^ Z.log2_up v) by (apply Z.log2_up_spec; lia).
  rewrite uword_small by lia. rewrite (proj2 (Z.eqb_neq _ 0)), (proj2 (Z.eqb_neq _ 1)) by lia. done.
Qed.

Lemma Prepare_cycle now s : 0 <= maxSkippedAllocationCount gOpts <= 2 ^ 31 ->
  exists s1, Allocation.Prepare gOpts now s = (Ok true, s1) /\
    sSampleCycleLength s1 = 2 ^ cycle_bits (maxSkippedAllocationCount gOpts) /\
    0 <= sampleCounter (self s1) < 2 ^ cycle_bits (maxSkippedAllocationCount gOpts).
Proof.
  intros Hv. pose proof (cycle_bits_range _ Hv). pose proof word_bits_ge.
  pose proof (cycle_length _ Hv) as E.
  unfold Allocation.Prepare. cbv zeta in *. rewrite E.
  eexists. split; [reflexivity|]. split; [reflexivity|]. apply masked_counter. lia.
Qed.

(** ** Installation *)

(** The process before [Install]: nothing is lent. *)
Record pristine (s : guard) : Prop := MkPristine {
  pr_free : sFreeSlotCount (pool s) = 0;
  pr_lent : sLentPageCount (pool s) = 0;
  pr_self : self_ok (self s)
}.

(** [Install] returns, and where it returns [true] no block is guarded yet. *)
Lemma Install_ok env now c s : mprotect_works -> mapper_ok -> options_ok gOpts -> pristine s ->
  exists ok s1, Install gOpts true false env now s = (Ok (ok, true), s1) /\
    (ok = true -> world_ok (sSlotAreaStart (pool s1)) (sSlotAreaEnd (pool s1)) (MkWorld s1 {[ tid c := self s1 ]}) ∅).
Proof.
  intros Hmp Hmm Ho [Hf Hl Hs].
  assert (wp (Install gOpts true false env now) (fun r s1 => snd r = true /\ (fst r = true -> guard_ok gOpts s1 /\ forall i, ~ borrowed (pool s1) i)) s) as H.
  { unfold Install. cbn [negb].
    destruct (dump_path_ok env); cbn [negb]; [|by wp_step]. destruct (so_monitor_ok env); cbn [negb]; [|by wp_step].
    wp_step. apply Prepare_wp; try done. intros s' Hg Hno _. cbn [negb].
    destruct (unwind_ok env); cbn [negb]; [|by wp_step]. destruct (sigaction_ok env); cbn [negb]; [|by wp_step].
    wp_step. unfold Allocation.Prepare. do 2 wp_step. do 2 wp_step. wp_step. apply wp_rnd; [apply wrap_range; lia|].
    intros r Hr. do 2 wp_step. wp_step. cbn [negb]. wp_step. split; [done|]. intros _. split; [|done].
    destruct Hg as [Hp Hpr []]. by constructor. }
  apply wp_run in H as ([ok ins] & s1 & E & Hi & Hok). cbn in Hi, Hok. subst ins. exists ok, s1. split; [done|].
  intros ->. destruct (Hok eq_refl) as [Hg Hno]. constructor.
  - constructor; [done|done|done|]. constructor.
    + intros a b Hb. by rewrite lookup_empty in Hb.
    + intros i a n Hli. destruct (Hno i). by exists a, n.
  - apply map_Forall_singleton. apply (g_self _ _ Hg).
Qed.
End Run.

(** * Theorems *)
Section Theorems.
Context `{Ar : Arch} `{K : Kernel} `{Mp : Mapper} `{OF : OriginalFunctions} (gOpts : options) (fuel : nat).

(** C5. MemGuard is a heap: after an installation that succeeds, any sequence of legal calls of the
    allocation functions and of stores, from any threads, returns, and each call has the effect that
    [post] describes on a map from addresses to blocks.  New blocks are at least a page away from
    all others, aligned, and zero after [calloc]; [realloc] keeps the bytes that fit; [strdup] copies
    the string; [free] removes exactly its block; a store changes only the byte it is meant for; and
    the map agrees with memory and with the records of the pool all the time. *)
Theorem guarded_heap env now c0 s valid evs : mprotect_works -> mapper_ok -> options_ok gOpts -> pristine s ->
  exists ok s1, Install gOpts true false env now s = (Ok (ok, true), s1) /\
  let lo := sSlotAreaStart (pool s1) in
  let hi := sSlotAreaEnd (pool s1) in
  let w := MkWorld s1 {[ tid c0 := self s1 ]} in
  (ok = true -> libc_ok lo hi valid -> safe gOpts fuel lo hi valid evs w ->
   exists rs w' h', run gOpts fuel evs w = (Ok rs, w') /\ effects gOpts fuel lo hi w ∅ evs rs w' h' /\
     world_ok gOpts lo hi w' h').
Proof.
  intros Hmp Hmm Ho Hpr. destruct (Install_ok gOpts env now c0 s Hmp Hmm Ho Hpr) as (ok & s1 & E & Hw).
  exists ok, s1. split; [done|]. intros lo hi w -> Hc Hs. apply (run_ok gOpts fuel lo hi valid); [done|done|by apply Hw|done].
Qed.



End Theorems.
End GuardedRun.

(** * A small pool *)
Module GuardedDemo.
Import Auxiliary Memory PagePool Allocation Issue Interception AlignFacts PoolFacts AllocationFacts IssueFacts PrepareFacts Installer GuardedHeap GuardedHeapFacts GuardedRun.

#[local] Instance demo_arch : Arch := arch_aarch64.
#[local] Instance demo_kernel : Kernel := permissive_kernel None.

(** Mappings go to the first of three places that is free. *)
#[local] Instance demo_mapper : Mapper := fun m size _ =>
  head (filter (fun a => a + page_count size * PAGE_SIZE < 2 ^ word_bits /\
                         Forall (fun q => prot m !! q = None) (seqZ (page_of a) (page_count size)))
          [0x100000; 0x200000; 0x300000]).

(** A C library without memory. *)
#[local] Instance demo_libc : OriginalFunctions :=
  {| orig_malloc := fun _ => mret 0; orig_calloc := fun _ _ => mret 0; orig_realloc := fun _ _ => mret 0;
     orig_memalign := fun _ _ => mret 0; orig_posix_memalign := fun _ _ _ => mret ENOMEM;
     orig_strdup := fun _ => mret 0; orig_strndup := fun _ _ => mret 0; orig_malloc_usable_size := fun _ => mret 0;
     orig_free := fun _ => mret tt; orig_new := fun _ _ _ => mret 0; orig_delete := fun _ _ => mret tt |}.

(** Two slots of a page each; every allocation is sampled. *)
Definition demo_options : options := MkOptions 4096 2 0 30 false false.
Definition no_pool : page_pool := MkPool 0 0 0 0 0 [] [] 0 0.
Definition before : guard := MkGuard (MkProcess (MkMachine ∅ ∅) 0) no_pool new_thread 0 0.
Definition all_parts : parts := MkParts true true true true true.
Definition main_thread : caller := MkCaller 7 (Some (replicate 16 109)) [101; 102; 103].
Definition helper : caller := MkCaller 8 (Some (replicate 16 104)) [201].
Definition installed : result (bool * bool) * guard := Install demo_options true false all_parts 12345 before.
Definition start : world := MkWorld (snd installed) {[ tid main_thread := self (snd installed) ]}.
Definition nothing_valid (_ : process) (_ : Z) : Prop := False.

Lemma demo_mprotect : mprotect_works.
Proof. done. Qed.

Lemma demo_mapper_ok : mapper_ok.
Proof.
  intros m size p a E. unfold mmap_place, demo_mapper in E. pose proof (head_Some_elem_of _ _ E) as Ha. clear E.
  apply list_elem_of_filter in Ha as [[Hfit Hfr] Ha]. rewrite Forall_forall in Hfr.
  assert (0 < a /\ a mod PAGE_SIZE = 0) as [? ?].
  { repeat (apply elem_of_cons in Ha as [-> |Ha]; [done|]). by apply not_elem_of_nil in Ha. }
  split_and!; try done. intros q Hq. apply Hfr. apply elem_of_seqZ. lia.
Qed.

Lemma demo_options_ok : options_ok demo_options.
Proof. constructor; vm_compute; done. Qed.

Lemma demo_pristine : pristine before.
Proof. constructor; [done|done|apply new_thread_ok]. Qed.

Lemma demo_libc_ok lo hi : 0 < lo -> libc_ok lo hi nothing_valid.
Proof.
  intros Hlo. constructor; intros; unfold returns, wp; cbn; (split; [done|]); unfold foreign; auto with lia.
  all: try (split; [lia|by left]); try lia; try done.
Qed.

(** Which calls are legal, as a test. *)
Definition liveb (s : guard) (p : Z) : bool :=
  existsb (fun m => isBorrowed m && (allocatedStart m =? p)) (sMetaArea (pool s)).

Definition legalb (s : guard) (k : call) : bool :=
  match k with
  | Malloc n => (0 <=? n) && (n <? 2 ^ word_bits)
  | Calloc m n => (0 <=? m) && (m <? 2 ^ word_bits) && (0 <=? n) && (n <? 2 ^ word_bits)
  | ReAlloc p n => (0 <=? n) && (n <? 2 ^ word_bits) && liveb s p
  | FreeCall p | UsableSize p => liveb s p
  | Store a v => (0 <=? a) && (a + 1 <? 2 ^ word_bits) && can PROT_WRITE (space (proc s)) a
  | _ => false
  end.

Fixpoint safeb (evs : list (caller * call)) (w : world) : bool :=
  match evs with
  | [] => true
  | (c, k) :: evs => legalb (enter c w) k && safeb evs (snd (step demo_options 100 c k w))
  end.

Lemma liveb_live s p : liveb s p = true -> exists i n, live (pool s) i p n.
Proof.
  intros H. apply existsb_exists in H as (m & Hin & H). apply andb_true_iff in H as [Hb Hp]. apply Z.eqb_eq in Hp.
  apply list_elem_of_In, list_elem_of_lookup in Hin as [i Hi]. exists (Z.of_nat i), (allocatedSize m).
  split; [lia|]. exists m. by rewrite Nat2Z.id.
Qed.

Lemma legalb_legal lo hi s k : legalb s k = true -> legal 100 lo hi nothing_valid s k.
Proof.
  destruct k; cbn [legalb legal]; intros H; try discriminate; rewrite ?andb_true_iff, ?Z.leb_le, ?Z.ltb_lt in H;
    unfold in_word; try lia; try (left; by apply liveb_live).
  - destruct H as [? ?]. split; [done|]. left. by apply liveb_live.
  - destruct H as [[? ?] ?]. split; [lia|done].
Qed.

Lemma safeb_safe lo hi evs : forall w, safeb evs w = true -> safe demo_options 100 lo hi nothing_valid evs w.
Proof.
  induction evs as [|[c k] evs IH]; intros w H; [done|]. cbn [safeb] in H. apply andb_true_iff in H as [H1 H2].
  split; [by apply legalb_legal|by apply IH].
Qed.

(** Two threads share the slots: one block is cleared, one is written to and moves, and one finds no slot. *)
Definition calls : list (caller * call) :=
  [(main_thread, Malloc 100); (helper, Calloc 5 8); (main_thread, Malloc 8); (helper, UsableSize 0x103fd0);
   (helper, FreeCall 0x103fd0); (main_thread, Store 0x101f90 7); (helper, ReAlloc 0x101f90 200)].

Definition area_start : Z := sSlotAreaStart (pool (snd installed)).
Definition area_end : Z := sSlotAreaEnd (pool (snd installed)).

Lemma installed_ok : fst installed = Ok (true, true).
Proof. vm_compute. reflexivity. Qed.

Lemma installed_eq ok s1 : Install demo_options true false all_parts 12345 before = (Ok (ok, true), s1) -> ok = true /\ s1 = snd installed.
Proof.
  intros E. pose proof (f_equal fst E) as Ef. pose proof (f_equal snd E) as Es. cbn [fst snd] in Ef, Es.
  split; [|symmetry; exact Es]. pose proof (eq_trans (eq_sym Ef) installed_ok) as H. by injection H.
Qed.

Lemma start_ok : world_ok demo_options area_start area_end start ∅.
Proof.
  destruct (Install_ok demo_options all_parts 12345 main_thread before demo_mprotect demo_mapper_ok demo_options_ok demo_pristine)
    as (ok & s1 & E & Hw).
  destruct (installed_eq _ _ E) as [-> ->]. by apply Hw.
Qed.

Lemma area_start_pos : 0 < area_start.
Proof. by vm_compute. Qed.

Lemma guarded_heap_witness :
  exists rs w' h', run demo_options 100 calls start = (Ok rs, w') /\
    effects demo_options 100 area_start area_end start ∅ calls rs w' h' /\ world_ok demo_options area_start area_end w' h'.
Proof.
  destruct (guarded_heap demo_options 100 all_parts 12345 main_thread before nothing_valid calls
    demo_mprotect demo_mapper_ok demo_options_ok demo_pristine) as (ok & s1 & E & H).
  destruct (installed_eq _ _ E) as [-> ->].
  apply H; [done|apply demo_libc_ok, area_start_pos|]. apply safeb_safe. vm_compute. reflexivity.
Defined.

(** The record of a slot, as a test. *)
Lemma live_at p i a n : (0 <=? i) = true ->
  option_map (fun m => (isBorrowed m, allocatedStart m, allocatedSize m)) (sMetaArea p !! Z.to_nat i) = Some (true, a, n) ->
  live p i a n.
Proof.
  intros Hi H. split; [by apply Z.leb_le|]. destruct (sMetaArea p !! Z.to_nat i) as [m|]; [|done].
  injection H as Hb Ha Hn. by exists m.
Qed.

(** The world after one allocation, with its block. *)
Definition one : world := snd (run demo_options 100 [(main_thread, Malloc 100)] start).

Lemma one_live : live (pool (shared one)) 0 0x101f90 100.
Proof. apply live_at; vm_compute; reflexivity. Qed.

Lemma one_ok : exists h b, world_ok demo_options area_start area_end one h /\ h !! 0x101f90 = Some b /\ block_at (shared one) 0 0x101f90 b.
Proof.
  destruct (run_ok demo_options 100 area_start area_end nothing_valid [(main_thread, Malloc 100)]
    (demo_libc_ok _ _ area_start_pos) demo_mprotect start ∅ start_ok) as (rs & w & h & E & _ & Hw).
  { apply safeb_safe. vm_compute. reflexivity. }
  assert (one = w) as <- by exact (f_equal snd E).
  destruct (live_block demo_options _ _ _ _ _ _ _ (w_heap _ _ _ _ _ Hw) one_live) as (b & Hb & Hat & _).
  exists h, b. exact (conj Hw (conj Hb Hat)).
Qed.

Lemma one_end : slot_start (pool (shared one)) 0 + sSlotSize (pool (shared one)) = 0x102000.
Proof. vm_compute. reflexivity. Qed.

Lemma two_slots : 0 <= 0 < maxDetectableAllocationCount demo_options.
Proof. split; vm_compute; [discriminate|reflexivity]. Qed.



Lemma installed_counters : sSampleCycleLength (snd installed) = 2 ^ 0 /\ sampleCounter (self (snd installed)) = 0.
Proof. split; vm_compute; reflexivity. Qed.

Lemma installed_size : sSlotSize (pool (snd installed)) = 4096.
Proof. vm_compute. reflexivity. Qed.

Lemma installed_room : ~ pool_full demo_options (pool (snd installed)).
Proof. vm_compute. intuition discriminate. Qed.

End GuardedDemo.
