(* ===== verification/IoCanary.v ===== *)
(** The watcher of file operations of traceharbor-io-canary (src/main/cpp).

    The hooks of io_canary_jni.cc pass what the main thread does with files to [IOInfoCollector]
    (core/io_info_collector.cc), which keeps a record per descriptor.  A record whose descriptor is
    closed goes to a queue; the thread of [IOCanary] (core/io_canary.cc) takes it from there, shows it to
    the detectors (detector/) and publishes the issues they raise.

    Modules: [IoInfo] (the collector and comm/io_canary_utils.cc), [IoDetect] (the detectors),
    [IoCanary] (hooks, queue and thread as a transition system).

    What clocks, [stat], the original functions and Java answer are arguments.  Locking the queue and
    what is done with it is one step. *)
From S2P Require Import Prelude Arch Machine Md5.

(** * Records of open files *)
Module IoInfo.
Section IoInfo.
Context `{Ar : Arch}.

(** A result of [w]-bit signed arithmetic. *)
Definition fit (w z : Z) : result Z := if (- 2 ^ (w - 1) <=? z) && (z <? 2 ^ (w - 1)) then Ok z else Undef.

(** [tv_sec] and [tv_usec]. *)
Definition GetSysTimeMicros (tv : Z * Z) : result Z := s ← fit 64 (fst tv * 1000000); fit 64 (s + snd tv).

(** [tv_sec] and [tv_nsec], if [clock_gettime] succeeds. *)
Definition GetTickCountMicros (ts : option (Z * Z)) : result Z :=
  match ts with
  | None => Ok 0
  | Some (sec, nsec) => s ← fit 64 (sec * 1000000); fit 64 (s + Z.quot nsec 1000)
  end.

Definition GetTickCount (ts : option (Z * Z)) : result Z := t ← GetTickCountMicros ts; Ok (Z.quot t 1000).

(** [st_size], if [stat] succeeds. *)
Definition GetFileSize (st_size : option Z) : Z := match st_size with None => -1 | Some n => s32 n end.

Inductive FileOpType := kInit | kRead | kWrite.

#[export] Instance FileOpType_eq_dec : EqDecision FileOpType.
Proof. solve_decision. Defined.

Record JavaContext := MkJavaContext { thread_id_ : Z; thread_name_ : list Z; stack_ : list Z }.

Record IOInfo := MkIOInfo {
  path_ : list Z;
  java_context_ : JavaContext;
  start_time_us_ : Z;
  op_type_ : FileOpType;
  op_cnt_ : Z;
  buffer_size_ : Z;
  op_size_ : Z;
  rw_cost_us_ : Z;
  max_continual_rw_cost_time_us_ : Z;
  max_once_rw_cost_time_us_ : Z;
  current_continual_rw_time_us_ : Z;
  last_rw_time_us_ : Z;
  file_size_ : Z;
  total_cost_us_ : Z
}.

Definition new_info (path : list Z) (context : JavaContext) (now : Z) : IOInfo :=
  MkIOInfo path context now kInit 0 0 0 0 0 0 0 0 0 0.

Definition kContinualThreshold : Z := 8 * 1000.

(** [info_map_]. *)
Abbreviation infos := (gmap Z IOInfo).

Definition OnOpen (pathname : list Z) (open_ret : Z) (context : JavaContext) (tv : Z * Z) (m : infos) : result infos :=
  if open_ret =? -1 then Ok m else
  match m !! open_ret with
  | Some _ => Ok m
  | None => now ← GetSysTimeMicros tv; Ok (<[open_ret := new_info pathname context now]> m)
  end.

(** The new values of a record, in the order in which [CountRWInfo] computes them. *)
Definition count_info (type : FileOpType) (op_size rw_cost now : Z) (i : IOInfo) : result IOInfo :=
  cnt ← fit 32 (op_cnt_ i + 1);
  size ← fit word_bits (op_size_ i + op_size);
  cost ← fit word_bits (rw_cost_us_ i + rw_cost);
  let once := if max_once_rw_cost_time_us_ i <? rw_cost then rw_cost else max_once_rw_cost_time_us_ i in
  close ← (if 0 <? last_rw_time_us_ i
           then gap ← fit 64 (now - last_rw_time_us_ i); Ok (gap <? kContinualThreshold) else Ok false);
  current ← (if close : bool then fit word_bits (current_continual_rw_time_us_ i + rw_cost) else Ok rw_cost);
  let continual := if max_continual_rw_cost_time_us_ i <? current then current else max_continual_rw_cost_time_us_ i in
  let buffer := if buffer_size_ i <? op_size then op_size else buffer_size_ i in
  let ty := if decide (op_type_ i = kInit) then type else op_type_ i in
  Ok (MkIOInfo (path_ i) (java_context_ i) (start_time_us_ i) ty cnt buffer size cost continual once current now
        (file_size_ i) (total_cost_us_ i)).

Definition CountRWInfo (fd : Z) (type : FileOpType) (op_size rw_cost : Z) (tv : Z * Z) (m : infos) : result infos :=
  match m !! fd with
  | None => Ok m
  | Some i => now ← GetSysTimeMicros tv; i ← count_info type op_size rw_cost now i; Ok (<[fd := i]> m)
  end.

(** [OnRead] and [OnWrite]: [size] is converted to [long]. *)
Definition OnReadWrite (type : FileOpType) (fd size ret cost : Z) (tv : Z * Z) (m : infos) : result infos :=
  if (ret =? -1) || (cost <? 0) then Ok m else
  match m !! fd with
  | None => Ok m
  | Some _ => CountRWInfo fd type (sword size) cost tv m
  end.

Definition OnRead : Z -> Z -> Z -> Z -> Z * Z -> infos -> result infos := OnReadWrite kRead.
Definition OnWrite : Z -> Z -> Z -> Z -> Z * Z -> infos -> result infos := OnReadWrite kWrite.

Definition close_info (total size : Z) (i : IOInfo) : IOInfo :=
  MkIOInfo (path_ i) (java_context_ i) (start_time_us_ i) (op_type_ i) (op_cnt_ i) (buffer_size_ i) (op_size_ i)
    (rw_cost_us_ i) (max_continual_rw_cost_time_us_ i) (max_once_rw_cost_time_us_ i)
    (current_continual_rw_time_us_ i) (last_rw_time_us_ i) size total.

Definition OnClose (fd : Z) (tv : Z * Z) (st_size : option Z) (m : infos) : result (option IOInfo * infos) :=
  match m !! fd with
  | None => Ok (None, m)
  | Some i =>
      now ← GetSysTimeMicros tv;
      total ← fit 64 (now - start_time_us_ i);
      Ok (Some (close_info (sword total) (GetFileSize st_size) i), delete fd m)
  end.

(** ** Keys of issues *)

(** The lines that [getline] reads; [cur] is the one that is being read. *)
Fixpoint getlines (delim : Z) (cur s : list Z) : list (list Z) :=
  match s with
  | [] => match cur with [] => [] | _ => [cur] end
  | c :: s => if c =? delim then cur :: getlines delim [] s else getlines delim (cur ++ [c]) s
  end.

Definition Split (src : list Z) (delim cnt : Z) : list (list Z) :=
  let sv := getlines delim [] src in if 0 <? cnt then take (Z.to_nat cnt) sv else sv.

(** What [.] matches. *)
Definition any_char (c : Z) : bool := negb (c =? 10) && negb (c =? 13).

(** The first group of [^(.+)(\(.+\))$], if the line matches: the longest one. *)
Definition regex_head (line : list Z) : option (list Z) :=
  if forallb any_char line && bool_decide (last line = Some 41)
  then (fun p => take p line) <$>
       last (filter (fun p => line !! p = Some 40) (seq 1 (length line - 3)))
  else None.

(** The line up to a terminator, as [c_str()] shows it. *)
Fixpoint c_str (s : list Z) : list Z :=
  match s with [] => [] | c :: s => if c =? 0 then [] else c :: c_str s end.

Definition stack_line (line : list Z) : list Z := default line (regex_head (c_str line)) ++ [10].

Definition GetLatestStack (stack : list Z) (count : Z) : list Z :=
  concat (stack_line <$> take (Z.to_nat count) (Split stack 10 count)).

Definition MD5 (str : list Z) : list Z :=
  c_str (Md5.MD5_sig_to_string (Md5.MD5_buffer (take (Z.to_nat (u32 (Z.of_nat (length str)))) str))).

Definition GenKey (i : IOInfo) : list Z :=
  MD5 (path_ i ++ [58] ++ GetLatestStack (stack_ (java_context_ i)) 4).
End IoInfo.
End IoInfo.

(** * Detectors *)
Module IoDetect.
Import IoInfo.

Inductive DetectorType := kDetectorMainThreadIO | kDetectorSmallBuffer | kDetectorRepeatRead.
Inductive IssueType := kIssueMainThreadIO | kIssueSmallBuffer | kIssueRepeatRead.

#[export] Instance DetectorType_eq_dec : EqDecision DetectorType.
Proof. solve_decision. Defined.

Record IOCanaryEnv := MkEnv {
  cfg_main_thread : Z;
  cfg_small_buffer : Z;
  cfg_repeat_read : Z
}.

Definition default_env : IOCanaryEnv := MkEnv (500 * 1000) 4096 5.

(** Keys from [kConfigKeysLen] on are ignored. *)
Definition SetConfig (key val : Z) (e : IOCanaryEnv) : IOCanaryEnv :=
  if key =? 0 then MkEnv val (cfg_small_buffer e) (cfg_repeat_read e)
  else if key =? 1 then MkEnv (cfg_main_thread e) val (cfg_repeat_read e)
  else if key =? 2 then MkEnv (cfg_main_thread e) (cfg_small_buffer e) val
  else e.

Definition kPossibleNegativeThreshold : Z := 13 * 1000.
Definition kSmallBufferOpTimesThreshold : Z := 20.

Record Issue := MkIssue {
  type_ : IssueType;
  file_io_info_ : IOInfo;
  key_ : list Z;
  repeat_read_cnt_ : Z;
  stack : list Z
}.

Record RepeatReadInfo := MkRepeat {
  rr_path_ : list Z;
  rr_java_stack_ : list Z;
  rr_java_thread_id_ : Z;
  rr_op_size_ : Z;
  rr_file_size_ : Z;
  repeat_cnt_ : Z;
  op_timems : Z
}.

(** A detector: its kind, the keys that it has published, and what the third kind observes. *)
Record detector := MkDetector {
  kind : DetectorType;
  published_issue_set_ : gset (list Z);
  observing_map_ : gmap (list Z) (list RepeatReadInfo)
}.

Definition new_detector (k : DetectorType) : detector := MkDetector k ∅ ∅.

Section IoDetect.
Context `{Ar : Arch} (main_thread_id : Z).

Definition new_issue (t : IssueType) (i : IOInfo) (cnt : Z) : Issue :=
  MkIssue t i (GenKey i) cnt (stack_ (java_context_ i)).

Definition PublishIssue (target : Issue) (d : detector) (issues : list Issue) : detector * list Issue :=
  if decide (key_ target ∈ published_issue_set_ d) then (d, issues) else
  (MkDetector (kind d) ({[ key_ target ]} ∪ published_issue_set_ d) (observing_map_ d), issues ++ [target]).

(** [FileIOMainThreadDetector::Detect] up to the publication; the count records the kind of delay. *)
Definition main_thread_issue (env : IOCanaryEnv) (i : IOInfo) : option Issue :=
  if main_thread_id =? thread_id_ (java_context_ i) then
    let type := if kPossibleNegativeThreshold <? max_once_rw_cost_time_us_ i then 1 else 0 in
    let type := if cfg_main_thread env <? max_continual_rw_cost_time_us_ i then Z.lor type 2 else type in
    if negb (type =? 0) then Some (new_issue kIssueMainThreadIO i type) else None
  else None.

(** [FileIOSmallBufferDetector::Detect] up to the publication. *)
Definition small_buffer_issue (env : IOCanaryEnv) (i : IOInfo) : option Issue :=
  if (kSmallBufferOpTimesThreshold <? op_cnt_ i) && (Z.quot (op_size_ i) (op_cnt_ i) <? cfg_small_buffer env)
     && (kPossibleNegativeThreshold <=? max_continual_rw_cost_time_us_ i)
  then Some (new_issue kIssueSmallBuffer i 0) else None.

(** [operator==]. *)
Definition same_read (a b : RepeatReadInfo) : bool :=
  bool_decide (rr_path_ b = rr_path_ a) && (rr_java_thread_id_ b =? rr_java_thread_id_ a)
  && bool_decide (rr_java_stack_ b = rr_java_stack_ a) && (rr_file_size_ b =? rr_file_size_ a)
  && (rr_op_size_ b =? rr_op_size_ a).

Definition inc_repeat (a : RepeatReadInfo) : result RepeatReadInfo :=
  n ← fit 32 (repeat_cnt_ a + 1);
  Ok (MkRepeat (rr_path_ a) (rr_java_stack_ a) (rr_java_thread_id_ a) (rr_op_size_ a) (rr_file_size_ a) n (op_timems a)).

(** The loop over [repeat_infos]: the new list and count, if one is the same as [r]. *)
Fixpoint bump (r : RepeatReadInfo) (l : list RepeatReadInfo) : result (option (Z * list RepeatReadInfo)) :=
  match l with
  | [] => Ok None
  | a :: l =>
      if same_read a r then a ← inc_repeat a; Ok (Some (repeat_cnt_ a, a :: l)) else
      o ← bump r l; Ok (match o with Some (n, l) => Some (n, a :: l) | None => None end)
  end.

Definition new_repeat (i : IOInfo) (t : Z) : RepeatReadInfo :=
  MkRepeat (path_ i) (stack_ (java_context_ i)) (sword (thread_id_ (java_context_ i))) (op_size_ i) (s32 (file_size_ i)) 1 t.

(** [FileIORepeatReadDetector::Detect] up to the publication, on [observing_map_]: [t1] is the time at
    which the record of the read is made, [t2] the time of the comparison. *)
Definition observe (env : IOCanaryEnv) (i : IOInfo) (t1 t2 : option (Z * Z)) (m : gmap (list Z) (list RepeatReadInfo))
  : result (option Issue * gmap (list Z) (list RepeatReadInfo)) :=
  if bool_decide (m !! path_ i = None) && (max_continual_rw_cost_time_us_ i <? kPossibleNegativeThreshold)
  then Ok (None, m) else
  let repeat_infos := default [] (m !! path_ i) in
  if decide (op_type_ i = kWrite) then Ok (None, <[path_ i := []]> m) else
  t1 ← GetTickCount t1;
  let r := new_repeat i t1 in
  match last repeat_infos with
  | None => Ok (None, <[path_ i := [r]]> m)
  | Some prev =>
      t2 ← GetTickCount t2;
      pause ← fit 64 (t2 - op_timems prev);
      let repeat_infos := if 17 <? pause then [] else repeat_infos in
      o ← bump r repeat_infos;
      match o with
      | None => Ok (None, <[path_ i := repeat_infos ++ [r]]> m)
      | Some (n, repeat_infos) =>
          Ok (if cfg_repeat_read env <=? n
              then Some (MkIssue kIssueRepeatRead i (GenKey i) n (rr_java_stack_ r)) else None,
              <[path_ i := repeat_infos]> m)
      end
  end.

(** [detector->Detect(env, info, issues)]. *)
Definition Detect (env : IOCanaryEnv) (i : IOInfo) (t : option (Z * Z) * option (Z * Z)) (d : detector)
  (issues : list Issue) : result (detector * list Issue) :=
  let publish o d := match o with Some issue => PublishIssue issue d issues | None => (d, issues) end in
  match kind d with
  | kDetectorMainThreadIO => Ok (publish (main_thread_issue env i) d)
  | kDetectorSmallBuffer => Ok (publish (small_buffer_issue env i) d)
  | kDetectorRepeatRead =>
      '(o, m) ← observe env i (fst t) (snd t) (observing_map_ d);
      Ok (publish o (MkDetector (kind d) (published_issue_set_ d) m))
  end.

(** The loop over [detectors_]; [clk n] are the times that the [n]-th of them reads. *)
Fixpoint detect_loop (env : IOCanaryEnv) (i : IOInfo) (clk : nat -> option (Z * Z) * option (Z * Z)) (n : nat)
  (ds : list detector) (issues : list Issue) : result (list detector * list Issue) :=
  match ds with
  | [] => Ok ([], issues)
  | d :: ds =>
      '(d, issues) ← Detect env i (clk n) d issues;
      '(ds, issues) ← detect_loop env i clk (S n) ds issues;
      Ok (d :: ds, issues)
  end.
End IoDetect.
End IoDetect.

(** * Hooks, queue and thread *)
Module IoCanary.
Import IoInfo IoDetect.

(** The thread of [Detect]: it runs, it waits on the condition variable, signalled or not, or it
    has returned. *)
Inductive worker := Running | Waiting (signalled : bool) | Ended.

Record canary := MkCanary {
  exit_ : bool;
  env_ : IOCanaryEnv;
  issued_callback_ : bool;
  detectors_ : list detector;
  info_map_ : gmap Z IOInfo;
  queue_ : list IOInfo;
  thread : worker;
  published : list (list Issue)
}.

(** After the constructor. *)
Definition fresh : canary := MkCanary false default_env false [] ∅ [] Running [].

Definition set_info_map (m : gmap Z IOInfo) (s : canary) : canary :=
  MkCanary (exit_ s) (env_ s) (issued_callback_ s) (detectors_ s) m (queue_ s) (thread s) (published s).
Definition set_queue (q : list IOInfo) (s : canary) : canary :=
  MkCanary (exit_ s) (env_ s) (issued_callback_ s) (detectors_ s) (info_map_ s) q (thread s) (published s).
Definition set_thread (w : worker) (s : canary) : canary :=
  MkCanary (exit_ s) (env_ s) (issued_callback_ s) (detectors_ s) (info_map_ s) (queue_ s) w (published s).

(** [queue_cv_.notify_one()]. *)
Definition notify (w : worker) : worker := match w with Waiting _ => Waiting true | w => w end.

(** A type that is no constant of the enumeration is ignored. *)
Definition RegisterDetector (type : Z) (s : canary) : canary :=
  let add k := MkCanary (exit_ s) (env_ s) (issued_callback_ s) (detectors_ s ++ [new_detector k]) (info_map_ s)
                 (queue_ s) (thread s) (published s) in
  if type =? 0 then add kDetectorMainThreadIO else if type =? 1 then add kDetectorSmallBuffer
  else if type =? 2 then add kDetectorRepeatRead else s.

Definition SetEnv (key val : Z) (s : canary) : canary :=
  MkCanary (exit_ s) (SetConfig key val (env_ s)) (issued_callback_ s) (detectors_ s) (info_map_ s) (queue_ s)
    (thread s) (published s).

Definition SetIssuedCallback (s : canary) : canary :=
  MkCanary (exit_ s) (env_ s) true (detectors_ s) (info_map_ s) (queue_ s) (thread s) (published s).

Definition OfferFileIOInfo (i : IOInfo) (s : canary) : canary :=
  set_thread (notify (thread s)) (set_queue (queue_ s ++ [i]) s).

(** The destructor. *)
Definition Destroy (s : canary) : canary :=
  MkCanary true (env_ s) (issued_callback_ s) [] (info_map_ s) (queue_ s) (notify (thread s)) (published s).

Section IoCanary.
Context `{Ar : Arch} (main_thread_id : Z).

(** A hooked call: the thread, the result of the original function, and what the hook reads on its
    way.  For an open, [java] is what [getJavaContext] answers, if anything: the name of the thread
    and the stack, each of which may be null. *)
Inductive call :=
| Open (tid : Z) (pathname : list Z) (ret : Z) (java : option (option (list Z) * option (list Z))) (tv : Z * Z)
| Read (tid fd size ret : Z) (start stop : option (Z * Z)) (tv : Z * Z)
| Write (tid fd size ret : Z) (start stop : option (Z * Z)) (tv : Z * Z)
| Close (tid fd : Z) (tv : Z * Z) (st_size : option Z).

Definition thread_of (c : call) : Z :=
  match c with Open t _ _ _ _ | Read t _ _ _ _ _ _ | Write t _ _ _ _ _ _ | Close t _ _ _ => t end.

Definition IsMainThread (tid : Z) : bool := main_thread_id =? tid.

(** [DoProxyOpenLogic], where Java can be called. *)
Definition DoProxyOpenLogic (tid : Z) (pathname : list Z) (ret : Z) (java : option (option (list Z) * option (list Z)))
  (tv : Z * Z) (m : gmap Z IOInfo) : result (gmap Z IOInfo) :=
  match java with
  | None => Ok m
  | Some (thread_name, stack) => OnOpen pathname ret (MkJavaContext tid (default [] thread_name) (default [] stack)) tv m
  end.

(** [long cost = GetTickCountMicros() - start]. *)
Definition rw_cost (start stop : option (Z * Z)) : result Z :=
  t1 ← GetTickCountMicros start; t2 ← GetTickCountMicros stop; d ← fit 64 (t2 - t1); Ok (sword d).

(** The functions [Proxy...]. *)
Definition proxy (c : call) (s : canary) : result canary :=
  if negb (IsMainThread (thread_of c)) then Ok s else
  match c with
  | Open tid pathname ret java tv =>
      if ret =? -1 then Ok s else
      m ← DoProxyOpenLogic tid pathname ret java tv (info_map_ s); Ok (set_info_map m s)
  | Read _ fd size ret start stop tv =>
      cost ← rw_cost start stop; m ← OnRead fd size ret cost tv (info_map_ s); Ok (set_info_map m s)
  | Write _ fd size ret start stop tv =>
      cost ← rw_cost start stop; m ← OnWrite fd size ret cost tv (info_map_ s); Ok (set_info_map m s)
  | Close _ fd tv st_size =>
      '(o, m) ← OnClose fd tv st_size (info_map_ s);
      let s := set_info_map m s in
      Ok (match o with None => s | Some i => OfferFileIOInfo i s end)
  end.

(** One round of the loop in [Detect], or one wait in [TakeFileIOInfo]. *)
Definition thread_step (clk : nat -> option (Z * Z) * option (Z * Z)) (s : canary) : result canary :=
  match thread s with
  | Running =>
      match queue_ s with
      | [] => Ok (set_thread (Waiting false) s)
      | i :: q =>
          '(ds, issues) ← detect_loop main_thread_id (env_ s) i clk 0 (detectors_ s) [];
          Ok (MkCanary (exit_ s) (env_ s) (issued_callback_ s) ds (info_map_ s) q Running
                (if issued_callback_ s && negb (bool_decide (issues = [])) then published s ++ [issues] else published s))
      end
  | Waiting true => Ok (set_thread (if exit_ s then Ended else Running) s)
  | Waiting false | Ended => Ok s
  end.

(** What happens next: a call of the app, a step of the thread, or a spurious wake-up of it. *)
Inductive action :=
| App (c : call)
| Thread (clk : nat -> option (Z * Z) * option (Z * Z))
| Wake.

Definition step (a : action) (s : canary) : result canary :=
  match a with
  | App c => proxy c s
  | Thread clk => thread_step clk s
  | Wake => Ok (set_thread (notify (thread s)) s)
  end.

Fixpoint run (acts : list action) (s : canary) : result canary :=
  match acts with [] => Ok s | a :: acts => s ← step a s; run acts s end.
End IoCanary.
End IoCanary.
