(* ===== verification/IoCanaryFiles.v ===== *)
(** The histories of files behind the records of the collector.

    The reference is the history of a file: the operations between its opening and its closing.
    [IoHistory]: a record is the summary of a history; [IoFiles]: the hooks keep it so. *)
From S2P Require Import Prelude Arch Machine IoCanary.

(** * Histories of files *)
Module IoHistory.
Import IoInfo IoDetect IoCanary.

Record rw := MkRw { w_type : FileOpType; w_size : Z; w_cost : Z; w_time : Z }.

Record history := MkHistory { h_path : list Z; h_context : JavaContext; h_start : Z; h_ops : list rw }.

Definition total (l : list Z) : Z := foldr Z.add 0 l.
Definition largest (l : list Z) : Z := foldr Z.max 0 l.

(** Operations each of which is recorded less than 8 ms after the one before. *)
Fixpoint chained (l : list rw) : Prop :=
  match l with
  | x :: (y :: _) as l => w_time y - w_time x < kContinualThreshold /\ chained l
  | _ => True
  end.

(** [r] is a run of consecutive operations of [l] without a pause. *)
Definition run_of (l r : list rw) : Prop := chained r /\ exists a b, l = a ++ r ++ b.

(** [m] is the largest time that a run without a pause took. *)
Definition busiest (l : list rw) (m : Z) : Prop :=
  (forall r, run_of l r -> total (w_cost <$> r) <= m) /\ exists r, run_of l r /\ total (w_cost <$> r) = m.

(** [i] sums up the history [h]. *)
Record summary (h : history) (i : IOInfo) : Prop := MkSummary {
  s_path : path_ i = h_path h;
  s_context : java_context_ i = h_context h;
  s_start : start_time_us_ i = h_start h;
  s_type : op_type_ i = default kInit (w_type <$> head (h_ops h));
  s_cnt : op_cnt_ i = Z.of_nat (length (h_ops h));
  s_size : op_size_ i = total (w_size <$> h_ops h);
  s_cost : rw_cost_us_ i = total (w_cost <$> h_ops h);
  s_buffer : buffer_size_ i = largest (w_size <$> h_ops h);
  s_once : max_once_rw_cost_time_us_ i = largest (w_cost <$> h_ops h);
  s_continual : busiest (h_ops h) (max_continual_rw_cost_time_us_ i)
}.

(** The run that ends with the last operation, as the record keeps it. *)
Definition current (l : list rw) (i : IOInfo) : Prop :=
  last_rw_time_us_ i = default 0 (w_time <$> last l) /\
  (forall a r, l = a ++ r -> chained r -> total (w_cost <$> r) <= current_continual_rw_time_us_ i) /\
  exists a r, l = a ++ r /\ chained r /\ total (w_cost <$> r) = current_continual_rw_time_us_ i /\ (l <> [] -> r <> []).

Definition op_ok (o : rw) : Prop := w_type o <> kInit /\ 0 <= w_size o /\ 0 <= w_cost o /\ 0 < w_time o < 2 ^ 62.

Lemma total_cons x l : total (x :: l) = x + total l.
Proof. done. Qed.

Lemma total_app l1 l2 : total (l1 ++ l2) = total l1 + total l2.
Proof. induction l1 as [|x l1 IH]; [done|]. change (x + total (l1 ++ l2) = x + total l1 + total l2). lia. Qed.

Lemma total_nonneg l : Forall (fun x => 0 <= x) l -> 0 <= total l.
Proof. induction 1 as [|x l Hx _ IH]; [done|]. change (0 <= x + total l). lia. Qed.

Lemma largest_nonneg l : 0 <= largest l.
Proof. destruct l as [|x l]; [done|]. induction l; cbn in *; lia. Qed.

Lemma largest_app l1 l2 : largest (l1 ++ l2) = Z.max (largest l1) (largest l2).
Proof.
  induction l1 as [|x l1 IH]; [pose proof (largest_nonneg l2); cbn [app]; change (largest []) with 0; lia|].
  change (Z.max x (largest (l1 ++ l2)) = Z.max (Z.max x (largest l1)) (largest l2)). lia.
Qed.

Lemma chained_app_r a r : chained (a ++ r) -> chained r.
Proof.
  induction a as [|x a IH]; [done|]. intros H. apply IH. cbn [app] in H. destruct (a ++ r); [done|]. apply H.
Qed.

Lemma chained_add l x o : chained (l ++ [x]) -> w_time o - w_time x < kContinualThreshold -> chained ((l ++ [x]) ++ [o]).
Proof.
  induction l as [|y l IH]; intros H Ho; [done|]. destruct l as [|z l]; [by destruct H|].
  destruct H as [H1 H2]. split; [done|]. by apply IH.
Qed.

Lemma chained_snoc_gap l x o : chained ((l ++ [x]) ++ [o]) -> w_time o - w_time x < kContinualThreshold.
Proof. intros H. rewrite <- app_assoc in H. apply chained_app_r in H. apply H. Qed.

Lemma chained_snoc_l l o : chained (l ++ [o]) -> chained l.
Proof.
  induction l as [|x l IH]; intros H; [done|]. destruct l as [|y l]; [done|]. destruct H as [H1 H2]. split; [done|by apply IH].
Qed.

(** A run of [l ++ [o]] is a run of [l] or ends with [o]. *)
Lemma run_of_snoc l o r : run_of (l ++ [o]) r -> run_of l r \/ exists a r', l = a ++ r' /\ r = r' ++ [o] /\ chained r.
Proof.
  intros (Hr & a & b & E). destruct b as [|o' b _] using rev_ind.
  - rewrite app_nil_r in E. destruct r as [|o' r' _] using rev_ind.
    + left. split; [done|]. exists l, []. by rewrite app_nil_r.
    + right. rewrite app_assoc in E. apply app_inj_tail in E as [-> ->]. eauto.
  - left. rewrite !app_assoc in E. apply app_inj_tail in E as [-> ->]. split; [done|]. exists a, b. by rewrite app_assoc.
Qed.

Lemma suffix_snoc (l a r : list rw) o : l ++ [o] = a ++ r -> r = [] \/ exists r', r = r' ++ [o] /\ l = a ++ r'.
Proof.
  destruct r as [|o' r' _] using rev_ind; [by left|]. rewrite app_assoc. intros E. apply app_inj_tail in E as [-> ->].
  right. eauto.
Qed.

Lemma ops_cost_nonneg l : Forall op_ok l -> 0 <= total (w_cost <$> l).
Proof. intros H. apply total_nonneg. rewrite Forall_fmap. eapply Forall_impl; [exact H|]. by intros o (_ & _ & ? & _). Qed.

Lemma suffix_cost_le a r : Forall op_ok (a ++ r) -> total (w_cost <$> r) <= total (w_cost <$> a ++ r).
Proof. intros H. rewrite fmap_app, total_app. apply Forall_app in H as [Ha _]. pose proof (ops_cost_nonneg _ Ha). lia. Qed.

Section Count.
Context `{Ar : Arch}.

Lemma fit_ok w z : - 2 ^ (w - 1) <= z < 2 ^ (w - 1) -> fit w z = Ok z.
Proof.
  intros Hz. unfold fit. rewrite (proj2 (Z.leb_le _ _)), (proj2 (Z.ltb_lt _ _)) by lia. done.
Qed.

Lemma fit_nonneg w z : 1 <= w -> 0 <= z < 2 ^ (w - 1) -> fit w z = Ok z.
Proof. intros Hw Hz. apply fit_ok. lia. Qed.

(** Whether an operation continues the run before it. *)
Definition continues (l : list rw) (o : rw) : bool :=
  match last l with Some x => w_time o - w_time x <? kContinualThreshold | None => false end.

Lemma continues_chained l r a o : l = a ++ r -> chained r -> r <> [] -> continues l o = true -> chained (r ++ [o]).
Proof.
  intros -> Hc Hne. destruct r as [|x r _] using rev_ind; [done|]. unfold continues. rewrite app_assoc, last_snoc.
  intros H. apply chained_add; [done|]. by apply Z.ltb_lt.
Qed.

Lemma chained_continues l r a o : l = a ++ r -> chained (r ++ [o]) -> r <> [] -> continues l o = true.
Proof.
  intros -> Hc Hne. destruct r as [|x r _] using rev_ind; [done|]. unfold continues. rewrite app_assoc, last_snoc.
  apply Z.ltb_lt. by apply (chained_snoc_gap r).
Qed.

Definition next_current (l : list rw) (o : rw) (i : IOInfo) : Z :=
  if continues l o then current_continual_rw_time_us_ i + w_cost o else w_cost o.

(** The run that ends with a new operation. *)
Lemma current_snoc l o i i' : Forall op_ok l -> op_ok o -> current l i ->
  last_rw_time_us_ i' = w_time o -> current_continual_rw_time_us_ i' = next_current l o i -> current (l ++ [o]) i'.
Proof.
  intros Hl (_ & _ & Ho & _) (Hlast & Hmax & a & r & E & Hc & Hr & Hne) Ht Hcur.
  assert (0 <= current_continual_rw_time_us_ i) as H0 by (by apply (Hmax l []); [rewrite app_nil_r|]).
  split; [by rewrite last_snoc|]. rewrite Hcur. unfold next_current. split.
  - intros a' r1 E1 Hc1. apply suffix_snoc in E1 as [-> |(r' & -> & E')].
    { destruct (continues l o); cbn; lia. }
    rewrite fmap_app, total_app. cbn [fmap list_fmap total foldr]. destruct (continues l o) eqn:Ec.
    + specialize (Hmax a' r' E' (chained_snoc_l _ _ Hc1)). cbn. lia.
    + destruct r' as [|x r']; [cbn; lia|]. by rewrite (chained_continues l (x :: r') a' o) in Ec.
  - destruct (continues l o) eqn:Ec.
    + assert (l <> []) as Hl0 by (by intros ->). exists a, (r ++ [o]). rewrite fmap_app, total_app, Hr.
      split_and!; [by rewrite E, app_assoc|eapply continues_chained; eauto|cbn; lia|by destruct r].
    + exists l, [o]. split_and!; [done|done|cbn; lia|done].
Qed.

Lemma busiest_snoc l o m c : busiest l m ->
  (forall a r, l ++ [o] = a ++ r -> chained r -> total (w_cost <$> r) <= c) ->
  (exists a r, l ++ [o] = a ++ r /\ chained r /\ total (w_cost <$> r) = c) -> busiest (l ++ [o]) (Z.max m c).
Proof.
  intros [Hm (r & (Hc & a & b & E) & Hr)] Hall (a' & r' & E' & Hc' & Hr'). split.
  - intros r1 H1. apply run_of_snoc in H1 as [H1|(a1 & r2 & E1 & -> & Hc1)]; [specialize (Hm _ H1); lia|].
    specialize (Hall a1 (r2 ++ [o])). rewrite E1, app_assoc in Hall. specialize (Hall eq_refl Hc1). lia.
  - destruct (Z.max_spec m c) as [[? ->]|[? ->]].
    + exists r'. split; [|done]. split; [done|]. exists a', []. by rewrite app_nil_r.
    + exists r. split; [|done]. split; [done|]. exists a, (b ++ [o]). by rewrite E, !app_assoc.
Qed.

Definition add_op (h : history) (o : rw) : history := MkHistory (h_path h) (h_context h) (h_start h) (h_ops h ++ [o]).

(** The sums of the history stay below [n], [sz] and [c]. *)
Record within (n sz c : Z) (h : history) : Prop := MkWithin {
  in_ops : Forall op_ok (h_ops h);
  in_cnt : Z.of_nat (length (h_ops h)) <= n;
  in_size : total (w_size <$> h_ops h) <= sz;
  in_cost : total (w_cost <$> h_ops h) <= c
}.

Lemma within_add n sz c h o : op_ok o -> within n sz c h -> within (n + 1) (sz + w_size o) (c + w_cost o) (add_op h o).
Proof.
  intros Ho [H1 H2 H3 H4]. constructor; cbn [add_op h_ops].
  - by apply Forall_app_2; [|apply Forall_singleton].
  - rewrite length_app. cbn. lia.
  - rewrite fmap_app, total_app. cbn. lia.
  - rewrite fmap_app, total_app. cbn. lia.
Qed.

Lemma ops_size_nonneg l : Forall op_ok l -> 0 <= total (w_size <$> l).
Proof. intros H. apply total_nonneg. rewrite Forall_fmap. eapply Forall_impl; [exact H|]. by intros o (_ & ? & _). Qed.

Lemma if_max a b : (if a <? b then b else a) = Z.max a b.
Proof. destruct (Z.ltb_spec a b); lia. Qed.

Lemma snoc_type (l : list rw) o : op_ok o -> Forall op_ok l ->
  default kInit (w_type <$> head (l ++ [o])) = if decide (default kInit (w_type <$> head l) = kInit) then w_type o else default kInit (w_type <$> head l).
Proof.
  intros _ Hl. destruct l as [|x l]; [done|]. cbn. apply Forall_cons in Hl as [[Hx _] _]. by rewrite decide_False.
Qed.

(** An operation is added to the summary as it is to the history. *)
Lemma count_info_summary h i o n sz c : op_ok o -> within n sz c h -> summary h i -> current (h_ops h) i ->
  n + 1 < 2 ^ 31 -> sz + w_size o < 2 ^ (word_bits - 1) -> c + w_cost o < 2 ^ (word_bits - 1) ->
  exists i', count_info (w_type o) (w_size o) (w_cost o) (w_time o) i = Ok i' /\
    summary (add_op h o) i' /\ current (h_ops (add_op h o)) i'.
Proof.
  intros Ho [Hops Hn Hsz Hc] Hs Hcur Bn Bs Bc. pose proof word_bits_ge. pose proof Ho as (_ & Ho1 & Ho2 & Ho3 & Ho4).
  pose proof (ops_size_nonneg _ Hops). pose proof (ops_cost_nonneg _ Hops).
  pose proof (s_cnt _ _ Hs) as E1. pose proof (s_size _ _ Hs) as E2. pose proof (s_cost _ _ Hs) as E3.
  pose proof Hcur as (El & Hall & a & r & Ea & Hch & Er & Hne).
  assert (0 <= current_continual_rw_time_us_ i <= c) as Hcc.
  { rewrite <- Er. rewrite Ea in Hops, Hc. pose proof (suffix_cost_le _ _ Hops). apply Forall_app in Hops as [_ Hr].
    pose proof (ops_cost_nonneg _ Hr). lia. }
  unfold count_info. rewrite (fit_nonneg 32) by lia. cbn [mbind result_bind].
  rewrite (fit_nonneg word_bits (op_size_ i + _)) by lia. cbn [mbind result_bind].
  rewrite (fit_nonneg word_bits (rw_cost_us_ i + _)) by lia. cbn [mbind result_bind].
  assert ((if 0 <? last_rw_time_us_ i then gap ← fit 64 (w_time o - last_rw_time_us_ i); Ok (gap <? kContinualThreshold)
           else Ok false) = Ok (continues (h_ops h) o)) as ->.
  { unfold continues. rewrite El. destruct (last (h_ops h)) as [x|] eqn:Ex; [|done]. cbn.
    apply last_Some in Ex as (l' & Ex). rewrite Ex, Forall_app, Forall_singleton in Hops. destruct Hops as [_ (_ & _ & _ & Hx)].
    rewrite (proj2 (Z.ltb_lt _ _)) by lia. by rewrite fit_ok by lia. }
  cbn [mbind result_bind]. assert ((if continues (h_ops h) o then fit word_bits (current_continual_rw_time_us_ i + w_cost o) else Ok (w_cost o))
    = Ok (next_current (h_ops h) o i)) as ->.
  { unfold next_current. destruct (continues _ _); [|done]. apply fit_nonneg; lia. }
  cbn [mbind result_bind]. eexists. split; [reflexivity|].
  match goal with |- summary _ ?x /\ _ => set (i' := x) end.
  assert (current (h_ops (add_op h o)) i') as Hcur' by (by apply (current_snoc _ _ i)). split; [|done].
  destruct Hs. constructor; subst i'; cbn -[fmap list_fmap]; rewrite ?fmap_app, ?total_app, ?largest_app, ?if_max, ?length_app; try done.
  - rewrite snoc_type by done. by rewrite s_type0.
  - cbn. lia.
  - cbn. lia.
  - cbn. lia.
  - cbn. rewrite s_buffer0. lia.
  - cbn. rewrite s_once0. lia.
  - destruct Hcur' as (_ & Hall' & a' & r' & ? & ? & ? & _). apply busiest_snoc; [done|exact Hall'|eauto].
Qed.
End Count.
End IoHistory.

(** * Calls of the app *)
Module IoFiles.
Import IoInfo IoDetect IoCanary IoHistory.

(** A file that was closed: its history, when, and its size then. *)
Record closing := MkClosing { c_history : history; c_time : Z; c_file_size : Z }.

Record files := MkFiles { opened : gmap Z history; closed : list closing }.

Definition micros (tv : Z * Z) : Z := fst tv * 1000000 + snd tv.
Definition ticks (ts : option (Z * Z)) : Z :=
  match ts with None => 0 | Some (s, n) => s * 1000000 + Z.quot n 1000 end.

Definition clock_ok (tv : Z * Z) : Prop := 0 <= fst tv /\ 0 <= snd tv < 1000000 /\ 0 < micros tv < 2 ^ 62.
Definition tick_ok (ts : option (Z * Z)) : Prop :=
  match ts with None => True | Some (s, n) => 0 <= s /\ 0 <= n < 10 ^ 9 end /\ ticks ts < 2 ^ 62.

Definition new_history (path : list Z) (context : JavaContext) (now : Z) : history := MkHistory path context now [].

(** What the calls of the app are worth: only those of the main thread count, an open that failed, an
    operation that failed or whose clock went backwards, and descriptors that are not known do not. *)
Definition spec_rw (type : FileOpType) (fd size ret cost time : Z) (o : gmap Z history) : gmap Z history :=
  if (ret =? -1) || (cost <? 0) then o else alter (fun h => add_op h (MkRw type size cost time)) fd o.

Definition spec_call (main_thread_id : Z) (c : call) (f : files) : files :=
  if negb (IsMainThread main_thread_id (thread_of c)) then f else
  match c with
  | Open _ _ _ None _ => f
  | Open tid path ret (Some (name, stack)) tv =>
      if ret =? -1 then f else
      match opened f !! ret with
      | Some _ => f
      | None => MkFiles (<[ret := new_history path (MkJavaContext tid (default [] name) (default [] stack)) (micros tv)]> (opened f)) (closed f)
      end
  | Read _ fd size ret start stop tv =>
      MkFiles (spec_rw kRead fd size ret (ticks stop - ticks start) (micros tv) (opened f)) (closed f)
  | Write _ fd size ret start stop tv =>
      MkFiles (spec_rw kWrite fd size ret (ticks stop - ticks start) (micros tv) (opened f)) (closed f)
  | Close _ fd tv st_size =>
      match opened f !! fd with
      | None => f
      | Some h => MkFiles (delete fd (opened f)) (closed f ++ [MkClosing h (micros tv) (GetFileSize st_size)])
      end
  end.

Definition call_size (c : call) : Z :=
  match c with Read _ _ size _ _ _ _ | Write _ _ size _ _ _ _ => size | _ => 0 end.
Definition call_cost (c : call) : Z :=
  match c with Read _ _ _ _ start stop _ | Write _ _ _ _ start stop _ => Z.max 0 (ticks stop - ticks start) | _ => 0 end.

Section Files.
Context `{Ar : Arch} (main : Z).

Definition half_word (z : Z) : Prop := - 2 ^ (word_bits - 1) <= z < 2 ^ (word_bits - 1).

(** The clocks are sane, and sizes and times fit a [long]. *)
Definition call_ok (c : call) : Prop :=
  match c with
  | Open _ _ _ _ tv | Close _ _ tv _ => clock_ok tv
  | Read _ _ size _ start stop tv | Write _ _ size _ start stop tv =>
      clock_ok tv /\ tick_ok start /\ tick_ok stop /\ 0 <= size /\ half_word size /\ half_word (ticks stop - ticks start)
  end.

(** The record [i] was made from the closing [c]. *)
Definition closing_info (c : closing) (i : IOInfo) : Prop :=
  summary (c_history c) i /\ file_size_ i = c_file_size c /\ total_cost_us_ i = sword (c_time c - h_start (c_history c)).

Definition file_ok (n sz c : Z) (h : history) (i : IOInfo) : Prop :=
  summary h i /\ current (h_ops h) i /\ within n sz c h /\ 0 < h_start h < 2 ^ 62.

Definition collected (n sz c : Z) (o : gmap Z history) (m : gmap Z IOInfo) : Prop :=
  forall fd, option_Forall2 (file_ok n sz c) (o !! fd) (m !! fd).

Lemma GetSysTimeMicros_ok tv : clock_ok tv -> GetSysTimeMicros tv = Ok (micros tv).
Proof.
  intros (H1 & H2 & H3). unfold GetSysTimeMicros. unfold micros in *. rewrite fit_ok by lia. cbn [mbind result_bind].
  apply fit_ok. lia.
Qed.

Lemma ticks_range ts : tick_ok ts -> 0 <= ticks ts < 2 ^ 62.
Proof.
  intros [H1 H2]. split; [|done]. destruct ts as [[s n]|]; [|done]. cbn in *. rewrite Z.quot_div_nonneg by lia.
  pose proof (Z.div_pos n 1000). lia.
Qed.

Lemma GetTickCountMicros_ok ts : tick_ok ts -> GetTickCountMicros ts = Ok (ticks ts).
Proof.
  intros H. pose proof (ticks_range _ H). destruct H as [H1 H2]. destruct ts as [[s n]|]; [|done]. cbn in *.
  rewrite Z.quot_div_nonneg in * by lia. pose proof (Z.div_pos n 1000).
  rewrite fit_ok by lia. cbn [mbind result_bind]. apply fit_ok. lia.
Qed.

Lemma GetTickCount_ok ts : tick_ok ts -> exists t, GetTickCount ts = Ok t /\ 0 <= t < 2 ^ 62.
Proof.
  intros H. pose proof (ticks_range _ H). unfold GetTickCount. rewrite GetTickCountMicros_ok by done. cbn [mbind result_bind].
  eexists. split; [done|]. rewrite Z.quot_div_nonneg by lia. pose proof (Z.div_pos (ticks ts) 1000).
  pose proof (Z.div_le_upper_bound (ticks ts) 1000 (ticks ts)). lia.
Qed.

Lemma sword_small z : half_word z -> sword z = z.
Proof.
  unfold half_word, sword, swrap. intros H. pose proof word_bits_ge.
  assert (2 ^ word_bits = 2 * 2 ^ (word_bits - 1)) as E by (rewrite <- Z.pow_succ_r by lia; f_equal; lia).
  rewrite Z.mod_small by lia. lia.
Qed.

Lemma rw_cost_ok start stop : tick_ok start -> tick_ok stop -> half_word (ticks stop - ticks start) ->
  rw_cost start stop = Ok (ticks stop - ticks start).
Proof.
  intros H1 H2 H3. unfold rw_cost. pose proof (ticks_range _ H1). pose proof (ticks_range _ H2).
  rewrite !GetTickCountMicros_ok by done. cbn [mbind result_bind]. rewrite fit_ok by lia. cbn [mbind result_bind].
  by rewrite sword_small.
Qed.

Lemma collected_mono n sz c n' sz' c' o m : n <= n' -> sz <= sz' -> c <= c' -> collected n sz c o m -> collected n' sz' c' o m.
Proof.
  intros ??? H fd. specialize (H fd). inversion_clear H as [h i (Hs & Hc & [] & Hst)|]; constructor.
  split_and!; [done|done| |lia..]. constructor; lia || done.
Qed.

Lemma collected_insert n sz c o m fd h i : collected n sz c o m -> file_ok n sz c h i ->
  collected n sz c (<[fd := h]> o) (<[fd := i]> m).
Proof.
  intros H Hf x. destruct (decide (x = fd)) as [-> |]; [rewrite !lookup_insert_eq; by constructor|].
  rewrite !lookup_insert_ne by done. apply H.
Qed.

Lemma collected_alter n sz c o m fd f h i : o !! fd = Some h -> collected n sz c o m -> file_ok n sz c (f h) i ->
  collected n sz c (alter f fd o) (<[fd := i]> m).
Proof.
  intros E H Hf x. destruct (decide (x = fd)) as [-> |].
  - rewrite lookup_alter_eq, E, lookup_insert_eq. by constructor.
  - rewrite lookup_alter_ne, lookup_insert_ne by done. apply H.
Qed.

Lemma collected_delete n sz c o m fd : collected n sz c o m -> collected n sz c (delete fd o) (delete fd m).
Proof.
  intros H x. destruct (decide (x = fd)) as [-> |]; [rewrite !lookup_delete_eq; by constructor|].
  rewrite !lookup_delete_ne by done. apply H.
Qed.

(** ** The collector *)

Lemma new_info_ok n sz c path ctx now : 0 <= n -> 0 <= sz -> 0 <= c -> 0 < now < 2 ^ 62 ->
  file_ok n sz c (new_history path ctx now) (new_info path ctx now).
Proof.
  intros Hn Hsz Hc Hnow. split; [|split; [|split; [|done]]].
  - constructor; try done. split; [|by exists []; split; [split; [|exists [], []]|]].
    intros r (_ & a & b & E). by destruct a, r.
  - split; [done|]. split; [intros a r E _; by destruct a, r|]. by exists [], [].
  - by constructor.
Qed.

Lemma OnReadWrite_ok type fd size ret cost tv n sz c o m : type <> kInit -> collected n sz c o m -> clock_ok tv ->
  0 <= size -> half_word size -> 0 <= n -> n + 1 < 2 ^ 31 -> 0 <= sz -> sz + size < 2 ^ (word_bits - 1) ->
  0 <= c -> c + Z.max 0 cost < 2 ^ (word_bits - 1) ->
  exists m', OnReadWrite type fd size ret cost tv m = Ok m' /\
    collected (n + 1) (sz + size) (c + Z.max 0 cost) (spec_rw type fd size ret cost (micros tv) o) m'.
Proof.
  intros Hty Hcol Htv Hs1 Hs2 Hn Hn' Hsz Hsz' Hc Hc'. unfold OnReadWrite, spec_rw.
  assert (collected (n + 1) (sz + size) (c + Z.max 0 cost) o m) as Hmono by (eapply collected_mono, Hcol; lia).
  destruct (ret =? -1); [by eexists|]. destruct (Z.ltb_spec cost 0); [by eexists|]. cbn [orb].
  rewrite Z.max_r in * by lia. rewrite sword_small by done. pose proof (Hcol fd) as Hfd.
  inversion Hfd as [h i (Hsum & Hcur & Hin & Hst) Eh Ei|Eh Ei].
  - unfold CountRWInfo. rewrite <- Ei, GetSysTimeMicros_ok by done. cbn [mbind result_bind].
    assert (op_ok (MkRw type size cost (micros tv))) as Hop by (split_and!; [done|done|done|apply Htv..]).
    destruct (count_info_summary h i _ n sz c Hop Hin Hsum Hcur Hn' Hsz' Hc') as (i' & E & Hsum' & Hcur').
    cbn [w_type w_size w_cost w_time] in E. rewrite E. cbn [mbind result_bind]. eexists. split; [done|].
    apply (collected_alter _ _ _ _ _ _ _ h); [done|done|]. split_and!; [done|done|apply (within_add _ _ _ _ _ Hop Hin)|apply Hst..].
  - eexists. split; [done|]. by rewrite alter_id' by done.
Qed.

Lemma rw_ok type fd size ret start stop tv n sz c o m (s : canary) : type <> kInit -> collected n sz c o m ->
  clock_ok tv /\ tick_ok start /\ tick_ok stop /\ 0 <= size /\ half_word size /\ half_word (ticks stop - ticks start) ->
  0 <= n -> n + 1 < 2 ^ 31 -> 0 <= sz -> sz + size < 2 ^ (word_bits - 1) ->
  0 <= c -> c + Z.max 0 (ticks stop - ticks start) < 2 ^ (word_bits - 1) ->
  exists m', (cost ← rw_cost start stop; m ← OnReadWrite type fd size ret cost tv m; Ok (set_info_map m s)) = Ok (set_info_map m' s) /\
    collected (n + 1) (sz + size) (c + Z.max 0 (ticks stop - ticks start))
      (spec_rw type fd size ret (ticks stop - ticks start) (micros tv) o) m'.
Proof.
  intros Hty Hcol (Htv & H1 & H2 & H3 & H4 & H5) Hn Hn' Hsz Hsz' Hc Hc'. rewrite rw_cost_ok by done. cbn [mbind result_bind].
  destruct (OnReadWrite_ok type fd size ret (ticks stop - ticks start) tv n sz c o m Hty Hcol Htv H3 H4 Hn Hn' Hsz Hsz' Hc Hc')
    as (m' & -> & Hm'). by exists m'.
Qed.

(** [s'] is [s] but for the table of files, with the records [l] offered to the thread. *)
Record offers (s s' : canary) (l : list IOInfo) : Prop := MkOffers {
  of_exit : exit_ s' = exit_ s;
  of_env : env_ s' = env_ s;
  of_callback : issued_callback_ s' = issued_callback_ s;
  of_detectors : detectors_ s' = detectors_ s;
  of_published : published s' = published s;
  of_queue : queue_ s' = queue_ s ++ l;
  of_thread : thread s' = match l with [] => thread s | _ => notify (thread s) end
}.

Lemma offers_none s m : offers s (set_info_map m s) [].
Proof. constructor; try done. cbn. by rewrite app_nil_r. Qed.

Lemma offers_refl s : offers s s [].
Proof. constructor; try done. by rewrite app_nil_r. Qed.

Lemma call_nonneg k : call_ok k -> 0 <= call_size k /\ 0 <= call_cost k.
Proof. destruct k; cbn [call_size call_cost call_ok]; lia. Qed.

(** A call does to the records what it does to the histories. *)
Lemma proxy_ok k n sz c f s : call_ok k -> collected n sz c (opened f) (info_map_ s) ->
  0 <= n -> n + 1 < 2 ^ 31 -> 0 <= sz -> sz + call_size k < 2 ^ (word_bits - 1) ->
  0 <= c -> c + call_cost k < 2 ^ (word_bits - 1) ->
  exists s' cl l, proxy main k s = Ok s' /\ offers s s' l /\
    collected (n + 1) (sz + call_size k) (c + call_cost k) (opened (spec_call main k f)) (info_map_ s') /\
    closed (spec_call main k f) = closed f ++ cl /\ Forall2 closing_info cl l /\ (length l <= 1)%nat.
Proof.
  intros Hk Hcol Hn Hn' Hsz Hsz' Hc Hc'. unfold proxy, spec_call.
  pose proof (call_nonneg k Hk) as [? ?].
  assert (collected (n + 1) (sz + call_size k) (c + call_cost k) (opened f) (info_map_ s)) as Hmono
    by (eapply collected_mono, Hcol; lia).
  assert (forall o m', collected (n + 1) (sz + call_size k) (c + call_cost k) o m' ->
    exists s' cl l, Ok (set_info_map m' s) = Ok s' /\ offers s s' l /\
      collected (n + 1) (sz + call_size k) (c + call_cost k) o (info_map_ s') /\
      closed f = closed f ++ cl /\ Forall2 closing_info cl l /\ (length l <= 1)%nat) as Hafter.
  { intros o m' Hm'. eexists _, [], []. split_and!; [done|apply offers_none|done|by rewrite app_nil_r|done|cbn; lia]. }
  assert (exists s' cl l, Ok s = Ok s' /\ offers s s' l /\
      collected (n + 1) (sz + call_size k) (c + call_cost k) (opened f) (info_map_ s') /\
      closed f = closed f ++ cl /\ Forall2 closing_info cl l /\ (length l <= 1)%nat) as Hsame.
  { eexists _, [], []. split_and!; [done|apply offers_refl|done|by rewrite app_nil_r|done|cbn; lia]. }
  destruct (IsMainThread main (thread_of k)); [|done]. cbn [negb].
  destruct k as [tid path ret java tv|tid fd size ret start stop tv|tid fd size ret start stop tv|tid fd tv st].
  - destruct java as [[name stk]|]; [|by destruct (ret =? -1); [|apply Hafter]]. unfold DoProxyOpenLogic, OnOpen.
    destruct (ret =? -1); [done|]. pose proof (Hcol ret) as Hfd. inversion Hfd as [h i Hf Eh Ei|Eh Ei]; [by apply Hafter|].
    rewrite GetSysTimeMicros_ok by done. cbn [mbind result_bind]. apply Hafter.
    apply collected_insert; [done|]. apply new_info_ok; try lia. apply Hk.
  - destruct (rw_ok kRead fd size ret start stop tv n sz c _ _ s ltac:(done) Hcol Hk Hn Hn' Hsz Hsz' Hc Hc') as (m' & E & Hm').
    unfold OnRead. rewrite E. by apply Hafter.
  - destruct (rw_ok kWrite fd size ret start stop tv n sz c _ _ s ltac:(done) Hcol Hk Hn Hn' Hsz Hsz' Hc Hc') as (m' & E & Hm').
    unfold OnWrite. rewrite E. by apply Hafter.
  - unfold OnClose. pose proof (Hcol fd) as Hfd. inversion Hfd as [h i (Hsum & _ & _ & Hst) Eh Ei|Eh Ei]; [|by apply Hafter].
    rewrite GetSysTimeMicros_ok by done. cbn [mbind result_bind]. destruct Hk as (_ & _ & Htv).
    rewrite (s_start _ _ Hsum). rewrite fit_ok by lia. cbn [mbind result_bind].
    eexists _, [_], [_]. split_and!; [done|by constructor|by apply collected_delete|done| |cbn; lia].
    apply Forall2_cons. split; [|done]. split_and!; [by destruct Hsum|done|done].
Qed.
End Files.
End IoFiles.
