(* ===== verification/IoCanaryIssues.v ===== *)
(** The detectors: they return, each publishes the first issue of every key that it raises, and
    reports of repeated reads are backed by as many reads. *)
From S2P Require Import Prelude Arch Machine IoCanary IoCanaryFiles.

(** * Detectors *)
Module IoIssues.
Import IoInfo IoDetect IoCanary IoHistory IoFiles.

Abbreviation observed := (gmap (list Z) (list RepeatReadInfo)).
Abbreviation clocks := (nat -> option (Z * Z) * option (Z * Z)).

Definition clocks_ok (clk : clocks) : Prop := forall n, tick_ok (fst (clk n)) /\ tick_ok (snd (clk n)).

Section Issues.
Context `{Ar : Arch} (main : Z) (env : IOCanaryEnv).

(** The detectors [ds] are shown the records [l] in order; [bs] are the issues of each. *)
Inductive examined (ds : list detector) : list IOInfo -> list detector -> list (list Issue) -> Prop :=
| examined_nil : examined ds [] ds []
| examined_snoc l ds1 bs i clk ds2 issues :
    examined ds l ds1 bs -> clocks_ok clk -> detect_loop main env i clk 0 ds1 [] = Ok (ds2, issues) ->
    examined ds (l ++ [i]) ds2 (bs ++ [issues]).

(** ** The detectors return *)

(** No read was counted more than [n] times, and the times are sane. *)
Definition repeats_ok (n : Z) (l : list RepeatReadInfo) : Prop :=
  Forall (fun r => 1 <= repeat_cnt_ r <= n /\ 0 <= op_timems r < 2 ^ 62) l.

Definition detector_ok (n : Z) (d : detector) : Prop := map_Forall (fun _ => repeats_ok n) (observing_map_ d).

Lemma repeats_ok_mono n n' l : n <= n' -> repeats_ok n l -> repeats_ok n' l.
Proof. intros Hn H. eapply Forall_impl; [exact H|]. cbn. lia. Qed.

Lemma bump_ok n r l : 0 <= n -> n + 1 < 2 ^ 31 -> repeats_ok n l ->
  exists o, bump r l = Ok o /\ match o with Some (_, l') => repeats_ok (n + 1) l' | None => True end.
Proof.
  intros Hn Hn' H. induction H as [|a l [Ha Ht] H IH]; [by exists None|]. cbn [bump].
  assert (repeats_ok (n + 1) l) as Hl by (apply (repeats_ok_mono n); [lia|done]).
  destruct (same_read a r).
  - unfold inc_repeat. rewrite fit_nonneg by lia. cbn [mbind result_bind]. eexists. split; [done|].
    constructor; [cbn; lia|done].
  - destruct IH as (o & -> & Ho). cbn [mbind result_bind]. destruct o as [[m l']|]; eexists; (split; [done|]); [|done].
    constructor; [lia|done].
Qed.

Lemma observed_mono (n : Z) (m : observed) :
  map_Forall (fun _ => repeats_ok n) m -> map_Forall (fun _ => repeats_ok (n + 1)) m.
Proof. intros H. eapply map_Forall_impl; [exact H|]. intros ? l Hl. apply (repeats_ok_mono n); [lia|done]. Qed.

Lemma observed_insert (n : Z) (m : observed) (p : list Z) l : map_Forall (fun _ => repeats_ok n) m -> repeats_ok (n + 1) l ->
  map_Forall (fun _ => repeats_ok (n + 1)) (<[p := l]> m).
Proof.
  intros Hm Hl. apply map_Forall_insert_2; [done|]. by apply observed_mono.
Qed.

Lemma observe_ok (n : Z) (i : IOInfo) (t1 t2 : option (Z * Z)) (m : observed) : 0 <= n -> n + 1 < 2 ^ 31 -> tick_ok t1 -> tick_ok t2 -> map_Forall (fun _ => repeats_ok n) m ->
  exists o m', observe env i t1 t2 m = Ok (o, m') /\ map_Forall (fun _ => repeats_ok (n + 1)) m'.
Proof.
  intros Hn Hn' H1 H2 Hm. unfold observe.
  assert (map_Forall (fun _ => repeats_ok (n + 1)) m) as Hm' by by apply observed_mono.
  destruct (_ && _); [by eexists _, _|].
  assert (repeats_ok n (default [] (m !! path_ i))) as Hl.
  { destruct (m !! path_ i) as [l|] eqn:E; [by apply (Hm (path_ i))|constructor]. }
  set (l := default [] (m !! path_ i)) in *.
  destruct (decide (op_type_ i = kWrite)); [by eexists _, _; split; [done|]; apply (observed_insert n); [|constructor]|].
  destruct (GetTickCount_ok _ H1) as (x1 & -> & Hx1). destruct (GetTickCount_ok _ H2) as (x2 & E2 & Hx2). cbn [mbind result_bind].
  assert (repeats_ok (n + 1) [new_repeat i x1]) as Hnew by (apply Forall_singleton; unfold new_repeat; cbn [repeat_cnt_ op_timems]; lia).
  destruct (last l) as [prev|] eqn:El; [|eexists _, _; split; [done|]; by apply (observed_insert n)].
  apply last_Some in El as (l' & El). pose proof Hl as Hl'. rewrite El in Hl'. apply Forall_app in Hl' as [_ Hp].
  apply Forall_singleton in Hp as [_ Hp]. rewrite E2. cbn [mbind result_bind]. rewrite fit_ok by lia. cbn [mbind result_bind].
  set (q := if 17 <? _ then [] else l). assert (repeats_ok n q) as Hq by (subst q; destruct (17 <? _); [constructor|done]).
  destruct (bump_ok n (new_repeat i x1) q Hn Hn' Hq) as (o & -> & Ho). cbn [mbind result_bind].
  destruct o as [[k q']|]; eexists _, _; (split; [done|]); apply (observed_insert n); try done.
  apply Forall_app. split; [apply (repeats_ok_mono n); [lia|done]|done].
Qed.

Lemma PublishIssue_observing t d l : observing_map_ (fst (PublishIssue t d l)) = observing_map_ d.
Proof. unfold PublishIssue. by destruct (decide _). Qed.

Lemma Detect_ok n i t d issues : 0 <= n -> n + 1 < 2 ^ 31 -> tick_ok (fst t) -> tick_ok (snd t) -> detector_ok n d ->
  exists d' issues', Detect main env i t d issues = Ok (d', issues') /\ detector_ok (n + 1) d'.
Proof.
  intros Hn Hn' H1 H2 Hd. unfold Detect.
  assert (detector_ok (n + 1) d) as Hd' by by apply observed_mono.
  assert (forall o d', detector_ok (n + 1) d' -> exists d1 issues',
    Ok (match o with Some issue => PublishIssue issue d' issues | None => (d', issues) end) = Ok (d1, issues') /\ detector_ok (n + 1) d1) as Hpub.
  { intros [o|] d1 H; [|by eexists _, _]. eexists _, _. split; [f_equal; apply surjective_pairing|].
    unfold detector_ok. by rewrite PublishIssue_observing. }
  destruct (kind d); [by apply Hpub|by apply Hpub|].
  destruct (observe_ok n i (fst t) (snd t) (observing_map_ d) Hn Hn' H1 H2 Hd) as (o & m & -> & Hm). cbn [mbind result_bind].
  by apply Hpub.
Qed.

Lemma detect_loop_ok n i clk : 0 <= n -> n + 1 < 2 ^ 31 -> clocks_ok clk -> forall ds k issues, Forall (detector_ok n) ds ->
  exists ds' issues', detect_loop main env i clk k ds issues = Ok (ds', issues') /\ Forall (detector_ok (n + 1)) ds'.
Proof.
  intros Hn Hn' Hclk. induction ds as [|d ds IH]; intros k issues H; [by eexists _, _|]. cbn [detect_loop].
  apply Forall_cons in H as [Hd H]. destruct (Hclk k) as [H1 H2].
  destruct (Detect_ok n i (clk k) d issues Hn Hn' H1 H2 Hd) as (d' & is' & -> & Hd'). cbn [mbind result_bind].
  destruct (IH (S k) is' H) as (ds' & is2 & -> & Hds). cbn [mbind result_bind]. eexists _, _. split; [done|]. by constructor.
Qed.

(** ** What they publish *)

(** The first issue of every key that is not in [seen]. *)
Fixpoint first_by_key (seen : gset (list Z)) (l : list Issue) : list Issue :=
  match l with
  | [] => []
  | x :: l => if decide (key_ x ∈ seen) then first_by_key seen l else x :: first_by_key ({[ key_ x ]} ∪ seen) l
  end.

Definition keys (l : list Issue) : gset (list Z) := list_to_set (key_ <$> l).

Lemma keys_cons y l : keys (y :: l) = {[ key_ y ]} ∪ keys l.
Proof. done. Qed.

Lemma first_by_key_snoc l x : forall seen,
  first_by_key seen (l ++ [x]) = first_by_key seen l ++ (if decide (key_ x ∈ seen ∪ keys l) then [] else [x]).
Proof.
  induction l as [|y l IH]; intros seen; cbn [app first_by_key].
  - change (keys []) with (∅ : gset (list Z)). repeat case_decide; try done; set_solver.
  - rewrite keys_cons. destruct (decide (key_ y ∈ seen)) as [Hy|Hy]; rewrite IH; cbn [app]; repeat f_equal; apply decide_ext;
      rewrite !elem_of_union, ?elem_of_singleton; [|tauto].
    split; [tauto|]. intros [?|[E|?]]; [tauto| |tauto]. rewrite E. tauto.
Qed.

(** Each kind of detector raises one type of issue. *)
Definition issue_of (k : DetectorType) : IssueType :=
  match k with
  | kDetectorMainThreadIO => kIssueMainThreadIO
  | kDetectorSmallBuffer => kIssueSmallBuffer
  | kDetectorRepeatRead => kIssueRepeatRead
  end.

#[local] Instance IssueType_eq_dec : EqDecision IssueType.
Proof. solve_decision. Defined.

Definition of_kind (k : DetectorType) (l : list Issue) : list Issue := filter (fun x => type_ x = issue_of k) l.

(** What a detector of kind [k] raises, published or not. *)
Definition raises (k : DetectorType) (m : observed) (i : IOInfo) (t : option (Z * Z) * option (Z * Z)) (o : option Issue)
  (m' : observed) : Prop :=
  match k with
  | kDetectorMainThreadIO => o = main_thread_issue main env i /\ m' = m
  | kDetectorSmallBuffer => o = small_buffer_issue env i /\ m' = m
  | kDetectorRepeatRead => observe env i (fst t) (snd t) m = Ok (o, m')
  end.

Definition new_issues (o : option Issue) (seen : gset (list Z)) : list Issue :=
  match o with Some x => if decide (key_ x ∈ seen) then [] else [x] | None => [] end.

Lemma observe_type (i : IOInfo) (t1 t2 : option (Z * Z)) (m : observed) x m' : observe env i t1 t2 m = Ok (Some x, m') -> type_ x = kIssueRepeatRead.
Proof.
  unfold observe. destruct (_ && _); [done|]. destruct (decide _); [done|]. destruct (GetTickCount t1); try done.
  cbn [mbind result_bind]. destruct (last _); [|done]. destruct (GetTickCount t2); try done. cbn [mbind result_bind].
  destruct (fit _ _); try done. cbn [mbind result_bind]. destruct (bump _ _) as [[[cnt l]|]| | | |]; try done. cbn.
  destruct (_ <=? _); [|done]. by intros [= <- _].
Qed.

(** A detector appends what it raises if the key is new. *)
Lemma Detect_raises i t d issues d' issues' : Detect main env i t d issues = Ok (d', issues') ->
  exists o, raises (kind d) (observing_map_ d) i t o (observing_map_ d') /\ kind d' = kind d /\ (forall x, o = Some x -> type_ x = issue_of (kind d)) /\
    issues' = issues ++ new_issues o (published_issue_set_ d) /\
    published_issue_set_ d' = keys (new_issues o (published_issue_set_ d)) ∪ published_issue_set_ d.
Proof.
  unfold Detect, raises.
  assert (forall o d1 d2 l, (match o with Some issue => PublishIssue issue d1 issues | None => (d1, issues) end) = (d2, l) ->
    observing_map_ d2 = observing_map_ d1 /\ kind d2 = kind d1 /\ l = issues ++ new_issues o (published_issue_set_ d1) /\
    published_issue_set_ d2 = keys (new_issues o (published_issue_set_ d1)) ∪ published_issue_set_ d1) as Hpub.
  { intros [x|] d1 d2 l; unfold PublishIssue, new_issues, keys; [destruct (decide _)|]; intros [= <- <-]; cbn;
      rewrite ?app_nil_r; split_and!; try done; set_solver. }
  destruct (kind d) eqn:Ek; intros E.
  - apply Ok_inj, Hpub in E as (E1 & E2 & E3 & E4). eexists. split_and!; [done|done|by rewrite E2| |done|done].
    unfold main_thread_issue. destruct (_ =? _); [|done]. destruct (negb _); [|done]. by intros ? [= <-].
  - apply Ok_inj, Hpub in E as (E1 & E2 & E3 & E4). eexists. split_and!; [done|done|by rewrite E2| |done|done].
    unfold small_buffer_issue. destruct (_ && _); [|done]. by intros ? [= <-].
  - apply result_bind_Ok in E as ([o m] & Eo & E). apply Ok_inj, Hpub in E as (E1 & E2 & E3 & E4). cbn in *.
    exists o. split_and!; [by rewrite E1|done| |done|done]. intros x ->. by apply observe_type in Eo.
Qed.

Lemma of_kind_app k l1 l2 : of_kind k (l1 ++ l2) = of_kind k l1 ++ of_kind k l2.
Proof. apply filter_app. Qed.

Lemma of_kind_new k o seen : (forall x, o = Some x -> type_ x = issue_of k) -> of_kind k (new_issues o seen) = new_issues o seen.
Proof.
  intros H. destruct o as [x|]; [|done]. cbn. destruct (decide _); [done|]. unfold of_kind. by rewrite filter_cons_True, filter_nil by auto.
Qed.

Lemma of_kind_other k k' o seen : k <> k' -> (forall x, o = Some x -> type_ x = issue_of k) -> of_kind k' (new_issues o seen) = [].
Proof.
  intros Hk H. destruct o as [x|]; [|done]. cbn. destruct (decide _); [done|]. unfold of_kind.
  rewrite filter_cons_False, filter_nil; [done|]. rewrite (H x eq_refl). by destruct k, k'.
Qed.

(** In a round, the detector [d] at place [j] is the only one that appends issues of its kind. *)
Lemma detect_loop_raises i clk : forall ds k issues ds' issues', detect_loop main env i clk k ds issues = Ok (ds', issues') ->
  kind <$> ds' = kind <$> ds /\
  (forall q, q ∉ kind <$> ds -> of_kind q issues' = of_kind q issues) /\
  (NoDup (kind <$> ds) -> forall j d, ds !! j = Some d -> exists d' o, ds' !! j = Some d' /\
    raises (kind d) (observing_map_ d) i (clk (k + j)%nat) o (observing_map_ d') /\
    of_kind (kind d) issues' = of_kind (kind d) issues ++ new_issues o (published_issue_set_ d) /\
    published_issue_set_ d' = keys (new_issues o (published_issue_set_ d)) ∪ published_issue_set_ d).
Proof.
  induction ds as [|d0 ds IH]; intros k issues ds' issues' E; cbn [detect_loop] in E; [by injection E as <- <-|].
  apply result_bind_Ok in E as ([d1 is1] & E1 & E). apply result_bind_Ok in E as ([ds1 is2] & E2 & E).
  injection E as <- <-. apply Detect_raises in E1 as (o & Ho & Hk & Hty & -> & Hset).
  destruct (IH _ _ _ _ E2) as (IHk & IHother & IHd). split_and!.
  - cbn. by rewrite Hk, IHk.
  - intros q Hq. cbn in Hq. apply not_elem_of_cons in Hq as [Hne Hq]. rewrite (IHother q Hq), of_kind_app. by rewrite (of_kind_other (kind d0)), app_nil_r by done.
  - intros Hnd j d Hj. cbn in Hnd. apply NoDup_cons in Hnd as [Hnin Hnd]. destruct j as [|j]; cbn in Hj |- *.
    + injection Hj as <-. exists d1, o. rewrite Nat.add_0_r. split_and!; [done|done| |done].
      rewrite (IHother _ Hnin), of_kind_app. f_equal. by apply of_kind_new.
    + destruct (IHd Hnd j d Hj) as (d' & o' & Hj' & Ho' & Eo & Es). exists d', o'. rewrite <- Nat.add_succ_comm.
      split_and!; [done|done| |done]. rewrite Eo. f_equal. rewrite of_kind_app.
      rewrite (of_kind_other (kind d0)), app_nil_r; [done| |done]. intros Ek. apply Hnin. rewrite Ek.
      apply list_elem_of_fmap_2. by eapply list_elem_of_lookup_2.
Qed.

(** All that a detector raises, in order. *)
Inductive raised (d : detector) : list IOInfo -> observed -> list Issue -> Prop :=
| raised_nil : raised d [] (observing_map_ d) []
| raised_snoc l m os i t o m' : raised d l m os -> raises (kind d) m i t o m' ->
    raised d (l ++ [i]) m' (os ++ match o with Some x => [x] | None => [] end).

Lemma keys_app l1 l2 : keys (l1 ++ l2) = keys l1 ∪ keys l2.
Proof. unfold keys. by rewrite fmap_app, list_to_set_app_L. Qed.

Lemma new_issues_snoc os o : new_issues o (keys os) = (match o with Some x => if decide (key_ x ∈ ∅ ∪ keys os) then [] else [x] | None => [] end).
Proof. destruct o as [x|]; [|done]. cbn. by rewrite (left_id_L ∅ (∪)). Qed.

Lemma keys_new o seen : keys (new_issues o seen) ∪ seen = keys (match o with Some x => [x] | None => [] end) ∪ seen.
Proof. destruct o as [x|]; [|done]. cbn [new_issues]. case_decide; [|done]. unfold keys. cbn. set_solver. Qed.

(** A detector publishes the first issue of every key that it raises. *)
Lemma examined_raised ds l ds' bs : examined ds l ds' bs -> NoDup (kind <$> ds) -> Forall (fun d => published_issue_set_ d = ∅) ds ->
  kind <$> ds' = kind <$> ds /\
  forall j d, ds !! j = Some d -> exists d' os, ds' !! j = Some d' /\ raised d l (observing_map_ d') os /\
    of_kind (kind d) (concat bs) = first_by_key ∅ os /\ published_issue_set_ d' = keys os.
Proof.
  intros H Hnd Hpub. induction H as [|l ds1 bs i clk ds2 issues Hex [IHk IH] Hclk E].
  { split; [done|]. intros j d Hj. exists d, []. split_and!; [done|constructor|done|].
    rewrite Forall_forall in Hpub. by rewrite (Hpub d (list_elem_of_lookup_2 _ _ _ Hj)). }
  apply detect_loop_raises in E as (E1 & _ & E2). split; [congruence|]. intros j d Hj.
  destruct (IH j d Hj) as (d1 & os & Hj1 & Hr & Hbs & Hset).
  assert (kind d1 = kind d) as Ek.
  { pose proof (list_lookup_fmap kind ds1 j) as E3. rewrite IHk, list_lookup_fmap, Hj, Hj1 in E3. cbn in E3. congruence. }
  rewrite <- IHk in Hnd. destruct (E2 Hnd j d1 Hj1) as (d2 & o & Hj2 & Ho & Eo & Es). rewrite Ek in Ho, Eo. cbn in Eo.
  exists d2. eexists. split; [done|]. split; [by econstructor|]. rewrite Hset in *. split.
  - rewrite concat_app, of_kind_app, Hbs. cbn [concat]. rewrite app_nil_r, Eo, new_issues_snoc.
    destruct o as [x|]; [by rewrite first_by_key_snoc|by rewrite !app_nil_r].
  - rewrite Es, keys_new, keys_app. apply (comm_L (∪)).
Qed.

Lemma raised_main_thread d l m os : kind d = kDetectorMainThreadIO -> raised d l m os -> os = omap (main_thread_issue main env) l.
Proof.
  intros Ek. induction 1 as [|l m os i t o m' _ IH Ho]; [done|]. rewrite Ek in Ho. destruct Ho as [-> _].
  by rewrite omap_app, IH.
Qed.

Lemma raised_small_buffer d l m os : kind d = kDetectorSmallBuffer -> raised d l m os -> os = omap (small_buffer_issue env) l.
Proof.
  intros Ek. induction 1 as [|l m os i t o m' _ IH Ho]; [done|]. rewrite Ek in Ho. destruct Ho as [-> _].
  by rewrite omap_app, IH.
Qed.

(** ** Repeated reads *)

(** What makes two reads the same. *)
Definition read_key (r : RepeatReadInfo) : list Z * Z * list Z * Z * Z :=
  (rr_path_ r, rr_java_thread_id_ r, rr_java_stack_ r, rr_file_size_ r, rr_op_size_ r).
Definition info_key (i : IOInfo) : list Z * Z * list Z * Z * Z :=
  (path_ i, sword (thread_id_ (java_context_ i)), stack_ (java_context_ i), s32 (file_size_ i), op_size_ i).

Definition alike (k : list Z * Z * list Z * Z * Z) (l : list IOInfo) : Z :=
  Z.of_nat (length (filter (fun i => info_key i = k) l)).

Definition no_write (p : list Z) (l : list IOInfo) : Prop := Forall (fun i => path_ i = p -> op_type_ i <> kWrite) l.

(** Every count is backed by as many reads since the last write. *)
Definition tracked (l : list IOInfo) (m : observed) : Prop := forall p rs, m !! p = Some rs ->
  exists a b, l = a ++ b /\ no_write p b /\ Forall (fun r => repeat_cnt_ r <= alike (read_key r) b) rs.

(** The issue [x] reports as many reads of one file, from one thread and stack and of one size, with
    no write of the file in between. *)
Definition repeated (l : list IOInfo) (x : Issue) : Prop := exists a b c, l = a ++ b ++ c /\
  last b = Some (file_io_info_ x) /\ no_write (path_ (file_io_info_ x)) b /\
  cfg_repeat_read env <= repeat_read_cnt_ x <= alike (info_key (file_io_info_ x)) b.

Lemma same_read_key a b : same_read a b = true <-> read_key a = read_key b.
Proof.
  unfold same_read, read_key. rewrite !andb_true_iff, !bool_decide_eq_true, !Z.eqb_eq. split; [intuition congruence|].
  intros [= -> -> -> -> ->]. done.
Qed.

Lemma alike_snoc k l i : alike k (l ++ [i]) = alike k l + (if decide (info_key i = k) then 1 else 0).
Proof.
  unfold alike. rewrite filter_app, length_app, filter_cons, filter_nil. destruct (decide (info_key i = k)); cbn; lia.
Qed.

Lemma alike_mono k l i : alike k l <= alike k (l ++ [i]).
Proof. rewrite alike_snoc. destruct (decide _); lia. Qed.

Lemma fit_Ok w z x : fit w z = Ok x -> x = z.
Proof. unfold fit. destruct (_ && _); [by intros [= <-]|done]. Qed.

Lemma bump_found r l n l' : bump r l = Ok (Some (n, l')) -> exists l1 a a' l2, l = l1 ++ a :: l2 /\ l' = l1 ++ a' :: l2 /\
  read_key a = read_key r /\ read_key a' = read_key a /\ repeat_cnt_ a' = n /\ n = repeat_cnt_ a + 1.
Proof.
  revert l'. induction l as [|a l IH]; intros l' E; [done|]. cbn [bump] in E. destruct (same_read a r) eqn:Es.
  - apply result_bind_Ok in E as (a' & Ea & E). injection E as <- <-. unfold inc_repeat in Ea.
    apply result_bind_Ok in Ea as (x & Ex & Ea). injection Ea as <-. apply fit_Ok in Ex as ->.
    exists [], a. eexists _, l. split_and!; [done|done|by apply same_read_key|done|done|done].
  - apply result_bind_Ok in E as ([[n1 l1]|] & Eb & E); [|done]. injection E as <- <-.
    destruct (IH _ Eb) as (p & b & b' & q & -> & -> & ?). by exists (a :: p), b, b', q.
Qed.

(** The entries of one file after another record [i] of it; [b] are the records that count. *)
Definition backed (p : list Z) (b : list IOInfo) (rs : list RepeatReadInfo) : Prop :=
  no_write p b /\ Forall (fun r => repeat_cnt_ r <= alike (read_key r) b) rs.

Lemma backed_nil p : backed p [] [].
Proof. split; constructor. Qed.

Lemma backed_snoc p b i rs : backed p b rs -> (path_ i = p -> op_type_ i <> kWrite) -> backed p (b ++ [i]) rs.
Proof.
  intros [Hw Hb] Hi. split; [apply Forall_app; split; [done|by apply Forall_singleton]|].
  eapply Forall_impl; [exact Hb|]. intros r Hr. cbn in *. pose proof (alike_mono (read_key r) b i). lia.
Qed.

Lemma backed_new b i t rs : op_type_ i <> kWrite -> backed (path_ i) b rs -> backed (path_ i) (b ++ [i]) (rs ++ [new_repeat i t]).
Proof.
  intros Hi H. destruct (backed_snoc _ _ i _ H ltac:(done)) as [Hw Hb]. split; [done|]. apply Forall_app. split; [done|].
  apply Forall_singleton. change (1 <= alike (info_key i) (b ++ [i])). rewrite alike_snoc, decide_True by done. unfold alike. lia.
Qed.

Lemma tracked_insert l m i rs : tracked l m -> (exists a b, l ++ [i] = a ++ b /\ backed (path_ i) b rs) ->
  tracked (l ++ [i]) (<[path_ i := rs]> m).
Proof.
  intros H (a & b & E & Hb) p rs' Hp. destruct (decide (p = path_ i)) as [-> |Hne].
  - rewrite lookup_insert_eq in Hp. injection Hp as <-. by exists a, b.
  - rewrite lookup_insert_ne in Hp by done. destruct (H p rs' Hp) as (a' & b' & -> & Hw & Hr).
    exists a', (b' ++ [i]). split; [by rewrite app_assoc|]. by apply backed_snoc.
Qed.

Lemma observe_tracked (l : list IOInfo) (m : observed) (i : IOInfo) (t1 t2 : option (Z * Z)) o m' : tracked l m -> observe env i t1 t2 m = Ok (o, m') ->
  tracked (l ++ [i]) m' /\ forall x, o = Some x -> repeated (l ++ [i]) x.
Proof.
  intros Ht E. unfold observe in E. destruct (bool_decide (m !! path_ i = None) && _) eqn:Ec.
  { injection E as <- <-. split; [|done]. apply andb_true_iff in Ec as [Hn _]. apply bool_decide_eq_true in Hn.
    intros p rs Hp. destruct (Ht p rs Hp) as (a & b & -> & Hb). exists a, (b ++ [i]). split; [by rewrite app_assoc|].
    apply backed_snoc; [done|]. intros <-. congruence. }
  assert (exists a b, l = a ++ b /\ backed (path_ i) b (default [] (m !! path_ i))) as (a & b & El & Hb).
  { destruct (m !! path_ i) as [rs|] eqn:Ep; [destruct (Ht _ _ Ep) as (a & b & ? & ?); by exists a, b|].
    exists l, []. split; [by rewrite app_nil_r|apply backed_nil]. }
  set (rs := default [] (m !! path_ i)) in *. destruct (decide (op_type_ i = kWrite)) as [Hw|Hw].
  { injection E as <- <-. split; [|done]. apply tracked_insert; [done|]. exists (l ++ [i]), [].
    split; [by rewrite app_nil_r|apply backed_nil]. }
  apply result_bind_Ok in E as (x1 & _ & E).
  assert (backed (path_ i) ([] ++ [i]) ([] ++ [new_repeat i x1])) as Hfresh by (apply backed_new; [done|apply backed_nil]).
  destruct (last rs) as [prev|] eqn:Elast; [|injection E as <- <-; split; [|done]; apply tracked_insert; [done|by exists l, [i]]].
  apply result_bind_Ok in E as (x2 & _ & E). apply result_bind_Ok in E as (pause & _ & E).
  assert (exists a b, l = a ++ b /\ backed (path_ i) b (if 17 <? pause then [] else rs)) as (a1 & b1 & El1 & Hb1).
  { destruct (17 <? pause); [|by exists a, b]. exists l, []. split; [by rewrite app_nil_r|apply backed_nil]. }
  set (rs1 := if 17 <? pause then [] else rs) in *. apply result_bind_Ok in E as ([[n rs']|] & Eb & E); injection E as <- <-.
  - apply bump_found in Eb as (p & x & x' & q & Ers & -> & K1 & K2 & K3 & K4). pose proof Hb1 as [Hw1 Hr1].
    rewrite Ers in Hr1. apply Forall_app in Hr1 as [Hp Hq]. apply Forall_cons in Hq as [Hx Hq].
    assert (n <= alike (info_key i) (b1 ++ [i])) as Hn.
    { rewrite alike_snoc, decide_True by done. change (read_key (new_repeat i x1)) with (info_key i) in K1. rewrite K1 in Hx. lia. }
    destruct (backed_snoc _ _ i _ Hb1 ltac:(done)) as [Hw2 Hr2]. split.
    + apply tracked_insert; [done|]. exists a1, (b1 ++ [i]). split; [by rewrite El1, app_assoc|]. split; [done|].
      rewrite Ers in Hr2. apply Forall_app in Hr2 as [Hp2 Hq2]. apply Forall_cons in Hq2 as [_ Hq2].
      apply Forall_app. split; [done|]. apply Forall_cons. split; [|done]. by rewrite K3, K2, K1.
    + intros y Hy. destruct (Z.leb_spec (cfg_repeat_read env) n); [|done]. injection Hy as <-.
      exists a1, (b1 ++ [i]), []. split_and!; [by rewrite El1, app_nil_r, app_assoc|by rewrite last_snoc|done|done|done].
  - split; [|done]. apply tracked_insert; [done|]. exists a1, (b1 ++ [i]). split; [by rewrite El1, app_assoc|].
    by apply backed_new.
Qed.

Lemma repeated_snoc l x i : repeated l x -> repeated (l ++ [i]) x.
Proof. intros (a & b & c & -> & H). exists a, b, (c ++ [i]). by rewrite !app_assoc. Qed.

Lemma raised_repeated d l m os : kind d = kDetectorRepeatRead -> observing_map_ d = ∅ -> raised d l m os ->
  Forall (repeated l) os.
Proof.
  intros Ek Em H. assert (tracked l m /\ Forall (repeated l) os) as [_ ?]; [|done].
  induction H as [|l m os i t o m' _ [IHt IH] Ho]; [split; [rewrite Em; intros p rs; by rewrite lookup_empty|done]|].
  rewrite Ek in Ho. destruct (observe_tracked _ _ _ _ _ _ _ IHt Ho) as [Ht Hx]. split; [done|].
  apply Forall_app. split; [eapply Forall_impl; [exact IH|]; intros x; apply repeated_snoc|].
  destruct o as [x|]; [|done]. apply Forall_singleton. by apply Hx.
Qed.

Lemma first_by_key_Forall (P : Issue -> Prop) l : Forall P l -> forall seen, Forall P (first_by_key seen l).
Proof. induction 1; intros seen; cbn; [done|]. destruct (decide _); [done|]. by constructor. Qed.

Lemma first_by_key_fresh l : forall seen x, x ∈ first_by_key seen l -> key_ x ∉ seen.
Proof.
  induction l as [|y l IH]; intros seen x Hx; cbn in Hx; [by apply not_elem_of_nil in Hx|].
  destruct (decide (key_ y ∈ seen)); [by apply IH|]. apply elem_of_cons in Hx as [-> |Hx]; [done|].
  apply IH in Hx. set_solver.
Qed.

Lemma first_by_key_NoDup l : forall seen, NoDup (key_ <$> first_by_key seen l).
Proof.
  induction l as [|y l IH]; intros seen; cbn; [constructor|]. destruct (decide (key_ y ∈ seen)); [done|]. cbn. constructor; [|done].
  intros Hin. apply list_elem_of_fmap in Hin as (x & Ex & Hx). apply first_by_key_fresh in Hx. rewrite <- Ex in Hx. set_solver.
Qed.
End Issues.
End IoIssues.
