(* ===== verification/IoCanaryRun.v ===== *)
(** The watcher of file operations as a whole: any calls of the app, interleaved with its thread in any
    way. *)
From S2P Require Import Prelude Arch Machine Libc IoCanary IoCanaryFiles IoCanaryIssues.

(** * Every schedule *)
Module IoRun.
Import IoInfo IoDetect IoCanary IoHistory IoFiles IoIssues.

Definition calls (acts : list action) : list call :=
  omap (fun a => match a with App c => Some c | _ => None end) acts.

(** The histories after the calls of [acts]. *)
Definition histories (main : Z) (acts : list action) (f : files) : files :=
  foldl (fun f c => spec_call main c f) f (calls acts).

Definition no_files : files := MkFiles ∅ [].

Section Run.
Context `{Ar : Arch} (main : Z).

Definition action_ok (a : action) : Prop :=
  match a with App c => call_ok c | Thread clk => clocks_ok clk | Wake => True end.

(** Sane clocks, and nothing that overflows: fewer than 2^31 calls whose sizes and times fit a [long]
    all together. *)
Record sane (acts : list action) : Prop := MkSane {
  sane_actions : Forall action_ok acts;
  sane_count : Z.of_nat (length (calls acts)) < 2 ^ 31;
  sane_sizes : total (call_size <$> calls acts) < 2 ^ (word_bits - 1);
  sane_costs : total (call_cost <$> calls acts) < 2 ^ (word_bits - 1)
}.

(** The watcher before the first call: detectors, thresholds and the callback are in place. *)
Record configured (s : canary) : Prop := MkConfigured {
  cf_exit : exit_ s = false;
  cf_callback : issued_callback_ s = true;
  cf_detectors : Forall (fun d => observing_map_ d = ∅) (detectors_ s);
  cf_files : info_map_ s = ∅;
  cf_queue : queue_ s = [];
  cf_thread : thread s = Running;
  cf_published : published s = []
}.

Definition not_empty (bs : list (list Issue)) : list (list Issue) := filter (fun l => l <> []) bs.

(** The thread does not sleep on a queue that has something in it. *)
Definition awake (s : canary) : Prop :=
  match thread s with Running | Waiting true => True | Waiting false => queue_ s = [] | Ended => False end.

(** The records of the files that were closed are examined in order, or wait in the queue. *)
Definition reported (s0 : canary) (f : files) (infos : list IOInfo) (bs : list (list Issue)) (s : canary) : Prop :=
  Forall2 closing_info (closed f) (infos ++ queue_ s) /\
  examined main (env_ s0) (detectors_ s0) infos (detectors_ s) bs /\ published s = not_empty bs.

Record watching (s0 : canary) (n sz c : Z) (f : files) (s : canary) : Prop := MkWatching {
  w_exit : exit_ s = false;
  w_env : env_ s = env_ s0;
  w_callback : issued_callback_ s = true;
  w_files : collected n sz c (opened f) (info_map_ s);
  w_awake : awake s;
  w_reported : exists infos bs, reported s0 f infos bs s /\ Forall (detector_ok (Z.of_nat (length infos))) (detectors_ s);
  w_closed : Z.of_nat (length (closed f)) <= n
}.

Lemma watching_start s0 : configured s0 -> watching s0 0 0 0 no_files s0.
Proof.
  intros [H1 H2 H3 H4 H5 H6 H7]. constructor; try done.
  - rewrite H4. intros fd. rewrite !lookup_empty. constructor.
  - unfold awake. by rewrite H6.
  - exists [], []. split; [split_and!; [by rewrite H5|constructor|by rewrite H7]|].
    eapply Forall_impl; [exact H3|]. intros d Hd. cbn. unfold detector_ok. rewrite Hd. apply map_Forall_empty.
Qed.

Lemma awake_notify s : awake s -> awake (set_thread (notify (thread s)) s).
Proof. unfold awake. destruct s as [? ? ? ? ? ? [|[]|] ?]; cbn; done. Qed.

Lemma call_watching s0 k n sz c f s : call_ok k -> watching s0 n sz c f s -> 0 <= n -> n + 1 < 2 ^ 31 ->
  0 <= sz -> sz + call_size k < 2 ^ (word_bits - 1) -> 0 <= c -> c + call_cost k < 2 ^ (word_bits - 1) ->
  exists s', proxy main k s = Ok s' /\ watching s0 (n + 1) (sz + call_size k) (c + call_cost k) (spec_call main k f) s'.
Proof.
  intros Hk [H1 H2 H3 Hcol Haw (infos & bs & (Hf & Hex & Hpub) & Hd) Hcl] Hn Hn' Hsz Hsz' Hc Hc'.
  destruct (proxy_ok main k n sz c f s Hk Hcol Hn Hn' Hsz Hsz' Hc Hc') as (s' & cl & l & E & [O1 O2 O3 O4 O5 O6 O7] & Hcol' & Ecl & Hcls & Hlen).
  exists s'. split; [done|]. constructor; try congruence.
  - done.
  - unfold awake in *. rewrite O7. destruct l as [|i l]; [rewrite O6, app_nil_r; done|]. by destruct (thread s) as [|[]|].
  - exists infos, bs. unfold reported. rewrite Ecl, O6, O4, O5. split; [split_and!; [|done|done]|done].
    rewrite app_assoc. by apply Forall2_app.
  - rewrite Ecl, length_app. apply Forall2_length in Hcls. lia.
Qed.

Lemma thread_watching s0 clk n sz c f s : clocks_ok clk -> n < 2 ^ 31 -> watching s0 n sz c f s ->
  exists s', thread_step main clk s = Ok s' /\ watching s0 n sz c f s' /\
    match thread s with
    | Running => match queue_ s with
                 | [] => queue_ s' = [] /\ thread s' = Waiting false
                 | i :: q => queue_ s' = q /\ thread s' = Running
                 end
    | Waiting true => queue_ s' = queue_ s /\ thread s' = Running
    | _ => s' = s
    end.
Proof.
  intros Hclk Hn [H1 H2 H3 Hcol Haw (infos & bs & (Hf & Hex & Hpub) & Hd) Hcl]. unfold thread_step, awake in *.
  destruct (thread s) as [|[]|] eqn:Et; [|rewrite H1| |done].
  - destruct (queue_ s) as [|i q] eqn:Eq.
    { eexists. split; [done|]. split; [|done]. constructor; try done. exists infos, bs. unfold reported. cbn. by rewrite Eq. }
    assert (Z.of_nat (length infos) + 1 < 2 ^ 31) as Hl by (apply Forall2_length in Hf; rewrite length_app in Hf; cbn in Hf; lia).
    destruct (detect_loop_ok main (env_ s) (Z.of_nat (length infos)) i clk ltac:(lia) Hl Hclk _ 0 [] Hd) as (ds & issues & E & Hds).
    rewrite E. cbn [mbind result_bind]. eexists. split; [done|]. split; [|done].
    constructor; try done. exists (infos ++ [i]), (bs ++ [issues]). unfold reported. cbn.
    rewrite H3, Hpub, <- app_assoc. split; [split_and!; [done|by rewrite H2 in E; econstructor|]|].
    + unfold not_empty. rewrite filter_app, filter_cons, filter_nil. case_bool_decide; cbn [negb andb].
      * subst. by rewrite decide_False, app_nil_r by auto.
      * by rewrite decide_True.
    + rewrite length_app. cbn. by replace (Z.of_nat (length infos + 1)) with (Z.of_nat (length infos) + 1) by lia.
  - eexists. split; [done|]. split; [|done]. constructor; try done. by exists infos, bs.
  - eexists. split; [done|]. split; [|done]. constructor; try done; [by unfold awake; rewrite Et|by exists infos, bs].
Qed.

(** ** Schedules *)

Lemma calls_cost_nonneg acts : Forall action_ok acts -> 0 <= total (call_size <$> calls acts) /\ 0 <= total (call_cost <$> calls acts).
Proof.
  induction 1 as [|a acts Ha _ [IH1 IH2]]; [done|]. destruct a as [k| |]; [|done|done].
  pose proof (call_nonneg k Ha). change (calls (App k :: acts)) with (k :: calls acts). rewrite !fmap_cons, !total_cons. lia.
Qed.

Lemma run_watching s0 acts : Forall action_ok acts -> forall n sz c f s, watching s0 n sz c f s -> 0 <= n -> 0 <= sz -> 0 <= c ->
  n + Z.of_nat (length (calls acts)) < 2 ^ 31 ->
  sz + total (call_size <$> calls acts) < 2 ^ (word_bits - 1) -> c + total (call_cost <$> calls acts) < 2 ^ (word_bits - 1) ->
  exists s' n' sz' c', run main acts s = Ok s' /\ n' < 2 ^ 31 /\ watching s0 n' sz' c' (histories main acts f) s'.
Proof.
  induction 1 as [|a acts Ha Hacts IH]; intros n sz c f s Hw Hn Hsz Hc Bn Bs Bc.
  { exists s, n, sz, c. cbn in *. split_and!; [done|lia|done]. }
  pose proof (calls_cost_nonneg _ Hacts) as [? ?]. destruct a as [k|clk|]; cbn [run step].
  - change (calls (App k :: acts)) with (k :: calls acts) in *. rewrite !fmap_cons, !total_cons in *. cbn [length] in Bn.
    pose proof (call_nonneg k Ha) as [? ?].
    destruct (call_watching s0 k n sz c f s Ha Hw) as (s1 & -> & Hw1); try lia. cbn [mbind result_bind].
    apply (IH _ _ _ _ _ Hw1); lia.
  - destruct (thread_watching s0 clk n sz c f s Ha ltac:(lia) Hw) as (s1 & -> & Hw1 & _). cbn [mbind result_bind].
    by apply (IH n sz c).
  - cbn [mbind result_bind]. apply (IH n sz c); try done. destruct Hw. constructor; try done. by apply awake_notify.
Qed.

(** The thread empties the queue: it needs a step for every record and one to wake up. *)
Lemma drain_queue s0 n sz c f clks : n < 2 ^ 31 -> Forall clocks_ok clks -> forall s, watching s0 n sz c f s ->
  (length (queue_ s) + match thread s with Waiting true => 1 | _ => 0 end <= length clks)%nat ->
  exists s', run main (Thread <$> clks) s = Ok s' /\ watching s0 n sz c f s' /\ queue_ s' = [].
Proof.
  intros Hn. induction 1 as [|clk clks Hclk Hclks IH]; intros s Hw Hlen.
  { exists s. split_and!; [done|done|]. destruct (queue_ s); [done|cbn in *; lia]. }
  cbn [fmap list_fmap run step]. destruct (thread_watching s0 clk n sz c f s Hclk Hn Hw) as (s1 & -> & Hw1 & H1).
  cbn [mbind result_bind]. pose proof (w_awake _ _ _ _ _ _ Hw) as Haw. unfold awake in Haw.
  destruct (thread s) as [|[]|] eqn:Et; [| | |done].
  - apply IH; [done|]. destruct (queue_ s) as [|i q]; destruct H1 as [Hq Ht]; rewrite Hq, Ht; cbn in *; lia.
  - destruct H1 as [Hq Ht]. apply IH; [done|]. rewrite Hq, Ht. cbn in *. lia.
  - subst s1. apply IH; [done|]. rewrite Haw, Et. cbn. lia.
Qed.

Lemma concat_not_empty bs : concat (not_empty bs) = concat bs.
Proof.
  unfold not_empty. induction bs as [|b bs IH]; [done|]. rewrite filter_cons. destruct (decide (b <> [])) as [|Hb].
  - cbn. by rewrite IH.
  - apply dec_stable in Hb. by rewrite IH, Hb.
Qed.


End Run.
End IoRun.

(** * Two files *)
Module IoDemo.
Import IoInfo IoDetect IoCanary IoHistory IoFiles IoIssues IoRun.

#[local] Instance demo_arch : Arch := arch_arm.

Definition path : list Z := bytes_of "/data/a".
Definition java : option (option (list Z) * option (list Z)) := Some (Some (bytes_of "main"), Some (bytes_of "A.f(A.java:3)")).
Definition at_ms (t : Z) : option (Z * Z) := Some (0, t * 1000000).
Definition still : clocks := fun _ => (at_ms 0, at_ms 0).

(** All detectors, in the order of their types. *)
Definition demo : canary := SetIssuedCallback (RegisterDetector 2 (RegisterDetector 1 (RegisterDetector 0 fresh))).

(** Main thread 7 reads a file for 600 ms and closes it; then thread 8 writes, and the file is opened
    and read again. *)
Definition demo_calls : list action :=
  [Thread still; App (Open 7 path 3 java (1, 0)); App (Read 7 3 100 100 (at_ms 0) (at_ms 600) (1, 600000));
   App (Close 7 3 (2, 0) (Some 100)); Wake; App (Write 8 3 9 9 (at_ms 0) (at_ms 1) (2, 1)); Thread still; Thread still;
   App (Open 7 path 3 java (3, 0)); App (Read 7 3 100 100 (at_ms 0) (at_ms 600) (3, 600000));
   App (Close 7 3 (4, 0) None); App (Open 7 path 4 java (5, 0))].

(** How many records wait and are open, and the counts that were published. *)
Definition outcome (r : result canary) : option (nat * nat * list (list Z)) :=
  match r with
  | Ok s => Some (length (queue_ s), size (info_map_ s), map (map repeat_read_cnt_) (published s))
  | _ => None
  end.

Lemma demo_configured : configured demo.
Proof. constructor; try done. by repeat constructor. Qed.

Lemma still_ok : clocks_ok still.
Proof. intros n. split; (split; vm_compute; intuition discriminate). Qed.

Lemma two_steps_ok : Forall clocks_ok [still; still].
Proof. apply Forall_cons. split; [exact still_ok|]. apply Forall_singleton, still_ok. Qed.

Lemma acts_sane : sane demo_calls.
Proof.
  constructor; [|vm_compute; reflexivity..].
  repeat (apply Forall_cons; split); try exact still_ok; try exact I; [..|constructor]; vm_compute; intuition discriminate.
Qed.


End IoDemo.
