(* ===== verification/SqlUtil.v ===== *)
(** Utility functions of the SQL front end (sqlite-lint, lemon/util.c).

    Module [SqlUtil] translates the parts of util.c that the tokenizer and the parser build
    on: comparison without case, removal of quotes in place, conversion of integers, and the
    variable-length integers.  A pointer into a string is the list of bytes from there to the
    end of its buffer; an access outside of it is [Undef].  [SqlUtilFacts] proves the round
    trip of the variable-length integers, what [sqlite3atoi64] accepts, and that
    [sqlite3Dequote] undoes quoting. *)
From S2P Require Import Prelude Machine Libc.

(** [z[i]]. *)
Definition rd (z : list Z) (i : nat) : result Z :=
  match z !! i with Some c => Ok c | None => Undef end.

Lemma rd_0 c z : rd (c :: z) 0 = Ok c.
Proof. done. Qed.

Lemma rd_S c z i : rd (c :: z) (S i) = rd z i.
Proof. done. Qed.

Create Rewrite HintDb sql.
#[export] Hint Rewrite rd_0 rd_S : sql.

Module SqlUtil.

(** * Comparison without case *)

Definition sqlite3UpperToLower : list Z :=
  [0; 1; 2; 3; 4; 5; 6; 7; 8; 9; 10; 11; 12; 13; 14; 15; 16; 17;
   18; 19; 20; 21; 22; 23; 24; 25; 26; 27; 28; 29; 30; 31; 32; 33; 34; 35;
   36; 37; 38; 39; 40; 41; 42; 43; 44; 45; 46; 47; 48; 49; 50; 51; 52; 53;
   54; 55; 56; 57; 58; 59; 60; 61; 62; 63; 64; 97; 98; 99; 100; 101; 102; 103;
   104; 105; 106; 107; 108; 109; 110; 111; 112; 113; 114; 115; 116; 117; 118; 119; 120; 121;
   122; 91; 92; 93; 94; 95; 96; 97; 98; 99; 100; 101; 102; 103; 104; 105; 106; 107;
   108; 109; 110; 111; 112; 113; 114; 115; 116; 117; 118; 119; 120; 121; 122; 123; 124; 125;
   126; 127; 128; 129; 130; 131; 132; 133; 134; 135; 136; 137; 138; 139; 140; 141; 142; 143;
   144; 145; 146; 147; 148; 149; 150; 151; 152; 153; 154; 155; 156; 157; 158; 159; 160; 161;
   162; 163; 164; 165; 166; 167; 168; 169; 170; 171; 172; 173; 174; 175; 176; 177; 178; 179;
   180; 181; 182; 183; 184; 185; 186; 187; 188; 189; 190; 191; 192; 193; 194; 195; 196; 197;
   198; 199; 200; 201; 202; 203; 204; 205; 206; 207; 208; 209; 210; 211; 212; 213; 214; 215;
   216; 217; 218; 219; 220; 221; 222; 223; 224; 225; 226; 227; 228; 229; 230; 231; 232; 233;
   234; 235; 236; 237; 238; 239; 240; 241; 242; 243; 244; 245; 246; 247; 248; 249; 250; 251;
   252; 253; 254; 255].

Definition UpperToLower (c : Z) : Z := nth (Z.to_nat c) sqlite3UpperToLower 0.

Fixpoint sqlite3StrICmp (a b : list Z) : result Z :=
  match a, b with
  | c :: a, d :: b =>
      if negb (c =? 0) && (UpperToLower c =? UpperToLower d) then sqlite3StrICmp a b
      else Ok (UpperToLower c - UpperToLower d)
  | _, _ => Undef
  end.

(** [N] counts the characters left; below zero the strings agree so far. *)
Fixpoint sqlite3StrNICmp (a b : list Z) (N : nat) {struct N} : result Z :=
  match N with
  | O => Ok 0
  | S N => match a, b with
           | c :: a, d :: b =>
               if negb (c =? 0) && (UpperToLower c =? UpperToLower d) then sqlite3StrNICmp a b N
               else Ok (UpperToLower c - UpperToLower d)
           | _, _ => Undef
           end
  end.

(** * Quotes *)

(** The loop of [sqlite3Dequote], which reads at [i] and writes at [j] of the same buffer. *)
Fixpoint dequote_loop (fuel : nat) (z : list Z) (quote : Z) (i j : nat) : result (list Z) :=
  match fuel with
  | O => NoFuel
  | S fuel =>
      c ← rd z i;
      if c =? 0 then Ok z
      else if c =? quote then
        d ← rd z (S i);
        if d =? quote then dequote_loop fuel (<[j := quote]> z) quote (S (S i)) (S j)
        else Ok (<[j := 0]> z)
      else dequote_loop fuel (<[j := c]> z) quote (S i) (S j)
  end.

Definition sqlite3Dequote (z : option (list Z)) : result (option (list Z)) :=
  match z with
  | None => Ok None
  | Some z =>
      q ← rd z 0;
      if (q =? 39) || (q =? 34) || (q =? 96) then z ← dequote_loop (length z) z q 1 0; Ok (Some z)
      else if q =? 91 then z ← dequote_loop (length z) z 93 1 0; Ok (Some z)
      else Ok (Some z)
  end.

(** [sqlite3StrNDup], where the allocation succeeds: [memcpy] of [n] bytes and a NUL. *)
Definition sqlite3StrNDup (z : option (list Z)) (n : nat) : result (option (list Z)) :=
  match z with
  | None => Ok None
  | Some z => if (n <=? length z)%nat then Ok (Some (take n z ++ [0])) else Undef
  end.

(** [sqlite3NameFromToken] (build.c): the copy of a token's text without its quotes. *)
Definition sqlite3NameFromToken (pName : option (list Z * nat)) : result (option (list Z)) :=
  match pName with
  | Some (z, n) => zName ← sqlite3StrNDup (Some z) n; sqlite3Dequote zName
  | None => Ok None
  end.

(** * Integers *)

Definition i64_max : Z := 2 ^ 63 - 1.

(** [v = v*10 + c - '0'], undefined where a signed intermediate result overflows. *)
Definition mul10_add (v c : Z) : result Z :=
  if v * 10 + c <=? i64_max then Ok (v * 10 + c - 48) else Undef.

Fixpoint atoi64_loop (z : list Z) (v : Z) (i : nat) : result (Z * nat * Z) :=
  match z with
  | [] => Undef
  | c :: z => if (48 <=? c) && (c <=? 57) then v ← mul10_add v c; atoi64_loop z v (S i)
              else Ok (v, i, c)
  end.

Fixpoint skip_space (z : list Z) : result (list Z) :=
  match z with
  | [] => Undef
  | c :: z' => if isspace c then skip_space z' else Ok z
  end.

(** [memcmp] of two byte strings, as far as its sign goes. *)
Fixpoint memcmp (a b : list Z) : Z :=
  match a, b with
  | c :: a, d :: b => if c =? d then memcmp a b else c - d
  | _, _ => 0
  end.

(** The value stored in [*pNum] and the truth value returned. *)
Definition sqlite3atoi64 (zNum : list Z) : result (Z * bool) :=
  z ← skip_space zNum;
  s ← rd z 0;
  let '(neg, z) := if s =? 45 then (true, drop 1 z) else if s =? 43 then (false, drop 1 z) else (false, z) in
  '(v, i, c) ← atoi64_loop z 0 0;
  Ok (if neg then - v else v,
      (c =? 0) && (0 <? Z.of_nat i)
      && ((Z.of_nat i <? 19)
          || ((Z.of_nat i =? 19) && (memcmp (take 19 z) (bytes_of "9223372036854775807") <=? 0)))).

(** * Variable-length integers *)

(** [p[i] = (v & 0x7f) | 0x80; v >>= 7] for [i] from [n - 1] down to 0. *)
Fixpoint put_groups (n : nat) (v : Z) (behind : list Z) : list Z :=
  match n with
  | O => behind
  | S n => put_groups n (Z.shiftr v 7) (Z.lor (Z.land v 0x7f) 0x80 :: behind)
  end.

(** The [do]-[while] loop that fills [buf], least significant group first. *)
Fixpoint put_buf (fuel : nat) (v : Z) : list Z :=
  match fuel with
  | O => []
  | S fuel => Z.lor (Z.land v 0x7f) 0x80 :: (if Z.shiftr v 7 =? 0 then [] else put_buf fuel (Z.shiftr v 7))
  end.

(** [buf] holds ten bytes. *)
Definition buf_size : nat := 10.

(** [buf[0] &= 0x7f]. *)
Definition clear_first (buf : list Z) : list Z :=
  match buf with [] => [] | b :: buf => Z.land b 0x7f :: buf end.

(** The bytes written to [p]; their number is returned. *)
Definition sqlite3PutVarint (v : Z) : list Z :=
  if negb (Z.land v (Z.shiftl 0xff000000 32) =? 0)
  then put_groups 8 (Z.shiftr v 8) [u8 v]
  else rev (clear_first (put_buf buf_size v)).

(** The [do]-[while] loop of [sqlite3GetVarint] on the bytes [p + n]. *)
Fixpoint get_loop (p : list Z) (n : Z) (x64 : Z) : result (Z * Z) :=
  match p with
  | [] => Undef
  | c :: p =>
      let n := n + 1 in
      if n =? 9 then Ok (u64 (Z.lor (Z.shiftl x64 8) c), n)
      else let x64 := u64 (Z.lor (Z.shiftl x64 7) (Z.land c 0x7f)) in
           if negb (Z.land c 0x80 =? 0) then get_loop p n x64 else Ok (x64, n)
  end.

(** The value and the number of bytes read. *)
Definition sqlite3GetVarint (p : list Z) : result (Z * Z) :=
  c ← rd p 0;
  if Z.land c 0x80 =? 0 then Ok (c, 1) else
  let x := Z.land c 0x7f in
  c ← rd p 1;
  if Z.land c 0x80 =? 0 then Ok (u32 (Z.lor (u32 (Z.shiftl x 7)) c), 2) else
  let x := u32 (Z.lor (u32 (Z.shiftl x 7)) (Z.land c 0x7f)) in
  c ← rd p 2;
  if Z.land c 0x80 =? 0 then Ok (u32 (Z.lor (u32 (Z.shiftl x 7)) c), 3) else
  let x := u32 (Z.lor (u32 (Z.shiftl x 7)) (Z.land c 0x7f)) in
  c ← rd p 3;
  if Z.land c 0x80 =? 0 then Ok (u32 (Z.lor (u32 (Z.shiftl x 7)) c), 4) else
  let x64 := u32 (Z.lor (u32 (Z.shiftl x 7)) (Z.land c 0x7f)) in
  get_loop (drop 4 p) 4 x64.

(** The [do]-[while] loop of [sqlite3GetVarint32] on the bytes [p + n]. *)
Fixpoint get32_loop (p : list Z) (n : Z) (x : Z) : result (Z * Z) :=
  match p with
  | [] => Undef
  | c :: p =>
      let x := u32 (Z.lor (u32 (Z.shiftl x 7)) (Z.land c 0x7f)) in
      if negb (Z.land c 0x80 =? 0) && (n + 1 <? 9) then get32_loop p (n + 1) x else Ok (x, n + 1)
  end.

Definition sqlite3GetVarint32 (p : list Z) : result (Z * Z) :=
  c ← rd p 0;
  if 0 <=? swrap 8 c then Ok (c, 1) else
  let x := Z.land c 0x7f in
  c ← rd p 1;
  if 0 <=? swrap 8 c then Ok (u32 (Z.lor (u32 (Z.shiftl x 7)) c), 2) else
  let x := u32 (Z.lor (u32 (Z.shiftl x 7)) (Z.land c 0x7f)) in
  get32_loop (drop 2 p) 2 x.

(** The [do]-[while] loop of [sqlite3VarintLen]; it leaves at 9. *)
Fixpoint len_loop (fuel : nat) (i v : Z) : Z :=
  match fuel with
  | O => i
  | S fuel => let i := i + 1 in
              let v := Z.shiftr v 7 in
              if negb (v =? 0) && (i <? 9) then len_loop fuel i v else i
  end.

Definition sqlite3VarintLen (v : Z) : Z := len_loop 9 0 v.
End SqlUtil.

Module SqlUtilFacts.
Import SqlUtil.

(** * Variable-length integers *)

Lemma group_byte v : Z.lor (Z.land v 0x7f) 0x80 = v mod 128 + 128.
Proof.
  rewrite land_127. change 0x80 with (Z.shiftl 1 7). rewrite lor_shiftl by (try apply Z.mod_pos_bound; lia).
  done.
Qed.

(** A byte with the high bit set: the test of that bit, and what is below it. *)
Lemma group_high x : 0 <= x < 128 -> Z.land (x + 128) 0x80 = 128.
Proof.
  intros Hx. assert (x + 128 = Z.lor x (Z.shiftl 1 7)) as -> by (rewrite lor_shiftl; lia).
  change 0x80 with (Z.shiftl 1 7). apply Z.bits_inj'. intros i Hi.
  rewrite Z.land_spec, Z.lor_spec. destruct (Z.testbit (Z.shiftl 1 7) i); simpl; [|apply andb_false_r].
  by rewrite orb_true_r.
Qed.

Lemma group_low x : 0 <= x < 128 -> Z.land x 0x80 = 0.
Proof.
  intros Hx. apply Z.bits_inj'. intros i Hi. rewrite Z.land_spec, Z.bits_0.
  rewrite <- (Z.mod_small x (2 ^ 7)) by lia. destruct (Z.ltb_spec i 7).
  - change 0x80 with (Z.shiftl 1 7). rewrite Z.shiftl_spec_low by lia. apply andb_false_r.
  - by rewrite Z.mod_pow2_bits_high by lia.
Qed.

Lemma group_digit x : 0 <= x < 128 -> Z.land (x + 128) 0x7f = x.
Proof. intros. rewrite land_127. change (x + 128) with (x + 1 * 128). by rewrite Z.mod_add, Z.mod_small by lia. Qed.

Lemma shift_in x c n : 0 <= n -> 0 <= c < 2 ^ n -> Z.lor (Z.shiftl x n) c = x * 2 ^ n + c.
Proof. intros. rewrite Z.lor_comm, lor_shiftl by done. lia. Qed.

Lemma shift_in_u32 x c : 0 <= x < 2 ^ 25 -> 0 <= c < 128 ->
  u32 (Z.lor (u32 (Z.shiftl x 7)) c) = x * 128 + c.
Proof.
  intros Hx Hc. assert (u32 (Z.shiftl x 7) = Z.shiftl x 7) as ->.
  { apply wrap_small. rewrite Z.shiftl_mul_pow2 by lia. lia. }
  rewrite shift_in by lia. apply wrap_small. lia.
Qed.

Lemma shift_in_u64 x c n : 0 <= n -> 0 <= x -> 0 <= c < 2 ^ n -> x * 2 ^ n + c < 2 ^ 64 ->
  u64 (Z.lor (Z.shiftl x n) c) = x * 2 ^ n + c.
Proof. intros. rewrite shift_in by lia. apply wrap_small. nia. Qed.

Abbreviation p7 n := (128 ^ Z.of_nat n).

Lemma p7_S n : p7 (S n) = 128 * p7 n.
Proof. rewrite Nat2Z.inj_succ, Z.pow_succ_r by lia. done. Qed.

Lemma p7_pos n : 0 < p7 n.
Proof. apply Z.pow_pos_nonneg; lia. Qed.

Lemma shiftr_7 v : Z.shiftr v 7 = v / 128.
Proof. by rewrite Z.shiftr_div_pow2 by lia. Qed.

(** The groups are written from the back; from the front the most significant comes first. *)
Lemma put_groups_front n : forall w behind,
  put_groups (S n) w behind = (w / p7 n) mod 128 + 128 :: put_groups n w behind.
Proof.
  induction n as [|n IH]; intros w behind.
  - cbn [put_groups]. rewrite group_byte. change (p7 0) with 1. by rewrite Z.div_1_r.
  - change (put_groups (S (S n)) w behind)
      with (put_groups (S n) (Z.shiftr w 7) (Z.lor (Z.land w 0x7f) 0x80 :: behind)).
    rewrite IH, p7_S. cbn [put_groups]. rewrite shiftr_7, Z.div_div by (pose proof (p7_pos n); lia). done.
Qed.

Lemma length_put_groups n w behind : length (put_groups n w behind) = (n + length behind)%nat.
Proof. revert w behind. induction n as [|n IH]; intros w behind; [done|]. cbn [put_groups]. rewrite IH. simpl. lia. Qed.

Lemma put_groups_bytes n : forall w behind, Forall is_byte behind -> Forall is_byte (put_groups n w behind).
Proof.
  induction n as [|n IH]; intros w behind Hb; [done|]. cbn [put_groups]. apply IH. constructor; [|done].
  rewrite group_byte. pose proof (Z.mod_pos_bound w 128). unfold is_byte. lia.
Qed.

Lemma put_groups_app n w behind rest : (put_groups n w behind ++ rest)%list = put_groups n w (behind ++ rest)%list.
Proof. revert w behind. induction n as [|n IH]; intros w behind; [done|]. cbn [put_groups]. by rewrite IH. Qed.

Lemma digits_S n w : w mod p7 (S n) = (w / p7 n) mod 128 * p7 n + w mod p7 n.
Proof. pose proof (p7_pos n). rewrite p7_S, Z.mul_comm, Z.rem_mul_r by lia. lia. Qed.

(** The loops that follow the unrolled part. *)
Lemma get_loop_groups n : forall w k acc last rest,
  0 <= acc < 2 ^ (7 * k) -> 0 <= k -> 0 <= w -> k + Z.of_nat n + 1 <= 9 ->
  (if k + Z.of_nat n =? 8 then 0 <= last < 256 else 0 <= last < 128) ->
  get_loop (put_groups n w (last :: rest)) k acc
  = Ok (if k + Z.of_nat n =? 8 then (acc * p7 n + w mod p7 n) * 256 + last
        else (acc * p7 n + w mod p7 n) * 128 + last, k + Z.of_nat n + 1).
Proof.
  induction n as [|n IH]; intros w k acc last rest Ha Hk Hw Hn Hl.
  - cbn [put_groups get_loop]. replace (k + Z.of_nat 0) with k in * by lia.
    change (p7 0) with 1. rewrite Z.mod_1_r, Z.mul_1_r, Z.add_0_r.
    replace (k + 1 =? 9) with (k =? 8) by (destruct (Z.eqb_spec k 8), (Z.eqb_spec (k + 1) 9); lia).
    destruct (Z.eqb_spec k 8) as [->|Hk8].
    + rewrite (shift_in_u64 acc last 8) by lia. done.
    + assert (acc < 2 ^ 49) by (eapply Z.lt_le_trans; [apply Ha|apply Z.pow_le_mono_r; lia]).
      rewrite land_127, Z.mod_small by lia. rewrite (shift_in_u64 acc last 7) by lia.
      rewrite group_low by lia. done.
  - rewrite put_groups_front. cbn [get_loop]. pose proof (Z.mod_pos_bound (w / p7 n) 128).
    destruct (Z.eqb_spec (k + 1) 9); [lia|].
    assert (acc < 2 ^ 49) by (eapply Z.lt_le_trans; [apply Ha|apply Z.pow_le_mono_r; lia]).
    rewrite group_digit, group_high by lia. rewrite (shift_in_u64 acc _ 7) by lia. simpl negb.
    rewrite IH; [| |lia|lia|lia|by replace (k + 1 + Z.of_nat n) with (k + Z.of_nat (S n)) by lia].
    + replace (k + 1 + Z.of_nat n) with (k + Z.of_nat (S n)) by lia.
      rewrite (digits_S n w), p7_S. do 2 f_equal. destruct (_ =? _); lia.
    + replace (7 * (k + 1)) with (7 * k + 7) by lia. rewrite Z.pow_add_r by lia. lia.
Qed.

Ltac shift_in := repeat match goal with
  | |- context [u32 (Z.lor (u32 (Z.shiftl ?x 7)) ?c)] => rewrite (shift_in_u32 x c) by lia
  end.

(** One unrolled step on a byte whose high bit is set. *)
Ltac read_group := cbn [mbind result_bind]; autorewrite with sql; cbn [mbind result_bind];
  match goal with
  | |- context [?x mod 128 + 128] =>
      let H := fresh in
      pose proof (Z.mod_pos_bound x 128 ltac:(lia)) as H;
      rewrite !(group_high _ H), ?(group_digit _ H); cbn [Z.eqb];
      generalize dependent (x mod 128); intros
  end.

(** The last byte. *)
Ltac read_last := cbn [mbind result_bind]; autorewrite with sql; cbn [mbind result_bind];
  rewrite ?group_low by lia; cbn [Z.eqb]; shift_in.

Lemma get_groups n w last rest :
  (n <= 8)%nat -> 0 <= w ->
  (if (n =? 8)%nat then 0 <= last < 256 else 0 <= last < 128) ->
  sqlite3GetVarint (put_groups n w (last :: rest))
  = Ok (if (n =? 8)%nat then w mod p7 n * 256 + last else w mod p7 n * 128 + last, Z.of_nat n + 1).
Proof.
  intros Hn Hw Hl. unfold sqlite3GetVarint.
  destruct n as [|[|[|[|n]]]]; rewrite ?put_groups_front, ?digits_S; cbn [Nat.eqb] in *.
  - cbn [put_groups]. read_last. by rewrite Z.mod_1_r.
  - cbn [put_groups]. change (p7 0) with 1. rewrite Z.mod_1_r. read_group. read_last. do 2 f_equal. lia.
  - cbn [put_groups]. change (p7 0) with 1. change (p7 1) with 128. rewrite Z.mod_1_r.
    do 2 read_group. read_last. do 2 f_equal. lia.
  - cbn [put_groups]. change (p7 0) with 1. change (p7 1) with 128. change (p7 2) with 16384. rewrite Z.mod_1_r.
    do 3 read_group. read_last. do 2 f_equal. lia.
  - change (drop 4 _) with (put_groups n w (last :: rest)).
    do 4 read_group. shift_in.
    rewrite get_loop_groups; [|lia|lia|lia|lia|].
    + rewrite !p7_S. replace (4 + Z.of_nat n =? 8) with (n =? 4)%nat
        by (destruct (Nat.eqb_spec n 4), (Z.eqb_spec (4 + Z.of_nat n) 8); lia).
      do 2 f_equal; [|lia]. destruct (n =? 4)%nat; lia.
    + destruct (Nat.eqb_spec n 4), (Z.eqb_spec (4 + Z.of_nat n) 8); lia.
Qed.

Lemma get32_loop_groups n : forall w k acc last rest,
  0 <= acc -> (acc * p7 n + w mod p7 n) * 128 + last < 2 ^ 32 ->
  0 <= w -> k + Z.of_nat n < 9 -> 0 <= last < 128 ->
  get32_loop (put_groups n w (last :: rest)) k acc
  = Ok ((acc * p7 n + w mod p7 n) * 128 + last, k + Z.of_nat n + 1).
Proof.
  induction n as [|n IH]; intros w k acc last rest Ha Hv Hw Hn Hl.
  - cbn [put_groups get32_loop]. change (p7 0) with 1 in *. rewrite Z.mod_1_r in *.
    rewrite land_127, Z.mod_small by lia. rewrite shift_in_u32 by lia. rewrite group_low by lia.
    cbn [Z.eqb negb andb]. do 2 f_equal; lia.
  - rewrite put_groups_front. cbn [get32_loop]. pose proof (Z.mod_pos_bound (w / p7 n) 128).
    pose proof (p7_pos n). pose proof (Z.mod_pos_bound w (p7 n)).
    rewrite (digits_S n w), p7_S in Hv |- *.
    rewrite group_digit, group_high by lia. rewrite shift_in_u32 by nia.
    cbn [Z.eqb negb andb]. destruct (Z.ltb_spec (k + 1) 9); [|lia].
    rewrite IH; [do 2 f_equal; lia|lia|lia|lia|lia|lia].
Qed.

Lemma swrap8_high x : 0 <= x < 128 -> (0 <=? swrap 8 (x + 128)) = false.
Proof.
  intros. unfold swrap. change (2 ^ (8 - 1)) with 128. change (2 ^ 8) with 256.
  replace (x + 128 + 128) with (x + 1 * 256) by lia. rewrite Z.mod_add, Z.mod_small by lia.
  apply Z.leb_gt. lia.
Qed.

Lemma swrap8_low x : 0 <= x < 128 -> (0 <=? swrap 8 x) = true.
Proof.
  intros. unfold swrap. change (2 ^ (8 - 1)) with 128. change (2 ^ 8) with 256.
  rewrite Z.mod_small by lia. apply Z.leb_le. lia.
Qed.

Lemma get32_groups n w last rest :
  (n <= 7)%nat -> 0 <= w -> w mod p7 n * 128 + last < 2 ^ 32 -> 0 <= last < 128 ->
  sqlite3GetVarint32 (put_groups n w (last :: rest)) = Ok (w mod p7 n * 128 + last, Z.of_nat n + 1).
Proof.
  intros Hn Hw Hv Hl. unfold sqlite3GetVarint32.
  destruct n as [|[|n]]; rewrite ?put_groups_front; rewrite ?digits_S in Hv |- *;
    autorewrite with sql; cbn [mbind result_bind].
  - cbn [put_groups]. autorewrite with sql. cbn [mbind result_bind]. rewrite swrap8_low by lia. by rewrite Z.mod_1_r.
  - cbn [put_groups]. change (p7 0) with 1 in *. rewrite Z.mod_1_r in *.
    pose proof (Z.mod_pos_bound (w / 1) 128).
    rewrite swrap8_high by lia. autorewrite with sql. cbn [mbind result_bind].
    rewrite swrap8_low, group_digit, shift_in_u32 by lia. do 2 f_equal. lia.
  - pose proof (Z.mod_pos_bound (w / p7 (S n)) 128). pose proof (Z.mod_pos_bound (w / p7 n) 128).
    rewrite !swrap8_high, !group_digit, shift_in_u32 by lia.
    change (drop 2 _) with (put_groups n w (last :: rest)). rewrite p7_S in *.
    rewrite get32_loop_groups; [do 2 f_equal; lia|lia|lia|lia|lia|lia].
Qed.

(** ** Writing *)

Lemma put_buf_S fuel v : put_buf (S fuel) v
  = Z.lor (Z.land v 0x7f) 0x80 :: (if Z.shiftr v 7 =? 0 then [] else put_buf fuel (Z.shiftr v 7)).
Proof. done. Qed.

Lemma put_buf_groups fuel : forall v behind,
  (rev (put_buf fuel v) ++ behind)%list = put_groups (length (put_buf fuel v)) v behind.
Proof.
  induction fuel as [|fuel IH]; intros v behind; [done|]. cbn [put_buf].
  destruct (Z.shiftr v 7 =? 0); [done|]. cbn [rev length put_groups]. by rewrite <- app_assoc, <- IH.
Qed.

Lemma div128 v q : 0 <= v < 128 * q -> 0 <= v / 128 < q.
Proof. intros. split; [apply Z.div_pos; lia|apply Z.div_lt_upper_bound; lia]. Qed.

(** How many groups there are. *)
Lemma put_buf_length_le fuel v : (length (put_buf fuel v) <= fuel)%nat.
Proof.
  revert v. induction fuel as [|fuel IH]; intros v; [done|]. cbn [put_buf length].
  destruct (_ =? 0); simpl; [lia|]. specialize (IH (Z.shiftr v 7)). lia.
Qed.

Lemma put_buf_length_small n : forall fuel v, 0 <= v < p7 n -> (0 < n)%nat -> (length (put_buf fuel v) <= n)%nat.
Proof.
  induction n as [|n IH]; intros fuel v Hv Hn; [lia|]. destruct fuel as [|fuel]; [simpl; lia|].
  cbn [put_buf length]. destruct (Z.eqb_spec (Z.shiftr v 7) 0) as [|Hz]; [simpl; lia|].
  rewrite shiftr_7 in Hz |- *. rewrite p7_S in Hv. destruct n as [|n]; [change (p7 0) with 1 in Hv; rewrite Z.div_small in Hz; lia|].
  enough (length (put_buf fuel (v / 128)) <= S n)%nat by lia. apply IH; [by apply div128|lia].
Qed.

Lemma put_buf_value_small fuel : forall v, 0 <= v < p7 fuel -> v < p7 (length (put_buf fuel v)).
Proof.
  induction fuel as [|fuel IH]; intros v Hv; [apply Hv|]. cbn [put_buf length].
  destruct (Z.eqb_spec (Z.shiftr v 7) 0) as [Hz|Hz]; rewrite p7_S in Hv |- *; rewrite shiftr_7 in Hz; rewrite ?shiftr_7.
  - cbn [length]. change (p7 0) with 1. pose proof (Z.div_mod v 128). pose proof (Z.mod_pos_bound v 128). lia.
  - specialize (IH _ (div128 _ _ Hv)). pose proof (Z.div_mod v 128). pose proof (Z.mod_pos_bound v 128). lia.
Qed.

Lemma put_buf_length_big n : forall fuel v, p7 n <= v -> (n < fuel)%nat -> (n < length (put_buf fuel v))%nat.
Proof.
  induction n as [|n IH]; intros fuel v Hv Hn; destruct fuel as [|fuel]; cbn [put_buf length]; try lia.
  rewrite p7_S in Hv. pose proof (p7_pos n). rewrite shiftr_7.
  assert (p7 n <= v / 128) by (apply Z.div_le_lower_bound; lia).
  destruct (Z.eqb_spec (v / 128) 0) as [Hz|Hz]; [lia|].
  enough (n < length (put_buf fuel (v / 128)))%nat by lia. apply IH; lia.
Qed.

Lemma put_buf_enough fuel : forall v fuel', 0 <= v < p7 fuel -> (0 < fuel <= fuel')%nat ->
  put_buf fuel' v = put_buf fuel v.
Proof.
  induction fuel as [|fuel IH]; intros v fuel' Hv Hf; [lia|]. destruct fuel' as [|fuel']; [lia|].
  cbn [put_buf]. f_equal. destruct (Z.eqb_spec (Z.shiftr v 7) 0) as [|Hz]; [done|].
  rewrite shiftr_7 in Hz |- *. rewrite p7_S in Hv. destruct fuel as [|fuel]; [change (p7 0) with 1 in Hv; rewrite Z.div_small in Hz; lia|]. apply IH; [by apply div128|lia].
Qed.

Lemma len_loop_buf fuel : forall i v, 1 <= Z.of_nat fuel -> i + Z.of_nat fuel = 9 ->
  len_loop fuel i v = i + Z.of_nat (length (put_buf fuel v)).
Proof.
  induction fuel as [|fuel IH]; intros i v Hf Hi; [lia|]. cbn [len_loop put_buf length].
  destruct (Z.eqb_spec (Z.shiftr v 7) 0) as [|Hz]; cbn [negb andb]; [simpl; lia|].
  destruct (Z.ltb_spec (i + 1) 9).
  - rewrite IH by lia. lia.
  - destruct fuel; [simpl; lia|lia].
Qed.

Lemma top_byte v : 0 <= v < 2 ^ 64 -> (Z.land v (Z.shiftl 0xff000000 32) =? 0) = (v <? 2 ^ 56).
Proof.
  intros Hv. change (Z.shiftl 0xff000000 32) with (Z.shiftl (Z.ones 8) 56).
  assert (Z.land v (Z.shiftl (Z.ones 8) 56) = Z.shiftl (Z.shiftr v 56) 56) as ->.
  { apply Z.bits_inj'. intros i Hi. rewrite Z.land_spec, !Z.shiftl_spec by lia.
    destruct (Z.ltb_spec i 56); [rewrite !(Z.testbit_neg_r _ (i - 56)) by lia; apply andb_false_r|].
    rewrite Z.shiftr_spec by lia. replace (i - 56 + 56) with i by lia.
    destruct (Z.ltb_spec i 64); [by rewrite Z.ones_spec_low, andb_true_r by lia|].
    rewrite <- (Z.mod_small v (2 ^ 64)), Z.mod_pow2_bits_high by lia. done. }
  rewrite Z.shiftl_mul_pow2, Z.shiftr_div_pow2 by lia.
  destruct (Z.ltb_spec v (2 ^ 56)); [rewrite Z.div_small by lia; done|]. apply Z.eqb_neq.
  assert (1 <= v / 2 ^ 56) by (apply Z.div_le_lower_bound; lia). lia.
Qed.

(** Both branches write groups and a last byte. *)
Lemma put_varint_form v : 0 <= v < 2 ^ 64 ->
  exists n w last, sqlite3PutVarint v = put_groups n w [last] /\ (n <= 8)%nat /\ 0 <= w < p7 n
    /\ (if (n =? 8)%nat then 0 <= last < 256 /\ v = w * 256 + last else 0 <= last < 128 /\ v = w * 128 + last)
    /\ sqlite3VarintLen v = Z.of_nat n + 1 /\ (v < 2 ^ 32 -> (n <= 7)%nat).
Proof.
  intros Hv. unfold sqlite3PutVarint, sqlite3VarintLen. rewrite top_byte by done.
  rewrite len_loop_buf by done. destruct (Z.ltb_spec v (2 ^ 56)) as [Hs|Hb]; cbn [negb].
  - pose proof (put_buf_length_small 8 buf_size v ltac:(change (p7 8) with (2 ^ 56); lia) ltac:(lia)) as Hl.
    rewrite <- (put_buf_enough 9 v buf_size) by (unfold buf_size; change (p7 9) with (2 ^ 63); lia).
    pose proof (put_buf_value_small buf_size v ltac:(change (p7 buf_size) with (2 ^ 70); lia)) as Hw.
    change buf_size with (S 9) in *. rewrite put_buf_S in *. cbn [clear_first rev length] in *.
    set (rest := if Z.shiftr v 7 =? 0 then [] else put_buf 9 (Z.shiftr v 7)) in *.
    exists (length rest), (v / 128), (v mod 128). rewrite p7_S in Hw. pose proof (Z.mod_pos_bound v 128).
    pose proof (Z.div_mod v 128). pose proof (div128 v _ (conj (proj1 Hv) Hw)).
    assert ((length rest =? 8)%nat = false) as -> by (apply Nat.eqb_neq; lia).
    split_and!; try lia.
    + rewrite group_byte, group_digit by lia. subst rest. rewrite <- shiftr_7.
      destruct (Z.shiftr v 7 =? 0); [done|]. by rewrite put_buf_groups.
  - exists 8%nat, (v / 256), (v mod 256). pose proof (Z.mod_pos_bound v 256). cbn [Nat.eqb].
    pose proof (Z.div_mod v 256). pose proof (Z.div_lt_upper_bound v 256 (2 ^ 56)). pose proof (Z.div_pos v 256).
    pose proof (put_buf_length_big 8 9 v ltac:(change (p7 8) with (2 ^ 56); lia) ltac:(lia)).
    pose proof (put_buf_length_le 9 v). change (p7 8) with (2 ^ 56).
    rewrite Z.shiftr_div_pow2 by lia. split_and!; try lia. done.
Qed.

(** Variable-length integers round-trip.  For every 64-bit value, and whatever bytes follow,
    [sqlite3GetVarint] reads back what [sqlite3PutVarint] wrote and consumes exactly the bytes
    written, between one and nine, as many as [sqlite3VarintLen] announces; for values that fit
    32 bits [sqlite3GetVarint32] reads the same.  The 32-bit accumulators of the unrolled parts
    lose nothing. *)
Lemma varint_roundtrip (v : Z) (rest : list Z) :
  0 <= v < 2 ^ 64 ->
  let bs := sqlite3PutVarint v in
  let n := Z.of_nat (length bs) in
  Forall is_byte bs /\ 1 <= n <= 9 /\ sqlite3VarintLen v = n
  /\ sqlite3GetVarint (bs ++ rest) = Ok (v, n)
  /\ (v < 2 ^ 32 -> sqlite3GetVarint32 (bs ++ rest) = Ok (v, n)).
Proof.
  intros Hv. destruct (put_varint_form v Hv) as (n & w & last & -> & Hn & Hw & Hl & Hlen & Hn7).
  cbv zeta. rewrite length_put_groups, put_groups_app. cbn [length app].
  replace (Z.of_nat (n + 1)) with (Z.of_nat n + 1) by lia.
  split_and!; try lia; try done.
  - apply put_groups_bytes, Forall_singleton. unfold is_byte. destruct (n =? 8)%nat; lia.
  - rewrite get_groups; [|lia|lia|destruct (n =? 8)%nat; lia].
    rewrite (Z.mod_small w) by done. do 2 f_equal. destruct (n =? 8)%nat; lia.
  - intros Hs. specialize (Hn7 Hs). destruct (Nat.eqb_spec n 8); [lia|]. destruct Hl as [Hl ->].
    rewrite get32_groups; rewrite ?(Z.mod_small w) by done; done || lia.
Qed.

Lemma varint_roundtrip_witness :
  sqlite3PutVarint 300 = [130; 44] /\ sqlite3GetVarint ([130; 44] ++ [7]) = Ok (300, 2).
Proof.
  split; [reflexivity|]. exact (proj1 (proj2 (proj2 (proj2 (varint_roundtrip 300 [7] ltac:(lia)))))).
Defined.

(** * Integers *)

(** The number that a string of decimal digits denotes, after the digits of [acc]. *)
Fixpoint decimal (acc : Z) (ds : list Z) : Z :=
  match ds with
  | [] => acc
  | c :: ds => decimal (acc * 10 + (c - 48)) ds
  end.

Definition digits (ds : list Z) : Prop := Forall (fun c => isdigit c = true) ds.

Lemma isdigit_range c : isdigit c = true <-> 48 <= c <= 57.
Proof. unfold isdigit. rewrite andb_true_iff, !Z.leb_le. done. Qed.

Lemma decimal_shift ds : forall acc, decimal acc ds = acc * 10 ^ Z.of_nat (length ds) + decimal 0 ds.
Proof.
  induction ds as [|c ds IH]; intros acc; cbn [decimal length]; [lia|].
  rewrite (IH (acc * 10 + (c - 48))), (IH (0 * 10 + (c - 48))), Nat2Z.inj_succ, Z.pow_succ_r by lia. lia.
Qed.

Lemma decimal_range ds : digits ds -> 0 <= decimal 0 ds < 10 ^ Z.of_nat (length ds).
Proof.
  induction 1 as [|c ds Hc%isdigit_range _ IH]; [done|]. cbn [decimal length].
  rewrite decimal_shift, Nat2Z.inj_succ, Z.pow_succ_r by lia. nia.
Qed.

Lemma decimal_ge ds acc : digits ds -> 0 <= acc -> acc <= decimal acc ds.
Proof. intros Hd Ha. rewrite decimal_shift. pose proof (decimal_range ds Hd). nia. Qed.

Lemma atoi64_loop_run ds : forall v i c rest, digits ds -> isdigit c = false -> 0 <= v -> v + 48 <= i64_max ->
  atoi64_loop (ds ++ c :: rest) v i
  = if decimal v ds + 48 <=? i64_max then Ok (decimal v ds, (i + length ds)%nat, c) else Undef.
Proof.
  induction ds as [|d ds IH]; intros v i c rest Hd Hc Hv Hm; cbn [app atoi64_loop decimal].
  - change ((48 <=? c) && (c <=? 57)) with (isdigit c). rewrite Hc. destruct (Z.leb_spec (v + 48) i64_max); [|lia].
    do 3 f_equal. simpl. lia.
  - apply Forall_cons in Hd as [Hd1 Hd]. change ((48 <=? d) && (d <=? 57)) with (isdigit d). rewrite Hd1.
    apply isdigit_range in Hd1. unfold mul10_add.
    pose proof (decimal_ge ds (v * 10 + (d - 48)) Hd ltac:(lia)) as Hge.
    destruct (Z.leb_spec (v * 10 + d) i64_max); cbn [mbind result_bind].
    + replace (v * 10 + d - 48) with (v * 10 + (d - 48)) by lia. rewrite IH by (done || lia).
      by replace (S i + length ds)%nat with (i + length (d :: ds))%nat by (simpl; lia).
    + destruct (Z.leb_spec (decimal (v * 10 + (d - 48)) ds + 48) i64_max); [lia|done].
Qed.

(** On strings of digits of one length, the order of the bytes is that of the numbers. *)
Lemma memcmp_digits a : forall b, digits a -> digits b -> length a = length b ->
  (memcmp a b <=? 0) = (decimal 0 a <=? decimal 0 b).
Proof.
  induction a as [|c a IH]; intros [|d b] Ha Hb Hl; try done.
  apply Forall_cons in Ha as [Hc%isdigit_range Ha]. apply Forall_cons in Hb as [Hd%isdigit_range Hb].
  injection Hl as Hl. cbn [memcmp decimal]. rewrite (decimal_shift a), (decimal_shift b), <- Hl.
  pose proof (decimal_range a Ha). pose proof (decimal_range b Hb). rewrite <- Hl in *.
  destruct (Z.eqb_spec c d) as [->|Hne].
  - rewrite IH by done. destruct (Z.leb_spec (decimal 0 a) (decimal 0 b)), (Z.leb_spec ((0 * 10 + (d - 48)) * 10 ^ Z.of_nat (length a) + decimal 0 a) ((0 * 10 + (d - 48)) * 10 ^ Z.of_nat (length a) + decimal 0 b)); lia.
  - destruct (Z.leb_spec (c - d) 0), (Z.leb_spec ((0 * 10 + (c - 48)) * 10 ^ Z.of_nat (length a) + decimal 0 a) ((0 * 10 + (d - 48)) * 10 ^ Z.of_nat (length a) + decimal 0 b)); nia.
Qed.

Lemma skip_space_run ws z : Forall (fun c => isspace c = true) ws ->
  match z with c :: _ => isspace c = false | [] => False end -> skip_space (ws ++ z) = Ok z.
Proof.
  intros Hw Hz. induction Hw as [|c ws Hc _ IH]; cbn [app skip_space].
  - destruct z as [|c z]; [done|]. simpl. by rewrite Hz.
  - by rewrite Hc.
Qed.

Lemma isdigit_not_space c : isdigit c = true -> isspace c = false.
Proof.
  intros Hc%isdigit_range. unfold isspace.
  destruct (Z.eqb_spec c 32), (Z.leb_spec 9 c), (Z.leb_spec c 13); simpl; lia.
Qed.

(** What [sqlite3atoi64] makes of a number.  On white space, an optional sign and decimal
    digits it stores the number they denote and returns true exactly when the string ends
    there and has at most 19 digits, leading zeros included.  All of this holds for absolute
    values up to 48 below the largest 64-bit integer only: for any larger one the addition of
    the character code overflows, before the comparison with the largest integer that is
    meant to reject the string is reached. *)
Lemma atoi64_correct (ws sign ds rest : list Z) (c : Z) :
  Forall (fun c => isspace c = true) ws -> sign ∈ [[]; [43]; [45]] ->
  ds <> [] -> digits ds -> isdigit c = false ->
  sqlite3atoi64 (ws ++ sign ++ ds ++ c :: rest)
  = if decimal 0 ds + 48 <=? i64_max
    then Ok (if decide (sign = [45]) then - decimal 0 ds else decimal 0 ds,
             (c =? 0) && (Z.of_nat (length ds) <=? 19))
    else Undef.
Proof.
  intros Hws Hsign Hne Hd Hc. destruct ds as [|d ds]; [done|].
  assert (isdigit d = true) as Hd1 by (by inversion Hd). pose proof (proj1 (isdigit_range d) Hd1).
  assert (forall l : list Z, atoi64_loop ((d :: ds) ++ c :: rest) 0 0 ≫= (fun '(v, i, c0) =>
    Ok (if decide (l = [45]) then - v else v, (c0 =? 0) && (0 <? Z.of_nat i) && ((Z.of_nat i <? 19)
          || ((Z.of_nat i =? 19) && (memcmp (take 19 ((d :: ds) ++ c :: rest)) (bytes_of "9223372036854775807") <=? 0)))))
    = if decimal 0 (d :: ds) + 48 <=? i64_max
      then Ok (if decide (l = [45]) then - decimal 0 (d :: ds) else decimal 0 (d :: ds),
             (c =? 0) && (Z.of_nat (length (d :: ds)) <=? 19)) else Undef) as Hrun.
  { intros l. rewrite atoi64_loop_run by (done || unfold i64_max; lia).
    destruct (Z.leb_spec (decimal 0 (d :: ds) + 48) i64_max) as [Hle|]; [|done]. cbn [mbind result_bind].
    do 2 f_equal. rewrite <- andb_assoc. f_equal. cbn [Nat.add]. set (n := length (d :: ds)).
    assert (0 < Z.of_nat n) by (simpl in n; lia).
    destruct (Z.ltb_spec 0 (Z.of_nat n)); [|lia]. cbn [andb].
    destruct (Z.ltb_spec (Z.of_nat n) 19), (Z.leb_spec (Z.of_nat n) 19), (Z.eqb_spec (Z.of_nat n) 19) as [E|]; try lia; try done.
    cbn [orb andb]. rewrite take_app_le by (subst n; lia). rewrite take_ge by (subst n; lia).
    rewrite memcmp_digits; [|done|decide_now|change (length (bytes_of _)) with 19%nat; subst n; lia].
    apply Z.leb_le. change (decimal 0 (bytes_of _)) with i64_max. lia. }
  unfold sqlite3atoi64. apply elem_of_cons in Hsign as [->|[->|[->|[]%elem_of_nil]%elem_of_cons]%elem_of_cons].
  - rewrite app_nil_l, skip_space_run by (done || by apply isdigit_not_space).
    cbn [mbind result_bind app]. rewrite rd_0. cbn [mbind result_bind].
    destruct (Z.eqb_spec d 45); [lia|]. destruct (Z.eqb_spec d 43); [lia|]. apply (Hrun []).
  - rewrite skip_space_run by done. apply (Hrun [43]).
  - rewrite skip_space_run by done. apply (Hrun [45]).
Qed.

Lemma atoi64_correct_witness :
  sqlite3atoi64 (bytes_of " -42" ++ [0]) = Ok (-42, true)
  /\ sqlite3atoi64 (bytes_of "9223372036854775807" ++ [0]) = Undef.
Proof.
  split.
  - refine (atoi64_correct [32] [45] (bytes_of "42") [] 0 _ _ _ _ _); [decide_now|decide_now|done|decide_now|done].
  - refine (atoi64_correct [] [] (bytes_of "9223372036854775807") [] 0 _ _ _ _ _); [decide_now|decide_now|done|decide_now|done].
Defined.

(** * Quotes *)

(** The text between quotes: every closing quote doubled. *)
Fixpoint escape (q : Z) (s : list Z) : list Z :=
  match s with
  | [] => []
  | c :: s => if c =? q then q :: q :: escape q s else c :: escape q s
  end.

Lemma insert_middle (w : list Z) (c d : Z) (l : list Z) :
  <[length w := c]> (w ++ d :: l) = (w ++ [c]) ++ l.
Proof. rewrite insert_app_r_alt by lia. rewrite Nat.sub_diag. simpl. by rewrite <- app_assoc. Qed.

Lemma rd_middle (w : list Z) (c : Z) (l : list Z) n : n = length w -> rd (w ++ c :: l) n = Ok c.
Proof. intros ->. unfold rd. by rewrite list_lookup_middle. Qed.

Lemma rd_at (w mid : list Z) c l : rd (w ++ mid ++ c :: l) (length (w ++ mid)) = Ok c.
Proof. rewrite app_assoc. by apply rd_middle. Qed.

Lemma rd_at_S (w mid : list Z) c d l : rd (w ++ mid ++ c :: d :: l) (S (length (w ++ mid))) = Ok d.
Proof.
  replace (w ++ mid ++ c :: d :: l) with ((w ++ mid ++ [c]) ++ d :: l) by (by rewrite <- !app_assoc).
  apply rd_middle. rewrite !length_app. simpl. lia.
Qed.

(** The loop has written [w] and read up to the end of [w ++ mid]; writing stays behind. *)
Lemma dequote_loop_run q s : forall fuel w mid d rest,
  Forall (fun c => c <> 0) s -> q <> 0 -> d <> q -> mid <> [] -> (length s < fuel)%nat ->
  exists tail, dequote_loop fuel (w ++ mid ++ escape q s ++ q :: d :: rest) q (length (w ++ mid)) (length w)
    = Ok (w ++ s ++ 0 :: tail).
Proof.
  assert (forall fuel w m mid c l i, dequote_loop fuel (<[length w := c]> (w ++ (m :: mid) ++ l)) q i (S (length w))
    = dequote_loop fuel ((w ++ [c]) ++ mid ++ l) q i (length (w ++ [c]))) as Hput.
  { intros. cbn [app]. rewrite insert_middle. f_equal. rewrite length_app. simpl. lia. }
  induction s as [|c s IH]; intros fuel w mid d rest Hs Hq Hd Hm Hf;
    (destruct fuel as [|fuel]; [simpl in Hf; lia|]); destruct mid as [|m mid]; try done; cbn [dequote_loop escape].
  - rewrite (app_nil_l (q :: _)), rd_at, rd_at_S. cbn [mbind result_bind].
    destruct (Z.eqb_spec q 0); [done|]. rewrite Z.eqb_refl. destruct (Z.eqb_spec d q); [done|].
    eexists. f_equal. cbn [app]. by rewrite insert_middle, <- app_assoc.
  - apply Forall_cons in Hs as [Hc Hs]. destruct (Z.eqb_spec c q) as [->|Hcq].
    + rewrite <- (app_comm_cons (q :: escape q s) _ q), <- (app_comm_cons (escape q s) _ q), rd_at, rd_at_S. cbn [mbind result_bind].
      destruct (Z.eqb_spec q 0); [done|]. rewrite Z.eqb_refl, Hput.
      destruct (IH fuel (w ++ [q]) (mid ++ [q; q]) d rest) as [tail E]; try done; [by destruct mid|simpl in Hf; lia|].
      exists tail. replace (w ++ (q :: s) ++ 0 :: tail) with ((w ++ [q]) ++ s ++ 0 :: tail) by (by rewrite <- app_assoc).
      rewrite <- E. f_equal; [by rewrite <- (app_assoc mid)|].
      rewrite !length_app. cbn [length]. rewrite ?length_app. simpl. lia.
    + rewrite <- (app_comm_cons (escape q s) _ c), rd_at. cbn [mbind result_bind]. destruct (Z.eqb_spec c 0); [done|].
      destruct (Z.eqb_spec c q); [done|]. rewrite Hput.
      destruct (IH fuel (w ++ [c]) (mid ++ [c]) d rest) as [tail E]; try done; [by destruct mid|simpl in Hf; lia|].
      exists tail. replace (w ++ (c :: s) ++ 0 :: tail) with ((w ++ [c]) ++ s ++ 0 :: tail) by (by rewrite <- app_assoc).
      rewrite <- E. f_equal; [by rewrite <- (app_assoc mid)|].
      rewrite !length_app. cbn [length]. rewrite ?length_app. simpl. lia.
Qed.

(** What closes a quotation that [q] opens. *)
Definition closing (q : Z) : Z := if q =? 91 then 93 else q.

Definition is_quote (q : Z) : Prop := q = 39 \/ q = 34 \/ q = 96 \/ q = 91.

#[global] Instance is_quote_dec q : Decision (is_quote q).
Proof. unfold is_quote. apply _. Defined.

Lemma length_escape q s : (length s <= length (escape q s))%nat.
Proof. induction s as [|c s IH]; [done|]. cbn [escape]. destruct (c =? q); simpl; lia. Qed.

Lemma dequote_quoted q s d rest : is_quote q -> Forall (fun c => c <> 0) s -> d <> closing q ->
  exists tail, sqlite3Dequote (Some (q :: escape (closing q) s ++ closing q :: d :: rest)) = Ok (Some (s ++ 0 :: tail)).
Proof.
  intros Hq Hs Hd. unfold sqlite3Dequote. rewrite rd_0. cbn [mbind result_bind].
  destruct (dequote_loop_run (closing q) s (length (q :: escape (closing q) s ++ closing q :: d :: rest)) [] [q] d rest)
    as [tail E]; try done.
  - by destruct Hq as [->|[->|[->| ->]]].
  - cbn [length]. rewrite length_app. pose proof (length_escape (closing q) s). simpl. lia.
  - exists tail. cbn [app length] in E |- *.
    by destruct Hq as [->|[->|[->| ->]]]; cbn [Z.eqb orb Pos.eqb closing] in E |- *; rewrite E.
Qed.
End SqlUtilFacts.
