(* ===== verification/SqlToken.v ===== *)
(** Keywords and the tokenizer (sqlite-lint, lemon/keywordhash.h and lemon/tokenize.c).

    Module [Tk] holds the token codes of parse.h, [SqlKeyword] the perfect-hash style lookup of
    keywordhash.h, [SqlToken] the function [getToken] of tokenize.c for the ASCII configuration,
    every case with its reads in the order the code makes them.  [KeywordFacts] proves the
    lookup equivalent to a search in the list of keywords; [TokenFacts] proves that [getToken]
    stays inside the string it is given, that it always advances, and that quoted text comes
    back from the tokenizer and [sqlite3Dequote] unchanged. *)
From S2P Require Import Prelude Machine Libc SqlUtil.

Module Tk.
Definition TK_LP : Z := 1.
Definition TK_RP : Z := 2.
Definition TK_SEMI : Z := 3.
Definition TK_EXPLAIN : Z := 4.
Definition TK_QUERY : Z := 5.
Definition TK_PLAN : Z := 6.
Definition TK_BEGIN : Z := 7.
Definition TK_START : Z := 8.
Definition TK_TRANSACTION : Z := 9.
Definition TK_WORK : Z := 10.
Definition TK_COMMIT : Z := 11.
Definition TK_ROLLBACK : Z := 12.
Definition TK_CREATE : Z := 13.
Definition TK_TABLE : Z := 14.
Definition TK_IF : Z := 15.
Definition TK_NOT : Z := 16.
Definition TK_EXISTS : Z := 17.
Definition TK_TEMP : Z := 18.
Definition TK_AS : Z := 19.
Definition TK_COMMA : Z := 20.
Definition TK_ID : Z := 21.
Definition TK_EQ : Z := 22.
Definition TK_DEFAULT : Z := 23.
Definition TK_CHARSET : Z := 24.
Definition TK_SET : Z := 25.
Definition TK_COLLATE : Z := 26.
Definition TK_ABORT : Z := 27.
Definition TK_AFTER : Z := 28.
Definition TK_ANALYZE : Z := 29.
Definition TK_ASC : Z := 30.
Definition TK_ATTACH : Z := 31.
Definition TK_BEFORE : Z := 32.
Definition TK_CASCADE : Z := 33.
Definition TK_CAST : Z := 34.
Definition TK_CONFLICT : Z := 35.
Definition TK_DATABASE : Z := 36.
Definition TK_DEFERRED : Z := 37.
Definition TK_DESC : Z := 38.
Definition TK_DETACH : Z := 39.
Definition TK_EACH : Z := 40.
Definition TK_END : Z := 41.
Definition TK_EXCLUSIVE : Z := 42.
Definition TK_FAIL : Z := 43.
Definition TK_FOR : Z := 44.
Definition TK_IGNORE : Z := 45.
Definition TK_IMMEDIATE : Z := 46.
Definition TK_INITIALLY : Z := 47.
Definition TK_INSTEAD : Z := 48.
Definition TK_LIKE_KW : Z := 49.
Definition TK_MATCH : Z := 50.
Definition TK_KEY : Z := 51.
Definition TK_OF : Z := 52.
Definition TK_OFFSET : Z := 53.
Definition TK_PRAGMA : Z := 54.
Definition TK_RAISE : Z := 55.
Definition TK_REPLACE : Z := 56.
Definition TK_RESTRICT : Z := 57.
Definition TK_ROW : Z := 58.
Definition TK_STATEMENT : Z := 59.
Definition TK_TRIGGER : Z := 60.
Definition TK_VACUUM : Z := 61.
Definition TK_VIEW : Z := 62.
Definition TK_REINDEX : Z := 63.
Definition TK_RENAME : Z := 64.
Definition TK_CTIME_KW : Z := 65.
Definition TK_OR : Z := 66.
Definition TK_AND : Z := 67.
Definition TK_IS : Z := 68.
Definition TK_BETWEEN : Z := 69.
Definition TK_IN : Z := 70.
Definition TK_ISNULL : Z := 71.
Definition TK_NOTNULL : Z := 72.
Definition TK_NE : Z := 73.
Definition TK_GT : Z := 74.
Definition TK_LE : Z := 75.
Definition TK_LT : Z := 76.
Definition TK_GE : Z := 77.
Definition TK_ESCAPE : Z := 78.
Definition TK_BITAND : Z := 79.
Definition TK_BITOR : Z := 80.
Definition TK_LSHIFT : Z := 81.
Definition TK_RSHIFT : Z := 82.
Definition TK_PLUS : Z := 83.
Definition TK_MINUS : Z := 84.
Definition TK_STAR : Z := 85.
Definition TK_SLASH : Z := 86.
Definition TK_REM : Z := 87.
Definition TK_CONCAT : Z := 88.
Definition TK_UMINUS : Z := 89.
Definition TK_UPLUS : Z := 90.
Definition TK_BITNOT : Z := 91.
Definition TK_STRING : Z := 92.
Definition TK_JOIN_KW : Z := 93.
Definition TK_CONSTRAINT : Z := 94.
Definition TK_AUTOINCR : Z := 95.
Definition TK_NULL : Z := 96.
Definition TK_PRIMARY : Z := 97.
Definition TK_UNIQUE : Z := 98.
Definition TK_CHECK : Z := 99.
Definition TK_REFERENCES : Z := 100.
Definition TK_ON : Z := 101.
Definition TK_DELETE : Z := 102.
Definition TK_UPDATE : Z := 103.
Definition TK_INSERT : Z := 104.
Definition TK_DEFERRABLE : Z := 105.
Definition TK_FOREIGN : Z := 106.
Definition TK_DROP : Z := 107.
Definition TK_UNION : Z := 108.
Definition TK_ALL : Z := 109.
Definition TK_EXCEPT : Z := 110.
Definition TK_INTERSECT : Z := 111.
Definition TK_SELECT : Z := 112.
Definition TK_DISTINCT : Z := 113.
Definition TK_DOT : Z := 114.
Definition TK_FROM : Z := 115.
Definition TK_JOIN : Z := 116.
Definition TK_USING : Z := 117.
Definition TK_ORDER : Z := 118.
Definition TK_BY : Z := 119.
Definition TK_GROUP : Z := 120.
Definition TK_HAVING : Z := 121.
Definition TK_LIMIT : Z := 122.
Definition TK_WHERE : Z := 123.
Definition TK_INTO : Z := 124.
Definition TK_VALUES : Z := 125.
Definition TK_INTEGER : Z := 126.
Definition TK_FLOAT : Z := 127.
Definition TK_BLOB : Z := 128.
Definition TK_REGISTER : Z := 129.
Definition TK_VARIABLE : Z := 130.
Definition TK_VARIABLE1 : Z := 131.
Definition TK_CASE : Z := 132.
Definition TK_WHEN : Z := 133.
Definition TK_THEN : Z := 134.
Definition TK_ELSE : Z := 135.
Definition TK_TO_TEXT : Z := 136.
Definition TK_TO_BLOB : Z := 137.
Definition TK_TO_NUMERIC : Z := 138.
Definition TK_TO_INT : Z := 139.
Definition TK_TO_REAL : Z := 140.
Definition TK_END_OF_FILE : Z := 141.
Definition TK_ILLEGAL : Z := 142.
Definition TK_SPACE : Z := 143.
Definition TK_UNCLOSED_STRING : Z := 144.
Definition TK_COMMENT : Z := 145.
Definition TK_FUNCTION : Z := 146.
Definition TK_COLUMN : Z := 147.
Definition TK_AGG_FUNCTION : Z := 148.
Definition TK_AGG_COLUMN : Z := 149.
Definition TK_CONST_FUNC : Z := 150.
End Tk.

Module SqlKeyword.
Import Tk SqlUtil.

(** The text in which all keywords overlap, with its terminator. *)
Definition zText : list Z :=
  (bytes_of (
   "ABORTABLEFTEMPORARYAFTERAISELECTHENDATABASEACHECKEYANALYZELSE" ++
   "SCAPEXCEPTRANSACTIONATURALIKEXCLUSIVEXISTSTATEMENTRIGGEREFERENCES" ++
   "ANDEFAULTATTACHAVINGLOBEFOREIGNOREGEXPLAINITIALLYAUTO_INCREMENT" ++
   "BEGINNEREINDEXBETWEENOTNULLIMITBYCASCADEFERRABLECASECASTCOLLATE" ++
   "COMMITCONFLICTCONSTRAINTERSECTCREATECROSSCURRENT_DATECURRENT_TIMESTAMP" ++
   "LANDEFERREDELETEDESCDETACHDISTINCTDROPRAGMATCHFAILFROMFULLGROUP" ++
   "DATEIFIMMEDIATEINSERTINSTEADINTOFFSETISNULLJOINORDERENAMEOUTER" ++
   "EPLACEPRIMARYQUERYRESTRICTRIGHTROLLBACKROWHENUNIONUNIQUEUSING" ++
   "VACUUMVALUESVIEWHERE")%string ++ [0])%list.

Definition aHash : list Z :=
  [86; 75; 102; 85; 0; 5; 0; 0; 109; 0; 78; 0; 0;
   89; 38; 69; 87; 0; 101; 104; 91; 84; 0; 9; 0; 0;
   108; 0; 105; 100; 0; 39; 0; 0; 35; 0; 0; 59; 64;
   0; 57; 14; 0; 99; 30; 98; 0; 103; 68; 0; 0; 25;
   0; 70; 56; 0; 12; 0; 110; 32; 11; 0; 72; 34; 18;
   0; 0; 0; 42; 76; 48; 41; 45; 15; 82; 0; 31; 0;
   67; 20; 0; 65; 0; 0; 0; 58; 37; 60; 7; 81; 40;
   62; 80; 0; 1; 0; 13; 97; 95; 8; 0; 107; 77; 93;
   49; 6; 52; 0; 0; 44; 88; 0; 96; 0; 63; 0; 0;
   22; 0; 111; 46; 51; 0; 2; 50; 0; 106].

Definition aNext : list Z :=
  [0; 0; 0; 0; 0; 3; 0; 0; 0; 0; 0; 0; 0;
   0; 0; 0; 0; 0; 0; 0; 0; 0; 0; 0; 4; 0;
   0; 0; 24; 0; 26; 0; 0; 0; 0; 0; 0; 0; 10;
   0; 0; 0; 0; 0; 0; 0; 0; 0; 0; 23; 0; 0;
   0; 0; 0; 0; 47; 0; 54; 43; 0; 0; 0; 0; 0;
   0; 36; 66; 0; 0; 0; 19; 55; 16; 0; 74; 0; 0;
   61; 0; 79; 0; 0; 0; 0; 0; 0; 0; 0; 0; 33;
   90; 92; 0; 53; 94; 0; 17; 0; 0; 21; 28; 73; 0;
   29; 83; 0; 27; 0; 71; 0].

Definition aLen : list Z :=
  [5; 5; 4; 9; 4; 2; 5; 5; 6; 4; 3; 8; 2;
   4; 5; 3; 7; 4; 6; 6; 11; 2; 7; 4; 9; 6;
   9; 7; 10; 3; 7; 6; 6; 4; 6; 3; 7; 6; 6;
   7; 9; 3; 14; 2; 5; 5; 7; 7; 3; 7; 4; 5;
   2; 7; 3; 10; 4; 4; 7; 6; 8; 10; 9; 6; 5;
   12; 17; 12; 4; 8; 6; 4; 6; 8; 2; 4; 6; 5;
   4; 4; 4; 5; 6; 2; 9; 6; 7; 4; 2; 6; 3;
   6; 4; 5; 6; 5; 7; 7; 5; 8; 5; 8; 3; 4;
   5; 6; 5; 6; 6; 4; 5].

Definition aOffset : list Z :=
  [0; 4; 7; 10; 10; 14; 19; 23; 26; 31; 33; 35; 40;
   42; 44; 48; 51; 57; 60; 65; 70; 79; 80; 86; 89; 97;
   102; 110; 116; 126; 128; 135; 140; 145; 148; 150; 150; 154; 158;
   161; 166; 171; 175; 180; 189; 192; 196; 203; 209; 209; 212; 215;
   220; 222; 223; 227; 237; 241; 245; 252; 258; 266; 273; 282; 288;
   293; 305; 305; 321; 325; 332; 338; 342; 348; 349; 356; 359; 363;
   368; 372; 376; 380; 383; 389; 391; 400; 406; 413; 416; 416; 419;
   422; 428; 432; 436; 442; 446; 453; 460; 465; 473; 478; 486; 488;
   492; 497; 503; 508; 514; 520; 523].

Definition aCode : list Z :=
  [TK_ABORT; TK_TABLE; TK_JOIN_KW; TK_TEMP; TK_TEMP;
   TK_OR; TK_AFTER; TK_RAISE; TK_SELECT; TK_THEN;
   TK_END; TK_DATABASE; TK_AS; TK_EACH; TK_CHECK;
   TK_KEY; TK_ANALYZE; TK_ELSE; TK_ESCAPE; TK_EXCEPT;
   TK_TRANSACTION; TK_ON; TK_JOIN_KW; TK_LIKE_KW; TK_EXCLUSIVE;
   TK_EXISTS; TK_STATEMENT; TK_TRIGGER; TK_REFERENCES; TK_AND;
   TK_DEFAULT; TK_ATTACH; TK_HAVING; TK_LIKE_KW; TK_BEFORE;
   TK_FOR; TK_FOREIGN; TK_IGNORE; TK_LIKE_KW; TK_EXPLAIN;
   TK_INITIALLY; TK_ALL; TK_AUTOINCR; TK_IN; TK_BEGIN;
   TK_JOIN_KW; TK_REINDEX; TK_BETWEEN; TK_NOT; TK_NOTNULL;
   TK_NULL; TK_LIMIT; TK_BY; TK_CASCADE; TK_ASC;
   TK_DEFERRABLE; TK_CASE; TK_CAST; TK_COLLATE; TK_COMMIT;
   TK_CONFLICT; TK_CONSTRAINT; TK_INTERSECT; TK_CREATE; TK_JOIN_KW;
   TK_CTIME_KW; TK_CTIME_KW; TK_CTIME_KW; TK_PLAN; TK_DEFERRED;
   TK_DELETE; TK_DESC; TK_DETACH; TK_DISTINCT; TK_IS;
   TK_DROP; TK_PRAGMA; TK_MATCH; TK_FAIL; TK_FROM;
   TK_JOIN_KW; TK_GROUP; TK_UPDATE; TK_IF; TK_IMMEDIATE;
   TK_INSERT; TK_INSTEAD; TK_INTO; TK_OF; TK_OFFSET;
   TK_SET; TK_ISNULL; TK_JOIN; TK_ORDER; TK_RENAME;
   TK_JOIN_KW; TK_REPLACE; TK_PRIMARY; TK_QUERY; TK_RESTRICT;
   TK_JOIN_KW; TK_ROLLBACK; TK_ROW; TK_WHEN; TK_UNION;
   TK_UNIQUE; TK_USING; TK_VACUUM; TK_VALUES; TK_VIEW;
   TK_WHERE].

(** Reading one of these tables; the theorems show that the index is in range. *)
Definition entry (t : list Z) (i : Z) : Z := nth (Z.to_nat i) t 0.

(** [charMap] on an ASCII machine. *)
Definition charMap (c : Z) : Z := UpperToLower c.

(** The chain of one hash value: the candidates are tried until one matches. *)
Fixpoint keyword_loop (fuel : nat) (i : Z) (z : list Z) (n : nat) : result Z :=
  match fuel with
  | O => NoFuel
  | S fuel =>
      if i <? 0 then Ok TK_ID
      else
        found ← (if entry aLen i =? Z.of_nat n
                 then r ← sqlite3StrNICmp (drop (Z.to_nat (entry aOffset i)) zText) z n; Ok (r =? 0)
                 else Ok false);
        if found : bool then Ok (entry aCode i) else keyword_loop fuel (entry aNext i - 1) z n
  end.

(** A chain visits every keyword at most once. *)
Definition chain_fuel : nat := 112.

Definition keywordCode (z : list Z) (n : nat) : result Z :=
  if (n <? 2)%nat then Ok TK_ID
  else
    c0 ← rd z 0;
    c1 ← rd z (n - 1);
    let h := Z.lxor (Z.lxor (charMap c0 * 4) (charMap c1 * 3)) (Z.of_nat n) mod 127 in
    keyword_loop chain_fuel (entry aHash h - 1) z n.

Definition sqlite3KeywordCode (z : list Z) (n : nat) : result Z := keywordCode z n.
End SqlKeyword.

Module SqlToken.
Import Tk SqlKeyword.

Definition sqlite3IsIdChar : list Z :=
  [0; 0; 0; 0; 1; 0; 0; 0; 0; 0; 0; 0; 0; 0; 0; 0;
   1; 1; 1; 1; 1; 1; 1; 1; 1; 1; 0; 0; 0; 0; 0; 0;
   0; 1; 1; 1; 1; 1; 1; 1; 1; 1; 1; 1; 1; 1; 1; 1;
   1; 1; 1; 1; 1; 1; 1; 1; 1; 1; 1; 0; 0; 0; 0; 1;
   0; 1; 1; 1; 1; 1; 1; 1; 1; 1; 1; 1; 1; 1; 1; 1;
   1; 1; 1; 1; 1; 1; 1; 1; 1; 1; 1; 0; 0; 0; 0; 0].

Definition IdChar (c : Z) : bool :=
  negb (Z.land c 0x80 =? 0) || ((0x1f <? c) && negb (nth (Z.to_nat (c - 0x20)) sqlite3IsIdChar 0 =? 0)).

Definition isxdigit (c : Z) : bool := match hex_val c with Some _ => true | None => false end.

(** [for(; p(z[i]); i++){}], from the bytes [s] at [z + i] on. *)
Fixpoint skip (p : Z -> bool) (s : list Z) (i : nat) : result nat :=
  match s with
  | [] => Undef
  | c :: s => if p c then skip p s (S i) else Ok i
  end.

(** [for(; (c!='*' || z[i]!='/') && (c=z[i])!=0; i++){}] and the step over the slash. *)
Fixpoint comment_loop (s : list Z) (c : Z) (i : nat) : result nat :=
  match s with
  | [] => Undef
  | d :: s => if (c =? 42) && (d =? 47) then Ok (S i)
              else if d =? 0 then Ok i
              else comment_loop s d (S i)
  end.

(** A quoted string; two delimiters in a row stand for one. *)
Fixpoint string_loop (s : list Z) (delim : Z) (i : nat) : result (Z * nat) :=
  match s with
  | [] => Undef
  | c :: s =>
      if c =? 0 then Ok (TK_ILLEGAL, i)
      else if c =? delim then
        match s with
        | [] => Undef
        | d :: s => if d =? delim then string_loop s delim (S (S i)) else Ok (TK_STRING, S i)
        end
      else string_loop s delim (S i)
  end.

(** [for(i=1, c=z[0]; c!=']' && (c=z[i])!=0; i++){}]. *)
Fixpoint bracket_loop (s : list Z) (c : Z) (i : nat) : result nat :=
  if c =? 93 then Ok i else
  match s with
  | [] => Undef
  | d :: s => if d =? 0 then Ok i else bracket_loop s d (S i)
  end.

Definition number (z : list Z) : result (Z * nat) :=
  i ← skip isdigit z 0;
  c ← rd z i;
  '(t, i) ← (if c =? 46 then i ← skip isdigit (drop (S i) z) (S i); Ok (TK_FLOAT, i) else Ok (TK_INTEGER, i));
  c ← rd z i;
  exponent ← (if (c =? 101) || (c =? 69) then
                d ← rd z (i + 1);
                if isdigit d then Ok true
                else if (d =? 43) || (d =? 45) then e ← rd z (i + 2); Ok (isdigit e)
                else Ok false
              else Ok false);
  if exponent : bool then i ← skip isdigit (drop (i + 2) z) (i + 2); Ok (TK_FLOAT, i)
  else Ok (t, i).

(** The name of a parameter; [n] counts the identifier characters. *)
Fixpoint variable_loop (s : list Z) (i n : nat) (t : Z) : result (Z * nat * nat) :=
  match s with
  | [] => Undef
  | c :: s =>
      if c =? 0 then Ok (t, i, n)
      else if IdChar c then variable_loop s (S i) (S n) t
      else if (c =? 40) && (0 <? n)%nat then
        j ← skip (fun c => negb (c =? 0) && negb (isspace c) && negb (c =? 41)) s 0;
        d ← rd s j;
        if d =? 41 then Ok (t, (S i + j + 1)%nat, n) else Ok (TK_ILLEGAL, (S i + j)%nat, n)
      else if c =? 58 then
        match s with
        | [] => Undef
        | d :: s => if d =? 58 then variable_loop s (S (S i)) n t else Ok (t, i, n)
        end
      else Ok (t, i, n)
  end.

Definition variable (z : list Z) : result (Z * nat) :=
  c ← rd z 0;
  twice ← (if c =? 64 then d ← rd z 1; Ok (d =? 64) else Ok false);
  let '(t, i) := if twice : bool then (TK_VARIABLE1, 2%nat) else (TK_VARIABLE, 1%nat) in
  '(t, i, n) ← variable_loop (drop i z) i 0 t;
  Ok (if (n =? 0)%nat then TK_ILLEGAL else t, i).

(** [x'hhhh']. *)
Fixpoint blob_loop (s : list Z) (delim : Z) (i : nat) : result (Z * nat) :=
  match s with
  | [] => Undef
  | c :: s =>
      if c =? 0 then Ok (TK_BLOB, i)
      else if c =? delim then Ok (if Nat.odd i then TK_ILLEGAL else TK_BLOB, S i)
      else if negb (isxdigit c) then Ok (TK_ILLEGAL, i)
      else blob_loop s delim (S i)
  end.

(** The default case: an identifier or keyword. *)
Definition identifier (z : list Z) : result (Z * nat) :=
  c ← rd z 0;
  if IdChar c then
    i ← skip (fun c => IdChar c || isdigit c) (drop 1 z) 1;
    t ← keywordCode z i;
    Ok (t, i)
  else Ok (TK_ILLEGAL, 1%nat).

(** The type and the length of the token at [z]. *)
Definition getToken (z : list Z) : result (Z * nat) :=
  c0 ← rd z 0;
  if (c0 =? 32) || (c0 =? 9) || (c0 =? 10) || (c0 =? 12) || (c0 =? 13) then
    i ← skip isspace (drop 1 z) 1; Ok (TK_SPACE, i)
  else if c0 =? 45 then
    c ← rd z 1;
    if c =? 45 then i ← skip (fun c => negb (c =? 0) && negb (c =? 10)) (drop 2 z) 2; Ok (TK_COMMENT, i)
    else Ok (TK_MINUS, 1%nat)
  else if c0 =? 40 then Ok (TK_LP, 1%nat)
  else if c0 =? 41 then Ok (TK_RP, 1%nat)
  else if c0 =? 59 then Ok (TK_SEMI, 1%nat)
  else if c0 =? 43 then Ok (TK_PLUS, 1%nat)
  else if c0 =? 42 then Ok (TK_STAR, 1%nat)
  else if c0 =? 47 then
    c ← rd z 1;
    if c =? 42 then
      d ← rd z 2;
      if d =? 0 then Ok (TK_SLASH, 1%nat)
      else i ← comment_loop (drop 3 z) d 3; Ok (TK_COMMENT, i)
    else Ok (TK_SLASH, 1%nat)
  else if c0 =? 37 then Ok (TK_REM, 1%nat)
  else if c0 =? 61 then c ← rd z 1; Ok (TK_EQ, if c =? 61 then 2%nat else 1%nat)
  else if c0 =? 60 then
    c ← rd z 1;
    Ok (if c =? 61 then (TK_LE, 2%nat) else if c =? 62 then (TK_NE, 2%nat)
        else if c =? 60 then (TK_LSHIFT, 2%nat) else (TK_LT, 1%nat))
  else if c0 =? 62 then
    c ← rd z 1;
    Ok (if c =? 61 then (TK_GE, 2%nat) else if c =? 62 then (TK_RSHIFT, 2%nat) else (TK_GT, 1%nat))
  else if c0 =? 33 then
    c ← rd z 1;
    Ok (if c =? 61 then (TK_NE, 2%nat) else (TK_ILLEGAL, 2%nat))
  else if c0 =? 124 then
    c ← rd z 1;
    Ok (if c =? 124 then (TK_CONCAT, 2%nat) else (TK_BITOR, 1%nat))
  else if c0 =? 44 then Ok (TK_COMMA, 1%nat)
  else if c0 =? 38 then Ok (TK_BITAND, 1%nat)
  else if c0 =? 126 then Ok (TK_BITNOT, 1%nat)
  else if (c0 =? 96) || (c0 =? 39) || (c0 =? 34) then string_loop (drop 1 z) c0 1
  else if c0 =? 46 then
    c ← rd z 1;
    if isdigit c then number z else Ok (TK_DOT, 1%nat)
  else if isdigit c0 then number z
  else if c0 =? 91 then i ← bracket_loop (drop 1 z) c0 1; Ok (TK_ID, i)
  else if c0 =? 63 then i ← skip isdigit (drop 1 z) 1; Ok (TK_VARIABLE, i)
  else if c0 =? 35 then
    i ← skip isdigit (drop 1 z) 1;
    if (1 <? i)%nat then Ok (TK_REGISTER, i) else variable z
  else if (c0 =? 36) || (c0 =? 64) || (c0 =? 58) then variable z
  else if (c0 =? 120) || (c0 =? 88) then
    c ← rd z 1;
    if (c =? 39) || (c =? 34) then blob_loop (drop 2 z) c 2 else identifier z
  else identifier z.

Definition sqlite3GetToken (z : list Z) : result (Z * nat) := getToken z.
End SqlToken.

Module KeywordFacts.
Import Tk SqlUtil SqlUtilFacts SqlKeyword.

(** The keywords, in the order of the tables. *)
Definition keywords : list (string * Z) :=
  [("ABORT", TK_ABORT); ("TABLE", TK_TABLE); ("LEFT", TK_JOIN_KW); ("TEMPORARY", TK_TEMP);
   ("TEMP", TK_TEMP); ("OR", TK_OR); ("AFTER", TK_AFTER); ("RAISE", TK_RAISE);
   ("SELECT", TK_SELECT); ("THEN", TK_THEN); ("END", TK_END); ("DATABASE", TK_DATABASE);
   ("AS", TK_AS); ("EACH", TK_EACH); ("CHECK", TK_CHECK); ("KEY", TK_KEY);
   ("ANALYZE", TK_ANALYZE); ("ELSE", TK_ELSE); ("ESCAPE", TK_ESCAPE); ("EXCEPT", TK_EXCEPT);
   ("TRANSACTION", TK_TRANSACTION); ("ON", TK_ON); ("NATURAL", TK_JOIN_KW); ("LIKE", TK_LIKE_KW);
   ("EXCLUSIVE", TK_EXCLUSIVE); ("EXISTS", TK_EXISTS); ("STATEMENT", TK_STATEMENT); ("TRIGGER", TK_TRIGGER);
   ("REFERENCES", TK_REFERENCES); ("AND", TK_AND); ("DEFAULT", TK_DEFAULT); ("ATTACH", TK_ATTACH);
   ("HAVING", TK_HAVING); ("GLOB", TK_LIKE_KW); ("BEFORE", TK_BEFORE); ("FOR", TK_FOR);
   ("FOREIGN", TK_FOREIGN); ("IGNORE", TK_IGNORE); ("REGEXP", TK_LIKE_KW); ("EXPLAIN", TK_EXPLAIN);
   ("INITIALLY", TK_INITIALLY); ("ALL", TK_ALL); ("AUTO_INCREMENT", TK_AUTOINCR); ("IN", TK_IN);
   ("BEGIN", TK_BEGIN); ("INNER", TK_JOIN_KW); ("REINDEX", TK_REINDEX); ("BETWEEN", TK_BETWEEN);
   ("NOT", TK_NOT); ("NOTNULL", TK_NOTNULL); ("NULL", TK_NULL); ("LIMIT", TK_LIMIT);
   ("BY", TK_BY); ("CASCADE", TK_CASCADE); ("ASC", TK_ASC); ("DEFERRABLE", TK_DEFERRABLE);
   ("CASE", TK_CASE); ("CAST", TK_CAST); ("COLLATE", TK_COLLATE); ("COMMIT", TK_COMMIT);
   ("CONFLICT", TK_CONFLICT); ("CONSTRAINT", TK_CONSTRAINT); ("INTERSECT", TK_INTERSECT); ("CREATE", TK_CREATE);
   ("CROSS", TK_JOIN_KW); ("CURRENT_DATE", TK_CTIME_KW); ("CURRENT_TIMESTAMP", TK_CTIME_KW); ("CURRENT_TIME", TK_CTIME_KW);
   ("PLAN", TK_PLAN); ("DEFERRED", TK_DEFERRED); ("DELETE", TK_DELETE); ("DESC", TK_DESC);
   ("DETACH", TK_DETACH); ("DISTINCT", TK_DISTINCT); ("IS", TK_IS); ("DROP", TK_DROP);
   ("PRAGMA", TK_PRAGMA); ("MATCH", TK_MATCH); ("FAIL", TK_FAIL); ("FROM", TK_FROM);
   ("FULL", TK_JOIN_KW); ("GROUP", TK_GROUP); ("UPDATE", TK_UPDATE); ("IF", TK_IF);
   ("IMMEDIATE", TK_IMMEDIATE); ("INSERT", TK_INSERT); ("INSTEAD", TK_INSTEAD); ("INTO", TK_INTO);
   ("OF", TK_OF); ("OFFSET", TK_OFFSET); ("SET", TK_SET); ("ISNULL", TK_ISNULL);
   ("JOIN", TK_JOIN); ("ORDER", TK_ORDER); ("RENAME", TK_RENAME); ("OUTER", TK_JOIN_KW);
   ("REPLACE", TK_REPLACE); ("PRIMARY", TK_PRIMARY); ("QUERY", TK_QUERY); ("RESTRICT", TK_RESTRICT);
   ("RIGHT", TK_JOIN_KW); ("ROLLBACK", TK_ROLLBACK); ("ROW", TK_ROW); ("WHEN", TK_WHEN);
   ("UNION", TK_UNION); ("UNIQUE", TK_UNIQUE); ("USING", TK_USING); ("VACUUM", TK_VACUUM);
   ("VALUES", TK_VALUES); ("VIEW", TK_VIEW); ("WHERE", TK_WHERE)].

Definition lower (s : list Z) : list Z := map UpperToLower s.

(** What a keyword lookup means: the code of the keyword that the word is, up to case. *)
Definition lookup_keyword (w : list Z) : Z :=
  match list_find (fun k => lower (bytes_of k.1) = lower w) keywords with
  | Some (_, (_, code)) => code
  | None => TK_ID
  end.

(** The [i]-th keyword as the tables store it. *)
Definition kw (i : Z) : list Z := take (Z.to_nat (entry aLen i)) (drop (Z.to_nat (entry aOffset i)) zText).

Lemma keywords_tables :
  keywords = imap (fun i k => (k.1, entry aCode (Z.of_nat i))) keywords
  /\ Forall (fun i => bytes_of (fst (nth (Z.to_nat i) keywords ("", 0)%string)) = kw i) (seqZ 0 111).
Proof. split; [reflexivity|decide_now]. Qed.

Lemma keyword_at i : 0 <= i < 111 -> exists k, keywords !! Z.to_nat i = Some (k, entry aCode i) /\ bytes_of k = kw i.
Proof.
  intros Hi. destruct keywords_tables as [Hc Hk].
  rewrite Forall_forall in Hk. specialize (Hk i ltac:(apply elem_of_seqZ; lia)).
  destruct (lookup_lt_is_Some_2 keywords (Z.to_nat i)) as [[k c] E]; [change (length keywords) with 111%nat; lia|].
  exists k. rewrite (nth_lookup_Some _ _ _ _ E) in Hk. split; [|done].
  assert (keywords !! Z.to_nat i = Some (k, entry aCode (Z.of_nat (Z.to_nat i)))) as ->
    by (rewrite Hc, list_lookup_imap, E; done).
  by rewrite Z2Nat.id by lia.
Qed.

(** The words of the tables: long enough, without NUL, and different up to case. *)
Lemma kw_ok : Forall (fun i => length (kw i) = Z.to_nat (entry aLen i) /\ (2 <= length (kw i))%nat
  /\ Forall (fun c => c <> 0) (kw i)) (seqZ 0 111).
Proof. decide_now. Qed.

Lemma kw_distinct : NoDup (map (fun i => lower (kw i)) (seqZ 0 111)).
Proof. decide_now. Qed.

(** The chain behind a hash value, [None] if it does not end. *)
Fixpoint chain (fuel : nat) (i : Z) : option (list Z) :=
  match fuel with
  | O => None
  | S fuel => if i <? 0 then Some [] else l ← chain fuel (entry aNext i - 1); Some (i :: l)
  end.

Definition hash_of (c0 c1 n : Z) : Z := Z.lxor (Z.lxor (charMap c0 * 4) (charMap c1 * 3)) n mod 127.

Definition word_hash (w : list Z) : Z :=
  hash_of (nth 0 w 0) (nth (length w - 1) w 0) (Z.of_nat (length w)).

(** Every chain ends, and stays within the tables. *)
Lemma chains_end : Forall (fun h => Forall (fun i => 0 <= i < 111) (default [-1] (chain chain_fuel (entry aHash h - 1))))
  (seqZ 0 127).
Proof. decide_now. Qed.

(** Every keyword is on the chain of its own hash value. *)
Lemma chains_complete : Forall (fun i => i ∈ default [] (chain chain_fuel (entry aHash (word_hash (kw i)) - 1)))
  (seqZ 0 111).
Proof. decide_now. Qed.

Lemma chain_of h : 0 <= h < 127 ->
  exists l, chain chain_fuel (entry aHash h - 1) = Some l /\ Forall (fun i => 0 <= i < 111) l.
Proof.
  intros Hh. pose proof chains_end as H. rewrite Forall_forall in H. specialize (H h ltac:(apply elem_of_seqZ; lia)).
  destruct (chain chain_fuel (entry aHash h - 1)) as [l|]; simpl in H; [by exists l|].
  apply Forall_cons in H as [H _]. lia.
Qed.

Lemma hash_range c0 c1 n : 0 <= hash_of c0 c1 n < 127.
Proof. apply Z.mod_pos_bound. lia. Qed.

(** The hash value does not depend on case. *)
Lemma word_hash_lower v w : lower v = lower w -> word_hash v = word_hash w.
Proof.
  intros E. assert (length v = length w) as El by (apply (f_equal length) in E; unfold lower in E; by rewrite !length_map in E).
  assert (forall i, UpperToLower (nth i v 0) = UpperToLower (nth i w 0)) as Hn.
  { intros i. rewrite <- !(map_nth UpperToLower). fold (lower v) (lower w). by rewrite E. }
  unfold word_hash, hash_of, charMap. by rewrite !Hn, El.
Qed.

Lemma strnicmp_words k : forall w a b, length k = length w -> Forall (fun c => c <> 0) k ->
  exists r, sqlite3StrNICmp (k ++ a) (w ++ b) (length w) = Ok r /\ (r =? 0) = bool_decide (lower k = lower w).
Proof.
  induction k as [|c k IH]; intros [|d w] a b Hl Hk; try done; [exists 0; split; [done|by rewrite bool_decide_true]|].
  injection Hl as Hl. apply Forall_cons in Hk as [Hc Hk]. cbn [app length sqlite3StrNICmp].
  destruct (Z.eqb_spec c 0); [done|]. cbn [negb andb]. destruct (Z.eqb_spec (UpperToLower c) (UpperToLower d)) as [E|E].
  - destruct (IH w a b Hl Hk) as (r & -> & Hr). exists r. split; [done|]. rewrite Hr.
    apply bool_decide_ext. unfold lower. cbn [map]. rewrite E. split; [by intros ->|by intros [= ->]].
  - eexists. split; [done|]. rewrite bool_decide_false by (unfold lower; cbn [map]; congruence). apply Z.eqb_neq. lia.
Qed.

(** Whether the [i]-th keyword is the word [w]. *)
Abbreviation is_word w := (fun i => lower (kw i) = lower w).

Lemma candidate_run i w rest : 0 <= i < 111 ->
  (if entry aLen i =? Z.of_nat (length w)
   then r ← sqlite3StrNICmp (drop (Z.to_nat (entry aOffset i)) zText) (w ++ rest) (length w); Ok (r =? 0)
   else Ok false) = Ok (bool_decide (lower (kw i) = lower w)).
Proof.
  intros Hi. pose proof kw_ok as H. rewrite Forall_forall in H.
  destruct (H i ltac:(apply elem_of_seqZ; lia)) as (Hl & Hl2 & Hk).
  assert (drop (Z.to_nat (entry aOffset i)) zText
    = (kw i ++ drop (Z.to_nat (entry aLen i)) (drop (Z.to_nat (entry aOffset i)) zText))%list) as ->
    by (unfold kw; by rewrite take_drop).
  destruct (Z.eqb_spec (entry aLen i) (Z.of_nat (length w))) as [E|E].
  - edestruct (strnicmp_words (kw i) w) as (r & -> & Hr); [|exact Hk|cbn [mbind result_bind]; by rewrite Hr].
    rewrite Hl, E. lia.
  - rewrite bool_decide_false; [done|]. intros Ew. apply (f_equal length) in Ew. unfold lower in Ew.
    rewrite !length_map in Ew. rewrite Hl in Ew. lia.
Qed.

Lemma keyword_loop_run fuel : forall i w rest l,
  chain fuel i = Some l -> Forall (fun i => 0 <= i < 111) l ->
  keyword_loop fuel i (w ++ rest) (length w)
  = Ok (match list_find (is_word w) l with Some (_, i) => entry aCode i | None => TK_ID end).
Proof.
  induction fuel as [|fuel IH]; intros i w rest l E Hl; [done|]. cbn [chain keyword_loop] in *.
  destruct (i <? 0); [by injection E as <-|].
  destruct (chain fuel (entry aNext i - 1)) as [l'|] eqn:El; [|done]. injection E as <-.
  apply Forall_cons in Hl as [Hi Hl]. rewrite candidate_run by done. cbn [mbind result_bind list_find].
  rewrite (decide_bool_decide). destruct (bool_decide (lower (kw i) = lower w)); [done|].
  rewrite (IH _ _ _ l') by done. by destruct (list_find (is_word w) l') as [[]|].
Qed.

Lemma kw_inj i j : 0 <= i < 111 -> 0 <= j < 111 -> lower (kw i) = lower (kw j) -> i = j.
Proof.
  intros Hi Hj E. pose proof kw_distinct as H.
  assert (forall k, 0 <= k < 111 -> map (fun i => lower (kw i)) (seqZ 0 111) !! Z.to_nat k = Some (lower (kw k))) as Hk.
  { intros k Hk. change (map ?f ?l) with (f <$> l). rewrite list_lookup_fmap, lookup_seqZ_lt by lia. simpl.
    do 3 f_equal. lia. }
  pose proof (Hk i Hi) as H1. rewrite E in H1. pose proof (NoDup_lookup _ _ _ _ H H1 (Hk j Hj)). lia.
Qed.

(** What the list of keywords finds, by index. *)
Lemma lookup_keyword_at i w : 0 <= i < 111 -> lower (kw i) = lower w -> lookup_keyword w = entry aCode i.
Proof.
  intros Hi E. unfold lookup_keyword. destruct (keyword_at i Hi) as (k & Ek & Hk).
  destruct (list_find (fun k => lower (bytes_of k.1) = lower w) keywords) as [[j [k' code]]|] eqn:Ef.
  - apply list_find_Some in Ef as (Ej & Hj & _). simpl in Hj.
    assert (j < 111)%nat by (change 111%nat with (length keywords); by eapply lookup_lt_Some).
    destruct (keyword_at (Z.of_nat j) ltac:(lia)) as (k2 & Ek2 & Hk2). rewrite Nat2Z.id, Ej in Ek2.
    injection Ek2 as -> ->. rewrite Hk2, <- E in Hj. by rewrite (kw_inj (Z.of_nat j) i) by (done || lia).
  - apply list_find_None in Ef. rewrite Forall_lookup in Ef. specialize (Ef _ _ Ek). simpl in Ef. by rewrite Hk in Ef.
Qed.

Lemma lookup_keyword_none w : (forall i, 0 <= i < 111 -> lower (kw i) <> lower w) -> lookup_keyword w = TK_ID.
Proof.
  intros H. unfold lookup_keyword.
  destruct (list_find (fun k => lower (bytes_of k.1) = lower w) keywords) as [[j [k code]]|] eqn:Ef; [|done].
  apply list_find_Some in Ef as (Ej & Hj & _). simpl in Hj.
  assert (j < 111)%nat by (change 111%nat with (length keywords); by eapply lookup_lt_Some).
  destruct (keyword_at (Z.of_nat j) ltac:(lia)) as (k2 & Ek2 & Hk2). rewrite Nat2Z.id, Ej in Ek2.
  injection Ek2 as -> _. rewrite Hk2 in Hj. by destruct (H (Z.of_nat j)); [lia|].
Qed.

(** The search in a chain and the search in the list of keywords find the same. *)
Lemma chain_complete w l : chain chain_fuel (entry aHash (word_hash w) - 1) = Some l ->
  Forall (fun i => 0 <= i < 111) l ->
  match list_find (is_word w) l with Some (_, i) => entry aCode i | None => TK_ID end = lookup_keyword w.
Proof.
  intros El Hl. destruct (list_find (is_word w) l) as [[j i]|] eqn:E1.
  - apply list_find_Some in E1 as (E1 & E2 & _). symmetry. apply lookup_keyword_at; [|done].
    rewrite Forall_lookup in Hl. by apply (Hl j).
  - symmetry. apply lookup_keyword_none. intros i Hi Ei. apply list_find_None in E1.
    pose proof chains_complete as H. rewrite Forall_forall in H.
    specialize (H i ltac:(apply elem_of_seqZ; lia)). rewrite (word_hash_lower (kw i) w Ei), El in H. simpl in H.
    rewrite Forall_forall in E1. by apply (E1 i).
Qed.

Lemma lookup_short w : (length w < 2)%nat -> lookup_keyword w = TK_ID.
Proof.
  intros Hw. apply lookup_keyword_none. intros i Hi E. pose proof kw_ok as H. rewrite Forall_forall in H.
  destruct (H i ltac:(apply elem_of_seqZ; lia)) as (_ & Hl2 & _).
  apply (f_equal length) in E. unfold lower in E. rewrite !length_map in E. lia.
Qed.

Lemma rd_nth (w rest : list Z) i : (i < length w)%nat -> rd (w ++ rest) i = Ok (nth i w 0).
Proof.
  intros Hi. unfold rd. rewrite lookup_app_l by done.
  destruct (lookup_lt_is_Some_2 w i Hi) as [c E]. by rewrite E, (nth_lookup_Some _ _ _ _ E).
Qed.

Lemma keywordCode_lookup (w rest : list Z) :
  keywordCode (w ++ rest) (length w) = Ok (lookup_keyword w).
Proof.
  unfold keywordCode. destruct (Nat.ltb_spec (length w) 2) as [Hs|Hs]; [by rewrite lookup_short|].
  rewrite !rd_nth by lia. cbn [mbind result_bind]. fold (hash_of (nth 0 w 0) (nth (length w - 1) w 0) (Z.of_nat (length w))).
  fold (word_hash w). destruct (chain_of (word_hash w)) as (l & El & Hl); [apply hash_range|].
  by rewrite (keyword_loop_run _ _ _ _ l), chain_complete.
Qed.
(** C29. The generated keyword hash is right.  For every word, of whatever length and letters, and
    whatever follows it, [keywordCode] returns the code of the keyword that the word is up to
    case, and [TK_ID] where it is none: each of the 111 keywords is found although their texts
    overlap, no other word is taken for one, and the chains of the hash table all end. *)
Theorem keywordCode_correct (w rest : list Z) :
  keywordCode (w ++ rest) (length w) = Ok (lookup_keyword w).
Proof. apply keywordCode_lookup. Qed.
End KeywordFacts.

Module TokenFacts.
Import Tk SqlUtil SqlUtilFacts SqlKeyword KeywordFacts SqlToken.

(** A string without NUL. *)
Definition text (u : list Z) : Prop := Forall (fun c => c <> 0) u.

(** How far a class of characters reaches. *)
Fixpoint span (p : Z -> bool) (u : list Z) : nat :=
  match u with
  | c :: u => if p c then S (span p u) else O
  | [] => O
  end.

Lemma span_le p u : (span p u <= length u)%nat.
Proof. induction u as [|c u IH]; simpl; [lia|]. destruct (p c); simpl; lia. Qed.

Lemma skip_run p u : forall i rest, p 0 = false -> skip p (u ++ 0 :: rest) i = Ok (i + span p u)%nat.
Proof.
  induction u as [|c u IH]; intros i rest Hp; cbn [app skip span].
  - rewrite Hp. f_equal. lia.
  - destruct (p c); [|f_equal; lia]. rewrite IH by done. f_equal. lia.
Qed.

Lemma rd_text u rest i : (i <= length u)%nat -> rd (u ++ 0 :: rest) i = Ok (nth i u 0).
Proof.
  intros Hi. destruct (decide (i = length u)) as [->|Hne].
  - rewrite rd_middle by done. by rewrite nth_overflow.
  - apply rd_nth. lia.
Qed.

Lemma drop_text u rest i : (i <= length u)%nat -> drop i (u ++ 0 :: rest) = drop i u ++ 0 :: rest.
Proof. intros. by rewrite drop_app_le. Qed.

Lemma nth_in u i : nth i u 0 <> 0 -> (i < length u)%nat.
Proof. intros H. destruct (Nat.ltb_spec i (length u)); [done|]. by rewrite nth_overflow in H. Qed.

Lemma text_drop u i : text u -> text (drop i u).
Proof. apply Forall_drop. Qed.

Lemma comment_run u : forall c i rest, text u ->
  exists n, comment_loop (u ++ 0 :: rest) c i = Ok n /\ (i <= n <= i + length u)%nat.
Proof.
  induction u as [|d u IH]; intros c i rest Hu; cbn [app comment_loop length].
  - rewrite andb_false_r. exists i. split; [done|lia].
  - apply Forall_cons in Hu as [Hd Hu]. destruct ((c =? 42) && (d =? 47)).
    + exists (S i). split; [done|lia].
    + destruct (Z.eqb_spec d 0) as [|_]; [done|]. destruct (IH d (S i) rest Hu) as (n & -> & Hn). exists n. split; [done|lia].
Qed.

Lemma bracket_run u : forall c i rest, text u ->
  exists n, bracket_loop (u ++ 0 :: rest) c i = Ok n /\ (i <= n <= i + length u)%nat.
Proof.
  induction u as [|d u IH]; intros c i rest Hu; cbn [app bracket_loop length].
  - exists i. split; [by destruct (c =? 93)|lia].
  - destruct (c =? 93); [exists i; split; [done|lia]|]. apply Forall_cons in Hu as [Hd Hu].
    destruct (Z.eqb_spec d 0) as [|_]; [done|]. destruct (IH d (S i) rest Hu) as (n & -> & Hn). exists n. split; [done|lia].
Qed.

Lemma string_run k : forall u delim i rest, (length u <= k)%nat -> text u -> delim <> 0 ->
  exists t n, string_loop (u ++ 0 :: rest) delim i = Ok (t, n) /\ (i <= n <= i + length u)%nat.
Proof.
  induction k as [|k IH]; intros [|c u] delim i rest Hk Hu Hd; simpl in Hk; try lia; cbn [app string_loop length].
  - exists TK_ILLEGAL, i. split; [done|lia].
  - exists TK_ILLEGAL, i. split; [done|lia].
  - apply Forall_cons in Hu as [Hc Hu]. destruct (Z.eqb_spec c 0) as [|_]; [done|]. destruct (c =? delim).
    + destruct u as [|e u]; cbn [app].
      * destruct (Z.eqb_spec 0 delim) as [|_]; [done|]. exists TK_STRING, (S i). split; [done|simpl; lia].
      * destruct (e =? delim); [|exists TK_STRING, (S i); split; [done|lia]].
        apply Forall_cons in Hu as [_ Hu].
        destruct (IH u delim (S (S i)) rest) as (t & n & -> & Hn); try done; [simpl in Hk; lia|].
        exists t, n. simpl. split; [done|lia].
    + destruct (IH u delim (S i) rest) as (t & n & -> & Hn); try done; [lia|]. exists t, n. split; [done|lia].
Qed.

Lemma blob_run u : forall delim i rest, text u ->
  exists t n, blob_loop (u ++ 0 :: rest) delim i = Ok (t, n) /\ (i <= n <= i + length u)%nat.
Proof.
  induction u as [|c u IH]; intros delim i rest Hu; cbn [app blob_loop length].
  - exists TK_BLOB, i. split; [done|lia].
  - apply Forall_cons in Hu as [Hc Hu]. destruct (Z.eqb_spec c 0) as [|_]; [done|]. destruct (c =? delim); [eexists _, _; split; [done|lia]|].
    destruct (isxdigit c); cbn [negb]; [|eexists _, _; split; [done|lia]].
    destruct (IH delim (S i) rest Hu) as (t & n & -> & Hn). exists t, n. split; [done|lia].
Qed.

Lemma variable_run k : forall u i n t rest, (length u <= k)%nat -> text u ->
  exists t' i' n', variable_loop (u ++ 0 :: rest) i n t = Ok (t', i', n') /\ (i <= i' <= i + length u)%nat.
Proof.
  induction k as [|k IH]; intros [|c u] i n t rest Hk Hu; simpl in Hk; try lia; cbn [app variable_loop length].
  1, 2: exists t, i, n; split; [done|lia].
  apply Forall_cons in Hu as [Hc Hu]. destruct (Z.eqb_spec c 0) as [|_]; [done|]. destruct (IdChar c).
  { destruct (IH u (S i) (S n) t rest) as (t' & i' & n' & -> & Hi); try done; [lia|]. exists t', i', n'. split; [done|lia]. }
  destruct ((c =? 40) && (0 <? n)%nat).
  { set (p := fun c => negb (c =? 0) && negb (isspace c) && negb (c =? 41)).
    rewrite skip_run by done. cbn [mbind result_bind Nat.add]. pose proof (span_le p u).
    rewrite rd_text by done. cbn [mbind result_bind].
    destruct (Z.eqb_spec (nth (span p u) u 0) 41) as [E|E].
    - pose proof (nth_in u (span p u)). eexists _, _, _. split; [done|lia].
    - eexists _, _, _. split; [done|lia]. }
  destruct (c =? 58); [|exists t, i, n; split; [done|lia]].
  destruct u as [|d u]; cbn [app]; [exists t, i, n; split; [done|simpl; lia]|].
  destruct (d =? 58); [|exists t, i, n; split; [done|lia]]. apply Forall_cons in Hu as [_ Hu].
  destruct (IH u (S (S i)) n t rest) as (t' & i' & n' & -> & Hi); try done; [simpl in Hk; lia|].
  exists t', i', n'. simpl. split; [done|lia].
Qed.

(** A token within the text [u]. *)
Definition within (u : list Z) (r : result (Z * nat)) : Prop :=
  exists t n, r = Ok (t, n) /\ (1 <= n <= length u)%nat.

Lemma within_Ok u t n : (1 <= n <= length u)%nat -> within u (Ok (t, n)).
Proof. intros. by exists t, n. Qed.

Lemma nth_digit u i : isdigit (nth i u 0) = true -> (i < length u)%nat.
Proof. intros H. apply nth_in. intros E. by rewrite E in H. Qed.

(** The exponent of a number, where there is one. *)
Lemma number_tail u rest t i : (1 <= i <= length u)%nat ->
  within u (c ← rd (u ++ 0 :: rest) i;
    exponent ← (if (c =? 101) || (c =? 69) then
                d ← rd (u ++ 0 :: rest) (i + 1);
                if isdigit d then Ok true
                else if (d =? 43) || (d =? 45) then e ← rd (u ++ 0 :: rest) (i + 2); Ok (isdigit e)
                else Ok false
              else Ok false);
    if exponent : bool then j ← skip isdigit (drop (i + 2) (u ++ 0 :: rest)) (i + 2); Ok (TK_FLOAT, j)
    else Ok (t, i)).
Proof.
  intros Hi. rewrite (rd_text u rest i) by lia. cbn [mbind result_bind].
  destruct ((nth i u 0 =? 101) || (nth i u 0 =? 69)) eqn:Ee; cbn [mbind result_bind]; [|apply within_Ok; lia].
  assert (i < length u)%nat as Hi1 by (apply nth_in; intros E; rewrite E in Ee; done).
  rewrite (rd_text u rest (i + 1)) by lia. cbn [mbind result_bind].
  assert (forall b, (b = true -> (i + 2 <= length u)%nat) ->
    within u (if b : bool then j ← skip isdigit (drop (i + 2) (u ++ 0 :: rest)) (i + 2); Ok (TK_FLOAT, j) else Ok (t, i))) as Hexp.
  { intros [] Hb; [|apply within_Ok; lia]. rewrite drop_text, skip_run by auto. cbn [mbind result_bind].
    pose proof (span_le isdigit (drop (i + 2) u)) as Hs. rewrite length_drop in Hs. apply within_Ok. specialize (Hb eq_refl). lia. }
  destruct (isdigit (nth (i + 1) u 0)) eqn:Ed; cbn [mbind result_bind].
  { apply (Hexp true). intros _. apply nth_digit in Ed. lia. }
  destruct ((nth (i + 1) u 0 =? 43) || (nth (i + 1) u 0 =? 45)) eqn:Es; cbn [mbind result_bind]; [|by apply (Hexp false)].
  assert (i + 1 < length u)%nat by (apply nth_in; intros E; rewrite E in Es; done).
  rewrite rd_text by lia. cbn [mbind result_bind]. apply Hexp. intros He%nth_digit. lia.
Qed.

Lemma number_run u rest : isdigit (nth 0 u 0) = true \/ nth 0 u 0 = 46 -> within u (number (u ++ 0 :: rest)).
Proof.
  intros H0. unfold number. rewrite skip_run by done. cbn [mbind result_bind Nat.add].
  pose proof (span_le isdigit u). rewrite (rd_text u rest (span isdigit u)) by done. cbn [mbind result_bind].
  destruct (Z.eqb_spec (nth (span isdigit u) u 0) 46) as [E|E].
  - assert (span isdigit u < length u)%nat by (apply nth_in; rewrite E; done).
    rewrite drop_text, skip_run by (done || lia). cbn [mbind result_bind].
    pose proof (span_le isdigit (drop (S (span isdigit u)) u)) as Hs. rewrite length_drop in Hs.
    apply number_tail. lia.
  - cbn [mbind result_bind]. apply number_tail. split; [|done].
    destruct u as [|c u]; simpl in *; [by destruct H0|]. destruct (isdigit c); [lia|]. by destruct H0.
Qed.

Lemma variable_within u rest : text u -> u <> [] -> within u (variable (u ++ 0 :: rest)).
Proof.
  intros Hu Hne. unfold variable. destruct u as [|c u]; [done|]. cbn [app]. rewrite rd_0. cbn [mbind result_bind].
  assert (forall j t, (1 <= j <= length (c :: u))%nat ->
    within (c :: u) ('(t, i, n) ← variable_loop (drop j (c :: u ++ 0 :: rest)) j 0 t; Ok (if (n =? 0)%nat then TK_ILLEGAL else t, i))) as Hrun.
  { intros j t Hj. change (c :: u ++ 0 :: rest) with ((c :: u) ++ 0 :: rest). rewrite drop_text by lia.
    destruct (variable_run _ (drop j (c :: u)) j 0 t rest (Nat.le_refl _)) as (t' & i' & n' & -> & Hi);
      [by apply text_drop|]. cbn [mbind result_bind]. rewrite length_drop in Hi. apply within_Ok. lia. }
  destruct (c =? 64); cbn [mbind result_bind]; [|apply Hrun; simpl; lia].
  rewrite rd_S, (rd_text u rest 0) by lia. cbn [mbind result_bind].
  destruct (Z.eqb_spec (nth 0 u 0) 64) as [E|E]; [|apply Hrun; simpl; lia].
  assert (0 < length u)%nat by (apply nth_in; rewrite E; done). apply Hrun. simpl. lia.
Qed.

Lemma identifier_within u rest : u <> [] -> within u (identifier (u ++ 0 :: rest)).
Proof.
  intros Hne. unfold identifier. destruct u as [|c u]; [done|]. cbn [app]. rewrite rd_0. cbn [mbind result_bind].
  destruct (IdChar c); [|apply within_Ok; simpl; lia]. change (drop 1 (c :: u ++ 0 :: rest)) with (u ++ 0 :: rest).
  rewrite skip_run by done. cbn [mbind result_bind]. set (k := span _ u). pose proof (span_le _ u : (k <= _)%nat).
  assert (length (take (1 + k) (c :: u)) = 1 + k)%nat as El by (rewrite length_take; simpl; lia).
  pose proof (keywordCode_lookup (take (1 + k) (c :: u)) (drop (1 + k) (c :: u) ++ 0 :: rest)) as E.
  rewrite El, app_assoc, take_drop in E. cbn [app] in E. rewrite E. cbn [mbind result_bind]. apply within_Ok. simpl. lia.
Qed.

(** The cases of the switch that read on, for the text [c :: u]. *)
Section Cases.
Context (c : Z) (u rest : list Z) (Hu : text u).

Lemma within_fixed t n : (n = 1 \/ n = 2 /\ 1 <= length u)%nat -> within (c :: u) (Ok (t, n)).
Proof. intros Hn. apply within_Ok. simpl. lia. Qed.

Lemma next_char d : nth 0 u 0 = d -> d <> 0 -> (1 <= length u)%nat.
Proof. intros E Hd. apply (nth_in u 0). by rewrite E. Qed.

Lemma within_two d t t' : d <> 0 -> within (c :: u) (Ok (if nth 0 u 0 =? d then (t, 2%nat) else (t', 1%nat))).
Proof.
  intros Hd. destruct (Z.eqb_spec (nth 0 u 0) d) as [E|E]; apply within_fixed; [pose proof (next_char _ E Hd)|]; lia.
Qed.

Lemma within_skip p t : p 0 = false -> within (c :: u) (i ← skip p (u ++ 0 :: rest) 1; Ok (t, i)).
Proof. intros Hp. rewrite skip_run by done. pose proof (span_le p u). apply within_Ok. simpl. lia. Qed.

Lemma within_line_comment p : p 0 = false -> within (c :: u)
  (if nth 0 u 0 =? 45 then i ← skip p (drop 1 (u ++ 0 :: rest)) 2; Ok (TK_COMMENT, i) else Ok (TK_MINUS, 1%nat)).
Proof.
  intros Hp. destruct (Z.eqb_spec (nth 0 u 0) 45) as [E|E]; [|apply within_fixed; lia].
  pose proof (next_char _ E ltac:(done)). rewrite drop_text, skip_run by (done || lia).
  pose proof (span_le p (drop 1 u)) as Hs. rewrite length_drop in Hs. apply within_Ok. simpl. lia.
Qed.

Lemma within_comment : within (c :: u)
  (if nth 0 u 0 =? 42 then
     d ← rd (u ++ 0 :: rest) 1;
     if d =? 0 then Ok (TK_SLASH, 1%nat) else i ← comment_loop (drop 2 (u ++ 0 :: rest)) d 3; Ok (TK_COMMENT, i)
   else Ok (TK_SLASH, 1%nat)).
Proof.
  destruct (Z.eqb_spec (nth 0 u 0) 42) as [E|E]; [|apply within_fixed; lia].
  pose proof (next_char _ E ltac:(done)). rewrite (rd_text u rest 1) by lia. cbn [mbind result_bind].
  destruct (Z.eqb_spec (nth 1 u 0) 0) as [E0|E0]; [apply within_fixed; lia|]. apply nth_in in E0.
  rewrite drop_text by lia. destruct (comment_run (drop 2 u) (nth 1 u 0) 3 rest) as (n & -> & Hn); [by apply text_drop|].
  rewrite length_drop in Hn. apply within_Ok. simpl. lia.
Qed.

Lemma within_string : c <> 0 -> within (c :: u) (string_loop (u ++ 0 :: rest) c 1).
Proof.
  intros Hc. destruct (string_run _ u c 1 rest (Nat.le_refl _)) as (t & n & -> & Hn); [done|done|].
  apply within_Ok. simpl. lia.
Qed.

Lemma within_bracket : within (c :: u) (i ← bracket_loop (u ++ 0 :: rest) c 1; Ok (TK_ID, i)).
Proof. destruct (bracket_run u c 1 rest) as (n & -> & Hn); [done|]. apply within_Ok. simpl. lia. Qed.

Lemma within_register r : within (c :: u) r ->
  within (c :: u) (i ← skip isdigit (u ++ 0 :: rest) 1; if (1 <? i)%nat then Ok (TK_REGISTER, i) else r).
Proof.
  intros Hr. rewrite skip_run by done. cbn [mbind result_bind]. pose proof (span_le isdigit u).
  destruct (1 <? _)%nat; [apply within_Ok; simpl; lia|done].
Qed.

Lemma within_blob r : within (c :: u) r ->
  within (c :: u) (if (nth 0 u 0 =? 39) || (nth 0 u 0 =? 34) then blob_loop (drop 1 (u ++ 0 :: rest)) (nth 0 u 0) 2 else r).
Proof.
  intros Hr. destruct (_ || _) eqn:Eb; [|done].
  assert (0 < length u)%nat by (apply nth_in; intros E; by rewrite E in Eb).
  rewrite drop_text by lia. destruct (blob_run (drop 1 u) (nth 0 u 0) 2 rest) as (t & n & -> & Hn); [by apply text_drop|].
  rewrite length_drop in Hn. apply within_Ok. simpl. lia.
Qed.
End Cases.

Lemma getToken_bounds (u rest : list Z) :
  text u -> u <> [] ->
  exists t n, getToken (u ++ 0 :: rest) = Ok (t, n) /\ (1 <= n)%nat
    /\ ((n <= length u)%nat \/ (u = [33] /\ t = TK_ILLEGAL /\ n = 2%nat)).
Proof.
  intros Hu Hne. destruct (decide (u = [33])) as [->|H33]; [by eexists _, _; split; [done|]; split; [lia|right]|].
  enough (within u (getToken (u ++ 0 :: rest))) as (t & n & E & Hn) by (exists t, n; split; [done|]; split; [lia|left; lia]).
  destruct u as [|c u]; [done|]. apply Forall_cons in Hu as Hcu. destruct Hcu as [Hc Hu'].
  assert (forall t t' d, d <> 0 -> within (c :: u) (Ok (if nth 0 u 0 =? d then (t, 2%nat) else (t', 1%nat)))) as Htwo
    by (intros; by apply within_two).
  unfold getToken. cbn [app]. rewrite !rd_0, !rd_S, !(rd_text u rest 0) by lia. cbn [mbind result_bind].
  change (drop 1 (c :: u ++ 0 :: rest)) with (u ++ 0 :: rest).
  change (drop 2 (c :: u ++ 0 :: rest)) with (drop 1 (u ++ 0 :: rest)).
  change (drop 3 (c :: u ++ 0 :: rest)) with (drop 2 (u ++ 0 :: rest)).
  destruct (_ || _); [by apply within_skip|].
  destruct (c =? 45); [by apply within_line_comment|].
  do 5 (destruct (_ =? _); [apply within_fixed; lia|]).
  destruct (c =? 47); [by apply within_comment|].
  destruct (c =? 37); [apply within_fixed; lia|].
  destruct (c =? 61); [specialize (Htwo TK_EQ TK_EQ 61 ltac:(done)); by destruct (nth 0 u 0 =? 61)|].
  destruct (c =? 60).
  { pose proof (Htwo TK_LE TK_LT 61 ltac:(done)). pose proof (Htwo TK_NE TK_LT 62 ltac:(done)).
    destruct (nth 0 u 0 =? 61); [done|]. destruct (nth 0 u 0 =? 62); [done|]. by apply Htwo. }
  destruct (c =? 62).
  { pose proof (Htwo TK_GE TK_GT 61 ltac:(done)). destruct (nth 0 u 0 =? 61); [done|]. by apply Htwo. }
  destruct (Z.eqb_spec c 33) as [->|_].
  { destruct u as [|d u]; [done|]. destruct (_ =? 61); apply within_fixed; simpl; lia. }
  destruct (c =? 124); [by apply Htwo|].
  do 3 (destruct (_ =? _); [apply within_fixed; lia|]).
  destruct (_ || _); [by apply within_string|].
  destruct (Z.eqb_spec c 46) as [->|_].
  { destruct (isdigit (nth 0 u 0)); [by apply (number_run (46 :: u)); right|apply within_fixed; lia]. }
  destruct (isdigit c) eqn:Ed; [by apply (number_run (c :: u)); left|].
  destruct (c =? 91); [by apply within_bracket|].
  destruct (c =? 63); [by apply within_skip|].
  pose proof (variable_within (c :: u) rest Hu ltac:(done)) as Hvar.
  destruct (c =? 35); [by apply within_register|].
  destruct (_ || _); [done|].
  pose proof (identifier_within (c :: u) rest ltac:(done)) as Hid.
  destruct (_ || _); [by apply within_blob|done].
Qed.

(** C24. The tokenizer stays inside its input and always advances.  On every non-empty string
    [getToken] returns without reading past the terminator, and the token it returns is not
    empty and ends within the string; with one exception: for an exclamation mark that ends the
    string it returns length 2, one byte behind the terminator. *)
Theorem getToken_within (u rest : list Z) :
  text u -> u <> [] ->
  exists t n, getToken (u ++ 0 :: rest) = Ok (t, n) /\ (1 <= n)%nat
    /\ ((n <= length u)%nat \/ (u = [33] /\ t = TK_ILLEGAL /\ n = 2%nat)).
Proof. apply getToken_bounds. Qed.

Lemma getToken_within_witness :
  exists t n, getToken (bytes_of "!" ++ [0]) = Ok (t, n) /\ (1 <= n)%nat
    /\ ((n <= 1)%nat \/ (bytes_of "!" = [33] /\ t = TK_ILLEGAL /\ n = 2%nat)).
Proof. apply (getToken_within (bytes_of "!") []); [decide_now|done]. Defined.

(** * Quoted text *)

Lemma string_loop_escape q s : forall i d rest, q <> 0 -> text s -> d <> q ->
  string_loop (escape q s ++ q :: d :: rest) q i = Ok (TK_STRING, (i + length (escape q s) + 1)%nat).
Proof.
  induction s as [|c s IH]; intros i d rest Hq Hs Hd; cbn [escape app].
  - cbn [string_loop length]. destruct (Z.eqb_spec q 0); [done|]. rewrite Z.eqb_refl.
    destruct (Z.eqb_spec d q); [done|]. do 2 f_equal. lia.
  - apply Forall_cons in Hs as [Hc Hs]. destruct (Z.eqb_spec c q) as [->|Hcq]; cbn [app string_loop length].
    + destruct (Z.eqb_spec q 0); [done|]. rewrite !Z.eqb_refl, IH by done. do 2 f_equal. lia.
    + destruct (Z.eqb_spec c 0); [done|]. destruct (Z.eqb_spec c q); [done|]. rewrite IH by done. do 2 f_equal. lia.
Qed.

Lemma bracket_loop_close s : forall c i rest, text s -> 93 ∉ s -> c <> 93 ->
  bracket_loop (s ++ 93 :: rest) c i = Ok (i + length s + 1)%nat.
Proof.
  induction s as [|d s IH]; intros c i rest Hs Hn Hc; cbn [app bracket_loop length]; (destruct (Z.eqb_spec c 93); [done|]).
  - f_equal. simpl. destruct rest; f_equal; lia.
  - apply Forall_cons in Hs as [Hd Hs]. apply not_elem_of_cons in Hn as [Hn1 Hn].
    destruct (Z.eqb_spec d 0); [done|]. rewrite IH by done. f_equal. lia.
Qed.

Lemma escape_none q s : q ∉ s -> escape q s = s.
Proof.
  induction s as [|c s IH]; [done|]. intros [Hc Hs]%not_elem_of_cons. cbn [escape].
  destruct (Z.eqb_spec c q); [done|]. by rewrite IH.
Qed.

(** Quoting round-trips through the front end.  Whatever the text, written in any of the three
    kinds of quotes with embedded quotes doubled, or in brackets where it has no closing bracket,
    and followed by anything but a further quote: [getToken] takes exactly the quoted text as one
    token (a string, or an identifier for brackets), and [sqlite3NameFromToken], which copies the
    token and removes the quotes in place, yields the text again. *)
Theorem quoted_roundtrip (q d : Z) (s rest : list Z) :
  is_quote q -> text s -> (q = 91 -> 93 ∉ s) -> d <> closing q ->
  let z := q :: escape (closing q) s ++ closing q :: d :: rest in
  let n := (length (escape (closing q) s) + 2)%nat in
  getToken z = Ok (if q =? 91 then TK_ID else TK_STRING, n)
  /\ exists tail, sqlite3NameFromToken (Some (z, n)) = Ok (Some (s ++ 0 :: tail)).
Proof.
  intros Hq Hs H93 Hd z n. split.
  - unfold getToken, z. rewrite rd_0. cbn [mbind result_bind]. change (drop 1 (q :: ?l)) with l.
    destruct Hq as [->|[->|[->| ->]]]; cbn [Z.eqb orb Pos.eqb closing isdigit andb] in *;
      [rewrite string_loop_escape by done; f_equal; f_equal; unfold n; lia..|].
    change (isdigit 91) with false. unfold n. rewrite (escape_none 93 s) by auto.
    rewrite bracket_loop_close by auto. cbn [mbind result_bind]. do 2 f_equal. lia.
  - assert (take n z = q :: escape (closing q) s ++ [closing q]) as Et.
    { unfold z, n. rewrite Nat.add_comm. cbn [Nat.add firstn]. f_equal.
      replace (escape (closing q) s ++ closing q :: d :: rest)
        with ((escape (closing q) s ++ [closing q]) ++ d :: rest) by (by rewrite <- app_assoc).
      apply take_app_length'. rewrite length_app. simpl. lia. }
    unfold sqlite3NameFromToken, sqlite3StrNDup. destruct (Nat.leb_spec n (length z)) as [_|Hl];
      [|unfold n, z in Hl; simpl in Hl; rewrite length_app in Hl; simpl in Hl; lia].
    cbn [mbind result_bind]. rewrite Et. cbn [app]. rewrite <- app_assoc. cbn [app].
    apply dequote_quoted; [done|done|]. by destruct Hq as [->|[->|[->| ->]]].
Qed.

Lemma quoted_roundtrip_witness :
  getToken (bytes_of "'it''s';" ++ [0]) = Ok (TK_STRING, 7%nat)
  /\ exists tail, sqlite3NameFromToken (Some (bytes_of "'it''s';" ++ [0], 7%nat)) = Ok (Some (bytes_of "it's" ++ 0 :: tail)).
Proof.
  apply (quoted_roundtrip 39 59 (bytes_of "it's") [0]); [by left|decide_now|done|done].
Defined.

(** The loop of [sqlite3Dequote] that meets no closing quote only copies. *)
Lemma dequote_unclosed s : forall fuel w m rest,
  text s -> 93 ∉ s -> (length s < fuel)%nat ->
  dequote_loop fuel (w ++ m :: s ++ 0 :: rest) 93 (S (length w)) (length w) = Ok (w ++ s ++ default m (last s) :: 0 :: rest).
Proof.
  induction s as [|c s IH]; intros fuel w m rest Hs Hn Hf; (destruct fuel as [|fuel]; [simpl in Hf; lia|]); cbn [dequote_loop app].
  - replace (w ++ m :: 0 :: rest) with ((w ++ [m]) ++ 0 :: rest) at 1 by (by rewrite <- app_assoc).
    rewrite (rd_middle (w ++ [m])) by (rewrite length_app; simpl; lia). done.
  - apply Forall_cons in Hs as [Hc Hs]. apply not_elem_of_cons in Hn as [Hn1 Hn].
    replace (w ++ m :: c :: s ++ 0 :: rest) with ((w ++ [m]) ++ c :: s ++ 0 :: rest) at 1 by (by rewrite <- app_assoc).
    rewrite (rd_middle (w ++ [m])) by (rewrite length_app; simpl; lia). cbn [mbind result_bind].
    destruct (Z.eqb_spec c 0); [done|]. destruct (Z.eqb_spec c 93); [done|].
    rewrite insert_middle. replace (S (length w)) with (length (w ++ [c])) by (rewrite length_app; simpl; lia).
    rewrite IH by (done || simpl in Hf; lia). rewrite <- app_assoc. cbn [app]. do 4 f_equal.
    destruct s as [|d s]; [done|]. change (last (c :: d :: s)) with (last (d :: s)).
    destruct (last (d :: s)) eqn:E; [done|]. by apply last_None in E.
Qed.

(** An unclosed bracket is not an error, and its name comes out wrong.  Where the input ends
    within a bracketed identifier, [getToken] returns [TK_ID] all the same, and
    [sqlite3NameFromToken], which relies on the closing bracket to terminate the name, yields
    the text with its last character doubled. *)
Lemma unclosed_bracket (s : list Z) (c : Z) :
  text s -> 93 ∉ s -> last s = Some c ->
  getToken (91 :: s ++ [0]) = Ok (TK_ID, S (length s))
  /\ sqlite3NameFromToken (Some (91 :: s ++ [0], S (length s))) = Ok (Some (s ++ [c; 0])).
Proof.
  intros Hs Hn Hl. split.
  - unfold getToken. rewrite rd_0. cbn [mbind result_bind]. change (drop 1 (91 :: ?l)) with l.
    change (isdigit 91) with false. cbn [Z.eqb orb Pos.eqb].
    assert (forall d i, d <> 93 -> bracket_loop (s ++ [0]) d i = Ok (i + length s)%nat) as ->; [|done|done].
    clear Hl. induction s as [|e s IH]; intros d i Hd; cbn [app bracket_loop length]; (destruct (Z.eqb_spec d 93); [done|]).
    + f_equal. lia.
    + apply Forall_cons in Hs as [He Hs]. apply not_elem_of_cons in Hn as [Hn1 Hn].
      destruct (Z.eqb_spec e 0); [done|]. rewrite IH by done. f_equal. lia.
  - unfold sqlite3NameFromToken, sqlite3StrNDup.
    destruct (Nat.leb_spec (S (length s)) (length (91 :: s ++ [0]))) as [_|H]; [|simpl in H; rewrite length_app in H; simpl in H; lia].
    cbn [mbind result_bind firstn]. rewrite take_app_length. unfold sqlite3Dequote. cbn [app]. rewrite rd_0.
    cbn [mbind result_bind Z.eqb orb Pos.eqb].
    pose proof (dequote_unclosed s (length (91 :: s ++ [0])) [] 91 [] Hs Hn) as E. cbn [app length] in E.
    cbn [length]. rewrite E by (rewrite length_app; simpl; lia). cbn [mbind result_bind]. by rewrite Hl.
Qed.

Lemma unclosed_bracket_witness :
  getToken (bytes_of "[abc" ++ [0]) = Ok (TK_ID, 4%nat)
  /\ sqlite3NameFromToken (Some (bytes_of "[abc" ++ [0], 4%nat)) = Ok (Some (bytes_of "abcc" ++ [0])).
Proof. apply (unclosed_bracket (bytes_of "abc") 99); [decide_now|decide_now|reflexivity]. Defined.
End TokenFacts.
