(* ===== verification/SqlParse.v ===== *)
(** Running the SQL parser over a statement (sqlite-lint, lemon/tokenize.c and lemon/util.c).

    Module [SqlParse] translates the allocation wrappers of util.c as far as a caller can see
    them, the growing arrays of tokens and parsed statements, and [sqlite3RunParser] and
    [sqlite3RunParser1]: the loop that feeds tokens to the parser, the second loop that this
    fork adds behind [abort_parse] to record the rest of the tokens, and the final bookkeeping
    of error codes and messages.  The parser that lemon generates from parse.y comes in as an
    instance of class [LemonParser], and what the driver relies on as class [LemonSafe]: the
    theorems of [SqlParseFacts] hold for every parser that keeps these promises, and file SqlLint
    shows that the one in parse.c does.  Indices into the statement are naturals, and sizes of
    arrays in bytes do not overflow: statements are shorter than 2 GiB by far. *)
From S2P Require Import Prelude Machine Libc SqlUtil SqlToken.

(** A token of the statement: where it starts and how long it is. *)
Record token := MkToken { tk_z : nat; tk_n : nat }.

(** The allocator as util.c sees it: the answers of the system to come (granted where the list
    ends), and the flag [mallocHasFailed]. *)
Record heap := MkHeap { mallocHasFailed : bool; answers : list bool }.

(** What the driver and the parser share of [Parse]. *)
Record ctx := MkCtx { flags : Z; rc : Z; zErrMsg : option (list Z); ctx_heap : heap }.

(** The interface of parse.c, that is [sqlite3ParserAlloc], [sqlite3Parser] and
    [sqlite3ParserFree].  [results] are the fields of [Parse] that only the actions of the
    grammar use; the first argument of [lemon_parse] is the statement that tokens point
    into. *)
Class LemonParser := {
  engine : Type;
  results : Type;
  lemon_alloc : engine;
  lemon_parse : list Z -> engine -> Z -> token -> ctx -> results -> result (engine * ctx * results);
  lemon_free : engine -> result unit
}.

(** No allocation has failed or will. *)
Definition plenty : heap := MkHeap false [].

(** What the driver relies on: fed at most [max_tokens] tokens that lie in the statement, of the
    kinds in [feedable], and given the memory it asks for, the parser returns, and it can be freed.
    [settled n] holds of it after [n] tokens. *)
Class LemonSafe (LP : LemonParser) (zSql : list Z) := {
  feedable : Z -> Prop;
  max_tokens : nat;
  results_ok : results -> Prop;
  settled : nat -> engine -> results -> Prop;
  feedable_end : feedable 0;
  feedable_semi : feedable Tk.TK_SEMI;
  settled_alloc : forall r, results_ok r -> settled 0 lemon_alloc r;
  settled_step : forall n e code t c r,
    settled n e r -> (n < max_tokens)%nat -> feedable code -> (tk_z t + tk_n t < length zSql)%nat ->
    ctx_heap c = plenty ->
    exists e' c' r', lemon_parse zSql e code t c r = Ok (e', c', r') /\ settled (S n) e' r'
      /\ ctx_heap c' = plenty;
  settled_free : forall n e r, settled n e r -> lemon_free e = Ok tt
}.

Module SqlParse.
Import Tk SqlToken.

Definition SQLITE_OK : Z := 0.
Definition SQLITE_ERROR : Z := 1.
Definition SQLITE_NOMEM : Z := 7.
Definition SQLITE_INTERRUPT : Z := 9.
Definition SQLITE_DONE : Z := 101.
Definition SQLITE_Interrupt : Z := 4.

(** * Allocation *)

(** [sqlite3OsMalloc] and [sqlite3OsRealloc]: whether the system grants the request. *)
Definition os_alloc (h : heap) : bool * heap :=
  match answers h with
  | [] => (true, h)
  | a :: l => (a, MkHeap (mallocHasFailed h) l)
  end.

Definition sqlite3MallocFailed (h : heap) : bool := mallocHasFailed h.
Definition sqlite3FailedMalloc (h : heap) : heap := MkHeap true (answers h).

(** Whether a pointer is returned; without memory management the soft limit does not apply and
    no memory can be released. *)
Definition sqlite3MallocRaw (n : Z) (h : heap) : bool * heap :=
  if (0 <? n) && negb (sqlite3MallocFailed h) then
    let '(ok, h) := os_alloc h in
    if ok then (true, h) else (false, sqlite3FailedMalloc h)
  else (false, h).

(** Of a pointer that is not NULL. *)
Definition sqlite3Realloc (n : Z) (h : heap) : bool * heap :=
  if sqlite3MallocFailed h then (false, h)
  else let '(ok, h) := os_alloc h in
       if ok then (true, h) else (false, sqlite3FailedMalloc h).

(** * Growing arrays *)

Record TokenItem := MkItem { ti_token : token; tokenType : Z }.

(** The cells of an array that were never written are [None]. *)
Record garray (A : Type) := MkArray { cells : option (list (option A)); curSize : Z; allocSize : Z }.
Arguments MkArray {A}.
Arguments cells {A}.
Arguments curSize {A}.
Arguments allocSize {A}.

(** [a->array[a->curSize++] = x]. *)
Definition put_next {A} (a : garray A) (l : list (option A)) (alloc : Z) (x : A) : result (garray A) :=
  if (Z.to_nat (curSize a) <? length l)%nat
  then Ok (MkArray (Some (<[Z.to_nat (curSize a) := Some x]> l)) (u32 (curSize a + 1)) alloc)
  else Undef.

(** The cells after [realloc] to [n] of them. *)
Definition resize {A} (l : list (option A)) (n : nat) : list (option A) := take n (l ++ replicate n None).

(** The array and the heap afterwards; the pointer returned is NULL where nothing was
    appended for lack of memory, which no caller checks. *)
Definition sqlite3TokenArrayAppend {A} (a : garray A) (item : A) (h : heap) : result (garray A * heap) :=
  match cells a with
  | None => Ok (a, h)
  | Some l =>
      if allocSize a <=? curSize a then
        let alloc := u32 (allocSize a * 2) in
        let '(ok, h) := sqlite3Realloc alloc h in
        if ok then a' ← put_next a (resize l (Z.to_nat alloc)) alloc item; Ok (a', h) else Ok (a, h)
      else a' ← put_next a l (allocSize a) item; Ok (a', h)
  end.

(** The first statement allocates the array; from there on the code is that of
    [sqlite3TokenArrayAppend]. *)
Definition sqlite3ParsedResultArrayAppend {A} (a : garray A) (x : A) (h : heap) : result (garray A * heap) :=
  let '(a, ok, h) :=
    match cells a with
    | Some _ => (a, true, h)
    | None => let '(ok, h) := sqlite3MallocRaw 1 h in
              (if ok then MkArray (Some [None]) (curSize a) 1 else a, ok, h)
    end in
  if ok : bool then sqlite3TokenArrayAppend a x h else Ok (a, h).

(** [sqlite3ParseInit]: room for sixteen tokens. *)
Definition sqlite3ParseInit {A} (h : heap) : option (garray A) * heap :=
  let '(ok, h) := sqlite3MallocRaw 16 h in
  (if ok then Some (MkArray (Some (replicate 16 None)) 0 16) else None, h).

(** * The parser loop *)

Section Run.
Context `{LP : LemonParser}.

Record run := MkRun {
  pctx : ctx;
  sLastToken : token;
  zTail : nat;
  tokens : garray TokenItem;
  err_out : option (option (list Z)); (** what [pzErrMsg] points to, [None] where it is NULL *)
  eng : engine;
  presults : results
}.

Definition on_ctx (f : ctx -> ctx) (s : run) : run := MkRun (f (pctx s)) (sLastToken s) (zTail s) (tokens s) (err_out s) (eng s) (presults s).
Definition set_last (t : token) (s : run) : run := MkRun (pctx s) t (zTail s) (tokens s) (err_out s) (eng s) (presults s).
Definition set_tail (i : nat) (s : run) : run := MkRun (pctx s) (sLastToken s) i (tokens s) (err_out s) (eng s) (presults s).
Definition set_tokens (a : garray TokenItem) (s : run) : run := MkRun (pctx s) (sLastToken s) (zTail s) a (err_out s) (eng s) (presults s).
Definition set_out (o : option (option (list Z))) (s : run) : run := MkRun (pctx s) (sLastToken s) (zTail s) (tokens s) o (eng s) (presults s).
Definition set_eng (e : engine) (s : run) : run := MkRun (pctx s) (sLastToken s) (zTail s) (tokens s) (err_out s) e (presults s).

Definition set_results (r : results) (s : run) : run := MkRun (pctx s) (sLastToken s) (zTail s) (tokens s) (err_out s) (eng s) r.

Definition set_rc (r : Z) : run -> run := on_ctx (fun c => MkCtx (flags c) r (zErrMsg c) (ctx_heap c)).
Definition set_msg (m : option (list Z)) : run -> run := on_ctx (fun c => MkCtx (flags c) (rc c) m (ctx_heap c)).
Definition set_heap (h : heap) : run -> run := on_ctx (fun c => MkCtx (flags c) (rc c) (zErrMsg c) h).

Definition run_heap (s : run) : heap := ctx_heap (pctx s).

(** A copy of [text] in memory of its own, where there is some. *)
Definition new_string (text : list Z) : M run (option (list Z)) :=
  h ← gets run_heap;
  let '(ok, h) := sqlite3MallocRaw (Z.of_nat (length text) + 1) h in
  modify (set_heap h);; mret (if ok then Some text else None).

(** [sqlite3SetString(pzErrMsg, text, 0)]. *)
Definition set_out_string (text : list Z) : M run unit :=
  out ← gets err_out;
  match out with
  | None => mret tt
  | Some _ => m ← new_string text; modify (set_out (Some m))
  end.

(** [sqlite3Parser(pEngine, code, pParse->sLastToken, pParse)]. *)
Definition parser (zSql : list Z) (code : Z) : M run unit :=
  s ← gets id;
  '(e, c, r) ← reads (fun _ => lemon_parse zSql (eng s) code (sLastToken s) (pctx s) (presults s));
  modify (fun s => on_ctx (fun _ => c) (set_eng e (set_results r s))).

Definition append_token (item : TokenItem) : M run unit :=
  s ← gets id;
  '(a, h) ← reads (fun _ => sqlite3TokenArrayAppend (tokens s) item (run_heap s));
  modify (fun s => set_heap h (set_tokens a s)).

(** The part that both loops share: the next token, recorded unless it is white space. *)
Definition next_token (zSql : list Z) (i : nat) : M run (Z * nat) :=
  '(t, n) ← reads (fun _ => getToken (drop i zSql));
  modify (set_last (MkToken i n));;
  (if t =? TK_SPACE then mret tt else append_token (MkItem (MkToken i n) t));;
  mret (t, (i + n)%nat).

Definition text_of (zSql : list Z) (t : token) : list Z := take (tk_n t) (drop (tk_z t) zSql).

(** [unrecognized token: "%T"]. *)
Definition unrecognized (zSql : list Z) (t : token) : list Z :=
  (bytes_of "unrecognized token: " ++ [34] ++ text_of zSql t ++ [34])%list.

(** One way to say whether the input goes on at [i]. *)
Definition until_nul (zSql : list Z) (i : nat) : result bool := c ← rd zSql i; Ok (negb (c =? 0)).
Definition until_len (sqlLen : Z) (i : nat) : result bool := Ok (Z.of_nat i <? sqlLen).

(** The main loop: the position where it stops, the errors and the last token parsed. *)
Fixpoint parse_loop (fuel : nat) (more : nat -> result bool) (zSql : list Z) (i : nat) (lastTokenParsed : Z)
  : M run (nat * Z * Z) :=
  match fuel with
  | O => raise NoFuel
  | S fuel =>
      s ← gets id;
      if sqlite3MallocFailed (run_heap s) then mret (i, 0, lastTokenParsed) else
      go ← reads (fun _ => more i);
      if negb go then mret (i, 0, lastTokenParsed) else
      '(t, i) ← next_token zSql i;
      s ← gets id;
      if (t =? TK_SPACE) || (t =? TK_COMMENT) then
        if negb (Z.land (flags (pctx s)) SQLITE_Interrupt =? 0) then
          modify (set_rc SQLITE_INTERRUPT);;
          set_out_string (bytes_of "interrupt");;
          mret (i, 0, lastTokenParsed)
        else parse_loop fuel more zSql i lastTokenParsed
      else if t =? TK_ILLEGAL then
        set_out_string (unrecognized zSql (sLastToken s));;
        mret (i, 1, lastTokenParsed)
      else
        (if t =? TK_SEMI then modify (set_tail i) else mret tt);;
        parser zSql t;;
        s ← gets id;
        if negb (rc (pctx s) =? SQLITE_OK) then mret (i, 0, t)
        else parse_loop fuel more zSql i t
  end.

(** The loop behind [abort_parse]. *)
Fixpoint rest_loop (fuel : nat) (more : nat -> result bool) (zSql : list Z) (i : nat) : M run nat :=
  match fuel with
  | O => raise NoFuel
  | S fuel =>
      s ← gets id;
      if sqlite3MallocFailed (run_heap s) then mret i else
      go ← reads (fun _ => more i);
      if negb go then mret i else
      '(_, i) ← next_token zSql i;
      rest_loop fuel more zSql i
  end.

(** [sqlite3ErrStr]. *)
Definition sqlite3ErrStr (rc : Z) : list Z :=
  bytes_of match rc with
  | 0 | 100 | 101 => "not an error"
  | 1 => "SQL logic error or missing database"
  | 3 => "access permission denied"
  | 4 => "callback requested query abort"
  | 5 => "database is locked"
  | 6 => "database table is locked"
  | 7 => "out of memory"
  | 8 => "attempt to write a readonly database"
  | 9 => "interrupted"
  | 10 => "disk I/O error"
  | 11 => "database disk image is malformed"
  | 13 => "database or disk is full"
  | 14 => "unable to open database file"
  | 15 => "database locking protocol failure"
  | 16 => "table contains no data"
  | 17 => "database schema has changed"
  | 19 => "constraint failed"
  | 20 => "datatype mismatch"
  | 21 => "library routine called out of sequence"
  | 22 => "kernel lacks large file support"
  | 23 => "authorization denied"
  | 24 => "auxiliary database format error"
  | 25 => "bind or column index out of range"
  | 26 => "file is encrypted or is not a database"
  | _ => "unknown error"
  end%string.

(** The end of the statement: a semicolon where there was none, and the end of the input. *)
Definition finish_input (zSql : list Z) (i : nat) (lastTokenParsed : Z) : M run unit :=
  (if negb (lastTokenParsed =? TK_SEMI) then parser zSql TK_SEMI;; modify (set_tail i) else mret tt);;
  parser zSql 0.

(** The error message goes to the caller, who has none yet, or nowhere. *)
Definition hand_over_message (nErr : Z) : M run Z :=
  s ← gets id;
  match zErrMsg (pctx s) with
  | None => mret nErr
  | Some m =>
      (match err_out s with
       | Some None => modify (set_out (Some (Some m)))
       | _ => mret tt
       end);;
      modify (set_msg None);;
      mret (if nErr =? 0 then 1 else nErr)
  end.

(** What follows the loops. *)
Definition conclude (zSql : list Z) (i : nat) (nErr lastTokenParsed : Z) : M run Z :=
  c ← reads (fun _ => rd zSql i);
  s ← gets id;
  (if (c =? 0) && (nErr =? 0) && (rc (pctx s) =? SQLITE_OK) then finish_input zSql i lastTokenParsed else mret tt);;
  reads (fun s => lemon_free (eng s));;
  s ← gets id;
  (if sqlite3MallocFailed (run_heap s) then modify (set_rc SQLITE_NOMEM) else mret tt);;
  s ← gets id;
  (if negb (rc (pctx s) =? SQLITE_OK) && negb (rc (pctx s) =? SQLITE_DONE)
      && match zErrMsg (pctx s) with None => true | Some _ => false end
   then m ← new_string (sqlite3ErrStr (rc (pctx s))); modify (set_msg m) else mret tt);;
  nErr ← hand_over_message nErr;
  s ← gets id;
  (if (0 <? nErr) && ((rc (pctx s) =? SQLITE_OK) || (rc (pctx s) =? SQLITE_DONE))
   then modify (set_rc SQLITE_ERROR) else mret tt);;
  s ← gets id;
  (if rc (pctx s) =? SQLITE_DONE then modify (set_rc SQLITE_OK) else mret tt);;
  mret nErr.

(** Both entry points; [fuel] bounds the number of tokens. *)
Definition run_parser (fuel : nat) (more : nat -> result bool) (zSql : list Z) : M run Z :=
  modify (on_ctx (fun c => MkCtx (Z.land (flags c) (Z.lnot SQLITE_Interrupt)) SQLITE_OK (zErrMsg c) (ctx_heap c)));;
  h ← gets run_heap;
  let '(ok, h) := sqlite3MallocRaw 1 h in
  modify (set_heap h);;
  if negb ok then mret SQLITE_NOMEM else
  modify (fun s => set_tail 0 (set_eng lemon_alloc s));;
  '(i, nErr, lastTokenParsed) ← parse_loop fuel more zSql 0 (-1);
  i ← rest_loop fuel more zSql i;
  conclude zSql i nErr lastTokenParsed.

(** A token has at least one byte. *)
Definition sqlite3RunParser (zSql : list Z) : M run Z := run_parser (S (length zSql)) (until_nul zSql) zSql.
Definition sqlite3RunParser1 (zSql : list Z) (sqlLen : Z) : M run Z := run_parser (S (length zSql)) (until_len sqlLen) zSql.
End Run.
End SqlParse.

Module SqlParseFacts.
Import Tk SqlToken SqlParse TokenFacts.

(** * Arrays *)

(** The elements of an array, in order. *)
Definition items {A} (a : garray A) : list (option A) := take (Z.to_nat (curSize a)) (default [] (cells a)).

(** The cells are as many as announced, and the size does not exceed them. *)
Definition arr_ok {A} (a : garray A) : Prop :=
  exists l, cells a = Some l /\ length l = Z.to_nat (allocSize a)
    /\ 0 <= curSize a <= allocSize a /\ 0 < allocSize a < 2 ^ 32.

Lemma put_next_run {A} (a : garray A) l alloc x :
  0 <= curSize a -> curSize a < alloc -> alloc < 2 ^ 32 -> length l = Z.to_nat alloc ->
  take (Z.to_nat (curSize a)) l = items a ->
  exists a', put_next a l alloc x = Ok a' /\ arr_ok a' /\ items a' = (items a ++ [Some x])%list
    /\ curSize a' = curSize a + 1.
Proof.
  intros H0 Hlt Hmax Hl Hi. unfold put_next. destruct (Nat.ltb_spec (Z.to_nat (curSize a)) (length l)); [|lia].
  eexists. split; [done|]. assert (u32 (curSize a + 1) = curSize a + 1) as Eu by (apply wrap_small; lia).
  rewrite Eu. split; [|split; [|done]].
  - eexists. split; [done|]. cbn [allocSize curSize]. rewrite length_insert. lia.
  - unfold items at 1. cbn [cells curSize default from_option id]. rewrite Z2Nat.inj_add, Nat.add_1_r by lia.
    rewrite (take_S_r _ _ (Some x)) by (by apply list_lookup_insert_eq).
    by rewrite take_insert_ge, Hi by lia.
Qed.

Lemma append_run {A} (a : garray A) x : arr_ok a -> curSize a < 2 ^ 31 ->
  exists a', sqlite3TokenArrayAppend a x plenty = Ok (a', plenty) /\ arr_ok a'
    /\ items a' = (items a ++ [Some x])%list /\ curSize a' = curSize a + 1.
Proof.
  intros (l & Ec & El & Hs & Ha) Hc. unfold sqlite3TokenArrayAppend. rewrite Ec.
  destruct (Z.leb_spec (allocSize a) (curSize a)).
  - assert (u32 (allocSize a * 2) = allocSize a * 2) as -> by (apply wrap_small; lia).
    unfold sqlite3Realloc, os_alloc, plenty. cbn [sqlite3MallocFailed mallocHasFailed answers].
    edestruct (put_next_run a (resize l (Z.to_nat (allocSize a * 2))) (allocSize a * 2) x) as (a' & -> & Hok);
      [lia|lia|lia| | |by exists a'].
    + unfold resize. rewrite length_take, length_app, length_replicate. lia.
    + unfold items, resize. rewrite Ec. cbn [default from_option id]. rewrite take_take, Nat.min_l by lia.
      apply take_app_le. lia.
  - edestruct (put_next_run a l (allocSize a) x) as (a' & -> & Hok); [lia|lia|lia|done|unfold items; by rewrite Ec|by exists a'].
Qed.

(** * Scanning *)

(** The tokens between two positions, as [getToken] sees them one after the other. *)
Inductive scanned (z : list Z) : nat -> nat -> list TokenItem -> Prop :=
| scanned_nil i : scanned z i i []
| scanned_cons i j c t n l :
    rd z i = Ok c -> c <> 0 -> getToken (drop i z) = Ok (t, n) -> scanned z (i + n) j l ->
    scanned z i j (MkItem (MkToken i n) t :: l).

(** What is recorded: everything but white space. *)
Definition recorded (l : list TokenItem) : list TokenItem := filter (fun it => tokenType it <> TK_SPACE) l.

Lemma text_suffix u i : (i <= length u)%nat -> drop i (u ++ [0]) = drop i u ++ [0].
Proof. apply drop_text. Qed.

Lemma last_drop {A} (u : list A) i : (i < length u)%nat -> last (drop i u) = last u.
Proof.
  revert i. induction u as [|c u IH]; intros i Hi; [simpl in Hi; lia|]. destruct i as [|i]; [done|].
  simpl in Hi. cbn [skipn]. rewrite IH by lia. by destruct u; [simpl in Hi; lia|].
Qed.

(** Unless an exclamation mark ends it, a text is scanned to its end, and every token takes at
    least one byte. *)
Lemma scan_text u : text u -> last u <> Some 33 -> forall k i, (length u - i <= k)%nat -> (i <= length u)%nat ->
  exists l, scanned (u ++ [0]) i (length u) l /\ (length l <= length u - i)%nat.
Proof.
  intros Hu Hl. induction k as [|k IH]; intros i Hk Hi.
  - replace i with (length u) by lia. exists []. split; [constructor|simpl; lia].
  - destruct (decide (i = length u)) as [->|Hne]; [exists []; split; [constructor|simpl; lia]|].
    assert (length (drop i u) = length u - i)%nat as Hd by apply length_drop.
    destruct (getToken_bounds (drop i u) []) as (t & n & E & Hn & Hb); [by apply text_drop|intros E0; rewrite E0 in Hd; simpl in Hd; lia|].
    destruct Hb as [Hb|(Hb & _)]; [|exfalso; apply Hl; by rewrite <- (last_drop u i), Hb by lia].
    destruct (IH (i + n)%nat) as (l & Hs & Hll); [lia|lia|].
    exists (MkItem (MkToken i n) t :: l). split; [|simpl; lia].
    apply (scanned_cons _ _ _ (nth i u 0)); [by apply rd_text| |by rewrite text_suffix by lia|done].
    apply (proj1 (Forall_nth _ 0 u) Hu). lia.
Qed.

(** * The loops *)

Section Loops.
Context `{LP : LemonParser} (z : list Z) `{LS : !LemonSafe LP z}.

(** Memory is there, and the array of tokens has room for [k] more below its limit. *)
Definition room (k : nat) (s : run) : Prop :=
  run_heap s = plenty /\ arr_ok (tokens s) /\ curSize (tokens s) + Z.of_nat k <= 2 ^ 31.

(** The parser can be fed [k] more tokens and the two that end the input. *)
Definition hungry (k : nat) (s : run) : Prop :=
  (tk_z (sLastToken s) + tk_n (sLastToken s) < length z)%nat
  /\ exists n, settled n (eng s) (presults s) /\ (n + k + 2 <= max_tokens)%nat.

Definition ready (k : nat) (s : run) : Prop := room k s /\ hungry k s.

(** A token that lies in the statement, and is white space, illegal or one to feed. *)
Definition edible (it : TokenItem) : Prop :=
  (tk_z (ti_token it) + tk_n (ti_token it) < length z)%nat
  /\ (tokenType it = TK_SPACE \/ tokenType it = TK_COMMENT \/ tokenType it = TK_ILLEGAL
      \/ feedable (tokenType it)).

(** [s'] has recorded [l] behind what [s] had. *)
Definition extends (s s' : run) (l : list TokenItem) : Prop :=
  items (tokens s') = (items (tokens s) ++ map Some (recorded l))%list.

Lemma extends_trans s1 s2 s3 l l' : extends s1 s2 l -> extends s2 s3 l' -> extends s1 s3 (l ++ l').
Proof. unfold extends, recorded. intros E1 E2. by rewrite E2, E1, filter_app, map_app, app_assoc. Qed.

Lemma extends_same s s' : tokens s' = tokens s -> extends s s' [].
Proof. unfold extends. intros ->. by rewrite app_nil_r. Qed.

Lemma next_token_run i t n k s : getToken (drop i z) = Ok (t, n) -> room (S k) s ->
  wp (next_token z i) (fun r s' => r = (t, (i + n)%nat) /\ room k s' /\ extends s s' [MkItem (MkToken i n) t]
    /\ pctx s' = pctx s /\ sLastToken s' = MkToken i n /\ eng s' = eng s /\ presults s' = presults s) s.
Proof.
  intros E (Hh & Ha & Hc). unfold next_token. wp_step. eapply wp_reads; [exact E|]. cbv beta iota.
  wp_step. wp_step. wp_step. unfold extends, recorded. rewrite filter_cons, filter_nil. cbn [tokenType].
  destruct (Z.eqb_spec t TK_SPACE) as [->|Ht].
  - wp_step. wp_step. rewrite decide_False by tauto. split_and!; try done; [split; [done|]; cbn [tokens set_last]; split; [done|lia]|].
    cbn [tokens set_last]. by rewrite app_nil_r.
  - destruct (append_run (tokens s) (MkItem (MkToken i n) t) Ha) as (a' & Ea & Ha' & Hi & Hs); [lia|].
    unfold append_token. wp_step. wp_step. cbn [id]. wp_step.
    eapply wp_reads; [unfold run_heap in *; cbn [tokens set_last pctx]; rewrite Hh; exact Ea|]. cbv beta iota.
    wp_step. wp_step. rewrite decide_True by done. split_and!; try done.
    + split; [done|]. cbn [tokens set_heap set_tokens on_ctx]. split; [done|]. lia.
    + cbn [pctx set_heap set_tokens set_last on_ctx]. unfold run_heap in Hh. destruct (pctx s); simpl in *. by rewrite Hh.
Qed.

Lemma hungry_token i n k s s' : hungry (S k) s -> (i + n < length z)%nat ->
  sLastToken s' = MkToken i n -> eng s' = eng s -> presults s' = presults s -> hungry (S k) s'.
Proof. intros [_ Hn] Hi Hl He Hr. split; [by rewrite Hl|]. by rewrite He, Hr. Qed.

Lemma hungry_less k s : hungry (S k) s -> hungry k s.
Proof. intros [Hl (n & Hn & Hm)]. split; [done|]. exists n. split; [done|lia]. Qed.

(** What leaves tokens and memory alone. *)
Definition aside (s s' : run) : Prop := tokens s' = tokens s /\ run_heap s' = plenty.

Lemma aside_room k s s' : aside s s' -> room k s -> room k s'.
Proof. unfold room. by intros [-> ->] (_ & ? & ?). Qed.

Lemma aside_extends s s1 s2 l : extends s s1 l -> aside s1 s2 -> extends s s2 l.
Proof. unfold extends. by intros E [-> _]. Qed.

(** What leaves the parser alone, too. *)
Definition kept (s s' : run) : Prop :=
  sLastToken s' = sLastToken s /\ eng s' = eng s /\ presults s' = presults s.

Lemma kept_hungry k s s' : kept s s' -> hungry k s -> hungry k s'.
Proof. unfold hungry. by intros (-> & -> & ->). Qed.

Lemma new_string_run text s : run_heap s = plenty ->
  wp (new_string text) (fun m s' => m = Some text /\ s' = set_heap plenty s) s.
Proof.
  intros Hh. unfold new_string. wp_step. wp_step. rewrite Hh. unfold sqlite3MallocRaw.
  destruct (Z.ltb_spec 0 (Z.of_nat (length text) + 1)); [|lia]. cbn [andb negb sqlite3MallocFailed plenty mallocHasFailed os_alloc answers].
  wp_step. wp_step. wp_step. done.
Qed.

Lemma set_out_string_run text s : run_heap s = plenty ->
  wp (set_out_string text) (fun _ s' => aside s s' /\ kept s s') s.
Proof.
  intros Hh. unfold set_out_string. wp_step. wp_step. destruct (err_out s); [|by wp_step].
  wp_step. eapply wp_mono, new_string_run, Hh. intros m s' [-> ->]. by wp_step.
Qed.

(** Feeding a token. *)
Lemma parser_run code k s : run_heap s = plenty -> hungry (S k) s -> feedable code ->
  wp (parser z code) (fun _ s' => aside s s' /\ hungry k s') s.
Proof.
  intros Hh [Hl (n & Hn & Hm)] Hf. unfold parser. wp_step. wp_step. cbn [id].
  destruct (settled_step n (eng s) code (sLastToken s) (pctx s) (presults s)) as (e & c & r & E & Hs & Hp); [done|lia|done|done|done|].
  wp_step. eapply wp_reads; [exact E|]. cbv beta iota. wp_step. split; [done|]. split; [done|].
  exists (S n). split; [done|lia].
Qed.

Lemma until_nul_more i c : rd z i = Ok c -> c <> 0 -> until_nul z i = Ok true.
Proof. intros E Hc. unfold until_nul. rewrite E. cbn [mbind result_bind]. by destruct (Z.eqb_spec c 0). Qed.

(** Entering an iteration. *)
Lemma loop_guard {A} i (s : run) (stop : M run A) (body : M run A) : run_heap s = plenty -> until_nul z i = Ok true ->
  (s ← gets id;
   if sqlite3MallocFailed (run_heap s) then stop else
   go ← reads (fun _ => until_nul z i);
   if negb go then stop else body) s = body s.
Proof.
  intros Hh Hm. unfold_M. cbn [id]. rewrite Hh. cbn [sqlite3MallocFailed plenty mallocHasFailed]. by rewrite Hm.
Qed.

(** One iteration goes on to the next token or leaves the loop behind this one. *)
Lemma parse_step fuel i c t n last k s :
  rd z i = Ok c -> c <> 0 -> getToken (drop i z) = Ok (t, n) -> edible (MkItem (MkToken i n) t) -> ready (S k) s ->
  exists s', ready k s' /\ extends s s' [MkItem (MkToken i n) t]
    /\ ((exists last', parse_loop (S fuel) (until_nul z) z i last s = parse_loop fuel (until_nul z) z (i + n) last' s')
        \/ exists nErr last', parse_loop (S fuel) (until_nul z) z i last s = (Ok ((i + n)%nat, nErr, last'), s') /\ 0 <= nErr).
Proof.
  intros Hc Hc0 Ht [Hin Hfeed] [Hs Hy]. cbn [ti_token tokenType tk_z tk_n] in Hin, Hfeed.
  cbn [parse_loop]. rewrite loop_guard by (apply Hs || by eapply until_nul_more).
  destruct (wp_run _ _ _ (next_token_run i t n k s Ht Hs)) as (r & s1 & E1 & -> & Hs1 & He1 & _ & Hl1 & Hg1 & Hr1).
  pose proof (hungry_token i n k s s1 Hy Hin Hl1 Hg1 Hr1) as Hy1.
  rewrite (M_bind_run _ _ _ _ _ E1). cbv beta iota. rewrite (M_bind_run _ _ s1 s1 s1) by done.
  assert (forall s2, aside s1 s2 -> hungry k s2 -> ready k s2 /\ extends s s2 [MkItem (MkToken i n) t]) as Haside.
  { intros s2 H2 Hy2. split; [split; [by eapply aside_room|done]|by eapply aside_extends]. }
  pose proof (proj1 Hs1) as Hh1.
  destruct ((t =? TK_SPACE) || (t =? TK_COMMENT)) eqn:Esp.
  { destruct (negb _); [|exists s1; split; [by split; [|apply hungry_less]|]; split; [done|]; left; by exists last].
    set (s2 := set_rc SQLITE_INTERRUPT s1).
    destruct (wp_run _ _ _ (set_out_string_run (bytes_of "interrupt") s2 Hh1)) as (u & s3 & E3 & H3 & K3).
    exists s3. destruct (Haside s3 H3) as [? ?]; [eapply kept_hungry; [exact K3|by apply hungry_less in Hy1]|].
    split; [done|]. split; [done|]. right. exists 0, last.
    rewrite (M_bind_run _ _ s1 tt s2) by done. by rewrite (M_bind_run _ _ _ _ _ E3). }
  destruct (Z.eqb_spec t TK_ILLEGAL) as [Eil|Eil].
  { destruct (wp_run _ _ _ (set_out_string_run (unrecognized z (sLastToken s1)) s1 Hh1)) as (u & s3 & E3 & H3 & K3).
    exists s3. destruct (Haside s3 H3) as [? ?]; [eapply kept_hungry; [exact K3|by apply hungry_less]|].
    split; [done|]. split; [done|]. right. exists 1, last.
    by rewrite (M_bind_run _ _ _ _ _ E3). }
  set (s2 := if t =? TK_SEMI then set_tail (i + n) s1 else s1).
  rewrite (M_bind_run _ _ s1 tt s2) by (by unfold s2; destruct (t =? TK_SEMI)).
  assert (run_heap s2 = plenty) as Hh2 by (by unfold s2; destruct (t =? TK_SEMI)).
  assert (hungry (S k) s2) as Hy2 by (by unfold s2; destruct (t =? TK_SEMI)).
  assert (feedable t) as Hf.
  { apply orb_false_iff in Esp as [E1' E2']. rewrite Z.eqb_neq in E1', E2'. tauto. }
  destruct (wp_run _ _ _ (parser_run t k s2 Hh2 Hy2 Hf)) as (u & s3 & E3 & H3 & Hy3).
  rewrite (M_bind_run _ _ _ _ _ E3), (M_bind_run _ _ s3 s3 s3) by done.
  exists s3. destruct (Haside s3) as [? ?]; [|done|].
  { destruct H3 as [H3 H3']. split; [|done]. rewrite H3. by unfold s2; destruct (t =? TK_SEMI). }
  split; [done|]. split; [done|]. destruct (negb _); [right; by exists 0, t|left; by exists t].
Qed.

(** The whole main loop: through to [j], or left behind the tokens [l1]. *)
Lemma parse_loop_run j l : forall fuel i last k s, scanned z i j l -> Forall edible l -> ready (length l + k) s ->
  exists s' m l1 l2, l = (l1 ++ l2)%list /\ scanned z m j l2 /\ ready (length l2 + k) s' /\ extends s s' l1
    /\ ((l2 = [] /\ exists last', parse_loop (length l + fuel) (until_nul z) z i last s = parse_loop fuel (until_nul z) z j last' s')
        \/ exists nErr last', parse_loop (length l + fuel) (until_nul z) z i last s = (Ok (m, nErr, last'), s') /\ 0 <= nErr).
Proof.
  induction l as [|it l IH]; intros fuel i last k s Hsc Hed Hs; inversion Hsc as [|? ? c t n ? Hc Hc0 Ht Hsc']; subst.
  - exists s, j, [], []. split; [done|]. split; [constructor|]. split; [done|]. split; [by apply extends_same|].
    left. split; [done|]. by exists last.
  - apply Forall_cons in Hed as [Hed1 Hed].
    destruct (parse_step (length l + fuel) i c t n last (length l + k) s Hc Hc0 Ht Hed1 Hs) as (s1 & Hs1 & He1 & [(last1 & E1)|(nErr & last1 & E1 & Hn)]).
    + destruct (IH fuel _ last1 k s1 Hsc' Hed Hs1) as (s' & m & l1 & l2 & -> & Hm & Hs' & He' & Hor).
      exists s', m, (MkItem (MkToken i n) t :: l1), l2. split; [done|]. split; [done|]. split; [done|].
      split; [by apply (extends_trans _ s1 _ [MkItem (MkToken i n) t])|].
      cbn [length Nat.add] in E1 |- *. rewrite E1. exact Hor.
    + exists s1, (i + n)%nat, [MkItem (MkToken i n) t], l. split; [done|]. split; [done|]. split; [done|]. split; [done|].
      right. exists nErr, last1. done.
Qed.

Lemma rest_loop_run j l : forall fuel i k s, scanned z i j l -> Forall edible l -> ready (length l + k) s ->
  exists s', rest_loop (length l + fuel) (until_nul z) z i s = rest_loop fuel (until_nul z) z j s'
    /\ ready k s' /\ extends s s' l.
Proof.
  induction l as [|it l IH]; intros fuel i k s Hsc Hed Hs; inversion Hsc as [|? ? c t n ? Hc Hc0 Ht Hsc']; subst.
  - exists s. split; [done|]. split; [done|by apply extends_same].
  - apply Forall_cons in Hed as [[Hin _] Hed]. destruct Hs as [Hs Hy].
    cbn [length Nat.add rest_loop]. rewrite loop_guard by (apply Hs || by eapply until_nul_more).
    destruct (wp_run _ _ _ (next_token_run i t n (length l + k) s Ht Hs)) as (r & s1 & E1 & -> & Hs1 & He1 & _ & Hl1 & Hg1 & Hr1).
    rewrite (M_bind_run _ _ _ _ _ E1). cbv beta iota.
    destruct (IH fuel _ k s1 Hsc' Hed) as (s' & E' & Hs' & He').
    { split; [done|]. apply hungry_less. by eapply hungry_token. }
    exists s'. split; [done|]. split; [done|].
    by apply (extends_trans _ s1 _ [MkItem (MkToken i n) t]).
Qed.

(** At the terminator both loops stop. *)
Lemma loop_stop {A} i (s : run) (stop : M run A) (body : M run A) : run_heap s = plenty -> rd z i = Ok 0 ->
  (s ← gets id;
   if sqlite3MallocFailed (run_heap s) then stop else
   go ← reads (fun _ => until_nul z i);
   if negb go then stop else body) s = stop s.
Proof.
  intros Hh Hm. unfold until_nul. unfold_M. cbn [id]. rewrite Hh. cbn [sqlite3MallocFailed plenty mallocHasFailed]. by rewrite Hm.
Qed.

(** Both loops together, on a text that is scanned to its end. *)
Lemma loops_run j l fuel k s last : scanned z 0 j l -> Forall edible l -> rd z j = Ok 0 -> ready (length l + k) s -> (length l < fuel)%nat ->
  exists s1 s2 i nErr last', parse_loop fuel (until_nul z) z 0 last s = (Ok (i, nErr, last'), s1)
    /\ rest_loop fuel (until_nul z) z i s1 = (Ok j, s2) /\ 0 <= nErr /\ ready k s2 /\ extends s s2 l.
Proof.
  intros Hsc Hed Hj Hs Hf.
  destruct (parse_loop_run j l (fuel - length l) 0 last k s Hsc Hed Hs) as (s1 & m & l1 & l2 & El & Hm & Hs1 & He1 & Hor).
  assert (exists s2, rest_loop fuel (until_nul z) z m s1 = (Ok j, s2) /\ ready k s2 /\ extends s s2 l) as (s2 & E2 & Hs2 & He2).
  { assert (Forall edible l2) as Hed2 by (rewrite El in Hed; by apply Forall_app in Hed as [_ ?]).
    destruct (rest_loop_run j l2 (fuel - length l2) m k s1 Hm Hed2 Hs1) as (s2 & E2 & Hs2 & He2). exists s2.
    assert (length l2 < fuel)%nat by (rewrite El, length_app in Hf; lia).
    replace (length l2 + (fuel - length l2))%nat with fuel in E2 by lia. rewrite E2.
    destruct (fuel - length l2)%nat as [|f] eqn:Ef; [lia|]. cbn [rest_loop].
    rewrite loop_stop by (apply Hs2 || done). split; [done|]. split; [done|]. rewrite El. by eapply extends_trans. }
  replace (length l + (fuel - length l))%nat with fuel in Hor by lia.
  destruct Hor as [(-> & last' & E)|(nErr & last' & E & Hn)].
  - assert (m = j) as -> by (by inversion Hm). exists s1, s2, j, 0, last'. rewrite E. destruct (fuel - length l)%nat as [|f] eqn:Ef; [lia|].
    cbn [parse_loop]. rewrite loop_stop by (apply Hs1 || done). done.
  - exists s1, s2, m, nErr, last'. done.
Qed.

Lemma finish_input_run i last s : run_heap s = plenty -> hungry 0 s ->
  wp (finish_input z i last) (fun _ s' => aside s s' /\ exists n, settled n (eng s') (presults s')) s.
Proof.
  intros Hh [Hl (n & Hn & Hm)]. unfold finish_input.
  (* two tokens are left *)
  assert (forall s0 code n0, run_heap s0 = plenty -> (tk_z (sLastToken s0) + tk_n (sLastToken s0) < length z)%nat ->
    settled n0 (eng s0) (presults s0) -> (n0 < max_tokens)%nat -> feedable code ->
    wp (parser z code) (fun _ s' => aside s0 s' /\ sLastToken s' = sLastToken s0 /\ settled (S n0) (eng s') (presults s')) s0) as Hfeed.
  { intros s0 code n0 Hh0 Hl0 Hn0 Hm0 Hf0. unfold parser. wp_step. wp_step. cbn [id].
    destruct (settled_step n0 (eng s0) code (sLastToken s0) (pctx s0) (presults s0)) as (e & c & r & E & Hs & Hp); [done|lia|done|done|done|].
    wp_step. eapply wp_reads; [exact E|]. cbv beta iota. by wp_step. }
  wp_step.
  assert (wp (if negb (last =? TK_SEMI) then parser z TK_SEMI;; modify (set_tail i) else mret tt)
    (fun _ s' => aside s s' /\ sLastToken s' = sLastToken s /\ exists n', settled n' (eng s') (presults s') /\ (n' < max_tokens)%nat) s) as H.
  { destruct (negb _); [|wp_step; split; [done|]; split; [done|]; exists n; split; [done|lia]]. wp_step.
    eapply wp_mono, (Hfeed s TK_SEMI n Hh Hl Hn ltac:(lia) feedable_semi). intros [] s' (H' & Hl' & Hs'). wp_step.
    split; [done|]. split; [done|]. exists (S n). split; [done|lia]. }
  eapply wp_mono, H. intros [] s1 ([Ht Hh1] & Hl1 & n1 & Hn1 & Hm1).
  eapply wp_mono, (Hfeed s1 0 n1 Hh1 ltac:(by rewrite Hl1) Hn1 Hm1 feedable_end). intros [] s2 ([Ht2 Hh2] & _ & Hs2).
  split; [by split; [rewrite Ht2|]|]. by exists (S n1).
Qed.

Lemma hand_over_run nErr s : run_heap s = plenty -> 0 <= nErr ->
  wp (hand_over_message nErr) (fun r s' => aside s s' /\ kept s s' /\ rc (pctx s') = rc (pctx s)
    /\ (r = 0 <-> nErr = 0 /\ zErrMsg (pctx s) = None) /\ 0 <= r) s.
Proof.
  intros Hh Hn. unfold hand_over_message. wp_step. wp_step. cbn [id]. destruct (zErrMsg (pctx s)) as [m|].
  - wp_step. assert (wp (match err_out s with Some None => modify (set_out (Some (Some m))) | _ => mret tt end)
      (fun _ s' => tokens s' = tokens s /\ kept s s' /\ pctx s' = pctx s) s) as H by (by destruct (err_out s) as [[]|]; wp_step).
    eapply wp_mono, H. intros [] s1 (Ht & Hk & Hc). wp_step. wp_step. wp_step. unfold aside, run_heap in *. cbn. rewrite Ht, Hc.
    split; [done|]. split; [exact Hk|]. split; [done|]. destruct (Z.eqb_spec nErr 0); split; [split; [lia|by intros []]|lia|split; [lia|by intros []]|lia].
  - wp_step. split; [done|]. split; [done|]. split; [done|]. split; [tauto|done].
Qed.

(** What the end of [sqlite3RunParser] makes of the error code. *)
Lemma conclude_run i nErr last s : run_heap s = plenty -> hungry 0 s -> rd z i = Ok 0 -> 0 <= nErr ->
  wp (conclude z i nErr last) (fun r s' => tokens s' = tokens s /\ run_heap s' = plenty
    /\ (exists n, settled n (eng s') (presults s')) /\ (r = 0 <-> rc (pctx s') = SQLITE_OK)) s.
Proof.
  intros Hh Hy Hi Hn. unfold conclude. wp_step. eapply wp_reads; [exact Hi|]. wp_step. wp_step. cbn [id]. wp_step.
  assert (wp (if (0 =? 0) && (nErr =? 0) && (rc (pctx s) =? SQLITE_OK) then finish_input z i last else mret tt)
    (fun _ s' => aside s s' /\ exists n, settled n (eng s') (presults s')) s) as H1.
  { destruct (_ && _); [by apply finish_input_run|]. wp_step. split; [done|]. destruct Hy as [_ (n & ? & _)]. by exists n. }
  eapply wp_mono, H1. intros [] s1 ([Ht1 Hh1] & n1 & Hn1). wp_step. eapply wp_reads; [by eapply settled_free|].
  wp_step. wp_step. cbn [id]. rewrite Hh1.
  cbn [sqlite3MallocFailed plenty mallocHasFailed]. wp_step. wp_step. wp_step. wp_step. cbn [id]. wp_step.
  assert (wp (if negb (rc (pctx s1) =? SQLITE_OK) && negb (rc (pctx s1) =? SQLITE_DONE)
      && match zErrMsg (pctx s1) with None => true | Some _ => false end
    then m ← new_string (sqlite3ErrStr (rc (pctx s1))); modify (set_msg m) else mret tt)
    (fun _ s' => aside s1 s' /\ kept s1 s' /\ rc (pctx s') = rc (pctx s1)
      /\ (zErrMsg (pctx s') = None -> rc (pctx s1) = SQLITE_OK \/ rc (pctx s1) = SQLITE_DONE)) s1) as H2.
  { destruct (Z.eqb_spec (rc (pctx s1)) SQLITE_OK); [cbn [negb andb]; apply wp_ret; repeat (split; [done|]); auto|].
    destruct (Z.eqb_spec (rc (pctx s1)) SQLITE_DONE); [cbn [negb andb]; apply wp_ret; repeat (split; [done|]); auto|]. cbn [negb andb].
    destruct (zErrMsg (pctx s1)) eqn:Em; [apply wp_ret; repeat (split; [done|]); by rewrite Em|]. wp_step.
    eapply wp_mono, new_string_run, Hh1. intros m s' [-> ->]. by wp_step. }
  eapply wp_mono, H2. intros [] s2 ([Ht2 Hh2] & (_ & Eg2 & Er2) & Hrc2 & Hmsg2). wp_step.
  eapply wp_mono, (hand_over_run nErr s2 Hh2 Hn). intros r s3 ([Ht3 Hh3] & (_ & Eg3 & Er3) & Hrc3 & Hr & Hr0).
  wp_step. wp_step. cbn [id]. wp_step.
  assert (tokens s3 = tokens s) as Ht by (by rewrite Ht3, Ht2, Ht1).
  assert (settled n1 (eng s3) (presults s3)) as Hn3 by (by rewrite Eg3, Er3, Eg2, Er2).
  assert (r = 0 -> rc (pctx s3) = SQLITE_OK \/ rc (pctx s3) = SQLITE_DONE) as Hok.
  { intros [_ Hz]%Hr. rewrite Hrc3, Hrc2. auto. }
  unfold SQLITE_OK, SQLITE_DONE, SQLITE_ERROR in *.
  destruct (Z.ltb_spec 0 r), (Z.eqb_spec (rc (pctx s3)) 0) as [E0|E0], (Z.eqb_spec (rc (pctx s3)) 101) as [E1|E1]; cbn [andb orb];
    repeat (wp_step; cbn [id]); cbn [pctx tokens set_rc on_ctx rc] in *; rewrite ?Z.eqb_eq, ?Z.eqb_neq in *; try lia; (split; [done|]; split; [exact Hh3|]; split; [by exists n1|lia]).
Qed.

(** The preamble of [sqlite3RunParser]. *)
Definition prepared (s : run) : run :=
  set_tail 0 (set_eng lemon_alloc
    (set_heap plenty (on_ctx (fun c => MkCtx (Z.land (flags c) (Z.lnot SQLITE_Interrupt)) SQLITE_OK (zErrMsg c) (ctx_heap c)) s))).

Lemma run_parser_loops fuel more s : run_heap s = plenty ->
  run_parser fuel more z s = ('(i, nErr, last) ← parse_loop fuel more z 0 (-1);
                              i ← rest_loop fuel more z i;
                              conclude z i nErr last) (prepared s).
Proof. intros Hh. unfold run_heap in Hh. unfold run_parser. unfold_M. unfold run_heap. cbn. by rewrite Hh. Qed.

(** Scanning takes at least a byte per token. *)
Lemma scanned_step u i c t n : text u -> rd (u ++ [0]) i = Ok c -> c <> 0 -> getToken (drop i (u ++ [0])) = Ok (t, n) ->
  (0 < n)%nat.
Proof.
  intros Hu Hc Hc0 Ht.
  assert (i < length u)%nat as Hi.
  { unfold rd in Hc. destruct ((u ++ [0]) !! i) as [c'|] eqn:E; [|done]. injection Hc as ->.
    pose proof (lookup_lt_Some _ _ _ E) as Hlt. rewrite length_app in Hlt. simpl in Hlt.
    destruct (decide (i = length u)) as [->|]; [|lia]. rewrite list_lookup_middle in E by done. congruence. }
  rewrite text_suffix in Ht by lia.
  destruct (getToken_bounds (drop i u) []) as (t' & n' & E & Hn & _); [by apply text_drop| |].
  { intros E0. pose proof (length_drop u i) as Hd. rewrite E0 in Hd. simpl in Hd. lia. }
  rewrite E in Ht. injection Ht as -> ->. lia.
Qed.

Lemma scanned_length u i j l : text u -> scanned (u ++ [0]) i j l -> (i + length l <= j)%nat.
Proof.
  intros Hu. induction 1 as [|i j c t n l Hc Hc0 Ht _ IH]; [simpl; lia|].
  pose proof (scanned_step u i c t n Hu Hc Hc0 Ht). simpl. lia.
Qed.

(** The tokens end where the scan does, or before. *)
Lemma scanned_inside u i j l : text u -> scanned (u ++ [0]) i j l ->
  Forall (fun it => (tk_z (ti_token it) + tk_n (ti_token it) <= j)%nat) l.
Proof.
  intros Hu. induction 1 as [|i j c t n l Hc Hc0 Ht Hsc IH]; [done|]. constructor; [|done]. simpl.
  pose proof (scanned_length u _ _ _ Hu Hsc). lia.
Qed.
End Loops.

(** The kinds of the tokens of a statement. *)
Definition all_feedable {LP : LemonParser} {z} {LS : LemonSafe LP z} (l : list TokenItem) : Prop :=
  Forall (fun it => tokenType it = TK_SPACE \/ tokenType it = TK_COMMENT \/ tokenType it = TK_ILLEGAL
                    \/ feedable (tokenType it)) l.

Lemma scanned_edible u `{LS : !LemonSafe LP (u ++ [0])} i j l : text u -> scanned (u ++ [0]) i j l -> (j <= length u)%nat ->
  all_feedable l -> Forall (edible (u ++ [0])) l.
Proof.
  intros Hu Hsc Hj Hf. pose proof (scanned_inside u i j l Hu Hsc) as Hin. apply Forall_forall. intros it Hit.
  unfold all_feedable in Hf. rewrite Forall_forall in Hf, Hin. specialize (Hf it Hit). specialize (Hin it Hit). cbv beta in *.
  split; [|done]. rewrite length_app. simpl. lia.
Qed.

(** The parser is about to be started on [u], with room for [k] tokens. *)
Definition startable `{LP : LemonParser} (u : list Z) `{LS : !LemonSafe LP (u ++ [0])} (k : nat) (s : run) : Prop :=
  room k s /\ (tk_z (sLastToken s) + tk_n (sLastToken s) <= length u)%nat /\ results_ok (presults s)
  /\ (k + 2 <= max_tokens)%nat.

Lemma prepared_ready `{LP : LemonParser} u `{LS : !LemonSafe LP (u ++ [0])} k s : startable u k s -> ready (u ++ [0]) k (prepared s).
Proof.
  intros ((Hh & Ha & Hc) & Hl & Hr & Hk). split; [by split; [|split]|]. split; [cbn; rewrite length_app; simpl; lia|].
  exists 0%nat. split; [by apply settled_alloc|lia].
Qed.

Section Statements.
Context `{LP : LemonParser}.

(** A run over a text: what is recorded, and that the parser is still in order. *)
Lemma records (u : list Z) (LS : LemonSafe LP (u ++ [0])) (s : run) :
  text u -> last u <> Some 33 -> startable u (length u) s ->
  (forall l, scanned (u ++ [0]) 0 (length u) l -> all_feedable l) ->
  exists nErr s' l, sqlite3RunParser (u ++ [0]) s = (Ok nErr, s') /\ scanned (u ++ [0]) 0 (length u) l
    /\ items (tokens s') = (items (tokens s) ++ map Some (recorded l))%list
    /\ run_heap s' = plenty /\ (exists n, settled n (eng s') (presults s'))
    /\ (nErr = 0 <-> rc (pctx s') = SQLITE_OK).
Proof.
  intros Hu Hl Hst Hf. destruct (scan_text u Hu Hl (length u) 0) as (l & Hsc & Hlen); [lia|lia|].
  assert (rd (u ++ [0]) (length u) = Ok 0) as Hend by (by apply SqlUtilFacts.rd_middle).
  unfold sqlite3RunParser. rewrite run_parser_loops by apply Hst.
  pose proof (scanned_edible u 0 (length u) l Hu Hsc (le_n _) (Hf l Hsc)) as Hed.
  destruct (loops_run (u ++ [0]) (length u) l (S (length (u ++ [0]))) (length u - length l) (prepared s) (-1))
    as (s1 & s2 & i & nErr & last & E1 & E2 & Hn & Hs2 & He2);
    [done|done|done| |rewrite length_app; simpl; lia|].
  { replace (length l + (length u - length l))%nat with (length u) by lia. by apply prepared_ready. }
  destruct Hs2 as [Hs2 Hy2].
  assert (hungry (u ++ [0]) 0 s2) as Hy0.
  { destruct Hy2 as [? (n & ? & ?)]. split; [done|]. exists n. split; [done|lia]. }
  destruct (wp_run _ _ _ (conclude_run (u ++ [0]) (length u) nErr last s2 (proj1 Hs2) Hy0 Hend Hn)) as (r & s3 & E3 & Ht & Hrest).
  exists r, s3, l. rewrite (M_bind_run _ _ _ _ _ E1). cbv beta iota. rewrite (M_bind_run _ _ _ _ _ E2), E3.
  split; [done|]. split; [done|]. split; [rewrite Ht; exact He2|exact Hrest].
Qed.


(** Behind the end of the string both loops are undefined. *)
Lemma loop_undef {A} z i (s : run) (stop : M run A) (body : M run A) : run_heap s = plenty -> rd z i = Undef ->
  (s ← gets id;
   if sqlite3MallocFailed (run_heap s) then stop else
   go ← reads (fun _ => until_nul z i);
   if negb go then stop else body) s = (Undef, s).
Proof.
  intros Hh Hm. unfold until_nul. unfold_M. cbn [id]. rewrite Hh. cbn [sqlite3MallocFailed plenty mallocHasFailed]. by rewrite Hm.
Qed.

(** The main loop stops at an illegal token, wherever it ends. *)
Lemma illegal_step z fuel i c n last k s :
  rd z i = Ok c -> c <> 0 -> getToken (drop i z) = Ok (TK_ILLEGAL, n) -> room (S k) s ->
  exists s', room k s' /\ parse_loop (S fuel) (until_nul z) z i last s = (Ok ((i + n)%nat, 1, last), s').
Proof.
  intros Hc Hc0 Ht Hs. cbn [parse_loop]. rewrite loop_guard by (apply Hs || by eapply until_nul_more).
  destruct (wp_run _ _ _ (next_token_run z i TK_ILLEGAL n k s Ht Hs)) as (r & s1 & E1 & -> & Hs1 & _).
  rewrite (M_bind_run _ _ _ _ _ E1). cbv beta iota. rewrite (M_bind_run _ _ s1 s1 s1) by done.
  change ((TK_ILLEGAL =? TK_SPACE) || (TK_ILLEGAL =? TK_COMMENT)) with false. change (TK_ILLEGAL =? TK_ILLEGAL) with true. cbv iota.
  destruct (wp_run _ _ _ (set_out_string_run (unrecognized z (sLastToken s1)) s1 (proj1 Hs1))) as (v & s3 & E3 & H3 & _).
  exists s3. split; [by eapply aside_room|]. by rewrite (M_bind_run _ _ _ _ _ E3).
Qed.

(** The second loop, from a position of the statement on. *)
Lemma rest_overrun z `{LS : !LemonSafe LP z} i j c t n l fuel s : scanned z i j l -> Forall (edible z) l -> ready z (S (length l)) s ->
  rd z j = Ok c -> c <> 0 -> getToken (drop j z) = Ok (t, n) -> rd z (j + n) = Undef ->
  exists s', rest_loop (length l + S (S fuel)) (until_nul z) z i s = (Undef, s').
Proof.
  intros Hsc Hed Hs Hc Hc0 Ht He.
  destruct (rest_loop_run z j l (S (S fuel)) i 1 s Hsc Hed) as (s1 & E1 & [Hs1 _] & _); [by rewrite Nat.add_1_r|].
  rewrite E1. cbn [rest_loop]. rewrite loop_guard by (apply Hs1 || by eapply until_nul_more).
  destruct (wp_run _ _ _ (next_token_run z j t n 0 s1 Ht Hs1)) as (r & s2 & E2 & -> & Hs2 & _).
  rewrite (M_bind_run _ _ _ _ _ E2). cbv beta iota. rewrite loop_undef by (apply Hs2 || done). by exists s2.
Qed.

Lemma M_bind_undef {S A B} (m : M S A) (f : A -> M S B) s s1 : m s = (Undef, s1) -> (m ≫= f) s = (Undef, s1).
Proof. unfold mbind, M_bind. by intros ->. Qed.

(** An exclamation mark at the end of a statement makes the linter read past the string.  Where
    the tokens of the statement reach up to a final exclamation mark, the length 2 that
    [getToken] returns for it steps over the terminator; unlike the parser loop, which stops at
    the illegal token, the loop behind [abort_parse] goes on and tests the byte behind the end
    of the string, for every parser that keeps the promises of [LemonSafe]. *)
Theorem run_parser_overrun (u : list Z) (LS : LemonSafe LP (u ++ [0])) (i : nat) (l : list TokenItem) (s : run) :
  text u -> scanned (u ++ [0]) 0 i l -> all_feedable l -> drop i u = [33] -> startable u (S (length l)) s ->
  exists s', sqlite3RunParser (u ++ [0]) s = (Undef, s').
Proof.
  intros Hu Hsc Hf H33 Hst. pose proof (scanned_length u 0 i l Hu Hsc) as Hll.
  assert (length u = i + 1)%nat as Hlen.
  { pose proof (length_drop u i) as Hd. rewrite H33 in Hd. simpl in Hd. lia. }
  pose proof (scanned_edible u 0 i l Hu Hsc ltac:(lia) Hf) as Hed.
  pose proof (prepared_ready u _ s Hst) as Hs. assert (run_heap s = plenty) as Hh by apply Hst.
  set (z := (u ++ [0])%list) in *.
  assert (getToken (drop i z) = Ok (TK_ILLEGAL, 2%nat)) as Ht by (unfold z; by rewrite text_suffix, H33 by lia).
  assert (rd z i = Ok 33) as H33'.
  { unfold rd, z. rewrite <- (Nat.add_0_r i), <- lookup_drop, text_suffix, H33 by lia. done. }
  assert (rd z (i + 2) = Undef) as Hend.
  { unfold rd. rewrite lookup_ge_None_2; [done|]. unfold z. rewrite length_app. simpl. lia. }
  assert (exists fuel, S (length z) = length l + S (S fuel))%nat as [fuel Ef].
  { exists (length u - length l)%nat. unfold z. rewrite length_app. simpl. lia. }
  unfold sqlite3RunParser. fold z. rewrite run_parser_loops by done. rewrite Ef.
  rewrite <- Nat.add_1_r in Hs.
  destruct (parse_loop_run z i l (S (S fuel)) 0 (-1) 1 (prepared s) Hsc Hed Hs) as (s1 & m & l1 & l2 & El & Hm & Hs1 & _ & Hor).
  rewrite Nat.add_1_r in Hs1.
  assert (length l + S (S fuel) = length l2 + S (S (length l1 + fuel)))%nat as Ef2 by (rewrite El, length_app; lia).
  destruct Hor as [(-> & last & E)|(nErr & last & E & _)].
  - destruct (illegal_step z (S fuel) i 33 2 last 0 s1 H33' ltac:(done) Ht (proj1 Hs1)) as (s2 & Hs2 & E2).
    exists s2. rewrite E2 in E. rewrite (M_bind_run _ _ _ _ _ E). cbv beta iota. apply M_bind_undef.
    replace (length l + S (S fuel))%nat with (S (length l + S fuel)) by lia. cbn [rest_loop].
    by rewrite loop_undef by (apply Hs2 || done).
  - assert (Forall (edible z) l2) as Hed2 by (rewrite El in Hed; by apply Forall_app in Hed as [_ ?]).
    destruct (rest_overrun z m i 33 TK_ILLEGAL 2 l2 (length l1 + fuel) s1 Hm Hed2 Hs1 H33' ltac:(done) Ht Hend) as [s2 E2].
    exists s2. rewrite (M_bind_run _ _ _ _ _ E). cbv beta iota. apply M_bind_undef. by rewrite Ef2.
Qed.
End Statements.

(** A parser that accepts everything. *)
#[local] Instance accepting : LemonParser := {|
  engine := unit;
  results := unit;
  lemon_alloc := tt;
  lemon_parse := fun _ e _ _ c r => Ok (e, c, r);
  lemon_free := fun _ => Ok tt
|}.

#[local] Instance accepting_safe z : LemonSafe accepting z.
Proof.
  refine {| feedable := fun _ => True; max_tokens := 100; results_ok := fun _ => True; settled := fun _ _ _ => True |}; try done.
  intros n e code t c r _ _ _ _ Hc. by exists e, c, r.
Defined.

Definition start : run :=
  MkRun (MkCtx 0 0 None plenty) (MkToken 0 0) 0 (MkArray (Some (replicate 16 None)) 0 16) (Some None) tt tt.

Lemma start_startable u k : (k <= 98)%nat -> startable u k start.
Proof.
  intros Hk. split; [|split; [simpl; lia|split; [done|cbn; lia]]].
  split; [done|]. split; [by exists (replicate 16 None)|]. cbn. lia.
Qed.

Lemma accepting_feeds z l : all_feedable (z := z) l.
Proof. apply Forall_forall. intros it _. by right; right; right. Qed.


Lemma run_parser_overrun_witness :
  exists s', sqlite3RunParser (bytes_of "a!" ++ [0]) start = (Undef, s').
Proof.
  apply (run_parser_overrun (LP := accepting) (bytes_of "a!") (accepting_safe _) 1 [MkItem (MkToken 0 1) TK_ID]);
    [decide_now| |apply accepting_feeds|reflexivity|apply start_startable; simpl; lia].
  eapply (scanned_cons _ 0 1 97); [reflexivity|done|reflexivity|apply scanned_nil].
Defined.
End SqlParseFacts.
