(* ===== verification/SqlTree.v ===== *)
(** The trees that the actions of the SQL grammar build (sqlite-lint: lemon/expr.c, build.c,
    select.c, insert.c, update.c, delete.c and the data types of sqliteInt.h).

    Module [SqlTree] has the data types and one definition per function that an action of
    parse.c calls.  A pointer to a heap object is an [option]; objects are owned by one pointer
    at a time, so that trees are values.  The back pointers [pParent] and [pRightmost] and the
    fields that no action sets to anything but a constant (cursors, affinities, aggregate and
    schema data) are left out.  Freeing has no effect of its own here, but it reads the [dyn] bit
    of every token of a tree, and a bit that was never written has no value: [freeable] says
    that all of them were. *)
From S2P Require Import Prelude Machine Libc SqlUtil SqlToken SqlParse.

Module SqlTree.
Import Tk SqlToken SqlParse.

(** * Data *)

(** A pointer into the statement; [PIndet]: never written. *)
Inductive ptr :=
| PNull
| PText (i : nat)
| PIndet.

(** [struct Token]; [dyn] is [None] where it was never written. *)
Record Token := MkTok { t_z : ptr; t_dyn : option bool; t_n : Z }.

Record IdList := MkIdList { id_nAlloc : Z; id_a : list (option (list Z)) }.

Inductive Expr := MkExpr {
  e_op : Z;
  e_flags : Z;
  pLeft : option Expr;
  pRight : option Expr;
  pList : option ExprList;
  e_token : Token;
  span : Token;
  e_pSelect : option Select
}
with ExprList := MkExprList {
  el_nAlloc : Z;
  el_a : list ExprItem
}
with ExprItem := MkExprItem {
  ei_pExpr : option Expr;
  ei_zName : option (list Z);
  sortOrder : Z
}
with Select := MkSelect {
  pEList : option ExprList;
  s_op : Z;
  isDistinct : Z;
  pSrc : option SrcList;
  s_pWhere : option Expr;
  pGroupBy : option ExprList;
  pHaving : option Expr;
  pOrderBy : option ExprList;
  pPrior : option Select;
  s_pLimit : option Expr;
  s_pOffset : option Expr
}
with SrcList := MkSrcList {
  sl_nAlloc : Z;
  sl_a : list SrcItem
}
with SrcItem := MkSrcItem {
  zDatabase : option (list Z);
  zName : option (list Z);
  zAlias : option (list Z);
  si_pSelect : option Select;
  jointype : Z;
  pOn : option Expr;
  pUsing : option IdList;
  tableToken : Token;
  dbToken : Token
}.

Record ValuesList := MkValuesList { vl_nAlloc : Z; vl_a : list ExprList }.

Record Insert := MkInsert {
  i_pTabList : option SrcList;
  pSetList : option ExprList;
  pValuesList : option ValuesList;
  i_pSelect : option Select;
  pColumn : option IdList;
  i_onError : Z
}.

Record Delete := MkDelete {
  d_pTabList : option SrcList;
  d_pWhere : option Expr;
  d_pLimit : option Expr;
  d_pOffset : option Expr
}.

Record Update := MkUpdate {
  u_pTabList : option SrcList;
  pChanges : option ExprList;
  u_pWhere : option Expr;
  u_onError : Z;
  u_pLimit : option Expr;
  u_pOffset : option Expr
}.

Inductive SqlType :=
| SQLTYPE_UNKNOWN
| SQLTYPE_SELECT
| SQLTYPE_UPDATE
| SQLTYPE_INSERT
| SQLTYPE_REPLACE
| SQLTYPE_DELETE
| SQLTYPE_TRANSACTION_BEGIN
| SQLTYPE_TRANSACTION_START
| SQLTYPE_TRANSACTION_COMMIT
| SQLTYPE_TRANSACTION_ROLLBACK
| SQLTYPE_CREATE_TABLE
| SQLTYPE_DROP_TABLE
| SQLTYPE_SET
| SQLTYPE_SET_NAMES
| SQLTYPE_SET_CHARACTER_SET
| SQLTYPE_SHOW.

(** [union ParsedResult]; [NoObj] where no member was written. *)
Inductive ParsedResult :=
| SelectObj (selectObj : option Select)
| InsertObj (insertObj : option Insert)
| DeleteObj (deleteObj : option Delete)
| UpdateObj (updateObj : option Update)
| NoObj.

Record ParsedResultItem := MkResultItem { item_result : ParsedResult; sqltype : SqlType }.

(** The fields of [Parse] that only the actions use, and [Parse] as they see it. *)
Record acts := MkActs { nErr : Z; explain : Z; parsed : garray ParsedResultItem }.
Record parse := MkParse { pc : ctx; pa : acts }.

(** * Constants *)

Definition OE_Rollback : Z := 1.
Definition OE_Abort : Z := 2.
Definition OE_Fail : Z := 3.
Definition OE_Ignore : Z := 4.
Definition OE_Replace : Z := 5.
Definition OE_Restrict : Z := 6.
Definition OE_SetNull : Z := 7.
Definition OE_SetDflt : Z := 8.
Definition OE_Cascade : Z := 9.
Definition OE_Default : Z := 99.

Definition JT_INNER : Z := 1.
Definition JT_CROSS : Z := 2.
Definition JT_NATURAL : Z := 4.
Definition JT_LEFT : Z := 8.
Definition JT_RIGHT : Z := 16.
Definition JT_OUTER : Z := 32.
Definition JT_ERROR : Z := 64.
Definition JT_FULL : Z := 128.

Definition SQLITE_SO_ASC : Z := 0.
Definition SQLITE_SO_DESC : Z := 1.
Definition EP_Distinct : Z := 16.

(** * Deleting *)

(** [if (dyn) sqliteFree(z)] is defined where the bit was written; no token of a tree owns its
    text. *)
Definition bit_clear (t : Token) : bool := match t_dyn t with Some false => true | _ => false end.

(** The recursions of [sqlite3ExprDelete] and its kin: every [dyn] bit they test is clear. *)
Fixpoint expr_freeable (p : Expr) : bool :=
  match p with
  | MkExpr _ _ l r li tok sp se =>
      bit_clear sp && bit_clear tok
      && match l with Some l => expr_freeable l | None => true end
      && match r with Some r => expr_freeable r | None => true end
      && match li with Some li => list_freeable li | None => true end
      && match se with Some se => select_freeable se | None => true end
  end
with list_freeable (p : ExprList) : bool :=
  match p with MkExprList _ a => forallb item_freeable a end
with item_freeable (p : ExprItem) : bool :=
  match p with MkExprItem e _ _ => match e with Some e => expr_freeable e | None => true end end
with select_freeable (p : Select) : bool :=
  match p with
  | MkSelect el _ _ sr wh gr ha ob pr li ofs =>
      match el with Some x => list_freeable x | None => true end
      && match sr with Some x => src_freeable x | None => true end
      && match wh with Some x => expr_freeable x | None => true end
      && match gr with Some x => list_freeable x | None => true end
      && match ha with Some x => expr_freeable x | None => true end
      && match ob with Some x => list_freeable x | None => true end
      && match pr with Some x => select_freeable x | None => true end
      && match li with Some x => expr_freeable x | None => true end
      && match ofs with Some x => expr_freeable x | None => true end
  end
with src_freeable (p : SrcList) : bool :=
  match p with MkSrcList _ a => forallb srcitem_freeable a end
with srcitem_freeable (p : SrcItem) : bool :=
  match p with
  | MkSrcItem _ _ _ se _ on _ _ _ =>
      match se with Some x => select_freeable x | None => true end
      && match on with Some x => expr_freeable x | None => true end
  end.

Definition values_freeable (p : ValuesList) : bool := forallb list_freeable (vl_a p).

(** Of a pointer that may be NULL. *)
Definition maybe {A} (f : A -> bool) (p : option A) : bool := match p with Some x => f x | None => true end.

Definition deleted (b : bool) : M parse unit := if b then mret tt else raise Undef.

Definition sqlite3ExprDelete (p : option Expr) : M parse unit := deleted (maybe expr_freeable p).
Definition sqlite3ExprListDelete (p : option ExprList) : M parse unit := deleted (maybe list_freeable p).
Definition sqlite3SelectDelete (p : option Select) : M parse unit := deleted (maybe select_freeable p).
Definition sqlite3SrcListDelete (p : option SrcList) : M parse unit := deleted (maybe src_freeable p).
Definition sqlite3ValuesListDelete (p : option ValuesList) : M parse unit := deleted (maybe values_freeable p).

(** Names are freed without a test. *)
Definition sqlite3IdListDelete (p : option IdList) : M parse unit := mret tt.

(** * Memory and messages *)

Definition parse_heap (s : parse) : heap := ctx_heap (pc s).
Definition put_heap (h : heap) (s : parse) : parse :=
  MkParse (MkCtx (flags (pc s)) (rc (pc s)) (zErrMsg (pc s)) h) (pa s).
Definition put_acts (a : acts) (s : parse) : parse := MkParse (pc s) a.

(** [sqliteMalloc(n)] of a positive size. *)
Definition sqliteMalloc : M parse bool :=
  h ← gets parse_heap;
  let '(ok, h) := sqlite3MallocRaw 1 h in
  modify (put_heap h);; mret ok.

(** [sqliteRealloc(p, n)]; a size that does not fit in an [int] is refused by the system. *)
Definition sqliteRealloc (null : bool) (n : Z) : M parse bool :=
  h ← gets parse_heap;
  if sqlite3MallocFailed h then mret false else
  if null then sqliteMalloc else
  if n <=? 0 then modify (put_heap (sqlite3FailedMalloc h));; mret false else
  let '(ok, h) := sqlite3Realloc n h in
  modify (put_heap h);; mret ok.

Definition malloc_failed : M parse bool := gets (fun s => sqlite3MallocFailed (parse_heap s)).

(** [sqlite3ErrorMsg] of a formatted text. *)
Definition sqlite3ErrorMsg (text : list Z) : M parse unit :=
  modify (fun s => put_acts (MkActs (s32 (nErr (pa s) + 1)) (explain (pa s)) (parsed (pa s))) s);;
  ok ← sqliteMalloc;
  modify (fun s => MkParse (MkCtx (flags (pc s)) (rc (pc s)) (if ok : bool then Some text else None) (parse_heap s)) (pa s)).

Definition append_result (item : ParsedResultItem) : M parse unit :=
  s ← gets id;
  '(a, h) ← reads (fun _ => sqlite3ParsedResultArrayAppend (parsed (pa s)) item (parse_heap s));
  modify (fun s => put_heap h (put_acts (MkActs (nErr (pa s)) (explain (pa s)) a) s)).

(** * Tokens *)

Definition null_token : Token := MkTok PNull (Some false) 0.

(** The text of a token: its bytes are read from the statement. *)
Definition token_text (zSql : list Z) (i : nat) (n : Z) : result (list Z) :=
  if (i + Z.to_nat n <=? length zSql)%nat then Ok (take (Z.to_nat n) (drop i zSql)) else Undef.

(** [%T]. *)
Definition format_token (zSql : list Z) (t : option Token) : result (list Z) :=
  match t with
  | None => Ok []
  | Some t =>
      match t_z t with
      | PNull => Ok []
      | PText i => token_text zSql i (t_n t)
      | PIndet => Undef
      end
  end.

(** [sqlite3NameFromToken]: a copy of the text without its quotes, in memory of its own. *)
Definition name_of_token (zSql : list Z) (pName : option Token) : M parse (option (list Z)) :=
  match pName with
  | None => mret None
  | Some t =>
      match t_z t with
      | PNull => mret None
      | PIndet => raise Undef
      | PText i =>
          ok ← sqliteMalloc;
          if negb ok then mret None
          else raise (SqlUtil.sqlite3NameFromToken (Some (drop i zSql, Z.to_nat (t_n t))))
      end
  end.

(** * Expressions *)

(** A new node, as [sqliteMalloc] leaves it. *)
Definition zero_expr : Expr := MkExpr 0 0 None None None null_token null_token None.

Definition with_span (sp : Token) (e : Expr) : Expr :=
  MkExpr (e_op e) (e_flags e) (pLeft e) (pRight e) (pList e) (e_token e) sp (e_pSelect e).
Definition with_list (l : option ExprList) (e : Expr) : Expr :=
  MkExpr (e_op e) (e_flags e) (pLeft e) (pRight e) l (e_token e) (span e) (e_pSelect e).
Definition with_select (se : option Select) (e : Expr) : Expr :=
  MkExpr (e_op e) (e_flags e) (pLeft e) (pRight e) (pList e) (e_token e) (span e) se.
Definition with_op (op : Z) (e : Expr) : Expr :=
  MkExpr (wrap 8 op) (e_flags e) (pLeft e) (pRight e) (pList e) (e_token e) (span e) (e_pSelect e).
Definition with_flag (f : Z) (e : Expr) : Expr :=
  MkExpr (e_op e) (Z.lor (e_flags e) f) (pLeft e) (pRight e) (pList e) (e_token e) (span e) (e_pSelect e).

(** [p->z], as a condition. *)
Definition ptr_set (p : ptr) : result bool :=
  match p with PNull => Ok false | PText _ => Ok true | PIndet => Undef end.

Definition dyn_bit (t : Token) : result bool :=
  match t_dyn t with Some b => Ok b | None => Undef end.

(** [a - b], of two pointers into the statement. *)
Definition ptr_diff (a b : ptr) : result Z :=
  match a, b with PText i, PText j => Ok (Z.of_nat i - Z.of_nat j) | _, _ => Undef end.

(** [&p->span]: no token where [p] is NULL. *)
Definition span_of (p : option Expr) : option Token := span <$> p.

(** A write through [pExpr]. *)
Definition set_span (pExpr : option Expr) (f : Token -> Token) : result (option Expr) :=
  match pExpr with Some e => Ok (Some (with_span (f (span e)) e)) | None => Segv end.

(** [n] is a field of 31 bits. *)
Definition sqlite3ExprSpan (pExpr : option Expr) (pLeft pRight : option Token) : M parse (option Expr) :=
  failed ← malloc_failed;
  if (failed : bool) then mret pExpr else
  match pRight with
  | None => raise Segv
  | Some r =>
      zr ← raise (ptr_set (t_z r));
      if negb zr then mret pExpr else
      match pLeft with
      | None => raise Segv
      | Some l =>
          zl ← raise (ptr_set (t_z l));
          if negb zl then mret pExpr else
          dl ← raise (dyn_bit l);
          dr ← (if dl : bool then mret true else raise (dyn_bit r));
          if (dr : bool) then raise (set_span pExpr (fun sp => MkTok PNull (t_dyn sp) (t_n sp)))
          else
            d ← raise (ptr_diff (t_z r) (t_z l));
            raise (set_span pExpr (fun sp => MkTok (t_z l) (t_dyn sp) (wrap 31 (t_n r + d))))
      end
  end.

Definition sqlite3Expr (op : Z) (pLeft pRight : option Expr) (pToken : option Token) : M parse (option Expr) :=
  ok ← sqliteMalloc;
  if negb ok then sqlite3ExprDelete pLeft;; sqlite3ExprDelete pRight;; mret None else
  let pNew := MkExpr (wrap 8 op) 0 pLeft pRight None null_token null_token None in
  match pToken, pLeft, pRight with
  | Some t, _, _ => mret (Some (MkExpr (wrap 8 op) 0 pLeft pRight None t t None))
  | None, Some l, Some r => sqlite3ExprSpan (Some pNew) (Some (span l)) (Some (span r))
  | None, _, _ => mret (Some pNew)
  end.

(** The body of the function is commented out. *)
Definition sqlite3RegisterExpr (pToken : option Token) : M parse (option Expr) := mret None.

Definition expr_with_list (op : Z) (list : option ExprList) (pToken : Token) : M parse (option Expr) :=
  ok ← sqliteMalloc;
  if negb ok then sqlite3ExprListDelete list;; mret None
  else mret (Some (MkExpr op 0 None None list pToken pToken None)).

Definition sqlite3ExprFunction (list : option ExprList) (pToken : Token) : M parse (option Expr) :=
  expr_with_list TK_FUNCTION list pToken.

Definition sqlite3ExprLikeOp (list : option ExprList) (pToken : Token) : M parse (option Expr) :=
  expr_with_list TK_LIKE_KW list pToken.

(** * Lists *)

(** The array behind [n] of [alloc] elements in use, made larger where it is full: the new
    allocation, or [None] without memory. *)
Definition grow (n : nat) (alloc init : Z) : M parse (option Z) :=
  if alloc <=? Z.of_nat n then
    let new := alloc * 2 + init in
    ok ← sqliteRealloc (alloc =? 0) new;
    mret (if ok : bool then Some new else None)
  else mret (Some alloc).

Definition sqlite3ExprListAppend (zSql : list Z) (list : option ExprList) (pExpr : option Expr) (pName : option Token)
  : M parse (option ExprList) :=
  let no_mem (list : option ExprList) := sqlite3ExprDelete pExpr;; sqlite3ExprListDelete list;; mret None in
  ok ← match list with Some _ => mret true | None => sqliteMalloc end;
  if negb ok then no_mem None else
  let l := default (MkExprList 0 []) list in
  alloc ← grow (length (el_a l)) (el_nAlloc l) 4;
  match alloc with
  | None => no_mem (Some l)
  | Some alloc =>
      match pExpr, pName with
      | None, None => mret (Some (MkExprList alloc (el_a l)))
      | _, _ =>
          name ← name_of_token zSql pName;
          mret (Some (MkExprList alloc (el_a l ++ [MkExprItem pExpr name 0])))
      end
  end.

(** [pList->a[pList->nExpr-1].sortOrder = order]: a write in front of the array where the list is
    empty. *)
Definition set_sort_order (list : option ExprList) (order : Z) : result (option ExprList) :=
  match list with
  | None => Ok None
  | Some (MkExprList alloc a) =>
      match a with
      | [] => Undef
      | _ => Ok (Some (MkExprList alloc
               (alter (fun it => MkExprItem (ei_pExpr it) (ei_zName it) (wrap 8 order)) (length a - 1)%nat a)))
      end
  end.

(** [pList->a[0].sortOrder = order], of a list of at most one element; the first cell is
    allocated in any case. *)
Definition set_first_order (list : option ExprList) (order : Z) : option ExprList :=
  match list with
  | None => None
  | Some (MkExprList alloc a) =>
      Some (MkExprList alloc (alter (fun it => MkExprItem (ei_pExpr it) (ei_zName it) (wrap 8 order)) 0%nat a))
  end.

Definition sqlite3ValuesListAppend (list : option ValuesList) (exprList : option ExprList) : M parse (option ValuesList) :=
  match exprList with
  | None => mret list
  | Some x =>
      let no_mem (list : option ValuesList) := sqlite3ExprListDelete exprList;; sqlite3ValuesListDelete list;; mret None in
      ok ← match list with Some _ => mret true | None => sqliteMalloc end;
      if negb ok then no_mem None else
      let l := default (MkValuesList 0 []) list in
      alloc ← grow (length (vl_a l)) (vl_nAlloc l) 4;
      match alloc with
      | None => no_mem (Some l)
      | Some alloc => mret (Some (MkValuesList alloc (vl_a l ++ [x])))
      end
  end.

(** With [sqlite3ArrayAllocate] for an initial size of 5. *)
Definition sqlite3IdListAppend (zSql : list Z) (list : option IdList) (pToken : Token) : M parse (option IdList) :=
  ok ← match list with Some _ => mret true | None => sqliteMalloc end;
  if negb ok then mret None else
  let l := default (MkIdList 0 []) list in
  alloc ← grow (length (id_a l)) (id_nAlloc l) 5;
  match alloc with
  | None => sqlite3IdListDelete (Some l);; mret None
  | Some alloc => name ← name_of_token zSql (Some pToken); mret (Some (MkIdList alloc (id_a l ++ [name])))
  end.

(** The elements of the array from 0 on, as many as were announced: a write behind them is
    undefined, and the number of elements is kept in 16 bits. *)
Definition sqlite3SrcListAppend (zSql : list Z) (list : option SrcList) (pTable pDatabase : option Token)
  : M parse (option SrcList) :=
  ok ← match list with Some _ => mret true | None => sqliteMalloc end;
  if negb ok then mret None else
  let l := default (MkSrcList 1 []) list in
  let n := Z.of_nat (length (sl_a l)) in
  alloc ← (if sl_nAlloc l <=? n then
             let new := swrap 16 (sl_nAlloc l * 2) in
             ok ← sqliteRealloc false (new + 1);
             mret (if ok : bool then Some new else None)
           else mret (Some (sl_nAlloc l)));
  match alloc with
  | None => sqlite3SrcListDelete (Some l);; mret None
  | Some alloc =>
      if alloc <=? n then raise Undef else
      db ← match pDatabase with
           | Some d => z ← raise (ptr_set (t_z d)); mret (if z : bool then Some d else None)
           | None => mret None
           end;
      let '(tab, db) := match db, pTable with
                        | Some d, Some t => (Some d, Some t)
                        | _, _ => (pTable, db)
                        end in
      name ← name_of_token zSql tab;
      dbname ← name_of_token zSql db;
      mret (Some (MkSrcList alloc (sl_a l ++
        [MkSrcItem dbname name None None 0 None None (default null_token tab) (default null_token db)])))
  end.

(** A write to the element [k] from the end. *)
Definition alter_src (f : SrcItem -> SrcItem) (k : nat) (l : SrcList) : SrcList :=
  MkSrcList (sl_nAlloc l) (alter f (length (sl_a l) - k)%nat (sl_a l)).

Definition with_alias (a : option (list Z)) (it : SrcItem) : SrcItem :=
  MkSrcItem (zDatabase it) (zName it) a (si_pSelect it) (jointype it) (pOn it) (pUsing it) (tableToken it) (dbToken it).
Definition with_subquery (se : option Select) (it : SrcItem) : SrcItem :=
  MkSrcItem (zDatabase it) (zName it) (zAlias it) se (jointype it) (pOn it) (pUsing it) (tableToken it) (dbToken it).
Definition with_jointype (j : Z) (it : SrcItem) : SrcItem :=
  MkSrcItem (zDatabase it) (zName it) (zAlias it) (si_pSelect it) (wrap 8 j) (pOn it) (pUsing it) (tableToken it) (dbToken it).
Definition with_on (on : option Expr) (it : SrcItem) : SrcItem :=
  MkSrcItem (zDatabase it) (zName it) (zAlias it) (si_pSelect it) (jointype it) on (pUsing it) (tableToken it) (dbToken it).
Definition with_using (us : option IdList) (it : SrcItem) : SrcItem :=
  MkSrcItem (zDatabase it) (zName it) (zAlias it) (si_pSelect it) (jointype it) (pOn it) us (tableToken it) (dbToken it).

Definition sqlite3SrcListAddAlias (zSql : list Z) (list : option SrcList) (pToken : Token) : M parse (option SrcList) :=
  match list with
  | Some l =>
      if (0 <? length (sl_a l))%nat then
        name ← name_of_token zSql (Some pToken); mret (Some (alter_src (with_alias name) 1 l))
      else mret list
  | None => mret None
  end.

(** * Statements *)

Definition sqlite3BeginParse (explainFlag : Z) : M parse unit :=
  modify (fun s => put_acts (MkActs (nErr (pa s)) (wrap 8 explainFlag) (parsed (pa s))) s).

(** The bodies of these are commented out. *)
Definition sqlite3FinishCoding : M parse unit := mret tt.
Definition sqlite3EndTable : M parse unit := mret tt.

(** The statements of which only the kind is recorded. *)
Definition record_kind (t : SqlType) : M parse unit := append_result (MkResultItem NoObj t).

Definition sqlite3StartTable : M parse unit := record_kind SQLTYPE_CREATE_TABLE.
Definition sqlite3DropTable (pName : option SrcList) : M parse unit :=
  record_kind SQLTYPE_DROP_TABLE;; sqlite3SrcListDelete pName.
Definition sqlite3BeginTransaction (type : SqlType) : M parse unit := record_kind type.
Definition sqlite3CommitTransaction : M parse unit := record_kind SQLTYPE_TRANSACTION_COMMIT.
Definition sqlite3RollbackTransaction : M parse unit := record_kind SQLTYPE_TRANSACTION_ROLLBACK.

(** Without memory the parts are cleared on the stack. *)
Definition sqlite3SelectNew (zSql : list Z) (pEList : option ExprList) (pSrc : option SrcList) (pWhere : option Expr)
  (pGroupBy : option ExprList) (pHaving : option Expr) (pOrderBy : option ExprList) (isDistinct : Z)
  (pLimit pOffset : option Expr) : M parse (option Select) :=
  ok ← sqliteMalloc;
  pEList ← match pEList with
           | None => e ← sqlite3Expr TK_ALL None None None; sqlite3ExprListAppend zSql None e None
           | Some _ => mret pEList
           end;
  let new := MkSelect pEList TK_SELECT (wrap 8 isDistinct) pSrc pWhere pGroupBy pHaving pOrderBy None pLimit pOffset in
  if (ok : bool) then mret (Some new) else sqlite3SelectDelete (Some new);; mret None.

(** [keywords] of [sqlite3JoinType]. *)
Definition join_keywords : list (list Z * Z) :=
  [ (bytes_of "natural", JT_NATURAL); (bytes_of "left", Z.lor JT_LEFT JT_OUTER);
    (bytes_of "right", Z.lor JT_RIGHT JT_OUTER); (bytes_of "full", JT_FULL); (bytes_of "outer", JT_OUTER);
    (bytes_of "inner", JT_INNER); (bytes_of "cross", Z.lor JT_INNER JT_CROSS) ].

(** The inner loop: the code of the keyword that [p] is, if it is one. *)
Fixpoint join_keyword (zSql : list Z) (p : Token) (kws : list (list Z * Z)) : result (option Z) :=
  match kws with
  | [] => Ok None
  | (kw, code) :: kws =>
      if t_n p =? Z.of_nat (length kw) then
        match t_z p with
        | PText i =>
            r ← SqlUtil.sqlite3StrNICmp (drop i zSql) (kw ++ [0]) (Z.to_nat (t_n p));
            if r =? 0 then Ok (Some code) else join_keyword zSql p kws
        | PNull => Segv
        | PIndet => Undef
        end
      else join_keyword zSql p kws
  end.

(** The outer loop, over the tokens up to the first NULL. *)
Fixpoint join_loop (zSql : list Z) (apAll : list Token) (type : Z) : result Z :=
  match apAll with
  | [] => Ok type
  | p :: apAll =>
      code ← join_keyword zSql p join_keywords;
      match code with
      | Some code => join_loop zSql apAll (Z.lor type code)
      | None => Ok (Z.lor type JT_ERROR)
      end
  end.

Definition sqlite3JoinType (zSql : list Z) (pA : Token) (pB pC : option Token) : M parse Z :=
  let apAll := pA :: match pB with None => [] | Some b => b :: match pC with None => [] | Some c => [c] end end in
  type ← raise (join_loop zSql apAll 0);
  if (Z.land type (Z.lor JT_INNER JT_OUTER) =? Z.lor JT_INNER JT_OUTER) || negb (Z.land type JT_ERROR =? 0) then
    a ← raise (format_token zSql (Some pA));
    b ← raise (format_token zSql pB);
    c ← raise (format_token zSql pC);
    let sp (p : option Token) := match p with None => [] | Some _ => [32] end in
    sqlite3ErrorMsg (bytes_of "unknown or unsupported join type: " ++ a ++ sp pB ++ b ++ sp pC ++ c);;
    mret JT_INNER
  else mret type.

(** Nothing is recorded once there was an error. *)
Definition sqlite3Select (p : option Select) : M parse Z :=
  s ← gets id;
  match p with
  | None => mret 1
  | Some _ =>
      if sqlite3MallocFailed (parse_heap s) || negb (nErr (pa s) =? 0) then mret 1
      else append_result (MkResultItem (SelectObj p) SQLTYPE_SELECT);; mret 0
  end.

Definition sqlite3InsertNew (tabs : option SrcList) (sets : option ExprList) (vals : option ValuesList)
  (sel : option Select) (cols : option IdList) (onError : Z) : M parse (option Insert) :=
  ok ← sqliteMalloc;
  mret (if ok : bool then Some (MkInsert tabs sets vals sel cols onError) else None).

Definition sqlite3Insert (tabs : option SrcList) (sets : option ExprList) (vals : option ValuesList)
  (sel : option Select) (cols : option IdList) (onError : Z) : M parse unit :=
  obj ← sqlite3InsertNew tabs sets vals sel cols onError;
  match obj with
  | None => sqlite3ErrorMsg (bytes_of "sqlite3InsertNew return NULL, may the malloc failed!")
  | Some _ => mret tt
  end;;
  append_result (MkResultItem (InsertObj obj) (if onError =? OE_Replace then SQLTYPE_REPLACE else SQLTYPE_INSERT)).

Definition sqlite3UpdateNew (tabs : option SrcList) (changes : option ExprList) (pWhere : option Expr)
  (onError : Z) (pLimit pOffset : option Expr) : M parse (option Update) :=
  ok ← sqliteMalloc;
  mret (if ok : bool then Some (MkUpdate tabs changes pWhere onError pLimit pOffset) else None).

Definition sqlite3Update (tabs : option SrcList) (changes : option ExprList) (pWhere : option Expr)
  (onError : Z) (pLimit pOffset : option Expr) : M parse unit :=
  obj ← sqlite3UpdateNew tabs changes pWhere onError pLimit pOffset;
  append_result (MkResultItem (UpdateObj obj) SQLTYPE_UPDATE).

Definition sqlite3DeleteNew (tabs : option SrcList) (pWhere pLimit pOffset : option Expr) : M parse (option Delete) :=
  ok ← sqliteMalloc;
  mret (if ok : bool then Some (MkDelete tabs pWhere pLimit pOffset) else None).

Definition sqlite3DeleteFrom (tabs : option SrcList) (pWhere pLimit pOffset : option Expr) : M parse unit :=
  obj ← sqlite3DeleteNew tabs pWhere pLimit pOffset;
  match obj with
  | None => sqlite3ErrorMsg (bytes_of "sqlite3DeleteNew return NULL, may the malloc failed!")
  | Some _ => mret tt
  end;;
  append_result (MkResultItem (DeleteObj obj) SQLTYPE_DELETE).

(** * Disposing of the results *)

Definition insert_freeable (p : Insert) : bool :=
  maybe src_freeable (i_pTabList p) && maybe list_freeable (pSetList p) && maybe values_freeable (pValuesList p)
  && maybe select_freeable (i_pSelect p).
Definition update_freeable (p : Update) : bool :=
  maybe src_freeable (u_pTabList p) && maybe list_freeable (pChanges p) && maybe expr_freeable (u_pWhere p)
  && maybe expr_freeable (u_pLimit p) && maybe expr_freeable (u_pOffset p).
Definition delete_freeable (p : Delete) : bool :=
  maybe src_freeable (d_pTabList p) && maybe expr_freeable (d_pWhere p)
  && maybe expr_freeable (d_pLimit p) && maybe expr_freeable (d_pOffset p).

Definition sqlite3InsertDelete (p : option Insert) : M parse unit := deleted (maybe insert_freeable p).
Definition sqlite3UpdateDelete (p : option Update) : M parse unit := deleted (maybe update_freeable p).
Definition sqlite3DeleteFree (p : option Delete) : M parse unit := deleted (maybe delete_freeable p).

(** The member that the kind of the statement stands for. *)
Definition sqlite3ParsedItemFree (item : ParsedResultItem) : M parse unit :=
  match sqltype item, item_result item with
  | SQLTYPE_SELECT, SelectObj p => sqlite3SelectDelete p
  | SQLTYPE_REPLACE, InsertObj p | SQLTYPE_INSERT, InsertObj p => sqlite3InsertDelete p
  | SQLTYPE_UPDATE, UpdateObj p => sqlite3UpdateDelete p
  | SQLTYPE_DELETE, DeleteObj p => sqlite3DeleteFree p
  | SQLTYPE_SELECT, _ | SQLTYPE_REPLACE, _ | SQLTYPE_INSERT, _ | SQLTYPE_UPDATE, _ | SQLTYPE_DELETE, _ => raise Undef
  | _, _ => mret tt
  end.

(** A cell that was never written has no kind. *)
Fixpoint free_items (l : list (option ParsedResultItem)) : M parse unit :=
  match l with
  | [] => mret tt
  | Some it :: l => sqlite3ParsedItemFree it;; free_items l
  | None :: _ => raise Undef
  end.

Definition sqlite3ParsedResultArrayClean : M parse unit :=
  a ← gets (fun s => parsed (pa s));
  match cells a with
  | None => mret tt
  | Some l =>
      if curSize a <=? 0 then mret tt else
      if Z.of_nat (length l) <? curSize a then raise Undef else
      free_items (take (Z.to_nat (curSize a)) l);;
      modify (fun s => put_acts (MkActs (nErr (pa s)) (explain (pa s)) (MkArray (cells a) 0 (allocSize a))) s)
  end.

(** Of what the actions see; the tokens are the driver's. *)
Definition sqlite3ParseReset : M parse unit :=
  modify (fun s => MkParse (MkCtx 0 0 None (parse_heap s)) (MkActs 0 0 (parsed (pa s))));;
  sqlite3ParsedResultArrayClean.

Definition sqlite3ParseDelete : M parse unit := sqlite3ParsedResultArrayClean.
End SqlTree.
