(* ===== verification/SqlTreeFacts.v ===== *)
(** What the functions that build SQL trees promise to the parser.

    With memory at hand, every function of [SqlTree] that the actions call returns, leaves
    [Parse] as it is unless it reports or records something, and builds trees all of whose [dyn]
    bits are set, given parts with that property.  These are the lemmas on which the type safety
    of the parser rests. *)
From S2P Require Import Prelude Machine Libc SqlUtil SqlToken SqlParse SqlTree.

Module SqlTreeFacts.
Import Tk SqlToken SqlParse SqlParseFacts SqlTree.

Lemma wp_raise {S A} (r : result A) a (P : A -> S -> Prop) s : r = Ok a -> P a s -> wp (raise r) P s.
Proof. unfold wp, raise. by intros ->. Qed.

(** * Memory *)

Definition plentiful (s : parse) : Prop := parse_heap s = plenty.

Lemma put_heap_same s : plentiful s -> put_heap plenty s = s.
Proof. destruct s as [[] a]. unfold plentiful, parse_heap. simpl. by intros ->. Qed.

Lemma malloc_run s (P : bool -> parse -> Prop) : plentiful s -> P true s -> wp sqliteMalloc P s.
Proof.
  intros Hs HP. unfold sqliteMalloc. wp_step. wp_step. rewrite Hs. cbn. wp_step. wp_step. wp_step. by rewrite put_heap_same.
Qed.

Lemma realloc_run null n s (P : bool -> parse -> Prop) : plentiful s -> 0 < n -> P true s -> wp (sqliteRealloc null n) P s.
Proof.
  intros Hs Hn HP. unfold sqliteRealloc. wp_step. wp_step. rewrite Hs. cbn [sqlite3MallocFailed plenty mallocHasFailed].
  destruct null; [by apply malloc_run|]. destruct (Z.leb_spec n 0); [lia|]. cbn. wp_step. wp_step. wp_step. by rewrite put_heap_same.
Qed.

(** A list is allocated where there is none. *)
Lemma first_alloc_run {A} (l : option A) s (P : bool -> parse -> Prop) : plentiful s -> P true s ->
  wp match l with Some _ => mret true | None => sqliteMalloc end P s.
Proof. destruct l; [done|apply malloc_run]. Qed.

(** * Names *)

(** Writing stays behind reading, and the terminator is reached. *)
Lemma dequote_loop_ends q fuel : q <> 0 -> forall z i j p,
  z !! p = Some 0 -> (j < i <= p)%nat -> (p - i < fuel)%nat -> exists z', SqlUtil.dequote_loop fuel z q i j = Ok z'.
Proof.
  intros Hq. induction fuel as [|fuel IH]; intros z i j p Hp Hi Hf; [lia|]. cbn [SqlUtil.dequote_loop].
  pose proof (lookup_lt_Some _ _ _ Hp) as Hlen.
  assert (forall k, (k <= p)%nat -> exists c, z !! k = Some c) as Hrd by (intros k Hk; apply lookup_lt_is_Some; lia).
  assert (forall c, <[j := c]> z !! p = Some 0) as Hput by (intros c; by rewrite list_lookup_insert_ne by lia).
  unfold rd. destruct (Hrd i) as [c Ec]; [lia|]. rewrite Ec. cbn [mbind result_bind].
  destruct (Z.eqb_spec c 0); [by eexists|]. assert (i <> p) by (intros ->; congruence).
  destruct (Z.eqb_spec c q) as [->|].
  - destruct (Hrd (S i)) as [d Ed]; [lia|]. rewrite Ed. cbn [mbind result_bind].
    destruct (Z.eqb_spec d q) as [->|]; [|by eexists]. assert (S i <> p) by (intros <-; congruence).
    apply (IH _ _ _ p); [done|lia|lia].
  - apply (IH _ _ _ p); [done|lia|lia].
Qed.

Lemma dequote_ends l : exists z, SqlUtil.sqlite3Dequote (Some (l ++ [0])) = Ok z.
Proof.
  unfold SqlUtil.sqlite3Dequote. assert (exists q, rd (l ++ [0]) 0 = Ok q) as [q Eq] by (destruct l; by eexists).
  rewrite Eq. cbn [mbind result_bind]. destruct l as [|c l]; [injection Eq as <-; by eexists|].
  assert (forall q', q' <> 0 -> exists z, SqlUtil.dequote_loop (length ((c :: l) ++ [0])) ((c :: l) ++ [0]) q' 1 0 = Ok z) as Hloop.
  { intros q' Hq'. apply (dequote_loop_ends q' _ Hq' _ 1 0 (length (c :: l))); [by apply list_lookup_middle|simpl; lia|].
    rewrite length_app. simpl. lia. }
  destruct ((q =? 39) || (q =? 34) || (q =? 96)) eqn:E1.
  { destruct (Hloop q) as [z ->]; [intros ->; discriminate|]. by eexists. }
  destruct (q =? 91); [|by eexists]. destruct (Hloop 93) as [z ->]; [done|]. by eexists.
Qed.

(** A token with a text in the statement. *)
Definition tok_in (z : list Z) (t : Token) : Prop :=
  exists i n, t = MkTok (PText i) (Some false) (Z.of_nat n) /\ (i + n < length z)%nat.

Lemma name_of_text_run z t s (P : option (list Z) -> parse -> Prop) : plentiful s -> tok_in z t ->
  (forall name, P name s) -> wp (name_of_token z (Some t)) P s.
Proof.
  intros Hs (i & n & -> & Hi) HP. unfold name_of_token. cbn [t_z t_n]. wp_step. apply malloc_run; [done|]. cbn [negb].
  rewrite Nat2Z.id. unfold SqlUtil.sqlite3NameFromToken, SqlUtil.sqlite3StrNDup.
  destruct (Nat.leb_spec n (length (drop i z))) as [_|Hlt]; [|rewrite length_drop in Hlt; lia]. cbn [mbind result_bind].
  destruct (dequote_ends (take n (drop i z))) as [name E]. by eapply wp_raise.
Qed.

Lemma name_of_none_run z s (P : option (list Z) -> parse -> Prop) : P None s -> wp (name_of_token z None) P s.
Proof. done. Qed.

(** A name that is given or not. *)
Definition name_in (z : list Z) (t : option Token) : Prop := match t with Some t => tok_in z t | None => True end.

Lemma name_run z t s (P : option (list Z) -> parse -> Prop) : plentiful s -> name_in z t ->
  (forall name, P name s) -> wp (name_of_token z t) P s.
Proof. destruct t; [apply name_of_text_run|]. intros _ _ HP. apply name_of_none_run, HP. Qed.

(** * Expressions *)

(** A node whose span can be read, and that can be freed. *)
Definition expr_ok (e : Expr) : Prop := expr_freeable e = true /\ t_z (span e) <> PIndet.
Definition expr_opt (e : option Expr) : Prop := match e with Some e => expr_ok e | None => True end.

(** A token whose text and bit can be read. *)
Definition tok_set (t : Token) : Prop := t_dyn t = Some false /\ t_z t <> PIndet.

Lemma tok_in_set z t : tok_in z t -> tok_set t.
Proof. by intros (i & n & -> & _). Qed.

Lemma null_token_set : tok_set null_token.
Proof. done. Qed.

Lemma bit_clear_true t : bit_clear t = true <-> t_dyn t = Some false.
Proof. unfold bit_clear. by destruct (t_dyn t) as [[]|]. Qed.

Lemma expr_freeable_unfold e : expr_freeable e = bit_clear (span e) && bit_clear (e_token e)
  && maybe expr_freeable (pLeft e) && maybe expr_freeable (pRight e)
  && maybe list_freeable (pList e) && maybe select_freeable (e_pSelect e).
Proof. by destruct e. Qed.

Lemma expr_ok_iff e : expr_ok e <-> tok_set (span e) /\ t_dyn (e_token e) = Some false
  /\ maybe expr_freeable (pLeft e) = true /\ maybe expr_freeable (pRight e) = true
  /\ maybe list_freeable (pList e) = true /\ maybe select_freeable (e_pSelect e) = true.
Proof.
  unfold expr_ok, tok_set. rewrite expr_freeable_unfold, !andb_true_iff, !bit_clear_true. tauto.
Qed.

Lemma expr_ok_span e : expr_ok e -> tok_set (span e).
Proof. by intros [? _]%expr_ok_iff. Qed.

Lemma expr_opt_freeable e : expr_opt e -> maybe expr_freeable e = true.
Proof. destruct e; [by intros [? _]|done]. Qed.

Lemma ExprDelete_run e s (P : unit -> parse -> Prop) : maybe expr_freeable e = true -> P tt s -> wp (sqlite3ExprDelete e) P s.
Proof. unfold sqlite3ExprDelete. by intros ->. Qed.

(** A span is set to a readable token, whatever the tokens it is made from. *)
Lemma ExprSpan_run e a b s (P : option Expr -> parse -> Prop) : plentiful s -> expr_ok e -> tok_set a -> tok_set b ->
  (forall e', expr_ok e' -> P (Some e') s) -> wp (sqlite3ExprSpan (Some e) (Some a) (Some b)) P s.
Proof.
  intros Hs He [Ha Ha'] [Hb Hb'] HP. unfold sqlite3ExprSpan, malloc_failed. wp_step. wp_step. rewrite Hs. cbn [sqlite3MallocFailed plenty mallocHasFailed].
  wp_step. destruct (t_z b) as [|j|] eqn:Ezb; [|eapply wp_raise; [done|]; cbn [negb]|done].
  { eapply wp_raise; [done|]. cbn [negb]. wp_step. by apply HP. }
  wp_step. destruct (t_z a) as [|i|] eqn:Eza; [|eapply wp_raise; [done|]; cbn [negb]|done].
  { eapply wp_raise; [done|]. cbn [negb]. wp_step. by apply HP. }
  unfold dyn_bit. rewrite Ha. wp_step. eapply wp_raise; [done|]. cbv iota. wp_step. rewrite Hb. eapply wp_raise; [done|].
  cbv iota. wp_step. eapply wp_raise; [done|]. cbn [set_span]. eapply wp_raise; [done|]. apply HP.
  apply expr_ok_iff in He as ([Hd _] & Ht & Hl & Hr & Hli & Hse). by apply expr_ok_iff.
Qed.

Lemma Expr_token_run op l r t s (P : option Expr -> parse -> Prop) : plentiful s -> expr_opt l -> expr_opt r -> tok_set t ->
  (forall e, expr_ok e -> P (Some e) s) -> wp (sqlite3Expr op l r (Some t)) P s.
Proof.
  intros Hs Hl Hr [Hd Hz] HP. unfold sqlite3Expr. wp_step. apply malloc_run; [done|]. cbn [negb]. wp_step. apply HP, expr_ok_iff.
  split_and!; try done; by apply expr_opt_freeable.
Qed.

Lemma Expr_run op l r s (P : option Expr -> parse -> Prop) : plentiful s -> expr_opt l -> expr_opt r ->
  (forall e, expr_ok e -> P (Some e) s) -> wp (sqlite3Expr op l r None) P s.
Proof.
  intros Hs Hl Hr HP. unfold sqlite3Expr. wp_step. apply malloc_run; [done|]. cbn [negb].
  assert (expr_ok (MkExpr (wrap 8 op) 0 l r None null_token null_token None)) as Hnew.
  { apply expr_ok_iff. split_and!; try done; by apply expr_opt_freeable. }
  destruct l as [l|]; [destruct r as [r|]|].
  - apply ExprSpan_run; [done|done|by apply expr_ok_span|by apply expr_ok_span|done].
  - wp_step. by apply HP.
  - wp_step. by apply HP.
Qed.

Lemma expr_with_list_run op l t s (P : option Expr -> parse -> Prop) : plentiful s -> maybe list_freeable l = true -> tok_set t ->
  (forall e, expr_ok e -> P (Some e) s) -> wp (expr_with_list op l t) P s.
Proof.
  intros Hs Hl [Hd Hz] HP. unfold expr_with_list. wp_step. apply malloc_run; [done|]. cbn [negb]. wp_step. apply HP, expr_ok_iff.
  by split_and!.
Qed.

Lemma with_list_ok l e : expr_ok e -> maybe list_freeable l = true -> expr_ok (with_list l e).
Proof. rewrite !expr_ok_iff. intros (? & ? & ? & ? & _ & ?) ?. by split_and!. Qed.

Lemma with_select_ok se e : expr_ok e -> maybe select_freeable se = true -> expr_ok (with_select se e).
Proof. rewrite !expr_ok_iff. intros (? & ? & ? & ? & ? & _) ?. by split_and!. Qed.

Lemma with_op_ok op e : expr_ok e -> expr_ok (with_op op e).
Proof. by rewrite !expr_ok_iff. Qed.

Lemma with_flag_ok f e : expr_ok e -> expr_ok (with_flag f e).
Proof. by rewrite !expr_ok_iff. Qed.

(** * Lists *)

Lemma grow_run n alloc init s (P : option Z -> parse -> Prop) : plentiful s -> 0 <= alloc -> 0 < init ->
  (forall alloc', 0 <= alloc' -> P (Some alloc') s) -> wp (grow n alloc init) P s.
Proof.
  intros Hs Ha Hi HP. unfold grow. destruct (alloc <=? Z.of_nat n); [|wp_step; by apply HP].
  wp_step. apply realloc_run; [done|lia|]. wp_step. apply HP. lia.
Qed.

(** Lists that can be freed and appended to. *)
Definition list_ok (l : option ExprList) : Prop :=
  match l with Some l => list_freeable l = true /\ 0 <= el_nAlloc l | None => True end.

Lemma list_ok_freeable l : list_ok l -> maybe list_freeable l = true.
Proof. destruct l; [by intros [? _]|done]. Qed.

Lemma list_freeable_unfold l : list_freeable l = forallb item_freeable (el_a l).
Proof. by destruct l. Qed.

Lemma ListAppend_run z l e t s (P : option ExprList -> parse -> Prop) : plentiful s -> list_ok l -> expr_opt e -> name_in z t ->
  (forall l', list_ok (Some l') -> (e <> None \/ t <> None -> el_a l' <> []) -> P (Some l') s) ->
  wp (sqlite3ExprListAppend z l e t) P s.
Proof.
  intros Hs Hl He Ht HP. unfold sqlite3ExprListAppend. wp_step.
  apply first_alloc_run; [done|]. cbn [negb]. set (l0 := default (MkExprList 0 []) l).
  assert (list_freeable l0 = true /\ 0 <= el_nAlloc l0) as [Hf Ha] by (destruct l; [exact Hl|by split]).
  wp_step. apply grow_run; [done|done|done|]. intros alloc Halloc.
  assert (forall name, list_ok (Some (MkExprList alloc (el_a l0 ++ [MkExprItem e name 0])))) as Hnew.
  { intros name. split; [|done]. rewrite list_freeable_unfold in Hf |- *. cbn [el_a]. rewrite forallb_app, Hf. cbn.
    destruct e; [|done]. by destruct He as [-> _]. }
  assert (wp (name ← name_of_token z t; mret (Some (MkExprList alloc (el_a l0 ++ [MkExprItem e name 0])))) P s) as Happ.
  { wp_step. apply name_run; [done|done|]. intros name. wp_step. apply HP; [apply Hnew|]. intros _. cbn. by destruct (el_a l0). }
  destruct e; [exact Happ|]. destruct t; [exact Happ|]. wp_step. apply HP; [|by intros [?|?]].
  split; [|done]. by rewrite list_freeable_unfold in Hf |- *.
Qed.

Lemma alter_forallb {A} (f : A -> bool) g k l : (forall x, f x = true -> f (g x) = true) -> forallb f l = true ->
  forallb f (alter g k l) = true.
Proof.
  intros Hg. revert k. induction l as [|x l IH]; intros k; [done|]. cbn. rewrite andb_true_iff. intros [Hx Hl].
  destruct k; cbn; rewrite andb_true_iff; auto.
Qed.

Lemma set_sort_order_ok l o : list_ok (Some l) -> el_a l <> [] -> exists l', set_sort_order (Some l) o = Ok (Some l') /\ list_ok (Some l').
Proof.
  destruct l as [alloc a]. intros [Hl Ha] Hne. cbn in Hne.
  assert (set_sort_order (Some (MkExprList alloc a)) o = Ok (Some (MkExprList alloc
    (alter (fun it => MkExprItem (ei_pExpr it) (ei_zName it) (wrap 8 o)) (length a - 1)%nat a)))) as -> by (by destruct a).
  eexists. split; [reflexivity|]. split; [|done]. rewrite list_freeable_unfold in *.
  apply alter_forallb; [|done]. by intros [].
Qed.

Lemma set_first_order_ok l o : list_ok l -> list_ok (set_first_order l o).
Proof.
  destruct l as [[alloc a]|]; [|done]. intros [Hl Ha]. split; [|done]. rewrite list_freeable_unfold in *.
  apply alter_forallb; [|done]. by intros [].
Qed.

Definition values_ok (l : option ValuesList) : Prop :=
  match l with Some l => values_freeable l = true /\ 0 <= vl_nAlloc l | None => True end.

Lemma ValuesAppend_run v l s (P : option ValuesList -> parse -> Prop) : plentiful s -> values_ok v -> list_ok l ->
  (forall v', values_ok v' -> P v' s) -> wp (sqlite3ValuesListAppend v l) P s.
Proof.
  intros Hs Hv Hl HP. unfold sqlite3ValuesListAppend. destruct l as [l|]; [|wp_step; by apply HP]. wp_step.
  apply first_alloc_run; [done|]. cbn [negb]. set (v0 := default (MkValuesList 0 []) v).
  assert (values_freeable v0 = true /\ 0 <= vl_nAlloc v0) as [Hf Ha] by (destruct v; [exact Hv|by split]).
  wp_step. apply grow_run; [done|done|done|]. intros alloc Halloc. wp_step. apply HP. split; [|done].
  unfold values_freeable in *. cbn. rewrite forallb_app, Hf. cbn. by destruct Hl as [-> _].
Qed.

Definition ids_ok (l : option IdList) : Prop := match l with Some l => 0 <= id_nAlloc l | None => True end.

Lemma IdListAppend_run z l t s (P : option IdList -> parse -> Prop) : plentiful s -> ids_ok l -> tok_in z t ->
  (forall l', ids_ok l' -> P l' s) -> wp (sqlite3IdListAppend z l t) P s.
Proof.
  intros Hs Hl Ht HP. unfold sqlite3IdListAppend. wp_step.
  apply first_alloc_run; [done|]. cbn [negb].
  wp_step. apply grow_run; [done|by destruct l|done|]. intros alloc Halloc. wp_step. apply name_run; [done|done|]. intros name.
  wp_step. by apply HP.
Qed.

(** * Tables *)

(** A list of tables for at most [w] tokens, which can be freed and appended to. *)
Definition src_ok (w : nat) (l : SrcList) : Prop :=
  src_freeable l = true /\ (length (sl_a l) <= w)%nat
  /\ Z.of_nat (length (sl_a l)) <= sl_nAlloc l <= 2 * Z.of_nat (length (sl_a l)) + 1 /\ 1 <= sl_nAlloc l.
Definition src_opt (w : nat) (l : option SrcList) : Prop := match l with Some l => src_ok w l | None => True end.

(** The number of tables that fit: the allocation is kept in 16 bits. *)
Definition max_tables : nat := Z.to_nat 16384.

(** The name of a database, or none. *)
Definition db_in (z : list Z) (t : Token) : Prop := tok_in z t \/ t = MkTok PNull None 0.

Lemma src_freeable_unfold l : src_freeable l = forallb srcitem_freeable (sl_a l).
Proof. by destruct l. Qed.

Lemma src_ok_freeable w l : src_opt w l -> maybe src_freeable l = true.
Proof. destruct l; [by intros [? _]|done]. Qed.

Lemma src_alloc_run w l s (P : option Z -> parse -> Prop) : plentiful s -> src_ok w l -> (w < max_tables)%nat ->
  (forall a, Z.of_nat (length (sl_a l)) < a <= 2 * Z.of_nat (length (sl_a l)) + 1 -> P (Some a) s) ->
  wp (if sl_nAlloc l <=? Z.of_nat (length (sl_a l)) then
        ok ← sqliteRealloc false (swrap 16 (sl_nAlloc l * 2) + 1);
        mret (if ok : bool then Some (swrap 16 (sl_nAlloc l * 2)) else None)
      else mret (Some (sl_nAlloc l))) P s.
Proof.
  intros Hs (_ & Hw & Hn & H1) Hmax HP. unfold max_tables in Hmax. destruct (Z.leb_spec (sl_nAlloc l) (Z.of_nat (length (sl_a l)))); [|wp_step; apply HP; lia].
  assert (swrap 16 (sl_nAlloc l * 2) = sl_nAlloc l * 2) as ->.
  { unfold swrap. rewrite Z.mod_small; lia. }
  wp_step. apply realloc_run; [done|lia|]. wp_step. apply HP. lia.
Qed.

Lemma SrcListAppend_run z w l t d s (P : option SrcList -> parse -> Prop) : plentiful s -> src_opt w l -> (w < max_tables)%nat ->
  name_in z t -> match d with Some d => db_in z d | None => True end ->
  (forall l', src_ok (S w) l' -> (0 < length (sl_a l'))%nat -> P (Some l') s) ->
  wp (sqlite3SrcListAppend z l t d) P s.
Proof.
  intros Hs Hl Hw Ht Hd HP. unfold sqlite3SrcListAppend. wp_step. apply first_alloc_run; [done|]. cbn [negb].
  set (l0 := default (MkSrcList 1 []) l).
  assert (src_ok w l0) as Hl0 by (destruct l; [exact Hl|by repeat split; simpl; lia]).
  wp_step. apply (src_alloc_run w); [done|done|done|]. intros a Ha. destruct (Z.leb_spec a (Z.of_nat (length (sl_a l0)))); [lia|].
  wp_step. set (db := match d with Some d' => match t_z d' with PNull => None | _ => Some d' end | None => None end).
  assert (name_in z db) as Hdb.
  { unfold db. destruct d as [d|]; [|done]. destruct Hd as [Hd| ->]; [|done]. pose proof Hd as (? & ? & -> & _). exact Hd. }
  assert (wp match d with Some d => z ← raise (ptr_set (t_z d)); mret (if z : bool then Some d else None) | None => mret None end
            (fun db' s' => db' = db /\ s' = s) s) as Hset.
  { unfold db. destruct d as [d|]; [|by wp_step]. wp_step. destruct Hd as [(i & n & -> & _)| ->]; (eapply wp_raise; [reflexivity|]); by wp_step. }
  eapply wp_mono, Hset. intros db' s' [-> ->].
  set (p := match db, t with Some d, Some t => (Some d, Some t) | _, _ => (t, db) end).
  assert (name_in z p.1 /\ name_in z p.2) as [H1 H2] by (unfold p; by destruct db, t).
  replace (let '(tab, db) := p in _) with ((fun '(tab, db) =>
    name ← name_of_token z tab; dbname ← name_of_token z db;
    mret (Some (MkSrcList a (sl_a l0 ++ [MkSrcItem dbname name None None 0 None None (default null_token tab) (default null_token db)])))) p) by reflexivity.
  destruct p as [tab db2]. cbn [fst snd] in H1, H2. wp_step. apply name_run; [done|done|]. intros name. wp_step. apply name_run; [done|done|].
  intros dbname. wp_step. destruct Hl0 as (Hf & Hlen & _ & _). rewrite src_freeable_unfold in Hf. apply HP.
  - split_and!; cbn [sl_a sl_nAlloc]; rewrite ?length_app; cbn [length]; try lia.
    rewrite src_freeable_unfold. cbn [sl_a]. by rewrite forallb_app, Hf.
  - cbn [sl_a]. rewrite length_app. simpl. lia.
Qed.

(** Changing an element keeps the shape of the list. *)
Lemma alter_src_ok w f k l : (forall it, srcitem_freeable it = true -> srcitem_freeable (f it) = true) -> src_ok w l -> src_ok w (alter_src f k l).
Proof.
  intros Hf (Hl & Hw & Hn & H1). unfold alter_src, src_ok. cbn [sl_a sl_nAlloc]. rewrite length_alter. split_and!; try lia.
  rewrite src_freeable_unfold in *. by apply alter_forallb.
Qed.

Lemma srcitem_freeable_unfold it : srcitem_freeable it = maybe select_freeable (si_pSelect it) && maybe expr_freeable (pOn it).
Proof. by destruct it. Qed.

Lemma with_alias_free a it : srcitem_freeable it = true -> srcitem_freeable (with_alias a it) = true.
Proof. by rewrite !srcitem_freeable_unfold. Qed.
Lemma with_jointype_free j it : srcitem_freeable it = true -> srcitem_freeable (with_jointype j it) = true.
Proof. by rewrite !srcitem_freeable_unfold. Qed.
Lemma with_using_free u it : srcitem_freeable it = true -> srcitem_freeable (with_using u it) = true.
Proof. by rewrite !srcitem_freeable_unfold. Qed.
Lemma with_on_free e it : maybe expr_freeable e = true -> srcitem_freeable it = true -> srcitem_freeable (with_on e it) = true.
Proof. rewrite !srcitem_freeable_unfold. cbn. intros ->. rewrite !andb_true_iff. tauto. Qed.
Lemma with_subquery_free se it : maybe select_freeable se = true -> srcitem_freeable it = true -> srcitem_freeable (with_subquery se it) = true.
Proof. rewrite !srcitem_freeable_unfold. cbn. intros ->. rewrite !andb_true_iff. tauto. Qed.

Lemma AddAlias_run z w l t s (P : option SrcList -> parse -> Prop) : plentiful s -> src_ok w l -> tok_in z t ->
  (forall l', src_ok w l' -> P (Some l') s) -> wp (sqlite3SrcListAddAlias z (Some l) t) P s.
Proof.
  intros Hs Hl Ht HP. unfold sqlite3SrcListAddAlias. destruct (_ <? _)%nat; [|by apply HP].
  wp_step. apply name_run; [done|done|]. intros name. wp_step. apply HP, alter_src_ok; [apply with_alias_free|done].
Qed.

(** * Selects *)

Lemma select_freeable_unfold p : select_freeable p = maybe list_freeable (pEList p) && maybe src_freeable (pSrc p)
  && maybe expr_freeable (s_pWhere p) && maybe list_freeable (pGroupBy p) && maybe expr_freeable (pHaving p)
  && maybe list_freeable (pOrderBy p) && maybe select_freeable (pPrior p) && maybe expr_freeable (s_pLimit p)
  && maybe expr_freeable (s_pOffset p).
Proof. by destruct p. Qed.

Lemma SelectNew_run z el src wh gr ha ob di li ofs s (P : option Select -> parse -> Prop) : plentiful s ->
  maybe list_freeable el = true -> maybe src_freeable src = true -> maybe expr_freeable wh = true -> maybe list_freeable gr = true ->
  maybe expr_freeable ha = true -> maybe list_freeable ob = true -> maybe expr_freeable li = true -> maybe expr_freeable ofs = true ->
  (forall p, select_freeable p = true -> P (Some p) s) -> wp (sqlite3SelectNew z el src wh gr ha ob di li ofs) P s.
Proof.
  intros Hs Hel Hsrc Hwh Hgr Hha Hob Hli Hofs HP. unfold sqlite3SelectNew. wp_step. apply malloc_run; [done|]. wp_step.
  assert (wp match el with
             | None => e ← sqlite3Expr TK_ALL None None None; sqlite3ExprListAppend z None e None
             | Some _ => mret el
             end (fun el' s' => s' = s /\ maybe list_freeable el' = true) s) as Hlist.
  { destruct el as [el|]; [by wp_step|]. wp_step. apply Expr_run; [done|done|done|]. intros e He.
    apply ListAppend_run; [done|done|done|done|]. intros l' [Hl' _] _. by split. }
  eapply wp_mono, Hlist. intros el' s' [-> Hel']. wp_step. apply HP. rewrite select_freeable_unfold. cbn.
  by rewrite Hel', Hsrc, Hwh, Hgr, Hha, Hob, Hli, Hofs.
Qed.

(** * Reports *)

(** What every action keeps: memory, the result code, and a message that there is. *)
Definition follows (s s' : parse) : Prop :=
  plentiful s' /\ flags (pc s') = flags (pc s) /\ rc (pc s') = rc (pc s)
  /\ (zErrMsg (pc s') = None -> zErrMsg (pc s) = None).

Lemma follows_refl s : plentiful s -> follows s s.
Proof. done. Qed.

Lemma follows_trans s1 s2 s3 : follows s1 s2 -> follows s2 s3 -> follows s1 s3.
Proof. unfold follows. intros (? & ? & ? & ?) (? & ? & ? & ?). split_and!; [done|congruence|congruence|auto]. Qed.

Lemma ErrorMsg_run text s (P : unit -> parse -> Prop) : plentiful s ->
  (forall s', follows s s' -> zErrMsg (pc s') = Some text -> parsed (pa s') = parsed (pa s) -> P tt s') ->
  wp (sqlite3ErrorMsg text) P s.
Proof.
  intros Hs HP. unfold sqlite3ErrorMsg. wp_step. wp_step. wp_step. apply malloc_run; [done|]. wp_step. by apply HP.
Qed.

Lemma StrNICmp_ends a : forall b N, (N <= length a)%nat -> (N <= length b)%nat -> exists r, SqlUtil.sqlite3StrNICmp a b N = Ok r.
Proof.
  induction a as [|c a IH]; intros b [|N] Ha Hb; try (by eexists); [simpl in Ha; lia|].
  destruct b as [|d b]; [simpl in Hb; lia|]. cbn [SqlUtil.sqlite3StrNICmp]. destruct (_ && _); [|by eexists].
  apply IH; simpl in *; lia.
Qed.

Lemma join_keyword_ends z t kws : tok_in z t -> exists r, join_keyword z t kws = Ok r.
Proof.
  intros (i & n & -> & Hi). induction kws as [|[kw code] kws IH]; [by eexists|]. cbn [join_keyword t_n t_z].
  destruct (Z.eqb_spec (Z.of_nat n) (Z.of_nat (length kw))) as [E|]; [|done].
  destruct (StrNICmp_ends (drop i z) (kw ++ [0]) (Z.to_nat (Z.of_nat n))) as [r ->]; [rewrite length_drop; lia|rewrite length_app; lia|].
  cbn [mbind result_bind]. destruct (r =? 0); [by eexists|done].
Qed.

Lemma join_loop_ends z ts : Forall (tok_in z) ts -> forall ty, exists r, join_loop z ts ty = Ok r.
Proof.
  induction 1 as [|t ts Ht _ IH]; intros ty; [by eexists|]. cbn [join_loop].
  destruct (join_keyword_ends z t join_keywords Ht) as [[code|] ->]; cbn [mbind result_bind]; [apply IH|by eexists].
Qed.

Lemma format_token_ends z t : name_in z t -> exists l, format_token z t = Ok l.
Proof.
  destruct t as [t|]; [|by eexists]. intros (i & n & -> & Hi). cbn. unfold token_text.
  destruct (Nat.leb_spec (i + Z.to_nat (Z.of_nat n)) (length z)); [by eexists|lia].
Qed.

Lemma JoinType_run z a b c s (P : Z -> parse -> Prop) : plentiful s -> tok_in z a -> name_in z b -> name_in z c ->
  (forall j s', follows s s' -> parsed (pa s') = parsed (pa s) -> P j s') -> wp (sqlite3JoinType z a b c) P s.
Proof.
  intros Hs Ha Hb Hc HP. unfold sqlite3JoinType. wp_step.
  destruct (join_loop_ends z (a :: match b with None => [] | Some b => b :: match c with None => [] | Some c => [c] end end)) with (ty := 0) as [ty E].
  { constructor; [done|]. destruct b; [|constructor]. constructor; [done|]. destruct c; [|constructor]. by constructor. }
  eapply wp_raise; [exact E|]. destruct (_ || _); [|wp_step; by apply HP].
  wp_step. destruct (format_token_ends z (Some a)) as [ta Ea]; [done|]. eapply wp_raise; [exact Ea|].
  wp_step. destruct (format_token_ends z b) as [tb Eb]; [done|]. eapply wp_raise; [exact Eb|].
  wp_step. destruct (format_token_ends z c) as [tc Ec]; [done|]. eapply wp_raise; [exact Ec|].
  wp_step. apply ErrorMsg_run; [done|]. intros s' Hf _ Hp. wp_step. by apply HP.
Qed.

(** * Results *)

(** A statement that can be disposed of. *)
Definition item_ok (it : ParsedResultItem) : Prop := forall s, sqlite3ParsedItemFree it s = (Ok tt, s).

(** There is room for [k] more statements, and those recorded can be disposed of. *)
Definition recorded_ok (k : nat) (a : garray ParsedResultItem) : Prop :=
  (cells a = None /\ curSize a = 0 \/ arr_ok a) /\ curSize a + Z.of_nat k <= 2 ^ 31
  /\ Forall (fun it => exists x, it = Some x /\ item_ok x) (items a).

Definition fine (k : nat) (s : parse) : Prop := plentiful s /\ recorded_ok k (parsed (pa s)).

Lemma fine_follows k s s' : fine k s -> follows s s' -> parsed (pa s') = parsed (pa s) -> fine k s'.
Proof. intros [_ Hr] Hf E. split; [apply Hf|]. by rewrite E. Qed.

Lemma fine_less k k' s : fine k s -> (k' <= k)%nat -> fine k' s.
Proof. intros (Hp & Hc & Hk & Hi) Hle. split; [done|]. split; [done|]. split; [lia|done]. Qed.

Lemma append_result_run it k s (P : unit -> parse -> Prop) : fine (S k) s -> item_ok it ->
  (forall s', follows s s' -> fine k s' -> items (parsed (pa s')) = (items (parsed (pa s)) ++ [Some it])%list -> P tt s') ->
  wp (append_result it) P s.
Proof.
  intros (Hh & Hc & Hk & Hi) Hit HP. unfold append_result. wp_step. wp_step. cbn [id]. rewrite Hh.
  set (a0 := match cells (parsed (pa s)) with Some _ => parsed (pa s) | None => MkArray (Some [None]) (curSize (parsed (pa s))) 1 end).
  assert (arr_ok a0 /\ items a0 = items (parsed (pa s)) /\ curSize a0 = curSize (parsed (pa s))) as (Ha0 & Ei & Es).
  { unfold a0. destruct (parsed (pa s)) as [c n m]. cbn in *. destruct Hc as [[-> ->]|Hc].
    - split; [|done]. exists [None]. by repeat split.
    - destruct Hc as (l & E & Hrest). cbn in E. subst c. split; [|done]. by exists l. }
  destruct (append_run a0 it Ha0) as (a' & E & Ha' & Ei' & Es'); [lia|].
  assert (sqlite3ParsedResultArrayAppend (parsed (pa s)) it plenty = Ok (a', plenty)) as Ea.
  { unfold sqlite3ParsedResultArrayAppend. unfold a0 in E. destruct (parsed (pa s)) as [[c|] n m]; exact E. }
  wp_step. eapply wp_reads; [exact Ea|]. cbv beta iota. wp_step. apply HP.
  - split; [done|]. by split_and!.
  - split; [done|]. split; [right; done|]. cbn. split; [lia|]. rewrite Ei', Ei, Forall_app. split; [done|]. by repeat constructor; exists it.
  - cbn. by rewrite Ei', Ei.
Qed.

Lemma kind_ok ty : match ty with SQLTYPE_SELECT | SQLTYPE_REPLACE | SQLTYPE_INSERT | SQLTYPE_UPDATE | SQLTYPE_DELETE => False | _ => True end ->
  item_ok (MkResultItem NoObj ty).
Proof. by destruct ty. Qed.

Lemma deleted_item b s : b = true -> deleted b s = (Ok tt, s).
Proof. by intros ->. Qed.

Lemma record_kind_run ty k s (P : unit -> parse -> Prop) : fine (S k) s ->
  match ty with SQLTYPE_SELECT | SQLTYPE_REPLACE | SQLTYPE_INSERT | SQLTYPE_UPDATE | SQLTYPE_DELETE => False | _ => True end ->
  (forall s', follows s s' -> fine k s' -> P tt s') -> wp (record_kind ty) P s.
Proof. intros Hs Hty HP. eapply append_result_run; [done|by apply kind_ok|auto]. Qed.

Lemma Select_run p k s (P : Z -> parse -> Prop) : fine (S k) s -> maybe select_freeable p = true ->
  (forall i s', follows s s' -> fine k s' -> P i s') -> wp (sqlite3Select p) P s.
Proof.
  intros Hs Hp HP. assert (fine k s) as Hk by (eapply fine_less; [done|lia]). assert (follows s s) by (apply follows_refl, Hs).
  unfold sqlite3Select. wp_step. wp_step. destruct p as [p|]; [|wp_step; by apply HP].
  destruct (_ || _); [wp_step; by apply HP|]. wp_step. eapply append_result_run; [done|intros s0; by apply deleted_item|].
  intros s' Hf Hk' _. wp_step. by apply HP.
Qed.

Lemma Insert_run tabs sets vals sel cols o k s (P : unit -> parse -> Prop) : fine (S k) s ->
  maybe src_freeable tabs = true -> maybe list_freeable sets = true -> maybe values_freeable vals = true ->
  maybe select_freeable sel = true ->
  (forall s', follows s s' -> fine k s' -> P tt s') -> wp (sqlite3Insert tabs sets vals sel cols o) P s.
Proof.
  intros Hs H1 H2 H3 H4 HP. unfold sqlite3Insert, sqlite3InsertNew. wp_step. wp_step. apply malloc_run; [apply Hs|]. wp_step. wp_step. wp_step.
  eapply append_result_run; [done| |auto]. intros s0. destruct (o =? OE_Replace); apply deleted_item; cbn; unfold insert_freeable; cbn;
    by rewrite H1, H2, H3, H4.
Qed.

Lemma Update_run tabs ch wh o li ofs k s (P : unit -> parse -> Prop) : fine (S k) s ->
  maybe src_freeable tabs = true -> maybe list_freeable ch = true -> maybe expr_freeable wh = true ->
  maybe expr_freeable li = true -> maybe expr_freeable ofs = true ->
  (forall s', follows s s' -> fine k s' -> P tt s') -> wp (sqlite3Update tabs ch wh o li ofs) P s.
Proof.
  intros Hs H1 H2 H3 H4 H5 HP. unfold sqlite3Update, sqlite3UpdateNew. wp_step. wp_step. apply malloc_run; [apply Hs|]. wp_step.
  eapply append_result_run; [done| |auto]. intros s0. apply deleted_item. cbn. unfold update_freeable. cbn. by rewrite H1, H2, H3, H4, H5.
Qed.

Lemma DeleteFrom_run tabs wh li ofs k s (P : unit -> parse -> Prop) : fine (S k) s ->
  maybe src_freeable tabs = true -> maybe expr_freeable wh = true -> maybe expr_freeable li = true -> maybe expr_freeable ofs = true ->
  (forall s', follows s s' -> fine k s' -> P tt s') -> wp (sqlite3DeleteFrom tabs wh li ofs) P s.
Proof.
  intros Hs H1 H2 H3 H4 HP. unfold sqlite3DeleteFrom, sqlite3DeleteNew. wp_step. wp_step. apply malloc_run; [apply Hs|]. wp_step. wp_step. wp_step.
  eapply append_result_run; [done| |auto]. intros s0. apply deleted_item. cbn. unfold delete_freeable. cbn. by rewrite H1, H2, H3, H4.
Qed.

(** * Disposal *)

Lemma free_items_run l s : Forall (fun it => exists x, it = Some x /\ item_ok x) l -> free_items l s = (Ok tt, s).
Proof.
  induction 1 as [|it l (x & -> & Hx) _ IH]; [done|]. cbn [free_items]. rewrite (M_bind_run _ _ _ _ _ (Hx s)). exact IH.
Qed.

(** The statements are disposed of, and the array is empty. *)
Lemma clean_run k s : fine k s -> exists s', sqlite3ParsedResultArrayClean s = (Ok tt, s') /\ curSize (parsed (pa s')) = 0.
Proof.
  intros (Hh & Hc & Hk & Hi). unfold sqlite3ParsedResultArrayClean. rewrite (M_bind_run _ _ s (parsed (pa s)) s) by done.
  unfold items in Hi. destruct (parsed (pa s)) as [c n m] eqn:Ep. cbn in Hi |- *. destruct Hc as [[Ec En]|(l & Ec & Hl & Hn & Hm)]; cbn in *; subst c.
  - exists s. rewrite Ep. by subst n.
  - destruct (Z.leb_spec n 0); [exists s; rewrite Ep; cbn; split; [done|lia]|]. destruct (Z.ltb_spec (Z.of_nat (length l)) n); [lia|].
    rewrite (M_bind_run _ _ s tt s) by (by apply free_items_run). eexists. by split.
Qed.
End SqlTreeFacts.
