(* ===== verification/SqlYyTables.v ===== *)
(** The tables of the parser that lemon generated (sqlite-lint, lemon/parse.c).

    Module [SqlYyTables] has the tables of parse.c as the source writes them, and beside each a
    binary tree that is computed from it, for lookups in a few steps.  The grammar is that of the
    table [yyRuleName], read by [parse_rule]. *)
From S2P Require Import Prelude Machine.
From Stdlib Require Import Ascii.
From stdpp Require Import strings.
Local Open Scope Z_scope.

Module SqlYyTables.

(** * Trees for tables *)

(** The cell with index [i] is the one at the binary number [i + 1]. *)
Inductive table (A : Type) :=
| Hole
| Cell (l : table A) (x : option A) (r : table A).
Arguments Hole {A}.
Arguments Cell {A}.

Fixpoint cell_at {A} (t : table A) (p : positive) : option A :=
  match t with
  | Hole => None
  | Cell l x r => match p with xH => x | xO p => cell_at l p | xI p => cell_at r p end
  end.

Fixpoint put_cell {A} (t : table A) (p : positive) (a : A) : table A :=
  let '(l, x, r) := match t with Hole => (Hole, None, Hole) | Cell l x r => (l, x, r) end in
  match p with
  | xH => Cell l (Some a) r
  | xO p => Cell (put_cell l p a) x r
  | xI p => Cell l x (put_cell r p a)
  end.

Definition table_of {A} (l : list A) : table A :=
  snd (fold_left (fun '(p, t) a => (Pos.succ p, put_cell t p a)) l (xH, Hole)).

Definition cell {A} (t : table A) (i : Z) : option A :=
  match i with Z0 => cell_at t xH | Zpos p => cell_at t (Pos.succ p) | Zneg _ => None end.

(** [t[i]]. *)
Definition fetch {A} (t : table A) (i : Z) : result A :=
  match cell t i with Some a => Ok a | None => Undef end.

(** * Sizes *)

Definition YYNOCODE : Z := 230.
Definition YYSTACKDEPTH : nat := 100.
Definition YYNSTATE : Z := 466.
Definition YYNRULE : Z := 254.
Definition YYERRORSYMBOL : Z := 136.
Definition YY_NO_ACTION : Z := YYNSTATE + YYNRULE + 2.
Definition YY_ACCEPT_ACTION : Z := YYNSTATE + YYNRULE + 1.
Definition YY_ERROR_ACTION : Z := YYNSTATE + YYNRULE.
Definition YY_SHIFT_USE_DFLT : Z := -83.
Definition YY_SHIFT_MAX : Z := 301.
Definition YY_REDUCE_USE_DFLT : Z := -164.
Definition YY_REDUCE_MAX : Z := 221.

(** * Actions *)

Definition yy_action : list Z := [
  222; 360; 160; 141; 322; 352; 65; 64; 64; 64; 64; 426; 66; 66; 66; 66; 71; 71; 72; 72;
  72; 73; 69; 66; 66; 66; 66; 71; 71; 72; 72; 72; 73; 365; 66; 66; 66; 66; 71; 71;
  72; 72; 72; 73; 71; 71; 72; 72; 72; 73; 55; 77; 230; 373; 376; 370; 370; 65; 64; 64;
  64; 64; 410; 66; 66; 66; 66; 71; 71; 72; 72; 72; 73; 222; 329; 234; 352; 48; 380; 65;
  15; 290; 95; 374; 437; 171; 234; 162; 366; 330; 317; 286; 19; 70; 387; 164; 171; 127; 73; 289;
  278; 305; 20; 121; 161; 331; 365; 327; 368; 369; 75; 342; 3; 142; 352; 120; 447; 374; 328; 342;
  37; 408; 352; 55; 77; 230; 373; 376; 370; 370; 65; 64; 64; 64; 64; 367; 66; 66; 66; 66;
  71; 71; 72; 72; 72; 73; 222; 466; 343; 90; 304; 276; 65; 135; 323; 188; 274; 196; 266; 133;
  319; 50; 301; 54; 172; 323; 188; 274; 196; 266; 133; 289; 17; 225; 289; 172; 384; 150; 446; 365;
  251; 255; 259; 432; 268; 352; 378; 378; 434; 260; 115; 342; 39; 352; 342; 34; 55; 77; 230; 373;
  376; 370; 370; 65; 64; 64; 64; 64; 412; 66; 66; 66; 66; 71; 71; 72; 72; 72; 73; 194;
  299; 289; 222; 181; 198; 197; 128; 268; 65; 378; 378; 320; 321; 150; 243; 176; 251; 255; 259; 227;
  403; 342; 37; 1; 150; 260; 289; 251; 255; 259; 289; 72; 72; 72; 73; 365; 260; 721; 104; 302;
  438; 343; 2; 319; 399; 250; 342; 32; 463; 364; 342; 37; 55; 77; 230; 373; 376; 370; 370; 65;
  64; 64; 64; 64; 224; 66; 66; 66; 66; 71; 71; 72; 72; 72; 73; 222; 433; 289; 384; 229;
  346; 65; 129; 405; 437; 174; 180; 319; 358; 358; 448; 319; 19; 241; 258; 106; 462; 342; 23; 285;
  460; 70; 289; 164; 162; 127; 254; 384; 365; 298; 348; 348; 348; 146; 320; 321; 399; 343; 268; 319;
  378; 378; 342; 35; 140; 55; 77; 230; 373; 376; 370; 370; 65; 64; 64; 64; 64; 205; 66; 66;
  66; 66; 71; 71; 72; 72; 72; 73; 343; 289; 379; 222; 341; 10; 264; 190; 340; 65; 320; 321;
  145; 125; 320; 321; 240; 277; 242; 355; 356; 342; 37; 293; 418; 319; 289; 223; 206; 288; 289; 445;
  161; 413; 396; 319; 365; 273; 395; 444; 140; 142; 320; 321; 319; 57; 342; 34; 419; 207; 342; 39;
  99; 55; 77; 230; 373; 376; 370; 370; 65; 64; 64; 64; 64; 431; 66; 66; 66; 66; 71; 71;
  72; 72; 72; 73; 343; 361; 383; 222; 394; 246; 156; 183; 70; 65; 164; 173; 127; 304; 276; 223;
  237; 355; 356; 172; 320; 321; 226; 407; 221; 225; 289; 362; 436; 130; 320; 321; 268; 291; 378; 378;
  365; 318; 429; 320; 321; 371; 139; 144; 149; 426; 342; 28; 362; 249; 130; 440; 143; 55; 77; 230;
  373; 376; 370; 370; 65; 64; 64; 64; 64; 294; 66; 66; 66; 66; 71; 71; 72; 72; 72; 73;
  222; 126; 289; 123; 156; 138; 65; 289; 353; 289; 296; 289; 235; 341; 289; 105; 289; 340; 289; 392;
  100; 289; 342; 26; 394; 289; 18; 342; 33; 342; 30; 342; 27; 365; 342; 31; 342; 44; 342; 43;
  337; 342; 29; 417; 216; 342; 22; 424; 338; 402; 55; 77; 230; 373; 376; 370; 370; 65; 64; 64;
  64; 64; 409; 66; 66; 66; 66; 71; 71; 72; 72; 72; 73; 289; 209; 289; 222; 289; 213; 289;
  233; 289; 65; 289; 424; 289; 393; 182; 424; 503; 289; 424; 289; 342; 21; 342; 94; 342; 93; 342;
  42; 342; 46; 342; 81; 342; 79; 162; 56; 365; 342; 83; 342; 25; 117; 184; 416; 239; 51; 424;
  201; 231; 325; 326; 167; 214; 55; 77; 230; 373; 376; 370; 370; 65; 64; 64; 64; 64; 289; 66;
  66; 66; 66; 71; 71; 72; 72; 72; 73; 222; 289; 107; 96; 289; 178; 65; 289; 184; 342; 38;
  289; 208; 214; 289; 292; 289; 214; 289; 415; 214; 342; 82; 289; 342; 16; 303; 342; 84; 2; 99;
  342; 91; 365; 342; 92; 342; 24; 342; 41; 141; 250; 352; 342; 40; 152; 250; 179; 195; 399; 55;
  77; 230; 373; 376; 370; 370; 65; 64; 64; 64; 64; 289; 66; 66; 66; 66; 71; 71; 72; 72;
  72; 73; 222; 382; 289; 263; 184; 334; 65; 343; 435; 342; 45; 137; 457; 461; 335; 202; 162; 430;
  403; 15; 422; 99; 342; 36; 458; 414; 401; 122; 398; 187; 76; 131; 282; 365; 155; 184; 184; 168;
  99; 420; 352; 47; 76; 267; 131; 134; 343; 136; 125; 6; 191; 77; 230; 373; 376; 370; 370; 65;
  64; 64; 64; 64; 343; 66; 66; 66; 66; 71; 71; 72; 72; 72; 73; 222; 452; 185; 347; 238;
  421; 65; 343; 439; 385; 199; 375; 212; 391; 423; 357; 413; 312; 359; 193; 116; 425; 270; 257; 253;
  215; 59; 388; 389; 427; 345; 428; 228; 365; 175; 8; 169; 390; 455; 344; 56; 194; 299; 98; 157;
  181; 198; 197; 9; 103; 177; 284; 230; 373; 376; 370; 370; 65; 64; 64; 64; 64; 4; 66; 66;
  66; 66; 71; 71; 72; 72; 72; 73; 308; 310; 333; 315; 63; 261; 271; 151; 453; 232; 108; 4;
  295; 11; 111; 287; 244; 463; 324; 265; 404; 68; 281; 189; 449; 159; 63; 261; 279; 147; 336; 232;
  307; 339; 451; 311; 269; 87; 219; 400; 283; 245; 200; 170; 281; 52; 53; 203; 109; 443; 442; 300;
  166; 364; 441; 218; 204; 332; 456; 165; 210; 256; 236; 258; 106; 462; 49; 386; 285; 158; 85; 60;
  61; 162; 80; 364; 354; 14; 97; 63; 248; 247; 5; 217; 346; 505; 389; 504; 363; 62; 252; 89;
  397; 60; 61; 406; 211; 86; 314; 102; 162; 63; 248; 247; 381; 58; 346; 262; 114; 88; 182; 153;
  110; 67; 348; 348; 348; 349; 350; 351; 12; 154; 113; 377; 192; 13; 316; 372; 465; 163; 364; 275;
  101; 280; 464; 450; 348; 348; 348; 349; 350; 351; 12; 4; 459; 74; 124; 138; 118; 119; 220; 186;
  272; 306; 132; 78; 148; 433; 63; 261; 411; 346; 112; 232; 454; 4; 309; 297; 7; 485; 313; 485;
  15; 485; 485; 485; 281; 485; 485; 485; 63; 261; 485; 485; 485; 232; 485; 485; 485; 485; 485; 348;
  348; 348; 485; 485; 485; 485; 281; 485; 485; 485; 485; 485; 485; 485; 485; 364; 485; 485; 485; 485;
  485; 485; 485; 485; 485; 485; 485; 485; 485; 485; 485; 485; 485; 60; 61; 485; 485; 364; 485; 485;
  485; 63; 248; 247; 485; 485; 346; 485; 485; 485; 485; 485; 485; 485; 485; 60; 61; 485; 485; 485;
  485; 485; 485; 63; 248; 247; 485; 485; 346; 485; 485; 485; 485; 485; 485; 485; 348; 348; 348; 349;
  350; 351; 12; 485; 485; 485; 485; 485; 485; 485; 485; 485; 485; 485; 485; 485; 485; 485; 348; 348;
  348; 349; 350; 351; 12 ].
Definition yy_action_at : table Z := Eval vm_compute in table_of yy_action.

Definition yy_lookahead : list Z := [
  16; 83; 84; 19; 167; 21; 22; 74; 75; 76; 77; 174; 79; 80; 81; 82; 83; 84; 85; 86;
  87; 88; 78; 79; 80; 81; 82; 83; 84; 85; 86; 87; 88; 49; 79; 80; 81; 82; 83; 84;
  85; 86; 87; 88; 83; 84; 85; 86; 87; 88; 66; 67; 68; 69; 70; 71; 72; 73; 74; 75;
  76; 77; 2; 79; 80; 81; 82; 83; 84; 85; 86; 87; 88; 16; 12; 16; 92; 20; 2; 22;
  20; 56; 23; 92; 148; 26; 16; 112; 49; 27; 154; 148; 156; 217; 218; 219; 26; 221; 88; 148;
  140; 141; 1; 20; 144; 43; 49; 45; 69; 70; 53; 168; 169; 153; 21; 179; 180; 126; 56; 168;
  169; 2; 21; 66; 67; 68; 69; 70; 71; 72; 73; 74; 75; 76; 77; 96; 79; 80; 81; 82;
  83; 84; 85; 86; 87; 88; 16; 0; 188; 19; 3; 4; 22; 94; 95; 96; 97; 98; 99; 100;
  21; 133; 211; 135; 105; 95; 96; 97; 98; 99; 100; 148; 1; 213; 148; 105; 225; 94; 180; 49;
  97; 98; 99; 168; 108; 92; 110; 111; 168; 106; 19; 168; 169; 92; 168; 169; 66; 67; 68; 69;
  70; 71; 72; 73; 74; 75; 76; 77; 2; 79; 80; 81; 82; 83; 84; 85; 86; 87; 88; 7;
  8; 148; 16; 11; 12; 13; 153; 108; 22; 110; 111; 92; 93; 94; 208; 209; 97; 98; 99; 216;
  148; 168; 169; 1; 94; 106; 148; 97; 98; 99; 148; 85; 86; 87; 88; 49; 106; 137; 138; 139;
  180; 188; 142; 21; 160; 148; 168; 169; 56; 65; 168; 169; 66; 67; 68; 69; 70; 71; 72; 73;
  74; 75; 76; 77; 211; 79; 80; 81; 82; 83; 84; 85; 86; 87; 88; 16; 92; 148; 225; 207;
  96; 22; 153; 199; 148; 189; 150; 21; 126; 127; 154; 21; 156; 211; 102; 103; 104; 168; 169; 107;
  2; 217; 148; 219; 112; 221; 148; 225; 49; 212; 126; 127; 128; 153; 92; 93; 160; 188; 108; 21;
  110; 111; 168; 169; 50; 66; 67; 68; 69; 70; 71; 72; 73; 74; 75; 76; 77; 2; 79; 80;
  81; 82; 83; 84; 85; 86; 87; 88; 188; 148; 2; 16; 109; 1; 16; 199; 113; 22; 92; 93;
  200; 201; 92; 93; 25; 205; 163; 164; 165; 168; 169; 148; 33; 21; 148; 101; 222; 141; 148; 174;
  144; 176; 116; 21; 49; 16; 116; 182; 50; 153; 92; 93; 21; 134; 168; 169; 57; 148; 168; 169;
  20; 66; 67; 68; 69; 70; 71; 72; 73; 74; 75; 76; 77; 2; 79; 80; 81; 82; 83; 84;
  85; 86; 87; 88; 188; 160; 225; 16; 20; 24; 227; 26; 217; 22; 219; 209; 221; 3; 4; 101;
  163; 164; 165; 105; 92; 93; 216; 85; 157; 213; 148; 160; 161; 162; 92; 93; 108; 66; 110; 111;
  49; 166; 167; 92; 93; 96; 102; 103; 104; 174; 168; 169; 160; 161; 162; 95; 1; 66; 67; 68;
  69; 70; 71; 72; 73; 74; 75; 76; 77; 85; 79; 80; 81; 82; 83; 84; 85; 86; 87; 88;
  16; 93; 148; 148; 227; 20; 22; 148; 2; 148; 21; 148; 23; 109; 148; 124; 148; 113; 148; 20;
  25; 148; 168; 169; 116; 148; 20; 168; 169; 168; 169; 168; 169; 49; 168; 169; 168; 169; 168; 169;
  30; 168; 169; 23; 148; 168; 169; 148; 38; 148; 66; 67; 68; 69; 70; 71; 72; 73; 74; 75;
  76; 77; 2; 79; 80; 81; 82; 83; 84; 85; 86; 87; 88; 148; 148; 148; 16; 148; 96; 148;
  181; 148; 22; 148; 148; 148; 202; 105; 148; 114; 148; 148; 148; 168; 169; 168; 169; 168; 169; 168;
  169; 168; 169; 168; 169; 168; 169; 112; 123; 49; 168; 169; 168; 169; 115; 148; 96; 181; 134; 148;
  125; 181; 184; 185; 181; 226; 66; 67; 68; 69; 70; 71; 72; 73; 74; 75; 76; 77; 148; 79;
  80; 81; 82; 83; 84; 85; 86; 87; 88; 16; 148; 25; 148; 148; 187; 22; 148; 148; 168; 169;
  148; 2; 226; 148; 148; 148; 226; 148; 177; 226; 168; 169; 148; 168; 169; 139; 168; 169; 142; 20;
  168; 169; 49; 168; 169; 168; 169; 168; 169; 19; 148; 21; 168; 169; 153; 148; 187; 226; 160; 66;
  67; 68; 69; 70; 71; 72; 73; 74; 75; 76; 77; 148; 79; 80; 81; 82; 83; 84; 85; 86;
  87; 88; 16; 2; 148; 2; 148; 37; 22; 188; 159; 168; 169; 153; 2; 2; 46; 199; 112; 168;
  148; 20; 2; 20; 168; 169; 2; 148; 2; 153; 148; 125; 20; 20; 212; 49; 191; 148; 148; 212;
  20; 177; 92; 198; 20; 187; 20; 153; 188; 200; 201; 190; 148; 67; 68; 69; 70; 71; 72; 73;
  74; 75; 76; 77; 188; 79; 80; 81; 82; 83; 84; 85; 86; 87; 88; 16; 187; 187; 148; 207;
  177; 22; 188; 148; 148; 148; 220; 192; 171; 171; 228; 176; 145; 228; 171; 190; 171; 220; 224; 175;
  193; 122; 171; 21; 159; 197; 178; 47; 49; 26; 1; 210; 159; 197; 188; 123; 7; 8; 1; 210;
  11; 12; 13; 20; 214; 193; 151; 68; 69; 70; 71; 72; 73; 74; 75; 76; 77; 1; 79; 80;
  81; 82; 83; 84; 85; 86; 87; 88; 10; 143; 178; 22; 16; 17; 155; 114; 149; 21; 214; 1;
  15; 1; 186; 215; 101; 56; 170; 117; 204; 101; 34; 203; 149; 210; 16; 17; 15; 147; 170; 21;
  143; 170; 18; 143; 146; 1; 172; 204; 215; 118; 203; 196; 34; 121; 133; 195; 149; 170; 170; 120;
  223; 65; 170; 172; 194; 170; 197; 210; 193; 155; 152; 102; 103; 104; 1; 149; 107; 173; 173; 83;
  84; 112; 158; 65; 2; 20; 35; 91; 92; 93; 119; 25; 96; 114; 21; 114; 2; 22; 51; 1;
  116; 83; 84; 85; 2; 1; 21; 115; 112; 91; 92; 93; 41; 1; 96; 51; 1; 1; 105; 100;
  1; 1; 126; 127; 128; 129; 130; 131; 132; 67; 25; 109; 14; 1; 21; 96; 6; 51; 65; 5;
  2; 16; 3; 17; 126; 127; 128; 129; 130; 131; 132; 1; 2; 1; 114; 20; 83; 84; 2; 14;
  20; 2; 114; 22; 114; 92; 16; 17; 2; 96; 124; 21; 17; 1; 9; 22; 119; 229; 21; 229;
  20; 229; 229; 229; 34; 229; 229; 229; 16; 17; 229; 229; 229; 21; 229; 229; 229; 229; 229; 126;
  127; 128; 229; 229; 229; 229; 34; 229; 229; 229; 229; 229; 229; 229; 229; 65; 229; 229; 229; 229;
  229; 229; 229; 229; 229; 229; 229; 229; 229; 229; 229; 229; 229; 83; 84; 229; 229; 65; 229; 229;
  229; 91; 92; 93; 229; 229; 96; 229; 229; 229; 229; 229; 229; 229; 229; 83; 84; 229; 229; 229;
  229; 229; 229; 91; 92; 93; 229; 229; 96; 229; 229; 229; 229; 229; 229; 229; 126; 127; 128; 129;
  130; 131; 132; 229; 229; 229; 229; 229; 229; 229; 229; 229; 229; 229; 229; 229; 229; 229; 126; 127;
  128; 129; 130; 131; 132 ].
Definition yy_lookahead_at : table Z := Eval vm_compute in table_of yy_lookahead.

Definition YY_SZ_ACTTAB : Z := Eval vm_compute in Z.of_nat (length yy_action).

Definition yy_shift_ofst : list Z := [
  454; 876; 849; (-16); 876; 1052; 1052; 1052; 212; 139; (-25); 1030; 1052; 1052; 1052; 1052; (-56); 391; (-82); 93;
  (-82); 57; 355; 580; 130; 206; 279; 504; 431; 653; 653; 653; 653; 653; 653; 653; 653; 653; 653; 653;
  653; 653; 653; 653; 726; 799; 799; 898; 1052; 1052; 1052; 1052; 1052; 1052; 1052; 1052; 1052; 1052; 1052; 1052;
  1052; 1052; 1052; 1052; 1052; 1052; 1052; 1052; 1052; 1052; 1052; 1052; 1052; 1052; 1052; 1052; 1052; 1052; 1052; (-67);
  59; (-45); (-45); (-39); 166; 358; 391; 391; 391; 391; 93; 10; (-83); (-83); (-83); 953; 70; 62; 318; 391;
  391; 690; 391; 515; 147; 391; 391; 391; 646; 690; 391; 391; 391; 391; (-25); (-25); (-83); (-83); 204; 204;
  83; 150; 76; 286; 382; 372; 290; 242; 368; 119; 101; 391; 391; 391; 230; 391; 428; 230; 391; 359;
  391; 391; 230; 424; 359; 428; 230; 391; 391; 359; 391; 391; 230; 391; (-9); 519; 182; 530; 294; 530;
  182; 171; 263; 530; (-9); 530; 28; 400; 505; 530; 719; 822; 800; 823; (-25); 822; 823; 719; 732; 857;
  843; 878; 800; 869; 781; 857; 885; 900; 803; 790; 808; 781; 901; 803; 878; 823; 803; 904; 878; 924;
  790; 900; 808; 811; 812; 803; 801; 781; 803; 924; 819; 803; 732; 803; 823; 719; 781; 869; (-83); (-83);
  (-83); (-83); 39; 384; 741; 411; 752; 764; 710; 753; 389; 743; 495; 679; 502; 425; 509; 526; 766; 760;
  540; 60; 962; 945; 931; 851; 946; 859; 861; 974; 955; 927; 978; 982; 864; 984; 965; 951; 872; 992;
  944; 995; 996; 899; 893; 999; 1000; 985; 902; 998; 942; 993; 1012; 919; 966; 1010; 1014; 1018; 1019; 1005;
  1006; 1032; 1015; 1020; 1036; 1025; 920; 1020; 1039; 928; 926; 25; 1021; 930; 1046; 1035; 1033; 1037; 1015; 1045;
  937; 1040 ].
Definition yy_shift_ofst_at : table Z := Eval vm_compute in table_of yy_shift_ofst.

Definition yy_reduce_ofst : list Z := [
  120; 73; (-40); 104; 149; 26; 102; (-49); 256; (-64); 180; 23; 174; 250; 246; 221; (-124); 156; 223; 311;
  297; 235; 235; 235; 235; 235; 235; 235; 235; 235; 235; 235; 235; 235; 235; 235; 235; 235; 235; 235;
  235; 235; 235; 235; 235; 235; 235; (-57); 98; 322; 374; 379; 381; 383; 386; 388; 390; 393; 397; 445;
  447; 449; 451; 453; 455; 457; 462; 464; 510; 522; 525; 528; 532; 535; 537; 539; 544; 583; 596; 235;
  315; 235; 235; 235; 235; 225; 419; 456; 460; 463; 332; 235; 235; 235; 235; 591; (-163); 458; 92; 491;
  117; 176; 487; 561; 556; 529; 598; 562; 600; 558; 612; 629; 630; 567; 616; 634; 585; 589; 15; 20;
  (-2); 80; 116; 178; 243; 269; 375; 416; 116; 116; 285; 421; 243; 446; 116; 524; 404; 116; 536; 511;
  619; 622; 116; 601; 604; 404; 116; 644; 670; 643; 675; 676; 116; 677; 606; 635; 602; 657; 655; 658;
  605; 687; 645; 663; 617; 665; 614; 664; 647; 671; 648; 685; 668; 641; 666; 693; 649; 656; 672; 650;
  715; 746; 712; 739; 747; 684; 716; 688; 736; 704; 708; 763; 770; 748; 777; 703; 751; 778; 780; 754;
  723; 713; 727; 735; 740; 767; 717; 787; 768; 771; 750; 772; 755; 775; 737; 749; 806; 794; 784; 785;
  798; 804 ].
Definition yy_reduce_ofst_at : table Z := Eval vm_compute in table_of yy_reduce_ofst.

Definition yy_default : list Z := [
  473; 706; 720; 587; 720; 720; 706; 706; 720; 720; 591; 720; 702; 720; 720; 706; 676; 720; 716; 506;
  716; 622; 720; 720; 720; 720; 720; 720; 720; 697; 620; 699; 624; 698; 611; 701; 629; 705; 603; 643;
  642; 623; 630; 627; 666; 665; 682; 720; 720; 720; 720; 720; 720; 720; 720; 720; 720; 720; 720; 720;
  720; 720; 720; 720; 720; 720; 720; 720; 720; 720; 720; 720; 720; 720; 720; 720; 720; 720; 720; 668;
  499; 667; 675; 669; 670; 560; 720; 720; 720; 720; 720; 671; 672; 683; 684; 720; 720; 720; 720; 720;
  720; 587; 720; 720; 473; 720; 720; 720; 720; 587; 720; 720; 720; 720; 720; 720; 581; 591; 720; 720;
  551; 720; 720; 720; 720; 720; 720; 720; 720; 720; 508; 720; 720; 720; 489; 720; 589; 636; 720; 720;
  720; 720; 570; 579; 720; 595; 594; 720; 720; 720; 720; 720; 633; 720; 720; 588; 720; 614; 530; 614;
  720; 720; 579; 614; 720; 614; 700; 533; 626; 614; 621; 720; 547; 615; 720; 720; 615; 621; 626; 644;
  550; 478; 547; 497; 596; 644; 569; 720; 562; 606; 604; 596; 484; 562; 478; 615; 562; 487; 478; 707;
  606; 720; 604; 607; 619; 562; 720; 596; 562; 707; 617; 562; 626; 562; 615; 621; 596; 497; 535; 535;
  492; 516; 720; 720; 720; 720; 720; 720; 720; 720; 720; 720; 652; 720; 720; 720; 488; 720; 720; 720;
  720; 720; 720; 608; 720; 720; 720; 653; 657; 720; 720; 720; 720; 720; 720; 720; 720; 720; 720; 720;
  720; 720; 720; 720; 720; 720; 720; 720; 573; 720; 720; 720; 720; 720; 720; 720; 474; 720; 720; 720;
  720; 720; 635; 631; 720; 720; 720; 634; 720; 720; 720; 720; 720; 654; 720; 720; 493; 720; 632; 720;
  720; 618; 468; 467; 471; 469; 470; 476; 479; 477; 480; 481; 482; 494; 495; 498; 496; 490; 515; 503;
  504; 505; 517; 524; 525; 563; 564; 565; 566; 717; 718; 719; 526; 545; 548; 549; 527; 612; 613; 528;
  577; 578; 649; 571; 572; 576; 651; 655; 656; 658; 659; 660; 502; 509; 510; 513; 514; 712; 714; 713;
  715; 512; 511; 661; 664; 673; 674; 680; 686; 690; 678; 679; 681; 685; 687; 688; 689; 574; 575; 693;
  695; 696; 691; 703; 704; 597; 694; 677; 609; 501; 616; 610; 580; 590; 599; 600; 601; 602; 585; 586;
  592; 605; 647; 648; 593; 582; 583; 584; 692; 650; 662; 663; 529; 536; 537; 538; 541; 542; 543; 544;
  539; 540; 708; 709; 711; 710; 531; 532; 546; 518; 519; 520; 521; 657; 522; 523; 507; 500; 552; 555;
  534; 556; 557; 558; 559; 561; 553; 554; 491; 483; 485; 486; 567; 598; 568; 625; 628; 639; 640; 641;
  645; 646; 637; 638; 472; 475 ].
Definition yy_default_at : table Z := Eval vm_compute in table_of yy_default.

(** * Fallback tokens *)

Definition yyFallback : list Z := [
  0; 0; 0; 0; 21; 21; 21; 21; 0; 0; 0; 0; 0; 0; 0; 21; 0; 0; 21; 0;
  0; 0; 0; 0; 0; 0; 0; 21; 21; 21; 21; 21; 21; 21; 21; 21; 21; 21; 21; 21;
  21; 21; 21; 21; 21; 21; 21; 21; 21; 21; 21; 21; 21; 21; 21; 21; 21; 21; 21; 21;
  21; 21; 21; 21; 21; 21; 0; 0; 0; 0; 0; 0; 0; 0; 0; 0; 0; 0; 0; 0;
  0; 0; 0; 0; 0; 0; 0; 0; 0; 0; 0; 0; 0; 0; 0; 0; 0; 0; 0; 0;
  0; 0; 0; 0; 0; 0; 0; 0; 0; 0; 0; 0; 0; 0; 0; 0; 0; 0; 0; 0;
  0; 0; 0; 0; 0; 0; 0; 0; 0; 0; 0; 0; 0; 0; 0; 0 ].
Definition yyFallback_at : table Z := Eval vm_compute in table_of yyFallback.

(** * The grammar *)

Definition yyTokenName : list string := [
  "$"; "LP"; "RP"; "SEMI"; "EXPLAIN"; "QUERY";
  "PLAN"; "BEGIN"; "START"; "TRANSACTION"; "WORK"; "COMMIT";
  "ROLLBACK"; "CREATE"; "TABLE"; "IF"; "NOT"; "EXISTS";
  "TEMP"; "AS"; "COMMA"; "ID"; "EQ"; "DEFAULT";
  "CHARSET"; "SET"; "COLLATE"; "ABORT"; "AFTER"; "ANALYZE";
  "ASC"; "ATTACH"; "BEFORE"; "CASCADE"; "CAST"; "CONFLICT";
  "DATABASE"; "DEFERRED"; "DESC"; "DETACH"; "EACH"; "END";
  "EXCLUSIVE"; "FAIL"; "FOR"; "IGNORE"; "IMMEDIATE"; "INITIALLY";
  "INSTEAD"; "LIKE_KW"; "MATCH"; "KEY"; "OF"; "OFFSET";
  "PRAGMA"; "RAISE"; "REPLACE"; "RESTRICT"; "ROW"; "STATEMENT";
  "TRIGGER"; "VACUUM"; "VIEW"; "REINDEX"; "RENAME"; "CTIME_KW";
  "OR"; "AND"; "IS"; "BETWEEN"; "IN"; "ISNULL";
  "NOTNULL"; "NE"; "GT"; "LE"; "LT"; "GE";
  "ESCAPE"; "BITAND"; "BITOR"; "LSHIFT"; "RSHIFT"; "PLUS";
  "MINUS"; "STAR"; "SLASH"; "REM"; "CONCAT"; "UMINUS";
  "UPLUS"; "BITNOT"; "STRING"; "JOIN_KW"; "CONSTRAINT"; "AUTOINCR";
  "NULL"; "PRIMARY"; "UNIQUE"; "CHECK"; "REFERENCES"; "ON";
  "DELETE"; "UPDATE"; "INSERT"; "DEFERRABLE"; "FOREIGN"; "DROP";
  "UNION"; "ALL"; "EXCEPT"; "INTERSECT"; "SELECT"; "DISTINCT";
  "DOT"; "FROM"; "JOIN"; "USING"; "ORDER"; "BY";
  "GROUP"; "HAVING"; "LIMIT"; "WHERE"; "INTO"; "VALUES";
  "INTEGER"; "FLOAT"; "BLOB"; "REGISTER"; "VARIABLE"; "VARIABLE1";
  "CASE"; "WHEN"; "THEN"; "ELSE"; "error"; "input";
  "cmdlist"; "ecmd"; "cmdx"; "cmd"; "explain"; "trans_opt";
  "create_table"; "create_table_args"; "temp"; "ifnotexists"; "nm"; "dbnm";
  "columnlist"; "conslist_opt"; "table_opt"; "select"; "column"; "eq_or_null";
  "columnid"; "type"; "carglist"; "id"; "ids"; "typetoken";
  "typename"; "signed"; "plus_num"; "minus_num"; "carg"; "ccons";
  "term"; "expr"; "onconf"; "sortorder"; "idxlist_opt"; "refargs";
  "defer_subclause"; "autoinc"; "refarg"; "refact"; "init_deferred_pred_opt"; "conslist";
  "tcons"; "idxlist"; "defer_subclause_opt"; "orconf"; "resolvetype"; "raisetype";
  "ifexists"; "fullname"; "oneselect"; "multiselect_op"; "distinct"; "selcollist";
  "from"; "where_opt"; "groupby_opt"; "having_opt"; "orderby_opt"; "limit_opt";
  "sclp"; "as"; "seltablist"; "stl_prefix"; "joinop"; "on_opt";
  "using_opt"; "seltablist_paren"; "joinop2"; "inscollist"; "sortlist"; "sortitem";
  "collate"; "exprlist"; "setlist"; "insert_cmd"; "inscollist_opt"; "valueslist";
  "itemlist"; "likeop"; "escape"; "between_op"; "between_elem"; "in_op";
  "case_operand"; "case_exprlist"; "case_else"; "expritem"; "idxitem"; "plus_opt";
  "number" ]%string.

Definition yyRuleName : list string := [
  "input ::= cmdlist";
  "cmdlist ::= cmdlist ecmd";
  "cmdlist ::= ecmd";
  "cmdx ::= cmd";
  "cmdx ::= LP cmd RP";
  "ecmd ::= SEMI";
  "ecmd ::= explain cmdx SEMI";
  "explain ::=";
  "explain ::= EXPLAIN";
  "explain ::= EXPLAIN QUERY PLAN";
  "cmd ::= BEGIN trans_opt";
  "cmd ::= START TRANSACTION";
  "trans_opt ::=";
  "trans_opt ::= WORK";
  "cmd ::= COMMIT trans_opt";
  "cmd ::= ROLLBACK trans_opt";
  "cmd ::= create_table create_table_args";
  "create_table ::= CREATE temp TABLE ifnotexists nm dbnm";
  "ifnotexists ::=";
  "ifnotexists ::= IF NOT EXISTS";
  "temp ::= TEMP";
  "temp ::=";
  "create_table_args ::= LP columnlist conslist_opt RP table_opt";
  "create_table_args ::= AS select";
  "columnlist ::= columnlist COMMA column";
  "columnlist ::= column";
  "table_opt ::=";
  "table_opt ::= table_opt ID";
  "table_opt ::= table_opt ID EQ ID";
  "table_opt ::= table_opt DEFAULT CHARSET SET eq_or_null ID";
  "table_opt ::= table_opt DEFAULT COLLATE eq_or_null ID";
  "eq_or_null ::=";
  "eq_or_null ::= EQ";
  "column ::= columnid type carglist";
  "columnid ::= nm";
  "id ::= ID";
  "ids ::= ID|STRING";
  "nm ::= ID";
  "nm ::= STRING";
  "nm ::= JOIN_KW";
  "type ::=";
  "type ::= typetoken";
  "typetoken ::= typename";
  "typetoken ::= typename LP signed RP";
  "typetoken ::= typename LP signed COMMA signed RP";
  "typename ::= ids";
  "typename ::= typename ids";
  "signed ::= plus_num";
  "signed ::= minus_num";
  "carglist ::= carglist carg";
  "carglist ::=";
  "carg ::= CONSTRAINT nm ccons";
  "carg ::= ccons";
  "carg ::= DEFAULT term";
  "carg ::= DEFAULT LP expr RP";
  "carg ::= DEFAULT PLUS term";
  "carg ::= DEFAULT MINUS term";
  "carg ::= DEFAULT id";
  "ccons ::= AUTOINCR";
  "ccons ::= NULL onconf";
  "ccons ::= NOT NULL onconf";
  "ccons ::= PRIMARY KEY sortorder onconf";
  "ccons ::= UNIQUE onconf";
  "ccons ::= CHECK LP expr RP";
  "ccons ::= REFERENCES nm idxlist_opt refargs";
  "ccons ::= defer_subclause";
  "ccons ::= COLLATE id";
  "autoinc ::=";
  "autoinc ::= AUTOINCR";
  "refargs ::=";
  "refargs ::= refargs refarg";
  "refarg ::= MATCH nm";
  "refarg ::= ON DELETE refact";
  "refarg ::= ON UPDATE refact";
  "refarg ::= ON INSERT refact";
  "refact ::= SET NULL";
  "refact ::= SET DEFAULT";
  "refact ::= CASCADE";
  "refact ::= RESTRICT";
  "defer_subclause ::= NOT DEFERRABLE init_deferred_pred_opt";
  "defer_subclause ::= DEFERRABLE init_deferred_pred_opt";
  "init_deferred_pred_opt ::=";
  "init_deferred_pred_opt ::= INITIALLY DEFERRED";
  "init_deferred_pred_opt ::= INITIALLY IMMEDIATE";
  "conslist_opt ::=";
  "conslist_opt ::= COMMA conslist";
  "conslist ::= conslist COMMA tcons";
  "conslist ::= conslist tcons";
  "conslist ::= tcons";
  "tcons ::= CONSTRAINT nm";
  "tcons ::= PRIMARY KEY LP idxlist autoinc RP onconf";
  "tcons ::= UNIQUE LP idxlist RP onconf";
  "tcons ::= CHECK LP expr RP onconf";
  "tcons ::= FOREIGN KEY LP idxlist RP REFERENCES nm idxlist_opt refargs defer_subclause_opt";
  "defer_subclause_opt ::=";
  "defer_subclause_opt ::= defer_subclause";
  "onconf ::=";
  "onconf ::= ON CONFLICT resolvetype";
  "resolvetype ::= raisetype";
  "resolvetype ::= IGNORE";
  "resolvetype ::= REPLACE";
  "cmd ::= DROP TABLE ifexists fullname";
  "ifexists ::= IF EXISTS";
  "ifexists ::=";
  "cmd ::= select";
  "select ::= oneselect";
  "select ::= select multiselect_op oneselect";
  "multiselect_op ::= UNION";
  "multiselect_op ::= UNION ALL";
  "multiselect_op ::= EXCEPT|INTERSECT";
  "oneselect ::= SELECT distinct selcollist from where_opt groupby_opt having_opt orderby_opt limit_opt";
  "distinct ::= DISTINCT";
  "distinct ::= ALL";
  "distinct ::=";
  "sclp ::= selcollist COMMA";
  "sclp ::=";
  "selcollist ::= sclp expr as";
  "selcollist ::= sclp STAR";
  "selcollist ::= sclp nm DOT STAR";
  "as ::= AS nm";
  "as ::= ids";
  "as ::=";
  "from ::=";
  "from ::= FROM seltablist";
  "stl_prefix ::= seltablist joinop";
  "stl_prefix ::=";
  "seltablist ::= stl_prefix nm dbnm as on_opt using_opt";
  "seltablist ::= stl_prefix LP seltablist_paren RP as on_opt using_opt";
  "seltablist_paren ::= select";
  "seltablist_paren ::= seltablist";
  "dbnm ::=";
  "dbnm ::= DOT nm";
  "fullname ::= nm dbnm";
  "joinop ::= COMMA|JOIN";
  "joinop ::= JOIN_KW JOIN";
  "joinop ::= JOIN_KW nm JOIN";
  "joinop ::= JOIN_KW nm nm JOIN";
  "on_opt ::= ON expr";
  "on_opt ::=";
  "using_opt ::= USING LP inscollist RP";
  "using_opt ::=";
  "orderby_opt ::=";
  "orderby_opt ::= ORDER BY sortlist";
  "sortlist ::= sortlist COMMA sortitem collate sortorder";
  "sortlist ::= sortitem collate sortorder";
  "sortitem ::= expr";
  "sortorder ::= ASC";
  "sortorder ::= DESC";
  "sortorder ::=";
  "collate ::=";
  "collate ::= COLLATE id";
  "groupby_opt ::=";
  "groupby_opt ::= GROUP BY exprlist";
  "having_opt ::=";
  "having_opt ::= HAVING expr";
  "limit_opt ::=";
  "limit_opt ::= LIMIT expr";
  "limit_opt ::= LIMIT expr OFFSET expr";
  "limit_opt ::= LIMIT expr COMMA expr";
  "cmd ::= DELETE FROM fullname where_opt limit_opt";
  "where_opt ::=";
  "where_opt ::= WHERE expr";
  "cmd ::= UPDATE fullname SET setlist where_opt limit_opt";
  "setlist ::= setlist COMMA nm EQ expr";
  "setlist ::= nm EQ expr";
  "cmd ::= insert_cmd INTO fullname inscollist_opt VALUES valueslist";
  "cmd ::= insert_cmd INTO fullname inscollist_opt SET setlist";
  "cmd ::= insert_cmd INTO fullname inscollist_opt select";
  "cmd ::= insert_cmd OR REPLACE INTO fullname inscollist_opt VALUES valueslist";
  "cmd ::= insert_cmd OR REPLACE INTO fullname inscollist_opt SET setlist";
  "cmd ::= insert_cmd OR REPLACE INTO fullname inscollist_opt select";
  "insert_cmd ::= INSERT";
  "insert_cmd ::= REPLACE";
  "valueslist ::= valueslist COMMA LP itemlist RP";
  "valueslist ::= LP itemlist RP";
  "valueslist ::= LP RP";
  "itemlist ::= itemlist COMMA expr";
  "itemlist ::= expr";
  "inscollist_opt ::=";
  "inscollist_opt ::= LP RP";
  "inscollist_opt ::= LP inscollist RP";
  "inscollist ::= inscollist COMMA nm";
  "inscollist ::= nm";
  "expr ::= term";
  "expr ::= LP expr RP";
  "term ::= NULL";
  "expr ::= ID";
  "expr ::= JOIN_KW";
  "expr ::= nm DOT nm";
  "expr ::= nm DOT nm DOT nm";
  "term ::= INTEGER|FLOAT|BLOB";
  "term ::= STRING";
  "expr ::= REGISTER";
  "expr ::= VARIABLE";
  "expr ::= VARIABLE1";
  "expr ::= CAST LP expr AS typetoken RP";
  "expr ::= ID LP distinct exprlist RP";
  "expr ::= ID LP STAR RP";
  "term ::= CTIME_KW";
  "expr ::= expr AND expr";
  "expr ::= expr OR expr";
  "expr ::= expr LT|GT|GE|LE expr";
  "expr ::= expr EQ|NE expr";
  "expr ::= expr BITAND|BITOR|LSHIFT|RSHIFT expr";
  "expr ::= expr PLUS|MINUS expr";
  "expr ::= expr STAR|SLASH|REM expr";
  "expr ::= expr CONCAT expr";
  "likeop ::= LIKE_KW";
  "likeop ::= NOT LIKE_KW";
  "escape ::= ESCAPE expr";
  "escape ::=";
  "expr ::= expr likeop expr escape";
  "expr ::= expr ISNULL|NOTNULL";
  "expr ::= expr IS NULL";
  "expr ::= expr NOT NULL";
  "expr ::= expr IS NOT NULL";
  "expr ::= NOT|BITNOT expr";
  "expr ::= MINUS expr";
  "expr ::= PLUS expr";
  "between_op ::= BETWEEN";
  "between_op ::= NOT BETWEEN";
  "between_elem ::= INTEGER|STRING";
  "expr ::= expr between_op between_elem AND between_elem";
  "in_op ::= IN";
  "in_op ::= NOT IN";
  "expr ::= expr in_op LP exprlist RP";
  "expr ::= LP select RP";
  "expr ::= expr in_op LP select RP";
  "expr ::= expr in_op nm dbnm";
  "expr ::= EXISTS LP select RP";
  "expr ::= CASE case_operand case_exprlist case_else END";
  "case_exprlist ::= case_exprlist WHEN expr THEN expr";
  "case_exprlist ::= WHEN expr THEN expr";
  "case_else ::= ELSE expr";
  "case_else ::=";
  "case_operand ::= expr";
  "case_operand ::=";
  "exprlist ::= exprlist COMMA expritem";
  "exprlist ::= expritem";
  "expritem ::= expr";
  "expritem ::=";
  "idxlist_opt ::=";
  "idxlist_opt ::= LP idxlist RP";
  "idxlist ::= idxlist COMMA idxitem collate sortorder";
  "idxlist ::= idxitem collate sortorder";
  "idxitem ::= nm";
  "plus_num ::= plus_opt number";
  "minus_num ::= MINUS number";
  "number ::= INTEGER|FLOAT";
  "plus_opt ::= PLUS";
  "plus_opt ::=";
  "raisetype ::= ROLLBACK";
  "raisetype ::= ABORT";
  "raisetype ::= FAIL" ]%string.

(** The left-hand side of each rule and the length of its right-hand side. *)
Definition yyRuleInfo : list (Z * Z) := [
  (137, 1); (138, 2); (138, 1); (140, 1); (140, 3); (139, 1); (139, 3); (142, 0); (142, 1); (142, 3);
  (141, 2); (141, 2); (143, 0); (143, 1); (141, 2); (141, 2); (141, 2); (144, 6); (147, 0); (147, 3);
  (146, 1); (146, 0); (145, 5); (145, 2); (150, 3); (150, 1); (152, 0); (152, 2); (152, 4); (152, 6);
  (152, 5); (155, 0); (155, 1); (154, 3); (156, 1); (159, 1); (160, 1); (148, 1); (148, 1); (148, 1);
  (157, 0); (157, 1); (161, 1); (161, 4); (161, 6); (162, 1); (162, 2); (163, 1); (163, 1); (158, 2);
  (158, 0); (166, 3); (166, 1); (166, 2); (166, 4); (166, 3); (166, 3); (166, 2); (167, 1); (167, 2);
  (167, 3); (167, 4); (167, 2); (167, 4); (167, 4); (167, 1); (167, 2); (175, 0); (175, 1); (173, 0);
  (173, 2); (176, 2); (176, 3); (176, 3); (176, 3); (177, 2); (177, 2); (177, 1); (177, 1); (174, 3);
  (174, 2); (178, 0); (178, 2); (178, 2); (151, 0); (151, 2); (179, 3); (179, 2); (179, 1); (180, 2);
  (180, 7); (180, 5); (180, 5); (180, 10); (182, 0); (182, 1); (170, 0); (170, 3); (184, 1); (184, 1);
  (184, 1); (141, 4); (186, 2); (186, 0); (141, 1); (153, 1); (153, 3); (189, 1); (189, 2); (189, 1);
  (188, 9); (190, 1); (190, 1); (190, 0); (198, 2); (198, 0); (191, 3); (191, 2); (191, 4); (199, 2);
  (199, 1); (199, 0); (192, 0); (192, 2); (201, 2); (201, 0); (200, 6); (200, 7); (205, 1); (205, 1);
  (149, 0); (149, 2); (187, 2); (202, 1); (202, 2); (202, 3); (202, 4); (203, 2); (203, 0); (204, 4);
  (204, 0); (196, 0); (196, 3); (208, 5); (208, 3); (209, 1); (171, 1); (171, 1); (171, 0); (210, 0);
  (210, 2); (194, 0); (194, 3); (195, 0); (195, 2); (197, 0); (197, 2); (197, 4); (197, 4); (141, 5);
  (193, 0); (193, 2); (141, 6); (212, 5); (212, 3); (141, 6); (141, 6); (141, 5); (141, 8); (141, 8);
  (141, 7); (213, 1); (213, 1); (215, 5); (215, 3); (215, 2); (216, 3); (216, 1); (214, 0); (214, 2);
  (214, 3); (207, 3); (207, 1); (169, 1); (169, 3); (168, 1); (169, 1); (169, 1); (169, 3); (169, 5);
  (168, 1); (168, 1); (169, 1); (169, 1); (169, 1); (169, 6); (169, 5); (169, 4); (168, 1); (169, 3);
  (169, 3); (169, 3); (169, 3); (169, 3); (169, 3); (169, 3); (169, 3); (217, 1); (217, 2); (218, 2);
  (218, 0); (169, 4); (169, 2); (169, 3); (169, 3); (169, 4); (169, 2); (169, 2); (169, 2); (219, 1);
  (219, 2); (220, 1); (169, 5); (221, 1); (221, 2); (169, 5); (169, 3); (169, 5); (169, 4); (169, 4);
  (169, 5); (223, 5); (223, 4); (224, 2); (224, 0); (222, 1); (222, 0); (211, 3); (211, 1); (225, 1);
  (225, 0); (172, 0); (172, 3); (181, 5); (181, 3); (226, 1); (164, 2); (165, 2); (228, 1); (227, 1);
  (227, 0); (185, 1); (185, 1); (185, 1) ].
Definition yyRuleInfo_at : table (Z * Z) := Eval vm_compute in table_of yyRuleInfo.

(** A rule as [yyRuleName] writes it: words separated by blanks, the second of which is ::=, and
    on the right-hand side alternatives of terminals separated by bars. *)
Fixpoint words (sep : Ascii.ascii) (s : string) (acc : string) : list string :=
  match s with
  | EmptyString => [String.rev acc]
  | String c s => if Ascii.eqb c sep then String.rev acc :: words sep s "" else words sep s (String c acc)
  end.

Definition symbol_code (name : string) : option Z :=
  (fun '(i, _) => Z.of_nat i) <$> list_find (fun n => n = name) yyTokenName.

Definition parse_rule (s : string) : option (Z * list (list Z)) :=
  match words "032"%char s "" with
  | lhs :: _ :: rhs =>
      l ← symbol_code lhs;
      r ← mapM (fun w => mapM symbol_code (words "124"%char w "")) (filter (fun w => w <> ""%string) rhs);
      Some (l, r)
  | _ => None
  end.

(** The rules: a symbol, and the alternatives at each place of the right-hand side. *)
Definition rules : list (option (Z * list (list Z))) := Eval vm_compute in map parse_rule yyRuleName.
Definition rules_at : table (option (Z * list (list Z))) := Eval vm_compute in table_of rules.

(** The rule with number [r]. *)
Definition rule (r : Z) : option (Z * list (list Z)) := mjoin (cell rules_at r).

(** Every name could be read, and the grammar agrees with [yyRuleInfo]. *)
Lemma rules_read : map (fun r => match r with Some (l, rhs) => (l, Z.of_nat (length rhs)) | None => (0, 0) end) rules = yyRuleInfo.
Proof. vm_compute. reflexivity. Qed.
End SqlYyTables.
