(* ===== verification/SqlYy.v ===== *)
(** The parser that lemon generated (sqlite-lint, lemon/parse.c).

    Module [SqlYy] translates the engine of parse.c (the automaton over the tables of
    SqlYyTables.v, with its stack of limited depth, fallback tokens and error handling) and the
    actions of all 254 rules.  The stack is a list with the top at its head, so that [yyidx] is
    its length minus one; a semantic value is the member of the union that was written last, and
    reading another one is undefined.  The code is that of NDEBUG, which sqliteInt.h defines:
    values that a rule does not set are left unwritten. *)
From S2P Require Import Prelude Machine Libc SqlUtil SqlToken SqlParse SqlTree SqlYyTables.

Module SqlYy.
Import Tk SqlToken SqlParse SqlTree SqlYyTables.

(** * Semantic values *)

Record LimitVal := MkLimit { pLimit : option Expr; pOffset : option Expr }.
Record LikeOp := MkLike { eOperator : Token; not_ : Z }.

(** [YYMINORTYPE]; the two members of type [Token] are one. *)
Inductive YYMINORTYPE :=
| YYNone
| yy0 (t : Token)
| yy37 (l : option ValuesList)
| yy41 (l : option SrcList)
| yy76 (v : LimitVal)
| yy78 (v : LikeOp)
| yy162 (l : option ExprList)
| yy203 (s : option Select)
| yy306 (l : option IdList)
| yy331 (value mask : Z)
| yy396 (e : option Expr)
| yy444 (i : Z)
| yy459 (i : Z).

Record yyStackEntry := MkEntry { stateno : Z; major : Z; minor : YYMINORTYPE }.

Record yyParser := MkParser { yyerrcnt : Z; yystack : list yyStackEntry }.

(** The parser and [Parse]. *)
Record yy := MkYy { yyp : yyParser; pParse : parse }.

Definition put_stack (st : list yyStackEntry) (s : yy) : yy := MkYy (MkParser (yyerrcnt (yyp s)) st) (pParse s).
Definition put_errcnt (n : Z) (s : yy) : yy := MkYy (MkParser n (yystack (yyp s))) (pParse s).
Definition get_stack : M yy (list yyStackEntry) := gets (fun s => yystack (yyp s)).
Definition on_parse {A} (m : M parse A) : M yy A := lift pParse (fun p s => MkYy (yyp s) p) m.

Section Values.
Context {A : Type} (get : YYMINORTYPE -> option A).

(** [yymsp[-k].minor], as the member that [get] selects. *)
Definition member (st : list yyStackEntry) (k : nat) : M parse A :=
  raise match st !! k with
        | Some e => match get (minor e) with Some a => Ok a | None => Undef end
        | None => Undef
        end.
End Values.

Definition as_tok := member (fun m => match m with yy0 t => Some t | _ => None end).
Definition as_values := member (fun m => match m with yy37 l => Some l | _ => None end).
Definition as_src := member (fun m => match m with yy41 l => Some l | _ => None end).
Definition as_limit := member (fun m => match m with yy76 v => Some v | _ => None end).
Definition as_like := member (fun m => match m with yy78 v => Some v | _ => None end).
Definition as_list := member (fun m => match m with yy162 l => Some l | _ => None end).
Definition as_select := member (fun m => match m with yy203 s => Some s | _ => None end).
Definition as_ids := member (fun m => match m with yy306 l => Some l | _ => None end).
Definition as_masked := member (fun m => match m with yy331 v k => Some (v, k) | _ => None end).
Definition as_expr := member (fun m => match m with yy396 e => Some e | _ => None end).
Definition as_int := member (fun m => match m with yy444 i => Some i | _ => None end).

(** [yymsp[-k].major]. *)
Definition major_of (st : list yyStackEntry) (k : nat) : M parse Z :=
  raise match st !! k with Some e => Ok (major e) | None => Undef end.

(** * Destructors *)

(** The kind of value that has to be freed, by symbol. *)
Definition yy_destructor (yymajor : Z) (m : YYMINORTYPE) : M parse unit :=
  match yymajor with
  | 153 | 188 | 205 => match m with yy203 p => sqlite3SelectDelete p | _ => raise Undef end
  | 168 | 169 | 193 | 195 | 203 | 209 | 218 | 220 | 222 | 224 | 225 =>
      match m with yy396 p => sqlite3ExprDelete p | _ => raise Undef end
  | 172 | 181 | 191 | 194 | 196 | 198 | 208 | 211 | 212 | 216 | 223 =>
      match m with yy162 p => sqlite3ExprListDelete p | _ => raise Undef end
  | 187 | 192 | 200 | 201 => match m with yy41 p => sqlite3SrcListDelete p | _ => raise Undef end
  | 197 => match m with
           | yy76 v => sqlite3ExprDelete (pLimit v);; sqlite3ExprDelete (pOffset v)
           | _ => raise Undef
           end
  | 204 | 207 | 214 => match m with yy306 p => sqlite3IdListDelete p | _ => raise Undef end
  | 215 => match m with yy37 p => sqlite3ValuesListDelete p | _ => raise Undef end
  | _ => mret tt
  end.

(** The symbol popped; 0 where there is none. *)
Definition yy_pop_parser_stack : M yy Z :=
  st ← get_stack;
  match st with
  | [] => mret 0
  | e :: st =>
      on_parse (yy_destructor (wrap 8 (major e)) (minor e));;
      modify (put_stack st);;
      mret (wrap 8 (major e))
  end.

(** [while (yyidx>=0) yy_pop_parser_stack(...)]: [n] is the number of elements. *)
Fixpoint pop_loop (n : nat) : M yy unit :=
  match n with
  | O => mret tt
  | S n => yy_pop_parser_stack;; pop_loop n
  end.

Definition pop_all : M yy unit := st ← get_stack; pop_loop (length st).

(** * The automaton *)

(** The fallback token is tried in the same state. *)
Fixpoint find_shift (fuel : nat) (state iLookAhead : Z) : result Z :=
  match fuel with
  | O => NoFuel
  | S fuel =>
      i ← (if YY_SHIFT_MAX <? state then Ok YY_SHIFT_USE_DFLT else fetch yy_shift_ofst_at state);
      if i =? YY_SHIFT_USE_DFLT then fetch yy_default_at state
      else if iLookAhead =? YYNOCODE then Ok YY_NO_ACTION
      else
        let i := i + iLookAhead in
        hit ← (if (i <? 0) || (YY_SZ_ACTTAB <=? i) then Ok false
               else l ← fetch yy_lookahead_at i; Ok (l =? iLookAhead));
        if (hit : bool) then fetch yy_action_at i
        else
          iFallback ← (if iLookAhead <? Z.of_nat (length yyFallback) then fetch yyFallback_at iLookAhead else Ok 0);
          if iFallback =? 0 then fetch yy_default_at state else find_shift fuel state iFallback
  end.

(** A fallback token has no fallback of its own. *)
Definition yy_find_shift_action (st : list yyStackEntry) (iLookAhead : Z) : result Z :=
  match st with
  | [] => Undef
  | e :: _ => find_shift 2 (stateno e) iLookAhead
  end.

Definition yy_find_reduce_action (state iLookAhead : Z) : result Z :=
  i ← (if YY_REDUCE_MAX <? state then Ok YY_REDUCE_USE_DFLT else fetch yy_reduce_ofst_at state);
  if i =? YY_REDUCE_USE_DFLT then fetch yy_default_at state
  else if iLookAhead =? YYNOCODE then Ok YY_NO_ACTION
  else
    let i := i + iLookAhead in
    hit ← (if (i <? 0) || (YY_SZ_ACTTAB <=? i) then Ok false
           else l ← fetch yy_lookahead_at i; Ok (l =? iLookAhead));
    if (hit : bool) then fetch yy_action_at i else fetch yy_default_at state.

(** A full stack is emptied and the overflow reported. *)
Definition yy_shift (yyNewState yyMajor : Z) (m : YYMINORTYPE) : M yy unit :=
  st ← get_stack;
  if (YYSTACKDEPTH <=? length st)%nat then
    pop_all;; on_parse (sqlite3ErrorMsg (bytes_of "parser stack overflow"))
  else modify (put_stack (MkEntry yyNewState yyMajor m :: st)).

(** * Actions *)

(** The value of a run of digits. *)
Fixpoint digits_value (z : list Z) (v : Z) : result Z :=
  match z with
  | [] => Undef
  | c :: z => if isdigit c then digits_value z (v * 10 + (c - 48)) else Ok v
  end.

(** [atoi]: undefined where the value is no [int]. *)
Fixpoint atoi (z : list Z) : result Z :=
  match z with
  | [] => Undef
  | c :: z' =>
      if isspace c then atoi z'
      else
        v ← (if c =? 45 then v ← digits_value z' 0; Ok (- v)
             else if c =? 43 then digits_value z' 0 else digits_value z 0);
        if (- 2 ^ 31 <=? v) && (v <? 2 ^ 31) then Ok v else Undef
  end.

Definition atoi_at (zSql : list Z) (p : ptr) : result Z :=
  match p with PText i => atoi (drop i zSql) | PNull => Segv | PIndet => Undef end.

(** [-v] of an [int]. *)
Definition negate (v : Z) : result Z := if v =? - 2 ^ 31 then Undef else Ok (- v).

(** [&t.z[t.n]]. *)
Definition token_end (t : Token) : ptr :=
  match t_z t with PText i => PText (i + Z.to_nat (t_n t)) | p => p end.

(** The token from the start of [a] to [b]; its [dyn] bit is not set. *)
Definition token_up_to (a : Token) (b : ptr) (extra : Z) : result Token :=
  d ← ptr_diff b (t_z a); Ok (MkTok (t_z a) None (wrap 31 (extra + d))).

Section Actions.
Context (zSql : list Z).

(** [&t] if [t] has a text, and NULL otherwise. *)
Definition if_text (t : Token) : option Token := if t_n t =? 0 then None else Some t.
Definition if_positive (t : Token) : option Token := if 0 <? t_n t then Some t else None.

(** The element before the last gets the ON and USING clauses of a join, which are freed where
    there is none. *)
Definition join_clauses (l : option SrcList) (as_ : Token) (on : option Expr) (us : option IdList) : M parse (option SrcList) :=
  l ← (if t_n as_ =? 0 then mret l else sqlite3SrcListAddAlias zSql l as_);
  let second := match l with Some l => (1 <? length (sl_a l))%nat | None => false end in
  l ← match on with
      | None => mret l
      | Some _ => if second then mret (alter_src (with_on on) 2 <$> l) else sqlite3ExprDelete on;; mret l
      end;
  match us with
  | None => mret l
  | Some _ => if second then mret (alter_src (with_using us) 2 <$> l) else sqlite3IdListDelete us;; mret l
  end.

(** An expression with a list, which is freed where there is no expression. *)
Definition give_list (e : option Expr) (l : option ExprList) : M parse (option Expr) :=
  match e with
  | Some e => mret (Some (with_list l e))
  | None => sqlite3ExprListDelete l;; mret None
  end.

Definition give_select (e : option Expr) (se : option Select) : M parse (option Expr) :=
  match e with
  | Some e => mret (Some (with_select se e))
  | None => sqlite3SelectDelete se;; mret None
  end.

(** [if (not) e = sqlite3Expr(TK_NOT, e, 0, 0)]. *)
Definition negated (not : Z) (e : option Expr) : M parse (option Expr) :=
  if not =? 0 then mret e else sqlite3Expr TK_NOT e None None.

(** The element of an index: a name with a collation. *)
Definition index_item (l : option ExprList) (nm collate : Token) (order : Z) : M parse YYMINORTYPE :=
  p ← (if 0 <? t_n collate then sqlite3Expr TK_COLUMN None None None else mret None);
  l ← sqlite3ExprListAppend zSql l p (Some nm);
  l ← raise (set_sort_order l order);
  mret (yy162 l).

(** [yy_destructor(major, &yymsp[-k].minor)]. *)
Definition destroy (st : list yyStackEntry) (yymajor : Z) (k : nat) : M parse unit :=
  m ← member Some st k; yy_destructor yymajor m.

(** The statement of a rule, that is what it sets [yygotominor] to, in the order of the cases from
    the last ones to the first: each part goes on to the one before it. *)

(** Lists of expressions and of indexed columns, and RAISE. *)
Definition reduce_lists (yyruleno : Z) (st : list yyStackEntry) : M parse YYMINORTYPE :=
  match yyruleno with
  | 231 =>
      l ← as_list st 4; a ← as_expr st 2; l ← sqlite3ExprListAppend zSql l a None;
      b ← as_expr st 0; l ← sqlite3ExprListAppend zSql l b None; mret (yy162 l)
  | 232 =>
      a ← as_expr st 2; l ← sqlite3ExprListAppend zSql None a None;
      b ← as_expr st 0; l ← sqlite3ExprListAppend zSql l b None; mret (yy162 l)
  | 243 =>
      l ← as_list st 4; nm ← as_tok st 2; c ← as_tok st 1; o ← as_int st 0;
      index_item l nm c o
  | 244 => nm ← as_tok st 2; c ← as_tok st 1; o ← as_int st 0; index_item None nm c o
  | 251 => mret (yy444 OE_Rollback)
  | 252 => mret (yy444 OE_Abort)
  | 253 => mret (yy444 OE_Fail)
  | _ => mret YYNone
  end.

(** BETWEEN, IN, subqueries and CASE. *)
Definition reduce_queries (yyruleno : Z) (st : list yyStackEntry) : M parse YYMINORTYPE :=
  match yyruleno with
  | 222 =>
      b ← as_expr st 2; l ← sqlite3ExprListAppend zSql None b None;
      c ← as_expr st 0; l ← sqlite3ExprListAppend zSql l c None;
      a ← as_expr st 4; e ← sqlite3Expr TK_BETWEEN a None None;
      e ← give_list e l;
      n ← as_int st 3; e ← negated n e;
      e ← sqlite3ExprSpan e (span_of a) (span_of c); mret (yy396 e)
  | 225 =>
      a ← as_expr st 4; e ← sqlite3Expr TK_IN a None None;
      l ← as_list st 1; e ← give_list e l;
      n ← as_int st 3; e ← negated n e;
      t ← as_tok st 0; e ← sqlite3ExprSpan e (span_of a) (Some t); mret (yy396 e)
  | 226 =>
      e ← sqlite3Expr TK_SELECT None None None;
      se ← as_select st 1; e ← give_select e se;
      a ← as_tok st 2; b ← as_tok st 0;
      e ← sqlite3ExprSpan e (Some a) (Some b); mret (yy396 e)
  | 227 =>
      a ← as_expr st 4; e ← sqlite3Expr TK_IN a None None;
      se ← as_select st 1; e ← give_select e se;
      n ← as_int st 3; e ← negated n e;
      t ← as_tok st 0; e ← sqlite3ExprSpan e (span_of a) (Some t); mret (yy396 e)
  | 228 =>
      nm ← as_tok st 1; db ← as_tok st 0;
      src ← sqlite3SrcListAppend zSql None (Some nm) (Some db);
      a ← as_expr st 3; e ← sqlite3Expr TK_IN a None None;
      e ← match e with
          | Some e => se ← sqlite3SelectNew zSql None src None None None None 0 None None; mret (Some (with_select se e))
          | None => sqlite3SrcListDelete src;; mret None
          end;
      n ← as_int st 2; e ← negated n e;
      z ← raise (ptr_set (t_z db));
      e ← sqlite3ExprSpan e (span_of a) (Some (if z : bool then db else nm)); mret (yy396 e)
  | 229 =>
      e ← sqlite3Expr TK_EXISTS None None None;
      se ← as_select st 1;
      match e with
      | Some e =>
          a ← as_tok st 3; b ← as_tok st 0;
          e ← sqlite3ExprSpan (Some (with_select se e)) (Some a) (Some b); mret (yy396 e)
      | None => sqlite3SelectDelete se;; mret (yy396 None)
      end
  | 230 =>
      a ← as_expr st 3; b ← as_expr st 1; e ← sqlite3Expr TK_CASE a b None;
      l ← as_list st 2; e ← give_list e l;
      s ← as_tok st 4; t ← as_tok st 0;
      e ← sqlite3ExprSpan e (Some s) (Some t); mret (yy396 e)
  | _ => reduce_lists yyruleno st
  end.

(** LIKE, tests for NULL and unary operators. *)
Definition reduce_operators (yyruleno : Z) (st : list yyStackEntry) : M parse YYMINORTYPE :=
  match yyruleno with
  | 211 =>
      a ← as_expr st 3; l ← sqlite3ExprListAppend zSql None a None;
      b ← as_expr st 1; l ← sqlite3ExprListAppend zSql l b None;
      c ← as_expr st 0;
      l ← match c with None => mret l | Some _ => sqlite3ExprListAppend zSql l c None end;
      op ← as_like st 2;
      e ← sqlite3ExprLikeOp l (eOperator op);
      e ← negated (not_ op) e;
      e ← sqlite3ExprSpan e (span_of a) (span_of b); mret (yy396 e)
  | 212 =>
      k ← major_of st 0; a ← as_expr st 1; e ← sqlite3Expr k a None None; t ← as_tok st 0;
      e ← sqlite3ExprSpan e (span_of a) (Some t); mret (yy396 e)
  | 213 =>
      a ← as_expr st 2; e ← sqlite3Expr TK_ISNULL a None None; t ← as_tok st 0;
      e ← sqlite3ExprSpan e (span_of a) (Some t); mret (yy396 e)
  | 214 =>
      a ← as_expr st 2; e ← sqlite3Expr TK_NOTNULL a None None; t ← as_tok st 0;
      e ← sqlite3ExprSpan e (span_of a) (Some t); mret (yy396 e)
  | 215 =>
      a ← as_expr st 3; e ← sqlite3Expr TK_NOTNULL a None None; t ← as_tok st 0;
      e ← sqlite3ExprSpan e (span_of a) (Some t); mret (yy396 e)
  | 216 =>
      k ← major_of st 1; a ← as_expr st 0; e ← sqlite3Expr k a None None; t ← as_tok st 1;
      e ← sqlite3ExprSpan e (Some t) (span_of a); mret (yy396 e)
  | 217 =>
      a ← as_expr st 0; e ← sqlite3Expr TK_UMINUS a None None; t ← as_tok st 1;
      e ← sqlite3ExprSpan e (Some t) (span_of a); mret (yy396 e)
  | 218 =>
      a ← as_expr st 0; e ← sqlite3Expr TK_UPLUS a None None; t ← as_tok st 1;
      e ← sqlite3ExprSpan e (Some t) (span_of a); mret (yy396 e)
  | _ => reduce_queries yyruleno st
  end.

(** Terms, functions and binary operators. *)
Definition reduce_terms (yyruleno : Z) (st : list yyStackEntry) : M parse YYMINORTYPE :=
  match yyruleno with
  | 184 =>
      e ← as_expr st 1; a ← as_tok st 2; b ← as_tok st 0;
      e ← sqlite3ExprSpan e (Some a) (Some b); mret (yy396 e)
  | 185 | 190 | 191 | 221 =>
      k ← major_of st 0; t ← as_tok st 0; e ← sqlite3Expr k None None (Some t); mret (yy396 e)
  | 186 | 187 => t ← as_tok st 0; e ← sqlite3Expr TK_ID None None (Some t); mret (yy396 e)
  | 188 =>
      t1 ← as_tok st 2; a ← sqlite3Expr TK_ID None None (Some t1);
      t2 ← as_tok st 0; b ← sqlite3Expr TK_ID None None (Some t2);
      e ← sqlite3Expr TK_DOT a b None; mret (yy396 e)
  | 189 =>
      t1 ← as_tok st 4; a ← sqlite3Expr TK_ID None None (Some t1);
      t2 ← as_tok st 2; b ← sqlite3Expr TK_ID None None (Some t2);
      t3 ← as_tok st 0; c ← sqlite3Expr TK_ID None None (Some t3);
      d ← sqlite3Expr TK_DOT b c None;
      e ← sqlite3Expr TK_DOT a d None; mret (yy396 e)
  | 192 => t ← as_tok st 0; e ← sqlite3RegisterExpr (Some t); mret (yy396 e)
  | 193 | 194 => t ← as_tok st 0; e ← sqlite3Expr TK_VARIABLE None None (Some t); mret (yy396 e)
  | 195 =>
      e ← as_expr st 3; t ← as_tok st 1;
      e ← sqlite3Expr TK_CAST e None (Some t);
      a ← as_tok st 5; b ← as_tok st 0;
      e ← sqlite3ExprSpan e (Some a) (Some b); mret (yy396 e)
  | 196 =>
      l ← as_list st 1; a ← as_tok st 4;
      e ← sqlite3ExprFunction l a;
      b ← as_tok st 0;
      e ← sqlite3ExprSpan e (Some a) (Some b);
      d ← as_int st 2;
      mret (yy396 (if d =? 0 then e else with_flag EP_Distinct <$> e))
  | 197 =>
      a ← as_tok st 3; e ← sqlite3ExprFunction None a; b ← as_tok st 0;
      e ← sqlite3ExprSpan e (Some a) (Some b); mret (yy396 e)
  | 198 => t ← as_tok st 0; e ← sqlite3ExprFunction None t; mret (yy396 (with_op TK_CONST_FUNC <$> e))
  | 199 | 200 | 201 | 202 | 203 | 204 | 205 | 206 =>
      k ← major_of st 1; a ← as_expr st 2; b ← as_expr st 0;
      e ← sqlite3Expr k a b None; mret (yy396 e)
  | 207 => t ← as_tok st 0; mret (yy78 (MkLike t 0))
  | 208 => t ← as_tok st 0; mret (yy78 (MkLike t 1))
  | _ => reduce_operators yyruleno st
  end.

(** DELETE, UPDATE and INSERT. *)
Definition reduce_changes (yyruleno : Z) (st : list yyStackEntry) : M parse YYMINORTYPE :=
  match yyruleno with
  | 159 =>
      l ← as_src st 2; e ← as_expr st 1; v ← as_limit st 0;
      sqlite3DeleteFrom l e (pLimit v) (pOffset v);; mret YYNone
  | 162 =>
      l ← as_src st 4; c ← as_list st 2; e ← as_expr st 1; v ← as_limit st 0;
      sqlite3Update l c e OE_Default (pLimit v) (pOffset v);; mret YYNone
  | 163 =>
      l ← as_list st 4; e ← as_expr st 0; t ← as_tok st 2;
      l ← sqlite3ExprListAppend zSql l e (Some t); mret (yy162 l)
  | 164 =>
      e ← as_expr st 0; t ← as_tok st 2;
      l ← sqlite3ExprListAppend zSql None e (Some t); mret (yy162 l)
  | 165 =>
      l ← as_src st 3; v ← as_values st 0; c ← as_ids st 2; o ← as_int st 5;
      sqlite3Insert l None v None c o;; mret YYNone
  | 166 =>
      l ← as_src st 3; v ← as_list st 0; c ← as_ids st 2; o ← as_int st 5;
      sqlite3Insert l v None None c o;; mret YYNone
  | 167 =>
      l ← as_src st 2; v ← as_select st 0; c ← as_ids st 1; o ← as_int st 4;
      sqlite3Insert l None None v c o;; mret YYNone
  | 168 =>
      l ← as_src st 3; v ← as_values st 0; c ← as_ids st 2; o ← as_int st 7;
      sqlite3Insert l None v None c o;; mret YYNone
  | 169 =>
      l ← as_src st 3; v ← as_list st 0; c ← as_ids st 2; o ← as_int st 7;
      sqlite3Insert l v None None c o;; mret YYNone
  | 170 =>
      l ← as_src st 2; v ← as_select st 0; c ← as_ids st 1; o ← as_int st 6;
      sqlite3Insert l None None v c o;; mret YYNone
  | 171 => mret (yy444 OE_Default)
  | 173 => v ← as_values st 4; l ← as_list st 1; v ← sqlite3ValuesListAppend v l; mret (yy37 v)
  | 174 => l ← as_list st 1; v ← sqlite3ValuesListAppend None l; mret (yy37 v)
  | 175 => mret (yy37 None)
  | 176 | 237 => l ← as_list st 2; e ← as_expr st 0; l ← sqlite3ExprListAppend zSql l e None; mret (yy162 l)
  | 177 | 238 => e ← as_expr st 0; l ← sqlite3ExprListAppend zSql None e None; mret (yy162 l)
  | 181 => l ← as_ids st 2; t ← as_tok st 0; l ← sqlite3IdListAppend zSql l t; mret (yy306 l)
  | 182 => t ← as_tok st 0; l ← sqlite3IdListAppend zSql None t; mret (yy306 l)
  | _ => reduce_terms yyruleno st
  end.

(** The clauses of a query. *)
Definition reduce_clauses (yyruleno : Z) (st : list yyStackEntry) : M parse YYMINORTYPE :=
  match yyruleno with
  | 137 | 145 | 154 | 161 | 183 | 209 | 233 | 235 | 239 => e ← as_expr st 0; mret (yy396 e)
  | 138 | 153 | 160 | 210 | 234 | 236 | 240 => mret (yy396 None)
  | 139 | 180 => l ← as_ids st 1; mret (yy306 l)
  | 140 | 178 | 179 => mret (yy306 None)
  | 142 | 152 => l ← as_list st 0; mret (yy162 l)
  | 143 =>
      l ← as_list st 4; e ← as_expr st 2; t ← as_tok st 1;
      l ← sqlite3ExprListAppend zSql l e (if_positive t);
      o ← as_int st 0; l ← raise (set_sort_order l o); mret (yy162 l)
  | 144 =>
      e ← as_expr st 2; t ← as_tok st 1;
      l ← sqlite3ExprListAppend zSql None e (if_positive t);
      o ← as_int st 0; mret (yy162 (set_first_order l o))
  | 146 | 148 => mret (yy444 SQLITE_SO_ASC)
  | 147 => mret (yy444 SQLITE_SO_DESC)
  | 155 => mret (yy76 (MkLimit None None))
  | 156 => e ← as_expr st 0; mret (yy76 (MkLimit e None))
  | 157 => e ← as_expr st 2; o ← as_expr st 0; mret (yy76 (MkLimit e o))
  | 158 => o ← as_expr st 2; e ← as_expr st 0; mret (yy76 (MkLimit e o))
  | _ => reduce_changes yyruleno st
  end.

(** Result columns, tables and joins. *)
Definition reduce_sources (yyruleno : Z) (st : list yyStackEntry) : M parse YYMINORTYPE :=
  match yyruleno with
  | 114 | 242 => l ← as_list st 1; mret (yy162 l)
  | 115 | 141 | 151 | 241 => mret (yy162 None)
  | 116 =>
      l ← as_list st 2; e ← as_expr st 1; t ← as_tok st 0;
      l ← sqlite3ExprListAppend zSql l e (if_text t); mret (yy162 l)
  | 117 =>
      l ← as_list st 1; e ← sqlite3Expr TK_ALL None None None;
      l ← sqlite3ExprListAppend zSql l e None; mret (yy162 l)
  | 118 =>
      right ← sqlite3Expr TK_ALL None None None;
      t ← as_tok st 2;
      left ← sqlite3Expr TK_ID None None (Some t);
      l ← as_list st 3;
      e ← sqlite3Expr TK_DOT left right None;
      l ← sqlite3ExprListAppend zSql l e None; mret (yy162 l)
  | 121 => mret (yy0 (MkTok PIndet None 0))
  | 122 => ok ← sqliteMalloc; mret (yy41 (if ok : bool then Some (MkSrcList 0 []) else None))
  | 123 => l ← as_src st 0; mret (yy41 l)
  | 124 =>
      l ← as_src st 1;
      match l with
      | Some l' =>
          if (0 <? length (sl_a l'))%nat then j ← as_int st 0; mret (yy41 (Some (alter_src (with_jointype j) 1 l')))
          else mret (yy41 l)
      | None => mret (yy41 l)
      end
  | 125 => mret (yy41 None)
  | 126 =>
      l ← as_src st 5; nm ← as_tok st 4; db ← as_tok st 3;
      l ← sqlite3SrcListAppend zSql l (Some nm) (Some db);
      al ← as_tok st 2; on ← as_expr st 1; us ← as_ids st 0;
      l ← join_clauses l al on us; mret (yy41 l)
  | 127 =>
      l ← as_src st 6;
      l ← sqlite3SrcListAppend zSql l None None;
      match l with
      | None => raise Segv
      | Some l =>
          se ← as_select st 4;
          let l := Some (alter_src (with_subquery se) 1 l) in
          al ← as_tok st 2; on ← as_expr st 1; us ← as_ids st 0;
          l ← join_clauses l al on us; mret (yy41 l)
      end
  | 129 => l ← as_src st 0; p ← sqlite3SelectNew zSql None l None None None None 0 None None; mret (yy203 p)
  | 130 | 149 => mret (yy0 (MkTok PNull None 0))
  | 132 =>
      nm ← as_tok st 1; db ← as_tok st 0;
      l ← sqlite3SrcListAppend zSql None (Some nm) (Some db); mret (yy41 l)
  | 133 => mret (yy444 JT_INNER)
  | 134 => a ← as_tok st 1; j ← sqlite3JoinType zSql a None None; mret (yy444 j)
  | 135 => a ← as_tok st 2; b ← as_tok st 1; j ← sqlite3JoinType zSql a (Some b) None; mret (yy444 j)
  | 136 =>
      a ← as_tok st 3; b ← as_tok st 2; c ← as_tok st 1;
      j ← sqlite3JoinType zSql a (Some b) (Some c); mret (yy444 j)
  | _ => reduce_clauses yyruleno st
  end.

(** Conflict resolution, dropping tables, and the frame of a query. *)
Definition reduce_selects (yyruleno : Z) (st : list yyStackEntry) : M parse YYMINORTYPE :=
  match yyruleno with
  | 75 => mret (yy444 OE_SetNull)
  | 76 => mret (yy444 OE_SetDflt)
  | 77 => mret (yy444 OE_Cascade)
  | 78 => mret (yy444 OE_Restrict)
  | 79 | 80 | 95 | 97 | 98 => i ← as_int st 0; mret (yy444 i)
  | 90 => l ← as_list st 3; sqlite3ExprListDelete l;; mret YYNone
  | 91 => l ← as_list st 2; sqlite3ExprListDelete l;; mret YYNone
  | 92 => e ← as_expr st 2; sqlite3ExprDelete e;; mret YYNone
  | 93 => l ← as_list st 6; sqlite3ExprListDelete l;; l ← as_list st 2; sqlite3ExprListDelete l;; mret YYNone
  | 96 => mret (yy444 OE_Default)
  | 99 => mret (yy444 OE_Ignore)
  | 100 | 172 => mret (yy444 OE_Replace)
  | 101 => l ← as_src st 0; _ ← as_int st 1; sqlite3DropTable l;; mret YYNone
  | 104 => p ← as_select st 0; _ ← sqlite3Select p; mret YYNone
  | 105 | 128 => p ← as_select st 0; mret (yy203 p)
  | 106 =>
      p ← as_select st 0;
      match p with
      | None => mret (yy203 None)
      | Some p =>
          op ← as_int st 1;
          prior ← as_select st 2;
          mret (yy203 (Some (MkSelect (pEList p) (wrap 8 op) (isDistinct p) (pSrc p) (s_pWhere p) (pGroupBy p)
            (pHaving p) (pOrderBy p) prior (s_pLimit p) (s_pOffset p))))
      end
  | 107 | 109 => k ← major_of st 0; mret (yy444 k)
  | 108 => mret (yy444 TK_ALL)
  | 110 =>
      el ← as_list st 6; src ← as_src st 5; wh ← as_expr st 4; gr ← as_list st 3; ha ← as_expr st 2;
      ob ← as_list st 1; di ← as_int st 7; li ← as_limit st 0;
      p ← sqlite3SelectNew zSql el src wh gr ha ob di (pLimit li) (pOffset li);
      mret (yy203 p)
  | _ => reduce_sources yyruleno st
  end.

(** Types, column constraints and references. *)
Definition reduce_references (yyruleno : Z) (st : list yyStackEntry) : M parse YYMINORTYPE :=
  match yyruleno with
  | 46 => a ← as_tok st 1; b ← as_tok st 0; t ← raise (token_up_to a (t_z b) (t_n b)); mret (yy0 t)
  | 47 => t ← as_tok st 0; v ← raise (atoi_at zSql (t_z t)); mret (yy444 v)
  | 48 => t ← as_tok st 0; v ← raise (atoi_at zSql (t_z t)); v ← raise (negate v); mret (yy444 v)
  | 53 | 55 | 56 => destroy st 168 0;; mret YYNone
  | 63 => e ← as_expr st 1; sqlite3ExprDelete e;; mret YYNone
  | 64 => l ← as_list st 1; sqlite3ExprListDelete l;; mret YYNone
  | 69 => mret (yy444 (OE_Restrict * 0x010101))
  | 70 => i ← as_int st 1; '(v, k) ← as_masked st 0; mret (yy444 (Z.lor (Z.land i k) v))
  | 71 => mret (yy331 0 0)
  | 72 => i ← as_int st 0; mret (yy331 i 0x0000ff)
  | 73 => i ← as_int st 0; mret (yy331 (Z.shiftl i 8) 0x00ff00)
  | 74 => i ← as_int st 0; mret (yy331 (Z.shiftl i 16) 0xff0000)
  | _ => reduce_selects yyruleno st
  end.

(** Commands, transactions and the columns of a table. *)
Definition reduce_commands (yyruleno : Z) (st : list yyStackEntry) : M parse YYMINORTYPE :=
  match yyruleno with
  | 3 | 4 => sqlite3FinishCoding;; mret YYNone
  | 7 => sqlite3BeginParse 0;; mret YYNone
  | 8 => sqlite3BeginParse 1;; mret YYNone
  | 9 => sqlite3BeginParse 2;; mret YYNone
  | 10 => sqlite3BeginTransaction SQLTYPE_TRANSACTION_BEGIN;; mret YYNone
  | 11 => sqlite3BeginTransaction SQLTYPE_TRANSACTION_START;; mret YYNone
  | 14 => sqlite3CommitTransaction;; mret YYNone
  | 15 => sqlite3RollbackTransaction;; mret YYNone
  | 17 => sqlite3StartTable;; mret YYNone
  | 18 | 21 | 67 | 81 | 83 | 94 | 103 | 112 | 113 | 219 | 223 => mret (yy444 0)
  | 19 | 20 | 68 | 82 | 102 | 111 | 220 | 224 => mret (yy444 1)
  | 23 => sqlite3EndTable;; destroy st 153 0;; mret YYNone
  | 35 | 36 | 37 | 38 | 39 | 248 => t ← as_tok st 0; mret (yy0 t)
  | 42 | 45 | 119 | 120 | 131 | 150 | 245 | 246 | 247 => t ← as_tok st 0; mret (yy0 t)
  | 43 => a ← as_tok st 3; b ← as_tok st 0; t ← raise (token_up_to a (token_end b) 0); mret (yy0 t)
  | 44 => a ← as_tok st 5; b ← as_tok st 0; t ← raise (token_up_to a (token_end b) 0); mret (yy0 t)
  | _ => reduce_references yyruleno st
  end.

Definition reduce_action (yyruleno : Z) (st : list yyStackEntry) : M parse YYMINORTYPE := reduce_commands yyruleno st.

(** * The parser *)

Definition yy_parse_failed : M yy unit := pop_all.
Definition yy_accept : M yy unit := pop_all.

(** The element that a reduction pushes replaces one of those it pops, unless it pops none. *)
Definition yy_reduce (yyruleno : Z) : M yy unit :=
  st ← get_stack;
  yygotominor ← on_parse (reduce_action yyruleno st);
  '(yygoto, yysize) ← raise (fetch yyRuleInfo_at yyruleno);
  let st := drop (Z.to_nat yysize) st in
  modify (put_stack st);;
  match st with
  | [] => raise Undef
  | e :: _ =>
      yyact ← raise (yy_find_reduce_action (stateno e) yygoto);
      if yyact <? YYNSTATE then
        if negb (yysize =? 0) then modify (put_stack (MkEntry yyact yygoto yygotominor :: st))
        else yy_shift yyact yygoto yygotominor
      else if yyact =? YY_ACCEPT_ACTION then yy_accept
      else mret tt
  end.

(** The first message is kept. *)
Definition yy_syntax_error (yyminor : Token) : M yy unit :=
  msg ← gets (fun s => zErrMsg (pc (pParse s)));
  match msg with
  | Some _ => mret tt
  | None =>
      c ← raise match t_z yyminor with PText i => rd zSql i | PNull => Segv | PIndet => Undef end;
      if negb (c =? 0) then
        t ← raise (format_token zSql (Some yyminor));
        on_parse (sqlite3ErrorMsg (bytes_of "near " ++ [34] ++ t ++ [34] ++ bytes_of ": syntax error"))
      else on_parse (sqlite3ErrorMsg (bytes_of "incomplete SQL statement"))
  end.

(** Popping up to a state in which the error symbol can be shifted; the last action found. *)
Fixpoint error_loop (n : nat) (yymx yyact : Z) : M yy Z :=
  st ← get_stack;
  match n, st with
  | S n, _ :: _ =>
      if yymx =? YYERRORSYMBOL then mret yyact else
      yyact ← raise (yy_find_shift_action st YYERRORSYMBOL);
      if yyact <? YYNSTATE then mret yyact
      else yy_pop_parser_stack;; error_loop n yymx yyact
  | _, _ => mret yyact
  end.

(** The response to an error; the token that is left to parse. *)
Definition yy_error (yymajor yyact : Z) (yyminor : Token) (yyerrorhit : bool) : M yy Z :=
  s ← gets id;
  (if yyerrcnt (yyp s) <? 0 then yy_syntax_error yyminor else mret tt);;
  st ← get_stack;
  match st with
  | [] => raise Undef
  | e :: _ =>
      let yymx := major e in
      yymajor ← (if (yymx =? YYERRORSYMBOL) || yyerrorhit then
                   on_parse (yy_destructor (wrap 8 yymajor) (yy0 yyminor));; mret YYNOCODE
                 else
                   yyact ← error_loop (length st) yymx yyact;
                   st ← get_stack;
                   if match st with [] => true | _ => false end || (yymajor =? 0) then
                     on_parse (yy_destructor (wrap 8 yymajor) (yy0 yyminor));;
                     yy_parse_failed;; mret YYNOCODE
                   else if negb (yymx =? YYERRORSYMBOL) then yy_shift yyact YYERRORSYMBOL (yy459 0);; mret yymajor
                   else mret yymajor);
      modify (put_errcnt 3);;
      mret yymajor
  end.

(** The loop of [sqlite3Parser]. *)
Fixpoint parser_loop (fuel : nat) (yymajor : Z) (yyminor : Token) (yyendofinput yyerrorhit : bool) : M yy unit :=
  match fuel with
  | O => raise NoFuel
  | S fuel =>
      st ← get_stack;
      yyact ← raise (yy_find_shift_action st yymajor);
      '(yymajor, yyerrorhit) ←
        (if yyact <? YYNSTATE then
           yy_shift yyact yymajor (yy0 yyminor);;
           modify (fun s => put_errcnt (yyerrcnt (yyp s) - 1) s);;
           st ← get_stack;
           mret (if yyendofinput && match st with [] => false | _ => true end then 0 else YYNOCODE, yyerrorhit)
         else if yyact <? YYNSTATE + YYNRULE then yy_reduce (yyact - YYNSTATE);; mret (yymajor, yyerrorhit)
         else if yyact =? YY_ERROR_ACTION then
           yymajor ← yy_error yymajor yyact yyminor yyerrorhit; mret (yymajor, true)
         else yy_accept;; mret (YYNOCODE, yyerrorhit));
      st ← get_stack;
      if negb (yymajor =? YYNOCODE) && match st with [] => false | _ => true end
      then parser_loop fuel yymajor yyminor yyendofinput yyerrorhit
      else mret tt
  end.

(** Every state is left after at most eight reductions that do not look below it, and there are
    at most a hundred of them. *)
Definition parser_fuel : nat := 1000.

Definition sqlite3Parser (yymajor : Z) (yyminor : Token) : M yy unit :=
  st ← get_stack;
  (match st with
   | [] => modify (fun s => put_errcnt (-1) (put_stack [MkEntry 0 0 YYNone] s))
   | _ => mret tt
   end);;
  parser_loop parser_fuel yymajor yyminor (yymajor =? 0) false.
End Actions.

(** [sqlite3MallocX] zeroes the parser. *)
Definition sqlite3ParserAlloc : yyParser := MkParser 0 [].

Definition sqlite3ParserFree : M yy unit := pop_all.
End SqlYy.
