(* ===== verification/SqlYyTypes.v ===== *)
(** The types of the semantic values of the SQL grammar.

    A symbol of the grammar has a type: the member of the union that its values are written to,
    and what holds of them (trees that can be freed, tokens that lie in the statement, lists of
    tables that fit in their 16-bit counters).  [action_ok] shows that the actions of parse.c
    respect the types: given values of the types of a right-hand side, the action returns a value
    of the type of the left-hand side.  Two rules are left out: the one for registers, whose
    action returns NULL for every expression, and the one for CAST, which copies the [dyn] bit of
    a type name that no rule has set. *)
From S2P Require Import Prelude Machine Libc SqlUtil SqlToken SqlParse SqlTree SqlTreeFacts SqlYyTables SqlYy.

Module SqlYyTypes.
Import Tk SqlToken SqlParse SqlTree SqlTreeFacts SqlYyTables SqlYy.

Inductive ty :=
| TNone
| TTok
| TDb
| TAs
| TType
| TInt
| TMask
| TSel
| TExpr
| TOptExpr
| TList
| TSrc
| TSrcAny
| TIds
| TVals
| TLimit
| TLike.

(** The type of a symbol. *)
Definition symtype (sym : Z) : ty :=
  if sym <? 136 then TTok else
  match sym with
  | 148 | 159 | 160 | 164 | 165 | 226 | 228 => TTok
  | 149 | 210 => TDb
  | 199 => TAs
  | 161 | 162 => TType
  | 146 | 147 | 163 | 170 | 171 | 173 | 174 | 175 | 177 | 178 | 182 | 184 | 185 | 186 | 189 | 190 | 202
  | 213 | 219 | 221 => TInt
  | 176 => TMask
  | 153 | 188 | 205 => TSel
  | 168 | 169 | 209 | 220 => TExpr
  | 193 | 195 | 203 | 218 | 222 | 224 | 225 => TOptExpr
  | 172 | 181 | 191 | 194 | 196 | 198 | 208 | 211 | 212 | 216 | 223 => TList
  | 200 | 201 => TSrc
  | 187 | 192 => TSrcAny
  | 204 | 207 | 214 => TIds
  | 215 => TVals
  | 197 => TLimit
  | 217 => TLike
  | _ => TNone
  end.

(** [m] is a value of type [t] that was made of [w] tokens of the statement [z]. *)
Definition has_ty (z : list Z) (t : ty) (w : nat) (m : YYMINORTYPE) : Prop :=
  match t, m with
  | TNone, _ => True
  | TTok, yy0 t => tok_in z t /\ (1 <= w)%nat
  | TDb, yy0 t => db_in z t
  | TAs, yy0 t => tok_in z t \/ t_n t = 0
  | TType, yy0 t => exists i, t_z t = PText i
  | TInt, yy444 _ => True
  | TMask, yy331 _ _ => True
  | TSel, yy203 p => maybe select_freeable p = true
  | TExpr, yy396 (Some e) => expr_ok e
  | TOptExpr, yy396 e => expr_opt e
  | TList, yy162 l => list_ok l
  | TSrc, yy41 l => src_opt w l
  | TSrcAny, yy41 l => maybe src_freeable l = true
  | TIds, yy306 l => ids_ok l
  | TVals, yy37 l => values_ok l
  | TLimit, yy76 v => expr_opt (pLimit v) /\ expr_opt (pOffset v)
  | TLike, yy78 v => tok_in z (eOperator v)
  | _, _ => False
  end.

(** The values on the stack have the types of a right-hand side, last symbol first. *)
Fixpoint typed (z : list Z) (ts : list ty) (st : list yyStackEntry) (ws : list nat) : Prop :=
  match ts, st, ws with
  | [], _, [] => True
  | t :: ts, e :: st, w :: ws => has_ty z t w (minor e) /\ typed z ts st ws
  | _, _, _ => False
  end.

(** The alternatives at a place of a rule are terminals. *)
Definition alt_ty (alts : list Z) : ty := symtype (hd 0 alts).

(** Every number in the statement is an [int]. *)
Definition small_numbers (z : list Z) : Prop :=
  forall i, (i < length z)%nat -> exists v, atoi (drop i z) = Ok v /\ - 2 ^ 31 < v.

(** * Reading values *)

Section Reading.
Context (z : list Z) {A : Type} (st : list yyStackEntry) (k w : nat) (e : yyStackEntry) (s : parse).
Hypothesis (He : st !! k = Some e).

Lemma member_run (get : YYMINORTYPE -> option A) a (P : A -> parse -> Prop) : get (minor e) = Some a -> P a s ->
  wp (member get st k) P s.
Proof. intros Hg HP. unfold member. rewrite He, Hg. by eapply wp_raise. Qed.
End Reading.

(** The member that a type stands for. *)
Ltac read_value :=
  let He := fresh in let Hty := fresh in let HP := fresh in let E := fresh in
  intros He Hty HP;
  match type of Hty with has_ty _ _ _ (minor ?e) => destruct (minor e) eqn:E end; try done;
  (eapply member_run; [exact He|by rewrite E|]); clear He E; first [by apply HP|by apply HP; apply Hty].

Lemma as_tok_run z st k e w s P : st !! k = Some e -> has_ty z TTok w (minor e) ->
  (forall t, tok_in z t -> (1 <= w)%nat -> P t s) -> wp (as_tok st k) P s.
Proof. read_value. Qed.

Lemma as_db_run z st k e w s P : st !! k = Some e -> has_ty z TDb w (minor e) ->
  (forall t, db_in z t -> P t s) -> wp (as_tok st k) P s.
Proof. read_value. Qed.

Lemma as_as_run z st k e w s P : st !! k = Some e -> has_ty z TAs w (minor e) ->
  (forall t, tok_in z t \/ t_n t = 0 -> P t s) -> wp (as_tok st k) P s.
Proof. read_value. Qed.

Lemma as_type_run z st k e w s P : st !! k = Some e -> has_ty z TType w (minor e) ->
  (forall t, (exists i, t_z t = PText i) -> P t s) -> wp (as_tok st k) P s.
Proof. read_value. Qed.

Lemma as_int_run z st k e w s P : st !! k = Some e -> has_ty z TInt w (minor e) ->
  (forall i, P i s) -> wp (as_int st k) P s.
Proof. read_value. Qed.

Lemma as_masked_run z st k e w s P : st !! k = Some e -> has_ty z TMask w (minor e) ->
  (forall v m, P (v, m) s) -> wp (as_masked st k) P s.
Proof. read_value. Qed.

Lemma as_select_run z st k e w s P : st !! k = Some e -> has_ty z TSel w (minor e) ->
  (forall p, maybe select_freeable p = true -> P p s) -> wp (as_select st k) P s.
Proof. read_value. Qed.

Lemma as_expr_run z st k e w s P : st !! k = Some e -> has_ty z TExpr w (minor e) ->
  (forall x, expr_ok x -> P (Some x) s) -> wp (as_expr st k) P s.
Proof. intros He Hty HP. destruct (minor e) as [| | | | | | | | | |[x|]| |] eqn:E; try done. eapply member_run; [exact He|by rewrite E|]. by apply HP. Qed.

Lemma as_opt_expr_run z st k e w s P : st !! k = Some e -> has_ty z TOptExpr w (minor e) ->
  (forall x, expr_opt x -> P x s) -> wp (as_expr st k) P s.
Proof. read_value. Qed.

Lemma as_list_run z st k e w s P : st !! k = Some e -> has_ty z TList w (minor e) ->
  (forall l, list_ok l -> P l s) -> wp (as_list st k) P s.
Proof. read_value. Qed.

Lemma as_src_run z st k e w s P : st !! k = Some e -> has_ty z TSrc w (minor e) ->
  (forall l, src_opt w l -> P l s) -> wp (as_src st k) P s.
Proof. read_value. Qed.

Lemma as_any_src_run z st k e w s P : st !! k = Some e -> has_ty z TSrcAny w (minor e) ->
  (forall l, maybe src_freeable l = true -> P l s) -> wp (as_src st k) P s.
Proof. read_value. Qed.

Lemma as_ids_run z st k e w s P : st !! k = Some e -> has_ty z TIds w (minor e) ->
  (forall l, ids_ok l -> P l s) -> wp (as_ids st k) P s.
Proof. read_value. Qed.

Lemma as_values_run z st k e w s P : st !! k = Some e -> has_ty z TVals w (minor e) ->
  (forall l, values_ok l -> P l s) -> wp (as_values st k) P s.
Proof. read_value. Qed.

Lemma as_limit_run z st k e w s P : st !! k = Some e -> has_ty z TLimit w (minor e) ->
  (forall v, expr_opt (pLimit v) -> expr_opt (pOffset v) -> P v s) -> wp (as_limit st k) P s.
Proof. read_value. Qed.

Lemma as_like_run z st k e w s P : st !! k = Some e -> has_ty z TLike w (minor e) ->
  (forall v, tok_in z (eOperator v) -> P v s) -> wp (as_like st k) P s.
Proof. read_value. Qed.

Lemma major_of_run st k e s (P : Z -> parse -> Prop) : st !! k = Some e -> P (major e) s -> wp (major_of st k) P s.
Proof. intros He HP. unfold major_of. rewrite He. by eapply wp_raise. Qed.

(** * Parts of actions *)

(** [by_bits n]: all cases of a number below 256, the others aside. *)
Ltac by_bits n :=
  let p := fresh "p" in
  destruct n as [|p|p]; [|do 8 (try destruct p as [p|p|])|].

Lemma ExprListDelete_run l s (P : unit -> parse -> Prop) : list_ok l -> P tt s -> wp (sqlite3ExprListDelete l) P s.
Proof. unfold sqlite3ExprListDelete. by intros ->%list_ok_freeable. Qed.

Lemma SrcListDelete_run l s (P : unit -> parse -> Prop) : maybe src_freeable l = true -> P tt s -> wp (sqlite3SrcListDelete l) P s.
Proof. unfold sqlite3SrcListDelete. by intros ->. Qed.

Lemma ValuesListDelete_run l s (P : unit -> parse -> Prop) : values_ok l -> P tt s -> wp (sqlite3ValuesListDelete l) P s.
Proof. unfold sqlite3ValuesListDelete. destruct l; [|done]. intros [E _]. cbn [maybe]. by rewrite E. Qed.

Lemma give_list_run e l s P : expr_ok e -> list_ok l -> (forall e', expr_ok e' -> P (Some e') s) -> wp (give_list (Some e) l) P s.
Proof. intros He Hl HP. apply HP, with_list_ok; [done|by apply list_ok_freeable]. Qed.

Lemma give_select_run e se s P : expr_ok e -> maybe select_freeable se = true -> (forall e', expr_ok e' -> P (Some e') s) ->
  wp (give_select (Some e) se) P s.
Proof. intros He Hl HP. by apply HP, with_select_ok. Qed.

Lemma negated_run n e s P : plentiful s -> expr_ok e -> (forall e', expr_ok e' -> P (Some e') s) -> wp (negated n (Some e)) P s.
Proof. intros Hs He HP. unfold negated. destruct (n =? 0); [by apply HP|]. by apply Expr_run. Qed.

Lemma join_clauses_run z w l al on us s P : plentiful s -> src_ok w l -> (tok_in z al \/ t_n al = 0) -> expr_opt on -> ids_ok us ->
  (forall l', src_ok w l' -> P (Some l') s) -> wp (join_clauses z (Some l) al on us) P s.
Proof.
  intros Hs Hl Hal Hon Hus HP. unfold join_clauses. apply wp_bind.
  assert (forall l, src_ok w l -> wp (let second := (1 <? length (sl_a l))%nat in
    l ← match on with
        | None => mret (Some l)
        | Some _ => if second then mret (alter_src (with_on on) 2 <$> Some l) else sqlite3ExprDelete on;; mret (Some l)
        end;
    match us with
    | None => mret l
    | Some _ => if second then mret (alter_src (with_using us) 2 <$> l) else sqlite3IdListDelete us;; mret l
    end) P s) as Hrest.
  { intros l1 Hl1. cbv zeta. wp_step.
    assert (wp match on with
               | None => mret (Some l1)
               | Some _ => if (1 <? length (sl_a l1))%nat then mret (alter_src (with_on on) 2 <$> Some l1) else sqlite3ExprDelete on;; mret (Some l1)
               end (fun l' s' => s' = s /\ exists l2, l' = Some l2 /\ src_ok w l2) s) as H1.
    { destruct on as [e|]; [|wp_step; split; [done|by eexists]]. destruct (_ <? _)%nat.
      - wp_step. split; [done|]. eexists. split; [done|]. apply alter_src_ok; [|done]. intros it. apply with_on_free, Hon.
      - wp_step. apply ExprDelete_run; [apply Hon|]. wp_step. split; [done|by eexists]. }
    eapply wp_mono, H1. intros ? ? (-> & l2 & -> & Hl2). destruct us as [u|]; [|wp_step; by apply HP]. destruct (_ <? _)%nat.
    - wp_step. apply HP, alter_src_ok; [apply with_using_free|done].
    - wp_step. apply wp_ret. wp_step. by apply HP. }
  destruct (Z.eqb_spec (t_n al) 0); [apply wp_ret; by apply Hrest|].
  eapply AddAlias_run; [done|done|tauto|]. intros l' Hl'. by apply Hrest.
Qed.

Lemma index_item_run z l nm c o s P : plentiful s -> list_ok l -> tok_in z nm -> (forall l', list_ok l' -> P (yy162 l') s) ->
  wp (index_item z l nm c o) P s.
Proof.
  intros Hs Hl Hnm HP. unfold index_item. wp_step.
  assert (wp (if 0 <? t_n c then sqlite3Expr TK_COLUMN None None None else mret None) (fun p s' => s' = s /\ expr_opt p) s) as H1.
  { destruct (0 <? t_n c); [|by wp_step]. by apply Expr_run. }
  eapply wp_mono, H1. intros p s' [-> Hp]. wp_step. apply ListAppend_run; [done|done|done|done|]. intros l' Hl' Hne. wp_step.
  destruct (set_sort_order_ok l' o) as (l2 & E & Hl2); [done|apply Hne; by right|]. eapply wp_raise; [exact E|]. wp_step. by apply HP.
Qed.

Lemma sort_order_run l o s (P : option ExprList -> parse -> Prop) : list_ok (Some l) -> el_a l <> [] -> (forall l', list_ok l' -> P l' s) ->
  wp (raise (set_sort_order (Some l) o)) P s.
Proof. intros Hl Hne HP. destruct (set_sort_order_ok l o Hl Hne) as (l' & E & Hl'). eapply wp_raise; [exact E|]. by apply HP. Qed.

Lemma token_up_to_run a b x s (P : Token -> parse -> Prop) : (exists i, t_z a = PText i) -> (exists j, b = PText j) ->
  (forall t, (exists i, t_z t = PText i) -> P t s) -> wp (raise (token_up_to a b x)) P s.
Proof. intros [i Hi] [j ->] HP. unfold token_up_to. rewrite Hi. eapply wp_raise; [reflexivity|]. apply HP. by exists i. Qed.

Lemma token_end_text z t : tok_in z t -> exists j, token_end t = PText j.
Proof. intros (i & n & -> & _). by eexists. Qed.

Lemma tok_in_text z t : tok_in z t -> exists j, t_z t = PText j.
Proof. intros (i & n & -> & _). by eexists. Qed.

Lemma atoi_run z t s (P : Z -> parse -> Prop) : small_numbers z -> tok_in z t -> (forall v, - 2 ^ 31 < v -> P v s) ->
  wp (raise (atoi_at z (t_z t))) P s.
Proof. intros Hn (i & n & -> & Hi) HP. destruct (Hn i) as (v & E & Hv); [lia|]. eapply wp_raise; [exact E|]. by apply HP. Qed.

Lemma negate_run v s (P : Z -> parse -> Prop) : - 2 ^ 31 < v -> P (- v) s -> wp (raise (negate v)) P s.
Proof. intros Hv HP. eapply wp_raise; [|exact HP]. unfold negate. destruct (Z.eqb_spec v (- 2 ^ 31)); [lia|done]. Qed.

Lemma ptr_set_run z t s (P : bool -> parse -> Prop) : db_in z t -> (tok_in z t -> P true s) -> P false s -> wp (raise (ptr_set (t_z t))) P s.
Proof.
  intros [Ht| ->] H1 H2; [|by eapply wp_raise]. pose proof Ht as (i & n & E & _). eapply wp_raise; [by rewrite E|]. by apply H1.
Qed.

Lemma if_text_in z t : tok_in z t \/ t_n t = 0 -> name_in z (if_text t).
Proof. unfold if_text. intros H. destruct (Z.eqb_spec (t_n t) 0); [done|]. by destruct H. Qed.

Lemma if_positive_in z t : db_in z t -> name_in z (if_positive t).
Proof. unfold if_positive. intros [H| ->]; [|done]. by destruct (0 <? t_n t). Qed.

(** A value of the type of a symbol can be destroyed. *)
Lemma destructor_run z sym w m s (P : unit -> parse -> Prop) : has_ty z (symtype sym) w m -> P tt s -> wp (yy_destructor sym m) P s.
Proof.
  intros Hty HP. unfold symtype in Hty. destruct (Z.ltb_spec sym 136) as [Hlt|_].
  { assert (yy_destructor sym m = mret tt) as ->; [|done]. unfold yy_destructor. by_bits sym; first [reflexivity|exfalso; lia]. }
  assert (forall v, expr_opt (pLimit v) /\ expr_opt (pOffset v) -> wp (sqlite3ExprDelete (pLimit v);; sqlite3ExprDelete (pOffset v)) P s) as Hlim.
  { intros v [H1 H2]. wp_step. apply ExprDelete_run; [by apply expr_opt_freeable|]. apply ExprDelete_run; [by apply expr_opt_freeable|done]. }
  unfold yy_destructor. by_bits sym; try exact HP; (destruct m as [| | | | | | | | | |[e|]| |]; try done; cbn [has_ty] in Hty; cbv iota);
    first [ exact HP | by apply Hlim | apply ExprDelete_run; [first [done|by apply Hty]|done] | by apply ExprListDelete_run
          | unfold sqlite3SelectDelete; by rewrite Hty
          | unfold sqlite3SrcListDelete; first [by rewrite Hty|by rewrite (src_ok_freeable w)]
          | by apply ValuesListDelete_run ].
Qed.

(** * Actions *)

Lemma expr_ok_free e : expr_ok e -> expr_freeable e = true.
Proof. by intros [? _]. Qed.
Lemma expr_ok_some e : expr_ok e -> expr_opt (Some e).
Proof. done. Qed.
Lemma list_ok_free l : list_ok (Some l) -> list_freeable l = true.
Proof. by intros [? _]. Qed.
Lemma values_ok_free l : values_ok l -> maybe values_freeable l = true.
Proof. destruct l; [by intros [? _]|done]. Qed.
Lemma tok_in_name z t : tok_in z t -> name_in z (Some t).
Proof. done. Qed.
Lemma db_none z : db_in z (MkTok PNull None 0).
Proof. by right. Qed.
Lemma db_tok z t : tok_in z t -> db_in z t.
Proof. by left. Qed.
Lemma src_ok_mono w w' l : src_ok w l -> (w <= w')%nat -> src_ok w' l.
Proof. intros (? & ? & ? & ?) ?. split_and!; [done|lia|lia|lia|done]. Qed.
Lemma src_ok_some w l : src_ok w l -> maybe src_freeable (Some l) = true.
Proof. by intros [? _]. Qed.

Lemma compound_free p op prior : maybe select_freeable (Some p) = true -> maybe select_freeable prior = true ->
  maybe select_freeable (Some (MkSelect (pEList p) op (isDistinct p) (pSrc p) (s_pWhere p) (pGroupBy p)
    (pHaving p) (pOrderBy p) prior (s_pLimit p) (s_pOffset p))) = true.
Proof. cbn [maybe]. rewrite !select_freeable_unfold, !andb_true_iff. cbn. tauto. Qed.
Lemma joined_ok w l j : src_ok w l -> src_ok w (alter_src (with_jointype j) 1 l).
Proof. apply alter_src_ok, with_jointype_free. Qed.
Lemma subquery_ok w l se : maybe select_freeable se = true -> src_ok w l -> src_ok w (alter_src (with_subquery se) 1 l).
Proof. intros Hse. apply alter_src_ok. intros it. by apply with_subquery_free. Qed.
Lemma tok_weight z w m : has_ty z TTok w m -> (1 <= w)%nat.
Proof. by destruct m; try done; intros [_ ?]. Qed.

Create HintDb yy.
#[local] Hint Resolve expr_opt_freeable list_ok_freeable src_ok_freeable src_ok_some tok_in_set expr_ok_span with_op_ok with_flag_ok
  with_select_ok if_text_in if_positive_in token_end_text tok_in_text expr_ok_free expr_ok_some list_ok_free values_ok_free
  tok_in_name db_none db_tok fine_follows compound_free joined_ok subquery_ok set_first_order_ok : yy.

(** A condition of a lemma about a part of an action. *)
Ltac side := cbn [maybe span_of fmap option_fmap option_map];
  first [done|assumption|solve [eauto with yy]|solve [left; assumption]|solve [right; assumption]].

(** [act]: the next statement of an action. *)
Ltac act :=
  lazymatch goal with
  | |- wp (mbind _ _) _ _ => apply wp_bind
  | |- wp (mret _) _ _ => apply wp_ret
  | |- wp (as_tok _ _) _ _ =>
      first [ eapply as_tok_run; [reflexivity|eassumption|intros ? ? ?] | eapply as_db_run; [reflexivity|eassumption|intros ? ?]
            | eapply as_as_run; [reflexivity|eassumption|intros ? ?] | eapply as_type_run; [reflexivity|eassumption|intros ? ?] ]
  | |- wp (as_int _ _) _ _ => eapply as_int_run; [reflexivity|eassumption|intros ?]
  | |- wp (as_masked _ _) _ _ => eapply as_masked_run; [reflexivity|eassumption|intros ? ?]
  | |- wp (as_select _ _) _ _ => eapply as_select_run; [reflexivity|eassumption|intros ? ?]
  | |- wp (as_expr _ _) _ _ =>
      first [ eapply as_expr_run; [reflexivity|eassumption|intros ? ?] | eapply as_opt_expr_run; [reflexivity|eassumption|intros ? ?] ]
  | |- wp (as_list _ _) _ _ => eapply as_list_run; [reflexivity|eassumption|intros ? ?]
  | |- wp (as_src _ _) _ _ =>
      first [ eapply as_src_run; [reflexivity|eassumption|intros ? ?] | eapply as_any_src_run; [reflexivity|eassumption|intros ? ?] ]
  | |- wp (as_ids _ _) _ _ => eapply as_ids_run; [reflexivity|eassumption|intros ? ?]
  | |- wp (as_values _ _) _ _ => eapply as_values_run; [reflexivity|eassumption|intros ? ?]
  | |- wp (as_limit _ _) _ _ => eapply as_limit_run; [reflexivity|eassumption|intros ? ? ?]
  | |- wp (as_like _ _) _ _ => eapply as_like_run; [reflexivity|eassumption|intros ? ?]
  | |- wp (major_of _ _) _ _ => eapply major_of_run; [reflexivity|]
  | |- wp (destroy _ _ _) _ _ => unfold destroy
  | |- wp (member Some _ _) _ _ => eapply member_run; [reflexivity|reflexivity|]
  | |- wp (yy_destructor _ _) _ _ => eapply destructor_run; [eassumption|]
  | |- wp sqliteMalloc _ _ => apply malloc_run; [side|]
  | |- wp (sqlite3Expr _ _ _ (Some _)) _ _ => apply Expr_token_run; [side|side|side|side|intros ? ?]
  | |- wp (sqlite3Expr _ _ _ None) _ _ => apply Expr_run; [side|side|side|intros ? ?]
  | |- wp (sqlite3ExprFunction _ _) _ _ => apply expr_with_list_run; [side|side|side|intros ? ?]
  | |- wp (sqlite3ExprLikeOp _ _) _ _ => apply expr_with_list_run; [side|side|side|intros ? ?]
  | |- wp (sqlite3ExprSpan _ _ _) _ _ => apply ExprSpan_run; [side|side|side|side|intros ? ?]
  | |- wp (sqlite3ExprListAppend _ _ _ _) _ _ => apply ListAppend_run; [side|side|side|side|intros ? ? ?]
  | |- wp (sqlite3ValuesListAppend _ _) _ _ => apply ValuesAppend_run; [side|side|side|intros ? ?]
  | |- wp (sqlite3IdListAppend _ _ _) _ _ => apply IdListAppend_run; [side|side|side|intros ? ?]
  | |- wp (sqlite3SelectNew _ _ _ _ _ _ _ _ _ _) _ _ => apply SelectNew_run; [side..|intros ? ?]
  | |- wp (sqlite3JoinType _ _ _ _) _ _ => apply JoinType_run; [side|side|side|side|intros ? ? ? ?]
  | |- wp (sqlite3ExprDelete _) _ _ => apply ExprDelete_run; [side|]
  | |- wp (sqlite3ExprListDelete _) _ _ => apply ExprListDelete_run; [side|]
  | |- wp (give_list _ _) _ _ => apply give_list_run; [side|side|intros ? ?]
  | |- wp (give_select _ _) _ _ => apply give_select_run; [side|side|intros ? ?]
  | |- wp (negated _ _) _ _ => apply negated_run; [side|side|intros ? ?]
  | |- wp (index_item _ _ _ _ _) _ _ => apply index_item_run; [side|side|side|intros ? ?]
  | |- wp (raise (set_sort_order _ _)) _ _ => eapply sort_order_run; [side|auto|intros ? ?]
  | |- wp (raise (token_up_to _ _ _)) _ _ => apply token_up_to_run; [side|side|intros ? ?]
  | |- wp (raise (atoi_at _ _)) _ _ => apply atoi_run; [side|side|intros ? ?]
  | |- wp (raise (negate _)) _ _ => apply negate_run; [side|]
  | |- wp (raise (ptr_set _)) _ _ => eapply ptr_set_run; [side|intros ?|]
  | |- wp sqlite3FinishCoding _ _ => apply wp_ret
  | |- wp sqlite3EndTable _ _ => apply wp_ret
  | |- wp (sqlite3BeginParse _) _ _ => apply wp_modify
  | |- wp (sqlite3BeginTransaction _) _ _ => unfold sqlite3BeginTransaction
  | |- wp sqlite3CommitTransaction _ _ => unfold sqlite3CommitTransaction
  | |- wp sqlite3RollbackTransaction _ _ => unfold sqlite3RollbackTransaction
  | |- wp sqlite3StartTable _ _ => unfold sqlite3StartTable
  | |- wp (sqlite3DropTable _) _ _ => unfold sqlite3DropTable
  | |- wp (sqlite3SrcListDelete _) _ _ => apply SrcListDelete_run; [side|]
  | |- wp (sqlite3SrcListAppend _ _ _ _) _ _ =>
      first [eapply SrcListAppend_run; [side|eassumption|unfold sum_list, max_tables in *; cbn in *; lia|side|side|intros ? ? ?]
            |apply (SrcListAppend_run _ 0); [side|done|unfold max_tables; lia|side|side|intros ? ? ?]]
  | |- wp (join_clauses _ _ _ _ _) _ _ => eapply join_clauses_run; [side|side|side|side|side|intros ? ?]
  | |- wp (record_kind _) _ _ => eapply record_kind_run; [eassumption|done|intros ? ? ?]
  | |- wp (sqlite3Select _) _ _ => eapply Select_run; [eassumption|side|intros ? ? ? ?]
  | |- wp (sqlite3Insert _ _ _ _ _ _) _ _ => eapply Insert_run; [eassumption|side..|intros ? ? ?]
  | |- wp (sqlite3Update _ _ _ _ _ _) _ _ => eapply Update_run; [eassumption|side..|intros ? ? ?]
  | |- wp (sqlite3DeleteFrom _ _ _ _) _ _ => eapply DeleteFrom_run; [eassumption|side..|intros ? ? ?]
  | |- wp (match ?x with _ => _ end) _ _ => destruct x eqn:?
  end; cbv beta.

(** What the action of a rule has to achieve. *)
Definition action_spec (z : list Z) (k : nat) (s : parse) (r : Z) : Prop :=
  forall lhs rhs st ws, rule r = Some (lhs, rhs) -> typed z (map alt_ty (rev rhs)) st ws -> (sum_list ws <= max_tables)%nat ->
  wp (reduce_action z r st) (fun m s' => has_ty z (symtype lhs) (sum_list ws) m /\ fine k s' /\ follows s s') s.

Section Ok.
Context (z : list Z) (k : nat) (s : parse).
Hypothesis (Hnum : small_numbers z) (Hs : fine (S k) s).

Lemma ok_plentiful : plentiful s.
Proof. apply Hs. Qed.

Lemma ok_fine : fine k s.
Proof. eapply fine_less; [exact Hs|lia]. Qed.

Lemma ok_follows : follows s s.
Proof. apply follows_refl, Hs. Qed.
End Ok.

(** The facts about the values that a rule pops. *)
Ltac open_rule :=
  let lhs := fresh "lhs" in let rhs := fresh "rhs" in let st := fresh "st" in let ws := fresh "ws" in
  let E := fresh "E" in let Ht := fresh "Ht" in let Hw := fresh "Hw" in
  intros lhs rhs st ws E Ht Hw; vm_compute in E; injection E as <- <-;
  cbn [map rev app alt_ty hd] in Ht;
  repeat (match type of Ht with typed _ (_ :: _) ?st ?ws =>
            let e := fresh "e" in let w := fresh "w" in let Hv := fresh "Hv" in
            destruct st as [|e st]; [by destruct ws|]; destruct ws as [|w ws]; [done|]; destruct Ht as [Hv Ht];
            match type of Hv with has_ty _ ?t _ _ => let t' := eval vm_compute in t in change t with t' in Hv end
          end);
  match type of Ht with typed _ [] _ ?ws => destruct ws; [clear Ht|done] end;
  match goal with |- wp _ (fun m s' => has_ty _ ?t _ _ /\ _) _ => let t' := eval vm_compute in t in change t with t' end;
  unfold reduce_action, reduce_commands, reduce_references, reduce_selects, reduce_sources, reduce_clauses, reduce_changes, reduce_terms, reduce_operators, reduce_queries, reduce_lists; cbv iota.

(** The value of the left-hand side. *)
Ltac finish_rule :=
  split; [cbn [has_ty]; first [side|split; [side|cbn; lia]|by cbn; eapply src_ok_mono; [side|cbn; lia]|idtac]|split; side].

(** A subquery in parentheses takes a token at least. *)
Lemma action_127 z k s : fine (S k) s -> action_spec z k s 127.
Proof.
  intros Hs. pose proof (ok_plentiful k s Hs). pose proof (ok_fine k s Hs). pose proof (ok_follows k s Hs).
  open_rule. pose proof (tok_weight z w4 (minor e4) Hv4). repeat act. finish_rule.
Qed.

Lemma action_ok z k s r : small_numbers z -> fine (S k) s -> r <> 192 -> r <> 195 -> action_spec z k s r.
Proof.
  intros Hnum Hs Hr1 Hr2. pose proof (ok_plentiful k s Hs). pose proof (ok_fine k s Hs). pose proof (ok_follows k s Hs).
  by_bits r; try (intros lhs rhs st ws E; discriminate E); try done; try (by apply action_127); open_rule; repeat act; try finish_rule.
  - by apply compound_free.
  - destruct (i =? 0); side.
Qed.
End SqlYyTypes.
