(* ===== verification/SqlYyAutomaton.v ===== *)
(** Validation of the tables of parse.c.

    The tables are checked by computation, once and for all: [automaton_ok] says that, whatever
    the stack, a shift leads to a state that is entered on the token shifted or on its fallback;
    that a reduction finds the right-hand side of its rule on the stack, and a state below it
    from which the left-hand side leads on; that only the end of the input is accepted; that no
    state shifts the error symbol; and that the reductions without a look below a state come to
    an end.  [acc], [preds] and [reds] are read off the tables first. *)
From S2P Require Import Prelude Machine SqlYyTables SqlYy.

Module SqlYyAutomaton.
Import SqlYyTables SqlYy.

Definition numbers (from : Z) (n : nat) : list Z := map (fun i => from + Z.of_nat i) (seq 0 n).
Definition states : list Z := Eval vm_compute in numbers 0 466.
Definition terminals : list Z := Eval vm_compute in numbers 0 136.
Definition nonterminals : list Z := Eval vm_compute in numbers 137 92.

Definition mem (x : Z) (l : list Z) : bool := existsb (Z.eqb x) l.

Definition fallback (a : Z) : Z := default 0 (cell yyFallback_at a).

(** The action of a state on a symbol that the table has an entry for. *)
Definition entry (ofst : table Z) (dflt max s a : Z) : option Z :=
  if max <? s then None else
  i ← cell ofst s;
  if i =? dflt then None else
  if (i + a <? 0) || (YY_SZ_ACTTAB <=? i + a) then None else
  l ← cell yy_lookahead_at (i + a);
  if l =? a then cell yy_action_at (i + a) else None.

Definition moves (s : Z) : list (Z * Z) :=
  (a ← terminals; match entry yy_shift_ofst_at YY_SHIFT_USE_DFLT YY_SHIFT_MAX s a with Some t => [(a, t)] | None => [] end)
  ++ (a ← nonterminals; match entry yy_reduce_ofst_at YY_REDUCE_USE_DFLT YY_REDUCE_MAX s a with Some t => [(a, t)] | None => [] end).

(** The entries that are states, with the state they belong to. *)
Definition edges : list (Z * Z * Z) :=
  s ← states; '(a, t) ← moves s; if t <? YYNSTATE then [(s, a, t)] else [].

Definition add (x : Z) (l : list Z) : list Z := if mem x l then l else x :: l.

(** The symbols on which a state is entered, and the states it is entered from. *)
Definition acc_at : table (list Z) := Eval vm_compute in
  fold_left (fun t '(_, a, s) => put_cell t (Z.to_pos (s + 1)) (add a (default [] (cell t s)))) edges Hole.
Definition preds_at : table (list Z) := Eval vm_compute in
  fold_left (fun t '(b, _, s) => put_cell t (Z.to_pos (s + 1)) (add b (default [] (cell t s)))) edges Hole.

(** The rules by which a state may reduce. *)
Definition reds_at : table (list Z) := Eval vm_compute in
  table_of (map (fun s => remove_dups (filter (fun r => 0 <= r /\ r < YYNRULE)
    (map (fun a => a - YYNSTATE) (default 0 (cell yy_default_at s) :: map snd (moves s))))) states).

Definition acc (s : Z) : list Z := default [] (cell acc_at s).
Definition preds (s : Z) : list Z := default [] (cell preds_at s).
Definition reds (s : Z) : list Z := default [] (cell reds_at s).

(** * Checks *)

(** The action of state [s] on the token [a]. *)
Definition check_shift (s a : Z) : bool :=
  match find_shift 2 s a with
  | Ok act =>
      if act <? YYNSTATE then
        negb (a =? 0) && (0 <? act) && mem s (preds act) && (mem a (acc act) || (negb (fallback a =? 0) && mem (fallback a) (acc act)))
      else if act <? YYNSTATE + YYNRULE then mem (act - YYNSTATE) (reds s) && (negb (act =? YYNSTATE) || (a =? 0))
      else act =? YY_ERROR_ACTION
  | _ => false
  end.

Definition check_error (s : Z) : bool :=
  match find_shift 2 s YYERRORSYMBOL with Ok act => YYNSTATE <=? act | _ => false end.

(** The states below the symbols [syms], last symbol first, on the way to one of [ss]; none if
    some of these states is entered on another symbol. *)
Fixpoint back (syms : list (list Z)) (ss : list Z) : option (list Z) :=
  match syms with
  | [] => Some ss
  | alts :: syms =>
      if forallb (fun s => negb (s =? 0) && forallb (fun a => mem a alts) (acc s)) ss
      then back syms (fold_right (fun s l => fold_right add l (preds s)) [] ss)
      else None
  end.

(** Where the left-hand side of rule [r] leads from [b]. *)
Definition check_goto (r lhs b : Z) : bool :=
  match yy_find_reduce_action b lhs with
  | Ok act => if act <? YYNSTATE then (0 <? act) && mem b (preds act) && mem lhs (acc act) else (act =? YY_ACCEPT_ACTION) && (r =? 0) && (b =? 0)
  | _ => false
  end.

(** The alternatives at a place of a rule: one symbol, or terminals. *)
Definition check_alts (alts : list Z) : bool :=
  match alts with [] => false | [_] => true | _ => forallb (fun a => a <? YYERRORSYMBOL) alts end.

Definition check_rule (s r : Z) : bool :=
  match rule r with
  | Some (lhs, rhs) =>
      (YYERRORSYMBOL <? lhs) && (lhs <? YYNOCODE) && forallb check_alts rhs
      && match back (rev rhs) [s] with Some bs => forallb (check_goto r lhs) bs | None => false end
  | None => false
  end.

Definition check_state (s : Z) : bool :=
  forallb (check_shift s) terminals && check_error s && forallb (check_rule s) (reds s).

(** All ways to reduce above the state [b] end within [n] steps. *)
Fixpoint explore (n : nat) (b : Z) (above : list Z) : bool :=
  match n with
  | O => false
  | S n =>
      forallb (fun r =>
        match rule r with
        | Some (lhs, rhs) =>
            if (length rhs <=? length above)%nat then
              let above := drop (length rhs) above in
              match yy_find_reduce_action (hd b above) lhs with
              | Ok act => if act <? YYNSTATE then explore n b (act :: above) else true
              | _ => true
              end
            else true
        | None => true
        end) (reds (hd b above))
  end.

Definition chain : nat := 8.

Definition check_chains (s : Z) : bool := forallb (fun b => explore chain b [s]) (preds s).

(** * Results *)

Lemma states_ok : forallb check_state states = true.
Proof. vm_compute. reflexivity. Qed.

Lemma chains_ok : forallb check_chains states && explore chain 0 [] = true.
Proof. vm_compute. reflexivity. Qed.
End SqlYyAutomaton.
