(* ===== verification/SqlYyFacts.v ===== *)
(** The SQL parser is type safe, terminates and accepts only sentences of its grammar.

    The stack of the parser is described by [stacked]: its states are linked by the automaton,
    every element has a symbol that derives a part of the tokens read so far, and its semantic
    value has the type of that symbol.  The validation of the tables makes this an invariant of
    shifting, reducing and of the handling of errors, and [explore] bounds the number of
    reductions that a token can cause. *)
From S2P Require Import Prelude Machine Libc SqlUtil SqlToken SqlParse SqlTree SqlTreeFacts SqlYyTables SqlYy SqlYyTypes SqlYyAutomaton.

Module SqlYyFacts.
Import Tk SqlToken SqlParse SqlTree SqlTreeFacts SqlYyTables SqlYy SqlYyTypes SqlYyAutomaton.

(** * The language *)

(** The sentences of the grammar of [yyRuleName]: a symbol derives a list of tokens; a token may
    stand for its fallback. *)
Inductive derives : Z -> list Z -> Prop :=
| derives_token sym a : sym < 136 -> sym = a \/ fallback a <> 0 /\ sym = fallback a -> derives sym [a]
| derives_rule r lhs rhs ys : rule r = Some (lhs, rhs) -> derives_all rhs ys -> derives lhs ys
with derives_all : list (list Z) -> list Z -> Prop :=
| derives_nil : derives_all [] []
| derives_cons alts rhs sym ys zs : sym ∈ alts -> derives sym ys -> derives_all rhs zs -> derives_all (alts :: rhs) (ys ++ zs).

Lemma derives_all_app a b ys zs : derives_all a ys -> derives_all b zs -> derives_all (a ++ b) (ys ++ zs).
Proof.
  intros Ha Hb. induction Ha as [|alts a sym ys ys' Hin Hd _ IH]; [done|]. rewrite <- app_assoc. cbn [app]. by eapply derives_cons.
Qed.

Lemma derives_all_one alts sym ys : sym ∈ alts -> derives sym ys -> derives_all [alts] ys.
Proof. intros Hin Hd. rewrite <- (app_nil_r ys). eapply derives_cons; [done|done|constructor]. Qed.

(** The start symbol of the grammar. *)
Definition input : Z := 137.

(** * Checks, as propositions *)

Lemma mem_spec x l : mem x l = true <-> x ∈ l.
Proof.
  unfold mem. rewrite existsb_exists. split.
  - intros (y & Hy & E). apply Z.eqb_eq in E as ->. by apply list_elem_of_In.
  - intros Hx. exists x. split; [by apply list_elem_of_In|apply Z.eqb_refl].
Qed.

Lemma forallb_elem {A} (f : A -> bool) l x : forallb f l = true -> x ∈ l -> f x = true.
Proof. rewrite forallb_forall. intros H Hx. apply H. by apply list_elem_of_In. Qed.

Lemma numbers_elem from n x : from <= x < from + Z.of_nat n -> x ∈ numbers from n.
Proof.
  intros Hx. unfold numbers. apply list_elem_of_fmap. exists (Z.to_nat (x - from)). split; [lia|]. apply elem_of_seq. lia.
Qed.

Lemma state_elem s : 0 <= s < 466 -> s ∈ states.
Proof. intros Hs. change states with (numbers 0 466). apply numbers_elem. lia. Qed.

Lemma terminal_elem a : 0 <= a < 136 -> a ∈ terminals.
Proof. intros Ha. change terminals with (numbers 0 136). apply numbers_elem. lia. Qed.

Lemma state_checked s : 0 <= s < 466 -> check_state s = true.
Proof. intros Hs. eapply forallb_elem; [exact states_ok|by apply state_elem]. Qed.

Lemma shift_checked s a : 0 <= s < 466 -> 0 <= a < 136 -> check_shift s a = true.
Proof.
  intros Hs Ha. pose proof (state_checked s Hs) as H. unfold check_state in H. rewrite !andb_true_iff in H. destruct H as [[H _] _].
  eapply forallb_elem; [exact H|by apply terminal_elem].
Qed.

Lemma error_checked s : 0 <= s < 466 -> exists act, find_shift 2 s YYERRORSYMBOL = Ok act /\ YYNSTATE <= act.
Proof.
  intros Hs. pose proof (state_checked s Hs) as H. unfold check_state in H. rewrite !andb_true_iff in H. destruct H as [[_ H] _].
  unfold check_error in H. destruct (find_shift 2 s YYERRORSYMBOL) as [act| | | |]; try done. exists act. split; [done|]. by apply Z.leb_le.
Qed.

Lemma rule_checked s r : 0 <= s < 466 -> r ∈ reds s -> check_rule s r = true.
Proof.
  intros Hs Hr. pose proof (state_checked s Hs) as H. unfold check_state in H. rewrite !andb_true_iff in H. destruct H as [_ H].
  by eapply forallb_elem.
Qed.

Lemma chain_checked s b : 0 <= s < 466 -> b ∈ preds s -> explore chain b [s] = true.
Proof.
  intros Hs Hb. pose proof chains_ok as H. rewrite andb_true_iff in H. destruct H as [H _].
  apply (forallb_elem (fun b => explore chain b [s]) (preds s)); [|done].
  apply (forallb_elem check_chains states); [exact H|by apply state_elem].
Qed.

(** What [yy_find_shift_action] can answer. *)
Lemma shift_cases s a : 0 <= s < 466 -> 0 <= a < 136 -> exists act, find_shift 2 s a = Ok act
  /\ ((0 < act < YYNSTATE /\ a <> 0 /\ s ∈ preds act /\ (exists sym, sym ∈ acc act /\ (sym = a \/ fallback a <> 0 /\ sym = fallback a)))
      \/ (YYNSTATE <= act < YYNSTATE + YYNRULE /\ (act - YYNSTATE) ∈ reds s /\ (act = YYNSTATE -> a = 0))
      \/ act = YY_ERROR_ACTION).
Proof.
  intros Hs Ha. pose proof (shift_checked s a Hs Ha) as H. unfold check_shift in H.
  destruct (find_shift 2 s a) as [act| | | |]; try done. exists act. split; [done|].
  destruct (Z.ltb_spec act YYNSTATE) as [H1|H1].
  - left. rewrite !andb_true_iff, !orb_true_iff, !andb_true_iff, !negb_true_iff, !Z.eqb_neq, Z.ltb_lt, !mem_spec in H.
    destruct H as [[[Ha0 Hact] Hp] Hacc]. split; [lia|]. split; [done|]. split; [done|].
    destruct Hacc as [Hacc|[Hf Hacc]]; eexists; split; try exact Hacc; auto.
  - right. destruct (Z.ltb_spec act (YYNSTATE + YYNRULE)) as [H2|H2]; [left|right; by apply Z.eqb_eq].
    rewrite andb_true_iff, orb_true_iff, negb_true_iff, !Z.eqb_eq, Z.eqb_neq, mem_spec in H. destruct H as [Hr Hz].
    split; [lia|]. split; [done|]. intros E. destruct Hz as [?|?]; [done|done].
Qed.

(** What a rule says about the stack. *)
Lemma rule_cases s r : 0 <= s < 466 -> r ∈ reds s -> exists lhs rhs bs, rule r = Some (lhs, rhs) /\ 136 < lhs < 230
  /\ Forall (fun alts => check_alts alts = true) rhs /\ back (rev rhs) [s] = Some bs
  /\ forall b, b ∈ bs -> exists act, yy_find_reduce_action b lhs = Ok act
      /\ ((0 < act < YYNSTATE /\ b ∈ preds act /\ lhs ∈ acc act) \/ (act = YY_ACCEPT_ACTION /\ r = 0 /\ b = 0)).
Proof.
  intros Hs Hr. pose proof (rule_checked s r Hs Hr) as H. unfold check_rule in H. destruct (rule r) as [[lhs rhs]|]; [|done].
  rewrite !andb_true_iff, !Z.ltb_lt in H. destruct H as [[[H1 H2] H3] H4]. destruct (back (rev rhs) [s]) as [bs|] eqn:Eb; [|done].
  exists lhs, rhs, bs. unfold YYERRORSYMBOL, YYNOCODE in *. split; [done|]. split; [lia|]. split.
  { apply Forall_forall. intros alts Ha. by eapply (forallb_elem check_alts). }
  split; [done|]. intros b Hb. pose proof (forallb_elem _ _ _ H4 Hb) as Hg. unfold check_goto in Hg.
  destruct (yy_find_reduce_action b lhs) as [act| | | |]; try done. exists act. split; [done|].
  destruct (Z.ltb_spec act YYNSTATE).
  - left. rewrite !andb_true_iff, Z.ltb_lt, !mem_spec in Hg. destruct Hg as [[? ?] ?]. split_and!; try done; lia.
  - right. rewrite !andb_true_iff, !Z.eqb_eq in Hg. tauto.
Qed.

(** * The stack *)

Section Stack.
Context (z : list Z).

(** The tokens the theorems are about: all but registers and CAST. *)
Definition plain (a : Z) : Prop := 0 <= a < 136 /\ a <> TK_REGISTER /\ a <> TK_CAST.

(** The element [e] was entered with the symbol [sym], which derives the tokens [ys]. *)
Definition entered (e : yyStackEntry) (sym : Z) (ys : list Z) : Prop :=
  sym ∈ acc (stateno e) /\ derives sym ys /\ has_ty z (symtype sym) (length ys) (minor e)
  /\ (plain sym /\ 0 <= major e < 136 \/ 136 < sym < 230 /\ major e = sym).

(** A stack above the initial state, and the tokens read. *)
Inductive stacked : list yyStackEntry -> list Z -> Prop :=
| stacked_bottom : stacked [MkEntry 0 0 YYNone] []
| stacked_push e b st ts sym ys :
    stacked (b :: st) ts -> stateno b ∈ preds (stateno e) -> 0 < stateno e < 466 -> entered e sym ys ->
    stacked (e :: b :: st) (ts ++ ys).

Lemma stacked_state st ts : stacked st ts -> Forall (fun e => 0 <= stateno e < 466) st.
Proof. induction 1 as [|e b st ts sym ys _ IH _ Hs _]; [by repeat constructor|]. constructor; [lia|done]. Qed.

Lemma stacked_top e st ts : stacked (e :: st) ts -> 0 <= stateno e < 466.
Proof. intros H. apply stacked_state in H. by apply Forall_cons in H as [? _]. Qed.

(** Below state 0 there is nothing. *)
Lemma stacked_zero e st ts : stacked (e :: st) ts -> stateno e = 0 -> st = [] /\ ts = [].
Proof. inversion 1; subst; [done|]. lia. Qed.

Inductive Forall3 {A B C} (P : A -> B -> C -> Prop) : list A -> list B -> list C -> Prop :=
| Forall3_nil : Forall3 P [] [] []
| Forall3_cons a b c la lb lc : P a b c -> Forall3 P la lb lc -> Forall3 P (a :: la) (b :: lb) (c :: lc).

(** An element for a place of a right-hand side. *)
Definition fits (alts : list Z) (e : yyStackEntry) (ys : list Z) : Prop := exists sym, sym ∈ alts /\ entered e sym ys.

Lemma fold_add_elem x l m : x ∈ fold_right add m l <-> x ∈ l \/ x ∈ m.
Proof.
  induction l as [|y l IH]; [set_solver|]. cbn [fold_right]. unfold add at 1. destruct (mem y _) eqn:E.
  - rewrite mem_spec in E. rewrite IH. set_solver.
  - set_solver.
Qed.

Lemma preds_elem x ss : x ∈ fold_right (fun s l => fold_right add l (preds s)) [] ss <-> exists s, s ∈ ss /\ x ∈ preds s.
Proof.
  induction ss as [|s ss IH]; [set_solver|]. cbn [fold_right]. rewrite fold_add_elem, IH. set_solver.
Qed.

(** The right-hand side is on the stack, and a state that [back] found is below it. *)
Lemma back_pops syms : forall ss bs e st ts, back syms ss = Some bs -> stacked (e :: st) ts -> stateno e ∈ ss ->
  exists popped b rest tsr yss, e :: st = popped ++ b :: rest /\ stacked (b :: rest) tsr /\ stateno b ∈ bs
    /\ ts = tsr ++ concat (rev yss) /\ Forall3 fits syms popped yss.
Proof.
  induction syms as [|alts syms IH]; intros ss bs e st ts Hb Hst He.
  - injection Hb as <-. exists [], e, st, ts, []. split; [done|]. split; [done|]. split; [done|]. split; [by rewrite app_nil_r|constructor].
  - cbn [back] in Hb. destruct (forallb _ ss) eqn:Ef; [|done]. pose proof (forallb_elem _ _ _ Ef He) as Hok. cbv beta in Hok.
    rewrite andb_true_iff, negb_true_iff, Z.eqb_neq in Hok. destruct Hok as [Hne Hacc].
    inversion Hst as [E|e' b st' ts' sym ys Hst' Hp Hs Hen]; subst; [done|].
    destruct (IH _ _ b st' ts' Hb Hst') as (popped & b' & rest & tsr & yss & E & Hrest & Hb' & Ets & Hall).
    { apply preds_elem. by exists (stateno e). }
    exists (e :: popped), b', rest, tsr, (ys :: yss). rewrite E. split; [done|]. split; [done|]. split; [done|].
    split; [rewrite Ets; cbn [rev]; by rewrite concat_app, app_assoc; cbn; rewrite app_nil_r|].
    constructor; [|done]. exists sym. split; [|done]. apply mem_spec. exact (forallb_elem _ _ _ Hacc (proj1 Hen)).
Qed.

(** The types of the values found. *)
Lemma fits_typed syms popped yss rest : Forall (fun alts => check_alts alts = true) syms -> Forall3 fits syms popped yss ->
  typed z (map alt_ty syms) (popped ++ rest) (map length yss).
Proof.
  intros Hal Hf. induction Hf as [|alts e ys syms popped yss (sym & Hsym & Hen) _ IH]; [by destruct rest|].
  apply Forall_cons in Hal as [Ha Hal]. cbn [map typed app]. split; [|auto].
  assert (alt_ty alts = symtype sym) as ->; [|apply Hen]. unfold alt_ty. destruct alts as [|a [|b alts]]; [done|by apply list_elem_of_singleton in Hsym as ->|].
  cbn [hd]. assert (forall x, x ∈ a :: b :: alts -> x < 136) as Hlt.
  { intros x Hx. apply Z.ltb_lt. by eapply (forallb_elem (fun a => a <? YYERRORSYMBOL)). }
  unfold symtype. pose proof (Hlt a ltac:(by left)). pose proof (Hlt sym Hsym).
  by destruct (Z.ltb_spec a 136), (Z.ltb_spec sym 136); try lia.
Qed.

Lemma fits_derives syms popped yss : Forall3 fits syms popped yss -> derives_all (rev syms) (concat (rev yss)).
Proof.
  induction 1 as [|alts e ys syms popped yss (sym & Hsym & Hen) _ IH]; [constructor|]. cbn [rev]. rewrite concat_app. cbn. rewrite app_nil_r.
  apply derives_all_app; [done|]. eapply derives_all_one; [done|apply Hen].
Qed.

Lemma sum_length (yss : list (list Z)) : sum_list (map length yss) = length (concat (rev yss)).
Proof.
  induction yss as [|ys yss IH]; [done|]. cbn [rev map]. rewrite concat_app, length_app. cbn [concat]. rewrite app_nil_r.
  change (sum_list (length ys :: map length yss)) with (length ys + sum_list (map length yss))%nat. lia.
Qed.

Lemma fits_length syms popped yss : Forall3 fits syms popped yss -> length popped = length syms.
Proof. induction 1; simpl; lia. Qed.

(** Registers and CAST do not occur. *)
Lemma fits_plain syms popped yss : Forall3 fits syms popped yss -> Forall (fun alts => alts <> [TK_REGISTER] /\ alts <> [TK_CAST]) syms.
Proof.
  induction 1 as [|alts e ys syms popped yss (sym & Hsym & _ & _ & _ & Hk) _ IH]; constructor; [|done].
  unfold plain, TK_REGISTER, TK_CAST in *. split; intros ->; apply list_elem_of_singleton in Hsym; lia.
Qed.
End Stack.

(** * Popping *)

Lemma wp_on_parse {A} (m : M parse A) (P : A -> yy -> Prop) s : wp m (fun a p => P a (MkYy (yyp s) p)) (pParse s) -> wp (on_parse m) P s.
Proof. unfold wp, on_parse, lift. by destruct (m (pParse s)) as [[] p]. Qed.

Definition poppable (e : yyStackEntry) : Prop :=
  forall s (P : unit -> parse -> Prop), P tt s -> wp (yy_destructor (wrap 8 (major e)) (minor e)) P s.

Lemma stacked_poppable z st ts : stacked z st ts -> Forall poppable st.
Proof.
  assert (forall k m s (P : unit -> parse -> Prop), 0 <= k < 136 -> P tt s -> wp (yy_destructor k m) P s) as Hterm.
  { intros k m s P Hk HP. assert (yy_destructor k m = mret tt) as ->; [|done].
    unfold yy_destructor. by_bits k; first [reflexivity|exfalso; lia]. }
  induction 1 as [|e b st ts sym ys _ IH _ _ (_ & _ & Hty & Hk)]; [|constructor; [|done]].
  { apply Forall_singleton. intros s P HP. exact HP. }
  intros s P HP. destruct Hk as [[_ Hk]|[Hk E]]; rewrite wrap_small by lia; [by apply Hterm|]. rewrite E. by eapply destructor_run.
Qed.

Lemma put_stack_twice st st' s : put_stack st (put_stack st' s) = put_stack st s.
Proof. done. Qed.

Lemma put_stack_same s : put_stack (yystack (yyp s)) s = s.
Proof. by destruct s as [[] ?]. Qed.

Lemma pop_run e st s (P : Z -> yy -> Prop) : yystack (yyp s) = e :: st -> poppable e -> P (wrap 8 (major e)) (put_stack st s) ->
  wp yy_pop_parser_stack P s.
Proof.
  intros E He HP. unfold yy_pop_parser_stack, get_stack. wp_step. wp_step. rewrite E. wp_step. apply wp_on_parse, He.
  wp_step. wp_step. wp_step. by destruct s.
Qed.

Lemma pop_loop_run st : forall s (P : unit -> yy -> Prop), yystack (yyp s) = st -> Forall poppable st -> P tt (put_stack [] s) ->
  wp (pop_loop (length st)) P s.
Proof.
  induction st as [|e st IH]; intros s P E Hst HP.
  - cbn [length pop_loop]. wp_step. by rewrite <- E, put_stack_same in HP.
  - apply Forall_cons in Hst as [He Hst]. cbn [length pop_loop]. wp_step. eapply pop_run; [done|done|]. by apply IH.
Qed.

Lemma pop_all_run s (P : unit -> yy -> Prop) : Forall poppable (yystack (yyp s)) -> P tt (put_stack [] s) -> wp pop_all P s.
Proof. intros Hst HP. unfold pop_all, get_stack. wp_step. wp_step. by apply pop_loop_run. Qed.

Lemma M_bind_assoc {S A B C} (m : M S A) (f : A -> M S B) (g : B -> M S C) s : (m ≫= (fun a => f a ≫= g)) s = ((m ≫= f) ≫= g) s.
Proof. unfold mbind, M_bind. by destruct (m s) as [[] s']. Qed.

(** * Reductions *)

(** What a reduction does to the stack [st], which has read [ts], on its way to [s']. *)
Definition reduced (z : list Z) (r : Z) (st : list yyStackEntry) (ts : list Z) (s' : yy) : Prop :=
  (exists lhs rhs act b rest m, rule r = Some (lhs, rhs) /\ drop (length rhs) st = b :: rest
     /\ yy_find_reduce_action (stateno b) lhs = Ok act /\ 0 < act < YYNSTATE /\ stateno b ∈ preds act
     /\ yystack (yyp s') = MkEntry act lhs m :: b :: rest /\ stacked z (yystack (yyp s')) ts /\ (length (yystack (yyp s')) <= YYSTACKDEPTH)%nat)
  \/ (yystack (yyp s') = [] /\ zErrMsg (pc (pParse s')) <> None)
  \/ (yystack (yyp s') = [] /\ r = 0 /\ derives input ts).

Lemma rule_info r lhs rhs : rule r = Some (lhs, rhs) -> fetch yyRuleInfo_at r = Ok (lhs, Z.of_nat (length rhs)).
Proof.
  intros H. assert (0 <= r < 254) as Hr.
  { by_bits r; first [discriminate H|lia]. }
  assert (forallb (fun r => match rule r, cell yyRuleInfo_at r with
                            | Some (l, rhs), Some (l', n) => (l =? l') && (n =? Z.of_nat (length rhs))
                            | _, _ => false end) (numbers 0 254) = true) as Hall by (vm_compute; reflexivity).
  pose proof (forallb_elem _ _ r Hall (numbers_elem 0 254 r ltac:(lia))) as Hc. cbv beta in Hc. rewrite H in Hc. unfold fetch.
  destruct (cell yyRuleInfo_at r) as [[l n]|]; [|done]. rewrite andb_true_iff, !Z.eqb_eq in Hc. by destruct Hc as [<- ->].
Qed.

Lemma yy_shift_run z st ts act k m s (P : unit -> yy -> Prop) : yystack (yyp s) = st -> stacked z st ts -> plentiful (pParse s) ->
  ((length st < YYSTACKDEPTH)%nat -> P tt (put_stack (MkEntry act k m :: st) s)) ->
  (forall s', yyp s' = yyp (put_stack [] s) -> follows (pParse s) (pParse s') -> zErrMsg (pc (pParse s')) <> None ->
     parsed (pa (pParse s')) = parsed (pa (pParse s)) -> P tt s') ->
  wp (yy_shift act k m) P s.
Proof.
  intros E Hst Hp H1 H2. unfold yy_shift, get_stack. wp_step. wp_step. rewrite E. destruct (Nat.leb_spec YYSTACKDEPTH (length st)).
  - wp_step. apply pop_all_run; [rewrite E; by eapply stacked_poppable|]. apply wp_on_parse, ErrorMsg_run; [done|].
    intros p Hf Hm Hpa. apply H2; [done|done|cbn [pParse]; by rewrite Hm|done].
  - wp_step. by apply H1.
Qed.

(** C27. The tables of the parser are consistent.  For every state and every token the lookup of
    the action, default and fallback included, stays inside the tables and answers with a state
    that has an edge from this one, with an error, or with a rule; a rule has the left-hand side
    and the number of symbols that its entry in [yyRuleName] spells out, and rule 0, which accepts,
    is only used at the end of the input. *)
Theorem tables_consistent (s a : Z) : 0 <= s < YYNSTATE -> 0 <= a < 136 ->
  exists act, find_shift 2 s a = Ok act
    /\ (0 < act < YYNSTATE /\ s ∈ preds act
        \/ (exists lhs rhs, rule (act - YYNSTATE) = Some (lhs, rhs) /\ fetch yyRuleInfo_at (act - YYNSTATE) = Ok (lhs, Z.of_nat (length rhs))
            /\ (act = YYNSTATE -> a = 0))
        \/ act = YY_ERROR_ACTION).
Proof.
  intros Hs Ha. destruct (shift_cases s a Hs Ha) as (act & E & [(Hact & _ & Hp & _)|[(Hact & Hr & H0)|He]]); exists act; (split; [done|]).
  - by left.
  - right; left. destruct (rule_cases s _ Hs Hr) as (lhs & rhs & _ & Er & _). exists lhs, rhs. split; [done|]. split; [by apply rule_info|done].
  - by right; right.
Qed.

Lemma tables_consistent_witness : exists act, find_shift 2 0 TK_SELECT = Ok act
  /\ (0 < act < YYNSTATE /\ 0 ∈ preds act
      \/ (exists lhs rhs, rule (act - YYNSTATE) = Some (lhs, rhs) /\ fetch yyRuleInfo_at (act - YYNSTATE) = Ok (lhs, Z.of_nat (length rhs))
          /\ (act = YYNSTATE -> TK_SELECT = 0))
      \/ act = YY_ERROR_ACTION).
Proof. apply (tables_consistent 0 TK_SELECT); unfold YYNSTATE, TK_SELECT; lia. Defined.

Section Run.
Context (z : list Z) (Hnum : small_numbers z).

(** Rules with registers or CAST are not used. *)
Lemma fits_not_excluded r lhs rhs popped yss : rule r = Some (lhs, rhs) -> Forall3 (fits z) (rev rhs) popped yss -> r <> 192 /\ r <> 195.
Proof.
  intros E Hf. apply fits_plain in Hf. split; intros ->; vm_compute in E; injection E as <- <-; vm_compute in Hf;
    rewrite ?Forall_cons in Hf; naive_solver.
Qed.

Lemma drop_popped (popped : list yyStackEntry) b rest n : n = length popped -> drop n (popped ++ b :: rest) = b :: rest.
Proof. intros ->. apply drop_app_length. Qed.

Lemma yy_reduce_run r k st e ts s : yystack (yyp s) = e :: st -> stacked z (e :: st) ts -> r ∈ reds (stateno e) ->
  (length (e :: st) <= YYSTACKDEPTH)%nat -> fine (S k) (pParse s) -> (length ts <= max_tables)%nat ->
  wp (yy_reduce z r) (fun _ s' => reduced z r (e :: st) ts s' /\ fine k (pParse s') /\ follows (pParse s) (pParse s')
    /\ yyerrcnt (yyp s') = yyerrcnt (yyp s)) s.
Proof.
  intros E Hst Hr Hlen Hf Hts. destruct (rule_cases (stateno e) r) as (lhs & rhs & bs & Er & Hlhs & Hal & Hb & Hgo); [by eapply stacked_top|done|].
  destruct (back_pops z _ _ _ _ _ _ Hb Hst) as (popped & b & rest & tsr & yss & Epop & Hrest & Hbs & Ets & Hfits); [by left|].
  pose proof (fits_not_excluded r lhs rhs popped yss Er Hfits) as [Hr1 Hr2].
  pose proof (fits_length _ _ _ _ Hfits) as Hpl. rewrite length_rev in Hpl.
  assert (length (concat (rev yss)) <= max_tables)%nat as Hw by (rewrite Ets, length_app in Hts; lia).
  unfold yy_reduce, get_stack. wp_step. wp_step. rewrite E. wp_step. apply wp_on_parse.
  eapply wp_mono; [|apply (action_ok z k (pParse s) r Hnum Hf Hr1 Hr2 lhs rhs (e :: st) (map length yss) Er)].
  2: { rewrite Epop. apply fits_typed; [|done]. by apply Forall_rev. }
  2: { by rewrite sum_length. }
  intros m p (Hm & Hfp & Hfo). rewrite sum_length in Hm. wp_step. eapply wp_raise; [by apply rule_info|]. cbv beta iota.
  assert (drop (Z.to_nat (Z.of_nat (length rhs))) (e :: st) = b :: rest) as Edrop.
  { rewrite Nat2Z.id, Epop. by apply drop_popped. }
  rewrite Edrop. wp_step. wp_step. wp_step. destruct (Hgo (stateno b) Hbs) as (act & Eact & Hact). eapply wp_raise; [exact Eact|].
  set (s1 := put_stack (b :: rest) (MkYy (yyp s) p)).
  assert (derives lhs (concat (rev yss))) as Hd.
  { eapply derives_rule; [exact Er|]. rewrite <- (rev_involutive rhs). by eapply fits_derives. }
  destruct Hact as [(Hact & Hpred & Hacc)|(-> & -> & Hb0)].
  - destruct (Z.ltb_spec act YYNSTATE); [|lia]. unfold YYNSTATE in Hact.
    assert (stacked z (MkEntry act lhs m :: b :: rest) ts) as Hnew.
    { rewrite Ets. apply (stacked_push z _ _ _ _ lhs); [done|done|done|]. split_and!; try done. right. split; [lia|done]. }
    assert (length (b :: rest) + length rhs = length (e :: st))%nat as Hcount by (rewrite Epop, length_app; lia).
    assert (forall s', yyp s' = yyp (put_stack (MkEntry act lhs m :: b :: rest) s1) -> (length (b :: rest) < YYSTACKDEPTH)%nat -> reduced z r (e :: st) ts s') as Hred.
    { intros s' Es Hl. left. exists lhs, rhs, act, b, rest, m. rewrite Es. cbn [yystack yyp put_stack]. rewrite Nat2Z.id in Edrop. cbn [length] in *. split_and!; try done; lia. }
    destruct (Z.eqb_spec (Z.of_nat (length rhs)) 0) as [E0|E0]; cbn [negb].
    + eapply (yy_shift_run z (b :: rest) tsr); [done|done|apply Hfp| |].
      * intros Hl. split; [by apply Hred|]. done.
      * intros s' Es Hf' Hz Hpa. split; [right; left; by rewrite Es|]. split; [by eapply fine_follows|].
        split; [by eapply follows_trans|by rewrite Es].
    + wp_step. split; [apply Hred; [done|lia]|]. done.
  - assert (lhs = 137) as -> by (vm_compute in Er; by injection Er).
    change (YY_ACCEPT_ACTION <? YYNSTATE) with false. change (YY_ACCEPT_ACTION =? YY_ACCEPT_ACTION) with true. cbv iota.
    apply pop_all_run; [by eapply stacked_poppable|]. destruct (stacked_zero z _ _ _ Hrest Hb0) as [-> ->]. cbn [app] in Ets. subst ts.
    split; [right; right; by split_and!|]. done.
Qed.

(** * Termination *)

(** [f] bounds the reductions that can follow. *)
Definition quota (st : list yyStackEntry) (f : nat) : Prop :=
  exists above b rest n, st = above ++ b :: rest /\ explore n (stateno b) (map stateno above) = true /\ (n + chain * length rest <= f)%nat.

Lemma quota_start st ts : stacked z st ts -> quota st (chain * length st).
Proof.
  inversion 1 as [|e b st' ts' sym ys Hst Hp Hs He]; subst.
  - exists [], (MkEntry 0 0 YYNone), [], chain. split; [done|]. split; [|simpl; lia]. pose proof chains_ok as Hc. by apply andb_true_iff in Hc as [_ ?].
  - exists [e], b, st', chain. split; [done|]. split; [apply chain_checked; [lia|done]|]. cbn [length]. lia.
Qed.

Lemma quota_reduce e st ts r s' f lhs rhs act b rest m : quota (e :: st) f -> r ∈ reds (stateno e) ->
  stacked z (MkEntry act lhs m :: b :: rest) ts -> rule r = Some (lhs, rhs) -> drop (length rhs) (e :: st) = b :: rest ->
  yy_find_reduce_action (stateno b) lhs = Ok act -> 0 < act < YYNSTATE -> stateno b ∈ preds act ->
  yystack (yyp s') = MkEntry act lhs m :: b :: rest -> (0 < f)%nat /\ quota (yystack (yyp s')) (f - 1).
Proof.
  intros (above & b0 & rest0 & n & Est & Hex & Hf) Hr Hst Er Edrop Eact Hact Hp ->.
  destruct n as [|n]; [done|]. split; [lia|]. cbn [explore] in Hex.
  assert (stateno e = hd (stateno b0) (map stateno above)) as Ehd by (destruct above; cbn in *; congruence).
  rewrite <- Ehd in Hex. pose proof (forallb_elem _ _ _ Hex Hr) as Hx. cbv beta in Hx. rewrite Er, length_map in Hx.
  destruct (Nat.leb_spec (length rhs) (length above)) as [Hle|Hgt].
  - assert (drop (length rhs) above ++ b0 :: rest0 = b :: rest) as Enew by (by rewrite <- Edrop, Est, drop_app_le by done).
    rewrite skipn_map in Hx.
    assert (hd (stateno b0) (map stateno (drop (length rhs) above)) = stateno b) as Eb by (destruct (drop (length rhs) above); cbn in *; congruence).
    cbv zeta in Hx. rewrite Eb, Eact in Hx. destruct (Z.ltb_spec act YYNSTATE); [|lia].
    exists (MkEntry act lhs m :: drop (length rhs) above), b0, rest0, n. split; [cbn [app]; by rewrite Enew|]. split; [exact Hx|lia].
  - exists [MkEntry act lhs m], b, rest, chain. split; [done|]. split; [apply chain_checked; [unfold YYNSTATE in Hact; cbn; lia|done]|].
    assert (length (b :: rest) <= length rest0)%nat as Hlen.
    { rewrite <- Edrop, Est, length_drop, length_app. cbn [length]. lia. }
    cbn [length] in Hlen. nia.
Qed.

(** * Errors *)

Lemma yy_syntax_error_run t s (P : unit -> yy -> Prop) : tok_in z t -> plentiful (pParse s) ->
  (forall s', yyp s' = yyp s -> follows (pParse s) (pParse s') -> parsed (pa (pParse s')) = parsed (pa (pParse s)) ->
     zErrMsg (pc (pParse s')) <> None -> P tt s') ->
  wp (yy_syntax_error z t) P s.
Proof.
  intros Ht Hp HP. unfold yy_syntax_error. wp_step. wp_step. destruct (zErrMsg (pc (pParse s))) eqn:Ez.
  { wp_step. apply HP; try done. by rewrite Ez. }
  pose proof Ht as (i & n & Et & Hi). wp_step. assert (exists c, rd z i = Ok c) as [c Ec].
  { unfold rd. destruct (lookup_lt_is_Some_2 z i ltac:(lia)) as [c ->]. by exists c. }
  rewrite Et at 1. cbn [t_z]. eapply wp_raise; [exact Ec|].
  assert (forall text, wp (on_parse (sqlite3ErrorMsg text)) P s) as Hmsg.
  { intros text. apply wp_on_parse, ErrorMsg_run; [done|]. intros p Hf Hm Hpa. apply HP; [done|done|done|]. cbn [pParse]. by rewrite Hm. }
  destruct (negb (c =? 0)); [|by apply Hmsg]. destruct (format_token_ends z (Some t) Ht) as [l El].
  wp_step. eapply wp_raise; [exact El|]. by apply Hmsg.
Qed.

(** No state shifts the error symbol, so that the stack is emptied. *)
Lemma error_loop_run yymx st : yymx <> YYERRORSYMBOL -> Forall (fun e => 0 <= stateno e < 466) st -> Forall poppable st ->
  forall act s (P : Z -> yy -> Prop), yystack (yyp s) = st -> (forall act, P act (put_stack [] s)) -> wp (error_loop (length st) yymx act) P s.
Proof.
  intros Hmx Hst Hpop. induction st as [|e st IH]; intros act s P E HP.
  - cbn [length error_loop]. unfold get_stack. wp_step. wp_step. wp_step. specialize (HP act). by rewrite <- E, put_stack_same in HP.
  - apply Forall_cons in Hst as [He Hst]. apply Forall_cons in Hpop as [Hpe Hpop]. cbn [length error_loop]. unfold get_stack. wp_step. wp_step. rewrite E.
    destruct (Z.eqb_spec yymx YYERRORSYMBOL); [done|]. wp_step. destruct (error_checked _ He) as (act' & Ea & Hge). eapply wp_raise; [exact Ea|].
    destruct (Z.ltb_spec act' YYNSTATE); [lia|]. wp_step. eapply pop_run; [done|done|]. by apply IH.
Qed.

Lemma stacked_major e st ts : stacked z (e :: st) ts -> major e <> YYERRORSYMBOL.
Proof. unfold YYERRORSYMBOL. inversion 1 as [|? ? ? ? ? ? _ _ _ (_ & _ & _ & Hk)]; subst; [done|lia]. Qed.

Lemma terminal_destructor k m s (P : unit -> parse -> Prop) : 0 <= k < 136 -> P tt s -> wp (yy_destructor (wrap 8 k) m) P s.
Proof.
  intros Hk HP. rewrite wrap_small by lia. assert (yy_destructor k m = mret tt) as ->; [|done].
  unfold yy_destructor. by_bits k; first [reflexivity|exfalso; lia].
Qed.

Lemma yy_error_run a act t e st ts s (P : Z -> yy -> Prop) : yystack (yyp s) = e :: st -> stacked z (e :: st) ts -> yyerrcnt (yyp s) < 0 ->
  plentiful (pParse s) -> 0 <= a < 136 -> tok_in z t ->
  (forall s', yystack (yyp s') = [] -> follows (pParse s) (pParse s') -> parsed (pa (pParse s')) = parsed (pa (pParse s)) ->
     zErrMsg (pc (pParse s')) <> None -> P YYNOCODE s') ->
  wp (yy_error z a act t false) P s.
Proof.
  intros E Hst He Hp Ha Ht HP. unfold yy_error. wp_step. wp_step. cbn [id]. destruct (Z.ltb_spec (yyerrcnt (yyp s)) 0); [|lia].
  wp_step. apply yy_syntax_error_run; [done|done|]. intros s1 E1 Hf1 Hp1 Hz1. unfold get_stack. wp_step. wp_step. rewrite E1, E.
  pose proof (stacked_major _ _ _ Hst) as Hmx. destruct (Z.eqb_spec (major e) YYERRORSYMBOL); [done|]. cbn [orb negb].
  wp_step. wp_step. apply error_loop_run; [done|by eapply stacked_state|by eapply stacked_poppable|by rewrite E1|]. intros act'.
  wp_step. wp_step. cbn [yystack yyp put_stack orb]. wp_step. apply wp_on_parse, terminal_destructor; [done|].
  wp_step. apply pop_all_run; [constructor|]. wp_step. wp_step. wp_step. wp_step. by apply HP.
Qed.

(** * The loop *)

(** The parser between two tokens, of which it has read at most [n]. *)
Definition parser_ok (n : nat) (p : yyParser) : Prop :=
  yystack p = [] \/ exists ts, stacked z (yystack p) ts /\ (length ts <= n)%nat /\ (length (yystack p) <= YYSTACKDEPTH)%nat /\ yyerrcnt p < 0.

Lemma wp_get_stack (P : list yyStackEntry -> yy -> Prop) s : P (yystack (yyp s)) s -> wp get_stack P s.
Proof. done. Qed.

(** What the token [a] does to a parser that has read [ts]. *)
Definition outcome (a : Z) (ts : list Z) (k n : nat) (s s' : yy) : Prop :=
  follows (pParse s) (pParse s') /\ fine k (pParse s') /\ parser_ok (S n) (yyp s')
  /\ (zErrMsg (pc (pParse s')) = None -> if a =? 0 then derives input ts /\ yystack (yyp s') = [] else stacked z (yystack (yyp s')) (ts ++ [a])).

Lemma outcome_empty a ts k n s s' : yystack (yyp s') = [] -> follows (pParse s) (pParse s') -> fine k (pParse s') ->
  zErrMsg (pc (pParse s')) <> None -> outcome a ts k n s s'.
Proof. intros E Hf Hk Hz. split_and!; [done|done|by left|done]. Qed.

Lemma plain_fallback a sym : plain a -> sym = a \/ fallback a <> 0 /\ sym = fallback a -> plain sym.
Proof.
  intros [Ha Hp] [->|[Hf ->]]; [done|].
  assert (forallb (fun a => let f := fallback a in (0 <=? f) && (f <? 136) && negb (f =? TK_REGISTER) && negb (f =? TK_CAST)) terminals = true) as Hall
    by (vm_compute; reflexivity).
  pose proof (forallb_elem _ _ _ Hall (terminal_elem a Ha)) as H. cbv beta zeta in H.
  rewrite !andb_true_iff, !negb_true_iff, Z.leb_le, Z.ltb_lt, !Z.eqb_neq in H. unfold plain. tauto.
Qed.

Lemma shift_step a act t e st ts k n s : yystack (yyp s) = e :: st -> stacked z (e :: st) ts -> yyerrcnt (yyp s) < 0 -> (length ts <= n)%nat ->
  fine k (pParse s) -> plain a -> a <> 0 -> tok_in z t -> 0 < act < YYNSTATE -> stateno e ∈ preds act ->
  (exists sym, sym ∈ acc act /\ (sym = a \/ fallback a <> 0 /\ sym = fallback a)) ->
  wp (yy_shift act a (yy0 t)) (fun _ s' => outcome a ts k n s (put_errcnt (yyerrcnt (yyp s') - 1) s')) s.
Proof.
  intros E Hst He Hn Hk Ha Ha0 Ht Hact Hp (sym & Hacc & Hsym). unfold YYNSTATE in Hact.
  eapply yy_shift_run; [exact E|exact Hst|apply Hk| |].
  - intros Hlen. pose proof (plain_fallback a sym Ha Hsym) as Hps.
    assert (stacked z (MkEntry act a (yy0 t) :: e :: st) (ts ++ [a])) as Hnew.
    { apply (stacked_push z _ _ _ _ sym); [done|done|done|]. split_and!; [done|apply derives_token; [apply Hps|done]| |left; split; [done|apply Ha]].
      cbn [minor length]. unfold symtype. destruct (Z.ltb_spec sym 136); [by split|destruct Hps; lia]. }
    split_and!; [apply follows_refl, Hk|done| |].
    + right. exists (ts ++ [a]). split; [done|]. rewrite length_app. cbn [length yystack yyp put_errcnt put_stack yyerrcnt] in *. split_and!; lia.
    + intros _. by destruct (Z.eqb_spec a 0).
  - intros s' Es Hf Hz Hpa. apply outcome_empty; [cbn [yystack yyp put_errcnt]; by rewrite Es|done|by eapply fine_follows|done].
Qed.

Lemma parser_loop_run a t k n : plain a -> tok_in z t -> (S n <= max_tables)%nat -> forall f fuel st ts s,
  yystack (yyp s) = st -> stacked z st ts -> (length ts <= n)%nat -> (length st <= YYSTACKDEPTH)%nat -> yyerrcnt (yyp s) < 0 -> quota st f ->
  (f < fuel)%nat -> fine (S f + k) (pParse s) ->
  wp (parser_loop z fuel a t (a =? 0) false) (fun _ s' => outcome a ts k n s s') s.
Proof.
  intros Ha Ht Hn. induction f as [f IH] using lt_wf_ind. intros fuel st ts s E Hst Hts Hlen He Hq Hf Hk.
  destruct fuel as [|fuel]; [lia|]. destruct st as [|e st]; [inversion Hst|]. cbn [parser_loop]. wp_step. apply wp_get_stack. rewrite E.
  pose proof (stacked_top z _ _ _ Hst) as Hs. destruct (shift_cases (stateno e) a Hs (proj1 Ha)) as (act & Eact & Hact).
  wp_step. eapply wp_raise; [exact Eact|]. wp_step.
  assert (fine k (pParse s)) as Hk0 by (eapply fine_less; [exact Hk|lia]).
  (* leaving the loop *)
  assert (forall hit (s' : yy), outcome a ts k n s s' ->
    wp (st ← get_stack; if negb (YYNOCODE =? YYNOCODE) && match st with [] => false | _ => true end
        then parser_loop z fuel YYNOCODE t (a =? 0) hit else mret tt) (fun _ s' => outcome a ts k n s s') s') as Hleave.
  { intros hit s' Ho. wp_step. apply wp_get_stack. rewrite Z.eqb_refl. cbn [negb andb]. by wp_step. }
  destruct Hact as [(Hact & Ha0 & Hp & Hsym)|[(Hact & Hr & Hr0)|Hact]].
  - destruct (Z.ltb_spec act YYNSTATE); [|lia]. wp_step.
    eapply wp_mono, (shift_step a act t e st ts k n s E Hst He Hts Hk0 Ha Ha0 Ht Hact Hp Hsym).
    intros [] s' Ho. wp_step. wp_step. wp_step. apply wp_get_stack. wp_step.
    assert ((a =? 0) = false) as Hz by (by apply Z.eqb_neq). revert Hleave. rewrite Hz. cbn [andb]. intros Hleave. by apply Hleave.
  - destruct (Z.ltb_spec act YYNSTATE); [lia|]. destruct (Z.ltb_spec act (YYNSTATE + YYNRULE)); [|lia]. wp_step.
    eapply wp_mono, (yy_reduce_run (act - YYNSTATE) (f + k) st e ts s E Hst Hr Hlen Hk ltac:(lia)).
    intros [] s' (Hred & Hk' & Hfo & He'). wp_step. wp_step. apply wp_get_stack.
    destruct (Z.eqb_spec a YYNOCODE) as [|_]; [unfold YYNOCODE in *; destruct Ha; lia|]. cbn [negb andb].
    assert (fine k (pParse s')) as Hk1 by (eapply fine_less; [exact Hk'|lia]).
    destruct Hred as [(lhs & rhs & act' & b & rest & m & Er & Ed & Ego & Hact' & Hp & Es & Hst' & Hl')|[[Es Hz]|(Es & Er0 & Hd)]].
    + rewrite Es in Hst'. destruct (quota_reduce e st ts _ s' f _ _ _ _ _ _ Hq Hr Hst' Er Ed Ego Hact' Hp Es) as [Hf0 Hq'].
      rewrite Es. eapply wp_mono; [|apply (IH (f - 1)%nat ltac:(lia) fuel (yystack (yyp s')) ts s'); try done].
      * intros _ s'' (Hfo' & Hrest). split; [by eapply follows_trans|done].
      * by rewrite Es.
      * by rewrite He'.
      * lia.
      * eapply fine_less; [exact Hk'|lia].
    + rewrite Es. wp_step. by apply outcome_empty.
    + rewrite Es. wp_step. split_and!; [done|done|by left|]. intros _. rewrite Hr0 by lia. by split.
  - subst act. change (YY_ERROR_ACTION <? YYNSTATE) with false. change (YY_ERROR_ACTION <? YYNSTATE + YYNRULE) with false.
    change (YY_ERROR_ACTION =? YY_ERROR_ACTION) with true. cbv iota. wp_step.
    eapply yy_error_run; [exact E|exact Hst|exact He|apply Hk|apply Ha|exact Ht|]. intros s' Es Hfo Hpa Hz. wp_step. apply Hleave.
    apply outcome_empty; [done|done|by eapply fine_follows|done].
Qed.
(** What the parser has read since it was last started: nothing where its stack is empty. *)
Definition reading (p : yyParser) (ts : list Z) : Prop :=
  yystack p = [] /\ ts = []
  \/ stacked z (yystack p) ts /\ (length (yystack p) <= YYSTACKDEPTH)%nat /\ yyerrcnt p < 0.

Lemma parser_ok_reading n p : parser_ok n p -> exists ts, reading p ts /\ (length ts <= n)%nat.
Proof.
  intros [E|(ts & Hst & Hts & Hlen & He)]; [exists []; split; [by left|simpl; lia]|]. exists ts. split; [by right|done].
Qed.

(** Feeding one token. *)
Lemma token_run a t k n ts s : plain a -> tok_in z t -> (S n <= max_tables)%nat -> reading (yyp s) ts -> (length ts <= n)%nat ->
  fine (parser_fuel + k) (pParse s) -> wp (SqlYy.sqlite3Parser z a t) (fun _ s' => outcome a ts k n s s') s.
Proof.
  intros Ha Ht Hn Hr Hts Hk.
  assert (forall s1, pParse s1 = pParse s -> stacked z (yystack (yyp s1)) ts -> (length (yystack (yyp s1)) <= YYSTACKDEPTH)%nat ->
    yyerrcnt (yyp s1) < 0 -> wp (parser_loop z parser_fuel a t (a =? 0) false) (fun _ s' => outcome a ts k n s s') s1) as Hloop.
  { intros s1 Ep Hst Hlen He.
    assert (chain * length (yystack (yyp s1)) < parser_fuel)%nat as Hf by (unfold chain, YYSTACKDEPTH, parser_fuel in *; lia).
    eapply wp_mono; [|apply (parser_loop_run a t k n Ha Ht Hn (chain * length (yystack (yyp s1))) parser_fuel (yystack (yyp s1)) ts s1);
      [done|done|done|done|done|by eapply quota_start|done|]].
    - intros [] s' Ho. unfold outcome in *. by rewrite <- Ep.
    - rewrite Ep. eapply fine_less; [exact Hk|lia]. }
  unfold SqlYy.sqlite3Parser. wp_step. apply wp_get_stack. wp_step.
  destruct Hr as [[E ->]|(Hst & Hlen & He)].
  - rewrite E. wp_step. apply Hloop; [done|constructor|cbn; unfold YYSTACKDEPTH; lia|cbn; lia].
  - destruct (yystack (yyp s)) as [|e st] eqn:E; [inversion Hst|]. wp_step. apply Hloop; [done|by rewrite E..|done].
Qed.

(** What the parser has read afterwards. *)
Lemma outcome_reading a ts k n s s' : a <> 0 -> (length ts <= n)%nat -> outcome a ts k n s s' ->
  exists ts', reading (yyp s') ts' /\ (length ts' <= S n)%nat /\ (zErrMsg (pc (pParse s')) = None -> ts' = ts ++ [a]).
Proof.
  intros Ha Hts (_ & _ & Hp & Hz). destruct (zErrMsg (pc (pParse s'))) eqn:Ez.
  { destruct (parser_ok_reading _ _ Hp) as (ts' & ? & ?). by exists ts'. }
  specialize (Hz eq_refl). destruct (Z.eqb_spec a 0); [done|].
  destruct Hp as [E|(ts1 & _ & _ & Hlen & He)]; [rewrite E in Hz; inversion Hz|].
  exists (ts ++ [a]). split; [by right|]. split; [|done]. rewrite length_app. simpl. lia.
Qed.

(** Feeding several tokens. *)
Definition feed (l : list (Z * Token)) : M yy unit := foldr (fun at_ rest => SqlYy.sqlite3Parser z at_.1 at_.2;; rest) (mret tt) l.

Definition word (at_ : Z * Token) : Prop := plain at_.1 /\ at_.1 <> 0 /\ tok_in z at_.2.

Lemma feed_run l (Q : yy -> Prop) : forall k n ts s, Forall word l -> reading (yyp s) ts -> (length ts <= n)%nat ->
  (n + length l <= max_tables)%nat -> fine (parser_fuel * length l + k) (pParse s) ->
  (forall s' ts', follows (pParse s) (pParse s') -> fine k (pParse s') -> reading (yyp s') ts' -> (length ts' <= n + length l)%nat ->
     (zErrMsg (pc (pParse s')) = None -> ts' = ts ++ map fst l) -> Q s') ->
  wp (feed l) (fun _ => Q) s.
Proof.
  induction l as [|[a t] l IH]; intros k n ts s Hl Hr Hts Hn Hk HQ; cbn [feed foldr length map fst snd] in *.
  - wp_step. apply (HQ s ts); [apply follows_refl, Hk|done|done|lia|]. intros _. by rewrite app_nil_r.
  - apply Forall_cons in Hl as [(Ha & Ha0 & Ht) Hl]. wp_step.
    replace (parser_fuel * S (length l) + k)%nat with (parser_fuel + (parser_fuel * length l + k))%nat in Hk by lia.
    eapply wp_mono, (token_run a t _ n ts s Ha Ht ltac:(lia) Hr Hts Hk).
    intros [] s1 Ho. destruct (outcome_reading _ _ _ _ _ _ Ha0 Hts Ho) as (ts1 & Hr1 & Hts1 & Hz1). destruct Ho as (Hf1 & Hk1 & _).
    apply (IH k (S n) ts1 s1 Hl Hr1 Hts1 ltac:(lia) Hk1). intros s2 ts2 Hf2 Hk2 Hr2 Hts2 Hz2.
    apply (HQ s2 ts2); [by eapply follows_trans|done|done|lia|]. intros Hz. rewrite (Hz2 Hz), (Hz1 (proj2 (proj2 (proj2 Hf2)) Hz)), <- app_assoc. done.
Qed.

(** A parser that is between two tokens can be freed. *)
Lemma free_run p n s : parser_ok n p -> yyp s = p -> wp SqlYy.sqlite3ParserFree (fun _ s' => pParse s' = pParse s) s.
Proof.
  intros Hp E. unfold SqlYy.sqlite3ParserFree. apply pop_all_run; [|done]. rewrite E.
  destruct Hp as [Ep|(ts & Hst & _)]; [rewrite Ep; constructor|by eapply stacked_poppable].
Qed.

Lemma reading_ok n p ts : reading p ts -> (length ts <= n)%nat -> parser_ok n p.
Proof. intros [[E ->]|(Hst & Hlen & He)] Hn; [by left|right; by exists ts]. Qed.
End Run.
End SqlYyFacts.
