(* ===== verification/SqlLint.v ===== *)
(** Linting a statement: the driver of tokenize.c on top of the parser of parse.c
    (sqlite-lint, lemon/).

    [sql_parser] is the parser of parse.c as an instance of [LemonParser], and [sql_safe] shows
    that it keeps the promises of [LemonSafe].  The theorems on the parser and on the whole run
    from the text of a statement to its disposal follow. *)
From S2P Require Import Prelude Machine Libc SqlUtil SqlToken SqlParse SqlTree SqlTreeFacts SqlYyTables SqlYy SqlYyTypes SqlYyAutomaton SqlYyFacts.

(** * The kinds of tokens *)

Module TokenKinds.
Import Tk SqlKeyword SqlToken.

(** The terminals of the grammar, and what never reaches the parser. *)
Definition kind (t : Z) : bool :=
  (0 <=? t) && (t <? 136) || (t =? TK_SPACE) || (t =? TK_COMMENT) || (t =? TK_ILLEGAL).

(** A result, where there is one, has a token of such a kind. *)
Definition of_kind {A} (p : A -> Z) (r : result A) : Prop := forall a, r = Ok a -> kind (p a) = true.

Lemma of_kind_bind {A B} (p : B -> Z) (r : result A) (k : A -> result B) : (forall a, of_kind p (k a)) -> of_kind p (r ≫= k).
Proof. intros H b E. destruct r as [a| | | |]; try done. by apply (H a). Qed.

Lemma of_kind_bind_2 {A B} (q : A -> Z) (p : B -> Z) (r : result A) (k : A -> result B) :
  of_kind q r -> (forall a, kind (q a) = true -> of_kind p (k a)) -> of_kind p (r ≫= k).
Proof. intros Hr H b E. destruct r as [a| | | |]; try done. apply (H a); [by apply Hr|done]. Qed.

Lemma of_kind_Ok {A} (p : A -> Z) (a : A) : kind (p a) = true -> of_kind p (Ok a).
Proof. intros H b [= <-]. done. Qed.

(** [kinds]: every way to return. *)
Ltac kinds :=
  repeat match goal with
  | |- of_kind _ (mbind _ _) => apply of_kind_bind; intros
  | |- of_kind _ (if ?b then _ else _) => destruct b
  | |- of_kind _ (Ok (if ?b then _ else _)) => destruct b
  | |- of_kind _ (Ok (if ?b then _ else _, _)) => destruct b
  | |- of_kind _ (Ok _) => apply of_kind_Ok; first [done|reflexivity]
  | |- of_kind _ _ => by intros ? ?
  end.

Lemma codes_kind : Forall (fun t => kind t = true) aCode.
Proof. decide_now. Qed.

Lemma entry_kind i : kind (entry aCode i) = true.
Proof.
  unfold entry. destruct (decide (Z.to_nat i < length aCode)%nat) as [Hi|Hi].
  - by apply (proj1 (Forall_nth (fun t => kind t = true) 0 aCode) codes_kind).
  - by rewrite nth_overflow by lia.
Qed.

Lemma keyword_loop_kind fuel : forall i z n, of_kind id (keyword_loop fuel i z n).
Proof.
  induction fuel as [|fuel IH]; intros i z n; [done|]. cbn [keyword_loop]. destruct (i <? 0); [by kinds|].
  apply of_kind_bind. intros []; [apply of_kind_Ok, entry_kind|apply IH].
Qed.

Lemma string_loop_kind k : forall s delim i, (length s <= k)%nat -> of_kind fst (string_loop s delim i).
Proof.
  induction k as [|k IH]; intros [|c s] delim i Hk; simpl in Hk; [done|lia|done|]. cbn [string_loop]. destruct (c =? 0); [kinds|].
  destruct (c =? delim); [|apply IH; lia]. destruct s as [|d s]; [done|]. simpl in Hk. destruct (d =? delim); [apply IH; lia|kinds].
Qed.

Lemma blob_loop_kind s : forall delim i, of_kind fst (blob_loop s delim i).
Proof. induction s as [|c s IH]; intros delim i; [done|]. cbn [blob_loop]. destruct (c =? 0); [kinds|]. destruct (c =? delim); [kinds|]. destruct (negb _); [kinds|apply IH]. Qed.

Lemma variable_loop_kind k : forall s i n t, (length s <= k)%nat -> kind t = true -> of_kind (fun r => r.1.1) (variable_loop s i n t).
Proof.
  induction k as [|k IH]; intros [|c s] i n t Hk Ht; simpl in Hk; [done|lia|done|]. cbn [variable_loop].
  destruct (c =? 0); [by kinds|]. destruct (IdChar c); [apply IH; [lia|done]|]. destruct ((c =? 40) && _); [by kinds|].
  destruct (c =? 58); [|by kinds]. destruct s as [|d s]; [done|]. simpl in Hk. destruct (d =? 58); [apply IH; [lia|done]|by kinds].
Qed.

Lemma variable_kind z : of_kind fst (variable z).
Proof.
  unfold variable. apply of_kind_bind. intros c. apply of_kind_bind. intros []; apply (of_kind_bind_2 (fun r => r.1.1));
    [by eapply variable_loop_kind| |by eapply variable_loop_kind|]; intros [[t i] n] Ht; apply of_kind_Ok; by destruct (n =? 0)%nat.
Qed.

Lemma number_kind z : of_kind fst (number z).
Proof.
  unfold number. apply of_kind_bind. intros i. apply of_kind_bind. intros c.
  apply (of_kind_bind_2 fst); [kinds|]. intros [t j] Ht. apply of_kind_bind. intros d. apply of_kind_bind. intros []; [kinds|by apply of_kind_Ok].
Qed.

Lemma identifier_kind z : of_kind fst (identifier z).
Proof.
  unfold identifier. apply of_kind_bind. intros c. destruct (IdChar c); [|kinds]. apply of_kind_bind. intros i.
  apply (of_kind_bind_2 id); [|intros t Ht; by apply of_kind_Ok]. unfold keywordCode. destruct (i <? 2)%nat; [kinds|].
  apply of_kind_bind. intros c0. apply of_kind_bind. intros c1. apply keyword_loop_kind.
Qed.

(** The tokenizer knows no other kinds. *)
Lemma getToken_kind z : of_kind fst (getToken z).
Proof.
  pose proof (fun s delim i => string_loop_kind (length s) s delim i (le_n _)) as Hs. pose proof blob_loop_kind as Hb.
  pose proof (variable_kind z) as Hv. pose proof (number_kind z) as Hn. pose proof (identifier_kind z) as Hi.
  unfold getToken. apply of_kind_bind. intros c0.
  repeat match goal with |- of_kind _ (if ?b then _ else _) => destruct b end; try done; try (by kinds);
    apply of_kind_bind; intros c; repeat match goal with |- of_kind _ (if ?b then _ else _) => destruct b end; try done; by kinds.
Qed.
End TokenKinds.

(** * The parser of parse.c *)

Module SqlLint.
Import Tk SqlToken TokenFacts SqlParse SqlParseFacts SqlTree SqlTreeFacts SqlYyTables SqlYy SqlYyTypes SqlYyAutomaton SqlYyFacts TokenKinds.

(** Tokens point into the statement and are not dynamically allocated. *)
Definition token_of (t : token) : Token := MkTok (PText (tk_z t)) (Some false) (Z.of_nat (tk_n t)).

(** No destructor looks at [Parse]. *)
Definition no_parse : parse := MkParse (MkCtx 0 0 None plenty) (MkActs 0 0 (MkArray None 0 0)).

#[export] Instance sql_parser : LemonParser := {|
  engine := yyParser;
  results := acts;
  lemon_alloc := SqlYy.sqlite3ParserAlloc;
  lemon_parse := fun z e code t c r =>
    match SqlYy.sqlite3Parser z code (token_of t) (MkYy e (MkParse c r)) with
    | (Ok _, s) => Ok (yyp s, pc (pParse s), pa (pParse s))
    | (Segv, _) => Segv
    | (Undef, _) => Undef
    | (NoFuel, _) => NoFuel
    | (Aborted, _) => Aborted
    end;
  lemon_free := fun e => fst (SqlYy.sqlite3ParserFree (MkYy e no_parse))
|}.

Lemma token_of_in z t : (tk_z t + tk_n t < length z)%nat -> tok_in z (token_of t).
Proof. intros H. by exists (tk_z t), (tk_n t). Qed.

(** There is room for the statements that [n] more tokens can record. *)
Definition room_for (n : nat) (r : acts) : Prop := recorded_ok (parser_fuel * n) (parsed r).

(** [parse.c] keeps the promises of [LemonSafe] for statements in which every number is an
    [int], of at most as many tokens as a list of tables has room for. *)
#[export] Instance sql_safe z (Hnum : small_numbers z) : LemonSafe sql_parser z.
Proof.
  refine {|
    feedable := plain;
    max_tokens := max_tables;
    results_ok := room_for max_tables;
    settled := fun n e r => parser_ok z n e /\ room_for (max_tables - n) r
  |}; try done.
  - intros r Hr. split; [by left|]. by rewrite Nat.sub_0_r.
  - intros n e code t c r [Hp Hr] Hn Hf Ht Hc.
    destruct (parser_ok_reading z n e Hp) as (ts & Hts & Hlen).
    assert (fine (parser_fuel + parser_fuel * (max_tables - S n)) (pParse (MkYy e (MkParse c r)))) as Hk.
    { split; [done|]. rewrite Nat.add_comm, <- Nat.mul_succ_r. by replace (S (max_tables - S n)) with (max_tables - n)%nat by lia. }
    destruct (wp_run _ _ _ (token_run z Hnum code (token_of t) _ n ts (MkYy e (MkParse c r)) Hf (token_of_in z t Ht) Hn Hts Hlen Hk)) as (u & s' & E & Hfo & Hk' & Hp' & _).
    exists (yyp s'), (pc (pParse s')), (pa (pParse s')). cbn [lemon_parse sql_parser]. rewrite E. split; [done|]. split; [|apply Hk'].
    split; [done|apply Hk'].
  - intros n e r [Hp _]. cbn [lemon_free sql_parser]. destruct (wp_run _ _ _ (free_run z e n (MkYy e no_parse) Hp eq_refl)) as ([] & s' & -> & _). done.
Defined.

(** Every kind of token but two can be fed. *)
Lemma scanned_feedable z (LS := fun H => sql_safe z H) (Hnum : small_numbers z) i j l :
  Forall (fun it => tokenType it <> TK_REGISTER /\ tokenType it <> TK_CAST) l -> scanned z i j l -> all_feedable (LS := LS Hnum) l.
Proof.
  intros Hl Hsc. induction Hsc as [|i j c t n l Hc Hc0 Ht Hsc IH]; [constructor|]. apply Forall_cons in Hl as [Ht' Hl].
  constructor; [|by apply IH]. cbn [tokenType] in *. pose proof (getToken_kind _ _ Ht) as Hk. cbn [fst] in Hk. unfold kind in Hk.
  rewrite !orb_true_iff, andb_true_iff, Z.leb_le, Z.ltb_lt, !Z.eqb_eq in Hk. cbn [feedable sql_safe LS]. unfold plain. tauto.
Qed.

(** The state in which the linter starts, with an empty array of results. *)
Definition fresh_results (r : acts) : Prop := cells (parsed r) = None /\ curSize (parsed r) = 0.

Lemma fresh_room r : fresh_results r -> room_for max_tables r.
Proof. intros [Hc Hs]. split; [by left|]. unfold items. rewrite Hs, Hc. split; [|constructor]. unfold max_tables, parser_fuel. lia. Qed.

Definition start : run :=
  MkRun (MkCtx 0 0 None plenty) (MkToken 0 0) 0 (MkArray (Some (replicate 16 None)) 0 16) (Some None)
    SqlYy.sqlite3ParserAlloc (MkActs 0 0 (MkArray None 0 0)).

(** The part of [Parse] the disposal functions work on. *)
Definition parse_of (s : run) : parse := MkParse (pctx s) (presults s).

Lemma reset_run k s : fine k s -> exists s', sqlite3ParseReset s = (Ok tt, s') /\ curSize (parsed (pa s')) = 0.
Proof.
  intros [Hp Hr]. unfold sqlite3ParseReset. rewrite (M_bind_run _ _ s tt (MkParse (MkCtx 0 0 None (parse_heap s)) (MkActs 0 0 (parsed (pa s))))) by done.
  by apply (clean_run k).
Qed.

(** * Deciding the hypotheses *)

Definition small_numbers_dec (z : list Z) : bool :=
  forallb (fun i => match atoi (drop i z) with Ok v => - 2 ^ 31 <? v | _ => false end) (seq 0 (length z)).

Lemma small_numbers_check z : small_numbers_dec z = true -> small_numbers z.
Proof.
  intros H i Hi. pose proof (forallb_elem _ _ i H ltac:(apply elem_of_seq; lia)) as Hv. cbv beta in Hv.
  destruct (atoi (drop i z)) as [v| | | |]; try done. exists v. split; [done|]. by apply Z.ltb_lt.
Qed.

Fixpoint scan_kinds (p : Z -> bool) (fuel : nat) (z : list Z) (i : nat) : bool :=
  match fuel, rd z i with
  | S fuel, Ok c =>
      (c =? 0) || match getToken (drop i z) with Ok (t, n) => p t && scan_kinds p fuel z (i + n) | _ => true end
  | S _, _ => true
  | O, _ => false
  end.

Lemma scan_kinds_all p z i j l : scanned z i j l -> forall fuel, scan_kinds p fuel z i = true -> Forall (fun it => p (tokenType it) = true) l.
Proof.
  induction 1 as [|i j c t n l Hc Hc0 Ht _ IH]; intros [|fuel] H; try done. cbn [scan_kinds] in H. rewrite Hc, Ht in H.
  destruct (Z.eqb_spec c 0); [done|]. apply andb_true_iff in H as [? ?]. constructor; [done|by apply (IH fuel)].
Qed.

Definition common (t : Z) : bool := negb (t =? TK_REGISTER) && negb (t =? TK_CAST).

Lemma common_all u l : scan_kinds common (S (length u)) (u ++ [0]) 0 = true -> scanned (u ++ [0]) 0 (length u) l ->
  Forall (fun it => tokenType it <> TK_REGISTER /\ tokenType it <> TK_CAST) l.
Proof.
  intros H Hsc. eapply Forall_impl; [by eapply scan_kinds_all|]. intros it Hit. unfold common in Hit.
  by rewrite andb_true_iff, !negb_true_iff, !Z.eqb_neq in Hit.
Qed.

(** * Theorems *)




(** The tokens of "select a", without and with the end of the input. *)
Definition select_a : list (Z * Token) :=
  [(TK_SELECT, MkTok (PText 0) (Some false) 6); (TK_ID, MkTok (PText 7) (Some false) 1); (TK_SEMI, MkTok (PText 8) (Some false) 0)].

Definition begin : yy := MkYy SqlYy.sqlite3ParserAlloc no_parse.

Lemma select_a_words : Forall (word (bytes_of "select a" ++ [0])) select_a.
Proof.
  assert (forall a i n, plain a -> a <> 0 -> (i + n < 9)%nat -> word (bytes_of "select a" ++ [0]) (a, MkTok (PText i) (Some false) (Z.of_nat n))) as H.
  { intros a i n Ha Ha0 Hi. split; [done|]. split; [done|]. exists i, n. split; [done|exact Hi]. }
  unfold select_a. rewrite !Forall_cons. split_and!; [apply (H _ 0%nat 6%nat)|apply (H _ 7%nat 1%nat)|apply (H _ 8%nat 0%nat)|done]; done || lia.
Qed.

Lemma begin_fine k : (k <= 5000)%nat -> fine k (pParse begin).
Proof. intros Hk. split; [done|]. split; [by left|]. split; [cbn; lia|constructor]. Qed.




(** A register makes the linter dereference a null pointer.  This fork's
    [sqlite3RegisterExpr] always returns NULL, and no rule expects that of an expression: whatever
    the statement, the tokens SELECT, a register, ISNULL and a semicolon end in a read through
    NULL, in [sqlite3ExprSpan]. *)
Lemma register_crashes (z : list Z) (select semi : Token) (register isnull : token) :
  fst (feed z [(TK_SELECT, select); (TK_REGISTER, token_of register); (TK_ISNULL, token_of isnull); (TK_SEMI, semi)] begin) = Segv.
Proof. destruct register, isnull. vm_compute. reflexivity. Qed.

(** * Examples *)

(** The result, the message for the caller and the kinds of the statements recorded. *)
Definition lint (u : string) : result Z * option (option (list Z)) * list (option SqlType) :=
  let '(r, s) := sqlite3RunParser (bytes_of u ++ [0]) start in (r, err_out s, map (option_map sqltype) (items (parsed (presults s)))).

Example lint_two_statements : lint "insert into t(a) values (1), (2); delete from t where a in (select 1)" =
  (Ok 0, Some None, [Some SQLTYPE_INSERT; Some SQLTYPE_DELETE]).
Proof. vm_compute. reflexivity. Qed.

(** The bit [dyn] of the token that rules 43, 44 and 46 make for a type is never written. *)
Lemma cast_reads_unset : (lint "select cast(a as b(1)) + 1").1.1 = Undef.
Proof. vm_compute. reflexivity. Qed.

(** The clause OR REPLACE is parsed, and ignored. *)
Lemma or_replace_is_insert :
  lint "insert or replace into t values (1)" = (Ok 0, Some None, [Some SQLTYPE_INSERT])
  /\ lint "replace into t values (1)" = (Ok 0, Some None, [Some SQLTYPE_REPLACE]).
Proof. vm_compute. done. Qed.

(** After a syntax error the next token starts a new statement. *)
Lemma restarts_after_error :
  lint "select ) delete from t" = (Ok 1, Some (Some (bytes_of "near " ++ [34; 41; 34] ++ bytes_of ": syntax error")), [Some SQLTYPE_DELETE]).
Proof. vm_compute. done. Qed.
End SqlLint.
