(* ===== verification/LintCore.v ===== *)
(** The core of sqlite-lint around its checkers (src/comm and src/core).

    Modules: [LintUtil] (comm/lint_util.cc, core/lint_logic.cc), [LruCache] (comm/lru_cache.h), [LintEnv]
    (core/lint_info.h and .cc, core/white_list_mgr.cc, core/lint_env.cc, slint.h).

    The cache is kept as the code keeps it, a list of nodes and a map with iterators into the list, and
    [LruCache.Refines] relates it to a list of pairs, the most recently used first.  Queries go to the
    platform through a function pointer, which is an argument, and so is the clock. *)
From Stdlib Require Import Sorted.
From S2P Require Import Prelude Arch Machine Libc Md5 SqlUtil SqlToken SqlParse SqlTree SqlYy.

(** * Strings *)

Module LintUtil.

(** [::tolower] in the C locale. *)
Definition tolower (c : Z) : Z := if (65 <=? c) && (c <=? 90) then c + 32 else c.
Definition ToLowerCase (target : list Z) : list Z := map tolower target.

(** [std::string::compare]: bytes compare as [unsigned char]. *)
Fixpoint compare (a b : list Z) : Z :=
  match a, b with
  | [], [] => 0
  | [], _ :: _ => -1
  | _ :: _, [] => 1
  | c :: a, d :: b => if c =? d then compare a b else if c <? d then -1 else 1
  end.

Definition CompareIgnoreCase (a b : list Z) : Z := compare (ToLowerCase a) (ToLowerCase b).

(** The size is an [unsigned int]. *)
Definition iequals (a b : list Z) : bool :=
  let sz := u32 (Z.of_nat (length a)) in
  if negb (Z.of_nat (length b) =? sz) then false
  else forallb (fun i => tolower (nth i a 0) =? tolower (nth i b 0)) (seq 0 (Z.to_nat sz)).

(** [None] is [npos]. *)
Fixpoint find_first_not_of (x : Z) (s : list Z) : option nat :=
  match s with [] => None | c :: s => if c =? x then S <$> find_first_not_of x s else Some 0%nat end.

Fixpoint find_last_not_of (x : Z) (s : list Z) : option nat :=
  match s with
  | [] => None
  | c :: s => match find_last_not_of x s with Some i => Some (S i) | None => if c =? x then None else Some 0%nat end
  end.

Fixpoint find_last_of (x : Z) (s : list Z) : option nat :=
  match s with
  | [] => None
  | c :: s => match find_last_of x s with Some i => Some (S i) | None => if c =? x then Some 0%nat else None end
  end.

Definition trim (s : list Z) : list Z :=
  match s with
  | [] => []
  | _ =>
      let s := match find_first_not_of 32 s with Some i => drop i s | None => [] end in
      match find_last_not_of 32 s with Some i => take (S i) s | None => [] end
  end.

(** [std::string::find] of a substring. *)
Fixpoint contains (key s : list Z) : bool :=
  bool_decide (take (length key) s = key) || match s with [] => false | _ :: s => contains key s end.

(** The length is passed as an [unsigned int]. *)
Definition MD5 `{Ar : Arch} (str : list Z) : list Z :=
  Md5.MD5_sig_to_string (Md5.MD5_buffer (take (Z.to_nat (u32 (Z.of_nat (length str)))) str)).

Definition GenIssueId `{Ar : Arch} (db_file_name checker_name identity_info : list Z) : list Z :=
  MD5 (db_file_name ++ [95] ++ checker_name ++ [95] ++ identity_info).

Definition IsSqlSupportCheck (sql : list Z) : bool :=
  if (length sql <? 6)%nat then false else
  let keyword := take 6 sql in
  bool_decide (keyword = bytes_of "select") || bool_decide (keyword = bytes_of "insert") || bool_decide (keyword = bytes_of "update")
  || bool_decide (keyword = bytes_of "delete") || bool_decide (keyword = bytes_of "replac").

(** [strncmp] of the whole prefix. *)
Definition IsSQLite3AutoIndex (index : list Z) : bool :=
  bool_decide (take 17 index = bytes_of "sqlite_autoindex_").

(** ** What they do *)

Lemma tolower_idem c : tolower (tolower c) = tolower c.
Proof. unfold tolower. destruct ((65 <=? c) && (c <=? 90)) eqn:E; [|by rewrite E]. by replace (_ && _) with false by lia. Qed.

Lemma ToLowerCase_idem s : ToLowerCase (ToLowerCase s) = ToLowerCase s.
Proof. unfold ToLowerCase. rewrite map_map. apply map_ext, tolower_idem. Qed.

Lemma compare_eq a : forall b, compare a b = 0 <-> a = b.
Proof.
  induction a as [|c a IH]; intros [|d b]; simpl; try done. destruct (Z.eqb_spec c d) as [->|Hcd].
  - rewrite IH. naive_solver.
  - destruct (c <? d); naive_solver.
Qed.

Lemma CompareIgnoreCase_eq a b : CompareIgnoreCase a b = 0 <-> ToLowerCase a = ToLowerCase b.
Proof. apply compare_eq. Qed.

Lemma first_not_of x s :
  match find_first_not_of x s with
  | Some i => exists c, s = (replicate i x ++ c :: drop (S i) s)%list /\ c <> x
  | None => s = replicate (length s) x
  end.
Proof.
  induction s as [|c s IH]; simpl; [done|]. destruct (Z.eqb_spec c x) as [->|Hc]; [|by exists c].
  destruct (find_first_not_of x s) as [i|]; simpl; [|by f_equal]. destruct IH as (c & E & Hc). exists c. split; [|done]. by f_equal.
Qed.

Lemma last_not_of x s :
  match find_last_not_of x s with
  | Some i => exists c, take (S i) s = (take i s ++ [c])%list /\ c <> x /\ s = (take (S i) s ++ replicate (length s - S i) x)%list
  | None => s = replicate (length s) x
  end.
Proof.
  induction s as [|c s IH]; simpl; [done|]. destruct (find_last_not_of x s) as [i|].
  - destruct IH as (d & E & Hd & Es). exists d. cbn [take app]. rewrite <- E. split_and!; [done|done|]. by f_equal.
  - destruct (Z.eqb_spec c x) as [->|Hc]; [by rewrite IH at 1|]. exists c. split_and!; [done|done|]. rewrite take_0, Nat.sub_0_r. cbn [app]. by f_equal.
Qed.

(** [trim] removes the blanks at both ends and nothing else. *)
Lemma trim_correct s : exists n m,
  s = (replicate n 32%Z ++ trim s ++ replicate m 32%Z)%list /\ head (trim s) <> Some 32 /\ last (trim s) <> Some 32.
Proof.
  destruct s as [|c0 s0]; [by exists 0%nat, 0%nat|]. unfold trim. set (s := c0 :: s0).
  pose proof (first_not_of 32 s) as H1. destruct (find_first_not_of 32 s) as [i|].
  2: { exists (length s), 0%nat. by rewrite !app_nil_r. }
  destruct H1 as (c & E & Hc). assert (drop i s = c :: drop (S i) s) as Ed.
  { rewrite E at 1. rewrite drop_app_length'; [done|by rewrite length_replicate]. }
  pose proof (last_not_of 32 (drop i s)) as H2. destruct (find_last_not_of 32 (drop i s)) as [j|].
  2: { rewrite Ed in H2. simpl in H2. by injection H2 as -> _. }
  destruct H2 as (d & Et & Hd & Es). exists i, (length (drop i s) - S j)%nat. rewrite <- Es. split; [by rewrite Ed|].
  rewrite Et at 2. rewrite last_snoc. split; [|congruence]. rewrite Ed. simpl. congruence.
Qed.

Example trim_ends : trim (bytes_of "  select a ") = bytes_of "select a" /\ trim (bytes_of "   ") = [].
Proof. done. Qed.

(** A statement behind a newline is not checked: only blanks are removed. *)
Example newline_not_trimmed : IsSqlSupportCheck (ToLowerCase (trim ([10] ++ bytes_of "SELECT 1"))) = false.
Proof. reflexivity. Qed.

Example create_not_supported : IsSqlSupportCheck (bytes_of "create table t(a)") = false /\ IsSqlSupportCheck (bytes_of "replace into t") = true.
Proof. done. Qed.
End LintUtil.

(** * The cache of statements *)

Module LruCache.
Section LruCache.
Context {K V : Type} `{Countable K}.

(** An iterator is the number of its node; the numbers of nodes are not used again. *)
Record LRUCache := MkLRU {
  keys_lst_ : list (nat * K);
  cache_map_ : gmap K (V * nat);
  max_size_ : nat;
  nodes : nat
}.

Definition empty_cache (max_size : nat) : LRUCache := MkLRU [] ∅ max_size 0.

(** [keys_lst_.erase(it)]. *)
Fixpoint list_erase (it : nat) (l : list (nat * K)) : result (list (nat * K)) :=
  match l with
  | [] => Undef
  | p :: l => if decide (p.1 = it) then Ok l else l ← list_erase it l; Ok (p :: l)
  end.

(** [keys_lst_.splice(keys_lst_.begin(), keys_lst_, it)]. *)
Definition splice_front (it : nat) (l : list (nat * K)) : result (list (nat * K)) :=
  match list_find (fun p => p.1 = it) l with
  | Some (_, p) => l ← list_erase it l; Ok (p :: l)
  | None => Undef
  end.

Definition Put (k : K) (v : V) (c : LRUCache) : result LRUCache :=
  let n := nodes c in
  match cache_map_ c !! k with
  | Some (_, it) =>
      l ← list_erase it (keys_lst_ c);
      Ok (MkLRU ((n, k) :: l) (<[k := (v, n)]> (cache_map_ c)) (max_size_ c) (S n))
  | None =>
      let l := (n, k) :: keys_lst_ c in
      let m := <[k := (v, n)]> (cache_map_ c) in
      if (max_size_ c <? length l)%nat
      then match last l with
           | Some (_, oldest) => Ok (MkLRU (removelast l) (delete oldest m) (max_size_ c) (S n))
           | None => Undef
           end
      else Ok (MkLRU l m (max_size_ c) (S n))
  end.

Definition Get (k : K) (c : LRUCache) : result (option V * LRUCache) :=
  match cache_map_ c !! k with
  | None => Ok (None, c)
  | Some (v, it) => l ← splice_front it (keys_lst_ c); Ok (Some v, MkLRU l (cache_map_ c) (max_size_ c) (nodes c))
  end.

Definition Exists (k : K) (c : LRUCache) : bool := bool_decide (is_Some (cache_map_ c !! k)).
Definition Clear (c : LRUCache) : LRUCache := MkLRU [] ∅ (max_size_ c) (nodes c).
Definition Size (c : LRUCache) : nat := length (keys_lst_ c).
Definition Empty (c : LRUCache) : bool := bool_decide (keys_lst_ c = []).

(** ** What it is *)

Definition without (k : K) (l : list (K * V)) : list (K * V) := filter (fun p => p.1 <> k) l.

(** The pairs, the most recently used first. *)
Definition put (m : nat) (k : K) (v : V) (l : list (K * V)) : list (K * V) := take m ((k, v) :: without k l).

Definition value_of (k : K) (l : list (K * V)) : option V := snd ∘ snd <$> list_find (fun p => p.1 = k) l.

Definition touch (k : K) (l : list (K * V)) : list (K * V) :=
  match value_of k l with Some v => (k, v) :: without k l | None => l end.

Record Refines (c : LRUCache) (l : list (K * V)) : Prop := MkRefines {
  r_keys : map snd (keys_lst_ c) = map fst l;
  r_nodes : NoDup (map fst (keys_lst_ c));
  r_fresh : Forall (fun p => (p.1 < nodes c)%nat) (keys_lst_ c);
  r_nodup : NoDup (map fst l);
  r_room : (length l <= max_size_ c)%nat;
  r_map : forall k v n, cache_map_ c !! k = Some (v, n) <-> (k, v) ∈ l /\ (n, k) ∈ keys_lst_ c
}.

Lemma refines_empty m : Refines (empty_cache m) [].
Proof.
  split; cbn; [done|constructor|constructor|constructor|lia|]. intros k v n. rewrite lookup_empty, elem_of_nil. naive_solver.
Qed.

Lemma list_erase_app it k l1 l2 : NoDup (map fst (l1 ++ (it, k) :: l2)) -> list_erase it (l1 ++ (it, k) :: l2) = Ok (l1 ++ l2).
Proof.
  induction l1 as [|p l1 IH]; cbn [app map list_erase]; intros Hn.
  - by rewrite decide_True.
  - apply NoDup_cons in Hn as [Hp Hn]. rewrite decide_False.
    + by rewrite IH.
    + intros E. apply Hp. rewrite map_app, E. apply elem_of_app. right. left.
Qed.

Lemma splice_front_app it k l1 l2 : NoDup (map fst (l1 ++ (it, k) :: l2)) ->
  splice_front it (l1 ++ (it, k) :: l2) = Ok ((it, k) :: l1 ++ l2).
Proof.
  intros Hn. unfold splice_front. destruct (list_find_elem_of (fun p : nat * K => p.1 = it) (l1 ++ (it, k) :: l2) (it, k)) as [[i p] E].
  { apply elem_of_app. right. left. } { done. }
  rewrite E. apply list_find_Some in E as (Hp & Ep & _). rewrite (list_erase_app it k) by done. cbn. do 2 f_equal.
  assert (p ∈ l1 ++ (it, k) :: l2) as Hin by by eapply list_elem_of_lookup_2.
  apply list_elem_of_lookup in Hin as [j Hj].
  assert ((map fst (l1 ++ (it, k) :: l2)) !! length l1 = Some it) as H1.
  { rewrite map_app, lookup_app_r by (rewrite length_map; lia). by rewrite length_map, Nat.sub_diag. }
  assert ((map fst (l1 ++ (it, k) :: l2)) !! j = Some it) as H2 by (rewrite list_lookup_fmap, Hj; cbn; by rewrite Ep).
  pose proof (NoDup_lookup _ _ _ _ Hn H1 H2) as <-. rewrite lookup_app_r, Nat.sub_diag in Hj by lia. by injection Hj as <-.
Qed.

(** A key of the map splits both lists at one place. *)
Lemma refines_split c l k v n : Refines c l -> cache_map_ c !! k = Some (v, n) ->
  exists l1 l2 a1 a2, keys_lst_ c = (l1 ++ (n, k) :: l2)%list /\ l = (a1 ++ (k, v) :: a2)%list
    /\ map snd l1 = map fst a1 /\ map snd l2 = map fst a2.
Proof.
  intros R E. apply (r_map _ _ R) in E as [Hl Hn]. apply list_elem_of_split in Hl as (a1 & a2 & El), Hn as (l1 & l2 & En).
  pose proof (r_keys _ _ R) as Hk. pose proof (r_nodup _ _ R) as Hd. rewrite En, El, !map_app in Hk. rewrite El, map_app in Hd. cbn in Hk, Hd.
  exists l1, l2, a1, a2. split; [done|]. split; [done|].
  assert (length (map snd l1) = length (map fst a1)) as Hlen.
  { apply (NoDup_lookup _ _ _ k Hd); [rewrite <- Hk|]; rewrite lookup_app_r, Nat.sub_diag by lia; done. }
  apply app_inj_1 in Hk as [H1 [= H2]]; [|done]. done.
Qed.

Lemma without_absent k l : k ∉ map fst l -> without k l = l.
Proof.
  induction l as [|p l IH]; intros Hk; [done|]. cbn in Hk. apply not_elem_of_cons in Hk as [Hp Hk].
  unfold without. rewrite filter_cons_True by congruence. f_equal. by apply IH.
Qed.

Lemma without_split k v a1 a2 : NoDup (map fst (a1 ++ (k, v) :: a2)) -> without k (a1 ++ (k, v) :: a2) = (a1 ++ a2)%list.
Proof.
  rewrite map_app. cbn. rewrite NoDup_app, NoDup_cons. intros (_ & H1 & H2 & _). unfold without. rewrite filter_app, filter_cons_False by tauto.
  f_equal; apply without_absent; [|done]. intros Hk. apply (H1 k Hk). left.
Qed.

Lemma refines_absent c l k : Refines c l -> cache_map_ c !! k = None -> k ∉ map fst l.
Proof.
  intros R E Hk. apply list_elem_of_fmap in Hk as ([k' v] & -> & Hl). cbn in E.
  assert (k' ∈ map snd (keys_lst_ c)) as Hn by (rewrite (r_keys _ _ R); by apply (list_elem_of_fmap_2 fst) in Hl).
  apply list_elem_of_fmap in Hn as ([n k] & -> & Hn). cbn in E, Hl. by rewrite (proj2 (r_map _ _ R k v n)) in E.
Qed.

(** Adding a key in front of lists that do not have it. *)
Lemma map_front (m : gmap K (V * nat)) k v n (rest : list (K * V)) (nrest : list (nat * K)) :
  k ∉ map fst rest -> k ∉ map snd nrest ->
  (forall k' v' n', k' <> k -> m !! k' = Some (v', n') <-> (k', v') ∈ rest /\ (n', k') ∈ nrest) ->
  forall k' v' n', <[k := (v, n)]> m !! k' = Some (v', n') <-> (k', v') ∈ (k, v) :: rest /\ (n', k') ∈ (n, k) :: nrest.
Proof.
  intros Hr Hn Hm k' v' n'. rewrite !elem_of_cons. destruct (decide (k' = k)) as [->|Hk].
  - rewrite lookup_insert_eq. split; [intros [= -> ->]; auto|]. intros [[[= ->]|H1] [[= ->]|H2]]; [done| | |];
      [destruct Hn; by apply (list_elem_of_fmap_2 snd) in H2|destruct Hr; by apply (list_elem_of_fmap_2 fst) in H1|destruct Hr; by apply (list_elem_of_fmap_2 fst) in H1].
  - rewrite lookup_insert_ne by done. rewrite Hm by done. naive_solver.
Qed.

Lemma put_present c l k v v0 it : Refines c l -> cache_map_ c !! k = Some (v0, it) ->
  exists c', Put k v c = Ok c' /\ Refines c' (put (max_size_ c) k v l) /\ max_size_ c' = max_size_ c.
Proof.
  intros R E. destruct (refines_split c l k v0 it R E) as (l1 & l2 & a1 & a2 & El & Ea & H1 & H2).
  destruct R as [Rk Rn Rf Rd Rr Rm]. rewrite El in Rk, Rn, Rf. rewrite Ea in Rk, Rd, Rr.
  unfold Put. rewrite E, El, (list_erase_app it k) by done. cbn. eexists. split; [done|]. split; [|done].
  unfold put. rewrite Ea, without_split by done. rewrite length_app in Rr. cbn in Rr.
  rewrite take_ge by (cbn; rewrite length_app; lia).
  pose proof (Permutation_middle l1 l2 (it, k)) as Hp. pose proof (Permutation_middle a1 a2 (k, v0)) as Hq.
  rewrite <- Hp in Rn, Rf. rewrite <- Hq in Rd. cbn in Rn, Rd. apply NoDup_cons in Rn as [_ Rn], Rd as [Rk' Rd]. apply Forall_cons in Rf as [_ Rf].
  assert (map snd (l1 ++ l2) = map fst (a1 ++ a2)) as Hkeys by by rewrite !map_app, H1, H2.
  split; cbn.
  - by rewrite Hkeys.
  - apply NoDup_cons. split; [|done]. intros Hin. apply list_elem_of_fmap in Hin as (p & E1 & Hin).
    rewrite Forall_forall in Rf. specialize (Rf p Hin). lia.
  - constructor; [simpl; lia|]. eapply Forall_impl; [done|]. cbn. lia.
  - by apply NoDup_cons.
  - rewrite length_app. lia.
  - apply map_front; [done|by rewrite Hkeys|]. intros k' v' n' Hk'. rewrite Rm, El, Ea, !elem_of_app, !elem_of_cons. naive_solver.
Qed.

Lemma put_absent c l k v : Refines c l -> cache_map_ c !! k = None ->
  exists c', Put k v c = Ok c' /\ Refines c' (put (max_size_ c) k v l) /\ max_size_ c' = max_size_ c.
Proof.
  intros R E. pose proof (refines_absent c l k R E) as Hk. destruct R as [Rk Rn Rf Rd Rr Rm].
  unfold Put, put. rewrite E, without_absent by done.
  assert (k ∉ map snd (keys_lst_ c)) as Hk2 by by rewrite Rk.
  pose proof (map_front (cache_map_ c) k v (nodes c) l (keys_lst_ c) Hk Hk2 (fun k' v' n' _ => Rm k' v' n')) as Hm.
  assert (length (keys_lst_ c) = length l) as Hlen by by rewrite <- (length_map snd), Rk, length_map.
  assert (NoDup (map fst ((nodes c, k) :: keys_lst_ c))) as Rn'.
  { apply NoDup_cons. split; [|done]. intros Hin. apply list_elem_of_fmap in Hin as (p & E1 & Hin).
    rewrite Forall_forall in Rf. specialize (Rf p Hin). cbn in E1. lia. }
  assert (Forall (fun p => (p.1 < S (nodes c))%nat) ((nodes c, k) :: keys_lst_ c)) as Rf'.
  { constructor; [simpl; lia|]. eapply Forall_impl; [done|]. cbn. lia. }
  assert (NoDup (map fst ((k, v) :: l))) as Rd' by by apply NoDup_cons.
  assert (map snd ((nodes c, k) :: keys_lst_ c) = map fst ((k, v) :: l)) as Rk' by (cbn; by rewrite Rk).
  cbn [length]. destruct (Nat.ltb_spec (max_size_ c) (S (length (keys_lst_ c)))) as [Hfull|Hroom].
  - (* full *) assert (S (length l) = S (max_size_ c)) as Hl by lia.
    destruct (exists_last (l := (nodes c, k) :: keys_lst_ c)) as (ns & [no ko] & En); [done|].
    destruct (exists_last (l := (k, v) :: l)) as (es & [ko' vo] & Ee); [done|].
    rewrite En in *. rewrite Ee in *. rewrite last_snoc. rewrite !map_app in Rk'. cbn in Rk'.
    apply app_inj_2 in Rk' as [Rk' [= <-]]; [|done].
    rewrite removelast_last. eexists. split; [done|]. split; [|done].
    assert (length es = max_size_ c) as He.
    { apply (f_equal length) in Ee. rewrite length_app in Ee. cbn in Ee. lia. }
    rewrite take_app_length' by done. rewrite map_app in Rn', Rd'. cbn in Rn', Rd'. apply NoDup_app in Rn' as (Rn' & _), Rd' as (Rd1 & Rd2 & _).
    assert (ko ∉ map fst es) as Hko by (intros Hin; apply (Rd2 _ Hin); left).
    split; cbn; [done|done|by apply Forall_app in Rf' as [? _]|done|lia|].
    intros k' v' n'. destruct (decide (k' = ko)) as [->|Hko'].
    + rewrite lookup_delete_eq. split; [done|]. intros [Hin _]. by apply (list_elem_of_fmap_2 fst) in Hin.
    + rewrite lookup_delete_ne by done. rewrite Hm, !elem_of_app, !list_elem_of_singleton. naive_solver.
  - eexists. split; [done|]. split; [|done]. rewrite take_ge by (cbn; lia). split; cbn; try done. lia.
Qed.

Lemma put_refines c l k v : Refines c l ->
  exists c', Put k v c = Ok c' /\ Refines c' (put (max_size_ c) k v l) /\ max_size_ c' = max_size_ c.
Proof. intros R. destruct (cache_map_ c !! k) as [[v0 it]|] eqn:E; [by eapply put_present|by apply put_absent]. Qed.

Lemma value_of_absent k l : k ∉ map fst l -> value_of k l = None.
Proof.
  intros Hk. unfold value_of. destruct (list_find _ l) as [[i [k' v]]|] eqn:E; [|done]. apply list_find_Some in E as (Hi & Ek & _).
  cbn in Ek. subst k'. apply list_elem_of_lookup_2, (list_elem_of_fmap_2 fst) in Hi. done.
Qed.

Lemma value_of_split k v a1 a2 : k ∉ map fst a1 -> value_of k (a1 ++ (k, v) :: a2) = Some v.
Proof.
  intros Hk. unfold value_of. rewrite list_find_app_r; cbn; [by rewrite decide_True|].
  apply list_find_None, Forall_forall. intros p Hp E. apply Hk. apply list_elem_of_fmap. eauto.
Qed.

Lemma get_refines c l k : Refines c l ->
  exists c', Get k c = Ok (value_of k l, c') /\ Refines c' (touch k l) /\ max_size_ c' = max_size_ c.
Proof.
  intros R. unfold Get, touch. destruct (cache_map_ c !! k) as [[v it]|] eqn:E.
  - destruct (refines_split c l k v it R E) as (l1 & l2 & a1 & a2 & El & Ea & H1 & H2).
    destruct R as [Rk Rn Rf Rd Rr Rm]. rewrite El in Rk, Rn, Rf. rewrite Ea in Rk, Rd, Rr.
    assert (value_of k l = Some v) as Hv.
    { rewrite Ea. apply value_of_split. rewrite map_app in Rd. cbn in Rd. apply NoDup_app in Rd as (_ & Rd & _). intros Hk. apply (Rd k Hk). left. }
    rewrite Hv, El, splice_front_app by done. cbn. eexists. split; [done|]. split; [|done]. rewrite Ea, without_split by done.
    pose proof (Permutation_middle l1 l2 (it, k)) as Hp. pose proof (Permutation_middle a1 a2 (k, v)) as Hq.
    rewrite <- Hp in Rn, Rf. rewrite <- Hq in Rd. split; cbn.
    + by rewrite !map_app, H1, H2.
    + done.
    + done.
    + done.
    + rewrite length_app in Rr |- *. cbn in Rr. lia.
    + intros k' v' n'. rewrite Rm, El, Ea, !elem_of_app, !elem_of_cons, !elem_of_app. tauto.
  - rewrite value_of_absent by by eapply refines_absent. by exists c.
Qed.

(** ** Histories *)

Inductive op := OpPut (k : K) (v : V) | OpGet (k : K) | OpClear.

(** What the calls answer; [Put] and [Clear] answer nothing. *)
Fixpoint run (ops : list op) (c : LRUCache) : result (list (option V) * LRUCache) :=
  match ops with
  | [] => Ok ([], c)
  | OpPut k v :: ops => c ← Put k v c; '(out, c) ← run ops c; Ok (None :: out, c)
  | OpGet k :: ops => '(a, c) ← Get k c; '(out, c) ← run ops c; Ok (a :: out, c)
  | OpClear :: ops => '(out, c) ← run ops (Clear c); Ok (None :: out, c)
  end.

Fixpoint answers (m : nat) (ops : list op) (l : list (K * V)) : list (option V) * list (K * V) :=
  match ops with
  | [] => ([], l)
  | OpPut k v :: ops => let '(out, l) := answers m ops (put m k v l) in (None :: out, l)
  | OpGet k :: ops => let '(out, l') := answers m ops (touch k l) in (value_of k l :: out, l')
  | OpClear :: ops => let '(out, l) := answers m ops [] in (None :: out, l)
  end.

Lemma run_refines ops : forall c l, Refines c l ->
  exists c', run ops c = Ok ((answers (max_size_ c) ops l).1, c') /\ Refines c' (answers (max_size_ c) ops l).2.
Proof.
  induction ops as [|[k v|k|] ops IH]; intros c l R; cbn [run answers].
  - by exists c.
  - destruct (put_refines c l k v R) as (c1 & -> & R1 & E1). cbn. destruct (IH c1 _ R1) as (c2 & -> & R2). rewrite E1 in R2 |- *.
    destruct (answers _ _ _) as [out l2]. by exists c2.
  - destruct (get_refines c l k R) as (c1 & -> & R1 & E1). cbn. destruct (IH c1 _ R1) as (c2 & -> & R2). rewrite E1 in R2 |- *.
    destruct (answers _ _ _) as [out l2]. by exists c2.
  - assert (Refines (Clear c) []) as R1.
    { split; cbn; [done|constructor|constructor|constructor|lia|]. intros k v n. rewrite lookup_empty, elem_of_nil. naive_solver. }
    destruct (IH _ _ R1) as (c2 & -> & R2). cbn in R2 |- *. destruct (answers _ _ _) as [out l2]. by exists c2.
Qed.
End LruCache.
End LruCache.

(** * What is known about a database *)

Module LintEnv.
Import LintUtil.

Record ColumnInfo := MkColumn { name_ : list Z; type_ : list Z; is_primary_key_ : bool }.
Record IndexElement := MkElement { pos_ : Z; column_index_ : Z; column_name_ : list Z }.
Record IndexInfo := MkIndex { seq_ : Z; index_name_ : list Z; index_elements_ : list IndexElement; is_unique_ : bool }.
Record TableInfo := MkTable {
  table_name_ : list Z;
  create_sql_ : list Z;
  columns_ : list ColumnInfo;
  indexs_ : list IndexInfo
}.

(** [parse_obj_] is owned by one object, although copying copies the pointer. *)
Record SqlInfo := MkSqlInfo {
  sql_ : list Z;
  sql_type_ : SqlTree.SqlType;
  wildcard_sql_ : list Z;
  is_prepared_statement_ : bool;
  is_select_all_ : bool;
  execution_time_ : Z;
  parse_obj_ : option SqlTree.parse;
  ext_info_ : list Z;
  time_cost_ : Z;
  is_in_main_thread_ : bool
}.

Definition CopyWithoutParse (i : SqlInfo) : SqlInfo :=
  MkSqlInfo (sql_ i) (sql_type_ i) (wildcard_sql_ i) (is_prepared_statement_ i) (is_select_all_ i) (execution_time_ i) None
    (ext_info_ i) (time_cost_ i) (is_in_main_thread_ i).

Inductive IssueLevel := kPass | kTips | kSuggestion | kWarning | kError.

Inductive IssueType :=
| kExplainQueryScanTable
| kExplainQueryUseTempTree
| kExplainQueryTipsForLargerIndex
| kAvoidAutoIncrement
| kAvoidSelectAllChecker
| kWithoutRowIdBetter
| kPreparedStatementBetter
| kRedundantIndex.

Record Issue := MkIssue {
  issue_id : list Z;
  db_path : list Z;
  issue_type : IssueType;
  level : IssueLevel;
  sql : list Z;
  table : list Z;
  create_time : Z;
  desc : list Z;
  detail : list Z;
  advice : list Z;
  ext_info : list Z;
  sql_time_cost : Z;
  is_in_main_thread : bool
}.

(** Before the first element with a greater position, or at the end. *)
Fixpoint insert_element (e : IndexElement) (l : list IndexElement) : list IndexElement :=
  match l with
  | [] => [e]
  | x :: l => if pos_ e <? pos_ x then e :: x :: l else x :: insert_element e l
  end.

Definition AddIndexElement (e : IndexElement) (i : IndexInfo) : IndexInfo :=
  MkIndex (seq_ i) (index_name_ i) (insert_element e (index_elements_ i)) (is_unique_ i).

Abbreviation str := (list Z).

Record LintEnv := MkEnv {
  db_path_ : str;
  db_file_name_ : str;
  reserve_sql_map_ : gmap str Z;
  tables_info_ : list TableInfo;
  sql_history_ : list SqlInfo;
  white_list_ : gmap str (gset str);
  checked_sql_cnt_ : Z;
  clock : nat
}.

Definition set_reserve (m : gmap str Z) (s : LintEnv) : LintEnv :=
  MkEnv (db_path_ s) (db_file_name_ s) m (tables_info_ s) (sql_history_ s) (white_list_ s) (checked_sql_cnt_ s) (clock s).
Definition set_tables (l : list TableInfo) (s : LintEnv) : LintEnv :=
  MkEnv (db_path_ s) (db_file_name_ s) (reserve_sql_map_ s) l (sql_history_ s) (white_list_ s) (checked_sql_cnt_ s) (clock s).
Definition set_history (l : list SqlInfo) (s : LintEnv) : LintEnv :=
  MkEnv (db_path_ s) (db_file_name_ s) (reserve_sql_map_ s) (tables_info_ s) l (white_list_ s) (checked_sql_cnt_ s) (clock s).
Definition set_white (m : gmap str (gset str)) (s : LintEnv) : LintEnv :=
  MkEnv (db_path_ s) (db_file_name_ s) (reserve_sql_map_ s) (tables_info_ s) (sql_history_ s) m (checked_sql_cnt_ s) (clock s).
Definition set_cnt (n : Z) (s : LintEnv) : LintEnv :=
  MkEnv (db_path_ s) (db_file_name_ s) (reserve_sql_map_ s) (tables_info_ s) (sql_history_ s) (white_list_ s) n (clock s).
Definition set_clock (n : nat) (s : LintEnv) : LintEnv :=
  MkEnv (db_path_ s) (db_file_name_ s) (reserve_sql_map_ s) (tables_info_ s) (sql_history_ s) (white_list_ s) (checked_sql_cnt_ s) n.

Section LintEnv.
(** What [gettimeofday] answers at its [n]th call, in microseconds. *)
Context (now : nat -> Z).

(** A row of a query: a value (or NULL) for each name.  [exec db_path sql]: the code and the rows of
    [kSqlExecutionDelegate], where it is set; it calls the callback with each row. *)
Definition row : Type := list (str * option str).
Context (exec : option (str -> str -> Z * list row)).

Definition GetSysTimeMillisecond : M LintEnv Z :=
  n ← gets clock; modify (set_clock (S n));; mret (Z.quot (now n) 1000).

(** ** Construction *)

(** [pos] is an [int], and -1 for [npos]. *)
Definition file_name_of (path : str) : str :=
  let pos := match find_last_of 47 path with Some i => s32 (Z.of_nat i) | None => -1 end in
  if 0 <=? pos then drop (Z.to_nat (pos + 1)) path else path.

Definition new_env (path : str) : LintEnv := MkEnv path (file_name_of path) ∅ [] [] ∅ 0 0.

(** ** Statements of sqlite-lint itself *)

Definition kMarkReserveIntervalThreshold : Z := 1000.

Definition IsReservedTable (table_name : str) : bool :=
  bool_decide (table_name = bytes_of "sqlite_master") || bool_decide (table_name = bytes_of "sqlite_sequence")
  || bool_decide (table_name = bytes_of "android_metadata").

(** [std::map::insert] keeps the value of a key that is present. *)
Definition MarkReserve (sql : str) : M LintEnv unit :=
  t ← GetSysTimeMillisecond;
  modify (fun s => match reserve_sql_map_ s !! sql with Some _ => s | None => set_reserve (<[sql := t]> (reserve_sql_map_ s)) s end).

Definition IsReserve (sql : str) : M LintEnv bool :=
  m ← gets reserve_sql_map_;
  match m !! sql with
  | None => mret false
  | Some reserve_query_time =>
      t ← GetSysTimeMillisecond;
      if kMarkReserveIntervalThreshold <? t - reserve_query_time
      then modify (set_reserve (delete sql m));; mret false
      else mret true
  end.

(** ** Queries *)

Fixpoint each_row {A} (callback : A -> row -> result A) (a : A) (rows : list row) : result A :=
  match rows with [] => Ok a | r :: rows => a ← callback a r; each_row callback a rows end.

(** [GetQuery] and [SQLite3ExecSql]: the callback writes to what [para] points to. *)
Definition GetQuery {A} (query_sql : str) (callback : A -> row -> result A) (para : A) : M LintEnv (Z * A) :=
  MarkReserve query_sql;;
  path ← gets db_path_;
  match exec with
  | None => mret (-1, para)
  | Some f => let '(r, rows) := f path query_sql in a ← raise (each_row callback para rows); mret (r, a)
  end.

(** [column_value[i] == nullptr ? "" : column_value[i]]. *)
Definition column (r : row) (i : nat) : result str :=
  match r !! i with Some (_, v) => Ok (default [] v) | None => Undef end.

Definition OnSelectTablesCallback (tables : list TableInfo) (r : row) : result (list TableInfo) :=
  name ← column r 0;
  if IsReservedTable name then Ok tables else
  create ← column r 1;
  Ok (tables ++ [MkTable name create [] []]).

Definition atoi_value (v : option str) : result Z := match v with None => Segv | Some v => SqlYy.atoi (v ++ [0]) end.

(** [column_value[i][0] != '0']. *)
Definition not_zero (v : option str) : result bool :=
  match v with None => Segv | Some v => Ok (negb (default 0 (head v) =? 48)) end.

(** A copy of a member that was not written is undefined. *)
Definition written {A} (o : option A) : result A := match o with Some a => Ok a | None => Undef end.

Fixpoint columns_loop (r : row) (name type : str) (pk : option bool) (columns_assigned : nat) : result ColumnInfo :=
  match r with
  | [] => pk ← written pk; Ok (MkColumn name type pk)
  | (n, v) :: r =>
      '(name, type, pk, columns_assigned) ←
        (if decide (n = bytes_of "name") then Ok (default [] v, type, pk, S columns_assigned)
         else if decide (n = bytes_of "type") then Ok (name, default [] v, pk, S columns_assigned)
         else if decide (n = bytes_of "pk") then b ← not_zero v; Ok (name, type, Some b, S columns_assigned)
         else Ok (name, type, pk, columns_assigned));
      if (columns_assigned =? 3)%nat then pk ← written pk; Ok (MkColumn name type pk)
      else columns_loop r name type pk columns_assigned
  end.

Definition OnSelectColumnsCallback (t : TableInfo) (r : row) : result TableInfo :=
  c ← columns_loop r [] [] None 0; Ok (MkTable (table_name_ t) (create_sql_ t) (columns_ t ++ [c]) (indexs_ t)).

Fixpoint indexs_loop (r : row) (name : str) (seq : option Z) (unique : option bool) (columns_assigned : nat) : result IndexInfo :=
  let finish (name : str) (seq : option Z) (unique : option bool) :=
    seq ← written seq; unique ← written unique; Ok (MkIndex seq name [] unique) in
  match r with
  | [] => finish name seq unique
  | (n, v) :: r =>
      '(name, seq, unique, columns_assigned) ←
        (if decide (n = bytes_of "name") then Ok (default [] v, seq, unique, S columns_assigned)
         else if decide (n = bytes_of "seq") then z ← atoi_value v; Ok (name, Some z, unique, S columns_assigned)
         else if decide (n = bytes_of "unique") then b ← not_zero v; Ok (name, seq, Some b, S columns_assigned)
         else Ok (name, seq, unique, columns_assigned));
      if (columns_assigned =? 3)%nat then finish name seq unique else indexs_loop r name seq unique columns_assigned
  end.

Definition OnSelectIndexsCallback (t : TableInfo) (r : row) : result TableInfo :=
  i ← indexs_loop r [] None None 0; Ok (MkTable (table_name_ t) (create_sql_ t) (columns_ t) (indexs_ t ++ [i])).

Fixpoint elements_loop (r : row) (pos cid : option Z) (name : str) (columns_assigned : nat) : result IndexElement :=
  let finish (pos cid : option Z) (name : str) := pos ← written pos; cid ← written cid; Ok (MkElement pos cid name) in
  match r with
  | [] => finish pos cid name
  | (n, v) :: r =>
      '(pos, cid, name, columns_assigned) ←
        (if decide (n = bytes_of "seqno") then z ← atoi_value v; Ok (Some z, cid, name, S columns_assigned)
         else if decide (n = bytes_of "cid") then z ← atoi_value v; Ok (pos, Some z, name, S columns_assigned)
         else if decide (n = bytes_of "name") then Ok (pos, cid, default [] v, S columns_assigned)
         else Ok (pos, cid, name, columns_assigned));
      if (columns_assigned =? 3)%nat then finish pos cid name else elements_loop r pos cid name columns_assigned
  end.

Definition OnSelectIndexInfoCallback (i : IndexInfo) (r : row) : result IndexInfo :=
  e ← elements_loop r None None [] 0; Ok (AddIndexElement e i).

(** ** Tables *)

Definition kSelectTablesSql : str := bytes_of "select name, sql from sqlite_master where type='table'".

(** [PRAGMA name(arg)]. *)
Definition pragma (name arg : str) : str := bytes_of "PRAGMA " ++ name ++ [40] ++ arg ++ [41].

(** The indexes of a table and whether to go on. *)
Fixpoint collect_indexs (l : list IndexInfo) : M LintEnv (list IndexInfo * bool) :=
  match l with
  | [] => mret ([], true)
  | i :: l =>
      '(r, i) ← GetQuery (pragma (bytes_of "index_info") (index_name_ i)) OnSelectIndexInfoCallback i;
      if negb (r =? 0) then mret (i :: l, false) else
      '(l, go) ← collect_indexs l; mret (i :: l, go)
  end.

Fixpoint collect_tables (l : list TableInfo) : M LintEnv (list TableInfo * bool) :=
  match l with
  | [] => mret ([], true)
  | t :: l =>
      '(r, t) ← GetQuery (pragma (bytes_of "table_info") (table_name_ t)) OnSelectColumnsCallback t;
      if negb (r =? 0) then mret (t :: l, false) else
      '(r, t) ← GetQuery (pragma (bytes_of "index_list") (table_name_ t)) OnSelectIndexsCallback t;
      if negb (r =? 0) then mret (t :: l, false) else
      '(ixs, go) ← collect_indexs (indexs_ t);
      let t := MkTable (table_name_ t) (create_sql_ t) (columns_ t) ixs in
      if negb go then mret (t :: l, false) else
      '(l, go) ← collect_tables l; mret (t :: l, go)
  end.

Definition CollectTablesInfo : M LintEnv unit :=
  tables ← gets tables_info_;
  '(r, tables) ← GetQuery kSelectTablesSql OnSelectTablesCallback tables;
  modify (set_tables tables);;
  if negb (r =? 0) then mret tt else
  '(tables, _) ← collect_tables tables;
  modify (set_tables tables).

Definition GetTablesInfo : M LintEnv (list TableInfo) :=
  tables ← gets tables_info_;
  match tables with [] => CollectTablesInfo;; gets tables_info_ | _ => mret tables end.

(** The last table of the name; [tableInfo] is left alone where there is none. *)
Definition GetTableInfo (table_name : str) (tableInfo : TableInfo) : M LintEnv TableInfo :=
  tables ← GetTablesInfo;
  mret (fold_left (fun info t => if CompareIgnoreCase table_name (table_name_ t) =? 0 then t else info) tables tableInfo).

Record Record_ := MkRecord { detail_ : str; select_id_ : Z; order_ : Z; from_ : Z }.

Definition OnExplainQueryPlanCallback (plan : list Record_) (r : row) : result (list Record_) :=
  d ← column r 3;
  let int i := match r !! i with Some (_, v) => atoi_value v | None => Undef end in
  a ← int 0%nat; b ← int 1%nat; c ← int 2%nat;
  Ok (plan ++ [MkRecord d a b c]).

(** Without a delegate nothing is written to [err_msg], which has no initial value. *)
Definition GetExplainQueryPlan (sql : str) (query_plan : list Record_) : M LintEnv (Z * list Record_) :=
  '(r, plan) ← GetQuery (bytes_of "explain query plan " ++ sql) OnExplainQueryPlanCallback query_plan;
  match exec with None => raise Undef | Some _ => mret (r, plan) end.

(** ** History *)

(** The parameter is a copy, whose destructor deletes the tree that the caller's object and the
    history still point to. *)
Definition AddToSqlHistory (i : SqlInfo) : M LintEnv unit :=
  match parse_obj_ i with
  | Some _ => raise Undef
  | None => modify (fun s => set_history (sql_history_ s ++ [i]) s)
  end.

Definition ReleaseHistory (count : nat) : M LintEnv unit :=
  modify (fun s => if (count <? length (sql_history_ s))%nat then set_history (drop count (sql_history_ s)) s else s).

Definition CheckReleaseHistory : M LintEnv unit :=
  l ← gets sql_history_; if (1000 <=? length l)%nat then ReleaseHistory 200 else mret tt.

Definition IncSqlCnt : M LintEnv unit :=
  n ← gets checked_sql_cnt_; if n + 1 <? 2 ^ 31 then modify (set_cnt (n + 1)) else raise Undef.

(** ** White list *)

Definition SetWhiteList (white_list : gmap str (gset str)) : M LintEnv unit :=
  modify (set_white ((fun l : gset str => set_map ToLowerCase l) <$> white_list)).

Definition IsInWhiteList (s : LintEnv) (checker_name target : str) : bool :=
  match white_list_ s !! checker_name with
  | None => false
  | Some l => bool_decide (ToLowerCase target ∈ l)
  end.

(** ** What they do *)

(** The white list ignores case, and only that of the targets. *)
Lemma white_list_correct wl s name target :
  IsInWhiteList (SetWhiteList wl s).2 name target = true
  <-> exists l t, wl !! name = Some l /\ t ∈ l /\ CompareIgnoreCase t target = 0.
Proof.
  unfold IsInWhiteList, SetWhiteList. cbn. rewrite lookup_fmap. destruct (wl !! name) as [l|]; cbn.
  - rewrite bool_decide_eq_true, elem_of_map. setoid_rewrite CompareIgnoreCase_eq. split.
    + intros (t & -> & Ht). exists l, t. done.
    + intros (l' & t & [= <-] & Ht & E). by exists t.
  - split; [done|]. by intros (l & t & ? & _).
Qed.

(** A statement is known as one of sqlite-lint for a second after it was marked. *)
Lemma reserve_correct sql s t :
  reserve_sql_map_ s !! sql = Some t ->
  exists s', IsReserve sql s = (Ok (Z.quot (now (clock s)) 1000 - t <=? kMarkReserveIntervalThreshold), s')
    /\ reserve_sql_map_ s' = (if Z.quot (now (clock s)) 1000 - t <=? kMarkReserveIntervalThreshold then reserve_sql_map_ s else delete sql (reserve_sql_map_ s)).
Proof.
  intros E. unfold IsReserve, GetSysTimeMillisecond, mbind, M_bind, gets, modify. rewrite E. cbn. rewrite Z.leb_antisym.
  destruct (_ <? _); by eexists.
Qed.

(** Marking it again does not prolong that. *)
Lemma mark_again sql s t : reserve_sql_map_ s !! sql = Some t -> reserve_sql_map_ (MarkReserve sql s).2 = reserve_sql_map_ s.
Proof. intros E. unfold MarkReserve, GetSysTimeMillisecond, mbind, M_bind, gets, modify. cbn. by rewrite E. Qed.

(** Positions ascend. *)
Definition ordered (i : IndexInfo) : Prop := StronglySorted Z.le (map pos_ (index_elements_ i)).

Lemma insert_element_perm e l : insert_element e l ≡ₚ e :: l.
Proof. induction l as [|x l IH]; cbn; [done|]. destruct (_ <? _); [done|]. rewrite IH. by constructor. Qed.

Lemma AddIndexElement_ordered e i : ordered i -> ordered (AddIndexElement e i) /\ index_elements_ (AddIndexElement e i) ≡ₚ e :: index_elements_ i.
Proof.
  intros H. split; [|apply insert_element_perm]. unfold ordered, AddIndexElement in *. cbn. revert H.
  induction (index_elements_ i) as [|x l IH]; cbn; intros H; [by repeat constructor|]. apply StronglySorted_inv in H as [H Hx].
  destruct (Z.ltb_spec (pos_ e) (pos_ x)) as [Hlt|Hge]; cbn.
  - constructor; [by constructor|]. constructor; [lia|]. eapply Forall_impl; [done|]. cbn. lia.
  - constructor; [by apply IH|]. rewrite (insert_element_perm e l). constructor; [lia|done].
Qed.

(** Tables are asked for once, except where there are none. *)
Lemma tables_kept s : tables_info_ s <> [] -> GetTablesInfo s = (Ok (tables_info_ s), s).
Proof. intros H. unfold GetTablesInfo, mbind, M_bind, gets. by destruct (tables_info_ s). Qed.

Lemma release_bound s : (length (sql_history_ s) <= 1000)%nat -> (length (sql_history_ (CheckReleaseHistory s).2) < 1000)%nat.
Proof.
  intros H. unfold CheckReleaseHistory, ReleaseHistory, mbind, M_bind, gets, modify.
  destruct (Nat.leb_spec 1000 (length (sql_history_ s))) as [Hl|Hl]; [|exact Hl].
  assert (200 < length (sql_history_ s))%nat as E%Nat.ltb_lt by lia. rewrite E. cbn [snd set_history sql_history_]. rewrite length_drop. lia.
Qed.
End LintEnv.
End LintEnv.
