(* ===== verification/LintCheckers.v ===== *)
(** The checkers of sqlite-lint (src/checker), but for the one on query plans.

    Module [Checkers] has a definition per method; the list of issues is passed along.  [std::sort] and
    the local time are arguments.  [CheckersFacts] shows what the checkers report. *)
From Stdlib Require Import Sorted.
From stdpp Require Import sorting.
From S2P Require Import Prelude Arch Machine Libc Md5 SqlTree LintCore.

Module Checkers.
Import LintUtil LintEnv.

Inductive CheckScene := kAfterInit | kSample | kUncheckedSql | kEverySql.

#[export] Instance CheckScene_eq_dec : EqDecision CheckScene.
Proof. solve_decision. Defined.

Definition kExplainQueryPlanCheckerName : str := bytes_of "ExplainQueryPlanChecker".
Definition kAvoidAutoIncrementCheckerName : str := bytes_of "AvoidAutoIncrementChecker".
Definition kAvoidSelectAllCheckerName : str := bytes_of "AvoidSelectAllChecker".
Definition kWithoutRowIdBetterCheckerName : str := bytes_of "WithoutRowIdBetterChecker".
Definition kPreparedStatementBetterCheckerName : str := bytes_of "PreparedStatementBetterChecker".
Definition kRedundantIndexCheckerName : str := bytes_of "RedundantIndexChecker".

Section Checkers.
Context `{Ar : Arch} (now : nat -> Z) (exec : option (str -> str -> Z * list row)).

(** ** Redundant indexes *)

Record RedundantIndexGroup := MkGroup {
  main_index_ : IndexInfo;
  main_index_lock_ : bool;
  redundant_indexs_ : list IndexInfo
}.

(** The constructor does not set [main_index_lock_]: [held] is what the memory happens to hold. *)
Context (held : IndexInfo -> bool).

Definition new_group (main_index : IndexInfo) : RedundantIndexGroup := MkGroup main_index (held main_index) [].

(** The number of leading columns the indexes share. *)
Fixpoint same_columns (candidate main : list IndexElement) : nat :=
  match candidate, main with
  | c :: candidate, m :: main => if column_index_ c =? column_index_ m then S (same_columns candidate main) else 0%nat
  | _, _ => 0%nat
  end.

Definition Try2AddToGroup (candidate : IndexInfo) (g : RedundantIndexGroup) : bool * RedundantIndexGroup :=
  let main := main_index_ g in
  let add := MkGroup main (main_index_lock_ g) (redundant_indexs_ g ++ [candidate]) in
  if (length (index_elements_ main) <? length (index_elements_ candidate))%nat then (false, g) else
  let i := same_columns (index_elements_ candidate) (index_elements_ main) in
  if (i =? length (index_elements_ main))%nat then
    if main_index_lock_ g then (true, add) else
    if IsSQLite3AutoIndex (index_name_ main) then (true, MkGroup main true (redundant_indexs_ g ++ [candidate])) else
    if IsSQLite3AutoIndex (index_name_ candidate) then (true, MkGroup candidate true (redundant_indexs_ g ++ [main])) else
    (true, add)
  else if (i =? length (index_elements_ candidate))%nat then (true, add)
  else (false, g).

Definition HasRedundantIndexs (g : RedundantIndexGroup) : bool := negb (bool_decide (length (redundant_indexs_ g) = 0)%nat).

(** [std::sort] puts [a] in front of [b] only if not [SortIndex b a]. *)
Definition SortIndex (left right : IndexInfo) : bool :=
  if (length (index_elements_ left) <? length (index_elements_ right))%nat then false
  else if (length (index_elements_ right) <? length (index_elements_ left))%nat then true
  else seq_ right <? seq_ left.

(** The group and the rest. *)
Fixpoint group_loop (l : list IndexInfo) (g : RedundantIndexGroup) (rest : list IndexInfo) : RedundantIndexGroup * list IndexInfo :=
  match l with
  | [] => (g, rest)
  | c :: l => let '(added, g) := Try2AddToGroup c g in group_loop l g (if added : bool then rest else rest ++ [c])
  end.

Fixpoint MakeDistinctGroup (fuel : nat) (indexs : list IndexInfo) (groups : list RedundantIndexGroup) : result (list RedundantIndexGroup) :=
  match indexs with
  | [] => Ok groups
  | main_index :: l =>
      match fuel with
      | O => NoFuel
      | S fuel =>
          let '(g, rest_indexs) := group_loop l (new_group main_index) [] in
          MakeDistinctGroup fuel rest_indexs (groups ++ [g])
      end
  end.

(** The parts with a comma between any two. *)
Fixpoint join_commas (l : list str) : str :=
  match l with [] => [] | [s] => s | s :: l => s ++ [44] ++ join_commas l end.

Definition GetIndexColumnsString (i : IndexInfo) : str := join_commas (map column_name_ (index_elements_ i)).

(** [name(columns)]. *)
Definition show_index (i : IndexInfo) : str := index_name_ i ++ [40] ++ GetIndexColumnsString i ++ [41].

Definition redundant_desc (table_name : str) (g : RedundantIndexGroup) : str :=
  bytes_of "Table(" ++ table_name ++ bytes_of ") found redundant indexes:" ++ show_index (main_index_ g) ++ [10]
  ++ concat (map show_index (redundant_indexs_ g)).

Definition redundant_advice (g : RedundantIndexGroup) : str :=
  bytes_of "You can keep index " ++ [34] ++ index_name_ (main_index_ g) ++ [34] ++ bytes_of ", and delete others.".

Definition PublishIssue_RedundantIndex (table_name : str) (g : RedundantIndexGroup) (issues : list Issue) : M LintEnv (list Issue) :=
  s ← gets id;
  let identity_info := [91] ++ table_name ++ [93] ++ index_name_ (main_index_ g) ++ concat (map show_index (redundant_indexs_ g)) in
  t ← GetSysTimeMillisecond now;
  mret (issues ++ [MkIssue (GenIssueId (db_file_name_ s) kRedundantIndexCheckerName identity_info) (db_path_ s) kRedundantIndex kSuggestion
    [] table_name t (redundant_desc table_name g) [] (redundant_advice g) [] 0 false]).

Context (std_sort : list IndexInfo -> list IndexInfo).

Fixpoint publish_groups (table_name : str) (groups : list RedundantIndexGroup) (issues : list Issue) : M LintEnv (list Issue) :=
  match groups with
  | [] => mret issues
  | g :: groups =>
      issues ← (if HasRedundantIndexs g then PublishIssue_RedundantIndex table_name g issues else mret issues);
      publish_groups table_name groups issues
  end.

Definition groups_of (indexs : list IndexInfo) : result (list RedundantIndexGroup) :=
  let indexs := std_sort indexs in MakeDistinctGroup (length indexs) indexs [].

(** A loop over the tables. *)
Fixpoint each_table (body : TableInfo -> list Issue -> M LintEnv (list Issue)) (tables : list TableInfo) (issues : list Issue) : M LintEnv (list Issue) :=
  match tables with [] => mret issues | t :: tables => issues ← body t issues; each_table body tables issues end.

Definition check_indexs (t : TableInfo) (issues : list Issue) : M LintEnv (list Issue) :=
  s ← gets id;
  if IsInWhiteList s kRedundantIndexCheckerName (table_name_ t) then mret issues else
  match indexs_ t with
  | [] => mret issues
  | indexs => groups ← raise (groups_of indexs); publish_groups (table_name_ t) groups issues
  end.

Definition Check_RedundantIndex (issues : list Issue) : M LintEnv (list Issue) :=
  tables ← GetTablesInfo now exec; each_table check_indexs tables issues.

(** ** AUTOINCREMENT *)

Definition kAutoIncrementKeyWord : str := bytes_of "autoincrement".

Definition PublishIssue_AvoidAutoIncrement (table_name : str) (issues : list Issue) : M LintEnv (list Issue) :=
  s ← gets id;
  t ← GetSysTimeMillisecond now;
  let desc := bytes_of "Table(" ++ table_name ++ bytes_of ") has a column which is AutoIncrement." ++ bytes_of "It's not really recommended." in
  mret (issues ++ [MkIssue (GenIssueId (db_file_name_ s) kAvoidAutoIncrementCheckerName table_name) (db_path_ s) kAvoidAutoIncrement kTips
    [] table_name t desc [] [] [] 0 false]).

Definition check_auto_increment (t : TableInfo) (issues : list Issue) : M LintEnv (list Issue) :=
  s ← gets id;
  if IsInWhiteList s kAvoidAutoIncrementCheckerName (table_name_ t) then mret issues else
  if contains kAutoIncrementKeyWord (ToLowerCase (create_sql_ t)) then PublishIssue_AvoidAutoIncrement (table_name_ t) issues
  else mret issues.

Definition Check_AvoidAutoIncrement (issues : list Issue) : M LintEnv (list Issue) :=
  tables ← GetTablesInfo now exec; each_table check_auto_increment tables issues.

(** ** SELECT * *)

(** The statement that stands for [i]. *)
Definition key_of (i : SqlInfo) : str := match wildcard_sql_ i with [] => sql_ i | w => w end.

Definition PublishIssue_AvoidSelectAll (i : SqlInfo) (issues : list Issue) : M LintEnv (list Issue) :=
  s ← gets id;
  t ← GetSysTimeMillisecond now;
  mret (issues ++ [MkIssue (GenIssueId (db_file_name_ s) kAvoidSelectAllCheckerName (key_of i)) (db_path_ s) kAvoidSelectAllChecker kTips
    (sql_ i) [] t (bytes_of "Found select * sql:" ++ sql_ i) [] (bytes_of "It is recommended only select the required columns.")
    (ext_info_ i) (time_cost_ i) (is_in_main_thread_ i)]).

Definition Check_AvoidSelectAll (i : SqlInfo) (issues : list Issue) : M LintEnv (list Issue) :=
  s ← gets id;
  if IsInWhiteList s kAvoidSelectAllCheckerName (wildcard_sql_ i) || IsInWhiteList s kAvoidSelectAllCheckerName (sql_ i) then mret issues else
  if is_select_all_ i then PublishIssue_AvoidSelectAll i issues else mret issues.

(** ** WITHOUT ROWID *)

Definition kWithoutRowIdKeyWord : str := bytes_of "without rowid".

(** The count of columns of the primary key, whether one is an integer, whether there are large columns;
    the loop ends at the first large one. *)
Fixpoint rowid_loop (l : list ColumnInfo) (cnt : Z) (integer : bool) : Z * bool * bool :=
  match l with
  | [] => (cnt, integer, false)
  | c :: l =>
      if is_primary_key_ c then rowid_loop l (cnt + 1) (if CompareIgnoreCase (type_ c) (bytes_of "integer") =? 0 then true else integer)
      else if (CompareIgnoreCase (type_ c) (bytes_of "text") =? 0) || (CompareIgnoreCase (type_ c) (bytes_of "blob") =? 0) then (cnt, integer, true)
      else rowid_loop l cnt integer
  end.

Definition IsWithoutRowIdBetter (t : TableInfo) : bool :=
  let '(primary_key_column_cnt, has_integer_primary_key, has_large_columns) := rowid_loop (columns_ t) 0 false in
  negb has_large_columns && ((primary_key_column_cnt =? 1) && negb has_integer_primary_key || (1 <? primary_key_column_cnt)).

Definition PublishIssue_WithoutRowIdBetter (table_name : str) (issues : list Issue) : M LintEnv (list Issue) :=
  s ← gets id;
  t ← GetSysTimeMillisecond now;
  let feature := [34] ++ bytes_of "Without Rowid" ++ [34] in
  mret (issues ++ [MkIssue (GenIssueId (db_file_name_ s) kWithoutRowIdBetterCheckerName table_name) (db_path_ s) kWithoutRowIdBetter kTips
    [] table_name t (bytes_of "Table(" ++ table_name ++ bytes_of ") can use " ++ feature ++ bytes_of " feature to optimize.") []
    (bytes_of "It is recommend to use " ++ feature ++ bytes_of " feature in this table." ++ bytes_of "But also you can run tests to see if the "
      ++ feature ++ bytes_of " helps") [] 0 false]).

Definition check_rowid (t : TableInfo) (issues : list Issue) : M LintEnv (list Issue) :=
  s ← gets id;
  if IsInWhiteList s kWithoutRowIdBetterCheckerName (table_name_ t) then mret issues else
  if contains kWithoutRowIdKeyWord (ToLowerCase (create_sql_ t)) then mret issues else
  if IsWithoutRowIdBetter t then PublishIssue_WithoutRowIdBetter (table_name_ t) issues else mret issues.

Definition Check_WithoutRowIdBetter (issues : list Issue) : M LintEnv (list Issue) :=
  tables ← GetTablesInfo now exec; each_table check_rowid tables issues.

(** ** Prepared statements *)

Definition kContinuityInternalThreshold : Z := 100.
Definition kContinuousCountThreshold : nat := 3.
Definition kSqlCntToSample : Z := 30.

(** Back from [st] while less than [threshold] has passed. *)
Fixpoint look_back (threshold reference : Z) (before : list SqlInfo) (to_check : list SqlInfo) : list SqlInfo :=
  match before with
  | [] => to_check
  | target :: before =>
      if threshold <=? reference - execution_time_ target then to_check
      else look_back threshold reference before (target :: to_check)
  end.

(** Times in milliseconds, kept in 64 bits, have no difference that overflows. *)
Definition HandleTheBoundary (sql_history : list SqlInfo) : list SqlInfo :=
  let st := s32 (Z.of_nat (length sql_history) - kSqlCntToSample) in
  if 0 <? st then
    let n := Z.to_nat st in
    match sql_history !! n with
    | Some reference =>
        look_back (kContinuityInternalThreshold * (Z.of_nat kContinuousCountThreshold - 1)) (execution_time_ reference)
          (reverse (take n sql_history)) (drop n sql_history)
    | None => drop n sql_history
    end
  else sql_history.

(** [std::map]: the keys ascend. *)
Fixpoint add_to_bucket (key : str) (i : SqlInfo) (buckets : list (str * list SqlInfo)) : list (str * list SqlInfo) :=
  match buckets with
  | [] => [(key, [i])]
  | (k, b) :: buckets =>
      if compare key k =? 0 then (k, b ++ [i]) :: buckets
      else if compare key k <? 0 then (key, [i]) :: (k, b) :: buckets
      else (k, b) :: add_to_bucket key i buckets
  end.

Fixpoint MakeGroup (to_check_sqls : list SqlInfo) (buckets : list (str * list SqlInfo)) : list (str * list SqlInfo) :=
  match to_check_sqls with
  | [] => buckets
  | i :: l =>
      if is_prepared_statement_ i then MakeGroup l buckets else
      match key_of i with
      | [] => MakeGroup l buckets
      | statement_sql => MakeGroup l (add_to_bucket statement_sql i buckets)
      end
  end.

(** The difference is stored in an [int]. *)
Definition interval (a b : SqlInfo) : Z := s32 (execution_time_ b - execution_time_ a).
Definition adjacent (a b : SqlInfo) : bool := interval a b <? kContinuityInternalThreshold.

(** [en] is the [end] of the code. *)
Fixpoint scan_loop (fuel : nat) (g : list SqlInfo) (st en : nat) : result (nat * nat) :=
  if (st <? length g)%nat && (en <? length g)%nat then
    match fuel with
    | O => NoFuel
    | S fuel =>
        match g !! (en - 1)%nat, g !! en with
        | Some a, Some b =>
            if adjacent a b then scan_loop fuel g st (S en)
            else if (kContinuousCountThreshold <=? en - st)%nat then Ok (st, en)
            else scan_loop fuel g en (S en)
        | _, _ => Undef
        end
    end
  else Ok (st, en).

Definition ScanCheck (g : list SqlInfo) : result (list SqlInfo) :=
  '(st, en) ← scan_loop (length g) g 0 1;
  Ok (if (kContinuousCountThreshold <=? en - st)%nat then take (en - st) (drop st g) else []).

(** [localtime] and [strftime]. *)
Context (FormatTime : Z -> str).

Definition section_desc (section : list SqlInfo) : str :=
  bytes_of "The following sql executed continuously:" ++ [10]
  ++ concat (map (fun i => FormatTime (Z.quot (execution_time_ i) 1000) ++ bytes_of ":" ++ [10] ++ sql_ i ++ [10; 10]) section).

(** The first key that is not empty. *)
Definition section_identity (section : list SqlInfo) : str :=
  match fold_left (fun identity i => match identity with [] => key_of i | _ => identity end) section [] with
  | [] => section_desc section
  | k => k
  end.

(** The issues and [recently_reported_id]. *)
Definition PublishIssue_PreparedStatement (section : list SqlInfo) (issues : list Issue) (recently_reported_id : str) : M LintEnv (list Issue * str) :=
  s ← gets id;
  let issue_id := GenIssueId (db_file_name_ s) kPreparedStatementBetterCheckerName (section_identity section) in
  t ← GetSysTimeMillisecond now;
  if decide (recently_reported_id = issue_id) then mret (issues, recently_reported_id) else
  mret (issues ++ [MkIssue issue_id (db_path_ s) kPreparedStatementBetter kSuggestion [] [] t (section_desc section) []
    (bytes_of "It is recommended to use SQLiteStatement optimization.") [] 0 false], issue_id).

Fixpoint check_buckets (buckets : list (str * list SqlInfo)) (issues : list Issue) (recent : str) : M LintEnv (list Issue * str) :=
  match buckets with
  | [] => mret (issues, recent)
  | (_, group_sqls) :: buckets =>
      match group_sqls with
      | [] => check_buckets buckets issues recent
      | i :: _ =>
          s ← gets id;
          if IsInWhiteList s kPreparedStatementBetterCheckerName (wildcard_sql_ i)
             || IsInWhiteList s kPreparedStatementBetterCheckerName (sql_ i)
          then check_buckets buckets issues recent else
          section ← raise (ScanCheck group_sqls);
          match section with
          | [] => check_buckets buckets issues recent
          | _ => '(issues, recent) ← PublishIssue_PreparedStatement section issues recent; check_buckets buckets issues recent
          end
      end
  end.

Definition Check_PreparedStatementBetter (issues : list Issue) (recently_reported_id : str) : M LintEnv (list Issue * str) :=
  s ← gets id;
  check_buckets (MakeGroup (HandleTheBoundary (sql_history_ s)) []) issues recently_reported_id.
End Checkers.
End Checkers.

(** * What the checkers report *)

Module CheckersFacts.
Import LintUtil LintEnv Checkers.

(** ** Groups of indexes *)

Definition cols (i : IndexInfo) : list Z := map column_index_ (index_elements_ i).

(** [main] serves every query that [i] serves. *)
Definition covers (main i : IndexInfo) : Prop := cols i `prefix_of` cols main.

Definition members (g : RedundantIndexGroup) : list IndexInfo := main_index_ g :: redundant_indexs_ g.

(** An automatic index gives way to nothing but an automatic index on the same columns. *)
Definition auto_kept (g : RedundantIndexGroup) : Prop :=
  forall i, i ∈ redundant_indexs_ g -> cols i = cols (main_index_ g) -> IsSQLite3AutoIndex (index_name_ i) = true ->
  IsSQLite3AutoIndex (index_name_ (main_index_ g)) = true.

(** What the sorted indexes [l] of a table are divided into. *)
Record Distinct (l : list IndexInfo) (gs : list RedundantIndexGroup) : Prop := MkDistinct {
  d_partition : concat (map members gs) ≡ₚ l;
  d_covered : forall g i, g ∈ gs -> i ∈ redundant_indexs_ g -> covers (main_index_ g) i;
  d_apart : forall a b g h, gs !! a = Some g -> gs !! b = Some h -> a <> b -> ~ covers (main_index_ g) (main_index_ h)
}.

Lemma same_columns_correct c : forall m, same_columns c m = length c <-> map column_index_ c `prefix_of` map column_index_ m.
Proof.
  induction c as [|x c IH]; intros m; cbn.
  - split; [intros; apply prefix_nil|by destruct m].
  - destruct m as [|y m]; cbn; [split; [done|intros E; by apply prefix_nil_not in E]|]. destruct (Z.eqb_spec (column_index_ x) (column_index_ y)) as [E|E].
    + rewrite E. split; [intros [= H]; apply prefix_cons, IH, H|intros H%prefix_cons_inv_2%IH; by rewrite H].
    + split; [done|]. intros H%prefix_cons_inv_1. done.
Qed.

Lemma same_columns_le c : forall m, (same_columns c m <= length c)%nat.
Proof. induction c as [|x c IH]; intros [|y m]; cbn; try lia. destruct (_ =? _); [|lia]. specialize (IH m). lia. Qed.

Lemma covers_length m c : covers m c -> (length (index_elements_ c) <= length (index_elements_ m))%nat.
Proof. intros H%prefix_length. unfold cols in H. by rewrite !length_map in H. Qed.

Lemma covers_same m c : covers m c -> length (index_elements_ c) = length (index_elements_ m) -> cols c = cols m.
Proof. intros H E. apply prefix_length_eq; [done|]. unfold cols. rewrite !length_map. lia. Qed.

(** [auto_inv]: a lock that is set, is set for an automatic index. *)
Definition auto_inv (g : RedundantIndexGroup) : Prop :=
  if main_index_lock_ g then IsSQLite3AutoIndex (index_name_ (main_index_ g)) = true
  else forall i, i ∈ redundant_indexs_ g -> cols i = cols (main_index_ g) -> IsSQLite3AutoIndex (index_name_ i) = false.

Lemma auto_inv_kept g : auto_inv g -> auto_kept g.
Proof. unfold auto_inv, auto_kept. destruct (main_index_lock_ g); [done|]. intros H i Hi E Ha. specialize (H i Hi E). congruence. Qed.

(** One candidate: it joins the group if and only if the main index covers it. *)
Lemma try_add c g : let '(added, g') := Try2AddToGroup c g in
  (added = true <-> covers (main_index_ g) c) /\ cols (main_index_ g') = cols (main_index_ g)
  /\ members g' ≡ₚ (if added : bool then c :: members g else members g) /\ (auto_inv g -> auto_inv g').
Proof.
  unfold Try2AddToGroup. destruct (Nat.ltb_spec (length (index_elements_ (main_index_ g))) (length (index_elements_ c))) as [Hlt|Hge].
  { split_and!; [|done|done|done]. split; [done|]. intros H%covers_length. lia. }
  pose proof (same_columns_correct (index_elements_ c) (index_elements_ (main_index_ g))) as Hs. pose proof (same_columns_le (index_elements_ c) (index_elements_ (main_index_ g))) as Hle.
  change (_ `prefix_of` _) with (covers (main_index_ g) c) in Hs.
  set (add := MkGroup (main_index_ g) (main_index_lock_ g) (redundant_indexs_ g ++ [c])).
  assert (members add ≡ₚ c :: members g) as Hadd by (unfold members, add; cbn; solve_Permutation).
  destruct (Nat.eqb_spec (same_columns (index_elements_ c) (index_elements_ (main_index_ g))) (length (index_elements_ (main_index_ g)))) as [E|E].
  - assert (covers (main_index_ g) c) as Hc by (apply Hs; lia). assert (cols c = cols (main_index_ g)) as Ec by (apply covers_same; [done|lia]).
    destruct (main_index_lock_ g) eqn:El; [split_and!; try done|].
    { unfold auto_inv. cbn. by rewrite El. }
    destruct (IsSQLite3AutoIndex (index_name_ (main_index_ g))) eqn:Em; [split_and!; done|].
    destruct (IsSQLite3AutoIndex (index_name_ c)) eqn:Ea; split_and!; try done; try (unfold members; cbn; solve_Permutation).
    unfold auto_inv. cbn. rewrite El. intros H i Hi. apply elem_of_app in Hi as [Hi|Hi%list_elem_of_singleton]; [by apply H|by subst].
  - destruct (Nat.eqb_spec (same_columns (index_elements_ c) (index_elements_ (main_index_ g))) (length (index_elements_ c))) as [Ec|Ec].
    + assert (covers (main_index_ g) c) as Hc by by apply Hs. split_and!; try done.
      unfold auto_inv. cbn. destruct (main_index_lock_ g); [done|]. intros H i Hi. apply elem_of_app in Hi as [Hi|Hi%list_elem_of_singleton]; [by apply H|subst].
      intros Ei%(f_equal length). unfold cols in Ei. rewrite !length_map in Ei. lia.
    + split_and!; [|done|done|done]. split; [done|]. intros H%Hs. lia.
Qed.

(** The main index covers the others. *)
Definition covering (g : RedundantIndexGroup) : Prop := forall i, i ∈ redundant_indexs_ g -> covers (main_index_ g) i.

Lemma covering_members g : covering g <-> Forall (covers (main_index_ g)) (members g).
Proof. unfold covering, members. rewrite Forall_cons, Forall_forall. split; [intros H; split; [unfold covers; reflexivity|done]|by intros [_ H]]. Qed.

Lemma covering_same g g' l : cols (main_index_ g') = cols (main_index_ g) -> members g' ≡ₚ l ->
  Forall (covers (main_index_ g)) l -> covering g'.
Proof. intros E Hp H. apply covering_members. rewrite Hp. eapply Forall_impl; [done|]. unfold covers. by rewrite E. Qed.

Lemma group_loop_spec l : forall g rest, covering g -> let '(g', rest') := group_loop l g rest in
  cols (main_index_ g') = cols (main_index_ g) /\ covering g' /\ (auto_inv g -> auto_inv g')
  /\ exists l', rest' = (rest ++ l')%list /\ l' `sublist_of` l /\ members g' ++ l' ≡ₚ members g ++ l
    /\ Forall (fun i => ~ covers (main_index_ g) i) l'.
Proof.
  induction l as [|c l IH]; intros g rest Hg; cbn [group_loop].
  { split_and!; try done. exists []. rewrite app_nil_r. split_and!; done || constructor. }
  pose proof (try_add c g) as Ht. destruct (Try2AddToGroup c g) as [added g1]. destruct Ht as (Hadd & E1 & Hp1 & Ha1).
  assert (covering g1) as Hg1.
  { eapply covering_same; [done|exact Hp1|]. apply covering_members in Hg. destruct added; [constructor; [by apply Hadd|done]|done]. }
  specialize (IH g1 (if added then rest else rest ++ [c]) Hg1). destruct (group_loop l g1 _) as [g' rest']. destruct IH as (E & Hc & Ha & l' & -> & Hsub & Hp & Hf).
  assert (Forall (fun i => ~ covers (main_index_ g) i) l') as Hf' by (eapply Forall_impl; [exact Hf|]; unfold covers; by rewrite E1).
  split_and!; [congruence|done|auto|]. destruct added.
  - exists l'. split_and!; [done|by constructor|by rewrite Hp, Hp1, <- Permutation_middle|done].
  - exists (c :: l'). rewrite <- app_assoc. split_and!; [done|by constructor| |].
    + by rewrite <- !Permutation_middle, Hp, Hp1.
    + constructor; [|done]. intros Hcov. by apply Hadd in Hcov.
Qed.

(** Longer indexes come first. *)
Definition by_length (l : list IndexInfo) : Prop :=
  StronglySorted (fun a b => (length (index_elements_ b) <= length (index_elements_ a))%nat) l.

Lemma by_length_sublist l' l : l' `sublist_of` l -> by_length l -> by_length l'.
Proof.
  intros Hs. induction Hs as [|x l' l Hs IH|x l' l Hs IH]; intros H; [constructor| |].
  - apply StronglySorted_inv in H as [H Hx]. constructor; [by apply IH|]. rewrite Forall_forall in Hx |- *. intros y Hy. apply Hx. by eapply sublist_subseteq.
  - apply StronglySorted_inv in H as [H _]. by apply IH.
Qed.

Lemma length_cols i : length (cols i) = length (index_elements_ i).
Proof. unfold cols. apply length_map. Qed.

Section Groups.
Context (held : IndexInfo -> bool).

Lemma make_groups fuel : forall l gs, (length l <= fuel)%nat -> by_length l ->
  exists gs', MakeDistinctGroup held fuel l gs = Ok (gs ++ gs')%list /\ Distinct l gs'
    /\ ((forall i, held i = false) -> Forall auto_kept gs').
Proof.
  induction fuel as [|fuel IH]; intros [|m l] gs Hlen Hl; cbn in Hlen; [|lia| |].
  1,2: exists []; rewrite app_nil_r; split_and!; [done| |by constructor]; split; [done|by intros g i ?%elem_of_nil|by intros].
  cbn [MakeDistinctGroup]. assert (covering (new_group held m)) as H0 by by intros i ?%elem_of_nil.
  pose proof (group_loop_spec l (new_group held m) [] H0) as Hs. destruct (group_loop l _ []) as [g rest].
  destruct Hs as (Em & Hcov & Hauto & l' & -> & Hsub & Hp & Hf). cbn [app] in *. apply StronglySorted_inv in Hl as [Hl Hm].
  destruct (IH l' (gs ++ [g])) as (gs' & E & Hd & Hk); [apply sublist_length in Hsub; lia|by eapply by_length_sublist|].
  exists (g :: gs'). rewrite E, <- app_assoc. split; [done|]. split.
  - destruct Hd as [Hd1 Hd2 Hd3].
    assert (forall h, h ∈ gs' -> ~ covers (main_index_ g) (main_index_ h) /\ ~ covers (main_index_ h) (main_index_ g)) as Hsep.
    { intros h Hh. assert (main_index_ h ∈ l') as Hin.
      { rewrite <- Hd1. apply list_elem_of_In, in_concat. exists (members h). split; [|by left]. apply in_map. by apply list_elem_of_In. }
      rewrite Forall_forall in Hf, Hm. pose proof (Hf _ Hin) as Hn. unfold covers in Hn |- *. rewrite <- Em in Hn. split; [exact Hn|].
      intros Hc. apply Hn. assert (length (cols (main_index_ h)) <= length (cols (main_index_ g)))%nat as Hle.
      { rewrite Em, !length_cols. apply Hm. by eapply sublist_subseteq. }
      by rewrite (prefix_length_eq _ _ Hc Hle). }
    split.
    + cbn [map concat]. rewrite Hd1. cbn in Hp. exact Hp.
    + intros h i Hh. apply elem_of_cons in Hh as [->|Hh]; [apply Hcov|by apply Hd2].
    + intros [|a] [|b] ga gb Ha Hb Hab; cbn in Ha, Hb; [done| | |apply (Hd3 a b ga gb Ha Hb); by intros ->].
      * injection Ha as <-. apply Hsep. by eapply list_elem_of_lookup_2.
      * injection Hb as <-. apply Hsep. by eapply list_elem_of_lookup_2.
  - intros Hh. constructor; [|by apply Hk]. apply auto_inv_kept, Hauto. unfold auto_inv. cbn. rewrite Hh. by intros i ?%elem_of_nil.
Qed.

(** ** The sorted indexes *)

(** The contract of [std::sort]. *)
Definition sorts (std_sort : list IndexInfo -> list IndexInfo) : Prop :=
  forall l, std_sort l ≡ₚ l /\ StronglySorted (fun a b => SortIndex b a = false) (std_sort l).

Lemma SortIndex_length a b : SortIndex b a = false -> (length (index_elements_ b) <= length (index_elements_ a))%nat.
Proof. unfold SortIndex. destruct (Nat.ltb_spec (length (index_elements_ b)) (length (index_elements_ a))); [lia|]. destruct (Nat.ltb_spec (length (index_elements_ a)) (length (index_elements_ b))); [done|lia]. Qed.

Lemma groups_distinct std_sort l : sorts std_sort -> exists gs, groups_of held std_sort l = Ok gs /\ Distinct l gs /\ ((forall i, held i = false) -> Forall auto_kept gs).
Proof.
  intros Hs. destruct (Hs l) as [Hp Hsort]. unfold groups_of. destruct (make_groups (length (std_sort l)) (std_sort l) []) as (gs & E & [H1 H2 H3] & Hk); [done| |].
  - unfold by_length. clear Hp. induction Hsort as [|a l' _ IH Ha]; constructor; [done|]. eapply Forall_impl; [done|]. apply SortIndex_length.
  - exists gs. split; [done|]. split; [|done]. split; [by rewrite H1|done|done].
Qed.
End Groups.

(** ** Loops over the tables *)

Section Tables.
Context `{Ar : Arch}.

(** What an issue says, but for its time and database. *)
Definition issue_text (i : Issue) : IssueType * str * str * str := (issue_type i, table i, desc i, advice i).

(** [adds w P c issues]: with the white list [w], [c] adds issues that satisfy [P]. *)
Definition adds (w : gmap str (gset str)) (P : list Issue -> Prop) (c : list Issue -> M LintEnv (list Issue)) : Prop :=
  forall issues s, white_list_ s = w -> exists new s', c issues s = (Ok (issues ++ new)%list, s') /\ white_list_ s' = w /\ P new.

Definition listed (w : gmap str (gset str)) (name target : str) : bool :=
  match w !! name with None => false | Some l => bool_decide (ToLowerCase target ∈ l) end.

Lemma adds_none w (P : list Issue -> Prop) : P [] -> adds w P (fun issues => mret issues).
Proof. intros HP issues s Hw. exists [], s. by rewrite app_nil_r. Qed.

Lemma adds_mono w (P Q : list Issue -> Prop) c : (forall l, P l -> Q l) -> adds w P c -> adds w Q c.
Proof. intros H Hc issues s Hw. destruct (Hc issues s Hw) as (new & s' & E & Hw' & HP). exists new, s'. auto. Qed.

Lemma adds_seq w (P Q R : list Issue -> Prop) c d : adds w P c -> adds w Q d -> (forall a b, P a -> Q b -> R (a ++ b)%list) ->
  adds w R (fun issues => c issues ≫= d).
Proof.
  intros Hc Hd HR issues s Hw. destruct (Hc issues s Hw) as (a & s1 & E & Hw1 & Ha). rewrite (M_bind_run _ _ _ _ _ E).
  destruct (Hd (issues ++ a)%list s1 Hw1) as (b & s2 & -> & Hw2 & Hb). exists (a ++ b)%list, s2. rewrite <- app_assoc. auto.
Qed.

(** A test of the white list. *)
Lemma adds_listed w (P : list Issue -> Prop) name target c d :
  (listed w name target = true -> adds w P c) -> (listed w name target = false -> adds w P d) ->
  adds w P (fun issues => s ← gets id; if IsInWhiteList s name target then c issues else d issues).
Proof.
  intros Hc Hd issues s Hw. assert (IsInWhiteList s name target = listed w name target) as E by (unfold IsInWhiteList, listed; by rewrite Hw).
  unfold mbind, M_bind, gets. cbn [id]. rewrite E. destruct (listed w name target); [by apply Hc|by apply Hd].
Qed.

(** Publishing: one issue with the text it is given. *)
Lemma adds_issue now w (mk : LintEnv -> Z -> Issue) P : (forall s t, white_list_ s = w -> P [mk s t]) ->
  adds w P (fun issues => s ← gets id; t ← GetSysTimeMillisecond now; mret (issues ++ [mk s t])).
Proof. intros HP issues s Hw. exists [mk s (Z.quot (now (clock s)) 1000)], (set_clock (S (clock s)) s). auto. Qed.

Lemma adds_tables w (P : TableInfo -> list Issue -> Prop) body tables : (forall t, t ∈ tables -> adds w (P t) (body t)) ->
  adds w (fun new => exists news, new = concat news /\ Forall2 P tables news) (each_table body tables).
Proof.
  induction tables as [|t tables IH]; intros H.
  - apply adds_none. by exists [].
  - eapply (adds_seq w (P t) _ _ (body t)); [apply H; left|apply IH; intros t' Ht; apply H; by right|].
    intros a b Ha (news & -> & Hn). exists (a :: news). split; [done|by constructor].
Qed.

Lemma run_tables now exec w (P : TableInfo -> list Issue -> Prop) body tables s s1 issues :
  GetTablesInfo now exec s = (Ok tables, s1) -> white_list_ s1 = w -> (forall t, t ∈ tables -> adds w (P t) (body t)) ->
  exists news s', (tables ← GetTablesInfo now exec; each_table body tables issues) s = (Ok (issues ++ concat news)%list, s') /\ Forall2 P tables news.
Proof.
  intros E Hw H. rewrite (M_bind_run _ _ _ _ _ E). destruct (adds_tables w P body tables H issues s1 Hw) as (new & s' & E' & _ & news & -> & Hn).
  by exists news, s'.
Qed.

Definition redundant_text (name : str) (g : RedundantIndexGroup) : IssueType * str * str * str :=
  (kRedundantIndex, name, redundant_desc name g, redundant_advice g).

Definition has_redundant (g : RedundantIndexGroup) : Prop := redundant_indexs_ g <> [].

#[export] Instance has_redundant_dec g : Decision (has_redundant g).
Proof. unfold has_redundant. destruct (redundant_indexs_ g); [right|left]; auto. Defined.

Lemma HasRedundant_correct g : HasRedundantIndexs g = bool_decide (has_redundant g).
Proof. unfold HasRedundantIndexs. rewrite <- bool_decide_not. apply bool_decide_ext. unfold has_redundant. by destruct (redundant_indexs_ g). Qed.

Lemma publish_groups_adds now w name gs :
  adds w (fun new => map issue_text new = map (redundant_text name) (filter has_redundant gs)) (publish_groups now name gs).
Proof.
  induction gs as [|g gs IH]; [by apply adds_none|].
  apply (adds_seq w (fun new => map issue_text new = map (redundant_text name) (filter has_redundant [g]))
    (fun new => map issue_text new = map (redundant_text name) (filter has_redundant gs)) _
    (fun issues => if HasRedundantIndexs g then PublishIssue_RedundantIndex now name g issues else mret issues) _); [|exact IH|].
  - rewrite HasRedundant_correct, filter_cons. destruct (decide (has_redundant g)) as [Hg|Hg].
    + rewrite bool_decide_true by done. by apply (adds_issue now w (fun s t => _)).
    + rewrite bool_decide_false by done. by apply adds_none.
  - intros a b Ha Hb. change (g :: gs) with ([g] ++ gs)%list. by rewrite map_app, filter_app, map_app, Ha, Hb.
Qed.

(** What is reported of a table [t]. *)
Definition redundancy_of (held : IndexInfo -> bool) (w : gmap str (gset str)) (t : TableInfo) (new : list Issue) : Prop :=
  if listed w kRedundantIndexCheckerName (table_name_ t) then new = []
  else exists gs, Distinct (indexs_ t) gs /\ ((forall i, held i = false) -> Forall auto_kept gs)
    /\ map issue_text new = map (redundant_text (table_name_ t)) (filter has_redundant gs).


End Tables.

(** A sorting function, and the indexes of two tables. *)
Definition before (a b : IndexInfo) : Prop := SortIndex b a = false.

#[export] Instance before_dec : RelDecision before.
Proof. intros a b. unfold before. apply _. Defined.

Lemma before_cases a b : before a b <-> (length (index_elements_ b) < length (index_elements_ a))%nat
  \/ length (index_elements_ a) = length (index_elements_ b) /\ seq_ b <= seq_ a.
Proof.
  unfold before, SortIndex. destruct (Nat.ltb_spec (length (index_elements_ b)) (length (index_elements_ a))), (Nat.ltb_spec (length (index_elements_ a)) (length (index_elements_ b))); rewrite ?Z.ltb_ge; lia.
Qed.

#[export] Instance before_trans : Transitive before.
Proof. intros a b c. rewrite !before_cases. lia. Qed.

#[export] Instance before_total : Total before.
Proof. intros a b. rewrite !before_cases. lia. Qed.

Lemma merge_sort_sorts : sorts (merge_sort before).
Proof. intros l. split; [apply merge_sort_Permutation|]. apply (StronglySorted_merge_sort before). Qed.

Definition index_on (seq : Z) (name : string) (columns : list Z) : IndexInfo :=
  MkIndex seq (bytes_of name) (imap (fun i c => MkElement (Z.of_nat i) c [97 + c]) columns) false.

Definition two_tables : list TableInfo :=
  [MkTable (bytes_of "t") (bytes_of "CREATE TABLE t(a UNIQUE, b)") []
     [index_on 2 "ab" [0; 1]; index_on 1 "a2" [0]; index_on 0 "b" [1]];
   MkTable (bytes_of "u") (bytes_of "CREATE TABLE u(a, b, UNIQUE(a, b))") []
     [index_on 1 "u_ab" [0; 1]; index_on 0 "sqlite_autoindex_u_1" [0; 1]]].

Definition loaded (tables : list TableInfo) : LintEnv := set_tables tables (new_env (bytes_of "/data/app.db")).


(** What the issues of the two tables advise to keep, and what they list, by the lock of new groups. *)
Definition kept (lock : bool) (indexs : list IndexInfo) : result (list (str * list str)) :=
  gs ← groups_of (fun _ => lock) (merge_sort before) indexs;
  Ok (map (fun g => (index_name_ (main_index_ g), map index_name_ (redundant_indexs_ g))) gs).

Example groups_of_t : kept false (indexs_ (nth 0 two_tables (MkTable [] [] [] []))) =
  Ok [(bytes_of "ab", [bytes_of "a2"]); (bytes_of "b", [])].
Proof. vm_compute. reflexivity. Qed.

(** With a lock that reads as true, an automatic index is advised to be deleted. *)
Example auto_index_lost :
  kept false (indexs_ (nth 1 two_tables (MkTable [] [] [] []))) = Ok [(bytes_of "sqlite_autoindex_u_1", [bytes_of "u_ab"])]
  /\ kept true (indexs_ (nth 1 two_tables (MkTable [] [] [] []))) = Ok [(bytes_of "u_ab", [bytes_of "sqlite_autoindex_u_1"])].
Proof. vm_compute. done. Qed.

(** An index that makes a column unique is found redundant: [is_unique_] is not looked at. *)
Example unique_index_redundant :
  kept false [MkIndex 0 (bytes_of "unique_a") [MkElement 0 0 [97]] true; index_on 1 "ab" [0; 1]] = Ok [(bytes_of "ab", [bytes_of "unique_a"])].
Proof. vm_compute. reflexivity. Qed.

(** ** The other checkers of tables *)

Section OtherTables.
Context `{Ar : Arch}.

Definition is_large (c : ColumnInfo) : bool :=
  (CompareIgnoreCase (type_ c) (bytes_of "text") =? 0) || (CompareIgnoreCase (type_ c) (bytes_of "blob") =? 0).

Definition is_integer (c : ColumnInfo) : bool := CompareIgnoreCase (type_ c) (bytes_of "integer") =? 0.

Definition primary (t : TableInfo) : list ColumnInfo := filter (fun c => is_primary_key_ c = true) (columns_ t).

Lemma rowid_loop_correct l : forall cnt integer,
  match rowid_loop l cnt integer with
  | (_, _, true) => exists c, c ∈ l /\ is_primary_key_ c = false /\ is_large c = true
  | (cnt', integer', false) =>
      (forall c, c ∈ l -> is_primary_key_ c = false -> is_large c = false)
      /\ cnt' = cnt + Z.of_nat (length (filter (fun c => is_primary_key_ c = true) l))
      /\ integer' = integer || existsb is_integer (filter (fun c => is_primary_key_ c = true) l)
  end.
Proof.
  induction l as [|c l IH]; intros cnt integer; cbn [rowid_loop].
  { split_and!; [by intros c ?%elem_of_nil|cbn; lia|by rewrite orb_false_r]. }
  destruct (is_primary_key_ c) eqn:Ep.
  - rewrite filter_cons_True by done. specialize (IH (cnt + 1) (if CompareIgnoreCase (type_ c) (bytes_of "integer") =? 0 then true else integer)).
    destruct (rowid_loop l _ _) as [[cnt' integer'] []].
    + destruct IH as (d & Hd & H). exists d. split; [by right|done].
    + destruct IH as (H & -> & ->). split_and!.
      * intros d [->|Hd]%elem_of_cons; [congruence|by apply H].
      * cbn [length]. lia.
      * cbn [existsb]. change (CompareIgnoreCase (type_ c) (bytes_of "integer") =? 0) with (is_integer c). by destruct (is_integer c), integer.
  - rewrite filter_cons_False by congruence. fold (is_large c). destruct (is_large c) eqn:El.
    + exists c. split; [left|done].
    + specialize (IH cnt integer). destruct (rowid_loop l cnt integer) as [[cnt' integer'] []].
      * destruct IH as (d & Hd & H). exists d. split; [by right|done].
      * destruct IH as (H & E1 & E2). split_and!; [|done|done]. intros d [->|Hd]%elem_of_cons; [done|by apply H].
Qed.

(** The two conditions of the header of the checker. *)
Lemma without_rowid_correct t : IsWithoutRowIdBetter t = true <->
  (forall c, c ∈ columns_ t -> is_primary_key_ c = false -> is_large c = false)
  /\ ((1 < length (primary t))%nat \/ length (primary t) = 1%nat /\ existsb is_integer (primary t) = false).
Proof.
  unfold IsWithoutRowIdBetter, primary. pose proof (rowid_loop_correct (columns_ t) 0 false) as H. destruct (rowid_loop _ _ _) as [[cnt integer] []]; cbn [negb andb].
  - destruct H as (c & Hc & Hp & Hl). split; [done|]. intros [H _]. specialize (H c Hc Hp). congruence.
  - destruct H as (H & -> & ->). rewrite orb_true_iff, andb_true_iff, negb_true_iff, Z.eqb_eq, Z.ltb_lt. cbn [orb]. intuition lia.
Qed.

Lemma rowid_reported now exec tables s s1 issues :
  GetTablesInfo now exec s = (Ok tables, s1) ->
  exists news s', Check_WithoutRowIdBetter now exec issues s = (Ok (issues ++ concat news)%list, s')
    /\ Forall2 (fun t new => map table new =
         if listed (white_list_ s1) kWithoutRowIdBetterCheckerName (table_name_ t) || contains kWithoutRowIdKeyWord (ToLowerCase (create_sql_ t))
            || negb (IsWithoutRowIdBetter t) then [] else [table_name_ t]) tables news.
Proof.
  intros E. apply (run_tables now exec _ _ (check_rowid now) tables s s1 issues E eq_refl). intros t _.
  apply adds_listed; intros El; rewrite El; cbn [orb]; [by apply adds_none|]. destruct (contains _ _); [by apply adds_none|].
  destruct (IsWithoutRowIdBetter t); [|by apply adds_none]. by apply (adds_issue now _ (fun s t => _)).
Qed.

Lemma auto_increment_reported now exec tables s s1 issues :
  GetTablesInfo now exec s = (Ok tables, s1) ->
  exists news s', Check_AvoidAutoIncrement now exec issues s = (Ok (issues ++ concat news)%list, s')
    /\ Forall2 (fun t new => map table new =
         if listed (white_list_ s1) kAvoidAutoIncrementCheckerName (table_name_ t) || negb (contains kAutoIncrementKeyWord (ToLowerCase (create_sql_ t)))
         then [] else [table_name_ t]) tables news.
Proof.
  intros E. apply (run_tables now exec _ _ (check_auto_increment now) tables s s1 issues E eq_refl). intros t _.
  apply adds_listed; intros El; rewrite El; cbn [orb]; [by apply adds_none|]. destruct (contains _ _); [|by apply adds_none].
  by apply (adds_issue now _ (fun s t => _)).
Qed.
End OtherTables.

(** ** Repeated statements *)

(** The executions divided where an interval is too long. *)
Fixpoint runs (g : list SqlInfo) : list (list SqlInfo) :=
  match g with
  | [] => []
  | x :: g =>
      match runs g with
      | (y :: r) :: rs => if adjacent x y then (x :: y :: r) :: rs else [x] :: (y :: r) :: rs
      | rs => [x] :: rs
      end
  end.

Definition long (r : list SqlInfo) : bool := (kContinuousCountThreshold <=? length r)%nat.

(** Short intervals from [x] through [l]. *)
Fixpoint chain (x : SqlInfo) (l : list SqlInfo) : bool :=
  match l with [] => true | y :: l => adjacent x y && chain y l end.

Definition chained (r : list SqlInfo) : Prop := match r with [] => False | x :: l => chain x l = true end.

(** [rs] are the longest stretches of [g] without a long interval. *)
Record Runs (g : list SqlInfo) (rs : list (list SqlInfo)) : Prop := MkRuns {
  runs_concat : concat rs = g;
  runs_chained : Forall chained rs;
  runs_apart : forall i r r' a b, rs !! i = Some r -> rs !! S i = Some r' -> last r = Some a -> head r' = Some b -> adjacent a b = false
}.

Lemma runs_head y g : exists r rs, runs (y :: g) = (y :: r) :: rs.
Proof. cbn [runs]. destruct (runs g) as [|[|z r] rs]; [by eexists _, _|by eexists _, _|]. destruct (adjacent y z); by eexists _, _. Qed.

Lemma runs_correct g : Runs g (runs g).
Proof.
  induction g as [|x g [Hc Hf Ha]]; [by split|]. destruct g as [|y g].
  - split; [done|by repeat constructor|]. by intros [|i] r r' a b.
  - destruct (runs_head y g) as (r & rs & E). rewrite E in Hc, Hf, Ha. cbn [runs] in E |- *. rewrite E.
    apply Forall_cons in Hf as [Hr Hf]. destruct (adjacent x y) eqn:Exy.
    + split.
      * cbn in Hc |- *. by rewrite Hc.
      * constructor; [|done]. cbn in Hr |- *. by rewrite Exy.
      * intros [|i] r1 r2 a b H1 H2; cbn in H1, H2.
        -- injection H1 as <-. rewrite last_cons_cons. by apply (Ha 0%nat).
        -- by apply (Ha (S i)).
    + split.
      * cbn in Hc |- *. by rewrite Hc.
      * by repeat constructor.
      * intros [|i] r1 r2 a b H1 H2; cbn in H1, H2; [|by apply (Ha i)].
        injection H1 as <-. injection H2 as <-. by intros [= <-] [= <-].
Qed.

(** A chain in front of the rest is a run, if the interval behind it is long. *)
Lemma runs_split l : forall x y g, chain x l = true -> adjacent (default x (last l)) y = false ->
  runs ((x :: l) ++ y :: g) = (x :: l) :: runs (y :: g).
Proof.
  induction l as [|z l IH]; intros x y g Hc Hl.
  - cbn in Hl. destruct (runs_head y g) as (r & rs & E). cbn [app]. change (runs (x :: y :: g)) with
      (match runs (y :: g) with (y :: r) :: rs => if adjacent x y then (x :: y :: r) :: rs else [x] :: (y :: r) :: rs | rs => [x] :: rs end).
    by rewrite E, Hl.
  - cbn in Hc. apply andb_true_iff in Hc as [Hz Hc].
    assert (adjacent (default z (last l)) y = false) as Hl' by (rewrite last_cons in Hl; by destruct (last l)).
    specialize (IH z y g Hc Hl'). cbn [app] in IH |- *. change (runs (x :: z :: l ++ y :: g)) with
      (match runs (z :: l ++ y :: g) with (y :: r) :: rs => if adjacent x y then (x :: y :: r) :: rs else [x] :: (y :: r) :: rs | rs => [x] :: rs end).
    by rewrite IH, Hz.
Qed.

Lemma runs_chain l : forall x, chain x l = true -> runs (x :: l) = [x :: l].
Proof.
  induction l as [|z l IH]; intros x Hc; [done|]. cbn in Hc. apply andb_true_iff in Hc as [Hz Hc].
  change (runs (x :: z :: l)) with
    (match runs (z :: l) with (y :: r) :: rs => if adjacent x y then (x :: y :: r) :: rs else [x] :: (y :: r) :: rs | rs => [x] :: rs end).
  by rewrite IH, Hz.
Qed.

Lemma chain_snoc l : forall x y, chain x (l ++ [y]) = chain x l && adjacent (default x (last l)) y.
Proof.
  induction l as [|z l IH]; intros x y; [by rewrite andb_comm|]. cbn [app chain]. rewrite IH, andb_assoc. f_equal. f_equal.
  rewrite last_cons. by destruct (last l).
Qed.

(** The section between [st] and [en]. *)
Definition section_at (g : list SqlInfo) (p : nat * nat) : list SqlInfo :=
  if (kContinuousCountThreshold <=? p.2 - p.1)%nat then take (p.2 - p.1) (drop p.1 g) else [].

Definition first_long (g : list SqlInfo) : list SqlInfo := default [] (List.find long (runs g)).

Lemma scan_correct rest : forall fuel pre x l g, g = (pre ++ (x :: l) ++ rest)%list -> chain x l = true -> (length rest <= fuel)%nat ->
  exists p, scan_loop fuel g (length pre) (length pre + S (length l)) = Ok p /\ section_at g p = first_long ((x :: l) ++ rest).
Proof.
  induction rest as [|y rest IH]; intros fuel pre x l g -> Hc Hf.
  - assert (forall f, scan_loop f (pre ++ (x :: l) ++ []) (length pre) (length pre + S (length l)) = Ok (length pre, (length pre + S (length l))%nat)) as ->.
    { assert ((length pre + S (length l) <? length (pre ++ (x :: l) ++ []))%nat = false) as Hen by (apply Nat.ltb_ge; rewrite !length_app; cbn; lia).
      intros []; cbn [scan_loop]; by rewrite Hen, andb_false_r. }
    eexists. split; [done|]. rewrite app_nil_r. unfold section_at, first_long. rewrite runs_chain by done. cbn [fst snd List.find]. unfold long.
    replace (length pre + S (length l) - length pre)%nat with (length (x :: l)) by (cbn; lia).
    destruct (_ <=? _)%nat; [|done]. by rewrite drop_app_length, take_ge.
  - destruct fuel as [|fuel]; [cbn in Hf; lia|]. cbn [scan_loop].
    assert (((length pre <? length (pre ++ (x :: l) ++ y :: rest)) && (length pre + S (length l) <? length (pre ++ (x :: l) ++ y :: rest)))%nat = true) as ->
      by (rewrite andb_true_iff, !Nat.ltb_lt, !length_app; cbn [length]; lia).
    assert ((pre ++ (x :: l) ++ y :: rest) !! (length pre + S (length l))%nat = Some y) as ->.
    { rewrite app_assoc, lookup_app_r by (rewrite length_app; cbn; lia). rewrite length_app. cbn [length]. by rewrite Nat.sub_diag. }
    assert ((pre ++ (x :: l) ++ y :: rest) !! (length pre + S (length l) - 1)%nat = Some (default x (last l))) as ->.
    { rewrite lookup_app_r by lia. rewrite lookup_app_l by (cbn; lia). replace (length pre + S (length l) - 1 - length pre)%nat with (length l) by lia.
      change (length l) with (pred (length (x :: l))). rewrite <- last_lookup, last_cons. by destruct (last l). }
    destruct (adjacent (default x (last l)) y) eqn:Ea.
    + destruct (IH fuel pre x (l ++ [y]) (pre ++ (x :: l) ++ y :: rest)) as (p & E & Ep).
      * cbn [app]. by rewrite <- app_assoc.
      * by rewrite chain_snoc, Hc, Ea.
      * cbn in Hf. lia.
      * rewrite length_app, Nat.add_1_r, Nat.add_succ_r in E. exists p. split; [done|]. rewrite Ep. cbn [app]. by rewrite <- app_assoc.
    + unfold first_long. rewrite runs_split by done. cbn [List.find]. unfold long at 1.
      replace (length pre + S (length l) - length pre)%nat with (length (x :: l)) by (cbn; lia).
      destruct (_ <=? length (x :: l))%nat eqn:El.
      * eexists. split; [done|]. unfold section_at. cbn [fst snd]. replace (length pre + S (length l) - length pre)%nat with (length (x :: l)) by (cbn; lia).
        rewrite El. by rewrite drop_app_length, take_app_length.
      * destruct (IH fuel (pre ++ x :: l) y [] (pre ++ (x :: l) ++ y :: rest)) as (p & E & Ep); [by rewrite <- app_assoc|done|cbn in Hf; lia|].
        rewrite length_app in E. cbn [length] in E. rewrite Nat.add_1_r in E. by exists p.
Qed.

(** The section of [ScanCheck] is the first run that is long enough. *)
Lemma ScanCheck_correct x l : ScanCheck (x :: l) = Ok (first_long (x :: l)).
Proof.
  unfold ScanCheck. destruct (scan_correct l (length (x :: l)) [] x [] (x :: l)) as ([st en] & E & Ep); [done|done|cbn; lia|].
  cbn [length Nat.add] in E |- *. rewrite E. cbn [mbind result_bind]. f_equal. exact Ep.
Qed.

(** ** Statements by key *)

Lemma compare_flip a : forall b, compare a b < 0 <-> 0 < compare b a.
Proof.
  induction a as [|c a IH]; intros [|d b]; cbn; try lia. rewrite (Z.eqb_sym d c). destruct (Z.eqb_spec c d) as [->|H]; [apply IH|].
  destruct (Z.ltb_spec c d), (Z.ltb_spec d c); lia.
Qed.

Lemma compare_trans a : forall b c, compare a b < 0 -> compare b c < 0 -> compare a c < 0.
Proof.
  induction a as [|x a IH]; intros [|y b] [|z c]; cbn; try lia.
  destruct (Z.eqb_spec x y), (Z.eqb_spec y z), (Z.eqb_spec x z), (Z.ltb_spec x y), (Z.ltb_spec y z), (Z.ltb_spec x z); try lia. apply IH.
Qed.

Definition less (a b : str) : Prop := compare a b < 0.

Abbreviation buckets := (list (str * list SqlInfo)).

Definition ascending (bs : buckets) : Prop := StronglySorted less (map fst bs).

Lemma ascending_nodup bs : ascending bs -> NoDup (map fst bs).
Proof.
  unfold ascending. induction 1 as [|k l _ IH Hk]; [constructor|]. apply NoDup_cons. split; [|done]. intros Hin.
  rewrite Forall_forall in Hk. specialize (Hk k Hin). unfold less in Hk. rewrite (proj2 (compare_eq k k) eq_refl) in Hk. lia.
Qed.

Lemma add_to_bucket_keys key i bs k : k ∈ map fst (add_to_bucket key i bs) -> k = key \/ k ∈ map fst bs.
Proof.
  induction bs as [|[k' b] bs IH]; cbn; [set_solver|]. destruct (_ =? _); [set_solver|]. destruct (_ <? _); cbn; [set_solver|].
  intros [->|H]%elem_of_cons; [right; left|]. destruct (IH H); [by left|right; by right].
Qed.

(** [operator[]] and [push_back]. *)
Lemma add_to_bucket_correct key i bs : ascending bs ->
  ascending (add_to_bucket key i bs)
  /\ forall k, (list_to_map (add_to_bucket key i bs) : gmap str (list SqlInfo)) !! k
       = if decide (k = key) then Some (default [] ((list_to_map bs : gmap str (list SqlInfo)) !! key) ++ [i])%list
         else (list_to_map bs : gmap str (list SqlInfo)) !! k.
Proof.
  unfold ascending. induction bs as [|[k0 b] bs IH]; cbn [add_to_bucket map fst]; intros Hs.
  { split; [by repeat constructor|]. intros k. cbn. destruct (decide (k = key)) as [->|Hk]; [by rewrite lookup_insert_eq|by rewrite lookup_insert_ne]. }
  apply StronglySorted_inv in Hs as [Hs Hk0]. destruct (IH Hs) as [IHs IHl]. destruct (Z.eqb_spec (compare key k0) 0) as [E%compare_eq|Hne].
  { subst k0. split; [by constructor|]. intros k. cbn. rewrite lookup_insert_eq. cbn.
    destruct (decide (k = key)) as [->|Hk]; [by rewrite lookup_insert_eq|by rewrite !lookup_insert_ne]. }
  assert (key <> k0) as Hkey by (intros ->; by rewrite (proj2 (compare_eq k0 k0) eq_refl) in Hne).
  destruct (Z.ltb_spec (compare key k0) 0) as [Hlt|Hgt].
  - assert (Forall (less key) (k0 :: map fst bs)) as Hall by (constructor; [done|]; eapply Forall_impl; [exact Hk0|]; intros k; by apply compare_trans).
    split; [cbn; constructor; [by constructor|done]|]. intros k. assert ((list_to_map ((k0, b) :: bs) : gmap str (list SqlInfo)) !! key = None) as En.
    { apply not_elem_of_list_to_map_1. intros Hin. rewrite Forall_forall in Hall. specialize (Hall key Hin). unfold less in Hall.
      rewrite (proj2 (compare_eq key key) eq_refl) in Hall. lia. }
    rewrite En. cbn [list_to_map foldr uncurry fst snd default app]. destruct (decide (k = key)) as [->|Hk]; [by rewrite lookup_insert_eq|by rewrite lookup_insert_ne].
  - split.
    + cbn. constructor; [done|]. apply Forall_forall. intros k Hk. apply add_to_bucket_keys in Hk as [->|Hk]; [apply compare_flip; lia|by apply (proj1 (Forall_forall _ _) Hk0)].
    + intros k. cbn. rewrite (lookup_insert_ne (list_to_map bs) k0 key) by done. destruct (decide (k = k0)) as [->|Hk].
      * rewrite !lookup_insert_eq. by rewrite decide_False.
      * rewrite !lookup_insert_ne by done. apply IHl.
Qed.

(** The statements that count for the key [k]. *)
Definition of_key (k : str) (i : SqlInfo) : bool := negb (is_prepared_statement_ i) && bool_decide (key_of i = k).

Definition with_key (k : str) (l : list SqlInfo) : list SqlInfo := List.filter (of_key k) l.

Lemma MakeGroup_correct l : forall bs, ascending bs ->
  ascending (MakeGroup l bs)
  /\ forall k, (list_to_map (MakeGroup l bs) : gmap str (list SqlInfo)) !! k =
       match k, with_key k l with
       | _ :: _, (_ :: _) as f => Some (default [] ((list_to_map bs : gmap str (list SqlInfo)) !! k) ++ f)%list
       | _, _ => (list_to_map bs : gmap str (list SqlInfo)) !! k
       end.
Proof.
  induction l as [|i l IH]; intros bs Hs; [split; [done|by intros []]|]. cbn [MakeGroup with_key List.filter]. unfold of_key at 1.
  destruct (is_prepared_statement_ i); [exact (IH bs Hs)|]. cbn [negb andb]. destruct (key_of i) as [|x key] eqn:E.
  { destruct (IH bs Hs) as [H1 H2]. split; [done|]. intros [|c k]; [exact (H2 [])|]. rewrite bool_decide_false by done. exact (H2 (c :: k)). }
  destruct (add_to_bucket_correct (x :: key) i bs Hs) as [Hs1 Hl1]. destruct (IH _ Hs1) as [H1 H2]. split; [done|]. intros k. rewrite H2, Hl1. fold (with_key k l).
  destruct (decide (k = x :: key)) as [->|Hk].
  - rewrite bool_decide_true by done. fold (with_key (x :: key) l). destruct (with_key (x :: key) l); [done|]. cbn. by rewrite <- app_assoc.
  - destruct k as [|c k]; [done|]. by rewrite bool_decide_false by congruence.
Qed.

(** Each key with its executions, in ascending order of keys. *)
Record Buckets (l : list SqlInfo) (bs : buckets) : Prop := MkBuckets {
  b_ascending : ascending bs;
  b_lookup : forall k b, (k, b) ∈ bs <-> k <> [] /\ b <> [] /\ b = with_key k l
}.

Lemma MakeGroup_buckets l : Buckets l (MakeGroup l []).
Proof.
  destruct (MakeGroup_correct l []) as [Hs Hl]; [constructor|]. split; [done|]. intros k b.
  rewrite (elem_of_list_to_map (M := gmap str)) by by apply ascending_nodup. rewrite Hl. destruct k as [|c k]; [naive_solver|].
  destruct (with_key (c :: k) l) as [|i f] eqn:E; naive_solver.
Qed.

(** ** The executions that are looked at *)

Lemma look_back_correct th ref b : forall acc, exists n,
  look_back th ref b acc = (reverse (take n b) ++ acc)%list /\ Forall (fun i => ref - execution_time_ i < th) (take n b)
  /\ forall i, b !! n = Some i -> th <= ref - execution_time_ i.
Proof.
  induction b as [|x b IH]; intros acc; cbn [look_back]; [by exists 0%nat|]. destruct (Z.leb_spec th (ref - execution_time_ x)) as [Hle|Hlt].
  - exists 0%nat. split_and!; [done|constructor|]. by intros i [= <-].
  - destruct (IH (x :: acc)) as (n & E & Hf & Hn). exists (S n). cbn [take]. rewrite reverse_cons, <- app_assoc. split_and!; [done|by constructor|exact Hn].
Qed.

(** The last executions, from the [k]th on, of a history [h]: the last thirty, and those before them within 200 milliseconds. *)
Definition recent_from (h : list SqlInfo) (k : nat) : Prop :=
  let n := (length h - 30)%nat in
  (k <= n)%nat /\ (n = 0%nat \/ exists ref, h !! n = Some ref
    /\ (forall j i, (k <= j < n)%nat -> h !! j = Some i -> execution_time_ ref - execution_time_ i < 200)
    /\ (forall i, (0 < k)%nat -> h !! (k - 1)%nat = Some i -> 200 <= execution_time_ ref - execution_time_ i)).

Lemma reverse_take_drop {A} (l : list A) n : (n <= length l)%nat -> reverse (take n (reverse l)) = drop (length l - n) l.
Proof. intros H. rewrite take_reverse, reverse_involutive. done. Qed.

Lemma boundary_correct h : Z.of_nat (length h) < 2 ^ 31 -> exists k, HandleTheBoundary h = drop k h /\ recent_from h k.
Proof.
  intros Hlen. unfold HandleTheBoundary, kSqlCntToSample. assert (s32 (Z.of_nat (length h) - 30) = Z.of_nat (length h) - 30) as -> by (unfold swrap; rewrite Z.mod_small; lia).
  destruct (Z.ltb_spec 0 (Z.of_nat (length h) - 30)) as [Hpos|Hneg].
  2: { exists 0%nat. split; [done|]. split; [lia|]. left. lia. }
  replace (Z.to_nat (Z.of_nat (length h) - 30)) with (length h - 30)%nat by lia. set (n := (length h - 30)%nat).
  destruct (lookup_lt_is_Some_2 h n) as [ref Eref]; [lia|]. rewrite Eref.
  destruct (look_back_correct (kContinuityInternalThreshold * (Z.of_nat kContinuousCountThreshold - 1)) (execution_time_ ref) (reverse (take n h)) (drop n h)) as (m & E & Hf & Hm).
  change (_ * (_ - 1)) with 200 in *. rewrite E. assert (length (take n h) = n) as Hn by (rewrite length_take; lia).
  exists (n - m)%nat. rewrite Forall_forall in Hf. split; [|split; [lia|right; exists ref; split_and!; [done| |]]].
  - destruct (decide (m <= n)%nat) as [Hmn|Hmn].
    + rewrite reverse_take_drop, Hn by lia. transitivity (drop (n - m) (take n h ++ drop n h)); [by rewrite drop_app_le by lia|by rewrite take_drop].
    + rewrite take_ge by (rewrite length_reverse; lia). rewrite reverse_involutive, take_drop. by replace (n - m)%nat with 0%nat by lia.
  - intros j i Hj Hi. apply Hf. apply list_elem_of_lookup. exists (n - 1 - j)%nat. rewrite lookup_take_lt by lia.
    rewrite reverse_lookup by lia. rewrite Hn. rewrite lookup_take_lt by lia. by replace (n - S (n - 1 - j))%nat with j by lia.
  - intros i Hk Hi. apply Hm. rewrite reverse_lookup by lia. rewrite Hn, lookup_take_lt by lia. by replace (n - S m)%nat with (n - m - 1)%nat by lia.
Qed.

(** ** What is reported *)

Section Repeated.
Context `{Ar : Arch} (now : nat -> Z) (FormatTime : Z -> str).

(** The section of a bucket, unless its statement is in the white list. *)
Definition bucket_section (w : gmap str (gset str)) (b : list SqlInfo) : list SqlInfo :=
  match b with
  | [] => []
  | i :: _ =>
      if listed w kPreparedStatementBetterCheckerName (wildcard_sql_ i) || listed w kPreparedStatementBetterCheckerName (sql_ i)
      then [] else first_long b
  end.

Definition sections (w : gmap str (gset str)) (bs : buckets) : list (list SqlInfo) :=
  List.filter (fun r => negb (bool_decide (length r = 0)%nat)) (map (fun p => bucket_section w p.2) bs).

(** The identifier and the text of an issue. *)
Definition section_key (db_file : str) (r : list SqlInfo) : str * str :=
  (GenIssueId db_file kPreparedStatementBetterCheckerName (section_identity FormatTime r), section_desc FormatTime r).

(** An issue is skipped where the issue reported last has the same identifier. *)
Fixpoint unreported (recent : str) (l : list (str * str)) : list (str * str) :=
  match l with [] => [] | k :: l => if decide (recent = k.1) then unreported recent l else k :: unreported k.1 l end.

Lemma check_buckets_correct w db_file bs : forall issues recent s, white_list_ s = w -> db_file_name_ s = db_file ->
  exists new recent' s', check_buckets now FormatTime bs issues recent s = (Ok ((issues ++ new)%list, recent'), s')
    /\ map (fun i => (issue_id i, desc i)) new = unreported recent (map (section_key db_file) (sections w bs)).
Proof.
  induction bs as [|[k b] bs IH]; intros issues recent s Hw Hd.
  { exists [], recent, s. by rewrite app_nil_r. }
  unfold sections. cbn [check_buckets map List.filter snd]. destruct b as [|i b]; [by apply IH|]. cbn [bucket_section].
  unfold mbind at 1, M_bind at 1, gets at 1. cbn [id]. unfold IsInWhiteList. rewrite Hw. fold (listed w kPreparedStatementBetterCheckerName (wildcard_sql_ i)).
  fold (listed w kPreparedStatementBetterCheckerName (sql_ i)). destruct (_ || _); [by apply IH|].
  rewrite ScanCheck_correct. unfold mbind at 1, M_bind at 1, raise at 1. destruct (first_long (i :: b)) as [|x r] eqn:E; [by apply IH|].
  cbn [length bool_decide]. rewrite bool_decide_false by done. cbn [negb map unreported]. fold (sections w bs).
  unfold PublishIssue_PreparedStatement, GetSysTimeMillisecond, mbind, M_bind, gets, modify, mret, M_ret. cbn [id]. rewrite Hd. cbn [section_key fst].
  destruct (decide (recent = _)) as [Hr|Hr]; [by apply IH|].
  destruct (IH (issues ++ [MkIssue (section_key db_file (x :: r)).1 (db_path_ s) kPreparedStatementBetter kSuggestion [] [] (Z.quot (now (clock s)) 1000)
    (section_desc FormatTime (x :: r)) [] (bytes_of "It is recommended to use SQLiteStatement optimization.") [] 0 false])%list
    (section_key db_file (x :: r)).1 (set_clock (S (clock s)) s) Hw Hd) as (new & recent' & s' & E' & Hnew).
  eexists (_ :: new), recent', s'. rewrite <- app_assoc in E'. split; [exact E'|]. cbn [map]. by rewrite Hnew.
Qed.

End Repeated.

(** [sql] executed at [t], with the key [w]. *)
Definition executed (sql w : string) (t : Z) : SqlInfo :=
  MkSqlInfo (bytes_of sql) SqlTree.SQLTYPE_SELECT (bytes_of w) false false t None [] 0 false.

Definition busy : LintEnv :=
  set_history (map (executed "select 1" "select ?") [0; 150; 200; 260; 900]) (new_env (bytes_of "/data/app.db")).


Example busy_section : ScanCheck (sql_history_ busy) = Ok (map (executed "select 1" "select ?") [150; 200; 260]).
Proof. reflexivity. Qed.

(** The interval is cut to 32 bits: 25 days count as a moment. *)
Example days_are_short : interval (executed "a" "a" 0) (executed "a" "a" (25 * 24 * 3600 * 1000)) = -2134967296.
Proof. reflexivity. Qed.
End CheckersFacts.
