(* ===== verification/LintProcess.v ===== *)
(** What sqlite-lint reads off a parsed statement (src/core/sql_Info_processor.cc).

    Module [SqlInfoProcessor] walks over the trees of [SqlTree] and writes the statement down again with its
    literals replaced; the result is the key by which executions are told apart.  The pointer [pParent] of a node
    is set where the node becomes an operand of another one, so that the walk passes the operator of the
    parent down to the operands and none to the rest.

    [ProcessFacts] shows that the walk succeeds and that literals leave no trace in the key. *)
From S2P Require Import Prelude Arch Machine Libc Md5 SqlUtil SqlToken SqlParse SqlTree SqlTreeFacts SqlYyTables SqlYy SqlYyTypes SqlYyAutomaton SqlYyFacts SqlLint LintCore.

Module SqlInfoProcessor.
Import Tk SqlTree.

Abbreviation str := (list Z).

Record processor := MkProcessor {
  wildcard_sql_ : str;
  need_gen_wildcard_sql_ : bool;
  is_prepared_statement_ : bool;
  is_parameter_wildcard_ : bool;
  like_ : str;
  select_all_count_ : Z
}.

Definition new_processor : processor := MkProcessor [] true false false [] 0.

(** [wildcard_sql_ += s]. *)
Definition write (s : str) (p : processor) : processor :=
  MkProcessor (wildcard_sql_ p ++ s) (need_gen_wildcard_sql_ p) (is_prepared_statement_ p) (is_parameter_wildcard_ p) (like_ p) (select_all_count_ p).

Definition emit (s : str) : M processor unit := modify (write s).
Definition say (s : string) : M processor unit := emit (bytes_of s).
Definition when (b : bool) (c : M processor unit) : M processor unit := if b then c else mret tt.

Definition set_like (s : str) (p : processor) : processor :=
  MkProcessor (wildcard_sql_ p) (need_gen_wildcard_sql_ p) (is_prepared_statement_ p) (is_parameter_wildcard_ p) s (select_all_count_ p).
Definition set_wildcard (p : processor) : processor :=
  MkProcessor (wildcard_sql_ p) (need_gen_wildcard_sql_ p) (is_prepared_statement_ p) true (like_ p) (select_all_count_ p).
Definition set_prepared (p : processor) : processor :=
  MkProcessor (wildcard_sql_ p) (need_gen_wildcard_sql_ p) true (is_parameter_wildcard_ p) (like_ p) (select_all_count_ p).
Definition count_all (p : processor) : processor :=
  MkProcessor (wildcard_sql_ p) (need_gen_wildcard_sql_ p) (is_prepared_statement_ p) (is_parameter_wildcard_ p) (like_ p) (select_all_count_ p + 1).

(** A C string ends at its first NUL. *)
Fixpoint c_string (s : str) : str :=
  match s with [] => [] | c :: s => if c =? 0 then [] else c :: c_string s end.

(** A name is a C string. *)
Definition name (z : str) : M processor unit := emit (c_string z).

Section Walk.
Context (zSql : str).

(** [text] of [ProcessToken]. *)
Definition text (t : Token) : result str :=
  match t_z t with PText i => s ← token_text zSql i (t_n t); Ok (c_string s) | PNull => Segv | PIndet => Undef end.

Definition is_not (parent : option Z) : bool := match parent with Some op => op =? TK_NOT | None => false end.
Definition is_case (parent : option Z) : bool := match parent with Some op => op =? TK_CASE | None => false end.

(** A node without a token. *)
Definition ProcessOperator (parent : option Z) (op : Z) : M processor unit :=
  if op =? TK_IN then say (if is_not parent then " not in(" else " in(")
  else if op =? TK_ALL then say "*";; modify count_all
  else if op =? TK_DOT then say "."
  else if op =? TK_EQ then say " = "
  else if op =? TK_NE then say " != "
  else if op =? TK_GT then say " > "
  else if op =? TK_LE then say " <= "
  else if op =? TK_LT then say " < "
  else if op =? TK_GE then say " >= "
  else if op =? TK_AND then say " and "
  else if op =? TK_OR then say " or "
  else if op =? TK_BITAND then say " & "
  else if op =? TK_BITOR then say " | "
  else if op =? TK_BITNOT then say " ~ "
  else if op =? TK_LSHIFT then say " << "
  else if op =? TK_RSHIFT then say " >> "
  else if op =? TK_BETWEEN then say " between "
  else if op =? TK_EXISTS then say (if is_not parent then " not exists(" else " exists(")
  else mret tt.

Definition is_literal (op : Z) : bool := (op =? TK_STRING) || (op =? TK_FLOAT) || (op =? TK_INTEGER) || (op =? TK_BLOB).

Definition ProcessToken (parent : option Z) (op : Z) (t : Token) : M processor unit :=
  if t_n t =? 0 then ProcessOperator parent op else
  s ← raise (text t);
  if is_literal op then
    p ← gets id;
    emit (if need_gen_wildcard_sql_ p then [63] else s);;
    modify set_wildcard
  else if op =? TK_LIKE_KW then modify (set_like (if is_not parent then bytes_of "not " ++ s else s))
  else if op =? TK_FUNCTION then emit s;; say "("
  else if op =? TK_VARIABLE then emit s;; modify set_prepared
  else when ((op =? TK_ID) && is_case parent) (say " case ");; emit s.

(** Names with a comma between any two. *)
Fixpoint ProcessIdList (l : list (option str)) : M processor unit :=
  match l with
  | [] => mret tt
  | None :: _ => raise Segv
  | Some z :: l => name z;; match l with [] => mret tt | _ => say "," end;; ProcessIdList l
  end.

Definition op_of (p : option Expr) : option Z := e_op <$> p.
Definition and_or (op : Z) : bool := (op =? TK_AND) || (op =? TK_OR).
Definition is_and_or (p : option Expr) : bool := match op_of p with Some op => and_or op | None => false end.

(** What follows an expression. *)
Definition close_expr (op : Z) (operands right_and_or : bool) : M processor unit :=
  if (op =? TK_IN) || (op =? TK_EXISTS) then say ")"
  else if and_or op then when right_and_or (say ")")
  else if op =? TK_FUNCTION then say (if operands then ")" else "*)")
  else mret tt.

(** In front of an element of a list. *)
Definition open_item (op : Z) (i : nat) (zName : option str) : M processor unit :=
  match zName with
  | Some z => if op =? TK_SET then name z;; say " = " else when (op =? TK_CASE) (say (if Nat.even i then " when " else " then "))
  | None => when (op =? TK_CASE) (say (if Nat.even i then " when " else " then "))
  end.

Definition name_item (op : Z) (e : option Z) (zName : option str) : M processor unit :=
  match zName with
  | Some z =>
      if op =? TK_SET then mret tt else
      say (match e with Some o => if o =? TK_CASE then " end " else " as " | None => " as " end);; name z
  | None => mret tt
  end.

(** Between two elements of a list of [n]: the new values of [op] and [need_escape]. *)
Definition separate (op : Z) (need_escape : bool) (n : nat) (sort : Z) : M processor (Z * bool) :=
  if op =? TK_BETWEEN then say " and ";; mret (op, need_escape)
  else if op =? TK_LIKE_KW then
    p ← gets id; emit ([32] ++ like_ p ++ [32]);; mret (0, if (3 <=? n)%nat then true else need_escape)
  else if op =? TK_ORDER then say (if negb (sort =? 0) then " desc," else ",");; mret (op, need_escape)
  else if negb (op =? TK_CASE) then say (if need_escape then " escape " else ",");; mret (op, need_escape)
  else mret (op, need_escape).

Definition bit (m jt : Z) : bool := negb (Z.land m jt =? 0).

Definition join_words (jt : Z) : M processor unit :=
  when (bit JT_LEFT jt) (say " left");; when (bit JT_RIGHT jt) (say " right");; when (bit JT_FULL jt) (say " full");;
  when (bit JT_NATURAL jt) (say " natural");; when (bit JT_OUTER jt) (say " outer");; say " join ".

(** The loops over the elements of a list of [n]; [expr] and [select] process what the elements point to. *)
Section Loops.
Context (expr : Expr -> M processor unit) (select : Select -> M processor unit).

Fixpoint items_loop (n : nat) (l : list ExprItem) (i : nat) (op : Z) (need_escape : bool) : M processor unit :=
  match l with
  | [] => mret tt
  | MkExprItem e z sort :: l =>
      open_item op i z;;
      match e with Some e => expr e | None => mret tt end;;
      name_item op (op_of e) z;;
      match l with
      | [] => when ((op =? TK_ORDER) && negb (sort =? 0)) (say " desc")
      | _ => '(op, need_escape) ← separate op need_escape n sort; items_loop n l (S i) op need_escape
      end
  end.

(** Behind the name of a table: whether the name of the next one was written too. *)
Definition join_next (jt : Z) (joined : bool) (l : list SrcItem) : M processor bool :=
  if negb (jt =? 0) && joined then
    join_words jt;;
    match l with
    | MkSrcItem _ (Some z) _ _ _ _ _ _ _ :: _ => name z;; mret true
    | _ => mret false
    end
  else match l with [] => mret tt | _ => say "," end;; mret false.

Fixpoint sources_loop (l : list SrcItem) (zName_consumed : bool) : M processor unit :=
  match l with
  | [] => mret tt
  | MkSrcItem db zName alias se jt on us _ _ :: l =>
      match db with Some z => name z;; say "." | None => mret tt end;;
      match zName with Some z => when (negb zName_consumed) (name z) | None => mret tt end;;
      match se with Some se => say " (";; select se;; say ") " | None => mret tt end;;
      match alias with Some z => say " as ";; name z | None => mret tt end;;
      zName_consumed ← join_next jt (match on, us with None, None => false | _, _ => true end) l;
      match us with Some u => say " using (";; ProcessIdList (id_a u);; say ") " | None => mret tt end;;
      match on with Some e => say " on (";; expr e;; say ") " | None => mret tt end;;
      sources_loop l zName_consumed
  end.
End Loops.

Fixpoint ProcessExpr (parent : option Z) (p : Expr) {struct p} : M processor unit :=
  match p with
  | MkExpr op _ l r li tok _ se =>
      match l with Some l => ProcessExpr (Some op) l | None => mret tt end;;
      ProcessToken parent op tok;;
      when (and_or op && is_and_or r) (say "(");;
      match r with Some r => ProcessExpr (Some op) r | None => mret tt end;;
      match se with
      | Some se => when (negb (op =? TK_IN)) (say "(");; ProcessSelect se;; when (negb (op =? TK_IN)) (say ")")
      | None => mret tt
      end;;
      match li with Some li => ProcessExprList op li | None => mret tt end;;
      close_expr op (match li, l, r with None, None, None => false | _, _, _ => true end) (is_and_or r)
  end
with ProcessExprList (op : Z) (p : ExprList) {struct p} : M processor unit :=
  match p with
  | MkExprList _ a =>
      items_loop (ProcessExpr None) (length a) a 0 op false
  end
with ProcessSelect (p : Select) {struct p} : M processor unit :=
  match p with
  | MkSelect el op distinct sr wh gr ha ob pr li ofs =>
      match pr with Some pr => ProcessSelect pr;; when (TK_UNION =? op) (say " union ") | None => mret tt end;;
      say (if negb (distinct =? 0) then "select distinct " else "select ");;
      match el with Some el => ProcessExprList 0 el | None => mret tt end;;
      match sr with
      | Some sr => when (negb (match sr with MkSrcList _ a => length a =? 0 end)%nat) (say " from ";; ProcessSrcList sr)
      | None => mret tt
      end;;
      match wh with Some e => say " where ";; ProcessExpr None e | None => mret tt end;;
      match gr with Some l => say " group by ";; ProcessExprList 0 l | None => mret tt end;;
      match ob with Some l => say " order by ";; ProcessExprList TK_ORDER l | None => mret tt end;;
      match ha with Some e => say " having ";; ProcessExpr None e | None => mret tt end;;
      match li with Some e => say " limit ";; ProcessExpr None e | None => mret tt end;;
      match ofs with Some e => say " offset ";; ProcessExpr None e | None => mret tt end
  end
with ProcessSrcList (p : SrcList) {struct p} : M processor unit :=
  match p with
  | MkSrcList _ a =>
      sources_loop (ProcessExpr None) ProcessSelect a false
  end.

(** A pointer that may be NULL. *)
Definition opt {A} (f : A -> M processor unit) (p : option A) : M processor unit := match p with Some x => f x | None => mret tt end.

Fixpoint values_loop (l : list ExprList) : M processor unit :=
  match l with
  | [] => mret tt
  | v :: l => say "(";; ProcessExprList 0 v;; say (match l with [] => ")" | _ => ")," end);; values_loop l
  end.

Definition ProcessValuesList (p : ValuesList) : M processor unit := values_loop (vl_a p).

Definition ProcessInsert (p : Insert) (replace : bool) : M processor unit :=
  say (if replace then "replace into " else "insert into ");;
  opt ProcessSrcList (i_pTabList p);;
  opt (fun u => say "(";; ProcessIdList (id_a u);; say ")") (pColumn p);;
  opt (fun l => say " set ";; ProcessExprList TK_SET l) (pSetList p);;
  opt (fun se => say " ";; ProcessSelect se) (i_pSelect p);;
  opt (fun v => say " values";; ProcessValuesList v) (pValuesList p).

Definition clause (word : string) (e : option Expr) : M processor unit := opt (fun e => say word;; ProcessExpr None e) e.

Definition ProcessDelete (p : Delete) : M processor unit :=
  say "delete from ";;
  opt ProcessSrcList (d_pTabList p);;
  clause " where " (d_pWhere p);; clause " limit " (d_pLimit p);; clause " offset " (d_pOffset p).

Definition ProcessUpdate (p : Update) : M processor unit :=
  say "update ";;
  opt ProcessSrcList (u_pTabList p);;
  opt (fun l => say " set ";; ProcessExprList TK_SET l) (pChanges p);;
  clause " where " (u_pWhere p);; clause " limit " (u_pLimit p);; clause " offset " (u_pOffset p).

Definition GetSql (select_obj : option Select) (need_gen_wildcard_sql : bool) : M processor str :=
  modify (fun p => MkProcessor (wildcard_sql_ p) need_gen_wildcard_sql (is_prepared_statement_ p) (is_parameter_wildcard_ p) (like_ p) (select_all_count_ p));;
  opt ProcessSelect select_obj;;
  gets wildcard_sql_.
End Walk.

(** ** Parsing *)

Import SqlParse SqlLint.SqlLint.

(** The state of a new [Parse], unless memory ran out. *)
Definition sqlite3ParseNew (h : heap) : option run * heap :=
  let '(ok, h) := sqlite3MallocRaw 1 h in
  if negb ok then (None, h) else
  match sqlite3ParseInit h with
  | (Some tokens, h) =>
      (Some (MkRun (MkCtx 0 0 None h) (MkToken 0 0) 0 tokens (Some None) lemon_alloc (MkActs 0 0 (MkArray None 0 0))), h)
  | (None, h) => (None, h)
  end.

(** [sqlite3RunParser] is called even without a [Parse].  After an error the [Parse] is cleaned, and its
    memory lost. *)
Definition ParseObj (sql : str) : M heap (option parse) := fun h =>
  match sqlite3ParseNew h with
  | (None, h) => (Segv, h)
  | (Some s, _) =>
      match sqlite3RunParser (sql ++ [0]) s with
      | (Ok _, s) =>
          let code := if sqlite3MallocFailed (run_heap s) then SQLITE_NOMEM else if rc (pctx s) =? SQLITE_DONE then SQLITE_OK else rc (pctx s) in
          let p := parse_of (set_rc code s) in
          if code =? SQLITE_OK then (Ok (Some p), parse_heap p)
          else let '(r, p) := (sqlite3ParseReset;; mret None) p in (r, parse_heap p)
      | (Segv, s) => (Segv, run_heap s)
      | (Undef, s) => (Undef, run_heap s)
      | (NoFuel, s) => (NoFuel, run_heap s)
      | (Aborted, s) => (Aborted, run_heap s)
      end
  end.

(** [parse_obj->parsed.array[0]]. *)
Definition first_result (p : parse) : result ParsedResultItem :=
  match cells (parsed (pa p)) with
  | None => Segv
  | Some l => match l !! 0%nat with Some (Some item) => Ok item | _ => Undef end
  end.

(** A member of the union, if it is the one that was written. *)
Definition selectObj (r : ParsedResult) : result (option Select) := match r with SelectObj o => Ok o | _ => Undef end.
Definition insertObj (r : ParsedResult) : result (option Insert) := match r with InsertObj o => Ok o | _ => Undef end.
Definition deleteObj (r : ParsedResult) : result (option Delete) := match r with DeleteObj o => Ok o | _ => Undef end.
Definition updateObj (r : ParsedResult) : result (option Update) := match r with UpdateObj o => Ok o | _ => Undef end.

(** Whether there is something to process. *)
Definition process_object {A} (f : A -> M processor unit) (o : result (option A)) : M processor bool :=
  o ← raise o; match o with Some x => f x;; mret true | None => mret false end.

Definition process_item (zSql : str) (item : ParsedResultItem) : M processor bool :=
  match sqltype item with
  | SQLTYPE_SELECT => process_object (ProcessSelect zSql) (selectObj (item_result item))
  | SQLTYPE_INSERT => process_object (fun i => ProcessInsert zSql i false) (insertObj (item_result item))
  | SQLTYPE_REPLACE => process_object (fun i => ProcessInsert zSql i true) (insertObj (item_result item))
  | SQLTYPE_DELETE => process_object (ProcessDelete zSql) (deleteObj (item_result item))
  | SQLTYPE_UPDATE => process_object (ProcessUpdate zSql) (updateObj (item_result item))
  | _ => mret false
  end.

(** The fields that follow from the walk. *)
Definition conclude_info (p : processor) (i : LintEnv.SqlInfo) : LintEnv.SqlInfo :=
  LintEnv.MkSqlInfo (LintEnv.sql_ i) (LintEnv.sql_type_ i)
    (if is_parameter_wildcard_ p && need_gen_wildcard_sql_ p then wildcard_sql_ p else LintEnv.wildcard_sql_ i)
    (is_prepared_statement_ p || negb (is_parameter_wildcard_ p))
    (if 0 <? select_all_count_ p then true else LintEnv.is_select_all_ i)
    (LintEnv.execution_time_ i) (LintEnv.parse_obj_ i) (LintEnv.ext_info_ i) (LintEnv.time_cost_ i) (LintEnv.is_in_main_thread_ i).

Definition with_parse (o : parse) (t : SqlType) (i : LintEnv.SqlInfo) : LintEnv.SqlInfo :=
  LintEnv.MkSqlInfo (LintEnv.sql_ i) t (LintEnv.wildcard_sql_ i) (LintEnv.is_prepared_statement_ i) (LintEnv.is_select_all_ i)
    (LintEnv.execution_time_ i) (Some o) (LintEnv.ext_info_ i) (LintEnv.time_cost_ i) (LintEnv.is_in_main_thread_ i).

Definition Process (i : LintEnv.SqlInfo) : M heap (Z * LintEnv.SqlInfo) :=
  parse_obj ← ParseObj (LintEnv.sql_ i);
  match parse_obj with
  | None => mret (-1, i)
  | Some o =>
      item ← raise (first_result o);
      let i := with_parse o (sqltype item) i in
      let '(r, p) := process_item (LintEnv.sql_ i ++ [0]) item new_processor in
      known ← raise r;
      mret (if known : bool then (0, conclude_info p i) else (-1, i))
  end.

(** ** Examples *)

Definition executed (sql : string) : LintEnv.SqlInfo :=
  LintEnv.MkSqlInfo (bytes_of sql) SQLTYPE_UNKNOWN [] true false 0 None [] 0 false.

(** The result, the key, whether the statement is a prepared one, whether it selects everything. *)
Definition processed (sql : string) : result (Z * str * bool * bool) :=
  '(r, i) ← fst (Process (executed sql) plenty);
  Ok (r, LintEnv.wildcard_sql_ i, LintEnv.is_prepared_statement_ i, LintEnv.is_select_all_ i).
End SqlInfoProcessor.

(** * Literals leave no trace *)

Module ProcessFacts.
Import Tk SqlTree SqlInfoProcessor.

(** ** Statements that differ in literals only *)

Section Alike.
Context (z1 z2 : str).

Definition both {A} (f : A -> A -> bool) (p q : option A) : bool :=
  match p, q with Some x, Some y => f x y | None, None => true | _, _ => false end.

(** Tokens with a text, the same one unless they are literals. *)
Definition alike_token (op : Z) (t u : Token) : bool :=
  if t_n t =? 0 then t_n u =? 0
  else negb (t_n u =? 0) && match text z1 t, text z2 u with Ok a, Ok b => is_literal op || bool_decide (a = b) | _, _ => false end.

Definition same_name (a b : option str) : bool := bool_decide (a = b).

Definition alike_ids (a b : option IdList) : bool :=
  both (fun a b => bool_decide (id_a a = id_a b) && forallb (fun n => match n with Some _ => true | None => false end) (id_a a)) a b.

Fixpoint alike_all {A} (f : A -> A -> bool) (a b : list A) : bool :=
  match a, b with [], [] => true | x :: a, y :: b => f x y && alike_all f a b | _, _ => false end.

Definition same_source (x y : SrcItem) : bool :=
  same_name (zDatabase x) (zDatabase y) && same_name (zName x) (zName y) && same_name (zAlias x) (zAlias y) && (jointype x =? jointype y)
  && alike_ids (pUsing x) (pUsing y).

Fixpoint alike_expr (p q : Expr) {struct p} : bool :=
  match p, q with
  | MkExpr op _ l r li t _ se, MkExpr op' _ l' r' li' t' _ se' =>
      (op =? op') && alike_token op t t'
      && match l, l' with Some x, Some y => alike_expr x y | None, None => true | _, _ => false end
      && match r, r' with Some x, Some y => alike_expr x y | None, None => true | _, _ => false end
      && match li, li' with Some x, Some y => alike_list x y | None, None => true | _, _ => false end
      && match se, se' with Some x, Some y => alike_select x y | None, None => true | _, _ => false end
  end
with alike_list (p q : ExprList) {struct p} : bool :=
  match p, q with
  | MkExprList _ a, MkExprList _ b =>
      alike_all (fun x y => same_name (ei_zName x) (ei_zName y) && (sortOrder x =? sortOrder y)
        && match x with MkExprItem e _ _ => match e, ei_pExpr y with Some x, Some y => alike_expr x y | None, None => true | _, _ => false end end) a b
  end
with alike_select (p q : Select) {struct p} : bool :=
  match p, q with
  | MkSelect el op d sr wh gr ha ob pr li ofs, MkSelect el' op' d' sr' wh' gr' ha' ob' pr' li' ofs' =>
      (op =? op') && (d =? d')
      && match el, el' with Some x, Some y => alike_list x y | None, None => true | _, _ => false end
      && match sr, sr' with Some x, Some y => alike_src x y | None, None => true | _, _ => false end
      && match wh, wh' with Some x, Some y => alike_expr x y | None, None => true | _, _ => false end
      && match gr, gr' with Some x, Some y => alike_list x y | None, None => true | _, _ => false end
      && match ha, ha' with Some x, Some y => alike_expr x y | None, None => true | _, _ => false end
      && match ob, ob' with Some x, Some y => alike_list x y | None, None => true | _, _ => false end
      && match pr, pr' with Some x, Some y => alike_select x y | None, None => true | _, _ => false end
      && match li, li' with Some x, Some y => alike_expr x y | None, None => true | _, _ => false end
      && match ofs, ofs' with Some x, Some y => alike_expr x y | None, None => true | _, _ => false end
  end
with alike_src (p q : SrcList) {struct p} : bool :=
  match p, q with
  | MkSrcList _ a, MkSrcList _ b =>
      alike_all (fun x y => same_source x y
        && match x with
           | MkSrcItem _ _ _ se _ on _ _ _ =>
               match se, si_pSelect y with Some x, Some y => alike_select x y | None, None => true | _, _ => false end
               && match on, pOn y with Some x, Some y => alike_expr x y | None, None => true | _, _ => false end
           end) a b
  end.

Definition alike_values (a b : list ExprList) : bool := alike_all alike_list a b.

Definition alike_insert (p q : Insert) : bool :=
  both alike_src (i_pTabList p) (i_pTabList q) && alike_ids (pColumn p) (pColumn q) && both alike_list (pSetList p) (pSetList q)
  && both alike_select (i_pSelect p) (i_pSelect q) && both (fun v w => alike_values (vl_a v) (vl_a w)) (pValuesList p) (pValuesList q).

Definition alike_delete (p q : Delete) : bool :=
  both alike_src (d_pTabList p) (d_pTabList q) && both alike_expr (d_pWhere p) (d_pWhere q) && both alike_expr (d_pLimit p) (d_pLimit q)
  && both alike_expr (d_pOffset p) (d_pOffset q).

Definition alike_update (p q : Update) : bool :=
  both alike_src (u_pTabList p) (u_pTabList q) && both alike_list (pChanges p) (pChanges q) && both alike_expr (u_pWhere p) (u_pWhere q)
  && both alike_expr (u_pLimit p) (u_pLimit q) && both alike_expr (u_pOffset p) (u_pOffset q).

(** Statements of the same kind, with something to process. *)
Definition alike_items (p q : ParsedResultItem) : bool :=
  match sqltype p, sqltype q, item_result p, item_result q with
  | SQLTYPE_SELECT, SQLTYPE_SELECT, SelectObj (Some x), SelectObj (Some y) => alike_select x y
  | SQLTYPE_INSERT, SQLTYPE_INSERT, InsertObj (Some x), InsertObj (Some y) => alike_insert x y
  | SQLTYPE_REPLACE, SQLTYPE_REPLACE, InsertObj (Some x), InsertObj (Some y) => alike_insert x y
  | SQLTYPE_DELETE, SQLTYPE_DELETE, DeleteObj (Some x), DeleteObj (Some y) => alike_delete x y
  | SQLTYPE_UPDATE, SQLTYPE_UPDATE, UpdateObj (Some x), UpdateObj (Some y) => alike_update x y
  | _, _, _, _ => false
  end.

(** ** Walks that cannot tell *)

(** From every state that replaces literals, both return, with the same value and the same state. *)
Definition same {A} (c d : M processor A) : Prop :=
  forall s, need_gen_wildcard_sql_ s = true -> exists a s', c s = (Ok a, s') /\ d s = (Ok a, s') /\ need_gen_wildcard_sql_ s' = true.

Lemma same_ret {A} (a : A) : same (mret a) (mret a).
Proof. intros s Hs. by exists a, s. Qed.

Lemma same_bind {A B} (c d : M processor A) (f g : A -> M processor B) : same c d -> (forall a, same (f a) (g a)) -> same (c ≫= f) (d ≫= g).
Proof.
  intros H Hf s Hs. destruct (H s Hs) as (a & s1 & E1 & E2 & Hs1). rewrite (M_bind_run _ _ _ _ _ E1), (M_bind_run _ _ _ _ _ E2). by apply Hf.
Qed.

Lemma same_emit z : same (emit z) (emit z).
Proof. intros s Hs. by exists tt, (write z s). Qed.

Lemma same_say z : same (say z) (say z).
Proof. apply same_emit. Qed.

Lemma same_name_ z : same (name z) (name z).
Proof. apply same_emit. Qed.

Lemma same_modify f : (forall s, need_gen_wildcard_sql_ (f s) = need_gen_wildcard_sql_ s) -> same (modify f) (modify f).
Proof. intros Hf s Hs. exists tt, (f s). by rewrite Hf. Qed.

Lemma same_gets : same (gets id) (gets id).
Proof. intros s Hs. by exists s, s. Qed.

Lemma same_when b c d : same c d -> same (when b c) (when b d).
Proof. intros H. destruct b; [done|apply same_ret]. Qed.

Create HintDb walk.
Hint Resolve same_ret same_bind same_emit same_say same_name_ same_gets same_when : walk.
Hint Extern 1 (same (modify _) (modify _)) => apply same_modify; done : walk.

(** [walk]: both sides go the same way. *)
Ltac walk :=
  repeat match goal with
  | |- same (mbind _ _) (mbind _ _) => apply same_bind; [|intros]
  | |- same (when _ _) (when _ _) => apply same_when
  | |- same (if ?b then _ else _) _ => destruct b
  | |- same (match ?o with Some _ => _ | None => _ end) _ => destruct o
  | |- _ => solve [eauto with walk]
  end.

Lemma same_operator par op : same (ProcessOperator par op) (ProcessOperator par op).
Proof. unfold ProcessOperator. walk. Qed.

Lemma same_token par op t u : alike_token op t u = true -> same (ProcessToken z1 par op t) (ProcessToken z2 par op u).
Proof.
  unfold alike_token, ProcessToken. destruct (t_n t =? 0); [intros ->; apply same_operator|]. rewrite andb_true_iff, negb_true_iff. intros [-> H].
  destruct (text z1 t) as [a| | | |]; try done. destruct (text z2 u) as [b| | | |]; try done.
  destruct (is_literal op) eqn:El; cbn [orb] in H.
  - intros s Hs. exists tt, (set_wildcard (write [63] s)). unfold mbind, M_bind, raise, gets, emit, modify. cbn [id]. by rewrite Hs.
  - apply bool_decide_eq_true in H as ->. apply (same_bind (raise (Ok b)) (raise (Ok b))); [apply (same_ret b)|]. intros s. walk.
Qed.

Lemma same_ids l : forallb (fun n => match n with Some _ => true | None => false end) l = true -> same (ProcessIdList l) (ProcessIdList l).
Proof. induction l as [|[z|] l IH]; cbn [ProcessIdList forallb]; intros H; [apply same_ret| |done]. specialize (IH H). walk. Qed.

Lemma same_open op i z : same (open_item op i z) (open_item op i z).
Proof. unfold open_item. walk. Qed.

Lemma same_name_item op e z : same (name_item op e z) (name_item op e z).
Proof. unfold name_item. walk. Qed.

Lemma same_separate op esc n sort : same (separate op esc n sort) (separate op esc n sort).
Proof. unfold separate. walk. Qed.

Lemma same_close op a b : same (close_expr op a b) (close_expr op a b).
Proof. unfold close_expr. walk. Qed.

Lemma same_join jt : same (join_words jt) (join_words jt).
Proof. unfold join_words. walk. Qed.

Hint Resolve same_operator same_token same_ids same_open same_name_item same_separate same_close same_join : walk.

(** The operator of a node is the same, and with it what is asked of it. *)
Lemma alike_op p q : alike_expr p q = true -> e_op p = e_op q.
Proof. destruct p, q. cbn. rewrite !andb_true_iff, Z.eqb_eq. tauto. Qed.

Lemma alike_and_or p q : match p, q with Some x, Some y => alike_expr x y | None, None => true | _, _ => false end = true -> is_and_or p = is_and_or q.
Proof. destruct p, q; try done. cbn. intros H. by rewrite (alike_op _ _ H). Qed.

(** Elements that [f] and [g] cannot tell apart. *)
Definition item_rel (f g : Expr -> M processor unit) (x y : ExprItem) : Prop :=
  ei_zName x = ei_zName y /\ sortOrder x = sortOrder y
  /\ match ei_pExpr x, ei_pExpr y with Some p, Some q => same (f p) (g q) /\ e_op p = e_op q | None, None => True | _, _ => False end.

Lemma items_loop_same f g n a b : Forall2 (item_rel f g) a b -> forall i op esc, same (items_loop f n a i op esc) (items_loop g n b i op esc).
Proof.
  induction 1 as [|[e z o] [e' z' o'] a b (Hz & Ho & He) Hab IH]; intros i op esc; [apply same_ret|]. cbn in Hz, Ho, He. subst z' o'. cbn [items_loop].
  apply same_bind; [apply same_open|intros _]. apply same_bind; [destruct e, e'; try done; [apply He|apply same_ret]|intros _].
  assert (op_of e = op_of e') as -> by (destruct e, e'; try done; cbn; by destruct He as [_ ->]).
  apply same_bind; [apply same_name_item|intros _]. destruct Hab; [walk|]. apply same_bind; [apply same_separate|]. intros [op' esc']. apply IH.
Qed.

Definition source_rel (f g : Expr -> M processor unit) (f' g' : Select -> M processor unit) (x y : SrcItem) : Prop :=
  same_source x y = true
  /\ match si_pSelect x, si_pSelect y with Some p, Some q => same (f' p) (g' q) | None, None => True | _, _ => False end
  /\ match pOn x, pOn y with Some p, Some q => same (f p) (g q) | None, None => True | _, _ => False end.

Lemma same_source_fields x y : same_source x y = true ->
  zDatabase x = zDatabase y /\ zName x = zName y /\ zAlias x = zAlias y /\ jointype x = jointype y /\ alike_ids (pUsing x) (pUsing y) = true.
Proof. unfold same_source, same_name. rewrite !andb_true_iff, !bool_decide_eq_true, Z.eqb_eq. tauto. Qed.

Lemma same_usings u v : alike_ids u v = true ->
  same (match u with Some u => say " using (";; ProcessIdList (id_a u);; say ") " | None => mret tt end)
    (match v with Some u => say " using (";; ProcessIdList (id_a u);; say ") " | None => mret tt end).
Proof.
  destruct u as [u|], v as [v|]; try done; [|intros _; apply same_ret]. cbn. intros [E%bool_decide_eq_true H]%andb_true_iff. rewrite <- E. walk.
Qed.

Lemma same_join_next jt joined l l' : map zName l = map zName l' -> same (join_next jt joined l) (join_next jt joined l').
Proof.
  intros E. unfold join_next. destruct l as [|[db z al se j on us tt dt] l], l' as [|[db' z' al' se' j' on' us' tt' dt'] l']; try done; [walk|].
  cbn in E. injection E as -> _. walk.
Qed.

Lemma sources_loop_same f g f' g' a b : Forall2 (source_rel f g f' g') a b -> forall consumed, same (sources_loop f f' a consumed) (sources_loop g g' b consumed).
Proof.
  induction 1 as [|x y a b (Hs & Hse & Hon) Hab IH]; intros consumed; [apply same_ret|]. apply same_source_fields in Hs.
  assert (map zName a = map zName b) as Hn.
  { clear -Hab. induction Hab as [|x y a b (H & _) _ IH]; [done|]. cbn. apply same_source_fields in H as (_ & -> & _). by rewrite IH. }
  destruct x as [db z al se jt on us tt_ dt], y as [db' z' al' se' jt' on' us' tt' dt']. cbn in Hs, Hse, Hon. destruct Hs as (<- & <- & <- & <- & Hus).
  cbn [sources_loop]. apply same_bind; [walk|intros _]. apply same_bind; [walk|intros _].
  apply same_bind; [destruct se, se'; try done; walk|intros _]. apply same_bind; [walk|intros _].
  assert ((match on, us with None, None => false | _, _ => true end) = (match on', us' with None, None => false | _, _ => true end)) as ->
    by (by destruct on, on', us, us').
  apply same_bind; [by apply same_join_next|intros consumed']. apply same_bind; [by apply same_usings|intros _].
  apply same_bind; [destruct on, on'; try done; walk|intros _]. apply IH.
Qed.

Fixpoint same_expr (p : Expr) {struct p} : forall q par, alike_expr p q = true -> same (ProcessExpr z1 par p) (ProcessExpr z2 par q)
with same_list (p : ExprList) {struct p} : forall q op, alike_list p q = true -> same (ProcessExprList z1 op p) (ProcessExprList z2 op q)
with same_select (p : Select) {struct p} : forall q, alike_select p q = true -> same (ProcessSelect z1 p) (ProcessSelect z2 q)
with same_src (p : SrcList) {struct p} : forall q, alike_src p q = true -> same (ProcessSrcList z1 p) (ProcessSrcList z2 q).
Proof.
  - destruct p as [op fl l r li t sp se]. intros [op' fl' l' r' li' t' sp' se'] par H. cbn [alike_expr] in H. rewrite !andb_true_iff, Z.eqb_eq in H.
    destruct H as [[[[[<- Ht] Hl] Hr] Hli] Hse]. cbn [ProcessExpr]. rewrite <- (alike_and_or r r' Hr).
    apply same_bind; [|intros _; apply same_bind; [by apply same_token|intros _; apply same_bind; [walk|intros _; apply same_bind; [|intros _; apply same_bind; [|intros _; apply same_bind; [|intros _]]]]]].
    + destruct l, l'; try done; [by apply same_expr|apply same_ret].
    + destruct r, r'; try done; [by apply same_expr|apply same_ret].
    + destruct se as [se|], se' as [se'|]; try done; [|apply same_ret]. pose proof (same_select se se' Hse). walk.
    + destruct li, li'; try done; [by apply same_list|apply same_ret].
    + destruct li, li', l, l', r, r'; try done; apply same_close.
  - destruct p as [n a]. intros [n' b] op H. cbn [alike_list] in H. cbn [ProcessExprList].
    assert (Forall2 (item_rel (ProcessExpr z1 None) (ProcessExpr z2 None)) a b) as Hab.
    { clear -H same_expr. revert b H. induction a as [|[e z o] a IH]; intros [|y b] H; try done. cbn [alike_all] in H.
      rewrite !andb_true_iff, Z.eqb_eq in H. destruct H as [[[Hz%bool_decide_eq_true Ho] He] H]. constructor; [|by apply IH]. split_and!; [done|done|].
      cbn [ei_pExpr]. destruct e as [e|], (ei_pExpr y) as [e'|]; try done. split; [by apply same_expr|by apply alike_op]. }
    rewrite <- (Forall2_length _ _ _ Hab). by apply items_loop_same.
  - destruct p as [el op d sr wh gr ha ob pr li ofs]. intros [el' op' d' sr' wh' gr' ha' ob' pr' li' ofs'] H. cbn [alike_select] in H.
    rewrite !andb_true_iff, !Z.eqb_eq in H. destruct H as [[[[[[[[[[<- <-] Hel] Hsr] Hwh] Hgr] Hha] Hob] Hpr] Hli] Hofs]. cbn [ProcessSelect].
    apply same_bind; [|intros _; apply same_bind; [walk|intros _; apply same_bind; [|intros _; apply same_bind; [|intros _; apply same_bind; [|intros _;
      apply same_bind; [|intros _; apply same_bind; [|intros _; apply same_bind; [|intros _; apply same_bind; [|intros _]]]]]]]]].
    + destruct pr as [pr|], pr' as [pr'|]; try done; [|apply same_ret]. pose proof (same_select pr pr' Hpr). walk.
    + destruct el as [el|], el' as [el'|]; try done; [by apply same_list|apply same_ret].
    + destruct sr as [sr|], sr' as [sr'|]; try done; [|apply same_ret]. pose proof (same_src sr sr' Hsr) as Hs.
      assert (match sr with MkSrcList _ a => length a =? 0 end = match sr' with MkSrcList _ a => length a =? 0 end)%nat as ->.
      { destruct sr as [n a], sr' as [n' a']. cbn [alike_src] in Hsr. destruct a, a'; done. }
      walk.
    + destruct wh as [e|], wh' as [e'|]; try done; [|apply same_ret]. pose proof (same_expr e e' None Hwh). walk.
    + destruct gr as [e|], gr' as [e'|]; try done; [|apply same_ret]. pose proof (same_list e e' 0 Hgr). walk.
    + destruct ob as [e|], ob' as [e'|]; try done; [|apply same_ret]. pose proof (same_list e e' TK_ORDER Hob). walk.
    + destruct ha as [e|], ha' as [e'|]; try done; [|apply same_ret]. pose proof (same_expr e e' None Hha). walk.
    + destruct li as [e|], li' as [e'|]; try done; [|apply same_ret]. pose proof (same_expr e e' None Hli). walk.
    + destruct ofs as [e|], ofs' as [e'|]; try done; [|apply same_ret]. pose proof (same_expr e e' None Hofs). walk.
  - destruct p as [n a]. intros [n' b] H. cbn [alike_src] in H. cbn [ProcessSrcList]. apply sources_loop_same.
    clear -H same_expr same_select. revert b H. induction a as [|[db z al se jt on us tt_ dt] a IH]; intros [|y b] H; try done. cbn [alike_all] in H.
    rewrite !andb_true_iff in H. destruct H as [[Hs [Hse Hon]] H]. constructor; [|by apply IH]. split; [done|]. cbn [si_pSelect pOn]. split.
    + destruct se as [se|], (si_pSelect y) as [se'|]; try done. by apply same_select.
    + destruct on as [e|], (pOn y) as [e'|]; try done. by apply same_expr.
Qed.

(** ** Statements *)

Lemma same_opt {A} (alike : A -> A -> bool) (f g : A -> M processor unit) p q :
  (forall x y, alike x y = true -> same (f x) (g y)) -> both alike p q = true -> same (opt f p) (opt g q).
Proof. intros H. destruct p, q; try done; [by apply H|intros _; apply same_ret]. Qed.

Lemma same_clause word p q : both alike_expr p q = true -> same (clause z1 word p) (clause z2 word q).
Proof. apply same_opt. intros x y H. pose proof (same_expr x y None H). walk. Qed.

Lemma same_columns u v : alike_ids u v = true ->
  same (opt (fun u => say "(";; ProcessIdList (id_a u);; say ")") u) (opt (fun u => say "(";; ProcessIdList (id_a u);; say ")") v).
Proof. apply same_opt. intros x y [E%bool_decide_eq_true H]%andb_true_iff. rewrite <- E. walk. Qed.

Lemma same_values a : forall b, alike_values a b = true -> same (values_loop z1 a) (values_loop z2 b).
Proof.
  unfold alike_values. induction a as [|x a IH]; intros [|y b] H; try done; [apply same_ret|]. cbn [alike_all] in H. apply andb_true_iff in H as [Hx H].
  cbn [values_loop]. pose proof (same_list x y 0 Hx). pose proof (IH b H) as Hab. destruct a, b; try done; walk.
Qed.

Lemma same_set p q : both alike_list p q = true ->
  same (opt (fun l => say " set ";; ProcessExprList z1 TK_SET l) p) (opt (fun l => say " set ";; ProcessExprList z2 TK_SET l) q).
Proof. apply same_opt. intros x y H. pose proof (same_list x y TK_SET H). walk. Qed.

Hint Resolve same_clause same_columns same_set same_src same_select : walk.

Lemma same_insert p q replace : alike_insert p q = true -> same (ProcessInsert z1 p replace) (ProcessInsert z2 q replace).
Proof.
  unfold alike_insert. rewrite !andb_true_iff. intros [[[[Ht Hc] Hs] Hse] Hv]. unfold ProcessInsert.
  apply same_bind; [walk|intros _; apply same_bind; [by eapply same_opt; [apply same_src|]|intros _; apply same_bind; [by apply same_columns|intros _;
    apply same_bind; [by apply same_set|intros _; apply same_bind; [|intros _]]]]].
  - eapply same_opt; [|exact Hse]. intros x y H. pose proof (same_select x y H). walk.
  - eapply same_opt; [|exact Hv]. intros x y H. pose proof (same_values _ _ H). unfold ProcessValuesList. walk.
Qed.

Lemma same_delete p q : alike_delete p q = true -> same (ProcessDelete z1 p) (ProcessDelete z2 q).
Proof.
  unfold alike_delete. rewrite !andb_true_iff. intros [[[Ht Hw] Hl] Ho]. unfold ProcessDelete.
  apply same_bind; [walk|intros _; apply same_bind; [by eapply same_opt; [apply same_src|]|intros _; walk]].
Qed.

Lemma same_update p q : alike_update p q = true -> same (ProcessUpdate z1 p) (ProcessUpdate z2 q).
Proof.
  unfold alike_update. rewrite !andb_true_iff. intros [[[[Ht Hc] Hw] Hl] Ho]. unfold ProcessUpdate.
  apply same_bind; [walk|intros _; apply same_bind; [by eapply same_opt; [apply same_src|]|intros _; walk]].
Qed.

Lemma same_object {A} (f g : A -> M processor unit) x y : same (f x) (g y) ->
  exists s', process_object f (Ok (Some x)) new_processor = (Ok true, s') /\ process_object g (Ok (Some y)) new_processor = (Ok true, s').
Proof.
  intros H. destruct (H new_processor eq_refl) as ([] & s' & E1 & E2 & _). exists s'. unfold process_object, mbind, M_bind, raise. by rewrite E1, E2.
Qed.

Lemma process_alike x y : alike_items x y = true ->
  exists s', process_item z1 x new_processor = (Ok true, s') /\ process_item z2 y new_processor = (Ok true, s').
Proof.
  destruct x as [rx tx], y as [ry ty]. unfold alike_items, process_item. cbn [sqltype item_result].
  destruct tx, ty; try done; destruct rx as [[x|]|[x|]|[x|]|[x|]|]; try done; destruct ry as [[y|]|[y|]|[y|]|[y|]|]; try done; intros H; apply same_object.
  - by apply same_select.
  - by apply same_update.
  - by apply same_insert.
  - by apply same_insert.
  - by apply same_delete.
Qed.
End Alike.

(** C20. The key of a statement does not depend on its literals.  If two statements are parsed to trees that differ
    at most in the text of strings, integers, floats and blobs, then both are processed without a fault, and from both
    come the same text with the literals replaced, and the same answers to whether they are prepared
    statements and whether they select all columns. *)
Theorem literals_leave_no_trace (i1 i2 : LintEnv.SqlInfo) (h1 h2 h1' h2' : heap) (o1 o2 : parse) (t1 t2 : ParsedResultItem) :
  ParseObj (LintEnv.sql_ i1) h1 = (Ok (Some o1), h1') -> first_result o1 = Ok t1 ->
  ParseObj (LintEnv.sql_ i2) h2 = (Ok (Some o2), h2') -> first_result o2 = Ok t2 ->
  alike_items (LintEnv.sql_ i1 ++ [0]) (LintEnv.sql_ i2 ++ [0]) t1 t2 = true ->
  exists p, Process i1 h1 = (Ok (0, conclude_info p (with_parse o1 (sqltype t1) i1)), h1')
    /\ Process i2 h2 = (Ok (0, conclude_info p (with_parse o2 (sqltype t2) i2)), h2').
Proof.
  intros E1 F1 E2 F2 H. destruct (process_alike _ _ t1 t2 H) as (p & P1 & P2). exists p. unfold Process.
  rewrite (M_bind_run _ _ _ _ _ E1), (M_bind_run _ _ _ _ _ E2), F1, F2. unfold mbind, M_bind, raise. cbv zeta.
  assert (forall o t i, LintEnv.sql_ (with_parse o t i) = LintEnv.sql_ i) as Hw by done. by rewrite !Hw, P1, P2.
Qed.

(** The first statement of a text that parses. *)
Definition parsed_of (sql : string) : option (parse * ParsedResultItem) :=
  match ParseObj (bytes_of sql) SqlParse.plenty with
  | (Ok (Some o), _) => match first_result o with Ok t => Some (o, t) | _ => None end
  | _ => None
  end.

Definition some_parse : parse * ParsedResultItem := (SqlLint.SqlLint.no_parse, MkResultItem NoObj SQLTYPE_UNKNOWN).

Definition one : string := "select a, 'x' from t left join u on t.i = u.i where b not in (1, 2) and c like 'y%' limit 3".
Definition two : string := "select a, 'other' from t left join u on t.i = u.i where b not in (10, 45) and c like '' limit 30".

Lemma literals_leave_no_trace_witness :
  exists p, Process (executed one) SqlParse.plenty = (Ok (0, conclude_info p (with_parse (default some_parse (parsed_of one)).1 SQLTYPE_SELECT (executed one))), SqlParse.plenty)
    /\ Process (executed two) SqlParse.plenty = (Ok (0, conclude_info p (with_parse (default some_parse (parsed_of two)).1 SQLTYPE_SELECT (executed two))), SqlParse.plenty).
Proof.
  apply (literals_leave_no_trace (executed one) (executed two) SqlParse.plenty SqlParse.plenty SqlParse.plenty SqlParse.plenty
    (default some_parse (parsed_of one)).1 (default some_parse (parsed_of two)).1 (default some_parse (parsed_of one)).2 (default some_parse (parsed_of two)).2);
    vm_compute; reflexivity.
Defined.

(** ** Keys *)

Definition key (sql : string) : result (list Z) := '(_, w, _, _) ← processed sql; Ok w.

Example key_of_select : key "select a from t where b not in (1, 2) and (c like 'x%' or d between 1 and 2) limit 3"
  = Ok (bytes_of "select a from t where b not in(?,?) and (c like ? or d between ? and ?) limit ?").
Proof. vm_compute. reflexivity. Qed.

Example key_of_insert : key "insert into t(a, b) values (1, 'x'), (2, ?)" = Ok (bytes_of "insert into t(a,b) values(?,?),(?,?)").
Proof. vm_compute. reflexivity. Qed.

(** Operators that [ProcessToken] has no text for are left out, and so are the words between compound selects other than
    UNION: statements of different meaning share a key. *)
Lemma different_statements_share_a_key :
  key "select a from t where b + 1 = 2" = key "select a from t where b - 1 = 2"
  /\ key "select 1 from t where c is null" = key "select 1 from t where c is not null"
  /\ key "select 1 union all select 2" = key "select 1 intersect select 2"
  /\ key "select a from t where b + 1 = 2" = Ok (bytes_of "select a from t where b? = ?").
Proof. vm_compute. done. Qed.
End ProcessFacts.
