(* ===== verification/LintRun.v ===== *)
(** Checking the statements of a database (src/core/lint.cc and lint_manager.cc).

    Module [Lint] has the queue of statements, the schedule of the checkers and the loop of the checking thread.
    A checker is a record of its methods; the five of [Checkers] are instances, and the one on query plans is an
    argument.  Taking a statement from the queue and checking it is one step.

    [LintFacts] follows statements from the queue to the callback. *)
From S2P Require Import Prelude Arch Machine Libc Md5 SqlUtil SqlToken SqlParse SqlTree SqlTreeFacts SqlYyTables SqlYy SqlYyTypes SqlYyAutomaton SqlYyFacts SqlLint LintCore LintCheckers LintProcess.

Module Lint.
Import LintUtil LintEnv Checkers.

(** [Checker]: [Check] is given the state of the object and returns the new one. *)
Record Checker := MkChecker {
  GetCheckScene : CheckScene;
  GetSqlCntToSample : Z;
  state : str;
  Check : str -> SqlInfo -> list Issue -> M LintEnv (list Issue * str)
}.

Definition with_state (c : Checker) (s : str) : Checker := MkChecker (GetCheckScene c) (GetSqlCntToSample c) s (Check c).

(** [checkers_] maps a scene that has no entry to no checkers; [published] are the calls of [issued_callback_]. *)
Record Lint := MkLint {
  env_ : LintEnv;
  checkers_ : CheckScene -> list Checker;
  checked_sql_cache_ : LruCache.LRUCache (K := str) (V := bool);
  queue_ : list SqlInfo;
  exit_ : bool;
  memory : SqlParse.heap;
  published : list (str * list Issue)
}.

Definition set_env (e : LintEnv) (s : Lint) : Lint :=
  MkLint e (checkers_ s) (checked_sql_cache_ s) (queue_ s) (exit_ s) (memory s) (published s).
Definition set_checkers (c : CheckScene -> list Checker) (s : Lint) : Lint :=
  MkLint (env_ s) c (checked_sql_cache_ s) (queue_ s) (exit_ s) (memory s) (published s).
Definition set_cache (c : LruCache.LRUCache) (s : Lint) : Lint :=
  MkLint (env_ s) (checkers_ s) c (queue_ s) (exit_ s) (memory s) (published s).
Definition set_queue (q : list SqlInfo) (s : Lint) : Lint :=
  MkLint (env_ s) (checkers_ s) (checked_sql_cache_ s) q (exit_ s) (memory s) (published s).
Definition set_exit (b : bool) (s : Lint) : Lint :=
  MkLint (env_ s) (checkers_ s) (checked_sql_cache_ s) (queue_ s) b (memory s) (published s).
Definition set_memory (h : SqlParse.heap) (s : Lint) : Lint :=
  MkLint (env_ s) (checkers_ s) (checked_sql_cache_ s) (queue_ s) (exit_ s) h (published s).
Definition set_published (l : list (str * list Issue)) (s : Lint) : Lint :=
  MkLint (env_ s) (checkers_ s) (checked_sql_cache_ s) (queue_ s) (exit_ s) (memory s) l.

Definition in_env {A} (m : M LintEnv A) : M Lint A := lift env_ set_env m.

(** The constructor, before its thread starts. *)
Definition new_lint (db_path : str) : Lint := MkLint (new_env db_path) (fun _ => []) (LruCache.empty_cache 500) [] false SqlParse.plenty [].

(** ** Checkers *)

Definition update (f : CheckScene -> list Checker) (scene : CheckScene) (l : list Checker) : CheckScene -> list Checker :=
  fun x => if decide (x = scene) then l else f x.

Definition RegisterChecker (c : Checker) : M Lint unit :=
  modify (fun s => set_checkers (update (checkers_ s) (GetCheckScene c) (checkers_ s (GetCheckScene c) ++ [c])) s).

(** A checker without a state of its own; [Checker::GetSqlCntToSample] returns 0 where it is not overridden. *)
Definition stateless (scene : CheckScene) (f : SqlInfo -> list Issue -> M LintEnv (list Issue)) : Checker :=
  MkChecker scene 0 [] (fun st i issues => issues ← f i issues; mret (issues, st)).

Section Lint.
Context `{Ar : Arch} (now : nat -> Z) (exec : option (str -> str -> Z * list row)).
Context (held : IndexInfo -> bool) (std_sort : list IndexInfo -> list IndexInfo) (FormatTime : Z -> str).
(** [new ExplainQueryPlanChecker()]. *)
Context (query_plans : Checker).

Definition redundant_index : Checker := stateless kAfterInit (fun _ => Check_RedundantIndex now exec held std_sort).
Definition avoid_auto_increment : Checker := stateless kAfterInit (fun _ => Check_AvoidAutoIncrement now exec).
Definition avoid_select_all : Checker := stateless kUncheckedSql (Check_AvoidSelectAll now).
Definition without_rowid_better : Checker := stateless kAfterInit (fun _ => Check_WithoutRowIdBetter now exec).
Definition prepared_statement_better : Checker :=
  MkChecker kSample kSqlCntToSample [] (fun recent _ issues => Check_PreparedStatementBetter now FormatTime issues recent).

Definition register_by_name (checker_name : str) : M Lint unit :=
  if decide (kExplainQueryPlanCheckerName = checker_name) then RegisterChecker query_plans
  else if decide (kRedundantIndexCheckerName = checker_name) then RegisterChecker redundant_index
  else if decide (kAvoidAutoIncrementCheckerName = checker_name) then RegisterChecker avoid_auto_increment
  else if decide (kAvoidSelectAllCheckerName = checker_name) then RegisterChecker avoid_select_all
  else if decide (kWithoutRowIdBetterCheckerName = checker_name) then RegisterChecker without_rowid_better
  else if decide (kPreparedStatementBetterCheckerName = checker_name) then RegisterChecker prepared_statement_better
  else mret tt.

(** [check_scene != kSample || cnt % n == 0]: a division by zero where [n] is not overridden. *)
Definition due (scene : CheckScene) (cnt n : Z) : result bool :=
  if decide (scene = kSample) then if n =? 0 then Undef else Ok (Z.rem cnt n =? 0) else Ok true.

Fixpoint schedule_loop (scene : CheckScene) (i : SqlInfo) (l : list Checker) (issues : list Issue) : M LintEnv (list Issue * list Checker) :=
  match l with
  | [] => mret (issues, [])
  | c :: l =>
      cnt ← gets checked_sql_cnt_;
      run ← raise (due scene cnt (GetSqlCntToSample c));
      '(issues, st) ← (if run : bool then Check c (state c) i issues else mret (issues, state c));
      '(issues, l) ← schedule_loop scene i l issues;
      mret (issues, with_state c st :: l)
  end.

Definition ScheduleCheckers (scene : CheckScene) (i : SqlInfo) (issues : list Issue) : M Lint (list Issue) :=
  s ← gets id;
  '(issues, l) ← in_env (schedule_loop scene i (checkers_ s scene) issues);
  modify (fun s => set_checkers (update (checkers_ s) scene l) s);;
  mret issues.

Definition publish (issues : list Issue) : M Lint unit :=
  match issues with
  | [] => mret tt
  | _ => modify (fun s => set_published (published s ++ [(db_path_ (env_ s), issues)]) s)
  end.

(** [SqlInfo()]; the time is not set, and not looked at by the checkers of the scene. *)
Definition no_info : SqlInfo := MkSqlInfo [] SqlTree.SQLTYPE_UNKNOWN [] true false 0 None [] 0 false.

Definition InitCheck : M Lint unit := issues ← ScheduleCheckers kAfterInit no_info []; publish issues.

(** ** The queue *)

(** [sql] and [ext_info] may be NULL. *)
Definition NotifySqlExecution (sql : option str) (time_cost : Z) (ext_info : option str) (in_main_thread : bool) : M Lint unit :=
  match sql with
  | None => mret tt
  | Some sql =>
      reserved ← in_env (IsReserve now sql);
      if reserved : bool then mret tt else
      t ← in_env (GetSysTimeMillisecond now);
      match ext_info with
      | None => raise Segv
      | Some ext =>
          let i := MkSqlInfo sql SqlTree.SQLTYPE_UNKNOWN [] true false t None ext time_cost in_main_thread in
          modify (fun s => set_queue (queue_ s ++ [i]) s)
      end
  end.

Inductive taken := Exit | Wait | Taken (i : SqlInfo).

(** [Wait]: the thread sleeps. *)
Definition TakeSqlInfo : M Lint taken :=
  s ← gets id;
  if exit_ s then mret Exit else
  match queue_ s with
  | [] => mret Wait
  | i :: q => modify (set_queue q);; mret (Taken i)
  end.

(** ** The check of a statement *)

Definition PreProcessSqlString (i : SqlInfo) : SqlInfo :=
  MkSqlInfo (ToLowerCase (trim (sql_ i))) (sql_type_ i) (wildcard_sql_ i) (is_prepared_statement_ i) (is_select_all_ i) (execution_time_ i)
    (parse_obj_ i) (ext_info_ i) (time_cost_ i) (is_in_main_thread_ i).

(** [~SqlInfo]. *)
Definition Release (i : SqlInfo) : result unit :=
  match parse_obj_ i with Some o => fst (SqlTree.sqlite3ParseDelete o) | None => Ok tt end.

Definition check_cached (i : SqlInfo) (issues : list Issue) : M Lint (list Issue) :=
  s ← gets id;
  '(checked, cache) ← raise (LruCache.Get (key_of i) (checked_sql_cache_ s));
  modify (set_cache cache);;
  match checked with
  | Some _ => mret issues
  | None =>
      issues ← ScheduleCheckers kUncheckedSql i issues;
      s ← gets id;
      cache ← raise (LruCache.Put (key_of i) true (checked_sql_cache_ s));
      modify (set_cache cache);;
      mret issues
  end.

(** The body of the loop of [Check]. *)
Definition check_statement (i : SqlInfo) : M Lint unit :=
  in_env IncSqlCnt;;
  let i := PreProcessSqlString i in
  if negb (IsSqlSupportCheck (sql_ i)) then in_env (AddToSqlHistory i) else
  '(r, i) ← lift memory set_memory (SqlInfoProcessor.Process i);
  if negb (r =? 0) then in_env (AddToSqlHistory i) else
  in_env (AddToSqlHistory (CopyWithoutParse i));;
  issues ← ScheduleCheckers kSample i [];
  issues ← check_cached i issues;
  publish issues;;
  raise (Release i);;
  in_env CheckReleaseHistory.

(** A round of the thread: whether it goes on. *)
Definition check_round : M Lint bool :=
  t ← TakeSqlInfo;
  match t with
  | Exit => mret false
  | Wait => mret true
  | Taken i => check_statement i;; mret true
  end.

(** [~Lint], before it joins the threads. *)
Definition stop : M Lint unit := modify (set_exit true).

Fixpoint rounds (n : nat) : M Lint unit :=
  match n with O => mret tt | S n => go ← check_round; if go : bool then rounds n else mret tt end.

(** ** Several databases *)

Abbreviation lints := (gmap str Lint).

Definition Install (db_path : str) (m : lints) : lints :=
  match m !! db_path with Some _ => m | None => <[db_path := new_lint db_path]> m end.

Definition Uninstall (db_path : str) (m : lints) : lints := match m !! db_path with Some _ => delete db_path m | None => m end.

(** An operation of the [Lint] of a database, if it is installed. *)
Definition with_lint (db_path : str) (c : M Lint unit) (m : lints) : result unit * lints :=
  match m !! db_path with
  | None => (Ok tt, m)
  | Some l => let '(r, l) := c l in (r, <[db_path := l]> m)
  end.

Definition manager_notify (db_path : str) (sql : option str) (time_cost : Z) (ext_info : option str) (main : bool) : lints -> result unit * lints :=
  with_lint db_path (NotifySqlExecution sql time_cost ext_info main).
Definition manager_SetWhiteList (db_path : str) (w : gmap str (gset str)) : lints -> result unit * lints :=
  with_lint db_path (in_env (SetWhiteList w)).
Definition EnableChecker (db_path : str) (checker_name : str) : lints -> result unit * lints :=
  with_lint db_path (register_by_name checker_name).
End Lint.
End Lint.

(** * From the queue to the callback *)

Module LintFacts.
Import LintUtil LruCache LintEnv Checkers CheckersFacts Lint.

(** ** What checkers may do *)

Definition keeps_env (s s' : LintEnv) : Prop := white_list_ s' = white_list_ s /\ checked_sql_cnt_ s' = checked_sql_cnt_ s.

(** The statements of the issues about selecting everything. *)
Definition select_all_sqls (issues : list Issue) : list str :=
  map sql (List.filter (fun i => match issue_type i with kAvoidSelectAllChecker => true | _ => false end) issues).

(** [reports c R]: whatever its state, [c] adds issues to the list, and those about selecting everything are [R]. *)
Definition reports (c : Checker) (R : gmap str (gset str) -> SqlInfo -> list str) : Prop :=
  forall st i issues s, exists new st' s', Check c st i issues s = (Ok ((issues ++ new)%list, st'), s')
    /\ keeps_env s s' /\ select_all_sqls new = R (white_list_ s) i.

Definition nothing (w : gmap str (gset str)) (i : SqlInfo) : list str := [].

(** In the scene of samples only those that report nothing of the kind, with a rate of their own. *)
Definition fit_for (scene : CheckScene) (c : Checker) (R : gmap str (gset str) -> SqlInfo -> list str) : Prop :=
  reports c R /\ (scene = kSample -> GetSqlCntToSample c <> 0 /\ R = nothing).

Lemma select_all_app a b : select_all_sqls (a ++ b) = (select_all_sqls a ++ select_all_sqls b)%list.
Proof. unfold select_all_sqls. by rewrite List.filter_app, map_app. Qed.

Lemma fit_state scene c st R : fit_for scene c R -> fit_for scene (with_state c st) R.
Proof. done. Qed.

Lemma schedule_reports scene i cs Rs : Forall2 (fit_for scene) cs Rs -> forall issues s,
  exists new cs' s', schedule_loop scene i cs issues s = (Ok ((issues ++ new)%list, cs'), s') /\ keeps_env s s'
    /\ Forall2 (fit_for scene) cs' Rs /\ select_all_sqls new = concat (map (fun R => R (white_list_ s) i) Rs).
Proof.
  induction 1 as [|c R cs Rs [Hc Hscene] Hcs IH]; intros issues s.
  { exists [], [], s. rewrite app_nil_r. done. }
  cbn [schedule_loop map concat]. unfold mbind at 1, M_bind at 1, gets at 1.
  assert (exists run, due scene (checked_sql_cnt_ s) (GetSqlCntToSample c) = Ok run /\ (run = false -> R = nothing)) as (run & Erun & Hrun).
  { unfold due. destruct (decide (scene = kSample)) as [E|E]; [|by exists true]. destruct (Hscene E) as [Hn ->].
    destruct (Z.eqb_spec (GetSqlCntToSample c) 0); [done|]. by eexists. }
  rewrite Erun. unfold mbind at 1, M_bind at 1, raise at 1.
  assert (exists new st s1, (if run then Check c (state c) i issues else mret (issues, state c)) s = (Ok ((issues ++ new)%list, st), s1)
    /\ keeps_env s s1 /\ select_all_sqls new = R (white_list_ s) i) as (new & st & s1 & E1 & [Hw1 Hn1] & Hnew).
  { destruct run; [apply Hc|]. exists [], (state c), s. rewrite app_nil_r, Hrun by done. done. }
  rewrite (M_bind_run _ _ _ _ _ E1). destruct (IH (issues ++ new)%list s1) as (more & cs' & s2 & E2 & [Hw2 Hn2] & Hcs' & Hmore).
  rewrite (M_bind_run _ _ _ _ _ E2). exists (new ++ more)%list, (with_state c st :: cs'), s2. rewrite app_assoc. split; [done|].
  split; [split; congruence|]. split; [by constructor|]. rewrite select_all_app, Hnew, Hmore. by rewrite Hw1.
Qed.

(** ** The checker of selected columns *)

Definition select_all_report (w : gmap str (gset str)) (i : SqlInfo) : list str :=
  if listed w kAvoidSelectAllCheckerName (wildcard_sql_ i) || listed w kAvoidSelectAllCheckerName (sql_ i) || negb (is_select_all_ i)
  then [] else [sql_ i].

Section Builtin.
Context `{Ar : Arch} (now : nat -> Z) (FormatTime : Z -> str).

Lemma avoid_select_all_reports : reports (avoid_select_all now) select_all_report.
Proof.
  intros st i issues s. unfold avoid_select_all, stateless, select_all_report, Check_AvoidSelectAll, PublishIssue_AvoidSelectAll, GetSysTimeMillisecond, IsInWhiteList.
  cbn [Check]. unfold mbind, M_bind, gets, modify, mret, M_ret. cbn [id].
  fold (listed (white_list_ s) kAvoidSelectAllCheckerName (wildcard_sql_ i)) (listed (white_list_ s) kAvoidSelectAllCheckerName (sql_ i)).
  destruct (_ || listed _ _ (sql_ i)); cbn [orb].
  { exists [], st, s. by rewrite app_nil_r. }
  destruct (is_select_all_ i); cbn [negb]; [by eexists [_], st, _|]. exists [], st, s. by rewrite app_nil_r.
Qed.

Lemma check_buckets_env bs : forall issues recent s, exists new recent' s', check_buckets now FormatTime bs issues recent s = (Ok ((issues ++ new)%list, recent'), s')
  /\ keeps_env s s' /\ select_all_sqls new = [].
Proof.
  induction bs as [|[k b] bs IH]; intros issues recent s; [exists [], recent, s; by rewrite app_nil_r|]. cbn [check_buckets]. destruct b as [|i b]; [apply IH|].
  unfold mbind at 1, M_bind at 1, gets at 1. cbn [id]. destruct (_ || _); [apply IH|]. rewrite ScanCheck_correct. unfold mbind at 1, M_bind at 1, raise at 1.
  destruct (first_long (i :: b)) as [|x r]; [apply IH|].
  unfold PublishIssue_PreparedStatement, GetSysTimeMillisecond, mbind, M_bind, gets, modify, mret, M_ret. cbn [id]. destruct (decide _).
  - destruct (IH issues recent (set_clock (S (clock s)) s)) as (new & recent' & s' & E & Hk & Hn). by exists new, recent', s'.
  - match goal with |- context [check_buckets _ _ bs (issues ++ [?x]) ?r ?s1] => destruct (IH (issues ++ [x])%list r s1) as (new & recent' & s' & E & Hk & Hn); exists (x :: new) end.
    exists recent', s'. rewrite <- app_assoc in E. split; [exact E|]. done.
Qed.

Lemma prepared_reports : fit_for kSample (prepared_statement_better now FormatTime) nothing.
Proof. split; [|done]. intros st i issues s. cbn [Check prepared_statement_better]. unfold Check_PreparedStatementBetter. apply (check_buckets_env _ issues st s). Qed.
End Builtin.

(** ** Statements *)

(** What becomes of a statement before the checkers see it: [None] where it is set aside, and otherwise what the
    processor makes of it. *)
Definition becomes (i : SqlInfo) (o : option SqlInfo) : Prop :=
  let i := PreProcessSqlString i in
  match o with
  | None => parse_obj_ i = None /\ (IsSqlSupportCheck (sql_ i) = false
      \/ exists r j, SqlInfoProcessor.Process i SqlParse.plenty = (Ok (r, j), SqlParse.plenty) /\ r <> 0 /\ parse_obj_ j = None)
  | Some j => IsSqlSupportCheck (sql_ i) = true /\ SqlInfoProcessor.Process i SqlParse.plenty = (Ok (0, j), SqlParse.plenty) /\ Release j = Ok tt
  end.

(** The statements reported, given the keys checked recently, the last one first: those that select everything and are not
    in the white list, unless their key is one of the last five hundred that were checked. *)
Fixpoint expected (R : SqlInfo -> list str) (checked : list (str * bool)) (os : list (option SqlInfo)) : list str :=
  match os with
  | [] => []
  | None :: os => expected R checked os
  | Some i :: os =>
      match value_of (key_of i) checked with
      | Some _ => expected R (touch (key_of i) checked) os
      | None => R i ++ expected R (put 500 (key_of i) true checked) os
      end
  end.

(** All that was published about selecting everything. *)
Definition reported (s : Lint) : list str := concat (map (fun p => select_all_sqls p.2) (published s)).

Section Rounds.
Context (Rs : list (gmap str (gset str) -> SqlInfo -> list str)) (w : gmap str (gset str)).

(** The reports of the checkers for statements that were not checked recently. *)
Definition report (i : SqlInfo) : list str := concat (map (fun R => R w i) Rs).

(** The thread between two statements, with [n] of them to come. *)
Record Idle (n : nat) (checked : list (str * bool)) (s : Lint) : Prop := MkIdle {
  idle_white : white_list_ (env_ s) = w;
  idle_cnt : checked_sql_cnt_ (env_ s) + Z.of_nat n < 2 ^ 31;
  idle_memory : memory s = SqlParse.plenty;
  idle_cache : Refines (checked_sql_cache_ s) checked /\ max_size_ (checked_sql_cache_ s) = 500%nat;
  idle_sample : exists Ss, Forall2 (fit_for kSample) (checkers_ s kSample) Ss;
  idle_unchecked : Forall2 (fit_for kUncheckedSql) (checkers_ s kUncheckedSql) Rs
}.

Lemma fit_sample cs Ss : Forall2 (fit_for kSample) cs Ss -> forall i, concat (map (fun R => R w i) Ss) = [].
Proof. induction 1 as [|c R cs Ss [_ Hn] _ IH]; intros i; [done|]. cbn. destruct (Hn eq_refl) as [_ ->]. by rewrite IH. Qed.

(** One scheduling: the environment and the checkers change, nothing else. *)
Lemma schedule_run scene Ss i issues s : Forall2 (fit_for scene) (checkers_ s scene) Ss ->
  exists new cs e, ScheduleCheckers scene i issues s = (Ok (issues ++ new)%list, set_checkers (update (checkers_ s) scene cs) (set_env e s))
    /\ keeps_env (env_ s) e /\ Forall2 (fit_for scene) cs Ss /\ select_all_sqls new = concat (map (fun R => R (white_list_ (env_ s)) i) Ss).
Proof.
  intros H. destruct (schedule_reports scene i _ _ H issues (env_ s)) as (new & cs & e & E & Hk & Hcs & Hn). exists new, cs, e.
  split; [|done]. unfold ScheduleCheckers, in_env, lift, mbind, M_bind, gets, modify, mret, M_ret. cbn [id]. by rewrite E.
Qed.

(** What publishing adds. *)
Lemma publish_run issues s : exists l, publish issues s = (Ok tt, set_published l s)
  /\ concat (map (fun p => select_all_sqls p.2) l) = (reported s ++ select_all_sqls issues)%list.
Proof.
  unfold publish, reported. destruct issues as [|x issues].
  - exists (published s). split; [by destruct s|]. by rewrite app_nil_r.
  - eexists. split; [done|]. rewrite map_app, concat_app. cbn. by rewrite app_nil_r.
Qed.

(** A statement that the cache knows, and one that it does not. *)
Lemma cached_run n checked i issues s : Idle n checked s ->
  exists new s', check_cached i issues s = (Ok (issues ++ new)%list, s') /\ queue_ s' = queue_ s /\ exit_ s' = exit_ s /\ published s' = published s
    /\ match value_of (key_of i) checked with
       | Some _ => Idle n (touch (key_of i) checked) s' /\ select_all_sqls new = []
       | None => Idle n (put 500 (key_of i) true checked) s' /\ select_all_sqls new = report i
       end.
Proof.
  intros [Hw Hn Hm [Hc Hmax] Hs Hu]. unfold check_cached. unfold mbind at 1, M_bind at 1, gets at 1. cbn [id].
  destruct (get_refines _ _ (key_of i) Hc) as (c1 & E1 & Hc1 & Hmax1). rewrite E1. unfold mbind at 1, M_bind at 1, raise at 1. cbn [fst snd].
  unfold mbind at 1, M_bind at 1, modify at 1. assert (max_size_ c1 = 500%nat) as Hmax1' by congruence. destruct (value_of (key_of i) checked) as [v|] eqn:Ev.
  - exists [], (set_cache c1 s). rewrite app_nil_r. split_and!; done.
  - assert (touch (key_of i) checked = checked) as Et by (unfold touch; by rewrite Ev). rewrite Et in Hc1.
    destruct (schedule_run kUncheckedSql Rs i issues (set_cache c1 s) Hu) as (new & cs & e & E & [Hk1 Hk2] & Hcs & Hnew). rewrite (M_bind_run _ _ _ _ _ E).
    unfold mbind at 1, M_bind at 1, gets at 1. cbn [id checked_sql_cache_ set_checkers set_env set_cache].
    destruct (put_refines _ _ (key_of i) true Hc1) as (c2 & E2 & Hc2 & Hmax2). rewrite E2. unfold mbind, M_bind, raise, modify. eexists new, _. split; [done|].
    rewrite Hmax1' in Hc2, Hmax2. cbn in Hk1, Hk2, Hnew. rewrite Hw in Hnew. split_and!; try done. split; cbn; [congruence|by rewrite Hk2|done|done| |].
    + unfold update. rewrite decide_False by done. done.
    + unfold update. by rewrite decide_True.
Qed.

(** [calm]: nothing but the environment has changed. *)
Definition calm (n : nat) (checked : list (str * bool)) (s s' : Lint) : Prop :=
  Idle n checked s' /\ queue_ s' = queue_ s /\ exit_ s' = exit_ s /\ published s' = published s.

Lemma count_run n checked s : Idle (S n) checked s -> exists s', in_env IncSqlCnt s = (Ok tt, s') /\ calm n checked s s'.
Proof.
  intros [Hw Hn Hm Hc Hs Hu]. unfold in_env, lift, IncSqlCnt, mbind, M_bind, gets, modify.
  assert ((checked_sql_cnt_ (env_ s) + 1 <? 2 ^ 31) = true) as E by lia. rewrite E. eexists. split; [done|]. split_and!; try done.
  split; cbn [env_ set_env white_list_ set_cnt checked_sql_cnt_ memory checked_sql_cache_ checkers_]; try done. lia.
Qed.

Lemma history_run n checked i s : parse_obj_ i = None -> Idle n checked s -> exists s', in_env (AddToSqlHistory i) s = (Ok tt, s') /\ calm n checked s s'.
Proof.
  intros Hp [Hw Hn Hm Hc Hs Hu]. unfold in_env, lift, AddToSqlHistory. rewrite Hp. eexists. split; [done|]. by split_and!.
Qed.

Lemma shorten_run n checked s : Idle n checked s -> exists s', in_env CheckReleaseHistory s = (Ok tt, s') /\ calm n checked s s'.
Proof.
  intros [Hw Hn Hm Hc Hs Hu]. unfold in_env, lift, CheckReleaseHistory, ReleaseHistory, mbind, M_bind, gets, modify.
  destruct (1000 <=? _)%nat; [destruct (200 <? _)%nat|]; (eexists; split; [done|]; by split_and!).
Qed.

Lemma processed_run n checked i r j s : SqlInfoProcessor.Process i SqlParse.plenty = (Ok (r, j), SqlParse.plenty) -> Idle n checked s ->
  exists s', lift memory set_memory (SqlInfoProcessor.Process i) s = (Ok (r, j), s') /\ calm n checked s s'.
Proof.
  intros E [Hw Hn Hm Hc Hs Hu]. unfold lift. rewrite Hm, E. eexists. split; [done|]. by split_and!.
Qed.

Lemma calm_reported n checked s s' : calm n checked s s' -> reported s' = reported s.
Proof. intros (_ & _ & _ & E). unfold reported. by rewrite E. Qed.

Lemma calm_trans n checked s s1 s2 : calm n checked s s1 -> calm n checked s1 s2 -> calm n checked s s2.
Proof. intros (_ & H1 & H2 & H3) (H & H4 & H5 & H6). split_and!; [done|congruence..]. Qed.

(** The keys after a statement. *)
Definition next_keys (checked : list (str * bool)) (o : option SqlInfo) : list (str * bool) :=
  match o with
  | None => checked
  | Some i => match value_of (key_of i) checked with Some _ => touch (key_of i) checked | None => put 500 (key_of i) true checked end
  end.

Lemma expected_step checked o os : expected report checked (o :: os) = (expected report checked [o] ++ expected report (next_keys checked o) os)%list.
Proof. destruct o as [i|]; [|done]. cbn. destruct (value_of (key_of i) checked); [done|]. by rewrite app_nil_r. Qed.

(** A statement that is set aside. *)
Lemma aside_run n checked i s : becomes i None -> Idle (S n) checked s ->
  exists s', check_statement i s = (Ok tt, s') /\ calm n checked s s'.
Proof.
  intros [Hp Ho] Hi. unfold check_statement. destruct (count_run n checked s Hi) as (s1 & E1 & H1). rewrite (M_bind_run _ _ _ _ _ E1).
  destruct (IsSqlSupportCheck (sql_ (PreProcessSqlString i))) eqn:Es; cbn [negb].
  - destruct Ho as [?|(r & j & E & Hr & Hj)]; [done|]. destruct (processed_run n checked _ r j s1 E (proj1 H1)) as (s2 & E2 & H2).
    rewrite (M_bind_run _ _ _ _ _ E2). destruct (Z.eqb_spec r 0); [done|]. cbn [negb]. destruct (history_run n checked j s2 Hj (proj1 H2)) as (s3 & E3 & H3).
    exists s3. split; [exact E3|]. exact (calm_trans _ _ _ _ _ (calm_trans _ _ _ _ _ H1 H2) H3).
  - destruct (history_run n checked _ s1 Hp (proj1 H1)) as (s3 & E3 & H3). exists s3. split; [exact E3|]. by eapply calm_trans.
Qed.

Lemma sample_run n checked i issues s : Idle n checked s ->
  exists new s', ScheduleCheckers kSample i issues s = (Ok (issues ++ new)%list, s') /\ calm n checked s s' /\ select_all_sqls new = [].
Proof.
  intros [Hw Hn Hm Hc [Ss Hs] Hu]. destruct (schedule_run kSample Ss i issues s Hs) as (new & cs & e & E & [Hk1 Hk2] & Hcs & Hnew).
  eexists new, _. split; [exact E|]. rewrite Hw, (fit_sample _ _ Hs) in Hnew. split; [|done]. split_and!; try done. split; cbn; [congruence|by rewrite Hk2|done|done| |].
  - exists Ss. unfold update. by rewrite decide_True.
  - unfold update. by rewrite decide_False.
Qed.

(** One statement. *)
Lemma statement_run n checked i o s : becomes i o -> Idle (S n) checked s ->
  exists s', check_statement i s = (Ok tt, s') /\ queue_ s' = queue_ s /\ exit_ s' = exit_ s /\ Idle n (next_keys checked o) s'
    /\ reported s' = (reported s ++ expected report checked [o])%list.
Proof.
  destruct o as [j|]; intros Ho Hi.
  2: { destruct (aside_run n checked i s Ho Hi) as (s' & E & H). exists s'. split; [done|]. destruct (H) as (H1 & H2 & H3 & _).
       split_and!; try done. rewrite (calm_reported _ _ _ _ H). by rewrite app_nil_r. }
  destruct Ho as (Es & E & Hr). unfold check_statement. destruct (count_run n checked s Hi) as (s1 & E1 & H1). rewrite (M_bind_run _ _ _ _ _ E1), Es. cbn [negb].
  destruct (processed_run n checked _ 0 j s1 E (proj1 H1)) as (s2 & E2 & H2). rewrite (M_bind_run _ _ _ _ _ E2). cbn [Z.eqb negb].
  destruct (history_run n checked (CopyWithoutParse j) s2 eq_refl (proj1 H2)) as (s3 & E3 & H3). rewrite (M_bind_run _ _ _ _ _ E3).
  destruct (sample_run n checked j [] s3 (proj1 H3)) as (new & s4 & E4 & H4 & Hnew). rewrite (M_bind_run _ _ _ _ _ E4). cbn [app].
  destruct (cached_run n checked j new s4 (proj1 H4)) as (more & s5 & E5 & Hq & Hx & Hp & H5). rewrite (M_bind_run _ _ _ _ _ E5).
  destruct (publish_run (new ++ more) s5) as (l & E6 & Hl). rewrite (M_bind_run _ _ _ _ _ E6). rewrite Hr. unfold mbind, M_bind, raise.
  assert (Idle n (next_keys checked (Some j)) (set_published l s5) /\ select_all_sqls more = expected report checked [Some j]) as [H6 Hmore].
  { cbn [next_keys expected]. destruct (value_of (key_of j) checked); destruct H5 as [[] Hm]; rewrite ?app_nil_r; split; try done. }
  destruct (shorten_run n _ _ H6) as (s7 & E7 & H7). rewrite E7.
  pose proof (calm_trans _ _ _ _ _ (calm_trans _ _ _ _ _ (calm_trans _ _ _ _ _ H1 H2) H3) H4) as H.
  exists s7. split; [done|]. destruct H7 as (Hi7 & Hq7 & Hx7 & Hp7). destruct H as (_ & Hq4 & Hx4 & Hp4).
  split_and!; [cbn in Hq7; congruence|cbn in Hx7; congruence|done|]. unfold reported in *. rewrite Hp7. cbn [published set_published]. rewrite Hl, select_all_app, Hnew, Hmore. cbn [app].
  by rewrite Hp, Hp4.
Qed.

(** The queue, one statement after the other. *)
Lemma rounds_run is_ : forall os checked s, Forall2 becomes is_ os -> Idle (length is_) checked s -> queue_ s = is_ -> exit_ s = false ->
  exists s', rounds (length is_) s = (Ok tt, s') /\ queue_ s' = [] /\ reported s' = (reported s ++ expected report checked os)%list.
Proof.
  induction is_ as [|i is_ IH]; intros os checked s Hos Hi Hq Hx.
  { apply Forall2_nil_inv_l in Hos as ->. exists s. cbn. by rewrite app_nil_r. }
  apply Forall2_cons_inv_l in Hos as (o & os' & Ho & Hos & ->). cbn [length rounds]. unfold check_round, TakeSqlInfo.
  assert (Idle (length (i :: is_)) checked (set_queue is_ s)) as Hi' by (destruct Hi; by split).
  destruct (statement_run (length is_) checked i o (set_queue is_ s) Ho Hi') as (s1 & E & Hq1 & Hx1 & H1 & Hr1).
  destruct (IH os' (next_keys checked o) s1 Hos H1 Hq1) as (s' & E' & Hq' & Hr'); [by rewrite Hx1|].
  exists s'. unfold mbind, M_bind, gets, modify, mret, M_ret. cbn [id]. rewrite Hx, Hq, E, E'. split; [done|]. split; [done|].
  assert (reported (set_queue is_ s) = reported s) as Hq2 by done. rewrite Hr', Hr1, Hq2, (expected_step checked o os'). by rewrite app_assoc.
Qed.
End Rounds.

(** ** The theorem *)

(** Reports of [pre], of one checker, and of [post]. *)
Definition around (pre post : list Checker) (R : gmap str (gset str) -> SqlInfo -> list str) : list (gmap str (gset str) -> SqlInfo -> list str) :=
  map (fun _ => nothing) pre ++ R :: map (fun _ => nothing) post.

Lemma concat_nothing w i (l : list Checker) : concat (map (fun R => R w i) (map (fun _ => nothing) l)) = [].
Proof. induction l; cbn; [done|by rewrite IHl]. Qed.

Lemma report_around pre post R w i : report (around pre post R) w i = R w i.
Proof. unfold report, around. rewrite map_app, concat_app, concat_nothing. cbn [map concat]. by rewrite concat_nothing, app_nil_r. Qed.

Lemma fit_nothing scene l : Forall (fun c => fit_for scene c nothing) l -> Forall2 (fit_for scene) l (map (fun _ => nothing) l).
Proof. induction 1; cbn; by constructor. Qed.

Lemma fit_around c R pre post : reports c R -> Forall (fun c => reports c nothing) (pre ++ post) ->
  Forall2 (fit_for kUncheckedSql) (pre ++ c :: post) (around pre post R).
Proof.
  intros Hc H. assert (forall l, Forall (fun c => reports c nothing) l -> Forall2 (fit_for kUncheckedSql) l (map (fun _ => nothing) l)) as Hl.
  { intros l Hl. apply fit_nothing. eapply Forall_impl; [exact Hl|]. by intros x Hx. }
  apply Forall_app in H as [H1 H2]. apply Forall2_app; [by apply Hl|]. constructor; [by split|by apply Hl].
Qed.

Lemma expected_ext R R' os : (forall i, R i = R' i) -> forall checked, expected R checked os = expected R' checked os.
Proof. intros H. induction os as [|[i|] os IH]; intros checked; cbn; [done| |apply IH]. rewrite H. destruct (value_of _ _); by rewrite IH. Qed.


(** Two checkers, and four statements in the queue. *)
Definition waiting (sql : string) : SqlInfo := SqlInfoProcessor.executed sql.

Definition no_delegate : option (str -> str -> Z * list row) := None.

Definition enabled : Lint :=
  set_queue (map waiting ["SELECT * from t where a = 1"; "select * from t where a = 2"; "pragma table_info(t)"; " select * from u"; "select b from u"]%string)
    (RegisterChecker (avoid_select_all (Ar := arch_aarch64) (fun _ => 7))
      (RegisterChecker (prepared_statement_better (Ar := arch_aarch64) (fun _ => 7) (fun _ => [])) (new_lint (bytes_of "/data/app.db"))).2).2.

(** What [Process] makes of a statement. *)
Definition outcome (i : SqlInfo) : option SqlInfo :=
  match SqlInfoProcessor.Process (PreProcessSqlString i) SqlParse.plenty with (Ok (r, j), _) => if r =? 0 then Some j else None | _ => None end.

Lemma becomes_known i : IsSqlSupportCheck (sql_ (PreProcessSqlString i)) = true ->
  (let j := default i (outcome i) in SqlInfoProcessor.Process (PreProcessSqlString i) SqlParse.plenty = (Ok (0, j), SqlParse.plenty) /\ Release j = Ok tt) ->
  becomes i (Some (default i (outcome i))).
Proof. by intros H1 [H2 H3]. Qed.


(** ** The ends of the schedule *)

(** Statements that are still in the queue when the object is destroyed are not checked. *)
Lemma stopped_round `{Ar : Arch} s : check_round (stop s).2 = (Ok false, (stop s).2).
Proof. done. Qed.

(** A checker of samples that does not override its rate stops the process. *)
Lemma rate_not_set i st f issues e : (schedule_loop kSample i [MkChecker kSample 0 st f] issues e).1 = Undef.
Proof. done. Qed.

(** Statements that are not supported stay in the history, however many there are: it is only shortened behind a
    statement that was checked. *)
Lemma history_grows l : forall s,
  Forall (fun i => IsSqlSupportCheck (sql_ (PreProcessSqlString i)) = false /\ parse_obj_ i = None) l ->
  queue_ s = l -> exit_ s = false -> checked_sql_cnt_ (env_ s) + Z.of_nat (length l) < 2 ^ 31 ->
  exists s', rounds (length l) s = (Ok tt, s') /\ length (sql_history_ (env_ s')) = (length (sql_history_ (env_ s)) + length l)%nat.
Proof.
  induction l as [|i l IH]; intros s Hl Hq Hx Hn; [exists s; split; [done|cbn; lia]|]. apply Forall_cons in Hl as [[Hi Hp] Hl]. cbn [length] in Hn.
  set (e := set_history (sql_history_ (env_ s) ++ [PreProcessSqlString i]) (set_cnt (checked_sql_cnt_ (env_ s) + 1) (env_ s))).
  destruct (IH (set_env e (set_queue l s)) Hl eq_refl Hx) as (s' & E & Hlen); [cbn; lia|]. exists s'. split.
  - cbn [length rounds]. unfold check_round, TakeSqlInfo, check_statement, in_env, lift, IncSqlCnt, AddToSqlHistory, mbind, M_bind, gets, modify, mret, M_ret. cbn [id].
    rewrite Hx, Hq. cbn [env_ set_queue]. assert ((checked_sql_cnt_ (env_ s) + 1 <? 2 ^ 31) = true) as En by lia. rewrite En, Hi. cbn [negb].
    assert (parse_obj_ (PreProcessSqlString i) = None) as -> by done. exact E.
  - rewrite Hlen. cbn. rewrite length_app. cbn. lia.
Qed.
End LintFacts.
